(* ===== verification/_CoqProject ===== *)
-Q . S2P
Prelude.v
Text.v
Json.v
QtInterface.v
QtModel.v
Ipv4.v
IpAddress.v
RoutePolicy.v
PolicyLifecycle.v
RuleMatcher.v
ServerRouting.v
UpdatePolicy.v
DnsConvergence.v
RemoteLogHealth.v
OperatorCommand.v
ConfigKeys.v
JsonText.v
ConfigCodec.v
AwgConfig.v
TunnelConfigs.v
ProxyConfigs.v
XrayConfig.v
QueuedSnapshot.v
SessionRestore.v
ByteText.v
Command.v
JsonC.v
JournalStore.v
TransactionJournal.v
RouteGrammar.v
RouteState.v
RouteRules.v
FullTunnel.v
RouteTransactions.v
RouteStartup.v
RouteFrame.v
RouteSafety.v
RouteOwnership.v
RouteTunnel.v
RouteCommit.v
RouteChoice.v
RouteRestart.v
RouteResume.v
RouteExamples.v
NamespacePolicy.v
NamespaceRules.v
Regex.v
ProfileStore.v
HeadlessProtocol.v
PolicyEndpoint.v
BypassRoutes.v
RoutingController.v
RoutingConnect.v
ControllerSafety.v
ControllerRestart.v
ControllerAdoption.v
ControllerTunnel.v
ControllerExamples.v
JsonTokens.v
PauseJson.v
PausedStore.v
JsonModel.v
RollbackState.v
RollbackCoordinator.v
RollbackFiles.v
RollbackSafety.v
RollbackInvariant.v
RollbackTheorems.v
RollbackTermination.v
RollbackAcknowledge.v
RollbackExamples.v
ExclusionPolicy.v
InterfaceConfig.v
PrivilegedDaemon.v
DaemonSafety.v
DaemonExamples.v
LaunchPolicy.v
DirectiveSyntax.v
PrivilegedProcess.v
PrivilegedLaunch.v
