(* ===== verification/Prelude.v ===== *)
(** * Verification of the Amnezia VPN client

    This library models the decision-making code of the Amnezia VPN client and
    of its headless daemon, and proves what that code promises.  Definitions
    follow the C++ sources function by function and keep their names; the C++
    file and function of each one are given in the header of its file.

    ** The program

    The client (src/client) keeps server and protocol configurations, decides
    which routes a server may manage, resolves their names, restores native VPN
    sessions, and talks to operators and to remote log collectors.  The headless
    daemon (src/headless) installs those routes in the Linux kernel through [ip]
    and [resolvectl], keeps a receipt of what it owns, and refuses to work when
    it cannot prove what the host holds.  The migration helper
    (src/client/server_scripts/awg_migration/native) moves a running AmneziaWG
    container to a new one under a transaction journal.  On the desktop the
    privileged daemon (src/client/daemon) brings interfaces up and owns the routes
    that bypass them, and the privileged service (src/ipc) starts the external
    programs a client asks for.

    The parts meet as follows.  A policy document is parsed (ServerRouting) and
    admitted (RoutePolicy, PolicyLifecycle); its names are resolved on a schedule
    (DnsConvergence); the routes that result are installed by the reconciler
    (RouteState ... RouteStartup), whose grammar shares its destination and
    address types with the policy; the routing controller (PolicyEndpoint ...
    RoutingConnect) fetches the policy of a stored profile (ProfileStore) and
    drives the reconciler; the rollback coordinator
    (RollbackCoordinator) pauses the same store while an older version is
    installed; the rule matcher (RuleMatcher) answers
    operators (OperatorCommand) about the same stored rules.  The stored
    configurations (ConfigKeys ... XrayConfig) are what the updater
    (UpdatePolicy) and the session restore (SessionRestore) bind to.  The
    privileged daemon (PrivilegedDaemon) takes the managed routes of the same
    policy as exclusions and replaces them through a transaction
    (ExclusionPolicy) that the platform runs.

    ** Files

    - Prelude, Text, Json: results and errors, lists, integers, UTF-16 and byte
      strings, QJsonValue with its doubles, ordered objects.
    - QtInterface: what the code uses of Qt and of the C library as type classes
      (text classification, addresses and URLs, versions and times, digests and
      JSON text), with the documented laws as separate classes; QtModel: an ASCII
      instance that satisfies the laws, used by the witnesses.
    - Ipv4, IpAddress: 32-bit ranges; client/mozilla/shared/ipaddress.cpp.
    - RoutePolicy, PolicyLifecycle: client/core/utils/managedRoutePolicy.h.
    - RuleMatcher: client/core/utils/routeRuleMatcher.cpp.
    - ServerRouting: headless/serverRoutingPolicy.cpp.
    - UpdatePolicy: client/core/utils/selfhostedUpdatePolicy.h.
    - DnsConvergence: client/core/utils/managedDnsConvergence.h.
    - RemoteLogHealth: client/core/utils/remoteLogBatchHealth.h.
    - OperatorCommand: client/core/utils/operatorCommand.h and
      awgMaintenanceCommand.h.
    - ConfigKeys, JsonText, ConfigCodec, AwgConfig, TunnelConfigs, ProxyConfigs,
      XrayConfig: client/core/models/protocols/*ProtocolConfig.cpp.
    - QueuedSnapshot: client/core/utils/boundedQueuedSnapshot.h, as a step
      relation over every interleaving of its callbacks.
    - SessionRestore: client/core/utils/nativeSessionRestore.h.
    - ByteText, Command, JsonC: bytes of std::string, the monad of programs that
      run commands and leave early ([hoare], [keeps], [total], [leaves]), json-c.
    - JournalStore, TransactionJournal: native/transaction_journal.cpp, the save
      as a sequence of system calls with a crash after any of them.
    - RouteGrammar, RouteState, RouteRules, FullTunnel, RouteTransactions,
      RouteStartup: headless/linuxRouteReconciler.cpp: parsers, the object and
      its files, priorities, the full tunnel, the operations, and the start of a
      new process.  RouteFrame holds the framing lemmas and the
      relation between a snapshot and the queries it came from; RouteSafety,
      RouteOwnership, RouteTunnel, RouteCommit, RouteChoice and RouteRestart hold
      the theorems; RouteExamples runs everything on a small kernel.
    - NamespacePolicy, NamespaceRules: native/policy.cpp.
    - ProfileStore, HeadlessProtocol: headless/profileStore.cpp and
      headlessProtocol.cpp; Regex: the part of QRegularExpression they and the
      controller use, as a backtracking matcher.
    - PolicyEndpoint, RoutingController, RoutingConnect:
      headless/headlessRoutingController.cpp: endpoints and bypass routes, the
      receipt and the start of a process, and connect, refresh and disconnect.
      The controller is written against the class Router of its reconciler.
      BypassRoutes, ControllerSafety, ControllerRestart and ControllerAdoption
      hold its theorems.  ControllerTunnel makes the reconciler an instance of
      Router and follows a connection down to the kernel;
      ControllerExamples runs both on the small kernel.
    - JsonTokens, PauseJson, PausedStore, RollbackState, RollbackCoordinator:
      headless/rollbackCoordinator.cpp: the token scanner and the walk that
      switches automatic updates off in the bytes of a profile store, protected
      reads and atomic replacement as sequences of system calls that can fail or
      be the last, and the operations over a record on disk.  JsonModel is an
      executable JSON grammar for the witnesses.  RollbackFiles and
      RollbackSafety hold the rules of the file operations, RollbackInvariant
      the policy invariant through every operation, RollbackTheorems,
      RollbackAcknowledge and RollbackTermination the theorems, and
      RollbackExamples a whole rollback with an interruption.
    - ExclusionPolicy, InterfaceConfig, PrivilegedDaemon:
      client/daemon/exclusionpolicytransaction.h, interfaceconfig.cpp and
      daemon.cpp.  DaemonSafety holds the theorems on ownership, on the outcome of
      an activation and on managed exclusions, and replaceExclusionPolicy of
      client/platforms/windows/daemon/wireguardutilswindows.cpp; DaemonExamples
      runs a daemon over a small host.
    - LaunchPolicy: ipc/ipc.h, the validators of arguments and of OpenVPN
      configurations; DirectiveSyntax takes the scan of a configuration apart into
      passes and relates its expressions to spellings of directives.
      PrivilegedProcess: ipc/ipcserverprocess.cpp, the process object with its
      staged input, for the systems other than Windows; PrivilegedLaunch holds the
      theorem on what is started, and a small host.

    ** Interfaces

    Code outside the repository is a parameter: the classes of QtInterface, the
    class Host of RouteState (command runner, clock, lock, and whether a file
    operation succeeds), ControllerHost (requests, lookups, configurations),
    JsonC, the session interface of SessionRestore, CoordinatorHost (system calls,
    platform and clock of the rollback coordinator), DaemonHost (the WireGuard,
    address and resolver utilities of a platform), WindowsHost, LaunchHost (files,
    temporary files and QProcess).  Three classes are internal.  Router: the
    controller's theorems are proved for every reconciler that has its
    operations, and the modelled reconciler is an instance; RouterHolds: what the
    controller relies on of a reconciler that reports success, discharged in
    ControllerTunnel; ExclusionOwner of DaemonSafety: what the daemon relies on of a platform, whose
    policy replacement is discharged there for Windows.  The
    theorems hold for every instance; hypotheses on an instance are the law
    classes.  Witnesses instantiate them with QtModel and with the small kernel
    of RouteExamples.

    ** What the theorems show

    - Policy: an admitted route is exactly a public unicast range of bounded
      size; identity and digests are stable; a candidate replaces a policy only
      when it supersedes it; matching selects the first best rule.
    - Reconciler: every mutation happens under a durable intent; a failure that
      may have changed the host ends in a state that refuses all work, also in a
      new process; only owned routes are deleted; critical bypass rules precede
      the tunnel; success means the kernel was read back and agrees, after an
      operation as well as after a restart; priorities never collide.
    - Controller: the receipt on disk is the state or the state is marked; a
      policy is adopted only when it supersedes and the reconciler holds its
      routes; a new process continues with the same state or refuses; a connected
      full tunnel was read back and bypasses nothing of the VPN's networks.
    - Rollback coordinator: pausing changes exactly the automatic updates of the
      profiles, within the tokens of any text; through every operation, failure
      and interruption the profile store is the original or its paused form, as
      the phase of the record says; a resume restores the original bytes; an
      unfinished commit stops everything; the updater's transaction is
      acknowledged only with the service stopped and the record written; every
      operation ends.
    - Privileged daemon and service: every exclusion route that may be on the host
      is in the daemon's table, through all failures, until it is removed; a
      replacement of the exclusions changes routes only behind the narrowed
      firewall, and its result says what is in place; only the three programs are
      started, with the arguments and the configuration the validators vouch for.
    - Journal: the file is always a complete valid journal; cleanup and recovery
      touch only what was inspected and is owned.
    - Protocols and storage: round trips of configurations, metadata, sessions
      and requests; decoding is sound.
    - Concurrency: a queued snapshot completes exactly once under every
      interleaving and refines an atomic view; pending requests are answered at
      most once.
    - Address ranges: exclusion and masks are exact as sets of addresses.

    ** Bounds and fuel

    Integers are Z with the width written out where the code wraps or masks
    (32-bit addresses and masks, int and qint64 conversions).  Recursion that is
    not structural has a fuel that is the length of its input, or the number of
    halvings of an address range, and lemmas show that it is enough; loops over
    callbacks are step relations with a measure.  The read and write loops of the
    rollback coordinator and of the process launcher have as many rounds as there
    are bytes left plus signals that may still interrupt a call, and a theorem
    shows that they do not run out.  An activation of the privileged daemon calls
    itself once, since the second call finds no connection.  The wait of the rollback
    coordinator has 61 rounds of 250 milliseconds for its 15 seconds, which is
    enough for every clock that advances in a wait.

    ** Not modelled

    Qt Quick views and models, the event-loop glue of the connection
    controllers, remote installation over SSH, platform backends (Android,
    Apple, Windows; of the latter only the replacement of the exclusion policy is
    modelled), the kill switch, the sockets and peer checks of the privileged
    service and its registry of process capabilities, vendored code, and the HTTP and file input and output
    around the modelled decisions.  Of the headless daemon, the update manager
    and the request loop are left out; of the rollback coordinator, the platform
    class that runs systemctl and reads /proc, which is an interface; of the
    namespace policy, the adapter that opens the policy file through pinned
    directories. *)

From stdpp Require Export base list list_numbers numbers decidable strings option sets sorting.
From Stdlib Require Export ZArith Lia Bool.

#[global] Set Default Goal Selector "!".

Declare Scope amnezia_scope.
Delimit Scope amnezia_scope with amn.

(** ** Results of fallible operations *)

(** A C++ function that throws, or that returns a sentinel together with an
    error code, is a function into [result]: [Ok] carries the returned value,
    [Err] the error. *)
Inductive result (E A : Type) : Type :=
| Ok (a : A)
| Err (e : E).
Arguments Ok {E A} a.
Arguments Err {E A} e.

Definition is_ok {E A} (r : result E A) : bool :=
  match r with Ok _ => true | Err _ => false end.

Definition rbind {E A B} (r : result E A) (k : A → result E B) : result E B :=
  match r with Ok a => k a | Err e => Err e end.

Notation "'let?' x ':=' c 'in' k" := (rbind c (λ x, k))
  (at level 10, x pattern, c at level 100, k at level 200,
   format "'let?'  x  ':='  c  'in'  '//' k") : amnezia_scope.

(** A guard: an early [throw] or [return failure] when [b] holds. *)
Definition reject_if {E} (b : bool) (e : E) : result E () :=
  if b then Err e else Ok ().

#[export] Instance result_eq_dec {E A} `{EqDecision E} `{EqDecision A} :
  EqDecision (result E A).
Proof. solve_decision. Defined.

Lemma rbind_Ok {E A B} (r : result E A) (k : A → result E B) b :
  rbind r k = Ok b ↔ ∃ a, r = Ok a ∧ k a = Ok b.
Proof. destruct r; naive_solver. Qed.

Lemma reject_if_Ok {E} (b : bool) (e : E) u : reject_if b e = Ok u ↔ b = false.
Proof. destruct b, u; naive_solver. Qed.

Fixpoint rfold {E A S} (f : S → A → result E S) (s : S) (l : list A) : result E S :=
  match l with
  | [] => Ok s
  | x :: l' => rbind (f s x) (λ s', rfold f s' l')
  end.

Lemma rfold_inv {E A S} (f : S → A → result E S) (P : S → Prop) s l s' :
  (∀ s0 x s1, P s0 → x ∈ l → f s0 x = Ok s1 → P s1) →
  P s → rfold f s l = Ok s' → P s'.
Proof.
  revert s. induction l as [|x l IH]; intros s Hf Hs H; simpl in H.
  { by simplify_eq. }
  apply rbind_Ok in H as (s1 & H1 & H2).
  apply (IH s1); [|by eapply Hf; eauto; constructor|done].
  intros s0 y s2 Hs0 Hy. apply Hf; [done|by constructor].
Qed.

(** ** Tactics *)

(** Turns boolean hypotheses of the translated conditions into propositions. *)
Ltac bprop :=
  repeat match goal with
  | H : _ && _ = true |- _ => apply andb_true_iff in H; destruct H
  | H : _ || _ = false |- _ => apply orb_false_iff in H; destruct H
  | H : _ && _ = false |- _ => apply andb_false_iff in H
  | H : _ || _ = true |- _ => apply orb_true_iff in H
  | H : negb _ = true |- _ => apply negb_true_iff in H
  | H : negb _ = false |- _ => apply negb_false_iff in H
  | H : (_ <=? _)%Z = true |- _ => apply Z.leb_le in H
  | H : (_ <=? _)%Z = false |- _ => apply Z.leb_gt in H
  | H : (_ <? _)%Z = true |- _ => apply Z.ltb_lt in H
  | H : (_ <? _)%Z = false |- _ => apply Z.ltb_ge in H
  | H : (_ >? _)%Z = _ |- _ => rewrite Z.gtb_ltb in H
  | H : (_ >=? _)%Z = _ |- _ => rewrite Z.geb_leb in H
  | H : (_ =? _)%Z = true |- _ => apply Z.eqb_eq in H
  | H : (_ =? _)%Z = false |- _ => apply Z.eqb_neq in H
  | H : bool_decide _ = true |- _ => apply bool_decide_eq_true in H
  | H : bool_decide _ = false |- _ => apply bool_decide_eq_false in H
  end.

(** Destructs the scrutinee of a match or conditional in a hypothesis. *)
Ltac break_in H :=
  match type of H with
  | context [if ?b then _ else _] => destruct b eqn:?
  | context [match ?x with _ => _ end] => destruct x eqn:?
  end.

(** Walks down a chain of guards [if g then Err/None else ...] in [H] that is
    known to have succeeded. *)
Ltac guards H :=
  repeat (break_in H; try discriminate H); bprop.

Ltac inv_ok H :=
  repeat match type of H with
  | rbind _ _ = Ok _ => let a := fresh "a" in let Ha := fresh "Hstep" in
                        apply rbind_Ok in H as (a & Ha & H)
  end.

(** [lia] with quotients and remainders by constants. *)
Ltac dlia := Z.div_mod_to_equations; lia.

Create HintDb amn discriminated.

(** ** Lists *)

Section lists.
Context {A : Type} `{EqDecision A}.
Implicit Types (l k : list A) (x y : A).

(** [if (!l.contains(x)) l.append(x);], the de-duplicating append of the
    route collectors. *)
Definition append_new l x : list A :=
  if bool_decide (x ∈ l) then l else l ++ [x].

(** [QStringList::removeDuplicates]: keeps the first occurrence of each. *)
Definition remove_duplicates l : list A := foldl append_new [] l.

Lemma elem_of_append_new l x y : y ∈ append_new l x ↔ y ∈ l ∨ y = x.
Proof.
  unfold append_new. case_bool_decide; set_solver.
Qed.

Lemma append_new_NoDup l x : NoDup l → NoDup (append_new l x).
Proof.
  intros Hl. unfold append_new. case_bool_decide; [done|].
  apply NoDup_app. split_and!; [done| |apply NoDup_singleton].
  intros y Hy ->%list_elem_of_singleton. done.
Qed.

Lemma append_new_fresh l x : x ∉ l → append_new l x = l ++ [x].
Proof. intros H. unfold append_new. by rewrite bool_decide_eq_false_2. Qed.

Lemma append_new_present l x : x ∈ l → append_new l x = l.
Proof. intros H. unfold append_new. by rewrite bool_decide_eq_true_2. Qed.

Lemma append_new_length l x :
  length l ≤ length (append_new l x) ≤ S (length l).
Proof.
  unfold append_new. case_bool_decide; rewrite ?length_app; simpl; lia.
Qed.

Lemma foldl_append_new_NoDup l k : NoDup l → NoDup (foldl append_new l k).
Proof. revert l. induction k; simpl; eauto using append_new_NoDup. Qed.

Lemma elem_of_foldl_append_new l k x : x ∈ foldl append_new l k ↔ x ∈ l ∨ x ∈ k.
Proof.
  revert l. induction k as [|y k IH]; intros l; simpl; [set_solver|].
  rewrite IH, elem_of_append_new. set_solver.
Qed.

Lemma foldl_append_new_id l k : NoDup (l ++ k) → foldl append_new l k = l ++ k.
Proof.
  revert l. induction k as [|x k IH]; intros l Hk; simpl.
  { by rewrite app_nil_r. }
  rewrite append_new_fresh.
  - rewrite IH; rewrite <-app_assoc; done.
  - apply NoDup_app in Hk as (_ & H & _). intros Hx. eapply H; [done|constructor].
Qed.

Lemma remove_duplicates_NoDup l : NoDup (remove_duplicates l).
Proof. apply foldl_append_new_NoDup. constructor. Qed.

Lemma elem_of_remove_duplicates l x : x ∈ remove_duplicates l ↔ x ∈ l.
Proof. unfold remove_duplicates. rewrite elem_of_foldl_append_new. set_solver. Qed.

Lemma remove_duplicates_id l : NoDup l → remove_duplicates l = l.
Proof. apply (foldl_append_new_id []). Qed.

End lists.

#[export] Hint Resolve append_new_NoDup foldl_append_new_NoDup
  remove_duplicates_NoDup NoDup_nil_2 : amn.

Lemma existsb_false_iff {A} (f : A → bool) l :
  existsb f l = false ↔ ∀ x, x ∈ l → f x = false.
Proof.
  induction l as [|y l IH]; simpl; [set_solver|].
  rewrite orb_false_iff, IH. set_solver.
Qed.

Lemma existsb_true_iff {A} (f : A → bool) l :
  existsb f l = true ↔ ∃ x, x ∈ l ∧ f x = true.
Proof.
  induction l as [|y l IH]; simpl; [set_solver|].
  rewrite orb_true_iff, IH. set_solver.
Qed.

Lemma forallb_true_iff {A} (f : A → bool) l :
  forallb f l = true ↔ Forall (λ x, f x = true) l.
Proof.
  induction l as [|y l IH]; simpl; [naive_solver|].
  rewrite andb_true_iff, IH, Forall_cons. done.
Qed.

(** ** Bytes *)

#[local] Open Scope Z_scope.

Definition is_byte (b : Z) : Prop := 0 <= b < 256.

(** The big-endian value of a list of bytes. *)
Definition be_value (bytes : list Z) : Z := foldl (λ v b, v * 256 + b) 0 bytes.

Lemma be_value_snoc l b : be_value (l ++ [b]) = be_value l * 256 + b.
Proof. unfold be_value. by rewrite foldl_app. Qed.

Lemma testbit_high a n i : 0 <= a < 2 ^ n → n <= i → Z.testbit a i = false.
Proof.
  intros Ha Hi. destruct (decide (a = 0)) as [->|]; [apply Z.testbit_0_l|].
  apply Z.bits_above_log2; [lia|]. apply Z.log2_lt_pow2; [lia|].
  assert (2 ^ n <= 2 ^ i) by (apply Z.pow_le_mono_r; lia). lia.
Qed.

Lemma be_value_range l : Forall is_byte l → 0 <= be_value l < 2 ^ (8 * Z.of_nat (length l)).
Proof.
  induction l as [|b l IH] using rev_ind; [done|].
  rewrite Forall_app, Forall_singleton, be_value_snoc, length_app. intros [Hl Hb].
  specialize (IH Hl). unfold is_byte in Hb. simpl.
  replace (8 * Z.of_nat (length l + 1)) with (8 * Z.of_nat (length l) + 8) by lia.
  rewrite Z.pow_add_r by lia. lia.
Qed.

(** Bit [i] of the value is bit [i mod 8] of the byte that holds it. *)
Lemma be_value_testbit l i :
  Forall is_byte l → 0 <= i < 8 * Z.of_nat (length l) →
  Z.testbit (be_value l) i = Z.testbit (l !!! (length l - 1 - Z.to_nat (i / 8))%nat) (i mod 8).
Proof.
  revert i. induction l as [|b l IH] using rev_ind; intros i; [simpl; lia|].
  rewrite Forall_app, Forall_singleton, be_value_snoc, length_app. intros [Hl Hb] Hi. simpl in Hi |- *.
  unfold is_byte in Hb.
  assert (be_value l * 256 + b = Z.lor (Z.shiftl (be_value l) 8) b) as ->.
  { rewrite Z.shiftl_mul_pow2 by lia. change (2 ^ 8) with 256.
    assert (Z.land (be_value l * 256) b = 0) as H0.
    { apply Z.bits_inj'. intros n Hn. rewrite Z.land_spec, Z.bits_0. change 256 with (2 ^ 8).
      destruct (decide (n < 8)).
      - by rewrite Z.mul_pow2_bits_low by lia.
      - rewrite (testbit_high b 8) by lia. apply andb_false_r. }
    rewrite <-Z.lxor_lor, <-Z.add_nocarry_lxor by done. done. }
  rewrite Z.lor_spec, Z.shiftl_spec by lia. destruct (decide (i < 8)).
  - rewrite (Z.testbit_neg_r _ (i - 8)) by lia. rewrite (Z.div_small i 8), (Z.mod_small i 8) by lia.
    rewrite orb_false_l. f_equal. rewrite lookup_total_app_r by lia.
    by replace (length l + 1 - 1 - Z.to_nat 0 - length l)%nat with 0%nat by lia.
  - rewrite (testbit_high b 8) by lia. rewrite orb_false_r, IH by (done || lia).
    assert (i / 8 = (i - 8) / 8 + 1) as -> by dlia.
    assert (i mod 8 = (i - 8) mod 8) as -> by dlia.
    f_equal. assert (0 <= (i - 8) / 8 < Z.of_nat (length l)) by dlia.
    rewrite lookup_total_app_l by lia. f_equal. lia.
Qed.
