(* ===== verification/Text.v ===== *)
(** * Text: sequences of code units

    A [QString] is a sequence of UTF-16 code units and a [std::string] a
    sequence of bytes; both are [text], a list of code units.  This file holds
    the part of the two string classes the verified code uses whose meaning
    does not depend on Unicode tables (splitting, joining, searching,
    trimming with a given notion of space, decimal printing and reading), with
    the lemmas the components share. *)

From S2P Require Import Prelude.
From Stdlib Require Ascii String.
#[local] Open Scope Z_scope.

Notation text := (list Z).

(** ** Literals and sizes *)

(** [QStringLiteral("...")] and C string literals, ASCII only. *)
Definition lit (s : string) : text :=
  map (λ a, Z.of_N (Ascii.N_of_ascii a)) (String.list_ascii_of_string s).
Arguments lit s%_string.

(** [QString::size] and [std::string::size]. *)
Definition tsize (s : text) : Z := Z.of_nat (length s).

Definition text_eqb (a b : text) : bool := bool_decide (a = b).

Lemma text_eqb_eq a b : text_eqb a b = true ↔ a = b.
Proof. unfold text_eqb. by rewrite bool_decide_eq_true. Qed.

Lemma text_eqb_neq a b : text_eqb a b = false ↔ a ≠ b.
Proof. unfold text_eqb. by rewrite bool_decide_eq_false. Qed.

Lemma text_eqb_refl a : text_eqb a a = true.
Proof. by apply text_eqb_eq. Qed.

Definition is_empty (s : text) : bool :=
  match s with [] => true | _ => false end.

Lemma is_empty_true s : is_empty s = true ↔ s = [].
Proof. destruct s; naive_solver. Qed.

Lemma is_empty_false s : is_empty s = false ↔ s ≠ [].
Proof. destruct s; naive_solver. Qed.

(** ** Searching *)

Definition contains_char (c : Z) (s : text) : bool := existsb (Z.eqb c) s.

Lemma contains_char_true c s : contains_char c s = true ↔ c ∈ s.
Proof.
  unfold contains_char. rewrite existsb_true_iff. split.
  - intros (x & Hx & ->%Z.eqb_eq). done.
  - intros H. exists c. by rewrite Z.eqb_refl.
Qed.

Lemma contains_char_false c s : contains_char c s = false ↔ c ∉ s.
Proof. rewrite <-contains_char_true. by destruct (contains_char c s). Qed.

Fixpoint starts_with (p s : text) : bool :=
  match p, s with
  | [], _ => true
  | x :: p', y :: s' => (x =? y) && starts_with p' s'
  | _ :: _, [] => false
  end.

Definition ends_with (p s : text) : bool := starts_with (reverse p) (reverse s).

Fixpoint contains_text (p s : text) : bool :=
  starts_with p s || match s with [] => false | _ :: s' => contains_text p s' end.

Lemma starts_with_true p s : starts_with p s = true ↔ ∃ r, s = p ++ r.
Proof.
  revert s. induction p as [|x p IH]; intros s; simpl.
  { naive_solver. }
  destruct s as [|y s]; [naive_solver|].
  rewrite andb_true_iff, Z.eqb_eq, IH. naive_solver.
Qed.

(** ** Splitting and joining *)

(** [split(sep)] with [Qt::KeepEmptyParts]: the parts between consecutive
    occurrences of [sep], always at least one. *)
Fixpoint split_char (sep : Z) (s : text) : list text :=
  match s with
  | [] => [[]]
  | c :: s' =>
      if c =? sep then [] :: split_char sep s'
      else match split_char sep s' with
           | [] => [[c]]
           | w :: ws => (c :: w) :: ws
           end
  end.

(** [split(expr, Qt::SkipEmptyParts)] for an expression that matches runs of
    the code units satisfying [sep]: the maximal separator-free runs. *)
Fixpoint tokens_go (sep : Z → bool) (acc : text) (s : text) : list text :=
  match s with
  | [] => if is_empty acc then [] else [acc]
  | c :: s' =>
      if sep c then
        (if is_empty acc then [] else [acc]) ++ tokens_go sep [] s'
      else tokens_go sep (acc ++ [c]) s'
  end.

Definition tokens (sep : Z → bool) (s : text) : list text := tokens_go sep [] s.

(** [QStringList::join]. *)
Fixpoint join (sep : text) (l : list text) : text :=
  match l with
  | [] => []
  | [w] => w
  | w :: ws => w ++ sep ++ join sep ws
  end.

Lemma split_char_ne sep s : split_char sep s ≠ [].
Proof.
  destruct s as [|c s]; simpl; [done|].
  destruct (c =? sep); [done|]. by destruct (split_char sep s).
Qed.

Lemma split_char_none sep s : sep ∉ s → split_char sep s = [s].
Proof.
  induction s as [|c s IH]; simpl; [done|]. intros H.
  rewrite (proj2 (Z.eqb_neq c sep)) by set_solver.
  rewrite IH by set_solver. done.
Qed.

Lemma split_char_app sep a b :
  sep ∉ a → split_char sep (a ++ sep :: b) = a :: split_char sep b.
Proof.
  induction a as [|c a IH]; simpl; intros H.
  { by rewrite Z.eqb_refl. }
  rewrite (proj2 (Z.eqb_neq c sep)) by set_solver.
  rewrite IH by set_solver. done.
Qed.

(** The parts of a split contain no separator and joining them gives the
    text back. *)
Lemma split_char_spec sep s :
  join [sep] (split_char sep s) = s ∧ Forall (λ w, sep ∉ w) (split_char sep s).
Proof.
  induction s as [|c s [IH1 IH2]]; simpl; [repeat constructor; set_solver|].
  destruct (c =? sep) eqn:Hc; bprop.
  - subst. split; [|constructor; [set_solver|done]].
    pose proof (split_char_ne sep s). destruct (split_char sep s); [done|].
    by rewrite <-IH1.
  - pose proof (split_char_ne sep s). destruct (split_char sep s) as [|w ws]; [done|].
    inversion IH2; subst. split.
    + destruct ws; simpl in *; done.
    + constructor; [set_solver|done].
Qed.

Lemma split_char_join sep l :
  l ≠ [] → Forall (λ w, sep ∉ w) l → split_char sep (join [sep] l) = l.
Proof.
  intros Hne H. induction H as [|w ws Hw Hws IH]; [done|].
  destruct ws as [|w' ws]; simpl; [by apply split_char_none|].
  rewrite split_char_app by done. f_equal. by apply IH.
Qed.

Lemma tokens_go_word sep acc w rest :
  Forall (λ c, sep c = false) w →
  tokens_go sep acc (w ++ rest) = tokens_go sep (acc ++ w) rest.
Proof.
  intros H. revert acc. induction H as [|c w Hc Hw IH]; intros acc; simpl.
  { by rewrite app_nil_r. }
  by rewrite Hc, IH, <-app_assoc.
Qed.

Lemma tokens_go_seps sep ss rest :
  Forall (λ c, sep c = true) ss →
  tokens_go sep [] (ss ++ rest) = tokens_go sep [] rest.
Proof. intros H. induction H as [|c ss Hc Hss IH]; simpl; [done|]. by rewrite Hc. Qed.

(** Splitting a list of separator-free words joined with a separator run gives
    the words back. *)
Lemma tokens_join sep js l :
  js ≠ [] → Forall (λ c, sep c = true) js →
  Forall (λ w, w ≠ [] ∧ Forall (λ c, sep c = false) w) l →
  tokens sep (join js l) = l.
Proof.
  intros Hne Hjs. unfold tokens. induction 1 as [|w ws [Hw1 Hw2] Hws IH]; [done|].
  destruct ws as [|w' ws].
  - simpl. rewrite <-(app_nil_r w) at 1. rewrite tokens_go_word by done. simpl.
    by destruct w.
  - change (join js (w :: w' :: ws)) with (w ++ js ++ join js (w' :: ws)).
    rewrite tokens_go_word by done. destruct js as [|j js]; [done|].
    inversion Hjs as [|?? Hj Hjs']; subst. simpl app. cbn [tokens_go]. rewrite Hj.
    destruct w; [done|]. simpl. f_equal. by rewrite tokens_go_seps.
Qed.

Lemma tokens_go_spec sep acc s :
  Forall (λ c, sep c = false) acc →
  Forall (λ w, w ≠ [] ∧ Forall (λ c, sep c = false) w) (tokens_go sep acc s).
Proof.
  revert acc. induction s as [|c s IH]; intros acc Hacc; simpl.
  { destruct acc; simpl; [constructor|]. by apply Forall_singleton. }
  destruct (sep c) eqn:Hc.
  - apply Forall_app. split; [|by apply IH].
    destruct acc; simpl; [constructor|]. by apply Forall_singleton.
  - apply IH. apply Forall_app. by repeat constructor.
Qed.

(** ** Trimming *)

Fixpoint drop_while (p : Z → bool) (s : text) : text :=
  match s with
  | c :: s' => if p c then drop_while p s' else s
  | [] => []
  end.

Definition trim_by (p : Z → bool) (s : text) : text :=
  reverse (drop_while p (reverse (drop_while p s))).

Lemma drop_while_head p s :
  match drop_while p s with [] => True | c :: _ => p c = false end.
Proof. induction s as [|c s IH]; simpl; [done|]. by destruct (p c) eqn:?. Qed.

Lemma drop_while_id p s :
  match s with [] => True | c :: _ => p c = false end → drop_while p s = s.
Proof. destruct s as [|c s]; simpl; [done|]. by intros ->. Qed.

Lemma drop_while_suffix p s : ∃ k, s = k ++ drop_while p s.
Proof.
  induction s as [|c s [k IH]]; simpl; [by exists []|].
  destruct (p c); [exists (c :: k); simpl; congruence|by exists []].
Qed.

Lemma trim_by_id p s : Forall (λ c, p c = false) s → trim_by p s = s.
Proof.
  intros H. unfold trim_by.
  rewrite (drop_while_id p s) by (destruct H; done).
  rewrite drop_while_id; [by rewrite reverse_involutive|].
  apply Forall_reverse in H. by destruct H.
Qed.

Lemma drop_while_all p s : Forall (λ c, p c = true) s → drop_while p s = [].
Proof. induction 1 as [|c s Hc Hs IH]; simpl; [done|]. by rewrite Hc. Qed.

Lemma trim_by_idemp p s : trim_by p (trim_by p s) = trim_by p s.
Proof.
  unfold trim_by. set (a := drop_while p s).
  set (b := drop_while p (reverse a)).
  assert (drop_while p (reverse b) = reverse b) as Hb.
  { apply drop_while_id. destruct (reverse b) as [|c r] eqn:E; [done|].
    destruct (drop_while_suffix p (reverse a)) as [k Hk]. fold b in Hk.
    assert (a = reverse b ++ reverse k) as Ha.
    { rewrite <-reverse_app, <-Hk. by rewrite reverse_involutive. }
    pose proof (drop_while_head p s) as Hh. fold a in Hh.
    rewrite Ha, E in Hh. done. }
  rewrite Hb. rewrite reverse_involutive.
  rewrite (drop_while_id p b); [done|]. apply drop_while_head.
Qed.

Lemma drop_while_map p f s : (∀ c, p (f c) = p c) → drop_while p (map f s) = map f (drop_while p s).
Proof. intros H. induction s as [|c s IH]; simpl; [done|]. rewrite H. by destruct (p c). Qed.

Lemma reverse_map {A B} (f : A → B) (l : list A) : reverse (map f l) = map f (reverse l).
Proof. symmetry. apply fmap_reverse. Qed.

Lemma trim_by_map p f s : (∀ c, p (f c) = p c) → trim_by p (map f s) = map f (trim_by p s).
Proof.
  intros H. unfold trim_by. by rewrite drop_while_map, reverse_map, drop_while_map, reverse_map.
Qed.

Lemma trim_by_sublist p s c : c ∈ trim_by p s → c ∈ s.
Proof.
  unfold trim_by. rewrite elem_of_reverse.
  destruct (drop_while_suffix p s) as [k Hk].
  destruct (drop_while_suffix p (reverse (drop_while p s))) as [k' Hk'].
  intros H. assert (c ∈ reverse (drop_while p s)) by (rewrite Hk'; set_solver).
  rewrite elem_of_reverse in H0. rewrite Hk. set_solver.
Qed.

Lemma trim_by_length p s : (length (trim_by p s) ≤ length s)%nat.
Proof.
  unfold trim_by. rewrite length_reverse.
  destruct (drop_while_suffix p s) as [k Hk].
  destruct (drop_while_suffix p (reverse (drop_while p s))) as [k' Hk'].
  apply (f_equal length) in Hk, Hk'.
  rewrite ?length_app, ?length_reverse in *. lia.
Qed.

(** ** Decimal numbers *)

Definition is_digit (c : Z) : bool := (48 <=? c) && (c <=? 57).

Fixpoint dec_digits (fuel : nat) (n : Z) : text :=
  match fuel with
  | O => []
  | S f => if n <? 10 then [48 + n] else dec_digits f (n / 10) ++ [48 + n mod 10]
  end.

(** [QString::number(n)] and [std::to_string(n)]. *)
Definition number (n : Z) : text :=
  if n <? 0 then 45 :: dec_digits (Z.to_nat (Z.log2 (- n) + 1)) (- n)
  else dec_digits (Z.to_nat (Z.log2 n + 1)) n.

(** The value of a string of ASCII digits. *)
Definition dec_value (s : text) : Z := foldl (λ v c, v * 10 + (c - 48)) 0 s.

Definition all_digits (s : text) : bool := negb (is_empty s) && forallb is_digit s.

Lemma dec_value_snoc s c : dec_value (s ++ [c]) = dec_value s * 10 + (c - 48).
Proof. unfold dec_value. by rewrite foldl_app. Qed.

Lemma dec_digits_spec fuel n :
  0 <= n < 2 ^ Z.of_nat fuel →
  dec_value (dec_digits fuel n) = n ∧ Forall (λ c, is_digit c = true) (dec_digits fuel n)
  ∧ (fuel ≠ 0%nat → dec_digits fuel n ≠ []).
Proof.
  revert n. induction fuel as [|f IH]; intros n Hn.
  { simpl in *. assert (n = 0) by lia. subst. by repeat constructor. }
  cbn [dec_digits]. destruct (n <? 10) eqn:Hlt; bprop.
  { split_and!; [unfold dec_value; simpl; lia|repeat constructor; unfold is_digit; lia|done]. }
  rewrite Nat2Z.inj_succ, Z.pow_succ_r in Hn by lia.
  destruct (IH (n / 10)) as (H1 & H2 & H3).
  { split; [apply Z.div_pos; lia|]. apply Z.div_lt_upper_bound; lia. }
  pose proof (Z.mod_pos_bound n 10 ltac:(lia)).
  split_and!.
  - rewrite dec_value_snoc, H1. pose proof (Z.div_mod n 10 ltac:(lia)). lia.
  - apply Forall_app. split; [done|]. repeat constructor. unfold is_digit. lia.
  - intros _ E%app_eq_nil. naive_solver.
Qed.

Lemma number_spec n :
  0 <= n → dec_value (number n) = n ∧ Forall (λ c, is_digit c = true) (number n)
           ∧ number n ≠ [].
Proof.
  intros Hn. unfold number. rewrite (proj2 (Z.ltb_ge n 0)) by lia.
  pose proof (Z.log2_nonneg n).
  destruct (dec_digits_spec (Z.to_nat (Z.log2 n + 1)) n) as (?&?&H3).
  { rewrite Z2Nat.id by lia. destruct (decide (n = 0)) as [->|]; [simpl; lia|].
    pose proof (Z.log2_spec n ltac:(lia)). rewrite <-Z.add_1_r in *. lia. }
  split_and!; [done..|]. apply H3. lia.
Qed.

Lemma number_value n : 0 <= n → dec_value (number n) = n.
Proof. intros H. by apply number_spec. Qed.

Lemma number_digits n : 0 <= n → Forall (λ c, is_digit c = true) (number n).
Proof. intros H. by apply number_spec. Qed.

Lemma number_ne n : 0 <= n → number n ≠ [].
Proof. intros H. by apply number_spec. Qed.

Lemma number_inj n m : 0 <= n → 0 <= m → number n = number m → n = m.
Proof.
  intros Hn Hm E. rewrite <-(number_value n), <-(number_value m) by done. by rewrite E.
Qed.

Lemma number_all_digits n : 0 <= n → all_digits (number n) = true.
Proof.
  intros H. unfold all_digits. rewrite andb_true_iff, negb_true_iff, is_empty_false.
  split; [by apply number_ne|]. by apply forallb_true_iff, number_digits.
Qed.

Lemma dec_digits_head fuel n :
  10 <= n < 2 ^ Z.of_nat fuel →
  ∃ c s, dec_digits fuel n = c :: s ∧ c ≠ 48.
Proof.
  revert n. induction fuel as [|f IH]; intros n Hn; [simpl in Hn; lia|].
  cbn [dec_digits]. rewrite (proj2 (Z.ltb_ge n 10)) by lia.
  rewrite Nat2Z.inj_succ, Z.pow_succ_r in Hn by lia.
  assert (1 <= n / 10) by (apply Z.div_le_lower_bound; lia).
  assert (n / 10 < 2 ^ Z.of_nat f) by (apply Z.div_lt_upper_bound; lia).
  destruct (decide (10 <= n / 10)).
  - destruct (IH (n / 10)) as (c & s & -> & Hc); [lia|]. by eexists _, _.
  - destruct f as [|f]; [simpl in *; lia|]. cbn [dec_digits].
    rewrite (proj2 (Z.ltb_lt _ 10)) by lia. eexists _, _. split; [done|lia].
Qed.

(** A printed number of two or more digits has no leading zero. *)
Lemma number_no_leading_zero n c s :
  0 <= n → number n = c :: s → s ≠ [] → c ≠ 48.
Proof.
  intros Hn E Hs. unfold number in E. rewrite (proj2 (Z.ltb_ge n 0)) in E by lia.
  pose proof (Z.log2_nonneg n).
  destruct (decide (n < 10)).
  { destruct (Z.to_nat (Z.log2 n + 1)) eqn:F; [lia|]. cbn [dec_digits] in E.
    rewrite (proj2 (Z.ltb_lt n 10)) in E by done. by simplify_eq. }
  destruct (dec_digits_head (Z.to_nat (Z.log2 n + 1)) n) as (c' & s' & E' & Hc').
  { rewrite Z2Nat.id by lia. pose proof (Z.log2_spec n ltac:(lia)).
    rewrite <-Z.add_1_r in *. lia. }
  congruence.
Qed.

Lemma dec_value_digits_nonneg s : forallb is_digit s = true → 0 <= dec_value s.
Proof.
  induction s as [|c s IH] using rev_ind; [done|]. rewrite forallb_app, dec_value_snoc.
  unfold is_digit. simpl. intros Hb. bprop. specialize (IH ltac:(done)). lia.
Qed.

(** Digits without a leading zero; the empty string counts as 0. *)
Definition stripped (s : text) : Prop :=
  forallb is_digit s = true ∧ match s with c :: _ => c ≠ 48 | [] => True end.

Lemma stripped_snoc s c :
  stripped (s ++ [c]) → stripped s ∧ is_digit c = true ∧ (s = [] → c ≠ 48).
Proof.
  unfold stripped. rewrite forallb_app. simpl. intros [Hd Hh]. bprop.
  destruct s; simpl in *; naive_solver.
Qed.

Lemma stripped_pos s : stripped s → s ≠ [] → 0 < dec_value s.
Proof.
  induction s as [|c s IH] using rev_ind; [done|]. intros (H1 & H2 & H3)%stripped_snoc _.
  rewrite dec_value_snoc. unfold is_digit in H2. bprop. destruct s as [|x s].
  - specialize (H3 eq_refl). unfold dec_value. simpl. lia.
  - specialize (IH H1 ltac:(done)). lia.
Qed.

Lemma stripped_inj s t : stripped s → stripped t → dec_value s = dec_value t → s = t.
Proof.
  revert t. induction s as [|c s IH] using rev_ind; intros t Hs Ht E.
  { destruct t as [|d t]; [done|]. pose proof (stripped_pos _ Ht ltac:(done)). change (dec_value []) with 0 in E. lia. }
  destruct t as [|d t _] using rev_ind.
  { pose proof (stripped_pos _ Hs) as Hp. rewrite E in Hp. change (dec_value []) with 0 in Hp.
    specialize (Hp ltac:(by destruct s)). lia. }
  apply stripped_snoc in Hs as (H1 & H2 & _), Ht as (H3 & H4 & _).
  rewrite !dec_value_snoc in E. unfold is_digit in H2, H4. bprop.
  assert (c = d) as -> by lia. f_equal. apply IH; [done..|lia].
Qed.

(** The decimal strings that are their own printed value. *)
Definition canonical_digits (s : text) : Prop :=
  all_digits s = true ∧ match s with c :: _ :: _ => c ≠ 48 | _ => True end.

Lemma canonical_digits_cases s : canonical_digits s → s = [48] ∨ stripped s.
Proof.
  unfold canonical_digits, stripped, all_digits. intros [Hd Hh]. bprop.
  destruct s as [|c [|d s]]; [by right| |by right].
  destruct (decide (c = 48)) as [->|]; [by left|by right].
Qed.

Lemma number_canonical n : 0 <= n → canonical_digits (number n).
Proof.
  intros Hn. split; [by apply number_all_digits|]. destruct (number n) as [|c [|d s]] eqn:E; [done..|].
  by eapply number_no_leading_zero.
Qed.

Lemma number_dec_value s : canonical_digits s → number (dec_value s) = s.
Proof.
  intros Hs. assert (0 <= dec_value s) as Hn.
  { destruct Hs as [Hd _]. unfold all_digits in Hd. bprop. by apply dec_value_digits_nonneg. }
  pose proof (number_value _ Hn) as Hv.
  destruct (canonical_digits_cases _ (number_canonical _ Hn)) as [E|H1].
  - rewrite E in *. change (dec_value [48]) with 0 in Hv.
    destruct (canonical_digits_cases s Hs) as [->|H2]; [done|].
    destruct Hs as [Hd _]. pose proof (stripped_pos s H2) as Hp. destruct s; [done|]. specialize (Hp ltac:(done)). lia.
  - destruct (canonical_digits_cases s Hs) as [->|H2]; [done|]. by apply stripped_inj.
Qed.

(** ** Lexicographic order of code units *)

Fixpoint text_ltb (a b : text) : bool :=
  match a, b with
  | [], _ :: _ => true
  | x :: a', y :: b' => if x =? y then text_ltb a' b' else x <? y
  | _, [] => false
  end.

Lemma text_ltb_irrefl a : text_ltb a a = false.
Proof. induction a as [|x a IH]; simpl; [done|]. by rewrite Z.eqb_refl. Qed.

Lemma text_ltb_trans a b c : text_ltb a b = true → text_ltb b c = true → text_ltb a c = true.
Proof.
  revert b c. induction a as [|x a IH]; intros [|y b] [|z c]; simpl; try done.
  destruct (x =? y) eqn:E1, (y =? z) eqn:E2, (x =? z) eqn:E3; intros; bprop;
    subst; try done; try lia; eauto.
Qed.

Lemma text_ltb_total a b : text_ltb a b = false → text_ltb b a = false → a = b.
Proof.
  revert b. induction a as [|x a IH]; intros [|y b]; simpl; try done.
  rewrite (Z.eqb_sym y x). destruct (x =? y) eqn:E; intros; bprop; subst.
  - f_equal. eauto.
  - lia.
Qed.

(** [QStringList::sort]: insertion into code-unit order. *)
Fixpoint insert_sorted (x : text) (l : list text) : list text :=
  match l with
  | [] => [x]
  | y :: l' => if text_ltb y x then y :: insert_sorted x l' else x :: l
  end.

Definition sort_text (l : list text) : list text := foldr insert_sorted [] l.

Definition text_le (a b : text) : Prop := text_ltb b a = false.

Lemma insert_sorted_perm x l : insert_sorted x l ≡ₚ x :: l.
Proof.
  induction l as [|y l IH]; simpl; [done|]. destruct (text_ltb y x); [|done].
  rewrite IH. apply Permutation_swap.
Qed.

Lemma sort_text_perm l : sort_text l ≡ₚ l.
Proof. induction l as [|x l IH]; simpl; [done|]. by rewrite insert_sorted_perm, IH. Qed.

Lemma text_le_trans a b c : text_le a b → text_le b c → text_le a c.
Proof.
  unfold text_le. intros H1 H2. destruct (text_ltb c a) eqn:E; [|done].
  destruct (text_ltb b a) eqn:E1; [done|]. destruct (text_ltb a b) eqn:E2.
  - by rewrite (text_ltb_trans c a b) in H2.
  - assert (a = b) as -> by (by apply text_ltb_total). congruence.
Qed.

Lemma insert_sorted_sorted x l : StronglySorted text_le l → StronglySorted text_le (insert_sorted x l).
Proof.
  induction 1 as [|y l Hl IH Hy]; simpl; [repeat constructor|].
  destruct (text_ltb y x) eqn:E.
  - constructor; [done|]. rewrite (insert_sorted_perm x l). constructor; [|done].
    unfold text_le. destruct (text_ltb x y) eqn:E'; [|done].
    pose proof (text_ltb_trans x y x E' E) as F. by rewrite text_ltb_irrefl in F.
  - constructor; [by constructor|]. constructor; [done|].
    eapply Forall_impl; [done|]. intros z Hz. eapply text_le_trans; [|done]. done.
Qed.

Lemma sort_text_sorted l : StronglySorted text_le (sort_text l).
Proof. induction l; simpl; [constructor|]. by apply insert_sorted_sorted. Qed.

Lemma sort_text_id l : StronglySorted text_le l → sort_text l = l.
Proof.
  induction 1 as [|x l Hl IH Hx]; simpl; [done|]. rewrite IH. destruct l as [|y l]; [done|]. simpl.
  inversion Hx as [|?? Hy _]; subst. unfold text_le in Hy. by rewrite Hy.
Qed.

#[export] Hint Resolve sort_text_sorted number_digits number_ne : amn.
