(* ===== verification/Json.v ===== *)
(** * JSON values: QJsonValue, QJsonObject and QJsonArray

    Objects are association lists kept in key order, as Qt 6 stores and
    iterates them; [jinsert] maintains the order, so two objects are equal
    exactly when they have the same members ([jobject_ext]).  Numbers are the
    values of C++ doubles, in a form in which equal numbers are equal terms. *)

From S2P Require Import Prelude Text.
#[local] Open Scope Z_scope.

(** ** Doubles *)

(** [DInt z] is the double with the integral value [z], [DFrac m k] the
    non-integral double [m / 2^k] in lowest terms ([m] odd). *)
Inductive qdouble :=
| DInt (z : Z)
| DFrac (m : Z) (k : positive)
| DNonFinite.

#[export] Instance qdouble_eq_dec : EqDecision qdouble.
Proof. solve_decision. Defined.

Definition d_isfinite (d : qdouble) : bool :=
  match d with DNonFinite => false | _ => true end.

(** [number < n] and [number > n] against an integral constant. *)
Definition d_ltb (d : qdouble) (n : Z) : bool :=
  match d with
  | DInt z => z <? n
  | DFrac m k => m <? n * 2 ^ Zpos k
  | DNonFinite => false
  end.

Definition d_gtb (d : qdouble) (n : Z) : bool :=
  match d with
  | DInt z => n <? z
  | DFrac m k => n * 2 ^ Zpos k <? m
  | DNonFinite => false
  end.

(** [std::floor(number) == number]. *)
Definition d_integral (d : qdouble) : bool :=
  match d with DInt _ => true | _ => false end.

(** [static_cast<qint64>(number)] of an integral value in range. *)
Definition d_trunc (d : qdouble) : Z :=
  match d with DInt z => z | DFrac m k => Z.quot m (2 ^ Zpos k) | DNonFinite => 0 end.

(** ** Values *)

Inductive json :=
| JUndefined
| JNull
| JBool (b : bool)
| JDouble (d : qdouble)
| JString (s : text)
| JArray (l : list json)
| JObject (l : list (text * json)).

Notation jobject := (list (text * json)).

Fixpoint json_size (j : json) : nat :=
  match j with
  | JArray l => S (sum_list_with json_size l)
  | JObject l => S (sum_list_with (λ '(_, v), json_size v) l)
  | _ => 1
  end.

Fixpoint json_eqb (a b : json) : bool :=
  let fix arr (x y : list json) :=
    match x, y with
    | [], [] => true
    | u :: x', v :: y' => json_eqb u v && arr x' y'
    | _, _ => false
    end in
  let fix obj (x y : jobject) :=
    match x, y with
    | [], [] => true
    | (k, u) :: x', (k', v) :: y' => text_eqb k k' && json_eqb u v && obj x' y'
    | _, _ => false
    end in
  match a, b with
  | JUndefined, JUndefined | JNull, JNull => true
  | JBool x, JBool y => Bool.eqb x y
  | JDouble x, JDouble y => bool_decide (x = y)
  | JString x, JString y => text_eqb x y
  | JArray x, JArray y => arr x y
  | JObject x, JObject y => obj x y
  | _, _ => false
  end.

Lemma json_eqb_array x y :
  (∀ u v, u ∈ x → json_eqb u v = true ↔ u = v) →
  json_eqb (JArray x) (JArray y) = true ↔ x = y.
Proof.
  revert y. induction x as [|u x IH]; intros [|v y] H; try (split; done).
  change (json_eqb u v && json_eqb (JArray x) (JArray y) = true ↔ u :: x = v :: y).
  rewrite andb_true_iff, H, IH by set_solver. split; [by intros [-> ->]|by intros [=]].
Qed.

Lemma json_eqb_object x y :
  (∀ k u v, (k, u) ∈ x → json_eqb u v = true ↔ u = v) →
  json_eqb (JObject x) (JObject y) = true ↔ x = y.
Proof.
  revert y. induction x as [|[k u] x IH]; intros [|[k' v] y] H; try (split; done).
  change (text_eqb k k' && json_eqb u v && json_eqb (JObject x) (JObject y) = true
          ↔ (k, u) :: x = (k', v) :: y).
  rewrite !andb_true_iff, text_eqb_eq, (H k), IH by set_solver.
  split; [by intros [[-> ->] ->]|by intros [=]].
Qed.

Lemma json_eqb_eq a b : json_eqb a b = true ↔ a = b.
Proof.
  remember (json_size a) as n eqn:Hn. assert (json_size a ≤ n)%nat as Hle by lia.
  clear Hn. revert a b Hle. induction n as [|n IH]; intros a b Hle.
  { destruct a; simpl in Hle; lia. }
  destruct a as [| |x|x|x|x|x], b as [| |y|y|y|y|y]; try (split; done).
  - simpl. rewrite eqb_true_iff. split; congruence.
  - simpl. rewrite bool_decide_eq_true. split; congruence.
  - simpl. rewrite text_eqb_eq. split; congruence.
  - rewrite json_eqb_array; [split; congruence|]. intros u v Hu. apply IH.
    simpl in Hle. pose proof (sum_list_with_in u json_size x Hu). lia.
  - rewrite json_eqb_object; [split; congruence|]. intros k u v Hu. apply IH.
    simpl in Hle.
    pose proof (sum_list_with_in (k, u) (λ '(_, v), json_size v) x Hu). simpl in *. lia.
Qed.

#[export] Instance json_eq_dec : EqDecision json.
Proof.
  intros a b. destruct (json_eqb a b) eqn:E.
  - left. by apply json_eqb_eq.
  - right. intros H%json_eqb_eq. congruence.
Defined.

Definition is_undefined (j : json) : bool := match j with JUndefined => true | _ => false end.
Definition is_bool (j : json) : bool := match j with JBool _ => true | _ => false end.
Definition is_double (j : json) : bool := match j with JDouble _ => true | _ => false end.
Definition is_string (j : json) : bool := match j with JString _ => true | _ => false end.
Definition is_array (j : json) : bool := match j with JArray _ => true | _ => false end.
Definition is_object (j : json) : bool := match j with JObject _ => true | _ => false end.

(** [toBool(def)], [toString(def)], [toObject()], [toArray()]: the stored
    value or the default. *)
Definition to_bool (def : bool) (j : json) : bool := match j with JBool b => b | _ => def end.
Definition to_string (def : text) (j : json) : text := match j with JString s => s | _ => def end.
Definition to_object (j : json) : jobject := match j with JObject o => o | _ => [] end.
Definition to_array (j : json) : list json := match j with JArray l => l | _ => [] end.

(** [toInt(def)]: the number when it is integral and an [int], else [def]. *)
Definition to_int (def : Z) (j : json) : Z :=
  match j with
  | JDouble (DInt z) => if (- 2 ^ 31 <=? z) && (z <? 2 ^ 31) then z else def
  | _ => def
  end.

(** ** Objects *)

(** [QJsonObject::value]: the member, or [Undefined]. *)
Fixpoint jvalue (k : text) (o : jobject) : json :=
  match o with
  | [] => JUndefined
  | (k', v) :: o' => if text_eqb k k' then v else jvalue k o'
  end.

Definition jkeys (o : jobject) : list text := map fst o.

Definition jcontains (k : text) (o : jobject) : bool :=
  existsb (text_eqb k) (jkeys o).

Definition jremove (k : text) (o : jobject) : jobject :=
  filter (λ p, p.1 ≠ k) o.

Fixpoint jput (k : text) (v : json) (o : jobject) : jobject :=
  match o with
  | [] => [(k, v)]
  | (k', v') :: o' =>
      if text_ltb k k' then (k, v) :: o
      else if text_eqb k k' then (k, v) :: o'
      else (k', v') :: jput k v o'
  end.

(** [QJsonObject::insert]: inserting [Undefined] removes the member. *)
Definition jinsert (k : text) (v : json) (o : jobject) : jobject :=
  if is_undefined v then jremove k o else jput k v o.

(** The representation invariant: keys strictly increasing, no member
    undefined. *)
Definition text_lt (a b : text) : Prop := text_ltb a b = true.

Definition jwf (o : jobject) : Prop :=
  StronglySorted text_lt (jkeys o) ∧ Forall (λ p, is_undefined p.2 = false) o.

Lemma jput_keys k v o x : x ∈ jkeys (jput k v o) ↔ x = k ∨ x ∈ jkeys o.
Proof.
  unfold jkeys. induction o as [|[k' v'] o IH]; simpl; [set_solver|].
  destruct (text_ltb k k'); [set_solver|].
  destruct (text_eqb k k') eqn:E; simpl.
  - apply text_eqb_eq in E. set_solver.
  - rewrite !elem_of_cons, IH. set_solver.
Qed.

Lemma jput_wf k v o : is_undefined v = false → jwf o → jwf (jput k v o).
Proof.
  intros Hv [Hs Hd]. split.
  - clear Hd Hv. unfold jkeys in Hs. induction o as [|[k' v'] o IH]; simpl in *.
    { repeat constructor. }
    inversion Hs as [|?? Hs' Hlt]; subst.
    destruct (text_ltb k k') eqn:E1; simpl.
    { constructor; [done|]. constructor; [done|]. eapply Forall_impl; [done|].
      intros z Hz. by eapply text_ltb_trans. }
    destruct (text_eqb k k') eqn:E2; simpl.
    { apply text_eqb_eq in E2. subst. done. }
    constructor; [by apply IH|]. apply Forall_forall. intros z Hz.
    apply jput_keys in Hz as [->|Hz].
    + unfold text_lt. destruct (text_ltb k' k) eqn:E3; [done|].
      apply text_eqb_neq in E2. by destruct E2; apply text_ltb_total.
    + by eapply Forall_forall in Hlt.
  - clear Hs. induction o as [|[k' v'] o IH]; simpl in *.
    { repeat constructor; done. }
    inversion Hd; subst. destruct (text_ltb k k'); [by repeat constructor|].
    destruct (text_eqb k k'); repeat constructor; simpl; try done. by apply IH.
Qed.

Lemma jvalue_jput k v o k' :
  jvalue k' (jput k v o) = if text_eqb k' k then v else jvalue k' o.
Proof.
  induction o as [|[k2 v2] o IH]; simpl.
  { destruct (text_eqb k' k); done. }
  destruct (text_ltb k k2); simpl; [done|].
  destruct (text_eqb k k2) eqn:E; simpl.
  - apply text_eqb_eq in E. subst k2. by destruct (text_eqb k' k).
  - rewrite IH. destruct (text_eqb k' k2) eqn:E2, (text_eqb k' k) eqn:E3; try done.
    apply text_eqb_eq in E2, E3. subst. by rewrite text_eqb_refl in E.
Qed.

Lemma jvalue_jput_eq k v o : jvalue k (jput k v o) = v.
Proof. by rewrite jvalue_jput, text_eqb_refl. Qed.

Lemma jvalue_jput_ne k v o k' : k' ≠ k → jvalue k' (jput k v o) = jvalue k' o.
Proof. intros H. rewrite jvalue_jput. by rewrite (proj2 (text_eqb_neq _ _)). Qed.

Lemma jcontains_true k o : jcontains k o = true ↔ k ∈ jkeys o.
Proof.
  unfold jcontains. rewrite existsb_true_iff. split.
  - intros (x & Hx & ->%text_eqb_eq). done.
  - intros H. exists k. by rewrite text_eqb_refl.
Qed.

Lemma jcontains_cons k k' v o : jcontains k ((k', v) :: o) = text_eqb k k' || jcontains k o.
Proof. done. Qed.

Lemma jvalue_undefined k o : k ∉ jkeys o → jvalue k o = JUndefined.
Proof.
  unfold jkeys. induction o as [|[k' v] o IH]; simpl; [done|]. intros H.
  rewrite (proj2 (text_eqb_neq k k')) by set_solver. apply IH. set_solver.
Qed.

Lemma jwf_value k o : jwf o → k ∈ jkeys o → is_undefined (jvalue k o) = false.
Proof.
  intros [_ Hd]. unfold jkeys. induction o as [|[k' v] o IH]; simpl; [set_solver|].
  inversion Hd; subst. destruct (text_eqb k k') eqn:E; [done|].
  intros [->|Hk]%elem_of_cons; [by rewrite text_eqb_refl in E|]. by apply IH.
Qed.

(** In a well-formed object a member is present exactly when its value is not
    undefined. *)
Lemma jcontains_value k o : jwf o → jcontains k o = negb (is_undefined (jvalue k o)).
Proof.
  intros Hw. destruct (jcontains k o) eqn:E.
  - apply jcontains_true in E. by rewrite (jwf_value k o).
  - assert (k ∉ jkeys o) as Hn by (rewrite <-jcontains_true; congruence).
    by rewrite jvalue_undefined.
Qed.

Lemma jwf_nil : jwf [].
Proof. repeat constructor. Qed.

Lemma jwf_jinsert_defined k v o : is_undefined v = false → jwf o → jwf (jinsert k v o).
Proof. intros H. unfold jinsert. rewrite H. by apply jput_wf. Qed.

Lemma jvalue_in k v o : jwf o → (k, v) ∈ o → jvalue k o = v.
Proof.
  intros [Hs _]. unfold jkeys in Hs. induction o as [|[k' v'] o IH]; simpl in *; [set_solver|].
  inversion Hs as [|?? Hs' Hlt]; subst. intros [E|H]%elem_of_cons.
  { simplify_eq. by rewrite text_eqb_refl. }
  destruct (text_eqb k k') eqn:E; [|by apply IH]. apply text_eqb_eq in E. subst.
  assert (text_lt k' k') as F.
  { eapply Forall_forall; [exact Hlt|]. apply (list_elem_of_fmap_2 fst _ (k', v)). done. }
  unfold text_lt in F. by rewrite text_ltb_irrefl in F.
Qed.

(** Extensionality: well-formed objects with the same values are equal. *)
Lemma jobject_ext a b : jwf a → jwf b → (∀ k, jvalue k a = jvalue k b) → a = b.
Proof.
  revert b. induction a as [|[k v] a IH]; intros b Ha Hb He.
  { destruct b as [|[k v] b]; [done|]. specialize (He k). simpl in He.
    rewrite text_eqb_refl in He. destruct Hb as [_ Hb]. inversion Hb; subst. done. }
  destruct b as [|[k' v'] b].
  { specialize (He k). simpl in He. rewrite text_eqb_refl in He.
    destruct Ha as [_ Ha]. inversion Ha; subst. done. }
  pose proof Ha as [Has Had]. pose proof Hb as [Hbs Hbd]. simpl in Has, Hbs.
  apply StronglySorted_inv in Has as [Has Hka]. apply StronglySorted_inv in Hbs as [Hbs Hkb].
  inversion Had as [|?? Hv Had']; inversion Hbd as [|?? Hv' Hbd']; subst. simpl in Hv, Hv'.
  assert (∀ (k1 k2 : text) (o : jobject), text_ltb k1 k2 = true →
            Forall (text_lt k2) (jkeys o) → k1 ∉ jkeys o) as Hfresh.
  { intros k1 k2 o Hlt Hf Hin. eapply Forall_forall in Hf; [|done].
    pose proof (text_ltb_trans _ _ _ Hlt Hf) as F. by rewrite text_ltb_irrefl in F. }
  assert (k = k') as <-.
  { apply text_ltb_total; destruct (text_ltb _ _) eqn:E; try done; exfalso.
    - pose proof (He k) as F. simpl in F. rewrite text_eqb_refl in F.
      rewrite (proj2 (text_eqb_neq k k')) in F by (intros ->; by rewrite text_ltb_irrefl in E).
      rewrite jvalue_undefined in F by (by eapply Hfresh). subst v. done.
    - pose proof (He k') as F. simpl in F. rewrite text_eqb_refl in F.
      rewrite (proj2 (text_eqb_neq k' k)) in F by (intros ->; by rewrite text_ltb_irrefl in E).
      rewrite jvalue_undefined in F by (by eapply Hfresh). subst v'. done. }
  assert (v = v') as <-.
  { pose proof (He k) as F. simpl in F. by rewrite text_eqb_refl in F. }
  f_equal. apply IH; [done..|]. intros x. pose proof (He x) as F. simpl in F.
  destruct (text_eqb x k) eqn:E; [|done]. apply text_eqb_eq in E. subst.
  assert (∀ o : jobject, Forall (text_lt k) (jkeys o) → k ∉ jkeys o) as Hself.
  { intros o Hf Hin. eapply Forall_forall in Hf; [|done]. unfold text_lt in Hf.
    by rewrite text_ltb_irrefl in Hf. }
  by rewrite !jvalue_undefined by (by apply Hself).
Qed.

Lemma jvalue_jremove k k' o :
  jvalue k' (jremove k o) = if text_eqb k' k then JUndefined else jvalue k' o.
Proof.
  unfold jremove. induction o as [|[k2 v] o IH]; [by destruct (text_eqb k' k)|].
  rewrite filter_cons. cbn [fst]. case_decide as Hd; cbn [jvalue]; rewrite IH.
  - destruct (text_eqb k' k2) eqn:E; [|done]. apply text_eqb_eq in E. subst.
    by rewrite (proj2 (text_eqb_neq k2 k)).
  - destruct (decide (k2 = k)) as [->|]; [|done]. by destruct (text_eqb k' k).
Qed.

Lemma jvalue_jinsert k v o k' :
  jvalue k' (jinsert k v o) = if text_eqb k' k then v else jvalue k' o.
Proof.
  unfold jinsert. destruct (is_undefined v) eqn:E; [|apply jvalue_jput].
  rewrite jvalue_jremove. by destruct v.
Qed.

#[export] Hint Resolve jwf_nil jput_wf jwf_jinsert_defined : amn.
