(* ===== verification/QtInterface.v ===== *)
(** * What the client asks of Qt

    The functions of Qt whose meaning is not structural (Unicode tables,
    address and URL parsing, calendar text, SHA-256, the JSON reader and
    printer) are not part of this repository: they are the operations of the
    type classes below, and the models of the client code take them as
    parameters.  Each class has a class of laws stating the documented
    behaviour the client relies on; the client's theorems are proved against
    the laws. *)

From S2P Require Import Prelude Text Json.
#[local] Open Scope Z_scope.

(** ** Characters and numbers in strings *)

Class QtText := {
  q_isSpace : Z → bool;                (* QChar::isSpace *)
  q_isDigit : Z → bool;                (* QChar::isDigit, any decimal digit *)
  q_isControl : Z → bool;              (* category() == Other_Control *)
  q_isHidden : Z → bool;               (* Other_Format, _Surrogate, _PrivateUse, _NotAssigned *)
  q_toLower : text → text;             (* QString::toLower *)
  q_toInt : text → option Z;           (* QString::toInt(&ok), None when !ok *)
  q_toULongLong : text → option Z;     (* QString::toULongLong(&ok) *)
}.

(** [QString::trimmed]. *)
Definition trimmed `{QtText} (s : text) : text := trim_by q_isSpace s.

Definition is_ascii (c : Z) : bool := (0 <=? c) && (c <? 128).
Definition ascii_space (c : Z) : bool := ((9 <=? c) && (c <=? 13)) || (c =? 32).
Definition ascii_lower (c : Z) : Z := if (65 <=? c) && (c <=? 90) then c + 32 else c.
Definition ascii_control (c : Z) : bool := (c <? 32) || (c =? 127).

Class QtTextLaws `(Q : QtText) : Prop := {
  q_isSpace_ascii c : is_ascii c = true → q_isSpace c = ascii_space c;
  q_isDigit_ascii c : is_ascii c = true → q_isDigit c = is_digit c;
  q_isControl_ascii c : is_ascii c = true → q_isControl c = ascii_control c;
  q_isHidden_ascii c : is_ascii c = true → q_isHidden c = false;
  q_toLower_ascii s : Forall (λ c, is_ascii c = true) s → q_toLower s = map ascii_lower s;
  (* lower-casing is idempotent and neither creates nor removes spaces *)
  q_toLower_idemp s : q_toLower (q_toLower s) = q_toLower s;
  q_toLower_trimmed s : trimmed (q_toLower s) = q_toLower (trimmed s);
  (* decimal conversions use the C locale: ASCII digits only *)
  q_toInt_number n : 0 <= n < 2 ^ 31 → q_toInt (number n) = Some n;
  q_toULongLong_digits s :
    all_digits s = true → dec_value s < 2 ^ 64 → q_toULongLong s = Some (dec_value s);
  q_toULongLong_sound s n :
    q_toULongLong s = Some n → Forall (λ c, q_isDigit c = true) s →
    all_digits s = true ∧ dec_value s = n;
}.

(** ** Addresses and URLs *)

(** [QHostAddress]: null, an IPv4 address, or an IPv6 address with its scope. *)
Inductive qhost :=
| HNull
| HV4 (a : Z)
| HV6 (a : Z) (scope : text).

#[export] Instance qhost_eq_dec : EqDecision qhost.
Proof. solve_decision. Defined.

Definition host_isNull (h : qhost) : bool := match h with HNull => true | _ => false end.
Definition host_isV4 (h : qhost) : bool := match h with HV4 _ => true | _ => false end.
Definition host_toIPv4 (h : qhost) : Z := match h with HV4 a => a | _ => 0 end.
Definition host_scopeId (h : qhost) : text := match h with HV6 _ s => s | _ => [] end.

(** [a.protocol() == b.protocol()]. *)
Definition host_same_protocol (a b : qhost) : bool :=
  match a, b with
  | HNull, HNull | HV4 _, HV4 _ | HV6 _ _, HV6 _ _ => true
  | _, _ => false
  end.

Class QtNet := {
  host_parse : text → qhost;           (* QHostAddress(QString), setAddress *)
  host_toString : qhost → text;        (* QHostAddress::toString *)
  host_isLoopback : qhost → bool;
  host_isBroadcast : qhost → bool;
  host_isLinkLocal : qhost → bool;
  host_isMulticast : qhost → bool;
  host_parseSubnet : text → qhost * Z; (* QHostAddress::parseSubnet, (null,-1) on error *)
  host_isInSubnet : qhost → qhost → Z → bool;
  url_toAce : text → text;             (* QUrl::toAce, empty on error *)
  url_host : text → option text;       (* QUrl(s, StrictMode): None if invalid, else host() *)
}.

(** Dotted-decimal text of an IPv4 address. *)
Definition octet (i a : Z) : Z := (a / 2 ^ (8 * i)) mod 256.
Definition dotted (a : Z) : text :=
  number (octet 3 a) ++ [46] ++ number (octet 2 a) ++ [46] ++
  number (octet 1 a) ++ [46] ++ number (octet 0 a).

Definition is_u32 (a : Z) : Prop := 0 <= a < 2 ^ 32.

Class QtNetLaws `(N : QtNet) : Prop := {
  host_toString_v4 a : is_u32 a → host_toString (HV4 a) = dotted a;
  host_parse_dotted a : is_u32 a → host_parse (dotted a) = HV4 a;
  host_parse_u32 s a : host_parse s = HV4 a → is_u32 a;
  host_parse_nil : host_parse [] = HNull;
  host_parse_slash s : 47 ∈ s → host_parse s = HNull;
  (* the IPv4 addresses these classifiers recognise *)
  host_special_v4 a :
    is_u32 a →
    host_isLoopback (HV4 a) = true ∨ host_isBroadcast (HV4 a) = true
    ∨ host_isLinkLocal (HV4 a) = true ∨ host_isMulticast (HV4 a) = true →
    a / 2 ^ 24 = 127 ∨ a = 2 ^ 32 - 1 ∨ a / 2 ^ 16 = 0xa9fe ∨ a / 2 ^ 28 = 14;
  host_isLinkLocal_v4 a :
    is_u32 a → a / 2 ^ 16 = 0xa9fe → host_isLinkLocal (HV4 a) = true;
  host_isInSubnet_v4 a b p :
    is_u32 a → is_u32 b → 0 <= p <= 32 →
    host_isInSubnet (HV4 a) (HV4 b) p = (a / 2 ^ (32 - p) =? b / 2 ^ (32 - p));
  host_parseSubnet_v4 s a p : host_parseSubnet s = (HV4 a, p) → is_u32 a ∧ 0 <= p <= 32;
}.

(** ** Dates *)

(** A [QDateTime]: milliseconds since the epoch in UTC, [None] when invalid.
    [toUTC] keeps the instant. *)
Notation qdatetime := (option Z).

Definition dt_isValid (t : qdatetime) : bool := bool_decide (is_Some t).

(** Comparisons; the client makes them between valid dates only. *)
Definition dt_leb (a b : qdatetime) : bool :=
  match a, b with Some x, Some y => x <=? y | _, _ => false end.
Definition dt_ltb (a b : qdatetime) : bool :=
  match a, b with Some x, Some y => x <? y | _, _ => false end.
Definition dt_eqb (a b : qdatetime) : bool := bool_decide (a = b).
Definition dt_addSecs (a : qdatetime) (s : Z) : qdatetime := (λ x, x + 1000 * s) <$> a.
Definition dt_addMSecs (a : qdatetime) (ms : Z) : qdatetime := (λ x, x + ms) <$> a.

Class QtTime := {
  dt_fromIsoMs : text → qdatetime;     (* fromString(s, Qt::ISODateWithMs) *)
  dt_fromIso : text → qdatetime;       (* fromString(s, Qt::ISODate) *)
  dt_toIsoMs : Z → text;               (* toUTC().toString(Qt::ISODateWithMs) *)
  q_toLongLong : qdouble → Z;          (* QJsonValue::toVariant().toLongLong() *)
}.

(** The instants with a four-digit year, which the ISO format can express. *)
Definition dt_expressible (t : Z) : Prop := -62167219200000 <= t <= 253402300799999.

Class QtTimeLaws `(T : QtTime) : Prop := {
  dt_fromIsoMs_toIsoMs t : dt_expressible t → dt_fromIsoMs (dt_toIsoMs t) = Some t;
  q_toLongLong_int z : - 2 ^ 53 <= z <= 2 ^ 53 → q_toLongLong (DInt z) = z;
}.

(** ** Digests and JSON text *)

Class QtData := {
  sha256 : text → text;                (* QCryptographicHash::hash(_, Sha256), 32 bytes *)
  json_compact : jobject → text;       (* QJsonDocument(o).toJson(Compact) *)
  json_parse : text → option json;     (* QJsonDocument::fromJson; None on a parse error *)
  utf8 : text → text;                  (* QString::toUtf8 *)
}.

Class QtDataLaws `(D : QtData) : Prop := {
  sha256_length s : length (sha256 s) = 32%nat;
  sha256_bytes s : Forall (λ b, 0 <= b < 256) (sha256 s);
}.

(** [QByteArray::toHex]. *)
Definition hex_digit (d : Z) : Z := if d <? 10 then 48 + d else 87 + d.
Definition to_hex (s : text) : text := flat_map (λ b, [hex_digit (b / 16); hex_digit (b mod 16)]) s.

Definition is_lower_hex (c : Z) : bool := is_digit c || ((97 <=? c) && (c <=? 102)).

Lemma to_hex_length s : length (to_hex s) = (2 * length s)%nat.
Proof.
  induction s as [|b s IH]; [done|].
  change (S (S (length (to_hex s))) = (2 * S (length s))%nat). lia.
Qed.

Lemma to_hex_lower s :
  Forall (λ b, 0 <= b < 256) s → Forall (λ c, is_lower_hex c = true) (to_hex s).
Proof.
  assert (∀ d, 0 <= d < 16 → is_lower_hex (hex_digit d) = true) as Hd.
  { intros d Hd. unfold is_lower_hex, is_digit, hex_digit.
    destruct (d <? 10) eqn:E; bprop; lia. }
  induction 1 as [|b s Hb Hs IH]; simpl; [constructor|].
  repeat constructor; [apply Hd..|done].
  - split; [apply Z.div_pos; lia|apply Z.div_lt_upper_bound; lia].
  - apply Z.mod_pos_bound. lia.
Qed.

(** ** Facts that follow from the laws *)

Lemma number_chars n c : 0 <= n → c ∈ number n → 48 <= c <= 57.
Proof.
  intros Hn Hc. pose proof (number_digits n Hn) as H. eapply Forall_forall in H; [|done].
  unfold is_digit in H. bprop. lia.
Qed.

Lemma octet_bound i a : 0 <= octet i a < 256.
Proof. apply Z.mod_pos_bound. lia. Qed.

Lemma dotted_chars a c : c ∈ dotted a → c = 46 ∨ 48 <= c <= 57.
Proof.
  pose proof (octet_bound 0 a); pose proof (octet_bound 1 a);
  pose proof (octet_bound 2 a); pose proof (octet_bound 3 a).
  unfold dotted. rewrite !elem_of_app, !list_elem_of_singleton.
  intros [Hc|[Hc|[Hc|[Hc|[Hc|[Hc|Hc]]]]]]; try (by left); right; eapply number_chars; eauto; lia.
Qed.

Lemma dotted_ne a : dotted a ≠ [].
Proof.
  unfold dotted. intros H%app_eq_nil. destruct H as [H _]. revert H. apply number_ne.
  pose proof (octet_bound 3 a). lia.
Qed.

Lemma octets_sum a :
  is_u32 a → a = octet 3 a * 2 ^ 24 + octet 2 a * 2 ^ 16 + octet 1 a * 2 ^ 8 + octet 0 a.
Proof.
  unfold is_u32, octet. intros H. change (2 ^ (8 * 0)) with 1. rewrite Z.div_1_r.
  change (2 ^ (8 * 1)) with 256. change (2 ^ (8 * 2)) with 65536.
  change (2 ^ (8 * 3)) with (256 * 256 * 256). change 65536 with (256 * 256).
  rewrite <-!Z.div_div by lia. dlia.
Qed.

Lemma dotted_split a :
  split_char 46 (dotted a) =
  [number (octet 3 a); number (octet 2 a); number (octet 1 a); number (octet 0 a)].
Proof.
  unfold dotted. assert (∀ i, 46 ∉ number (octet i a)) as Hn.
  { intros i Hc. eapply number_chars in Hc; [lia|]. apply octet_bound. }
  simpl. rewrite !split_char_app by apply Hn. by rewrite split_char_none.
Qed.

Lemma dotted_inj a b : is_u32 a → is_u32 b → dotted a = dotted b → a = b.
Proof.
  intros Ha Hb H. apply (f_equal (split_char 46)) in H. rewrite !dotted_split in H.
  simplify_eq. rewrite (octets_sum a), (octets_sum b) by done.
  f_equal; [f_equal; [f_equal|]|]; [f_equal..|];
    (apply number_inj; [apply octet_bound..|done]).
Qed.

Section text_laws.
Context `{QL : QtTextLaws}.

Lemma trimmed_idemp s : trimmed (trimmed s) = trimmed s.
Proof. apply trim_by_idemp. Qed.

Lemma trimmed_visible s :
  Forall (λ c, is_ascii c = true ∧ ascii_space c = false) s → trimmed s = s.
Proof.
  intros H. apply trim_by_id. eapply Forall_impl; [done|]. intros c [H1 H2]. simpl.
  by rewrite q_isSpace_ascii.
Qed.

Lemma toLower_lower s :
  Forall (λ c, is_ascii c = true ∧ ascii_lower c = c) s → q_toLower s = s.
Proof.
  intros H. rewrite q_toLower_ascii; [|eapply Forall_impl; [done|]; naive_solver].
  induction H as [|c s [_ Hc] Hs IH]; simpl; congruence.
Qed.

(** [trimmed().toLower()] is a normal form. *)
Lemma normal_text s :
  trimmed (q_toLower (trimmed s)) = q_toLower (trimmed s)
  ∧ q_toLower (q_toLower (trimmed s)) = q_toLower (trimmed s).
Proof. by rewrite q_toLower_trimmed, trimmed_idemp, q_toLower_idemp. Qed.

(** A lowercase token (visible ASCII, no capital letter) survives
    [trimmed().toLower()]. *)
Definition lower_token (s : text) : Prop :=
  Forall (λ c, is_ascii c = true ∧ ascii_space c = false ∧ ascii_lower c = c) s.

Lemma lower_token_normal s : lower_token s → trimmed s = s ∧ q_toLower s = s.
Proof.
  intros H. split.
  - apply trimmed_visible. eapply Forall_impl; [done|]. naive_solver.
  - apply toLower_lower. eapply Forall_impl; [done|]. naive_solver.
Qed.
End text_laws.

Lemma lower_token_app a b : lower_token (a ++ b) ↔ lower_token a ∧ lower_token b.
Proof. apply Forall_app. Qed.

Lemma lower_token_number n : 0 <= n → lower_token (number n).
Proof.
  intros H. apply Forall_forall. intros c Hc%number_chars; [|done].
  unfold is_ascii, ascii_space, ascii_lower.
  rewrite (proj2 (andb_false_iff (65 <=? c) (c <=? 90))) by (left; lia). lia.
Qed.

Lemma lower_token_dotted a : lower_token (dotted a).
Proof.
  apply Forall_forall. intros c Hc%dotted_chars.
  unfold is_ascii, ascii_space, ascii_lower.
  rewrite (proj2 (andb_false_iff (65 <=? c) (c <=? 90))) by (left; lia). lia.
Qed.
