(* ===== verification/QtModel.v ===== *)
(** * A computable instance of the Qt interface

    An ASCII implementation of the classes of QtInterface.v that satisfies
    their laws.  It shows the laws are consistent and lets the theorems that
    assume them be evaluated on concrete inputs; the theorems themselves are
    proved for every implementation. *)

From S2P Require Import Prelude Text Json QtInterface.
#[local] Open Scope Z_scope.

(** ** Text *)

Definition bounded_digits (bound : Z) (s : text) : option Z :=
  if all_digits s && (dec_value s <? bound) then Some (dec_value s) else None.

#[local] Instance asciiText : QtText := {|
  q_isSpace := ascii_space;
  q_isDigit := is_digit;
  q_isControl := ascii_control;
  q_isHidden := λ c, negb (is_ascii c);
  q_toLower := map ascii_lower;
  q_toInt := bounded_digits (2 ^ 31);
  q_toULongLong := bounded_digits (2 ^ 64);
|}.

#[local] Instance asciiText_laws : QtTextLaws asciiText.
Proof.
  split; try done.
  - intros c Hc. simpl. by rewrite Hc.
  - intros s. simpl. rewrite map_map. apply map_ext. intros c. unfold ascii_lower.
    destruct ((65 <=? c) && (c <=? 90)) eqn:E; [|by rewrite E]. bprop.
    by rewrite (proj2 (andb_false_iff (65 <=? c + 32) (c + 32 <=? 90))) by (right; lia).
  - intros s. apply trim_by_map. intros c. simpl. unfold ascii_lower, ascii_space.
    destruct ((65 <=? c) && (c <=? 90)) eqn:E; [|done]. bprop. lia.
  - intros n Hn. simpl. unfold bounded_digits.
    rewrite number_all_digits, number_value by lia. by rewrite (proj2 (Z.ltb_lt n (2 ^ 31))) by lia.
  - intros s Hs Hb. simpl. unfold bounded_digits. rewrite Hs.
    apply Z.ltb_lt in Hb. by rewrite Hb.
  - intros s n. simpl. unfold bounded_digits. destruct (all_digits s); [|done].
    destruct (dec_value s <? _); naive_solver.
Qed.

(** ** Addresses *)

Definition parse_octet (s : text) : option Z :=
  if all_digits s && (dec_value s <? 256) && text_eqb (number (dec_value s)) s
  then Some (dec_value s) else None.

Definition parse_dotted (s : text) : option Z :=
  match split_char 46 s with
  | [w3; w2; w1; w0] =>
      match parse_octet w3, parse_octet w2, parse_octet w1, parse_octet w0 with
      | Some o3, Some o2, Some o1, Some o0 =>
          Some (o3 * 2 ^ 24 + o2 * 2 ^ 16 + o1 * 2 ^ 8 + o0)
      | _, _, _, _ => None
      end
  | _ => None
  end.

Lemma parse_octet_number n : 0 <= n < 256 → parse_octet (number n) = Some n.
Proof.
  intros Hn. unfold parse_octet. rewrite number_all_digits, number_value, text_eqb_refl by lia.
  by rewrite (proj2 (Z.ltb_lt n 256)) by lia.
Qed.

Lemma parse_dotted_dotted a : is_u32 a → parse_dotted (dotted a) = Some a.
Proof.
  intros Ha. unfold parse_dotted. rewrite dotted_split, !parse_octet_number by apply octet_bound.
  by rewrite <-octets_sum.
Qed.

Lemma parse_octet_bound s o : parse_octet s = Some o → 0 <= o < 256.
Proof.
  unfold parse_octet, all_digits. intros E.
  destruct (_ && _ && _) eqn:G; [|done]. simplify_eq. bprop.
  pose proof (dec_value_digits_nonneg s ltac:(done)). lia.
Qed.

Lemma parse_dotted_u32 s a : parse_dotted s = Some a → is_u32 a.
Proof.
  unfold parse_dotted. intros E. repeat (case_match; try done). simplify_eq.
  repeat match goal with H : parse_octet _ = Some _ |- _ => apply parse_octet_bound in H end.
  unfold is_u32. lia.
Qed.

Lemma parse_dotted_slash s : 47 ∈ s → parse_dotted s = None.
Proof.
  intros Hs. unfold parse_dotted.
  destruct (split_char_spec 46 s) as [Hj _].
  destruct (split_char 46 s) as [|w3 [|w2 [|w1 [|w0 [|]]]]]; try done.
  assert (∀ w, 47 ∈ w → parse_octet w = None) as Hw.
  { intros w Hw. unfold parse_octet, all_digits. destruct (forallb is_digit w) eqn:F.
    - rewrite forallb_true_iff in F. eapply Forall_forall in F; [|done]. done.
    - by rewrite andb_false_r. }
  rewrite <-Hj in Hs. simpl in Hs. rewrite !elem_of_app, !elem_of_cons, !elem_of_app, !elem_of_cons in Hs.
  destruct Hs as [Hs|[Hs|Hs]]; [by rewrite (Hw w3)|done|].
  destruct Hs as [Hs|[Hs|Hs]]; [rewrite (Hw w2) by done; by destruct (parse_octet w3)|done|].
  apply elem_of_app in Hs as [Hs|Hs]; [rewrite (Hw w1) by done; repeat case_match; done|].
  apply elem_of_cons in Hs as [Hs|Hs]; [done|].
  rewrite (Hw w0) by done. repeat case_match; done.
Qed.

Lemma bounded_digits_bound b s n : bounded_digits b s = Some n → 0 <= n < b.
Proof.
  unfold bounded_digits, all_digits. intros E. destruct (_ && _) eqn:G; [|done]. simplify_eq. bprop.
  pose proof (dec_value_digits_nonneg s ltac:(done)). lia.
Qed.

Definition ascii_parse_host (s : text) : qhost :=
  match parse_dotted s with Some a => HV4 a | None => HNull end.

Definition ascii_host_text (h : qhost) : text := match h with HV4 a => dotted a | _ => [] end.

(** "a.b.c.d" or "a.b.c.d/p". *)
Definition ascii_parseSubnet (s : text) : qhost * Z :=
  match split_char 47 s with
  | [w] => match parse_dotted w with Some a => (HV4 a, 32) | None => (HNull, -1) end
  | [w; q] =>
      match parse_dotted w, bounded_digits 33 q with
      | Some a, Some p => (HV4 (a / 2 ^ (32 - p) * 2 ^ (32 - p)), p)
      | _, _ => (HNull, -1)
      end
  | _ => (HNull, -1)
  end.

Lemma ascii_parseSubnet_bounds s a p :
  ascii_parseSubnet s = (HV4 a, p) → is_u32 a ∧ 0 <= p <= 32.
Proof.
  unfold ascii_parseSubnet. intros E. repeat (case_match; try done); simplify_eq.
  - split; [by eapply parse_dotted_u32|lia].
  - match goal with H : parse_dotted _ = Some ?z |- _ => apply parse_dotted_u32 in H; rename H into Ha end.
    match goal with H : bounded_digits _ _ = Some _ |- _ => apply bounded_digits_bound in H end.
    split; [|lia]. unfold is_u32 in *. assert (0 < 2 ^ (32 - p)) by (apply Z.pow_pos_nonneg; lia).
    split; [apply Z.mul_nonneg_nonneg; [apply Z.div_pos|]; lia|].
    eapply Z.le_lt_trans; [|exact (proj2 Ha)]. rewrite Z.mul_comm. apply Z.mul_div_le. lia.
Qed.

#[local] Instance asciiNet : QtNet := {|
  host_parse := ascii_parse_host;
  host_toString := ascii_host_text;
  host_isLoopback := λ h, match h with HV4 a => a / 2 ^ 24 =? 127 | _ => false end;
  host_isBroadcast := λ h, match h with HV4 a => a =? 2 ^ 32 - 1 | _ => false end;
  host_isLinkLocal := λ h, match h with HV4 a => a / 2 ^ 16 =? 0xa9fe | _ => false end;
  host_isMulticast := λ h, match h with HV4 a => a / 2 ^ 28 =? 14 | _ => false end;
  host_parseSubnet := ascii_parseSubnet;
  host_isInSubnet := λ a b p,
    match a, b with HV4 x, HV4 y => x / 2 ^ (32 - p) =? y / 2 ^ (32 - p) | _, _ => false end;
  url_toAce := λ s, if forallb is_ascii s then s else [];
  url_host := λ s, None;
|}.

#[local] Instance asciiNet_laws : QtNetLaws asciiNet.
Proof.
  split; try done.
  - intros a Ha. simpl. unfold ascii_parse_host. by rewrite parse_dotted_dotted.
  - intros s a. simpl. unfold ascii_parse_host. destruct (parse_dotted s) eqn:E; [|done].
    intros [= ->]. by eapply parse_dotted_u32.
  - intros s Hs. simpl. unfold ascii_parse_host. by rewrite parse_dotted_slash.
  - intros a Ha. simpl. rewrite !Z.eqb_eq. tauto.
  - intros a Ha E. simpl. by apply Z.eqb_eq.
  - intros s a p. apply ascii_parseSubnet_bounds.
Qed.

(** ** Dates: the decimal number of milliseconds *)

Definition parse_signed (s : text) : option Z :=
  match s with
  | 45 :: s' => if all_digits s' then Some (- dec_value s') else None
  | _ => if all_digits s then Some (dec_value s) else None
  end.

Lemma parse_signed_number z : parse_signed (number z) = Some z.
Proof.
  destruct (decide (0 <= z)).
  - unfold parse_signed. destruct (number z) as [|c s] eqn:E; [by apply number_ne in E|].
    assert (48 <= c <= 57).
    { apply (number_chars z); [done|]. rewrite E. set_solver. }
    assert (all_digits (c :: s) = true) as Hd by (rewrite <-E; by apply number_all_digits).
    assert (dec_value (c :: s) = z) as Hv by (rewrite <-E; by apply number_value).
    rewrite Hd, Hv. repeat case_match; try done; subst; lia.
  - assert (number z = 45 :: number (- z)) as ->.
    { unfold number. rewrite (proj2 (Z.ltb_lt z 0)), (proj2 (Z.ltb_ge (- z) 0)) by lia. done. }
    simpl. rewrite number_all_digits, number_value by lia. f_equal. lia.
Qed.

#[local] Instance plainTime : QtTime := {|
  dt_fromIsoMs := parse_signed;
  dt_fromIso := parse_signed;
  dt_toIsoMs := number;
  q_toLongLong := d_trunc;
|}.

#[local] Instance plainTime_laws : QtTimeLaws plainTime.
Proof. split; [|done]. intros t _. apply parse_signed_number. Qed.

(** ** Digests and JSON text *)

(** A checksum of 32 bytes standing for SHA-256. *)
Definition toy_sha256 (s : text) : text :=
  map (λ i, foldl (λ h b, (h * 31 + b + i) mod 256) 7 s) (seqZ 0 32).

Fixpoint json_text (j : json) : text :=
  match j with
  | JUndefined => []
  | JNull => lit "null"
  | JBool b => if b then lit "true" else lit "false"
  | JDouble (DInt z) => number z
  | JDouble _ => lit "0.5"
  | JString s => [34] ++ s ++ [34]
  | JArray l => [91] ++ join [44] (map json_text l) ++ [93]
  | JObject o => [123] ++ join [44] (map (λ '(k, v), [34] ++ k ++ [34; 58] ++ json_text v) o) ++ [125]
  end.

#[local] Instance toyData : QtData := {|
  sha256 := toy_sha256;
  json_compact := λ o, json_text (JObject o);
  json_parse := λ s, if text_eqb s (lit "{}") then Some (JObject []) else None;
  utf8 := λ s, s;
|}.

#[local] Instance toyData_laws : QtDataLaws toyData.
Proof.
  split; intros s; change (sha256 s) with (toy_sha256 s); unfold toy_sha256.
  - by rewrite length_fmap, length_seqZ.
  - apply Forall_forall. intros b (i & -> & _)%list_elem_of_fmap.
    destruct s as [|c s] using rev_ind; [simpl; lia|]. rewrite foldl_app. simpl.
    apply Z.mod_pos_bound. lia.
Qed.
