(* ===== verification/Ipv4.v ===== *)
(** * IPv4 networks on 32-bit words

    The mask arithmetic of client/core/utils/managedRoutePolicy.h (and its
    copy in routeRuleMatcher.cpp), on 32-bit words with the bit operations of
    the source, and its meaning: a route is the set of addresses that share
    the first [prefixLength] bits. *)

From S2P Require Import Prelude Text Json QtInterface.
#[local] Open Scope Z_scope.

Definition u32_max : Z := 0xffffffff.

(** [~x] on [quint32]. *)
Definition u32_not (x : Z) : Z := Z.land (Z.lnot x) u32_max.

(** [x << n] on [quint32]. *)
Definition u32_shl (x n : Z) : Z := Z.land (Z.shiftl x n) u32_max.

Definition ipv4Mask (prefixLength : Z) : Z :=
  if prefixLength =? 0 then 0 else u32_shl 0xffffffff (32 - prefixLength).

Definition ipv4RouteOverlapsRange (address prefixLength rangeBase rangePrefixLength : Z) : bool :=
  let routeStart := Z.land address (ipv4Mask prefixLength) in
  let routeEnd := Z.lor routeStart (u32_not (ipv4Mask prefixLength)) in
  let rangeStart := Z.land rangeBase (ipv4Mask rangePrefixLength) in
  let rangeEnd := Z.lor rangeStart (u32_not (ipv4Mask rangePrefixLength)) in
  (routeStart <=? rangeEnd) && (rangeStart <=? routeEnd).

Definition ipv4RouteIsWithinRange (address prefixLength rangeBase rangePrefixLength : Z) : bool :=
  if prefixLength <? rangePrefixLength then false
  else
    let rangeMask := ipv4Mask rangePrefixLength in
    Z.land address rangeMask =? Z.land rangeBase rangeMask.

(** The network of [a]/[p] as a set of addresses. *)
Definition in_net (a p x : Z) : Prop := is_u32 x ∧ x / 2 ^ (32 - p) = a / 2 ^ (32 - p).

Definition prefix_ok (p : Z) : Prop := 0 <= p <= 32.

(** ** The bit operations as arithmetic *)

Lemma prefix_cases (P : Z → bool) :
  forallb P (seqZ 0 33) = true → ∀ p, prefix_ok p → P p = true.
Proof.
  intros H p Hp. rewrite forallb_true_iff in H. eapply Forall_forall in H; [done|].
  apply elem_of_seqZ. unfold prefix_ok in Hp. lia.
Qed.

Lemma ipv4Mask_shift p : prefix_ok p → ipv4Mask p = Z.shiftl (Z.ones p) (32 - p).
Proof.
  intros Hp. apply Z.eqb_eq.
  by apply (prefix_cases (λ p, ipv4Mask p =? Z.shiftl (Z.ones p) (32 - p))).
Qed.

Lemma ipv4Mask_not p : prefix_ok p → u32_not (ipv4Mask p) = Z.ones (32 - p).
Proof.
  intros Hp. apply Z.eqb_eq.
  by apply (prefix_cases (λ p, u32_not (ipv4Mask p) =? Z.ones (32 - p))).
Qed.

Lemma land_shiftl a b n :
  0 <= n → Z.land a (Z.shiftl b n) = Z.shiftl (Z.land (Z.shiftr a n) b) n.
Proof.
  intros Hn. apply Z.bits_inj'. intros m Hm.
  rewrite Z.land_spec, !Z.shiftl_spec, Z.land_spec by lia.
  destruct (decide (n <= m)).
  - rewrite Z.shiftr_spec by lia. by replace (m - n + n) with m by lia.
  - rewrite !(Z.testbit_neg_r _ (m - n)) by lia. by rewrite !andb_false_r.
Qed.

Lemma block_bounds p : prefix_ok p → 0 < 2 ^ (32 - p) ∧ 2 ^ (32 - p) * 2 ^ p = 2 ^ 32.
Proof.
  unfold prefix_ok. intros H. split; [apply Z.pow_pos_nonneg; lia|].
  rewrite <-Z.pow_add_r by lia. f_equal. lia.
Qed.

Lemma block_index a p : prefix_ok p → is_u32 a → 0 <= a / 2 ^ (32 - p) < 2 ^ p.
Proof.
  intros Hp [H1 H2]. destruct (block_bounds p Hp) as [Hb Hm]. split.
  - apply Z.div_pos; lia.
  - apply Z.div_lt_upper_bound; lia.
Qed.

Lemma land_mask a p :
  prefix_ok p → is_u32 a → Z.land a (ipv4Mask p) = a / 2 ^ (32 - p) * 2 ^ (32 - p).
Proof.
  intros Hp Ha. pose proof Hp as Hp'. unfold prefix_ok in Hp'.
  rewrite ipv4Mask_shift, land_shiftl by (done || lia).
  rewrite Z.land_ones, Z.shiftr_div_pow2, Z.shiftl_mul_pow2 by lia.
  rewrite Z.mod_small; [done|]. by apply block_index.
Qed.

Lemma lor_ones k n : 0 <= n → Z.lor (k * 2 ^ n) (Z.ones n) = k * 2 ^ n + (2 ^ n - 1).
Proof.
  intros Hn. assert (Z.land (k * 2 ^ n) (Z.ones n) = 0) as H0.
  { rewrite Z.land_ones by done. apply Z.mod_mul. pose proof (Z.pow_pos_nonneg 2 n). lia. }
  rewrite <-Z.lxor_lor, <-Z.add_nocarry_lxor by done. rewrite Z.ones_equiv. lia.
Qed.

Lemma route_end a p :
  prefix_ok p → is_u32 a →
  Z.lor (Z.land a (ipv4Mask p)) (u32_not (ipv4Mask p))
  = a / 2 ^ (32 - p) * 2 ^ (32 - p) + (2 ^ (32 - p) - 1).
Proof.
  intros Hp Ha. rewrite land_mask, ipv4Mask_not by done. apply lor_ones.
  unfold prefix_ok in Hp. lia.
Qed.

(** A network is an interval. *)
Lemma in_net_interval a p x :
  prefix_ok p → is_u32 a →
  in_net a p x ↔ a / 2 ^ (32 - p) * 2 ^ (32 - p) <= x
                 <= a / 2 ^ (32 - p) * 2 ^ (32 - p) + (2 ^ (32 - p) - 1).
Proof.
  intros Hp Ha. destruct (block_bounds p Hp) as [Hb Hm].
  pose proof (block_index a p Hp Ha) as Hi. unfold in_net, is_u32.
  set (B := 2 ^ (32 - p)) in *. split.
  - intros [_ <-]. pose proof (Z.div_mod x B ltac:(lia)).
    pose proof (Z.mod_pos_bound x B ltac:(lia)). lia.
  - intros Hx. split.
    + split; [nia|]. assert ((a / B + 1) * B <= 2 ^ p * B) by nia. nia.
    + symmetry. apply (Z.div_unique x B _ (x - a / B * B)); lia.
Qed.

Lemma in_net_self a p : is_u32 a → in_net a p a.
Proof. done. Qed.

(** ** The range tests mean what they say *)

Lemma overlaps_spec a p b q :
  prefix_ok p → prefix_ok q → is_u32 a → is_u32 b →
  ipv4RouteOverlapsRange a p b q = true ↔ ∃ x, in_net a p x ∧ in_net b q x.
Proof.
  intros Hp Hq Ha Hb. unfold ipv4RouteOverlapsRange. cbv zeta.
  rewrite !route_end, !land_mask by done. rewrite andb_true_iff, !Z.leb_le.
  setoid_rewrite in_net_interval; [|done..].
  destruct (block_bounds p Hp) as [Hbp _], (block_bounds q Hq) as [Hbq _].
  set (s := a / 2 ^ (32 - p) * 2 ^ (32 - p)). set (t := b / 2 ^ (32 - q) * 2 ^ (32 - q)).
  split.
  - intros [H1 H2]. exists (Z.max s t). lia.
  - intros (x & H1 & H2). lia.
Qed.

Lemma within_spec a p b q :
  prefix_ok p → prefix_ok q → is_u32 a → is_u32 b →
  ipv4RouteIsWithinRange a p b q = true ↔ ∀ x, in_net a p x → in_net b q x.
Proof.
  intros Hp Hq Ha Hb. unfold ipv4RouteIsWithinRange. cbv zeta.
  destruct (block_bounds p Hp) as [Hbp _], (block_bounds q Hq) as [Hbq _].
  destruct (p <? q) eqn:E; bprop.
  - split; [done|]. intros H. exfalso.
    assert (2 ^ (32 - p) = 2 ^ (q - p) * 2 ^ (32 - q)) as Hpow.
    { rewrite <-Z.pow_add_r by (unfold prefix_ok in *; lia). f_equal. lia. }
    assert (2 <= 2 ^ (q - p)).
    { change 2 with (2 ^ 1) at 1. apply Z.pow_le_mono_r; lia. }
    set (s := a / 2 ^ (32 - p) * 2 ^ (32 - p)).
    assert (in_net a p s) as H1 by (apply in_net_interval; [done..|]; subst s; lia).
    assert (in_net a p (s + (2 ^ (32 - p) - 1))) as H2
      by (apply in_net_interval; [done..|]; subst s; lia).
    apply H in H1, H2. apply in_net_interval in H1, H2; [|done..]. nia.
  - rewrite Z.eqb_eq, !land_mask by done. split.
    + intros H x [Hx1 Hx2]. split; [done|]. apply Z.mul_reg_r in H; [|lia]. rewrite <-H.
      assert (2 ^ (32 - q) = 2 ^ (32 - p) * 2 ^ (p - q)) as Hpow.
      { rewrite <-Z.pow_add_r by (unfold prefix_ok in *; lia). f_equal. lia. }
      assert (0 < 2 ^ (p - q)) by (apply Z.pow_pos_nonneg; lia).
      rewrite Hpow, <-!Z.div_div by lia. by rewrite Hx2.
    + intros H. destruct (H a (in_net_self a p Ha)) as [_ H']. by rewrite H'.
Qed.

(** The network address test [(ipv4 & mask) == ipv4]: no host bit is set. *)
Lemma land_mask_id a p :
  prefix_ok p → is_u32 a →
  (Z.land a (ipv4Mask p) =? a) = true ↔ a mod 2 ^ (32 - p) = 0.
Proof.
  intros Hp Ha. rewrite Z.eqb_eq, land_mask by done.
  destruct (block_bounds p Hp) as [Hb _].
  pose proof (Z.div_mod a (2 ^ (32 - p)) ltac:(lia)). lia.
Qed.

Lemma in_net_32 a x : is_u32 a → in_net a 32 x ↔ x = a.
Proof.
  intros Ha. rewrite in_net_interval by (done || unfold prefix_ok; lia).
  change (2 ^ (32 - 32)) with 1. rewrite Z.div_1_r. lia.
Qed.
