(* ===== verification/IpAddress.v ===== *)
(** * Address ranges of the daemon

    Model of client/mozilla/shared/ipaddress.cpp: IPv4 and IPv6 networks, the
    masks and the containment tests on their raw bytes, and the subtraction of
    one list of networks from another.  A network stands for a block of
    addresses; the theorems say which. *)

From S2P Require Import Prelude Text Json QtInterface QtModel.
#[local] Open Scope Z_scope.

(** ** Raw IPv6 addresses *)

(** [Q_IPV6ADDR]: sixteen bytes, in network order. *)
Definition toIPv6Address (h : qhost) : list Z :=
  match h with
  | HV6 a _ => map (λ i, octet (15 - Z.of_nat i) a) (seq 0 16)
  | _ => replicate 16 0
  end.

(** [QHostAddress(const Q_IPV6ADDR &)]: no scope. *)
Definition host_of_ipv6 (raw : list Z) : qhost := HV6 (be_value raw) [].

(** [memset(&raw[from], 0xff, count)]. *)
Definition memset_ff (from count : nat) (raw : list Z) : list Z :=
  take from raw ++ replicate count 0xff ++ drop (from + count) raw.

(** [raw[i] |= mask]. *)
Definition or_byte (i : nat) (mask : Z) (raw : list Z) : list Z :=
  <[i := Z.lor (raw !!! i) mask]> raw.

(** ** Networks *)

Record IPAddress := { m_address : qhost; m_prefixLength : Z }.

#[export] Instance IPAddress_eq_dec : EqDecision IPAddress.
Proof. solve_decision. Defined.

(** [QHostAddress::operator==], which does not compare the scope. *)
Definition host_eqb (a b : qhost) : bool :=
  match a, b with
  | HNull, HNull => true
  | HV4 x, HV4 y | HV6 x _, HV6 y _ => x =? y
  | _, _ => false
  end.

(** [operator==]. *)
Definition ip_eqb (a b : IPAddress) : bool :=
  host_eqb (m_address a) (m_address b) && (m_prefixLength a =? m_prefixLength b).

Section parsing.
Context `{QtNet}.

(** The constructor from text. *)
Definition IPAddress_text (ip : text) : IPAddress :=
  let '(address, prefixLength) :=
    if contains_char 47 ip then host_parseSubnet ip else (host_parse ip, 999999) in
  {| m_address := address;
     m_prefixLength :=
       match address with
       | HV4 _ => if prefixLength >=? 32 then 32 else prefixLength
       | HV6 _ _ => if prefixLength >=? 128 then 128 else prefixLength
       | HNull => prefixLength
       end |}.
End parsing.

(** The constructor from a host. *)
Definition IPAddress_host (address : qhost) : IPAddress :=
  {| m_address := address;
     m_prefixLength := if host_isV4 address then 32 else 128 |}.

Definition netmask (ip : IPAddress) : qhost :=
  let p := m_prefixLength ip in
  match m_address ip with
  | HV6 _ _ =>
      let raw := memset_ff 0 (Z.to_nat (p / 8)) (replicate 16 0) in
      let raw := if negb (p mod 8 =? 0)
                 then <[Z.to_nat (p / 8) := Z.lxor 0xff (Z.shiftr 0xff (p mod 8))]> raw else raw in
      host_of_ipv6 raw
  | HV4 _ => HV4 (if p <? 32 then Z.lxor 0xffffffff (Z.shiftr 0xffffffff p) else 0xffffffff)
  | HNull => HNull
  end.

Definition hostmask (ip : IPAddress) : qhost :=
  let p := m_prefixLength ip in
  match m_address ip with
  | HV6 _ _ =>
      let offset := Z.to_nat ((p + 7) / 8) in
      let raw := memset_ff offset (16 - offset) (replicate 16 0) in
      let raw := if negb (p mod 8 =? 0)
                 then <[Z.to_nat (p / 8) := Z.shiftr 0xff (p mod 8)]> raw else raw in
      host_of_ipv6 raw
  | HV4 _ => if p <? 32 then HV4 (Z.shiftr 0xffffffff p) else HV4 0
  | HNull => HNull
  end.

Definition broadcastAddress (ip : IPAddress) : qhost :=
  let p := m_prefixLength ip in
  match m_address ip with
  | HV6 _ _ =>
      let offset := Z.to_nat ((p + 7) / 8) in
      let raw := memset_ff offset (16 - offset) (toIPv6Address (m_address ip)) in
      let raw := if negb (p mod 8 =? 0)
                 then or_byte (Z.to_nat (p / 8)) (Z.shiftr 0xff (p mod 8)) raw else raw in
      host_of_ipv6 raw
  | HV4 a => HV4 (if p <? 32 then Z.lor a (Z.shiftr 0xffffffff p) else a)
  | HNull => HNull
  end.

Definition contains (ip : IPAddress) (address : qhost) : bool :=
  let p := m_prefixLength ip in
  if negb (host_same_protocol address (m_address ip)) then false else
  if p =? 0 then true else
  match m_address ip with
  | HV6 _ _ =>
      let a := toIPv6Address (m_address ip) in
      let b := toIPv6Address address in
      let bytes := Z.to_nat (p / 8) in
      if (0 <? bytes)%nat && negb (bool_decide (take bytes a = take bytes b)) then false else
      if negb (p mod 8 =? 0)
      then Z.shiftr (Z.lxor (a !!! bytes) (b !!! bytes)) (8 - p mod 8) =? 0
      else true
  | HV4 a =>
      let diff := Z.lxor a (host_toIPv4 address) in
      (if p <? 32 then Z.shiftr diff (32 - p) else diff) =? 0
  | HNull => false
  end.

Definition overlaps (ip other : IPAddress) : bool :=
  if m_prefixLength ip <? m_prefixLength other then contains ip (m_address other)
  else contains other (m_address ip).

Definition subnetOf (ip other : IPAddress) : bool :=
  if negb (host_same_protocol (m_address other) (m_address ip)) then false else
  if m_prefixLength ip <? m_prefixLength other then false
  else contains other (m_address ip).

Definition subnets (ip : IPAddress) : list IPAddress :=
  let p := m_prefixLength ip in
  match m_address ip with
  | HV4 a =>
      if p >=? 32 then [ip]
      else [{| m_address := HV4 a; m_prefixLength := p + 1 |};
            {| m_address := HV4 (Z.lor a (Z.shiftr 0x80000000 p)); m_prefixLength := p + 1 |}]
  | _ =>
      if p >=? 128 then [ip]
      else
        let raw := toIPv6Address (m_address ip) in
        [{| m_address := host_of_ipv6 raw; m_prefixLength := p + 1 |};
         {| m_address := host_of_ipv6 (or_byte (Z.to_nat (p / 8)) (Z.shiftr 0x80 (p mod 8)) raw);
            m_prefixLength := p + 1 |}]
  end.

(** The descent of [excludeAddresses].  [None] when [sn] is indexed out of its
    range, and when the fuel runs out: without assertions the loop repeats an
    iteration in which [ip] is inside neither half. *)
Fixpoint exclude_loop (fuel : nat) (ip : IPAddress) (sn result : list IPAddress) :
    option (list IPAddress) :=
  match fuel with
  | O => None
  | S f =>
      match sn with
      | sn0 :: sn1 :: _ =>
          if ip_eqb sn0 ip then Some (result ++ [sn1])
          else if ip_eqb sn1 ip then Some (result ++ [sn0])
          else if subnetOf ip sn0 then exclude_loop f ip (subnets sn0) (result ++ [sn1])
          else if subnetOf ip sn1 then exclude_loop f ip (subnets sn1) (result ++ [sn0])
          else exclude_loop f ip sn result
      | _ => None
      end
  end.

(** Each descent is one bit longer, so 128 rounds reach every prefix. *)
Definition exclude_fuel : nat := 128.

Definition excludeAddress (ip exclude : IPAddress) : option (list IPAddress) :=
  exclude_loop exclude_fuel exclude (subnets ip) [].

(** One round of the static [excludeAddresses]: a network of the results. *)
Definition exclude_from (exclude ip : IPAddress) : option (list IPAddress) :=
  if negb (overlaps ip exclude) then Some [ip]
  else if subnetOf exclude ip && negb (ip_eqb exclude ip) then excludeAddress ip exclude
  else Some [].

Fixpoint exclude_round (exclude : IPAddress) (results : list IPAddress) : option (list IPAddress) :=
  match results with
  | [] => Some []
  | ip :: rest =>
      range ← exclude_from exclude ip;
      newResults ← exclude_round exclude rest;
      Some (range ++ newResults)
  end.

Fixpoint excludeAddresses (sourceList excludeList : list IPAddress) : option (list IPAddress) :=
  match excludeList with
  | [] => Some sourceList
  | exclude :: rest =>
      results ← exclude_round exclude sourceList;
      excludeAddresses results rest
  end.

(** ** What a network stands for *)

Definition host_width (h : qhost) : Z :=
  match h with HNull => 0 | HV4 _ => 32 | HV6 _ _ => 128 end.

Definition host_value (h : qhost) : Z :=
  match h with HNull => 0 | HV4 a => a | HV6 a _ => a end.

Definition host_ok (h : qhost) : Prop :=
  h ≠ HNull ∧ 0 <= host_value h < 2 ^ host_width h.

(** A block of the addresses that share the prefix. *)
Definition block (ip : IPAddress) : Z := 2 ^ (host_width (m_address ip) - m_prefixLength ip).

Definition ip_ok (ip : IPAddress) : Prop :=
  host_ok (m_address ip) ∧ 0 <= m_prefixLength ip <= host_width (m_address ip).

(** A network address: no bit past the prefix is set, and no scope. *)
Definition network (ip : IPAddress) : Prop :=
  ip_ok ip ∧ host_scopeId (m_address ip) = [] ∧ host_value (m_address ip) mod block ip = 0.

Definition within (ip : IPAddress) (h : qhost) : Prop :=
  host_same_protocol h (m_address ip) = true
  ∧ host_value h / block ip = host_value (m_address ip) / block ip.

(** ** Bytes of an IPv6 address *)

Lemma octet_testbit k a j :
  0 <= k → 0 <= j < 8 → Z.testbit (octet k a) j = Z.testbit a (8 * k + j).
Proof.
  intros Hk Hj. unfold octet. change 256 with (2 ^ 8).
  rewrite Z.mod_pow2_bits_low by lia. rewrite Z.div_pow2_bits by lia. f_equal. lia.
Qed.

Lemma octet_is_byte k a : is_byte (octet k a).
Proof. unfold octet, is_byte. apply Z.mod_pos_bound. lia. Qed.

Lemma raw_length h : length (toIPv6Address h) = 16%nat.
Proof. by destruct h. Qed.

Lemma raw_bytes h : Forall is_byte (toIPv6Address h).
Proof.
  destruct h as [|a|a s]; simpl; repeat constructor; try apply octet_is_byte; unfold is_byte; lia.
Qed.

Lemma raw_at a s k :
  (k < 16)%nat → toIPv6Address (HV6 a s) !!! k = octet (15 - Z.of_nat k) a.
Proof.
  intros Hk. apply list_lookup_total_correct. unfold toIPv6Address.
  rewrite list_lookup_fmap, lookup_seq_lt by done. done.
Qed.

Lemma raw_testbit a s i :
  0 <= i < 128 →
  Z.testbit (toIPv6Address (HV6 a s) !!! (15 - Z.to_nat (i / 8))%nat) (i mod 8) = Z.testbit a i.
Proof.
  intros Hi. assert (0 <= i / 8 < 16) by dlia. rewrite raw_at by lia.
  rewrite octet_testbit by (try apply Z.mod_pos_bound; lia). f_equal.
  rewrite Nat2Z.inj_sub, Z2Nat.id by lia. dlia.
Qed.

Lemma bytes_testbit l i :
  Forall is_byte l → length l = 16%nat → 0 <= i < 128 →
  Z.testbit (be_value l) i = Z.testbit (l !!! (15 - Z.to_nat (i / 8))%nat) (i mod 8).
Proof.
  intros Hl Hn Hi. rewrite be_value_testbit by (done || rewrite ?Hn; lia). by rewrite Hn.
Qed.

Lemma bits_inj_width a b w :
  0 <= a < 2 ^ w → 0 <= b < 2 ^ w →
  (∀ i, 0 <= i < w → Z.testbit a i = Z.testbit b i) → a = b.
Proof.
  intros Ha Hb H. apply Z.bits_inj'. intros i Hi. destruct (decide (i < w)); [apply H; lia|].
  by rewrite !(testbit_high _ w) by lia.
Qed.

Lemma raw_value a s : 0 <= a < 2 ^ 128 → be_value (toIPv6Address (HV6 a s)) = a.
Proof.
  intros Ha. apply (bits_inj_width _ _ 128); [|done|].
  - apply (be_value_range (toIPv6Address (HV6 a s))), raw_bytes.
  - intros i Hi. rewrite bytes_testbit by (apply raw_bytes || apply raw_length || done).
    by apply raw_testbit.
Qed.

(** Equal prefixes, bit by bit. *)
Lemma prefix_bits a b w p :
  0 <= a < 2 ^ w → 0 <= b < 2 ^ w → 0 <= p <= w →
  a / 2 ^ (w - p) = b / 2 ^ (w - p) ↔ ∀ i, w - p <= i < w → Z.testbit a i = Z.testbit b i.
Proof.
  intros Ha Hb Hp. split.
  - intros H i Hi. replace i with ((i - (w - p)) + (w - p)) by lia.
    rewrite <-!Z.div_pow2_bits by lia. by rewrite H.
  - intros H. apply Z.bits_inj'. intros i Hi. rewrite !Z.div_pow2_bits by lia.
    destruct (decide (i + (w - p) < w)); [apply H; lia|]. by rewrite !(testbit_high _ w) by lia.
Qed.

Lemma shiftr_lxor_zero a b n w :
  0 <= n → 0 <= a < 2 ^ w → 0 <= b < 2 ^ w →
  Z.shiftr (Z.lxor a b) n = 0 ↔ ∀ i, n <= i < w → Z.testbit a i = Z.testbit b i.
Proof.
  intros Hn Ha Hb. split.
  - intros H i Hi. assert (Z.testbit (Z.shiftr (Z.lxor a b) n) (i - n) = false) as H1 by (rewrite H; apply Z.testbit_0_l).
    rewrite Z.shiftr_spec, Z.lxor_spec in H1 by lia. replace (i - n + n) with i in H1 by lia.
    by destruct (Z.testbit a i), (Z.testbit b i).
  - intros H. apply Z.bits_inj'. intros i Hi. rewrite Z.shiftr_spec, Z.lxor_spec, Z.bits_0 by lia.
    destruct (decide (i + n < w)); [rewrite H by lia; apply xorb_nilpotent|].
    by rewrite !(testbit_high _ w) by lia.
Qed.

Lemma take_eq_lookup (l k : list Z) n :
  length l = length k → (n ≤ length l)%nat →
  take n l = take n k ↔ ∀ i, (i < n)%nat → l !!! i = k !!! i.
Proof.
  intros Hl Hn. split.
  - intros H i Hi. rewrite !list_lookup_total_alt. rewrite <-(lookup_take_lt l n i), <-(lookup_take_lt k n i) by done.
    by rewrite H.
  - intros H. apply list_eq. intros i. destruct (decide (i < n)%nat).
    + rewrite !lookup_take_lt by done. rewrite !list_lookup_lookup_total_lt by lia. f_equal. by apply H.
    + by rewrite !lookup_take_ge by lia.
Qed.

Lemma octet_eq_bits k a b :
  0 <= k → octet k a = octet k b ↔ ∀ i, 8 * k <= i < 8 * k + 8 → Z.testbit a i = Z.testbit b i.
Proof.
  intros Hk. split.
  - intros H i Hi. replace i with (8 * k + (i - 8 * k)) by lia.
    rewrite <-!octet_testbit by lia. by rewrite H.
  - intros H. apply (bits_inj_width _ _ 8); [apply octet_is_byte..|].
    intros i Hi. rewrite !octet_testbit by lia. apply H. lia.
Qed.

(** The byte comparison of [contains]. *)
Lemma ipv6_prefix_equal a b s t p :
  0 <= p <= 128 →
  (take (Z.to_nat (p / 8)) (toIPv6Address (HV6 a s)) = take (Z.to_nat (p / 8)) (toIPv6Address (HV6 b t))
   ∧ (p mod 8 ≠ 0 →
      Z.shiftr (Z.lxor (toIPv6Address (HV6 a s) !!! Z.to_nat (p / 8))
                       (toIPv6Address (HV6 b t) !!! Z.to_nat (p / 8))) (8 - p mod 8) = 0))
  ↔ ∀ i, 128 - p <= i < 128 → Z.testbit a i = Z.testbit b i.
Proof.
  intros Hp. pose proof (Z.mod_pos_bound p 8 ltac:(lia)) as Hm.
  rewrite take_eq_lookup by (rewrite ?raw_length; (done || dlia)).
  assert (p mod 8 ≠ 0 → (Z.to_nat (p / 8) < 16)%nat) as Hlt by dlia.
  split.
  - intros [H1 H2] i Hi. destruct (decide (15 - i / 8 < p / 8)).
    + specialize (H1 (15 - Z.to_nat (i / 8))%nat ltac:(dlia)). rewrite !raw_at in H1 by dlia.
      eapply octet_eq_bits in H1; [exact H1|dlia..].
    + assert (p mod 8 ≠ 0) as Hne by dlia. specialize (H2 Hne). rewrite !raw_at in H2 by auto.
      assert (15 - Z.of_nat (Z.to_nat (p / 8)) = 15 - p / 8) as E by dlia. rewrite E in H2.
      eapply (shiftr_lxor_zero _ _ _ 8) in H2; [|lia|apply octet_is_byte..|exact (conj (ltac:(dlia) : 8 - p mod 8 <= i mod 8) (ltac:(dlia) : i mod 8 < 8))].
      rewrite !octet_testbit in H2 by dlia.
      by replace (8 * (15 - p / 8) + i mod 8) with i in H2 by dlia.
  - intros H. split.
    + intros k Hk. rewrite !raw_at by dlia. apply octet_eq_bits; [dlia|]. intros i Hi. apply H. dlia.
    + intros Hne. rewrite !raw_at by auto. apply (shiftr_lxor_zero _ _ _ 8); [lia|apply octet_is_byte..|].
      intros i Hi. rewrite !octet_testbit by dlia. apply H. dlia.
Qed.

Lemma contains_within ip h :
  ip_ok ip → host_ok h → contains ip h = true ↔ within ip h.
Proof.
  intros [[Hn Ha] Hp] [Hhn Hh]. unfold contains, within, block. cbv zeta.
  destruct (host_same_protocol h (m_address ip)) eqn:E; cbn [negb]; [|naive_solver].
  destruct (decide (m_prefixLength ip = 0)) as [E0|E0].
  { rewrite E0, Z.eqb_refl. split; [|done]. intros _. split; [done|].
    assert (host_width h = host_width (m_address ip)) as Hw by (by destruct h, (m_address ip)).
    rewrite Z.sub_0_r. rewrite Hw in Hh. by rewrite !Z.div_small. }
  apply Z.eqb_neq in E0 as E0'. rewrite E0'.
  destruct (m_address ip) as [|a|a s] eqn:EA, h as [|b|b t]; try done; cbn [host_value host_width] in *.
  - rewrite prefix_bits by lia. cbn [host_toIPv4]. rewrite Z.eqb_eq.
    destruct (m_prefixLength ip <? 32) eqn:El; bprop.
    + rewrite (shiftr_lxor_zero _ _ _ 32) by lia. naive_solver.
    + assert (m_prefixLength ip = 32) as -> by lia. rewrite Z.lxor_eq_0_iff. split.
      * intros ->. done.
      * intros [_ H]. apply (bits_inj_width _ _ 32); [done..|]. intros i Hi. symmetry. apply H. lia.
  - rewrite prefix_bits by lia. assert (∀ P : Prop, (true = true ∧ P) ↔ P) as -> by naive_solver.
    rewrite <-(ipv6_prefix_equal b a t s) by lia.
    set (n := Z.to_nat (m_prefixLength ip / 8)).
    set (ra := toIPv6Address (HV6 a s)). set (rb := toIPv6Address (HV6 b t)).
    assert (((0 <? n)%nat && negb (bool_decide (take n ra = take n rb))) = negb (bool_decide (take n rb = take n ra))) as ->.
    { destruct n as [|n]; [done|]. cbn [Nat.ltb Nat.leb andb]. f_equal. apply bool_decide_ext. naive_solver. }
    destruct (decide (take n rb = take n ra)) as [Ht|Ht].
    2: { rewrite bool_decide_eq_false_2 by done. cbn. naive_solver. }
    rewrite bool_decide_eq_true_2 by done. cbn [negb].
    destruct (decide (m_prefixLength ip mod 8 = 0)) as [Em|Em].
    + rewrite Em. cbn. naive_solver.
    + rewrite (proj2 (Z.eqb_neq _ _) Em). cbn [negb]. rewrite Z.eqb_eq, Z.lxor_comm. naive_solver.
Qed.

(** ** Masks, broadcast addresses and halves *)

Lemma bytes_value l a :
  Forall is_byte l → length l = 16%nat → 0 <= a < 2 ^ 128 →
  (∀ k j, (k < 16)%nat → 0 <= j < 8 → Z.testbit (l !!! k) j = Z.testbit a (8 * (15 - Z.of_nat k) + j)) →
  be_value l = a.
Proof.
  intros Hl Hn Ha H. apply (bits_inj_width _ _ 128); [|done|].
  - pose proof (be_value_range l Hl) as Hr. rewrite Hn in Hr. exact Hr.
  - intros i Hi. rewrite bytes_testbit by done. rewrite H by dlia. f_equal. dlia.
Qed.

Lemma lor_range a b w : 0 <= w → 0 <= a < 2 ^ w → 0 <= b < 2 ^ w → 0 <= Z.lor a b < 2 ^ w.
Proof.
  intros Hw Ha Hb. split; [apply Z.lor_nonneg; lia|].
  assert (Z.lor a b = Z.lor a b mod 2 ^ w) as ->; [|apply Z.mod_pos_bound; lia].
  rewrite <-Z.land_ones by done. apply Z.bits_inj'. intros i Hi.
  rewrite Z.land_spec, Z.lor_spec, Z.testbit_ones by lia.
  destruct (decide (i < w)).
  - rewrite (proj2 (Z.leb_le 0 i)), (proj2 (Z.ltb_lt i w)) by lia. by rewrite andb_true_r.
  - rewrite !(testbit_high _ w) by lia. done.
Qed.

Lemma or_byte_bytes k m l : is_byte m → Forall is_byte l → Forall is_byte (or_byte k m l).
Proof.
  intros Hm Hl. unfold or_byte. destruct (decide (k < length l)%nat) as [Hk|Hk].
  - apply Forall_insert; [done|]. apply (lor_range _ _ 8); [lia| |done].
    apply (Forall_lookup_1 is_byte l k); [done|]. by apply list_lookup_lookup_total_lt.
  - by rewrite list_insert_ge by lia.
Qed.

Lemma ipv6_or_byte a s k m :
  0 <= a < 2 ^ 128 → (k < 16)%nat → is_byte m →
  be_value (or_byte k m (toIPv6Address (HV6 a s))) = Z.lor a (Z.shiftl m (8 * (15 - Z.of_nat k))).
Proof.
  intros Ha Hk Hm. assert (0 <= Z.shiftl m (8 * (15 - Z.of_nat k)) < 2 ^ 128) as Hs.
  { rewrite Z.shiftl_mul_pow2 by lia. unfold is_byte in Hm. pose proof (Z.pow_pos_nonneg 2 (8 * (15 - Z.of_nat k))).
    assert (2 ^ 128 = 2 ^ (8 * Z.of_nat k) * 2 ^ 8 * 2 ^ (8 * (15 - Z.of_nat k))) as ->.
    { rewrite <-!Z.pow_add_r by lia. f_equal. lia. }
    pose proof (Z.pow_pos_nonneg 2 (8 * Z.of_nat k)). nia. }
  apply bytes_value.
  - apply or_byte_bytes; [done|apply raw_bytes].
  - unfold or_byte. by rewrite length_insert, raw_length.
  - by apply lor_range.
  - intros k' j Hk' Hj. rewrite Z.lor_spec, Z.shiftl_spec by lia. unfold or_byte.
    destruct (decide (k' = k)) as [->|Hne].
    + rewrite list_lookup_total_insert_eq by (rewrite raw_length; lia). rewrite Z.lor_spec, raw_at by done.
      rewrite octet_testbit by lia. f_equal. f_equal. lia.
    + rewrite list_lookup_total_insert_ne, raw_at by done. rewrite octet_testbit by lia.
      destruct (decide (k' < k)%nat).
      * rewrite (testbit_high m 8) by (unfold is_byte in Hm; lia). by rewrite orb_false_r.
      * rewrite (Z.testbit_neg_r m) by lia. by rewrite orb_false_r.
Qed.

Lemma shiftr_pow2 n k : 0 <= k <= n → Z.shiftr (2 ^ n) k = 2 ^ (n - k).
Proof.
  intros H. rewrite Z.shiftr_div_pow2 by lia.
  replace (2 ^ n) with (2 ^ (n - k) * 2 ^ k) by (rewrite <-Z.pow_add_r by lia; f_equal; lia).
  apply Z.div_mul. pose proof (Z.pow_pos_nonneg 2 k). lia.
Qed.

(** The same address family, another value. *)
Definition host_with (h : qhost) (v : Z) : qhost :=
  match h with HNull => HNull | HV4 _ => HV4 v | HV6 _ _ => HV6 v [] end.

Definition with_value (ip : IPAddress) (v p : Z) : IPAddress :=
  {| m_address := host_with (m_address ip) v; m_prefixLength := p |}.

Lemma subnets_halves ip :
  ip_ok ip → m_prefixLength ip < host_width (m_address ip) →
  subnets ip =
    [with_value ip (host_value (m_address ip)) (m_prefixLength ip + 1);
     with_value ip (Z.lor (host_value (m_address ip))
                          (2 ^ (host_width (m_address ip) - 1 - m_prefixLength ip))) (m_prefixLength ip + 1)].
Proof.
  intros [[Hn Ha] Hp] Hlt. unfold subnets, with_value. cbv zeta.
  destruct (m_address ip) as [|a|a s] eqn:EA; [done| |]; cbn [host_width host_value host_with] in *.
  - rewrite Z.geb_leb, (proj2 (Z.leb_gt _ _)) by lia. change 0x80000000 with (2 ^ 31).
    by rewrite shiftr_pow2 by lia.
  - rewrite Z.geb_leb, (proj2 (Z.leb_gt _ _)) by lia. unfold host_of_ipv6. change 0x80 with (2 ^ 7).
    pose proof (Z.mod_pos_bound (m_prefixLength ip) 8 ltac:(lia)).
    rewrite raw_value by done. rewrite ipv6_or_byte, shiftr_pow2; [|lia|done|dlia|].
    + rewrite Z.shiftl_mul_pow2, <-Z.pow_add_r by dlia.
      by replace (7 - m_prefixLength ip mod 8 + 8 * (15 - Z.of_nat (Z.to_nat (m_prefixLength ip / 8))))
        with (128 - 1 - m_prefixLength ip) by dlia.
    + rewrite shiftr_pow2 by lia. unfold is_byte. split; [apply Z.pow_nonneg; lia|].
      change 256 with (2 ^ 8). apply Z.pow_lt_mono_r; lia.
Qed.

(** ** Networks as intervals *)

Lemma block_pos ip : ip_ok ip → 0 < block ip.
Proof. intros [_ Hp]. apply Z.pow_pos_nonneg; lia. Qed.

Lemma network_interval ip h :
  network ip →
  within ip h ↔ host_same_protocol h (m_address ip) = true
                ∧ host_value (m_address ip) <= host_value h < host_value (m_address ip) + block ip.
Proof.
  intros (Hok & _ & Hm). pose proof (block_pos ip Hok) as HB. unfold within.
  set (B := block ip) in *. set (v := host_value (m_address ip)) in *.
  pose proof (Z.div_mod v B ltac:(lia)) as Hv. rewrite Hm in Hv.
  assert (host_value h / B = v / B ↔ v <= host_value h < v + B) as ->; [|done]. split.
  - intros E. pose proof (Z.div_mod (host_value h) B ltac:(lia)) as Hd.
    pose proof (Z.mod_pos_bound (host_value h) B ltac:(lia)). rewrite E in Hd. lia.
  - intros Hx. symmetry. apply (Z.div_unique _ _ _ (host_value h - v)); lia.
Qed.

Lemma same_protocol_sym a b : host_same_protocol a b = host_same_protocol b a.
Proof. by destruct a, b. Qed.

Lemma same_protocol_trans a b c :
  host_same_protocol a b = true → host_same_protocol b c = true → host_same_protocol a c = true.
Proof. by destruct a, b, c. Qed.

Lemma same_protocol_width a b : host_same_protocol a b = true → host_width a = host_width b.
Proof. by destruct a, b. Qed.

Lemma network_unique a b :
  network a → network b → host_same_protocol (m_address a) (m_address b) = true →
  m_prefixLength a = m_prefixLength b → within b (m_address a) → a = b.
Proof.
  intros Ha Hb Hs Hp Hw. apply network_interval in Hw; [|done]. destruct Hw as [_ Hw].
  destruct Ha as (Ha & Hsa & Hma), Hb as (Hb & Hsb & Hmb).
  pose proof (same_protocol_width _ _ Hs) as Hwd.
  assert (block a = block b) as HB by (unfold block; by rewrite Hp, Hwd).
  pose proof (block_pos b Hb). rewrite HB in Hma.
  assert (host_value (m_address a) = host_value (m_address b)) as Hv.
  { apply Z.mod_divide in Hma as [x Hx]; [|lia]. apply Z.mod_divide in Hmb as [y Hy]; [|lia].
    assert (y <= x) by (apply (Z.mul_le_mono_pos_r _ _ (block b)); lia).
    assert (x < y + 1) by (apply (Z.mul_lt_mono_pos_r (block b)); lia).
    rewrite Hx, Hy. f_equal. lia. }
  destruct a as [[|u|u s] p], b as [[|v|v t] q]; simpl in *; congruence.
Qed.

(** The halves of a network. *)
Definition half (ip : IPAddress) (upper : bool) : IPAddress :=
  with_value ip (host_value (m_address ip) + (if upper then block ip / 2 else 0)) (m_prefixLength ip + 1).

Lemma half_block ip upper :
  network ip → m_prefixLength ip < host_width (m_address ip) →
  block ip = 2 * block (half ip upper) ∧ block ip / 2 = block (half ip upper).
Proof.
  intros [[[Hn _] Hp] _] Hlt.
  assert (block ip = 2 * block (half ip upper)) as E.
  { unfold block, half, with_value. simpl.
    replace (host_width (host_with (m_address ip) _)) with (host_width (m_address ip)) by (by destruct (m_address ip)).
    rewrite <-Z.pow_succ_r by lia. f_equal. lia. }
  split; [done|]. rewrite E at 1. rewrite Z.mul_comm. by apply Z.div_mul.
Qed.

Lemma half_network ip upper :
  network ip → m_prefixLength ip < host_width (m_address ip) → network (half ip upper).
Proof.
  intros Hnet Hlt. destruct (half_block ip upper Hnet Hlt) as [E1 E2].
  destruct Hnet as ([[Hn Hv] Hp] & Hs & Hm). unfold network, ip_ok, host_ok.
  assert (host_width (m_address (half ip upper)) = host_width (m_address ip)) as Hw by (simpl; by destruct (m_address ip)).
  assert (host_value (m_address (half ip upper)) = host_value (m_address ip) + (if upper then block ip / 2 else 0)) as Hval
    by (simpl; by destruct (m_address ip)).
  assert (0 < block (half ip upper)) as HB.
  { unfold block. rewrite Hw. apply Z.pow_pos_nonneg; simpl; lia. }
  rewrite Hw, Hval. split_and!; try (simpl; lia); try (simpl; by destruct (m_address ip)).
  - destruct upper; lia.
  - apply Z.mod_divide in Hm as [x Hx]; [|lia].
    assert (2 ^ host_width (m_address ip) = 2 ^ m_prefixLength ip * block ip) as Hpow.
    { unfold block. rewrite <-Z.pow_add_r by lia. f_equal. lia. }
    destruct upper; [|lia]. rewrite E2. assert (x < 2 ^ m_prefixLength ip) by nia. nia.
  - apply Z.mod_divide in Hm as [x Hx]; [|lia]. apply Z.mod_divide; [lia|].
    rewrite E2, Hx, E1.
    destruct upper; [exists (2 * x + 1)|exists (2 * x)]; ring.
Qed.

Lemma subnets_network ip :
  network ip → m_prefixLength ip < host_width (m_address ip) → subnets ip = [half ip false; half ip true].
Proof.
  intros Hnet Hlt. destruct (half_block ip true Hnet Hlt) as [E1 E2].
  assert (block (half ip true) = 2 ^ (host_width (m_address ip) - 1 - m_prefixLength ip)) as E3.
  { unfold block, half, with_value. simpl.
    replace (host_width (host_with (m_address ip) _)) with (host_width (m_address ip)) by (by destruct (m_address ip)).
    f_equal. lia. }
  rewrite subnets_halves by (done || apply Hnet). unfold half. rewrite Z.add_0_r, E2, <-E3.
  do 2 f_equal. f_equal. set (b := block (half ip true)) in *.
  assert (Z.land (host_value (m_address ip)) b = 0) as H0.
  { destruct Hnet as ([_ Hp] & _ & Hm). rewrite E3. apply Z.bits_inj'. intros i Hi.
    rewrite Z.land_spec, Z.bits_0, Z.pow2_bits_eqb by lia.
    destruct (Z.eqb_spec (host_width (m_address ip) - 1 - m_prefixLength ip) i) as [<-|]; [|apply andb_false_r].
    apply Z.mod_divide in Hm as [x Hx]; [|pose proof (Z.pow_pos_nonneg 2 (host_width (m_address ip) - m_prefixLength ip)); unfold block; lia].
    rewrite Hx. unfold block. by rewrite Z.mul_pow2_bits_low by lia. }
  rewrite <-Z.lxor_lor, <-Z.add_nocarry_lxor by done. done.
Qed.

Lemma half_within ip upper h :
  network ip → m_prefixLength ip < host_width (m_address ip) →
  within (half ip upper) h ↔
    host_same_protocol h (m_address ip) = true
    ∧ host_value (m_address ip) + (if upper then block ip / 2 else 0) <= host_value h
      < host_value (m_address ip) + (if upper then block ip else block ip / 2).
Proof.
  intros Hnet Hlt. rewrite network_interval by (by apply half_network).
  destruct (half_block ip upper Hnet Hlt) as [E1 E2].
  assert (host_same_protocol h (m_address (half ip upper)) = host_same_protocol h (m_address ip)) as ->
    by (simpl; by destruct h, (m_address ip)).
  assert (host_value (m_address (half ip upper)) = host_value (m_address ip) + (if upper then block ip / 2 else 0)) as ->
    by (simpl; destruct Hnet as [[[Hn _] _] _]; by destruct (m_address ip)).
  destruct upper; intuition lia.
Qed.

(** ** Nested and disjoint networks *)

Lemma block_split a b :
  ip_ok a → ip_ok b → host_same_protocol (m_address a) (m_address b) = true →
  m_prefixLength a <= m_prefixLength b →
  block a = block b * 2 ^ (m_prefixLength b - m_prefixLength a).
Proof.
  intros [_ Ha] [_ Hb] Hs Hle. unfold block. rewrite (same_protocol_width _ _ Hs).
  rewrite <-Z.pow_add_r by (rewrite <-?(same_protocol_width _ _ Hs) in *; lia). f_equal. lia.
Qed.

(** An address of the longer network is in the shorter one exactly when the
    network address is. *)
Lemma within_nested a b h :
  ip_ok a → ip_ok b → m_prefixLength a <= m_prefixLength b → within b h →
  within a h ↔ within a (m_address b).
Proof.
  intros Ha Hb Hle [Hs Hq]. unfold within.
  destruct (host_same_protocol (m_address b) (m_address a)) eqn:E.
  - rewrite (same_protocol_trans _ _ _ Hs E).
    rewrite (block_split a b Ha Hb) by (done || by rewrite same_protocol_sym).
    pose proof (block_pos b Hb). rewrite <-!Z.div_div by (try apply Z.pow_pos_nonneg; lia). by rewrite Hq.
  - destruct (host_same_protocol h (m_address a)) eqn:E2; [|naive_solver].
    rewrite same_protocol_sym in Hs. by rewrite (same_protocol_trans _ _ _ Hs E2) in E.
Qed.

Lemma overlaps_common a b :
  ip_ok a → ip_ok b → overlaps a b = true ↔ ∃ h, host_ok h ∧ within a h ∧ within b h.
Proof.
  intros Ha Hb. unfold overlaps. assert (∀ c, ip_ok c → within c (m_address c)) as Hself.
  { intros c [[Hn _] _]. split; [by destruct (m_address c)|done]. }
  destruct (m_prefixLength a <? m_prefixLength b) eqn:E; bprop.
  - rewrite contains_within by (done || apply Hb). split.
    + intros H. exists (m_address b). split; [apply Hb|]. auto.
    + intros (h & _ & H1 & H2). by apply (within_nested a b h Ha Hb ltac:(lia) H2).
  - rewrite contains_within by (done || apply Ha). split.
    + intros H. exists (m_address a). split; [apply Ha|]. auto.
    + intros (h & _ & H1 & H2). by apply (within_nested b a h Hb Ha ltac:(lia) H1).
Qed.

Lemma subnetOf_within e ip :
  ip_ok e → ip_ok ip →
  subnetOf e ip = true ↔ m_prefixLength ip <= m_prefixLength e ∧ within ip (m_address e).
Proof.
  intros He Hip. unfold subnetOf. rewrite same_protocol_sym.
  destruct (host_same_protocol (m_address e) (m_address ip)) eqn:E; cbn [negb].
  - destruct (m_prefixLength e <? m_prefixLength ip) eqn:E2; bprop.
    + split; [done|lia].
    + rewrite contains_within by (done || apply He). naive_solver.
  - unfold within. rewrite E. naive_solver.
Qed.

(** ** Subtraction *)

(** The addresses of a list of networks. *)
Definition covers (l : list IPAddress) (h : qhost) : Prop := ∃ r, r ∈ l ∧ within r h.

Definition disjoint_nets (l : list IPAddress) : Prop :=
  ForallOrdPairs (λ a b, ∀ h, within a h → within b h → False) l.

Lemma covers_cons r l h : covers (r :: l) h ↔ within r h ∨ covers l h.
Proof. unfold covers. set_solver. Qed.

Lemma covers_app l k h : covers (l ++ k) h ↔ covers l h ∨ covers k h.
Proof. unfold covers. set_solver. Qed.

Lemma covers_nil h : covers [] h ↔ False.
Proof. unfold covers. set_solver. Qed.

Lemma disjoint_nets_app l k :
  disjoint_nets l → disjoint_nets k → (∀ h, covers l h → covers k h → False) → disjoint_nets (l ++ k).
Proof.
  intros Hl Hk Hd. unfold disjoint_nets. induction Hl as [|a l Ha Hl IH]; [done|]. simpl. constructor.
  - apply Forall_app. split; [done|]. apply Forall_forall. intros b Hb h H1 H2.
    apply (Hd h); [exists a; split; [constructor|done]|by exists b].
  - apply IH. intros h H1. apply Hd. rewrite covers_cons. by right.
Qed.

(** What subtracting [e] from [cur] must return. *)
Definition remainder (cur e : IPAddress) (rs : list IPAddress) : Prop :=
  Forall network rs ∧ disjoint_nets rs
  ∧ ∀ h, host_ok h → covers rs h ↔ within cur h ∧ ¬ within e h.

Lemma half_cases ip h :
  network ip → m_prefixLength ip < host_width (m_address ip) →
  (within ip h ↔ within (half ip false) h ∨ within (half ip true) h)
  ∧ ¬ (within (half ip false) h ∧ within (half ip true) h).
Proof.
  intros Hnet Hlt. rewrite !half_within by done. rewrite (network_interval ip) by done.
  pose proof (block_pos ip (proj1 Hnet)) as HB. destruct (half_block ip true Hnet Hlt) as [E1 E2].
  rewrite <-E2 in E1. set (b := block ip / 2) in *. destruct (decide (host_value h < host_value (m_address ip) + b));
    intuition lia.
Qed.

(** A network has only addresses of its family. *)
Lemma network_within_ok ip h : network ip → within ip h → host_ok h.
Proof.
  intros Hnet Hw. apply network_interval in Hw as [Hs Hw]; [|done].
  destruct Hnet as ([[Hn Hv] Hp] & _ & Hm). split; [by destruct h, (m_address ip)|].
  rewrite (same_protocol_width _ _ Hs).
  assert (2 ^ host_width (m_address ip) = 2 ^ m_prefixLength ip * block ip) as Hpow.
  { unfold block. rewrite <-Z.pow_add_r by lia. f_equal. lia. }
  assert (0 < block ip) by (apply Z.pow_pos_nonneg; lia).
  apply Z.mod_divide in Hm as [x Hx]; [|lia].
  assert (x < 2 ^ m_prefixLength ip) by (apply (Z.mul_lt_mono_pos_r (block ip)); lia).
  assert ((x + 1) * block ip <= 2 ^ m_prefixLength ip * block ip) by (apply Z.mul_le_mono_nonneg_r; lia).
  lia.
Qed.

Lemma remainder_half cur e upper rs :
  network cur → m_prefixLength cur < host_width (m_address cur) →
  remainder (half cur upper) e rs → (∀ h, within e h → within (half cur upper) h) →
  remainder cur e (half cur (negb upper) :: rs).
Proof.
  intros Hc Hlt (Hn & Hd & Hr) He.
  assert (∀ h, within (half cur upper) h → within (half cur (negb upper)) h → False) as Hx.
  { intros h H1 H2. destruct (half_cases cur h Hc Hlt) as [_ H]. destruct upper; naive_solver. }
  split_and!.
  - constructor; [by apply half_network|done].
  - constructor; [|done]. apply Forall_forall. intros b Hb h H1 H2.
    apply (Hx h); [|done]. rewrite Forall_forall in Hn. apply Hr; [exact (network_within_ok b h (Hn b Hb) H2)|].
    by exists b.
  - intros h Hh. rewrite covers_cons, Hr by done. destruct (half_cases cur h Hc Hlt) as [H1 H2].
    rewrite H1. specialize (He h). specialize (Hx h). destruct upper; simpl in *; naive_solver.
Qed.

Lemma half_prefix ip upper : m_prefixLength (half ip upper) = m_prefixLength ip + 1.
Proof. done. Qed.

Lemma half_protocol ip upper h :
  host_same_protocol h (m_address (half ip upper)) = host_same_protocol h (m_address ip).
Proof. simpl. by destruct h, (m_address ip). Qed.

Lemma remainder_self ip : remainder ip ip [].
Proof.
  split_and!; [constructor|constructor|]. intros h _. rewrite covers_nil. naive_solver.
Qed.

(** Networks have no scope. *)
Lemma network_eqb a b : network a → network b → ip_eqb a b = bool_decide (a = b).
Proof.
  intros (_ & Ha & _) (_ & Hb & _). apply Bool.eq_iff_eq_true. rewrite bool_decide_eq_true. unfold ip_eqb.
  destruct a as [x p], b as [y q]. cbn [m_address m_prefixLength] in *. rewrite andb_true_iff, Z.eqb_eq. split.
  - intros [E ->]. destruct x, y; simpl in *; try done; apply Z.eqb_eq in E; by simplify_eq.
  - intros [= -> ->]. split; [|done]. destruct y; [done|apply Z.eqb_refl..].
Qed.

(** The descent splits off the half without [e] until it meets [e]. *)
Lemma exclude_loop_spec fuel e cur result :
  network e → network cur → m_prefixLength cur < m_prefixLength e → within cur (m_address e) →
  m_prefixLength e - m_prefixLength cur <= Z.of_nat fuel →
  ∃ rs, exclude_loop fuel e (subnets cur) result = Some (result ++ rs)
        ∧ remainder cur e rs ∧ Z.of_nat (length rs) = m_prefixLength e - m_prefixLength cur.
Proof.
  intros He. revert cur result. induction fuel as [|fuel IH]; intros cur result Hc Hlt Hin Hf; [lia|].
  pose proof (proj1 Hin) as Hprot. pose proof (same_protocol_width _ _ Hprot) as Hwd.
  assert (m_prefixLength cur < host_width (m_address cur)) as Hcw.
  { destruct He as [[_ He] _]. lia. }
  rewrite subnets_network by done. cbn [exclude_loop].
  assert (∀ upper, half cur upper = e →
            remainder cur e [half cur (negb upper)]) as Hlast.
  { intros upper <-. apply remainder_half; [done..|apply remainder_self|done]. }
  rewrite !(network_eqb _ e) by (try apply half_network; done). case_bool_decide as E0.
  { exists [half cur true]. split_and!; [done|by apply (Hlast false)|].
    rewrite <-E0, half_prefix. simpl. lia. }
  case_bool_decide as E1.
  { exists [half cur false]. split_and!; [done|by apply (Hlast true)|].
    rewrite <-E1, half_prefix. simpl. lia. }
  assert (∀ upper, half cur upper ≠ e → within (half cur upper) (m_address e) →
            m_prefixLength cur + 1 < m_prefixLength e) as Hdeep.
  { intros upper Hne Hw. destruct (decide (m_prefixLength e = m_prefixLength cur + 1)) as [Ep|]; [|lia].
    exfalso. apply Hne. symmetry. apply network_unique; [done|by apply half_network| | |done].
    - by rewrite half_protocol.
    - done. }
  assert (∀ upper, half cur upper ≠ e → within (half cur upper) (m_address e) →
    ∃ rs, exclude_loop fuel e (subnets (half cur upper)) (result ++ [half cur (negb upper)]) = Some (result ++ rs)
          ∧ remainder cur e rs ∧ Z.of_nat (length rs) = m_prefixLength e - m_prefixLength cur) as Hrec.
  { intros upper Hne Hw. pose proof (Hdeep upper Hne Hw). pose proof (half_network cur upper Hc Hcw) as Hh.
    destruct (IH (half cur upper) (result ++ [half cur (negb upper)])) as (rs & Hrs & Hrem & Hlen);
      [done|rewrite half_prefix; lia|done|rewrite half_prefix; lia|].
    exists (half cur (negb upper) :: rs). split_and!.
    - by rewrite Hrs, <-app_assoc.
    - apply remainder_half; [done..|]. intros h Hh'.
      apply (within_nested (half cur upper) e h (proj1 Hh) (proj1 He)); [rewrite half_prefix; lia|done..].
    - rewrite half_prefix in Hlen. simpl. lia. }
  pose proof (half_network cur false Hc Hcw) as Hh0. pose proof (half_network cur true Hc Hcw) as Hh1.
  destruct (subnetOf e (half cur false)) eqn:S0.
  { apply subnetOf_within in S0 as [_ S0]; [|apply He|apply Hh0]. by apply (Hrec false). }
  assert (m_prefixLength cur + 1 <= m_prefixLength e) as Hge by lia.
  assert (within (half cur true) (m_address e)) as H1.
  { destruct (half_cases cur (m_address e) Hc Hcw) as [[Hor _] _].
    destruct (Hor Hin) as [H0|]; [|done]. exfalso.
    assert (subnetOf e (half cur false) = true) as S0'; [|congruence].
    apply subnetOf_within; [apply He|apply Hh0|]. done. }
  assert (subnetOf e (half cur true) = true) as ->.
  { apply subnetOf_within; [apply He|apply Hh1|]. done. }
  by apply (Hrec true).
Qed.

Lemma exclude_from_spec e ip :
  network e → network ip → ∃ rs, exclude_from e ip = Some rs ∧ remainder ip e rs.
Proof.
  intros He Hip. unfold exclude_from. pose proof (overlaps_common ip e (proj1 Hip) (proj1 He)) as Hov.
  destruct (overlaps ip e) eqn:Eo; cbn [negb].
  2: { exists [ip]. split; [done|]. split_and!; [by constructor|repeat constructor|].
       intros h Hh. rewrite covers_cons, covers_nil. split; [|naive_solver].
       intros [H|[]]. split; [done|]. intros He'. destruct Hov as [_ Hov]. discriminate Hov. by exists h. }
  rewrite (network_eqb e ip) by done.
  destruct (subnetOf e ip && negb (bool_decide (e = ip))) eqn:Es.
  - bprop. match goal with H : subnetOf _ _ = true |- _ => apply subnetOf_within in H as [Hp Hw]; [|apply He|apply Hip] end.
    assert (m_prefixLength ip < m_prefixLength e).
    { destruct (decide (m_prefixLength e = m_prefixLength ip)) as [Ep|]; [|lia]. exfalso.
      assert (e = ip); [|done]. apply network_unique; [done..|apply Hw|done|done]. }
    destruct (exclude_loop_spec exclude_fuel e ip [] He Hip) as (rs & H1 & H2 & _); [done|done| |by exists rs].
    destruct He as [[_ He] _], Hip as [[_ Hip] _]. unfold exclude_fuel.
    assert (host_width (m_address e) <= 128) by (by destruct (m_address e)). lia.
  - exists []. split; [done|]. split_and!; [constructor|constructor|]. intros h Hh. rewrite covers_nil.
    split; [done|]. intros [H1 H2]. apply H2. clear H2.
    destruct (proj1 Hov eq_refl) as (g & _ & Hg1 & Hg2).
    destruct (decide (m_prefixLength e <= m_prefixLength ip)) as [Hle|Hle].
    + apply (within_nested e ip h (proj1 He) (proj1 Hip) Hle H1).
      by apply (within_nested e ip g (proj1 He) (proj1 Hip) Hle Hg1).
    + exfalso. apply andb_false_iff in Es as [Es|Es].
      * assert (subnetOf e ip = true); [|congruence]. apply subnetOf_within; [apply He|apply Hip|].
        split; [lia|]. apply (within_nested ip e g (proj1 Hip) (proj1 He) ltac:(lia) Hg2); done.
      * bprop. subst e. lia.
Qed.

Lemma exclude_round_spec e l :
  network e → Forall network l →
  ∃ rs, exclude_round e l = Some rs ∧ Forall network rs ∧ (disjoint_nets l → disjoint_nets rs)
        ∧ ∀ h, host_ok h → covers rs h ↔ covers l h ∧ ¬ within e h.
Proof.
  intros He. induction 1 as [|ip l Hip Hl IH].
  { exists []. split_and!; [done|constructor|done|]. intros h _. rewrite covers_nil. naive_solver. }
  destruct IH as (rs & Hr1 & Hr2 & Hr3 & Hr4).
  destruct (exclude_from_spec e ip He Hip) as (qs & Hq1 & Hq2 & Hq3 & Hq4).
  exists (qs ++ rs). cbn [exclude_round]. rewrite Hq1. cbn [mbind option_bind]. rewrite Hr1. split_and!.
  - done.
  - by apply Forall_app.
  - intros Hd. inversion Hd as [|?? Hd1 Hd2]; subst. apply disjoint_nets_app; [done|by apply Hr3|].
    intros h H1 H2. assert (host_ok h) as Hh.
    { destruct H1 as (q & Hq & Hw). rewrite Forall_forall in Hq2. by apply (network_within_ok q h); [apply Hq2|]. }
    apply Hq4 in H1 as [H1 _]; [|done]. apply Hr4 in H2 as [H2 _]; [|done]. destruct H2 as (b & Hb & H2).
    rewrite Forall_forall in Hd1. by apply (Hd1 b Hb h).
  - intros h Hh. rewrite covers_app, covers_cons, Hq4, Hr4 by done. tauto.
Qed.

Lemma excludeAddresses_spec l es :
  Forall network es → Forall network l →
  ∃ rs, excludeAddresses l es = Some rs ∧ Forall network rs ∧ (disjoint_nets l → disjoint_nets rs)
        ∧ ∀ h, host_ok h → covers rs h ↔ covers l h ∧ ¬ covers es h.
Proof.
  intros Hes. revert l. induction Hes as [|e es He Hes IH]; intros l Hl.
  { exists l. split_and!; [done..|]. intros h _. rewrite covers_nil. tauto. }
  destruct (exclude_round_spec e l He Hl) as (qs & Hq1 & Hq2 & Hq3 & Hq4).
  destruct (IH qs Hq2) as (rs & Hr1 & Hr2 & Hr3 & Hr4).
  exists rs. cbn [excludeAddresses]. rewrite Hq1. cbn [mbind option_bind]. split_and!; [done|done|auto|].
  intros h Hh. rewrite Hr4, Hq4, covers_cons by done. tauto.
Qed.

(** ** The masks *)

Lemma lor_block_ones v n : 0 <= n → v mod 2 ^ n = 0 → Z.lor v (2 ^ n - 1) = v + (2 ^ n - 1).
Proof.
  intros Hn Hm. assert (Z.land v (2 ^ n - 1) = 0) as H0.
  { replace (2 ^ n - 1) with (Z.ones n) by (rewrite Z.ones_equiv; lia). by rewrite Z.land_ones. }
  rewrite <-Z.lxor_lor, <-Z.add_nocarry_lxor by done. done.
Qed.

Lemma mask_cases w (P : Z → bool) :
  forallb P (seqZ 0 (w + 1)) = true → ∀ p, 0 <= p <= w → P p = true.
Proof.
  intros H p Hp. rewrite forallb_true_iff in H. eapply Forall_forall in H; [done|].
  apply elem_of_seqZ. lia.
Qed.

Lemma netmask_value ip :
  ip_ok ip → netmask ip = host_with (m_address ip) (2 ^ host_width (m_address ip) - block ip).
Proof.
  intros [[Hn _] Hp]. unfold block, netmask, host_of_ipv6.
  destruct ip as [[|a|a s] p]; [done| |]; cbn [m_address m_prefixLength host_width host_with] in *; f_equal.
  - apply Z.eqb_eq. revert p Hp. by apply (mask_cases 32).
  - apply Z.eqb_eq. revert p Hp. by apply (mask_cases 128).
Qed.

Lemma hostmask_value ip :
  ip_ok ip → hostmask ip = host_with (m_address ip) (block ip - 1).
Proof.
  intros [[Hn _] Hp]. unfold block, hostmask, host_of_ipv6.
  destruct ip as [[|a|a s] p]; [done| |]; cbn [m_address m_prefixLength host_width host_with] in *.
  - destruct (p <? 32) eqn:E; bprop; f_equal; [|by replace p with 32 by lia].
    apply Z.eqb_eq. revert p E Hp. intros p E Hp.
    assert (p <? 32 = true) as E' by (apply Z.ltb_lt; lia).
    pose proof (mask_cases 32 (λ p, implb (p <? 32) (Z.shiftr 4294967295 p =? 2 ^ (32 - p) - 1)) eq_refl p Hp) as H.
    cbv beta in H. by rewrite E' in H.
  - f_equal. apply Z.eqb_eq. revert p Hp. by apply (mask_cases 128).
Qed.

Lemma memset_ff_at n k (l : list Z) :
  (n ≤ 16)%nat → length l = 16%nat → (k < 16)%nat →
  memset_ff n (16 - n) l !!! k = if decide (k < n)%nat then l !!! k else 0xff.
Proof.
  intros Hn Hl Hk. unfold memset_ff. rewrite drop_ge, app_nil_r by lia. case_decide as Hd.
  - rewrite lookup_total_app_l by (rewrite length_take; lia).
    rewrite !list_lookup_total_alt, lookup_take_lt by done. done.
  - rewrite lookup_total_app_r by (rewrite length_take; lia). rewrite length_take.
    rewrite list_lookup_total_alt, lookup_replicate_2 by lia. done.
Qed.

Lemma memset_ff_bytes n (l : list Z) : Forall is_byte l → Forall is_byte (memset_ff n (16 - n) l).
Proof.
  intros Hl. unfold memset_ff. rewrite !Forall_app. split; [by apply Forall_take|].
  split; [|by apply Forall_drop]. apply Forall_replicate. unfold is_byte. lia.
Qed.

Lemma memset_ff_length n (l : list Z) :
  (n ≤ 16)%nat → length l = 16%nat → length (memset_ff n (16 - n) l) = 16%nat.
Proof. intros Hn Hl. unfold memset_ff. rewrite !length_app, length_take, length_replicate, length_drop. lia. Qed.

Lemma ff_testbit j : 0 <= j < 8 → Z.testbit 0xff j = true.
Proof. intros Hj. change 0xff with (Z.ones 8). by rewrite Z.ones_spec_low by lia. Qed.

Lemma broadcast_lor ip :
  ip_ok ip →
  broadcastAddress ip = host_with (m_address ip) (Z.lor (host_value (m_address ip)) (block ip - 1)).
Proof.
  intros [[Hn Ha] Hp]. unfold block. destruct ip as [[|a|a s] p]; [done| |]; cbn [m_address m_prefixLength] in *.
  - cbn. f_equal. cbn in Hp. destruct (p <? 32) eqn:E; bprop.
    + f_equal. assert (hostmask {| m_address := HV4 a; m_prefixLength := p |} = HV4 (2 ^ (32 - p) - 1)) as H
        by (by apply (hostmask_value {| m_address := HV4 a; m_prefixLength := p |})).
      unfold hostmask in H. cbn in H. rewrite (proj2 (Z.ltb_lt p 32)) in H by lia. by injection H.
    + replace p with 32 by lia. change (2 ^ (32 - 32) - 1) with 0. by rewrite Z.lor_0_r.
  - unfold broadcastAddress. cbn [m_address m_prefixLength host_value host_width host_with] in *.
    unfold host_of_ipv6. f_equal. pose proof (Z.mod_pos_bound p 8 ltac:(lia)) as Hm.
    assert (0 < 2 ^ (128 - p) <= 2 ^ 128) as Hb.
    { split; [apply Z.pow_pos_nonneg; lia|]. apply Z.pow_le_mono_r; lia. }
    set (n := Z.to_nat ((p + 7) / 8)). assert (n ≤ 16)%nat as Hn16 by (subst n; dlia).
    set (raw := memset_ff n (16 - n) (toIPv6Address (HV6 a s))).
    assert (Forall is_byte raw) as Hraw by apply memset_ff_bytes, raw_bytes.
    assert (length raw = 16%nat) as Hlen by (by apply memset_ff_length; [|apply raw_length]).
    apply bytes_value.
    + destruct (negb _); [|done]. apply or_byte_bytes; [|done]. unfold is_byte.
      rewrite Z.shiftr_div_pow2 by lia. split; [apply Z.div_pos; lia|].
      apply Z.div_lt_upper_bound; [lia|]. assert (0 < 2 ^ (p mod 8)) by (apply Z.pow_pos_nonneg; lia). lia.
    + destruct (negb _); [|done]. unfold or_byte. by rewrite length_insert.
    + apply lor_range; lia.
    + intros k j Hk Hj. rewrite Z.lor_spec.
      replace (2 ^ (128 - p) - 1) with (Z.ones (128 - p)) by (rewrite Z.ones_equiv; lia).
      rewrite Z.testbit_ones by lia. rewrite (proj2 (Z.leb_le 0 _)) by lia. rewrite andb_true_l.
      assert (raw !!! k = if decide (k < n)%nat then octet (15 - Z.of_nat k) a else 0xff) as Hk'.
      { subst raw. rewrite memset_ff_at by (done || apply raw_length). by rewrite raw_at. }
      destruct (decide (p mod 8 = 0)) as [Em|Em].
      * rewrite Em. cbn [Z.eqb negb]. rewrite Hk'. case_decide as Hd.
        -- rewrite octet_testbit by lia. rewrite (proj2 (Z.ltb_ge _ _)), orb_false_r by (subst n; dlia). done.
        -- rewrite ff_testbit by done. rewrite (proj2 (Z.ltb_lt _ _)) by (subst n; dlia). by rewrite orb_true_r.
      * rewrite (proj2 (Z.eqb_neq _ _) Em). cbn [negb]. unfold or_byte.
        destruct (decide (k = Z.to_nat (p / 8))) as [->|Hne].
        -- rewrite list_lookup_total_insert_eq by lia. rewrite Hk', decide_True by (subst n; dlia).
           rewrite Z.lor_spec, octet_testbit, Z.shiftr_spec by lia. f_equal.
           destruct (decide (j + p mod 8 < 8)).
           ++ rewrite ff_testbit by lia. symmetry. apply Z.ltb_lt. dlia.
           ++ rewrite (testbit_high 0xff 8) by lia. symmetry. apply Z.ltb_ge. dlia.
        -- rewrite list_lookup_total_insert_ne by done. rewrite Hk'. case_decide as Hd.
           ++ rewrite octet_testbit by lia. rewrite (proj2 (Z.ltb_ge _ _)), orb_false_r by (subst n; dlia). done.
           ++ rewrite ff_testbit by done. rewrite (proj2 (Z.ltb_lt _ _)) by (subst n; dlia). by rewrite orb_true_r.
Qed.

(** ** The properties of address ranges *)

(** C30. Subtracting networks always terminates within 128 halvings per network,
    for IPv4 and IPv6: the result consists of networks, they do not overlap
    when the sources do not, and an address is in the result exactly when it is
    in a source and in no excluded network. *)
Theorem exclude_addresses_exact sources excludes :
  Forall network sources → Forall network excludes →
  ∃ results, excludeAddresses sources excludes = Some results
    ∧ Forall network results
    ∧ (disjoint_nets sources → disjoint_nets results)
    ∧ ∀ h, host_ok h →
        existsb (λ r, contains r h) results
        = existsb (λ r, contains r h) sources && negb (existsb (λ r, contains r h) excludes).
Proof.
  intros Hs He. destruct (excludeAddresses_spec sources excludes He Hs) as (rs & H1 & H2 & H3 & H4).
  exists rs. split_and!; [done..|]. intros h Hh.
  assert (∀ l, Forall network l → existsb (λ r, contains r h) l = true ↔ covers l h) as Hc.
  { intros l Hl. rewrite existsb_true_iff. rewrite Forall_forall in Hl. unfold covers.
    split; intros (r & Hr & Hw); exists r; (split; [done|]); apply contains_within in Hw || apply contains_within;
      auto; apply Hl, Hr. }
  apply eq_bool_prop_intro. rewrite !Is_true_true, andb_true_iff, negb_true_iff, <-not_true_iff_false, !Hc by done. by apply H4.
Qed.

(** The masks of a range of prefix [p] of either family: the network mask
    and the host mask are the complementary words with the first [p] and the
    last bits set, and the broadcast address of a network is the last address
    it contains. *)
Theorem range_masks_exact ip :
  network ip →
  netmask ip = host_with (m_address ip) (2 ^ host_width (m_address ip) - block ip)
  ∧ hostmask ip = host_with (m_address ip) (block ip - 1)
  ∧ contains ip (broadcastAddress ip) = true
  ∧ ∀ h, host_ok h → contains ip h = true → host_value h <= host_value (broadcastAddress ip).
Proof.
  intros Hnet. pose proof (proj1 Hnet) as Hok. pose proof (block_pos ip Hok) as HB.
  assert (broadcastAddress ip = host_with (m_address ip) (host_value (m_address ip) + (block ip - 1))) as Hb.
  { rewrite broadcast_lor by done. f_equal. unfold block. apply lor_block_ones; [destruct Hok; lia|apply Hnet]. }
  assert (host_value (broadcastAddress ip) = host_value (m_address ip) + (block ip - 1)) as Hv.
  { rewrite Hb. destruct Hok as [[Hn _] _]. by destruct (m_address ip). }
  assert (within ip (broadcastAddress ip)) as Hw.
  { apply network_interval; [done|]. rewrite Hv. split; [|lia]. rewrite Hb. destruct Hok as [[Hn _] _].
    by destruct (m_address ip). }
  split_and!; [by apply netmask_value|by apply hostmask_value| |].
  - apply contains_within; [done| |done]. by apply (network_within_ok ip).
  - intros h Hh Hc. apply contains_within, network_interval in Hc as [_ Hc]; [|done..]. lia.
Qed.

(** ** Concrete ranges *)

Definition v4net (a b c d p : Z) : IPAddress :=
  {| m_address := HV4 (be_value [a; b; c; d]); m_prefixLength := p |}.

Definition v6net (a p : Z) : IPAddress := {| m_address := HV6 a []; m_prefixLength := p |}.

Ltac prove_network :=
  unfold network, ip_ok, host_ok; split_and!; vm_compute; done.

Lemma exclude_addresses_exact_witness :
  ∃ results,
    excludeAddresses [v4net 10 0 0 0 8; v6net 0 0] [v4net 10 1 0 0 16; v6net (2 ^ 127) 1] = Some results
    ∧ existsb (λ r, contains r (HV4 (be_value [10; 1; 2; 3]))) results = false
    ∧ existsb (λ r, contains r (HV4 (be_value [10; 2; 2; 3]))) results = true
    ∧ existsb (λ r, contains r (HV6 5 [])) results = true.
Proof.
  destruct (exclude_addresses_exact [v4net 10 0 0 0 8; v6net 0 0] [v4net 10 1 0 0 16; v6net (2 ^ 127) 1])
    as (rs & H1 & _ & _ & H4).
  - repeat (apply Forall_cons_2; [prove_network|]); apply Forall_nil_2.
  - repeat (apply Forall_cons_2; [prove_network|]); apply Forall_nil_2.
  - exists rs. split; [done|].
    assert (∀ h, h ≠ HNull → (0 <=? host_value h) && (host_value h <? 2 ^ host_width h) = true → host_ok h) as Hok.
    { intros h Hn Hb. bprop. split; [exact Hn|split; assumption]. }
    split_and!; (rewrite H4; [vm_compute; reflexivity|apply Hok; [discriminate|vm_compute; reflexivity]]).
Defined.

Lemma range_masks_exact_witness :
  contains (v4net 192 168 4 0 22) (broadcastAddress (v4net 192 168 4 0 22)) = true
  ∧ broadcastAddress (v4net 192 168 4 0 22) = HV4 (be_value [192; 168; 7; 255]).
Proof.
  destruct (range_masks_exact (v4net 192 168 4 0 22)) as (_ & _ & H & _); [prove_network|].
  split; [exact H|]. vm_compute. done.
Defined.

(** ** Ranges with host bits *)

(** A round in which the excluded range is inside neither half changes nothing. *)
Lemma exclude_loop_stuck e a b :
  ip_eqb a e = false → ip_eqb b e = false → subnetOf e a = false → subnetOf e b = false →
  ∀ fuel result, exclude_loop fuel e [a; b] result = None.
Proof.
  intros H1 H2 H3 H4. induction fuel as [|f IH]; intros result; [done|].
  cbn [exclude_loop]. rewrite H1, H2, H3, H4. apply IH.
Qed.

Lemma exclude_loop_more fuel more e sn result r :
  (fuel ≤ more)%nat → exclude_loop fuel e sn result = Some r → exclude_loop more e sn result = Some r.
Proof.
  revert more sn result. induction fuel as [|f IH]; intros [|g] sn result Hle H; [done|done|lia|].
  cbn [exclude_loop] in *. destruct sn as [|a [|b sn]]; [done..|].
  destruct (ip_eqb a e); [done|]. destruct (ip_eqb b e); [done|].
  destruct (subnetOf e a); [apply IH; [lia|done]|]. destruct (subnetOf e b); (apply IH; [lia|done]).
Qed.

(** The constructor from a host and a prefix keeps the host bits; excluding
    such a range from one that contains it never returns. *)
Theorem exclude_host_bits_diverges fuel :
  exclude_loop fuel (v4net 10 0 0 5 24) (subnets (v4net 10 0 0 0 23)) [] = None.
Proof.
  destruct (exclude_loop fuel _ _ _) as [r|] eqn:E; [|done]. exfalso.
  assert (exclude_loop (1 + fuel) (v4net 10 0 0 5 24) (subnets (v4net 10 0 0 0 23)) [] = Some r) as E'
    by (apply (exclude_loop_more fuel); [lia|done]).
  replace (subnets (v4net 10 0 0 0 23)) with [v4net 10 0 0 0 24; v4net 10 0 1 0 24] in E' by (vm_compute; done).
  change (1 + fuel)%nat with (S fuel) in E'. cbn [exclude_loop] in E'.
  replace (ip_eqb (v4net 10 0 0 0 24) (v4net 10 0 0 5 24)) with false in E' by (vm_compute; done).
  replace (ip_eqb (v4net 10 0 1 0 24) (v4net 10 0 0 5 24)) with false in E' by (vm_compute; done).
  replace (subnetOf (v4net 10 0 0 5 24) (v4net 10 0 0 0 24)) with true in E' by (vm_compute; done).
  replace (subnets (v4net 10 0 0 0 24)) with [v4net 10 0 0 0 25; v4net 10 0 0 128 25] in E' by (vm_compute; done).
  rewrite exclude_loop_stuck in E'; [done|vm_compute; done..].
Qed.
