(* ===== verification/RoutePolicy.v ===== *)
(** * Managed routes: which destinations a server policy may bypass

    Model of the content half of client/core/utils/managedRoutePolicy.h: the
    canonical IPv4 routes a managed policy may contain, the bounded token
    lists, the site keys, and the canonical source policy whose digest
    identifies a policy revision. *)

From S2P Require Import Prelude Text Json QtInterface QtModel Ipv4.
#[local] Open Scope Z_scope.

(** ** Bounds *)

Definition maximumSiteCount : Z := 4096.
Definition maximumRoutesPerSite : Z := 64.
Definition maximumTotalRouteCount : Z := 4096.
Definition maximumStoredRouteValueLength : Z := 4096.
Definition maximumSiteKeyLength : Z := 253.
Definition maximumRouteTokenLength : Z := 18.

(** [parts.at(i)]. *)
Definition part_at (i : nat) (parts : list text) : text := nth i parts [].

Section routes.
Context `{QtText} `{QtNet}.

(** ** Canonical IPv4 routes *)

(** The parsed address and prefix length, [None] where the source returns
    [false]. *)
Definition parseCanonicalIpv4Route (value : text) : option (Z * Z) :=
  let route := trimmed value in
  if tsize route >? maximumRouteTokenLength then None else
  let parts := split_char 47 route in
  if (length parts =? 0)%nat || (2 <? length parts)%nat || is_empty (part_at 0 parts) then None else
  let host := host_parse (part_at 0 parts) in
  if negb (host_isV4 host) || negb (text_eqb (host_toString host) (part_at 0 parts)) then None else
  let prefix :=
    if (length parts =? 2)%nat then
      match q_toInt (part_at 1 parts) with
      | None => None
      | Some n =>
          if (n <? 0) || (n >? 32) || negb (text_eqb (number n) (part_at 1 parts)) then None
          else Some n
      end
    else Some 32 in
  match prefix with
  | None => None
  | Some prefix =>
      let ipv4 := host_toIPv4 host in
      if negb (Z.land ipv4 (ipv4Mask prefix) =? ipv4) then None else Some (ipv4, prefix)
  end.

(** The special-purpose blocks no managed route may touch, in the order the
    source tests them. *)
Definition forbiddenRanges : list (Z * Z) :=
  [(0x00000000, 8); (0x7f000000, 8); (0x64400000, 10); (0xa9fe0000, 16);
   (0xc0000000, 24); (0xc0000200, 24); (0xc01f0000, 24); (0xc01fc400, 24);
   (0xc034c100, 24); (0xc0586300, 24); (0xc0af3000, 24); (0xc6120000, 15);
   (0xc6336400, 24); (0xcb007100, 24); (0xe0000000, 4); (0xf0000000, 4)].

Definition minimumPublicPrefixLength : Z := 16.

Definition isAllowedManagedIpv4Route (value : text) : bool :=
  match parseCanonicalIpv4Route value with
  | None => false
  | Some (address, prefixLength) =>
      if prefixLength =? 0 then false else
      let host := HV4 address in
      if host_isNull host || host_isLoopback host || host_isBroadcast host
         || host_isLinkLocal host || host_isMulticast host then false else
      if existsb (λ '(base, prefix), ipv4RouteOverlapsRange address prefixLength base prefix)
           forbiddenRanges then false else
      let withinRfc1918 :=
        ipv4RouteIsWithinRange address prefixLength 0x0a000000 8
        || ipv4RouteIsWithinRange address prefixLength 0xac100000 12
        || ipv4RouteIsWithinRange address prefixLength 0xc0a80000 16 in
      withinRfc1918 || (prefixLength >=? minimumPublicPrefixLength)
  end.

(** The canonical spelling of a route, empty when it is not allowed. *)
Definition canonicalManagedIpv4Route (value : text) : text :=
  if negb (isAllowedManagedIpv4Route value) then [] else
  match parseCanonicalIpv4Route value with
  | None => []
  | Some (address, prefixLength) =>
      let host := host_toString (HV4 address) in
      if prefixLength =? 32 then host else host ++ [47] ++ number prefixLength
  end.

(** ** Route lists *)

(** The expression [[,;\s]+]. *)
Definition routeSeparator (c : Z) : bool := (c =? 44) || (c =? 59) || ascii_space c.

Fixpoint collectRouteTokens (tokens routes : list text) (isValid : bool) : list text * bool :=
  match tokens with
  | [] => (routes, isValid)
  | token :: tokens' =>
      let route := canonicalManagedIpv4Route token in
      if is_empty route then (routes, false)
      else collectRouteTokens tokens' (append_new routes route) isValid
  end.

Definition validatedManagedRouteTokens (value : text) : list text * bool :=
  let '(routes, isValid) :=
    if tsize value <=? maximumStoredRouteValueLength then
      let toks := tokens routeSeparator value in
      collectRouteTokens toks [] (Z.of_nat (length toks) <=? maximumRoutesPerSite)
    else ([], false) in
  (if isValid then routes else [], isValid).

Fixpoint collectRoutes (values routes : list text) : list text * bool :=
  match values with
  | [] => (routes, true)
  | value :: values' =>
      let route := canonicalManagedIpv4Route value in
      if is_empty route then (routes, false)
      else if bool_decide (route ∈ routes) then collectRoutes values' routes
      else
        let routes' := routes ++ [route] in
        if Z.of_nat (length routes') >? maximumTotalRouteCount then (routes', false)
        else collectRoutes values' routes'
  end.

Definition validatedManagedRoutes (values : list text) : list text * bool :=
  let '(routes, isValid) :=
    if Z.of_nat (length values) <=? maximumTotalRouteCount then collectRoutes values []
    else ([], false) in
  (if isValid then routes else [], isValid).

(** ** Site keys *)

Definition lower_alnum (c : Z) : bool := is_digit c || ((97 <=? c) && (c <=? 122)).

(** [[a-z0-9](?:[a-z0-9-]{0,61}[a-z0-9])?], the whole text. *)
Definition label_core (s : text) : bool :=
  (1 <=? tsize s) && (tsize s <=? 63)
  && forallb (λ c, lower_alnum c || (c =? 45)) s
  && lower_alnum (nth 0 s 0) && lower_alnum (List.last s 0).

(** With [^] and [$]: the dollar also matches before a final newline. *)
Definition labelExpression (s : text) : bool :=
  label_core s || ((List.last s 0 =? 10) && label_core (removelast s)).

Definition isAllowedManagedSiteKey (rawSite : text) : bool :=
  let site := q_toLower (trimmed rawSite) in
  if is_empty site || (tsize site >? maximumSiteKeyLength) then false
  else if contains_char 47 site || negb (host_isNull (host_parse site)) then
    isAllowedManagedIpv4Route site
  else
    let hostname := q_toLower (url_toAce site) in
    if is_empty hostname || (tsize hostname >? maximumSiteKeyLength) then false
    else forallb (λ label, negb (tsize label >? 63) && labelExpression label)
           (split_char 46 hostname).

(** ** Source sites *)

Definition keySourceSites : text := lit "managedSplitTunnelExceptSourceSites".
Definition keySites : text := lit "managedSplitTunnelExceptSites".
Definition keyServerExcept : text := lit "serverExcept".
Definition keyForceEnabled : text := lit "managedSplitTunnelForceEnabled".
Definition keySchemaVersion : text := lit "schemaVersion".

Definition containsSourceSites (object : jobject) : bool :=
  jcontains keySourceSites object || jcontains keySites object || jcontains keyServerExcept object.

(** The first member that is an object or an array. *)
Fixpoint firstContainer (keys : list text) (object : jobject) : option json :=
  match keys with
  | [] => None
  | key :: keys' =>
      let value := jvalue key object in
      if is_object value || is_array value then Some value else firstContainer keys' object
  end.

Definition sourceSitesValue (object : jobject) : json :=
  match firstContainer [keySourceSites; keySites; keyServerExcept] object with
  | Some value => value
  | None => JUndefined
  end.

(** The variables the lambda [insertSite] captures by reference. *)
Record siteState := SiteState {
  sites : jobject;
  sitesValid : bool;
  totalRouteBudget : Z;
}.

Definition invalidate (st : siteState) : siteState :=
  SiteState (sites st) false (totalRouteBudget st).

Definition insertSite (st : siteState) (rawSite : text) (rawValue : json) : siteState :=
  if negb (is_string rawValue) then invalidate st else
  let site := q_toLower (trimmed rawSite) in
  if negb (isAllowedManagedSiteKey site) then invalidate st else
  let directRoute := canonicalManagedIpv4Route site in
  let site := if negb (is_empty directRoute) then directRoute else site in
  let '(routes, routesValid) := validatedManagedRouteTokens (to_string [] rawValue) in
  if negb routesValid || (negb (is_empty directRoute) && negb (bool_decide (routes = []))) then
    invalidate st
  else
  let canonicalValue := JString (join (lit ", ") routes) in
  let previous := jvalue site (sites st) in
  if negb (is_undefined previous) then
    if bool_decide (previous = canonicalValue) then st else invalidate st
  else
  let budget := totalRouteBudget st + Z.of_nat (length routes) + 1 in
  if budget >? maximumTotalRouteCount then SiteState (sites st) false budget
  else SiteState (jinsert site canonicalValue (sites st)) (sitesValid st) budget.

Definition insertSiteItem (st : siteState) (item : json) : siteState :=
  match item with
  | JObject object =>
      let site := to_string (to_string [] (jvalue (lit "url") object))
                    (jvalue (lit "hostname") object) in
      insertSite st site (jvalue (lit "ip") object)
  | _ => invalidate st
  end.

Definition canonicalSourceSitesState (value : json) : siteState :=
  let st := SiteState [] (is_object value || is_array value) 0 in
  match value with
  | JObject object =>
      let st := if Z.of_nat (length object) >? maximumSiteCount then invalidate st else st in
      foldl (λ st '(k, v), insertSite st k v) st object
  | JArray array =>
      let st := if Z.of_nat (length array) >? maximumSiteCount then invalidate st else st in
      foldl insertSiteItem st array
  | _ => st
  end.

Definition canonicalSourceSites (value : json) : jobject * bool :=
  let st := canonicalSourceSitesState value in (sites st, sitesValid st).

Definition canonicalSourcePolicyContent (object : jobject) : jobject * bool :=
  let '(sites, sitesValid) := canonicalSourceSites (sourceSitesValue object) in
  let isValid := containsSourceSites object && sitesValid in
  let content := jinsert keySchemaVersion (JDouble (DInt 1)) [] in
  let content := jinsert keySourceSites (JObject sites) content in
  let content := jinsert keyForceEnabled
                   (JBool (to_bool false (jvalue keyForceEnabled object))) content in
  (content, isValid).

(** ** Digests *)

Context `{QtData}.

Definition derivedRevision (canonicalObject : jobject) : text :=
  lit "sha256:" ++ to_hex (sha256 (json_compact canonicalObject)).

Definition canonicalSourcePolicyHash (object : jobject) : text * bool :=
  let '(content, contentValid) := canonicalSourcePolicyContent object in
  (lit "sha256:" ++ to_hex (sha256 (json_compact content)), contentValid).

End routes.

(** ** Reading and printing canonical routes *)

(** The canonical spelling: a host, or a network with its prefix length. *)
Definition route_text (a p : Z) : text :=
  if p =? 32 then dotted a else dotted a ++ [47] ++ number p.

(** A canonical route: a network address of 32 bits with no host bit set. *)
Definition route_wf (a p : Z) : Prop := is_u32 a ∧ prefix_ok p ∧ a mod 2 ^ (32 - p) = 0.

Lemma number_byte_length n : 0 <= n < 256 → (length (number n) ≤ 3)%nat.
Proof.
  intros Hn. apply Nat.leb_le.
  assert (forallb (λ n, Nat.leb (length (number n)) 3) (seqZ 0 256) = true) as Hall
    by (vm_compute; reflexivity).
  rewrite forallb_true_iff in Hall. eapply Forall_forall in Hall; [exact Hall|].
  apply elem_of_seqZ. lia.
Qed.

Lemma dotted_length a : (length (dotted a) ≤ 15)%nat.
Proof.
  unfold dotted. rewrite !length_app. simpl.
  pose proof (number_byte_length _ (octet_bound 0 a)); pose proof (number_byte_length _ (octet_bound 1 a)).
  pose proof (number_byte_length _ (octet_bound 2 a)); pose proof (number_byte_length _ (octet_bound 3 a)).
  lia.
Qed.

Lemma number_prefix_length p : prefix_ok p → (length (number p) ≤ 2)%nat.
Proof.
  intros Hp. apply Nat.leb_le.
  by apply (prefix_cases (λ p, Nat.leb (length (number p)) 2)).
Qed.

Lemma slash_notin_dotted a : 47 ∉ dotted a.
Proof. intros Hc%dotted_chars. lia. Qed.

Lemma slash_notin_number n : 0 <= n → 47 ∉ number n.
Proof. intros Hn Hc%number_chars; [lia|done]. Qed.

Lemma lower_token_slash_number n : 0 <= n → lower_token ([47] ++ number n).
Proof.
  intros Hn. apply lower_token_app. split; [|by apply lower_token_number].
  by repeat constructor.
Qed.

Lemma lower_token_route_text a p : prefix_ok p → lower_token (route_text a p).
Proof.
  intros Hp. unfold route_text. destruct (p =? 32); [apply lower_token_dotted|].
  apply lower_token_app. split; [apply lower_token_dotted|].
  apply lower_token_slash_number. apply Hp.
Qed.

Lemma lower_token_no_separator s :
  lower_token s → 44 ∉ s → 59 ∉ s → Forall (λ c, routeSeparator c = false) s.
Proof.
  intros Hs H1 H2. apply Forall_forall. intros c Hc. eapply Forall_forall in Hs as (Ha & Hsp & _); [|done].
  unfold routeSeparator. rewrite Hsp, !orb_false_r, orb_false_iff, !Z.eqb_neq.
  split; intros ->; done.
Qed.

Lemma route_text_chars a p c : prefix_ok p → c ∈ route_text a p → c = 46 ∨ c = 47 ∨ 48 <= c <= 57.
Proof.
  intros Hp. unfold route_text. destruct (p =? 32).
  - intros Hc%dotted_chars. lia.
  - rewrite !elem_of_app, list_elem_of_singleton. intros [Hc%dotted_chars|[Hc|Hc]]; [lia|lia|].
    apply number_chars in Hc; [lia|]. unfold prefix_ok in Hp. lia.
Qed.

Lemma route_text_ne a p : route_text a p ≠ [].
Proof.
  unfold route_text. destruct (p =? 32); [apply dotted_ne|].
  intros E%app_eq_nil. by destruct E as [E%dotted_ne _].
Qed.

Lemma route_text_inj a p b q :
  is_u32 a → is_u32 b → prefix_ok p → prefix_ok q →
  route_text a p = route_text b q → a = b ∧ p = q.
Proof.
  intros Ha Hb Hp Hq E. apply (f_equal (split_char 47)) in E.
  unfold prefix_ok in *. unfold route_text in E.
  destruct (p =? 32) eqn:Ep, (q =? 32) eqn:Eq; bprop; simpl in E;
    repeat first [rewrite split_char_app in E by apply slash_notin_dotted
                 |rewrite split_char_none in E
                    by (apply slash_notin_dotted || (apply slash_notin_number; lia))];
    simplify_eq; (split; [by apply dotted_inj|]); [lia|]. apply number_inj; [lia..|done].
Qed.

Section route_facts.
Context `{QT : QtText} `{QN : QtNet} `{!QtTextLaws QT} `{!QtNetLaws QN}.

Lemma parse_nil : parseCanonicalIpv4Route [] = None.
Proof. reflexivity. Qed.

(** What a successful parse says about its input. *)
Lemma parse_sound v a p :
  parseCanonicalIpv4Route v = Some (a, p) →
  route_wf a p ∧ (trimmed v = dotted a ∧ p = 32 ∨ trimmed v = dotted a ++ [47] ++ number p).
Proof.
  unfold parseCanonicalIpv4Route, part_at. cbv zeta. set (route := trimmed v). intros E.
  destruct (tsize route >? _); [done|].
  pose proof (split_char_spec 47 route) as [Hj Hs].
  destruct (split_char 47 route) as [|w [|w' [|w2 ws]]] eqn:Hparts; simpl in E; try done.
  - destruct (is_empty w); [done|].
    destruct (host_parse w) as [|x|x sc] eqn:Hh; simpl in E; try done.
    pose proof (host_parse_u32 _ _ Hh) as Hu. rewrite host_toString_v4 in E by done.
    destruct (text_eqb (dotted x) w) eqn:Et; simpl in E; [|done]. apply text_eqb_eq in Et.
    destruct (Z.land x (ipv4Mask 32) =? x) eqn:Em; simpl in E; [|done]. simplify_eq.
    apply land_mask_id in Em; [|unfold prefix_ok; lia|done].
    simpl in Hj. split; [done|]. left. by rewrite Hj.
  - destruct (is_empty w); [done|].
    destruct (host_parse w) as [|x|x sc] eqn:Hh; simpl in E; try done.
    pose proof (host_parse_u32 _ _ Hh) as Hu. rewrite host_toString_v4 in E by done.
    destruct (text_eqb (dotted x) w) eqn:Et; simpl in E; [|done]. apply text_eqb_eq in Et.
    destruct (q_toInt w') as [n|]; [|done].
    destruct ((n <? 0) || (n >? 32) || negb (text_eqb (number n) w')) eqn:G; [done|].
    bprop. match goal with H : text_eqb (number n) w' = true |- _ => apply text_eqb_eq in H as Hn end.
    destruct (Z.land x (ipv4Mask n) =? x) eqn:Em; simpl in E; [|done]. simplify_eq.
    apply land_mask_id in Em; [|unfold prefix_ok; lia|done].
    split; [split_and!; [done|unfold prefix_ok; lia|done]|]. right. by rewrite <-Hj.
Qed.

Lemma parse_route_text a p :
  route_wf a p → parseCanonicalIpv4Route (route_text a p) = Some (a, p).
Proof.
  intros (Ha & Hp & Hm). pose proof Hp as Hp'. unfold prefix_ok in Hp'.
  unfold parseCanonicalIpv4Route, part_at. cbv zeta.
  rewrite (proj1 (lower_token_normal _ (lower_token_route_text a p Hp))).
  assert (tsize (route_text a p) >? maximumRouteTokenLength = false) as ->.
  { unfold tsize, maximumRouteTokenLength, route_text. rewrite Z.gtb_ltb, Z.ltb_ge.
    pose proof (dotted_length a). pose proof (number_prefix_length p Hp).
    destruct (p =? 32); rewrite ?length_app; simpl; lia. }
  assert (is_empty (dotted a) = false) as Hne by (apply is_empty_false, dotted_ne).
  unfold route_text. destruct (p =? 32) eqn:E; bprop.
  - subst. rewrite split_char_none by apply slash_notin_dotted. simpl. rewrite Hne.
    rewrite host_parse_dotted by done. simpl. rewrite host_toString_v4, text_eqb_refl by done. simpl.
    by rewrite (proj2 (land_mask_id a 32 Hp Ha) Hm).
  - simpl. rewrite split_char_app by apply slash_notin_dotted.
    rewrite split_char_none by (apply slash_notin_number; lia). simpl. rewrite Hne.
    rewrite host_parse_dotted by done. simpl. rewrite host_toString_v4, text_eqb_refl by done. simpl.
    rewrite q_toInt_number, text_eqb_refl by lia.
    rewrite (proj2 (Z.ltb_ge p 0)), Z.gtb_ltb, (proj2 (Z.ltb_ge 32 p)) by lia. simpl.
    by rewrite (proj2 (land_mask_id a p Hp Ha) Hm).
Qed.

(** The values that spell a network: the address in dotted form, followed by
    the prefix length unless it is 32, with blanks around them. *)
Definition spells (v : text) (a p : Z) : Prop :=
  is_u32 a ∧ 0 <= p <= 32 ∧ a mod 2 ^ (32 - p) = 0
  ∧ (trimmed v = dotted a ∧ p = 32 ∨ trimmed v = dotted a ++ [47] ++ number p).

Lemma parse_spells v a p : parseCanonicalIpv4Route v = Some (a, p) ↔ spells v a p.
Proof.
  split; [intros ([Ha [Hp Hm]] & Ht)%parse_sound; unfold prefix_ok in Hp; split_and!; lia || done|].
  intros (Ha & Hp & Hm & Ht). assert (prefix_ok p) as Hok by done.
  assert (is_empty (dotted a) = false) as Hne by (apply is_empty_false, dotted_ne).
  unfold parseCanonicalIpv4Route, part_at. cbv zeta.
  assert (tsize (trimmed v) >? maximumRouteTokenLength = false) as ->.
  { unfold tsize, maximumRouteTokenLength. rewrite Z.gtb_ltb, Z.ltb_ge.
    pose proof (dotted_length a). pose proof (number_prefix_length p Hok).
    destruct Ht as [[-> _]| ->]; rewrite ?length_app; simpl; lia. }
  destruct Ht as [[-> ->]| ->].
  - rewrite split_char_none by apply slash_notin_dotted. simpl. rewrite Hne.
    rewrite host_parse_dotted by done. simpl. rewrite host_toString_v4, text_eqb_refl by done. simpl.
    by rewrite (proj2 (land_mask_id a 32 Hok Ha) Hm).
  - simpl. rewrite split_char_app by apply slash_notin_dotted.
    rewrite split_char_none by (apply slash_notin_number; lia). simpl. rewrite Hne.
    rewrite host_parse_dotted by done. simpl. rewrite host_toString_v4, text_eqb_refl by done. simpl.
    rewrite q_toInt_number, text_eqb_refl by lia.
    rewrite (proj2 (Z.ltb_ge p 0)), Z.gtb_ltb, (proj2 (Z.ltb_ge 32 p)) by lia. simpl.
    by rewrite (proj2 (land_mask_id a p Hok Ha) Hm).
Qed.

(** The allowed routes, as a predicate on networks. *)
Definition forbidden_address (x : Z) : Prop := ∃ b q, (b, q) ∈ forbiddenRanges ∧ in_net b q x.

Definition private_network (a p : Z) : Prop :=
  (∀ x, in_net a p x → in_net 0x0a000000 8 x)
  ∨ (∀ x, in_net a p x → in_net 0xac100000 12 x)
  ∨ (∀ x, in_net a p x → in_net 0xc0a80000 16 x).

Lemma forbiddenRanges_wf : Forall (λ '(b, q), is_u32 b ∧ prefix_ok q) forbiddenRanges.
Proof. repeat constructor; unfold is_u32, prefix_ok; simpl; lia. Qed.

Lemma overlaps_forbidden a p :
  route_wf a p →
  existsb (λ '(base, prefix), ipv4RouteOverlapsRange a p base prefix) forbiddenRanges = true
  ↔ ∃ x, in_net a p x ∧ forbidden_address x.
Proof.
  intros (Ha & Hp & _). rewrite existsb_true_iff. pose proof forbiddenRanges_wf as Hwf.
  rewrite Forall_forall in Hwf. unfold forbidden_address. split.
  - intros ([b q] & Hin & Ho). pose proof (Hwf _ Hin) as [Hb Hq].
    apply overlaps_spec in Ho as (x & Hx & Hx'); naive_solver.
  - intros (x & Hx & b & q & Hin & Hbq). exists (b, q). pose proof (Hwf _ Hin) as [Hb Hq].
    split; [done|]. apply overlaps_spec; naive_solver.
Qed.

(** The library's classifiers only recognise addresses of the forbidden blocks. *)
Lemma classified_special a :
  is_u32 a →
  host_isLoopback (HV4 a) || host_isBroadcast (HV4 a) || host_isLinkLocal (HV4 a)
    || host_isMulticast (HV4 a) = true →
  forbidden_address a.
Proof.
  intros Ha Hc. destruct (host_special_v4 a Ha) as [E|[E|[E|E]]].
  { bprop. repeat match goal with H : _ ∨ _ |- _ => destruct H; bprop end; auto. }
  all: unfold forbidden_address.
  - exists 0x7f000000, 8. split; [set_solver|]. split; [done|]. simpl in *. exact E.
  - exists 0xf0000000, 4. split; [set_solver|]. split; [done|]. rewrite E. reflexivity.
  - exists 0xa9fe0000, 16. split; [set_solver|]. split; [done|]. exact E.
  - exists 0xe0000000, 4. split; [set_solver|]. split; [done|]. exact E.
Qed.

Lemma allowed_cases v :
  isAllowedManagedIpv4Route v = true →
  ∃ a p, parseCanonicalIpv4Route v = Some (a, p) ∧ route_wf a p.
Proof.
  unfold isAllowedManagedIpv4Route. intros E.
  destruct (parseCanonicalIpv4Route v) as [[a p]|] eqn:Hp; [|done].
  exists a, p. split; [done|]. by eapply parse_sound.
Qed.

Lemma private_network_spec a p :
  route_wf a p →
  ipv4RouteIsWithinRange a p 0x0a000000 8 || ipv4RouteIsWithinRange a p 0xac100000 12
  || ipv4RouteIsWithinRange a p 0xc0a80000 16 = true ↔ private_network a p.
Proof.
  intros (Ha & Hp & _). unfold private_network.
  rewrite !orb_true_iff, !within_spec by (done || unfold is_u32, prefix_ok; lia). tauto.
Qed.

Lemma allowed_parsed v a p :
  parseCanonicalIpv4Route v = Some (a, p) →
  isAllowedManagedIpv4Route v = true ↔
  p ≠ 0 ∧ (∀ x, in_net a p x → ¬ forbidden_address x)
  ∧ (private_network a p ∨ minimumPublicPrefixLength <= p).
Proof.
  intros E. pose proof (parse_sound _ _ _ E) as [Hwf _]. pose proof Hwf as (Ha & Hp & _).
  unfold isAllowedManagedIpv4Route. rewrite E. destruct (p =? 0) eqn:E0; bprop; [naive_solver|].
  cbv zeta. simpl host_isNull. rewrite orb_false_l.
  destruct (_ || host_isMulticast (HV4 a)) eqn:Hc.
  { split; [done|]. intros (_ & Hs & _). exfalso. apply (Hs a); [by apply in_net_self|].
    by apply classified_special. }
  destruct (existsb _ forbiddenRanges) eqn:Hf.
  { apply overlaps_forbidden in Hf as (x & Hx & Hsx); [|done]. naive_solver. }
  rewrite orb_true_iff, private_network_spec, Z.geb_leb, Z.leb_le by done.
  split; [|tauto]. intros Hor. split_and!; [done| |done].
  intros x Hx Hsx. assert (existsb (λ '(base, prefix), ipv4RouteOverlapsRange a p base prefix)
    forbiddenRanges = true) as Ht by (apply overlaps_forbidden; eauto). congruence.
Qed.

Lemma canonical_cases v :
  (canonicalManagedIpv4Route v = [] ∧ isAllowedManagedIpv4Route v = false)
  ∨ ∃ a p, canonicalManagedIpv4Route v = route_text a p ∧ route_wf a p
           ∧ parseCanonicalIpv4Route v = Some (a, p) ∧ isAllowedManagedIpv4Route v = true.
Proof.
  unfold canonicalManagedIpv4Route. destruct (isAllowedManagedIpv4Route v) eqn:E; simpl; [|by left].
  right. destruct (allowed_cases v E) as (a & p & Hp & Hwf). exists a, p. rewrite Hp.
  split_and!; [|done..]. unfold route_text. by rewrite host_toString_v4 by apply Hwf.
Qed.

Lemma canonical_route_text v a p :
  parseCanonicalIpv4Route v = Some (a, p) → isAllowedManagedIpv4Route v = true →
  canonicalManagedIpv4Route v = route_text a p.
Proof.
  intros Hp Ha. destruct (canonical_cases v) as [[_ F]|(a' & p' & E & _ & Hp' & _)]; congruence.
Qed.

Lemma allowed_same_parse v w :
  parseCanonicalIpv4Route v = parseCanonicalIpv4Route w →
  isAllowedManagedIpv4Route v = isAllowedManagedIpv4Route w.
Proof. intros E. unfold isAllowedManagedIpv4Route. by rewrite E. Qed.

Lemma canonical_allowed v :
  canonicalManagedIpv4Route v ≠ [] ↔ isAllowedManagedIpv4Route v = true.
Proof.
  destruct (canonical_cases v) as [[E F]|(a & p & E & _ & _ & F)]; rewrite E, F; [done|].
  split; [done|]. intros _. apply route_text_ne.
Qed.

Lemma canonical_fixed v :
  canonicalManagedIpv4Route (canonicalManagedIpv4Route v) = canonicalManagedIpv4Route v.
Proof.
  destruct (canonical_cases v) as [[-> _]|(a & p & E & Hwf & Hp & Ha)]; [reflexivity|].
  rewrite E. apply canonical_route_text; [by apply parse_route_text|].
  rewrite <-Ha. apply allowed_same_parse. rewrite Hp. by apply parse_route_text.
Qed.

Lemma canonical_separators v :
  Forall (λ c, routeSeparator c = false) (canonicalManagedIpv4Route v).
Proof.
  destruct (canonical_cases v) as [[-> _]|(a & p & -> & (_ & Hp & _) & _)]; [constructor|].
  apply lower_token_no_separator; [by apply lower_token_route_text|..];
    intros Hc%route_text_chars; lia || done.
Qed.

(** A route in its canonical, allowed form. *)
Definition canonical_route (r : text) : Prop :=
  canonicalManagedIpv4Route r = r ∧ isAllowedManagedIpv4Route r = true.

Lemma canonical_is_canonical v :
  canonicalManagedIpv4Route v ≠ [] → canonical_route (canonicalManagedIpv4Route v).
Proof.
  intros Hne. split; [apply canonical_fixed|]. apply canonical_allowed. by rewrite canonical_fixed.
Qed.

(** ** Route lists *)

Lemma collectRouteTokens_spec toks routes v :
  NoDup routes → Forall (λ r, ∃ w, r = canonicalManagedIpv4Route w ∧ r ≠ []) routes →
  let '(rs, b) := collectRouteTokens toks routes v in
  NoDup rs ∧ Forall (λ r, ∃ w, r = canonicalManagedIpv4Route w ∧ r ≠ []) rs
  ∧ (length rs ≤ length routes + length toks)%nat
  ∧ (b = true → v = true ∧ Forall (λ t, isAllowedManagedIpv4Route t = true) toks
       ∧ ∀ r, r ∈ rs ↔ r ∈ routes ∨ ∃ t, t ∈ toks ∧ r = canonicalManagedIpv4Route t).
Proof.
  revert routes. induction toks as [|t toks IH]; intros routes Hnd Hall; simpl.
  { split_and!; [done..|lia|]. intros ->. split_and!; [done..|]. set_solver. }
  destruct (is_empty (canonicalManagedIpv4Route t)) eqn:E.
  { split_and!; [done..|lia|done]. }
  apply is_empty_false in E.
  specialize (IH (append_new routes (canonicalManagedIpv4Route t))).
  destruct (collectRouteTokens toks _ v) as [rs b].
  destruct IH as (I1 & I2 & I3 & I4); [by apply append_new_NoDup| |].
  { apply Forall_forall. intros r [Hr| ->]%elem_of_append_new; [|by eauto].
    by eapply Forall_forall in Hall. }
  pose proof (append_new_length routes (canonicalManagedIpv4Route t)).
  split_and!; [done..|lia|]. intros Hb. destruct (I4 Hb) as (J1 & J2 & J3).
  split_and!; [done|constructor; [by apply canonical_allowed|done]|].
  intros r. rewrite J3, elem_of_append_new. set_solver.
Qed.

Lemma routeTokens_valid v routes :
  validatedManagedRouteTokens v = (routes, true) →
  NoDup routes ∧ Z.of_nat (length routes) <= maximumRoutesPerSite
  ∧ (∀ r, r ∈ routes ↔ ∃ t, t ∈ tokens routeSeparator v ∧ r = canonicalManagedIpv4Route t)
  ∧ Forall canonical_route routes.
Proof.
  unfold validatedManagedRouteTokens.
  destruct (tsize v <=? _); [|done]. cbv zeta.
  set (b0 := Z.of_nat (length (tokens routeSeparator v)) <=? maximumRoutesPerSite).
  pose proof (collectRouteTokens_spec (tokens routeSeparator v) [] b0) as Hc.
  destruct (collectRouteTokens _ [] b0) as [rs b].
  destruct Hc as (H1 & H2 & H3 & H4); [constructor..|]. intros E. simplify_eq.
  destruct H4 as (Hb0 & _ & H5); [done|]. unfold b0 in Hb0. bprop. simpl in H3.
  split_and!; [done|lia| |].
  - intros r. rewrite H5. set_solver.
  - eapply Forall_impl; [exact H2|]. intros r (w & -> & Hne). by apply canonical_is_canonical.
Qed.

Lemma routeTokens_invalid v routes b :
  validatedManagedRouteTokens v = (routes, b) → b = false → routes = [].
Proof.
  unfold validatedManagedRouteTokens. intros E ->.
  repeat case_match; by simplify_eq.
Qed.

Lemma canonical_route_shape r :
  canonical_route r →
  (length r ≤ 18)%nat ∧ r ≠ [] ∧ Forall (λ c, routeSeparator c = false) r.
Proof.
  intros [Hr Ha]. rewrite <-Hr.
  split_and!; [|by apply canonical_allowed|apply canonical_separators].
  destruct (canonical_cases r) as [[_ F]|(a & p & -> & (_ & Hp & _) & _)]; [congruence|].
  unfold route_text. pose proof (dotted_length a). pose proof (number_prefix_length p Hp).
  destruct (p =? 32); rewrite ?length_app; simpl; lia.
Qed.

Lemma join_routes_length l :
  Forall canonical_route l → (length (join (lit ", ") l) ≤ 20 * length l)%nat.
Proof.
  induction 1 as [|r l Hr Hl IH]; [done|].
  apply canonical_route_shape in Hr as (Hr & _).
  destruct l as [|r' l]; [simpl; lia|].
  change (join (lit ", ") (r :: r' :: l)) with (r ++ lit ", " ++ join (lit ", ") (r' :: l)).
  rewrite !length_app. change (length (lit ", ")) with 2%nat.
  change (length (r :: r' :: l)) with (S (length (r' :: l))). lia.
Qed.

Lemma collectRouteTokens_fixed l k :
  NoDup (k ++ l) → Forall canonical_route l → collectRouteTokens l k true = (k ++ l, true).
Proof.
  revert k. induction l as [|r l IH]; intros k Hnd Hall; simpl.
  { by rewrite app_nil_r. }
  inversion Hall as [|?? [Hr Ha] Hl]; subst.
  rewrite (proj2 (is_empty_false _)) by (by apply canonical_allowed).
  rewrite Hr, append_new_fresh.
  - rewrite IH; rewrite <-?app_assoc; done.
  - apply NoDup_app in Hnd as (_ & Hd & _). intros Hx. eapply Hd; [done|constructor].
Qed.

(** Joining a validated list with ", " and reading it back is the identity. *)
Lemma routeTokens_join routes :
  NoDup routes → Z.of_nat (length routes) <= maximumRoutesPerSite →
  Forall canonical_route routes →
  validatedManagedRouteTokens (join (lit ", ") routes) = (routes, true).
Proof.
  intros Hnd Hlen Hall. unfold validatedManagedRouteTokens, maximumRoutesPerSite in *.
  rewrite (proj2 (Z.leb_le (tsize _) _)).
  2: { unfold tsize, maximumStoredRouteValueLength. pose proof (join_routes_length routes Hall). lia. }
  rewrite tokens_join; [|done|by repeat constructor|].
  2: { eapply Forall_impl; [exact Hall|]. intros r Hr%canonical_route_shape. naive_solver. }
  rewrite (proj2 (Z.leb_le _ _)) by done. by rewrite (collectRouteTokens_fixed routes []).
Qed.

Lemma collectRoutes_spec values routes rs b :
  NoDup routes → Z.of_nat (length routes) <= maximumTotalRouteCount →
  Forall canonical_route routes →
  collectRoutes values routes = (rs, b) → b = true →
  NoDup rs ∧ Z.of_nat (length rs) <= maximumTotalRouteCount
  ∧ Forall canonical_route rs
  ∧ ∀ r, r ∈ rs ↔ r ∈ routes ∨ ∃ v, v ∈ values ∧ r = canonicalManagedIpv4Route v.
Proof.
  revert routes. induction values as [|v values IH]; intros routes Hnd Hlen Hall E Hb; simpl in E.
  { simplify_eq. split_and!; [done..|]. set_solver. }
  destruct (is_empty (canonicalManagedIpv4Route v)) eqn:Ee; [by simplify_eq|].
  apply is_empty_false in Ee. case_bool_decide as Hin.
  { destruct (IH routes) as (J1 & J2 & J3 & J4); [done..|]. split_and!; [done..|].
    intros r. rewrite J4. set_solver. }
  destruct (Z.of_nat (length (routes ++ _)) >? _) eqn:Eg; [by simplify_eq|]. bprop.
  destruct (IH (routes ++ [canonicalManagedIpv4Route v])) as (J1 & J2 & J3 & J4); [|lia| |done|done|].
  - rewrite <-append_new_fresh by done. by apply append_new_NoDup.
  - apply Forall_app. split; [done|]. apply Forall_singleton.
    by apply canonical_is_canonical.
  - split_and!; [done..|]. intros r. rewrite J4. set_solver.
Qed.

Lemma managedRoutes_valid values routes :
  validatedManagedRoutes values = (routes, true) →
  NoDup routes ∧ Z.of_nat (length routes) <= maximumTotalRouteCount
  ∧ Forall canonical_route routes
  ∧ ∀ r, r ∈ routes ↔ ∃ v, v ∈ values ∧ r = canonicalManagedIpv4Route v.
Proof.
  unfold validatedManagedRoutes. destruct (_ <=? _); [|done].
  destruct (collectRoutes values []) as [rs b] eqn:E. intros [= Hrs ->]. simpl in Hrs. subst rs.
  destruct (collectRoutes_spec values [] routes true) as (J1 & J2 & J3 & J4);
    [constructor|done|constructor|done|done|].
  split_and!; [done..|]. intros r. rewrite J4. set_solver.
Qed.

Lemma collectRoutes_fixed l k :
  NoDup (k ++ l) → Forall canonical_route l → Z.of_nat (length (k ++ l)) <= maximumTotalRouteCount →
  collectRoutes l k = (k ++ l, true).
Proof.
  revert k. induction l as [|r l IH]; intros k Hnd Hall Hlen; cbn [collectRoutes].
  { by rewrite app_nil_r. }
  inversion Hall as [|?? [Hr Ha] Hl]; subst. cbv zeta.
  rewrite (proj2 (is_empty_false _)) by (by apply canonical_allowed). rewrite Hr.
  rewrite bool_decide_false.
  2: { apply NoDup_app in Hnd as (_ & Hd & _). intros Hx. eapply Hd; [done|constructor]. }
  rewrite length_app in Hlen. simpl in Hlen. rewrite length_app, Z.gtb_ltb, (proj2 (Z.ltb_ge _ _)) by (simpl; lia).
  rewrite IH; rewrite <-?app_assoc; [done|done|done|]. rewrite !length_app. simpl. lia.
Qed.

(** A canonical list within budget is validated unchanged. *)
Lemma managedRoutes_fixed l :
  NoDup l → Forall canonical_route l → Z.of_nat (length l) <= maximumTotalRouteCount →
  validatedManagedRoutes l = (l, true).
Proof.
  intros Hnd Hall Hlen. unfold validatedManagedRoutes. rewrite (proj2 (Z.leb_le _ _)) by done.
  by rewrite (collectRoutes_fixed l []).
Qed.

(** ** Source sites *)

(** A member of a canonical site set: a normalised, allowed key with the
    joined list of its fallback routes; a literal route has no fallback. *)
Definition site_entry (k : text) (v : json) : Prop :=
  ∃ routes, v = JString (join (lit ", ") routes)
    ∧ NoDup routes ∧ Z.of_nat (length routes) <= maximumRoutesPerSite
    ∧ Forall canonical_route routes
    ∧ trimmed k = k ∧ q_toLower k = k ∧ isAllowedManagedSiteKey k = true
    ∧ (canonicalManagedIpv4Route k = [] ∨ canonicalManagedIpv4Route k = k ∧ routes = []).

(** The routes a site reserves: one for itself and its fallbacks. *)
Definition site_cost (v : json) : Z :=
  1 + Z.of_nat (length (validatedManagedRouteTokens (to_string [] v)).1).

Definition sites_cost (o : jobject) : Z := foldr (λ p n, site_cost p.2 + n) 0 o.

Lemma sites_cost_app a b : sites_cost (a ++ b) = sites_cost a + sites_cost b.
Proof. unfold sites_cost. induction a as [|p a IH]; simpl; lia. Qed.

Lemma sites_cost_length o : Z.of_nat (length o) <= sites_cost o.
Proof. unfold sites_cost, site_cost. induction o as [|p o IH]; simpl; lia. Qed.

Lemma sites_cost_jput k v o :
  jvalue k o = JUndefined → jwf o → sites_cost (jput k v o) = sites_cost o + site_cost v.
Proof.
  intros Hn [_ Hd]. induction o as [|[k' v'] o IH]; simpl in *; [lia|].
  inversion Hd as [|?? Hv Hd']; subst.
  destruct (text_eqb k k') eqn:E; [by rewrite Hn in Hv|].
  destruct (text_ltb k k'); simpl; [lia|]. rewrite IH by done. lia.
Qed.

Lemma allowed_key_canonical v :
  canonicalManagedIpv4Route v ≠ [] →
  let r := canonicalManagedIpv4Route v in
  trimmed r = r ∧ q_toLower r = r ∧ isAllowedManagedSiteKey r = true.
Proof.
  intros Hne r. destruct (canonical_is_canonical v Hne) as [Hr Ha]. fold r in Hr, Ha.
  destruct (canonical_route_shape r (conj Hr Ha)) as (Hlen & Hne' & _).
  destruct (canonical_cases v) as [[E _]|(a & p & E & (Hu & Hp & _) & _)]; [done|].
  fold r in E. destruct (lower_token_normal r) as [H1 H2].
  { rewrite E. by apply lower_token_route_text. }
  split_and!; [done..|]. unfold isAllowedManagedSiteKey. cbv zeta. rewrite H1, H2.
  rewrite (proj2 (is_empty_false r)) by done.
  unfold tsize, maximumSiteKeyLength. rewrite Z.gtb_ltb, (proj2 (Z.ltb_ge _ _)) by lia. simpl.
  assert (contains_char 47 r || negb (host_isNull (host_parse r)) = true) as ->; [|done].
  rewrite E. unfold route_text. destruct (p =? 32).
  - rewrite host_parse_dotted by done. by rewrite orb_true_r.
  - rewrite orb_true_iff, contains_char_true. left. set_solver.
Qed.

(** What [insertSite] maintains. *)
Definition sites_inv (st : siteState) : Prop :=
  jwf (sites st) ∧ Forall (λ p, site_entry p.1 p.2) (sites st)
  ∧ sites_cost (sites st) <= totalRouteBudget st
  ∧ sites_cost (sites st) <= maximumTotalRouteCount.

Lemma invalidate_inv st : sites_inv st → sites_inv (invalidate st).
Proof. done. Qed.

Lemma jput_Forall (P : text * json → Prop) k v o :
  P (k, v) → Forall P o → Forall P (jput k v o).
Proof.
  intros Hk. induction 1 as [|[k' v'] o Hp Ho IH]; simpl; [by repeat constructor|].
  destruct (text_ltb k k'); [by repeat constructor|]. destruct (text_eqb k k'); by constructor.
Qed.

Lemma insertSite_inv st raw v : sites_inv st → sites_inv (insertSite st raw v).
Proof.
  intros Hinv. unfold insertSite. cbv zeta.
  destruct (negb (is_string v)); [by apply invalidate_inv|].
  set (s0 := q_toLower (trimmed raw)). destruct (isAllowedManagedSiteKey s0) eqn:Hal; simpl;
    [|by apply invalidate_inv].
  set (site := if negb (is_empty (canonicalManagedIpv4Route s0)) then _ else s0).
  destruct (validatedManagedRouteTokens (to_string [] v)) as [routes rv] eqn:Hr.
  destruct (negb rv || _) eqn:Hg; [by apply invalidate_inv|]. bprop. subst rv.
  match goal with H : _ ∨ _ |- _ => rename H into Hor end.
  apply routeTokens_valid in Hr as (Hnd & Hlen & _ & Hcan).
  assert (site_entry site (JString (join (lit ", ") routes))) as Hentry.
  { exists routes. subst site. destruct (is_empty (canonicalManagedIpv4Route s0)) eqn:He; simpl.
    - apply is_empty_true in He. destruct (normal_text raw).
      split_and!; try done. by left.
    - apply is_empty_false in He. destruct (allowed_key_canonical s0 He) as (K1 & K2 & K3).
      split_and!; try done. right. split; [apply canonical_fixed|].
      destruct Hor as [Hor|Hor]; [done|]. apply negb_false_iff in Hor.
      by apply bool_decide_eq_true in Hor. }
  clear Hor. pose proof Hinv as (H1 & H2 & H3 & H4).
  destruct (is_undefined (jvalue site (sites st))) eqn:Hu; simpl;
    [|case_bool_decide; [exact Hinv|by apply invalidate_inv]].
  assert (jvalue site (sites st) = JUndefined) as Hun by (by destruct (jvalue _ _)).
  destruct (_ >? maximumTotalRouteCount) eqn:Hb; bprop.
  { split_and!; simpl; [done..|lia|done]. }
  unfold jinsert. simpl. split_and!; simpl.
  - by apply jput_wf.
  - by apply jput_Forall.
  - rewrite sites_cost_jput by done. unfold site_cost. simpl.
    rewrite routeTokens_join by done. simpl. lia.
  - rewrite sites_cost_jput by done. unfold site_cost. simpl.
    rewrite routeTokens_join by done. simpl. lia.
Qed.

Lemma insertSiteItem_inv st item : sites_inv st → sites_inv (insertSiteItem st item).
Proof. intros Hi. destruct item; simpl; try done. by apply insertSite_inv. Qed.

Lemma sites_inv_init b : sites_inv (SiteState [] b 0).
Proof. split_and!; simpl; [apply jwf_nil|constructor|unfold sites_cost; simpl; lia|done]. Qed.

Lemma foldl_inv {A B} (f : A → B → A) (P : A → Prop) l a :
  (∀ a b, P a → P (f a b)) → P a → P (foldl f a l).
Proof. intros Hf. revert a. induction l; simpl; eauto. Qed.

Lemma canonicalSourceSites_inv value : sites_inv (canonicalSourceSitesState value).
Proof.
  unfold canonicalSourceSitesState. cbv zeta.
  destruct value; try apply sites_inv_init; apply foldl_inv.
  - intros; by apply insertSiteItem_inv.
  - destruct (_ >? _); [apply invalidate_inv|]; apply sites_inv_init.
  - intros st [k v] Hs. by apply insertSite_inv.
  - destruct (_ >? _); [apply invalidate_inv|]; apply sites_inv_init.
Qed.

(** ** A canonical site set is its own canonical form *)

Lemma jput_last k v l : Forall (λ k', text_ltb k' k = true) (jkeys l) → jput k v l = l ++ [(k, v)].
Proof.
  induction l as [|[k' v'] l IH]; simpl; [done|]. intros Hl. inversion Hl as [|?? Hk Hl']; subst.
  destruct (text_ltb k k') eqn:E.
  { pose proof (text_ltb_trans k k' k E Hk) as F. by rewrite text_ltb_irrefl in F. }
  rewrite (proj2 (text_eqb_neq k k')) by (intros ->; by rewrite text_ltb_irrefl in Hk).
  by rewrite IH.
Qed.

Lemma insertSite_fixed l k v :
  site_entry k v → Forall (λ k', text_ltb k' k = true) (jkeys l) →
  sites_cost (l ++ [(k, v)]) <= maximumTotalRouteCount →
  insertSite (SiteState l true (sites_cost l)) k v
  = SiteState (l ++ [(k, v)]) true (sites_cost (l ++ [(k, v)])).
Proof.
  intros (routes & -> & Hnd & Hlen & Hcan & Ht & Hl & Ha & Hdir) Hlt Hcost.
  assert (sites_cost (l ++ [(k, JString (join (lit ", ") routes))])
          = sites_cost l + Z.of_nat (length routes) + 1) as Hc.
  { rewrite sites_cost_app. unfold sites_cost, site_cost. simpl. rewrite routeTokens_join by done.
    simpl. lia. }
  unfold insertSite. cbv zeta. simpl is_string. cbn [negb]. rewrite Ht, Hl, Ha. cbn [negb].
  simpl to_string. rewrite routeTokens_join by done. cbn [negb orb].
  assert (∀ b : bool, (if b then canonicalManagedIpv4Route k else k) = k ∨ canonicalManagedIpv4Route k = []) as Hk.
  { intros []; destruct Hdir as [Hdir|[Hdir _]]; auto. }
  assert ((if negb (is_empty (canonicalManagedIpv4Route k)) then canonicalManagedIpv4Route k else k) = k) as ->.
  { destruct Hdir as [Hdir|[Hdir _]]; rewrite Hdir; [done|]. by destruct k. }
  assert (negb (is_empty (canonicalManagedIpv4Route k)) && negb (bool_decide (routes = [])) = false) as ->.
  { destruct Hdir as [Hdir|[_ ->]]; [by rewrite Hdir|]. by rewrite andb_false_r. }
  simpl sites. rewrite jvalue_undefined.
  2: { intros Hin. eapply Forall_forall in Hlt; [|done]. by rewrite text_ltb_irrefl in Hlt. }
  cbn [is_undefined negb]. simpl totalRouteBudget. rewrite <-Hc.
  rewrite Z.gtb_ltb, (proj2 (Z.ltb_ge _ _)) by done. unfold jinsert. cbn [is_undefined].
  by rewrite jput_last.
Qed.

Lemma insertSites_fixed l1 l2 :
  Forall (λ p, site_entry p.1 p.2) l2 → StronglySorted text_lt (jkeys (l1 ++ l2)) →
  sites_cost (l1 ++ l2) <= maximumTotalRouteCount →
  foldl (λ st '(k, v), insertSite st k v) (SiteState l1 true (sites_cost l1)) l2
  = SiteState (l1 ++ l2) true (sites_cost (l1 ++ l2)).
Proof.
  intros Hall. revert l1. induction Hall as [|[k v] l2 He Hall IH]; intros l1 Hs Hc.
  { by rewrite app_nil_r. }
  cbn [foldl]. rewrite insertSite_fixed; [|done| |].
  - rewrite IH; rewrite <-app_assoc; done.
  - apply Forall_forall. intros x Hx. unfold jkeys in Hs, Hx. rewrite map_app in Hs. simpl in Hs.
    apply (StronglySorted_app_1_elem_of text_lt (map fst l1) (k :: map fst l2)); [done..|].
    by constructor.
  - replace (l1 ++ (k, v) :: l2) with ((l1 ++ [(k, v)]) ++ l2) in Hc by (by rewrite <-app_assoc).
    rewrite sites_cost_app in Hc. pose proof (sites_cost_length l2). lia.
Qed.

Lemma canonicalSourceSites_fixed value o b :
  canonicalSourceSites value = (o, b) → canonicalSourceSites (JObject o) = (o, true).
Proof.
  intros E. pose proof (canonicalSourceSites_inv value) as (Hwf & Hall & _ & Hc).
  unfold canonicalSourceSites in E. simplify_eq.
  set (o := sites (canonicalSourceSitesState value)) in *.
  unfold canonicalSourceSites, canonicalSourceSitesState. cbv zeta. cbn [is_object orb].
  pose proof (sites_cost_length o) as Hlen. unfold maximumTotalRouteCount, maximumSiteCount in *.
  rewrite Z.gtb_ltb, (proj2 (Z.ltb_ge _ _)) by lia.
  change 0 with (sites_cost []). rewrite (insertSites_fixed [] o); [done..| |done].
  by destruct Hwf.
Qed.

Lemma content_values object :
  let '(content, _) := canonicalSourcePolicyContent object in
  let '(sites, _) := canonicalSourceSites (sourceSitesValue object) in
  jwf content ∧ jvalue keySourceSites content = JObject sites
  ∧ jvalue keyForceEnabled content = JBool (to_bool false (jvalue keyForceEnabled object))
  ∧ jvalue keySchemaVersion content = JDouble (DInt 1).
Proof.
  unfold canonicalSourcePolicyContent. destruct (canonicalSourceSites _) as [sites sv].
  unfold jinsert. simpl is_undefined. cbv iota.
  split_and!; [auto 6 with amn|..]; rewrite ?jvalue_jput; reflexivity.
Qed.

Lemma content_fixed object content :
  canonicalSourcePolicyContent object = (content, true) →
  canonicalSourcePolicyContent content = (content, true).
Proof.
  intros E. pose proof (content_values object) as Hv. rewrite E in Hv.
  destruct (canonicalSourceSites (sourceSitesValue object)) as [ss sv] eqn:Es.
  destruct Hv as (Hwf & V1 & V2 & V3).
  assert (sourceSitesValue content = JObject ss) as Hs.
  { unfold sourceSitesValue. cbn [firstContainer]. by rewrite V1. }
  assert (containsSourceSites content = true) as Hc.
  { unfold containsSourceSites. rewrite (jcontains_value keySourceSites) by done. by rewrite V1. }
  unfold canonicalSourcePolicyContent in *. rewrite Hs, Hc, V2, Es in *.
  rewrite (canonicalSourceSites_fixed _ _ _ Es). by simplify_eq.
Qed.

End route_facts.

(** ** Special-purpose addresses *)

(** [o1.o2.o3.o4/p]. *)
Definition ipv4_block (o1 o2 o3 o4 p x : Z) : Prop :=
  x / 2 ^ (32 - p) = (((o1 * 256 + o2) * 256 + o3) * 256 + o4) / 2 ^ (32 - p).

(** The addresses that no managed route may cover, block by block: this
    network, loopback, shared address space, link-local, protocol assignments,
    documentation, AS112 and the block beside it, AMT, 6to4 relays, direct
    delegation AS112, benchmarking, multicast and reserved. *)
Definition special_address (x : Z) : Prop :=
  is_u32 x ∧
  (ipv4_block 0 0 0 0 8 x ∨ ipv4_block 127 0 0 0 8 x ∨ ipv4_block 100 64 0 0 10 x ∨ ipv4_block 169 254 0 0 16 x
   ∨ ipv4_block 192 0 0 0 24 x ∨ ipv4_block 192 0 2 0 24 x ∨ ipv4_block 192 31 0 0 24 x ∨ ipv4_block 192 31 196 0 24 x
   ∨ ipv4_block 192 52 193 0 24 x ∨ ipv4_block 192 88 99 0 24 x ∨ ipv4_block 192 175 48 0 24 x ∨ ipv4_block 198 18 0 0 15 x
   ∨ ipv4_block 198 51 100 0 24 x ∨ ipv4_block 203 0 113 0 24 x ∨ ipv4_block 224 0 0 0 4 x ∨ ipv4_block 240 0 0 0 4 x).

Lemma special_forbidden x : special_address x ↔ forbidden_address x.
Proof.
  transitivity (Exists (λ bq, in_net bq.1 bq.2 x) forbiddenRanges).
  - unfold special_address, forbiddenRanges, in_net, ipv4_block. rewrite !Exists_cons, Exists_nil. simpl. tauto.
  - rewrite Exists_exists. unfold forbidden_address. split; [intros ([b q] & ? & ?); by exists b, q|intros (b & q & ? & ?); by exists (b, q)].
Qed.

(** ** Properties *)

Section properties.
Context `{QT : QtText} `{QN : QtNet} `{QD : QtData}.
Context `{!QtTextLaws QT} `{!QtNetLaws QN}.

(** C6. The admission test for managed routes is exact: a value is allowed
    exactly when it spells an IPv4 network in canonical form, an address in
    dotted form without host bits and a prefix length that may be left out when
    it is 32, that is not 0.0.0.0/0, that covers no address of the special-purpose
    blocks listed in [special_address], and that lies inside one of the three
    RFC 1918 blocks or is at least a /16. *)
Theorem managed_route_allowed_iff v :
  isAllowedManagedIpv4Route v = true ↔
  ∃ a p, spells v a p ∧ p ≠ 0
    ∧ (∀ x, in_net a p x → ¬ special_address x)
    ∧ (private_network a p ∨ 16 <= p).
Proof.
  assert (∀ a p, (∀ x, in_net a p x → ¬ special_address x) ↔ (∀ x, in_net a p x → ¬ forbidden_address x)) as Hs.
  { intros a p. split; intros H x Hx; [rewrite <-special_forbidden|rewrite special_forbidden]; auto. }
  split.
  - intros Ha. destruct (allowed_cases v Ha) as (a & p & Hp & _). exists a, p.
    split; [by apply parse_spells|]. rewrite Hs. by apply (allowed_parsed v a p Hp).
  - intros (a & p & Hp%parse_spells & Hr). rewrite Hs in Hr. by apply (allowed_parsed v a p Hp).
Qed.

(** Canonicalisation identifies exactly the spellings of one network: two
    allowed values have the same canonical route if and only if they parse to
    the same address and prefix, and canonicalising twice changes nothing. *)
Theorem canonical_route_normal_form v w :
  isAllowedManagedIpv4Route v = true → isAllowedManagedIpv4Route w = true →
  (canonicalManagedIpv4Route v = canonicalManagedIpv4Route w
   ↔ parseCanonicalIpv4Route v = parseCanonicalIpv4Route w)
  ∧ canonicalManagedIpv4Route (canonicalManagedIpv4Route v) = canonicalManagedIpv4Route v
  ∧ isAllowedManagedIpv4Route (canonicalManagedIpv4Route v) = true.
Proof.
  intros Hv Hw. destruct (allowed_cases v Hv) as (a & p & Hp & (Ha & Hpo & _)).
  destruct (allowed_cases w Hw) as (b & q & Hq & (Hb & Hqo & _)).
  split_and!; [|apply canonical_fixed|].
  - rewrite (canonical_route_text v a p), (canonical_route_text w b q), Hp, Hq by done.
    split; [|naive_solver]. intros E. by destruct (route_text_inj a p b q) as [-> ->].
  - apply canonical_is_canonical. by apply canonical_allowed.
Qed.

(** A list of route tokens is accepted whole or not at all: a rejected
    value yields no route; an accepted one yields, without duplicates and at
    most 64 of them, exactly the canonical forms of its tokens, all allowed,
    and writing them back with ", " reads to the same list. *)
Theorem route_tokens_all_or_nothing v :
  match validatedManagedRouteTokens v with
  | (routes, false) => routes = []
  | (routes, true) =>
      NoDup routes ∧ Z.of_nat (length routes) <= 64
      ∧ (∀ r, r ∈ routes ↔ ∃ t, t ∈ tokens routeSeparator v ∧ r = canonicalManagedIpv4Route t)
      ∧ Forall (λ r, isAllowedManagedIpv4Route r = true) routes
      ∧ validatedManagedRouteTokens (join (lit ", ") routes) = (routes, true)
  end.
Proof.
  destruct (validatedManagedRouteTokens v) as [routes []] eqn:E; [|by eapply routeTokens_invalid].
  destruct (routeTokens_valid _ _ E) as (H1 & H2 & H3 & H4).
  split_and!; [done..| |by apply routeTokens_join].
  eapply Forall_impl; [exact H4|]. by intros r [_ Hr].
Qed.

(** The cumulative route list of a policy keeps its budget: whenever
    [validatedManagedRoutes] reports success, the result has no duplicate, at
    most 4096 routes, each one canonical and allowed, and covers exactly the
    given values. *)
Theorem managed_routes_budget values routes :
  validatedManagedRoutes values = (routes, true) →
  NoDup routes ∧ Z.of_nat (length routes) <= 4096
  ∧ Forall (λ r, canonicalManagedIpv4Route r = r ∧ isAllowedManagedIpv4Route r = true) routes
  ∧ ∀ r, r ∈ routes ↔ ∃ v, v ∈ values ∧ r = canonicalManagedIpv4Route v.
Proof. apply managedRoutes_valid. Qed.

(** The canonical site set never exceeds the route budget, valid or not:
    its keys are in order, every member is a normalised allowed key with a
    list of at most 64 allowed fallback routes (none for a literal route), and
    the reserved routes (one per site plus its fallbacks) total at most 4096. *)
Theorem source_sites_within_budget value :
  let '(sites, _) := canonicalSourceSites value in
  jwf sites ∧ sites_cost sites <= 4096
  ∧ Forall (λ p, site_entry p.1 p.2) sites.
Proof. by destruct (canonicalSourceSites_inv value) as (H1 & H2 & _ & H4). Qed.

(** The canonical policy content is a fixed point: re-reading an accepted
    canonical content gives the same content, hence the same digest, so the
    identity of a policy does not depend on how many times it was stored and
    re-canonicalised. *)
Theorem source_policy_identity_stable object content :
  canonicalSourcePolicyContent object = (content, true) →
  canonicalSourcePolicyContent content = (content, true)
  ∧ canonicalSourcePolicyHash content = canonicalSourcePolicyHash object
  ∧ canonicalSourcePolicyHash object = (derivedRevision content, true).
Proof.
  intros E. pose proof (content_fixed _ _ E) as F. unfold canonicalSourcePolicyHash.
  by rewrite E, F.
Qed.

End properties.

(** ** The properties at concrete inputs *)

Lemma managed_route_allowed_iff_witness :
  @isAllowedManagedIpv4Route asciiText asciiNet (lit "10.0.0.0/8") = true
  ∧ @isAllowedManagedIpv4Route asciiText asciiNet (lit "8.0.0.0/8") = false
  ∧ ∃ a p, @spells asciiText (lit "10.0.0.0/8") a p ∧ p ≠ 0
    ∧ (∀ x, in_net a p x → ¬ special_address x) ∧ (private_network a p ∨ 16 <= p).
Proof.
  split; [vm_compute; reflexivity|]. split; [vm_compute; reflexivity|].
  apply (@managed_route_allowed_iff asciiText asciiNet asciiText_laws asciiNet_laws).
  vm_compute. reflexivity.
Defined.

Lemma canonical_route_normal_form_witness :
  @canonicalManagedIpv4Route asciiText asciiNet (lit " 9.9.9.9/32") = lit "9.9.9.9"
  ∧ @canonicalManagedIpv4Route asciiText asciiNet (lit "9.9.9.9/32")
    = @canonicalManagedIpv4Route asciiText asciiNet (lit "9.9.9.9").
Proof.
  split; [vm_compute; reflexivity|].
  apply (@canonical_route_normal_form asciiText asciiNet asciiText_laws asciiNet_laws);
    vm_compute; reflexivity.
Defined.

Lemma route_tokens_all_or_nothing_witness :
  @validatedManagedRouteTokens asciiText asciiNet (lit "9.9.9.9, 10.1.0.0/16;9.9.9.9/32")
    = ([lit "9.9.9.9"; lit "10.1.0.0/16"], true)
  ∧ (let '(routes, _) := @validatedManagedRouteTokens asciiText asciiNet (lit "9.9.9.9 127.0.0.1") in
     routes = []).
Proof.
  split; [vm_compute; reflexivity|].
  exact (@route_tokens_all_or_nothing asciiText asciiNet asciiText_laws asciiNet_laws
           (lit "9.9.9.9 127.0.0.1")).
Defined.

Lemma managed_routes_budget_witness :
  ∃ routes, @validatedManagedRoutes asciiText asciiNet [lit "9.9.9.9"; lit "9.9.9.9/32"] = (routes, true)
            ∧ NoDup routes ∧ Z.of_nat (length routes) <= 4096.
Proof.
  eexists. split; [vm_compute; reflexivity|].
  destruct (@managed_routes_budget asciiText asciiNet asciiText_laws asciiNet_laws
              [lit "9.9.9.9"; lit "9.9.9.9/32"] [lit "9.9.9.9"]) as (H1 & H2 & _).
  - vm_compute. reflexivity.
  - split; [exact H1|exact H2].
Defined.

Definition example_sites : json :=
  JObject [(lit "10.0.0.0/8", JString []); (lit "Example.com", JString (lit "9.9.9.9"))].

Lemma source_sites_within_budget_witness :
  @canonicalSourceSites asciiText asciiNet example_sites
    = ([(lit "10.0.0.0/8", JString []); (lit "example.com", JString (lit "9.9.9.9"))], true)
  ∧ (let '(sites, _) := @canonicalSourceSites asciiText asciiNet example_sites in
     jwf sites ∧ @sites_cost asciiText asciiNet sites <= 4096
     ∧ Forall (λ p, @site_entry asciiText asciiNet p.1 p.2) sites).
Proof.
  split; [vm_compute; reflexivity|].
  exact (@source_sites_within_budget asciiText asciiNet asciiText_laws asciiNet_laws example_sites).
Defined.

Lemma source_policy_identity_stable_witness :
  let object := [(lit "serverExcept", example_sites)] in
  let content := (@canonicalSourcePolicyContent asciiText asciiNet object).1 in
  @canonicalSourcePolicyContent asciiText asciiNet content = (content, true).
Proof.
  intros object content.
  apply (@source_policy_identity_stable asciiText asciiNet toyData asciiText_laws asciiNet_laws
           object content).
  vm_compute. reflexivity.
Defined.
