(* ===== verification/PolicyLifecycle.v ===== *)
(** * Managed route policies: versions, expiry and the last known good

    Model of the lifecycle half of client/core/utils/managedRoutePolicy.h:
    the metadata record and its JSON form, the admission of a candidate
    policy against the current one, and the state kept in a server
    configuration. *)

From S2P Require Import Prelude Text Json QtInterface QtModel Ipv4 RoutePolicy.
#[local] Open Scope Z_scope.
#[local] Open Scope amnezia_scope.

Record ManagedRoutePolicyMetadata := Metadata {
  schemaVersion : Z;
  revision : text;
  revisionNumber : Z;
  versioned : bool;
  contentHash : text;
  declaredContentHash : text;
  contentMatchesDeclaration : bool;
  issuedAt : qdatetime;
  expiresAt : qdatetime;
  acceptedAt : qdatetime;
  source : text;
  trustState : text;
}.

#[export] Instance metadata_eq_dec : EqDecision ManagedRoutePolicyMetadata.
Proof. solve_decision. Defined.

Definition unsigned : text := lit "unsigned".

Definition isExpired (m : ManagedRoutePolicyMetadata) (now : qdatetime) : bool :=
  dt_isValid (expiresAt m) && dt_leb (expiresAt m) now.

(** [json.insert(key, value)] under a condition. *)
Definition insert_if (b : bool) (k : text) (v : json) (o : jobject) : jobject :=
  if b then jinsert k v o else o.

Section lifecycle.
Context `{QtText} `{QtNet} `{QtTime} `{QtData}.

Definition insert_date (k : text) (t : qdatetime) (o : jobject) : jobject :=
  match t with Some ms => jinsert k (JString (dt_toIsoMs ms)) o | None => o end.

Definition metadataToJson (m : ManagedRoutePolicyMetadata) : jobject :=
  let json := jinsert (lit "schemaVersion") (JDouble (DInt (schemaVersion m))) [] in
  let json := jinsert (lit "policyType")
                (JString (if versioned m then lit "versioned" else lit "legacy")) json in
  let json := jinsert (lit "revision") (JString (revision m)) json in
  let json := insert_if (versioned m && (revisionNumber m >=? 0)) (lit "revisionNumber")
                (JDouble (DInt (revisionNumber m))) json in
  let json := insert_if (negb (is_empty (contentHash m))) (lit "contentHash")
                (JString (contentHash m)) json in
  let json := insert_if (negb (is_empty (declaredContentHash m))) (lit "declaredContentHash")
                (JString (declaredContentHash m)) json in
  let json := jinsert (lit "contentMatchesDeclaration") (JBool (contentMatchesDeclaration m)) json in
  let json := jinsert (lit "trustState")
                (JString (if is_empty (trustState m) then unsigned else trustState m)) json in
  let json := insert_date (lit "issuedAt") (issuedAt m) json in
  let json := insert_date (lit "expiresAt") (expiresAt m) json in
  let json := insert_date (lit "acceptedAt") (acceptedAt m) json in
  insert_if (negb (is_empty (source m))) (lit "source") (JString (source m)) json.

Definition stateKey : text := lit "managedRoutePolicyState".
Definition lastKnownGoodKey : text := lit "lastKnownGood".

(** [fromSecsSinceEpoch] is invalid when the milliseconds do not fit. *)
Definition dt_fromSecs (s : Z) : qdatetime :=
  if (- 2 ^ 63 <=? s * 1000) && (s * 1000 <? 2 ^ 63) then Some (s * 1000) else None.

Definition dateTimeFromJson (value : json) : qdatetime :=
  match value with
  | JString s =>
      let dateTime := dt_fromIsoMs s in
      if negb (dt_isValid dateTime) then dt_fromIso s else dateTime
  | JDouble d =>
      let timestamp := q_toLongLong d in
      if timestamp >? 100000000000 then Some timestamp else dt_fromSecs timestamp
  | _ => None
  end.

Fixpoint firstPresent (keys : list text) (object : jobject) : option json :=
  match keys with
  | [] => None
  | key :: keys' => if jcontains key object then Some (jvalue key object) else firstPresent keys' object
  end.

Definition firstValue (primary fallback : jobject) (keys : list text) : json :=
  match firstPresent keys primary with
  | Some value => value
  | None => match firstPresent keys fallback with Some value => value | None => JUndefined end
  end.

Definition maxExactJsonInteger : Z := 9007199254740991.

Definition canonicalRevisionNumber (value : json) : option Z :=
  match value with
  | JDouble number =>
      if negb (d_isfinite number) || d_ltb number 1 || d_gtb number maxExactJsonInteger
         || negb (d_integral number) then None
      else Some (d_trunc number)
  | _ => None
  end.

Definition storedCanonicalRevisionNumber (value : text) : option Z :=
  let trimmed := trimmed value in
  if is_empty trimmed || ((tsize trimmed >? 1) && starts_with [48] trimmed) then None
  else if negb (forallb q_isDigit trimmed) then None
  else match q_toULongLong trimmed with
       | None => None
       | Some number => if (number <? 1) || (number >? maxExactJsonInteger) then None else Some number
       end.

Definition sha256Prefix : text := lit "sha256:".

Definition normalizedSha256 (value : text) : text :=
  let normalized := q_toLower (trimmed value) in
  if negb (starts_with sha256Prefix normalized) || negb (tsize normalized =? 71) then []
  else if existsb (λ c, negb (q_isDigit c) && ((c <? 97) || (c >? 102))) (skipn 7 normalized) then []
  else normalized.

Definition metadataFromJson (json : jobject) : option ManagedRoutePolicyMetadata :=
  if bool_decide (json = []) then None else
  let value := λ k, jvalue (lit k) json in
  let schemaVersion := to_int 1 (value "schemaVersion"%string) in
  let revision := trimmed (to_string [] (value "revision"%string)) in
  let contentHash := normalizedSha256 (to_string [] (value "contentHash"%string)) in
  let declaredRaw := normalizedSha256 (to_string [] (value "declaredContentHash"%string)) in
  let declaredContentHash := if is_empty declaredRaw then contentHash else declaredRaw in
  let contentMatchesDeclaration :=
    to_bool (is_empty declaredContentHash || text_eqb declaredContentHash contentHash)
      (value "contentMatchesDeclaration"%string) in
  let issuedAt := dateTimeFromJson (value "issuedAt"%string) in
  let expiresAt := dateTimeFromJson (value "expiresAt"%string) in
  let acceptedAt := dateTimeFromJson (value "acceptedAt"%string) in
  let source := trimmed (to_string [] (value "source"%string)) in
  let policyType := q_toLower (trimmed (to_string [] (value "policyType"%string))) in
  let parsedRevision := storedCanonicalRevisionNumber revision in
  let numericRevision := bool_decide (is_Some parsedRevision) in
  if (negb (is_empty policyType) && negb (text_eqb policyType (lit "versioned"))
      && negb (text_eqb policyType (lit "legacy")))
     || (text_eqb policyType (lit "legacy") && numericRevision) then None else
  let versioned := text_eqb policyType (lit "versioned") || (is_empty policyType && numericRevision) in
  let storedNumber := canonicalRevisionNumber (value "revisionNumber"%string) in
  let revisionNumber :=
    if versioned then
      match storedNumber with
      | Some n => n
      | None => match parsedRevision with Some n => n | None => -1 end
      end
    else -1 in
  if negb (schemaVersion =? 1) || is_empty revision || (versioned && (revisionNumber <? 1)) then None
  else if versioned
          && (negb numericRevision
              || bool_decide (storedNumber = None)
              || negb (bool_decide (parsedRevision = Some revisionNumber))
              || is_empty contentHash || is_empty declaredContentHash
              || is_empty declaredRaw
              || negb (is_bool (value "contentMatchesDeclaration"%string))
              || negb (dt_isValid issuedAt) || negb (dt_isValid expiresAt)
              || dt_leb expiresAt issuedAt) then None
  else
    (* whatever trust state was stored, the record is unsigned *)
    Some (Metadata schemaVersion revision revisionNumber versioned contentHash declaredContentHash
            contentMatchesDeclaration issuedAt expiresAt acceptedAt source unsigned).

Definition lastKnownGood (serverConfig : jobject) : option ManagedRoutePolicyMetadata :=
  let state := to_object (jvalue stateKey serverConfig) in
  metadataFromJson (to_object (jvalue lastKnownGoodKey state)).

Definition metadataForEffectiveContent (serverConfig : jobject) (m : ManagedRoutePolicyMetadata) :
    ManagedRoutePolicyMetadata :=
  let declared := if is_empty (declaredContentHash m) then contentHash m else declaredContentHash m in
  let '(effectiveHash, contentValid) := canonicalSourcePolicyHash serverConfig in
  if contentValid then
    Metadata (schemaVersion m) (revision m) (revisionNumber m) (versioned m) effectiveHash declared
      (is_empty declared || text_eqb declared effectiveHash)
      (issuedAt m) (expiresAt m) (acceptedAt m) (source m) unsigned
  else
    Metadata (schemaVersion m) (revision m) (revisionNumber m) (versioned m) [] declared false
      (issuedAt m) (expiresAt m) (acceptedAt m) (source m) unsigned.

Definition lastKnownGoodForEffectiveContent (serverConfig : jobject) :
    option ManagedRoutePolicyMetadata :=
  match lastKnownGood serverConfig with
  | None => None
  | Some m => Some (metadataForEffectiveContent serverConfig m)
  end.

Definition isEffective (serverConfig : jobject) (now : qdatetime) : bool :=
  let stateValue := jvalue stateKey serverConfig in
  if is_undefined stateValue then (canonicalSourcePolicyContent serverConfig).2
  else if negb (is_object stateValue) then false
  else
    let retainedValue := jvalue lastKnownGoodKey (to_object stateValue) in
    if negb (is_object retainedValue) || bool_decide (to_object retainedValue = []) then false
    else match metadataFromJson (to_object retainedValue) with
         | None => false
         | Some m =>
             let effective := metadataForEffectiveContent serverConfig m in
             contentMatchesDeclaration effective && negb (isExpired effective now)
         end.

Definition effectiveContentHash (serverConfig : jobject) (now : qdatetime) : text :=
  if negb (isEffective serverConfig now) then []
  else
    let '(contentHash, contentValid) := canonicalSourcePolicyHash serverConfig in
    if contentValid then contentHash else [].

Definition isCanonicalPolicyIdentity (revision contentHash : text) : bool :=
  if is_empty revision || is_empty contentHash then is_empty revision && is_empty contentHash
  else
    let revisionValid :=
      (text_eqb (trimmed revision) revision
       && bool_decide (is_Some (storedCanonicalRevisionNumber revision)))
      || text_eqb (normalizedSha256 revision) revision in
    revisionValid && text_eqb (normalizedSha256 contentHash) contentHash.

Definition effectiveRevision (serverConfig : jobject) (now : qdatetime) : text :=
  let hash := effectiveContentHash serverConfig now in
  if is_empty hash then []
  else if is_undefined (jvalue stateKey serverConfig) then hash
  else match lastKnownGoodForEffectiveContent serverConfig with
       | None => []
       | Some m =>
           if isExpired m now || negb (contentMatchesDeclaration m)
              || negb (text_eqb (contentHash m) hash) then []
           else revision m
       end.

(** ** Admission of a candidate *)

Definition candidateSchemaVersion (isVersioned : bool) (policyObject payload : jobject) : Z :=
  let value := if isVersioned then jvalue (lit "schemaVersion") policyObject
               else firstValue policyObject payload [lit "schemaVersion"; lit "schema_version"] in
  match value with
  | JUndefined => 1
  | JDouble d => if d_integral d then to_int 0 value else 0
  | JString s => if isVersioned then 0 else match q_toInt s with Some n => n | None => 0 end
  | _ => 0
  end.

(** The revision number and the content the policy declares. *)
Definition candidateContent (isVersioned : bool) (policyObject effectiveContent : jobject) :
    result text (Z * jobject) :=
  if negb isVersioned then Ok (-1, effectiveContent) else
  match canonicalRevisionNumber (jvalue (lit "revision") policyObject) with
  | None => Err (lit "policy revision must be a canonical positive integer")
  | Some revisionNumber =>
      let contentValue := jvalue (lit "content") policyObject in
      let? _ := reject_if (negb (is_object contentValue)) (lit "versioned policy has no canonical content") in
      let contentObject := to_object contentValue in
      let? _ := reject_if
        (negb (to_int 0 (jvalue keySchemaVersion contentObject) =? 1)
         || negb (is_double (jvalue keySchemaVersion contentObject))
         || negb (jcontains keySourceSites contentObject)
         || negb (is_bool (jvalue keyForceEnabled contentObject)))
        (lit "versioned policy content schema is invalid") in
      let '(declaredContent, declaredContentValid) := canonicalSourcePolicyContent contentObject in
      let? _ := reject_if
        (negb declaredContentValid || negb (bool_decide (declaredContent = effectiveContent)))
        (lit "policy content does not match effective source rules") in
      Ok (revisionNumber, declaredContent)
  end.

(** Issue and expiry times of the candidate, checked against the clock. *)
Definition candidateLifecycle (isVersioned : bool) (policyObject payload : jobject) (utcNow : qdatetime) :
    result text (qdatetime * qdatetime) :=
  let issuedValue := firstValue policyObject payload
                       [lit "issuedAt"; lit "issued_at"; lit "issued"; lit "generatedAt"] in
  let expiresValue := firstValue policyObject payload
                        [lit "expiresAt"; lit "expires_at"; lit "expires"] in
  let issuedAt := dateTimeFromJson issuedValue in
  let expiresAt := dateTimeFromJson expiresValue in
  let? _ := reject_if ((negb (is_undefined issuedValue) && negb (dt_isValid issuedAt))
                       || (isVersioned && negb (dt_isValid issuedAt)))
              (lit "invalid policy issue time") in
  let? _ := reject_if ((negb (is_undefined expiresValue) && negb (dt_isValid expiresAt))
                       || (isVersioned && negb (dt_isValid expiresAt)))
              (lit "invalid policy expiry time") in
  let? _ := reject_if (dt_isValid issuedAt && dt_ltb (dt_addSecs utcNow (10 * 60)) issuedAt)
              (lit "policy issue time is in the future") in
  let? _ := reject_if (dt_isValid expiresAt && dt_leb expiresAt utcNow) (lit "policy is expired") in
  let? _ := reject_if (dt_isValid issuedAt && dt_isValid expiresAt && dt_leb expiresAt issuedAt)
              (lit "policy expiry is not after issue time") in
  Ok (issuedAt, expiresAt).

(** Whether the candidate may replace [current]; the acceptance time it
    inherits, if any. *)
Definition candidateSupersedes (current m : ManagedRoutePolicyMetadata) : result text qdatetime :=
  let currentDeclaredHash :=
    if is_empty (declaredContentHash current) then contentHash current else declaredContentHash current in
  let? _ := reject_if (versioned current && negb (versioned m))
              (lit "legacy policy cannot replace a versioned policy") in
  if versioned m && versioned current then
    let? _ := reject_if (revisionNumber current <? 1) (lit "stored versioned policy revision is invalid") in
    let? _ := reject_if (revisionNumber m <? revisionNumber current)
                (lit "policy revision is older than last-known-good") in
    if revisionNumber m =? revisionNumber current then
      let? _ := reject_if (negb (is_empty currentDeclaredHash)
                           && negb (text_eqb (declaredContentHash m) currentDeclaredHash))
                  (lit "policy content changed without a new revision") in
      let? _ := reject_if ((dt_isValid (issuedAt current) && negb (dt_eqb (issuedAt m) (issuedAt current)))
                           || (dt_isValid (expiresAt current)
                               && negb (dt_eqb (expiresAt m) (expiresAt current))))
                  (lit "policy lifecycle changed without a new revision") in
      Ok (acceptedAt current)
    else
      let? _ := reject_if (dt_isValid (issuedAt current) && dt_ltb (issuedAt m) (issuedAt current))
                  (lit "policy issue time is older than last-known-good") in
      Ok None
  else if negb (versioned m) && negb (versioned current) then
    if text_eqb (declaredContentHash m) currentDeclaredHash && dt_isValid (acceptedAt current) then
      Ok (acceptedAt current)
    else if dt_isValid (issuedAt current) then
      let? _ := reject_if (negb (dt_isValid (issuedAt m)))
                  (lit "policy without issue time would replace last-known-good") in
      let? _ := reject_if (dt_ltb (issuedAt m) (issuedAt current))
                  (lit "policy is older than last-known-good") in
      Ok None
    else Ok None
  else Ok None.

(** [clock] is [QDateTime::currentDateTimeUtc()], used when [now] is invalid. *)
Definition validateCandidate (payload : jobject) (currentLastKnownGood : option ManagedRoutePolicyMetadata)
    (now : qdatetime) (clock : Z) : result text ManagedRoutePolicyMetadata :=
  let policyMemberPresent := jcontains (lit "policy") payload in
  let? _ := reject_if (policyMemberPresent && negb (is_object (jvalue (lit "policy") payload)))
              (lit "invalid policy envelope") in
  let isVersioned := policyMemberPresent in
  let policyObject := to_object (jvalue (lit "policy") payload) in
  let? _ := reject_if (negb (candidateSchemaVersion isVersioned policyObject payload =? 1))
              (lit "unsupported policy schema version") in
  let '(effectiveContent, effectiveContentValid) := canonicalSourcePolicyContent payload in
  let? _ := reject_if (negb effectiveContentValid) (lit "invalid canonical source policy") in
  let? (number', declaredContent) := candidateContent isVersioned policyObject effectiveContent in
  let hash := derivedRevision declaredContent in
  let declaredHash := normalizedSha256 (to_string [] (jvalue (lit "contentSha256") policyObject)) in
  let? _ := reject_if (isVersioned && (is_empty declaredHash || negb (text_eqb declaredHash hash)))
              (lit "policy content digest mismatch") in
  let utcNow := if dt_isValid now then now else Some clock in
  let? (issued, expires) := candidateLifecycle isVersioned policyObject payload utcNow in
  let m := Metadata 1 (if isVersioned then number number' else hash) number' isVersioned hash hash true
             issued expires None [] unsigned in
  let? accepted := match currentLastKnownGood with
                   | None => Ok None
                   | Some current => candidateSupersedes current m
                   end in
  let acceptedAt := if negb (dt_isValid accepted) then utcNow else accepted in
  Ok (Metadata 1 (revision m) number' isVersioned hash hash true issued expires acceptedAt [] unsigned).

(** The updated configuration, and whether it changed. *)
Definition storeLastKnownGood (serverConfig : jobject) (m : ManagedRoutePolicyMetadata) : jobject * bool :=
  let state := to_object (jvalue stateKey serverConfig) in
  let effective := metadataForEffectiveContent serverConfig m in
  let metadataJson := metadataToJson effective in
  if bool_decide (to_object (jvalue lastKnownGoodKey state) = metadataJson) then (serverConfig, false)
  else
    let state := jinsert (lit "schemaVersion") (JDouble (DInt 1)) state in
    let state := jinsert lastKnownGoodKey (JObject metadataJson) state in
    (jinsert stateKey (JObject state) serverConfig, true).

Definition refreshEffectiveContentMetadata (serverConfig : jobject) : jobject * bool :=
  match lastKnownGood serverConfig with
  | None => (serverConfig, false)
  | Some m => storeLastKnownGood serverConfig m
  end.

End lifecycle.

(** ** Reading back what was written *)

(** Decides the comparisons between literal keys. *)
Ltac lit_eqs :=
  repeat match goal with
  | |- context [text_eqb (lit ?a) (lit ?b)] =>
      let r := eval vm_compute in (text_eqb (lit a) (lit b)) in
      change (text_eqb (lit a) (lit b)) with r
  end; cbv iota.

Lemma jvalue_insert_if b k v o k' :
  is_undefined v = false →
  jvalue k' (insert_if b k v o) = if text_eqb k' k then (if b then v else jvalue k' o) else jvalue k' o.
Proof.
  intros Hv. unfold insert_if. destruct b; [by apply jvalue_jinsert|]. by destruct (text_eqb k' k).
Qed.

Section reading.
Context `{QT : QtText} `{QN : QtNet} `{QM : QtTime} `{QD : QtData}.
Context `{!QtTextLaws QT} `{!QtNetLaws QN} `{!QtTimeLaws QM} `{!QtDataLaws QD}.

Lemma jvalue_insert_date k t o k' :
  jvalue k' (insert_date k t o)
  = if text_eqb k' k then match t with Some ms => JString (dt_toIsoMs ms) | None => jvalue k' o end
    else jvalue k' o.
Proof.
  unfold insert_date. destruct t; [by apply jvalue_jinsert|]. by destruct (text_eqb k' k).
Qed.

Definition opt_string (s : text) : json := if is_empty s then JUndefined else JString s.
Definition opt_date (t : qdatetime) : json :=
  match t with Some ms => JString (dt_toIsoMs ms) | None => JUndefined end.

(** The members of the JSON form. *)
Lemma metadata_values m :
  let v k := jvalue (lit k) (metadataToJson m) in
  v "schemaVersion"%string = JDouble (DInt (schemaVersion m))
  ∧ v "policyType"%string = JString (if versioned m then lit "versioned" else lit "legacy")
  ∧ v "revision"%string = JString (revision m)
  ∧ v "revisionNumber"%string
    = (if versioned m && (revisionNumber m >=? 0) then JDouble (DInt (revisionNumber m)) else JUndefined)
  ∧ v "contentHash"%string = opt_string (contentHash m)
  ∧ v "declaredContentHash"%string = opt_string (declaredContentHash m)
  ∧ v "contentMatchesDeclaration"%string = JBool (contentMatchesDeclaration m)
  ∧ v "issuedAt"%string = opt_date (issuedAt m)
  ∧ v "expiresAt"%string = opt_date (expiresAt m)
  ∧ v "acceptedAt"%string = opt_date (acceptedAt m)
  ∧ v "source"%string = opt_string (source m).
Proof.
  cbv zeta. unfold metadataToJson, opt_string, opt_date. cbv zeta.
  split_and!; repeat (rewrite ?jvalue_insert_if, ?jvalue_insert_date, ?jvalue_jinsert by reflexivity; lit_eqs);
    cbn [jvalue]; try reflexivity; try (by destruct (is_empty _)).
Qed.

Lemma metadataToJson_ne m : metadataToJson m ≠ [].
Proof.
  intros E. pose proof (metadata_values m) as (_ & _ & Hr & _). by rewrite E in Hr.
Qed.

Lemma opt_string_read s : to_string [] (opt_string s) = s.
Proof. unfold opt_string. by destruct s. Qed.

Lemma opt_date_read t :
  match t with Some ms => dt_expressible ms | None => True end →
  dateTimeFromJson (opt_date t) = t.
Proof. destruct t as [ms|]; simpl; [|done]. intros Hm. by rewrite dt_fromIsoMs_toIsoMs. Qed.

Lemma lower_hex_token s : Forall (λ c, is_lower_hex c = true) s → lower_token s.
Proof.
  intros Hs. eapply Forall_impl; [exact Hs|]. intros c Hc. simpl in *.
  unfold is_lower_hex, is_digit in Hc.
  assert (48 <= c <= 57 ∨ 97 <= c <= 102) as Hr by (apply orb_true_iff in Hc as [?|?]; bprop; lia).
  unfold is_ascii, ascii_space, ascii_lower.
  rewrite (proj2 (andb_false_iff (65 <=? c) (c <=? 90))) by lia. lia.
Qed.

Lemma derivedRevision_hex o :
  Forall (λ c, is_lower_hex c = true) (to_hex (sha256 (json_compact o)))
  ∧ length (to_hex (sha256 (json_compact o))) = 64%nat.
Proof. split; [apply to_hex_lower, sha256_bytes|]. by rewrite to_hex_length, sha256_length. Qed.

Lemma derivedRevision_token o : lower_token (derivedRevision o).
Proof.
  unfold derivedRevision. apply lower_token_app. split; [by repeat constructor|].
  apply lower_hex_token, derivedRevision_hex.
Qed.

Lemma derivedRevision_ne o : derivedRevision o ≠ [].
Proof. done. Qed.

(** A digest is its own normal form. *)
Lemma normalizedSha256_derived o : normalizedSha256 (derivedRevision o) = derivedRevision o.
Proof.
  unfold normalizedSha256. cbv zeta.
  destruct (lower_token_normal _ (derivedRevision_token o)) as [-> ->].
  destruct (derivedRevision_hex o) as [Hh Hl].
  assert (starts_with sha256Prefix (derivedRevision o) = true) as ->
    by (apply starts_with_true; by eexists).
  assert (tsize (derivedRevision o) = 71) as ->.
  { unfold tsize, derivedRevision. rewrite length_app, Hl. reflexivity. }
  change (negb true || negb (71 =? 71)) with false. cbv iota.
  change (skipn 7 (derivedRevision o)) with (to_hex (sha256 (json_compact o))).
  destruct (existsb _ _) eqn:E; [|done]. apply existsb_true_iff in E as (c & Hc & E).
  eapply Forall_forall in Hh; [|done]. unfold is_lower_hex in Hh. bprop.
  destruct Hh as [Hd|Hd]; bprop.
  - rewrite q_isDigit_ascii in H; [congruence|]. unfold is_digit, is_ascii in *. bprop. lia.
  - match goal with H : _ ∨ _ |- _ => destruct H; bprop; lia end.
Qed.

Lemma normalizedSha256_nil : normalizedSha256 [] = [].
Proof.
  unfold normalizedSha256. cbv zeta. change (trimmed []) with (@nil Z).
  by rewrite (q_toLower_ascii []).
Qed.

Lemma storedRevision_bound s n :
  storedCanonicalRevisionNumber s = Some n → 1 <= n <= maxExactJsonInteger.
Proof. unfold storedCanonicalRevisionNumber. intros E. guards E. simplify_eq. lia. Qed.

Lemma canonicalRevision_int n :
  1 <= n <= maxExactJsonInteger → canonicalRevisionNumber (JDouble (DInt n)) = Some n.
Proof.
  intros Hn. simpl. rewrite (proj2 (Z.ltb_ge n 1)), (proj2 (Z.ltb_ge _ n)) by lia. done.
Qed.

Lemma canonicalRevision_bound v n :
  canonicalRevisionNumber v = Some n → 1 <= n <= maxExactJsonInteger ∧ v = JDouble (DInt n).
Proof.
  unfold canonicalRevisionNumber. intros E. destruct v as [| | |d| | |]; try done.
  destruct d as [z|m k|]; simpl in E; try (guards E; done).
  guards E. simplify_eq. split; [lia|done].
Qed.

Lemma storedRevision_number n :
  1 <= n <= maxExactJsonInteger → storedCanonicalRevisionNumber (number n) = Some n.
Proof.
  intros Hn. unfold storedCanonicalRevisionNumber. cbv zeta.
  destruct (lower_token_normal (number n)) as [-> _]; [apply lower_token_number; lia|].
  rewrite (proj2 (is_empty_false _)) by (apply number_ne; lia). cbn [orb].
  assert ((tsize (number n) >? 1) && starts_with [48] (number n) = false) as ->.
  { destruct (number n) as [|c s] eqn:E; [done|].
    destruct s as [|c' s]; [done|]. assert (c ≠ 48) by (eapply number_no_leading_zero; eauto; lia).
    cbn [starts_with]. rewrite (proj2 (Z.eqb_neq 48 c)) by lia. by rewrite andb_false_r. }
  assert (forallb q_isDigit (number n) = true) as ->.
  { apply forallb_true_iff, Forall_forall. intros c Hc%number_chars; [|lia].
    rewrite q_isDigit_ascii by (unfold is_ascii; lia). unfold is_digit. lia. }
  cbn [negb]. rewrite q_toULongLong_digits, number_value;
    [|lia|apply number_all_digits; lia|rewrite number_value; unfold maxExactJsonInteger in *; lia].
  by rewrite (proj2 (Z.ltb_ge n 1)), Z.gtb_ltb, (proj2 (Z.ltb_ge _ n)) by lia.
Qed.

(** The records the client stores. *)
Definition metadata_wf (m : ManagedRoutePolicyMetadata) : Prop :=
  schemaVersion m = 1 ∧ trimmed (revision m) = revision m ∧ revision m ≠ []
  ∧ normalizedSha256 (contentHash m) = contentHash m
  ∧ normalizedSha256 (declaredContentHash m) = declaredContentHash m
  ∧ (declaredContentHash m = [] → contentHash m = [])
  ∧ Forall (λ t, match t with Some ms => dt_expressible ms | None => True end)
      [issuedAt m; expiresAt m; acceptedAt m]
  ∧ trimmed (source m) = source m ∧ trustState m = unsigned
  ∧ (if versioned m then
       storedCanonicalRevisionNumber (revision m) = Some (revisionNumber m)
       ∧ contentHash m ≠ [] ∧ declaredContentHash m ≠ []
       ∧ ∃ t u, issuedAt m = Some t ∧ expiresAt m = Some u ∧ t < u
     else storedCanonicalRevisionNumber (revision m) = None ∧ revisionNumber m = -1).

Lemma metadata_read_write m :
  metadata_wf m → metadataFromJson (metadataToJson m) = Some m.
Proof.
  intros (W1 & W2 & W3 & W4 & W5 & W6 & W7 & W8 & W9 & W10).
  pose proof (metadata_values m) as (V1 & V2 & V3 & V4 & V5 & V6 & V7 & V8 & V9 & V10 & V11).
  rewrite !Forall_cons in W7. destruct W7 as (D1 & D2 & D3 & _).
  unfold metadataFromJson. rewrite bool_decide_eq_false_2 by apply metadataToJson_ne. cbv zeta.
  rewrite V1, V2, V3, V4, V5, V6, V7, V8, V9, V10, V11.
  rewrite !opt_string_read, !opt_date_read, W4, W5 by done. rewrite W1. cbn [to_string to_bool].
  rewrite W2, W8. clear V1 V2 V3 V4 V5 V6 V7 V8 V9 V10 V11.
  assert ((if is_empty (declaredContentHash m) then contentHash m else declaredContentHash m)
          = declaredContentHash m) as ->.
  { destruct (declaredContentHash m); simpl; [by apply W6|done]. }
  rewrite (proj2 (is_empty_false (revision m))) by done.
  assert (∀ b : bool, q_toLower (trimmed (if b then lit "versioned" else lit "legacy"))
                      = if b then lit "versioned" else lit "legacy") as Hpt.
  { intros b. destruct (lower_token_normal (if b then lit "versioned" else lit "legacy")) as [-> ->]; [|done].
    destruct b; by repeat constructor. }
  rewrite Hpt. destruct m as [sv rev rn vers ch dch cmd iss ex acc src ts]. simpl in *. subst sv ts.
  destruct vers; simpl in *.
  - destruct W10 as (W & Hc & Hd & t & u & -> & -> & Htu). pose proof (storedRevision_bound _ _ W) as Hb.
    rewrite W. lit_eqs. rewrite Z.geb_leb, (proj2 (Z.leb_le 0 rn)) by lia.
    rewrite canonicalRevision_int by done. simpl. rewrite (proj2 (Z.ltb_ge rn 1)) by lia. simpl.
    rewrite (proj2 (is_empty_false ch)), (proj2 (is_empty_false dch)) by done.
    rewrite bool_decide_eq_true_2 by done. simpl. by rewrite (proj2 (Z.leb_gt u t)).
  - destruct W10 as (W & ->). rewrite W. lit_eqs. by destruct cmd.
Qed.
End reading.

(** ** What an accepted candidate satisfies *)

Section admission.
Context `{QT : QtText} `{QN : QtNet} `{QM : QtTime} `{QD : QtData}.

Lemma dt_valid_true (t : qdatetime) : dt_isValid t = true ↔ ∃ x, t = Some x.
Proof. unfold dt_isValid. rewrite bool_decide_eq_true. done. Qed.

Lemma dt_valid_false (t : qdatetime) : dt_isValid t = false ↔ t = None.
Proof. unfold dt_isValid. rewrite bool_decide_eq_false. destruct t; naive_solver. Qed.

Lemma candidateLifecycle_Ok isV pol payload utcNow i e :
  candidateLifecycle isV pol payload utcNow = Ok (i, e) →
  (isV = true → is_Some i ∧ is_Some e)
  ∧ (∀ u n, e = Some u → utcNow = Some n → n < u)
  ∧ (∀ t u, i = Some t → e = Some u → t < u)
  ∧ (∀ t n, i = Some t → utcNow = Some n → t <= n + 600000).
Proof.
  unfold candidateLifecycle. cbv zeta. intros E. inv_ok E. injection E as Hi He.
  rewrite Hi, He in *. rewrite reject_if_Ok in *. clear Hi He. split_and!.
  - intros ->. destruct i, e; simpl in *; bprop; repeat match goal with
      | H : _ ∨ _ |- _ => destruct H; bprop end; done.
  - intros u n -> ->. simpl in *. bprop. lia.
  - intros t u -> ->. simpl in *. bprop. lia.
  - intros t n -> ->. simpl in *. bprop. lia.
Qed.

Lemma candidateContent_Ok isV pol content n d :
  candidateContent isV pol content = Ok (n, d) →
  d = content ∧ (if isV then 1 <= n <= maxExactJsonInteger
                     ∧ jvalue (lit "revision") pol = JDouble (DInt n) else n = -1).
Proof.
  unfold candidateContent. destruct isV; cbn [negb]; [|naive_solver].
  destruct (canonicalRevisionNumber _) as [k|] eqn:Hk; [|done]. intros E.
  apply rbind_Ok in E as ([] & _ & E). apply rbind_Ok in E as ([] & _ & E).
  destruct (canonicalSourcePolicyContent _) as [dc dv]. inv_ok E. simplify_eq.
  rewrite reject_if_Ok in *. bprop. apply canonicalRevision_bound in Hk. naive_solver.
Qed.

(** The order in which policies may replace one another. *)
Definition supersedes (current m : ManagedRoutePolicyMetadata) : Prop :=
  let currentHash :=
    if is_empty (declaredContentHash current) then contentHash current else declaredContentHash current in
  if versioned current then
    versioned m = true ∧ 1 <= revisionNumber current <= revisionNumber m
    ∧ (revisionNumber m = revisionNumber current →
         (currentHash = [] ∨ declaredContentHash m = currentHash)
         ∧ (issuedAt current = None ∨ issuedAt m = issuedAt current)
         ∧ (expiresAt current = None ∨ expiresAt m = expiresAt current))
    ∧ (∀ t u, issuedAt current = Some t → issuedAt m = Some u → t <= u)
  else
    versioned m = true
    ∨ declaredContentHash m = currentHash
    ∨ ∀ t, issuedAt current = Some t → ∃ u, issuedAt m = Some u ∧ t <= u.

Lemma candidateSupersedes_versioned current m acc :
  versioned current = true → candidateSupersedes current m = Ok acc → supersedes current m.
Proof.
  intros Hc. unfold candidateSupersedes, supersedes. cbv zeta. rewrite Hc.
  set (ch := if is_empty (declaredContentHash current) then _ else _). intros E.
  apply rbind_Ok in E as ([] & E1 & E). rewrite reject_if_Ok in E1. bprop.
  destruct E1 as [E1|E1]; [done|]. apply negb_false_iff in E1. rewrite E1 in E. cbn [andb] in E.
  apply rbind_Ok in E as ([] & E2 & E). apply rbind_Ok in E as ([] & E3 & E).
  rewrite reject_if_Ok in E2, E3. bprop.
  destruct (revisionNumber m =? revisionNumber current) eqn:Hr; bprop.
  - apply rbind_Ok in E as ([] & E4 & E). apply rbind_Ok in E as ([] & E5 & _).
    rewrite reject_if_Ok in E4, E5. apply orb_false_iff in E5 as [E5 E6].
    assert (issuedAt current = None ∨ issuedAt m = issuedAt current) as Hi.
    { apply andb_false_iff in E5 as [E5|E5]; [left; by apply dt_valid_false|right].
      unfold dt_eqb in E5. by bprop. }
    split_and!; [done|lia..| |].
    + intros _. split_and!; [|done|].
      * apply andb_false_iff in E4 as [E4|E4]; bprop; [left; by apply is_empty_true|right].
        by apply text_eqb_eq.
      * apply andb_false_iff in E6 as [E6|E6]; [left; by apply dt_valid_false|right].
        unfold dt_eqb in E6. by bprop.
    + intros t u Ht Hu. destruct Hi as [Hi|Hi]; [congruence|]. rewrite Hi, Ht in Hu. simplify_eq. lia.
  - apply rbind_Ok in E as ([] & E4 & _). rewrite reject_if_Ok in E4.
    split_and!; [done|lia..|done|]. intros t u Ht Hu. rewrite Ht, Hu in E4. simpl in E4. bprop. lia.
Qed.

Lemma candidateSupersedes_legacy current m acc :
  versioned current = false → candidateSupersedes current m = Ok acc → supersedes current m.
Proof.
  intros Hc. unfold candidateSupersedes, supersedes. cbv zeta. rewrite Hc.
  set (ch := if is_empty (declaredContentHash current) then _ else _). intros E.
  apply rbind_Ok in E as ([] & _ & E). rewrite andb_false_r in E.
  destruct (versioned m); [by left|]. cbn [negb andb] in E. right.
  destruct (text_eqb (declaredContentHash m) ch && _) eqn:Hb.
  { left. bprop. by apply text_eqb_eq. }
  right. intros t Ht. rewrite Ht in E. simpl in E.
  apply rbind_Ok in E as ([] & E1 & E). apply rbind_Ok in E as ([] & E2 & _).
  rewrite reject_if_Ok in E1, E2. bprop. apply dt_valid_true in E1 as [u Hu].
  exists u. rewrite Hu in E2. simpl in E2. bprop. by split; [|lia].
Qed.

Lemma candidateSupersedes_Ok current m acc :
  candidateSupersedes current m = Ok acc → supersedes current m.
Proof.
  destruct (versioned current) eqn:E;
    [by apply candidateSupersedes_versioned|by apply candidateSupersedes_legacy].
Qed.

(** An inherited acceptance time is that of the current policy. *)
Lemma candidateSupersedes_accepted current m acc :
  candidateSupersedes current m = Ok acc → acc = None ∨ acc = acceptedAt current.
Proof.
  unfold candidateSupersedes. cbv zeta. intros E. inv_ok E.
  repeat (break_in E; inv_ok E; try (simplify_eq; by auto)).
Qed.

(** Everything [validateCandidate] establishes. *)
Lemma validateCandidate_Ok payload cur now clock m :
  validateCandidate payload cur now clock = Ok m →
  ∃ content,
    canonicalSourcePolicyContent payload = (content, true)
    ∧ contentHash m = derivedRevision content ∧ declaredContentHash m = derivedRevision content
    ∧ contentMatchesDeclaration m = true ∧ schemaVersion m = 1 ∧ source m = [] ∧ trustState m = unsigned
    ∧ versioned m = jcontains (lit "policy") payload
    ∧ (if versioned m then 1 <= revisionNumber m <= maxExactJsonInteger
          ∧ revision m = number (revisionNumber m) ∧ is_Some (issuedAt m) ∧ is_Some (expiresAt m)
       else revisionNumber m = -1 ∧ revision m = derivedRevision content)
    ∧ (let utcNow := if dt_isValid now then now else Some clock in
       (∀ u n, expiresAt m = Some u → utcNow = Some n → n < u)
       ∧ (∀ t n, issuedAt m = Some t → utcNow = Some n → t <= n + 600000)
       ∧ (acceptedAt m = utcNow ∨ ∃ c, cur = Some c ∧ acceptedAt m = acceptedAt c))
    ∧ (∀ t u, issuedAt m = Some t → expiresAt m = Some u → t < u)
    ∧ is_Some (acceptedAt m)
    ∧ (∀ c, cur = Some c → supersedes c m).
Proof.
  unfold validateCandidate. cbv zeta. set (isV := jcontains (lit "policy") payload).
  set (utcNow := if dt_isValid now then now else Some clock).
  assert (is_Some utcNow) as Hnow.
  { subst utcNow. destruct (dt_isValid now) eqn:En; [|done]. by apply bool_decide_eq_true in En. }
  intros E. apply rbind_Ok in E as ([] & _ & E). apply rbind_Ok in E as ([] & _ & E).
  destruct (canonicalSourcePolicyContent payload) as [content valid] eqn:Hc.
  apply rbind_Ok in E as ([] & Hv & E). rewrite reject_if_Ok in Hv. apply negb_false_iff in Hv. subst valid.
  apply rbind_Ok in E as ([n d] & Hn & E). apply candidateContent_Ok in Hn as [-> Hn].
  apply rbind_Ok in E as ([] & _ & E). apply rbind_Ok in E as ([i e] & Hl & E).
  apply candidateLifecycle_Ok in Hl as (L1 & L2 & L3 & L4).
  apply rbind_Ok in E as (acc & Hacc & E). simplify_eq. simpl.
  exists content. split_and!; try done.
  - destruct isV; [|done]. destruct (L1 eq_refl). naive_solver.
  - destruct (dt_isValid acc) eqn:Ha; simpl; [right|by left].
    destruct cur as [c|]; [|by simplify_eq]. exists c. split; [done|].
    apply candidateSupersedes_accepted in Hacc as [->| ->]; done.
  - destruct (dt_isValid acc) eqn:Ha; simpl; [by apply dt_valid_true in Ha as [? ->]|done].
  - intros c ->. apply candidateSupersedes_Ok in Hacc. done.
Qed.
End admission.

(** ** The stored state *)

Lemma jkeys_jput_other k v o k' : k' ≠ k → jcontains k' (jput k v o) = jcontains k' o.
Proof.
  intros Hne. destruct (jcontains k' o) eqn:E.
  - apply jcontains_true in E. apply jcontains_true, jput_keys. by right.
  - destruct (jcontains k' (jput k v o)) eqn:F; [|done].
    apply jcontains_true, jput_keys in F as [->|F]; [done|]. apply jcontains_true in F. congruence.
Qed.

Section stored_state.
Context `{QT : QtText} `{QN : QtNet} `{QM : QtTime} `{QD : QtData}.

(** Writing the lifecycle state leaves the policy content alone. *)
Lemma content_state_irrelevant v o :
  canonicalSourcePolicyContent (jput stateKey v o) = canonicalSourcePolicyContent o.
Proof.
  assert (∀ k, k ∈ [keySourceSites; keySites; keyServerExcept; keyForceEnabled] → k ≠ stateKey) as Hk.
  { intros k Hk. repeat (apply elem_of_cons in Hk as [->|Hk]; [by vm_compute|]). by apply not_elem_of_nil in Hk. }
  unfold canonicalSourcePolicyContent, sourceSitesValue, containsSourceSites, firstContainer.
  rewrite !jvalue_jput_ne, !jkeys_jput_other by (apply Hk; set_solver). done.
Qed.

Lemma hash_state_irrelevant v o :
  canonicalSourcePolicyHash (jput stateKey v o) = canonicalSourcePolicyHash o.
Proof. unfold canonicalSourcePolicyHash. by rewrite content_state_irrelevant. Qed.

Lemma effective_state_irrelevant v o m :
  metadataForEffectiveContent (jput stateKey v o) m = metadataForEffectiveContent o m.
Proof. unfold metadataForEffectiveContent. by rewrite hash_state_irrelevant. Qed.

(** Where the stored record is found after a store. *)
Lemma store_lookup cfg m :
  let cfg' := (storeLastKnownGood cfg m).1 in
  canonicalSourcePolicyContent cfg' = canonicalSourcePolicyContent cfg
  ∧ ∃ state, jvalue stateKey cfg' = JObject state
      ∧ jvalue lastKnownGoodKey state = JObject (metadataToJson (metadataForEffectiveContent cfg m)).
Proof.
  unfold storeLastKnownGood. cbv zeta. set (mj := metadataToJson _).
  case_bool_decide as Hd; simpl.
  - split; [done|].
    assert (mj ≠ []) as Hne by apply metadataToJson_ne.
    destruct (jvalue stateKey cfg) as [| | | | | |state]; simpl in *; try congruence.
    exists state. split; [done|].
    destruct (jvalue lastKnownGoodKey state); simpl in *; congruence.
  - unfold jinsert at 1. cbn [is_undefined]. split; [apply content_state_irrelevant|].
    eexists. split; [apply jvalue_jput_eq|]. unfold jinsert at 1. cbn [is_undefined].
    by rewrite jvalue_jput_eq.
Qed.

(** An accepted record describes the content it was accepted for. *)
Lemma effective_same_content cfg m content :
  canonicalSourcePolicyContent cfg = (content, true) →
  contentHash m = derivedRevision content → declaredContentHash m = derivedRevision content →
  contentMatchesDeclaration m = true → trustState m = unsigned →
  metadataForEffectiveContent cfg m = m.
Proof.
  intros Hc H1 H2 H3 H4. unfold metadataForEffectiveContent, canonicalSourcePolicyHash.
  rewrite Hc. fold (derivedRevision content). rewrite H2.
  rewrite (proj2 (is_empty_false _)) by done. rewrite text_eqb_refl. cbn [orb].
  destruct m; simpl in *; congruence.
Qed.
End stored_state.

(** ** Properties *)

Section lifecycle_properties.
Context `{QT : QtText} `{QN : QtNet} `{QM : QtTime} `{QD : QtData}.

(** C3. No downgrade: an accepted candidate supersedes the current policy. A
    versioned policy is only replaced by a versioned one of the same or a
    higher revision; at the same revision the content and the lifetime are
    unchanged; the issue time never moves backwards; a legacy policy is only
    replaced by a versioned one, by the same content, or by one issued no
    earlier. *)
Theorem accepted_candidate_supersedes payload current now clock m :
  validateCandidate payload (Some current) now clock = Ok m → supersedes current m.
Proof. intros (content & Hall)%validateCandidate_Ok. by apply Hall. Qed.

(** What acceptance guarantees: the digest of the accepted record is the
    digest of the canonical form of the payload's own rules, the record is
    never promoted beyond "unsigned", it is unexpired and not issued more than
    ten minutes ahead of the clock, and a versioned one carries a canonical
    revision number and a non-empty lifetime. *)
Theorem accepted_candidate_sound payload current now clock m :
  validateCandidate payload current now clock = Ok m →
  ∃ content, canonicalSourcePolicyContent payload = (content, true)
    ∧ contentHash m = derivedRevision content ∧ declaredContentHash m = contentHash m
    ∧ trustState m = unsigned
    ∧ (∀ n, (if dt_isValid now then now else Some clock) = Some n →
         (∀ u, expiresAt m = Some u → n < u) ∧ (∀ t, issuedAt m = Some t → t <= n + 600000))
    ∧ (versioned m = true →
         1 <= revisionNumber m <= 9007199254740991 ∧ revision m = number (revisionNumber m)
         ∧ ∃ t u, issuedAt m = Some t ∧ expiresAt m = Some u ∧ t < u).
Proof.
  intros (content & H1 & H2 & H3 & H4 & H5 & H6 & H7 & H8 & H9 & (N1 & N2 & _) & H11 & _)%validateCandidate_Ok.
  exists content. split_and!; [done|done|congruence|done|by eauto|].
  intros Hv. rewrite Hv in H9. destruct H9 as (B1 & B2 & [t Ht] & [u Hu]).
  unfold maxExactJsonInteger in *. split_and!; [lia..|done|]. exists t, u. eauto.
Qed.

Context `{!QtTextLaws QT} `{!QtNetLaws QN} `{!QtTimeLaws QM} `{!QtDataLaws QD}.

(** Persistence loses nothing: reading back the JSON form of a stored
    record gives the record. *)
Theorem metadata_roundtrip m :
  metadata_wf m → metadataFromJson (metadataToJson m) = Some m.
Proof. apply metadata_read_write. Qed.

(** Records accepted by [validateCandidate] are of the stored kind. *)
Lemma accepted_wf payload current now clock m :
  validateCandidate payload current now clock = Ok m →
  Forall (λ t, match t with Some ms => dt_expressible ms | None => True end)
    [issuedAt m; expiresAt m; acceptedAt m] →
  metadata_wf m.
Proof.
  intros (content & H1 & H2 & H3 & H4 & H5 & H6 & H7 & H8 & H9 & _ & H11 & _)%validateCandidate_Ok Hd.
  assert (trimmed (derivedRevision content) = derivedRevision content) as Ht
    by apply lower_token_normal, derivedRevision_token.
  unfold metadata_wf. rewrite H2, H3, H5, H6, H7, normalizedSha256_derived.
  destruct (versioned m).
  - destruct H9 as (B1 & B2 & [t Hti] & [u Hu]). rewrite B2, storedRevision_number by done.
    split_and!; try done.
    + apply lower_token_normal, lower_token_number. lia.
    + apply number_ne. lia.
    + exists t, u. eauto.
  - destruct H9 as (B1 & B2). rewrite B2. split_and!; try done.
    unfold storedCanonicalRevisionNumber. rewrite Ht. cbv zeta.
    assert (q_isDigit 115 = false) as Hs by (by rewrite q_isDigit_ascii).
    change (derivedRevision content) with (115 :: skipn 1 (derivedRevision content)).
    cbn [is_empty orb starts_with forallb Z.eqb]. rewrite Hs. cbn [andb negb]. by rewrite andb_false_r.
Qed.

(** Accepting a policy and storing it makes exactly it effective: after
    [storeLastKnownGood] the configuration reports the accepted revision and
    digest until the policy expires and no policy afterwards, and what it
    reports is a canonical policy identity. *)
Theorem accepted_policy_becomes_effective payload current now clock m cfg later :
  validateCandidate payload current now clock = Ok m →
  canonicalSourcePolicyContent cfg = canonicalSourcePolicyContent payload →
  Forall (λ t, match t with Some ms => dt_expressible ms | None => True end)
    [issuedAt m; expiresAt m; acceptedAt m] →
  let cfg' := (storeLastKnownGood cfg m).1 in
  isEffective cfg' later = negb (isExpired m later)
  ∧ lastKnownGood cfg' = Some m
  ∧ effectiveRevision cfg' later = (if isExpired m later then [] else revision m)
  ∧ effectiveContentHash cfg' later = (if isExpired m later then [] else contentHash m)
  ∧ isCanonicalPolicyIdentity (effectiveRevision cfg' later) (effectiveContentHash cfg' later) = true.
Proof.
  intros Hv Hcfg Hd cfg'. pose proof (accepted_wf _ _ _ _ _ Hv Hd) as Hwf.
  apply validateCandidate_Ok in Hv as (content & H1 & H2 & H3 & H4 & _ & _ & H7 & _ & H9 & _).
  rewrite H1 in Hcfg. assert (metadataForEffectiveContent cfg m = m) as He
    by (by eapply effective_same_content).
  destruct (store_lookup cfg m) as (Hc & state & S1 & S2). fold cfg' in Hc, S1.
  rewrite He in S2. rewrite Hcfg in Hc.
  assert (metadataForEffectiveContent cfg' m = m) as He' by (by eapply effective_same_content).
  assert (lastKnownGood cfg' = Some m) as Hl.
  { unfold lastKnownGood. rewrite S1. simpl. rewrite S2. simpl. by apply metadata_read_write. }
  assert (isEffective cfg' later = negb (isExpired m later)) as Hi.
  { unfold isEffective. rewrite S1. cbn [is_undefined is_object negb to_object]. rewrite S2.
    cbn [is_object negb to_object orb]. rewrite bool_decide_eq_false_2 by apply metadataToJson_ne.
    rewrite metadata_read_write, He', H4 by done. done. }
  assert (effectiveContentHash cfg' later = if isExpired m later then [] else contentHash m) as Hh.
  { unfold effectiveContentHash, canonicalSourcePolicyHash. rewrite Hi, Hc.
    destruct (isExpired m later); simpl; [done|]. by rewrite H2. }
  assert (effectiveRevision cfg' later = if isExpired m later then [] else revision m) as Hr.
  { unfold effectiveRevision, lastKnownGoodForEffectiveContent. cbv zeta. rewrite Hh, S1, Hl, He'.
    destruct (isExpired m later) eqn:Hx; simpl; [done|].
    rewrite H2 at 1. rewrite (proj2 (is_empty_false _)) by done. simpl.
    by rewrite H4, text_eqb_refl. }
  split_and!; [done..|]. rewrite Hr, Hh. destruct (isExpired m later); [done|].
  destruct Hwf as (_ & W2 & W3 & W4 & _ & _ & _ & _ & _ & W10).
  unfold isCanonicalPolicyIdentity. rewrite W2, W4, !text_eqb_refl, andb_true_r.
  rewrite (proj2 (is_empty_false (revision m))), (proj2 (is_empty_false (contentHash m)))
    by (done || by rewrite H2). cbn [orb].
  destruct (versioned m).
  - destruct W10 as (-> & _). done.
  - destruct H9 as [_ ->]. rewrite normalizedSha256_derived, text_eqb_refl. by rewrite orb_true_r.
Qed.

(** Storing is idempotent: storing the same record again leaves the
    configuration unchanged and reports that nothing changed. *)
Theorem store_last_known_good_idempotent cfg m :
  let cfg' := (storeLastKnownGood cfg m).1 in
  storeLastKnownGood cfg' m = (cfg', false).
Proof.
  intros cfg'. destruct (store_lookup cfg m) as (Hc & state & S1 & S2). fold cfg' in Hc, S1.
  unfold storeLastKnownGood at 1. cbv zeta. rewrite S1. simpl. rewrite S2. simpl.
  assert (metadataForEffectiveContent cfg' m = metadataForEffectiveContent cfg m) as ->.
  { unfold metadataForEffectiveContent, canonicalSourcePolicyHash. by rewrite Hc. }
  by rewrite bool_decide_eq_true_2.
Qed.

(** Enforcement fails closed: a configuration is effective exactly when it
    has no lifecycle state and valid rules, or a readable stored record whose
    declared digest is that of the valid rules it now contains and which has
    not expired. *)
Theorem policy_effective_iff cfg now :
  isEffective cfg now = true ↔
  (jvalue stateKey cfg = JUndefined ∧ (canonicalSourcePolicyContent cfg).2 = true)
  ∨ ∃ state o m content,
      jvalue stateKey cfg = JObject state ∧ jvalue lastKnownGoodKey state = JObject o
      ∧ metadataFromJson o = Some m
      ∧ canonicalSourcePolicyContent cfg = (content, true)
      ∧ (declaredContentHash m = [] ∧ contentHash m = []
         ∨ (if is_empty (declaredContentHash m) then contentHash m else declaredContentHash m)
           = derivedRevision content)
      ∧ isExpired m now = false.
Proof.
  unfold isEffective. cbv zeta. destruct (jvalue stateKey cfg) as [| | | | | |state] eqn:Hs; simpl;
    try (split; [done|]; intros [[? _]|(?&?&?&?&?&_)]; done).
  { split; [by left|]. intros [[_ ?]|(?&?&?&?&?&_)]; done. }
  destruct (jvalue lastKnownGoodKey state) as [| | | | | |o] eqn:Hl; simpl;
    try (split; [done|]; intros [[? _]|(?&?&?&?&?&?&_)]; congruence).
  case_bool_decide as Ho.
  { split; [done|]. intros [[? _]|(?&?&?&?&?&?&Hm&_)]; simplify_eq. by rewrite Hl in *; simplify_eq. }
  destruct (metadataFromJson o) as [m|] eqn:Hm.
  2: { split; [done|]. intros [[? _]|(?&?&?&?&?&?&?&_)]; [done|]. simplify_eq. congruence. }
  unfold metadataForEffectiveContent, canonicalSourcePolicyHash.
  destruct (canonicalSourcePolicyContent cfg) as [content valid] eqn:Hc.
  set (declared := if is_empty (declaredContentHash m) then contentHash m else declaredContentHash m).
  assert (declared = [] ↔ declaredContentHash m = [] ∧ contentHash m = []) as Hdec.
  { subst declared. destruct (declaredContentHash m); simpl; naive_solver. }
  fold (derivedRevision content). destruct valid; simpl.
  - change (isExpired (Metadata _ _ _ _ _ _ _ _ (expiresAt m) _ _ _) now) with (isExpired m now).
    rewrite andb_true_iff, orb_true_iff, is_empty_true, text_eqb_eq, negb_true_iff, Hdec. split.
    + intros [Hor Hx]. right. exists state, o, m, content. done.
    + intros [[? _]|(state' & o' & m' & content' & E1 & E2 & E3 & E4 & E5 & E6)]; [done|].
      assert (state' = state) as -> by congruence. assert (o' = o) as -> by congruence.
      assert (m' = m) as -> by congruence. assert (content' = content) as -> by congruence. done.
  - split; [done|]. intros [[? _]|(?&?&?&?&?&?&?&?&_)]; congruence.
Qed.
End lifecycle_properties.

(** ** The properties at concrete inputs *)

Definition example_object : jobject := [(lit "serverExcept", example_sites)].

Definition example_content : jobject :=
  (@canonicalSourcePolicyContent asciiText asciiNet example_object).1.

(** A versioned policy of revision [rev], valid for one day. *)
Definition example_policy (rev : Z) : jobject :=
  let pol := jinsert (lit "revision") (JDouble (DInt rev))
            (jinsert (lit "content") (JObject example_content)
            (jinsert (lit "contentSha256") (JString (@derivedRevision toyData example_content))
            (jinsert (lit "issuedAt") (JDouble (DInt 1700000000))
            (jinsert (lit "expiresAt") (JDouble (DInt 1700086400)) [])))) in
  jinsert (lit "policy") (JObject pol) example_object.

Notation example_accept rev current :=
  (@validateCandidate asciiText asciiNet plainTime toyData (example_policy rev) current
     (Some 1700000100000) 0).

Definition example_record : ManagedRoutePolicyMetadata :=
  let hash := @derivedRevision toyData example_content in
  Metadata 1 (lit "5") 5 true hash hash true (Some 1700000000000) (Some 1700086400000)
    (Some 1700000100000) [] unsigned.

Lemma example_accepted : example_accept 5 None = Ok example_record.
Proof. vm_compute. reflexivity. Qed.

Lemma accepted_candidate_supersedes_witness :
  example_accept 4 (Some example_record) = Err (lit "policy revision is older than last-known-good")
  ∧ ∃ m, example_accept 6 (Some example_record) = Ok m ∧ supersedes example_record m.
Proof.
  split; [vm_compute; reflexivity|]. eexists. split; [vm_compute; reflexivity|].
  apply (@accepted_candidate_supersedes asciiText asciiNet plainTime toyData
           (example_policy 6) example_record (Some 1700000100000) 0).
  vm_compute. reflexivity.
Defined.

Lemma accepted_candidate_sound_witness :
  example_accept 5 None = Ok example_record
  ∧ ∃ content, @canonicalSourcePolicyContent asciiText asciiNet (example_policy 5) = (content, true)
      ∧ contentHash example_record = @derivedRevision toyData content.
Proof.
  split; [exact example_accepted|].
  destruct (@accepted_candidate_sound asciiText asciiNet plainTime toyData
              (example_policy 5) None (Some 1700000100000) 0 example_record example_accepted)
    as (content & H1 & H2 & _).
  exists content. split; [exact H1|exact H2].
Defined.

Lemma example_record_wf : @metadata_wf asciiText example_record.
Proof.
  assert (Forall (λ t, match t with Some ms => dt_expressible ms | None => True end)
            [issuedAt example_record; expiresAt example_record; acceptedAt example_record]) as Hd.
  { repeat constructor; simpl; unfold dt_expressible; lia. }
  exact (@accepted_wf asciiText asciiNet plainTime toyData asciiText_laws toyData_laws
           (example_policy 5) None (Some 1700000100000) 0 example_record example_accepted Hd).
Qed.

Lemma metadata_roundtrip_witness :
  @metadataFromJson asciiText plainTime (@metadataToJson plainTime example_record) = Some example_record.
Proof.
  apply (@metadata_roundtrip asciiText plainTime asciiText_laws plainTime_laws).
  exact example_record_wf.
Defined.

Lemma accepted_policy_becomes_effective_witness :
  let cfg' := (@storeLastKnownGood asciiText asciiNet plainTime toyData example_object example_record).1 in
  @isEffective asciiText asciiNet plainTime toyData cfg' (Some 1700000200000) = true
  ∧ @effectiveRevision asciiText asciiNet plainTime toyData cfg' (Some 1700000200000) = lit "5"
  ∧ @effectiveRevision asciiText asciiNet plainTime toyData cfg' (Some 1800000000000) = [].
Proof.
  assert (Forall (λ t, match t with Some ms => dt_expressible ms | None => True end)
            [issuedAt example_record; expiresAt example_record; acceptedAt example_record]) as Hd.
  { repeat constructor; simpl; unfold dt_expressible; lia. }
  assert (@canonicalSourcePolicyContent asciiText asciiNet example_object
          = @canonicalSourcePolicyContent asciiText asciiNet (example_policy 5)) as Hc
    by (vm_compute; reflexivity).
  pose proof (λ later, @accepted_policy_becomes_effective asciiText asciiNet plainTime toyData
    asciiText_laws plainTime_laws toyData_laws (example_policy 5) None (Some 1700000100000) 0
    example_record example_object later example_accepted Hc Hd) as Heff.
  destruct (Heff (Some 1700000200000)) as (E1 & _ & E2 & _).
  destruct (Heff (Some 1800000000000)) as (_ & _ & E3 & _).
  split; [exact E1|]. split; [exact E2|exact E3].
Defined.
