(* ===== verification/RuleMatcher.v ===== *)
(** * Route rule matching

    Model of client/core/utils/routeRuleMatcher.cpp: normalisation of the
    inspected target and the bounded scan of the local and managed split
    tunnelling rules for the rule that decides its route. *)

From S2P Require Import Prelude Text Json QtInterface QtModel Ipv4 RoutePolicy.
#[local] Open Scope Z_scope.

(** ** Limits and scores *)

Definition maximumInputLength : Z := 2048.
Definition maximumHostLength : Z := 253.
Definition maximumRuleOutputLength : Z := 255.
Definition maximumStoredRouteLength : Z := 128.
Definition maximumStoredRoutesPerRule : Z := 64.
Definition maximumMatchedValueLength : Z := 2048.
Definition maximumRawStoredValueLength : Z := 4096.
Definition maximumRulesPerSource : Z := 512.
Definition maximumManagedRulesPerSource : Z := 4096.
Definition resolvedAddressScoreBase : Z := 7000.
Definition addressScoreBase : Z := 8000.
Definition domainScoreBase : Z := 10032.

Inductive InputPolicy := HostOrUrl | BareHostOrAddress.
Inductive DomainMatchPolicy := RequireResolvedIpv4 | PolicyOnly.

Record NormalizedTarget := Target {
  targetHost : text;
  literalAddress : qhost;
  targetError : text;
}.

Record RuleMatch := Match {
  matched : bool;
  matchSource : text;
  rule : text;
  configuredRule : text;
  matchedValue : text;
  matchType : text;
  safetyTransform : text;
  matchedValueTruncated : bool;
  score : Z;
}.

Definition noMatch : RuleMatch := Match false [] [] [] [] [] [] false (-1).

Record MatchResult := Result {
  accepted : RuleMatch;
  rejected : RuleMatch;
  coverageComplete : bool;
  localRulesTruncated : bool;
  managedRulesTruncated : bool;
  storedValuesTruncated : bool;
  localRulesInspected : Z;
  managedRulesInspected : Z;
}.

Definition emptyResult : MatchResult := Result noMatch noMatch true false false false 0 0.

(** [QString::left]. *)
Definition bounded (value : text) (maximumLength : Z) : text := take (Z.to_nat maximumLength) value.

Section matcher.
Context `{QtText} `{QtNet}.

Definition hasControlCharacters (value : text) : bool := existsb q_isControl value.

Definition isValidAceHostname (host : text) : bool :=
  if is_empty host || (tsize host >? maximumHostLength) then false
  else forallb (λ label, negb (tsize label >? 63) && labelExpression label) (split_char 46 host).

Definition hasForbiddenBareHostCharacter (input : text) : bool :=
  existsb (λ c, (c =? 0) || q_isSpace c || q_isControl c || q_isHidden c) input.

Definition errorTarget (e : string) : NormalizedTarget := Target [] HNull (lit e).

(** The two places that accept a literal address. *)
Definition literalTarget (address : qhost) : NormalizedTarget :=
  if negb (is_empty (host_scopeId address)) then errorTarget "scoped_ipv6_not_supported"
  else Target (q_toLower (host_toString address)) address [].

(** [while (hostname.endsWith('.')) hostname.chop(1)]. *)
Definition chopDots (hostname : text) : text := reverse (drop_while (Z.eqb 46) (reverse hostname)).

Definition contains_any (cs : text) (s : text) : bool := existsb (λ c, contains_char c s) cs.

(** The host name part of the input, [None] when it is invalid. *)
Definition targetHostname (bareHostOnly : bool) (trimmed : text) : option text :=
  if bareHostOnly then
    if contains_any [58; 47; 92; 64; 63; 35; 37] trimmed then None else Some trimmed
  else
    let hasScheme := contains_text (lit "://") trimmed in
    let needsUrlParsing :=
      hasScheme || starts_with (lit "//") trimmed || contains_any [47; 63; 35; 64; 58] trimmed in
    if needsUrlParsing then
      let urlText :=
        if starts_with (lit "//") trimmed then lit "route:" ++ trimmed
        else if negb hasScheme then lit "route://" ++ trimmed else trimmed in
      match url_host urlText with
      | None => None
      | Some h => if is_empty h then None else Some h
      end
    else Some trimmed.

Definition normalizeTargetImpl (input : text) (inputPolicy : InputPolicy) : NormalizedTarget :=
  let bareHostOnly := match inputPolicy with BareHostOrAddress => true | HostOrUrl => false end in
  let trimmed := if bareHostOnly then input else trimmed input in
  if is_empty trimmed then errorTarget "host_required" else
  if (tsize trimmed >? maximumInputLength)
     || (if bareHostOnly then hasForbiddenBareHostCharacter trimmed else hasControlCharacters trimmed)
  then errorTarget "invalid_host" else
  let candidate :=
    if starts_with [91] trimmed && ends_with [93] trimmed
    then take (length trimmed - 2) (drop 1 trimmed) else trimmed in
  if negb (host_isNull (host_parse candidate)) then literalTarget (host_parse candidate) else
  match targetHostname bareHostOnly trimmed with
  | None => errorTarget "invalid_host"
  | Some hostname =>
      let hostname := chopDots hostname in
      if negb (host_isNull (host_parse hostname)) then literalTarget (host_parse hostname) else
      let normalized := q_toLower (url_toAce hostname) in
      if negb (isValidAceHostname normalized) then errorTarget "invalid_host"
      else Target normalized HNull []
  end.

(** Whether the address is covered by the route, and the prefix length the
    caller's variable holds afterwards. *)
Definition addressMatchesRoute (address : qhost) (route : text) (prefixLength : Z) : bool * Z :=
  if host_isNull address then (false, prefixLength) else
  let trimmedRoute := trimmed route in
  let routeAddress := host_parse trimmedRoute in
  if negb (contains_char 47 trimmedRoute) && negb (host_isNull routeAddress) then
    (bool_decide (address = routeAddress), if host_isV4 routeAddress then 32 else 128)
  else
    let '(subnet, bits) := host_parseSubnet trimmedRoute in
    if (bits <? 0) || negb (host_same_protocol subnet address) then (false, prefixLength)
    else (host_isInSubnet address subnet bits, bits).

Definition isIpv4HostOrCidr (route : text) : bool :=
  let trimmed := trimmed route in
  if negb (contains_char 47 trimmed) then host_isV4 (host_parse trimmed)
  else
    let parts := split_char 47 trimmed in
    if negb (length parts =? 2)%nat || negb (host_isV4 (host_parse (part_at 0 parts))) then false
    else match q_toInt (part_at 1 parts) with
         | None => false
         | Some prefixLength => (0 <=? prefixLength) && (prefixLength <=? 32)
         end.

Definition isStoredRouteSeparator (c : Z) : bool := (c =? 44) || (c =? 59) || q_isSpace c.

Fixpoint take_token (s : text) : text * text :=
  match s with
  | c :: s' => if isStoredRouteSeparator c then ([], s)
               else let '(w, r) := take_token s' in (c :: w, r)
  | [] => ([], [])
  end.

(** The scanning loop on the rest of the bounded value; each round consumes
    at least one unit, so a fuel of its length is enough. *)
Fixpoint scanStoredRoutes (fuel : nat) (rawValueBounded : bool) (rest : text) (tokens : list text) :
    list text * bool :=
  match fuel with
  | O => (tokens, false)
  | S fuel' =>
      match drop_while isStoredRouteSeparator rest with
      | [] => (tokens, false)
      | rest' =>
          let '(route, rest'') := take_token rest' in
          let tokenComplete := negb (is_empty rest'') || rawValueBounded in
          if tokenComplete && (tsize route <=? maximumStoredRouteLength)
             && isIpv4HostOrCidr route && negb (bool_decide (route ∈ tokens)) then
            if Z.of_nat (length tokens) >=? maximumStoredRoutesPerRule then (tokens, true)
            else scanStoredRoutes fuel' rawValueBounded rest'' (tokens ++ [route])
          else scanStoredRoutes fuel' rawValueBounded rest'' tokens
      end
  end.

(** The tokens, and whether the whole value was covered. *)
Definition storedRouteTokens (rawValue : text) : list text * bool :=
  let rawValueBounded := tsize rawValue <=? maximumRawStoredValueLength in
  let boundedValue := bounded rawValue maximumRawStoredValueLength in
  let '(tokens, tokenLimitReached) :=
    scanStoredRoutes (S (length boundedValue)) rawValueBounded boundedValue [] in
  (tokens, rawValueBounded && negb tokenLimitReached).

Definition normalizedDomainRule (rawRule : text) : text :=
  let target := normalizeTargetImpl (q_toLower (trimmed rawRule)) BareHostOrAddress in
  if negb (is_empty (targetError target)) || negb (host_isNull (literalAddress target)) then []
  else targetHost target.

Definition privacySafeRule (rawRule : text) : text :=
  let trimmedRule := trimmed rawRule in
  let '(subnet, bits) := host_parseSubnet trimmedRule in
  let maximumPrefix := if host_isV4 subnet then 32 else 128 in
  if (bits >=? 0) && (bits <=? maximumPrefix) then
    if (bits =? maximumPrefix) && negb (contains_char 47 trimmedRule)
    then q_toLower (host_toString subnet)
    else q_toLower (host_toString subnet) ++ [47] ++ number bits
  else
    let domainRule := normalizedDomainRule trimmedRule in
    if negb (is_empty domainRule) then domainRule else lit "configured-rule".

Definition parseIpv4Route (route : text) : option (Z * Z) :=
  let routeParts := split_char 47 (trimmed route) in
  if (length routeParts =? 0)%nat || (2 <? length routeParts)%nat then None else
  let routeAddress := host_parse (part_at 0 routeParts) in
  if negb (host_isV4 routeAddress) then None
  else if (length routeParts =? 1)%nat then Some (host_toIPv4 routeAddress, 32)
  else match q_toInt (part_at 1 routeParts) with
       | None => None
       | Some prefixLength =>
           if (0 <=? prefixLength) && (prefixLength <=? 32)
           then Some (host_toIPv4 routeAddress, prefixLength) else None
       end.

Definition routeOverlapsIpv4Range (address prefixLength base rangePrefixLength : Z) : bool :=
  let routeStart := Z.land address (ipv4Mask prefixLength) in
  let routeEnd := Z.lor routeStart (u32_not (ipv4Mask prefixLength)) in
  let rangeStart := Z.land base (ipv4Mask rangePrefixLength) in
  let rangeEnd := Z.lor rangeStart (u32_not (ipv4Mask rangePrefixLength)) in
  (routeStart <=? rangeEnd) && (rangeStart <=? routeEnd).

Definition isCanonicalRuntimeIpv4Route (route : text) : bool :=
  match parseIpv4Route route with
  | None => false
  | Some (address, prefixLength) => Z.land address (ipv4Mask prefixLength) =? address
  end.

Definition minimumPublicBypassPrefixLength : Z := 16.
Definition minimumLocalBypassPrefixLength : Z := 24.

(** The blocks a client route may not touch, and those it may only enter with
    a narrow prefix. *)
Definition clientForbiddenRanges : list (Z * Z) :=
  [(0x00000000, 8); (0x7f000000, 8); (0xc0000000, 24); (0xc0000200, 24);
   (0xc01f0000, 24); (0xc01fc400, 24); (0xc034c100, 24); (0xc0586300, 24);
   (0xc0af3000, 24); (0xc6120000, 15); (0xc6336400, 24); (0xcb007100, 24);
   (0xe0000000, 4); (0xf0000000, 4)].

Definition localOrServiceRanges : list (Z * Z) :=
  [(0x0a000000, 8); (0x64400000, 10); (0xac100000, 12); (0xc0a80000, 16)].

Definition isRoutableClientRoute (route : text) : bool :=
  match parseIpv4Route route with
  | None => false
  | Some (address, prefixLength) =>
      if prefixLength =? 0 then false else
      let hostAddress := HV4 address in
      let inRange base prefix := Z.land address (ipv4Mask prefix) =? Z.land base (ipv4Mask prefix) in
      let overlaps base prefix := routeOverlapsIpv4Range address prefixLength base prefix in
      if (prefixLength <? 32) && negb (Z.land address (ipv4Mask prefixLength) =? address) then false else
      if host_isNull hostAddress || host_isLoopback hostAddress || host_isBroadcast hostAddress
         || host_isLinkLocal hostAddress || host_isMulticast hostAddress then false else
      let localOrServiceRoute := existsb (λ '(b, q), inRange b q) localOrServiceRanges in
      if existsb (λ '(b, q), overlaps b q) clientForbiddenRanges then false else
      let minimumPrefixLength :=
        if localOrServiceRoute then minimumLocalBypassPrefixLength else minimumPublicBypassPrefixLength in
      prefixLength >=? minimumPrefixLength
  end.

(** ** Selection *)

Definition considerMatch (best : RuleMatch) (source ruleText configured value type : text)
    (newScore : Z) (transform : text) : RuleMatch :=
  let localTieBreaker :=
    (newScore =? score best) && text_eqb source (lit "local")
    && negb (text_eqb (matchSource best) (lit "local")) in
  if negb (matched best) || (newScore >? score best) || localTieBreaker then
    Match true source (bounded ruleText maximumRuleOutputLength) configured
      (bounded value maximumMatchedValueLength) type transform
      (tsize value >? maximumMatchedValueLength) newScore
  else best.

Definition considerAccepted (r : MatchResult) (source ruleText configured value type : text) (s : Z) :
    MatchResult :=
  Result (considerMatch (accepted r) source ruleText configured value type s [])
    (rejected r) (coverageComplete r) (localRulesTruncated r) (managedRulesTruncated r)
    (storedValuesTruncated r) (localRulesInspected r) (managedRulesInspected r).

Definition considerRejected (r : MatchResult) (source ruleText configured value type : text) (s : Z)
    (transform : text) : MatchResult :=
  Result (accepted r) (considerMatch (rejected r) source ruleText configured value type s transform)
    (coverageComplete r) (localRulesTruncated r) (managedRulesTruncated r)
    (storedValuesTruncated r) (localRulesInspected r) (managedRulesInspected r).

Definition markStoredTruncated (r : MatchResult) : MatchResult :=
  Result (accepted r) (rejected r) false (localRulesTruncated r) (managedRulesTruncated r) true
    (localRulesInspected r) (managedRulesInspected r).

Definition countInspected (trustedManaged : bool) (r : MatchResult) : MatchResult :=
  if trustedManaged then
    Result (accepted r) (rejected r) (coverageComplete r) (localRulesTruncated r)
      (managedRulesTruncated r) (storedValuesTruncated r) (localRulesInspected r)
      (managedRulesInspected r + 1)
  else
    Result (accepted r) (rejected r) (coverageComplete r) (localRulesTruncated r)
      (managedRulesTruncated r) (storedValuesTruncated r) (localRulesInspected r + 1)
      (managedRulesInspected r).

(** [(trustedManaged && isCanonical...) || (!trustedManaged && isRoutable...)]. *)
Definition routeAdmitted (trustedManaged : bool) (route : text) : bool :=
  (trustedManaged && isCanonicalRuntimeIpv4Route route)
  || (negb trustedManaged && isRoutableClientRoute route).

Definition rejectionReason (trustedManaged : bool) : text :=
  if trustedManaged then lit "unsupported_managed_cidr_rejected" else lit "client_cidr_rejected".

(** One match goes to the accepted or to the rejected slot. *)
Definition considerRoute (trustedManaged admitted : bool) (r : MatchResult)
    (ruleText key value type : text) (s : Z) : MatchResult :=
  let source := if trustedManaged then lit "managed" else lit "local" in
  if admitted then considerAccepted r source ruleText key value type s
  else considerRejected r source ruleText key value type s (rejectionReason trustedManaged).

Definition inspectDomain (trustedManaged : bool) (host : text) (address : qhost)
    (domainMatchPolicy : DomainMatchPolicy) (key value rawRule : text) (r : MatchResult) : MatchResult :=
  let domainRule := normalizedDomainRule rawRule in
  let s := domainScoreBase + tsize domainRule in
  if negb (is_empty domainRule) && text_eqb host domainRule
     && match domainMatchPolicy with PolicyOnly => true | RequireResolvedIpv4 => false end then
    considerRoute trustedManaged true r domainRule key value (lit "domain") s
  else if host_isV4 address && negb (is_empty domainRule) && text_eqb host domainRule then
    considerRoute trustedManaged (routeAdmitted trustedManaged (host_toString address)) r
      domainRule key value (lit "domain") s
  else r.

Fixpoint inspectStored (trustedManaged : bool) (address : qhost) (key value rawRule : text)
    (storedRoutes : list text) (prefixLength : Z) (r : MatchResult) : MatchResult :=
  match storedRoutes with
  | [] => r
  | storedRoute :: storedRoutes' =>
      let '(hit, prefixLength) := addressMatchesRoute address storedRoute prefixLength in
      let r := if hit then
                 considerRoute trustedManaged (routeAdmitted trustedManaged storedRoute) r
                   (privacySafeRule rawRule) key value (lit "resolvedAddress")
                   (resolvedAddressScoreBase + prefixLength)
               else r in
      inspectStored trustedManaged address key value rawRule storedRoutes' prefixLength r
  end.

(** The body of the loop over the rules. *)
Definition inspectRule (trustedManaged : bool) (host : text) (address : qhost)
    (domainMatchPolicy : DomainMatchPolicy) (r : MatchResult) (entry : text * text) : MatchResult :=
  let '(key, value) := entry in
  let r := countInspected trustedManaged r in
  if tsize key >? maximumInputLength then markStoredTruncated r else
  let rawRule := trimmed key in
  if is_empty rawRule then r else
  let keyIsRuntimeRoute := isIpv4HostOrCidr rawRule in
  let '(keyMatched, prefixLength) :=
    if keyIsRuntimeRoute then addressMatchesRoute address rawRule (-1) else (false, -1) in
  let r := if keyMatched then
             considerRoute trustedManaged (routeAdmitted trustedManaged rawRule) r
               (privacySafeRule rawRule) key value (lit "address") (addressScoreBase + prefixLength)
           else inspectDomain trustedManaged host address domainMatchPolicy key value rawRule r in
  let '(storedRoutes, storedValueComplete) := storedRouteTokens value in
  let r := if storedValueComplete then r else markStoredTruncated r in
  inspectStored trustedManaged address key value rawRule storedRoutes prefixLength r.

Definition maximumRules (trustedManaged : bool) : Z :=
  if trustedManaged then maximumManagedRulesPerSource else maximumRulesPerSource.

Fixpoint inspectLoop (trustedManaged : bool) (host : text) (address : qhost)
    (domainMatchPolicy : DomainMatchPolicy) (inspectedRules : Z) (rules : list (text * text))
    (r : MatchResult) : MatchResult :=
  match rules with
  | [] => r
  | entry :: rules' =>
      if inspectedRules >=? maximumRules trustedManaged then r
      else inspectLoop trustedManaged host address domainMatchPolicy (inspectedRules + 1) rules'
             (inspectRule trustedManaged host address domainMatchPolicy r entry)
  end.

(** [rules] is the variant map in key order, each value as its string. *)
Definition inspectRules (rules : list (text * text)) (trustedManaged : bool) (host : text)
    (address : qhost) (domainMatchPolicy : DomainMatchPolicy) (r : MatchResult) : MatchResult :=
  let mapTruncated := Z.of_nat (length rules) >? maximumRules trustedManaged in
  let r := Result (accepted r) (rejected r) (coverageComplete r && negb mapTruncated)
             (if trustedManaged then localRulesTruncated r else mapTruncated)
             (if trustedManaged then mapTruncated else managedRulesTruncated r)
             (storedValuesTruncated r) (localRulesInspected r) (managedRulesInspected r) in
  inspectLoop trustedManaged host address domainMatchPolicy 0 rules r.

Definition normalizeTarget (input : text) (inputPolicy : InputPolicy) : NormalizedTarget :=
  normalizeTargetImpl input inputPolicy.

Definition matchRules (localRules managedRules : list (text * text)) (host : text)
    (resolvedAddress : qhost) (domainMatchPolicy : DomainMatchPolicy) : MatchResult :=
  let normalized := normalizeTargetImpl host BareHostOrAddress in
  let canonicalHost :=
    if is_empty (targetError normalized) && host_isNull (literalAddress normalized)
    then targetHost normalized else [] in
  let r := inspectRules localRules false canonicalHost resolvedAddress domainMatchPolicy emptyResult in
  inspectRules managedRules true canonicalHost resolvedAddress domainMatchPolicy r.

End matcher.

(** ** Stored route tokens *)

Section stored_tokens.
Context `{QT : QtText} `{QN : QtNet}.

(** A token the scan keeps. *)
Definition storedRouteOk (t : text) : bool :=
  (tsize t <=? maximumStoredRouteLength) && isIpv4HostOrCidr t.

Lemma take_token_spec s w r :
  take_token s = (w, r) →
  s = w ++ r ∧ Forall (λ c, isStoredRouteSeparator c = false) w
  ∧ match r with [] => True | c :: _ => isStoredRouteSeparator c = true end.
Proof.
  revert w r. induction s as [|c s IH]; intros w r E; simpl in E.
  { simplify_eq. by repeat constructor. }
  destruct (isStoredRouteSeparator c) eqn:Hc; simplify_eq; [by repeat constructor|].
  destruct (take_token s) as [w' r'] eqn:E'. simplify_eq.
  destruct (IH w' r eq_refl) as (-> & H1 & H2). split_and!; [done|by constructor|done].
Qed.

(** One round of the loop finds the next token of the declarative split. *)
Lemma tokens_step rest c rest' w r :
  drop_while isStoredRouteSeparator rest = c :: rest' → take_token (c :: rest') = (w, r) →
  tokens isStoredRouteSeparator rest = w :: tokens isStoredRouteSeparator r
  ∧ (length r < length rest)%nat ∧ w ≠ [].
Proof.
  intros Hd Ht. pose proof (drop_while_head isStoredRouteSeparator rest) as Hh. rewrite Hd in Hh.
  destruct (take_token_spec _ _ _ Ht) as (Hs & Hw & Hr).
  assert (w ≠ []) as Hne.
  { intros ->. simpl in Hs. subst r. congruence. }
  assert (tokens isStoredRouteSeparator rest = tokens isStoredRouteSeparator (c :: rest')) as ->.
  { rewrite <-Hd. unfold tokens. clear. induction rest as [|x rest IH]; [done|]. simpl.
    destruct (isStoredRouteSeparator x) eqn:E; [done|]. simpl. by rewrite E. }
  destruct (drop_while_suffix isStoredRouteSeparator rest) as [k Hk]. rewrite Hd in Hk.
  split_and!; [|apply (f_equal length) in Hk, Hs; rewrite length_app in *;
                simpl in *; destruct w; [done|]; simpl in *; lia|done].
  rewrite Hs. unfold tokens. rewrite tokens_go_word by done. simpl.
  destruct r as [|s r]; simpl; [by destruct w|]. rewrite Hr. by destruct w.
Qed.

Lemma tokens_nil_step rest :
  drop_while isStoredRouteSeparator rest = [] → tokens isStoredRouteSeparator rest = [].
Proof.
  unfold tokens. induction rest as [|c rest IH]; simpl; [done|].
  destruct (isStoredRouteSeparator c); [|done]. intros Hd. by rewrite IH.
Qed.

Lemma scan_bounds fuel b rest acc ts lim :
  NoDup acc → Z.of_nat (length acc) <= maximumStoredRoutesPerRule →
  Forall (λ t, storedRouteOk t = true) acc →
  scanStoredRoutes fuel b rest acc = (ts, lim) →
  NoDup ts ∧ Z.of_nat (length ts) <= maximumStoredRoutesPerRule
  ∧ Forall (λ t, storedRouteOk t = true) ts.
Proof.
  revert rest acc. induction fuel as [|fuel IH]; intros rest acc H1 H2 H3 E; cbn [scanStoredRoutes] in E.
  { by simplify_eq. }
  destruct (drop_while _ rest) as [|c rest']; [by simplify_eq|].
  destruct (take_token (c :: rest')) as [w r].
  destruct (_ && isIpv4HostOrCidr w && _) eqn:G; [|by eapply IH].
  destruct (Z.of_nat (length acc) >=? _) eqn:L; [by simplify_eq|]. bprop.
  eapply IH; [| | |exact E].
  - rewrite <-append_new_fresh by done. by apply append_new_NoDup.
  - rewrite length_app. simpl. lia.
  - apply Forall_app. split; [done|]. apply Forall_singleton. unfold storedRouteOk.
    rewrite andb_true_iff, Z.leb_le. done.
Qed.

Lemma scan_complete fuel rest acc ts :
  (length rest < fuel)%nat →
  scanStoredRoutes fuel true rest acc = (ts, false) →
  ts = foldl append_new acc (filter (λ t, storedRouteOk t = true) (tokens isStoredRouteSeparator rest)).
Proof.
  revert rest acc. induction fuel as [|fuel IH]; intros rest acc Hf E; [lia|].
  cbn [scanStoredRoutes] in E.
  destruct (drop_while _ rest) as [|c rest'] eqn:Hd.
  { simplify_eq. by rewrite tokens_nil_step. }
  destruct (take_token (c :: rest')) as [w r] eqn:Ht.
  destruct (tokens_step _ _ _ _ _ Hd Ht) as (-> & Hlt & _).
  rewrite orb_true_r, andb_true_l in E. rewrite filter_cons.
  fold (storedRouteOk w) in E. destruct (storedRouteOk w) eqn:Hok.
  - rewrite decide_True by done. cbn [foldl].
    destruct (bool_decide (w ∈ acc)) eqn:Hin; cbn [negb andb] in E.
    + bprop. rewrite append_new_present by done. apply IH; [lia|done].
    + destruct (_ >=? _); [done|]. bprop. rewrite append_new_fresh by done. apply IH; [lia|done].
  - rewrite decide_False by done. apply IH; [lia|done].
Qed.
End stored_tokens.

(** ** Specification of the selection

    The candidates a rule contributes, independent of the running result:
    whether the match is admitted, the displayed rule, the map entry, the kind
    of match and its score. *)

Record candidate := Candidate {
  candManaged : bool;
  candAdmitted : bool;
  candRule : text;
  candKey : text;
  candValue : text;
  candType : text;
  candScore : Z;
}.

#[export] Instance candidate_eq_dec : EqDecision candidate.
Proof. solve_decision. Defined.

Definition candMatch (c : candidate) : RuleMatch :=
  Match true (if candManaged c then lit "managed" else lit "local")
    (bounded (candRule c) maximumRuleOutputLength) (candKey c)
    (bounded (candValue c) maximumMatchedValueLength) (candType c)
    (if candAdmitted c then [] else rejectionReason (candManaged c))
    (tsize (candValue c) >? maximumMatchedValueLength) (candScore c).

(** The first candidate of maximal score. *)
Definition isFirstBest (l : list candidate) (m : RuleMatch) : Prop :=
  (l = [] ∧ m = noMatch)
  ∨ ∃ l1 c l2, l = l1 ++ c :: l2 ∧ m = candMatch c
      ∧ Forall (λ d, candScore d < candScore c) l1 ∧ Forall (λ d, candScore d <= candScore c) l2.

Definition considerCandidate (best : RuleMatch) (c : candidate) : RuleMatch :=
  considerMatch best (if candManaged c then lit "managed" else lit "local") (candRule c) (candKey c)
    (candValue c) (candType c) (candScore c) (if candAdmitted c then [] else rejectionReason (candManaged c)).

(** When local candidates come before managed ones, a candidate replaces the
    best exactly when its score is higher. *)
Lemma considerCandidate_first_best l m c :
  isFirstBest l m → (candManaged c = true ∨ Forall (λ d, candManaged d = false) l) →
  isFirstBest (l ++ [c]) (considerCandidate m c).
Proof.
  intros [[-> ->]|(l1 & b & l2 & -> & -> & H1 & H2)] Hm; unfold considerCandidate, considerMatch.
  { right. exists [], c, []. split_and!; [done| |constructor..]. reflexivity. }
  cbn [matched negb candMatch score matchSource].
  assert ((candScore c =? candScore b) && text_eqb (if candManaged c then lit "managed" else lit "local") (lit "local")
          && negb (text_eqb (if candManaged b then lit "managed" else lit "local") (lit "local")) = false) as ->.
  { destruct Hm as [->|Hm]; [by rewrite andb_false_r|].
    rewrite Forall_app, Forall_cons in Hm. destruct Hm as (_ & -> & _).
    by rewrite (andb_false_r (_ && _)). }
  rewrite orb_false_r, orb_false_l, Z.gtb_ltb. destruct (candScore b <? candScore c) eqn:E; bprop; right.
  - exists (l1 ++ b :: l2), c, []. split_and!; [done|reflexivity| |constructor].
    rewrite Forall_app, Forall_cons. split_and!; [|done|]; eapply Forall_impl; eauto; simpl; lia.
  - exists l1, b, (l2 ++ [c]). rewrite <-app_assoc. split_and!; [done..|].
    rewrite Forall_app, Forall_singleton. done.
Qed.

Lemma foldl_first_best l k m :
  isFirstBest l m →
  (∀ k1 c k2, k = k1 ++ c :: k2 → candManaged c = true ∨ Forall (λ d, candManaged d = false) (l ++ k1)) →
  isFirstBest (l ++ k) (foldl considerCandidate m k).
Proof.
  revert l m. induction k as [|c k IH]; intros l m Hb Hk; simpl.
  { by rewrite app_nil_r. }
  replace (l ++ c :: k) with ((l ++ [c]) ++ k) by (by rewrite <-app_assoc).
  apply IH.
  - apply considerCandidate_first_best; [done|]. specialize (Hk [] c k eq_refl). by rewrite app_nil_r in Hk.
  - intros k1 d k2 ->. specialize (Hk (c :: k1) d k2 eq_refl). by rewrite <-app_assoc.
Qed.

Section selection.
Context `{QT : QtText} `{QN : QtNet}.
Context (host : text) (address : qhost) (dmp : DomainMatchPolicy).

Definition keyCandidates (tm : bool) (key value : text) : list candidate :=
  let rawRule := trimmed key in
  let '(hit, bits) := if isIpv4HostOrCidr rawRule then addressMatchesRoute address rawRule (-1)
                      else (false, -1) in
  if hit then
    [Candidate tm (routeAdmitted tm rawRule) (privacySafeRule rawRule) key value (lit "address")
       (addressScoreBase + bits)]
  else
    let d := normalizedDomainRule rawRule in
    let policyOnly := match dmp with PolicyOnly => true | RequireResolvedIpv4 => false end in
    if negb (is_empty d) && text_eqb host d && (policyOnly || host_isV4 address) then
      [Candidate tm (policyOnly || routeAdmitted tm (host_toString address)) d key value (lit "domain")
         (domainScoreBase + tsize d)]
    else [].

Definition storedCandidate (tm : bool) (key value route : text) : list candidate :=
  let '(hit, bits) := addressMatchesRoute address route (-1) in
  if hit then
    [Candidate tm (routeAdmitted tm route) (privacySafeRule (trimmed key)) key value
       (lit "resolvedAddress") (resolvedAddressScoreBase + bits)]
  else [].

Definition ruleCandidates (tm : bool) (entry : text * text) : list candidate :=
  let '(key, value) := entry in
  if (tsize key >? maximumInputLength) || is_empty (trimmed key) then []
  else keyCandidates tm key value
       ++ flat_map (storedCandidate tm key value) (storedRouteTokens value).1.

(** What one candidate does to the running result. *)
Definition applyCandidate (r : MatchResult) (c : candidate) : MatchResult :=
  considerRoute (candManaged c) (candAdmitted c) r (candRule c) (candKey c) (candValue c) (candType c)
    (candScore c).

(** A hit fixes the reported prefix length, whatever it was before. *)
Lemma addressMatchesRoute_prefix route p q :
  (addressMatchesRoute address route p).1 = (addressMatchesRoute address route q).1
  ∧ ((addressMatchesRoute address route p).1 = true →
     addressMatchesRoute address route p = addressMatchesRoute address route q).
Proof.
  unfold addressMatchesRoute. destruct (host_isNull address); [done|].
  destruct (_ && _); [done|]. destruct (host_parseSubnet _) as [subnet bits].
  by destruct ((bits <? 0) || _).
Qed.

Lemma inspectStored_spec tm key value rs p r :
  inspectStored tm address key value (trimmed key) rs p r
  = foldl applyCandidate r (flat_map (storedCandidate tm key value) rs).
Proof.
  revert p r. induction rs as [|t rs IH]; intros p r; cbn [inspectStored flat_map]; [done|].
  destruct (addressMatchesRoute_prefix t p (-1)) as [H1 H2].
  unfold storedCandidate at 1.
  destruct (addressMatchesRoute address t p) as [hit bits] eqn:E. cbn [fst] in *. destruct hit.
  - rewrite <-(H2 eq_refl). rewrite IH. done.
  - destruct (addressMatchesRoute address t (-1)) as [hit' bits']. cbn [fst] in H1. subst hit'. by rewrite IH.
Qed.

Lemma inspectDomain_spec tm key value rawRule r :
  inspectDomain tm host address dmp key value rawRule r
  = let d := normalizedDomainRule rawRule in
    let policyOnly := match dmp with PolicyOnly => true | RequireResolvedIpv4 => false end in
    if negb (is_empty d) && text_eqb host d && (policyOnly || host_isV4 address) then
      considerRoute tm (policyOnly || routeAdmitted tm (host_toString address)) r d key value
        (lit "domain") (domainScoreBase + tsize d)
    else r.
Proof.
  unfold inspectDomain. cbv zeta. destruct (negb _), (text_eqb _ _), dmp, (host_isV4 address); done.
Qed.

(** The matches kept by a result. *)
Definition slots (r : MatchResult) : RuleMatch * RuleMatch := (accepted r, rejected r).

Lemma slots_applyCandidate r r' c : slots r = slots r' → slots (applyCandidate r c) = slots (applyCandidate r' c).
Proof.
  unfold slots, applyCandidate, considerRoute. intros E.
  destruct (candAdmitted c); simpl; congruence.
Qed.

Lemma slots_foldl cs r r' :
  slots r = slots r' → slots (foldl applyCandidate r cs) = slots (foldl applyCandidate r' cs).
Proof. revert r r'. induction cs; simpl; eauto using slots_applyCandidate. Qed.

Lemma inspectRule_spec tm r entry :
  slots (inspectRule tm host address dmp r entry)
  = slots (foldl applyCandidate r (ruleCandidates tm entry)).
Proof.
  destruct entry as [key value]. unfold inspectRule, ruleCandidates.
  assert (slots (countInspected tm r) = slots r) as Hc by (by destruct tm).
  destruct (tsize key >? _); [exact Hc|]. cbn [orb].
  destruct (is_empty (trimmed key)); [exact Hc|]. unfold keyCandidates. cbv zeta.
  destruct (if isIpv4HostOrCidr (trimmed key) then _ else _) as [hit bits].
  destruct (storedRouteTokens value) as [rs complete]. rewrite inspectStored_spec, foldl_app.
  apply slots_foldl. rewrite inspectDomain_spec. cbv zeta.
  assert (∀ x, slots (if complete then x else markStoredTruncated x) = slots x) as Hm by (by destruct complete).
  rewrite Hm. destruct hit; [by apply (slots_applyCandidate _ _ (Candidate _ _ _ _ _ _ _))|].
  destruct (_ && _); [by apply (slots_applyCandidate _ _ (Candidate _ _ _ _ _ _ _))|done].
Qed.

Lemma inspectLoop_spec tm n rules r :
  0 <= n <= maximumRules tm →
  slots (inspectLoop tm host address dmp n rules r)
  = slots (foldl applyCandidate r
      (flat_map (ruleCandidates tm) (take (Z.to_nat (maximumRules tm - n)) rules))).
Proof.
  revert n r. induction rules as [|e rules IH]; intros n r Hn; simpl.
  { by rewrite take_nil. }
  rewrite Z.geb_leb. destruct (maximumRules tm <=? n) eqn:E; bprop.
  { replace (maximumRules tm - n) with 0 by lia. done. }
  rewrite IH by lia. replace (Z.to_nat (maximumRules tm - n))
    with (S (Z.to_nat (maximumRules tm - (n + 1)))) by lia.
  simpl. rewrite foldl_app. apply slots_foldl, inspectRule_spec.
Qed.

(** All candidates of a lookup, the local rules first. *)
Definition sourceCandidates (tm : bool) (rules : list (text * text)) : list candidate :=
  flat_map (ruleCandidates tm) (take (Z.to_nat (maximumRules tm)) rules).

Lemma maximumRules_pos tm : 0 <= maximumRules tm.
Proof. by destruct tm. Qed.

Lemma inspectRules_spec tm rules r :
  slots (inspectRules rules tm host address dmp r)
  = slots (foldl applyCandidate r (sourceCandidates tm rules)).
Proof.
  unfold inspectRules. cbv zeta. rewrite inspectLoop_spec by (pose proof (maximumRules_pos tm); lia).
  rewrite Z.sub_0_r. by apply slots_foldl.
Qed.

Lemma ruleCandidates_source tm entry c : c ∈ ruleCandidates tm entry → candManaged c = tm.
Proof.
  destruct entry as [key value]. unfold ruleCandidates. destruct (_ || _); [by intros ?%not_elem_of_nil|].
  rewrite elem_of_app. intros [Hc|Hc].
  - unfold keyCandidates in Hc. cbv zeta in Hc. repeat case_match;
      try (by apply not_elem_of_nil in Hc); by apply list_elem_of_singleton in Hc as ->.
  - apply list_elem_of_In, in_flat_map in Hc as (t & _ & Hc). apply list_elem_of_In in Hc.
    unfold storedCandidate in Hc. repeat case_match;
      try (by apply not_elem_of_nil in Hc); by apply list_elem_of_singleton in Hc as ->.
Qed.

Lemma sourceCandidates_source tm rules c : c ∈ sourceCandidates tm rules → candManaged c = tm.
Proof.
  unfold sourceCandidates. rewrite list_elem_of_In, in_flat_map. intros (e & _ & Hc).
  by eapply ruleCandidates_source, list_elem_of_In.
Qed.

(** The two slots are independent folds over the admitted and the refused
    candidates. *)
Lemma foldl_slots cs r :
  slots (foldl applyCandidate r cs)
  = (foldl considerCandidate (accepted r) (filter (λ c, candAdmitted c = true) cs),
     foldl considerCandidate (rejected r) (filter (λ c, ¬ candAdmitted c = true) cs)).
Proof.
  revert r. induction cs as [|c cs IH]; intros r; cbn [foldl]; [done|].
  rewrite IH, !filter_cons. unfold applyCandidate, considerRoute.
  assert (∀ m, considerCandidate m c = considerMatch m (if candManaged c then lit "managed" else lit "local")
    (candRule c) (candKey c) (candValue c) (candType c) (candScore c)
    (if candAdmitted c then [] else rejectionReason (candManaged c))) as Hc by done.
  destruct (candAdmitted c); repeat case_decide; try done; cbn [foldl]; by rewrite Hc.
Qed.
End selection.

(** The host the rules are compared with. *)
Definition matchHost `{QtText} `{QtNet} (host : text) : text :=
  let normalized := normalizeTargetImpl host BareHostOrAddress in
  if is_empty (targetError normalized) && host_isNull (literalAddress normalized)
  then targetHost normalized else [].

Section match_facts.
Context `{QT : QtText} `{QN : QtNet}.

Definition allCandidates (localRules managedRules : list (text * text)) (host : text)
    (address : qhost) (dmp : DomainMatchPolicy) : list candidate :=
  sourceCandidates (matchHost host) address dmp false localRules
  ++ sourceCandidates (matchHost host) address dmp true managedRules.

Lemma matchRules_slots l m host address dmp :
  slots (matchRules l m host address dmp)
  = slots (foldl applyCandidate emptyResult (allCandidates l m host address dmp)).
Proof.
  unfold matchRules. fold (matchHost host). rewrite inspectRules_spec. unfold allCandidates.
  rewrite foldl_app. apply slots_foldl, inspectRules_spec.
Qed.

(** Local candidates come first, also after filtering. *)
Lemma allCandidates_order (P : candidate → Prop) `{!∀ c, Decision (P c)} l m host address dmp k1 c k2 :
  filter P (allCandidates l m host address dmp) = k1 ++ c :: k2 →
  candManaged c = true ∨ Forall (λ d, candManaged d = false) k1.
Proof.
  unfold allCandidates. rewrite filter_app. intros E.
  assert (∀ tm rs d, d ∈ filter P (sourceCandidates (matchHost host) address dmp tm rs) → candManaged d = tm)
    as Hs.
  { intros tm rs d Hd. apply list_elem_of_filter in Hd as [_ Hd]. by eapply sourceCandidates_source. }
  apply app_eq_inv in E as [(k & E & _)|(k & _ & E')].
  - right. apply Forall_forall. intros d Hd. apply (Hs false l). rewrite E. set_solver.
  - left. apply (Hs true m). rewrite E'. set_solver.
Qed.

Lemma foldl_candidates_first_best (P : candidate → Prop) `{!∀ c, Decision (P c)} l m host address dmp :
  let cs := filter P (allCandidates l m host address dmp) in
  isFirstBest cs (foldl considerCandidate noMatch cs).
Proof.
  intros cs. apply (foldl_first_best []); [by left|].
  intros k1 c k2 E. by eapply allCandidates_order.
Qed.

Lemma matchRules_accepted l m host address dmp :
  accepted (matchRules l m host address dmp)
  = foldl considerCandidate noMatch (filter (λ c, candAdmitted c = true) (allCandidates l m host address dmp)).
Proof.
  pose proof (matchRules_slots l m host address dmp) as E. rewrite foldl_slots in E.
  by apply (f_equal fst) in E.
Qed.

Lemma matchRules_rejected l m host address dmp :
  rejected (matchRules l m host address dmp)
  = foldl considerCandidate noMatch (filter (λ c, ¬ candAdmitted c = true) (allCandidates l m host address dmp)).
Proof.
  pose proof (matchRules_slots l m host address dmp) as E. rewrite foldl_slots in E.
  by apply (f_equal snd) in E.
Qed.

(** ** Coverage *)

(** What the scan of one source leaves unread. *)
Definition entryCovered (entry : text * text) : bool :=
  (tsize entry.1 <=? maximumInputLength)
  && (is_empty (trimmed entry.1) || (storedRouteTokens entry.2).2).

Definition sourceCovered (tm : bool) (rules : list (text * text)) : bool :=
  (Z.of_nat (length rules) <=? maximumRules tm) && forallb entryCovered rules.

Lemma considerRoute_complete tm a r rt k v t s :
  coverageComplete (considerRoute tm a r rt k v t s) = coverageComplete r.
Proof. by destruct a. Qed.

Lemma inspectStored_complete tm address k v rr rs p r :
  coverageComplete (inspectStored tm address k v rr rs p r) = coverageComplete r.
Proof.
  revert p r. induction rs as [|t rs IH]; intros p r; simpl; [done|].
  destruct (addressMatchesRoute address t p) as [[] q]; rewrite IH; [apply considerRoute_complete|done].
Qed.

Lemma inspectRule_complete tm host address dmp r entry :
  coverageComplete (inspectRule tm host address dmp r entry)
  = coverageComplete r && entryCovered entry.
Proof.
  destruct entry as [key value]. unfold inspectRule, entryCovered. cbn [fst snd].
  assert (coverageComplete (countInspected tm r) = coverageComplete r) as Hc by (by destruct tm).
  rewrite Z.gtb_ltb, Z.ltb_antisym. destruct (tsize key <=? _); cbn [negb]; [|by rewrite andb_false_r].
  destruct (is_empty (trimmed key)); [by rewrite Hc, andb_true_r|]. cbv zeta.
  destruct (if isIpv4HostOrCidr (trimmed key) then _ else _) as [hit bits].
  destruct (storedRouteTokens value) as [rs complete]. rewrite inspectStored_complete. cbn [snd].
  assert (∀ b x, coverageComplete (if b : bool then x else markStoredTruncated x) = coverageComplete x && b) as ->.
  { intros [] x; by rewrite ?andb_true_r, ?andb_false_r. }
  rewrite andb_true_l, orb_false_l. f_equal. destruct hit; [by rewrite considerRoute_complete|].
  rewrite inspectDomain_spec. cbv zeta. destruct (_ && _); by rewrite ?considerRoute_complete.
Qed.

Lemma inspectLoop_complete tm host address dmp n rules r :
  n + Z.of_nat (length rules) <= maximumRules tm →
  coverageComplete (inspectLoop tm host address dmp n rules r)
  = coverageComplete r && forallb entryCovered rules.
Proof.
  revert n r. induction rules as [|e rules IH]; intros n r Hn; simpl; [by rewrite andb_true_r|].
  simpl in Hn. rewrite Z.geb_leb, (proj2 (Z.leb_gt _ _)) by lia.
  rewrite IH by lia. by rewrite inspectRule_complete, andb_assoc.
Qed.

Lemma inspectLoop_incomplete tm host address dmp n rules r :
  coverageComplete r = false → coverageComplete (inspectLoop tm host address dmp n rules r) = false.
Proof.
  revert n r. induction rules as [|e rules IH]; intros n r Hr; simpl; [done|].
  destruct (_ >=? _); [done|]. apply IH. by rewrite inspectRule_complete, Hr.
Qed.

Lemma inspectRules_complete tm host address dmp rules r :
  coverageComplete (inspectRules rules tm host address dmp r) = coverageComplete r && sourceCovered tm rules.
Proof.
  unfold inspectRules, sourceCovered. cbv zeta. rewrite Z.gtb_ltb, Z.ltb_antisym, negb_involutive.
  destruct (Z.of_nat (length rules) <=? maximumRules tm) eqn:E; bprop.
  - rewrite inspectLoop_complete by lia. cbn [coverageComplete]. by rewrite andb_true_r.
  - rewrite inspectLoop_incomplete by (cbn [coverageComplete]; apply andb_false_r).
    by rewrite andb_false_l, andb_false_r.
Qed.
End match_facts.

(** ** Client routes *)

Section client_routes.
Context `{QT : QtText} `{QN : QtNet}.
Context `{!QtNetLaws QN}.

Lemma parseIpv4Route_sound route a p :
  parseIpv4Route route = Some (a, p) → is_u32 a ∧ prefix_ok p.
Proof.
  unfold parseIpv4Route, prefix_ok. cbv zeta. intros E.
  destruct (_ || _); [done|]. destruct (host_parse (part_at 0 _)) as [|b|] eqn:Hp; try done.
  apply host_parse_u32 in Hp. simpl in E. destruct (_ =? _)%nat; [simplify_eq; split; [done|lia]|].
  destruct (q_toInt _) as [q|]; [|done]. destruct ((0 <=? q) && (q <=? 32)) eqn:G; [|done].
  simplify_eq. bprop. split; [done|lia].
Qed.

(** Addresses a client route may not cover. *)
Definition client_forbidden (x : Z) : Prop :=
  in_net 0xa9fe0000 16 x ∨ ∃ b q, (b, q) ∈ clientForbiddenRanges ∧ in_net b q x.

Definition local_or_service (x : Z) : Prop :=
  ∃ b q, (b, q) ∈ localOrServiceRanges ∧ in_net b q x.

Lemma clientRanges_wf :
  Forall (λ '(b, q), is_u32 b ∧ prefix_ok q) (clientForbiddenRanges ++ localOrServiceRanges).
Proof. repeat constructor; unfold is_u32, prefix_ok; simpl; lia. Qed.

Lemma clientRange_wf b q :
  (b, q) ∈ clientForbiddenRanges ∨ (b, q) ∈ localOrServiceRanges → is_u32 b ∧ prefix_ok q.
Proof.
  intros Hin. pose proof clientRanges_wf as Hwf. rewrite Forall_forall in Hwf.
  apply (Hwf (b, q)). by rewrite elem_of_app.
Qed.

Lemma inRange_spec a b q :
  is_u32 a → is_u32 b → prefix_ok q →
  (Z.land a (ipv4Mask q) =? Z.land b (ipv4Mask q)) = true ↔ in_net b q a.
Proof.
  intros Ha Hb Hq. rewrite Z.eqb_eq, !land_mask by done. unfold in_net.
  destruct (block_bounds q Hq) as [Hp _]. split; [|by intros [_ ->]].
  intros E. split; [done|]. by apply Z.mul_reg_r in E; [|lia].
Qed.

Lemma localOrService_spec a :
  is_u32 a →
  existsb (λ '(b, q), Z.land a (ipv4Mask q) =? Z.land b (ipv4Mask q)) localOrServiceRanges = true
  ↔ local_or_service a.
Proof.
  intros Ha. rewrite existsb_true_iff. unfold local_or_service. split.
  - intros ([b q] & Hin & E). exists b, q. destruct (clientRange_wf b q) as [Hb Hq]; [by right|].
    split; [done|]. by apply inRange_spec.
  - intros (b & q & Hin & E). exists (b, q). destruct (clientRange_wf b q) as [Hb Hq]; [by right|].
    split; [done|]. by apply inRange_spec.
Qed.

Lemma clientForbidden_spec a p :
  is_u32 a → prefix_ok p →
  existsb (λ '(b, q), routeOverlapsIpv4Range a p b q) clientForbiddenRanges = true
  ↔ ∃ x b q, in_net a p x ∧ (b, q) ∈ clientForbiddenRanges ∧ in_net b q x.
Proof.
  intros Ha Hp. rewrite existsb_true_iff. split.
  - intros ([b q] & Hin & E). destruct (clientRange_wf b q) as [Hb Hq]; [by left|].
    apply overlaps_spec in E as (x & H1 & H2); [|done..]. by exists x, b, q.
  - intros (x & b & q & H1 & Hin & H2). exists (b, q). split; [done|].
    destruct (clientRange_wf b q) as [Hb Hq]; [by left|]. apply overlaps_spec; eauto.
Qed.

(** The library's classifiers add only the link-local block to the list. *)
Lemma classified_client_forbidden a :
  is_u32 a →
  host_isLoopback (HV4 a) || host_isBroadcast (HV4 a) || host_isLinkLocal (HV4 a)
    || host_isMulticast (HV4 a) = true →
  client_forbidden a.
Proof.
  intros Ha Hc. destruct (host_special_v4 a Ha) as [E|[E|[E|E]]].
  { bprop. repeat match goal with H : _ ∨ _ |- _ => destruct H; bprop end; auto. }
  all: unfold client_forbidden.
  - right. exists 0x7f000000, 8. split; [set_solver|]. split; [done|]. exact E.
  - right. exists 0xf0000000, 4. split; [set_solver|]. split; [done|]. rewrite E. reflexivity.
  - left. split; [done|]. exact E.
  - right. exists 0xe0000000, 4. split; [set_solver|]. split; [done|]. exact E.
Qed.

(** A network of at least 16 bits meets 169.254/16 only from inside. *)
Lemma linklocal_base a p x :
  is_u32 a → prefix_ok p → 16 <= p → in_net a p x → in_net 0xa9fe0000 16 x → in_net 0xa9fe0000 16 a.
Proof.
  intros Ha Hp H16 Hx Hl.
  assert (∀ y, in_net x p y → in_net x 16 y) as Hw.
  { apply within_spec; [done|unfold prefix_ok; lia|apply Hx..|]. unfold ipv4RouteIsWithinRange.
    rewrite (proj2 (Z.ltb_ge p 16)) by done. apply Z.eqb_refl. }
  destruct (Hw a) as [_ E]; [split; [done|]; symmetry; apply Hx|].
  split; [done|]. rewrite E. apply Hl.
Qed.

Lemma routable_parsed route a p :
  parseIpv4Route route = Some (a, p) →
  isRoutableClientRoute route = true ↔
  16 <= p ∧ a mod 2 ^ (32 - p) = 0 ∧ (∀ x, in_net a p x → ¬ client_forbidden x)
  ∧ (local_or_service a → 24 <= p).
Proof.
  intros E. destruct (parseIpv4Route_sound _ _ _ E) as [Ha Hp]. unfold isRoutableClientRoute. rewrite E.
  destruct (p =? 0) eqn:E0; bprop; [split; [done|lia]|]. cbv zeta.
  assert ((p <? 32) && negb (Z.land a (ipv4Mask p) =? a) = true ↔ a mod 2 ^ (32 - p) ≠ 0) as Hcan.
  { rewrite andb_true_iff, Z.ltb_lt, negb_true_iff, <-not_true_iff_false, land_mask_id by done.
    split; [naive_solver|]. intros Hm. split; [|done]. destruct (decide (p = 32)) as [->|]; [|unfold prefix_ok in Hp; lia].
    change (2 ^ (32 - 32)) with 1 in Hm. by rewrite Z.mod_1_r in Hm. }
  destruct ((p <? 32) && _) eqn:Hc; [naive_solver|].
  assert (a mod 2 ^ (32 - p) = 0) as Hm.
  { destruct (decide (a mod 2 ^ (32 - p) = 0)) as [|n]; [done|]. apply Hcan in n. congruence. }
  simpl host_isNull. rewrite orb_false_l.
  destruct (_ || host_isMulticast (HV4 a)) eqn:Hs.
  { split; [done|]. intros (_ & _ & Hn & _). exfalso. apply (Hn a); [by apply in_net_self|].
    by apply classified_client_forbidden. }
  pose proof (clientForbidden_spec a p Ha Hp) as Hf. destruct (existsb _ clientForbiddenRanges).
  { destruct (proj1 Hf eq_refl) as (x & b & q & H1 & H2 & H3). split; [done|]. intros (_ & _ & Hn & _).
    exfalso. apply (Hn x); [done|]. right. eauto. }
  assert (¬ in_net 0xa9fe0000 16 a) as Hll.
  { intros [_ Hll]. rewrite (host_isLinkLocal_v4 a Ha) in Hs by exact Hll. by rewrite orb_true_r in Hs. }
  pose proof (localOrService_spec a Ha) as Hlo. rewrite Z.geb_leb.
  assert (16 <= p → ∀ x, in_net a p x → ¬ client_forbidden x) as Hsafe.
  { intros H16 x Hx [Hl|(b & q & Hin & Hb)].
    - by eapply Hll, linklocal_base.
    - assert (false = true) by (apply Hf; by exists x, b, q). done. }
  destruct (existsb _ localOrServiceRanges); rewrite Z.leb_le;
    unfold minimumLocalBypassPrefixLength, minimumPublicBypassPrefixLength.
  - split; [|intros (_ & _ & _ & Hl); apply Hl, Hlo; done].
    intros H24. split_and!; [lia|done|apply Hsafe; lia|done].
  - split; [|naive_solver]. intros H16. split_and!; [done..|by apply Hsafe|].
    intros Hl%Hlo. done.
Qed.
End client_routes.

(** ** Where candidates come from *)

Section origins.
Context `{QT : QtText} `{QN : QtNet}.

(** Why a rule of the map is a candidate for the host or address. *)
Definition justifies (host : text) (address : qhost) (dmp : DomainMatchPolicy) (tm : bool)
    (key value : text) (m : RuleMatch) : Prop :=
  configuredRule m = key
  ∧ matchSource m = (if tm then lit "managed" else lit "local")
  ∧ ((matchType m = lit "domain" ∧ host ≠ [] ∧ normalizedDomainRule (trimmed key) = host
      ∧ score m = domainScoreBase + tsize host
      ∧ (dmp = PolicyOnly ∨ host_isV4 address = true ∧ routeAdmitted tm (host_toString address) = true))
     ∨ (∃ bits, matchType m = lit "address"
        ∧ addressMatchesRoute address (trimmed key) (-1) = (true, bits)
        ∧ isIpv4HostOrCidr (trimmed key) = true
        ∧ score m = addressScoreBase + bits ∧ routeAdmitted tm (trimmed key) = true)
     ∨ (∃ bits route, matchType m = lit "resolvedAddress"
        ∧ route ∈ (storedRouteTokens value).1 ∧ addressMatchesRoute address route (-1) = (true, bits)
        ∧ score m = resolvedAddressScoreBase + bits ∧ routeAdmitted tm route = true)).

Lemma keyCandidates_justified host address dmp tm key value c :
  c ∈ keyCandidates host address dmp tm key value → candAdmitted c = true →
  justifies host address dmp tm key value (candMatch c).
Proof.
  unfold keyCandidates, justifies. cbv zeta. intros Hc Ha.
  destruct (if isIpv4HostOrCidr (trimmed key) then _ else _) as [[] bits] eqn:Hm.
  - destruct (isIpv4HostOrCidr (trimmed key)); [|done].
    apply list_elem_of_singleton in Hc as ->. split_and!; [done..|]. right; left. by exists bits.
  - destruct (negb _ && _ && _) eqn:G; [|by apply not_elem_of_nil in Hc].
    apply andb_true_iff in G as [[G1 G2]%andb_true_iff G3].
    apply list_elem_of_singleton in Hc as ->. apply negb_true_iff, is_empty_false in G1.
    apply text_eqb_eq in G2 as ->. split_and!; [done..|]. left. split_and!; [done..|].
    destruct dmp; [|by left]. by right.
Qed.

Lemma ruleCandidates_justified host address dmp tm key value c :
  c ∈ ruleCandidates host address dmp tm (key, value) → candAdmitted c = true →
  justifies host address dmp tm key value (candMatch c).
Proof.
  unfold ruleCandidates. destruct (_ || _); [by intros ?%not_elem_of_nil|].
  rewrite elem_of_app. intros [Hc|Hc] Ha; [by apply keyCandidates_justified|].
  apply list_elem_of_In, in_flat_map in Hc as (t & Ht & Hc). apply list_elem_of_In in Hc, Ht.
  unfold storedCandidate in Hc. destruct (addressMatchesRoute address t (-1)) as [[] bits] eqn:Hm;
    [|by apply not_elem_of_nil in Hc].
  apply list_elem_of_singleton in Hc as ->. unfold justifies. split_and!; [done..|].
  right; right. by exists bits, t.
Qed.

Lemma sourceCandidates_justified host address dmp tm rules c :
  c ∈ sourceCandidates host address dmp tm rules → candAdmitted c = true →
  ∃ key value, (key, value) ∈ take (Z.to_nat (maximumRules tm)) rules
    ∧ justifies host address dmp tm key value (candMatch c).
Proof.
  unfold sourceCandidates. rewrite list_elem_of_In, in_flat_map. intros ([key value] & Hin & Hc) Ha.
  exists key, value. rewrite list_elem_of_In. split; [done|].
  apply ruleCandidates_justified; [by apply list_elem_of_In|done].
Qed.

Lemma allCandidates_justified l m host address dmp c :
  c ∈ allCandidates l m host address dmp → candAdmitted c = true →
  ∃ tm key value, (key, value) ∈ take (Z.to_nat (maximumRules tm)) (if tm : bool then m else l)
    ∧ justifies (matchHost host) address dmp tm key value (candMatch c).
Proof.
  unfold allCandidates. rewrite elem_of_app.
  intros [Hc|Hc] Ha; apply sourceCandidates_justified in Hc as (k & v & H1 & H2); [|done| |done].
  - by exists false, k, v.
  - by exists true, k, v.
Qed.

Lemma matchRules_first_best l m host address dmp :
  isFirstBest (filter (λ c, candAdmitted c = true) (allCandidates l m host address dmp))
    (accepted (matchRules l m host address dmp))
  ∧ isFirstBest (filter (λ c, ¬ candAdmitted c = true) (allCandidates l m host address dmp))
    (rejected (matchRules l m host address dmp)).
Proof.
  rewrite matchRules_accepted, matchRules_rejected.
  split; apply (foldl_candidates_first_best _ l m host address dmp).
Qed.

(** The accepted match is the best of the admitted candidates. *)
Lemma accepted_cases l m host address dmp :
  let cs := filter (λ c, candAdmitted c = true) (allCandidates l m host address dmp) in
  (cs = [] ∧ accepted (matchRules l m host address dmp) = noMatch)
  ∨ ∃ c, c ∈ cs ∧ accepted (matchRules l m host address dmp) = candMatch c
         ∧ ∀ d, d ∈ cs → candScore d <= candScore c.
Proof.
  intros cs. destruct (matchRules_first_best l m host address dmp) as [[|(l1 & c & l2 & E & Em & H1 & H2)] _];
    [by left|]. right. exists c. subst cs. rewrite E.
  split_and!; [set_solver|done|]. intros d. rewrite Forall_forall in H1, H2.
  rewrite elem_of_app, elem_of_cons. intros [Hd|[->|Hd]]; [apply H1 in Hd; lia|lia|by apply H2].
Qed.
End origins.

(** ** Score bands *)

Section bands.
Context `{QT : QtText} `{QN : QtNet} `{!QtNetLaws QN}.

(** Exact domains, then address rules, then addresses resolved earlier. *)
Definition typeRank (t : text) : Z :=
  if text_eqb t (lit "domain") then 2 else if text_eqb t (lit "address") then 1 else 0.

Lemma hit_prefix a route p bits :
  addressMatchesRoute (HV4 a) route p = (true, bits) → 0 <= bits <= 32.
Proof.
  unfold addressMatchesRoute. cbn [host_isNull]. cbv zeta.
  destruct (_ && _).
  - intros [= E <-]. apply bool_decide_eq_true in E as <-. simpl. lia.
  - destruct (host_parseSubnet _) as [subnet q] eqn:E. destruct (_ || _) eqn:G; [done|].
    intros [= _ <-]. bprop. destruct subnet; try done. apply host_parseSubnet_v4 in E. lia.
Qed.

Lemma justified_band host a dmp tm key value m :
  justifies host (HV4 a) dmp tm key value m →
  (typeRank (matchType m) = 2 ∧ 10032 < score m)
  ∨ (typeRank (matchType m) = 1 ∧ 8000 <= score m <= 8032)
  ∨ (typeRank (matchType m) = 0 ∧ 7000 <= score m <= 7032).
Proof.
  unfold domainScoreBase, addressScoreBase, resolvedAddressScoreBase, justifies.
  intros (_ & _ & [(-> & Hh & _ & -> & _)|[(b & -> & Hb & _ & -> & _)|(b & r & -> & _ & Hb & -> & _)]]).
  - left. split; [done|]. unfold tsize, domainScoreBase. destruct host; [done|]. simpl. lia.
  - apply hit_prefix in Hb. right; left. split; [done|]. unfold addressScoreBase. lia.
  - apply hit_prefix in Hb. right; right. split; [done|]. unfold resolvedAddressScoreBase. lia.
Qed.
End bands.

(** ** Targets *)

Section targets.
Context `{QT : QtText} `{QN : QtNet}.

Definition target_error_ok (t : NormalizedTarget) : Prop :=
  (targetError t = lit "host_required" ∨ targetError t = lit "invalid_host"
   ∨ targetError t = lit "scoped_ipv6_not_supported")
  ∧ targetHost t = [] ∧ literalAddress t = HNull.

Definition target_literal_ok (t : NormalizedTarget) : Prop :=
  targetError t = [] ∧ literalAddress t ≠ HNull ∧ host_scopeId (literalAddress t) = []
  ∧ targetHost t = q_toLower (host_toString (literalAddress t)).

Definition target_name_ok (t : NormalizedTarget) : Prop :=
  targetError t = [] ∧ literalAddress t = HNull
  ∧ targetHost t ≠ [] ∧ tsize (targetHost t) <= 253
  ∧ Forall (λ label, tsize label <= 63 ∧ labelExpression label = true) (split_char 46 (targetHost t)).

Definition target_ok (t : NormalizedTarget) : Prop :=
  target_error_ok t ∨ target_literal_ok t ∨ target_name_ok t.

Lemma literalTarget_ok h : host_isNull h = false → target_ok (literalTarget h).
Proof.
  intros Hn. unfold literalTarget, target_ok, target_error_ok, target_literal_ok.
  destruct (host_scopeId h) eqn:E; simpl; [right; left|left]; split_and!; auto.
  by destruct h.
Qed.

Lemma isValidAceHostname_spec host :
  isValidAceHostname host = true →
  host ≠ [] ∧ tsize host <= 253
  ∧ Forall (λ label, tsize label <= 63 ∧ labelExpression label = true) (split_char 46 host).
Proof.
  unfold isValidAceHostname, maximumHostLength. destruct (_ || _) eqn:G; [done|]. bprop.
  rewrite forallb_true_iff. intros Hl. apply is_empty_false in H.
  split_and!; [done|done|]. eapply Forall_impl; [exact Hl|]. simpl. intros w Hw. by bprop.
Qed.

Lemma normalizeTarget_ok input policy : target_ok (normalizeTarget input policy).
Proof.
  assert (∀ e, lit e = lit "host_required" ∨ lit e = lit "invalid_host" → target_ok (errorTarget e)) as He.
  { intros e He. left. unfold target_error_ok. simpl. tauto. }
  unfold normalizeTarget, normalizeTargetImpl. cbv zeta.
  set (b := match policy with BareHostOrAddress => true | HostOrUrl => false end).
  set (s := if b then input else trimmed input).
  destruct (is_empty s); [apply He; auto|]. destruct (_ || _); [apply He; auto|].
  set (c := if _ && _ then _ else s). destruct (host_isNull (host_parse c)) eqn:E1; simpl;
    [|by apply literalTarget_ok].
  destruct (targetHostname b s) as [h|]; [|apply He; auto].
  destruct (host_isNull (host_parse (chopDots h))) eqn:E2; simpl; [|by apply literalTarget_ok].
  destruct (isValidAceHostname _) eqn:E3; simpl; [|apply He; auto].
  apply isValidAceHostname_spec in E3 as (H1 & H2 & H3). right; right. by split_and!.
Qed.
End targets.

(** ** Properties *)

Section properties.
Context `{QT : QtText} `{QN : QtNet}.

(** C11. The scan keeps one winner per verdict and it is the right one: the
    accepted (rejected) match is the first candidate of maximal score among
    all admitted (refused) candidates of the inspected rules, local rules
    before managed ones, so that a local rule wins a tie; no candidate at all
    means no match. *)
Theorem match_selects_first_best localRules managedRules host address dmp :
  let r := matchRules localRules managedRules host address dmp in
  let cs := allCandidates localRules managedRules host address dmp in
  isFirstBest (filter (λ c, candAdmitted c = true) cs) (accepted r)
  ∧ isFirstBest (filter (λ c, ¬ candAdmitted c = true) cs) (rejected r).
Proof. apply matchRules_first_best. Qed.

(** No route decision without a rule: an accepted match names an inspected
    entry of the rule maps (within the 512/4096 bound) which either is the
    domain of the requested host (with an admitted address unless only the
    policy is inspected), or is an admitted IPv4 route that covers the
    address, or stores an admitted route that covers it. *)
Theorem accepted_match_justified localRules managedRules host address dmp :
  matched (accepted (matchRules localRules managedRules host address dmp)) = true →
  ∃ tm key value,
    (key, value) ∈ take (if tm : bool then 4096%nat else 512%nat) (if tm then managedRules else localRules)
    ∧ justifies (matchHost host) address dmp tm key value
        (accepted (matchRules localRules managedRules host address dmp)).
Proof.
  intros Hm. destruct (accepted_cases localRules managedRules host address dmp)
    as [[_ E]|(c & Hc & E & _)]; [by rewrite E in Hm|].
  apply list_elem_of_filter in Hc as [Ha Hc]. rewrite E.
  destruct (allCandidates_justified _ _ _ _ _ _ Hc Ha) as (tm & key & value & Hin & Hj).
  exists tm, key, value. by destruct tm.
Qed.

(** Completeness is reported exactly: [coverageComplete] holds if and only
    if both maps fit their rule budgets, no key is over-long, and every
    non-blank rule's stored value was read to its end. *)
Theorem coverage_complete_iff localRules managedRules host address dmp :
  coverageComplete (matchRules localRules managedRules host address dmp) = true ↔
  Z.of_nat (length localRules) <= 512 ∧ Z.of_nat (length managedRules) <= 4096
  ∧ ∀ key value, (key, value) ∈ localRules ++ managedRules →
      tsize key <= 2048 ∧ (trimmed key ≠ [] → (storedRouteTokens value).2 = true).
Proof.
  unfold matchRules. rewrite !inspectRules_complete. unfold sourceCovered. cbn [coverageComplete emptyResult].
  rewrite andb_true_l, !andb_true_iff, !Z.leb_le, !forallb_true_iff.
  assert (∀ rs, Forall (λ e, entryCovered e = true) rs ↔ ∀ key value, (key, value) ∈ rs →
            tsize key <= 2048 ∧ (trimmed key ≠ [] → (storedRouteTokens value).2 = true)) as Hf.
  { intros rs. rewrite Forall_forall. setoid_rewrite andb_true_iff. setoid_rewrite orb_true_iff.
    setoid_rewrite Z.leb_le. setoid_rewrite is_empty_true. split.
    - intros Ha key value Hin. destruct (Ha _ Hin) as [H1 H2]. split; [done|]. naive_solver.
    - intros Ha [key value] Hin. destruct (Ha _ _ Hin) as [H1 H2]. split; [done|]. simpl.
      destruct (decide (trimmed key = [])); auto. }
  rewrite !Hf. setoid_rewrite elem_of_app. unfold maximumRules, maximumRulesPerSource, maximumManagedRulesPerSource.
  split.
  - intros [[H1 H2] [H3 H4]]. split_and!; [done..|]. intros k v [Hin|Hin]; [by apply H2|by apply H4].
  - intros (H1 & H2 & H3). split_and!; [done| |done|]; intros k v Hin; apply H3; auto.
Qed.

(** The bounded scan of a stored value: it retains at most 64 distinct
    tokens, each a short IPv4 host or CIDR; and when it reports complete
    coverage the result is exactly the de-duplicated list of the valid tokens
    of the whole value, in order. *)
Theorem stored_tokens_bounded_and_exact value ts complete :
  storedRouteTokens value = (ts, complete) →
  NoDup ts ∧ Z.of_nat (length ts) <= 64
  ∧ Forall (λ t, tsize t <= 128 ∧ isIpv4HostOrCidr t = true) ts
  ∧ (complete = true →
     tsize value <= 4096
     ∧ ts = remove_duplicates (filter (λ t, tsize t <= 128 ∧ isIpv4HostOrCidr t = true)
              (tokens isStoredRouteSeparator value))).
Proof.
  unfold storedRouteTokens. cbv zeta.
  destruct (scanStoredRoutes _ _ _ _) as [ts' lim] eqn:E. intros [= -> <-].
  assert (∀ t, storedRouteOk t = true ↔ tsize t <= 128 ∧ isIpv4HostOrCidr t = true) as Hok.
  { intros t. unfold storedRouteOk, maximumStoredRouteLength. by rewrite andb_true_iff, Z.leb_le. }
  destruct (scan_bounds _ _ _ _ _ _ ltac:(constructor) ltac:(done) ltac:(constructor) E) as (H1 & H2 & H3).
  split_and!; [done..| |].
  { eapply Forall_impl; [exact H3|]. intros t. apply Hok. }
  intros Hc. bprop. subst lim. split; [done|]. unfold maximumRawStoredValueLength in *.
  rewrite (proj2 (Z.leb_le _ _)) in E by done.
  apply scan_complete in E; [|lia]. rewrite E. unfold bounded, remove_duplicates.
  rewrite take_ge by (unfold tsize in *; lia). f_equal. apply list_filter_iff. intros t. apply Hok.
Qed.

(** Every input has exactly one of three outcomes: one of the three
    documented errors with nothing else set, a literal address without scope
    and its lower-case text, or a syntactically valid ASCII host name of at
    most 253 characters with labels of at most 63. *)
Theorem normalize_target_outcomes input policy :
  target_ok (normalizeTarget input policy).
Proof. apply normalizeTarget_ok. Qed.

Context `{!QtNetLaws QN}.

(** Kinds of rules never mix for an IPv4 target: whenever some admitted
    candidate exists there is an accepted match, and it is of the best kind
    present, an exact domain before an address rule before a resolved address,
    whatever the prefix lengths. *)
Theorem accepted_match_kind_precedence localRules managedRules host a dmp c :
  c ∈ allCandidates localRules managedRules host (HV4 a) dmp → candAdmitted c = true →
  let m := accepted (matchRules localRules managedRules host (HV4 a) dmp) in
  matched m = true ∧ typeRank (candType c) <= typeRank (matchType m)
  ∧ (typeRank (candType c) = typeRank (matchType m) → candScore c <= score m).
Proof.
  intros Hc Ha m.
  assert (c ∈ filter (λ c, candAdmitted c = true) (allCandidates localRules managedRules host (HV4 a) dmp)) as Hf
    by (by apply list_elem_of_filter).
  destruct (accepted_cases localRules managedRules host (HV4 a) dmp) as [[E _]|(b & Hb & E & Hmax)].
  { rewrite E in Hf. by apply not_elem_of_nil in Hf. }
  apply list_elem_of_filter in Hb as [Hab Hb]. subst m. rewrite E. cbn [matched candMatch matchType score].
  specialize (Hmax c Hf). split; [done|]. split; [|done].
  destruct (allCandidates_justified _ _ _ _ _ _ Hc Ha) as (? & ? & ? & _ & Jc%justified_band).
  destruct (allCandidates_justified _ _ _ _ _ _ Hb Hab) as (? & ? & ? & _ & Jb%justified_band).
  cbn [matchType score candMatch] in Jc, Jb. lia.
Qed.

(** The safety test for client routes is exact: a route is routable
    exactly when it spells a network address with a prefix of at least 16
    that covers no address of the forbidden blocks nor of 169.254/16, and has
    a prefix of at least 24 when its base lies in a private or shared block. *)
Theorem client_route_routable_iff route :
  isRoutableClientRoute route = true ↔
  ∃ a p, parseIpv4Route route = Some (a, p) ∧ 16 <= p ∧ a mod 2 ^ (32 - p) = 0
    ∧ (∀ x, in_net a p x → ¬ client_forbidden x) ∧ (local_or_service a → 24 <= p).
Proof.
  split.
  - intros Hr. assert (∃ a p, parseIpv4Route route = Some (a, p)) as (a & p & E).
    { unfold isRoutableClientRoute in Hr. destruct (parseIpv4Route route) as [[a p]|]; [eauto|done]. }
    exists a, p. split; [done|]. by apply (routable_parsed route).
  - intros (a & p & E & Hr). by apply (routable_parsed route a p).
Qed.
End properties.

(** ** The properties at concrete inputs *)

Notation example_local := [(lit "9.9.9.0/24", []); (lit "example.com", [])].
Notation example_managed := [(lit "9.9.0.0/16", lit "9.9.9.9, 9.9.9.9 bad")].
Notation example_match :=
  (@matchRules asciiText asciiNet example_local example_managed (lit "example.com")
     (HV4 0x09090909) RequireResolvedIpv4).

Lemma accepted_match_justified_witness :
  ∃ tm key value,
    (key, value) ∈ take (if tm : bool then 4096%nat else 512%nat) (if tm then example_managed else example_local)
    ∧ @justifies asciiText asciiNet (@matchHost asciiText asciiNet (lit "example.com"))
        (HV4 0x09090909) RequireResolvedIpv4 tm key value (accepted example_match).
Proof.
  apply (@accepted_match_justified asciiText asciiNet). vm_compute. reflexivity.
Defined.

Lemma stored_tokens_bounded_and_exact_witness :
  @storedRouteTokens asciiText asciiNet (lit "9.9.9.9, 9.9.9.9 bad") = ([lit "9.9.9.9"], true)
  ∧ NoDup [lit "9.9.9.9"].
Proof.
  split; [vm_compute; reflexivity|].
  apply (@stored_tokens_bounded_and_exact asciiText asciiNet (lit "9.9.9.9, 9.9.9.9 bad") _ true).
  vm_compute. reflexivity.
Defined.

Lemma accepted_match_kind_precedence_witness :
  let c := Candidate false true (lit "example.com") (lit "example.com") [] (lit "domain") 10043 in
  matched (accepted example_match) = true
  ∧ typeRank (candType c) <= typeRank (matchType (accepted example_match))
  ∧ (typeRank (candType c) = typeRank (matchType (accepted example_match)) →
     candScore c <= score (accepted example_match)).
Proof.
  intros c. apply (@accepted_match_kind_precedence asciiText asciiNet asciiNet_laws); [|reflexivity].
  apply (bool_decide_unpack _). vm_compute. exact I.
Defined.

Lemma client_route_routable_iff_witness :
  @isRoutableClientRoute asciiText asciiNet (lit "192.168.1.0/24") = true
  ∧ @isRoutableClientRoute asciiText asciiNet (lit "192.168.0.0/16") = false
  ∧ ∃ a p, @parseIpv4Route asciiText asciiNet (lit "192.168.1.0/24") = Some (a, p) ∧ 16 <= p
    ∧ a mod 2 ^ (32 - p) = 0
    ∧ (∀ x, in_net a p x → ¬ client_forbidden x) ∧ (local_or_service a → 24 <= p).
Proof.
  split; [vm_compute; reflexivity|]. split; [vm_compute; reflexivity|].
  apply (@client_route_routable_iff asciiText asciiNet asciiNet_laws). vm_compute. reflexivity.
Defined.
