(* ===== verification/ServerRouting.v ===== *)
(** * The headless client's server routing policy

    Model of headless/serverRoutingPolicy.cpp: reading a policy document into
    a bounded snapshot of routes, and completing it with DNS answers. *)

From S2P Require Import Prelude Text Json QtInterface QtModel Ipv4 RoutePolicy PolicyLifecycle.
#[local] Open Scope Z_scope.
#[local] Open Scope amnezia_scope.

Definition MaximumPayloadBytes : Z := 1024 * 1024.
Definition MinimumLookupTimeoutMs : Z := 50.

Record ServerRoutingPolicySnapshot := Snapshot {
  sourceSites : jobject;
  resolvedSites : jobject;
  routes : list text;
  unresolvedSites : list text;
  snapshotRevision : text;
  snapshotContentHash : text;
  snapshotIssuedAt : qdatetime;
  snapshotExpiresAt : qdatetime;
  forceEnabled : bool;
  snapshotSource : text;
  metadata : ManagedRoutePolicyMetadata;
}.

(** A failure carries its code and message. *)
Notation policy_result := (result (text * text) ServerRoutingPolicySnapshot).

Definition failure (code message : text) : policy_result := Err (code, message).

(** [return {}] is a default-constructed [QJsonValue]: null, not undefined. *)
Fixpoint firstSiteValue (payload : jobject) (keys : list text) : json :=
  match keys with
  | [] => JNull
  | key :: keys' =>
      let value := jvalue key payload in
      if is_object value || is_array value then value else firstSiteValue payload keys'
  end.

Definition keyDottedExcept : text := lit "server.except".

Definition containsSiteValue (payload : jobject) : bool :=
  negb (is_undefined (firstSiteValue payload [keyDottedExcept; keyServerExcept; keySourceSites; keySites])).

(** What a DNS lookup started for a domain ends with. *)
Inductive lookupOutcome :=
| LookupTimeout
| LookupError
| LookupAddresses (addresses : list qhost).

Section routing.
Context `{QtText} `{QtNet} `{QtTime} `{QtData}.

(** The loop body of [routesFromSites] on (routes, unresolvedSites, isValid). *)
Definition collectSite (st : list text * list text * bool) (entry : text * json) :
    list text * list text * bool :=
  let '(routes, unresolved, isValid) := st in
  let '(key, value) := entry in
  let directRoute := canonicalManagedIpv4Route key in
  if negb (is_empty directRoute) then (routes ++ [directRoute], unresolved, isValid)
  else
    let '(fallbackRoutes, valueValid) := validatedManagedRouteTokens (to_string [] value) in
    if negb valueValid then (routes, unresolved, false)
    else if bool_decide (fallbackRoutes = []) then (routes, unresolved ++ [key], isValid)
    else (routes ++ fallbackRoutes, unresolved, isValid).

(** Routes, unresolved sites, validity. *)
Definition routesFromSites (sites : jobject) : list text * list text * bool :=
  let '(routes, unresolved, isValid) := foldl collectSite ([], [], true) sites in
  let '(routes, routesValid) := validatedManagedRoutes routes in
  let isValid := isValid && routesValid in
  let routes := sort_text (remove_duplicates routes) in
  ((if isValid then routes else []), unresolved, isValid).

Fixpoint boundedSitesFrom (source candidate bounded : jobject) : option jobject :=
  match candidate with
  | [] => Some bounded
  | (key, value) :: candidate' =>
      if negb (jcontains key source) then None
      else boundedSitesFrom source candidate' (jinsert key value bounded)
  end.

Definition boundedSites (source candidate : jobject) : option jobject :=
  boundedSitesFrom source candidate [].

(** Literal routes of the source are kept even when the resolved alias omits them. *)
Definition keepLiteral (resolved : jobject) (entry : text * json) : jobject :=
  let '(key, value) := entry in
  if negb (is_empty (canonicalManagedIpv4Route key)) && negb (jcontains key resolved)
  then jinsert key value resolved else resolved.

(** The checks made on the document once it is an object. *)
Definition parseObject (object : jobject) (current : option ManagedRoutePolicyMetadata)
    (source : text) (clock : Z) : policy_result :=
  if negb (containsSiteValue object) then
    failure (lit "invalid_policy") (lit "server routing policy has no managed site list") else
  let sourceValue := firstSiteValue object [keySourceSites; keySites; keyDottedExcept; keyServerExcept] in
  let resolvedValue := firstSiteValue object [keyDottedExcept; keyServerExcept; keySites; keySourceSites] in
  let '(sourceSites, sourceValid) := canonicalSourceSites sourceValue in
  let '(resolvedSitesCandidate, resolvedValid) := canonicalSourceSites resolvedValue in
  if negb sourceValid || negb resolvedValid then
    failure (lit "invalid_policy") (lit "managed site list is invalid or oversized") else
  match boundedSites sourceSites resolvedSitesCandidate with
  | None => failure (lit "invalid_policy") (lit "resolved managed sites are not bound to source sites")
  | Some resolvedSites =>
      let resolvedSites := foldl keepLiteral resolvedSites sourceSites in
      match validateCandidate object current (Some clock) clock with
      | Err metadataError =>
          failure (lit "stale_or_invalid_policy")
            (if is_empty metadataError then lit "server routing policy was rejected" else metadataError)
      | Ok metadata =>
          let '(routes, unresolvedSites, routesValid) := routesFromSites resolvedSites in
          if negb routesValid then
            failure (lit "invalid_policy") (lit "managed route list is invalid or oversized") else
          let forceValue := jvalue keyForceEnabled object in
          if negb (is_undefined forceValue) && negb (is_bool forceValue) then
            failure (lit "invalid_policy") (lit "managed routing force flag is malformed") else
          Ok (Snapshot sourceSites resolvedSites routes unresolvedSites (revision metadata)
                (contentHash metadata) (issuedAt metadata) (expiresAt metadata)
                (to_bool false forceValue) source metadata)
      end
  end.

(** [clock] is [QDateTime::currentDateTimeUtc()]; the previous resolution is unused. *)
Definition parse (payload : text) (current : option ManagedRoutePolicyMetadata) (source : text)
    (clock : Z) : policy_result :=
  if is_empty payload || (tsize payload >? MaximumPayloadBytes) then
    failure (lit "policy_too_large") (lit "server routing policy exceeds the byte limit") else
  match json_parse payload with
  | Some (JObject object) => parseObject object current source clock
  | _ => failure (lit "invalid_policy") (lit "server routing policy is not a JSON object")
  end.

(** ** Resolution *)

(** The sites and routes of the policy while it is completed. *)
Notation resolution := (jobject * list text)%type.

Definition appendPreviousResolution (sources previous : jobject) (st : resolution) (domain : text) :
    resolution :=
  let '(resolved, routes) := st in
  let fallback := to_string [] (jvalue domain previous) in
  let '(fallbackRoutes, fallbackValid) := validatedManagedRouteTokens fallback in
  if jcontains domain sources && fallbackValid && negb (bool_decide (fallbackRoutes = [])) then
    (jinsert domain (JString fallback) resolved, routes ++ fallbackRoutes)
  else st.

Fixpoint collectAddresses (found : list qhost) (addresses : list text) : list text :=
  match found with
  | [] => addresses
  | address :: found' =>
      if negb (host_isV4 address) then collectAddresses found' addresses else
      let route := canonicalManagedIpv4Route (host_toString address) in
      let addresses := if negb (is_empty route) && negb (bool_decide (route ∈ addresses))
                       then addresses ++ [route] else addresses in
      if Z.of_nat (length addresses) >=? maximumRoutesPerSite then addresses
      else collectAddresses found' addresses
  end.

(** [static_cast<int>] of the elapsed milliseconds. *)
Definition to_int32 (z : Z) : Z := (z + 2 ^ 31) mod 2 ^ 32 - 2 ^ 31.

(** [elapsed i] is the timer's reading before the [i]-th domain, and
    [lookup i domain remaining] what its lookup ends with. *)
Fixpoint resolveDomains (elapsed : nat → Z) (lookup : nat → text → Z → lookupOutcome)
    (deadlineMs : Z) (sources previous : jobject) (i : nat) (domains : list text) (st : resolution) :
    resolution :=
  match domains with
  | [] => st
  | domain :: domains' =>
      let remaining := deadlineMs - to_int32 (elapsed i) in
      let st' :=
        if remaining <? MinimumLookupTimeoutMs then appendPreviousResolution sources previous st domain
        else match lookup i domain remaining with
             | LookupTimeout | LookupError => appendPreviousResolution sources previous st domain
             | LookupAddresses found =>
                 let addresses := collectAddresses found [] in
                 if bool_decide (addresses = []) then appendPreviousResolution sources previous st domain
                 else (jinsert domain (JString (join (lit ", ") addresses)) st.1, st.2 ++ addresses)
             end in
      resolveDomains elapsed lookup deadlineMs sources previous (S i) domains' st'
  end.

Definition resolve (elapsed : nat → Z) (lookup : nat → text → Z → lookupOutcome)
    (policy : ServerRoutingPolicySnapshot) (deadlineMs : Z) (previous : jobject) : policy_result :=
  if (deadlineMs <? MinimumLookupTimeoutMs)
     || (Z.of_nat (length (unresolvedSites policy)) >? maximumSiteCount) then
    failure (lit "invalid_resolution_deadline") (lit "managed DNS resolution deadline is invalid") else
  let '(resolved, collected) :=
    resolveDomains elapsed lookup deadlineMs (sourceSites policy) previous 0 (unresolvedSites policy)
      (resolvedSites policy, routes policy) in
  let '(collected, routesValid) := validatedManagedRoutes collected in
  if negb routesValid then
    failure (lit "invalid_policy") (lit "resolved managed routes exceed the safety boundary") else
  Ok (Snapshot (sourceSites policy) resolved (sort_text (remove_duplicates collected))
        (unresolvedSites policy) (snapshotRevision policy) (snapshotContentHash policy)
        (snapshotIssuedAt policy) (snapshotExpiresAt policy) (forceEnabled policy)
        (snapshotSource policy) (metadata policy)).

End routing.

(** ** Routes of a site set *)

Section site_routes.
Context `{QT : QtText} `{QN : QtNet}.
Context `{!QtTextLaws QT} `{!QtNetLaws QN}.

(** The routes one site stands for. *)
Definition siteRoutes (entry : text * json) : list text :=
  let direct := canonicalManagedIpv4Route entry.1 in
  if is_empty direct then (validatedManagedRouteTokens (to_string [] entry.2)).1 else [direct].

Definition siteValid (entry : text * json) : bool :=
  negb (is_empty (canonicalManagedIpv4Route entry.1))
  || (validatedManagedRouteTokens (to_string [] entry.2)).2.

Definition siteUnresolved (entry : text * json) : bool :=
  is_empty (canonicalManagedIpv4Route entry.1)
  && bool_decide (validatedManagedRouteTokens (to_string [] entry.2) = ([], true)).

Lemma collectSite_spec r u b e :
  collectSite (r, u, b) e
  = (r ++ siteRoutes e, (if siteUnresolved e then u ++ [e.1] else u), b && siteValid e).
Proof.
  destruct e as [k v]. unfold collectSite, siteRoutes, siteValid, siteUnresolved. cbn [fst snd].
  destruct (is_empty (canonicalManagedIpv4Route k)); cbn [negb orb andb]; [|by rewrite andb_true_r].
  destruct (validatedManagedRouteTokens (to_string [] v)) as [fb []] eqn:Ht; cbn [fst snd negb].
  - rewrite andb_true_r. destruct (bool_decide (fb = [])) eqn:Hfb; bprop.
    + subst fb. by rewrite bool_decide_true, app_nil_r.
    + by rewrite bool_decide_false by naive_solver.
  - rewrite (routeTokens_invalid _ _ _ Ht eq_refl), app_nil_r, andb_false_r.
    by rewrite bool_decide_false by naive_solver.
Qed.

Lemma collectSites_spec sites r u b :
  foldl collectSite (r, u, b) sites
  = (r ++ flat_map siteRoutes sites,
     u ++ map fst (filter (λ e, siteUnresolved e = true) sites),
     b && forallb siteValid sites).
Proof.
  revert r u b. induction sites as [|e sites IH]; intros r u b; cbn [foldl flat_map forallb].
  { by rewrite !app_nil_r, andb_true_r. }
  rewrite collectSite_spec, IH, filter_cons, <-app_assoc, andb_assoc.
  case_decide as Hu; cbn [map].
  - by rewrite Hu, <-app_assoc.
  - by apply not_true_iff_false in Hu as ->.
Qed.

Lemma siteRoutes_canonical entry : siteValid entry = true → Forall canonical_route (siteRoutes entry).
Proof.
  unfold siteValid, siteRoutes. destruct (is_empty (canonicalManagedIpv4Route entry.1)) eqn:E; cbn [negb orb].
  - destruct (validatedManagedRouteTokens _) as [fb valid] eqn:Ht. intros Hv. cbn [snd fst] in *. subst valid.
    by apply routeTokens_valid in Ht as (_ & _ & _ & Hc).
  - intros _. apply Forall_singleton. apply canonical_is_canonical. by apply is_empty_false.
Qed.

Lemma canonical_members l r :
  Forall canonical_route l → (∃ v, v ∈ l ∧ r = canonicalManagedIpv4Route v) ↔ r ∈ l.
Proof.
  intros Hl. rewrite Forall_forall in Hl. split.
  - intros (v & Hv & ->). by destruct (Hl v Hv) as [-> _].
  - intros Hr. exists r. by destruct (Hl r Hr) as [-> _].
Qed.

Lemma sort_dedup_elem (l : list text) r : r ∈ sort_text (remove_duplicates l) ↔ r ∈ l.
Proof. by rewrite (sort_text_perm _), elem_of_remove_duplicates. Qed.

Lemma sort_dedup_NoDup (l : list text) : NoDup (sort_text (remove_duplicates l)).
Proof. rewrite (sort_text_perm _). apply remove_duplicates_NoDup. Qed.

Lemma sort_dedup_length (l : list text) :
  NoDup l → length (sort_text (remove_duplicates l)) = length l.
Proof. intros Hl. by rewrite (Permutation_length (sort_text_perm _)), remove_duplicates_id. Qed.

(** What a route list of a snapshot must satisfy. *)
Definition routes_ok (rs : list text) : Prop :=
  StronglySorted text_le rs ∧ NoDup rs ∧ Z.of_nat (length rs) <= 4096
  ∧ Forall (λ r, isAllowedManagedIpv4Route r = true) rs.

Lemma validated_sorted_ok l rs :
  validatedManagedRoutes l = (rs, true) →
  routes_ok (sort_text (remove_duplicates rs))
  ∧ Forall canonical_route (sort_text (remove_duplicates rs))
  ∧ ∀ r, r ∈ sort_text (remove_duplicates rs) ↔ ∃ v, v ∈ l ∧ r = canonicalManagedIpv4Route v.
Proof.
  intros E. apply managedRoutes_valid in E as (H1 & H2 & H3 & H4).
  assert (Forall canonical_route (sort_text (remove_duplicates rs))) as Hc.
  { apply Forall_forall. intros r Hr. rewrite Forall_forall in H3. apply H3. by apply sort_dedup_elem. }
  split_and!; [|done|].
  - split_and!; [apply sort_text_sorted|apply sort_dedup_NoDup|rewrite sort_dedup_length by done; exact H2|].
    eapply Forall_impl; [exact Hc|]. by intros r [_ Hr].
  - intros r. by rewrite sort_dedup_elem.
Qed.

Lemma routesFromSites_valid sites rs us :
  routesFromSites sites = (rs, us, true) →
  routes_ok rs ∧ Forall canonical_route rs
  ∧ (∀ r, r ∈ rs ↔ ∃ entry, entry ∈ sites ∧ r ∈ siteRoutes entry)
  ∧ us = map fst (filter (λ e, siteUnresolved e = true) sites)
  ∧ Forall (λ e, siteValid e = true) sites.
Proof.
  unfold routesFromSites. rewrite collectSites_spec, !app_nil_l, andb_true_l.
  destruct (validatedManagedRoutes _) as [vs valid] eqn:Hv. intros E. simplify_eq.
  match goal with H : _ && _ = true |- _ => rewrite H; apply andb_true_iff in H as [Hall ->] end.
  apply validated_sorted_ok in Hv as (H1 & H2 & H3). rewrite forallb_true_iff in Hall.
  split_and!; [done..| |done|done]. intros r. rewrite H3, canonical_members.
  - rewrite list_elem_of_In, in_flat_map. by setoid_rewrite list_elem_of_In.
  - apply Forall_forall. intros x. rewrite list_elem_of_In, in_flat_map. intros (e & He & Hx).
    apply list_elem_of_In in He, Hx. rewrite Forall_forall in Hall.
    pose proof (siteRoutes_canonical e (Hall e He)) as Hf. rewrite Forall_forall in Hf. by apply Hf.
Qed.
End site_routes.

(** ** Sites of a snapshot *)

Section site_sets.
Context `{QT : QtText} `{QN : QtNet}.
Context `{!QtTextLaws QT} `{!QtNetLaws QN}.

Lemma boundedSitesFrom_spec source candidate acc :
  jwf acc → jwf candidate → boundedSitesFrom source candidate acc = None ∨
  ∃ bounded, boundedSitesFrom source candidate acc = Some bounded ∧ jwf bounded
    ∧ (∀ k, k ∈ jkeys candidate → jcontains k source = true)
    ∧ ∀ k, jvalue k bounded = if jcontains k candidate then jvalue k candidate else jvalue k acc.
Proof.
  revert acc. induction candidate as [|[k v] candidate IH]; intros acc Hacc Hc; cbn [boundedSitesFrom].
  { right. exists acc. split_and!; [done|done|by intros k ?%not_elem_of_nil|done]. }
  destruct (jcontains k source) eqn:Hk; cbn [negb]; [|by left].
  destruct Hc as [Hs Hd]. inversion Hs as [|?? Hs' Hlt]; inversion Hd as [|?? Hv Hd']; subst.
  simpl in Hv. destruct (IH (jinsert k v acc)) as [|(bounded & E & Hb & Hsrc & Hval)];
    [by apply jwf_jinsert_defined|done|by left|].
  right. exists bounded. split_and!; [done|done| |].
  - intros k'. cbn [jkeys map fst]. rewrite elem_of_cons. intros [->|Hk']; [done|by apply Hsrc].
  - intros k'. rewrite Hval, jcontains_cons, jvalue_jinsert by done. cbn [jvalue].
    destruct (text_eqb k' k) eqn:E'; cbn [orb]; [|done]. apply text_eqb_eq in E' as ->.
    destruct (jcontains k candidate) eqn:Ec; [|done]. apply jcontains_true in Ec.
    rewrite Forall_forall in Hlt. apply Hlt in Ec. unfold text_lt in Ec. by rewrite text_ltb_irrefl in Ec.
Qed.

(** A bounded site set is the candidate itself, with keys of the source only. *)
Lemma boundedSites_spec source candidate bounded :
  jwf candidate → boundedSites source candidate = Some bounded →
  bounded = candidate ∧ ∀ k, k ∈ jkeys candidate → k ∈ jkeys source.
Proof.
  intros Hc E. unfold boundedSites in E.
  destruct (boundedSitesFrom_spec source candidate []) as [|(b & E' & Hb & Hsrc & Hval)];
    [by auto with amn|done|congruence|].
  rewrite E' in E. simplify_eq. split.
  - apply jobject_ext; [done..|]. intros k. rewrite Hval. destruct (jcontains k candidate) eqn:Ek; [done|].
    symmetry. apply jvalue_undefined. intros Hk%jcontains_true. congruence.
  - intros k Hk. by apply jcontains_true, Hsrc.
Qed.

(** Completing the resolved sites with the literal routes of the source. *)
Lemma keepLiteral_spec source resolved :
  jwf resolved → Forall (λ e, is_undefined e.2 = false) source →
  let r := foldl keepLiteral resolved source in
  jwf r
  ∧ (∀ k, k ∈ jkeys r ↔ k ∈ jkeys resolved
         ∨ k ∈ jkeys source ∧ canonicalManagedIpv4Route k ≠ [])
  ∧ ∀ k, k ∈ jkeys resolved → jvalue k r = jvalue k resolved.
Proof.
  revert resolved. induction source as [|[k v] source IH]; intros resolved Hr Hs; cbn [foldl].
  { split_and!; [done| |done]. intros k. cbn. set_solver. }
  inversion Hs as [|?? Hv Hs']; subst. simpl in Hv. unfold keepLiteral at 2 4 6.
  destruct (is_empty (canonicalManagedIpv4Route k)) eqn:Ek; cbn [negb andb].
  - apply is_empty_true in Ek. destruct (IH resolved Hr Hs') as (H1 & H2 & H3). split_and!; [done| |done].
    intros k'. rewrite H2. cbn [jkeys map fst]. rewrite elem_of_cons. naive_solver.
  - apply is_empty_false in Ek. destruct (jcontains k resolved) eqn:Hk; cbn [negb].
    + apply jcontains_true in Hk. destruct (IH resolved Hr Hs') as (H1 & H2 & H3).
      split_and!; [done| |done]. intros k'. rewrite H2. cbn [jkeys map fst]. rewrite elem_of_cons. naive_solver.
    + destruct (IH (jinsert k v resolved)) as (H1 & H2 & H3); [by apply jwf_jinsert_defined|done|].
      unfold jinsert in *. rewrite Hv in *. split_and!; [done| |].
      * intros k'. rewrite H2, jput_keys. cbn [jkeys map fst]. rewrite elem_of_cons. naive_solver.
      * intros k' Hk'. rewrite H3 by (rewrite jput_keys; auto). apply jvalue_jput_ne.
        intros ->. apply jcontains_true in Hk'. congruence.
Qed.
End site_sets.

(** ** Accepted documents *)

Section accepted.
Context `{QT : QtText} `{QN : QtNet} `{QM : QtTime} `{QD : QtData}.
Context `{!QtTextLaws QT} `{!QtNetLaws QN}.

Lemma canonicalSites_members value o :
  canonicalSourceSites value = (o, true) →
  jwf o ∧ Forall (λ p, site_entry p.1 p.2) o ∧ Forall (λ p, is_undefined p.2 = false) o.
Proof.
  intros E. destruct (canonicalSourceSites_inv value) as (H1 & H2 & _).
  unfold canonicalSourceSites in E. simplify_eq. split_and!; [done|done|apply H1].
Qed.

(** Everything an accepted document establishes. *)
Lemma parseObject_Ok object current source clock s :
  parseObject object current source clock = Ok s →
  let candidate := firstSiteValue object [keyDottedExcept; keyServerExcept; keySites; keySourceSites] in
  canonicalSourceSites (firstSiteValue object [keySourceSites; keySites; keyDottedExcept; keyServerExcept])
    = (sourceSites s, true)
  ∧ (∃ c, canonicalSourceSites candidate = (c, true)
      ∧ (∀ k, k ∈ jkeys c → k ∈ jkeys (sourceSites s))
      ∧ resolvedSites s = foldl keepLiteral c (sourceSites s))
  ∧ validateCandidate object current (Some clock) clock = Ok (metadata s)
  ∧ routesFromSites (resolvedSites s) = (routes s, unresolvedSites s, true)
  ∧ snapshotRevision s = revision (metadata s) ∧ snapshotContentHash s = contentHash (metadata s)
  ∧ snapshotIssuedAt s = issuedAt (metadata s) ∧ snapshotExpiresAt s = expiresAt (metadata s)
  ∧ forceEnabled s = to_bool false (jvalue keyForceEnabled object) ∧ snapshotSource s = source.
Proof.
  unfold parseObject, failure. cbv zeta. intros E. destruct (negb (containsSiteValue object)); [done|].
  destruct (canonicalSourceSites (firstSiteValue object [keySourceSites; _; _; _])) as [src srcValid] eqn:Es.
  destruct (canonicalSourceSites (firstSiteValue object [keyDottedExcept; _; _; _])) as [cand candValid] eqn:Ec.
  destruct srcValid, candValid; try done. cbn [negb orb] in E.
  destruct (boundedSites src cand) as [b|] eqn:Eb; [|done].
  destruct (canonicalSites_members _ _ Ec) as (Hcw & _).
  apply boundedSites_spec in Eb as [-> Hk]; [|done].
  destruct (validateCandidate _ _ _ _) as [m|] eqn:Em; [|done].
  destruct (routesFromSites _) as [[rs us] rv] eqn:Er. destruct rv; [|done]. cbn [negb] in E.
  destruct (negb (is_undefined _) && _); [done|]. simplify_eq. cbn.
  split_and!; try done. by exists cand.
Qed.

Lemma parse_Ok payload current source clock s :
  parse payload current source clock = Ok s →
  ∃ object, json_parse payload = Some (JObject object) ∧ parseObject object current source clock = Ok s
    ∧ 0 < tsize payload <= 1048576.
Proof.
  unfold parse, failure, MaximumPayloadBytes. destruct (_ || _) eqn:G; [done|]. bprop. intros E.
  destruct (json_parse payload) as [[| | | | | |object]|]; try done. exists object. split_and!; [done..| |done].
  unfold tsize. destruct payload; [done|]. simpl. lia.
Qed.

(** The sites a resolved set may hold, from its source and candidate. *)
Lemma parsed_sites object current source clock s :
  parseObject object current source clock = Ok s →
  jwf (resolvedSites s) ∧ jwf (sourceSites s)
  ∧ (∀ k, k ∈ jkeys (resolvedSites s) → k ∈ jkeys (sourceSites s))
  ∧ (∀ k, k ∈ jkeys (sourceSites s) → canonicalManagedIpv4Route k ≠ [] → k ∈ jkeys (resolvedSites s)).
Proof.
  intros E. apply parseObject_Ok in E as (Es & (c & Ec & Hk & Er) & _).
  apply canonicalSites_members in Es as (Hsw & _ & Hsu). apply canonicalSites_members in Ec as (Hcw & _).
  destruct (keepLiteral_spec (sourceSites s) c Hcw Hsu) as (H1 & H2 & _). rewrite Er.
  split_and!; [done..| |].
  - intros k [Hin|[Hin _]]%H2; auto.
  - intros k Hin Hc. apply H2. auto.
Qed.

(** ** Completion by DNS *)

(** Where a route added by the resolution comes from. *)
Definition resolvedFrom (lookup : nat → text → Z → lookupOutcome) (sources previous : jobject)
    (domains : list text) (r : text) : Prop :=
  ∃ domain, domain ∈ domains ∧
    ((domain ∈ jkeys sources
      ∧ ∃ fallback, validatedManagedRouteTokens (to_string [] (jvalue domain previous)) = (fallback, true)
                    ∧ r ∈ fallback)
     ∨ ∃ i remaining found a, MinimumLookupTimeoutMs <= remaining
         ∧ lookup i domain remaining = LookupAddresses found
         ∧ HV4 a ∈ found ∧ r = canonicalManagedIpv4Route (host_toString (HV4 a)) ∧ r ≠ []).

Lemma appendPrevious_routes sources previous st domain :
  let st' := appendPreviousResolution sources previous st domain in
  st' = st ∨
  (domain ∈ jkeys sources
   ∧ ∃ fallback, validatedManagedRouteTokens (to_string [] (jvalue domain previous)) = (fallback, true)
                 ∧ st'.2 = st.2 ++ fallback
                 ∧ st'.1 = jinsert domain (JString (to_string [] (jvalue domain previous))) st.1).
Proof.
  unfold appendPreviousResolution. destruct st as [resolved rs]. cbv zeta.
  destruct (validatedManagedRouteTokens _) as [fb valid].
  destruct (jcontains domain sources && valid && _) eqn:G; [|by left]. bprop. subst valid.
  right. split; [by apply jcontains_true|]. by exists fb.
Qed.

Lemma collectAddresses_spec found acc r :
  r ∈ collectAddresses found acc →
  r ∈ acc ∨ ∃ a, HV4 a ∈ found ∧ r = canonicalManagedIpv4Route (host_toString (HV4 a)) ∧ r ≠ [].
Proof.
  revert acc. induction found as [|h found IH]; intros acc Hr; cbn [collectAddresses] in Hr; [by left|].
  destruct h as [|a|]; cbn [host_isV4 negb] in Hr;
    [destruct (IH _ Hr) as [|(b & ? & ?)]; [by left|right; exists b; set_solver]| |
     destruct (IH _ Hr) as [|(b & ? & ?)]; [by left|right; exists b; set_solver]].
  set (route := canonicalManagedIpv4Route (host_toString (HV4 a))) in *.
  set (acc' := if negb (is_empty route) && _ then _ else acc) in *.
  assert (∀ x, x ∈ acc' → x ∈ acc ∨ x = route ∧ route ≠ []) as Hacc'.
  { intros x. subst acc'. destruct (negb (is_empty route) && _) eqn:G; [|by left]. bprop.
    rewrite elem_of_app, list_elem_of_singleton. intros [|]; [by left|]. right. split; [done|].
    by apply is_empty_false. }
  assert (r ∈ acc' ∨ ∃ b, HV4 b ∈ found ∧ r = canonicalManagedIpv4Route (host_toString (HV4 b)) ∧ r ≠ []) as Hc.
  { destruct (_ >=? _); [by left|by apply IH]. }
  destruct Hc as [[|[-> ?]]%Hacc'|(b & ? & ?)]; [by left| |].
  - right. exists a. split; [set_solver|done].
  - right. exists b. split; [set_solver|done].
Qed.

Lemma resolveDomains_routes elapsed lookup deadline sources previous i domains st r :
  r ∈ (resolveDomains elapsed lookup deadline sources previous i domains st).2 →
  r ∈ st.2 ∨ resolvedFrom lookup sources previous domains r.
Proof.
  revert i st. induction domains as [|d domains IH]; intros i st Hr; cbn [resolveDomains] in Hr; [by left|].
  cbv zeta in Hr. apply IH in Hr. clear IH.
  assert (∀ x, resolvedFrom lookup sources previous domains x → resolvedFrom lookup sources previous (d :: domains) x)
    as Hmono by (intros x (d' & ? & ?); exists d'; set_solver).
  destruct Hr as [Hr|]; [|by right; apply Hmono].
  assert (∀ st', r ∈ (appendPreviousResolution sources previous st' d).2 →
            r ∈ st'.2 ∨ resolvedFrom lookup sources previous (d :: domains) r) as Hprev.
  { intros st' Hst'. destruct (appendPrevious_routes sources previous st' d) as [E|(Hd & fb & Hfb & E & _)].
    - rewrite E in Hst'. by left.
    - rewrite E, elem_of_app in Hst'. destruct Hst' as [|Hx]; [by left|right].
      exists d. split; [set_solver|]. left. eauto. }
  destruct (_ <? MinimumLookupTimeoutMs) eqn:Hm; [by apply Hprev|]. bprop.
  destruct (lookup i d _) as [| |found] eqn:El; [by apply Hprev..|].
  destruct (bool_decide _); [by apply Hprev|]. cbn [snd] in Hr. rewrite elem_of_app in Hr.
  destruct Hr as [|Hr]; [by left|]. right. exists d. split; [set_solver|]. right.
  apply collectAddresses_spec in Hr as [[]%not_elem_of_nil|(a & ? & ? & ?)].
  eexists i, _, found, a. split_and!; [exact Hm|done..].
Qed.

(** Resolution only ever gives routes to the domains it was asked about. *)
Lemma resolveDomains_sites elapsed lookup deadline sources previous i domains st k :
  k ∉ domains →
  jvalue k (resolveDomains elapsed lookup deadline sources previous i domains st).1 = jvalue k st.1.
Proof.
  revert i st. induction domains as [|d domains IH]; intros i st Hk; cbn [resolveDomains]; [done|].
  cbv zeta. apply not_elem_of_cons in Hk as [Hne Hk]. rewrite IH by done.
  assert (∀ s v, jvalue k (jinsert d (JString v) s) = jvalue k s) as Hput.
  { intros s v. by apply jvalue_jput_ne. }
  assert (jvalue k (appendPreviousResolution sources previous st d).1 = jvalue k st.1) as Hprev.
  { destruct (appendPrevious_routes sources previous st d) as [->|(_ & fb & _ & _ & ->)]; [done|apply Hput]. }
  destruct (_ <? MinimumLookupTimeoutMs); [done|]. destruct (lookup i d _); [done..|].
  destruct (bool_decide _); [done|]. apply Hput.
Qed.
End accepted.

(** ** Properties *)

Section properties.
Context `{QT : QtText} `{QN : QtNet} `{QM : QtTime} `{QD : QtData}.
Context `{!QtTextLaws QT} `{!QtNetLaws QN}.

(** C29. The routes of an accepted document are exactly those its resolved
    sites stand for: sorted, without duplicates, at most 4096, all allowed;
    and the sites left to resolve are exactly the names that stand for none. *)
Theorem parsed_routes_exact payload current source clock s :
  parse payload current source clock = Ok s →
  routes_ok (routes s)
  ∧ (∀ r, r ∈ routes s ↔ ∃ entry, entry ∈ resolvedSites s ∧ r ∈ siteRoutes entry)
  ∧ (∀ k, k ∈ unresolvedSites s ↔ ∃ v, (k, v) ∈ resolvedSites s ∧ siteRoutes (k, v) = []).
Proof.
  intros E. apply parse_Ok in E as (object & _ & E & _). apply parseObject_Ok in E as (_ & _ & _ & Er & _).
  apply routesFromSites_valid in Er as (H1 & _ & H3 & -> & H5). split_and!; [done..|].
  intros k. rewrite list_elem_of_fmap. setoid_rewrite list_elem_of_filter. rewrite Forall_forall in H5.
  assert (∀ e, e ∈ resolvedSites s → siteUnresolved e = true ↔ siteRoutes e = []) as Hu.
  { intros e He. specialize (H5 e He). unfold siteUnresolved, siteRoutes, siteValid in *.
    destruct (is_empty (canonicalManagedIpv4Route e.1)); [|done]. cbn [negb orb] in H5.
    destruct (validatedManagedRouteTokens _) as [fb b]. cbn [snd fst andb] in *. subst b.
    rewrite bool_decide_eq_true. naive_solver. }
  split.
  - intros ([k' v] & -> & Hk & Hin). exists v. split; [done|]. by apply Hu.
  - intros (v & Hin & Hs). exists (k, v). split_and!; [done| |done]. by apply Hu.
Qed.

(** Resolved sites are bound to source sites: every resolved key is a key
    of the source list, and every literal route of the source list is among
    the routes even when the resolved alias omits it. *)
Theorem parsed_sites_bound payload current source clock s :
  parse payload current source clock = Ok s →
  (∀ k, k ∈ jkeys (resolvedSites s) → k ∈ jkeys (sourceSites s))
  ∧ (∀ k, k ∈ jkeys (sourceSites s) → canonicalManagedIpv4Route k ≠ [] → k ∈ routes s)
  ∧ Forall (λ p, site_entry p.1 p.2) (sourceSites s).
Proof.
  intros E. apply parse_Ok in E as (object & _ & E & _).
  pose proof (parsed_sites _ _ _ _ _ E) as (_ & _ & H1 & H2).
  apply parseObject_Ok in E as (Es & _ & _ & Er & _).
  apply canonicalSites_members in Es as (_ & Hent & _).
  apply routesFromSites_valid in Er as (_ & _ & H3 & _). split_and!; [done| |done].
  intros k Hk Hc. pose proof (H2 k Hk Hc) as Hin. apply list_elem_of_fmap in Hin as ([k' v] & -> & Hin).
  apply list_elem_of_fmap in Hk as ([k2 v2] & E2 & Hk). simpl in *. subst k2.
  apply H3. exists (k', v). split; [done|]. unfold siteRoutes. cbn [fst].
  rewrite (proj2 (is_empty_false _)) by done. apply list_elem_of_singleton.
  rewrite Forall_forall in Hent. destruct (Hent _ Hk) as (? & _ & _ & _ & _ & _ & _ & _ & [He|[He _]]);
    cbn [fst] in He; [congruence|by rewrite He].
Qed.

Definition isContainer (v : json) : bool := is_object v || is_array v.

(** The content a digest covers, from its parts. *)
Definition policyContent (sites : jobject) (force : bool) : jobject :=
  jinsert keyForceEnabled (JBool force)
    (jinsert keySourceSites (JObject sites) (jinsert keySchemaVersion (JDouble (DInt 1)) [])).

(** An accepted document that gives its source list under one of the
    managed keys, or does not use the dotted alias, is bound to its digest:
    the content hash of the snapshot is the digest of exactly its source sites
    and its force flag. *)
Theorem parsed_policy_bound_to_digest object current source clock s :
  parseObject object current source clock = Ok s →
  isContainer (jvalue keySourceSites object) = true ∨ isContainer (jvalue keySites object) = true
  ∨ isContainer (jvalue keyDottedExcept object) = false →
  snapshotContentHash s = derivedRevision (policyContent (sourceSites s) (forceEnabled s)).
Proof.
  intros E Hk. apply parseObject_Ok in E as (Es & _ & Em & _ & _ & -> & _ & _ & -> & _).
  apply validateCandidate_Ok in Em as (content & Hc & -> & _).
  unfold canonicalSourcePolicyContent in Hc.
  assert (canonicalSourceSites (sourceSitesValue object) = (sourceSites s, true)) as Hs.
  { rewrite <-Es. unfold sourceSitesValue. cbn [firstContainer firstSiteValue] in *. unfold isContainer in Hk.
    destruct (is_object (jvalue keySourceSites object) || _); [done|].
    destruct (is_object (jvalue keySites object) || _); [done|].
    destruct Hk as [Hk|[Hk|Hk]]; [done..|]. rewrite Hk in Es |- *.
    destruct (is_object (jvalue keyServerExcept object) || _); [done|]. by cbn in Es. }
  rewrite Hs in Hc. by simplify_eq.
Qed.

(** Resolution is fail-closed: on success the routes are again sorted,
    distinct, allowed and at most 4096, and each was a route of the policy, or
    comes from a validated previous resolution of a source site that was to be
    resolved, or is the address a lookup of such a site answered; sites that
    were not to be resolved keep their value. *)
Theorem resolve_fail_closed elapsed lookup policy deadline previous s :
  Forall canonical_route (routes policy) →
  resolve elapsed lookup policy deadline previous = Ok s →
  routes_ok (routes s)
  ∧ (∀ r, r ∈ routes s →
      r ∈ routes policy ∨ resolvedFrom lookup (sourceSites policy) previous (unresolvedSites policy) r)
  ∧ (∀ k, k ∉ unresolvedSites policy → jvalue k (resolvedSites s) = jvalue k (resolvedSites policy))
  ∧ sourceSites s = sourceSites policy ∧ metadata s = metadata policy.
Proof.
  intros Hpol E. unfold resolve, failure in E. destruct (_ || _); [done|].
  destruct (resolveDomains _ _ _ _ _ _ _ _) as [rsites collected] eqn:Er.
  destruct (validatedManagedRoutes collected) as [vs valid] eqn:Hv. destruct valid; [|done].
  cbn [negb] in E. simplify_eq. cbn. apply validated_sorted_ok in Hv as (H1 & _ & H3).
  split_and!; [done| | |done|done].
  - intros r (v & Hv & ->)%H3.
    pose proof (resolveDomains_routes elapsed lookup deadline (sourceSites policy) previous 0
                  (unresolvedSites policy) (resolvedSites policy, routes policy) v) as Hr.
    rewrite Er in Hr. specialize (Hr Hv). cbn [snd] in Hr.
    assert (canonicalManagedIpv4Route v = v) as ->; [|done].
    rewrite Forall_forall in Hpol. destruct Hr as [Hr|(d & _ & [(_ & fb & Hfb & Hin)|(? & ? & ? & a & _ & _ & _ & -> & _)])].
    + by destruct (Hpol v Hr).
    + apply routeTokens_valid in Hfb as (_ & _ & _ & Hall). rewrite Forall_forall in Hall. by destruct (Hall v Hin).
    + apply canonical_fixed.
  - intros k Hk. pose proof (resolveDomains_sites elapsed lookup deadline (sourceSites policy) previous 0
      (unresolvedSites policy) (resolvedSites policy, routes policy) k Hk) as Hs. by rewrite Er in Hs.
Qed.

(** Resolving an accepted policy with nothing to resolve is the identity,
    whatever the DNS answers would be. *)
Theorem resolve_complete_policy elapsed lookup payload current source clock s deadline previous :
  parse payload current source clock = Ok s → unresolvedSites s = [] → 50 <= deadline →
  resolve elapsed lookup s deadline previous = Ok s.
Proof.
  intros E Hu Hd. apply parse_Ok in E as (object & _ & E & _). apply parseObject_Ok in E as (_ & _ & _ & Er & _).
  apply routesFromSites_valid in Er as ((Hs & Hn & Hl & _) & Hc & _).
  unfold resolve, MinimumLookupTimeoutMs. rewrite Hu. cbn [length resolveDomains].
  rewrite (proj2 (Z.ltb_ge _ _)) by done. cbn [orb]. rewrite managedRoutes_fixed by done.
  cbn [negb]. rewrite remove_duplicates_id, sort_text_id by done. rewrite <-Hu. by destruct s.
Qed.

(** The guard against documents without a site list never fires: for
    every document [containsSiteValue] holds, because the search returns null
    and not undefined when it finds nothing; such a document is refused only
    by the validity test of the (null) list. *)
Theorem site_list_guard_vacuous object current source clock :
  containsSiteValue object = true
  ∧ (firstSiteValue object [keySourceSites; keySites; keyDottedExcept; keyServerExcept] = JNull →
     parseObject object current source clock
     = Err (lit "invalid_policy", lit "managed site list is invalid or oversized")).
Proof.
  assert (∀ keys, is_undefined (firstSiteValue object keys) = false) as Hd.
  { induction keys as [|k keys IH]; simpl; [done|]. destruct (jvalue k object); try done; by simpl. }
  assert (containsSiteValue object = true) as Hc by (unfold containsSiteValue; by rewrite Hd).
  split; [done|]. intros En. unfold parseObject. rewrite Hc, En. cbn [negb]. cbv zeta.
  change (canonicalSourceSites JNull) with ([] : jobject, false).
  by destruct (canonicalSourceSites (firstSiteValue _ _)).
Qed.
End properties.

(** ** The properties at concrete inputs *)

(** A reader that knows one document. *)
Definition documentData (o : jobject) : QtData := {|
  sha256 := toy_sha256;
  json_compact := λ o, json_text (JObject o);
  json_parse := λ s, if text_eqb s (lit "policy") then Some (JObject o) else None;
  utf8 := λ s, s;
|}.

Notation example_document :=
  [(keySourceSites, JObject [(lit "10.0.0.0/8", JString []); (lit "example.com", JString [])]);
   (keyServerExcept, JObject [(lit "example.com", JString (lit "9.9.9.9, 9.9.8.8"))])].
Notation example_parse o :=
  (@parse asciiText asciiNet plainTime (documentData o) (lit "policy") None (lit "test") 1000).

Lemma parsed_routes_exact_witness :
  ∃ s, example_parse example_document = Ok s
    ∧ routes s = [lit "10.0.0.0/8"; lit "9.9.8.8"; lit "9.9.9.9"]
    ∧ @routes_ok asciiText asciiNet (routes s).
Proof.
  eexists. split; [vm_compute; reflexivity|]. split; [vm_compute; reflexivity|].
  eapply (@parsed_routes_exact asciiText asciiNet plainTime (documentData example_document)
            asciiText_laws asciiNet_laws (lit "policy") None (lit "test") 1000).
  vm_compute. reflexivity.
Defined.

Lemma parsed_sites_bound_witness :
  ∃ s, example_parse example_document = Ok s
    ∧ ∀ k, k ∈ jkeys (resolvedSites s) → k ∈ jkeys (sourceSites s).
Proof.
  eexists. split; [vm_compute; reflexivity|].
  eapply (@parsed_sites_bound asciiText asciiNet plainTime (documentData example_document)
            asciiText_laws asciiNet_laws (lit "policy") None (lit "test") 1000).
  vm_compute. reflexivity.
Defined.

Lemma parsed_policy_bound_to_digest_witness :
  ∃ s, @parseObject asciiText asciiNet plainTime toyData example_document None (lit "test") 1000 = Ok s
    ∧ snapshotContentHash s
      = @derivedRevision toyData (policyContent (sourceSites s) (forceEnabled s)).
Proof.
  eexists. split; [vm_compute; reflexivity|].
  eapply (@parsed_policy_bound_to_digest asciiText asciiNet plainTime toyData
            asciiText_laws asciiNet_laws example_document None (lit "test") 1000).
  - vm_compute. reflexivity.
  - left. vm_compute. reflexivity.
Defined.

Notation example_pending :=
  (Snapshot [(lit "example.com", JString []); (lit "example.org", JString [])]
     [(lit "example.com", JString []); (lit "example.org", JString [])] []
     [lit "example.com"; lit "example.org"] [] [] None None false [] example_record).
Notation example_resolve :=
  (@resolve asciiText asciiNet (λ i, 100 * Z.of_nat i)
     (λ i d ms, if text_eqb d (lit "example.com") then LookupAddresses [HV4 0x09090909; HV4 0x7f000001]
                else LookupTimeout)
     example_pending 4000 [(lit "example.org", JString (lit "9.9.8.8"))]).

Lemma resolve_fail_closed_witness :
  ∃ s, example_resolve = Ok s ∧ routes s = [lit "9.9.8.8"; lit "9.9.9.9"]
    ∧ @routes_ok asciiText asciiNet (routes s).
Proof.
  eexists. split; [vm_compute; reflexivity|]. split; [vm_compute; reflexivity|].
  eapply (@resolve_fail_closed asciiText asciiNet asciiText_laws asciiNet_laws (λ i, 100 * Z.of_nat i)
     (λ i d ms, if text_eqb d (lit "example.com") then LookupAddresses [HV4 0x09090909; HV4 0x7f000001]
                else LookupTimeout) example_pending 4000 [(lit "example.org", JString (lit "9.9.8.8"))]).
  - constructor.
  - vm_compute. reflexivity.
Defined.

Notation example_resolved_document :=
  [(keySourceSites, JObject [(lit "example.com", JString (lit "9.9.9.9"))])].

Lemma resolve_complete_policy_witness :
  ∃ s, example_parse example_resolved_document = Ok s
    ∧ @resolve asciiText asciiNet (λ _, 0) (λ _ _ _, LookupTimeout) s 50 [] = Ok s.
Proof.
  eexists. split; [vm_compute; reflexivity|].
  eapply (@resolve_complete_policy asciiText asciiNet plainTime (documentData example_resolved_document)
            asciiText_laws asciiNet_laws _ _ (lit "policy") None (lit "test") 1000);
    [vm_compute; reflexivity|reflexivity|lia].
Defined.

Lemma site_list_guard_vacuous_witness :
  containsSiteValue [] = true
  ∧ @parseObject asciiText asciiNet plainTime toyData [] None [] 1000
    = Err (lit "invalid_policy", lit "managed site list is invalid or oversized").
Proof.
  destruct (@site_list_guard_vacuous asciiText asciiNet plainTime toyData [] None [] 1000) as [H1 H2].
  split; [exact H1|]. apply H2. reflexivity.
Defined.

(** The dotted alias escapes the digest: there are two accepted documents
    with the same content hash, whatever the digest function, whose source
    lists and routes differ, because the list read under [server.except] is
    not the one the digest is computed from. *)
Theorem dotted_alias_escapes_digest (QD : QtData) :
  ∃ o1 o2 s1 s2,
    @parseObject asciiText asciiNet plainTime QD o1 None [] 1000 = Ok s1
    ∧ @parseObject asciiText asciiNet plainTime QD o2 None [] 1000 = Ok s2
    ∧ snapshotContentHash s1 = snapshotContentHash s2
    ∧ routes s1 = [lit "9.9.9.9"] ∧ routes s2 = [lit "8.8.4.4"].
Proof.
  exists [(keyDottedExcept, JObject [(lit "9.9.9.9", JString [])]); (keyServerExcept, JObject [])],
    [(keyDottedExcept, JObject [(lit "8.8.4.4", JString [])]); (keyServerExcept, JObject [])].
  do 2 eexists. split; [cbv -[derivedRevision]; reflexivity|].
  split; [cbv -[derivedRevision]; reflexivity|]. by split_and!.
Qed.
