(* ===== verification/UpdatePolicy.v ===== *)
(** * Self-hosted update policy

    Model of client/core/utils/selfhostedUpdatePolicy.h: canonical versions
    and timestamps, cohort assignment, the binding of accepted generations to
    payloads, rollback leases and the choice of the artifact for a platform. *)

From S2P Require Import Prelude Text QtInterface QtModel.
#[local] Open Scope Z_scope.

Definition CohortBucketCount : Z := 10000.
Definition MaximumCohortIdentityLength : Z := 512.

Inductive ManifestResult := ManifestInvalid | ManifestStale | NoUpdate | UpdateAvailable.

Definition shouldTryNextManifest (r : ManifestResult) : bool :=
  match r with ManifestInvalid | ManifestStale => true | _ => false end.

Inductive GenerationBindingDisposition :=
| InvalidCandidate | GenerationStale | MissingPayloadBinding | ConflictingPayload
| AcceptExisting | AcceptAdvance.

Inductive PlatformFamily := Windows | MacOS | IOS | Android | Linux | UnsupportedPlatform.

Inductive ReleasePolicyDisposition :=
| NoDisposition | Eligible | Paused | Expired | VersionIneligible | CohortIneligible.

Inductive RollbackLeaseDisposition := LeaseInvalid | Acquire | Wait | Recover | Exhausted.

Definition releasePolicyDispositionName (d : ReleasePolicyDisposition) : text :=
  match d with
  | Eligible => lit "eligible"
  | Paused => lit "paused"
  | Expired => lit "expired"
  | VersionIneligible => lit "version_ineligible"
  | CohortIneligible => lit "cohort_ineligible"
  | NoDisposition => lit "none"
  end.

(** ** Qt parts used here only *)

Class QtUpdate := {
  version_fromString : text → list Z * Z;     (* QVersionNumber::fromString: segments, suffix index *)
  stamp_parse : text → option (Z * bool);     (* fromString(_, ISODate): instant, timeSpec() == UTC *)
  stamp_format : Z → text;                    (* toString("yyyy-MM-dd'T'HH:mm:ss'Z'") *)
  path_fromNative : text → text;              (* QDir::fromNativeSeparators *)
  path_absolute : text → text;                (* QFileInfo(_).absoluteFilePath() *)
  path_isAbsolute : text → bool;
  path_fileName : text → text;
  path_clean : text → text;                   (* QDir::cleanPath *)
  path_relative : text → text → text;         (* QDir(root).relativeFilePath(path) *)
  uuid_parse : text → option text;            (* QUuid(_): None if null, else toString(WithoutBraces) *)
}.

Class QtUpdateLaws `(U : QtUpdate) : Prop := {
  (* dot-separated decimal segments that fit an int are read whole *)
  version_digits s :
    Forall (λ w, all_digits w = true ∧ dec_value w < 2 ^ 31) (split_char 46 s) →
    version_fromString s = (map dec_value (split_char 46 s), tsize s);
  (* a version read to the end has the values of its segments *)
  version_complete s segments :
    Forall (λ w, all_digits w = true) (split_char 46 s) →
    version_fromString s = (segments, tsize s) → segments ≠ [] →
    segments = map dec_value (split_char 46 s) ∧ Forall (λ n, 0 <= n < 2 ^ 31) segments;
}.

Section update.
Context `{QtText} `{QtData} `{QtUpdate}.

Definition exactVersionPart (part : text) : bool :=
  negb (is_empty part) && negb ((tsize part >? 1) && starts_with [48] part) && forallb is_digit part.

Definition parseExactVersion (value : text) : option (list Z) :=
  if is_empty value || negb (text_eqb value (trimmed value)) then None else
  let parts := split_char 46 value in
  if negb (length parts =? 4)%nat then None else
  if negb (forallb exactVersionPart parts) then None else
  let '(version, suffixIndex) := version_fromString value in
  if bool_decide (version = []) || negb (suffixIndex =? tsize value) || negb (length version =? 4)%nat
  then None else Some version.

(** [timestamp.at(i)] within the checked size. *)
Definition char_at (i : nat) (s : text) : Z := nth i s 0.

Definition parseCanonicalUtcTimestamp (timestamp : text) : option Z :=
  if negb (tsize timestamp =? 20)
     || negb (char_at 4 timestamp =? 45) || negb (char_at 7 timestamp =? 45)
     || negb (char_at 10 timestamp =? 84) || negb (char_at 13 timestamp =? 58)
     || negb (char_at 16 timestamp =? 58) || negb (char_at 19 timestamp =? 90) then None else
  if negb (forallb (λ i, existsb (Nat.eqb i) [4; 7; 10; 13; 16; 19]%nat || is_digit (char_at i timestamp))
             (seq 0 (length timestamp))) then None else
  match stamp_parse timestamp with
  | Some (dateTime, true) => if text_eqb (stamp_format dateTime) timestamp then Some dateTime else None
  | _ => None
  end.

Definition isCanonicalReleaseChannel (value : text) : bool :=
  text_eqb value (lit "stable") || text_eqb value (lit "canary") || text_eqb value (lit "emergency").

Definition saltAlphaNumeric (c : Z) : bool :=
  ((65 <=? c) && (c <=? 90)) || ((97 <=? c) && (c <=? 122)) || ((48 <=? c) && (c <=? 57)).
Definition saltSeparator (c : Z) : bool := (c =? 46) || (c =? 95) || (c =? 45).

Fixpoint saltCharacters (index : nat) (value : text) : bool :=
  match value with
  | [] => true
  | c :: value' =>
      if negb (saltAlphaNumeric c) && ((index =? 0)%nat || negb (saltSeparator c)) then false
      else saltCharacters (S index) value'
  end.

Definition isCanonicalCohortSaltId (value : text) : bool :=
  if is_empty value || (tsize value >? 64) then false else saltCharacters 0 value.

(** One round of the bucket loop, on C++ ints. *)
Definition bucketStep (bucket byte : Z) : Z := Z.rem (bucket * 256 + byte) CohortBucketCount.

Definition cohortInput (cohortSaltId normalizedIdentity : text) : text :=
  lit "amnezia-update-cohort-v1" ++ [0] ++ utf8 cohortSaltId ++ [0] ++ utf8 normalizedIdentity.

Definition cohortBucket (installationIdentity cohortSaltId : text) : Z :=
  if negb (isCanonicalCohortSaltId cohortSaltId)
     || (tsize installationIdentity >? MaximumCohortIdentityLength) then -1 else
  let normalizedIdentity := q_toLower (trimmed installationIdentity) in
  if is_empty normalizedIdentity then -1 else
  let digest := sha256 (cohortInput cohortSaltId normalizedIdentity) in
  foldl bucketStep 0 (take 8 digest).

Definition normalizeSha256 (value : text) : text :=
  filter (λ c, c ≠ 58) (q_toLower (trimmed value)).

Definition isCanonicalSha256 (value : text) : bool := (tsize value =? 64) && forallb is_lower_hex value.

(** The normalised path, [None] when the stored one is refused. *)
Definition normalizedPrivateInstallerStagingPath
    (storedPath tempRoot directoryPrefix installerFileName : text) : option text :=
  let nativeNormalized := path_fromNative storedPath in
  if existsb (λ c, (c <=? 0x1f) || (c =? 0x7f)) nativeNormalized then None else
  let cleanPath := path_clean (path_absolute nativeNormalized) in
  let cleanTempRoot := path_clean (path_absolute tempRoot) in
  if is_empty nativeNormalized || negb (path_isAbsolute nativeNormalized)
     || negb (text_eqb nativeNormalized cleanPath) || is_empty cleanTempRoot
     || negb (text_eqb (path_fileName nativeNormalized) installerFileName) then None else
  match split_char 47 (path_relative cleanTempRoot cleanPath) with
  | [directoryName; file] =>
      if negb (text_eqb file installerFileName) then None else
      if negb (starts_with directoryPrefix directoryName) then None else
      let directoryId := q_toLower (drop (length directoryPrefix) directoryName) in
      match uuid_parse directoryId with
      | None => None
      | Some printed => if text_eqb (q_toLower printed) directoryId then Some cleanPath else None
      end
  | _ => None
  end.

Definition rollbackPolicyBindingMatches (receiptGeneration : Z) (receiptPayloadSha256 : text)
    (acceptedGeneration : Z) (acceptedPayloadSha256 : text) : bool :=
  let receiptDigest := normalizeSha256 receiptPayloadSha256 in
  let acceptedDigest := normalizeSha256 acceptedPayloadSha256 in
  (receiptGeneration >? 0) && (receiptGeneration =? acceptedGeneration)
  && isCanonicalSha256 receiptDigest && text_eqb receiptDigest acceptedDigest.

Definition automaticRollbackRunningVersionAllowed (runningVersion targetVersion rollbackVersion : text) : bool :=
  negb (is_empty runningVersion) && text_eqb runningVersion targetVersion
  && negb (text_eqb runningVersion rollbackVersion).

Definition boundedAuthorizationExpiry (now : qdatetime) (handoffTtlMs : Z) (policyExpiresAt : qdatetime) :
    qdatetime :=
  if negb (dt_isValid now) || (handoffTtlMs <=? 0) then None else
  let ttlExpiry := dt_addMSecs now handoffTtlMs in
  if negb (dt_isValid policyExpiresAt) then ttlExpiry else
  if dt_leb policyExpiresAt now then None else
  if dt_ltb policyExpiresAt ttlExpiry then policyExpiresAt else ttlExpiry.

Definition evaluateRollbackLease (now leaseExpiresAt : qdatetime) (recoveryCount maximumRecoveries : Z) :
    RollbackLeaseDisposition :=
  if negb (dt_isValid now) || (recoveryCount <? 0) || (maximumRecoveries <? 0)
     || (recoveryCount >? maximumRecoveries) then LeaseInvalid else
  if negb (dt_isValid leaseExpiresAt) then
    if recoveryCount =? 0 then Acquire else LeaseInvalid else
  if dt_ltb now leaseExpiresAt then Wait else
  if recoveryCount <? maximumRecoveries then Recover else Exhausted.

Definition evaluateGenerationBinding (candidateGeneration : Z) (candidatePayloadSha256 : text)
    (highestObservedGeneration persistedGeneration : Z) (persistedPayloadSha256 : text) :
    GenerationBindingDisposition :=
  let normalizedCandidateSha256 := normalizeSha256 candidatePayloadSha256 in
  if (candidateGeneration <=? 0) || negb (isCanonicalSha256 normalizedCandidateSha256)
  then InvalidCandidate else
  let generationFloor := Z.max highestObservedGeneration persistedGeneration in
  if candidateGeneration <? generationFloor then GenerationStale else
  if candidateGeneration >? generationFloor then AcceptAdvance else
  if negb (persistedGeneration =? candidateGeneration) || is_empty persistedPayloadSha256
  then MissingPayloadBinding else
  if negb (text_eqb persistedPayloadSha256 normalizedCandidateSha256) then ConflictingPayload
  else AcceptExisting.

Definition platformCandidates (platform : PlatformFamily) (cpuArchitecture : text) : list text :=
  let arch := q_toLower (trimmed cpuArchitecture) in
  let isArm64 := contains_text (lit "arm64") arch || contains_text (lit "aarch64") arch in
  let isArm := isArm64 || contains_text (lit "arm") arch in
  let candidates :=
    match platform with
    | Windows =>
        [(if isArm then lit "windows-arm64" else lit "windows-x64"); lit "windows-x64"; lit "windows"]
    | MacOS => [(if isArm64 then lit "macos-arm64" else lit "macos-x64"); lit "macos-x64"; lit "macos"]
    | IOS => [lit "ios"]
    | Android =>
        (if isArm64 then [lit "android-arm64-v8a"]
         else if isArm then [lit "android-armeabi-v7a"]
         else if contains_text (lit "x86_64") arch || contains_text (lit "amd64") arch
         then [lit "android-x86_64"]
         else if contains_text (lit "x86") arch then [lit "android-x86"] else []) ++ [lit "android"]
    | Linux =>
        (if isArm64 then [lit "linux-arm64"] else if negb isArm then [lit "linux-x64"] else [])
        ++ [lit "linux"]
    | UnsupportedPlatform => []
    end in
  remove_duplicates candidates.

Definition platformArchitecture (platform : PlatformFamily) (runtimeArchitecture buildArchitecture : text) :
    text :=
  match platform with
  | Android => if negb (is_empty (trimmed buildArchitecture)) then buildArchitecture else runtimeArchitecture
  | _ => runtimeArchitecture
  end.

End update.

(** ** Facts *)

Lemma exactVersionPart_spec w : exactVersionPart w = true ↔ canonical_digits w.
Proof.
  unfold exactVersionPart, canonical_digits, all_digits, tsize.
  destruct w as [|c [|d w]]; [naive_solver| |].
  - change (Z.of_nat (length [c]) >? 1) with false. cbn [is_empty negb andb]. naive_solver.
  - cbn [is_empty negb andb starts_with]. rewrite Z.gtb_ltb, (proj2 (Z.ltb_lt _ _)) by (simpl; lia).
    rewrite andb_true_l, andb_true_r, andb_true_iff, negb_true_iff, Z.eqb_neq. naive_solver.
Qed.

Lemma bucketStep_bounds bucket b :
  0 <= bucket < CohortBucketCount → 0 <= b < 256 →
  0 <= bucket * 256 + b < 2 ^ 31 ∧ 0 <= bucketStep bucket b < CohortBucketCount
  ∧ bucketStep bucket b = (bucket * 256 + b) mod CohortBucketCount.
Proof.
  unfold bucketStep, CohortBucketCount. intros Hk Hb.
  rewrite Z.rem_mod_nonneg by lia. pose proof (Z.mod_pos_bound (bucket * 256 + b) 10000 ltac:(lia)). lia.
Qed.

Lemma bucket_fold bytes :
  Forall (λ b, 0 <= b < 256) bytes →
  0 <= foldl bucketStep 0 bytes < CohortBucketCount
  ∧ foldl bucketStep 0 bytes = be_value bytes mod CohortBucketCount.
Proof.
  induction bytes as [|b bytes IH] using rev_ind; [done|].
  rewrite Forall_app, Forall_singleton, foldl_app. intros [Hl Hb]. destruct (IH Hl) as [H1 H2]. cbn [foldl].
  destruct (bucketStep_bounds _ b H1 Hb) as (_ & H3 & H4). split; [done|].
  rewrite H4, H2, be_value_snoc. unfold CohortBucketCount.
  rewrite Z.add_mod, Z.mul_mod_idemp_l, <-Z.add_mod by lia. done.
Qed.

(** ** Properties *)

Section properties.
Context `{QT : QtText} `{QD : QtData} `{QU : QtUpdate}.

(** The binding of generations to payloads admits no rollback and no
    substitution; every verdict is characterised: a candidate advances exactly
    when it is well formed and strictly newer than everything observed or
    persisted, is re-accepted exactly when it is the persisted generation with
    the persisted digest and nothing newer was observed, and is otherwise
    refused as invalid, stale, unbound or conflicting. *)
Theorem generation_binding_exact cand sha highest persisted persistedSha :
  let digest := normalizeSha256 sha in
  let valid := 0 < cand ∧ isCanonicalSha256 digest = true in
  let r := evaluateGenerationBinding cand sha highest persisted persistedSha in
  (r = InvalidCandidate ↔ ¬ valid)
  ∧ (r = GenerationStale ↔ valid ∧ (cand < highest ∨ cand < persisted))
  ∧ (r = AcceptAdvance ↔ valid ∧ highest < cand ∧ persisted < cand)
  ∧ (r = AcceptExisting ↔ valid ∧ persisted = cand ∧ highest <= cand ∧ persistedSha = digest)
  ∧ (r = ConflictingPayload ↔
     valid ∧ persisted = cand ∧ highest <= cand ∧ persistedSha ≠ [] ∧ persistedSha ≠ digest)
  ∧ (r = MissingPayloadBinding ↔
     valid ∧ ((highest = cand ∧ persisted < cand)
              ∨ (persisted = cand ∧ highest <= cand ∧ persistedSha = []))).
Proof.
  intros digest valid r. subst r valid. unfold evaluateGenerationBinding. fold digest. cbv zeta.
  assert (isCanonicalSha256 digest = true → digest ≠ []) as Hne by (by intros H ->).
  destruct (cand <=? 0) eqn:E0, (isCanonicalSha256 digest) eqn:Es; bprop; cbn [orb negb];
    try (split_and!; split; naive_solver lia).
  specialize (Hne eq_refl).
  destruct (cand <? Z.max highest persisted) eqn:E1; bprop; [split_and!; split; try done; intros; lia|].
  destruct (cand >? Z.max highest persisted) eqn:E2; bprop; [split_and!; split; try done; intros; lia|].
  destruct (persisted =? cand) eqn:E3; bprop; cbn [negb orb].
  - destruct (is_empty persistedSha) eqn:E4.
    + apply is_empty_true in E4. subst. split_and!; split; try done; try (intros; lia); naive_solver lia.
    + apply is_empty_false in E4. destruct (text_eqb persistedSha digest) eqn:E5; cbn [negb].
      * apply text_eqb_eq in E5. subst. split_and!; split; try done; try (intros; lia); naive_solver lia.
      * apply text_eqb_neq in E5. split_and!; split; try done; try (intros; lia); naive_solver lia.
  - split_and!; split; try done; try (intros; lia).
Qed.
(** A handoff authorisation never outlives either bound: it exists exactly
    when the clock is valid, the lifetime positive and the policy not yet
    expired, and then expires at the earlier of the two limits, strictly after
    now. *)
Theorem authorization_expiry_is_minimum now ttl policy e :
  boundedAuthorizationExpiry now ttl policy = Some e ↔
  ∃ n, now = Some n ∧ 0 < ttl
    ∧ match policy with
      | None => e = n + ttl
      | Some x => n < x ∧ e = Z.min x (n + ttl)
      end.
Proof.
  unfold boundedAuthorizationExpiry. cbv zeta. destruct now as [n|]; [|naive_solver].
  change (dt_isValid (Some n)) with true. cbn [negb orb].
  destruct (ttl <=? 0) eqn:Et; bprop; [split; [done|]; intros (? & _ & ? & _); lia|].
  destruct policy as [x|].
  - change (dt_isValid (Some x)) with true. cbn [negb dt_leb dt_ltb dt_addMSecs fmap option_fmap option_map].
    destruct (x <=? n) eqn:Ex; bprop; [split; [done|]; intros (? & [= <-] & _ & ? & _); lia|].
    destruct (x <? n + ttl) eqn:Em; bprop; split.
    + intros [= <-]. exists n. split_and!; [done..|]. lia.
    + intros (? & [= <-] & _ & _ & ->). f_equal. lia.
    + intros [= <-]. exists n. split_and!; [done..|]. lia.
    + intros (? & [= <-] & _ & _ & ->). f_equal. lia.
  - change (dt_isValid None) with false. cbn. split; [|naive_solver]. intros [= <-]. by exists n.
Qed.

(** An accepted staging path is confined: it is the stored path itself,
    absolute, clean and free of control characters, and lies exactly one
    directory below the temporary root, in a directory named by the prefix and
    a UUID in its canonical spelling (up to case), under the installer's file
    name. *)
Theorem staging_path_confined stored tempRoot prefix installer path :
  normalizedPrivateInstallerStagingPath stored tempRoot prefix installer = Some path →
  path = path_fromNative stored ∧ path_isAbsolute path = true
  ∧ path = path_clean (path_absolute path)
  ∧ Forall (λ c, 0x1f < c ∧ c ≠ 0x7f) path ∧ path_fileName path = installer
  ∧ ∃ id printed, path_relative (path_clean (path_absolute tempRoot)) path = prefix ++ id ++ [47] ++ installer
      ∧ 47 ∉ prefix ++ id ∧ 47 ∉ installer
      ∧ uuid_parse (q_toLower id) = Some printed ∧ q_toLower printed = q_toLower id.
Proof.
  unfold normalizedPrivateInstallerStagingPath. cbv zeta. set (p := path_fromNative stored).
  destruct (existsb _ p) eqn:Hctl; [done|].
  destruct (is_empty p || _ || _ || _ || _) eqn:G; [done|]. bprop.
  apply text_eqb_eq in H0, H2. rewrite <-H2.
  set (root := path_clean (path_absolute tempRoot)) in *.
  destruct (split_char_spec 47 (path_relative root p)) as [Hj Hn].
  destruct (split_char 47 (path_relative root p)) as [|dir [|file [|]]]; try done.
  destruct (text_eqb file installer) eqn:Hf; [|done]. apply text_eqb_eq in Hf as ->. cbn [negb].
  destruct (starts_with prefix dir) eqn:Hp; [|done]. apply starts_with_true in Hp as [id ->]. cbn [negb].
  rewrite drop_app_length. destruct (uuid_parse (q_toLower id)) as [printed|] eqn:Hu; [|done].
  destruct (text_eqb _ _) eqn:He; [|done]. apply text_eqb_eq in He. intros [= <-].
  inversion Hn as [|?? Hn1 Hn2]; subst. inversion Hn2; subst.
  split_and!; [done..| |done|].
  - rewrite existsb_false_iff in Hctl. apply Forall_forall. intros c Hc%Hctl. bprop. lia.
  - exists id, printed. split_and!; [|done..]. rewrite <-Hj. simpl. by rewrite <-app_assoc.
Qed.

(** ARM clients on Linux are never offered an x64 artifact, and for every
    platform the candidates are distinct, at most three, and end with the
    architecture-neutral key (none at all for an unsupported platform). *)
Theorem platform_candidates_sound platform arch :
  let l := platformCandidates platform arch in
  NoDup l ∧ (length l ≤ 3)%nat
  ∧ (platform = Linux → contains_text (lit "arm") (q_toLower (trimmed arch)) = true
                        ∨ contains_text (lit "aarch64") (q_toLower (trimmed arch)) = true → lit "linux-x64" ∉ l)
  ∧ last l = match platform with
             | Windows => Some (lit "windows") | MacOS => Some (lit "macos") | IOS => Some (lit "ios")
             | Android => Some (lit "android") | Linux => Some (lit "linux") | UnsupportedPlatform => None
             end.
Proof.
  intros l. split; [apply remove_duplicates_NoDup|]. subst l. unfold platformCandidates. cbv zeta.
  set (a := q_toLower (trimmed arch)).
  set (arm64 := contains_text (lit "arm64") a || contains_text (lit "aarch64") a).
  assert (contains_text (lit "aarch64") a = true → arm64 = true) as Haarch.
  { intros E. subst arm64. rewrite E. apply orb_true_r. }
  destruct (contains_text (lit "arm") a), (contains_text (lit "aarch64") a), arm64, platform;
    try (specialize (Haarch eq_refl); done); cbn [orb negb];
    repeat match goal with |- context [if ?b then _ else _] => destruct b end;
    (split_and!; [vm_compute; lia| |vm_compute; reflexivity]);
    try done; intros _ Hor; try (by destruct Hor);
    (apply (bool_decide_unpack _); vm_compute; exact I).
Qed.

Context `{!QtDataLaws QD}.

(** Cohort assignment is the digest prefix reduced modulo 10000: for an
    admissible salt and identity the bucket is the first eight digest bytes,
    read as a big-endian number, modulo the bucket count, it lies in 0..9999,
    and no step of the loop leaves the range of a 32-bit int; otherwise the
    bucket is -1. *)
Theorem cohort_bucket_reference identity salt :
  let normalized := q_toLower (trimmed identity) in
  let bytes := take 8 (sha256 (cohortInput salt normalized)) in
  if isCanonicalCohortSaltId salt && (tsize identity <=? 512) && negb (is_empty normalized) then
    cohortBucket identity salt = be_value bytes mod 10000
    ∧ 0 <= cohortBucket identity salt < 10000 ∧ length bytes = 8%nat
    ∧ ∀ done_ b rest, bytes = done_ ++ b :: rest → 0 <= foldl bucketStep 0 done_ * 256 + b < 2 ^ 31
  else cohortBucket identity salt = -1.
Proof.
  intros normalized bytes. unfold cohortBucket, MaximumCohortIdentityLength. cbv zeta.
  rewrite Z.gtb_ltb, Z.ltb_antisym. fold normalized.
  destruct (isCanonicalCohortSaltId salt); [|done]. destruct (tsize identity <=? 512); [|done].
  destruct (is_empty normalized); [done|]. cbn [negb orb andb]. fold bytes.
  assert (Forall (λ b, 0 <= b < 256) bytes) as Hb by apply Forall_take, sha256_bytes.
  destruct (bucket_fold bytes Hb) as [H1 H2]. split; [exact H2|]. split; [exact H1|]. split.
  - subst bytes. rewrite length_take, sha256_length. lia.
  - intros d b rest E. rewrite E, Forall_app, Forall_cons in Hb. destruct Hb as (Hd & Hb & _).
    apply bucketStep_bounds; [|done]. by apply bucket_fold.
Qed.

Context `{!QtTextLaws QT} `{!QtUpdateLaws QU}.

Lemma version_text_visible l :
  Forall (λ n, 0 <= n) l →
  Forall (λ c, is_ascii c = true ∧ ascii_space c = false) (join [46] (map number l)).
Proof.
  assert (∀ n, 0 <= n → Forall (λ c, is_ascii c = true ∧ ascii_space c = false) (number n)) as Hn.
  { intros n Hn. apply Forall_forall. intros c Hc%number_chars; [|done]. unfold is_ascii, ascii_space. lia. }
  induction 1 as [|n l Hn0 Hl IH]; [constructor|]. cbn [map join]. destruct (map number l) as [|w ws] eqn:E; [by apply Hn|].
  rewrite !Forall_app. split_and!; [by apply Hn|by repeat constructor|done].
Qed.

(** The versions accepted are exactly the canonical ones: a text is parsed
    to a version if and only if it is the dotted decimal spelling of four
    numbers that fit an int, so that receipts can be compared as text. *)
Theorem exact_version_canonical value version :
  parseExactVersion value = Some version ↔
  length version = 4%nat ∧ Forall (λ n, 0 <= n < 2 ^ 31) version
  ∧ value = join [46] (map number version).
Proof.
  unfold parseExactVersion. cbv zeta. split.
  - destruct (_ || _) eqn:G; [done|]. destruct (negb (length _ =? 4)%nat) eqn:Hlen; [done|].
    destruct (negb (forallb _ _)) eqn:Hp; [done|]. bprop. rewrite forallb_true_iff in Hp.
    destruct (version_fromString value) as [segs suffix] eqn:Hv.
    destruct (bool_decide (segs = []) || _ || _) eqn:G2; [done|]. bprop. intros [= <-].
    assert (Forall canonical_digits (split_char 46 value)) as Hc.
    { eapply Forall_impl; [exact Hp|]. intros w. apply exactVersionPart_spec. }
    subst suffix. destruct (version_complete value segs) as [-> Hb]; [|done|done|].
    { eapply Forall_impl; [exact Hc|]. by intros w [Hw _]. }
    split_and!; [by rewrite length_map; apply Nat.eqb_eq|done|].
    rewrite map_map. destruct (split_char_spec 46 value) as [Hj _]. rewrite <-Hj at 1. f_equal.
    clear -Hc. induction Hc as [|w ws Hw Hws IH]; [done|]. simpl. by rewrite number_dec_value, <-IH.
  - intros (Hlen & Hb & ->).
    assert (Forall (λ n, 0 <= n) version) as Hnn by (eapply Forall_impl; [exact Hb|]; simpl; lia).
    assert (split_char 46 (join [46] (map number version)) = map number version) as Hs.
    { apply split_char_join; [by destruct version|]. apply Forall_map. eapply Forall_impl; [exact Hnn|].
      simpl. intros n Hn Hc%number_chars; lia. }
    assert (map dec_value (map number version) = version) as Hval.
    { rewrite map_map. clear -Hnn. induction Hnn; simpl; [done|]. by rewrite number_value, IHHnn. }
    rewrite trimmed_visible, text_eqb_refl by (by apply version_text_visible). rewrite orb_false_r.
    destruct (is_empty _) eqn:He.
    { apply is_empty_true in He. rewrite He in Hs. by destruct version as [|n [|]]. }
    rewrite Hs, length_map, Hlen, Nat.eqb_refl. cbn [negb].
    assert (forallb exactVersionPart (map number version) = true) as ->.
    { apply forallb_true_iff, Forall_map. eapply Forall_impl; [exact Hnn|]. intros n Hn.
      by apply exactVersionPart_spec, number_canonical. }
    rewrite version_digits, Hs, Hval.
    + rewrite Z.eqb_refl, Hlen, Nat.eqb_refl, bool_decide_false by (by destruct version). done.
    + rewrite Hs. apply Forall_map. eapply Forall_impl; [exact Hb|]. simpl. intros n Hn.
      split; [apply number_all_digits; lia|rewrite number_value; lia].
Qed.
End properties.

(** ** The properties at concrete inputs *)

(** Versions by splitting, paths by text, instants as their own digits. *)
#[local] Instance toyUpdate : QtUpdate := {|
  version_fromString := λ s,
    if forallb (λ w, all_digits w && (dec_value w <? 2 ^ 31)) (split_char 46 s)
    then (map dec_value (split_char 46 s), tsize s) else ([], 0);
  stamp_parse := λ s, None;
  stamp_format := number;
  path_fromNative := λ s, s;
  path_absolute := λ s, s;
  path_isAbsolute := starts_with [47];
  path_fileName := λ s, default [] (last (split_char 47 s));
  path_clean := λ s, s;
  path_relative := λ root path, drop (S (length root)) path;
  uuid_parse := λ s, if (tsize s =? 4) && forallb is_lower_hex s then Some s else None;
|}.

#[local] Instance toyUpdate_laws : QtUpdateLaws toyUpdate.
Proof.
  split.
  - intros s Hs. simpl. rewrite (proj2 (forallb_true_iff _ _)); [done|].
    eapply Forall_impl; [exact Hs|]. simpl. intros w [-> Hw]. by apply Z.ltb_lt.
  - intros s segments Hd E Hne. simpl in E.
    destruct (forallb _ (split_char 46 s)) eqn:F; [|by simplify_eq]. simplify_eq. split; [done|].
    rewrite forallb_true_iff in F. apply Forall_map. eapply Forall_impl; [exact F|]. simpl. intros w Hw. bprop.
    unfold all_digits in *. bprop. split; [by apply dec_value_digits_nonneg|done].
Qed.

Lemma staging_path_confined_witness :
  ∃ path, @normalizedPrivateInstallerStagingPath asciiText toyUpdate (lit "/tmp/amn-00ff/setup.exe")
            (lit "/tmp") (lit "amn-") (lit "setup.exe") = Some path
    ∧ path = lit "/tmp/amn-00ff/setup.exe".
Proof.
  eexists. split; [vm_compute; reflexivity|].
  eapply (@staging_path_confined asciiText toyUpdate (lit "/tmp/amn-00ff/setup.exe")
            (lit "/tmp") (lit "amn-") (lit "setup.exe")).
  vm_compute. reflexivity.
Defined.

Lemma platform_candidates_sound_witness :
  @platformCandidates asciiText Linux (lit "ARMv7") = [lit "linux"]
  ∧ lit "linux-x64" ∉ @platformCandidates asciiText Linux (lit "ARMv7").
Proof.
  split; [vm_compute; reflexivity|].
  apply (@platform_candidates_sound asciiText Linux (lit "ARMv7")); [reflexivity|].
  left. vm_compute. reflexivity.
Defined.

Lemma cohort_bucket_reference_witness :
  let bytes := take 8 (@sha256 toyData (@cohortInput toyData (lit "salt.1") (lit "client"))) in
  @cohortBucket asciiText toyData (lit " Client ") (lit "salt.1") = be_value bytes mod 10000.
Proof.
  intros bytes. exact (proj1 (@cohort_bucket_reference asciiText toyData toyData_laws (lit " Client ") (lit "salt.1"))).
Defined.

Lemma exact_version_canonical_witness :
  @parseExactVersion asciiText toyUpdate (lit "4.9.0.11") = Some [4; 9; 0; 11]
  ∧ @parseExactVersion asciiText toyUpdate (lit "04.9.0.11") = None.
Proof.
  split; [|vm_compute; reflexivity].
  apply (@exact_version_canonical asciiText toyUpdate asciiText_laws toyUpdate_laws).
  split; [reflexivity|]. split; [|vm_compute; reflexivity].
  repeat constructor; lia.
Defined.
