(* ===== verification/DnsConvergence.v ===== *)
(** * Convergence of the client-side resolution of managed sites

    Model of client/core/utils/managedDnsConvergence.h: the schedule of
    resolution cycles, the gate that spaces reconnects, and the state of one
    cycle of lookups, driven in the order client/core/controllers/
    connectionController.cpp drives it. *)

From S2P Require Import Prelude Text Json QtInterface QtModel.
#[local] Open Scope Z_scope.

Definition int_max : Z := 2 ^ 31 - 1.

Section schedule.
Context `{QtText} `{QtTime}.

(** [nowUtc] is a valid date: milliseconds since the epoch. *)
Definition initialDelayMs (retryAfterIso : text) (nowUtc : Z) (defaultDelayMs : Z) : Z :=
  match dt_fromIso retryAfterIso with
  | None => defaultDelayMs
  | Some retryAfter =>
      let retryDelayMs := retryAfter - nowUtc in
      if retryDelayMs <=? 0 then defaultDelayMs else Z.min retryDelayMs int_max
  end.

Definition cycleNeeds (baseline : jobject) (persistedPending : list text) (refreshAll : bool)
    (domain : text) : bool :=
  refreshAll || bool_decide (domain ∈ persistedPending) || negb (jcontains domain baseline)
  || is_empty (trimmed (to_string [] (jvalue domain baseline))).

Definition pendingDomainsForCycle (domains : list text) (baseline : jobject)
    (persistedPending : list text) (refreshAll : bool) : list text :=
  foldl (λ pending domain,
           if bool_decide (domain ∈ pending) then pending
           else if cycleNeeds baseline persistedPending refreshAll domain then pending ++ [domain]
           else pending) [] domains.

Definition fullSweepDue (lastFullSweepAtIso : text) (nowUtc refreshIntervalSeconds : Z) : bool :=
  if refreshIntervalSeconds <=? 0 then true else
  match dt_fromIso lastFullSweepAtIso with
  | None => true
  | Some lastFullSweepAt =>
      if lastFullSweepAt >? nowUtc + 1000 * (10 * 60) then true
      else lastFullSweepAt + 1000 * refreshIntervalSeconds <=? nowUtc
  end.

Definition completeCacheRefreshDue (lastFullSweepAtIso resolvedAtIso : text)
    (nowUtc refreshIntervalSeconds : Z) : bool :=
  fullSweepDue
    (if dt_isValid (dt_fromIso lastFullSweepAtIso) then lastFullSweepAtIso else resolvedAtIso)
    nowUtc refreshIntervalSeconds.
End schedule.

(** ** The reconnect gate *)

Record ReconnectGate := Gate {
  gateServerId : text;
  immediateAvailable : bool;
  gatePending : bool;
  lastReconnectMs : Z;
}.

Record Request := MkRequest { requestAccepted : bool; newlyPending : bool; delayMs : Z }.

Definition initialGate : ReconnectGate := Gate [] false false (-1).

Definition beginSession (serverId : text) (g : ReconnectGate) : ReconnectGate :=
  Gate serverId (negb (is_empty serverId)) false (-1).

Definition clearGate (g : ReconnectGate) : ReconnectGate := Gate [] false false (-1).

Definition remainingDelayMs (g : ReconnectGate) (nowMs minimumIntervalMs : Z) : Z :=
  if immediateAvailable g || (lastReconnectMs g <? 0) then 0
  else
    let elapsedMs := Z.max 0 (nowMs - lastReconnectMs g) in
    Z.max 0 (minimumIntervalMs - elapsedMs).

Definition request (serverId : text) (nowMs minimumIntervalMs : Z) (g : ReconnectGate) :
    ReconnectGate * Request :=
  if is_empty serverId || negb (text_eqb serverId (gateServerId g)) || (nowMs <? 0)
     || (minimumIntervalMs <? 0) then (g, MkRequest false false 0) else
  if gatePending g then (g, MkRequest true false (remainingDelayMs g nowMs minimumIntervalMs))
  else
    let g := Gate (gateServerId g) (immediateAvailable g) true (lastReconnectMs g) in
    (g, MkRequest true true (remainingDelayMs g nowMs minimumIntervalMs)).

Definition takeDue (serverId : text) (nowMs minimumIntervalMs : Z) (g : ReconnectGate) :
    ReconnectGate * bool :=
  if negb (gatePending g) || negb (text_eqb serverId (gateServerId g))
     || (remainingDelayMs g nowMs minimumIntervalMs >? 0) then (g, false)
  else (Gate (gateServerId g) (immediateAvailable g) false (lastReconnectMs g), true).

Definition recordReconnect (serverId : text) (nowMs : Z) (g : ReconnectGate) : ReconnectGate :=
  if negb (text_eqb serverId (gateServerId g)) || (nowMs <? 0) then g
  else Gate (gateServerId g) false (gatePending g) nowMs.

Definition cancelPending (g : ReconnectGate) : ReconnectGate :=
  Gate (gateServerId g) (immediateAvailable g) false (lastReconnectMs g).

(** ** One cycle of lookups *)

Record State := MkState {
  active : bool;
  serverId : text;
  sourceDigest : text;
  domains : list text;
  pending : list text;
  cache : jobject;
  completedWaves : Z;
  finalized : bool;
}.

Definition initialState : State := MkState false [] [] [] [] [] 0 false.

Definition begin (server digest : text) (ds : list text) (baseline : jobject) (pendingDomains : list text)
    (s : State) : State :=
  MkState true server digest ds pendingDomains baseline 0 false.

Definition clear (s : State) : State := MkState false [] [] [] [] [] 0 false.

Definition matches (s : State) (server digest : text) : bool :=
  active s && text_eqb (serverId s) server && text_eqb (sourceDigest s) digest.

Definition complete (s : State) : bool := active s && bool_decide (pending s = []).

Definition takePendingWave (s : State) : State * list text :=
  (MkState (active s) (serverId s) (sourceDigest s) (domains s) [] (cache s) (completedWaves s)
     (finalized s), pending s).

Definition recordSuccess (domain canonicalAddresses : text) (s : State) : State * bool :=
  if negb (active s) || negb (bool_decide (domain ∈ domains s)) || is_empty canonicalAddresses
  then (s, false)
  else (MkState (active s) (serverId s) (sourceDigest s) (domains s) (pending s)
          (jinsert domain (JString canonicalAddresses) (cache s)) (completedWaves s) (finalized s), true).

Definition recordFailure (domain : text) (s : State) : State :=
  if active s && bool_decide (domain ∈ domains s) && negb (bool_decide (domain ∈ pending s))
  then MkState (active s) (serverId s) (sourceDigest s) (domains s) (pending s ++ [domain]) (cache s)
         (completedWaves s) (finalized s)
  else s.

Definition finishWave (s : State) : State :=
  if active s && negb (finalized s)
  then MkState (active s) (serverId s) (sourceDigest s) (domains s) (pending s) (cache s)
         (completedWaves s + 1) (finalized s)
  else s.

Definition shouldRetry (s : State) (maximumRetryWaves : Z) : bool :=
  active s && negb (finalized s) && negb (bool_decide (pending s = []))
  && (completedWaves s <=? maximumRetryWaves).

Definition tryFinalize (s : State) : State * bool :=
  if negb (active s) || finalized s then (s, false)
  else (MkState (active s) (serverId s) (sourceDigest s) (domains s) (pending s) (cache s)
          (completedWaves s) true, true).

(** ** The gate as a transition system *)

(** The states a gate goes through after a reconnect recorded at [t0] in the
    session of [id], while that session lasts and the clock does not run back. *)
Inductive sessionRun (id : text) (t0 : Z) : ReconnectGate → Prop :=
| run_recorded g :
    gateServerId g = id → 0 <= t0 → sessionRun id t0 (recordReconnect id t0 g)
| run_request g sid now min : sessionRun id t0 g → sessionRun id t0 (request sid now min g).1
| run_due g sid now min : sessionRun id t0 g → sessionRun id t0 (takeDue sid now min g).1
| run_record g sid now : t0 <= now → sessionRun id t0 g → sessionRun id t0 (recordReconnect sid now g)
| run_cancel g : sessionRun id t0 g → sessionRun id t0 (cancelPending g).

Lemma sessionRun_inv id t0 g :
  sessionRun id t0 g → immediateAvailable g = false ∧ 0 <= t0 <= lastReconnectMs g.
Proof.
  induction 1 as [g <- H0|g sid now min Hr [IH1 IH2]|g sid now min Hr [IH1 IH2]|g sid now Ht Hr [IH1 IH2]
                 |g Hr [IH1 IH2]].
  - unfold recordReconnect. rewrite text_eqb_refl, (proj2 (Z.ltb_ge _ _)) by done. simpl. lia.
  - unfold request. destruct (_ || _); [done|]. by destruct (gatePending g).
  - unfold takeDue. by destruct (_ || _).
  - unfold recordReconnect. destruct (_ || _); [done|]. simpl. lia.
  - done.
Qed.

(** Calls on the gate, and how many of them scheduled or took a reconnect. *)
Inductive gateOp :=
| OpBegin (id : text)
| OpClear
| OpRequest (id : text) (now min : Z)
| OpTakeDue (id : text) (now min : Z)
| OpRecord (id : text) (now : Z)
| OpCancel.

Definition gateStep (st : ReconnectGate * (Z * Z)) (op : gateOp) : ReconnectGate * (Z * Z) :=
  let '(g, (scheduled, taken)) := st in
  match op with
  | OpBegin id => (beginSession id g, (scheduled, taken))
  | OpClear => (clearGate g, (scheduled, taken))
  | OpRequest id now min =>
      let '(g, r) := request id now min g in (g, (scheduled + Z.b2z (newlyPending r), taken))
  | OpTakeDue id now min =>
      let '(g, due) := takeDue id now min g in (g, (scheduled, taken + Z.b2z due))
  | OpRecord id now => (recordReconnect id now g, (scheduled, taken))
  | OpCancel => (cancelPending g, (scheduled, taken))
  end.

Definition gateCredit (st : ReconnectGate * (Z * Z)) : Prop :=
  st.2.2 + Z.b2z (gatePending st.1) <= st.2.1.

Lemma gateStep_credit st op : gateCredit st → gateCredit (gateStep st op).
Proof.
  destruct st as [g [n k]]. unfold gateCredit. cbn [fst snd]. intros Hc.
  assert (0 <= Z.b2z (gatePending g)) by (destruct (gatePending g); simpl; lia).
  destruct op as [id| |id now min|id now min|id now|]; cbn [gateStep].
  - simpl. lia.
  - simpl. lia.
  - unfold request. destruct (_ || _); [simpl; lia|]. destruct (gatePending g) eqn:E; simpl in *; rewrite ?E; simpl; lia.
  - unfold takeDue. destruct (gatePending g) eqn:E; cbn [negb orb]; [|simpl; rewrite E; simpl; lia].
    destruct (_ || _); simpl in *; rewrite ?E; simpl; lia.
  - unfold recordReconnect. destruct (_ || _); simpl; lia.
  - simpl. lia.
Qed.

Lemma foldl_gateStep_credit ops st : gateCredit st → gateCredit (foldl gateStep st ops).
Proof. revert st. induction ops as [|op ops IH]; intros st Hst; simpl; [done|]. by apply IH, gateStep_credit. Qed.

(** ** Driving a cycle *)

(** One lookup of a wave: [Some a] when it gave the addresses [a]. *)
Definition recordOutcome (answer : text → option text) (s : State) (domain : text) : State :=
  match answer domain with
  | Some a => let '(s', ok) := recordSuccess domain a s in if ok then s' else recordFailure domain s
  | None => recordFailure domain s
  end.

Definition runWave (answer : text → option text) (s : State) : State :=
  let '(s, wave) := takePendingWave s in finishWave (foldl (recordOutcome answer) s wave).

(** Waves until the cycle is finalised, as ConnectionController drives them
    while the connection, the server and the digest of the source sites stay as
    they are; when one of them changes it abandons the cycle.  [expired n] when
    the deadline passed during the [n]-th wave.  [None] only when the fuel runs
    out. *)
Fixpoint converge (fuel : nat) (answer : nat → text → option text) (expired : nat → bool)
    (maximumRetryWaves : Z) (n : nat) (s : State) : option State :=
  match fuel with
  | O => None
  | S fuel' =>
      let s := runWave (answer n) s in
      if negb (complete s) && negb (expired n) && shouldRetry s maximumRetryWaves
      then converge fuel' answer expired maximumRetryWaves (S n) s
      else Some (tryFinalize s).1
  end.

Section cycle.
Context (ds : list text) (baseline : jobject) (pend : list text).
Context (answer : nat → text → option text).

Definition answered (o : option text) : bool := match o with Some (_ :: _) => true | _ => false end.

(** What a wave does to the fields of the state. *)
Lemma outcomes_spec (ans : text → option text) w s :
  active s = true → NoDup w → (∀ d, d ∈ w → d ∈ domains s ∧ d ∉ pending s) →
  let s' := foldl (recordOutcome ans) s w in
  active s' = true ∧ finalized s' = finalized s ∧ domains s' = domains s
  ∧ completedWaves s' = completedWaves s
  ∧ pending s' = pending s ++ filter (λ d, answered (ans d) = false) w
  ∧ (∀ k, jvalue k (cache s')
          = if bool_decide (k ∈ w) && answered (ans k) then JString (default [] (ans k))
            else jvalue k (cache s)).
Proof.
  revert s. induction w as [|d w IH]; intros s Ha Hnd Hw; cbn [foldl].
  { split_and!; [done..|by rewrite app_nil_r|done]. }
  apply NoDup_cons in Hnd as [Hd Hnd]. destruct (Hw d ltac:(set_solver)) as [Hdom Hpen].
  assert (recordFailure d s = MkState (active s) (serverId s) (sourceDigest s) (domains s) (pending s ++ [d])
            (cache s) (completedWaves s) (finalized s)) as Hfail.
  { unfold recordFailure. by rewrite Ha, bool_decide_true, bool_decide_false by done. }
  rewrite filter_cons. destruct (answered (ans d)) eqn:Hans.
  - rewrite decide_False by done. destruct (ans d) as [[|c a]|] eqn:Ed; try done.
    assert (recordOutcome ans s d = MkState (active s) (serverId s) (sourceDigest s) (domains s) (pending s)
              (jput d (JString (c :: a)) (cache s)) (completedWaves s) (finalized s)) as ->.
    { unfold recordOutcome, recordSuccess. by rewrite Ed, Ha, bool_decide_true by done. }
    destruct (IH (MkState (active s) (serverId s) (sourceDigest s) (domains s) (pending s)
              (jput d (JString (c :: a)) (cache s)) (completedWaves s) (finalized s)))
      as (H1 & H2 & H3 & H4 & H5 & H6); [done|done|intros x Hx; apply Hw; set_solver|].
    split_and!; [done..|]. intros k. rewrite H6. cbn [cache]. destruct (decide (k = d)) as [->|Hne].
    + rewrite bool_decide_false, bool_decide_true by set_solver. rewrite Ed. cbn. apply jvalue_jput_eq.
    + rewrite (bool_decide_ext (k ∈ d :: w) (k ∈ w)) by set_solver.
      destruct (_ && _); [done|]. by apply jvalue_jput_ne.
  - rewrite decide_True by done.
    assert (recordOutcome ans s d = recordFailure d s) as ->.
    { unfold recordOutcome, recordSuccess. destruct (ans d) as [[|]|]; try done. by rewrite !orb_true_r. }
    rewrite Hfail.
    destruct (IH (MkState (active s) (serverId s) (sourceDigest s) (domains s) (pending s ++ [d])
              (cache s) (completedWaves s) (finalized s)))
      as (H1 & H2 & H3 & H4 & H5 & H6); [done|done|intros x Hx; cbn; set_solver|].
    cbn [pending] in H5. split_and!; [done..|by rewrite H5, <-app_assoc|]. intros k. rewrite H6. cbn [cache].
    destruct (decide (k = d)) as [->|Hne].
    + by rewrite Hans, !andb_false_r.
    + by rewrite (bool_decide_ext (k ∈ d :: w) (k ∈ w)) by set_solver.
Qed.

(** The state after some waves of the cycle. *)
Definition cycleInv (n : Z) (s : State) : Prop :=
  active s = true ∧ finalized s = false ∧ domains s = ds ∧ completedWaves s = n
  ∧ NoDup (pending s) ∧ (∀ d, d ∈ pending s → d ∈ pend)
  ∧ (∀ d, d ∈ pend → d ∉ pending s →
      ∃ i a, answer i d = Some a ∧ a ≠ [] ∧ jvalue d (cache s) = JString a)
  ∧ (∀ d, d ∈ pending s ∨ d ∉ pend → jvalue d (cache s) = jvalue d baseline).

Lemma runWave_inv i n s :
  (∀ d, d ∈ pend → d ∈ ds) → cycleInv n s → cycleInv (n + 1) (runWave (answer i) s).
Proof.
  intros Hds (H1 & H2 & H3 & H4 & H5 & H6 & H7 & H8). unfold runWave. cbn [takePendingWave].
  destruct (outcomes_spec (answer i) (pending s)
    (MkState (active s) (serverId s) (sourceDigest s) (domains s) [] (cache s) (completedWaves s) (finalized s)))
    as (O1 & O2 & O3 & O4 & O5 & O6); [done|done|cbn; set_solver|].
  set (s' := foldl _ _ _) in *. cbn [finalized domains completedWaves pending cache app] in *.
  unfold finishWave. rewrite O1, O2, H2. cbn [andb negb].
  unfold cycleInv. cbn [active finalized domains completedWaves pending cache]. rewrite O5.
  split_and!; [done|done|congruence|lia|by apply NoDup_filter| | |].
  - intros d [_ Hd]%list_elem_of_filter. by apply H6.
  - intros d Hd Hn. rewrite O6. destruct (decide (d ∈ pending s)) as [Hp|Hp].
    + destruct (answered (answer i d)) eqn:Ha.
      * destruct (answer i d) as [[|c a]|] eqn:Ed; try done. exists i, (c :: a).
        by rewrite bool_decide_true by done.
      * exfalso. apply Hn. apply list_elem_of_filter. done.
    + rewrite bool_decide_false by done. by apply H7.
  - intros d Hd. rewrite O6. destruct (bool_decide (d ∈ pending s)) eqn:Hp; bprop; cbn [andb].
    + destruct Hd as [[Hf _]%list_elem_of_filter|Hn]; [rewrite Hf; apply H8; by left|].
      exfalso. by apply Hn, H6.
    + apply H8. destruct Hd as [[_ Hd]%list_elem_of_filter|Hd]; [done|by right].
Qed.

Lemma converge_spec fuel expired max i n s :
  (∀ d, d ∈ pend → d ∈ ds) → cycleInv n s → n <= max + 1 →
  (Z.to_nat (max + 1 - n) < fuel)%nat →
  ∃ s' n', converge fuel answer expired max i s = Some s'
    ∧ active s' = true ∧ finalized s' = true ∧ completedWaves s' = n' ∧ n' <= Z.max (n + 1) (max + 1)
    ∧ NoDup (pending s') ∧ (∀ d, d ∈ pending s' → d ∈ pend)
    ∧ (∀ d, d ∈ pend → d ∉ pending s' →
        ∃ i a, answer i d = Some a ∧ a ≠ [] ∧ jvalue d (cache s') = JString a)
    ∧ (∀ d, d ∈ pending s' ∨ d ∉ pend → jvalue d (cache s') = jvalue d baseline).
Proof.
  intros Hds. revert i n s. induction fuel as [|fuel IH]; intros i n s Hinv Hn Hf; [lia|].
  cbn [converge]. pose proof (runWave_inv i n s Hds Hinv) as Hw. set (s1 := runWave (answer i) s) in *.
  destruct (negb (complete s1) && _ && _) eqn:G.
  - apply andb_true_iff in G as [_ G]. unfold shouldRetry in G. bprop.
    pose proof Hw as (_ & _ & _ & W4 & _).
    destruct (IH (S i) (n + 1) s1 Hw) as (s' & n' & E & A1 & A2 & A3 & A4 & A); [lia|lia|].
    exists s', n'. split_and!; try done; [lia|apply A..].
  - destruct Hw as (W1 & W2 & W3 & W4 & W5 & W6 & W7 & W8).
    exists (tryFinalize s1).1, (n + 1). unfold tryFinalize. rewrite W1, W2. cbn [negb orb fst].
    cbn [active finalized completedWaves pending cache]. split_and!; try done. lia.
Qed.
End cycle.

(** ** Properties *)

(** Managed-route reconnects are spaced: after a reconnect recorded at
    [t0], as long as the session lasts and the clock does not run back, the
    gate releases the next one no earlier than the minimum interval, whatever
    requests, cancellations and further records happen in between. *)
Theorem reconnects_spaced id t0 g sid now min :
  sessionRun id t0 g → 0 < min → (takeDue sid now min g).2 = true → t0 + min <= now.
Proof.
  intros Hr Hmin Hdue. apply sessionRun_inv in Hr as [H1 H2]. unfold takeDue in Hdue.
  destruct (_ || _) eqn:G; [done|]. bprop. unfold remainingDelayMs in *.
  rewrite H1, (proj2 (Z.ltb_ge _ _)) in * by lia. cbn [orb] in *. lia.
Qed.

(** Requests coalesce: over any sequence of calls starting from a fresh
    gate, the reconnects released plus the one that may be pending never
    exceed the requests that were newly scheduled. *)
Theorem reconnects_coalesced ops :
  let '(g, (scheduled, taken)) := foldl gateStep (initialGate, (0, 0)) ops in
  taken + Z.b2z (gatePending g) <= scheduled.
Proof.
  pose proof (foldl_gateStep_credit ops (initialGate, (0, 0))) as Hc. unfold gateCredit in Hc.
  destruct (foldl gateStep _ ops) as [g [n k]]. apply Hc. done.
Qed.

(** C33. A resolution cycle terminates and converges: begun on a set of
    distinct domains of the source, whatever the lookups answer and whenever
    the deadline expires, it is finalised after at most one more wave than the
    retry limit; then every domain that was to be resolved either has the
    non-empty answer of one of its lookups in the cache or is still pending
    with its last known value, and no other entry of the cache changed. *)
Theorem resolution_cycle_converges server digest ds baseline pend answer expired max s0 :
  NoDup pend → (∀ d, d ∈ pend → d ∈ ds) → 0 <= max →
  ∃ s, converge (Z.to_nat max + 2) answer expired max 0 (begin server digest ds baseline pend s0) = Some s
    ∧ finalized s = true ∧ completedWaves s <= max + 1
    ∧ (∀ d, d ∈ pending s → d ∈ pend)
    ∧ (∀ d, d ∈ pend → d ∉ pending s →
        ∃ i a, answer i d = Some a ∧ a ≠ [] ∧ jvalue d (cache s) = JString a)
    ∧ (∀ d, d ∈ pending s ∨ d ∉ pend → jvalue d (cache s) = jvalue d baseline).
Proof.
  intros Hnd Hsub Hmax.
  destruct (converge_spec ds baseline pend answer (Z.to_nat max + 2) expired max 0 0
              (begin server digest ds baseline pend s0)) as (s & n & E & _ & H1 & H2 & H3 & _ & H4 & H5 & H6);
    [done| |lia|lia|].
  { unfold cycleInv, begin. cbn. split_and!; try done. }
  exists s. split_and!; try done. lia.
Qed.

Section schedule_properties.
Context `{QT : QtText}.

(** The domains of a cycle are exactly those that need a lookup, without
    duplicates; a full sweep takes every domain. *)
Theorem pending_domains_exact ds baseline persisted refreshAll :
  let pend := pendingDomainsForCycle ds baseline persisted refreshAll in
  NoDup pend
  ∧ (∀ d, d ∈ pend ↔ d ∈ ds ∧ (refreshAll = true ∨ d ∈ persisted ∨ jcontains d baseline = false
                               ∨ trimmed (to_string [] (jvalue d baseline)) = [])).
Proof.
  intros pend.
  assert (∀ d, cycleNeeds baseline persisted refreshAll d = true ↔
    refreshAll = true ∨ d ∈ persisted ∨ jcontains d baseline = false
    ∨ trimmed (to_string [] (jvalue d baseline)) = []) as Hn.
  { intros d. unfold cycleNeeds. rewrite !orb_true_iff, bool_decide_eq_true, negb_true_iff, is_empty_true. tauto. }
  assert (∀ acc, NoDup acc →
    let p := foldl (λ pending domain, if bool_decide (domain ∈ pending) then pending
           else if cycleNeeds baseline persisted refreshAll domain then pending ++ [domain] else pending) acc ds in
    NoDup p ∧ ∀ d, d ∈ p ↔ d ∈ acc ∨ d ∈ ds ∧ cycleNeeds baseline persisted refreshAll d = true) as Hg.
  { subst pend. induction ds as [|x ds' IH]; intros acc Hacc; cbn [foldl]; [set_solver|].
    destruct (bool_decide (x ∈ acc)) eqn:Ex; bprop.
    - destruct (IH acc Hacc) as [J1 J2]. split; [done|]. intros d. rewrite J2. set_solver.
    - destruct (cycleNeeds _ _ _ x) eqn:En.
      + destruct (IH (acc ++ [x])) as [J1 J2].
        { rewrite <-append_new_fresh by done. by apply append_new_NoDup. }
        split; [done|]. intros d. rewrite J2. set_solver.
      + destruct (IH acc Hacc) as [J1 J2]. split; [done|]. intros d. rewrite J2.
        assert (d = x → ¬ cycleNeeds baseline persisted refreshAll d = true) by (intros ->; by rewrite En).
        set_solver. }
  destruct (Hg [] ltac:(constructor)) as [J1 J2]. split; [done|]. intros d. rewrite <-Hn.
  unfold pend, pendingDomainsForCycle. rewrite J2. set_solver.
Qed.
End schedule_properties.

(** ** The properties at concrete inputs *)

Lemma reconnects_spaced_witness :
  let g := (request (lit "s") 1200 500 (recordReconnect (lit "s") 1000 (beginSession (lit "s") initialGate))).1 in
  (takeDue (lit "s") 1400 500 g).2 = false ∧ (takeDue (lit "s") 1500 500 g).2 = true ∧ 1000 + 500 <= 1500.
Proof.
  intros g. split; [reflexivity|]. split; [reflexivity|].
  apply (reconnects_spaced (lit "s") 1000 g (lit "s") 1500 500); [|lia|reflexivity].
  apply run_request, run_recorded; [reflexivity|lia].
Defined.

(** The first wave fails for one of two domains, the second succeeds. *)
Notation example_answers := (λ n d, if text_eqb d (lit "a") || (1 <=? n)%nat then Some (lit "9.9.9.9") else None).

Lemma resolution_cycle_converges_witness :
  ∃ s, converge 4 example_answers (λ _, false) 2 0
         (begin [] [] [lit "a"; lit "b"] [] [lit "a"; lit "b"] initialState) = Some s
    ∧ finalized s = true ∧ completedWaves s <= 2 + 1.
Proof.
  destruct (resolution_cycle_converges [] [] [lit "a"; lit "b"] [] [lit "a"; lit "b"] example_answers
              (λ _, false) 2 initialState) as (s & E & H1 & H2 & _).
  - apply (bool_decide_unpack _). vm_compute. exact I.
  - done.
  - lia.
  - exists s. split; [exact E|]. split; [exact H1|exact H2].
Defined.
