(* ===== verification/RemoteLogHealth.v ===== *)
(** * Remote log uploads: redaction across secret changes

    Model of client/core/utils/remoteLogBatchHealth.h: the marker that keeps
    log payloads redacted while the set of secrets to remove from them changes,
    and the decisions around it.  The [qint64] offsets are only compared and
    copied, so they are integers here. *)

From S2P Require Import Prelude Text.
#[local] Open Scope Z_scope.

Definition MaximumRemoteLogSanitizerExplicitSecrets : Z := 64.

Record RemoteLogSanitizerSecretSet := SecretSet { values : list text; secretForceRedacted : bool }.

Inductive RemoteLogPersistenceStatus := Healthy | ReadError | FormatError | WriteError | SyncError.

Definition remoteLogPersistenceMustFailClosed (status : RemoteLogPersistenceStatus) : bool :=
  match status with Healthy => false | _ => true end.

Definition remoteLogRecoveryCheckpointCanRetry (attempts maximumAttempts : Z) : bool :=
  (attempts >=? 0) && (attempts <? maximumAttempts).

Inductive RemoteLogRetryMarkerCapacityDecision := Store | GlobalFailClosed.

Definition remoteLogRetryMarkerCapacityDecision (markerCount maximumMarkers : Z)
    (markerAlreadyPresent globalTombstone : bool) (persistenceStatus : RemoteLogPersistenceStatus) :
    RemoteLogRetryMarkerCapacityDecision :=
  if globalTombstone || remoteLogPersistenceMustFailClosed persistenceStatus
     || (negb markerAlreadyPresent && (markerCount >=? maximumMarkers))
  then GlobalFailClosed else Store.

Record RemoteLogSecretTransitionState := TState {
  present : bool;
  awaitingStableSource : bool;
  highWaterOffset : Z;
}.

Definition absentState : RemoteLogSecretTransitionState := TState false false 0.

Record RemoteLogSecretTransitionEvidence := Evidence {
  markerValid : bool;
  sourceIdentityMatches : bool;
  cursorMatchesSource : bool;
  markerCursorMatches : bool;
  markerCursorIsAhead : bool;
  lastAcceptedSecretSetMatches : bool;
  markerSecretSetMatches : bool;
  sourceEpochRebindSafe : bool;
  sourceSize : Z;
  acceptedCursorOffset : Z;
}.

Record RemoteLogSecretTransitionResult := TResult {
  resultState : RemoteLogSecretTransitionState;
  forceRedacted : bool;
  updateMarkerSecretSet : bool;
  persistMarker : bool;
  clearMarker : bool;
  globalFailClosed : bool;
}.

(** A result that refuses to go on, from the state and flags reached so far. *)
Definition failClosed (state : RemoteLogSecretTransitionState) (update persist : bool) :
    RemoteLogSecretTransitionResult :=
  TResult state true update persist false true.

Definition evidenceUnsafe (state : RemoteLogSecretTransitionState)
    (e : RemoteLogSecretTransitionEvidence) : bool :=
  negb (markerValid e) || (sourceSize e <? 0) || (acceptedCursorOffset e <? 0)
  || (acceptedCursorOffset e >? sourceSize e)
  || (present state
      && (negb (sourceIdentityMatches e) || negb (cursorMatchesSource e)
          || (highWaterOffset state <? 0) || (sourceSize e <? highWaterOffset state)
          || (acceptedCursorOffset e >? highWaterOffset state))).

(** The part of the function reached with a marker and safe evidence: [update]
    and [persist] are the flags set so far. *)
Definition confirmStableSource (state : RemoteLogSecretTransitionState) (update persist : bool)
    (e : RemoteLogSecretTransitionEvidence) : RemoteLogSecretTransitionResult :=
  let rescan := TState (present state) false (highWaterOffset state) in
  if negb (awaitingStableSource state) then TResult state true update persist false false else
  if negb (markerCursorMatches e) then
    if markerCursorIsAhead e && (acceptedCursorOffset e <? highWaterOffset state)
    then TResult rescan true update true false false
    else failClosed state update persist
  else if lastAcceptedSecretSetMatches e && (sourceSize e =? acceptedCursorOffset e)
          && (acceptedCursorOffset e =? highWaterOffset state)
  then TResult absentState false update persist true false
  else if acceptedCursorOffset e <? highWaterOffset state
  then TResult rescan true update true false false
  else if negb (lastAcceptedSecretSetMatches e) then failClosed state update persist
  else TResult state true update persist false false.

Definition remoteLogAdvanceSecretTransition (state : RemoteLogSecretTransitionState)
    (e : RemoteLogSecretTransitionEvidence) : RemoteLogSecretTransitionResult :=
  if present state && awaitingStableSource state && sourceEpochRebindSafe e then
    failClosed state false false else
  if present state && negb (awaitingStableSource state) && sourceEpochRebindSafe e && markerValid e
     && (sourceSize e >=? 0) && (acceptedCursorOffset e >=? 0)
     && (acceptedCursorOffset e <=? sourceSize e) then
    TResult (TState (present state) false (sourceSize e)) true true true false false else
  if evidenceUnsafe state e then failClosed state false false else
  if negb (present state) then
    if lastAcceptedSecretSetMatches e then TResult state false false false false false
    else TResult (TState true false (sourceSize e)) true true true false false
  else
    let '(state1, persist1) :=
      if sourceSize e >? highWaterOffset state
      then (TState (present state) false (sourceSize e), true) else (state, false) in
    let '(state2, update2, persist2) :=
      if negb (markerSecretSetMatches e)
      then (TState (present state1) false (highWaterOffset state1), true, true)
      else (state1, false, persist1) in
    confirmStableSource state2 update2 persist2 e.

Definition remoteLogArmStableSourceAfterAck (state : RemoteLogSecretTransitionState)
    (markerValid sourceIdentityMatches secretSetMatches : bool)
    (capturedSize acceptedCursorOffset : Z) : RemoteLogSecretTransitionResult :=
  if negb (present state) then TResult state false false false false false else
  if negb markerValid || negb sourceIdentityMatches || negb secretSetMatches
     || (capturedSize <? highWaterOffset state)
     || (acceptedCursorOffset <? 0) || (acceptedCursorOffset >? capturedSize) then
    failClosed state false false
  else TResult (TState (present state) true capturedSize) true false true false false.

Definition remoteLogAcceptedTransitionCanClose
    (markerValid sourceIdentityMatches cursorMatchesSource markerCursorMatches secretSetMatches : bool)
    (capturedSize acceptedCursorOffset highWaterOffset : Z) : bool :=
  markerValid && sourceIdentityMatches && cursorMatchesSource && markerCursorMatches && secretSetMatches
  && (highWaterOffset >=? 0) && (capturedSize =? acceptedCursorOffset)
  && (acceptedCursorOffset =? highWaterOffset).

Definition remoteLogByteIsRecordDelimiter (value : Z) : bool := (value =? 10) || (value =? 13).

Definition remoteLogCapturedReadIsExact (requestedBytes actualBytes : Z) : bool :=
  (requestedBytes >=? 0) && (actualBytes =? requestedBytes).

Definition remoteLogCapturedTailIsPartial (byteCount : Z) (endsWithRecordDelimiter : bool) : bool :=
  (byteCount >? 0) && negb endsWithRecordDelimiter.

Fixpoint unionSecrets (acc : list text) (current : list text) : RemoteLogSanitizerSecretSet :=
  match current with
  | [] => SecretSet acc false
  | value :: current' =>
      if is_empty value || bool_decide (value ∈ acc) then unionSecrets acc current'
      else if Z.of_nat (length acc) >=? MaximumRemoteLogSanitizerExplicitSecrets then SecretSet [] true
      else unionSecrets (acc ++ [value]) current'
  end.

Definition remoteLogSanitizerSecretUnion (inherited : RemoteLogSanitizerSecretSet)
    (current : list text) : RemoteLogSanitizerSecretSet :=
  if secretForceRedacted inherited then inherited else unionSecrets (values inherited) current.

Definition remoteLogBatchCanBecomeHealthy (batchHadFailure allExpectedSourcesReadable
    hasPendingSourceScan rerunRequested privacyFailClosed privacyQuarantined wholeRedactionUsed : bool) : bool :=
  negb batchHadFailure && allExpectedSourcesReadable && negb hasPendingSourceScan && negb rerunRequested
  && negb privacyFailClosed && negb privacyQuarantined && negb wholeRedactionUsed.

(** ** The marker as a transition system *)

(** The states a marker goes through from its creation, with the size of the
    source that the last upload receipt still armed for confirmation. *)
Inductive markerRun : RemoteLogSecretTransitionState → option Z → Prop :=
| marker_created e :
    clearMarker (remoteLogAdvanceSecretTransition absentState e) = false →
    present (resultState (remoteLogAdvanceSecretTransition absentState e)) = true →
    markerRun (resultState (remoteLogAdvanceSecretTransition absentState e)) None
| marker_scan s armed e (r := remoteLogAdvanceSecretTransition s e) :
    markerRun s armed → globalFailClosed r = false → clearMarker r = false →
    markerRun (resultState r) (if awaitingStableSource (resultState r) then armed else None)
| marker_ack s armed v i m captured accepted
    (r := remoteLogArmStableSourceAfterAck s v i m captured accepted) :
    markerRun s armed → globalFailClosed r = false → markerRun (resultState r) (Some captured).

(** Splits an application of the scan function into its branches. *)
Ltac scan_cases :=
  repeat match goal with
  | |- context [if ?b then _ else _] => destruct b eqn:?
  | |- context [let '(_, _) := if ?b then _ else _ in _] => destruct b eqn:?
  end.

Lemma confirm_present s u p e :
  present s = true → clearMarker (confirmStableSource s u p e) = false →
  present (resultState (confirmStableSource s u p e)) = true.
Proof. unfold confirmStableSource, failClosed. scan_cases; simpl in *; try done; congruence. Qed.

Lemma confirm_redacted s u p e :
  forceRedacted (confirmStableSource s u p e) = negb (clearMarker (confirmStableSource s u p e)).
Proof. unfold confirmStableSource, failClosed. by scan_cases. Qed.

Lemma confirm_awaiting s u p e :
  awaitingStableSource (resultState (confirmStableSource s u p e)) = true →
  awaitingStableSource s = true
  ∧ highWaterOffset (resultState (confirmStableSource s u p e)) = highWaterOffset s.
Proof.
  unfold confirmStableSource, failClosed. scan_cases; simpl in *; try done; intros; bprop; done.
Qed.

Lemma confirm_clear s u p e :
  clearMarker (confirmStableSource s u p e) = true ↔
  awaitingStableSource s = true ∧ markerCursorMatches e = true ∧ lastAcceptedSecretSetMatches e = true
  ∧ sourceSize e = acceptedCursorOffset e ∧ acceptedCursorOffset e = highWaterOffset s.
Proof.
  unfold confirmStableSource, failClosed.
  destruct (awaitingStableSource s); cbn [negb]; [|naive_solver].
  destruct (markerCursorMatches e); cbn [negb]; [|destruct (_ && _); naive_solver].
  destruct (lastAcceptedSecretSetMatches e); cbn [andb negb].
  - destruct (sourceSize e =? acceptedCursorOffset e) eqn:E1; bprop; cbn [andb].
    + destruct (acceptedCursorOffset e =? highWaterOffset s) eqn:E2; bprop; [naive_solver|].
      destruct (_ <? _); simpl; naive_solver.
    + destruct (_ <? _); simpl; naive_solver.
  - destruct (_ <? _); simpl; naive_solver.
Qed.

(** The stages a scan goes through with a marker: growth of the source and a
    changed secret set both withdraw the confirmation. *)
Definition stagedState (s : RemoteLogSecretTransitionState) (e : RemoteLogSecretTransitionEvidence) :
    RemoteLogSecretTransitionState :=
  let grown := sourceSize e >? highWaterOffset s in
  TState (present s) (awaitingStableSource s && negb grown && markerSecretSetMatches e)
    (if grown then sourceSize e else highWaterOffset s).

Lemma staged_awaiting s e :
  awaitingStableSource (stagedState s e) = true →
  awaitingStableSource s = true ∧ sourceSize e <= highWaterOffset s ∧ markerSecretSetMatches e = true
  ∧ highWaterOffset (stagedState s e) = highWaterOffset s.
Proof.
  unfold stagedState. cbn [awaitingStableSource highWaterOffset]. intros Ha. bprop.
  split_and!; [done..|]. by rewrite Z.gtb_ltb, (proj2 (Z.ltb_ge _ _)).
Qed.

Lemma advance_present s e :
  present s = true →
  (∃ r, remoteLogAdvanceSecretTransition s e = r ∧ clearMarker r = false ∧ forceRedacted r = true
     ∧ present (resultState r) = true
     ∧ (globalFailClosed r = true ∨ awaitingStableSource (resultState r) = false))
  ∨ (evidenceUnsafe s e = false ∧ (awaitingStableSource s = true → sourceEpochRebindSafe e = false)
     ∧ ∃ u p, remoteLogAdvanceSecretTransition s e = confirmStableSource (stagedState s e) u p e).
Proof.
  intros Hp. unfold remoteLogAdvanceSecretTransition. rewrite Hp. cbn [andb].
  destruct (awaitingStableSource s && sourceEpochRebindSafe e) eqn:G1.
  { left. eexists. split; [done|]. simpl. auto. }
  destruct (negb (awaitingStableSource s) && _ && _ && _ && _ && _) eqn:G2.
  { left. eexists. split; [done|]. simpl. auto. }
  destruct (evidenceUnsafe s e) eqn:G3.
  { left. eexists. split; [done|]. simpl. auto. }
  right. split; [done|]. split; [intros Ha; by rewrite Ha in G1|]. cbn [negb]. unfold stagedState. rewrite Hp.
  destruct s as [pr aw hw]. cbn [present awaitingStableSource highWaterOffset] in *. subst pr.
  destruct (sourceSize e >? hw); destruct (markerSecretSetMatches e); cbn [negb andb];
    rewrite ?andb_true_r, ?andb_false_r; eauto.
Qed.

Lemma advance_absent s e :
  present s = false →
  clearMarker (remoteLogAdvanceSecretTransition s e) = false
  ∧ awaitingStableSource (resultState (remoteLogAdvanceSecretTransition s e))
    = (awaitingStableSource s && negb (present (resultState (remoteLogAdvanceSecretTransition s e)))).
Proof.
  intros Hp. unfold remoteLogAdvanceSecretTransition, failClosed. rewrite Hp. cbn [andb negb].
  destruct (evidenceUnsafe s e), (lastAcceptedSecretSetMatches e); cbn; rewrite ?Hp; split; try done;
    by rewrite ?andb_true_r, ?andb_false_r.
Qed.

Lemma markerRun_inv s armed :
  markerRun s armed →
  present s = true ∧ (awaitingStableSource s = true → armed = Some (highWaterOffset s)).
Proof.
  induction 1 as [e Hc Hp|s armed e r Hr [IH1 IH2] Hf Hc|s armed v i m captured accepted r Hr [IH1 IH2] Hf].
  - split; [done|]. destruct (advance_absent absentState e eq_refl) as [_ ->]. done.
  - destruct (advance_present s e IH1) as [(r' & Er & _ & _ & Hpr & Ha)|(_ & _ & u & p & Er)].
    + fold r in Er. subst r'. split; [done|]. intros Haw. destruct Ha; congruence.
    + fold r in Er. rewrite Er in *. split; [by apply confirm_present|].
      intros Haw. rewrite Haw. apply confirm_awaiting in Haw as [(H1 & _ & _ & H4)%staged_awaiting ->].
      rewrite H4. by apply IH2.
  - subst r. unfold remoteLogArmStableSourceAfterAck in *. rewrite IH1 in *. cbn [negb] in *.
    destruct (negb v || _ || _ || _ || _ || _); simpl in *; done.
Qed.

(** ** Properties *)

(** Clearing a marker agrees with the closure rule: a scan ends the
    redaction of a marked source exactly when a receipt armed it, the source
    was not rebound, the marker's secret set is still current, and
    [remoteLogAcceptedTransitionCanClose] holds of the same evidence. *)
Theorem marker_clears_iff_closable s e :
  clearMarker (remoteLogAdvanceSecretTransition s e) = true ↔
  present s = true ∧ awaitingStableSource s = true ∧ sourceEpochRebindSafe e = false
  ∧ markerSecretSetMatches e = true
  ∧ remoteLogAcceptedTransitionCanClose (markerValid e) (sourceIdentityMatches e) (cursorMatchesSource e)
      (markerCursorMatches e) (lastAcceptedSecretSetMatches e) (sourceSize e) (acceptedCursorOffset e)
      (highWaterOffset s) = true.
Proof.
  unfold remoteLogAcceptedTransitionCanClose. rewrite !andb_true_iff, Z.geb_leb, Z.leb_le, !Z.eqb_eq. split.
  - intros Hc. destruct (present s) eqn:Hp.
    2: { destruct (advance_absent s e Hp) as [F _]. congruence. }
    destruct (advance_present s e Hp) as [(r & E & F & _)|(Hu & Hr & u & p & E)]; [congruence|].
    rewrite E, confirm_clear in Hc. destruct Hc as ((H1 & _ & Hm & Hw)%staged_awaiting & H2 & H3 & H4 & H5).
    rewrite Hw in H5. unfold evidenceUnsafe in Hu. rewrite Hp in Hu. cbn [andb] in Hu. bprop.
    split_and!; auto; lia.
  - intros (Hp & Ha & Hr & Hm & ((((((V1 & V2) & V3) & V4) & V5) & V6) & V7) & V8).
    destruct (advance_present s e Hp) as [(r & E & Hor & _)|(_ & _ & u & p & E)].
    + exfalso. subst r. revert Hor. unfold remoteLogAdvanceSecretTransition, evidenceUnsafe, confirmStableSource.
      rewrite Hp, Ha, Hr, V1, V2, V3, Hm. cbn [andb negb orb].
      rewrite (proj2 (Z.ltb_ge (sourceSize e) 0)), (proj2 (Z.ltb_ge (acceptedCursorOffset e) 0)),
        (proj2 (Z.ltb_ge (highWaterOffset s) 0)), (proj2 (Z.ltb_ge (sourceSize e) (highWaterOffset s))),
        !Z.gtb_ltb, !(proj2 (Z.ltb_ge _ _)) by lia.
      cbn [orb]. rewrite Ha, V4, V5, !(proj2 (Z.eqb_eq _ _)) by lia. done.
    + rewrite E, confirm_clear. unfold stagedState. simpl. rewrite Z.gtb_ltb, (proj2 (Z.ltb_ge _ _)) by lia.
      rewrite Ha, Hm. split_and!; auto; lia.
Qed.

(** Payloads stay redacted while a marker exists: the outcome of a scan is
    unredacted only if there was no marker and the secrets are the accepted
    ones, or this very scan closes the marker. *)
Theorem unredacted_only_without_marker s e :
  forceRedacted (remoteLogAdvanceSecretTransition s e) = false →
  (present s = false ∧ lastAcceptedSecretSetMatches e = true)
  ∨ clearMarker (remoteLogAdvanceSecretTransition s e) = true.
Proof.
  destruct (present s) eqn:Hp.
  - destruct (advance_present s e Hp) as [(r & -> & _ & F & _)|(_ & _ & u & p & ->)]; [congruence|].
    rewrite confirm_redacted. intros H%negb_false_iff. by right.
  - unfold remoteLogAdvanceSecretTransition, failClosed. rewrite Hp. cbn [andb negb].
    destruct (evidenceUnsafe s e), (lastAcceptedSecretSetMatches e); simpl; try done. by left.
Qed.

(** C34. Closure needs an armed receipt: along any run of scans and receipts
    since a marker was created, a scan closes the marker only if the last
    receipt armed exactly the size that the scan finds fully accepted. *)
Theorem closure_needs_armed_receipt s armed e :
  markerRun s armed → clearMarker (remoteLogAdvanceSecretTransition s e) = true →
  armed = Some (sourceSize e) ∧ acceptedCursorOffset e = sourceSize e.
Proof.
  intros Hr Hc. apply markerRun_inv in Hr as [Hp Ha].
  destruct (advance_present s e Hp) as [(r & E & F & _)|(Hu & _ & u & p & E)]; [congruence|].
  rewrite E, confirm_clear in Hc. destruct Hc as ((H1 & _ & _ & Hw)%staged_awaiting & _ & _ & H4 & H5).
  rewrite Ha by done. split; [f_equal|]; lia.
Qed.

Lemma unionSecrets_spec acc current :
  let r := unionSecrets acc current in
  secretForceRedacted r = true
  ∨ ((∀ v, v ∈ values r ↔ v ∈ acc ∨ v ∈ current ∧ v ≠ [])
     ∧ (Z.of_nat (length acc) <= 64 → Z.of_nat (length (values r)) <= 64)).
Proof.
  revert acc. induction current as [|c current IH]; intros acc; cbn [unionSecrets].
  { right. simpl. set_solver. }
  destruct (is_empty c || bool_decide (c ∈ acc)) eqn:G.
  - destruct (IH acc) as [|[H1 H2]]; [by left|]. right. split; [|done]. intros v. rewrite H1.
    bprop. rewrite is_empty_true, bool_decide_eq_true in G. set_solver.
  - bprop. apply is_empty_false in H. unfold MaximumRemoteLogSanitizerExplicitSecrets.
    destruct (Z.of_nat (length acc) >=? 64) eqn:L; bprop; [by left|].
    destruct (IH (acc ++ [c])) as [|[H1 H2]]; [by left|]. right. split.
    + intros v. rewrite H1. set_solver.
    + intros _. apply H2. rewrite length_app. simpl. lia.
Qed.

(** No secret is ever dropped: the union either forces full redaction, or
    contains exactly the inherited and the current non-empty secrets and stays
    within 64; a set that already forces redaction keeps doing so. *)
Theorem secret_union_never_drops inherited current :
  let r := remoteLogSanitizerSecretUnion inherited current in
  (secretForceRedacted inherited = true → r = inherited)
  ∧ (secretForceRedacted r = true
     ∨ ((∀ v, v ∈ values r ↔ v ∈ values inherited ∨ v ∈ current ∧ v ≠ [])
        ∧ (Z.of_nat (length (values inherited)) <= 64 → Z.of_nat (length (values r)) <= 64))).
Proof.
  intros r. subst r. unfold remoteLogSanitizerSecretUnion. destruct (secretForceRedacted inherited) eqn:E.
  - split; [done|]. by left.
  - split; [done|]. apply unionSecrets_spec.
Qed.

(** ** The properties at concrete inputs *)

(** A changed secret set on a source of 100 bytes, uploaded to its end and
    confirmed by a second scan. *)
Notation example_evidence matches accepted := (Evidence true true true true false matches true false 100 accepted).
Notation example_marked := (resultState (remoteLogAdvanceSecretTransition absentState (example_evidence false 0))).
Notation example_armed := (resultState (remoteLogArmStableSourceAfterAck example_marked true true true 100 100)).

Lemma unredacted_only_without_marker_witness :
  (present absentState = false ∧ lastAcceptedSecretSetMatches (example_evidence true 40) = true)
  ∨ clearMarker (remoteLogAdvanceSecretTransition absentState (example_evidence true 40)) = true.
Proof. apply (unredacted_only_without_marker absentState (example_evidence true 40)). reflexivity. Defined.

Lemma closure_needs_armed_receipt_witness :
  clearMarker (remoteLogAdvanceSecretTransition example_armed (example_evidence true 100)) = true
  ∧ Some 100 = Some (sourceSize (example_evidence true 100)).
Proof.
  split; [reflexivity|].
  apply (closure_needs_armed_receipt example_armed (Some 100) (example_evidence true 100)); [|reflexivity].
  apply (marker_ack example_marked None true true true 100 100); [|reflexivity].
  apply marker_created; reflexivity.
Defined.

Lemma secret_union_never_drops_witness :
  remoteLogSanitizerSecretUnion (SecretSet [] true) [lit "k"] = SecretSet [] true.
Proof. apply (secret_union_never_drops (SecretSet [] true) [lit "k"]). reflexivity. Defined.
