(* ===== verification/OperatorCommand.v ===== *)
(** * The operator command line and its wire protocol

    Model of client/core/utils/operatorCommand.h and awgMaintenanceCommand.h:
    reading the command line, the request and response objects exchanged with
    the running client, frames of the status stream, and the verdict on a
    route that is reported to the operator. *)

From S2P Require Import Prelude Text Json QtInterface QtModel.
#[local] Open Scope Z_scope.

Definition WireProtocolVersion : Z := 1.
Definition MaximumRouteArgumentLength : Z := 2048.
Definition MaximumWireFrameSize : Z := 64 * 1024.
Definition MaximumWatchTerminalReasonLength : Z := 64.
Definition MaximumWatchTerminalMessageLength : Z := 1024.
Definition MinimumProcessExitCode : Z := 0.
Definition MaximumProcessExitCode : Z := 255.

(** Parts of Qt and of the platform used here only. *)
Class QtPlatform := {
  dir_cleanPath : text → text;       (* QDir::cleanPath *)
  os_windows : bool;                 (* Q_OS_WIN *)
  q_toCaseFolded : text → text;      (* QString::toCaseFolded *)
}.

Section identity.
Context `{QtText} `{QtData} `{QtPlatform}.

Definition normalizedExecutableIdentity (path : text) : text :=
  let path := map (λ c, if c =? 92 then 47 else c) path in
  let path := dir_cleanPath (trimmed path) in
  if os_windows then q_toCaseFolded path else path.

Definition peerIdentityMatches (expectedUserIdentity expectedExecutablePath peerUserIdentity
    peerExecutablePath : text) : bool :=
  negb (is_empty expectedUserIdentity) && text_eqb expectedUserIdentity peerUserIdentity
  && negb (is_empty (normalizedExecutableIdentity expectedExecutablePath))
  && text_eqb (normalizedExecutableIdentity expectedExecutablePath)
       (normalizedExecutableIdentity peerExecutablePath).

Definition scopedLocalServerName (baseName userIdentity canonicalExecutablePath : text) : text :=
  if is_empty baseName || is_empty userIdentity || is_empty canonicalExecutablePath then [] else
  let namespaceMaterial :=
    utf8 userIdentity ++ [0] ++ utf8 (normalizedExecutableIdentity canonicalExecutablePath) in
  let digest := to_hex (sha256 namespaceMaterial) in
  baseName ++ [45] ++ take 32 digest.
End identity.

(** ** Frames and commands *)

Inductive WireFrameState := FrameIncomplete | FrameComplete | FrameTooLarge.

Definition canProcessWireFrame (handled processing : bool) : bool := negb handled && negb processing.

Definition wireFrameState (buffer : text) : WireFrameState :=
  if tsize buffer >? MaximumWireFrameSize then FrameTooLarge
  else if contains_char 10 buffer then FrameComplete
  else if tsize buffer =? MaximumWireFrameSize then FrameTooLarge else FrameIncomplete.

Inductive CommandType :=
| CommandNone | Status | Disconnect | Doctor | RoutesExplain | Watch | MaintainAwgControls | Raise.

#[export] Instance CommandType_eq_dec : EqDecision CommandType.
Proof. solve_decision. Defined.

Definition commandName (type : CommandType) : text :=
  match type with
  | Status => lit "status"
  | Disconnect => lit "disconnect"
  | Doctor => lit "doctor"
  | RoutesExplain => lit "routes-explain"
  | Watch => lit "watch"
  | MaintainAwgControls => lit "maintain-awg-controls"
  | Raise => lit "raise"
  | CommandNone => lit "none"
  end.

Definition commandType (name : text) : CommandType :=
  if text_eqb name (lit "status") then Status
  else if text_eqb name (lit "disconnect") then Disconnect
  else if text_eqb name (lit "doctor") then Doctor
  else if text_eqb name (lit "routes-explain") then RoutesExplain
  else if text_eqb name (lit "watch") then Watch
  else if text_eqb name (lit "raise") then Raise
  else CommandNone.

(** ** The maintenance argument *)

Section maintenance.
Context `{QtData}.

Definition jsonSpace (c : Z) : bool := (c =? 32) || (c =? 9) || (c =? 13) || (c =? 10).

(** The body of a string up to and including the closing quote, and the rest. *)
Fixpoint scanString (escaped : bool) (s : text) : option (text * text) :=
  match s with
  | [] => None
  | ch :: s' =>
      if negb escaped && (ch =? 34) then Some ([ch], s')
      else match scanString (negb escaped && (ch =? 92)) s' with
           | Some (body, rest) => Some (ch :: body, rest)
           | None => None
           end
  end.

(** The lambda [string]: the decoded string and the rest of the input. *)
Definition readString (s : text) : option (text * text) :=
  match s with
  | 34 :: s' =>
      match scanString false s' with
      | Some (body, rest) =>
          match json_parse ([91] ++ utf8 (34 :: body) ++ [93]) with
          | Some (JArray [JString decoded]) => Some (decoded, rest)
          | _ => None
          end
      | None => None
      end
  | _ => None
  end.

Fixpoint spanDigits (s : text) : text * text :=
  match s with
  | c :: s' => if is_digit c then let '(d, r) := spanDigits s' in (c :: d, r) else ([], s)
  | [] => ([], [])
  end.

(** [toLongLong] of a token of ASCII digits. *)
Definition digitsToLongLong (token : text) : option Z :=
  if is_empty token || (dec_value token >=? 2 ^ 63) then None else Some (dec_value token).

Definition expectChar (c : Z) (s : text) : option text :=
  match s with
  | x :: s' => if x =? c then Some s' else None
  | [] => None
  end.

Definition maintenanceKeys : list text :=
  [lit "serverId"; lit "source"; lit "generation"; lit "expectedJournalSha256"].

(** The value of a member. *)
Definition readMember (key : text) (s : text) : option (json * text) :=
  if text_eqb key (lit "generation") then
    let '(token, rest) := spanDigits s in
    match digitsToLongLong token with
    | None => None
    | Some generation =>
        if (generation <? 1) || (generation >? 9007199254740991)
           || negb (text_eqb (number generation) token) then None
        else Some (JDouble (DInt generation), rest)
    end
  else match readString s with
       | Some (value, rest) => Some (JString value, rest)
       | None => None
       end.

(** The loop over the members; each round consumes at least one character. *)
Fixpoint readMembers (fuel : nat) (s : text) (result : jobject) : option (jobject * text) :=
  match fuel with
  | O => None
  | S fuel' =>
      match readString (drop_while jsonSpace s) with
      | None => None
      | Some (key, s) =>
          if jcontains key result then None else
          if negb (bool_decide (key ∈ maintenanceKeys)) then None else
          match expectChar 58 (drop_while jsonSpace s) with
          | None => None
          | Some s =>
              match readMember key (drop_while jsonSpace s) with
              | None => None
              | Some (value, s) =>
                  let result := jinsert key value result in
                  match drop_while jsonSpace s with
                  | 125 :: s => Some (result, s)
                  | 44 :: s => readMembers fuel' s result
                  | _ => None
                  end
              end
          end
      end
  end.

(** [^[a-f0-9]{64}$]: the dollar also matches before a final newline. *)
Definition hex64 (s : text) : bool := (tsize s =? 64) && forallb is_lower_hex s.
Definition hex64Expression (s : text) : bool :=
  hex64 s || ((List.last s 0 =? 10) && hex64 (removelast s)).

(** The request, [None] for the empty object. *)
Definition parseAwgMaintenanceArgument (input : text) : option jobject :=
  if is_empty input || (tsize input >? 4096) then None else
  match expectChar 123 (drop_while jsonSpace input) with
  | None => None
  | Some s =>
      match readMembers (S (length input)) s [] with
      | None => None
      | Some (result, s) =>
          if negb (is_empty (drop_while jsonSpace s)) || negb (length result =? 4)%nat then None else
          let serverId := to_string [] (jvalue (lit "serverId") result) in
          if is_empty serverId || (tsize serverId >? 256) then None else
          if existsb (λ c, c <? 32) serverId then None else
          let source := to_string [] (jvalue (lit "source") result) in
          if negb (text_eqb source (lit "amnezia-awg")) && negb (text_eqb source (lit "amnezia-awg2"))
          then None else
          if negb (hex64Expression (to_string [] (jvalue (lit "expectedJournalSha256") result))) then None
          else Some result
      end
  end.
End maintenance.

(** ** Requests *)

Record CommandRequest := MkCommand { type : CommandType; json_ : bool; argument : text }.

Definition noCommand : CommandRequest := MkCommand CommandNone false [].

Section requests.
Context `{QtText} `{QtData}.

(** The message [isValid] reports; empty for a valid request. *)
Definition requestError (r : CommandRequest) : text :=
  match type r with
  | CommandNone => lit "No operator command was specified."
  | RoutesExplain =>
      if is_empty (trimmed (argument r)) then
        lit "--routes-explain requires a host name or IP address."
      else if tsize (argument r) >? MaximumRouteArgumentLength then
        lit "--routes-explain argument is too long."
      else []
  | MaintainAwgControls =>
      match parseAwgMaintenanceArgument (argument r) with
      | None => lit "--maintain-awg-controls requires an exact selected migration request."
      | Some _ => []
      end
  | _ => if negb (is_empty (argument r)) then
           lit "The selected operator command does not accept an argument." else []
  end.

Definition requestIsValid (r : CommandRequest) : bool := is_empty (requestError r).

Definition requestToJson (r : CommandRequest) : jobject :=
  let object := jinsert (lit "protocol") (JDouble (DInt WireProtocolVersion)) [] in
  let object := jinsert (lit "command") (JString (commandName (type r))) object in
  let object := jinsert (lit "json") (JBool (json_ r)) object in
  if negb (is_empty (argument r)) then jinsert (lit "argument") (JString (argument r)) object else object.

Definition protocolSupported (v : json) : bool :=
  match v with JDouble (DInt z) => z =? WireProtocolVersion | _ => false end.

Definition requestFromJson (object : jobject) : result text CommandRequest :=
  let protocol := jvalue (lit "protocol") object in
  let command := jvalue (lit "command") object in
  let json := jvalue (lit "json") object in
  let argument := jvalue (lit "argument") object in
  if negb (protocolSupported protocol) then Err (lit "Unsupported operator command protocol version.") else
  if negb (is_string command) || negb (is_bool json)
     || (negb (is_undefined argument) && negb (is_string argument)) then
    Err (lit "Malformed operator command.") else
  let parsed := MkCommand (commandType (to_string [] command)) (to_bool false json) (to_string [] argument) in
  let message := requestError parsed in
  if is_empty message then Ok parsed else Err message.

(** ** Route verdicts *)

Record RouteRuntimeDecision := Decision_ {
  runtimeApplied : bool;
  inspectionBasis : text;
  route : text;
  warning : text;
}.

Definition previewDecision (w : string) : RouteRuntimeDecision :=
  Decision_ false (lit "policyPreview") (lit "unknown") (lit w).
Definition confirmedUnknown (w : string) : RouteRuntimeDecision :=
  Decision_ true (lit "confirmedClientRouteSnapshot") (lit "unknown") (lit w).

Definition assessRouteRuntime (policyRoute : text)
    (snapshotAvailable connected snapshotConfirmed literalTarget ipv6Target splitMode protectedTarget
     appliedModeMatchesPolicy : bool) : RouteRuntimeDecision :=
  if negb snapshotAvailable then previewDecision "runtime_snapshot_unavailable" else
  if negb connected then previewDecision "vpn_not_connected" else
  if negb snapshotConfirmed then previewDecision "runtime_route_snapshot_unconfirmed" else
  if negb appliedModeMatchesPolicy then confirmedUnknown "runtime_policy_mode_diverged" else
  if negb literalTarget then confirmedUnknown "hostname_resolution_required" else
  if protectedTarget then confirmedUnknown "protected_route_requires_runtime_verification" else
  if ipv6Target then confirmedUnknown "ipv6_route_not_runtime_verified" else
  if splitMode then confirmedUnknown "split_route_not_os_verified" else
  if negb (text_eqb policyRoute (lit "vpn")) && negb (text_eqb policyRoute (lit "direct"))
  then confirmedUnknown "invalid_policy_route" else
  Decision_ true (lit "confirmedClientRouteSnapshot") policyRoute (lit "os_route_not_verified").

(** ** Frames of the status stream *)

Definition completeFrame (o : jobject) : text :=
  let frame := json_compact o ++ [10] in
  match wireFrameState frame with FrameComplete => frame | _ => [] end.

Definition watchSnapshotFrame (status : jobject) (statusExitCode sequence : Z) (observedAt : text)
    (primaryPid : Z) : text :=
  if (sequence =? 0) || is_empty observedAt || (primaryPid <=? 0)
     || negb (text_eqb (to_string [] (jvalue (lit "schema") status)) (lit "amnezia.operator.status.v1"))
     || (statusExitCode <? MinimumProcessExitCode) || (statusExitCode >? MaximumProcessExitCode) then [] else
  let o := jinsert (lit "schema") (JString (lit "amnezia.operator.watch.v1")) [] in
  let o := jinsert (lit "event") (JString (lit "snapshot")) o in
  let o := jinsert (lit "sequence") (JString (number sequence)) o in
  let o := jinsert (lit "observedAt") (JString observedAt) o in
  let o := jinsert (lit "primaryPid") (JDouble (DInt primaryPid)) o in
  let o := jinsert (lit "statusExitCode") (JDouble (DInt statusExitCode)) o in
  let o := jinsert (lit "status") (JObject status) o in
  completeFrame o.

Definition reasonCharacter (c : Z) : bool := ((97 <=? c) && (c <=? 122)) || is_digit c || (c =? 95).

Definition watchTerminalFrame (reason message : text) (exitCode lastSequence : Z) (observedAt : text)
    (primaryPid : Z) : text :=
  if is_empty reason || (tsize reason >? MaximumWatchTerminalReasonLength)
     || (tsize message >? MaximumWatchTerminalMessageLength) || is_empty observedAt
     || (negb (exitCode =? 4) && negb (exitCode =? 5)) || (primaryPid =? 0) then [] else
  if negb (forallb reasonCharacter reason) then [] else
  let o := jinsert (lit "schema") (JString (lit "amnezia.operator.watch.v1")) [] in
  let o := jinsert (lit "event") (JString (lit "terminal")) o in
  let o := jinsert (lit "reason") (JString reason) o in
  let o := jinsert (lit "message") (JString message) o in
  let o := jinsert (lit "lastSequence") (JString (number lastSequence)) o in
  let o := jinsert (lit "observedAt") (JString observedAt) o in
  let o := jinsert (lit "exitCode") (JDouble (DInt exitCode)) o in
  let o := if primaryPid >? 0 then jinsert (lit "primaryPid") (JDouble (DInt primaryPid)) o else o in
  completeFrame o.
End requests.

(** ** The command line *)

Record CommandParseResult := ParseResult {
  hasOperatorArguments : bool;
  valid : bool;
  parsedRequest : CommandRequest;
  error : text;
}.

(** The variables of [parseArguments] while it scans. *)
Record argState := ArgState {
  seenOperator : bool;
  current : CommandRequest;
  message : text;
  conflicting : list text;
  foreign : bool;
}.

Definition knownStartupOptions : list text :=
  [lit "-a"; lit "--autostart"; lit "-c"; lit "--cleanup"; lit "--connect"; lit "--import";
   lit "--publish-bundled-updates-once"; lit "--help"; lit "--version"].

Definition setCommand (t : CommandType) (s : argState) : argState :=
  if negb (bool_decide (type (current s) = CommandNone)) then
    ArgState true (current s) (lit "Only one operator command may be used at a time.")
      (conflicting s) (foreign s)
  else ArgState true (MkCommand t (json_ (current s)) (argument (current s))) (message s)
         (conflicting s) (foreign s).

Definition setArgument (a : text) (s : argState) : argState :=
  ArgState (seenOperator s) (MkCommand (type (current s)) (json_ (current s)) a) (message s)
    (conflicting s) (foreign s).

Definition setError (e : text) (s : argState) : argState :=
  ArgState (seenOperator s) (current s) e (conflicting s) (foreign s).

(** [section('=', 0, 0)]. *)
Definition optionName (a : text) : text := nth 0 (split_char 61 a) [].

Definition noteForeign (a : text) (s : argState) : argState :=
  let conflicting' :=
    if starts_with [45] a then
      if bool_decide (optionName a ∈ knownStartupOptions)
         && negb (bool_decide (optionName a ∈ conflicting s))
      then conflicting s ++ [optionName a] else conflicting s
    else conflicting s in
  ArgState (seenOperator s) (current s) (message s) conflicting' true.

Definition maintainPrefix : text := lit "--maintain-awg-controls=".
Definition explainPrefix : text := lit "--routes-explain=".

Section command_line.
Context `{QtText} `{QtData}.

(** The arguments after the program name, decoded from the local encoding. *)
Fixpoint scanArguments (args : list text) (s : argState) : argState :=
  match args with
  | [] => s
  | a :: args' =>
      if text_eqb a (lit "--json") then
        scanArguments args' (ArgState true (MkCommand (type (current s)) true (argument (current s)))
                               (message s) (conflicting s) (foreign s))
      else if text_eqb a (lit "--status") then scanArguments args' (setCommand Status s)
      else if text_eqb a (lit "--disconnect") then scanArguments args' (setCommand Disconnect s)
      else if text_eqb a (lit "--doctor") then scanArguments args' (setCommand Doctor s)
      else if text_eqb a (lit "--watch") then scanArguments args' (setCommand Watch s)
      else if text_eqb a (lit "--maintain-awg-controls") then
        let s := setCommand MaintainAwgControls s in
        match args' with
        | [] => setError (lit "Missing maintenance request.") s
        | v :: args'' => scanArguments args'' (setArgument v s)
        end
      else if starts_with maintainPrefix a then
        scanArguments args' (setArgument (drop (length maintainPrefix) a) (setCommand MaintainAwgControls s))
      else if text_eqb a (lit "--routes-explain") then
        let s := setCommand RoutesExplain s in
        match args' with
        | [] => setError (lit "--routes-explain requires a host name or IP address.") s
        | v :: args'' =>
            let s := setArgument (trimmed v) s in
            scanArguments args''
              (if starts_with [45] (trimmed v)
               then setError (lit "--routes-explain requires a host name or IP address.") s else s)
        end
      else if starts_with explainPrefix a then
        scanArguments args' (setArgument (trimmed (drop (length explainPrefix) a)) (setCommand RoutesExplain s))
      else scanArguments args' (noteForeign a s)
  end.

Definition parseArguments (args : list text) : CommandParseResult :=
  let s := scanArguments args (ArgState false noCommand [] [] false) in
  if negb (seenOperator s) then ParseResult false false (current s) (message s) else
  let error :=
    if foreign s && is_empty (message s) then
      if bool_decide (conflicting s = [])
      then lit "Operator commands cannot be combined with other startup arguments."
      else lit "Operator commands cannot be combined with: " ++ join (lit ", ") (conflicting s)
    else message s in
  let error := if is_empty error then requestError (current s) else error in
  ParseResult true (is_empty error) (current s) error.
End command_line.

(** ** Responses *)

Record CommandResponse := Response { exitCode : Z; humanOutput : text; responseResult : jobject }.

Definition responseToJson (r : CommandResponse) : jobject :=
  let o := jinsert (lit "protocol") (JDouble (DInt WireProtocolVersion)) [] in
  let o := jinsert (lit "exitCode") (JDouble (DInt (exitCode r))) o in
  let o := jinsert (lit "human") (JString (humanOutput r)) o in
  jinsert (lit "result") (JObject (responseResult r)) o.

Definition validExitCode (v : json) : bool :=
  match v with
  | JDouble d => d_isfinite d && d_integral d && negb (d_ltb d MinimumProcessExitCode)
                 && negb (d_gtb d MaximumProcessExitCode)
  | _ => false
  end.

Definition responseFromJson (object : jobject) : result text CommandResponse :=
  let protocol := jvalue (lit "protocol") object in
  let exitCode := jvalue (lit "exitCode") object in
  let human := jvalue (lit "human") object in
  let result := jvalue (lit "result") object in
  if negb (protocolSupported protocol) then Err (lit "Unsupported operator response protocol version.") else
  if negb (validExitCode exitCode) || negb (is_string human) || negb (is_object result) then
    Err (lit "Malformed operator response.") else
  Ok (Response (match exitCode with JDouble d => d_trunc d | _ => -1 end) (to_string [] human)
        (to_object result)).

(** ** Facts *)

Lemma commandType_name t :
  commandType (commandName t) = match t with MaintainAwgControls => CommandNone | _ => t end.
Proof. by destruct t. Qed.

Lemma commandType_not_maintenance name : commandType name ≠ MaintainAwgControls.
Proof. unfold commandType. repeat (case_match; try done). Qed.

Lemma requestToJson_values r :
  let v k := jvalue (lit k) (requestToJson r) in
  v "protocol"%string = JDouble (DInt 1) ∧ v "command"%string = JString (commandName (type r))
  ∧ v "json"%string = JBool (json_ r)
  ∧ v "argument"%string = (if is_empty (argument r) then JUndefined else JString (argument r)).
Proof.
  unfold requestToJson, jinsert. cbn [is_undefined]. cbv iota.
  destruct (is_empty (argument r)); cbn [negb]; rewrite ?jvalue_jput; split_and!; reflexivity.
Qed.

(** Decides membership in a closed list of texts. *)
Ltac closed_elem := apply (bool_decide_unpack _); vm_compute; exact I.

Section request_facts.
Context `{QT : QtText} `{QD : QtData}.

Lemma requestFromJson_Ok o r :
  requestFromJson o = Ok r → requestError r = [] ∧ type r ≠ MaintainAwgControls.
Proof.
  unfold requestFromJson. cbv zeta. intros E. destruct (negb _); [done|]. destruct (_ || _); [done|].
  destruct (is_empty _) eqn:Em; [|done]. apply is_empty_true in Em. simplify_eq. split; [done|].
  apply commandType_not_maintenance.
Qed.

(** The messages that can be reported: fixed texts, or names of known options. *)
Definition fixedMessages : list text :=
  [[]; lit "No operator command was specified.";
   lit "--routes-explain requires a host name or IP address.";
   lit "--routes-explain argument is too long.";
   lit "--maintain-awg-controls requires an exact selected migration request.";
   lit "The selected operator command does not accept an argument.";
   lit "Only one operator command may be used at a time.";
   lit "Missing maintenance request.";
   lit "Operator commands cannot be combined with other startup arguments."].

Lemma requestError_fixed r : requestError r ∈ fixedMessages.
Proof. unfold requestError. destruct (type r); repeat case_match; closed_elem. Qed.

Definition argInv (s : argState) : Prop :=
  message s ∈ fixedMessages ∧ NoDup (conflicting s)
  ∧ Forall (λ o, o ∈ knownStartupOptions) (conflicting s)
  ∧ (type (current s) ≠ CommandNone → seenOperator s = true).

Lemma setCommand_inv t s : argInv s → argInv (setCommand t s).
Proof.
  intros (H1 & H2 & H3 & H4). unfold setCommand. destruct (negb _); split_and!; try done. closed_elem.
Qed.

Lemma setArgument_inv a s : argInv s → argInv (setArgument a s).
Proof. intros (H1 & H2 & H3 & H4). by split_and!. Qed.

Lemma setError_inv e s : e ∈ fixedMessages → argInv s → argInv (setError e s).
Proof. intros He (H1 & H2 & H3 & H4). split_and!; assumption. Qed.

Lemma noteForeign_inv a s : argInv s → argInv (noteForeign a s).
Proof.
  intros (H1 & H2 & H3 & H4). unfold noteForeign.
  split_and!; cbn [conflicting message current seenOperator]; try done.
  - destruct (starts_with [45] a); [|done]. destruct (_ && _) eqn:G; [|done]. bprop.
    rewrite <-append_new_fresh by done. by apply append_new_NoDup.
  - destruct (starts_with [45] a); [|done]. destruct (_ && _) eqn:G; [|done]. bprop.
    apply Forall_app. by rewrite Forall_singleton.
Qed.

Lemma scanArguments_inv n args s : (length args ≤ n)%nat → argInv s → argInv (scanArguments args s).
Proof.
  revert args s. induction n as [|n IH]; intros args s Hn Hs; destruct args as [|a args]; try done; [simpl in Hn; lia|].
  simpl in Hn. cbn [scanArguments].
  assert (lit "Missing maintenance request." ∈ fixedMessages) as M1 by closed_elem.
  assert (lit "--routes-explain requires a host name or IP address." ∈ fixedMessages) as M2
    by closed_elem.
  destruct (text_eqb a (lit "--json")).
  { apply IH; [lia|]. destruct Hs as (H1 & H2 & H3 & H4). by split_and!. }
  do 4 (match goal with |- context [if ?b then scanArguments _ (setCommand _ _) else _] => destruct b end;
        [apply IH; [lia|]; by apply setCommand_inv|]).
  destruct (text_eqb a (lit "--maintain-awg-controls")).
  { destruct args as [|v args]; [by apply setError_inv, setCommand_inv|]. simpl in Hn.
    apply IH; [lia|]. by apply setArgument_inv, setCommand_inv. }
  destruct (starts_with maintainPrefix a).
  { apply IH; [lia|]. by apply setArgument_inv, setCommand_inv. }
  destruct (text_eqb a (lit "--routes-explain")).
  { destruct args as [|v args]; [by apply setError_inv, setCommand_inv|]. simpl in Hn. cbv zeta.
    apply IH; [lia|]. destruct (starts_with [45] _); [apply setError_inv; [done|]|]; by apply setArgument_inv, setCommand_inv. }
  destruct (starts_with explainPrefix a).
  { apply IH; [lia|]. by apply setArgument_inv, setCommand_inv. }
  apply IH; [lia|]. by apply noteForeign_inv.
Qed.
End request_facts.

(** ** The maintenance argument *)

Section maintenance_facts.
Context `{QD : QtData}.

(** Members read so far: known keys, in the object's order, of their types. *)
Definition membersOk (o : jobject) : Prop :=
  jwf o ∧ ∀ k, k ∈ jkeys o → k ∈ maintenanceKeys ∧
    if text_eqb k (lit "generation")
    then ∃ g, jvalue k o = JDouble (DInt g) ∧ 1 <= g <= 9007199254740991
    else ∃ s, jvalue k o = JString s.

Lemma readMember_ok key s value rest :
  readMember key s = Some (value, rest) →
  if text_eqb key (lit "generation")
  then ∃ g, value = JDouble (DInt g) ∧ 1 <= g <= 9007199254740991 else ∃ s, value = JString s.
Proof.
  unfold readMember. destruct (text_eqb key _).
  - destruct (spanDigits s) as [token r]. destruct (digitsToLongLong token) as [g|]; [|done].
    destruct (_ || _) eqn:G; [done|]. intros [= <- <-]. bprop. exists g. split; [done|lia].
  - destruct (readString s) as [[v r]|]; [|done]. intros [= <- <-]. by exists v.
Qed.

Lemma readMembers_ok fuel s o o' rest :
  membersOk o → readMembers fuel s o = Some (o', rest) → membersOk o'.
Proof.
  revert s o. induction fuel as [|fuel IH]; intros s o Ho E; [done|]. cbn [readMembers] in E.
  destruct (readString _) as [[key s1]|]; [|done]. destruct (jcontains key o) eqn:Hc; [done|].
  destruct (bool_decide (key ∈ maintenanceKeys)) eqn:Hk; bprop; cbn [negb] in E; [|done].
  destruct (expectChar 58 _) as [s2|]; [|done].
  destruct (readMember key _) as [[value s3]|] eqn:Hm; [|done]. cbv zeta in E.
  apply readMember_ok in Hm.
  assert (membersOk (jinsert key value o)) as Hins.
  { assert (is_undefined value = false) as Hu.
    { destruct (text_eqb key _); naive_solver. }
    unfold jinsert. rewrite Hu. destruct Ho as [Hw Ho]. split; [by apply jput_wf|].
    intros k. rewrite jput_keys. intros [->|Hin].
    - split; [done|]. by rewrite jvalue_jput_eq.
    - assert (k ≠ key). { intros ->. apply jcontains_true in Hin. congruence. }
      rewrite jvalue_jput_ne by done. by apply Ho. }
  destruct (drop_while jsonSpace s3) as [|c s4]; [done|].
  repeat (case_match; try done); simplify_eq; eauto.
Qed.

Lemma four_members o :
  membersOk o → length o = 4%nat → ∀ k, k ∈ maintenanceKeys → k ∈ jkeys o.
Proof.
  intros [[Hs _] Ho] Hl k Hk.
  assert (NoDup (jkeys o)) as Hnd.
  { clear -Hs. induction Hs as [|x l Hl IH Hx]; constructor; [|done]. intros Hin.
    rewrite Forall_forall in Hx. specialize (Hx x Hin). unfold text_lt in Hx. by rewrite text_ltb_irrefl in Hx. }
  assert (jkeys o ⊆+ maintenanceKeys) as Hsub.
  { apply NoDup_submseteq; [done|]. intros x Hx. by apply Ho. }
  apply submseteq_length_Permutation in Hsub; [by rewrite Hsub|].
  unfold jkeys. rewrite length_map, Hl. done.
Qed.

Lemma parseMaintenance_ok input o :
  parseAwgMaintenanceArgument input = Some o →
  membersOk o ∧ length o = 4%nat ∧ tsize input <= 4096
  ∧ (let id := to_string [] (jvalue (lit "serverId") o) in
     id ≠ [] ∧ tsize id <= 256 ∧ Forall (λ c, 32 <= c) id)
  ∧ to_string [] (jvalue (lit "source") o) ∈ [lit "amnezia-awg"; lit "amnezia-awg2"]
  ∧ hex64Expression (to_string [] (jvalue (lit "expectedJournalSha256") o)) = true.
Proof.
  unfold parseAwgMaintenanceArgument. destruct (_ || _) eqn:G0; [done|].
  destruct (expectChar 123 _) as [s|]; [|done].
  destruct (readMembers _ _ _) as [[r rest]|] eqn:Hr; [|done]. cbv zeta.
  destruct (negb (is_empty (drop_while jsonSpace rest)) || _) eqn:G1; [done|].
  destruct (is_empty (to_string [] (jvalue (lit "serverId") r)) || _) eqn:G2; [done|].
  destruct (existsb _ _) eqn:G3; [done|].
  destruct (negb (text_eqb _ _) && _) eqn:G4; [done|].
  destruct (hex64Expression _) eqn:G5; [|done]. intros [= <-]. bprop.
  split_and!; try done.
  - eapply readMembers_ok; [|exact Hr]. split; [apply jwf_nil|]. by intros k ?%not_elem_of_nil.
  - by apply Nat.eqb_eq.
  - by apply is_empty_false.
  - rewrite existsb_false_iff in G3. apply Forall_forall. intros c Hc%G3. bprop. lia.
  - rewrite !elem_of_cons, <-!text_eqb_eq. destruct G4 as [G4|G4]; bprop; auto.
Qed.
End maintenance_facts.

(** ** Properties *)

Section properties.
Context `{QT : QtText} `{QD : QtData}.

(** The request wire format is faithful and closed: a valid request
    survives the trip through its JSON form, except the maintenance command,
    which the wire refuses; and whatever object is received, a request read
    from it is valid and is not the maintenance command. *)
Theorem request_wire_protocol r o :
  requestIsValid r = true →
  requestFromJson (requestToJson r)
  = (if bool_decide (type r = MaintainAwgControls)
     then Err (lit "No operator command was specified.") else Ok r)
  ∧ (∀ r', requestFromJson o = Ok r' → requestIsValid r' = true ∧ type r' ≠ MaintainAwgControls).
Proof.
  intros Hv. unfold requestIsValid in *. apply is_empty_true in Hv. split.
  - destruct (requestToJson_values r) as (V1 & V2 & V3 & V4). unfold requestFromJson. cbv zeta.
    rewrite V1, V2, V3, V4. cbn [protocolSupported negb is_string is_bool to_string to_bool].
    change (negb (1 =? WireProtocolVersion)) with false. cbn [orb negb].
    rewrite commandType_name.
    assert (is_undefined (if is_empty (argument r) then JUndefined else JString (argument r)) = is_empty (argument r)
      ∧ is_string (if is_empty (argument r) then JUndefined else JString (argument r)) = negb (is_empty (argument r))
      ∧ to_string [] (if is_empty (argument r) then JUndefined else JString (argument r)) = argument r) as (E1 & E2 & E3).
    { destruct (argument r); done. }
    rewrite E1, E2, E3, negb_involutive. replace (negb (is_empty (argument r)) && is_empty (argument r)) with false
      by (by destruct (is_empty (argument r))).
    destruct (decide (type r = MaintainAwgControls)) as [Ht|Ht].
    + by rewrite bool_decide_true, Ht by done.
    + rewrite bool_decide_false by done.
      assert (match type r with MaintainAwgControls => CommandNone | _ => type r end = type r) as -> by (by destruct (type r)).
      replace (MkCommand (type r) (json_ r) (argument r)) with r by (by destruct r). by rewrite Hv.
  - intros r' E. apply requestFromJson_Ok in E as [H1 H2]. by rewrite is_empty_true.
Qed.

(** Command lines are judged soundly and privately: a line is accepted only
    with a valid request and an operator option on it, and exactly when no
    error is reported; the error text is one of the fixed messages or lists
    distinct names of known start-up options, so no other part of the
    arguments is ever echoed. *)
Theorem command_line_sound args :
  let p := parseArguments args in
  (valid p = true → hasOperatorArguments p = true ∧ error p = [] ∧ requestIsValid (parsedRequest p) = true)
  ∧ (hasOperatorArguments p = true → error p = [] → valid p = true)
  ∧ (error p ∈ fixedMessages
     ∨ ∃ names, names ≠ [] ∧ NoDup names ∧ Forall (λ n, n ∈ knownStartupOptions) names
         ∧ error p = lit "Operator commands cannot be combined with: " ++ join (lit ", ") names).
Proof.
  intros p. subst p. unfold parseArguments. cbv zeta.
  assert (argInv (scanArguments args (ArgState false noCommand [] [] false))) as (H1 & H2 & H3 & H4).
  { apply (scanArguments_inv (length args)); [done|]. split_and!; [closed_elem|constructor|constructor|done]. }
  set (s := scanArguments _ _) in *. clearbody s.
  destruct (seenOperator s); cbn [negb]; [|split_and!; [done|done|by left]].
  set (e := if foreign s && _ then _ else message s).
  assert (e ∈ fixedMessages ∨ ∃ names, names ≠ [] ∧ NoDup names ∧ Forall (λ n, n ∈ knownStartupOptions) names
            ∧ e = lit "Operator commands cannot be combined with: " ++ join (lit ", ") names) as He.
  { subst e. destruct (foreign s && _); [|by left]. destruct (bool_decide (conflicting s = [])) eqn:Hn; bprop.
    - left. closed_elem.
    - right. by exists (conflicting s). }
  cbn [valid hasOperatorArguments error parsedRequest].
  destruct (is_empty e) eqn:Ee; cbn iota.
  - split_and!.
    + intros Hv. split_and!; [done|by apply is_empty_true|done].
    + intros _ ->. done.
    + left. apply requestError_fixed.
  - split_and!; [by rewrite Ee|by intros _ ->|done].
Qed.

(** The route verdict is fail-closed: a definite route is reported exactly
    when a confirmed snapshot of a connected client is available, its mode
    agrees with the policy, the target is an unprotected IPv4 literal outside
    split mode, and the policy's answer is a route; it is then the policy's. *)
Theorem route_verdict_fail_closed policyRoute snap conn conf literal v6 split prot agree :
  let d := assessRouteRuntime policyRoute snap conn conf literal v6 split prot agree in
  (route d ≠ lit "unknown" ↔
   snap = true ∧ conn = true ∧ conf = true ∧ agree = true ∧ literal = true ∧ prot = false ∧ v6 = false
   ∧ split = false ∧ (policyRoute = lit "vpn" ∨ policyRoute = lit "direct"))
  ∧ (route d ≠ lit "unknown" → route d = policyRoute)
  ∧ (runtimeApplied d = true ↔ snap = true ∧ conn = true ∧ conf = true)
  ∧ warning d ≠ [].
Proof.
  intros d. subst d. unfold assessRouteRuntime.
  destruct snap, conn, conf, agree, literal, prot, v6, split; cbn [negb andb];
    try (split_and!; [split; [done|naive_solver]|done|split; [done|naive_solver]|done]).
  all: try (split_and!; [split; [done|naive_solver]|done|done|done]).
  destruct (text_eqb policyRoute (lit "vpn")) eqn:E1.
  { apply text_eqb_eq in E1 as ->. cbn. split_and!; try done. split; [|done]. intros _. auto 10. }
  destruct (text_eqb policyRoute (lit "direct")) eqn:E2.
  { apply text_eqb_eq in E2 as ->. cbn. split_and!; try done. split; [|done]. intros _. auto 10. }
  apply text_eqb_neq in E1, E2. cbn. split_and!; try done. split; [done|]. naive_solver.
Qed.

(** An accepted maintenance argument is exactly one request: the four known
    members and nothing else, each once, with a generation that is an exact
    JSON integer, a printable server id, a known source and a digest that
    matches the expression. *)
Theorem maintenance_request_sound input o :
  parseAwgMaintenanceArgument input = Some o →
  (∀ k, k ∈ jkeys o ↔ k ∈ maintenanceKeys) ∧ length o = 4%nat
  ∧ (∃ g, jvalue (lit "generation") o = JDouble (DInt g) ∧ 1 <= g <= 9007199254740991)
  ∧ (∃ id, jvalue (lit "serverId") o = JString id ∧ id ≠ [] ∧ tsize id <= 256 ∧ Forall (λ c, 32 <= c) id)
  ∧ (∃ src, jvalue (lit "source") o = JString src ∧ (src = lit "amnezia-awg" ∨ src = lit "amnezia-awg2"))
  ∧ (∃ h, jvalue (lit "expectedJournalSha256") o = JString h ∧ hex64Expression h = true).
Proof.
  intros E. apply parseMaintenance_ok in E as (Hm & Hl & _ & Hid & Hsrc & Hh).
  assert (∀ k, k ∈ jkeys o ↔ k ∈ maintenanceKeys) as Hk.
  { intros k. split; [intros Hin; by apply Hm|by apply four_members]. }
  assert (∀ k, k ∈ maintenanceKeys → if text_eqb k (lit "generation")
    then ∃ g, jvalue k o = JDouble (DInt g) ∧ 1 <= g <= 9007199254740991 else ∃ s, jvalue k o = JString s) as Hty.
  { intros k Hin. apply Hk in Hin. by apply Hm in Hin as [_ Hin]. }
  destruct (Hty (lit "serverId") ltac:(closed_elem)) as [id Eid].
  destruct (Hty (lit "source") ltac:(closed_elem)) as [src Esrc].
  destruct (Hty (lit "expectedJournalSha256") ltac:(closed_elem)) as [h Eh].
  rewrite Eid in Hid. rewrite Esrc in Hsrc. rewrite Eh in Hh. cbn [to_string] in *.
  split_and!; [done|done|exact (Hty (lit "generation") ltac:(closed_elem))|eauto| |eauto].
  exists src. split; [done|]. set_solver.
Qed.
End properties.

(** Responses survive the wire: a response with a process exit code is
    read back from its JSON form unchanged, and every response that is read
    has an exit code between 0 and 255. *)
Theorem response_wire_roundtrip r o :
  (0 <= exitCode r <= 255 → responseFromJson (responseToJson r) = Ok r)
  ∧ (∀ r', responseFromJson o = Ok r' → 0 <= exitCode r' <= 255).
Proof.
  split.
  - intros Hc. assert (jvalue (lit "protocol") (responseToJson r) = JDouble (DInt 1)
      ∧ jvalue (lit "exitCode") (responseToJson r) = JDouble (DInt (exitCode r))
      ∧ jvalue (lit "human") (responseToJson r) = JString (humanOutput r)
      ∧ jvalue (lit "result") (responseToJson r) = JObject (responseResult r)) as (V1 & V2 & V3 & V4).
    { unfold responseToJson, jinsert. cbn [is_undefined]. cbv iota. rewrite !jvalue_jput. split_and!; reflexivity. }
    unfold responseFromJson. cbv zeta. rewrite V1, V2, V3, V4.
    cbn [protocolSupported validExitCode d_isfinite d_integral d_ltb d_gtb andb is_string is_object].
    change (1 =? WireProtocolVersion) with true. unfold MinimumProcessExitCode, MaximumProcessExitCode.
    rewrite !(proj2 (Z.ltb_ge _ _)) by lia. by destruct r.
  - intros r' E. unfold responseFromJson in E. cbv zeta in E. destruct (negb _); [done|].
    destruct (_ || _) eqn:G; [done|]. bprop. simplify_eq. cbn [exitCode].
    destruct (jvalue (lit "exitCode") o) as [| | |[z| |]| | |]; try done. simpl in *. bprop.
    unfold MinimumProcessExitCode, MaximumProcessExitCode in *. lia.
Qed.

(** ** The properties at concrete inputs *)

(** A JSON reader for arrays of one string, with the escape of a newline. *)
Fixpoint unescape (s : text) : text :=
  match s with
  | 92 :: 110 :: s' => 10 :: unescape s'
  | c :: s' => c :: unescape s'
  | [] => []
  end.

#[local] Instance quotedData : QtData := {|
  sha256 := toy_sha256;
  json_compact := λ o, json_text (JObject o);
  json_parse := λ s, Some (JArray [JString (unescape (take (length s - 4) (drop 2 s)))]);
  utf8 := λ s, s;
|}.

Lemma request_wire_protocol_witness :
  @requestFromJson asciiText quotedData (requestToJson (MkCommand RoutesExplain true (lit "example.com")))
  = Ok (MkCommand RoutesExplain true (lit "example.com")).
Proof.
  apply (@request_wire_protocol asciiText quotedData (MkCommand RoutesExplain true (lit "example.com")) []).
  reflexivity.
Defined.

Lemma command_line_sound_witness :
  let p := @parseArguments asciiText quotedData [lit "--status"; lit "--json"] in
  hasOperatorArguments p = true ∧ error p = [] ∧ @requestIsValid asciiText quotedData (parsedRequest p) = true.
Proof.
  apply (@command_line_sound asciiText quotedData [lit "--status"; lit "--json"]). reflexivity.
Defined.

Lemma route_verdict_fail_closed_witness :
  let d := assessRouteRuntime (lit "vpn") true true true true false false false true in
  route d = lit "vpn" ∧ route d = lit "vpn".
Proof.
  split; [reflexivity|].
  apply (route_verdict_fail_closed (lit "vpn") true true true true false false false true).
  vm_compute. discriminate.
Defined.

(** [{"serverId":"s","source":"amnezia-awg","generation":7,
    "expectedJournalSha256":"<digest>"}], quotes written as code units. *)
Notation quote := [34].
Notation member k v := (quote ++ lit k ++ quote ++ [58] ++ quote ++ v ++ quote).
Notation example_request digest :=
  ([123] ++ member "serverId" (lit "s") ++ [44] ++ member "source" (lit "amnezia-awg") ++ [44]
   ++ quote ++ lit "generation" ++ quote ++ [58; 55; 44]
   ++ member "expectedJournalSha256" digest ++ [125]).

Lemma maintenance_request_sound_witness :
  ∃ o, @parseAwgMaintenanceArgument quotedData (example_request (repeat 97 64)) = Some o ∧ length o = 4%nat.
Proof.
  eexists. split; [vm_compute; reflexivity|].
  eapply (@maintenance_request_sound quotedData (example_request (repeat 97 64))).
  vm_compute. reflexivity.
Defined.

Lemma response_wire_roundtrip_witness :
  responseFromJson (responseToJson (Response 4 (lit "ok") [])) = Ok (Response 4 (lit "ok") []).
Proof. apply (response_wire_roundtrip (Response 4 (lit "ok") []) []). simpl. lia. Defined.

(** The digest of a maintenance request need not be 64 characters: the
    expression is not anchored against a final newline, so a request whose
    digest is 64 hexadecimal digits followed by an escaped newline is accepted
    with a digest of 65 characters. *)
Theorem maintenance_digest_newline_accepted :
  ∃ o, @parseAwgMaintenanceArgument quotedData (example_request (repeat 97 64 ++ [92; 110])) = Some o
    ∧ jvalue (lit "expectedJournalSha256") o = JString (repeat 97 64 ++ [10])
    ∧ tsize (repeat 97 64 ++ [10]) = 65.
Proof. eexists. split_and!; vm_compute; reflexivity. Qed.
