(* ===== verification/ConfigKeys.v ===== *)
(** * Configuration keys

    The constants of client/core/utils/constants/configKeys.h
    ([key_<name>] is [configKey::<name>]) and of protocolConstants.h
    ([<protocol>_<name>] is [protocols::<protocol>::<name>]) that the stored
    protocol configurations use. *)

From S2P Require Import Prelude Text.

(** ** configKeys.h *)

Definition key_hostName : text := lit "hostName".
Definition key_userName : text := lit "userName".
Definition key_password : text := lit "password".
Definition key_port : text := lit "port".
Definition key_localPort : text := lit "local_port".
Definition key_cert : text := lit "cert".
Definition key_config : text := lit "config".
Definition key_transportProto : text := lit "transport_proto".
Definition key_cipher : text := lit "cipher".
Definition key_hash : text := lit "hash".
Definition key_ncpDisable : text := lit "ncp_disable".
Definition key_tlsAuth : text := lit "tls_auth".
Definition key_clientPrivKey : text := lit "client_priv_key".
Definition key_clientPubKey : text := lit "client_pub_key".
Definition key_serverPubKey : text := lit "server_pub_key".
Definition key_pskKey : text := lit "psk_key".
Definition key_mtu : text := lit "mtu".
Definition key_allowedIps : text := lit "allowed_ips".
Definition key_persistentKeepAlive : text := lit "persistent_keep_alive".
Definition key_clientIp : text := lit "client_ip".
Definition key_site : text := lit "site".
Definition key_blockOutsideDns : text := lit "block_outside_dns".
Definition key_subnetAddress : text := lit "subnet_address".
Definition key_subnetMask : text := lit "subnet_mask".
Definition key_subnetCidr : text := lit "subnet_cidr".
Definition key_additionalClientConfig : text := lit "additional_client_config".
Definition key_additionalServerConfig : text := lit "additional_server_config".
Definition key_lastConfig : text := lit "last_config".
Definition key_protocolVersion : text := lit "protocol_version".
Definition key_isThirdPartyConfig : text := lit "isThirdPartyConfig".
Definition key_isObfuscationEnabled : text := lit "isObfuscationEnabled".
Definition key_junkPacketCount : text := lit "Jc".
Definition key_junkPacketMinSize : text := lit "Jmin".
Definition key_junkPacketMaxSize : text := lit "Jmax".
Definition key_initPacketJunkSize : text := lit "S1".
Definition key_responsePacketJunkSize : text := lit "S2".
Definition key_cookieReplyPacketJunkSize : text := lit "S3".
Definition key_transportPacketJunkSize : text := lit "S4".
Definition key_initPacketMagicHeader : text := lit "H1".
Definition key_responsePacketMagicHeader : text := lit "H2".
Definition key_underloadPacketMagicHeader : text := lit "H3".
Definition key_transportPacketMagicHeader : text := lit "H4".
Definition key_specialJunk1 : text := lit "I1".
Definition key_specialJunk2 : text := lit "I2".
Definition key_specialJunk3 : text := lit "I3".
Definition key_specialJunk4 : text := lit "I4".
Definition key_specialJunk5 : text := lit "I5".
Definition key_headerProtectionKey : text := lit "HeaderProtectionKey".
Definition key_contentPaddingAddition : text := lit "ContentPaddingAddition".
Definition key_rekeyAfterTime : text := lit "RekeyAfterTime".
Definition key_rekeyTimeout : text := lit "RekeyTimeout".
Definition key_rejectAfterTime : text := lit "RejectAfterTime".
Definition key_keepaliveTimeout : text := lit "KeepaliveTimeout".
Definition key_maxHandshakeAttempts : text := lit "MaxHandshakeAttempts".
Definition key_randomTrailers : text := lit "RandomTrailers".
Definition key_disableCookies : text := lit "DisableCookies".
Definition key_clientId : text := lit "clientId".
Definition key_xraySecurity : text := lit "xray_security".
Definition key_xrayFlow : text := lit "xray_flow".
Definition key_xrayFingerprint : text := lit "xray_fingerprint".
Definition key_xraySni : text := lit "xray_sni".
Definition key_xrayAlpn : text := lit "xray_alpn".
Definition key_xrayTransport : text := lit "xray_transport".
Definition key_xhttpMode : text := lit "xhttp_mode".
Definition key_xhttpHost : text := lit "xhttp_host".
Definition key_xhttpPath : text := lit "xhttp_path".
Definition key_xhttpUplinkMethod : text := lit "xhttp_uplink_method".
Definition key_xhttpDisableGrpc : text := lit "xhttp_disable_grpc".
Definition key_xhttpDisableSse : text := lit "xhttp_disable_sse".
Definition key_xhttpSessionPlacement : text := lit "xhttp_session_placement".
Definition key_xhttpSessionKey : text := lit "xhttp_session_key".
Definition key_xhttpSeqPlacement : text := lit "xhttp_seq_placement".
Definition key_xhttpSeqKey : text := lit "xhttp_seq_key".
Definition key_xhttpUplinkDataPlacement : text := lit "xhttp_uplink_data_placement".
Definition key_xhttpUplinkDataKey : text := lit "xhttp_uplink_data_key".
Definition key_xhttpUplinkChunkSize : text := lit "xhttp_uplink_chunk_size".
Definition key_xhttpScMaxBufferedPosts : text := lit "xhttp_sc_max_buffered_posts".
Definition key_xhttpScMaxEachPostBytesMin : text := lit "xhttp_sc_max_each_post_bytes_min".
Definition key_xhttpScMaxEachPostBytesMax : text := lit "xhttp_sc_max_each_post_bytes_max".
Definition key_xhttpScMinPostsIntervalMsMin : text := lit "xhttp_sc_min_posts_interval_ms_min".
Definition key_xhttpScMinPostsIntervalMsMax : text := lit "xhttp_sc_min_posts_interval_ms_max".
Definition key_xhttpScStreamUpServerSecsMin : text := lit "xhttp_sc_stream_up_server_secs_min".
Definition key_xhttpScStreamUpServerSecsMax : text := lit "xhttp_sc_stream_up_server_secs_max".
Definition key_mkcpTti : text := lit "mkcp_tti".
Definition key_mkcpUplinkCapacity : text := lit "mkcp_uplink_capacity".
Definition key_mkcpDownlinkCapacity : text := lit "mkcp_downlink_capacity".
Definition key_mkcpReadBufferSize : text := lit "mkcp_read_buffer_size".
Definition key_mkcpWriteBufferSize : text := lit "mkcp_write_buffer_size".
Definition key_mkcpCongestion : text := lit "mkcp_congestion".
Definition key_xPaddingBytesMin : text := lit "xpadding_bytes_min".
Definition key_xPaddingBytesMax : text := lit "xpadding_bytes_max".
Definition key_xPaddingObfsMode : text := lit "xpadding_obfs_mode".
Definition key_xPaddingKey : text := lit "xpadding_key".
Definition key_xPaddingHeader : text := lit "xpadding_header".
Definition key_xPaddingPlacement : text := lit "xpadding_placement".
Definition key_xPaddingMethod : text := lit "xpadding_method".
Definition key_xmuxEnabled : text := lit "xmux_enabled".
Definition key_xmuxMaxConcurrencyMin : text := lit "xmux_max_concurrency_min".
Definition key_xmuxMaxConcurrencyMax : text := lit "xmux_max_concurrency_max".
Definition key_xmuxMaxConnectionsMin : text := lit "xmux_max_connections_min".
Definition key_xmuxMaxConnectionsMax : text := lit "xmux_max_connections_max".
Definition key_xmuxCMaxReuseTimesMin : text := lit "xmux_c_max_reuse_times_min".
Definition key_xmuxCMaxReuseTimesMax : text := lit "xmux_c_max_reuse_times_max".
Definition key_xmuxHMaxRequestTimesMin : text := lit "xmux_h_max_request_times_min".
Definition key_xmuxHMaxRequestTimesMax : text := lit "xmux_h_max_request_times_max".
Definition key_xmuxHMaxReusableSecsMin : text := lit "xmux_h_max_reusable_secs_min".
Definition key_xmuxHMaxReusableSecsMax : text := lit "xmux_h_max_reusable_secs_max".
Definition key_xmuxHKeepAlivePeriod : text := lit "xmux_h_keep_alive_period".

Definition awgProtocolKeys : list text :=
  [ key_junkPacketCount; key_junkPacketMinSize; key_junkPacketMaxSize;
    key_initPacketJunkSize; key_responsePacketJunkSize; key_cookieReplyPacketJunkSize;
    key_transportPacketJunkSize; key_initPacketMagicHeader; key_responsePacketMagicHeader;
    key_underloadPacketMagicHeader; key_transportPacketMagicHeader; key_specialJunk1;
    key_specialJunk2; key_specialJunk3; key_specialJunk4;
    key_specialJunk5; key_headerProtectionKey; key_contentPaddingAddition;
    key_rekeyAfterTime; key_rekeyTimeout; key_rejectAfterTime;
    key_keepaliveTimeout; key_maxHandshakeAttempts; key_randomTrailers;
    key_disableCookies ].

(** ** protocolConstants.h *)

Definition xray_defaultFingerprint : text := lit "chrome".
Definition xray_defaultXhttpMode : text := lit "Auto".
Definition xray_defaultXhttpUplinkMethod : text := lit "POST".
Definition xray_defaultXhttpSessionPlacement : text := lit "Path".
Definition xray_defaultXhttpSessionKey : text := lit "".
Definition xray_defaultXhttpSeqPlacement : text := lit "Path".
Definition xray_defaultXhttpUplinkDataPlacement : text := lit "Body".
Definition xray_defaultXhttpHost : text := lit "www.googletagmanager.com".
Definition xray_defaultXhttpUplinkChunkSize : text := lit "0".
Definition xray_defaultXhttpScMaxEachPostBytesMin : text := lit "1".
Definition xray_defaultXhttpScMaxEachPostBytesMax : text := lit "100".
Definition xray_defaultXhttpScMinPostsIntervalMsMin : text := lit "100".
Definition xray_defaultXhttpScMinPostsIntervalMsMax : text := lit "800".
Definition xray_defaultXhttpScStreamUpServerSecsMin : text := lit "1".
Definition xray_defaultXhttpScStreamUpServerSecsMax : text := lit "100".
Definition xray_defaultXPaddingPlacement : text := lit "Cookie".
Definition xray_defaultXPaddingMethod : text := lit "Repeat-x".
Definition xray_outbounds : text := lit "outbounds".
Definition xray_inbounds : text := lit "inbounds".
Definition xray_settings : text := lit "settings".
Definition xray_streamSettings : text := lit "streamSettings".
Definition xray_vnext : text := lit "vnext".
Definition xray_users : text := lit "users".
Definition xray_id : text := lit "id".
Definition xray_port : text := lit "port".
Definition xray_flow : text := lit "flow".
Definition xray_network : text := lit "network".
Definition xray_security : text := lit "security".
Definition xray_realitySettings : text := lit "realitySettings".
Definition xray_serverName : text := lit "serverName".
Definition xray_fingerprint : text := lit "fingerprint".
Definition awg_awgV1_5 : text := lit "1.5".
Definition awg_awgV2 : text := lit "2".
Definition awg_awgV3 : text := lit "3.1".
Definition awg_awgBoolOff : text := lit "off".
Definition mtProxy_secretKey : text := lit "mtproxy_secret".
Definition mtProxy_tagKey : text := lit "mtproxy_tag".
Definition mtProxy_tgLinkKey : text := lit "mtproxy_tg_link".
Definition mtProxy_tmeLinkKey : text := lit "mtproxy_tme_link".
Definition mtProxy_isEnabledKey : text := lit "mtproxy_is_enabled".
Definition mtProxy_publicHostKey : text := lit "mtproxy_public_host".
Definition mtProxy_transportModeKey : text := lit "mtproxy_transport_mode".
Definition mtProxy_tlsDomainKey : text := lit "mtproxy_tls_domain".
Definition mtProxy_additionalSecretsKey : text := lit "mtproxy_additional_secrets".
Definition mtProxy_workersKey : text := lit "mtproxy_workers".
Definition mtProxy_workersModeKey : text := lit "mtproxy_workers_mode".
Definition mtProxy_natEnabledKey : text := lit "mtproxy_nat_enabled".
Definition mtProxy_natInternalIpKey : text := lit "mtproxy_nat_internal_ip".
Definition mtProxy_natExternalIpKey : text := lit "mtproxy_nat_external_ip".
Definition mtProxy_transportModeStandard : text := lit "standard".
Definition mtProxy_workersModeAuto : text := lit "auto".
Definition mtProxy_defaultPort : text := lit "443".
Definition telemt_secretKey : text := lit "telemt_secret".
Definition telemt_tagKey : text := lit "telemt_tag".
Definition telemt_tgLinkKey : text := lit "telemt_tg_link".
Definition telemt_tmeLinkKey : text := lit "telemt_tme_link".
Definition telemt_isEnabledKey : text := lit "telemt_is_enabled".
Definition telemt_publicHostKey : text := lit "telemt_public_host".
Definition telemt_transportModeKey : text := lit "telemt_transport_mode".
Definition telemt_tlsDomainKey : text := lit "telemt_tls_domain".
Definition telemt_maskEnabledKey : text := lit "telemt_mask_enabled".
Definition telemt_tlsEmulationKey : text := lit "telemt_tls_emulation".
Definition telemt_useMiddleProxyKey : text := lit "telemt_use_middle_proxy".
Definition telemt_userNameKey : text := lit "telemt_user_name".
Definition telemt_additionalSecretsKey : text := lit "telemt_additional_secrets".
Definition telemt_workersKey : text := lit "telemt_workers".
Definition telemt_workersModeKey : text := lit "telemt_workers_mode".
Definition telemt_natEnabledKey : text := lit "telemt_nat_enabled".
Definition telemt_natInternalIpKey : text := lit "telemt_nat_internal_ip".
Definition telemt_natExternalIpKey : text := lit "telemt_nat_external_ip".
Definition telemt_transportModeStandard : text := lit "standard".
Definition telemt_defaultPort : text := lit "443".
Definition tProxy_secretKey : text := lit "tproxy_secret".
Definition tProxy_hostnameKey : text := lit "tproxy_hostname".
Definition tProxy_acmeEmailKey : text := lit "tproxy_acme_email".
Definition tProxy_carrierModeKey : text := lit "tproxy_carrier_mode".
Definition tProxy_tgLinkKey : text := lit "tproxy_tg_link".
Definition tProxy_tmeLinkKey : text := lit "tproxy_tme_link".
Definition tProxy_isEnabledKey : text := lit "tproxy_is_enabled".
Definition tProxy_workersKey : text := lit "tproxy_workers".
Definition tProxy_httpPortKey : text := lit "tproxy_http_port".
Definition tProxy_carrierModeHttps : text := lit "https".
Definition tProxy_defaultHttpPort : text := lit "80".
Definition tProxy_defaultPort : text := lit "443".
Definition tProxy_defaultWorkers : text := lit "1".
