(* ===== verification/JsonText.v ===== *)
(** * JSON documents as text

    The stored configurations keep the client half of a protocol as JSON text
    inside a JSON string.  [QtJsonTextLaws] is what that relies on: printing
    an object with [QJsonDocument::toJson] and reading it back with
    [QJsonDocument::fromJson] gives the object, provided its strings are
    well-formed UTF-16, its numbers are exact integers and its nesting stays
    within the limit of the reader. *)

From S2P Require Import Prelude Text Json QtInterface QtModel.
#[local] Open Scope Z_scope.

(** ** Objects that survive printing and reading *)

(** No unpaired surrogate. *)
Fixpoint utf16_valid (s : text) : bool :=
  match s with
  | [] => true
  | c :: s' =>
      if (0xD800 <=? c) && (c <=? 0xDBFF) then
        match s' with
        | d :: s'' => (0xDC00 <=? d) && (d <=? 0xDFFF) && utf16_valid s''
        | [] => false
        end
      else (0 <=? c) && (c <? 65536) && negb ((0xDC00 <=? c) && (c <=? 0xDFFF)) && utf16_valid s'
  end.

Fixpoint keys_sorted (l : list text) : bool :=
  match l with
  | [] => true
  | k :: l' => match l' with [] => true | k' :: _ => text_ltb k k' && keys_sorted l' end
  end.

Fixpoint json_plain (j : json) : bool :=
  match j with
  | JUndefined => false
  | JNull | JBool _ => true
  | JDouble (DInt z) => Z.abs z <=? 2 ^ 53
  | JDouble _ => false
  | JString s => utf16_valid s
  | JArray l => forallb json_plain l
  | JObject o =>
      keys_sorted (jkeys o)
      && forallb (λ '(k, v), utf16_valid k && json_plain v) o
  end.

Fixpoint json_depth (j : json) : nat :=
  match j with
  | JArray l => S (max_list_with json_depth l)
  | JObject o => S (max_list_with (λ '(_, v), json_depth v) o)
  | _ => 0
  end.

(** The nesting limit of the reader is 1024. *)
Definition json_printable (o : jobject) : bool :=
  json_plain (JObject o) && bool_decide (json_depth (JObject o) ≤ 1024)%nat.

Class QtJsonText := {
  from_utf8 : text → text;             (* QString::fromUtf8 *)
}.

Class QtJsonTextLaws `(D : QtData) `(J : QtJsonText) : Prop := {
  json_parse_printed o :
    json_printable o = true →
    json_parse (utf8 (from_utf8 (json_compact o))) = Some (JObject o);
  json_printed_ne o : from_utf8 (json_compact o) ≠ [];
}.

(** ** A model: length-prefixed tokens *)

(** A document as a sequence of tokens, each value starting with its tag;
    enough to show that the laws can hold, and to run examples. *)
Fixpoint tok_enc (j : json) : text :=
  match j with
  | JUndefined => [0]
  | JNull => [1]
  | JBool b => [2; Z.b2z b]
  | JDouble (DInt z) => [3; z]
  | JDouble (DFrac m k) => [4; m; Zpos k]
  | JDouble DNonFinite => [5]
  | JString s => 6 :: tsize s :: s
  | JArray l => 7 :: Z.of_nat (length l) :: concat (map tok_enc l)
  | JObject o =>
      8 :: Z.of_nat (length o) :: concat (map (λ '(k, v), tsize k :: k ++ tok_enc v) o)
  end.

Section decode.
Context (dec : text → option (json * text)).

Fixpoint dec_list (n : nat) (s : text) : option (list json * text) :=
  match n with
  | O => Some ([], s)
  | S n' =>
      match dec s with
      | Some (j, s') =>
          match dec_list n' s' with Some (l, r) => Some (j :: l, r) | None => None end
      | None => None
      end
  end.

Fixpoint dec_members (n : nat) (s : text) : option (jobject * text) :=
  match n with
  | O => Some ([], s)
  | S n' =>
      match s with
      | [] => None
      | z :: s1 =>
          match dec (drop (Z.to_nat z) s1) with
          | Some (j, s') =>
              match dec_members n' s' with
              | Some (l, r) => Some ((take (Z.to_nat z) s1, j) :: l, r)
              | None => None
              end
          | None => None
          end
      end
  end.
End decode.

Fixpoint tok_dec (fuel : nat) (s : text) : option (json * text) :=
  match fuel with
  | O => None
  | S f =>
      match s with
      | 0 :: r => Some (JUndefined, r)
      | 1 :: r => Some (JNull, r)
      | 2 :: b :: r => Some (JBool (b =? 1), r)
      | 3 :: z :: r => Some (JDouble (DInt z), r)
      | 4 :: m :: Zpos k :: r => Some (JDouble (DFrac m k), r)
      | 5 :: r => Some (JDouble DNonFinite, r)
      | 6 :: n :: r => Some (JString (take (Z.to_nat n) r), drop (Z.to_nat n) r)
      | 7 :: n :: r =>
          match dec_list (tok_dec f) (Z.to_nat n) r with
          | Some (l, r') => Some (JArray l, r')
          | None => None
          end
      | 8 :: n :: r =>
          match dec_members (tok_dec f) (Z.to_nat n) r with
          | Some (o, r') => Some (JObject o, r')
          | None => None
          end
      | _ => None
      end
  end.

Lemma dec_list_enc dec l r :
  (∀ j r, j ∈ l → dec (tok_enc j ++ r) = Some (j, r)) →
  dec_list dec (length l) (concat (map tok_enc l) ++ r) = Some (l, r).
Proof.
  revert r. induction l as [|j l IH]; intros r H; [done|]. simpl.
  rewrite <-app_assoc, H by set_solver. rewrite IH; [done|]. intros. apply H. set_solver.
Qed.

Lemma dec_members_enc dec (o : jobject) r :
  (∀ k j r, (k, j) ∈ o → dec (tok_enc j ++ r) = Some (j, r)) →
  dec_members dec (length o)
    (concat (map (λ '(k, v), tsize k :: k ++ tok_enc v) o) ++ r) = Some (o, r).
Proof.
  revert r. induction o as [|[k j] o IH]; intros r H; [done|]. simpl.
  unfold tsize. rewrite Nat2Z.id, <-!app_assoc, drop_app_length, take_app_length.
  rewrite (H k) by set_solver. rewrite IH; [done|]. intros k' j' r' Hj. apply (H k'). by constructor.
Qed.

Lemma tok_dec_enc fuel j r :
  (json_size j ≤ fuel)%nat → tok_dec fuel (tok_enc j ++ r) = Some (j, r).
Proof.
  revert j r. induction fuel as [|f IH]; intros j r Hf.
  { destruct j; simpl in Hf; lia. }
  destruct j as [| |[]|[]|s|l|o]; try done.
  - simpl. unfold tsize. by rewrite Nat2Z.id, take_app_length, drop_app_length.
  - cbn -[dec_list]. rewrite Nat2Z.id, dec_list_enc; [done|]. intros j r' Hj. apply IH.
    simpl in Hf. pose proof (sum_list_with_in j json_size l Hj). lia.
  - cbn -[dec_members]. rewrite Nat2Z.id, dec_members_enc; [done|]. intros k j r' Hj.
    apply IH. simpl in Hf.
    pose proof (sum_list_with_in (k, j) (λ '(_, v), json_size v) o Hj). simpl in *. lia.
Qed.

Lemma concat_length_ge {A B} (f : A → list B) (g : A → nat) (l : list A) :
  (∀ x, x ∈ l → g x ≤ length (f x))%nat →
  (sum_list_with g l ≤ length (concat (map f l)))%nat.
Proof.
  induction l as [|x l IH]; intros H; simpl; [lia|]. rewrite length_app.
  specialize (IH ltac:(intros; apply H; set_solver)).
  specialize (H x ltac:(set_solver)). lia.
Qed.

Lemma tok_enc_size j : (json_size j ≤ length (tok_enc j))%nat.
Proof.
  remember (json_size j) as n eqn:Hn. assert (json_size j ≤ n)%nat as Hle by lia.
  rewrite Hn. clear Hn. revert j Hle. induction n as [|n IH]; intros j Hle.
  { destruct j; simpl in Hle; lia. }
  destruct j as [| |?|[]|?|l|o]; simpl; try lia.
  - apply le_n_S. etrans; [apply (concat_length_ge tok_enc)|lia].
    intros x Hx. apply IH. simpl in Hle. pose proof (sum_list_with_in x json_size l Hx). lia.
  - apply le_n_S. etrans; [apply (concat_length_ge (λ '(k, v), tsize k :: k ++ tok_enc v))|lia].
    intros [k x] Hx. simpl. rewrite length_app.
    pose proof (sum_list_with_in (k, x) (λ '(_, v), json_size v) o Hx). simpl in *.
    specialize (IH x ltac:(lia)). lia.
Qed.

#[local] Instance tokenData : QtData := {|
  sha256 := toy_sha256;
  json_compact := λ o, tok_enc (JObject o);
  json_parse := λ s, match tok_dec (length s) s with Some (j, []) => Some j | _ => None end;
  utf8 := λ s, s;
|}.

#[local] Instance tokenJsonText : QtJsonText := {| from_utf8 := λ s, s |}.

#[local] Instance tokenData_laws : QtJsonTextLaws tokenData tokenJsonText.
Proof.
  split; [|done]. intros o _. change (from_utf8 _) with (tok_enc (JObject o)).
  change (utf8 ?x) with x. unfold json_parse. cbn -[tok_enc tok_dec].
  pose proof (tok_dec_enc (length (tok_enc (JObject o))) (JObject o) [] (tok_enc_size _)) as H.
  by rewrite app_nil_r in H; rewrite H.
Qed.
