(* ===== verification/ConfigCodec.v ===== *)
(** * Configurations stored as JSON objects

    The protocol configurations of client/core/models/protocols/ are structs
    with a pair [toJson], [fromJson].  [object_of] is the sequence of
    conditional assignments of a [toJson]; [JsonConfig] is the interface of a
    struct with such a pair, [JsonConfigLaws] what a struct promises; the
    [protocol] section is the part of a protocol that is the same for AWG,
    WireGuard, OpenVPN and IKEv2: a server half stored as members of the
    object, and an optional client half stored as JSON text in one member. *)

From S2P Require Import Prelude Text Json QtInterface QtModel JsonText ConfigKeys.
#[local] Open Scope Z_scope.

(** Comparison without regard to case, as Unicode case folding defines it. *)
Class QtCase := {
  q_equals_ci : text → text → bool;    (* a.compare(b, Qt::CaseInsensitive) == 0 *)
  q_contains_ci : text → text → bool;  (* s.contains(p, Qt::CaseInsensitive) *)
}.

(** ** Writing members *)

(** [if (!s.isEmpty()) obj[k] = s;] *)
Definition filled (s : text) : option json := if is_empty s then None else Some (JString s).

(** [if (b) obj[k] = v;] *)
Definition set_if (b : bool) (v : json) : option json := if b then Some v else None.

(** An array of strings. *)
Definition string_array (l : list text) : json := JArray (map JString l).

(** [if (!l.isEmpty()) obj[k] = <array of l>;] *)
Definition filled_list (l : list text) : option json :=
  match l with [] => None | _ => Some (string_array l) end.

Definition write_member (o : jobject) (m : text * option json) : jobject :=
  match m.2 with Some v => jinsert m.1 v o | None => o end.

(** The object a [toJson] builds by its assignments, in order. *)
Definition object_of (l : list (text * option json)) : jobject := foldl write_member [] l.

(** ** Reading members *)

Definition str (k : text) (o : jobject) : text := to_string [] (jvalue k o).
Definition boolean (def : bool) (k : text) (o : jobject) : bool := to_bool def (jvalue k o).
Definition int32 (k : text) (o : jobject) : Z := to_int 0 (jvalue k o).

(** [for (v : json.value(k).toArray()) l.append(v.toString());] *)
Definition strings (k : text) (o : jobject) : list text :=
  map (to_string []) (to_array (jvalue k o)).

(** ** Members of a written object *)

Fixpoint member_value (k : text) (l : list (text * option json)) : option json :=
  match l with
  | [] => None
  | (k', m) :: l' => if text_eqb k k' then m else member_value k l'
  end.

Lemma jremove_wf k o : jwf o → jwf (jremove k o).
Proof.
  intros [Hs Hd]. unfold jremove. split.
  - clear Hd. unfold jkeys in *. induction o as [|[k2 v] o IH]; [done|].
    apply StronglySorted_inv in Hs as [Hs Hlt]. rewrite filter_cons.
    case_decide; [|by apply IH]. simpl. constructor; [by apply IH|].
    eapply Forall_forall. intros x ([k3 v3] & -> & Hx)%list_elem_of_fmap.
    apply list_elem_of_filter in Hx as [_ Hx]. eapply Forall_forall in Hlt; [done|].
    apply list_elem_of_fmap. by exists (k3, v3).
  - clear Hs. apply Forall_forall. intros p [_ Hp]%list_elem_of_filter.
    by eapply Forall_forall in Hd.
Qed.

Lemma jinsert_wf k v o : jwf o → jwf (jinsert k v o).
Proof.
  intros H. unfold jinsert. destruct (is_undefined v) eqn:E; [by apply jremove_wf|by apply jput_wf].
Qed.

Lemma write_members_wf l o : jwf o → jwf (foldl write_member o l).
Proof.
  revert o. induction l as [|[k [v|]] l IH]; intros o Ho; simpl; [done| |]; apply IH; [|done].
  by apply jinsert_wf.
Qed.

Lemma object_of_wf l : jwf (object_of l).
Proof. apply write_members_wf, jwf_nil. Qed.

Lemma member_value_fresh k l : k ∉ map fst l → member_value k l = None.
Proof.
  induction l as [|[k' m] l IH]; simpl; [done|]. intros H.
  rewrite (proj2 (text_eqb_neq k k')) by set_solver. apply IH. set_solver.
Qed.

Lemma write_members_value l o k :
  NoDup (map fst l) →
  jvalue k (foldl write_member o l) = default (jvalue k o) (member_value k l).
Proof.
  revert o. induction l as [|[k' m] l IH]; intros o Hn; [done|].
  inversion Hn as [|?? Hk Hn']; subst. cbn [foldl member_value]. rewrite IH by done.
  destruct (text_eqb k k') eqn:E.
  - apply text_eqb_eq in E. subst k'. rewrite member_value_fresh by done.
    destruct m; [|done]. unfold write_member. simpl. by rewrite jvalue_jinsert, text_eqb_refl.
  - destruct m; [|done]. unfold write_member. simpl. by rewrite jvalue_jinsert, E.
Qed.

Lemma object_of_value l k :
  NoDup (map fst l) → jvalue k (object_of l) = default JUndefined (member_value k l).
Proof. intros H. unfold object_of. by rewrite write_members_value. Qed.

Lemma jcontains_false k o : jcontains k o = false → jvalue k o = JUndefined.
Proof. intros H. apply jvalue_undefined. rewrite <-jcontains_true. congruence. Qed.

Lemma object_of_contains l k :
  NoDup (map fst l) →
  jcontains k (object_of l) = negb (is_undefined (default JUndefined (member_value k l))).
Proof. intros H. rewrite jcontains_value by apply object_of_wf. by rewrite object_of_value. Qed.

Lemma jcontains_ne k o : jcontains k o = true → o ≠ [].
Proof. by intros H ->. Qed.

Lemma jwf_value_key k o : jwf o → jvalue k o ≠ JUndefined ↔ k ∈ jkeys o.
Proof.
  intros Hw. split.
  - intros H. destruct (decide (k ∈ jkeys o)); [done|]. by rewrite jvalue_undefined in H.
  - intros H E. apply (jwf_value k o Hw) in H. by rewrite E in H.
Qed.

Lemma object_of_keys l k : NoDup (map fst l) → k ∈ jkeys (object_of l) → k ∈ map fst l.
Proof.
  intros Hn Hk. apply jwf_value_key in Hk; [|apply object_of_wf].
  rewrite object_of_value in Hk by done. destruct (decide (k ∈ map fst l)); [done|].
  by rewrite member_value_fresh in Hk.
Qed.

(** ** Reading back what was written *)

Lemma read_filled s : to_string [] (default JUndefined (filled s)) = s.
Proof. unfold filled. by destruct s. Qed.

Lemma read_filled_or d s : s ≠ [] → to_string d (default JUndefined (filled s)) = s.
Proof. unfold filled. by destruct s. Qed.

Lemma read_true b : to_bool false (default JUndefined (set_if b (JBool b))) = b.
Proof. by destruct b. Qed.

Lemma read_false b : to_bool true (default JUndefined (set_if (negb b) (JBool b))) = b.
Proof. by destruct b. Qed.

Lemma strings_of_array l : map (to_string []) (to_array (string_array l)) = l.
Proof. simpl. rewrite map_map. apply map_id. Qed.

Lemma read_filled_list l : map (to_string []) (to_array (default JUndefined (filled_list l))) = l.
Proof. destruct l as [|x l]; [done|]. apply strings_of_array. Qed.

Lemma read_port z : 0 <= z < 2 ^ 31 →
  to_int 0 (default JUndefined (set_if (z >? 0) (JDouble (DInt z)))) = z.
Proof.
  intros H. unfold set_if. destruct (z >? 0) eqn:E; simpl.
  - by rewrite (proj2 (Z.leb_le _ _)), (proj2 (Z.ltb_lt _ _)) by lia.
  - rewrite Z.gtb_ltb in E. apply Z.ltb_ge in E. lia.
Qed.

(** ** Structs stored as objects *)

Class JsonConfig (A : Type) := {
  toJson : A → jobject;
  fromJson : jobject → A;
  config_keys : list text;      (* the members a configuration is stored in *)
  storable : A → Prop;          (* the values the members can represent *)
}.

Class JsonConfigLaws (A : Type) `{JsonConfig A} : Prop := {
  toJson_wf (c : A) : jwf (toJson c);
  toJson_keys (c : A) k : storable c → k ∈ jkeys (toJson c) → k ∈ config_keys;
  fromJson_toJson (c : A) : storable c → fromJson (toJson c) = c;
  fromJson_local (o o' : jobject) :
    jwf o → jwf o' →
    (∀ k, k ∈ config_keys → jvalue k o = jvalue k o') → fromJson o = fromJson o' :> A;
}.

(** Decides closed goals about key lists. *)
Ltac decide_keys := apply (bool_decide_eq_true_1 _); vm_compute; reflexivity.

(** [fromJson (toJson c)], member by member: each side condition is a member
    just written. *)
Ltac read_back :=
  unfold str, boolean, int32, strings; rewrite ?object_of_value by decide_keys;
  cbn -[to_string to_bool to_int to_array filled set_if filled_list default];
  first [apply read_filled|apply read_true|apply read_false|apply read_filled_list
        |apply read_port; lia|reflexivity
        |apply read_filled_or; (tauto || (decompose_Forall_hyps; assumption))].

Ltac solve_keys :=
  match goal with
  | H : _ ∈ jkeys (object_of _) |- _ => apply object_of_keys in H; [exact H|decide_keys]
  end.

Ltac solve_local Hk :=
  f_equal; (unfold str, boolean, int32, strings; rewrite Hk; [done|decide_keys]).

(** The laws of a struct whose [toJson] is [t], [fromJson] is [f] and instance [i]. *)
Tactic Notation "config_laws" reference(i) reference(t) reference(f) :=
  split;
  [ intros ?; apply object_of_wf
  | intros c k _ Hk; cbv beta iota delta [toJson i t] in Hk; solve_keys
  | intros [] Hst; cbv beta iota delta [storable i] in Hst; simpl in Hst;
    cbv beta iota delta [toJson fromJson i t f]; f_equal; read_back
  | intros o o' _ _ Hk; cbv beta iota delta [fromJson i f]; solve_local Hk ].

(** ** Protocols: server members and client text *)

Record ProtocolConfig (S C : Type) := Protocol {
  serverConfig : S;
  clientConfig : option C;
}.
Arguments Protocol {S C}.
Arguments serverConfig {S C}.
Arguments clientConfig {S C}.

Section protocol.
Context {S C : Type} `{JsonConfig S} `{JsonConfig C} `{D : QtData} `{J : QtJsonText}.

Definition protocol_toJson (p : ProtocolConfig S C) : jobject :=
  let obj := toJson (serverConfig p) in
  match clientConfig p with
  | Some client =>
      jinsert key_lastConfig (JString (from_utf8 (json_compact (toJson client)))) obj
  | None => obj
  end.

(** The client half: text that is not a JSON object is ignored. *)
Definition client_fromText (lastConfigStr : text) : option C :=
  if is_empty lastConfigStr then None else
  match json_parse (utf8 lastConfigStr) with
  | Some (JObject o) => Some (fromJson o)
  | _ => None
  end.

Definition protocol_fromJson (json : jobject) : ProtocolConfig S C :=
  Protocol (fromJson json) (client_fromText (str key_lastConfig json)).

Definition hasClientConfig (p : ProtocolConfig S C) : bool := bool_decide (is_Some (clientConfig p)).
Definition setClientConfig (config : C) (p : ProtocolConfig S C) : ProtocolConfig S C :=
  Protocol (serverConfig p) (Some config).
Definition clearClientConfig (p : ProtocolConfig S C) : ProtocolConfig S C :=
  Protocol (serverConfig p) None.

(** A protocol configuration that storage represents exactly. *)
Definition protocol_storable (p : ProtocolConfig S C) : Prop :=
  storable (serverConfig p)
  ∧ ∀ c, clientConfig p = Some c → storable c ∧ json_printable (toJson c) = true.

Context `{!JsonConfigLaws S} `{!JsonConfigLaws C} `{!QtJsonTextLaws D J}.

Lemma protocol_toJson_wf p : jwf (protocol_toJson p).
Proof.
  unfold protocol_toJson. destruct (clientConfig p); [apply jinsert_wf|]; apply toJson_wf.
Qed.

Lemma protocol_fromJson_toJson p :
  key_lastConfig ∉ config_keys (A := S) → protocol_storable p →
  protocol_fromJson (protocol_toJson p) = p.
Proof.
  destruct p as [s c]. intros Hk [Hs Hc]. cbn in Hs, Hc.
  assert (fromJson (protocol_toJson (Protocol s c)) = s) as Hsrv.
  { rewrite <-(fromJson_toJson s) at 2 by done.
    apply fromJson_local; [apply protocol_toJson_wf|apply toJson_wf|].
    intros k Hin. unfold protocol_toJson. cbn [serverConfig clientConfig].
    destruct c; [|done]. rewrite jvalue_jinsert.
    by rewrite (proj2 (text_eqb_neq k key_lastConfig)) by (intros ->; done). }
  unfold protocol_fromJson. rewrite Hsrv. f_equal. clear Hsrv.
  unfold protocol_toJson, client_fromText, str. cbn [serverConfig clientConfig].
  destruct c as [c|].
  - destruct (Hc c eq_refl) as [Hst Hpr]. rewrite jvalue_jinsert, text_eqb_refl. cbn [to_string].
    rewrite (proj2 (is_empty_false _)) by apply json_printed_ne.
    by rewrite json_parse_printed, fromJson_toJson.
  - rewrite jvalue_undefined; [done|]. intros Hin. apply Hk. by eapply toJson_keys.
Qed.
End protocol.
