(* ===== verification/AwgConfig.v ===== *)
(** * AmneziaWG configurations

    Model of client/core/models/protocols/awgProtocolConfig.cpp and .h: the
    server and client halves with their JSON forms, the protocol version their
    parameters imply, and the checks on headers and packet sizes made before a
    configuration is accepted. *)

From S2P Require Import Prelude Text Json QtInterface QtModel JsonText ConfigKeys ConfigCodec.
#[local] Open Scope Z_scope.

Module Awg.

(** ** The server half *)

Record AwgServerConfig := AwgServer {
  srv_port : text;
  srv_transportProto : text;
  srv_protocolVersion : text;
  srv_subnetAddress : text;
  srv_subnetCidr : text;
  srv_junkPacketCount : text;
  srv_junkPacketMinSize : text;
  srv_junkPacketMaxSize : text;
  srv_initPacketJunkSize : text;
  srv_responsePacketJunkSize : text;
  srv_cookieReplyPacketJunkSize : text;
  srv_transportPacketJunkSize : text;
  srv_initPacketMagicHeader : text;
  srv_responsePacketMagicHeader : text;
  srv_underloadPacketMagicHeader : text;
  srv_transportPacketMagicHeader : text;
  srv_specialJunk1 : text;
  srv_specialJunk2 : text;
  srv_specialJunk3 : text;
  srv_specialJunk4 : text;
  srv_specialJunk5 : text;
  srv_headerProtectionKey : text;
  srv_contentPaddingAddition : text;
  srv_rekeyAfterTime : text;
  srv_rekeyTimeout : text;
  srv_rejectAfterTime : text;
  srv_keepaliveTimeout : text;
  srv_maxHandshakeAttempts : text;
  srv_randomTrailers : text;
  srv_disableCookies : text;
  srv_isThirdPartyConfig : bool;
}.

Definition AwgServerConfig_toJson (c : AwgServerConfig) : jobject :=
  object_of
    [ (key_port, filled (srv_port c));
      (key_transportProto, filled (srv_transportProto c));
      (key_protocolVersion, filled (srv_protocolVersion c));
      (key_subnetAddress, filled (srv_subnetAddress c));
      (key_subnetCidr, filled (srv_subnetCidr c));
      (key_junkPacketCount, filled (srv_junkPacketCount c));
      (key_junkPacketMinSize, filled (srv_junkPacketMinSize c));
      (key_junkPacketMaxSize, filled (srv_junkPacketMaxSize c));
      (key_initPacketJunkSize, filled (srv_initPacketJunkSize c));
      (key_responsePacketJunkSize, filled (srv_responsePacketJunkSize c));
      (key_cookieReplyPacketJunkSize, filled (srv_cookieReplyPacketJunkSize c));
      (key_transportPacketJunkSize, filled (srv_transportPacketJunkSize c));
      (key_initPacketMagicHeader, filled (srv_initPacketMagicHeader c));
      (key_responsePacketMagicHeader, filled (srv_responsePacketMagicHeader c));
      (key_underloadPacketMagicHeader, filled (srv_underloadPacketMagicHeader c));
      (key_transportPacketMagicHeader, filled (srv_transportPacketMagicHeader c));
      (key_specialJunk1, Some (JString (srv_specialJunk1 c)));
      (key_specialJunk2, Some (JString (srv_specialJunk2 c)));
      (key_specialJunk3, Some (JString (srv_specialJunk3 c)));
      (key_specialJunk4, Some (JString (srv_specialJunk4 c)));
      (key_specialJunk5, Some (JString (srv_specialJunk5 c)));
      (key_headerProtectionKey, filled (srv_headerProtectionKey c));
      (key_contentPaddingAddition, filled (srv_contentPaddingAddition c));
      (key_rekeyAfterTime, filled (srv_rekeyAfterTime c));
      (key_rekeyTimeout, filled (srv_rekeyTimeout c));
      (key_rejectAfterTime, filled (srv_rejectAfterTime c));
      (key_keepaliveTimeout, filled (srv_keepaliveTimeout c));
      (key_maxHandshakeAttempts, filled (srv_maxHandshakeAttempts c));
      (key_randomTrailers, filled (srv_randomTrailers c));
      (key_disableCookies, filled (srv_disableCookies c));
      (key_isThirdPartyConfig,
         set_if (srv_isThirdPartyConfig c) (JBool (srv_isThirdPartyConfig c))) ].

Definition AwgServerConfig_fromJson (json : jobject) : AwgServerConfig := {|
  srv_port := str key_port json;
  srv_transportProto := str key_transportProto json;
  srv_protocolVersion := str key_protocolVersion json;
  srv_subnetAddress := str key_subnetAddress json;
  srv_subnetCidr := str key_subnetCidr json;
  srv_junkPacketCount := str key_junkPacketCount json;
  srv_junkPacketMinSize := str key_junkPacketMinSize json;
  srv_junkPacketMaxSize := str key_junkPacketMaxSize json;
  srv_initPacketJunkSize := str key_initPacketJunkSize json;
  srv_responsePacketJunkSize := str key_responsePacketJunkSize json;
  srv_cookieReplyPacketJunkSize := str key_cookieReplyPacketJunkSize json;
  srv_transportPacketJunkSize := str key_transportPacketJunkSize json;
  srv_initPacketMagicHeader := str key_initPacketMagicHeader json;
  srv_responsePacketMagicHeader := str key_responsePacketMagicHeader json;
  srv_underloadPacketMagicHeader := str key_underloadPacketMagicHeader json;
  srv_transportPacketMagicHeader := str key_transportPacketMagicHeader json;
  srv_specialJunk1 := str key_specialJunk1 json;
  srv_specialJunk2 := str key_specialJunk2 json;
  srv_specialJunk3 := str key_specialJunk3 json;
  srv_specialJunk4 := str key_specialJunk4 json;
  srv_specialJunk5 := str key_specialJunk5 json;
  srv_headerProtectionKey := str key_headerProtectionKey json;
  srv_contentPaddingAddition := str key_contentPaddingAddition json;
  srv_rekeyAfterTime := str key_rekeyAfterTime json;
  srv_rekeyTimeout := str key_rekeyTimeout json;
  srv_rejectAfterTime := str key_rejectAfterTime json;
  srv_keepaliveTimeout := str key_keepaliveTimeout json;
  srv_maxHandshakeAttempts := str key_maxHandshakeAttempts json;
  srv_randomTrailers := str key_randomTrailers json;
  srv_disableCookies := str key_disableCookies json;
  srv_isThirdPartyConfig := boolean false key_isThirdPartyConfig json;
|}.

#[global] Instance AwgServerConfig_config : JsonConfig AwgServerConfig := {|
  toJson := AwgServerConfig_toJson;
  fromJson := AwgServerConfig_fromJson;
  config_keys :=
    [ key_port; key_transportProto; key_protocolVersion;
      key_subnetAddress; key_subnetCidr; key_junkPacketCount;
      key_junkPacketMinSize; key_junkPacketMaxSize; key_initPacketJunkSize;
      key_responsePacketJunkSize; key_cookieReplyPacketJunkSize; key_transportPacketJunkSize;
      key_initPacketMagicHeader; key_responsePacketMagicHeader; key_underloadPacketMagicHeader;
      key_transportPacketMagicHeader; key_specialJunk1; key_specialJunk2;
      key_specialJunk3; key_specialJunk4; key_specialJunk5;
      key_headerProtectionKey; key_contentPaddingAddition; key_rekeyAfterTime;
      key_rekeyTimeout; key_rejectAfterTime; key_keepaliveTimeout;
      key_maxHandshakeAttempts; key_randomTrailers; key_disableCookies;
      key_isThirdPartyConfig ];
  storable := λ c, True;
|}.

(** ** The client half *)

Record AwgClientConfig := AwgClient {
  cli_nativeConfig : text;
  cli_hostName : text;
  cli_port : Z;
  cli_clientIp : text;
  cli_clientPrivateKey : text;
  cli_clientPublicKey : text;
  cli_serverPublicKey : text;
  cli_presharedKey : text;
  cli_clientId : text;
  cli_allowedIps : list text;
  cli_persistentKeepAlive : text;
  cli_mtu : text;
  cli_junkPacketCount : text;
  cli_junkPacketMinSize : text;
  cli_junkPacketMaxSize : text;
  cli_initPacketJunkSize : text;
  cli_responsePacketJunkSize : text;
  cli_cookieReplyPacketJunkSize : text;
  cli_transportPacketJunkSize : text;
  cli_initPacketMagicHeader : text;
  cli_responsePacketMagicHeader : text;
  cli_underloadPacketMagicHeader : text;
  cli_transportPacketMagicHeader : text;
  cli_specialJunk1 : text;
  cli_specialJunk2 : text;
  cli_specialJunk3 : text;
  cli_specialJunk4 : text;
  cli_specialJunk5 : text;
  cli_headerProtectionKey : text;
  cli_contentPaddingAddition : text;
  cli_rekeyAfterTime : text;
  cli_rekeyTimeout : text;
  cli_rejectAfterTime : text;
  cli_keepaliveTimeout : text;
  cli_maxHandshakeAttempts : text;
  cli_randomTrailers : text;
  cli_disableCookies : text;
}.

Definition AwgClientConfig_toJson (c : AwgClientConfig) : jobject :=
  object_of
    [ (key_config, filled (cli_nativeConfig c));
      (key_hostName, filled (cli_hostName c));
      (key_port, set_if (cli_port c >? 0) (JDouble (DInt (cli_port c))));
      (key_clientIp, filled (cli_clientIp c));
      (key_clientPrivKey, filled (cli_clientPrivateKey c));
      (key_clientPubKey, filled (cli_clientPublicKey c));
      (key_serverPubKey, filled (cli_serverPublicKey c));
      (key_pskKey, filled (cli_presharedKey c));
      (key_clientId, filled (cli_clientId c));
      (key_allowedIps, filled_list (cli_allowedIps c));
      (key_persistentKeepAlive, filled (cli_persistentKeepAlive c));
      (key_mtu, filled (cli_mtu c));
      (key_junkPacketCount, filled (cli_junkPacketCount c));
      (key_junkPacketMinSize, filled (cli_junkPacketMinSize c));
      (key_junkPacketMaxSize, filled (cli_junkPacketMaxSize c));
      (key_initPacketJunkSize, filled (cli_initPacketJunkSize c));
      (key_responsePacketJunkSize, filled (cli_responsePacketJunkSize c));
      (key_cookieReplyPacketJunkSize, filled (cli_cookieReplyPacketJunkSize c));
      (key_transportPacketJunkSize, filled (cli_transportPacketJunkSize c));
      (key_initPacketMagicHeader, filled (cli_initPacketMagicHeader c));
      (key_responsePacketMagicHeader, filled (cli_responsePacketMagicHeader c));
      (key_underloadPacketMagicHeader, filled (cli_underloadPacketMagicHeader c));
      (key_transportPacketMagicHeader, filled (cli_transportPacketMagicHeader c));
      (key_specialJunk1, filled (cli_specialJunk1 c));
      (key_specialJunk2, filled (cli_specialJunk2 c));
      (key_specialJunk3, filled (cli_specialJunk3 c));
      (key_specialJunk4, filled (cli_specialJunk4 c));
      (key_specialJunk5, filled (cli_specialJunk5 c));
      (key_headerProtectionKey, filled (cli_headerProtectionKey c));
      (key_contentPaddingAddition, filled (cli_contentPaddingAddition c));
      (key_rekeyAfterTime, filled (cli_rekeyAfterTime c));
      (key_rekeyTimeout, filled (cli_rekeyTimeout c));
      (key_rejectAfterTime, filled (cli_rejectAfterTime c));
      (key_keepaliveTimeout, filled (cli_keepaliveTimeout c));
      (key_maxHandshakeAttempts, filled (cli_maxHandshakeAttempts c));
      (key_randomTrailers, filled (cli_randomTrailers c));
      (key_disableCookies, filled (cli_disableCookies c)) ].

Definition AwgClientConfig_fromJson (json : jobject) : AwgClientConfig := {|
  cli_nativeConfig := str key_config json;
  cli_hostName := str key_hostName json;
  cli_port := int32 key_port json;
  cli_clientIp := str key_clientIp json;
  cli_clientPrivateKey := str key_clientPrivKey json;
  cli_clientPublicKey := str key_clientPubKey json;
  cli_serverPublicKey := str key_serverPubKey json;
  cli_presharedKey := str key_pskKey json;
  cli_clientId := str key_clientId json;
  cli_allowedIps := strings key_allowedIps json;
  cli_persistentKeepAlive := str key_persistentKeepAlive json;
  cli_mtu := str key_mtu json;
  cli_junkPacketCount := str key_junkPacketCount json;
  cli_junkPacketMinSize := str key_junkPacketMinSize json;
  cli_junkPacketMaxSize := str key_junkPacketMaxSize json;
  cli_initPacketJunkSize := str key_initPacketJunkSize json;
  cli_responsePacketJunkSize := str key_responsePacketJunkSize json;
  cli_cookieReplyPacketJunkSize := str key_cookieReplyPacketJunkSize json;
  cli_transportPacketJunkSize := str key_transportPacketJunkSize json;
  cli_initPacketMagicHeader := str key_initPacketMagicHeader json;
  cli_responsePacketMagicHeader := str key_responsePacketMagicHeader json;
  cli_underloadPacketMagicHeader := str key_underloadPacketMagicHeader json;
  cli_transportPacketMagicHeader := str key_transportPacketMagicHeader json;
  cli_specialJunk1 := str key_specialJunk1 json;
  cli_specialJunk2 := str key_specialJunk2 json;
  cli_specialJunk3 := str key_specialJunk3 json;
  cli_specialJunk4 := str key_specialJunk4 json;
  cli_specialJunk5 := str key_specialJunk5 json;
  cli_headerProtectionKey := str key_headerProtectionKey json;
  cli_contentPaddingAddition := str key_contentPaddingAddition json;
  cli_rekeyAfterTime := str key_rekeyAfterTime json;
  cli_rekeyTimeout := str key_rekeyTimeout json;
  cli_rejectAfterTime := str key_rejectAfterTime json;
  cli_keepaliveTimeout := str key_keepaliveTimeout json;
  cli_maxHandshakeAttempts := str key_maxHandshakeAttempts json;
  cli_randomTrailers := str key_randomTrailers json;
  cli_disableCookies := str key_disableCookies json;
|}.

#[global] Instance AwgClientConfig_config : JsonConfig AwgClientConfig := {|
  toJson := AwgClientConfig_toJson;
  fromJson := AwgClientConfig_fromJson;
  config_keys :=
    [ key_config; key_hostName; key_port;
      key_clientIp; key_clientPrivKey; key_clientPubKey;
      key_serverPubKey; key_pskKey; key_clientId;
      key_allowedIps; key_persistentKeepAlive; key_mtu;
      key_junkPacketCount; key_junkPacketMinSize; key_junkPacketMaxSize;
      key_initPacketJunkSize; key_responsePacketJunkSize; key_cookieReplyPacketJunkSize;
      key_transportPacketJunkSize; key_initPacketMagicHeader; key_responsePacketMagicHeader;
      key_underloadPacketMagicHeader; key_transportPacketMagicHeader; key_specialJunk1;
      key_specialJunk2; key_specialJunk3; key_specialJunk4;
      key_specialJunk5; key_headerProtectionKey; key_contentPaddingAddition;
      key_rekeyAfterTime; key_rekeyTimeout; key_rejectAfterTime;
      key_keepaliveTimeout; key_maxHandshakeAttempts; key_randomTrailers;
      key_disableCookies ];
  storable := λ c, 0 <= cli_port c < 2 ^ 31;
|}.

(** ** Protocol *)

Notation AwgProtocolConfig := (ProtocolConfig AwgServerConfig AwgClientConfig).

Section storage.
Context `{QtData} `{QtJsonText}.

Definition AwgProtocolConfig_toJson (p : AwgProtocolConfig) : jobject := protocol_toJson p.
Definition AwgProtocolConfig_fromJson (json : jobject) : AwgProtocolConfig := protocol_fromJson json.
End storage.

(** ** Version of the parameters *)

(** The fields the version templates read, in either half. *)
Class AwgFields (T : Type) := {
  cookieReplyPacketJunkSize : T → text;
  transportPacketJunkSize : T → text;
  initPacketMagicHeader : T → text;
  responsePacketMagicHeader : T → text;
  underloadPacketMagicHeader : T → text;
  transportPacketMagicHeader : T → text;
  specialJunk1 : T → text;
  specialJunk2 : T → text;
  specialJunk3 : T → text;
  specialJunk4 : T → text;
  specialJunk5 : T → text;
  headerProtectionKey : T → text;
  contentPaddingAddition : T → text;
  rekeyAfterTime : T → text;
  rekeyTimeout : T → text;
  rejectAfterTime : T → text;
  keepaliveTimeout : T → text;
  maxHandshakeAttempts : T → text;
  randomTrailers : T → text;
  disableCookies : T → text;
}.

#[global] Instance AwgServerConfig_fields : AwgFields AwgServerConfig := {|
  cookieReplyPacketJunkSize := srv_cookieReplyPacketJunkSize;
  transportPacketJunkSize := srv_transportPacketJunkSize;
  initPacketMagicHeader := srv_initPacketMagicHeader;
  responsePacketMagicHeader := srv_responsePacketMagicHeader;
  underloadPacketMagicHeader := srv_underloadPacketMagicHeader;
  transportPacketMagicHeader := srv_transportPacketMagicHeader;
  specialJunk1 := srv_specialJunk1;
  specialJunk2 := srv_specialJunk2;
  specialJunk3 := srv_specialJunk3;
  specialJunk4 := srv_specialJunk4;
  specialJunk5 := srv_specialJunk5;
  headerProtectionKey := srv_headerProtectionKey;
  contentPaddingAddition := srv_contentPaddingAddition;
  rekeyAfterTime := srv_rekeyAfterTime;
  rekeyTimeout := srv_rekeyTimeout;
  rejectAfterTime := srv_rejectAfterTime;
  keepaliveTimeout := srv_keepaliveTimeout;
  maxHandshakeAttempts := srv_maxHandshakeAttempts;
  randomTrailers := srv_randomTrailers;
  disableCookies := srv_disableCookies;
|}.

#[global] Instance AwgClientConfig_fields : AwgFields AwgClientConfig := {|
  cookieReplyPacketJunkSize := cli_cookieReplyPacketJunkSize;
  transportPacketJunkSize := cli_transportPacketJunkSize;
  initPacketMagicHeader := cli_initPacketMagicHeader;
  responsePacketMagicHeader := cli_responsePacketMagicHeader;
  underloadPacketMagicHeader := cli_underloadPacketMagicHeader;
  transportPacketMagicHeader := cli_transportPacketMagicHeader;
  specialJunk1 := cli_specialJunk1;
  specialJunk2 := cli_specialJunk2;
  specialJunk3 := cli_specialJunk3;
  specialJunk4 := cli_specialJunk4;
  specialJunk5 := cli_specialJunk5;
  headerProtectionKey := cli_headerProtectionKey;
  contentPaddingAddition := cli_contentPaddingAddition;
  rekeyAfterTime := cli_rekeyAfterTime;
  rekeyTimeout := cli_rekeyTimeout;
  rejectAfterTime := cli_rejectAfterTime;
  keepaliveTimeout := cli_keepaliveTimeout;
  maxHandshakeAttempts := cli_maxHandshakeAttempts;
  randomTrailers := cli_randomTrailers;
  disableCookies := cli_disableCookies;
|}.

Section version.
Context `{QtText}.

Definition hasValue (value : text) : bool := negb (is_empty (trimmed value)).

Definition hasAwg3Markers {T} `{AwgFields T} (config : T) : bool :=
  let awg3Params :=
    [ headerProtectionKey config; contentPaddingAddition config; rekeyAfterTime config;
      rekeyTimeout config; rejectAfterTime config; keepaliveTimeout config;
      maxHandshakeAttempts config ] in
  if existsb hasValue awg3Params then true
  else hasValue (randomTrailers config) || hasValue (disableCookies config).

Definition awgVersionOf {T} `{AwgFields T} (config : T) : text :=
  if hasAwg3Markers config then awg_awgV3 else
  let junkSizes := [ cookieReplyPacketJunkSize config; transportPacketJunkSize config ] in
  let magicHeaders :=
    [ initPacketMagicHeader config; responsePacketMagicHeader config;
      underloadPacketMagicHeader config; transportPacketMagicHeader config ] in
  let hasJunkSizes := existsb hasValue junkSizes in
  let hasHeaderRanges := existsb (contains_char 45) magicHeaders in
  if hasJunkSizes || hasHeaderRanges then awg_awgV2 else
  let specialJunk :=
    [ specialJunk1 config; specialJunk2 config; specialJunk3 config; specialJunk4 config;
      specialJunk5 config ] in
  if existsb hasValue specialJunk then awg_awgV1_5 else [].

Definition serverProtocolVersion (p : AwgProtocolConfig) : text := awgVersionOf (serverConfig p).

Definition clientProtocolVersion (p : AwgProtocolConfig) : text :=
  match clientConfig p with Some c => awgVersionOf c | None => [] end.

Definition hasAwg3Params (c : AwgServerConfig) : bool := hasAwg3Markers c.

Definition isToggleEnabled `{QtCase} (value : text) : bool :=
  let trimmedValue := trimmed value in
  negb (is_empty trimmedValue)
  && negb (q_equals_ci trimmedValue awg_awgBoolOff)
  && negb (q_equals_ci trimmedValue (lit "false"))
  && negb (text_eqb trimmedValue (lit "0")).

(** [tr] is the translation of user-visible text. *)
Definition protocolVersionString (tr : text → text) (version : text) : text :=
  if text_eqb version awg_awgV3 then tr (lit " (version 3.1)")
  else if text_eqb version awg_awgV2 then tr (lit " (version 2)")
  else if text_eqb version awg_awgV1_5 then tr (lit " (version 1.5)")
  else [].

(** ** Checks *)

Definition AwgServerConfig_hasEqualServerSettings (this other : AwgServerConfig) : bool :=
  if existsb (λ field : AwgServerConfig → text, negb (text_eqb (field this) (field other)))
       [ srv_subnetAddress; srv_subnetCidr; srv_port; srv_junkPacketCount;
         srv_junkPacketMinSize; srv_junkPacketMaxSize; srv_initPacketJunkSize;
         srv_responsePacketJunkSize; srv_initPacketMagicHeader; srv_responsePacketMagicHeader;
         srv_underloadPacketMagicHeader; srv_transportPacketMagicHeader; srv_specialJunk1;
         srv_specialJunk2; srv_specialJunk3; srv_specialJunk4; srv_specialJunk5;
         srv_cookieReplyPacketJunkSize; srv_transportPacketJunkSize; srv_headerProtectionKey;
         srv_contentPaddingAddition; srv_rekeyAfterTime; srv_rekeyTimeout; srv_rejectAfterTime;
         srv_keepaliveTimeout; srv_maxHandshakeAttempts; srv_randomTrailers;
         srv_disableCookies ]
  then false else true.

(** [QSet<QString> uniqueHeaders; int filledHeaders;] *)
Definition countHeader (s : list text * Z) (header : text) : list text * Z :=
  let '(uniqueHeaders, filledHeaders) := s in
  if negb (is_empty (trimmed header))
  then (append_new uniqueHeaders header, filledHeaders + 1) else s.

Definition isHeadersEqual (h1 h2 h3 h4 : text) : bool :=
  let '(uniqueHeaders, filledHeaders) := foldl countHeader ([], 0) [h1; h2; h3; h4] in
  negb (Z.of_nat (length uniqueHeaders) =? filledHeaders).
End version.

Definition messageInitiationSize : Z := 148.
Definition messageResponseSize : Z := 92.
Definition messageCookieReplySize : Z := 64.
Definition messageTransportSize : Z := 32.

(** A value of type [qint64]. *)
Definition qint64 (z : Z) : Z := (z + 2 ^ 63) mod 2 ^ 64 - 2 ^ 63.

Definition isPacketSizeEqual (s1 s2 s3 s4 : Z) : bool :=
  let initSize := qint64 (messageInitiationSize + s1) in
  let responseSize := qint64 (messageResponseSize + s2) in
  let cookieSize := qint64 (messageCookieReplySize + s3) in
  let transportSize := qint64 (messageTransportSize + s4) in
  (initSize =? responseSize) || (initSize =? cookieSize) || (initSize =? transportSize)
  || (responseSize =? cookieSize) || (responseSize =? transportSize)
  || (cookieSize =? transportSize).

(** ** Storage *)

#[global] Instance AwgServerConfig_laws : JsonConfigLaws AwgServerConfig.
Proof. config_laws AwgServerConfig_config AwgServerConfig_toJson AwgServerConfig_fromJson. Qed.

#[global] Instance AwgClientConfig_laws : JsonConfigLaws AwgClientConfig.
Proof. config_laws AwgClientConfig_config AwgClientConfig_toJson AwgClientConfig_fromJson. Qed.

(** Saving an AmneziaWG configuration and loading it again gives the same
    configuration: every server parameter, the third-party mark, and the whole
    client half that is kept as text inside the object, provided the client
    port is a non-negative [int] and the client text can be printed. *)
Theorem awg_config_roundtrip `{D : QtData} `{J : QtJsonText} `{!QtJsonTextLaws D J}
    (p : AwgProtocolConfig) :
  protocol_storable p →
  AwgProtocolConfig_fromJson (AwgProtocolConfig_toJson p) = p.
Proof. intros Hp. apply protocol_fromJson_toJson; [decide_keys|done]. Qed.

(** ** Versions *)

Section version_facts.
Context `{QtText}.

Lemma hasValue_false s : hasValue s = false ↔ trimmed s = [].
Proof. unfold hasValue. by rewrite negb_false_iff, is_empty_true. Qed.

(** The parameters only version 3.1 has. *)
Definition awg3_fields {T} `{AwgFields T} (c : T) : list text :=
  [ headerProtectionKey c; contentPaddingAddition c; rekeyAfterTime c; rekeyTimeout c;
    rejectAfterTime c; keepaliveTimeout c; maxHandshakeAttempts c; randomTrailers c;
    disableCookies c ].

Definition header_fields {T} `{AwgFields T} (c : T) : list text :=
  [ initPacketMagicHeader c; responsePacketMagicHeader c; underloadPacketMagicHeader c;
    transportPacketMagicHeader c ].

Definition junk_fields {T} `{AwgFields T} (c : T) : list text :=
  [ specialJunk1 c; specialJunk2 c; specialJunk3 c; specialJunk4 c; specialJunk5 c ].

Definition some_filled (l : list text) : Prop := ∃ s, s ∈ l ∧ trimmed s ≠ [].

Lemma existsb_hasValue l : existsb hasValue l = true ↔ some_filled l.
Proof.
  rewrite existsb_true_iff. unfold some_filled. f_equiv. intros s.
  by rewrite <-hasValue_false, not_false_iff_true.
Qed.

Lemma hasAwg3Markers_iff {T} `{AwgFields T} (c : T) :
  hasAwg3Markers c = existsb hasValue (awg3_fields c).
Proof.
  unfold hasAwg3Markers, awg3_fields. cbn [existsb].
  repeat match goal with |- context [hasValue ?x] => destruct (hasValue x); try done end.
Qed.

Lemma existsb_range l : existsb (contains_char 45) l = true ↔ ∃ h, h ∈ l ∧ 45 ∈ h.
Proof. rewrite existsb_true_iff. f_equiv. intros h. by rewrite contains_char_true. Qed.

(** The version of a set of AmneziaWG parameters, server or client half:
    3.1 exactly when one of the nine newer parameters has a value; otherwise 2
    exactly when a cookie or transport junk size has a value or a magic header
    is a range; otherwise 1.5 exactly when a special junk packet is given;
    otherwise no version is named. *)
Theorem awg_version_exact {T} `{AwgFields T} (c : T) :
  let v3 := some_filled (awg3_fields c) in
  let v2 := some_filled [cookieReplyPacketJunkSize c; transportPacketJunkSize c]
            ∨ ∃ h, h ∈ header_fields c ∧ 45 ∈ h in
  let v15 := some_filled (junk_fields c) in
  (awgVersionOf c = lit "3.1" ↔ v3)
  ∧ (awgVersionOf c = lit "2" ↔ ¬ v3 ∧ v2)
  ∧ (awgVersionOf c = lit "1.5" ↔ ¬ v3 ∧ ¬ v2 ∧ v15)
  ∧ (awgVersionOf c = [] ↔ ¬ v3 ∧ ¬ v2 ∧ ¬ v15).
Proof.
  cbv zeta. unfold awgVersionOf. rewrite hasAwg3Markers_iff.
  rewrite <-!existsb_hasValue, <-existsb_range. cbv zeta.
  unfold header_fields, junk_fields.
  destruct (existsb hasValue (awg3_fields c)), (existsb hasValue [_; _]),
    (existsb (contains_char 45) _), (existsb hasValue [_; _; _; _; _]); cbn;
    naive_solver congruence.
Qed.
End version_facts.

(** ** Settings *)

(** The settings that decide whether the server has to be redeployed. *)
Definition awg_settings_of (c : AwgServerConfig) : AwgServerConfig :=
  let '(AwgServer port _ _ a2 a3 a4 a5 a6 a7 a8 a9 a10 a11 a12 a13 a14 a15 a16 a17 a18 a19
          a20 a21 a22 a23 a24 a25 a26 a27 a28 _) := c in
  AwgServer port [] [] a2 a3 a4 a5 a6 a7 a8 a9 a10 a11 a12 a13 a14 a15 a16 a17 a18 a19
          a20 a21 a22 a23 a24 a25 a26 a27 a28 false.

Lemma equal_settings_iff a b :
  AwgServerConfig_hasEqualServerSettings a b = true ↔ awg_settings_of a = awg_settings_of b.
Proof.
  unfold AwgServerConfig_hasEqualServerSettings.
  destruct (existsb _ _) eqn:E.
  - split; [done|]. intros Heq. apply existsb_true_iff in E as (f & Hf & Hne).
    apply negb_true_iff, text_eqb_neq in Hne. exfalso. apply Hne. clear Hne.
    destruct a, b. simpl in Heq. injection Heq as. subst.
    apply list_elem_of_In in Hf. simpl in Hf. by destruct_or! Hf; subst f.
  - split; [intros _|done]. destruct a, b. cbn in E |- *.
    repeat match goal with
    | H : _ || _ = false |- _ => apply orb_false_iff in H as [H ?]
    | H : negb _ = false |- _ => apply negb_false_iff, text_eqb_eq in H
    end. by subst.
Qed.

(** Two AmneziaWG servers count as having equal settings exactly when all
    their parameters agree, whatever their transport, recorded version and
    third-party mark are; equal settings have the same protocol version. *)
Theorem awg_equal_settings_exact `{QtText} a b :
  (AwgServerConfig_hasEqualServerSettings a b = true ↔ awg_settings_of a = awg_settings_of b)
  ∧ (AwgServerConfig_hasEqualServerSettings a b = true →
     awgVersionOf a = awgVersionOf b).
Proof.
  split; [apply equal_settings_iff|]. rewrite equal_settings_iff. intros E.
  destruct a, b. cbn in E. injection E as. by subst.
Qed.

(** ** Headers and packet sizes *)

Lemma countHeader_spec `{QtText} l u n :
  let fl := filter (λ h, hasValue h = true) l in
  let r := foldl countHeader (u, n) l in
  r.1 = foldl append_new u fl ∧ r.2 = n + Z.of_nat (length fl).
Proof.
  cbv zeta. revert u n. induction l as [|h l IH]; intros u n; simpl; [split; [done|lia]|].
  rewrite filter_cons. fold (hasValue h).
  destruct (hasValue h) eqn:E; simpl.
  - destruct (IH (append_new u h) (n + 1)) as [-> ->]. split; [done|lia].
  - apply IH.
Qed.

Lemma foldl_append_new_length {A} `{EqDecision A} (k l : list A) :
  NoDup l → length (foldl append_new l k) = (length l + length k)%nat ↔ NoDup (l ++ k).
Proof.
  assert (∀ k l : list A, length (foldl append_new l k) ≤ length l + length k)%nat as Hub.
  { clear. intros k. induction k as [|x k IH]; intros l; simpl; [lia|].
    pose proof (append_new_length l x). specialize (IH (append_new l x)). lia. }
  revert l. induction k as [|x k IH]; intros l Hl; simpl.
  { rewrite app_nil_r. split; [done|lia]. }
  destruct (decide (x ∈ l)) as [Hx|Hx].
  - rewrite append_new_present by done. split.
    + intros E. specialize (Hub k l). lia.
    + intros (_ & Hn & _)%NoDup_app. exfalso. eapply Hn; [done|constructor].
  - rewrite append_new_fresh by done.
    replace (l ++ x :: k) with ((l ++ [x]) ++ k) by (by rewrite <-app_assoc).
    rewrite <-(IH (l ++ [x])).
    + rewrite length_app. simpl. lia.
    + apply NoDup_app. split_and!; [done|set_solver|apply NoDup_singleton].
Qed.

Lemma qint64_id z : - 2 ^ 63 <= z < 2 ^ 63 → qint64 z = z.
Proof. intros H. unfold qint64. rewrite Z.mod_small; lia. Qed.

Definition is_int (z : Z) : Prop := - 2 ^ 31 <= z < 2 ^ 31.

(** The two checks that keep AmneziaWG packet types apart: headers collide
    exactly when two filled headers are the same text, and packet sizes
    collide exactly when two of the four message sizes with their junk are
    equal, for every value of type [int]: the 64-bit sums do not overflow. *)
Theorem awg_packet_types_distinct `{QtText} h1 h2 h3 h4 s1 s2 s3 s4 :
  Forall is_int [s1; s2; s3; s4] →
  (isHeadersEqual h1 h2 h3 h4 = false ↔
     NoDup (filter (λ h, trimmed h ≠ []) [h1; h2; h3; h4]))
  ∧ (isPacketSizeEqual s1 s2 s3 s4 = false ↔ NoDup [148 + s1; 92 + s2; 64 + s3; 32 + s4]).
Proof.
  intros Hs. split.
  - unfold isHeadersEqual.
    pose proof (countHeader_spec [h1; h2; h3; h4] [] 0) as [H1 H2].
    destruct (foldl countHeader ([], 0) _) as [u n]. cbn [fst snd] in H1, H2. subst.
    rewrite negb_false_iff, Z.eqb_eq, Z.add_0_l, Nat2Z.inj_iff.
    rewrite (foldl_append_new_length (filter (λ h, hasValue h = true) [h1; h2; h3; h4]) [])
      by constructor.
    rewrite app_nil_l. rewrite (list_filter_iff _ (λ h, trimmed h ≠ [])); [done|]. intros h.
    by rewrite <-hasValue_false, not_false_iff_true.
  - unfold isPacketSizeEqual, messageInitiationSize, messageResponseSize,
      messageCookieReplySize, messageTransportSize. cbv zeta.
    repeat match goal with H : Forall _ (_ :: _) |- _ => inversion H; clear H; subst end.
    unfold is_int in *. rewrite !qint64_id by lia.
    rewrite !orb_false_iff, !Z.eqb_neq, !NoDup_cons, !not_elem_of_cons.
    split.
    + intros (((((? & ?) & ?) & ?) & ?) & ?).
      split_and!; try assumption; apply not_elem_of_nil || constructor.
    + intros ((? & ? & ? & ?) & (? & ? & ?) & (? & ?) & ?). by split_and!.
Qed.

End Awg.

(** ** Examples *)

Module AwgExamples.
Import Awg.
#[local] Existing Instances asciiText asciiText_laws tokenData tokenJsonText tokenData_laws.

Notation server0 :=
  (AwgServer (lit "55424") (lit "udp") (lit "2") (lit "10.8.1.0") (lit "24") (lit "3") (lit "10")
     (lit "30") (lit "15") (lit "18") (lit "20") (lit "23") (lit "1") (lit "2") (lit "3") (lit "4")
     [] [] [] [] [] [] [] [] [] [] [] [] [] [] true).
Notation client0 :=
  (AwgClient (lit "[Interface]") (lit "vpn.example") 55424 (lit "10.8.1.2") (lit "priv")
     (lit "pub") (lit "spub") (lit "psk") (lit "id") [lit "0.0.0.0/0"; lit "::/0"] (lit "25")
     (lit "1376") (lit "3") (lit "10") (lit "30") (lit "15") (lit "18") (lit "20") (lit "23")
     (lit "1") (lit "2") (lit "3") (lit "4") [] [] [] [] [] [] [] [] [] [] [] [] [] []).

Lemma awg_config_roundtrip_witness :
  AwgProtocolConfig_fromJson (AwgProtocolConfig_toJson (Protocol server0 (Some client0)))
  = Protocol server0 (Some client0).
Proof.
  apply awg_config_roundtrip. split; [exact I|]. intros c [= <-].
  split; [split; [discriminate|reflexivity]|vm_compute; reflexivity].
Defined.

Lemma awg_packet_types_distinct_witness :
  isHeadersEqual (lit "1") (lit "2") [] (lit "4") = false
  ∧ isPacketSizeEqual 15 18 20 (-80) = false.
Proof.
  pose proof (awg_packet_types_distinct (lit "1") (lit "2") [] (lit "4") 15 18 20 (-80)) as W.
  destruct W as [W1 W2].
  { repeat constructor; vm_compute; congruence. }
  split; [apply W1|apply W2]; decide_keys.
Defined.

Lemma awg_equal_settings_exact_witness :
  awgVersionOf server0
  = awgVersionOf (AwgServerConfig_fromJson (AwgServerConfig_toJson server0)).
Proof. apply awg_equal_settings_exact. vm_compute. reflexivity. Defined.

Example server0_version : awgVersionOf server0 = lit "2".
Proof. vm_compute. reflexivity. Qed.
End AwgExamples.
