(* ===== verification/TunnelConfigs.v ===== *)
(** * WireGuard, OpenVPN and IKEv2 configurations

    Models of wireGuardProtocolConfig, openVpnProtocolConfig and
    ikev2ProtocolConfig under client/core/models/protocols/: the server and
    client halves, their JSON forms and the comparison of server settings. *)

From S2P Require Import Prelude Text Json QtInterface QtModel JsonText ConfigKeys ConfigCodec.
From stdpp Require Import gmap.
#[local] Open Scope Z_scope.

Module WireGuard.

Record WireGuardServerConfig := WireGuardServer {
  srv_port : text;
  srv_transportProto : text;
  srv_subnetAddress : text;
  srv_subnetMask : text;
  srv_subnetCidr : text;
  srv_isThirdPartyConfig : bool;
}.

Definition WireGuardServerConfig_toJson (c : WireGuardServerConfig) : jobject :=
  object_of
    [ (key_port, filled (srv_port c));
      (key_transportProto, filled (srv_transportProto c));
      (key_subnetAddress, filled (srv_subnetAddress c));
      (key_subnetMask, filled (srv_subnetMask c));
      (key_subnetCidr, filled (srv_subnetCidr c));
      (key_isThirdPartyConfig,
         set_if (srv_isThirdPartyConfig c) (JBool (srv_isThirdPartyConfig c))) ].

Definition WireGuardServerConfig_fromJson (json : jobject) : WireGuardServerConfig := {|
  srv_port := str key_port json;
  srv_transportProto := str key_transportProto json;
  srv_subnetAddress := str key_subnetAddress json;
  srv_subnetMask := str key_subnetMask json;
  srv_subnetCidr := str key_subnetCidr json;
  srv_isThirdPartyConfig := boolean false key_isThirdPartyConfig json;
|}.

#[global] Instance WireGuardServerConfig_config : JsonConfig WireGuardServerConfig := {|
  toJson := WireGuardServerConfig_toJson;
  fromJson := WireGuardServerConfig_fromJson;
  config_keys :=
    [ key_port; key_transportProto; key_subnetAddress;
      key_subnetMask; key_subnetCidr; key_isThirdPartyConfig ];
  storable := λ c, True;
|}.

Record WireGuardClientConfig := WireGuardClient {
  cli_nativeConfig : text;
  cli_hostName : text;
  cli_port : Z;
  cli_clientIp : text;
  cli_clientPrivateKey : text;
  cli_clientPublicKey : text;
  cli_serverPublicKey : text;
  cli_presharedKey : text;
  cli_clientId : text;
  cli_allowedIps : list text;
  cli_persistentKeepAlive : text;
  cli_mtu : text;
  cli_awgParams : gmap text text;
  cli_isObfuscationEnabled : bool;
}.

Definition WireGuardClientConfig_members (c : WireGuardClientConfig) : list (text * option json) :=
  [ (key_config, filled (cli_nativeConfig c));
    (key_hostName, filled (cli_hostName c));
    (key_port, set_if (cli_port c >? 0) (JDouble (DInt (cli_port c))));
    (key_clientIp, filled (cli_clientIp c));
    (key_clientPrivKey, filled (cli_clientPrivateKey c));
    (key_clientPubKey, filled (cli_clientPublicKey c));
    (key_serverPubKey, filled (cli_serverPublicKey c));
    (key_pskKey, filled (cli_presharedKey c));
    (key_clientId, filled (cli_clientId c));
    (key_allowedIps, filled_list (cli_allowedIps c));
    (key_persistentKeepAlive, filled (cli_persistentKeepAlive c));
    (key_mtu, filled (cli_mtu c)) ].

(** [if (!it.value().isEmpty()) obj[it.key()] = it.value();], for each entry. *)
Definition WireGuardClientConfig_params (c : WireGuardClientConfig) : list (text * option json) :=
  map (λ '(key, value), (key, filled value)) (map_to_list (cli_awgParams c)).

Definition WireGuardClientConfig_toJson (c : WireGuardClientConfig) : jobject :=
  let obj := object_of (WireGuardClientConfig_members c) in
  let obj := foldl write_member obj (WireGuardClientConfig_params c) in
  write_member obj
    (key_isObfuscationEnabled,
     set_if (cli_isObfuscationEnabled c) (JBool (cli_isObfuscationEnabled c))).

(** [if (!value.isEmpty()) config.awgParams.insert(key, value);] *)
Definition readAwgParam (json : jobject) (params : gmap text text) (key : text) : gmap text text :=
  let value := str key json in
  if is_empty value then params else <[key := value]> params.

Definition WireGuardClientConfig_fromJson (json : jobject) : WireGuardClientConfig := {|
  cli_nativeConfig := str key_config json;
  cli_hostName := str key_hostName json;
  cli_port := int32 key_port json;
  cli_clientIp := str key_clientIp json;
  cli_clientPrivateKey := str key_clientPrivKey json;
  cli_clientPublicKey := str key_clientPubKey json;
  cli_serverPublicKey := str key_serverPubKey json;
  cli_presharedKey := str key_pskKey json;
  cli_clientId := str key_clientId json;
  cli_allowedIps := strings key_allowedIps json;
  cli_persistentKeepAlive := str key_persistentKeepAlive json;
  cli_mtu := str key_mtu json;
  cli_awgParams := foldl (readAwgParam json) ∅ awgProtocolKeys;
  cli_isObfuscationEnabled := boolean false key_isObfuscationEnabled json;
|}.

(** What the object can hold of the client half: a port of type [int], and
    parameters among the known keys, each with a value. *)
Definition wireguard_client_storable (c : WireGuardClientConfig) : Prop :=
  0 <= cli_port c < 2 ^ 31
  ∧ map_Forall (λ key value, key ∈ awgProtocolKeys ∧ value ≠ []) (cli_awgParams c).

#[global] Instance WireGuardClientConfig_config : JsonConfig WireGuardClientConfig := {|
  toJson := WireGuardClientConfig_toJson;
  fromJson := WireGuardClientConfig_fromJson;
  config_keys :=
    [ key_config; key_hostName; key_port; key_clientIp; key_clientPrivKey; key_clientPubKey;
      key_serverPubKey; key_pskKey; key_clientId; key_allowedIps; key_persistentKeepAlive;
      key_mtu; key_isObfuscationEnabled ] ++ awgProtocolKeys;
  storable := wireguard_client_storable;
|}.

Definition WireGuardServerConfig_hasEqualServerSettings (this other : WireGuardServerConfig) : bool :=
  text_eqb (srv_subnetAddress this) (srv_subnetAddress other)
  && text_eqb (srv_subnetCidr this) (srv_subnetCidr other)
  && text_eqb (srv_port this) (srv_port other).

Notation WireGuardProtocolConfig := (ProtocolConfig WireGuardServerConfig WireGuardClientConfig).

Section storage.
Context `{QtData} `{QtJsonText}.

Definition WireGuardProtocolConfig_toJson (p : WireGuardProtocolConfig) : jobject := protocol_toJson p.
Definition WireGuardProtocolConfig_fromJson (json : jobject) : WireGuardProtocolConfig :=
  protocol_fromJson json.
End storage.

(** ** Laws *)

#[global] Instance WireGuardServerConfig_laws : JsonConfigLaws WireGuardServerConfig.
Proof. config_laws WireGuardServerConfig_config WireGuardServerConfig_toJson WireGuardServerConfig_fromJson. Qed.

Lemma member_value_in k m l : NoDup (map fst l) → (k, m) ∈ l → member_value k l = m.
Proof.
  induction l as [|[k' m'] l IH]; intros Hn Hin; [by apply elem_of_nil in Hin|].
  inversion Hn; subst. cbn [member_value]. apply elem_of_cons in Hin as [E|Hin].
  - simplify_eq. by rewrite text_eqb_refl.
  - rewrite (proj2 (text_eqb_neq k k')); [by apply IH|]. intros ->. done || (
      match goal with H : _ ∉ _ |- _ => apply H end; apply list_elem_of_fmap; by exists (k', m)).
Qed.

Lemma params_fst c : map fst (WireGuardClientConfig_params c) = (map_to_list (cli_awgParams c)).*1.
Proof. unfold WireGuardClientConfig_params. rewrite map_map. by apply map_ext; intros []. Qed.

Lemma params_value c k :
  member_value k (WireGuardClientConfig_params c) = cli_awgParams c !! k ≫= filled.
Proof.
  destruct (cli_awgParams c !! k) as [v|] eqn:E; cbn.
  - apply member_value_in; [rewrite params_fst; apply NoDup_fst_map_to_list|].
    apply list_elem_of_fmap. exists (k, v). by rewrite elem_of_map_to_list.
  - apply member_value_fresh. rewrite params_fst. intros ([k' v] & -> & Hin)%list_elem_of_fmap.
    apply elem_of_map_to_list in Hin. cbn in E. congruence.
Qed.

Lemma client_member_value c k :
  k ≠ key_isObfuscationEnabled →
  jvalue k (WireGuardClientConfig_toJson c) =
  default (jvalue k (object_of (WireGuardClientConfig_members c))) (cli_awgParams c !! k ≫= filled).
Proof.
  intros Hk. unfold WireGuardClientConfig_toJson. cbv zeta. rewrite <-params_value.
  unfold write_member at 1. cbn [fst snd].
  assert (jvalue k (foldl write_member (object_of (WireGuardClientConfig_members c))
            (WireGuardClientConfig_params c)) =
          default (jvalue k (object_of (WireGuardClientConfig_members c)))
            (member_value k (WireGuardClientConfig_params c))) as E.
  { apply write_members_value. rewrite params_fst. apply NoDup_fst_map_to_list. }
  destruct (set_if _ _); [|done]. rewrite jvalue_jinsert.
  by rewrite (proj2 (text_eqb_neq k _)).
Qed.

Lemma client_members_fst c :
  map fst (WireGuardClientConfig_members c) =
  [ key_config; key_hostName; key_port; key_clientIp; key_clientPrivKey; key_clientPubKey;
    key_serverPubKey; key_pskKey; key_clientId; key_allowedIps; key_persistentKeepAlive; key_mtu ].
Proof. done. Qed.

(** A fixed member is not hidden by a parameter. *)
Lemma client_fixed_value c k :
  wireguard_client_storable c → k ∈ map fst (WireGuardClientConfig_members c) →
  jvalue k (WireGuardClientConfig_toJson c) =
  default JUndefined (member_value k (WireGuardClientConfig_members c)).
Proof.
  intros [_ Hp] Hk. rewrite client_members_fst in Hk.
  assert (k ∉ awgProtocolKeys ∧ k ≠ key_isObfuscationEnabled) as [Hn Ho].
  { revert k Hk. apply Forall_forall. decide_keys. }
  rewrite client_member_value by done.
  destruct (cli_awgParams c !! k) as [v|] eqn:E.
  { by destruct Hn, (Hp _ _ E). }
  cbn -[object_of WireGuardClientConfig_members member_value].
  rewrite object_of_value; [done|]. rewrite client_members_fst. decide_keys.
Qed.

Lemma client_param_value c k :
  k ∈ awgProtocolKeys → str k (WireGuardClientConfig_toJson c) = default [] (cli_awgParams c !! k).
Proof.
  intros Hk.
  assert (k ∉ map fst (WireGuardClientConfig_members c) ∧ k ≠ key_isObfuscationEnabled) as [Hn Ho].
  { rewrite client_members_fst. revert k Hk. apply Forall_forall. decide_keys. }
  unfold str. rewrite client_member_value by done.
  rewrite jvalue_undefined.
  2:{ intros Hin. apply Hn. apply object_of_keys; [|done]. rewrite client_members_fst. decide_keys. }
  destruct (cli_awgParams c !! k) as [v|]; cbn; [apply read_filled|done].
Qed.

Lemma client_flag_value c :
  wireguard_client_storable c →
  boolean false key_isObfuscationEnabled (WireGuardClientConfig_toJson c) = cli_isObfuscationEnabled c.
Proof.
  intros [_ Hp]. unfold boolean, WireGuardClientConfig_toJson. cbv zeta.
  destruct (cli_isObfuscationEnabled c); unfold write_member at 1; cbn [fst snd set_if].
  { by rewrite jvalue_jinsert, text_eqb_refl. }
  rewrite write_members_value by (rewrite params_fst; apply NoDup_fst_map_to_list).
  rewrite params_value. destruct (cli_awgParams c !! key_isObfuscationEnabled) as [v|] eqn:E.
  { apply Hp in E as [E _]. exfalso. revert E. decide_keys. }
  cbn -[object_of WireGuardClientConfig_members].
  by rewrite object_of_value by (rewrite client_members_fst; decide_keys).
Qed.

Lemma readAwgParams_lookup json l m k :
  foldl (readAwgParam json) m l !! k =
  if bool_decide (k ∈ l ∧ str k json ≠ []) then Some (str k json) else m !! k.
Proof.
  revert m. induction l as [|x l IH]; intros m.
  { cbn. rewrite bool_decide_eq_false_2 by (intros [H _]; by apply elem_of_nil in H). done. }
  cbn [foldl]. rewrite IH. unfold readAwgParam. cbv zeta.
  destruct (is_empty (str x json)) eqn:E.
  - apply is_empty_true in E. erewrite bool_decide_ext; [done|]. rewrite elem_of_cons.
    split; [naive_solver|]. intros [[->|?] ?]; naive_solver.
  - apply is_empty_false in E. destruct (decide (k = x)) as [->|Hx].
    + rewrite lookup_insert_eq. rewrite (bool_decide_eq_true_2 (x ∈ x :: l ∧ _)) by (split; [constructor|done]).
      by case_bool_decide.
    + rewrite lookup_insert_ne by done. erewrite bool_decide_ext; [done|].
      rewrite elem_of_cons. naive_solver.
Qed.

#[global] Instance WireGuardClientConfig_laws : JsonConfigLaws WireGuardClientConfig.
Proof.
  split.
  - intros c. unfold toJson, WireGuardClientConfig_config, WireGuardClientConfig_toJson.
    cbv zeta. apply (write_members_wf [_]), write_members_wf, object_of_wf.
  - intros c k [_ Hp] Hk. apply jwf_value_key in Hk.
    2:{ apply (write_members_wf [_]), write_members_wf, object_of_wf. }
    destruct (decide (k = key_isObfuscationEnabled)) as [->|Ho]; [decide_keys|].
    cbn [toJson WireGuardClientConfig_config] in Hk. rewrite client_member_value in Hk by done.
    destruct (cli_awgParams c !! k) as [v|] eqn:E.
    { apply elem_of_app. right. by destruct (Hp _ _ E). }
    apply jwf_value_key, object_of_keys in Hk; [|rewrite client_members_fst; decide_keys|apply object_of_wf].
    rewrite client_members_fst in Hk. clear E Ho. revert k Hk. apply Forall_forall. decide_keys.
  - intros c Hst. pose proof (client_fixed_value c) as Hf. specialize (λ k, Hf k Hst).
    assert (foldl (readAwgParam (WireGuardClientConfig_toJson c)) ∅ awgProtocolKeys
            = cli_awgParams c) as Hparams.
    { apply map_eq. intros k. rewrite readAwgParams_lookup.
      destruct (decide (k ∈ awgProtocolKeys)) as [Hk|Hk].
      - rewrite client_param_value by done. destruct Hst as [_ Hp].
        destruct (cli_awgParams c !! k) as [v|] eqn:E; cbn.
        + rewrite bool_decide_eq_true_2; [done|]. split; [done|]. by destruct (Hp _ _ E).
        + by rewrite bool_decide_eq_false_2 by naive_solver.
      - rewrite bool_decide_eq_false_2 by naive_solver. destruct Hst as [_ Hp].
        destruct (cli_awgParams c !! k) as [v|] eqn:E; [|done]. by destruct Hk, (Hp _ _ E). }
    cbn [fromJson toJson WireGuardClientConfig_config]. unfold WireGuardClientConfig_fromJson.
    rewrite Hparams, client_flag_value by done. clear Hparams. destruct Hst as [Hport _].
    destruct c. cbn in Hport.
    unfold str, int32, strings.
    f_equal; [rewrite Hf by decide_keys;
      cbn -[to_string to_bool to_int to_array filled set_if filled_list default];
      first [apply read_filled|apply read_filled_list|apply read_port; lia]..].
  - intros o o' _ _ Hk. cbn [fromJson WireGuardClientConfig_config].
    unfold WireGuardClientConfig_fromJson.
    assert (foldl (readAwgParam o) ∅ awgProtocolKeys = foldl (readAwgParam o') ∅ awgProtocolKeys) as ->.
    { apply map_eq. intros k. rewrite !readAwgParams_lookup.
      destruct (decide (k ∈ awgProtocolKeys)).
      - unfold str. rewrite Hk; [done|]. apply elem_of_app. by right.
      - by rewrite !bool_decide_eq_false_2 by naive_solver. }
    f_equal; (unfold str, boolean, int32, strings; rewrite Hk; [done|decide_keys]).
Qed.

End WireGuard.

Module OpenVpn.

Record OpenVpnServerConfig := OpenVpnServer {
  srv_port : text;
  srv_transportProto : text;
  srv_subnetAddress : text;
  srv_subnetMask : text;
  srv_subnetCidr : text;
  srv_cipher : text;
  srv_hash : text;
  srv_ncpDisable : bool;
  srv_tlsAuth : bool;
  srv_additionalClientConfig : text;
  srv_additionalServerConfig : text;
  srv_isThirdPartyConfig : bool;
}.

Definition OpenVpnServerConfig_toJson (c : OpenVpnServerConfig) : jobject :=
  object_of
    [ (key_port, filled (srv_port c));
      (key_transportProto, filled (srv_transportProto c));
      (key_subnetAddress, filled (srv_subnetAddress c));
      (key_subnetMask, filled (srv_subnetMask c));
      (key_subnetCidr, filled (srv_subnetCidr c));
      (key_cipher, filled (srv_cipher c));
      (key_hash, filled (srv_hash c));
      (key_ncpDisable, set_if (srv_ncpDisable c) (JBool (srv_ncpDisable c)));
      (key_tlsAuth, set_if (negb (srv_tlsAuth c)) (JBool (srv_tlsAuth c)));
      (key_additionalClientConfig, filled (srv_additionalClientConfig c));
      (key_additionalServerConfig, filled (srv_additionalServerConfig c));
      (key_isThirdPartyConfig,
         set_if (srv_isThirdPartyConfig c) (JBool (srv_isThirdPartyConfig c))) ].

Definition OpenVpnServerConfig_fromJson (json : jobject) : OpenVpnServerConfig := {|
  srv_port := str key_port json;
  srv_transportProto := str key_transportProto json;
  srv_subnetAddress := str key_subnetAddress json;
  srv_subnetMask := str key_subnetMask json;
  srv_subnetCidr := str key_subnetCidr json;
  srv_cipher := str key_cipher json;
  srv_hash := str key_hash json;
  srv_ncpDisable := boolean false key_ncpDisable json;
  srv_tlsAuth := boolean true key_tlsAuth json;
  srv_additionalClientConfig := str key_additionalClientConfig json;
  srv_additionalServerConfig := str key_additionalServerConfig json;
  srv_isThirdPartyConfig := boolean false key_isThirdPartyConfig json;
|}.

#[global] Instance OpenVpnServerConfig_config : JsonConfig OpenVpnServerConfig := {|
  toJson := OpenVpnServerConfig_toJson;
  fromJson := OpenVpnServerConfig_fromJson;
  config_keys :=
    [ key_port; key_transportProto; key_subnetAddress;
      key_subnetMask; key_subnetCidr; key_cipher;
      key_hash; key_ncpDisable; key_tlsAuth;
      key_additionalClientConfig; key_additionalServerConfig; key_isThirdPartyConfig ];
  storable := λ c, True;
|}.

Record OpenVpnClientConfig := OpenVpnClient {
  cli_nativeConfig : text;
  cli_clientId : text;
  cli_blockOutsideDns : bool;
}.

Definition OpenVpnClientConfig_toJson (c : OpenVpnClientConfig) : jobject :=
  object_of
    [ (key_config, filled (cli_nativeConfig c));
      (key_clientId, filled (cli_clientId c));
      (key_blockOutsideDns, Some (JBool (cli_blockOutsideDns c))) ].

Definition OpenVpnClientConfig_fromJson (json : jobject) : OpenVpnClientConfig := {|
  cli_nativeConfig := str key_config json;
  cli_clientId := str key_clientId json;
  cli_blockOutsideDns := boolean false key_blockOutsideDns json;
|}.

#[global] Instance OpenVpnClientConfig_config : JsonConfig OpenVpnClientConfig := {|
  toJson := OpenVpnClientConfig_toJson;
  fromJson := OpenVpnClientConfig_fromJson;
  config_keys :=
    [ key_config; key_clientId; key_blockOutsideDns ];
  storable := λ c, True;
|}.

Definition OpenVpnServerConfig_hasEqualServerSettings (this other : OpenVpnServerConfig) : bool :=
  text_eqb (srv_subnetAddress this) (srv_subnetAddress other)
  && text_eqb (srv_subnetCidr this) (srv_subnetCidr other)
  && text_eqb (srv_subnetMask this) (srv_subnetMask other)
  && text_eqb (srv_port this) (srv_port other)
  && text_eqb (srv_transportProto this) (srv_transportProto other)
  && text_eqb (srv_cipher this) (srv_cipher other)
  && text_eqb (srv_hash this) (srv_hash other)
  && Bool.eqb (srv_ncpDisable this) (srv_ncpDisable other)
  && Bool.eqb (srv_tlsAuth this) (srv_tlsAuth other)
  && text_eqb (srv_additionalServerConfig this) (srv_additionalServerConfig other).

Notation OpenVpnProtocolConfig := (ProtocolConfig OpenVpnServerConfig OpenVpnClientConfig).

Section storage.
Context `{QtData} `{QtJsonText}.

Definition OpenVpnProtocolConfig_toJson (p : OpenVpnProtocolConfig) : jobject := protocol_toJson p.
Definition OpenVpnProtocolConfig_fromJson (json : jobject) : OpenVpnProtocolConfig :=
  protocol_fromJson json.
End storage.

#[global] Instance OpenVpnServerConfig_laws : JsonConfigLaws OpenVpnServerConfig.
Proof. config_laws OpenVpnServerConfig_config OpenVpnServerConfig_toJson OpenVpnServerConfig_fromJson. Qed.

#[global] Instance OpenVpnClientConfig_laws : JsonConfigLaws OpenVpnClientConfig.
Proof. config_laws OpenVpnClientConfig_config OpenVpnClientConfig_toJson OpenVpnClientConfig_fromJson. Qed.

End OpenVpn.

Module Ikev2.

Record Ikev2ServerConfig := Ikev2Server {
  srv_hostName : text;
  srv_isThirdPartyConfig : bool;
}.

Definition Ikev2ServerConfig_toJson (c : Ikev2ServerConfig) : jobject :=
  object_of
    [ (key_hostName, filled (srv_hostName c));
      (key_isThirdPartyConfig,
         set_if (srv_isThirdPartyConfig c) (JBool (srv_isThirdPartyConfig c))) ].

Definition Ikev2ServerConfig_fromJson (json : jobject) : Ikev2ServerConfig := {|
  srv_hostName := str key_hostName json;
  srv_isThirdPartyConfig := boolean false key_isThirdPartyConfig json;
|}.

#[global] Instance Ikev2ServerConfig_config : JsonConfig Ikev2ServerConfig := {|
  toJson := Ikev2ServerConfig_toJson;
  fromJson := Ikev2ServerConfig_fromJson;
  config_keys :=
    [ key_hostName; key_isThirdPartyConfig ];
  storable := λ c, True;
|}.

Record Ikev2ClientConfig := Ikev2Client {
  cli_nativeConfig : text;
  cli_hostName : text;
  cli_userName : text;
  cli_cert : text;
  cli_password : text;
  cli_clientId : text;
}.

Definition Ikev2ClientConfig_toJson (c : Ikev2ClientConfig) : jobject :=
  object_of
    [ (key_config, filled (cli_nativeConfig c));
      (key_hostName, filled (cli_hostName c));
      (key_userName, filled (cli_userName c));
      (key_cert, filled (cli_cert c));
      (key_password, filled (cli_password c));
      (key_clientId, filled (cli_clientId c)) ].

Definition Ikev2ClientConfig_fromJson (json : jobject) : Ikev2ClientConfig := {|
  cli_nativeConfig := str key_config json;
  cli_hostName := str key_hostName json;
  cli_userName := str key_userName json;
  cli_cert := str key_cert json;
  cli_password := str key_password json;
  cli_clientId := str key_clientId json;
|}.

#[global] Instance Ikev2ClientConfig_config : JsonConfig Ikev2ClientConfig := {|
  toJson := Ikev2ClientConfig_toJson;
  fromJson := Ikev2ClientConfig_fromJson;
  config_keys :=
    [ key_config; key_hostName; key_userName;
      key_cert; key_password; key_clientId ];
  storable := λ c, True;
|}.

Notation Ikev2ProtocolConfig := (ProtocolConfig Ikev2ServerConfig Ikev2ClientConfig).

Section storage.
Context `{QtData} `{QtJsonText}.

Definition Ikev2ProtocolConfig_toJson (p : Ikev2ProtocolConfig) : jobject := protocol_toJson p.
Definition Ikev2ProtocolConfig_fromJson (json : jobject) : Ikev2ProtocolConfig :=
  protocol_fromJson json.
End storage.

#[global] Instance Ikev2ServerConfig_laws : JsonConfigLaws Ikev2ServerConfig.
Proof. config_laws Ikev2ServerConfig_config Ikev2ServerConfig_toJson Ikev2ServerConfig_fromJson. Qed.

#[global] Instance Ikev2ClientConfig_laws : JsonConfigLaws Ikev2ClientConfig.
Proof. config_laws Ikev2ClientConfig_config Ikev2ClientConfig_toJson Ikev2ClientConfig_fromJson. Qed.

End Ikev2.

(** ** Storage of the three protocols *)

(** Saving a WireGuard, OpenVPN or IKEv2 configuration and loading it
    again gives the same configuration, client half included.  For WireGuard
    the obfuscation parameters are kept entry by entry, provided they are
    known parameters with a value; for OpenVPN the flags that are written only
    when they differ from their default are recovered from its absence. *)
Theorem tunnel_configs_roundtrip `{D : QtData} `{J : QtJsonText} `{!QtJsonTextLaws D J}
    (w : WireGuard.WireGuardProtocolConfig) (o : OpenVpn.OpenVpnProtocolConfig)
    (i : Ikev2.Ikev2ProtocolConfig) :
  protocol_storable w → protocol_storable o → protocol_storable i →
  WireGuard.WireGuardProtocolConfig_fromJson (WireGuard.WireGuardProtocolConfig_toJson w) = w
  ∧ OpenVpn.OpenVpnProtocolConfig_fromJson (OpenVpn.OpenVpnProtocolConfig_toJson o) = o
  ∧ Ikev2.Ikev2ProtocolConfig_fromJson (Ikev2.Ikev2ProtocolConfig_toJson i) = i.
Proof.
  intros Hw Ho Hi. split_and!; apply protocol_fromJson_toJson; try done; decide_keys.
Qed.

Module TunnelExamples.
Import WireGuard OpenVpn Ikev2.
#[local] Existing Instances tokenData tokenJsonText tokenData_laws.

Notation wireguard0 :=
  (Protocol
     (WireGuardServer (lit "51820") (lit "udp") (lit "10.8.1.0") (lit "255.255.255.0") (lit "24") false)
     (Some (WireGuardClient (lit "[Interface]") (lit "vpn.example") 51820 (lit "10.8.1.2")
              (lit "priv") (lit "pub") (lit "spub") [] (lit "id") [lit "0.0.0.0/0"] (lit "25")
              (lit "1376") {[ lit "Jc" := lit "3"; lit "H1" := lit "1-9" ]} true))).
Notation openvpn0 :=
  (Protocol
     (OpenVpnServer (lit "1194") (lit "udp") (lit "10.8.0.0") [] (lit "24") (lit "AES-256-GCM")
        (lit "SHA512") false false [] (lit "verb 3") false)
     (Some (OpenVpnClient (lit "client") (lit "id") true))).
Notation ikev20 :=
  (Protocol (Ikev2Server (lit "vpn.example") true)
     (Some (Ikev2Client [] (lit "vpn.example") (lit "user") (lit "cert") (lit "pw") []))).

Lemma tunnel_configs_roundtrip_witness :
  WireGuardProtocolConfig_fromJson (WireGuardProtocolConfig_toJson wireguard0) = wireguard0
  ∧ OpenVpnProtocolConfig_fromJson (OpenVpnProtocolConfig_toJson openvpn0) = openvpn0
  ∧ Ikev2ProtocolConfig_fromJson (Ikev2ProtocolConfig_toJson ikev20) = ikev20.
Proof.
  apply tunnel_configs_roundtrip.
  - split; [exact I|]. intros c [= <-]. split; [|vm_compute; reflexivity].
    split; [split; [discriminate|reflexivity]|decide_keys].
  - split; [exact I|]. intros c [= <-]. split; [exact I|vm_compute; reflexivity].
  - split; [exact I|]. intros c [= <-]. split; [exact I|vm_compute; reflexivity].
Defined.
End TunnelExamples.
