(* ===== verification/ProxyConfigs.v ===== *)
(** * Proxy and service configurations

    Models of mtProxyProtocolConfig, telemtProtocolConfig, tProxyProtocolConfig,
    sftpProtocolConfig, socks5ProxyProtocolConfig, torProtocolConfig and
    dnsProtocolConfig under client/core/models/protocols/: their JSON forms and
    the comparison that decides whether a container is deployed again. *)

From S2P Require Import Prelude Text Json QtInterface QtModel JsonText ConfigKeys ConfigCodec.
#[local] Open Scope Z_scope.

(** ** Shared by the proxies *)

(** [l.removeAll(QString())] *)
Notation without_empty := (filter (λ s : text, s ≠ [])).

(** [const QString s = v.toString(); if (!s.isEmpty()) l.append(s);] *)
Definition filled_strings (k : text) (o : jobject) : list text :=
  without_empty (strings k o).

(** [p.isEmpty() ? def : p] *)
Definition or_default (def p : text) : text := if is_empty p then def else p.

(** [removeAll(QString())] on copies of both lists, [std::sort] of both, and
    their comparison. *)
Definition same_secrets (aa bb : list text) : bool :=
  let aa := without_empty aa in
  let bb := without_empty bb in
  bool_decide (sort_text aa = sort_text bb).

(** ** MTProxy *)

Record MtProxyProtocolConfig := MtProxy {
  mt_port : text;
  mt_secret : text;
  mt_tag : text;
  mt_tgLink : text;
  mt_tmeLink : text;
  mt_isEnabled : bool;
  mt_publicHost : text;
  mt_transportMode : text;
  mt_tlsDomain : text;
  mt_additionalSecrets : list text;
  mt_workersMode : text;
  mt_workers : text;
  mt_natEnabled : bool;
  mt_natInternalIp : text;
  mt_natExternalIp : text;
}.

Definition MtProxyProtocolConfig_toJson (c : MtProxyProtocolConfig) : jobject :=
  object_of
    [ (key_port, filled (mt_port c));
      (mtProxy_secretKey, filled (mt_secret c));
      (mtProxy_tagKey, filled (mt_tag c));
      (mtProxy_tgLinkKey, filled (mt_tgLink c));
      (mtProxy_tmeLinkKey, filled (mt_tmeLink c));
      (mtProxy_isEnabledKey, Some (JBool (mt_isEnabled c)));
      (mtProxy_publicHostKey, filled (mt_publicHost c));
      (mtProxy_transportModeKey, filled (mt_transportMode c));
      (mtProxy_tlsDomainKey, filled (mt_tlsDomain c));
      (mtProxy_additionalSecretsKey, filled_list (mt_additionalSecrets c));
      (mtProxy_workersModeKey, filled (mt_workersMode c));
      (mtProxy_workersKey, filled (mt_workers c));
      (mtProxy_natEnabledKey, Some (JBool (mt_natEnabled c)));
      (mtProxy_natInternalIpKey, filled (mt_natInternalIp c));
      (mtProxy_natExternalIpKey, filled (mt_natExternalIp c)) ].

Definition MtProxyProtocolConfig_fromJson (json : jobject) : MtProxyProtocolConfig := {|
  mt_port := str key_port json;
  mt_secret := str mtProxy_secretKey json;
  mt_tag := str mtProxy_tagKey json;
  mt_tgLink := str mtProxy_tgLinkKey json;
  mt_tmeLink := str mtProxy_tmeLinkKey json;
  mt_isEnabled := boolean true mtProxy_isEnabledKey json;
  mt_publicHost := str mtProxy_publicHostKey json;
  mt_transportMode := str mtProxy_transportModeKey json;
  mt_tlsDomain := str mtProxy_tlsDomainKey json;
  mt_additionalSecrets := filled_strings mtProxy_additionalSecretsKey json;
  mt_workersMode := str mtProxy_workersModeKey json;
  mt_workers := str mtProxy_workersKey json;
  mt_natEnabled := boolean false mtProxy_natEnabledKey json;
  mt_natInternalIp := str mtProxy_natInternalIpKey json;
  mt_natExternalIp := str mtProxy_natExternalIpKey json;
|}.

#[global] Instance MtProxyProtocolConfig_config : JsonConfig MtProxyProtocolConfig := {|
  toJson := MtProxyProtocolConfig_toJson;
  fromJson := MtProxyProtocolConfig_fromJson;
  config_keys :=
    [ key_port; mtProxy_secretKey; mtProxy_tagKey;
      mtProxy_tgLinkKey; mtProxy_tmeLinkKey; mtProxy_isEnabledKey;
      mtProxy_publicHostKey; mtProxy_transportModeKey; mtProxy_tlsDomainKey;
      mtProxy_additionalSecretsKey; mtProxy_workersModeKey; mtProxy_workersKey;
      mtProxy_natEnabledKey; mtProxy_natInternalIpKey; mtProxy_natExternalIpKey ];
  storable := λ c, [] ∉ mt_additionalSecrets c;
|}.

Definition MtProxyProtocolConfig_equalsDockerDeploymentSettings
    (this other : MtProxyProtocolConfig) : bool :=
  let normPort := or_default mtProxy_defaultPort in
  let normTransport := or_default mtProxy_transportModeStandard in
  let normWorkersMode := or_default mtProxy_workersModeAuto in
  if negb (text_eqb (normPort (mt_port this)) (normPort (mt_port other))) then false else
  if negb (text_eqb (normTransport (mt_transportMode this))
             (normTransport (mt_transportMode other))) then false else
  if negb (text_eqb (mt_tlsDomain this) (mt_tlsDomain other)) then false else
  if negb (text_eqb (mt_secret this) (mt_secret other)) then false else
  if negb (text_eqb (mt_tag this) (mt_tag other)) then false else
  if negb (text_eqb (mt_publicHost this) (mt_publicHost other)) then false else
  if negb (text_eqb (normWorkersMode (mt_workersMode this))
             (normWorkersMode (mt_workersMode other))) then false else
  if negb (text_eqb (mt_workers this) (mt_workers other)) then false else
  if negb (Bool.eqb (mt_natEnabled this) (mt_natEnabled other)) then false else
  if negb (text_eqb (mt_natInternalIp this) (mt_natInternalIp other)) then false else
  if negb (text_eqb (mt_natExternalIp this) (mt_natExternalIp other)) then false else
  if negb (Bool.eqb (mt_isEnabled this) (mt_isEnabled other)) then false else
  same_secrets (mt_additionalSecrets this) (mt_additionalSecrets other).

(** ** Telemt *)

Record TelemtProtocolConfig := Telemt {
  te_port : text;
  te_secret : text;
  te_tag : text;
  te_tgLink : text;
  te_tmeLink : text;
  te_isEnabled : bool;
  te_publicHost : text;
  te_transportMode : text;
  te_tlsDomain : text;
  te_maskEnabled : bool;
  te_tlsEmulation : bool;
  te_useMiddleProxy : bool;
  te_userName : text;
  te_additionalSecrets : list text;
  te_workersMode : text;
  te_workers : text;
  te_natEnabled : bool;
  te_natInternalIp : text;
  te_natExternalIp : text;
}.

Definition TelemtProtocolConfig_toJson (c : TelemtProtocolConfig) : jobject :=
  object_of
    [ (key_port, filled (te_port c));
      (telemt_secretKey, filled (te_secret c));
      (telemt_tagKey, filled (te_tag c));
      (telemt_tgLinkKey, filled (te_tgLink c));
      (telemt_tmeLinkKey, filled (te_tmeLink c));
      (telemt_isEnabledKey, Some (JBool (te_isEnabled c)));
      (telemt_publicHostKey, filled (te_publicHost c));
      (telemt_transportModeKey, filled (te_transportMode c));
      (telemt_tlsDomainKey, filled (te_tlsDomain c));
      (telemt_maskEnabledKey, Some (JBool (te_maskEnabled c)));
      (telemt_tlsEmulationKey, Some (JBool (te_tlsEmulation c)));
      (telemt_useMiddleProxyKey, Some (JBool (te_useMiddleProxy c)));
      (telemt_userNameKey, filled (te_userName c));
      (telemt_additionalSecretsKey, filled_list (te_additionalSecrets c));
      (telemt_workersModeKey, filled (te_workersMode c));
      (telemt_workersKey, filled (te_workers c));
      (telemt_natEnabledKey, Some (JBool (te_natEnabled c)));
      (telemt_natInternalIpKey, filled (te_natInternalIp c));
      (telemt_natExternalIpKey, filled (te_natExternalIp c)) ].

Definition TelemtProtocolConfig_fromJson (json : jobject) : TelemtProtocolConfig := {|
  te_port := str key_port json;
  te_secret := str telemt_secretKey json;
  te_tag := str telemt_tagKey json;
  te_tgLink := str telemt_tgLinkKey json;
  te_tmeLink := str telemt_tmeLinkKey json;
  te_isEnabled := boolean true telemt_isEnabledKey json;
  te_publicHost := str telemt_publicHostKey json;
  te_transportMode := str telemt_transportModeKey json;
  te_tlsDomain := str telemt_tlsDomainKey json;
  te_maskEnabled := boolean true telemt_maskEnabledKey json;
  te_tlsEmulation := boolean false telemt_tlsEmulationKey json;
  te_useMiddleProxy := boolean true telemt_useMiddleProxyKey json;
  te_userName := str telemt_userNameKey json;
  te_additionalSecrets := filled_strings telemt_additionalSecretsKey json;
  te_workersMode := str telemt_workersModeKey json;
  te_workers := str telemt_workersKey json;
  te_natEnabled := boolean false telemt_natEnabledKey json;
  te_natInternalIp := str telemt_natInternalIpKey json;
  te_natExternalIp := str telemt_natExternalIpKey json;
|}.

#[global] Instance TelemtProtocolConfig_config : JsonConfig TelemtProtocolConfig := {|
  toJson := TelemtProtocolConfig_toJson;
  fromJson := TelemtProtocolConfig_fromJson;
  config_keys :=
    [ key_port; telemt_secretKey; telemt_tagKey;
      telemt_tgLinkKey; telemt_tmeLinkKey; telemt_isEnabledKey;
      telemt_publicHostKey; telemt_transportModeKey; telemt_tlsDomainKey;
      telemt_maskEnabledKey; telemt_tlsEmulationKey; telemt_useMiddleProxyKey;
      telemt_userNameKey; telemt_additionalSecretsKey; telemt_workersModeKey;
      telemt_workersKey; telemt_natEnabledKey; telemt_natInternalIpKey;
      telemt_natExternalIpKey ];
  storable := λ c, [] ∉ te_additionalSecrets c;
|}.

Definition TelemtProtocolConfig_equalsDockerDeploymentSettings
    (this other : TelemtProtocolConfig) : bool :=
  let normPort := or_default telemt_defaultPort in
  let normTransport := or_default telemt_transportModeStandard in
  if negb (text_eqb (normPort (te_port this)) (normPort (te_port other))) then false else
  if negb (text_eqb (normTransport (te_transportMode this))
             (normTransport (te_transportMode other))) then false else
  if negb (text_eqb (te_tlsDomain this) (te_tlsDomain other)) then false else
  if negb (text_eqb (te_secret this) (te_secret other)) then false else
  if negb (text_eqb (te_tag this) (te_tag other)) then false else
  if negb (text_eqb (te_publicHost this) (te_publicHost other)) then false else
  if negb (Bool.eqb (te_maskEnabled this) (te_maskEnabled other)) then false else
  if negb (Bool.eqb (te_tlsEmulation this) (te_tlsEmulation other)) then false else
  if negb (Bool.eqb (te_useMiddleProxy this) (te_useMiddleProxy other)) then false else
  if negb (text_eqb (te_userName this) (te_userName other)) then false else
  if negb (Bool.eqb (te_natEnabled this) (te_natEnabled other)) then false else
  if negb (text_eqb (te_natExternalIp this) (te_natExternalIp other)) then false else
  if negb (Bool.eqb (te_isEnabled this) (te_isEnabled other)) then false else
  same_secrets (te_additionalSecrets this) (te_additionalSecrets other).

(** ** TProxy *)

Record TProxyProtocolConfig := TProxy {
  tp_port : text;
  tp_httpPort : text;
  tp_secret : text;
  tp_hostname : text;
  tp_acmeEmail : text;
  tp_carrierMode : text;
  tp_workers : text;
  tp_tgLink : text;
  tp_tmeLink : text;
  tp_isEnabled : bool;
}.

Definition TProxyProtocolConfig_toJson (c : TProxyProtocolConfig) : jobject :=
  object_of
    [ (key_port, filled (tp_port c));
      (tProxy_httpPortKey, filled (tp_httpPort c));
      (tProxy_secretKey, filled (tp_secret c));
      (tProxy_hostnameKey, filled (tp_hostname c));
      (tProxy_acmeEmailKey, filled (tp_acmeEmail c));
      (tProxy_carrierModeKey, filled (tp_carrierMode c));
      (tProxy_workersKey, filled (tp_workers c));
      (tProxy_tgLinkKey, filled (tp_tgLink c));
      (tProxy_tmeLinkKey, filled (tp_tmeLink c));
      (tProxy_isEnabledKey, Some (JBool (tp_isEnabled c))) ].

Definition TProxyProtocolConfig_fromJson (json : jobject) : TProxyProtocolConfig := {|
  tp_port := str key_port json;
  tp_httpPort := str tProxy_httpPortKey json;
  tp_secret := str tProxy_secretKey json;
  tp_hostname := str tProxy_hostnameKey json;
  tp_acmeEmail := str tProxy_acmeEmailKey json;
  tp_carrierMode := str tProxy_carrierModeKey json;
  tp_workers := str tProxy_workersKey json;
  tp_tgLink := str tProxy_tgLinkKey json;
  tp_tmeLink := str tProxy_tmeLinkKey json;
  tp_isEnabled := boolean true tProxy_isEnabledKey json;
|}.

#[global] Instance TProxyProtocolConfig_config : JsonConfig TProxyProtocolConfig := {|
  toJson := TProxyProtocolConfig_toJson;
  fromJson := TProxyProtocolConfig_fromJson;
  config_keys :=
    [ key_port; tProxy_httpPortKey; tProxy_secretKey;
      tProxy_hostnameKey; tProxy_acmeEmailKey; tProxy_carrierModeKey;
      tProxy_workersKey; tProxy_tgLinkKey; tProxy_tmeLinkKey;
      tProxy_isEnabledKey ];
  storable := λ c, True;
|}.

Definition TProxyProtocolConfig_equalsDockerDeploymentSettings
    (this other : TProxyProtocolConfig) : bool :=
  let normCarrier := or_default tProxy_carrierModeHttps in
  let normWorkers := or_default tProxy_defaultWorkers in
  let normPort := λ p defaultPort, or_default defaultPort p in
  text_eqb (tp_hostname this) (tp_hostname other) && text_eqb (tp_secret this) (tp_secret other)
  && text_eqb (tp_acmeEmail this) (tp_acmeEmail other)
  && text_eqb (normPort (tp_port this) tProxy_defaultPort) (normPort (tp_port other) tProxy_defaultPort)
  && text_eqb (normPort (tp_httpPort this) tProxy_defaultHttpPort)
       (normPort (tp_httpPort other) tProxy_defaultHttpPort)
  && text_eqb (normCarrier (tp_carrierMode this)) (normCarrier (tp_carrierMode other))
  && text_eqb (normWorkers (tp_workers this)) (normWorkers (tp_workers other))
  && Bool.eqb (tp_isEnabled this) (tp_isEnabled other).

(** ** SFTP, SOCKS5, Tor and DNS *)

Record SftpProtocolConfig := Sftp {
  sf_port : text;
  sf_userName : text;
  sf_password : text;
}.

Definition SftpProtocolConfig_toJson (c : SftpProtocolConfig) : jobject :=
  object_of
    [ (key_port, filled (sf_port c));
      (key_userName, filled (sf_userName c));
      (key_password, filled (sf_password c)) ].

Definition SftpProtocolConfig_fromJson (json : jobject) : SftpProtocolConfig := {|
  sf_port := str key_port json;
  sf_userName := str key_userName json;
  sf_password := str key_password json;
|}.

#[global] Instance SftpProtocolConfig_config : JsonConfig SftpProtocolConfig := {|
  toJson := SftpProtocolConfig_toJson;
  fromJson := SftpProtocolConfig_fromJson;
  config_keys :=
    [ key_port; key_userName; key_password ];
  storable := λ c, True;
|}.

Record Socks5ProxyProtocolConfig := Socks5Proxy {
  so_port : text;
  so_userName : text;
  so_password : text;
}.

Definition Socks5ProxyProtocolConfig_toJson (c : Socks5ProxyProtocolConfig) : jobject :=
  object_of
    [ (key_port, filled (so_port c));
      (key_userName, filled (so_userName c));
      (key_password, filled (so_password c)) ].

Definition Socks5ProxyProtocolConfig_fromJson (json : jobject) : Socks5ProxyProtocolConfig := {|
  so_port := str key_port json;
  so_userName := str key_userName json;
  so_password := str key_password json;
|}.

#[global] Instance Socks5ProxyProtocolConfig_config : JsonConfig Socks5ProxyProtocolConfig := {|
  toJson := Socks5ProxyProtocolConfig_toJson;
  fromJson := Socks5ProxyProtocolConfig_fromJson;
  config_keys :=
    [ key_port; key_userName; key_password ];
  storable := λ c, True;
|}.

Record TorServerConfig := TorServer {
  to_site : text;
}.

Definition TorServerConfig_toJson (c : TorServerConfig) : jobject :=
  object_of
    [ (key_site, filled (to_site c)) ].

Definition TorServerConfig_fromJson (json : jobject) : TorServerConfig := {|
  to_site := str key_site json;
|}.

#[global] Instance TorServerConfig_config : JsonConfig TorServerConfig := {|
  toJson := TorServerConfig_toJson;
  fromJson := TorServerConfig_fromJson;
  config_keys :=
    [ key_site ];
  storable := λ c, True;
|}.

(** [TorProtocolConfig] is its server half. *)
Definition TorProtocolConfig_toJson (serverConfig : TorServerConfig) : jobject :=
  TorServerConfig_toJson serverConfig.
Definition TorProtocolConfig_fromJson (json : jobject) : TorServerConfig :=
  TorServerConfig_fromJson json.

(** [DnsProtocolConfig] has no members. *)
Inductive DnsProtocolConfig := Dns.
Definition DnsProtocolConfig_toJson (c : DnsProtocolConfig) : jobject := [].
Definition DnsProtocolConfig_fromJson (json : jobject) : DnsProtocolConfig := Dns.

(** ** Laws *)

#[global] Instance TProxyProtocolConfig_laws : JsonConfigLaws TProxyProtocolConfig.
Proof.
  config_laws TProxyProtocolConfig_config TProxyProtocolConfig_toJson
    TProxyProtocolConfig_fromJson.
Qed.

#[global] Instance SftpProtocolConfig_laws : JsonConfigLaws SftpProtocolConfig.
Proof.
  config_laws SftpProtocolConfig_config SftpProtocolConfig_toJson
    SftpProtocolConfig_fromJson.
Qed.

#[global] Instance Socks5ProxyProtocolConfig_laws : JsonConfigLaws Socks5ProxyProtocolConfig.
Proof.
  config_laws Socks5ProxyProtocolConfig_config Socks5ProxyProtocolConfig_toJson
    Socks5ProxyProtocolConfig_fromJson.
Qed.

#[global] Instance TorServerConfig_laws : JsonConfigLaws TorServerConfig.
Proof. config_laws TorServerConfig_config TorServerConfig_toJson TorServerConfig_fromJson. Qed.

Lemma read_secrets l :
  without_empty (map (to_string []) (to_array (default JUndefined (filled_list l)))) =
  without_empty l.
Proof. by rewrite read_filled_list. Qed.

Lemma filter_filled_id (l : list text) : [] ∉ l → without_empty l = l.
Proof.
  induction l as [|s l IH]; intros H; [done|]. rewrite filter_cons_True by set_solver.
  rewrite IH by set_solver. done.
Qed.

(** What is left of a proxy configuration after it was saved: the secrets
    without the empty ones. *)
Definition mt_clean (c : MtProxyProtocolConfig) : MtProxyProtocolConfig :=
  let '(MtProxy a1 a2 a3 a4 a5 a6 a7 a8 a9 secrets b1 b2 b3 b4 b5) := c in
  MtProxy a1 a2 a3 a4 a5 a6 a7 a8 a9 (without_empty secrets) b1 b2 b3 b4 b5.

Definition te_clean (c : TelemtProtocolConfig) : TelemtProtocolConfig :=
  let '(Telemt a1 a2 a3 a4 a5 a6 a7 a8 a9 a10 a11 a12 a13 secrets b1 b2 b3 b4 b5) := c in
  Telemt a1 a2 a3 a4 a5 a6 a7 a8 a9 a10 a11 a12 a13 (without_empty secrets) b1 b2 b3 b4 b5.

Lemma mtproxy_reload c : MtProxyProtocolConfig_fromJson (MtProxyProtocolConfig_toJson c) = mt_clean c.
Proof.
  destruct c. unfold MtProxyProtocolConfig_fromJson, MtProxyProtocolConfig_toJson, mt_clean,
    filled_strings.
  f_equal; (read_back || (unfold strings; rewrite object_of_value by decide_keys; apply read_secrets)).
Qed.

Lemma telemt_reload c : TelemtProtocolConfig_fromJson (TelemtProtocolConfig_toJson c) = te_clean c.
Proof.
  destruct c. unfold TelemtProtocolConfig_fromJson, TelemtProtocolConfig_toJson, te_clean,
    filled_strings.
  f_equal; (read_back || (unfold strings; rewrite object_of_value by decide_keys; apply read_secrets)).
Qed.

#[global] Instance MtProxyProtocolConfig_laws : JsonConfigLaws MtProxyProtocolConfig.
Proof.
  split.
  - intros c. apply object_of_wf.
  - intros c k _ Hk. cbn [toJson MtProxyProtocolConfig_config] in Hk.
    unfold MtProxyProtocolConfig_toJson in Hk. solve_keys.
  - intros c Hs. cbn [fromJson toJson MtProxyProtocolConfig_config]. rewrite mtproxy_reload.
    destruct c. cbn in Hs |- *. by rewrite filter_filled_id.
  - intros o o' _ _ Hk. cbn [fromJson MtProxyProtocolConfig_config].
    unfold MtProxyProtocolConfig_fromJson, filled_strings. solve_local Hk.
Qed.

#[global] Instance TelemtProtocolConfig_laws : JsonConfigLaws TelemtProtocolConfig.
Proof.
  split.
  - intros c. apply object_of_wf.
  - intros c k _ Hk. cbn [toJson TelemtProtocolConfig_config] in Hk.
    unfold TelemtProtocolConfig_toJson in Hk. solve_keys.
  - intros c Hs. cbn [fromJson toJson TelemtProtocolConfig_config]. rewrite telemt_reload.
    destruct c. cbn in Hs |- *. by rewrite filter_filled_id.
  - intros o o' _ _ Hk. cbn [fromJson TelemtProtocolConfig_config].
    unfold TelemtProtocolConfig_fromJson, filled_strings. solve_local Hk.
Qed.

(** ** Deployment *)

#[local] Instance text_le_antisymm : AntiSymm (=) text_le.
Proof. intros a b Ha Hb. by apply text_ltb_total. Qed.

Lemma sort_text_eq_iff a b : sort_text a = sort_text b ↔ a ≡ₚ b.
Proof.
  split.
  - intros E. by rewrite <-(sort_text_perm a), E, sort_text_perm.
  - intros E. apply (StronglySorted_unique text_le); [apply sort_text_sorted..|].
    by rewrite !sort_text_perm.
Qed.

Lemma same_secrets_iff a b :
  same_secrets a b = true ↔ without_empty a ≡ₚ without_empty b.
Proof. unfold same_secrets. by rewrite bool_decide_eq_true, sort_text_eq_iff. Qed.

(** The settings a deployed container depends on, defaults filled in. *)
Definition mt_deployment (c : MtProxyProtocolConfig) : list text * list bool :=
  ([ or_default mtProxy_defaultPort (mt_port c);
     or_default mtProxy_transportModeStandard (mt_transportMode c);
     mt_tlsDomain c; mt_secret c; mt_tag c; mt_publicHost c;
     or_default mtProxy_workersModeAuto (mt_workersMode c); mt_workers c; mt_natInternalIp c;
     mt_natExternalIp c ],
   [ mt_natEnabled c; mt_isEnabled c ]).

Definition te_deployment (c : TelemtProtocolConfig) : list text * list bool :=
  ([ or_default telemt_defaultPort (te_port c);
     or_default telemt_transportModeStandard (te_transportMode c);
     te_tlsDomain c; te_secret c; te_tag c; te_publicHost c; te_userName c; te_natExternalIp c ],
   [ te_maskEnabled c; te_tlsEmulation c; te_useMiddleProxy c; te_natEnabled c; te_isEnabled c ]).

Definition tp_deployment (c : TProxyProtocolConfig) : list text * list bool :=
  ([ tp_hostname c; tp_secret c; tp_acmeEmail c; or_default tProxy_defaultPort (tp_port c);
     or_default tProxy_defaultHttpPort (tp_httpPort c);
     or_default tProxy_carrierModeHttps (tp_carrierMode c);
     or_default tProxy_defaultWorkers (tp_workers c) ],
   [ tp_isEnabled c ]).

(** A chain of [if (a != b) return false;]. *)
Ltac cmp_chain :=
  repeat match goal with
  | |- (if negb (text_eqb ?a ?b) then false else _) = true ↔ _ =>
      let E := fresh in destruct (text_eqb a b) eqn:E; cbn [negb];
      [apply text_eqb_eq in E; try rewrite E
      |apply text_eqb_neq in E; split; [discriminate|intros [? ?]; simplify_eq; congruence]]
  | |- (if negb (Bool.eqb ?a ?b) then false else _) = true ↔ _ =>
      let E := fresh in destruct (Bool.eqb a b) eqn:E; cbn [negb];
      [apply eqb_prop in E; try rewrite E
      |apply eqb_false_iff in E; split; [discriminate|intros [? ?]; simplify_eq; congruence]]
  end.

Lemma mtproxy_equal_iff a b :
  MtProxyProtocolConfig_equalsDockerDeploymentSettings a b = true ↔
  mt_deployment a = mt_deployment b
  ∧ without_empty (mt_additionalSecrets a) ≡ₚ without_empty (mt_additionalSecrets b).
Proof.
  unfold MtProxyProtocolConfig_equalsDockerDeploymentSettings, mt_deployment. cbv zeta.
  cmp_chain. rewrite same_secrets_iff. split; [intros ?; split; [congruence|done]|by intros [_ ?]].
Qed.

Lemma telemt_equal_iff a b :
  TelemtProtocolConfig_equalsDockerDeploymentSettings a b = true ↔
  te_deployment a = te_deployment b
  ∧ without_empty (te_additionalSecrets a) ≡ₚ without_empty (te_additionalSecrets b).
Proof.
  unfold TelemtProtocolConfig_equalsDockerDeploymentSettings, te_deployment. cbv zeta.
  cmp_chain. rewrite same_secrets_iff. split; [intros ?; split; [congruence|done]|by intros [_ ?]].
Qed.

Lemma tproxy_equal_iff a b :
  TProxyProtocolConfig_equalsDockerDeploymentSettings a b = true ↔ tp_deployment a = tp_deployment b.
Proof.
  unfold TProxyProtocolConfig_equalsDockerDeploymentSettings, tp_deployment. cbv zeta.
  rewrite !andb_true_iff, !text_eqb_eq, eqb_true_iff. naive_solver congruence.
Qed.

(** Two proxy configurations need the same container exactly when their
    settings agree after defaults are filled in and, for MTProxy and Telemt,
    their non-empty additional secrets are the same up to order; so the
    comparison is an equivalence, and it ignores the links shown to the user. *)
Theorem proxy_deployment_equal_exact m m' t t' p p' :
  (MtProxyProtocolConfig_equalsDockerDeploymentSettings m m' = true ↔
     mt_deployment m = mt_deployment m'
     ∧ without_empty (mt_additionalSecrets m) ≡ₚ without_empty (mt_additionalSecrets m'))
  ∧ (TelemtProtocolConfig_equalsDockerDeploymentSettings t t' = true ↔
     te_deployment t = te_deployment t'
     ∧ without_empty (te_additionalSecrets t) ≡ₚ without_empty (te_additionalSecrets t'))
  ∧ (TProxyProtocolConfig_equalsDockerDeploymentSettings p p' = true ↔
     tp_deployment p = tp_deployment p').
Proof. auto using mtproxy_equal_iff, telemt_equal_iff, tproxy_equal_iff. Qed.

(** Saving and loading never asks for a new deployment: a proxy
    configuration compares equal to its reloaded form, whatever its fields
    hold, and the other services are reloaded unchanged. *)
Theorem proxy_reload_keeps_deployment m t p s5 sf tor :
  MtProxyProtocolConfig_equalsDockerDeploymentSettings m
    (MtProxyProtocolConfig_fromJson (MtProxyProtocolConfig_toJson m)) = true
  ∧ TelemtProtocolConfig_equalsDockerDeploymentSettings t
    (TelemtProtocolConfig_fromJson (TelemtProtocolConfig_toJson t)) = true
  ∧ TProxyProtocolConfig_fromJson (TProxyProtocolConfig_toJson p) = p
  ∧ Socks5ProxyProtocolConfig_fromJson (Socks5ProxyProtocolConfig_toJson s5) = s5
  ∧ SftpProtocolConfig_fromJson (SftpProtocolConfig_toJson sf) = sf
  ∧ TorProtocolConfig_fromJson (TorProtocolConfig_toJson tor) = tor.
Proof.
  rewrite mtproxy_equal_iff, telemt_equal_iff, mtproxy_reload, telemt_reload.
  split_and!; [by destruct m|destruct m|by destruct t|destruct t|..].
  1,2: cbn; by rewrite list_filter_filter_l by done.
  - exact (fromJson_toJson p I).
  - exact (fromJson_toJson s5 I).
  - exact (fromJson_toJson sf I).
  - exact (fromJson_toJson tor I).
Qed.
