(* ===== verification/XrayConfig.v ===== *)
(** * Xray configurations

    Model of client/core/models/protocols/xrayProtocolConfig.cpp and .h: the
    nested transport settings, the server and client halves with their JSON
    forms, and the hydration of the server half from a native Xray
    configuration. *)

From S2P Require Import Prelude Text Json QtInterface QtModel JsonText ConfigKeys ConfigCodec.
#[local] Open Scope Z_scope.

Module Xray.

(** [if (json.contains(k)) c.f = json.value(k).toString();] *)
Definition str_or (def : text) (k : text) (o : jobject) : text :=
  if jcontains k o then str k o else def.
Definition bool_or (def : bool) (k : text) (o : jobject) : bool :=
  if jcontains k o then boolean false k o else def.

(** [if (!o.isEmpty()) obj[k] = o;] *)
Definition filled_object (o : jobject) : option json :=
  if bool_decide (o = []) then None else Some (JObject o).

(** ** xPadding *)

Record XrayXPaddingConfig := XPadding {
  pad_bytesMin : text;
  pad_bytesMax : text;
  pad_obfsMode : bool;
  pad_key : text;
  pad_header : text;
  pad_placement : text;
  pad_method : text;
}.

Definition XrayXPaddingConfig_toJson (c : XrayXPaddingConfig) : jobject :=
  object_of
    [ (key_xPaddingBytesMin, filled (pad_bytesMin c));
      (key_xPaddingBytesMax, filled (pad_bytesMax c));
      (key_xPaddingObfsMode, Some (JBool (pad_obfsMode c)));
      (key_xPaddingKey, filled (pad_key c));
      (key_xPaddingHeader, filled (pad_header c));
      (key_xPaddingPlacement, filled (pad_placement c));
      (key_xPaddingMethod, filled (pad_method c)) ].

Definition XrayXPaddingConfig_fromJson (json : jobject) : XrayXPaddingConfig := {|
  pad_bytesMin := str key_xPaddingBytesMin json;
  pad_bytesMax := str key_xPaddingBytesMax json;
  pad_obfsMode := boolean true key_xPaddingObfsMode json;
  pad_key := str key_xPaddingKey json;
  pad_header := str key_xPaddingHeader json;
  pad_placement := to_string xray_defaultXPaddingPlacement (jvalue key_xPaddingPlacement json);
  pad_method := to_string xray_defaultXPaddingMethod (jvalue key_xPaddingMethod json);
|}.

(** The values of a default-constructed struct. *)
Definition default_XPadding : XrayXPaddingConfig :=
  XPadding [] [] true [] [] xray_defaultXPaddingPlacement xray_defaultXPaddingMethod.

#[global] Instance XrayXPaddingConfig_config : JsonConfig XrayXPaddingConfig := {|
  toJson := XrayXPaddingConfig_toJson;
  fromJson := XrayXPaddingConfig_fromJson;
  config_keys :=
    [ key_xPaddingBytesMin; key_xPaddingBytesMax; key_xPaddingObfsMode;
      key_xPaddingKey; key_xPaddingHeader; key_xPaddingPlacement;
      key_xPaddingMethod ];
  storable := λ c, pad_placement c ≠ [] ∧ pad_method c ≠ [];
|}.

(** ** xmux *)

Record XrayXmuxConfig := Xmux {
  mux_enabled : bool;
  mux_maxConcurrencyMin : text;
  mux_maxConcurrencyMax : text;
  mux_maxConnectionsMin : text;
  mux_maxConnectionsMax : text;
  mux_cMaxReuseTimesMin : text;
  mux_cMaxReuseTimesMax : text;
  mux_hMaxRequestTimesMin : text;
  mux_hMaxRequestTimesMax : text;
  mux_hMaxReusableSecsMin : text;
  mux_hMaxReusableSecsMax : text;
  mux_hKeepAlivePeriod : text;
}.

Definition XrayXmuxConfig_toJson (c : XrayXmuxConfig) : jobject :=
  object_of
    [ (key_xmuxEnabled, Some (JBool (mux_enabled c)));
      (key_xmuxMaxConcurrencyMin, filled (mux_maxConcurrencyMin c));
      (key_xmuxMaxConcurrencyMax, filled (mux_maxConcurrencyMax c));
      (key_xmuxMaxConnectionsMin, filled (mux_maxConnectionsMin c));
      (key_xmuxMaxConnectionsMax, filled (mux_maxConnectionsMax c));
      (key_xmuxCMaxReuseTimesMin, filled (mux_cMaxReuseTimesMin c));
      (key_xmuxCMaxReuseTimesMax, filled (mux_cMaxReuseTimesMax c));
      (key_xmuxHMaxRequestTimesMin, filled (mux_hMaxRequestTimesMin c));
      (key_xmuxHMaxRequestTimesMax, filled (mux_hMaxRequestTimesMax c));
      (key_xmuxHMaxReusableSecsMin, filled (mux_hMaxReusableSecsMin c));
      (key_xmuxHMaxReusableSecsMax, filled (mux_hMaxReusableSecsMax c));
      (key_xmuxHKeepAlivePeriod, filled (mux_hKeepAlivePeriod c)) ].

Definition XrayXmuxConfig_fromJson (json : jobject) : XrayXmuxConfig := {|
  mux_enabled := boolean true key_xmuxEnabled json;
  mux_maxConcurrencyMin := to_string (lit "0") (jvalue key_xmuxMaxConcurrencyMin json);
  mux_maxConcurrencyMax := to_string (lit "0") (jvalue key_xmuxMaxConcurrencyMax json);
  mux_maxConnectionsMin := to_string (lit "0") (jvalue key_xmuxMaxConnectionsMin json);
  mux_maxConnectionsMax := to_string (lit "0") (jvalue key_xmuxMaxConnectionsMax json);
  mux_cMaxReuseTimesMin := to_string (lit "0") (jvalue key_xmuxCMaxReuseTimesMin json);
  mux_cMaxReuseTimesMax := to_string (lit "0") (jvalue key_xmuxCMaxReuseTimesMax json);
  mux_hMaxRequestTimesMin := to_string (lit "0") (jvalue key_xmuxHMaxRequestTimesMin json);
  mux_hMaxRequestTimesMax := to_string (lit "0") (jvalue key_xmuxHMaxRequestTimesMax json);
  mux_hMaxReusableSecsMin := to_string (lit "0") (jvalue key_xmuxHMaxReusableSecsMin json);
  mux_hMaxReusableSecsMax := to_string (lit "0") (jvalue key_xmuxHMaxReusableSecsMax json);
  mux_hKeepAlivePeriod := str key_xmuxHKeepAlivePeriod json;
|}.

Definition default_Xmux : XrayXmuxConfig :=
  Xmux true (lit "0") (lit "0") (lit "0") (lit "0") (lit "0") (lit "0") (lit "0") (lit "0")
    (lit "0") (lit "0") [].

#[global] Instance XrayXmuxConfig_config : JsonConfig XrayXmuxConfig := {|
  toJson := XrayXmuxConfig_toJson;
  fromJson := XrayXmuxConfig_fromJson;
  config_keys :=
    [ key_xmuxEnabled; key_xmuxMaxConcurrencyMin; key_xmuxMaxConcurrencyMax;
      key_xmuxMaxConnectionsMin; key_xmuxMaxConnectionsMax; key_xmuxCMaxReuseTimesMin;
      key_xmuxCMaxReuseTimesMax; key_xmuxHMaxRequestTimesMin; key_xmuxHMaxRequestTimesMax;
      key_xmuxHMaxReusableSecsMin; key_xmuxHMaxReusableSecsMax; key_xmuxHKeepAlivePeriod ];
  storable := λ c,
    (* a limit reads as zero when it is absent *)
    Forall (λ s, s ≠ [])
      [ mux_maxConcurrencyMin c; mux_maxConcurrencyMax c; mux_maxConnectionsMin c;
        mux_maxConnectionsMax c; mux_cMaxReuseTimesMin c; mux_cMaxReuseTimesMax c;
        mux_hMaxRequestTimesMin c; mux_hMaxRequestTimesMax c; mux_hMaxReusableSecsMin c;
        mux_hMaxReusableSecsMax c ];
|}.

(** ** XHTTP *)

Record XrayXhttpConfig := Xhttp {
  xh_mode : text;
  xh_host : text;
  xh_path : text;
  xh_uplinkMethod : text;
  xh_disableGrpc : bool;
  xh_disableSse : bool;
  xh_sessionPlacement : text;
  xh_sessionKey : text;
  xh_seqPlacement : text;
  xh_seqKey : text;
  xh_uplinkDataPlacement : text;
  xh_uplinkDataKey : text;
  xh_uplinkChunkSize : text;
  xh_scMaxBufferedPosts : text;
  xh_scMaxEachPostBytesMin : text;
  xh_scMaxEachPostBytesMax : text;
  xh_scMinPostsIntervalMsMin : text;
  xh_scMinPostsIntervalMsMax : text;
  xh_scStreamUpServerSecsMin : text;
  xh_scStreamUpServerSecsMax : text;
  xh_xPadding : XrayXPaddingConfig;
  xh_xmux : XrayXmuxConfig;
}.

Definition default_Xhttp : XrayXhttpConfig :=
  Xhttp xray_defaultXhttpMode xray_defaultXhttpHost [] xray_defaultXhttpUplinkMethod true true
    xray_defaultXhttpSessionPlacement xray_defaultXhttpSessionKey xray_defaultXhttpSeqPlacement []
    xray_defaultXhttpUplinkDataPlacement [] xray_defaultXhttpUplinkChunkSize []
    xray_defaultXhttpScMaxEachPostBytesMin xray_defaultXhttpScMaxEachPostBytesMax
    xray_defaultXhttpScMinPostsIntervalMsMin xray_defaultXhttpScMinPostsIntervalMsMax
    xray_defaultXhttpScStreamUpServerSecsMin xray_defaultXhttpScStreamUpServerSecsMax
    default_XPadding default_Xmux.

(** The defaults with every field but the nested structs cleared. *)
Definition clearedXhttpConfig : XrayXhttpConfig :=
  let c := default_Xhttp in
  Xhttp [] [] [] [] false false [] [] [] [] [] [] [] [] [] [] [] [] [] []
    (xh_xPadding c) (xh_xmux c).

Definition XrayXhttpConfig_toJson (c : XrayXhttpConfig) : jobject :=
  object_of
    [ (key_xhttpMode, filled (xh_mode c));
      (key_xhttpHost, filled (xh_host c));
      (key_xhttpPath, filled (xh_path c));
      (key_xhttpUplinkMethod, filled (xh_uplinkMethod c));
      (key_xhttpDisableGrpc, Some (JBool (xh_disableGrpc c)));
      (key_xhttpDisableSse, Some (JBool (xh_disableSse c)));
      (key_xhttpSessionPlacement, filled (xh_sessionPlacement c));
      (key_xhttpSessionKey, filled (xh_sessionKey c));
      (key_xhttpSeqPlacement, filled (xh_seqPlacement c));
      (key_xhttpSeqKey, filled (xh_seqKey c));
      (key_xhttpUplinkDataPlacement, filled (xh_uplinkDataPlacement c));
      (key_xhttpUplinkDataKey, filled (xh_uplinkDataKey c));
      (key_xhttpUplinkChunkSize, filled (xh_uplinkChunkSize c));
      (key_xhttpScMaxBufferedPosts, filled (xh_scMaxBufferedPosts c));
      (key_xhttpScMaxEachPostBytesMin, filled (xh_scMaxEachPostBytesMin c));
      (key_xhttpScMaxEachPostBytesMax, filled (xh_scMaxEachPostBytesMax c));
      (key_xhttpScMinPostsIntervalMsMin, filled (xh_scMinPostsIntervalMsMin c));
      (key_xhttpScMinPostsIntervalMsMax, filled (xh_scMinPostsIntervalMsMax c));
      (key_xhttpScStreamUpServerSecsMin, filled (xh_scStreamUpServerSecsMin c));
      (key_xhttpScStreamUpServerSecsMax, filled (xh_scStreamUpServerSecsMax c));
      (lit "xPadding", Some (JObject (XrayXPaddingConfig_toJson (xh_xPadding c))));
      (lit "xmux", Some (JObject (XrayXmuxConfig_toJson (xh_xmux c)))) ].

Definition XrayXhttpConfig_fromJson (json : jobject) : XrayXhttpConfig :=
  if bool_decide (json = []) then clearedXhttpConfig else
  let c := clearedXhttpConfig in {|
    xh_mode := str_or (xh_mode c) key_xhttpMode json;
    xh_host := str_or (xh_host c) key_xhttpHost json;
    xh_path := str_or (xh_path c) key_xhttpPath json;
    xh_uplinkMethod := str_or (xh_uplinkMethod c) key_xhttpUplinkMethod json;
    xh_disableGrpc := bool_or (xh_disableGrpc c) key_xhttpDisableGrpc json;
    xh_disableSse := bool_or (xh_disableSse c) key_xhttpDisableSse json;
    xh_sessionPlacement := str_or (xh_sessionPlacement c) key_xhttpSessionPlacement json;
    xh_sessionKey := str_or (xh_sessionKey c) key_xhttpSessionKey json;
    xh_seqPlacement := str_or (xh_seqPlacement c) key_xhttpSeqPlacement json;
    xh_seqKey := str_or (xh_seqKey c) key_xhttpSeqKey json;
    xh_uplinkDataPlacement := str_or (xh_uplinkDataPlacement c) key_xhttpUplinkDataPlacement json;
    xh_uplinkDataKey := str_or (xh_uplinkDataKey c) key_xhttpUplinkDataKey json;
    xh_uplinkChunkSize := str_or (xh_uplinkChunkSize c) key_xhttpUplinkChunkSize json;
    xh_scMaxBufferedPosts := str_or (xh_scMaxBufferedPosts c) key_xhttpScMaxBufferedPosts json;
    xh_scMaxEachPostBytesMin := str_or (xh_scMaxEachPostBytesMin c) key_xhttpScMaxEachPostBytesMin json;
    xh_scMaxEachPostBytesMax := str_or (xh_scMaxEachPostBytesMax c) key_xhttpScMaxEachPostBytesMax json;
    xh_scMinPostsIntervalMsMin := str_or (xh_scMinPostsIntervalMsMin c) key_xhttpScMinPostsIntervalMsMin json;
    xh_scMinPostsIntervalMsMax := str_or (xh_scMinPostsIntervalMsMax c) key_xhttpScMinPostsIntervalMsMax json;
    xh_scStreamUpServerSecsMin := str_or (xh_scStreamUpServerSecsMin c) key_xhttpScStreamUpServerSecsMin json;
    xh_scStreamUpServerSecsMax := str_or (xh_scStreamUpServerSecsMax c) key_xhttpScStreamUpServerSecsMax json;
    xh_xPadding :=
      if jcontains (lit "xPadding") json
      then XrayXPaddingConfig_fromJson (to_object (jvalue (lit "xPadding") json))
      else xh_xPadding c;
    xh_xmux :=
      if jcontains (lit "xmux") json
      then XrayXmuxConfig_fromJson (to_object (jvalue (lit "xmux") json)) else xh_xmux c;
  |}.

#[global] Instance XrayXhttpConfig_config : JsonConfig XrayXhttpConfig := {|
  toJson := XrayXhttpConfig_toJson;
  fromJson := XrayXhttpConfig_fromJson;
  config_keys :=
    [ key_xhttpMode; key_xhttpHost; key_xhttpPath;
      key_xhttpUplinkMethod; key_xhttpDisableGrpc; key_xhttpDisableSse;
      key_xhttpSessionPlacement; key_xhttpSessionKey; key_xhttpSeqPlacement;
      key_xhttpSeqKey; key_xhttpUplinkDataPlacement; key_xhttpUplinkDataKey;
      key_xhttpUplinkChunkSize; key_xhttpScMaxBufferedPosts; key_xhttpScMaxEachPostBytesMin;
      key_xhttpScMaxEachPostBytesMax; key_xhttpScMinPostsIntervalMsMin; key_xhttpScMinPostsIntervalMsMax;
      key_xhttpScStreamUpServerSecsMin; key_xhttpScStreamUpServerSecsMax; (lit "xPadding");
      (lit "xmux") ];
  storable := λ c, storable (xh_xPadding c) ∧ storable (xh_xmux c);
|}.

(** ** mKCP *)

Record XrayMkcpConfig := Mkcp {
  kcp_tti : text;
  kcp_uplinkCapacity : text;
  kcp_downlinkCapacity : text;
  kcp_readBufferSize : text;
  kcp_writeBufferSize : text;
  kcp_congestion : bool;
}.

Definition XrayMkcpConfig_toJson (c : XrayMkcpConfig) : jobject :=
  object_of
    [ (key_mkcpTti, filled (kcp_tti c));
      (key_mkcpUplinkCapacity, filled (kcp_uplinkCapacity c));
      (key_mkcpDownlinkCapacity, filled (kcp_downlinkCapacity c));
      (key_mkcpReadBufferSize, filled (kcp_readBufferSize c));
      (key_mkcpWriteBufferSize, filled (kcp_writeBufferSize c));
      (key_mkcpCongestion, Some (JBool (kcp_congestion c))) ].

Definition default_Mkcp : XrayMkcpConfig := Mkcp [] [] [] [] [] true.

Definition XrayMkcpConfig_fromJson (json : jobject) : XrayMkcpConfig :=
  let c := default_Mkcp in
  if bool_decide (json = []) then c else {|
    kcp_tti := str_or (kcp_tti c) key_mkcpTti json;
    kcp_uplinkCapacity := str_or (kcp_uplinkCapacity c) key_mkcpUplinkCapacity json;
    kcp_downlinkCapacity := str_or (kcp_downlinkCapacity c) key_mkcpDownlinkCapacity json;
    kcp_readBufferSize := str_or (kcp_readBufferSize c) key_mkcpReadBufferSize json;
    kcp_writeBufferSize := str_or (kcp_writeBufferSize c) key_mkcpWriteBufferSize json;
    kcp_congestion := bool_or (kcp_congestion c) key_mkcpCongestion json;
  |}.

#[global] Instance XrayMkcpConfig_config : JsonConfig XrayMkcpConfig := {|
  toJson := XrayMkcpConfig_toJson;
  fromJson := XrayMkcpConfig_fromJson;
  config_keys :=
    [ key_mkcpTti; key_mkcpUplinkCapacity; key_mkcpDownlinkCapacity;
      key_mkcpReadBufferSize; key_mkcpWriteBufferSize; key_mkcpCongestion ];
  storable := λ c, True;
|}.

(** ** The server half *)

Record XrayServerConfig := XrayServer {
  srv_port : text;
  srv_transportProto : text;
  srv_subnetAddress : text;
  srv_site : text;
  srv_isThirdPartyConfig : bool;
  srv_security : text;
  srv_flow : text;
  srv_fingerprint : text;
  srv_sni : text;
  srv_alpn : text;
  srv_transport : text;
  srv_xhttp : XrayXhttpConfig;
  srv_mkcp : XrayMkcpConfig;
}.

Definition XrayServerConfig_toJson (c : XrayServerConfig) : jobject :=
  object_of
    [ (key_port, filled (srv_port c));
      (key_transportProto, filled (srv_transportProto c));
      (key_subnetAddress, filled (srv_subnetAddress c));
      (key_site, filled (srv_site c));
      (key_isThirdPartyConfig,
         set_if (srv_isThirdPartyConfig c) (JBool (srv_isThirdPartyConfig c)));
      (key_xraySecurity, filled (srv_security c));
      (key_xrayFlow, filled (srv_flow c));
      (key_xrayFingerprint, filled (srv_fingerprint c));
      (key_xraySni, filled (srv_sni c));
      (key_xrayAlpn, filled (srv_alpn c));
      (key_xrayTransport, filled (srv_transport c));
      (lit "xhttp", filled_object (XrayXhttpConfig_toJson (srv_xhttp c)));
      (lit "mkcp", filled_object (XrayMkcpConfig_toJson (srv_mkcp c))) ].

(** The fingerprint field once held a browser identification. *)
Definition migratedFingerprint `{QtCase} (fingerprint : text) : text :=
  if q_contains_ci fingerprint (lit "Mozilla/5.0") then xray_defaultFingerprint else fingerprint.

Definition nested_or {A} (def : A) (from : jobject → A) (k : text) (json : jobject) : A :=
  if jcontains k json then
    let o := to_object (jvalue k json) in
    if bool_decide (o = []) then def else from o
  else def.

Definition default_Server : XrayServerConfig :=
  XrayServer [] [] [] [] false [] [] [] [] [] [] default_Xhttp default_Mkcp.

Definition XrayServerConfig_fromJson `{QtCase} (json : jobject) : XrayServerConfig :=
  let c := default_Server in {|
    srv_port := str key_port json;
    srv_transportProto := str key_transportProto json;
    srv_subnetAddress := str key_subnetAddress json;
    srv_site := str key_site json;
    srv_isThirdPartyConfig := boolean false key_isThirdPartyConfig json;
    srv_security := str_or (srv_security c) key_xraySecurity json;
    srv_flow := str_or (srv_flow c) key_xrayFlow json;
    srv_fingerprint :=
      if jcontains key_xrayFingerprint json
      then migratedFingerprint (str key_xrayFingerprint json) else srv_fingerprint c;
    srv_sni := str_or (srv_sni c) key_xraySni json;
    srv_alpn := str_or (srv_alpn c) key_xrayAlpn json;
    srv_transport := str_or (srv_transport c) key_xrayTransport json;
    srv_xhttp := nested_or (srv_xhttp c) XrayXhttpConfig_fromJson (lit "xhttp") json;
    srv_mkcp := nested_or (srv_mkcp c) XrayMkcpConfig_fromJson (lit "mkcp") json;
  |}.

#[global] Instance XrayServerConfig_config `{QtCase} : JsonConfig XrayServerConfig := {|
  toJson := XrayServerConfig_toJson;
  fromJson := XrayServerConfig_fromJson;
  config_keys :=
    [ key_port; key_transportProto; key_subnetAddress;
      key_site; key_isThirdPartyConfig; key_xraySecurity;
      key_xrayFlow; key_xrayFingerprint; key_xraySni;
      key_xrayAlpn; key_xrayTransport; lit "xhttp";
      lit "mkcp" ];
  storable := λ c,
    storable (srv_xhttp c) ∧ q_contains_ci (srv_fingerprint c) (lit "Mozilla/5.0") = false;
|}.

Definition XrayServerConfig_hasEqualServerSettings (this other : XrayServerConfig) : bool :=
  text_eqb (srv_port this) (srv_port other)
  && text_eqb (srv_transportProto this) (srv_transportProto other)
  && text_eqb (srv_subnetAddress this) (srv_subnetAddress other)
  && text_eqb (srv_site this) (srv_site other)
  && text_eqb (srv_security this) (srv_security other)
  && text_eqb (srv_flow this) (srv_flow other)
  && text_eqb (srv_transport this) (srv_transport other)
  && text_eqb (srv_fingerprint this) (srv_fingerprint other)
  && text_eqb (srv_sni this) (srv_sni other)
  && text_eqb (srv_alpn this) (srv_alpn other)
  && bool_decide (XrayXhttpConfig_toJson (srv_xhttp this) = XrayXhttpConfig_toJson (srv_xhttp other))
  && bool_decide (XrayMkcpConfig_toJson (srv_mkcp this) = XrayMkcpConfig_toJson (srv_mkcp other)).

(** ** The client half *)

Record XrayClientConfig := XrayClient {
  cli_nativeConfig : text;
  cli_localPort : text;
  cli_id : text;
}.

Definition XrayClientConfig_toJson (c : XrayClientConfig) : jobject :=
  object_of
    [ (key_config, filled (cli_nativeConfig c));
      (key_localPort, filled (cli_localPort c));
      (key_clientId, filled (cli_id c)) ].

(** The path [outbounds[0].settings.vnext[0].users[0].id] of a native
    configuration, with a presence check at each step. *)
Definition nativeUserId (configObj : jobject) : option text :=
  if negb (jcontains xray_outbounds configObj) then None else
  match to_array (jvalue xray_outbounds configObj) with
  | [] => None
  | v :: _ =>
      let outbound := to_object v in
      if negb (jcontains xray_settings outbound) then None else
      let settings := to_object (jvalue xray_settings outbound) in
      if negb (jcontains xray_vnext settings) then None else
      match to_array (jvalue xray_vnext settings) with
      | [] => None
      | v :: _ =>
          let vnextObj := to_object v in
          if negb (jcontains xray_users vnextObj) then None else
          match to_array (jvalue xray_users vnextObj) with
          | [] => None
          | v :: _ =>
              let user := to_object v in
              if jcontains xray_id user then Some (str xray_id user) else None
          end
      end
  end.

Section client.
Context `{QtData}.

Definition nativeObject (nativeConfig : text) : option jobject :=
  match json_parse (utf8 nativeConfig) with Some (JObject o) => Some o | _ => None end.

Definition XrayClientConfig_fromJson (json : jobject) : XrayClientConfig :=
  let nativeConfig := str key_config json in
  let localPort := str key_localPort json in
  let id := str key_clientId json in
  let id :=
    if is_empty id && negb (is_empty nativeConfig) then
      match nativeObject nativeConfig with
      | Some configObj => default id (nativeUserId configObj)
      | None => id
      end
    else id in
  XrayClient nativeConfig localPort id.
End client.

(** ** Hydration *)

Definition set_port v c := let '(XrayServer _ b c' d e f g h i j k l m) := c in
  XrayServer v b c' d e f g h i j k l m.
Definition set_site v c := let '(XrayServer a b c' _ e f g h i j k l m) := c in
  XrayServer a b c' v e f g h i j k l m.
Definition set_security v c := let '(XrayServer a b c' d e _ g h i j k l m) := c in
  XrayServer a b c' d e v g h i j k l m.
Definition set_flow v c := let '(XrayServer a b c' d e f _ h i j k l m) := c in
  XrayServer a b c' d e f v h i j k l m.
Definition set_fingerprint v c := let '(XrayServer a b c' d e f g _ i j k l m) := c in
  XrayServer a b c' d e f g v i j k l m.
Definition set_sni v c := let '(XrayServer a b c' d e f g h _ j k l m) := c in
  XrayServer a b c' d e f g h v j k l m.
Definition set_alpn v c := let '(XrayServer a b c' d e f g h i _ k l m) := c in
  XrayServer a b c' d e f g h i v k l m.
Definition set_transport v c := let '(XrayServer a b c' d e f g h i j _ l m) := c in
  XrayServer a b c' d e f g h i j v l m.
Definition set_xhttp v c := let '(XrayServer a b c' d e f g h i j k _ m) := c in
  XrayServer a b c' d e f g h i j k v m.
Definition set_mkcp v c := let '(XrayServer a b c' d e f g h i j k l _) := c in
  XrayServer a b c' d e f g h i j k l v.

(** [QString::number(v.toInt())] *)
Definition int_text (v : json) : text := number (to_int 0 v).

Definition hydrateEndpoint (outbound : jobject) (srv : XrayServerConfig) : XrayServerConfig :=
  let settings := to_object (jvalue xray_settings outbound) in
  match to_array (jvalue xray_vnext settings) with
  | [] => srv
  | v :: _ =>
      let vnextEntry := to_object v in
      let srv := if jcontains xray_port vnextEntry
                 then set_port (int_text (jvalue xray_port vnextEntry)) srv else srv in
      match to_array (jvalue xray_users vnextEntry) with
      | [] => srv
      | u :: _ => set_flow (str xray_flow (to_object u)) srv
      end
  end.

Definition hydrateTransport (streamSettings : jobject) (srv : XrayServerConfig) : XrayServerConfig :=
  let networkVal := to_string (lit "tcp") (jvalue xray_network streamSettings) in
  let srv :=
    if text_eqb networkVal (lit "xhttp") then set_transport (lit "xhttp") srv
    else if text_eqb networkVal (lit "kcp") then set_transport (lit "mkcp") srv
    else set_transport (lit "raw") srv in
  if jcontains xray_security streamSettings
  then set_security (str xray_security streamSettings) srv else srv.

Definition hydrateReality `{QtCase} (streamSettings : jobject) (srv : XrayServerConfig) :
    XrayServerConfig :=
  if text_eqb (srv_security srv) (lit "reality") then
    let rs := to_object (jvalue xray_realitySettings streamSettings) in
    let srv := set_sni (str xray_serverName rs) srv in
    let srv := set_site (if is_empty (srv_sni srv) then srv_site srv else srv_sni srv) srv in
    let fp := str xray_fingerprint rs in
    if negb (is_empty fp) then set_fingerprint (migratedFingerprint fp) srv else srv
  else srv.

Definition hydrateTls (streamSettings : jobject) (srv : XrayServerConfig) : XrayServerConfig :=
  if text_eqb (srv_security srv) (lit "tls") then
    let tls := to_object (jvalue (lit "tlsSettings") streamSettings) in
    let srv := set_sni (str xray_serverName tls) srv in
    let fp := str xray_fingerprint tls in
    let srv := if negb (is_empty fp) then set_fingerprint fp srv else srv in
    let alpnList := strings (lit "alpn") tls in
    if bool_decide (alpnList = []) then srv else set_alpn (join [44] alpnList) srv
  else srv.

Definition xhttpModeName (mode : text) : text :=
  if text_eqb mode (lit "auto") then lit "Auto"
  else if text_eqb mode (lit "packet-up") then lit "Packet-up"
  else if text_eqb mode (lit "stream-up") then lit "Stream-up"
  else if text_eqb mode (lit "stream-one") then lit "Stream-one"
  else mode.

Definition hydratedXhttpJson (xhttpObj : jobject) : jobject :=
  let mode := str (lit "mode") xhttpObj in
  let copied k := set_if (jcontains k xhttpObj) (JString (str k xhttpObj)) in
  object_of
    [ (key_xhttpMode, set_if (negb (is_empty mode)) (JString (xhttpModeName mode)));
      (key_xhttpHost, copied (lit "host"));
      (key_xhttpPath, copied (lit "path"));
      (key_xhttpUplinkMethod, copied (lit "uplinkHTTPMethod"));
      (key_xhttpDisableGrpc, Some (JBool (boolean true (lit "noGRPCHeader") xhttpObj)));
      (key_xhttpDisableSse, Some (JBool (boolean true (lit "noSSEHeader") xhttpObj))) ].

Definition hydrateXhttp (streamSettings : jobject) (srv : XrayServerConfig) : XrayServerConfig :=
  if text_eqb (srv_transport srv) (lit "xhttp") then
    let xhttpObj := to_object (jvalue (lit "xhttpSettings") streamSettings) in
    set_xhttp (XrayXhttpConfig_fromJson (hydratedXhttpJson xhttpObj)) srv
  else srv.

Definition hydratedMkcp (kcpObj : jobject) : XrayMkcpConfig :=
  let field k := if jcontains k kcpObj then int_text (jvalue k kcpObj) else [] in
  Mkcp (field (lit "tti")) (field (lit "uplinkCapacity")) (field (lit "downlinkCapacity"))
    (field (lit "readBufferSize")) (field (lit "writeBufferSize"))
    (if jcontains (lit "congestion") kcpObj then boolean true (lit "congestion") kcpObj else true).

Definition hydrateMkcp (streamSettings : jobject) (srv : XrayServerConfig) : XrayServerConfig :=
  if text_eqb (srv_transport srv) (lit "mkcp") then
    let kcpObj := to_object (jvalue (lit "kcpSettings") streamSettings) in
    set_mkcp (hydratedMkcp kcpObj) srv
  else srv.

Definition hydrateServer `{QtCase} (outbound streamSettings : jobject) (srv : XrayServerConfig) :
    XrayServerConfig :=
  let srv := hydrateEndpoint outbound srv in
  let srv := hydrateTransport streamSettings srv in
  let srv := hydrateReality streamSettings srv in
  let srv := hydrateTls streamSettings srv in
  let srv := hydrateXhttp streamSettings srv in
  hydrateMkcp streamSettings srv.

(** ** Protocol *)

Record XrayProtocolConfig := XrayProtocol {
  x_server : XrayServerConfig;
  x_client : option XrayClientConfig;
  x_needsClientHydration : bool;
}.

Section protocol.
Context `{QtCase} `{QtData} `{QtJsonText}.

(** The first outbound and its stream settings, when hydration is possible. *)
Definition nativeStream (nativeConfig : text) : option (jobject * jobject) :=
  match nativeObject nativeConfig with
  | None => None
  | Some root =>
      match to_array (jvalue xray_outbounds root) with
      | [] => None
      | v :: _ =>
          let outbound := to_object v in
          let streamSettings := to_object (jvalue xray_streamSettings outbound) in
          if bool_decide (streamSettings = []) then None else Some (outbound, streamSettings)
      end
  end.

Definition hydrateServerConfigFromClientNative (p : XrayProtocolConfig) : bool * XrayProtocolConfig :=
  match x_client p with
  | None => (false, p)
  | Some client =>
      if is_empty (cli_nativeConfig client) then (false, p) else
      match nativeStream (cli_nativeConfig client) with
      | None => (false, p)
      | Some (outbound, streamSettings) =>
          (true, XrayProtocol (hydrateServer outbound streamSettings (x_server p)) (x_client p) false)
      end
  end.

(** A native Xray document rather than a wrapped client object. *)
Definition isNative (o : jobject) : bool :=
  jcontains xray_outbounds o && negb (jcontains key_config o).

Definition XrayProtocolConfig_toJson (p : XrayProtocolConfig) : jobject :=
  let obj := XrayServerConfig_toJson (x_server p) in
  match x_client p with
  | None => obj
  | Some client =>
      match nativeObject (cli_nativeConfig client) with
      | Some o =>
          if isNative o then jinsert key_lastConfig (JString (cli_nativeConfig client)) obj
          else jinsert key_lastConfig
                 (JString (from_utf8 (json_compact (XrayClientConfig_toJson client)))) obj
      | None =>
          jinsert key_lastConfig
            (JString (from_utf8 (json_compact (XrayClientConfig_toJson client)))) obj
      end
  end.

(** [inbounds[0].port] as text. *)
Definition nativeLocalPort (parsed : jobject) : text :=
  if negb (jcontains xray_inbounds parsed) then [] else
  match to_array (jvalue xray_inbounds parsed) with
  | [] => []
  | v :: _ =>
      let inbound := to_object v in
      if jcontains xray_port inbound then int_text (jvalue xray_port inbound) else []
  end.

(** [outbounds[0].settings.vnext[0].users[0].id], empty when a step is missing. *)
Definition nativeClientId (parsed : jobject) : text :=
  match to_array (jvalue xray_outbounds parsed) with
  | [] => []
  | v :: _ =>
      let settings := to_object (jvalue xray_settings (to_object v)) in
      match to_array (jvalue xray_vnext settings) with
      | [] => []
      | v :: _ =>
          match to_array (jvalue xray_users (to_object v)) with
          | [] => []
          | u :: _ => str xray_id (to_object u)
          end
      end
  end.

Definition clientFromText (lastConfigStr : text) : option XrayClientConfig :=
  if is_empty lastConfigStr then None else
  match nativeObject lastConfigStr with
  | None => None
  | Some parsed =>
      if isNative parsed
      then Some (XrayClient lastConfigStr (nativeLocalPort parsed) (nativeClientId parsed))
      else Some (XrayClientConfig_fromJson parsed)
  end.

Definition XrayProtocolConfig_fromJson (json : jobject) : XrayProtocolConfig :=
  let server := XrayServerConfig_fromJson json in
  let client := clientFromText (str key_lastConfig json) in
  let needsClientHydration :=
    bool_decide (is_Some client)
    && (negb (jcontains key_xrayTransport json) || srv_isThirdPartyConfig server) in
  let c := XrayProtocol server client needsClientHydration in
  if needsClientHydration then (hydrateServerConfigFromClientNative c).2 else c.
End protocol.

(** ** Laws of the nested structs *)

Lemma str_or_nil k o : str_or [] k o = str k o.
Proof.
  unfold str_or, str. destruct (jcontains k o) eqn:E; [done|]. by rewrite jcontains_false.
Qed.

Lemma bool_or_false k o : bool_or false k o = boolean false k o.
Proof.
  unfold bool_or, boolean. destruct (jcontains k o) eqn:E; [done|]. by rewrite jcontains_false.
Qed.

#[global] Instance XrayXPaddingConfig_laws : JsonConfigLaws XrayXPaddingConfig.
Proof. config_laws XrayXPaddingConfig_config XrayXPaddingConfig_toJson XrayXPaddingConfig_fromJson. Qed.

#[global] Instance XrayXmuxConfig_laws : JsonConfigLaws XrayXmuxConfig.
Proof. config_laws XrayXmuxConfig_config XrayXmuxConfig_toJson XrayXmuxConfig_fromJson. Qed.

Lemma mkcp_reload c : XrayMkcpConfig_fromJson (XrayMkcpConfig_toJson c) = c.
Proof.
  destruct c. unfold XrayMkcpConfig_fromJson.
  rewrite bool_decide_eq_false_2.
  2:{ apply (jcontains_ne key_mkcpCongestion). unfold XrayMkcpConfig_toJson.
      by rewrite object_of_contains by decide_keys. }
  unfold XrayMkcpConfig_toJson, default_Mkcp. cbn [kcp_tti kcp_uplinkCapacity kcp_downlinkCapacity
    kcp_readBufferSize kcp_writeBufferSize kcp_congestion]. rewrite !str_or_nil.
  f_equal; [read_back..|]. unfold bool_or. rewrite object_of_contains by decide_keys. read_back.
Qed.

Lemma xhttp_reload c : storable c → XrayXhttpConfig_fromJson (XrayXhttpConfig_toJson c) = c.
Proof.
  intros Hst. unfold XrayXhttpConfig_fromJson.
  rewrite bool_decide_eq_false_2.
  2:{ apply (jcontains_ne key_xhttpDisableGrpc). unfold XrayXhttpConfig_toJson.
      by rewrite object_of_contains by decide_keys. }
  destruct c as [a1 a2 a3 a4 a5 a6 a7 a8 a9 a10 a11 a12 a13 a14 a15 a16 a17 a18 a19 a20 pad mux].
  destruct Hst as [Hp Hm]. cbn [xh_xPadding xh_xmux] in Hp, Hm.
  unfold XrayXhttpConfig_toJson, clearedXhttpConfig.
  cbn -[object_of str_or bool_or filled default_Xhttp jcontains jvalue lit].
  rewrite !str_or_nil, !bool_or_false.
  rewrite !object_of_contains, !object_of_value by decide_keys.
  f_equal; [read_back..|exact (fromJson_toJson pad Hp)|exact (fromJson_toJson mux Hm)].
Qed.

(** ** The server half in storage *)

Lemma nested_reload {A} (def : A) from l k o :
  NoDup (map fst l) → member_value k l = filled_object o → o ≠ [] →
  nested_or def from k (object_of l) = from o.
Proof.
  intros Hn Hm Ho. unfold nested_or. rewrite object_of_contains, object_of_value, Hm by done.
  unfold filled_object. rewrite bool_decide_eq_false_2 by done. cbn.
  by rewrite bool_decide_eq_false_2.
Qed.

Lemma xhttp_object_ne c : XrayXhttpConfig_toJson c ≠ [].
Proof.
  apply (jcontains_ne key_xhttpDisableGrpc). unfold XrayXhttpConfig_toJson.
  by rewrite object_of_contains by decide_keys.
Qed.

Lemma mkcp_object_ne c : XrayMkcpConfig_toJson c ≠ [].
Proof.
  apply (jcontains_ne key_mkcpCongestion). unfold XrayMkcpConfig_toJson.
  by rewrite object_of_contains by decide_keys.
Qed.

Lemma fingerprint_reload `{QtCase} l fp :
  NoDup (map fst l) → member_value key_xrayFingerprint l = filled fp →
  q_contains_ci fp (lit "Mozilla/5.0") = false →
  (if jcontains key_xrayFingerprint (object_of l)
   then migratedFingerprint (str key_xrayFingerprint (object_of l)) else []) = fp.
Proof.
  intros Hn Hm Hf. unfold str. rewrite object_of_contains, object_of_value, Hm by done.
  unfold filled, migratedFingerprint. destruct fp as [|c fp]; [done|]. cbn -[q_contains_ci lit].
  by rewrite Hf.
Qed.

#[global] Instance XrayServerConfig_laws `{QtCase} : JsonConfigLaws XrayServerConfig.
Proof.
  split.
  - intros c. apply object_of_wf.
  - intros c k _ Hk. cbn [toJson XrayServerConfig_config] in Hk.
    unfold XrayServerConfig_toJson in Hk. solve_keys.
  - intros c [Hx Hf]. cbn [toJson fromJson XrayServerConfig_config].
    destruct c as [a1 a2 a3 a4 a5 a6 a7 fp a8 a9 a10 xh mk]. cbn [srv_xhttp srv_fingerprint] in Hx, Hf.
    unfold XrayServerConfig_fromJson, default_Server. cbv zeta.
    cbn [srv_security srv_flow srv_fingerprint srv_sni srv_alpn srv_transport srv_xhttp srv_mkcp].
    rewrite !str_or_nil.
    f_equal; try (unfold XrayServerConfig_toJson; read_back).
    + apply fingerprint_reload; [decide_keys|done|done].
    + rewrite <-(xhttp_reload xh) at 2 by done.
      apply nested_reload; [decide_keys|done|apply xhttp_object_ne].
    + rewrite <-(mkcp_reload mk) at 2. apply nested_reload; [decide_keys|done|apply mkcp_object_ne].
  - intros o o' Ho Ho' Hk. cbn [fromJson XrayServerConfig_config].
    unfold XrayServerConfig_fromJson, str_or, nested_or, str, boolean.
    rewrite !jcontains_value by done. f_equal; (rewrite !Hk by decide_keys; done).
Qed.

(** ** Hydration, field by field *)

Definition vnextEntry (outbound : jobject) : option jobject :=
  match to_array (jvalue xray_vnext (to_object (jvalue xray_settings outbound))) with
  | [] => None
  | v :: _ => Some (to_object v)
  end.

Definition hydrated_port (outbound : jobject) (old : text) : text :=
  match vnextEntry outbound with
  | Some e => if jcontains xray_port e then int_text (jvalue xray_port e) else old
  | None => old
  end.

Definition hydrated_flow (outbound : jobject) (old : text) : text :=
  match vnextEntry outbound with
  | Some e => match to_array (jvalue xray_users e) with
              | [] => old
              | u :: _ => str xray_flow (to_object u)
              end
  | None => old
  end.

Definition hydrated_transport (stream : jobject) : text :=
  let networkVal := to_string (lit "tcp") (jvalue xray_network stream) in
  if text_eqb networkVal (lit "xhttp") then lit "xhttp"
  else if text_eqb networkVal (lit "kcp") then lit "mkcp" else lit "raw".

Definition hydrated_security (stream : jobject) (old : text) : text :=
  if jcontains xray_security stream then str xray_security stream else old.

Definition hydrated_sni (stream : jobject) (sec old : text) : text :=
  if text_eqb sec (lit "reality")
  then str xray_serverName (to_object (jvalue xray_realitySettings stream))
  else if text_eqb sec (lit "tls")
  then str xray_serverName (to_object (jvalue (lit "tlsSettings") stream)) else old.

Definition hydrated_site (stream : jobject) (sec old : text) : text :=
  if text_eqb sec (lit "reality") then
    let sni := str xray_serverName (to_object (jvalue xray_realitySettings stream)) in
    if is_empty sni then old else sni
  else old.

Definition hydrated_alpn (stream : jobject) (sec old : text) : text :=
  if text_eqb sec (lit "tls") then
    let alpnList := strings (lit "alpn") (to_object (jvalue (lit "tlsSettings") stream)) in
    if bool_decide (alpnList = []) then old else join [44] alpnList
  else old.

Section hydration.
Context `{QtCase}.

Definition hydrated_fingerprint (stream : jobject) (sec old : text) : text :=
  if text_eqb sec (lit "reality") then
    let fp := str xray_fingerprint (to_object (jvalue xray_realitySettings stream)) in
    if is_empty fp then old else migratedFingerprint fp
  else if text_eqb sec (lit "tls") then
    let fp := str xray_fingerprint (to_object (jvalue (lit "tlsSettings") stream)) in
    if is_empty fp then old else fp
  else old.

(** The hydrated server, every field in closed form. *)
Definition hydrated_server (outbound stream : jobject) (srv : XrayServerConfig) : XrayServerConfig :=
  let sec := hydrated_security stream (srv_security srv) in
  let transport := hydrated_transport stream in {|
    srv_port := hydrated_port outbound (srv_port srv);
    srv_transportProto := srv_transportProto srv;
    srv_subnetAddress := srv_subnetAddress srv;
    srv_site := hydrated_site stream sec (srv_site srv);
    srv_isThirdPartyConfig := srv_isThirdPartyConfig srv;
    srv_security := sec;
    srv_flow := hydrated_flow outbound (srv_flow srv);
    srv_fingerprint := hydrated_fingerprint stream sec (srv_fingerprint srv);
    srv_sni := hydrated_sni stream sec (srv_sni srv);
    srv_alpn := hydrated_alpn stream sec (srv_alpn srv);
    srv_transport := transport;
    srv_xhttp :=
      if text_eqb transport (lit "xhttp")
      then XrayXhttpConfig_fromJson
             (hydratedXhttpJson (to_object (jvalue (lit "xhttpSettings") stream)))
      else srv_xhttp srv;
    srv_mkcp :=
      if text_eqb transport (lit "mkcp")
      then hydratedMkcp (to_object (jvalue (lit "kcpSettings") stream)) else srv_mkcp srv;
  |}.

#[local] Arguments text_eqb : simpl never.
#[local] Arguments lit : simpl never.
#[local] Arguments str : simpl never.
#[local] Arguments migratedFingerprint : simpl never.
#[local] Arguments is_empty : simpl never.

Lemma hydrateEndpoint_eq outbound srv :
  hydrateEndpoint outbound srv =
  set_port (hydrated_port outbound (srv_port srv)) (set_flow (hydrated_flow outbound (srv_flow srv)) srv).
Proof.
  unfold hydrateEndpoint, hydrated_port, hydrated_flow, vnextEntry. destruct srv.
  destruct (to_array _) as [|v ?]; [done|]. destruct (jcontains xray_port _); by destruct (to_array _).
Qed.

Lemma hydrateTransport_eq stream srv :
  hydrateTransport stream srv =
  set_transport (hydrated_transport stream)
    (set_security (hydrated_security stream (srv_security srv)) srv).
Proof.
  unfold hydrateTransport, hydrated_transport, hydrated_security. destruct srv. cbv zeta.
  repeat case_match; done.
Qed.

Lemma hydrateSecurity_eq stream srv :
  hydrateTls stream (hydrateReality stream srv) =
  set_sni (hydrated_sni stream (srv_security srv) (srv_sni srv))
    (set_site (hydrated_site stream (srv_security srv) (srv_site srv))
      (set_fingerprint (hydrated_fingerprint stream (srv_security srv) (srv_fingerprint srv))
        (set_alpn (hydrated_alpn stream (srv_security srv) (srv_alpn srv)) srv))).
Proof.
  unfold hydrateReality, hydrateTls, hydrated_sni, hydrated_site, hydrated_fingerprint, hydrated_alpn.
  destruct srv as [a1 a2 a3 a4 a5 sec a6 a7 a8 a9 a10 xh mk]. cbn [srv_security].
  destruct (text_eqb sec (lit "reality")) eqn:E1.
  - apply text_eqb_eq in E1. subst sec. change (text_eqb (lit "reality") (lit "tls")) with false.
    cbn. by destruct (is_empty (str xray_fingerprint _)), (is_empty (str xray_serverName _)).
  - cbn [srv_security]. destruct (text_eqb sec (lit "tls")); [|done]. cbn.
    destruct (is_empty (str xray_fingerprint _)); cbn; by case_bool_decide.
Qed.

Lemma hydrateServer_closed outbound stream srv :
  hydrateServer outbound stream srv = hydrated_server outbound stream srv.
Proof.
  unfold hydrateServer. cbv zeta.
  rewrite hydrateSecurity_eq, hydrateTransport_eq, hydrateEndpoint_eq.
  destruct srv. unfold hydrateXhttp, hydrateMkcp, hydrated_server. cbn -[hydrated_transport].
  destruct (text_eqb (hydrated_transport stream) (lit "xhttp")) eqn:E; cbn -[hydrated_transport];
    by destruct (text_eqb (hydrated_transport stream) (lit "mkcp")).
Qed.

Lemma hydrated_server_idemp outbound stream srv :
  hydrated_server outbound stream (hydrated_server outbound stream srv) =
  hydrated_server outbound stream srv.
Proof.
  unfold hydrated_server at 1. cbn -[hydrated_server].
  assert (hydrated_security stream (srv_security (hydrated_server outbound stream srv)) =
          hydrated_security stream (srv_security srv)) as ->.
  { cbn. unfold hydrated_security. by destruct (jcontains _ _). }
  unfold hydrated_server. cbv zeta. f_equal; cbn.
  - unfold hydrated_port. repeat case_match; done.
  - unfold hydrated_site. repeat case_match; done.
  - unfold hydrated_flow. repeat case_match; done.
  - unfold hydrated_fingerprint. repeat case_match; done.
  - unfold hydrated_sni. repeat case_match; done.
  - unfold hydrated_alpn. repeat case_match; done.
  - by case_match.
  - by case_match.
Qed.
End hydration.

(** Hydrating the server half from the client's native configuration: it
    succeeds exactly when there is a client with a native document that has an
    outbound with stream settings; it then sets each server field to the value
    the document gives it, or keeps the stored one where the document is
    silent, leaves the client alone, and is idempotent; when it fails nothing
    changes. *)
Theorem xray_hydration_exact `{QtCase} `{QtData} (p : XrayProtocolConfig) :
  let stream :=
    match x_client p with
    | Some c => if is_empty (cli_nativeConfig c) then None else nativeStream (cli_nativeConfig c)
    | None => None
    end in
  let p' := (hydrateServerConfigFromClientNative p).2 in
  match stream with
  | Some (outbound, streamSettings) =>
      hydrateServerConfigFromClientNative p =
        (true, XrayProtocol (hydrated_server outbound streamSettings (x_server p)) (x_client p) false)
      ∧ hydrateServerConfigFromClientNative p' = (true, p')
  | None => hydrateServerConfigFromClientNative p = (false, p)
  end.
Proof.
  destruct p as [srv [c|] nh]; [|done]. cbv zeta.
  unfold hydrateServerConfigFromClientNative. cbn [x_client x_server].
  destruct (is_empty (cli_nativeConfig c)) eqn:E; [done|].
  destruct (nativeStream (cli_nativeConfig c)) as [[o s]|] eqn:En; [|done]. cbn [snd x_client x_server].
  rewrite E, En, !hydrateServer_closed. split; [done|]. cbn [x_server].
  by rewrite hydrated_server_idemp.
Qed.

(** ** Save and load *)

Lemma native_id_agrees o : default [] (nativeUserId o) = nativeClientId o.
Proof.
  unfold nativeUserId, nativeClientId.
  destruct (jcontains xray_outbounds o) eqn:E1; [|by rewrite (jcontains_false _ _ E1)]. cbn [negb].
  destruct (to_array (jvalue xray_outbounds o)) as [|v ?]; [done|]. cbv zeta.
  destruct (jcontains xray_settings (to_object v)) eqn:E2; [|by rewrite (jcontains_false _ _ E2)].
  cbn [negb].
  destruct (jcontains xray_vnext _) eqn:E3; [|by rewrite (jcontains_false _ _ E3)]. cbn [negb].
  destruct (to_array (jvalue xray_vnext _)) as [|v2 ?]; [done|].
  destruct (jcontains xray_users _) eqn:E4; [|by rewrite (jcontains_false _ _ E4)]. cbn [negb].
  destruct (to_array (jvalue xray_users _)) as [|v3 ?]; [done|].
  destruct (jcontains xray_id _) eqn:E5; [done|]. unfold str. by rewrite (jcontains_false _ _ E5).
Qed.

Section reload.
Context `{QtCase} `{D : QtData} `{J : QtJsonText} `{!QtJsonTextLaws D J}.

(** A client half that storage represents: a native document is stored as it
    is, so the port and identifier must be the ones it contains; any other
    client is stored as an object, which must be printable, and an empty
    identifier must not be one the native text would supply. *)
Definition client_settled (c : XrayClientConfig) : Prop :=
  match nativeObject (cli_nativeConfig c) with
  | Some o =>
      if isNative o then
        cli_nativeConfig c ≠ [] ∧ cli_localPort c = nativeLocalPort o ∧ cli_id c = nativeClientId o
      else json_printable (XrayClientConfig_toJson c) = true
           ∧ (cli_id c ≠ [] ∨ nativeClientId o = [])
  | None => json_printable (XrayClientConfig_toJson c) = true
  end.

Lemma client_object_reload c :
  (∀ o, nativeObject (cli_nativeConfig c) = Some o → cli_id c ≠ [] ∨ nativeClientId o = []) →
  XrayClientConfig_fromJson (XrayClientConfig_toJson c) = c.
Proof.
  intros Hid. destruct c as [n l i]. unfold XrayClientConfig_fromJson.
  assert (str key_config (XrayClientConfig_toJson (XrayClient n l i)) = n) as ->.
  { unfold XrayClientConfig_toJson. read_back. }
  assert (str key_localPort (XrayClientConfig_toJson (XrayClient n l i)) = l) as ->.
  { unfold XrayClientConfig_toJson. read_back. }
  assert (str key_clientId (XrayClientConfig_toJson (XrayClient n l i)) = i) as ->.
  { unfold XrayClientConfig_toJson. read_back. }
  cbv zeta. f_equal. destruct (is_empty i) eqn:Ei; [|done]. apply is_empty_true in Ei. subst i.
  destruct (is_empty n); [done|]. cbn [negb andb].
  destruct (nativeObject n) as [o|] eqn:En; [|done].
  rewrite native_id_agrees. destruct (Hid o En) as [?|?]; done.
Qed.

Lemma client_object_not_native c : isNative (XrayClientConfig_toJson c) = false.
Proof.
  unfold isNative, XrayClientConfig_toJson. by rewrite object_of_contains by decide_keys.
Qed.

Lemma printed_client_reload c :
  json_printable (XrayClientConfig_toJson c) = true →
  (∀ o, nativeObject (cli_nativeConfig c) = Some o → cli_id c ≠ [] ∨ nativeClientId o = []) →
  clientFromText (from_utf8 (json_compact (XrayClientConfig_toJson c))) = Some c.
Proof.
  intros Hp Hid. unfold clientFromText, nativeObject.
  rewrite (proj2 (is_empty_false _)) by apply json_printed_ne.
  rewrite json_parse_printed by done. rewrite client_object_not_native. f_equal.
  by apply client_object_reload.
Qed.

(** The text a client is stored as. *)
Definition client_text (c : XrayClientConfig) : text :=
  match nativeObject (cli_nativeConfig c) with
  | Some o => if isNative o then cli_nativeConfig c
              else from_utf8 (json_compact (XrayClientConfig_toJson c))
  | None => from_utf8 (json_compact (XrayClientConfig_toJson c))
  end.

Lemma client_text_reload c : client_settled c → clientFromText (client_text c) = Some c.
Proof.
  unfold client_settled, client_text. destruct (nativeObject (cli_nativeConfig c)) as [o|] eqn:En.
  - destruct (isNative o) eqn:Ei.
    + intros (Hn & Hl & Hi). unfold clientFromText.
      rewrite (proj2 (is_empty_false _)), En, Ei, <-Hl, <-Hi by done. by destruct c.
    + intros [Hp Hid]. apply printed_client_reload; [done|]. intros o' Ho'. by simplify_eq.
  - intros Hp. apply printed_client_reload; [done|]. intros o' Ho'. by simplify_eq.
Qed.

Lemma xray_toJson_eq p :
  XrayProtocolConfig_toJson p =
  match x_client p with
  | None => XrayServerConfig_toJson (x_server p)
  | Some c => jinsert key_lastConfig (JString (client_text c)) (XrayServerConfig_toJson (x_server p))
  end.
Proof.
  unfold XrayProtocolConfig_toJson, client_text. destruct (x_client p) as [c|]; [|done].
  destruct (nativeObject _) as [o|]; [|done]. by destruct (isNative o).
Qed.

Lemma xray_toJson_value p k :
  k ≠ key_lastConfig →
  jvalue k (XrayProtocolConfig_toJson p) = jvalue k (XrayServerConfig_toJson (x_server p)).
Proof.
  intros Hk. rewrite xray_toJson_eq. destruct (x_client p); [|done].
  rewrite jvalue_jinsert. by rewrite (proj2 (text_eqb_neq _ _)).
Qed.

Lemma xray_toJson_wf p : jwf (XrayProtocolConfig_toJson p).
Proof.
  rewrite xray_toJson_eq. destruct (x_client p); [apply jinsert_wf|]; apply object_of_wf.
Qed.

Lemma xray_server_reload p :
  storable (x_server p) → XrayServerConfig_fromJson (XrayProtocolConfig_toJson p) = x_server p.
Proof.
  intros Hs. rewrite <-(fromJson_toJson (x_server p)) by done.
  change (XrayServerConfig_fromJson ?o) with (fromJson (A := XrayServerConfig) o).
  apply fromJson_local; [apply xray_toJson_wf|apply toJson_wf|].
  intros k Hk. apply xray_toJson_value. intros ->. revert Hk. decide_keys.
Qed.

Lemma xray_client_reload p :
  (∀ c, x_client p = Some c → client_settled c) →
  clientFromText (str key_lastConfig (XrayProtocolConfig_toJson p)) = x_client p.
Proof.
  intros Hc. rewrite xray_toJson_eq. unfold str. destruct (x_client p) as [c|].
  - rewrite jvalue_jinsert, text_eqb_refl. cbn [to_string]. by apply client_text_reload, Hc.
  - unfold XrayServerConfig_toJson. by rewrite object_of_value by decide_keys.
Qed.

Lemma xray_transport_stored p :
  jcontains key_xrayTransport (XrayProtocolConfig_toJson p) = negb (is_empty (srv_transport (x_server p))).
Proof.
  rewrite jcontains_value by apply xray_toJson_wf. rewrite xray_toJson_value by decide_keys.
  unfold XrayServerConfig_toJson. rewrite object_of_value by decide_keys. cbn -[filled].
  unfold filled. by destruct (srv_transport (x_server p)).
Qed.

(** Saving an Xray configuration and loading it again gives the same
    configuration, with no hydration pending, when its fields can be stored
    and its server half either records its own transport and is not a
    third-party one, or already agrees with the native document it would be
    hydrated from. *)
Theorem xray_config_reload (p : XrayProtocolConfig) :
  storable (x_server p) →
  (∀ c, x_client p = Some c → client_settled c) →
  x_client p = None
  ∨ (srv_transport (x_server p) ≠ [] ∧ srv_isThirdPartyConfig (x_server p) = false)
  ∨ hydrateServerConfigFromClientNative p = (true, XrayProtocol (x_server p) (x_client p) false) →
  XrayProtocolConfig_fromJson (XrayProtocolConfig_toJson p)
  = XrayProtocol (x_server p) (x_client p) false.
Proof.
  intros Hs Hc Hh. unfold XrayProtocolConfig_fromJson.
  rewrite xray_server_reload, xray_client_reload, xray_transport_stored by done. cbv zeta.
  destruct (bool_decide (is_Some (x_client p))) eqn:Ecl; [|done]. cbn [andb].
  destruct Hh as [Hn|[[Ht H3]|Hh]].
  - rewrite Hn in Ecl. done.
  - rewrite H3, (proj2 (is_empty_false _)) by done. done.
  - rewrite negb_involutive. destruct (_ || _); [|done].
    destruct p as [srv [c|] nh]; [|done]. cbn [x_server x_client] in *.
    unfold hydrateServerConfigFromClientNative in *. cbn [x_client x_server] in *.
    destruct (is_empty (cli_nativeConfig c)); [done|].
    destruct (nativeStream (cli_nativeConfig c)) as [[o s]|]; [|done]. by injection Hh as ->.
Qed.
End reload.

End Xray.

(** ** Examples *)

Module XrayExamples.
Import Xray.
#[local] Existing Instances tokenData tokenJsonText tokenData_laws.

(** Case-insensitive comparison on ASCII text. *)
#[local] Instance asciiCase : QtCase := {|
  q_equals_ci a b := text_eqb (map ascii_lower a) (map ascii_lower b);
  q_contains_ci s p := contains_text (map ascii_lower p) (map ascii_lower s);
|}.

Definition obj (l : list (text * json)) : jobject := object_of (map (λ '(k, v), (k, Some v)) l).

(** A native document with one outbound over TLS. *)
Definition native_tls (fingerprint : text) : jobject :=
  obj [ (lit "outbounds", JArray [ JObject (obj [
          (lit "settings", JObject (obj [ (lit "vnext", JArray [ JObject (obj [
             (lit "port", JDouble (DInt 443));
             (lit "users", JArray [ JObject (obj [ (lit "id", JString (lit "u-1"));
                                                   (lit "flow", JString (lit "vision")) ]) ]) ]) ]) ]));
          (lit "streamSettings", JObject (obj [
             (lit "network", JString (lit "tcp"));
             (lit "security", JString (lit "tls"));
             (lit "tlsSettings", JObject (obj [
                (lit "serverName", JString (lit "example.org"));
                (lit "fingerprint", JString fingerprint) ])) ])) ]) ]);
        (lit "inbounds", JArray [ JObject (obj [ (lit "port", JDouble (DInt 10808)) ]) ]) ].

Definition native_text (fingerprint : text) : text :=
  from_utf8 (json_compact (native_tls fingerprint)).

(** The configuration loaded from an object that holds only the native text. *)
Definition imported (fingerprint : text) : XrayProtocolConfig :=
  XrayProtocolConfig_fromJson (obj [ (key_lastConfig, JString (native_text fingerprint)) ]).

Example imported_fields :
  (srv_port (x_server (imported (lit "firefox"))), srv_sni (x_server (imported (lit "firefox"))),
   srv_transport (x_server (imported (lit "firefox"))), x_client (imported (lit "firefox")))
  = (lit "443", lit "example.org", lit "raw",
     Some (XrayClient (native_text (lit "firefox")) (lit "10808") (lit "u-1"))).
Proof. vm_compute. reflexivity. Qed.

Lemma xray_config_reload_witness :
  XrayProtocolConfig_fromJson (XrayProtocolConfig_toJson (imported (lit "firefox")))
  = XrayProtocol (x_server (imported (lit "firefox"))) (x_client (imported (lit "firefox"))) false.
Proof.
  apply xray_config_reload.
  - vm_compute. repeat split; repeat constructor; discriminate.
  - intros c Hc. vm_compute in Hc. injection Hc as <-. vm_compute. repeat split. discriminate.
  - right. left. vm_compute. split; [discriminate|reflexivity].
Defined.

(** A browser identification used as fingerprint is migrated when a
    reality or a stored configuration is read, but not when a TLS one is
    hydrated: such an import shows the old value, and the next load after a
    save replaces it. *)
Theorem tls_fingerprint_not_migrated :
  let p := imported (lit "Mozilla/5.0 (X11)") in
  srv_fingerprint (x_server p) = lit "Mozilla/5.0 (X11)"
  ∧ srv_fingerprint (x_server (XrayProtocolConfig_fromJson (XrayProtocolConfig_toJson p)))
    = lit "chrome".
Proof. vm_compute. split; reflexivity. Qed.
End XrayExamples.
