(* ===== verification/QueuedSnapshot.v ===== *)
(** * Snapshots read in another thread

    Model of client/core/utils/boundedQueuedSnapshot.h.  A reader runs in the
    thread of its target while the receiver waits in its own thread, with a
    timeout; either object may be destroyed meanwhile.  Each atomic access to
    the shared state is one action, the actions of the two threads and of the
    event loop interleave in any order, and the theorems are about every run.

    A target living in the thread of the receiver allows fewer interleavings,
    all of which are runs of this model. *)

From S2P Require Import Prelude.

Inductive BoundedQueuedSnapshotStatus := Ready | Timeout | TargetUnavailable | QueueFailed.

#[export] Instance snapshot_status_eq_dec : EqDecision BoundedQueuedSnapshotStatus.
Proof. solve_decision. Defined.

(** ** What the call does before anything is queued *)

Record SnapshotCall := {
  call_receiver : bool;            (* receiver is not null *)
  call_receiverThread : bool;      (* the caller is in the thread of the receiver *)
  call_target : bool;              (* target is not null and has a thread *)
  call_sameThread : bool;          (* that thread is the current one *)
  call_threadRunning : bool;
}.

Inductive SnapshotSetup :=
| SetupIgnored                                     (* no receiver: nothing happens *)
| SetupTransferred                                 (* the whole call is queued to the receiver *)
| SetupCompleteLater (status : BoundedQueuedSnapshotStatus)
| SetupStarted.

Definition requestBoundedQueuedSnapshot (c : SnapshotCall) : SnapshotSetup :=
  if negb (call_receiver c) then SetupIgnored else
  if negb (call_receiverThread c) then SetupTransferred else
  if negb (call_target c) then SetupCompleteLater TargetUnavailable else
  if negb (call_sameThread c) && negb (call_threadRunning c)
  then SetupCompleteLater TargetUnavailable
  else SetupStarted.

(** ** The shared state and the threads *)

Section snapshot.
Context {V : Type}.

(** The queued reader in the thread of the target. *)
Inductive TargetPc :=
| TQueued                     (* in the event queue *)
| TReading                    (* inside [reader] *)
| TRead (value : V)           (* [reader] returned *)
| TFinish (value : option V)  (* entering [finishPromise] *)
| TNotify                     (* about to call [promise->finish()] *)
| TDone.                      (* returned, or removed from the queue *)

(** What follows [finishPromise] in the receiver thread. *)
Inductive AfterFinish :=
| ThenReturn
| ThenComplete (status : BoundedQueuedSnapshotStatus) (value : option V).

Inductive ReceiverPc :=
| RIdle                       (* in the event loop *)
| RQueueFailed                (* [invokeMethod] returned false *)
| RResolve (status : BoundedQueuedSnapshotStatus) (value : option V)  (* entering [resolve] *)
| RCancel (status : BoundedQueuedSnapshotStatus) (value : option V)   (* [resolved] exchanged *)
| RDestroyed                  (* the [destroyed] handler of the watcher *)
| RDestroyedExchange
| RFinish (k : AfterFinish)   (* entering [finishPromise] *)
| RNotify (k : AfterFinish)   (* about to call [promise->finish()] *)
| RComplete (status : BoundedQueuedSnapshotStatus) (value : option V).

Inductive WatcherState := Attached | Detached | Deleted.

Record SharedState := {
  cancelled : bool;
  resolved : bool;
  promiseFinished : bool;
  targetDestroyed : bool;
  queueFailed : bool;
  results : option V;          (* the result added to the promise *)
  finished : bool;             (* [promise->finish()] was called *)
  finishedEvent : bool;        (* the finished signal of the watcher is to be delivered *)
  timer : bool;                (* the timeout timer is active *)
  target : TargetPc;
  targetAlive : bool;
  destroyedEvent : bool;       (* the queued destroyed signal of the target *)
  receiver : ReceiverPc;
  watcher : WatcherState;
  receiverDestroyed : bool;    (* the receiver was destroyed while it owned the watcher *)
  read : option V;             (* what [reader] returned, for the statements only *)
  completions : list (BoundedQueuedSnapshotStatus * option V);
}.

(** The state after the setup; [queued] is what [invokeMethod] returned. *)
Definition snapshot_init (queued : bool) : SharedState := {|
  cancelled := false; resolved := false; promiseFinished := false;
  targetDestroyed := false; queueFailed := false;
  results := None; finished := false; finishedEvent := false; timer := true;
  target := if queued then TQueued else TDone; targetAlive := true; destroyedEvent := false;
  receiver := if queued then RIdle else RQueueFailed;
  watcher := Attached; receiverDestroyed := false; read := None; completions := [];
|}.

Definition set_target (pc : TargetPc) (s : SharedState) : SharedState := {|
  cancelled := cancelled s; resolved := resolved s; promiseFinished := promiseFinished s;
  targetDestroyed := targetDestroyed s; queueFailed := queueFailed s;
  results := results s; finished := finished s; finishedEvent := finishedEvent s; timer := timer s;
  target := pc; targetAlive := targetAlive s; destroyedEvent := destroyedEvent s;
  receiver := receiver s; watcher := watcher s; receiverDestroyed := receiverDestroyed s;
  read := read s; completions := completions s;
|}.

Definition set_receiver (pc : ReceiverPc) (s : SharedState) : SharedState := {|
  cancelled := cancelled s; resolved := resolved s; promiseFinished := promiseFinished s;
  targetDestroyed := targetDestroyed s; queueFailed := queueFailed s;
  results := results s; finished := finished s; finishedEvent := finishedEvent s; timer := timer s;
  target := target s; targetAlive := targetAlive s; destroyedEvent := destroyedEvent s;
  receiver := pc; watcher := watcher s; receiverDestroyed := receiverDestroyed s;
  read := read s; completions := completions s;
|}.

Definition set_flags (c r t q : bool) (s : SharedState) : SharedState := {|
  cancelled := c; resolved := r; promiseFinished := promiseFinished s;
  targetDestroyed := t; queueFailed := q;
  results := results s; finished := finished s; finishedEvent := finishedEvent s; timer := timer s;
  target := target s; targetAlive := targetAlive s; destroyedEvent := destroyedEvent s;
  receiver := receiver s; watcher := watcher s; receiverDestroyed := receiverDestroyed s;
  read := read s; completions := completions s;
|}.

Definition set_events (fe tm de : bool) (s : SharedState) : SharedState := {|
  cancelled := cancelled s; resolved := resolved s; promiseFinished := promiseFinished s;
  targetDestroyed := targetDestroyed s; queueFailed := queueFailed s;
  results := results s; finished := finished s; finishedEvent := fe; timer := tm;
  target := target s; targetAlive := targetAlive s; destroyedEvent := de;
  receiver := receiver s; watcher := watcher s; receiverDestroyed := receiverDestroyed s;
  read := read s; completions := completions s;
|}.

(** [cancelled.store(true)]. *)
Definition cancel (s : SharedState) : SharedState :=
  set_flags true (resolved s) (targetDestroyed s) (queueFailed s) s.
Definition set_resolved (s : SharedState) : SharedState :=
  set_flags (cancelled s) true (targetDestroyed s) (queueFailed s) s.
Definition set_targetDestroyed (s : SharedState) : SharedState :=
  set_flags (cancelled s) (resolved s) true (queueFailed s) s.
Definition set_queueFailed (s : SharedState) : SharedState :=
  set_flags (cancelled s) (resolved s) (targetDestroyed s) true s.

Definition set_read (v : V) (s : SharedState) : SharedState := {|
  cancelled := cancelled s; resolved := resolved s; promiseFinished := promiseFinished s;
  targetDestroyed := targetDestroyed s; queueFailed := queueFailed s;
  results := results s; finished := finished s; finishedEvent := finishedEvent s; timer := timer s;
  target := target s; targetAlive := targetAlive s; destroyedEvent := destroyedEvent s;
  receiver := receiver s; watcher := watcher s; receiverDestroyed := receiverDestroyed s;
  read := Some v; completions := completions s;
|}.

(** The section of [finishPromise] under the mutex; [None] when another call
    was first.  The mutex keeps other calls out, so the exchange and the load
    of [cancelled] happen at one point. *)
Definition finishPromise (value : option V) (s : SharedState) : option SharedState :=
  if promiseFinished s then None
  else Some {|
    cancelled := cancelled s; resolved := resolved s; promiseFinished := true;
    targetDestroyed := targetDestroyed s; queueFailed := queueFailed s;
    results := match value with
               | Some v => if cancelled s then results s else Some v
               | None => results s
               end;
    finished := finished s; finishedEvent := finishedEvent s; timer := timer s;
    target := target s; targetAlive := targetAlive s; destroyedEvent := destroyedEvent s;
    receiver := receiver s; watcher := watcher s; receiverDestroyed := receiverDestroyed s;
    read := read s; completions := completions s;
  |}.

(** [promise->finish()]: the watcher is notified through its event queue. *)
Definition promise_finish (s : SharedState) : SharedState := {|
  cancelled := cancelled s; resolved := resolved s; promiseFinished := promiseFinished s;
  targetDestroyed := targetDestroyed s; queueFailed := queueFailed s;
  results := results s; finished := true;
  finishedEvent := if finished s then finishedEvent s else true; timer := timer s;
  target := target s; targetAlive := targetAlive s; destroyedEvent := destroyedEvent s;
  receiver := receiver s; watcher := watcher s; receiverDestroyed := receiverDestroyed s;
  read := read s; completions := completions s;
|}.

(** The end of [resolve]: the timer stops, the watcher is detached and
    scheduled for deletion, the completion runs. *)
Definition complete (status : BoundedQueuedSnapshotStatus) (value : option V) (s : SharedState) :
    SharedState := {|
  cancelled := cancelled s; resolved := resolved s; promiseFinished := promiseFinished s;
  targetDestroyed := targetDestroyed s; queueFailed := queueFailed s;
  results := results s; finished := finished s; finishedEvent := finishedEvent s; timer := false;
  target := target s; targetAlive := targetAlive s; destroyedEvent := destroyedEvent s;
  receiver := RIdle; watcher := Detached; receiverDestroyed := receiverDestroyed s;
  read := read s; completions := completions s ++ [(status, value)];
|}.

(** The watcher goes, and with it the timer and its connections. *)
Definition delete_watcher (byReceiver : bool) (s : SharedState) : SharedState := {|
  cancelled := cancelled s; resolved := resolved s; promiseFinished := promiseFinished s;
  targetDestroyed := targetDestroyed s; queueFailed := queueFailed s;
  results := results s; finished := finished s; finishedEvent := false; timer := false;
  target := target s; targetAlive := targetAlive s; destroyedEvent := false;
  receiver := RDestroyed; watcher := Deleted; receiverDestroyed := receiverDestroyed s || byReceiver;
  read := read s; completions := completions s;
|}.

(** The target is destroyed in its own thread, between events.  Its queued
    reader is removed, or finds no target. *)
Definition destroy_target (removed : bool) (s : SharedState) : SharedState := {|
  cancelled := cancelled s; resolved := resolved s; promiseFinished := promiseFinished s;
  targetDestroyed := targetDestroyed s; queueFailed := queueFailed s;
  results := results s; finished := finished s; finishedEvent := finishedEvent s; timer := timer s;
  target := match target s with TQueued => if removed then TDone else TQueued | pc => pc end;
  targetAlive := false;
  destroyedEvent := match watcher s with Deleted => false | _ => true end;
  receiver := receiver s; watcher := watcher s; receiverDestroyed := receiverDestroyed s;
  read := read s; completions := completions s;
|}.

(** ** Actions *)

Inductive Action :=
| TargetStart                 (* the queued reader is dequeued *)
| TargetReturn (v : V)        (* [reader] returns *)
| TargetCheck                 (* the second load of [cancelled] *)
| TargetFinish
| TargetNotify
| DestroyTarget (removed : bool)
| ReceiverStep                (* the running handler of the receiver thread *)
| DeliverFinished
| DeliverTimeout
| DeliverDestroyed
| DeleteLater                 (* the deferred deletion of the watcher *)
| DestroyReceiver.

(** The status the [finished] handler resolves with. *)
Definition finished_status (s : SharedState) : BoundedQueuedSnapshotStatus * option V :=
  if queueFailed s then (QueueFailed, None) else
  match targetDestroyed s, results s with
  | false, Some v => (Ready, Some v)
  | _, _ => (TargetUnavailable, None)
  end.

Definition timeout_status (s : SharedState) : BoundedQueuedSnapshotStatus :=
  if queueFailed s then QueueFailed
  else if targetDestroyed s then TargetUnavailable else Timeout.

Definition after_finish (k : AfterFinish) : ReceiverPc :=
  match k with ThenReturn => RIdle | ThenComplete status value => RComplete status value end.

Definition receiver_step (s : SharedState) : option SharedState :=
  match receiver s with
  | RIdle => None
  | RQueueFailed => Some (set_receiver (RFinish ThenReturn) (set_queueFailed s))
  | RResolve status value =>
      if resolved s then Some (set_receiver RIdle s)
      else Some (set_receiver (RCancel status value) (set_resolved s))
  | RCancel status value => Some (set_receiver (RFinish (ThenComplete status value)) (cancel s))
  | RDestroyed => Some (set_receiver RDestroyedExchange (cancel s))
  | RDestroyedExchange => Some (set_receiver (RFinish ThenReturn) (set_resolved s))
  | RFinish k =>
      match finishPromise None s with
      | None => Some (set_receiver (after_finish k) s)
      | Some s' => Some (set_receiver (RNotify k) s')
      end
  | RNotify k => Some (set_receiver (after_finish k) (promise_finish s))
  | RComplete status value => Some (complete status value s)
  end.

(** The event loop of the receiver delivers to a watcher that still exists. *)
Definition can_deliver (s : SharedState) : bool :=
  match receiver s, watcher s with RIdle, (Attached | Detached) => true | _, _ => false end.

Definition exec (a : Action) (s : SharedState) : option SharedState :=
  match a with
  | TargetStart =>
      match target s with
      | TQueued =>
          if cancelled s then Some (set_target (TFinish None) s)
          else if targetAlive s then Some (set_target TReading s)
          else Some (set_target (TFinish None) (set_targetDestroyed s))
      | _ => None
      end
  | TargetReturn v =>
      match target s with TReading => Some (set_target (TRead v) (set_read v s)) | _ => None end
  | TargetCheck =>
      match target s with
      | TRead v => Some (set_target (TFinish (if cancelled s then None else Some v)) s)
      | _ => None
      end
  | TargetFinish =>
      match target s with
      | TFinish value =>
          match finishPromise value s with
          | None => Some (set_target TDone s)
          | Some s' => Some (set_target TNotify s')
          end
      | _ => None
      end
  | TargetNotify =>
      match target s with TNotify => Some (set_target TDone (promise_finish s)) | _ => None end
  | DestroyTarget removed =>
      if targetAlive s then
        match target s with
        | TQueued | TDone => Some (destroy_target removed s)
        | _ => None
        end
      else None
  | ReceiverStep => receiver_step s
  | DeliverFinished =>
      if can_deliver s && finishedEvent s then
        let '(status, value) := finished_status s in
        Some (set_receiver (RResolve status value) (set_events false (timer s) (destroyedEvent s) s))
      else None
  | DeliverTimeout =>
      if can_deliver s && timer s then
        Some (set_receiver (RResolve (timeout_status s) None)
                (set_events (finishedEvent s) false (destroyedEvent s) s))
      else None
  | DeliverDestroyed =>
      if can_deliver s && destroyedEvent s then
        Some (set_receiver (RResolve TargetUnavailable None)
                (set_targetDestroyed (set_events (finishedEvent s) (timer s) false s)))
      else None
  | DeleteLater =>
      match receiver s, watcher s with
      | RIdle, Detached => Some (delete_watcher false s)
      | _, _ => None
      end
  | DestroyReceiver =>
      match receiver s, watcher s with
      | RIdle, Attached => Some (delete_watcher true s)
      | _, _ => None
      end
  end.

Fixpoint exec_all (l : list Action) (s : SharedState) : option SharedState :=
  match l with
  | [] => Some s
  | a :: l' => s' ← exec a s; exec_all l' s'
  end.

Inductive step (s s' : SharedState) : Prop :=
| step_exec a : exec a s = Some s' → step s s'.

(** The states of the runs that follow a setup. *)
Inductive reachable : SharedState → Prop :=
| reachable_init queued : reachable (snapshot_init queued)
| reachable_step s s' : reachable s → step s s' → reachable s'.

Lemma exec_all_reachable l s s' : reachable s → exec_all l s = Some s' → reachable s'.
Proof.
  revert s. induction l as [|a l IH]; intros s Hs H; simpl in H; [by simplify_eq|].
  destruct (exec a s) as [s1|] eqn:E; [|done]. apply (IH s1); [|done].
  eapply reachable_step; [done|by econstructor].
Qed.

(** ** Invariants *)

(** The receiver thread is between the exchange of [resolved] and the
    completion. *)
Definition resolving (s : SharedState) : bool :=
  match receiver s with
  | RCancel _ _ | RFinish (ThenComplete _ _) | RNotify (ThenComplete _ _) | RComplete _ _ => true
  | _ => false
  end.

(** The outcome the receiver thread carries. *)
Definition carried (s : SharedState) : option (BoundedQueuedSnapshotStatus * option V) :=
  match receiver s with
  | RResolve st v | RCancel st v | RComplete st v
  | RFinish (ThenComplete st v) | RNotify (ThenComplete st v) => Some (st, v)
  | _ => None
  end.

(** An outcome delivers exactly what the reader returned, and only as Ready. *)
Definition outcome_ok (s : SharedState) (o : BoundedQueuedSnapshotStatus * option V) : Prop :=
  match o with
  | (Ready, v) => is_Some v ∧ v = read s
  | (_, v) => v = None
  end.

Definition target_ok (s : SharedState) : Prop :=
  match target s with
  | TRead v | TFinish (Some v) => read s = Some v
  | TQueued | TReading => read s = None
  | _ => True
  end.

Record snapshot_inv (s : SharedState) : Prop := {
  inv_target : target_ok s;
  inv_results : ∀ v, results s = Some v → read s = Some v;
  inv_results_finished : is_Some (results s) → promiseFinished s = true;
  inv_carried : ∀ o, carried s = Some o → outcome_ok s o;
  inv_completions : Forall (outcome_ok s) (completions s);
  inv_resolving : resolving s = true → resolved s = true ∧ completions s = [] ∧ watcher s = Attached;
  inv_unresolved : resolved s = false → completions s = [] ∧ resolving s = false;
  inv_once : (length (completions s) ≤ 1)%nat;
  inv_attached : watcher s = Detached → completions s ≠ [];
  inv_deleted : watcher s = Deleted → receiverDestroyed s = true ∨ completions s ≠ [];
  inv_timer : resolved s = false → watcher s = Attached →
              timer s = true ∨ ∃ st v, receiver s = RResolve st v;
  inv_settled : resolved s = true → resolving s = false →
                receiverDestroyed s = true ∨ completions s ≠ [];
  inv_resolve : ∀ st v, receiver s = RResolve st v → watcher s ≠ Deleted;
  inv_destroyed : (receiver s = RDestroyed ∨ receiver s = RDestroyedExchange) → watcher s = Deleted;
}.

Lemma snapshot_inv_init queued : snapshot_inv (snapshot_init queued).
Proof. destruct queued; split; simpl; try done; try naive_solver; auto. Qed.

Lemma can_deliver_idle s : can_deliver s = true → receiver s = RIdle ∧ watcher s ≠ Deleted.
Proof. unfold can_deliver. by destruct (receiver s), (watcher s). Qed.

Lemma finished_status_ok s st v :
  (∀ x, results s = Some x → read s = Some x) → finished_status s = (st, v) → outcome_ok s (st, v).
Proof.
  intros Hr H. unfold finished_status in H. destruct (queueFailed s); [by simplify_eq|].
  destruct (targetDestroyed s); [by simplify_eq|].
  destruct (results s) as [x|]; simplify_eq; [|done]. split; [done|]. symmetry. auto.
Qed.

Lemma timeout_status_ok s : outcome_ok s (timeout_status s, None).
Proof. unfold timeout_status. by destruct (queueFailed s), (targetDestroyed s). Qed.

(** The cases of an executed action; [H] says what it returned. *)
Ltac exec_cases H :=
  unfold exec, receiver_step, finishPromise in H;
  repeat (break_in H; try discriminate H); injection H as <-;
  repeat match goal with E : can_deliver _ && _ = true |- _ =>
    apply andb_true_iff in E; let E1 := fresh "Hidle" in destruct E as [E1 E];
    apply can_deliver_idle in E1 as [? ?] end.

(** Once returned, the value of the reader stays. *)
Lemma read_stable a s s' :
  snapshot_inv s → exec a s = Some s' → ∀ v, read s = Some v → read s' = Some v.
Proof.
  intros [Ht _ _ _ _ _ _ _ _ _ _ _ _ _] H v Hv. unfold target_ok in Ht.
  destruct a; exec_cases H; simpl; try done. congruence.
Qed.

Lemma outcome_ok_stable a s s' o :
  snapshot_inv s → exec a s = Some s' → outcome_ok s o → outcome_ok s' o.
Proof.
  intros Hs H Ho. pose proof (read_stable a s s' Hs H) as Hr. destruct o as [[] v]; simpl in *; try done.
  destruct Ho as [[x ->] Hx]. split; [done|]. symmetry. apply Hr. done.
Qed.

Lemma snapshot_inv_step s s' : snapshot_inv s → step s s' → snapshot_inv s'.
Proof.
  intros Hs [a H]. pose proof (outcome_ok_stable a s s') as Ho.
  assert (Forall (outcome_ok s') (completions s)) as Hc.
  { eapply Forall_impl; [apply Hs|]. intros o. by apply Ho. }
  assert (∀ o, carried s = Some o → outcome_ok s' o) as Hcar.
  { intros o Hc'. apply Ho; [done..|]. by apply Hs. }
  clear Ho. destruct Hs as [H1 H2 H3 _ _ H6 H7 H8 H9 H10 H11 H12 H13 H14].
  destruct a; exec_cases H; try match goal with k : AfterFinish |- _ => destruct k end;
    unfold target_ok, resolving, carried, after_finish in *;
    repeat match goal with E : target _ = _ |- _ => rewrite E in * end;
    repeat match goal with E : receiver _ = _ |- _ => rewrite E in * end;
    try (destruct H6 as (H6 & H6' & H6''); [done|]; try rewrite H6' in * );
    split; unfold target_ok, resolving, carried; simpl;
    try solve [done | congruence | auto | intros; congruence | intros; eauto 3 | intros; simplify_eq; eauto 4
    | intros [?|?]; congruence
    | intros; destruct H11 as [?|(?&?&?)]; [congruence|congruence|by left|congruence]
    | intros ? [= <-]; first [by apply (finished_status_ok s) | apply (timeout_status_ok s) | done]
    | intros Hr; destruct H7 as [? ?]; [done|]; destruct (watcher s) eqn:?; naive_solver
    | intros; rewrite orb_true_r; by left
    | intros v0 Hv0; apply H2 in Hv0; congruence
    | destruct (target s) as [| | |[]| |], removed; done
    | rewrite H6'; naive_solver
    | destruct (completions s); naive_solver ].
Qed.

Lemma reachable_inv s : reachable s → snapshot_inv s.
Proof. induction 1; [apply snapshot_inv_init|by eapply snapshot_inv_step]. Qed.

(** A cancelled promise gets no result. *)
Lemma cancelled_keeps_results a s s' :
  exec a s = Some s' → cancelled s = true → results s' = results s ∧ cancelled s' = true.
Proof.
  intros H Hc. destruct a; exec_cases H; simpl; try done; rewrite ?Hc in *; try done; by case_match.
Qed.

(** ** Every run ends *)

Definition b2n (n : nat) (b : bool) : nat := if b then n else 0.

Definition target_rank (pc : TargetPc) : nat :=
  match pc with TQueued => 5 | TReading => 4 | TRead _ => 3 | TFinish _ => 2 | TNotify => 1 | TDone => 0 end.

Definition receiver_rank (pc : ReceiverPc) : nat :=
  match pc with
  | RIdle => 0 | RQueueFailed => 5 | RResolve _ _ => 6 | RCancel _ _ => 5
  | RDestroyed => 6 | RDestroyedExchange => 5
  | RFinish _ => 4 | RNotify _ => 3 | RComplete _ _ => 2
  end.

(** What is left to happen. *)
Definition remaining (s : SharedState) : nat :=
  target_rank (target s) + receiver_rank (receiver s)
  + b2n 7 (timer s) + b2n 7 (finishedEvent s) + b2n 7 (destroyedEvent s)
  + b2n 8 (negb (finished s)) + b2n 8 (targetAlive s)
  + match watcher s with Attached => 14 | Detached => 7 | Deleted => 0 end.

Lemma remaining_decreases s s' : snapshot_inv s → step s s' → (remaining s' < remaining s)%nat.
Proof.
  intros Hs [a H]. unfold remaining.
  assert (∀ st v, receiver s = RComplete st v → watcher s = Attached) as Hw.
  { intros st v E. apply (inv_resolving s Hs). unfold resolving. by rewrite E. }
  destruct a; exec_cases H; try match goal with k : AfterFinish |- _ => destruct k end; simpl;
    try rewrite (Hw _ _ eq_refl);
    repeat match goal with
    | E : target _ = _ |- _ => rewrite E; clear E
    | E : receiver _ = _ |- _ => rewrite E; clear E
    | E : watcher _ = _ |- _ => rewrite E; clear E
    | E : targetAlive _ = _ |- _ => rewrite E; clear E
    | E : timer _ = true |- _ => rewrite E; clear E
    | E : finishedEvent _ = true |- _ => rewrite E; clear E
    | E : destroyedEvent _ = true |- _ => rewrite E; clear E
    end; destruct (finished s); simpl; try lia; try destruct removed; destruct (watcher s); simpl; lia.
Qed.

(** ** What the caller sees *)

(** The request from outside: it waits, has been answered with these completions,
    or is abandoned with its receiver. *)
Inductive SnapshotView :=
| Waiting
| Answered (answers : list (BoundedQueuedSnapshotStatus * option V))
| Abandoned.

(** The moves the caller may observe, given what the reader has returned: to one
    answer, and from an answer to nothing else. *)
Inductive view_step (returned : option V) : SnapshotView → SnapshotView → Prop :=
| view_ready v : returned = Some v → view_step returned Waiting (Answered [(Ready, Some v)])
| view_failed st : st ≠ Ready → view_step returned Waiting (Answered [(st, None)])
| view_abandoned : view_step returned Waiting Abandoned.

Definition view (s : SharedState) : SnapshotView :=
  match completions s with
  | _ :: _ => Answered (completions s)
  | [] => if receiverDestroyed s then Abandoned else Waiting
  end.

Lemma destroyed_deleted s : reachable s → receiverDestroyed s = true → watcher s = Deleted.
Proof.
  induction 1 as [queued|s s' Hr IH [a H]]; [by destruct queued|].
  pose proof (reachable_inv s Hr) as Hinv.
  assert (∀ st v, receiver s = RComplete st v → watcher s = Attached) as Hw.
  { intros st v E. apply (inv_resolving s Hinv). unfold resolving. by rewrite E. }
  destruct a; exec_cases H; try match goal with k : AfterFinish |- _ => destruct k end; simpl; try done;
    intros Hd; try (specialize (IH Hd)); try congruence; rewrite (Hw _ _ eq_refl) in IH; done.
Qed.

Lemma step_completions s s' :
  reachable s → step s s' →
  completions s' = completions s
  ∨ receiverDestroyed s = false ∧ completions s = []
    ∧ ∃ o, completions s' = [o] ∧ outcome_ok s' o.
Proof.
  intros Hr Hst. pose proof (reachable_inv s Hr) as Hinv.
  pose proof (snapshot_inv_step s s' Hinv Hst) as Hinv'. destruct Hst as [a H].
  destruct (receiver s) eqn:Er; destruct a; try (left; exec_cases H; done);
    try (left; unfold exec, receiver_step in H; rewrite Er in H; exec_cases H; done).
  unfold exec, receiver_step in H. rewrite Er in H. injection H as <-.
  destruct (inv_resolving s Hinv) as (_ & Hc & Hw); [unfold resolving; by rewrite Er|].
  right. split.
  { destruct (receiverDestroyed s) eqn:Ed; [|done]. by rewrite (destroyed_deleted s Hr Ed) in Hw. }
  split; [done|]. exists (status, value). pose proof (inv_completions _ Hinv') as Hf. simpl in *. rewrite Hc in *.
  split; [done|]. by inversion Hf.
Qed.

(** The receiver thread needs nothing from the target. *)
Lemma receiver_progress s :
  snapshot_inv s → receiverDestroyed s = false → completions s = [] →
  ∃ a s', (a = ReceiverStep ∨ a = DeliverTimeout) ∧ exec a s = Some s'
          ∧ receiverDestroyed s' = false.
Proof.
  intros Hinv Hd Hc. destruct (receiver s) eqn:Er.
  2-9: exists ReceiverStep; simpl; unfold receiver_step, finishPromise; rewrite Er;
       repeat (case_match; simplify_eq); (eexists; split; [by left|split; [reflexivity|exact Hd]]).
  exists DeliverTimeout. eexists. split; [by right|].
  assert (resolved s = false) as Hres.
  { destruct (resolved s) eqn:E; [|done]. destruct (inv_settled s Hinv E) as [?|?]; [|congruence|done].
    unfold resolving. by rewrite Er. }
  assert (watcher s = Attached) as Hw.
  { destruct (watcher s) eqn:E; [done| |]; [by destruct (inv_attached s Hinv E)|].
    destruct (inv_deleted s Hinv E); congruence. }
  destruct (inv_timer s Hinv Hres Hw) as [Ht|(st & v & E)]; [|congruence].
  simpl. unfold can_deliver. rewrite Er, Hw, Ht. done.
Qed.

(** ** The properties of snapshots *)

(** C8. Every interleaving refines the view of the caller, which holds all the
    completions that were called: a request waits until it is answered, with
    one completion, as Ready with precisely the value the reader returned or
    with a failure and no value, or is abandoned because its receiver was
    destroyed; then nothing changes any more, so that no completion is called a
    second time or after the receiver is gone. *)
Theorem snapshot_refines_view s s' :
  reachable s → step s s' →
  (length (completions s') ≤ 1)%nat ∧ (view s' = view s ∨ view_step (read s') (view s) (view s')).
Proof.
  intros Hr Hst. split; [apply inv_once, reachable_inv; by eapply reachable_step|]. unfold view.
  destruct (step_completions s s' Hr Hst) as [->|(Hd & Hc & o & Ho & Hok)].
  - destruct (completions s) as [|o l] eqn:Hc; [|by left].
    destruct (receiverDestroyed s') eqn:E'.
    + destruct (receiverDestroyed s); [by left|]. right. constructor.
    + destruct (receiverDestroyed s) eqn:E; [|by left].
      destruct Hst as [a H]. destruct a; exec_cases H; simpl in *; try congruence; rewrite E in E'; done.
  - right. rewrite Hc, Ho, Hd. destruct o as [[] v]; simpl in Hok.
    2-4: subst v; by apply view_failed.
    destruct Hok as [[x ->] Hx]. by constructor.
Qed.

(** C35. No run of the two threads is longer than 49 actions, and however the
    target behaves the receiver thread alone, with its timeout, brings every
    request whose receiver lives to its one completion. *)
Theorem snapshot_always_completes queued l s :
  exec_all l (snapshot_init queued) = Some s →
  (length l ≤ 49)%nat
  ∧ (receiverDestroyed s = false →
     ∃ l' s', Forall (λ a, a = ReceiverStep ∨ a = DeliverTimeout) l'
              ∧ exec_all l' s = Some s' ∧ length (completions s') = 1%nat).
Proof.
  intros H. assert (∀ l s1 s2, reachable s1 → exec_all l s1 = Some s2 →
    (length l + remaining s2 ≤ remaining s1)%nat) as Hlen.
  { clear. induction l as [|a l IH]; intros s1 s2 Hr H; simpl in H; [simplify_eq; simpl; lia|].
    destruct (exec a s1) as [s1'|] eqn:E; [|done]. assert (step s1 s1') as Hst by (by econstructor).
    pose proof (remaining_decreases s1 s1' (reachable_inv s1 Hr) Hst).
    specialize (IH s1' s2 (reachable_step s1 s1' Hr Hst) H). simpl. lia. }
  pose proof (Hlen l _ _ (reachable_init queued) H) as Hl.
  pose proof (exec_all_reachable l _ _ (reachable_init queued) H) as Hr. clear Hlen H. split.
  { assert (remaining (snapshot_init queued) ≤ 49)%nat by (destruct queued; vm_compute; lia). lia. }
  clear Hl. intros Hd. remember (remaining s) as n eqn:Hn. revert s Hn Hr Hd.
  induction (lt_wf n) as [n _ IH]. intros s -> Hr Hd. pose proof (reachable_inv s Hr) as Hinv.
  destruct (completions s) as [|o c] eqn:Hc.
  - destruct (receiver_progress s Hinv Hd Hc) as (a & s1 & Ha & E & Hd1).
    assert (step s s1) as Hst by (by econstructor).
    destruct (IH (remaining s1) (remaining_decreases s s1 Hinv Hst) s1 eq_refl) as (l' & s' & H1 & H2 & H3);
      [by eapply reachable_step|done|].
    exists (a :: l'), s'. split_and!; [by constructor| |done]. simpl. by rewrite E.
  - exists [], s. split_and!; [constructor|done|]. pose proof (inv_once s Hinv) as Ho. rewrite Hc in *. simpl in *. lia.
Qed.

(** A result that arrives after the request was cancelled is discarded:
    from then on no action adds a result to the promise. *)
Theorem snapshot_late_value_discarded l s s' :
  cancelled s = true → exec_all l s = Some s' → results s' = results s.
Proof.
  revert s. induction l as [|a l IH]; intros s Hc H; simpl in H; [by simplify_eq|].
  destruct (exec a s) as [s1|] eqn:E; [|done].
  destruct (cancelled_keeps_results a s s1 E Hc) as [<- Hc1]. by apply IH.
Qed.
End snapshot.

(** ** Concrete runs *)

Module SnapshotExamples.

Definition init : @SharedState nat := snapshot_init true.

(** The reader answers in time. *)
Definition answered : list (@Action nat) :=
  [TargetStart; TargetReturn 7; TargetCheck; TargetFinish; TargetNotify; DeliverFinished;
   ReceiverStep; ReceiverStep; ReceiverStep; ReceiverStep; DeleteLater].

(** The timeout fires while the reader runs, and the reader returns later. *)
Definition late : list (@Action nat) :=
  [TargetStart; DeliverTimeout; ReceiverStep; ReceiverStep; TargetReturn 7; TargetCheck; TargetFinish;
   TargetNotify; ReceiverStep; ReceiverStep].

Example answered_once :
  completions <$> exec_all answered init = Some [(Ready, Some 7)].
Proof. vm_compute. done. Qed.

Example late_timeout :
  (λ s, (completions s, results s)) <$> exec_all late init = Some ([(Timeout, None)], None).
Proof. vm_compute. done. Qed.

Definition before_completion : @SharedState nat :=
  default init (exec_all (take 9 answered) init).

Lemma snapshot_refines_view_witness :
  view_step (Some 7) (view before_completion) (view (default init (exec ReceiverStep before_completion))).
Proof.
  destruct (snapshot_refines_view before_completion (default init (exec ReceiverStep before_completion))) as [_ [H|H]].
  - apply (exec_all_reachable (take 9 answered) init); [apply reachable_init|vm_compute; reflexivity].
  - apply (step_exec _ _ ReceiverStep). vm_compute. reflexivity.
  - vm_compute in H. discriminate H.
  - exact H.
Defined.

Lemma snapshot_always_completes_witness :
  ∃ l' s', exec_all l' (default init (exec_all [TargetStart] init)) = Some s' ∧ length (completions s') = 1%nat.
Proof.
  destruct (snapshot_always_completes true [TargetStart] (default init (exec_all [TargetStart] init))) as [_ H].
  - vm_compute. reflexivity.
  - destruct H as (l' & s' & _ & H1 & H2); [vm_compute; reflexivity|]. exists l', s'. split; [exact H1|exact H2].
Defined.

Lemma snapshot_late_value_discarded_witness :
  results (default init (exec_all late init)) = None.
Proof.
  apply (snapshot_late_value_discarded (drop 4 late) (default init (exec_all (take 4 late) init))).
  - vm_compute. reflexivity.
  - vm_compute. reflexivity.
Defined.
End SnapshotExamples.
