(* ===== verification/SessionRestore.v ===== *)
(** * Restoring a native session

    Model of client/core/utils/nativeSessionRestore.h: the ticket that orders
    observed native sessions against a fresh start (two atomics accessed by
    several threads), the reader of a session snapshot, the comparison of a
    snapshot with a configuration, and the pending request a snapshot may
    answer once. *)

From stdpp Require Import gmap.
From S2P Require Import Prelude Text Json QtInterface QtModel JsonText OperatorCommand.
#[local] Open Scope Z_scope.

(** ** Ingress tickets *)

Module Ingress.

(** [quint64]. *)
Definition u64 (x : Z) : Z := x mod 2 ^ 64.

(** A call of [observe]. *)
Inductive Call :=
| Start
| Loaded (ticket : Z)                  (* [m_version] loaded *)
| Loop (ticket previous : Z)           (* at the loop condition *)
| Returned (ticket : Z).

Record Ingress := {
  m_version : Z;
  m_observation : Z;
  calls : gmap nat Call;               (* the calls of [observe] in progress or returned *)
}.

Definition init : Ingress := {| m_version := 1; m_observation := 0; calls := ∅ |}.

Definition observed (s : Ingress) (ticket : Z) : bool :=
  negb (ticket =? 0) && (ticket =? m_observation s) && (ticket =? m_version s).
Definition observedNow (s : Ingress) : bool := observed s (m_version s).

Inductive Action :=
| Observe (i : nat)                    (* a thread enters [observe] *)
| Step (i : nat) (spurious : bool)     (* its next access; the weak exchange may fail *)
| Invalidate.

Definition set_call (i : nat) (c : Call) (s : Ingress) : Ingress :=
  {| m_version := m_version s; m_observation := m_observation s; calls := <[i := c]> (calls s) |}.

Definition exec (a : Action) (s : Ingress) : option Ingress :=
  match a with
  | Observe i => match calls s !! i with None => Some (set_call i Start s) | Some _ => None end
  | Step i spurious =>
      match calls s !! i with
      | Some Start => Some (set_call i (Loaded (m_version s)) s)
      | Some (Loaded ticket) => Some (set_call i (Loop ticket (m_observation s)) s)
      | Some (Loop ticket previous) =>
          if previous <? ticket then
            if (m_observation s =? previous) && negb spurious
            then Some {| m_version := m_version s; m_observation := ticket;
                         calls := <[i := Returned ticket]> (calls s) |}
            else Some (set_call i (Loop ticket (m_observation s)) s)
          else Some (set_call i (Returned ticket) s)
      | _ => None
      end
  | Invalidate =>
      Some {| m_version := u64 (m_version s + 1); m_observation := m_observation s; calls := calls s |}
  end.

Fixpoint exec_all (l : list Action) (s : Ingress) : option Ingress :=
  match l with
  | [] => Some s
  | a :: l' => s' ← exec a s; exec_all l' s'
  end.

(** The number of [invalidate] calls of a run. *)
Fixpoint invalidations (l : list Action) : Z :=
  match l with
  | [] => 0
  | Invalidate :: l' => 1 + invalidations l'
  | _ :: l' => invalidations l'
  end.

(** The calls carry tickets of past or present versions, and a call that has
    returned is covered by the observation. *)
Definition call_ok (s : Ingress) (c : Call) : Prop :=
  match c with
  | Start => True
  | Loaded t => 1 <= t <= m_version s
  | Loop t p => 1 <= t <= m_version s ∧ 0 <= p <= m_observation s
  | Returned t => 1 <= t <= m_version s ∧ t <= m_observation s
  end.

Record ingress_inv (n : Z) (s : Ingress) : Prop := {
  ingress_version : m_version s = 1 + n;
  ingress_observation : 0 <= m_observation s <= m_version s;
  ingress_calls : ∀ i c, calls s !! i = Some c → call_ok s c;
  ingress_source : m_observation s = 0 ∨ ∃ i, calls s !! i = Some (Returned (m_observation s));
}.

Lemma ingress_inv_init : ingress_inv 0 init.
Proof. split; simpl; [done|lia|by intros ? ? ?%lookup_empty_Some|by left]. Qed.

Definition same_words (s s' : Ingress) : Prop :=
  m_version s = m_version s' ∧ m_observation s = m_observation s'.

Lemma call_ok_mono s s' c :
  m_version s <= m_version s' → m_observation s <= m_observation s' → call_ok s c → call_ok s' c.
Proof. destruct c; simpl; lia. Qed.

Lemma set_call_inv n i c s :
  ingress_inv n s → call_ok s c → (∀ t, calls s !! i ≠ Some (Returned t)) → ingress_inv n (set_call i c s).
Proof.
  intros [H1 H2 H3 H4] Hc Hi. split; simpl; [done|done| |].
  - intros j d. destruct (decide (i = j)) as [->|]; simpl_map; [|apply H3]. by intros [= <-].
  - destruct H4 as [?|[j Hj]]; [by left|]. right. exists j. destruct (decide (i = j)) as [->|]; simpl_map; [|done].
    by destruct (Hi (m_observation s)).
Qed.

Lemma exec_inv a n s s' :
  ingress_inv n s → 0 <= n → n + invalidations [a] < 2 ^ 64 - 1 → exec a s = Some s' →
  ingress_inv (n + invalidations [a]) s'
  ∧ m_observation s <= m_observation s' ∧ m_version s <= m_version s'
  ∧ ∀ i t, calls s !! i = Some (Returned t) → calls s' !! i = Some (Returned t).
Proof.
  intros Hs Hn0 Hn H. pose proof Hs as [H1 H2 H3 H4]. destruct a as [i|i sp|]; simpl in H, Hn |- *.
  - rewrite Z.add_0_r. destruct (calls s !! i) eqn:E; [done|]. simplify_eq. split_and!.
    + apply set_call_inv; [done|done|congruence].
    + simpl; lia.
    + simpl; lia.
    + intros j t Hj. simpl. rewrite lookup_insert_ne; [done|congruence].
  - rewrite Z.add_0_r. destruct (calls s !! i) as [[|t|t p|t]|] eqn:E; simplify_eq.
    + split_and!; [apply set_call_inv; [done|simpl; lia|congruence]|simpl; lia|simpl; lia|].
      intros j u Hj. simpl. rewrite lookup_insert_ne; [done|congruence].
    + pose proof (H3 _ _ E) as Hc. simpl in Hc.
      split_and!; [apply set_call_inv; [done|simpl; lia|congruence]|simpl; lia|simpl; lia|].
      intros j u Hj. simpl. rewrite lookup_insert_ne; [done|congruence].
    + pose proof (H3 _ _ E) as [Hc1 Hc2].
      assert (∀ j u, calls s !! j = Some (Returned u) → j ≠ i) as Hne by congruence.
      destruct (p <? t) eqn:El; [destruct ((m_observation s =? p) && negb sp) eqn:Ec|]; simplify_eq; bprop.
      * split_and!; simpl; [|lia|lia|].
        -- split; simpl; [lia|lia| |].
           ++ intros j d. destruct (decide (i = j)) as [->|]; simpl_map.
              ** intros [= <-]. simpl. lia.
              ** intros Hj. apply (call_ok_mono s); simpl; [lia|lia|by eapply H3].
           ++ right. exists i. by simpl_map.
        -- intros j u Hj. rewrite lookup_insert_ne; [done|]. intros <-. by apply (Hne i u).
      * split_and!; [apply set_call_inv; [done|simpl; lia|congruence]|simpl; lia|simpl; lia|].
        intros j u Hj. simpl. rewrite lookup_insert_ne; [done|congruence].
      * split_and!; [apply set_call_inv; [done|simpl; lia|congruence]|simpl; lia|simpl; lia|].
        intros j u Hj. simpl. rewrite lookup_insert_ne; [done|congruence].
  - simplify_eq. simpl. assert (u64 (m_version s + 1) = m_version s + 1) as Hu
      by (unfold u64; apply Z.mod_small; lia).
    rewrite Hu. split_and!; [|lia|lia|done].
    split; simpl; rewrite ?Hu; [lia|lia| |done].
    intros i c Hc. apply (call_ok_mono s); simpl; [lia|lia|by eapply H3].
Qed.

Lemma exec_all_inv l n s s' :
  ingress_inv n s → 0 <= n → n + invalidations l < 2 ^ 64 - 1 → exec_all l s = Some s' →
  ingress_inv (n + invalidations l) s'
  ∧ m_observation s <= m_observation s' ∧ m_version s <= m_version s'
  ∧ ∀ i t, calls s !! i = Some (Returned t) → calls s' !! i = Some (Returned t).
Proof.
  assert (∀ l, 0 <= invalidations l) as Hpos.
  { clear. induction l as [|[]]; simpl; lia. }
  revert n s. induction l as [|a l IH]; intros n s Hs Hn0 Hn H; simpl in H.
  { simplify_eq. simpl. rewrite Z.add_0_r. split_and!; [done|lia|lia|done]. }
  destruct (exec a s) as [s1|] eqn:E; [|done].
  assert (invalidations (a :: l) = invalidations [a] + invalidations l) as Hsum by (destruct a; simpl; lia).
  pose proof (Hpos l) as Hl. pose proof (Hpos [a]) as Ha. rewrite Hsum in *.
  destruct (exec_inv a n s s1 Hs Hn0 ltac:(lia) E) as (K1 & K2 & K3 & K4).
  destruct (IH (n + invalidations [a]) s1 K1 ltac:(lia) ltac:(lia) H) as (L1 & L2 & L3 & L4).
  rewrite Z.add_assoc. split_and!; [done|lia|lia|]. auto.
Qed.

(** However calls of observe interleave with invalidations, a ticket is
    reported as observed exactly when it is the current version and some
    observation of it has completed: an observation that has returned is never
    lost to a concurrent older one, and an invalidation withdraws all earlier
    tickets. *)
Theorem ingress_observed_exact l s ticket :
  exec_all l init = Some s → invalidations l < 2 ^ 64 - 1 →
  observed s ticket = true ↔
    ticket = m_version s ∧ ∃ i, calls s !! i = Some (Returned ticket).
Proof.
  intros H Hn. destruct (exec_all_inv l 0 init s ingress_inv_init ltac:(lia) ltac:(lia) H) as ([H1 H2 H3 H4] & _).
  assert (0 <= invalidations l) by (clear; induction l as [|[]]; simpl; lia).
  unfold observed. rewrite !andb_true_iff, negb_true_iff, Z.eqb_neq, !Z.eqb_eq. split.
  - intros [[Hz Ho] Hv]. split; [done|]. destruct H4 as [?|[i Hi]]; [lia|]. exists i. by rewrite Ho.
  - intros [-> [i Hi]]. apply H3 in Hi as [Hi1 Hi2]. lia.
Qed.

(** Two overlapping observations, one of a version that was withdrawn. *)
Definition overlapping : list Action :=
  [Observe 0; Step 0 false; Invalidate; Observe 1; Step 1 false; Step 1 false; Step 1 false;
   Step 0 false; Step 0 false].

Lemma ingress_observed_exact_witness :
  observed (default init (exec_all overlapping init)) 2 = true
  ∧ observed (default init (exec_all overlapping init)) 1 = false.
Proof.
  split.
  - apply (ingress_observed_exact overlapping); [vm_compute; reflexivity|vm_compute; reflexivity|].
    split; [vm_compute; reflexivity|]. exists 1%nat. vm_compute. reflexivity.
  - vm_compute. reflexivity.
Defined.

End Ingress.

(** ** Identifiers *)

(** What the reader asks of Qt beyond the shared interfaces. *)
Class QtSession := {
  q_toUInt : text → option Z;          (* QString::toUInt(&ok) *)
  q_toUpper : text → text;             (* QString::toUpper *)
  utf8_decode : text → option text;    (* QStringDecoder(Utf8); None on an error *)
  base64_decode : text → text;         (* fromBase64(s.toLatin1(), AbortOnBase64DecodingErrors) *)
  base64_encode : text → text;         (* QByteArray::toBase64 *)
}.

Class QtSessionLaws `(Q : QtText) `(D : QtData) `(S : QtSession) : Prop := {
  q_toUInt_number n : 0 <= n < 2 ^ 32 → q_toUInt (number n) = Some n;
  q_toUInt_range s n : q_toUInt s = Some n → 0 <= n < 2 ^ 32;
  base64_decode_encode b : Forall is_byte b → base64_decode (base64_encode b) = b;
  base64_decode_bytes s : Forall is_byte (base64_decode s);
  (* ASCII text decodes to itself, and a JSON string of plain ASCII to its characters *)
  utf8_decode_ascii s : Forall (λ c, 0 <= c < 128) s → utf8_decode s = Some s;
  json_parse_plain s :
    Forall (λ c, 32 <= c < 127 ∧ c ≠ 34 ∧ c ≠ 92) s →
    json_parse ([91; 34] ++ s ++ [34; 93]) = Some (JArray [JString s]);
}.

Section session.
Context `{QtText} `{QtData} `{QtSession}.

(** [{n}] lower-case hexadecimal digits at the head; the rest. *)
Definition hex_run (n : nat) (s : text) : option text :=
  if (n <=? length s)%nat && forallb is_lower_hex (take n s) then Some (drop n s) else None.

(** The pattern [8-4-4-4-12]; [size() == 36] keeps a final newline out. *)
Definition uuid (s : text) : bool :=
  (tsize s =? 36)
  && match hex_run 8 s with
     | Some (45 :: s) =>
         match hex_run 4 s with
         | Some (45 :: s) =>
             match hex_run 4 s with
             | Some (45 :: s) =>
                 match hex_run 4 s with
                 | Some (45 :: s) =>
                     match hex_run 12 s with
                     | Some s => is_empty s || text_eqb s [10]
                     | None => false
                     end
                 | _ => false
                 end
             | _ => false
             end
         | _ => false
         end
     | _ => false
     end.

Definition decimal (s : text) : bool :=
  match s with
  | [] => false
  | c :: _ =>
      if (tsize s >? 19) || (c <? 49) || (c >? 57) then false
      else if negb (forallb (λ c, (48 <=? c) && (c <=? 57)) s) then false
      else match q_toULongLong s with
           | Some n => (n >? 0) && (n <=? 2 ^ 63 - 1)
           | None => false
           end
  end.

Definition ipv4_part (part : text) : bool :=
  match q_toUInt part with
  | Some n => (n <=? 255) && text_eqb (number n) part
  | None => false
  end.

Definition ipv4 (s : text) : bool :=
  let parts := split_char 46 s in
  (length parts =? 4)%nat && forallb ipv4_part parts.

Definition peer (s : text) : bool :=
  let b := base64_decode s in (tsize b =? 32) && text_eqb (base64_encode b) s.

Definition stringValue (key : text) (o : jobject) : text := to_string [] (jvalue key o).

Definition identityKeys : list text :=
  [lit "serviceInstanceId"; lit "serviceActivationId"; lit "connectionNonce"].

Definition identity (o : jobject) : bool :=
  (length o =? 3)%nat && forallb (λ k, uuid (stringValue k o)) identityKeys.

Definition serverId (s : text) : bool :=
  negb (is_empty s || (tsize (utf8 s) >? 256)) && negb (existsb (λ c, c <? 32) s).

(** The empty object when the identity is not complete. *)
Definition boundIdentity (o : jobject) : jobject :=
  let result := foldl (λ r k, jinsert k (jvalue k o) r) [] identityKeys in
  if identity result then result else [].

(** ** The snapshot reader *)

(** The surrogates of a decoded string are paired. *)
Fixpoint surrogates_paired (s : text) : bool :=
  match s with
  | [] => true
  | c :: s' =>
      if (0xD800 <=? c) && (c <=? 0xDBFF) then
        match s' with
        | d :: s'' => (0xDC00 <=? d) && (d <=? 0xDFFF) && surrogates_paired s''
        | [] => false
        end
      else if (0xDC00 <=? c) && (c <=? 0xDFFF) then false
      else surrogates_paired s'
  end.

(** The lambda [string]; a null string is [None]. *)
Definition snapshotString (s : text) : option (text * text) :=
  match s with
  | 34 :: s' =>
      match scanString false s' with
      | Some (body, rest) =>
          match json_parse ([91] ++ (34 :: body) ++ [93]) with
          | Some (JArray [JString value]) =>
              if contains_char 0 value || negb (surrogates_paired value) then None
              else Some (value, rest)
          | _ => None
          end
      | None => None
      end
  | _ => None
  end.

Definition ws (s : text) : text := drop_while jsonSpace s.

(** A member of the object after its key. *)
Definition snapshotMember (key : text) (s : text) : option (json * text) :=
  if text_eqb key (lit "schema")
  then s' ← expectChar 49 s; Some (JDouble (DInt 1), s')
  else '(value, s') ← snapshotString s; Some (JString value, s').

(** The loop; each round reads a key, which takes at least two bytes. *)
Fixpoint snapshotMembers (fuel : nat) (s : text) (keys : list text) (result : jobject) :
    option (list text * jobject * text) :=
  match fuel with
  | O => None
  | S fuel' =>
      '(key, s) ← snapshotString (ws s);
      if is_empty key || bool_decide (key ∈ keys) then None else
      s ← expectChar 58 (ws s);
      '(value, s) ← snapshotMember key (ws s);
      let result := jinsert key value result in
      match ws s with
      | 125 :: s => Some (keys ++ [key], result, s)
      | 44 :: s => snapshotMembers fuel' s (keys ++ [key]) result
      | _ => None
      end
  end.

Definition expectedKeys : list text :=
  [lit "schema"; lit "requestId"; lit "bindingGeneration"; lit "state"; lit "serverId"; lit "protocol";
   lit "serviceInstanceId"; lit "serviceActivationId"; lit "connectionNonce"; lit "peerPublicKey";
   lit "deviceIpv4Address"; lit "nativeGeneration"].

(** [keys != expected] on sets. *)
Definition same_keys (keys : list text) : bool :=
  forallb (λ k, bool_decide (k ∈ expectedKeys)) keys
  && forallb (λ k, bool_decide (k ∈ keys)) expectedKeys.

(** The checks on the object that was read. *)
Definition snapshotValid (result : jobject) : bool :=
  (to_int 0 (jvalue (lit "schema") result) =? 1)
  && json_eqb (jvalue (lit "state") result) (JString (lit "CONNECTED"))
  && uuid (stringValue (lit "requestId") result)
  && decimal (stringValue (lit "bindingGeneration") result)
  && decimal (stringValue (lit "nativeGeneration") result)
  && negb (match boundIdentity result with [] => true | _ => false end)
  && serverId (stringValue (lit "serverId") result)
  && (json_eqb (jvalue (lit "protocol") result) (JString (lit "AWG"))
      || json_eqb (jvalue (lit "protocol") result) (JString (lit "WIREGUARD")))
  && peer (stringValue (lit "peerPublicKey") result)
  && ipv4 (stringValue (lit "deviceIpv4Address") result).

(** The snapshot, [None] for the empty object. *)
Definition decode (bytes : text) : option jobject :=
  if is_empty bytes || (tsize bytes >? 8192) then None else
  match utf8_decode bytes with
  | None => None
  | Some decoded =>
      if contains_char 0 decoded then None else
      s ← expectChar 123 (ws bytes);
      '(keys, result, s) ← snapshotMembers (S (length bytes)) s [] [];
      if negb (is_empty (ws s)) then None else
      if negb (same_keys keys) || negb (snapshotValid result) then None else Some result
  end.

(** The first IPv4 address of the configured client addresses; [None] when its
    prefix is malformed, [Some []] when there is none. *)
Fixpoint configuredIpv4 (addresses : list text) : option text :=
  match addresses with
  | [] => Some []
  | address :: rest =>
      match split_char 47 (trimmed address) with
      | [front] => if ipv4 front then Some front else configuredIpv4 rest
      | [front; back] =>
          if ipv4 front then
            match q_toUInt back with
            | Some prefix =>
                if (prefix >? 32) || negb (text_eqb (number prefix) back) then None else Some front
            | None => None
            end
          else configuredIpv4 rest
      | _ => configuredIpv4 rest
      end
  end.

Definition matchesConfiguration (snapshot : jobject) (serverId : text) (config : jobject) : bool :=
  let kind := q_toUpper (stringValue (lit "protocol") config) in
  let protocolConfig :=
    to_object (jvalue (stringValue (lit "protocol") config ++ lit "_config_data") config) in
  match configuredIpv4 (split_char 44 (stringValue (lit "client_ip") protocolConfig)) with
  | None => false
  | Some configured =>
      negb (match snapshot with [] => true | _ => false end)
      && json_eqb (jvalue (lit "serverId") snapshot) (JString serverId)
      && json_eqb (jvalue (lit "protocol") snapshot) (JString kind)
      && (text_eqb kind (lit "AWG") || text_eqb kind (lit "WIREGUARD"))
      && peer (stringValue (lit "server_pub_key") protocolConfig)
      && json_eqb (jvalue (lit "peerPublicKey") snapshot) (jvalue (lit "server_pub_key") protocolConfig)
      && negb (is_empty configured)
      && json_eqb (jvalue (lit "deviceIpv4Address") snapshot) (JString configured)
  end.

(** ** The pending request *)

Record Pending := { requestId : text; generation : text; epoch : Z }.

Definition invalidate (p : Pending) : Pending := {| requestId := []; generation := []; epoch := 0 |}.

Definition registerRequest (id binding : text) (currentEpoch : Z) (p : Pending) : bool * Pending :=
  let p := invalidate p in
  if negb (uuid id) || negb (decimal binding) then (false, p)
  else (true, {| requestId := id; generation := binding; epoch := currentEpoch |}).

Definition matches (snapshot : jobject) (currentEpoch : Z) (p : Pending) : bool :=
  negb (is_empty (requestId p)) && (epoch p =? currentEpoch)
  && json_eqb (jvalue (lit "requestId") snapshot) (JString (requestId p))
  && json_eqb (jvalue (lit "bindingGeneration") snapshot) (JString (generation p)).

Definition consume (snapshot : jobject) (currentEpoch : Z) (p : Pending) : bool * Pending :=
  if negb (matches snapshot currentEpoch p) then (false, p) else (true, invalidate p).
End session.

(** ** What the identifiers are *)

Section identifiers.
Context `{QL : QtTextLaws} `{D : QtData} `{S : QtSession} `{SL : !QtSessionLaws Q D S}.

Lemma decimal_number s : decimal s = true → ∃ n, 1 <= n < 2 ^ 63 ∧ s = number n.
Proof.
  destruct s as [|c s]; [done|]. unfold decimal. intros E.
  destruct ((tsize (c :: s) >? 19) || (c <? 49) || (c >? 57)) eqn:G1; [done|].
  destruct (negb (forallb _ _)) eqn:G2; [done|]. apply negb_false_iff in G2.
  apply orb_false_iff in G1 as [G1 G4]. apply orb_false_iff in G1 as [_ G3]. bprop.
  assert (all_digits (c :: s) = true) as Had by done.
  destruct (q_toULongLong (c :: s)) as [n|] eqn:En; [|done]. bprop.
  apply q_toULongLong_sound in En as [_ Hv].
  - exists n. split; [lia|]. rewrite <-Hv. symmetry. apply number_dec_value.
    split; [done|]. destruct s; [done|lia].
  - apply Forall_forall. intros x Hx. rewrite forallb_true_iff in G2. eapply Forall_forall in G2; [|done].
    rewrite q_isDigit_ascii; [done|]. unfold is_ascii. bprop. apply andb_true_iff. lia.
Qed.

Lemma ipv4_part_octet s : ipv4_part s = true ↔ ∃ n, 0 <= n < 256 ∧ s = number n.
Proof.
  unfold ipv4_part. split.
  - destruct (q_toUInt s) as [n|] eqn:E; [|done]. intros G. bprop.
    apply q_toUInt_range in E. exists n. split; [lia|]. symmetry. by apply text_eqb_eq.
  - intros (n & Hn & ->). rewrite q_toUInt_number by lia. rewrite text_eqb_refl, andb_true_r. apply Z.leb_le. lia.
Qed.

Lemma octets_value a b c d :
  0 <= a < 256 → 0 <= b < 256 → 0 <= c < 256 → 0 <= d < 256 →
  let v := a * 2 ^ 24 + b * 2 ^ 16 + c * 2 ^ 8 + d in
  is_u32 v ∧ octet 3 v = a ∧ octet 2 v = b ∧ octet 1 v = c ∧ octet 0 v = d.
Proof.
  intros Ha Hb Hc Hd v. unfold is_u32, octet. subst v.
  change (2 ^ (8 * 3)) with (2 ^ 24). change (2 ^ (8 * 2)) with (2 ^ 16). change (2 ^ (8 * 1)) with (2 ^ 8).
  change (2 ^ (8 * 0)) with 1. split_and!; dlia.
Qed.

(** Exactly the dotted forms of the IPv4 addresses. *)
Lemma ipv4_dotted s : ipv4 s = true ↔ ∃ a, is_u32 a ∧ s = dotted a.
Proof.
  unfold ipv4. split.
  - intros E. destruct (split_char_spec 46 s) as [Hj _].
    destruct (split_char 46 s) as [|w3 [|w2 [|w1 [|w0 [|]]]]]; try done.
    simpl in E. rewrite !andb_true_iff in E. destruct E as (E3 & E2 & E1 & E0 & _).
    apply ipv4_part_octet in E3 as (a & Ha & ->), E2 as (b & Hb & ->), E1 as (c & Hc & ->), E0 as (d & Hd & ->).
    destruct (octets_value a b c d Ha Hb Hc Hd) as (Hu & K3 & K2 & K1 & K0).
    eexists. split; [exact Hu|]. unfold dotted. rewrite K3, K2, K1, K0, <-Hj. simpl. by rewrite !app_nil_r || done.
  - intros (a & Ha & ->). rewrite dotted_split. simpl.
    assert (∀ i, ipv4_part (number (octet i a)) = true) as Hp.
    { intros i. apply ipv4_part_octet. exists (octet i a). split; [apply octet_bound|done]. }
    by rewrite !Hp.
Qed.

Lemma peer_key s : peer s = true ↔ ∃ b, length b = 32%nat ∧ Forall is_byte b ∧ s = base64_encode b.
Proof.
  unfold peer. rewrite andb_true_iff, Z.eqb_eq, text_eqb_eq. unfold tsize. split.
  - intros [Hl He]. exists (base64_decode s). split_and!; [lia|apply base64_decode_bytes|done].
  - intros (b & Hl & Hb & ->). rewrite base64_decode_encode by done. lia || (split; [lia|done]).
Qed.
End identifiers.

(** ** Members *)

Section members.
Context `{QL : QtTextLaws} `{D : QtData} `{S : QtSession} `{SL : !QtSessionLaws Q D S}.

(** What the loop has read: an object with the keys, each of the right type. *)
Record members_ok (keys : list text) (o : jobject) : Prop := {
  members_wf : jwf o;
  members_keys : ∀ k, k ∈ jkeys o ↔ k ∈ keys;
  members_schema : lit "schema" ∈ keys → jvalue (lit "schema") o = JDouble (DInt 1);
  members_string : ∀ k, k ∈ keys → k ≠ lit "schema" → ∃ v, jvalue k o = JString v;
}.

Lemma members_ok_nil : members_ok [] [].
Proof.
  split; [apply jwf_nil|done| |].
  - intros Hk. by apply elem_of_nil in Hk.
  - intros k Hk. by apply elem_of_nil in Hk.
Qed.

Lemma snapshotMember_type key s v s' :
  snapshotMember key s = Some (v, s') →
  if text_eqb key (lit "schema") then v = JDouble (DInt 1) else ∃ x, v = JString x.
Proof.
  unfold snapshotMember. destruct (text_eqb key (lit "schema")).
  - destruct (expectChar 49 s); [|done]. cbn. intros H. by simplify_eq.
  - destruct (snapshotString s) as [[x s1]|]; [|done]. cbn. intros H. simplify_eq. by exists x.
Qed.

Lemma members_ok_insert keys o key v s s' :
  members_ok keys o → snapshotMember key s = Some (v, s') →
  members_ok (keys ++ [key]) (jinsert key v o).
Proof.
  intros [H1 H2 H3 H4] Hv. apply snapshotMember_type in Hv.
  assert (is_undefined v = false) as Hu.
  { destruct (text_eqb key _); [by rewrite Hv|]. by destruct Hv as [x ->]. }
  assert (jwf (jinsert key v o)) as Hwf by (by apply jwf_jinsert_defined).
  split; [done| | |].
  - intros k. rewrite elem_of_app, list_elem_of_singleton, <-H2. unfold jinsert. rewrite Hu, jput_keys. tauto.
  - rewrite elem_of_app, list_elem_of_singleton, jvalue_jinsert. intros Hk.
    destruct (text_eqb (lit "schema") key) eqn:E.
    + apply text_eqb_eq in E. by rewrite <-E, text_eqb_refl in Hv.
    + apply text_eqb_neq in E. naive_solver.
  - intros k Hk Hne. rewrite jvalue_jinsert. destruct (text_eqb k key) eqn:E.
    + apply text_eqb_eq in E as ->. apply text_eqb_neq in Hne. by rewrite Hne in Hv.
    + apply H4; [|done]. apply text_eqb_neq in E. set_solver.
Qed.

Lemma snapshotMembers_ok fuel s keys o keys' o' rest :
  members_ok keys o → snapshotMembers fuel s keys o = Some (keys', o', rest) → members_ok keys' o'.
Proof.
  revert s keys o. induction fuel as [|f IH]; intros s keys o Hok E; [done|]. cbn [snapshotMembers] in E.
  destruct (snapshotString (ws s)) as [[key s1]|]; [|done]. cbn in E.
  destruct (is_empty key || bool_decide (key ∈ keys)); [done|].
  destruct (expectChar 58 (ws s1)) as [s2|]; [|done]. cbn in E.
  destruct (snapshotMember key (ws s2)) as [[v s3]|] eqn:Ev; [|done]. cbn in E.
  pose proof (members_ok_insert keys o key v _ _ Hok Ev) as Hok'.
  destruct (ws s3) as [|c s4]; [done|].
  destruct (decide (c = 125)) as [->|]; [by simplify_eq|].
  destruct (decide (c = 44)) as [->|]; [by eapply IH|].
  exfalso. clear -E n n0. repeat (case_match; try done).
Qed.

(** A snapshot the client may act upon. *)
Record session_snapshot (o : jobject) : Prop := {
  snap_wf : jwf o;
  snap_keys : ∀ k, k ∈ jkeys o ↔ k ∈ expectedKeys;
  snap_schema : jvalue (lit "schema") o = JDouble (DInt 1);
  snap_state : jvalue (lit "state") o = JString (lit "CONNECTED");
  snap_protocol : jvalue (lit "protocol") o = JString (lit "AWG")
                  ∨ jvalue (lit "protocol") o = JString (lit "WIREGUARD");
  snap_ids : ∀ k, k ∈ lit "requestId" :: identityKeys → ∃ u, jvalue k o = JString u ∧ uuid u = true;
  snap_generations : ∀ k, k ∈ [lit "bindingGeneration"; lit "nativeGeneration"] →
                     ∃ n, jvalue k o = JString (number n) ∧ 1 <= n < 2 ^ 63;
  snap_server : ∃ v, jvalue (lit "serverId") o = JString v ∧ serverId v = true;
  snap_peer : ∃ b, jvalue (lit "peerPublicKey") o = JString (base64_encode b)
                   ∧ length b = 32%nat ∧ Forall is_byte b;
  snap_address : ∃ a, jvalue (lit "deviceIpv4Address") o = JString (dotted a) ∧ is_u32 a;
}.

Lemma boundIdentity_ids o :
  (match boundIdentity o with [] => true | _ => false end) = false →
  ∀ k, k ∈ identityKeys → uuid (stringValue k o) = true.
Proof.
  unfold boundIdentity. cbn [foldl identityKeys]. set (r := jinsert _ _ _).
  destruct (identity r) eqn:E; [|done]. intros _ k Hk. unfold identity in E. bprop.
  match goal with F : forallb _ identityKeys = true |- _ => rewrite forallb_true_iff in F; eapply Forall_forall in F; [|exact Hk]; rename F into Hu end.
  cbv beta in Hu. unfold stringValue in *. unfold identityKeys in Hk.
  repeat (apply elem_of_cons in Hk as [->|Hk]; [subst r; rewrite !jvalue_jinsert in Hu; exact Hu|]). by apply elem_of_nil in Hk.
Qed.

Lemma decode_members bytes o :
  decode bytes = Some o →
  ∃ keys, members_ok keys o ∧ same_keys keys = true ∧ snapshotValid o = true.
Proof.
  unfold decode. intros E. destruct (_ || _); [done|]. destruct (utf8_decode bytes); [|done].
  destruct (contains_char 0 _); [done|]. destruct (expectChar 123 (ws bytes)) as [s|]; [|done]. cbn [mbind option_bind] in E.
  destruct (snapshotMembers _ s [] []) as [[[keys r] s1]|] eqn:Em; [|done]. cbn [mbind option_bind] in E.
  destruct (negb (is_empty _)); [done|]. destruct (negb (same_keys keys) || negb (snapshotValid r)) eqn:G; [done|].
  simplify_eq. bprop. exists keys. split_and!; [|done|done].
  eapply snapshotMembers_ok; [apply members_ok_nil|done].
Qed.
(** Membership and difference of literal keys, by evaluation. *)
Ltac in_keys := refine (bool_decide_unpack _ _); vm_compute; exact I.
Ltac key_ne := apply text_eqb_neq; vm_compute; reflexivity.

(** A session snapshot that is read has exactly the twelve known members,
    none of them repeated under an escaped alias: schema 1, state CONNECTED, a
    known protocol, four UUIDs, two canonical generations of at most 63 bits, a
    bounded server identifier, the canonical base64 form of a 32-byte key and
    the dotted form of an IPv4 address. *)
Theorem snapshot_decode_sound bytes o : decode bytes = Some o → session_snapshot o.
Proof.
  intros E. destruct (decode_members bytes o E) as (keys & [H1 H2 H3 H4] & Hk & Hv).
  unfold same_keys in Hk. apply andb_true_iff in Hk as [K1 K2]. rewrite forallb_true_iff in K1, K2.
  assert (∀ k, k ∈ keys ↔ k ∈ expectedKeys) as Hkeys.
  { intros k. split; intros Hin; [eapply Forall_forall in K1|eapply Forall_forall in K2]; eauto;
      by eapply bool_decide_eq_true. }
  assert (∀ k, k ∈ expectedKeys → k ≠ lit "schema" → jvalue k o = JString (stringValue k o)) as Hs.
  { intros k Hin Hne. unfold stringValue. apply Hkeys in Hin. by destruct (H4 k Hin Hne) as [v ->]. }
  unfold snapshotValid in Hv. rewrite !andb_true_iff in Hv.
  destruct Hv as (((((((((V1 & V2) & V3) & V4) & V5) & V6) & V7) & V8) & V9) & V10).
  apply negb_true_iff in V6. pose proof (boundIdentity_ids o V6) as Hid.
  split.
  - done.
  - intros k. by rewrite H2, Hkeys.
  - apply H3, Hkeys. in_keys.
  - by apply json_eqb_eq.
  - apply orb_true_iff in V8 as [V8|V8]; apply json_eqb_eq in V8; auto.
  - intros k Hin. exists (stringValue k o).
    assert (k ∈ expectedKeys ∧ k ≠ lit "schema") as [J1 J2].
    { unfold identityKeys in Hin. repeat (apply elem_of_cons in Hin as [->|Hin]; [split; [in_keys|key_ne]|]).
      by apply elem_of_nil in Hin. }
    split; [by apply Hs|]. apply elem_of_cons in Hin as [->|Hin]; [done|by apply Hid].
  - intros k Hin.
    assert (decimal (stringValue k o) = true) as Hd by (repeat (apply elem_of_cons in Hin as [->|Hin]; [done|]); by apply elem_of_nil in Hin).
    apply decimal_number in Hd as (n & Hn & En). exists n. split; [|done]. rewrite <-En. apply Hs.
    + repeat (apply elem_of_cons in Hin as [->|Hin]; [in_keys|]); by apply elem_of_nil in Hin.
    + repeat (apply elem_of_cons in Hin as [->|Hin]; [key_ne|]); by apply elem_of_nil in Hin.
  - exists (stringValue (lit "serverId") o). split; [|done]. apply Hs; [in_keys|key_ne].
  - apply peer_key in V9 as (b & Hl & Hb & Eb). exists b. rewrite <-Eb. split_and!; [|done|done].
    apply Hs; [in_keys|key_ne].
  - apply ipv4_dotted in V10 as (a & Ha & Ea). exists a. rewrite <-Ea. split; [|done].
    apply Hs; [in_keys|key_ne].
Qed.
End members.

(** ** Reading what a native service prints *)

Section printing.
Context `{QL : QtTextLaws} `{D : QtData} `{S : QtSession} `{SL : !QtSessionLaws Q D S}.

(** A character that JSON strings hold as it is. *)
Definition plain_unit (c : Z) : Prop := 32 <= c < 127 ∧ c ≠ 34 ∧ c ≠ 92.

#[export] Instance plain_unit_dec c : Decision (plain_unit c).
Proof. unfold plain_unit. apply _. Defined.

Definition print_value (v : json) : text :=
  match v with JString s => 34 :: s ++ [34] | _ => [49] end.
Definition print_member (m : text * json) : text := 34 :: m.1 ++ 34 :: 58 :: print_value m.2.
Definition print_snapshot (ms : list (text * json)) : text := 123 :: join [44] (map print_member ms) ++ [125].

Definition object_of_members (ms : list (text * json)) (o : jobject) : jobject :=
  foldl (λ r m, jinsert m.1 m.2 r) o ms.

(** Members with plain keys and values; the schema is the number one. *)
Definition member_plain (m : text * json) : Prop :=
  Forall plain_unit m.1 ∧ m.1 ≠ []
  ∧ if text_eqb m.1 (lit "schema") then m.2 = JDouble (DInt 1)
    else ∃ s, m.2 = JString s ∧ Forall plain_unit s.

Lemma scanString_plain s rest : Forall plain_unit s → scanString false (s ++ 34 :: rest) = Some (s ++ [34], rest).
Proof.
  induction 1 as [|c s (Hc & H1 & H2) Hs IH]; [done|]. cbn [app scanString].
  rewrite (proj2 (Z.eqb_neq _ _) H1), (proj2 (Z.eqb_neq _ _) H2). cbn [negb andb]. by rewrite IH.
Qed.

Lemma surrogates_plain s : Forall plain_unit s → surrogates_paired s = true.
Proof.
  induction 1 as [|c s (Hc & _) Hs IH]; [done|]. cbn [surrogates_paired].
  rewrite (proj2 (Z.leb_gt 0xD800 c)), (proj2 (Z.leb_gt 0xDC00 c)) by lia. done.
Qed.

Lemma snapshotString_plain s rest :
  Forall plain_unit s → snapshotString (34 :: s ++ 34 :: rest) = Some (s, rest).
Proof.
  intros Hs. unfold snapshotString. rewrite scanString_plain by done.
  replace ([91] ++ (34 :: s ++ [34]) ++ [93]) with ([91; 34] ++ s ++ [34; 93]) by (simpl; by rewrite <-app_assoc).
  rewrite json_parse_plain by done. rewrite surrogates_plain by done.
  assert (contains_char 0 s = false) as ->; [|done].
  apply contains_char_false. intros Hin. eapply Forall_forall in Hs; [|done]. unfold plain_unit in Hs. lia.
Qed.

Lemma snapshotMember_plain m rest :
  member_plain m → snapshotMember m.1 (print_value m.2 ++ rest) = Some (m.2, rest).
Proof.
  intros (_ & _ & Hv). unfold snapshotMember. destruct (text_eqb m.1 (lit "schema")).
  - by rewrite Hv.
  - destruct Hv as (s & -> & Hs). cbn [print_value].
    replace ((34 :: s ++ [34]) ++ rest) with (34 :: s ++ 34 :: rest) by (simpl; by rewrite <-app_assoc).
    by rewrite snapshotString_plain.
Qed.

Lemma ws_value v rest : (∃ s, v = JString s) ∨ v = JDouble (DInt 1) → ws (print_value v ++ rest) = print_value v ++ rest.
Proof. by intros [[s ->]| ->]. Qed.

Lemma snapshotMembers_print ms fuel keys o rest :
  ms ≠ [] → (length ms ≤ fuel)%nat → Forall member_plain ms → NoDup (keys ++ map fst ms) →
  snapshotMembers fuel (join [44] (map print_member ms) ++ 125 :: rest) keys o
  = Some (keys ++ map fst ms, object_of_members ms o, rest).
Proof.
  revert fuel keys o. induction ms as [|m ms IH]; intros fuel keys o Hne Hf Hp Hnd; [done|].
  destruct fuel as [|f]; [simpl in Hf; lia|]. inversion Hp as [|?? Hm Hms]; subst.
  assert (∃ tail, join [44] (map print_member (m :: ms)) ++ 125 :: rest = print_member m ++ tail
    ∧ tail = match ms with [] => 125 :: rest | _ => 44 :: join [44] (map print_member ms) ++ 125 :: rest end) as (tail & -> & Ht).
  { destruct ms as [|m' ms]; [by eexists|]. eexists. split; [|done].
    cbn [map join]. by rewrite <-!app_assoc. }
  assert ((m.2 = JDouble (DInt 1)) ∨ ∃ s, m.2 = JString s) as Hty.
  { destruct Hm as (_ & _ & Hv). destruct (text_eqb m.1 (lit "schema")); [by left|]. destruct Hv as (s & Hv & _). eauto. }
  cbn [snapshotMembers]. unfold print_member.
  replace ((34 :: m.1 ++ 34 :: 58 :: print_value m.2) ++ tail)
    with (34 :: m.1 ++ 34 :: (58 :: print_value m.2 ++ tail)) by (simpl; by rewrite <-app_assoc).
  assert (∀ r, ws (34 :: r) = 34 :: r) as -> by done.
  rewrite snapshotString_plain by apply Hm. cbn [mbind option_bind].
  assert (m.1 ∉ keys) as Hfresh.
  { apply NoDup_app in Hnd as (_ & Hnd & _). intros Hin. apply (Hnd _ Hin). constructor. }
  rewrite (proj2 (is_empty_false _)) by apply Hm. rewrite bool_decide_eq_false_2 by done. cbn [orb].
  assert (∀ r, ws (58 :: r) = 58 :: r) as -> by done. cbn [expectChar Z.eqb Pos.eqb]. cbn [mbind option_bind].
  rewrite ws_value by tauto. rewrite snapshotMember_plain by done. cbn [mbind option_bind].
  destruct ms as [|m' ms].
  - subst tail. assert (∀ r, ws (125 :: r) = 125 :: r) as -> by done. done.
  - subst tail. assert (∀ r, ws (44 :: r) = 44 :: r) as -> by done.
    rewrite IH; [|done|simpl in *; lia|done|].
    + f_equal. f_equal. by rewrite <-app_assoc.
    + by rewrite <-app_assoc.
Qed.

Lemma print_snapshot_ascii ms : Forall member_plain ms → Forall (λ c, 0 < c < 128) (print_snapshot ms).
Proof.
  assert (∀ s, Forall plain_unit s → Forall (λ c, 0 < c < 128) s) as Hs.
  { intros s Hs. eapply Forall_impl; [done|]. unfold plain_unit. lia. }
  intros Hp. constructor; [lia|]. apply Forall_app. split; [|repeat constructor; lia].
  assert (∀ m, member_plain m → Forall (λ c, 0 < c < 128) (print_member m)) as Hm.
  { intros m (H1 & _ & H2). constructor; [lia|]. apply Forall_app. split; [auto|]. do 2 (constructor; [lia|]).
    destruct (text_eqb m.1 (lit "schema")); [rewrite H2; repeat constructor; lia|].
    destruct H2 as (s & -> & Hs'). constructor; [lia|]. apply Forall_app. split; [auto|repeat constructor; lia]. }
  induction ms as [|m ms IH]; [constructor|]. inversion Hp; subst. destruct ms as [|m' ms]; [by apply Hm|].
  cbn [map join]. apply Forall_app. split; [by apply Hm|]. apply Forall_app. split; [repeat constructor; lia|].
  by apply IH.
Qed.

(** A valid snapshot printed as one JSON object, its members in any order
    and its texts plain, is read back as exactly that object. *)
Theorem snapshot_decode_print ms :
  map fst ms ≡ₚ expectedKeys → Forall member_plain ms → tsize (print_snapshot ms) <= 8192 →
  snapshotValid (object_of_members ms []) = true →
  decode (print_snapshot ms) = Some (object_of_members ms []).
Proof.
  intros Hk Hp Hsz Hv. pose proof (print_snapshot_ascii ms Hp) as Hascii. unfold decode.
  replace (is_empty (print_snapshot ms)) with false by done. rewrite Z.gtb_ltb, (proj2 (Z.ltb_ge _ _)) by done.
  cbn [orb]. rewrite utf8_decode_ascii by (eapply Forall_impl; [done|]; simpl; lia).
  assert (contains_char 0 (print_snapshot ms) = false) as ->.
  { apply contains_char_false. intros Hin. eapply Forall_forall in Hascii; [|done]. simpl in Hascii. lia. }
  assert (NoDup (map fst ms)) as Hnd.
  { rewrite Hk. refine (bool_decide_unpack _ _). vm_compute. exact I. }
  assert (length ms = 12%nat) as Hlen by (by rewrite <-(length_map fst), Hk).
  unfold print_snapshot. assert (∀ r, ws (123 :: r) = 123 :: r) as -> by done. cbn [expectChar Z.eqb Pos.eqb].
  cbn [mbind option_bind].
  rewrite snapshotMembers_print; [|by destruct ms|..|done].
  3: done.
  2: { rewrite length_cons, length_app.
       assert (length ms ≤ length (join [44]%Z (map print_member ms)))%nat; [|lia].
       clear. induction ms as [|m [|m' ms] IH]; [done|simpl; lia|]. cbn [map join] in *. rewrite !length_app. simpl in *. lia. }
  cbn [mbind option_bind app ws drop_while is_empty negb].
  assert (same_keys (map fst ms) = true) as ->.
  { unfold same_keys. apply andb_true_iff. rewrite !forallb_true_iff, !Forall_forall.
    split; intros k Hin; apply bool_decide_eq_true; by rewrite Hk in *. }
  by rewrite Hv.
Qed.
End printing.

(** ** The life of a pending request *)

Section pending.
Context `{QtText} `{QtData} `{QtSession}.

Inductive PendingOp :=
| OpRegister (id binding : text) (currentEpoch : Z)
| OpInvalidate
| OpConsume (snapshot : jobject) (currentEpoch : Z).

Definition pending_run (op : PendingOp) (p : Pending) : bool * Pending :=
  match op with
  | OpRegister id binding e => registerRequest id binding e p
  | OpInvalidate => (true, invalidate p)
  | OpConsume snapshot e => consume snapshot e p
  end.

Definition pending_init : Pending := {| requestId := []; generation := []; epoch := 0 |}.

Definition pending_after (ops : list PendingOp) : Pending :=
  foldl (λ p op, (pending_run op p).2) pending_init ops.

(** The request that may be answered: the last one registered, unless it was
    invalidated or answered since. *)
Definition answers (snapshot : jobject) (e : Z) (r : text * text * Z) : bool :=
  let '(id, binding, e') := r in
  bool_decide (e' = e ∧ jvalue (lit "requestId") snapshot = JString id
               ∧ jvalue (lit "bindingGeneration") snapshot = JString binding).

Definition outstanding_step (r : option (text * text * Z)) (op : PendingOp) : option (text * text * Z) :=
  match op with
  | OpRegister id binding e => if uuid id && decimal binding then Some (id, binding, e) else None
  | OpInvalidate => None
  | OpConsume snapshot e => match r with
                            | Some q => if answers snapshot e q then None else r
                            | None => None
                            end
  end.

Definition outstanding (ops : list PendingOp) : option (text * text * Z) :=
  foldl outstanding_step None ops.

Definition represents (p : Pending) (r : option (text * text * Z)) : Prop :=
  match r with
  | Some (id, binding, e) => p = {| requestId := id; generation := binding; epoch := e |} ∧ id ≠ []
  | None => p = pending_init
  end.

Lemma matches_represents p r snapshot e :
  represents p r → matches snapshot e p = match r with Some q => answers snapshot e q | None => false end.
Proof.
  destruct r as [[[id b] e']|]; simpl.
  - intros [-> Hne]. unfold matches. cbn [requestId generation epoch].
    rewrite (proj2 (is_empty_false id) Hne). cbn [negb andb].
    apply eq_bool_prop_intro. rewrite !Is_true_true, !andb_true_iff, !json_eqb_eq, bool_decide_eq_true, Z.eqb_eq. tauto.
  - intros ->. done.
Qed.

Lemma pending_represents ops : represents (pending_after ops) (outstanding ops).
Proof.
  unfold pending_after, outstanding.
  induction ops as [|op ops IH] using rev_ind; [done|]. rewrite !foldl_app. cbn [foldl].
  set (p := foldl _ pending_init ops) in *. set (r := foldl _ None ops) in *. clearbody p r.
  destruct op as [id b e| |snapshot e]; simpl.
  - unfold registerRequest. destruct (uuid id) eqn:Eu; [|done]. destruct (decimal b); [|done].
    split; [done|]. intros ->. done.
  - done.
  - unfold consume. rewrite (matches_represents p r) by done.
    destruct r as [q|]; [|done]. destruct (answers snapshot e q); [done|exact IH].
Qed.

(** C37. After any sequence of registrations, invalidations and answers, a
    snapshot is accepted exactly when it carries the identifier and the binding
    generation of the outstanding request, in the epoch it was registered in;
    an accepted answer, an invalidation or a refused registration leaves no
    request outstanding. *)
Theorem pending_answered_once ops snapshot e :
  (consume snapshot e (pending_after ops)).1
  = match outstanding ops with Some q => answers snapshot e q | None => false end
  ∧ ((consume snapshot e (pending_after ops)).1 = true →
     ∀ snapshot' e', (consume snapshot' e' (consume snapshot e (pending_after ops)).2).1 = false).
Proof.
  pose proof (matches_represents _ _ snapshot e (pending_represents ops)) as Hm. unfold consume at 1 2.
  rewrite <-Hm. destruct (matches snapshot e (pending_after ops)) eqn:E; [|done]. split; [done|].
  intros _ snapshot' e'. unfold consume at 2. rewrite E. done.
Qed.
End pending.

(** ** A model, and concrete sessions *)

Module SessionExamples.

#[local] Existing Instances asciiText asciiText_laws.

Definition plain_unitb (c : Z) : bool := (32 <=? c) && (c <? 127) && negb (c =? 34) && negb (c =? 92).

(** Reads an array of one plain string. *)
Definition plain_json_parse (s : text) : option json :=
  match s with
  | 91 :: 34 :: r =>
      match reverse r with
      | 93 :: 34 :: b => if forallb plain_unitb (reverse b) then Some (JArray [JString (reverse b)]) else None
      | _ => None
      end
  | _ => None
  end.

#[local] Instance sessionData : QtData := {|
  sha256 := @sha256 toyData; json_compact := @json_compact toyData; json_parse := plain_json_parse; utf8 := id;
|}.

#[local] Instance sessionQt : QtSession := {|
  q_toUInt := bounded_digits (2 ^ 32);
  q_toUpper := map (λ c, if (97 <=? c) && (c <=? 122) then c - 32 else c);
  utf8_decode := λ s, if forallb is_ascii s then Some s else None;
  base64_decode := λ s, if forallb (λ b, (0 <=? b) && (b <? 256)) s then s else [];
  base64_encode := id;
|}.

#[local] Instance sessionQt_laws : QtSessionLaws asciiText sessionData sessionQt.
Proof.
  split.
  - intros n Hn. simpl. unfold bounded_digits. rewrite number_all_digits, number_value by lia.
    by rewrite (proj2 (Z.ltb_lt _ _)) by lia.
  - intros s n. simpl. apply bounded_digits_bound.
  - intros b Hb. simpl. assert (forallb (λ b, (0 <=? b) && (b <? 256)) b = true) as ->; [|done].
    apply forallb_true_iff. eapply Forall_impl; [done|]. unfold is_byte. simpl. lia.
  - intros s. simpl. destruct (forallb _ s) eqn:E; [|constructor]. rewrite forallb_true_iff in E.
    eapply Forall_impl; [done|]. unfold is_byte. simpl. lia.
  - intros s Hs. simpl. assert (forallb is_ascii s = true) as ->; [|done].
    apply forallb_true_iff. eapply Forall_impl; [done|]. unfold is_ascii. simpl. lia.
  - intros s Hs. cbn [json_parse sessionData]. unfold plain_json_parse. cbn [app].
    assert (reverse (s ++ [34; 93]) = 93 :: 34 :: reverse s) as -> by (by rewrite reverse_app).
    rewrite reverse_involutive.
    assert (forallb plain_unitb s = true) as ->; [|done].
    apply forallb_true_iff. eapply Forall_impl; [done|]. unfold plain_unitb. simpl. intros c (H1 & H2 & H3).
    rewrite !andb_true_iff, !negb_true_iff. lia.
Qed.

Definition uuid0 : text := lit "0123abcd-0123-0123-0123-0123456789ab".

Definition members0 : list (text * json) :=
  [(lit "requestId", JString uuid0); (lit "schema", JDouble (DInt 1));
   (lit "bindingGeneration", JString (lit "7")); (lit "state", JString (lit "CONNECTED"));
   (lit "serverId", JString (lit "home")); (lit "protocol", JString (lit "AWG"));
   (lit "serviceInstanceId", JString uuid0); (lit "serviceActivationId", JString uuid0);
   (lit "connectionNonce", JString uuid0); (lit "peerPublicKey", JString (replicate 32 65));
   (lit "deviceIpv4Address", JString (lit "10.8.1.2")); (lit "nativeGeneration", JString (lit "12"))].

Lemma snapshot_decode_print_witness :
  decode (print_snapshot members0) = Some (object_of_members members0 []).
Proof.
  apply (snapshot_decode_print (Q := asciiText) (D := sessionData) (S := sessionQt)).
  - refine (bool_decide_unpack _ _). vm_compute. exact I.
  - repeat (apply Forall_cons_2;
      [split; [refine (bool_decide_unpack _ _); vm_compute; exact I|split; [done|]];
       first [reflexivity | eexists; split; [reflexivity|refine (bool_decide_unpack _ _); vm_compute; exact I]]|]).
    apply Forall_nil_2.
  - vm_compute. discriminate.
  - vm_compute. reflexivity.
Defined.

Lemma snapshot_decode_sound_witness : session_snapshot (object_of_members members0 []).
Proof.
  apply (snapshot_decode_sound (print_snapshot members0)). vm_compute. reflexivity.
Defined.

Lemma pending_answered_once_witness :
  (consume (object_of_members members0 []) 3 (pending_after [OpRegister uuid0 (lit "7") 3])).1 = true.
Proof.
  rewrite (proj1 (pending_answered_once [OpRegister uuid0 (lit "7") 3] (object_of_members members0 []) 3)).
  vm_compute. reflexivity.
Defined.
End SessionExamples.
