(* ===== verification/ByteText.v ===== *)
(** * Byte strings of the migration helpers

    Model of the text functions at the top of
    client/server_scripts/awg_migration/native/policy.cpp: stripping and line
    splitting with the whitespace of Python, splitting at a separator, and the
    shell-like tokenizer.  A [std::string] is a list of bytes. *)

From S2P Require Import Prelude Text.
#[local] Open Scope Z_scope.

(** ** Whitespace *)

(** The width of the UTF-8 whitespace character the text starts with, zero
    when it starts with none. *)
Definition whitespace (s : text) : nat :=
  match s with
  | [] => 0
  | c :: s1 =>
      if ((9 <=? c) && (c <=? 13)) || ((0x1c <=? c) && (c <=? 0x20)) then 1 else
      match s1 with
      | [] => 0
      | second :: s2 =>
          if (c =? 0xc2) && ((second =? 0x85) || (second =? 0xa0)) then 2 else
          match s2 with
          | [] => 0
          | third :: _ =>
              if (c =? 0xe1) && (second =? 0x9a) && (third =? 0x80) then 3
              else if (c =? 0xe2)
                      && (((second =? 0x80)
                           && (((0x80 <=? third) && (third <=? 0x8a)) || (third =? 0xa8)
                               || (third =? 0xa9) || (third =? 0xaf)))
                          || ((second =? 0x81) && (third =? 0x9f))) then 3
              else if (c =? 0xe3) && (second =? 0x80) && (third =? 0x80) then 3
              else 0
          end
      end
  end.

(** The first loop of [trim]: skips leading whitespace. *)
Fixpoint trim_begin (fuel : nat) (s : text) : text :=
  match fuel with
  | O => s
  | S f =>
      match s with
      | [] => []
      | _ => match whitespace s with O => s | w => trim_begin f (drop w s) end
      end
  end.

(** The second loop of [trim]: keeps the text up to the last byte that is not
    whitespace. *)
Fixpoint trim_end (fuel : nat) (s : text) : text :=
  match fuel with
  | O => []
  | S f =>
      match s with
      | [] => []
      | c :: s' =>
          match whitespace s with
          | O => c :: trim_end f s'
          | w => match trim_end f (drop w s) with
                 | [] => []
                 | r => take w s ++ r
                 end
          end
      end
  end.

Definition trim (s : text) : text :=
  let t := trim_begin (length s) s in trim_end (length t) t.

(** ** Lines *)

(** The width of the line separator the text starts with. *)
Definition separator (s : text) : nat :=
  match s with
  | [] => 0
  | c :: s1 =>
      if c =? 13 then match s1 with 10 :: _ => 2 | _ => 1 end
      else if (c =? 10) || (c =? 11) || (c =? 12) || ((0x1c <=? c) && (c <=? 0x1e)) then 1
      else if (c =? 0xc2) && match s1 with n :: _ => n =? 0x85 | [] => false end then 2
      else if (c =? 0xe2)
              && match s1 with
                 | n :: t :: _ => (n =? 0x80) && ((t =? 0xa8) || (t =? 0xa9))
                 | _ => false
                 end then 3
      else 0
  end.

(** [line] is the text since [begin], reversed. *)
Fixpoint lines_go (fuel : nat) (line : text) (s : text) : list text :=
  match fuel with
  | O => []
  | S f =>
      match s with
      | [] => match line with [] => [] | _ => [reverse line] end
      | c :: s' =>
          match separator s with
          | O => lines_go f (c :: line) s'
          | w => reverse line :: lines_go f [] (drop w s)
          end
      end
  end.

Definition lines (s : text) : list text := lines_go (S (length s)) [] s.

(** [split]: [std::getline] until the end, plus an empty field after a final
    separator. *)
Definition split (s : text) (sep : Z) : list text :=
  match s with [] => [] | _ => split_char sep s end.

(** ** The tokenizer *)

Definition shell_error : text := lit "shell syntax".

Definition shell_space (c : Z) : bool := (c =? 32) || (c =? 9) || (c =? 13) || (c =? 10).

(** The main loop.  [quote] is the open quote or zero, [token] the current
    token, [active] whether there is one, [r] the finished tokens. *)
Fixpoint shell_go (quote : Z) (active : bool) (token : text) (r : list text) (s : text) :
    result text (list text) :=
  match s with
  | [] =>
      if negb (quote =? 0) then Err shell_error
      else Ok (if active then r ++ [token] else r)
  | c :: s' =>
      if quote =? 39 then
        if c =? 39 then shell_go 0 true token r s' else shell_go quote true (token ++ [c]) r s'
      else if c =? 92 then
        match s' with
        | [] => Err shell_error
        | next :: s'' =>
            let token := if (quote =? 34) && negb (next =? 34) && negb (next =? 92)
                         then token ++ [92] else token in
            shell_go quote true (token ++ [next]) r s''
        end
      else if ((c =? 34) || (c =? 39)) && (quote =? 0) then shell_go c true token r s'
      else if ((c =? 34) || (c =? 39)) && (c =? quote) then shell_go 0 active token r s'
      else if (quote =? 0) && shell_space c then
        if active then shell_go quote false [] (r ++ [token]) s'
        else shell_go quote active token r s'
      else shell_go quote true (token ++ [c]) r s'
  end.

Definition shell (s : text) : result text (list text) := shell_go 0 false [] [] s.

(** ** Facts *)

Lemma whitespace_bound s : (whitespace s ≤ length s)%nat ∧ (whitespace s ≤ 3)%nat.
Proof.
  unfold whitespace. destruct s as [|c [|d [|e s]]]; simpl; repeat case_match; simpl; lia.
Qed.

Lemma separator_bound s : (separator s ≤ length s)%nat.
Proof. unfold separator. destruct s as [|c [|d [|e s]]]; simpl; repeat case_match; simplify_eq/=; lia. Qed.

(** The length of the text is enough fuel for each loop: more changes nothing,
    so no result is cut short. *)
Lemma trim_begin_fuel f s : (length s ≤ f)%nat → trim_begin f s = trim_begin (length s) s.
Proof.
  revert s. assert (∀ f g s, (length s ≤ f)%nat → (length s ≤ g)%nat →
    trim_begin f s = trim_begin g s) as H; [|intros; apply H; lia].
  clear f. induction f as [|f IH]; intros [|g] [|c s] Hf Hg; simpl in Hf, Hg; try lia; try done.
  cbn [trim_begin]. pose proof (whitespace_bound (c :: s)) as [Hw _].
  destruct (whitespace (c :: s)) as [|w]; [done|]. cbn [drop].
  apply IH; rewrite length_drop; lia.
Qed.

Lemma trim_end_fuel f s : (length s ≤ f)%nat → trim_end f s = trim_end (length s) s.
Proof.
  revert s. assert (∀ f g s, (length s ≤ f)%nat → (length s ≤ g)%nat →
    trim_end f s = trim_end g s) as H; [|intros; apply H; lia].
  clear f. induction f as [|f IH]; intros [|g] [|c s] Hf Hg; simpl in Hf, Hg; try lia; try done.
  cbn [trim_end]. destruct (whitespace (c :: s)) as [|w].
  - f_equal. apply IH; lia.
  - cbn [drop]. by rewrite (IH g) by (rewrite length_drop; lia).
Qed.

Lemma lines_go_fuel f line s : (length s < f)%nat → lines_go f line s = lines_go (S (length s)) line s.
Proof.
  revert line s. assert (∀ f g line s, (length s < f)%nat → (length s < g)%nat →
    lines_go f line s = lines_go g line s) as H; [|intros; apply H; lia].
  clear f. induction f as [|f IH]; intros [|g] line [|c s] Hf Hg; simpl in Hf, Hg; try lia; try done.
  cbn [lines_go]. destruct (separator (c :: s)) as [|w].
  - apply IH; lia.
  - cbn [drop]. f_equal. apply IH; rewrite length_drop; lia.
Qed.

(** The first loop stops at the first character that is not whitespace. *)
Lemma trim_begin_stripped s : whitespace (trim_begin (length s) s) = 0%nat.
Proof.
  remember (length s) as f eqn:Hf. assert (length s ≤ f)%nat as Hl by lia. clear Hf.
  revert s Hl. induction f as [|f IH]; intros [|c s] Hl; simpl in Hl; try lia; try done.
  cbn [trim_begin]. destruct (whitespace (c :: s)) as [|w] eqn:E; [done|].
  cbn [drop]. apply IH. rewrite length_drop. lia.
Qed.

(** A token that needs no quoting. *)
Definition plain_char (c : Z) : bool :=
  negb (shell_space c) && negb (c =? 34) && negb (c =? 39) && negb (c =? 92).

Definition plain_token (t : text) : bool := negb (is_empty t) && forallb plain_char t.

Lemma shell_go_plain t s token r active :
  forallb plain_char t = true → t ≠ [] →
  shell_go 0 active token r (t ++ s) = shell_go 0 true (token ++ t) r s.
Proof.
  revert token active. induction t as [|c t IH]; intros token active Ht Hne; [done|].
  simpl in Ht. apply andb_true_iff in Ht as [Hc Ht]. unfold plain_char in Hc. bprop.
  cbn [shell_go app]. change (0 =? 39) with false. cbv iota.
  replace (c =? 92) with false by (symmetry; by apply Z.eqb_neq).
  replace (c =? 34) with false by (symmetry; by apply Z.eqb_neq).
  replace (c =? 39) with false by (symmetry; by apply Z.eqb_neq). cbn [orb andb].
  change (0 =? 0) with true. cbn [andb].
  match goal with H : shell_space c = false |- _ => rewrite H end.
  destruct t as [|c' t]; [by rewrite app_nil_l|].
  rewrite (IH (token ++ [c]) true) by done. by rewrite <-app_assoc.
Qed.

Lemma shell_go_space s token r :
  shell_go 0 true token r (32 :: s) = shell_go 0 false [] (r ++ [token]) s.
Proof. done. Qed.

Lemma shell_go_join ts r :
  Forall (λ t, plain_token t = true) ts →
  shell_go 0 false [] r (join [32] ts) = Ok (r ++ ts).
Proof.
  revert r. induction ts as [|t ts IH]; intros r H.
  { by rewrite app_nil_r. }
  inversion H as [|?? Ht Hts]; subst. unfold plain_token in Ht. bprop.
  destruct ts as [|t' ts].
  - cbn [join]. rewrite <-(app_nil_r t) at 1. rewrite shell_go_plain; [done|done|].
    by apply is_empty_false.
  - change (join [32] (t :: t' :: ts)) with (t ++ 32 :: join [32] (t' :: ts)).
    rewrite shell_go_plain; [|done|by apply is_empty_false].
    rewrite app_nil_l, shell_go_space, IH by done. by rewrite <-app_assoc.
Qed.

(** Plain tokens joined by spaces are tokenized back. *)
Lemma shell_join ts : Forall (λ t, plain_token t = true) ts → shell (join [32] ts) = Ok ts.
Proof. intros H. unfold shell. by rewrite shell_go_join. Qed.
