(* ===== verification/Command.v ===== *)
(** * Programs with state and early exits

    Code that runs external programs, keeps state and leaves a function early is
    written in one monad: [prog W E A] is a computation over a world [W] that
    yields an [A] or leaves early with an [E], keeping the changes it made to the
    world.  [E] is the message of an exception in the helpers under
    client/server_scripts/, and the returned value in functions with early
    [return]s.  [hoare] states what a computation guarantees on both exits. *)

From S2P Require Import Prelude Text.
#[local] Open Scope amnezia_scope.

Definition prog (W E A : Type) : Type := W → result E A * W.

(** A computation that runs commands and may throw a message. *)
Notation cmd W A := (prog W text A).

Definition cmd_ret {W E A} (r : result E A) : prog W E A := λ w, (r, w).

Definition cmd_bind {W E A B} (m : prog W E A) (k : A → prog W E B) : prog W E B :=
  λ w, match m w with (Ok a, w') => k a w' | (Err e, w') => (Err e, w') end.

Notation "'let!' x ':=' c 'in' k" := (cmd_bind c (λ x, k))
  (at level 10, x pattern, c at level 100, k at level 200,
   format "'let!'  x  ':='  c  'in'  '//' k") : amnezia_scope.

Fixpoint cmd_fold {W E A S} (f : S → A → prog W E S) (s : S) (l : list A) : prog W E S :=
  match l with
  | [] => cmd_ret (Ok s)
  | x :: l' => let! s' := f s x in cmd_fold f s' l'
  end.

Lemma cmd_bind_Ok {W E A B} (m : prog W E A) (k : A → prog W E B) w b w' :
  cmd_bind m k w = (Ok b, w') ↔ ∃ a w1, m w = (Ok a, w1) ∧ k a w1 = (Ok b, w').
Proof. unfold cmd_bind. destruct (m w) as [[a|e] w1]; naive_solver. Qed.

Lemma cmd_bind_Err {W E A B} (m : prog W E A) (k : A → prog W E B) w e w' :
  cmd_bind m k w = (Err e, w') ↔
  m w = (Err e, w') ∨ ∃ a w1, m w = (Ok a, w1) ∧ k a w1 = (Err e, w').
Proof. unfold cmd_bind. destruct (m w) as [[a|e'] w1]; naive_solver. Qed.

(** Runs [f] on each element, for its effects. *)
Definition cmd_each {W E A} (f : A → prog W E ()) (l : list A) : prog W E () :=
  cmd_fold (λ _ x, f x) () l.

Definition cmd_when {W E} (b : bool) (m : prog W E ()) : prog W E () :=
  if b then m else cmd_ret (Ok ()).

Definition cmd_get {W E A} (f : W → result E A) : prog W E A := λ w, (f w, w).
Definition cmd_modify {W E} (f : W → W) : prog W E () := λ w, (Ok (), f w).

(** A value, an early [return], a read of the world. *)
Definition pure {W E A} (a : A) : prog W E A := cmd_ret (Ok a).
Definition leave {W E A} (e : E) : prog W E A := cmd_ret (Err e).
Definition gets {W E A} (f : W → A) : prog W E A := cmd_get (λ w, Ok (f w)).

(** [if (b) return e;], where [e] may have effects. *)
Definition leave_if {W E} (b : bool) (e : prog W E E) : prog W E () :=
  if b then let! r := e in leave r else pure ().

(** A call of a function whose body returns an [A] at its end or early. *)
Definition call {W E A} (body : prog W A A) : prog W E A :=
  λ w, match body w with (Ok a, w') | (Err a, w') => (Ok a, w') end.

(** What a call returns and leaves behind. *)
Definition returns {W A} (body : prog W A A) (w : W) : A * W :=
  match body w with (Ok a, w') | (Err a, w') => (a, w') end.

(** ** Guarantees *)

Definition hoare {W E A} (P : W → Prop) (m : prog W E A) (Q : A → W → Prop) (X : E → W → Prop) : Prop :=
  ∀ w, P w → match m w with (Ok a, w') => Q a w' | (Err e, w') => X e w' end.

Section hoare.
Context {W E : Type}.
Implicit Types (P : W → Prop) (X : E → W → Prop).

Lemma h_bind {A B} P (m : prog W E A) (k : A → prog W E B) R Q X :
  hoare P m R X → (∀ a, hoare (R a) (k a) Q X) → hoare P (cmd_bind m k) Q X.
Proof.
  intros Hm Hk w Hw. unfold cmd_bind. specialize (Hm w Hw). destruct (m w) as [[a|e] w']; [|done].
  by apply Hk.
Qed.

Lemma h_ret {A} P (a : A) (Q : A → W → Prop) X : (∀ w, P w → Q a w) → hoare P (pure a) Q X.
Proof. intros H w Hw. by apply H. Qed.

Lemma h_leave {A} P (e : E) (Q : A → W → Prop) X : (∀ w, P w → X e w) → hoare P (leave e) Q X.
Proof. intros H w Hw. by apply H. Qed.

Lemma h_gets {A} P (f : W → A) (Q : A → W → Prop) X : (∀ w, P w → Q (f w) w) → hoare P (gets f) Q X.
Proof. intros H w Hw. by apply H. Qed.

Lemma h_modify P f (Q : () → W → Prop) X : (∀ w, P w → Q () (f w)) → hoare P (cmd_modify f) Q X.
Proof. intros H w Hw. by apply H. Qed.

Lemma h_conseq {A} P P' (m : prog W E A) (Q Q' : A → W → Prop) X X' :
  hoare P m Q X → (∀ w, P' w → P w) → (∀ a w, Q a w → Q' a w) → (∀ e w, X e w → X' e w) →
  hoare P' m Q' X'.
Proof.
  intros Hm HP HQ HX w Hw. specialize (Hm w (HP w Hw)). destruct (m w) as [[a|e] w']; auto.
Qed.

Lemma h_pre {A} P P' (m : prog W E A) Q X : (∀ w, P' w → P w) → hoare P m Q X → hoare P' m Q X.
Proof. intros HP Hm w Hw. by apply Hm, HP. Qed.

(** A fact that does not depend on the world. *)
Lemma h_fact {A} (F : Prop) P (m : prog W E A) Q X :
  (F → hoare P m Q X) → hoare (λ w, F ∧ P w) m Q X.
Proof. intros Hm w [HF Hw]. by apply Hm. Qed.

Lemma h_leave_if P b (e : prog W E E) X (Q : () → W → Prop) :
  (b = true → hoare P e X X) → (∀ w, b = false → P w → Q () w) → hoare P (leave_if b e) Q X.
Proof.
  intros He HQ. unfold leave_if. destruct b; [|apply h_ret; auto].
  eapply h_bind; [by apply He|]. intros r. by apply h_leave.
Qed.

Lemma h_when P b (m : prog W E ()) (Q : () → W → Prop) X :
  (b = true → hoare P m Q X) → (∀ w, b = false → P w → Q () w) → hoare P (cmd_when b m) Q X.
Proof. intros Hm HQ. destruct b; [by apply Hm|]. apply h_ret. auto. Qed.

Lemma h_each {A} P (f : A → prog W E ()) l X :
  (∀ x, x ∈ l → hoare P (f x) (λ _, P) X) → hoare P (cmd_each f l) (λ _, P) X.
Proof.
  unfold cmd_each. induction l as [|x l IH]; intros Hf; cbn [cmd_fold]; [by apply h_ret|].
  eapply h_bind; [apply Hf; constructor|]. intros []. apply IH. intros y Hy. apply Hf. by constructor.
Qed.

Lemma h_fold {A S} (I : S → W → Prop) (f : S → A → prog W E S) s l X :
  (∀ s x, x ∈ l → hoare (I s) (f s x) I X) → hoare (I s) (cmd_fold f s l) I X.
Proof.
  revert s. induction l as [|x l IH]; intros s Hf; cbn [cmd_fold]; [by apply h_ret|].
  eapply h_bind; [apply Hf; constructor|]. intros s'. apply IH. intros s1 y Hy. apply Hf. by constructor.
Qed.

Lemma h_and {A} P (m : prog W E A) Q1 Q2 X1 X2 :
  hoare P m Q1 X1 → hoare P m Q2 X2 → hoare P m (λ a w, Q1 a w ∧ Q2 a w) (λ e w, X1 e w ∧ X2 e w).
Proof. intros H1 H2 w Hw. specialize (H1 w Hw). specialize (H2 w Hw). destruct (m w) as [[a|e] w']; auto. Qed.
End hoare.

Lemma h_call {W E A} (P : W → Prop) (body : prog W A A) (Q : A → W → Prop) (X : E → W → Prop) :
  hoare P body Q Q → hoare P (call body) Q X.
Proof. intros Hb w Hw. unfold call. specialize (Hb w Hw). by destruct (body w) as [[a|a] w']. Qed.

Lemma h_returns {W A} (P : W → Prop) (body : prog W A A) (Q : A → W → Prop) w a w' :
  hoare P body Q Q → P w → returns body w = (a, w') → Q a w'.
Proof.
  intros Hb Hw. unfold returns. specialize (Hb w Hw). destruct (body w) as [[b|b] w1]; intros E; by simplify_eq.
Qed.

(** ** Invariants *)

(** [I] holds on every exit. *)
Definition keeps {W E A} (I : W → Prop) (m : prog W E A) : Prop := hoare I m (λ _, I) (λ _, I).

Section keeps.
Context {W : Type} (I : W → Prop).

Lemma k_bind {E A B} (m : prog W E A) (k : A → prog W E B) :
  keeps I m → (∀ a, keeps I (k a)) → keeps I (cmd_bind m k).
Proof. intros Hm Hk. eapply h_bind; [exact Hm|]. intros a. apply Hk. Qed.

Lemma k_ret {E A} (r : result E A) : keeps I (cmd_ret r).
Proof. intros w Hw. by destruct r. Qed.

Lemma k_pure {E A} (a : A) : keeps I (pure (E := E) a).
Proof. apply k_ret. Qed.

Lemma k_leave {E A} (e : E) : keeps I (leave (A := A) e).
Proof. apply k_ret. Qed.

Lemma k_gets {E A} (f : W → A) : keeps I (gets (E := E) f).
Proof. by intros w Hw. Qed.

Lemma k_leave_if {E} b (e : prog W E E) : keeps I e → keeps I (leave_if b e).
Proof.
  intros He. unfold leave_if. destruct b; [|apply k_pure]. apply k_bind; [done|]. intros r. apply k_leave.
Qed.

Lemma k_when {E} b (m : prog W E ()) : keeps I m → keeps I (cmd_when b m).
Proof. intros Hm. destruct b; [done|apply k_ret]. Qed.

Lemma k_each {E A} (f : A → prog W E ()) l : (∀ x, x ∈ l → keeps I (f x)) → keeps I (cmd_each f l).
Proof. intros Hf. apply h_each. exact Hf. Qed.

Lemma k_fold {E A S} (f : S → A → prog W E S) s l :
  (∀ s x, x ∈ l → keeps I (f s x)) → keeps I (cmd_fold f s l).
Proof. intros Hf. apply (h_fold (λ _, I)). intros s1 x Hx. by apply Hf. Qed.

Lemma k_call {E A} (body : prog W A A) : keeps I body → keeps I (call (E := E) body).
Proof. intros Hb. by apply h_call. Qed.

Lemma k_if {E A} (b : bool) (m1 m2 : prog W E A) :
  keeps I m1 → keeps I m2 → keeps I (if b then m1 else m2).
Proof. by destruct b. Qed.

Lemma keeps_returns {A} (body : prog W A A) w : keeps I body → I w → I (returns body w).2.
Proof.
  intros Hb Hw. destruct (returns body w) as [a w'] eqn:E. exact (h_returns I body (λ _, I) w a w' Hb Hw E).
Qed.
End keeps.

Create HintDb keeps discriminated.
#[export] Hint Resolve k_ret k_pure k_leave k_gets : keeps.

(** Goes through a computation, leaving the calls it knows nothing about. *)
Ltac keeps_step :=
  lazymatch goal with
  | |- keeps _ (cmd_bind _ _) => apply k_bind; [|intros ?]
  | |- keeps _ (cmd_each _ _) => apply k_each; intros ? ?
  | |- keeps _ (cmd_fold _ _ _) => apply k_fold; intros ? ? ?
  | |- keeps _ (cmd_when _ _) => apply k_when
  | |- keeps _ (leave_if _ _) => apply k_leave_if
  | |- keeps _ (call _) => apply k_call
  | |- keeps _ (if ?b then _ else _) => destruct b
  | |- keeps _ (match ?x with _ => _ end) => destruct x
  | _ => solve [eauto with keeps]
  end.
Ltac keeps_tac := repeat (cbv zeta beta; keeps_step).

(** ** Computations that do not leave early *)

Definition total {W E A} (m : prog W E A) : Prop := ∀ w, ∃ a, (m w).1 = Ok a.

Section total.
Context {W E : Type}.

Lemma total_bind {A B} (m : prog W E A) (k : A → prog W E B) :
  total m → (∀ a, total (k a)) → total (cmd_bind m k).
Proof.
  intros Hm Hk w. destruct (Hm w) as [a Ha]. unfold cmd_bind. destruct (m w) as [[b|e] w']; [|done]. apply Hk.
Qed.

Lemma total_pure {A} (a : A) : total (pure (W := W) (E := E) a).
Proof. intros w. by exists a. Qed.

Lemma total_gets {A} (f : W → A) : total (gets (E := E) f).
Proof. intros w. by exists (f w). Qed.

Lemma total_modify f : total (cmd_modify (W := W) (E := E) f).
Proof. intros w. by exists (). Qed.

Lemma total_when b (m : prog W E ()) : total m → total (cmd_when b m).
Proof. intros Hm. destruct b; [done|]. apply total_pure. Qed.

Lemma total_call {A} (body : prog W A A) : total (call (E := E) body).
Proof. intros w. unfold call. destruct (body w) as [[a|a] w']; by exists a. Qed.

Lemma total_fold {A S} (f : S → A → prog W E S) s l : (∀ s x, total (f s x)) → total (cmd_fold f s l).
Proof.
  intros Hf. revert s. induction l as [|x l IH]; intros s; cbn [cmd_fold]; [apply total_pure|].
  apply total_bind; [apply Hf|]. auto.
Qed.

(** The exit that is never taken may be anything. *)
Lemma hoare_total {A} P (m : prog W E A) Q (X X' : E → W → Prop) : total m → hoare P m Q X → hoare P m Q X'.
Proof.
  intros Ht Hm w Hw. specialize (Hm w Hw). destruct (Ht w) as [a Ha]. destruct (m w) as [[b|e] w']; [done|].
  simplify_eq/=.
Qed.
End total.

Create HintDb total discriminated.
#[export] Hint Resolve total_pure total_gets total_modify total_call : total.

Ltac total_step :=
  lazymatch goal with
  | |- total (cmd_bind _ _) => apply total_bind; [|intros ?]
  | |- total (cmd_fold _ _ _) => apply total_fold; intros ? ?
  | |- total (cmd_when _ _) => apply total_when
  | |- total (if ?b then _ else _) => destruct b
  | |- total (match ?x with _ => _ end) => destruct x
  | _ => solve [eauto with total]
  end.
Ltac total_tac := repeat (cbv zeta beta; total_step).

(** ** Computations that always leave early *)

Definition leaves {W E A} (m : prog W E A) : Prop := ∀ w, ∃ e, (m w).1 = Err e.

Section leaves.
Context {W E : Type}.

Lemma leaves_leave {A} (e : E) : leaves (leave (W := W) (A := A) e).
Proof. intros w. by exists e. Qed.

Lemma leaves_bind {A B} (m : prog W E A) (k : A → prog W E B) : (∀ a, leaves (k a)) → leaves (cmd_bind m k).
Proof.
  intros Hk w. unfold cmd_bind. destruct (m w) as [[a|e] w']; [apply Hk|by exists e].
Qed.

(** The normal exit is never taken. *)
Lemma hoare_leaves {A} P (m : prog W E A) (Q Q' : A → W → Prop) X : leaves m → hoare P m Q X → hoare P m Q' X.
Proof.
  intros Hl Hm w Hw. specialize (Hm w Hw). destruct (Hl w) as [e He]. by destruct (m w) as [[b|e'] w'].
Qed.
End leaves.

Create HintDb leaves discriminated.
#[export] Hint Resolve leaves_leave : leaves.

Ltac leaves_tac :=
  repeat (cbv zeta beta; lazymatch goal with
    | |- leaves (cmd_bind _ _) => apply leaves_bind; intros ?
    | |- leaves (if ?b then _ else _) => destruct b
    | |- leaves (match ?x with _ => _ end) => destruct x
    | _ => solve [eauto with leaves]
    end).
