(* ===== verification/JsonC.v ===== *)
(** * json-c values

    The helpers under client/server_scripts/ read and write JSON with json-c.
    An object keeps the order in which its members were added; adding a member
    that is there replaces its value in place.  Reading and printing text are
    the library's and enter as the class [JsonC]. *)

From S2P Require Import Prelude Text Json.
#[local] Open Scope Z_scope.

Inductive cjson :=
| CNull
| CBool (b : bool)
| CDouble (d : qdouble)
| CInt (n : Z)                        (* int64 *)
| CString (s : text)                  (* bytes *)
| CArray (l : list cjson)
| CObject (o : list (text * cjson)).

Notation cobject := (list (text * cjson)).

Inductive json_type :=
| json_type_null | json_type_boolean | json_type_double | json_type_int
| json_type_string | json_type_array | json_type_object.

#[export] Instance json_type_eq_dec : EqDecision json_type.
Proof. solve_decision. Defined.

Definition json_object_get_type (v : cjson) : json_type :=
  match v with
  | CNull => json_type_null
  | CBool _ => json_type_boolean
  | CDouble _ => json_type_double
  | CInt _ => json_type_int
  | CString _ => json_type_string
  | CArray _ => json_type_array
  | CObject _ => json_type_object
  end.

Definition json_object_is_type (v : cjson) (t : json_type) : bool :=
  bool_decide (json_object_get_type v = t).

(** The members of an object, none of another value. *)
Definition cmembers (v : cjson) : cobject := match v with CObject o => o | _ => [] end.

Fixpoint clookup (key : text) (o : cobject) : option cjson :=
  match o with
  | [] => None
  | (k, v) :: o' => if text_eqb key k then Some v else clookup key o'
  end.

(** [json_object_object_get_ex]; a null member is found. *)
Definition json_object_object_get_ex (p : cjson) (key : text) : option cjson := clookup key (cmembers p).

Fixpoint cput (key : text) (v : cjson) (o : cobject) : cobject :=
  match o with
  | [] => [(key, v)]
  | (k, u) :: o' => if text_eqb key k then (k, v) :: o' else (k, u) :: cput key v o'
  end.

(** [json_object_object_add]. *)
Definition json_object_object_add (p : cjson) (key : text) (v : cjson) : cjson :=
  match p with CObject o => CObject (cput key v o) | _ => p end.

Definition ckeys (o : cobject) : list text := map fst o.

Definition json_object_get_boolean (v : cjson) : bool := match v with CBool b => b | _ => false end.
Definition json_object_get_int64 (v : cjson) : Z := match v with CInt n => n | _ => 0 end.
Definition json_object_get_string (v : cjson) : text := match v with CString s => s | _ => [] end.

(** [json_object_equal]: members are compared by key, not by position. *)
Fixpoint json_object_equal (a b : cjson) : bool :=
  match a, b with
  | CNull, CNull => true
  | CBool x, CBool y => Bool.eqb x y
  | CDouble x, CDouble y => json_eqb (JDouble x) (JDouble y)
  | CInt x, CInt y => x =? y
  | CString x, CString y => text_eqb x y
  | CArray x, CArray y =>
      (fix go x y := match x, y with
                     | [], [] => true
                     | u :: x', v :: y' => json_object_equal u v && go x' y'
                     | _, _ => false
                     end) x y
  | CObject x, CObject y =>
      (length x =? length y)%nat
      && (fix go x := match x with
                      | [] => true
                      | (k, u) :: x' =>
                          match clookup k y with
                          | Some v => json_object_equal u v
                          | None => false
                          end && go x'
                      end) x
  | _, _ => false
  end.

(** ** Facts *)

Lemma clookup_cput key v o k : clookup k (cput key v o) = if text_eqb k key then Some v else clookup k o.
Proof.
  induction o as [|[k' u] o IH]; cbn [cput clookup].
  - done.
  - destruct (text_eqb key k') eqn:E; cbn [clookup].
    + apply text_eqb_eq in E as ->. by destruct (text_eqb k k').
    + rewrite IH. destruct (text_eqb k k') eqn:E2; [|done].
      apply text_eqb_eq in E2 as ->. destruct (text_eqb k' key) eqn:E3; [|done].
      apply text_eqb_eq in E3 as ->. by rewrite text_eqb_refl in E.
Qed.

Lemma clookup_None key o : clookup key o = None ↔ key ∉ ckeys o.
Proof.
  induction o as [|[k u] o IH]; cbn [clookup ckeys map].
  - split; [|done]. intros _ H. by apply elem_of_nil in H.
  - rewrite elem_of_cons. destruct (text_eqb key k) eqn:E.
    + apply text_eqb_eq in E. naive_solver.
    + apply text_eqb_neq in E. rewrite IH. naive_solver.
Qed.

Lemma ckeys_cput key v o :
  ckeys (cput key v o) = if bool_decide (key ∈ ckeys o) then ckeys o else ckeys o ++ [key].
Proof.
  induction o as [|[k u] o IH]; cbn [cput ckeys map].
  - rewrite bool_decide_eq_false_2; [done|]. intros H. by apply elem_of_nil in H.
  - destruct (text_eqb key k) eqn:E; cbn [map fst].
    + apply text_eqb_eq in E as ->. by rewrite bool_decide_eq_true_2 by constructor.
    + apply text_eqb_neq in E. change (map fst (cput key v o)) with (ckeys (cput key v o)). rewrite IH.
      change (map fst o) with (ckeys o). case_bool_decide as H1; case_bool_decide as H2; try done.
      * exfalso. apply H2. by constructor.
      * exfalso. apply elem_of_cons in H2 as [?|?]; congruence.
Qed.

Lemma cmembers_add p key v k :
  json_object_is_type p json_type_object = true →
  json_object_object_get_ex (json_object_object_add p key v) k
  = if text_eqb k key then Some v else json_object_object_get_ex p k.
Proof. destruct p; try done. intros _. apply clookup_cput. Qed.

(** ** Text *)

Class JsonC := {
  (* json_tokener_parse_ex with a depth limit and the flags STRICT and
     VALIDATE_UTF8: the value and where it ended; None on an error *)
  json_tokener_parse : nat → text → option (cjson * nat);
  (* json_object_to_json_string_ext(_, JSON_C_TO_STRING_PLAIN) *)
  json_to_string : cjson → text;
}.
