(* ===== verification/JournalStore.v ===== *)
(** * Replacing the journal file

    Model of the input and output of [TransactionJournal::save] in
    client/server_scripts/awg_migration/native/transaction_journal.cpp: a
    staging file is created, written, synced and renamed over the journal, then
    the directory is synced.  Every call may fail, every checkpoint may throw,
    and the machine may stop between any two calls; the theorems say what a
    reader can find afterwards. *)

From stdpp Require Import gmap.
From S2P Require Import Prelude Text.

(** ** Files *)

(** The content of a file and whether it was synced since it last changed.  A
    crash keeps the content of synced files only. *)
Record Inode := { content : text; synced : bool }.

(** [durable] holds the states of the directory a crash may leave: the one
    last synced and those since. *)
Record Disk := {
  inodes : gmap nat Inode;
  dir : gmap text nat;
  durable : list (gmap text nat);
}.

Definition journal_name : text := lit "transaction.json".

Definition set_dir (D : gmap text nat) (d : Disk) : Disk :=
  {| inodes := inodes d; dir := D; durable := durable d ++ [D] |}.

Definition set_inode (i : nat) (f : Inode) (d : Disk) : Disk :=
  {| inodes := <[i := f]> (inodes d); dir := dir d; durable := durable d |}.

Definition fresh_inode (d : Disk) : nat := fresh (dom (inodes d)).

(** [openat(O_CREAT | O_EXCL)]: [None] when the name exists. *)
Definition open_new (name : text) (d : Disk) : option (nat * Disk) :=
  match dir d !! name with
  | Some _ => None
  | None =>
      let i := fresh_inode d in
      Some (i, set_dir (<[name := i]> (dir d)) (set_inode i {| content := []; synced := false |} d))
  end.

Definition write_inode (i : nat) (bytes : text) (d : Disk) : Disk :=
  match inodes d !! i with
  | Some f => set_inode i {| content := content f ++ bytes; synced := false |} d
  | None => d
  end.

Definition fsync_inode (i : nat) (d : Disk) : Disk :=
  match inodes d !! i with
  | Some f => set_inode i {| content := content f; synced := true |} d
  | None => d
  end.

Definition rename (old_name new_name : text) (d : Disk) : Disk :=
  match dir d !! old_name with
  | Some i => set_dir (<[new_name := i]> (delete old_name (dir d))) d
  | None => d
  end.

Definition unlink (name : text) (d : Disk) : Disk := set_dir (delete name (dir d)) d.

Definition fsync_dir (d : Disk) : Disk := {| inodes := inodes d; dir := dir d; durable := [dir d] |}.

(** What a reader finds under the journal name. *)
Definition visible (d : Disk) : option text :=
  i ← dir d !! journal_name; content <$> inodes d !! i.

(** What a reader may find after a crash. *)
Definition after_crash (d : Disk) (c : option text) : Prop :=
  ∃ D, D ∈ durable d ∧
    match D !! journal_name with
    | None => c = None
    | Some i =>
        match inodes d !! i with
        | Some f => if synced f then c = Some (content f) else is_Some c
        | None => True
        end
    end.

(** ** Saving *)

Inductive SavePc :=
| PCreate (n : nat)                     (* about to try the [n]-th staging name *)
| PCreated (tmp : text) (i : nat)
| PWriting (tmp : text) (i : nat) (pos : nat)
| PWritten (tmp : text) (i : nat)
| PSynced (tmp : text) (i : nat)
| PClosed (tmp : text) (i : nat)
| PReplaced (tmp : text)
| PDirSynced (tmp : text)
| PCleanup (tmp : text)                 (* the handler: the staging file is unlinked *)
| PDone
| PThrown.

(** The outcome of the next call: it succeeds (a checkpoint passes), fails (a
    checkpoint throws), is interrupted, or writes some bytes. *)
Inductive Outcome := Go | Fails | Interrupted | Wrote (k : nat).

Section save.
Context (tmp_name : nat → text) (raw : text).

(** The staging names of one process. *)
Definition staging_attempts : nat := 100.

Definition save_step (o : Outcome) (pc : SavePc) (d : Disk) : option (SavePc * Disk) :=
  match pc, o with
  | PCreate n, Go =>
      if (n <? staging_attempts)%nat then
        match open_new (tmp_name n) d with
        | Some (i, d') => Some (PCreated (tmp_name n) i, d')
        | None => Some (PCreate (S n), d)
        end
      else Some (PThrown, d)
  | PCreate _, Fails => Some (PThrown, d)
  | PCreated tmp i, Go => Some (PWriting tmp i 0, d)
  | PWriting tmp i pos, Wrote k =>
      if (pos <? length raw)%nat && (0 <? k)%nat && (pos + k <=? length raw)%nat
      then Some (PWriting tmp i (pos + k), write_inode i (take k (drop pos raw)) d)
      else None
  | PWriting tmp i pos, Interrupted => if (pos <? length raw)%nat then Some (pc, d) else None
  | PWriting tmp i pos, Go => if (pos <? length raw)%nat then None else Some (PWritten tmp i, d)
  | PWritten tmp i, Go => Some (PSynced tmp i, fsync_inode i d)
  | PSynced tmp i, Go => Some (PClosed tmp i, d)
  | PClosed tmp i, Go => Some (PReplaced tmp, rename tmp journal_name d)
  | PReplaced tmp, Go => Some (PDirSynced tmp, fsync_dir d)
  | PDirSynced tmp, Go => Some (PDone, d)
  | PCleanup tmp, Go => Some (PThrown, unlink tmp d)
  | PCreated tmp _, Fails | PWriting tmp _ _, Fails | PWritten tmp _, Fails | PSynced tmp _, Fails
  | PClosed tmp _, Fails | PReplaced tmp, Fails | PDirSynced tmp, Fails => Some (PCleanup tmp, d)
  | _, _ => None
  end.

Fixpoint save_run (os : list Outcome) (pc : SavePc) (d : Disk) : option (SavePc * Disk) :=
  match os with
  | [] => Some (pc, d)
  | o :: os' => '(pc', d') ← save_step o pc d; save_run os' pc' d'
  end.

(** ** What holds throughout *)

Context (old : option text).

(** The journal entry of a directory is the old file or the complete new one. *)
Definition entry_ok (d : Disk) (D : gmap text nat) : Prop :=
  match D !! journal_name with
  | None => old = None
  | Some i => ∃ f, inodes d !! i = Some f ∧ synced f = true ∧ (old = Some (content f) ∨ content f = raw)
  end.

Definition entries_exist (d : Disk) : Prop :=
  ∀ D, D ∈ durable d → ∀ name i, D !! name = Some i → is_Some (inodes d !! i).

(** The staging file: not yet the journal anywhere, with the given content. *)
Definition staged (d : Disk) (tmp : text) (i : nat) (c : text) (s : bool) : Prop :=
  inodes d !! i = Some {| content := c; synced := s |} ∧ dir d !! tmp = Some i ∧ tmp ≠ journal_name
  ∧ ∀ D, D ∈ durable d → D !! journal_name ≠ Some i.

Definition replaced (d : Disk) (D : gmap text nat) : Prop :=
  ∃ i f, D !! journal_name = Some i ∧ inodes d !! i = Some f ∧ synced f = true ∧ content f = raw.

Definition pc_ok (pc : SavePc) (d : Disk) : Prop :=
  match pc with
  | PCreate _ | PThrown => True
  | PCleanup tmp => tmp ≠ journal_name
  | PCreated tmp i => staged d tmp i [] false
  | PWriting tmp i pos => (pos ≤ length raw)%nat ∧ ∃ s, staged d tmp i (take pos raw) s
  | PWritten tmp i => ∃ s, staged d tmp i raw s
  | PSynced tmp i | PClosed tmp i => staged d tmp i raw true
  | PReplaced tmp => tmp ≠ journal_name ∧ replaced d (dir d)
  | PDirSynced tmp => tmp ≠ journal_name ∧ ∀ D, D ∈ durable d → replaced d D
  | PDone => ∀ D, D ∈ durable d → replaced d D
  end.

Record save_inv (pc : SavePc) (d : Disk) : Prop := {
  save_entries : ∀ D, D ∈ durable d → entry_ok d D;
  save_current : dir d ∈ durable d;
  save_exist : entries_exist d;
  save_pc : pc_ok pc d;
}.

Context (tmp_ne : ∀ n, tmp_name n ≠ journal_name).

(** Changing a file that is the journal in no directory. *)
Lemma set_inode_inv i f d :
  (∀ D, D ∈ durable d → D !! journal_name ≠ Some i) →
  (∀ D, D ∈ durable d → entry_ok d D) → ∀ D, D ∈ durable d → entry_ok (set_inode i f d) D.
Proof.
  intros Hi H D HD. specialize (H D HD). specialize (Hi D HD). unfold entry_ok in *. simpl.
  destruct (D !! journal_name) as [j|]; [|done]. by rewrite lookup_insert_ne by congruence.
Qed.

Lemma set_inode_exist i f d : entries_exist d → entries_exist (set_inode i f d).
Proof.
  intros H D HD name j Hj. simpl in *. destruct (decide (i = j)) as [->|]; simpl_map; [by eexists|by eapply H].
Qed.

Lemma fresh_not_entry d D name i :
  entries_exist d → D ∈ durable d → D !! name = Some i → i ≠ fresh_inode d.
Proof.
  intros H HD Hi ->. destruct (H D HD name _ Hi) as [f Hf].
  apply (is_fresh (dom (inodes d))). apply elem_of_dom. by exists f.
Qed.

Lemma entry_ok_inodes d d' D : inodes d' = inodes d → entry_ok d D → entry_ok d' D.
Proof. intros E. unfold entry_ok. by rewrite E. Qed.

Lemma replaced_entry_ok d D : replaced d D → entry_ok d D.
Proof. intros (i & f & H1 & H2 & H3 & H4). unfold entry_ok. rewrite H1. exists f. auto. Qed.

Lemma open_new_inv n i d d' :
  save_inv (PCreate n) d → open_new (tmp_name n) d = Some (i, d') → save_inv (PCreated (tmp_name n) i) d'.
Proof.
  intros [H1 H2 H3 _] E. unfold open_new in E. destruct (dir d !! tmp_name n) eqn:Ed; [done|]. simplify_eq.
  set (i := fresh_inode d). pose proof (fresh_not_entry d) as Hfr.
  assert (∀ D, D ∈ durable d → D !! journal_name ≠ Some i) as Hi.
  { intros D HD Hj. by apply (Hfr D journal_name i H3 HD Hj). }
  pose proof (tmp_ne n) as Hne. split.
  - intros D HD. simpl in HD. apply elem_of_app in HD as [HD|HD].
    + by apply (set_inode_inv i _ d Hi H1).
    + apply list_elem_of_singleton in HD as ->. specialize (H1 _ H2). unfold entry_ok in *. simpl.
      rewrite lookup_insert_ne by done. destruct (dir d !! journal_name) as [j|] eqn:Ej; [|done].
      rewrite lookup_insert_ne; [done|]. intros <-. by apply (Hi _ H2).
  - simpl. set_solver.
  - intros D HD name j Hj. simpl in *. destruct (decide (i = j)) as [->|]; simpl_map; [by eexists|].
    apply elem_of_app in HD as [HD|HD]; [by eapply H3|]. apply list_elem_of_singleton in HD as ->.
    destruct (decide (name = tmp_name n)) as [->|]; simpl_map; [congruence|]. by eapply H3.
  - split_and!; simpl; [by simpl_map|by simpl_map|done|]. intros D HD.
    apply elem_of_app in HD as [HD|HD]; [by apply Hi|]. apply list_elem_of_singleton in HD as ->.
    rewrite lookup_insert_ne by done. by apply Hi.
Qed.

Lemma staged_update tmp i c s f d :
  staged d tmp i c s → staged (set_inode i f d) tmp i (content f) (synced f).
Proof.
  intros (H1 & H2 & H3 & H4). split_and!; [|done|done|done]. simpl. simpl_map. by destruct f.
Qed.

Lemma update_inv pc pc' tmp i c s f d :
  save_inv pc d → staged d tmp i c s → pc_ok pc' (set_inode i f d) → save_inv pc' (set_inode i f d).
Proof.
  intros [H1 H2 H3 _] Hst Hpc. split; [|done|by apply set_inode_exist|done].
  destruct Hst as (_ & _ & _ & Hst). exact (set_inode_inv i f d Hst H1).
Qed.

Lemma rename_inv tmp i d :
  save_inv (PClosed tmp i) d → save_inv (PReplaced tmp) (rename tmp journal_name d).
Proof.
  intros [H1 H2 H3 (K1 & K2 & K3 & K4)]. unfold rename. rewrite K2.
  assert (replaced d (<[journal_name := i]> (delete tmp (dir d)))) as Hrep.
  { exists i, {| content := raw; synced := true |}. by simpl_map. }
  split.
  - intros D HD. simpl in HD. apply elem_of_app in HD as [HD|HD]; [by apply H1|].
    apply list_elem_of_singleton in HD as ->. apply replaced_entry_ok in Hrep. done.
  - simpl. set_solver.
  - intros D HD name j Hj. simpl in *. apply elem_of_app in HD as [HD|HD]; [by eapply H3|].
    apply list_elem_of_singleton in HD as ->. apply lookup_insert_Some in Hj as [[_ <-]|[_ Hj]]; [by eexists|].
    apply lookup_delete_Some in Hj as [_ Hj]. by eapply H3.
  - split; [done|]. exact Hrep.
Qed.

Lemma unlink_inv tmp d : save_inv (PCleanup tmp) d → save_inv PThrown (unlink tmp d).
Proof.
  intros [H1 H2 H3 K]. simpl in K. split; [|simpl; set_solver| |done].
  - intros D HD. simpl in HD. apply elem_of_app in HD as [HD|HD]; [by apply H1|].
    apply list_elem_of_singleton in HD as ->. specialize (H1 _ H2). unfold entry_ok in *. simpl.
    by rewrite lookup_delete_ne by done.
  - intros D HD name j Hj. simpl in *. apply elem_of_app in HD as [HD|HD]; [by eapply H3|].
    apply list_elem_of_singleton in HD as ->. apply lookup_delete_Some in Hj as [_ Hj]. by eapply H3.
Qed.

Lemma save_step_inv o pc d pc' d' :
  save_inv pc d → save_step o pc d = Some (pc', d') → save_inv pc' d'.
Proof.
  intros Hinv E. pose proof Hinv as [H1 H2 H3 Hpc].
  destruct pc as [n|tmp i|tmp i pos|tmp i|tmp i|tmp i|tmp|tmp|tmp| |], o as [| | |k]; simpl in E; simplify_eq;
    try (split; [done|done|done|]; simpl in *; by destruct_and?).
  - destruct (n <? staging_attempts)%nat; simplify_eq; [|by split].
    destruct (open_new (tmp_name n) d) as [[i d1]|] eqn:Eo; simplify_eq; [by eapply open_new_inv|by split].
  - split; [done|done|done|]. simpl. split; [lia|]. exists false. by rewrite take_0.
  - split; [done|done|done|]. apply Hpc.
  - destruct Hpc as [Hle (s & Hst)]. destruct (pos <? length raw)%nat eqn:El; simplify_eq.
    split; [done|done|done|]. exists s. apply Nat.ltb_ge in El. by rewrite take_ge in Hst.
  - split; [done|done|done|]. destruct Hpc as [_ (s & Hst)]. apply Hst.
  - destruct (pos <? length raw)%nat; simplify_eq. by split.
  - destruct Hpc as [Hle (s & Hst)].
    destruct ((pos <? length raw)%nat && (0 <? k)%nat && (pos + k <=? length raw)%nat) eqn:El; simplify_eq.
    rewrite !andb_true_iff, !Nat.ltb_lt, Nat.leb_le in El. unfold write_inode.
    rewrite (proj1 Hst). cbn [content]. eapply update_inv; [done|done|]. split; [lia|]. exists false.
    replace (take (pos + k) raw) with (take pos raw ++ take k (drop pos raw)).
    + by apply (staged_update tmp i _ _ {| content := _; synced := false |} d Hst).
    + by rewrite take_take_drop.
  - destruct Hpc as (s & Hst). unfold fsync_inode. rewrite (proj1 Hst). cbn [content].
    eapply update_inv; [done|done|]. by apply (staged_update tmp i _ _ {| content := raw; synced := true |} d Hst).
  - split; [done|done|done|]. destruct Hpc as (s & Hst). apply Hst.
  - split; [done|done|done|]. apply Hpc.
  - by apply rename_inv with i.
  - split; [done|done|done|]. apply Hpc.
  - destruct Hpc as [Hne Hr]. split.
    + intros D HD. simpl in HD. apply list_elem_of_singleton in HD as ->. by apply (H1 _ H2).
    + simpl. set_solver.
    + intros D HD name j Hj. simpl in HD. apply list_elem_of_singleton in HD as ->. by eapply H3.
    + split; [done|]. intros D HD. simpl in HD. by apply list_elem_of_singleton in HD as ->.
  - by apply unlink_inv.
Qed.

Lemma save_run_inv os pc d pc' d' :
  save_inv pc d → save_run os pc d = Some (pc', d') → save_inv pc' d'.
Proof.
  revert pc d. induction os as [|o os IH]; intros pc d Hinv E; simpl in E; [by simplify_eq|].
  destruct (save_step o pc d) as [[pc1 d1]|] eqn:Es; [|done]. simpl in E.
  eapply IH; [|done]. by eapply save_step_inv.
Qed.
End save.

(** A quiet disk: everything is synced, and the journal is [old]. *)
Record settled (old : option text) (d : Disk) : Prop := {
  settled_durable : durable d = [dir d];
  settled_inodes : ∀ name i, dir d !! name = Some i → is_Some (inodes d !! i);
  settled_journal : match dir d !! journal_name with
                    | None => old = None
                    | Some i => ∃ c, inodes d !! i = Some {| content := c; synced := true |} ∧ old = Some c
                    end;
}.

Lemma settled_inv raw old d : settled old d → save_inv raw old (PCreate 0) d.
Proof.
  intros [H1 H2 H3]. split; [| | |done].
  - intros D HD. rewrite H1 in HD. apply list_elem_of_singleton in HD as ->. unfold entry_ok.
    destruct (dir d !! journal_name) as [i|]; [|done]. destruct H3 as (c & Hc & ->). eexists. split; [done|]. auto.
  - rewrite H1. set_solver.
  - intros D HD name i Hi. rewrite H1 in HD. apply list_elem_of_singleton in HD as ->. by eapply H2.
Qed.

Lemma save_inv_crash raw old pc d c :
  save_inv raw old pc d → after_crash d c → c = old ∨ c = Some raw.
Proof.
  intros [H1 _ _ _] (D & HD & Hc). specialize (H1 D HD). unfold entry_ok in H1.
  destruct (D !! journal_name) as [i|]; [|left; congruence].
  destruct H1 as (f & Hf & Hs & Hf'). rewrite Hf, Hs in Hc. subst c.
  destruct Hf' as [->|<-]; auto.
Qed.

(** C9. Replacing the journal is atomic: however the calls fail and wherever the
    process stops, a reader finds the complete old or the complete new journal,
    both in the running system and after a crash; once save has returned, a
    crash no longer loses the new one. *)
Theorem journal_save_atomic tmp_name raw old d0 os pc d :
  (∀ n, tmp_name n ≠ journal_name) → settled old d0 →
  save_run tmp_name raw os (PCreate 0) d0 = Some (pc, d) →
  (visible d = old ∨ visible d = Some raw)
  ∧ (∀ c, after_crash d c → c = old ∨ c = Some raw)
  ∧ (pc = PDone → visible d = Some raw ∧ ∀ c, after_crash d c → c = Some raw).
Proof.
  intros Hne Hs E. pose proof (save_run_inv tmp_name raw old Hne os _ _ _ _ (settled_inv raw old d0 Hs) E) as Hinv.
  assert (after_crash d (visible d)) as Hvis.
  { exists (dir d). split; [apply Hinv|]. pose proof (save_entries _ _ _ _ Hinv _ (save_current _ _ _ _ Hinv)) as He.
    unfold entry_ok in He. unfold visible. destruct (dir d !! journal_name) as [i|]; [|done].
    destruct He as (f & Hf & Hsy & _). cbn. by rewrite Hf, Hsy. }
  split_and!.
  - by eapply save_inv_crash.
  - intros c. by eapply save_inv_crash.
  - intros ->. assert (∀ c, after_crash d c → c = Some raw) as Hall; [|split; auto].
    intros c (D & HD & Hc). destruct (save_pc _ _ _ _ Hinv D HD) as (i & f & H1 & H2 & H3 & H4).
    rewrite H1, H2, H3 in Hc. by subst.
Qed.

(** The staging name a state still has to remove. *)
Definition staging_of (pc : SavePc) : option text :=
  match pc with
  | PCreated tmp _ | PWriting tmp _ _ | PWritten tmp _ | PSynced tmp _ | PClosed tmp _ | PCleanup tmp => Some tmp
  | _ => None
  end.

Definition names_known (d0 : Disk) (pc : SavePc) (d : Disk) : Prop :=
  ∀ name, is_Some (dir d !! name) →
    name = journal_name ∨ is_Some (dir d0 !! name) ∨ staging_of pc = Some name.

Lemma save_step_names tmp_name raw d0 o pc d pc' d' :
  names_known d0 pc d → save_step tmp_name raw o pc d = Some (pc', d') → names_known d0 pc' d'.
Proof.
  intros H E name Hn. unfold names_known in H.
  destruct pc as [n|tmp i|tmp i pos|tmp i|tmp i|tmp i|tmp|tmp|tmp| |], o as [| | |k]; simpl in E; simplify_eq;
    try (simpl; by destruct (H name Hn) as [?|[?|?]]; auto).
  - destruct (n <? staging_attempts)%nat; simplify_eq; [|simpl; by destruct (H name Hn) as [?|[?|?]]; auto].
    unfold open_new in E. destruct (dir d !! tmp_name n); simplify_eq; [by apply H|]. simpl in *.
    destruct (decide (name = tmp_name n)) as [->|]; [by auto|]. simpl_map. destruct (H name Hn) as [?|[?|?]]; auto. done.
  - destruct (pos <? length raw)%nat; simplify_eq. by apply H.
  - destruct (pos <? length raw)%nat; simplify_eq. by apply H.
  - case_match; simplify_eq. apply H. unfold write_inode in Hn. by destruct (inodes d !! i).
  - apply H. unfold fsync_inode in Hn. by destruct (inodes d !! i).
  - unfold rename in Hn. destruct (dir d !! tmp) as [j|] eqn:Et; simpl in Hn.
    + destruct (decide (name = journal_name)) as [->|]; [by left|]. simpl_map.
      destruct (decide (name = tmp)) as [->|]; [by rewrite lookup_delete_eq in Hn; destruct Hn|]. simpl_map.
      destruct (H name Hn) as [?|[?|[= ->]]]; auto. done.
    + destruct (H name Hn) as [?|[?|[= ->]]]; auto. rewrite Et in Hn. by destruct Hn.
  - simpl in Hn. destruct (decide (name = tmp)) as [->|]; [by rewrite lookup_delete_eq in Hn; destruct Hn|]. simpl_map.
    destruct (H name Hn) as [?|[?|[= ->]]]; auto. done.
Qed.

(** Saving tries at most a hundred staging names and leaves none behind:
    when it has returned or thrown, every name in the directory is the journal
    or one that was there before. *)
Theorem journal_save_leaves_no_staging tmp_name raw d0 os pc d :
  save_run tmp_name raw os (PCreate 0) d0 = Some (pc, d) → pc = PDone ∨ pc = PThrown →
  ∀ name, is_Some (dir d !! name) → name = journal_name ∨ is_Some (dir d0 !! name).
Proof.
  intros E Hpc name Hn.
  assert (∀ os pc1 d1, names_known d0 pc1 d1 → save_run tmp_name raw os pc1 d1 = Some (pc, d) → names_known d0 pc d) as Hrun.
  { clear. induction os as [|o os IH]; intros pc1 d1 H E; simpl in E; [by simplify_eq|].
    destruct (save_step tmp_name raw o pc1 d1) as [[pc2 d2]|] eqn:Es; [|done]. simpl in E.
    eapply IH; [|done]. by eapply save_step_names. }
  assert (names_known d0 (PCreate 0) d0) as H0 by (intros ? ?; auto).
  destruct (Hrun os _ _ H0 E name Hn) as [?|[?|Ht]]; auto. destruct Hpc as [-> | ->]; done.
Qed.

(** ** Concrete runs *)

Module JournalStoreExamples.

Definition staging (n : nat) : text := lit ".transaction-7-" ++ number (Z.of_nat n).

Lemma staging_ne n : staging n ≠ journal_name.
Proof. unfold staging, journal_name. by simpl. Qed.

Definition disk0 : Disk := {|
  inodes := {[ 0%nat := {| content := lit "{}"; synced := true |} ]};
  dir := {[ journal_name := 0%nat ]};
  durable := [ {[ journal_name := 0%nat ]} ];
|}.

Definition raw0 : text := lit "phase = ready".


(** The write is split by an interrupt. *)
Definition success : list Outcome :=
  [Go; Go; Wrote 5; Interrupted; Wrote 8; Go; Go; Go; Go; Go; Go].

Definition after (os : list Outcome) : SavePc * Disk :=
  default (PThrown, disk0) (save_run staging raw0 os (PCreate 0) disk0).

Lemma disk0_settled : settled (Some (lit "{}")) disk0.
Proof.
  split.
  - done.
  - intros name i Hi. simpl in Hi. apply lookup_singleton_Some in Hi as [_ <-]. vm_compute. by eexists.
  - vm_compute. by eexists.
Defined.

Lemma journal_save_atomic_witness :
  (after success).1 = PDone ∧ visible (after success).2 = Some raw0.
Proof.
  split; [vm_compute; reflexivity|].
  refine (proj1 (proj2 (proj2 (journal_save_atomic staging raw0 (Some (lit "{}")) disk0 success PDone
    (after success).2 staging_ne disk0_settled _)) eq_refl)).
  vm_compute. reflexivity.
Defined.

Lemma journal_save_leaves_no_staging_witness :
  dir (after (take 6 success ++ [Fails; Go])).2 !! staging 0 = None.
Proof.
  destruct (dir (after (take 6 success ++ [Fails; Go])).2 !! staging 0) eqn:E; [|reflexivity]. exfalso.
  destruct (journal_save_leaves_no_staging staging raw0 disk0 (take 6 success ++ [Fails; Go]) PThrown
              (after (take 6 success ++ [Fails; Go])).2) with (name := staging 0) as [H|H].
  - vm_compute. reflexivity.
  - right. reflexivity.
  - rewrite E. eexists. reflexivity.
  - by apply staging_ne in H.
  - vm_compute in H. destruct H as [x H]. discriminate H.
Defined.
End JournalStoreExamples.
