(* ===== verification/TransactionJournal.v ===== *)
(** * The journal of a migration

    Model of client/server_scripts/awg_migration/native/transaction_journal.cpp
    and .h: the record of a migration and its validation, the containers it
    plans and owns, cleanup after an aborted migration and recovery of a ready
    one.  The journal object is shared by all operations and keeps what was
    written to it before an exception; commands go through the injected runner.
    The file itself is replaced as in JournalStore.v. *)

From stdpp Require Import gmap.
From S2P Require Import Prelude Text QtInterface Command JsonC.
#[local] Open Scope Z_scope.
#[local] Open Scope amnezia_scope.

(** ** Reading the journal object *)

Definition kMaxJournalBytes : Z := 4 * 1024 * 1024.

Definition field (p : cjson) (key : text) (t : json_type) : result text cjson :=
  match json_object_object_get_ex p key with
  | Some v => if json_object_is_type v t then Ok v else Err (lit "invalid journal field: " ++ key)
  | None => Err (lit "invalid journal field: " ++ key)
  end.

Definition str (p : cjson) (key : text) : result text text :=
  let? v := field p key json_type_string in
  let s := json_object_get_string v in
  if contains_char 0 s then Err (lit "embedded NUL in journal") else Ok s.

Definition boolean (p : cjson) (key : text) : result text bool :=
  let? v := field p key json_type_boolean in Ok (json_object_get_boolean v).

Definition has_member (p : cjson) (key : text) : bool := bool_decide (is_Some (json_object_object_get_ex p key)).

Definition optionalString (p : cjson) (key : text) : result text text :=
  match json_object_object_get_ex p key with
  | None | Some CNull => Ok []
  | Some _ => str p key
  end.

Definition put (p : cjson) (key s : text) : cjson := json_object_object_add p key (CString s).

(** ** Patterns *)

Definition lower_hex_of (n : Z) (s : text) : bool := (tsize s =? n) && forallb is_lower_hex s.

Definition is_alnum (c : Z) : bool :=
  is_digit c || ((65 <=? c) && (c <=? 90)) || ((97 <=? c) && (c <=? 122)).

Definition containerName_match (s : text) : bool :=
  match s with
  | [] => false
  | c :: s' =>
      is_alnum c && (tsize s' <=? 127)
      && forallb (λ c, is_alnum c || (c =? 95) || (c =? 46) || (c =? 45)) s'
  end.

Definition imageId_match (s : text) : bool :=
  starts_with (lit "sha256:") s && lower_hex_of 64 (drop 7 s).

Definition generation_match (s : text) : bool :=
  match s with
  | [] => false
  | c :: s' => (49 <=? c) && (c <=? 57) && (tsize s' <=? 15) && forallb is_digit s'
  end.

Definition host_match (s : text) : bool :=
  (1 <=? tsize s) && (tsize s <=? 253) && forallb (λ c, is_alnum c || (c =? 46) || (c =? 45)) s.

Definition containerId (s : text) : result text () :=
  reject_if (negb (lower_hex_of 64 s)) (lit "invalid immutable container ID").
Definition containerName (s : text) : result text () :=
  reject_if (negb (containerName_match s)) (lit "invalid container name").
Definition imageId (s : text) : result text () :=
  reject_if (negb (imageId_match s)) (lit "invalid immutable image ID").

Definition suffix (s tail : text) : bool := ends_with tail s.

(** ** Validation *)

Definition sourceNames : list text := [lit "amnezia-awg"; lit "amnezia-awg2"].
Definition phases : list text :=
  [lit "preparing"; lit "creating"; lit "ready"; lit "activating"; lit "aborted"].

(** The names a journal may own. *)
Definition componentNames (target : text) : list text :=
  [target; target ++ lit "-control"; target ++ lit "-source-control"; target ++ lit "-logs"; target ++ lit "-feeds"].

Definition reject_unless (b : bool) (e : text) : result text () := reject_if (negb b) e.

(** One entry of the containers. *)
Definition validateComponent (value containers : cjson) (name : text) : result text () :=
  let? target := str value (lit "target") in
  let? _ := reject_unless (bool_decide (name ∈ componentNames target)) (lit "journal component scope") in
  let? _ := containerName name in
  let? entry := field containers name json_type_object in
  let? image := str entry (lit "image") in
  let? _ := imageId image in
  let? _ := reject_unless (has_member entry (lit "id")) (lit "journal container ID missing") in
  let? id := optionalString entry (lit "id") in
  if is_empty id then Ok () else
  let? _ := containerId id in
  let? sourceId := str value (lit "sourceId") in
  reject_if (text_eqb id sourceId) (lit "owned component aliases source VPN").

Fixpoint each_ok {A} (f : A → result text ()) (l : list A) : result text () :=
  match l with
  | [] => Ok ()
  | x :: l' => let? _ := f x in each_ok f l'
  end.

(** [scope] and [generation] are the last two parts of the directory. *)
Definition validate (scope generation : text) (value : cjson) : result text () :=
  let? owner := str value (lit "owner") in
  let? _ := reject_unless (lower_hex_of 32 owner) (lit "journal owner") in
  let? phase := str value (lit "phase") in
  let? _ := reject_unless (bool_decide (phase ∈ phases)) (lit "journal phase") in
  let? sourceName := str value (lit "source") in
  let? _ := reject_unless (bool_decide (sourceName ∈ sourceNames)) (lit "unsupported journal source") in
  let? _ := containerName sourceName in
  let? _ := reject_unless (text_eqb scope sourceName) (lit "journal source directory") in
  let? sourceId := str value (lit "sourceId") in
  let? _ := containerId sourceId in
  let? target := str value (lit "target") in
  let? _ := containerName target in
  let? iface := str value (lit "sourceIface") in
  let? _ := reject_unless (text_eqb iface (lit "wg0") || text_eqb iface (lit "awg0"))
              (lit "journal source interface") in
  let? _ := boolean value (lit "sourceRules") in
  let? sourceDigest := str value (lit "sourceDigest") in
  let? _ := reject_unless (lower_hex_of 64 sourceDigest) (lit "journal source digest") in
  let? request := field value (lit "request") json_type_object in
  let? gen := field request (lit "generation") json_type_int in
  let gen := json_object_get_int64 gen in
  let? _ := reject_if ((gen <? 1) || (gen >? 9007199254740991) || negb (text_eqb generation (number gen)))
              (lit "journal generation") in
  let? _ := reject_unless (text_eqb target (sourceName ++ lit "-migration-" ++ number gen))
              (lit "journal target generation") in
  let? _ := reject_unless (text_eqb iface (if text_eqb sourceName (lit "amnezia-awg") then lit "wg0" else lit "awg0"))
              (lit "journal interface scope") in
  let? port := field request (lit "port") json_type_int in
  let port := json_object_get_int64 port in
  let? host := if (port <? 1024) || (port >? 65535) then Err (lit "journal request")
               else str request (lit "host") in
  let? _ := reject_unless (host_match host) (lit "journal request") in
  let? _ := str request (lit "image") in
  let? containers := field value (lit "containers") json_type_object in
  each_ok (validateComponent value containers) (ckeys (cmembers containers)).

(** ** The world of the operations *)

Record CommandResult := { status : Z; output : text; error : text }.

(** How replacing the file ended: see [journal_save_atomic]. *)
Inductive CommitResult :=
| Committed
| NotReplaced (e : text)
| ReplacedUnsynced (e : text).

(** The journal object, the file, and the commands run so far (the log is not
    in the code; the theorems read it). *)
Record JournalWorld (W : Type) := {
  jw_value : cjson;
  jw_store : option text;
  jw_log : list (list text * CommandResult);
  jw_outer : W;
}.
Arguments jw_value {W}.
Arguments jw_store {W}.
Arguments jw_log {W}.
Arguments jw_outer {W}.

Section journal.
Set Default Proof Using "Type".
Context `{JsonC} {W : Type}.
Context (runner : list text → W → CommandResult * W).
Context (fault : text → W → option text * W).
Context (commit : text → W → CommitResult * W).
Context (sha256hex : text → result text text).
Context (scope generation : text).

Notation jcmd A := (cmd (JournalWorld W) A).

Definition get_value : jcmd cjson := cmd_get (λ w, Ok (jw_value w)).

Definition set_value (v : cjson) : jcmd () :=
  cmd_modify (λ w, {| jw_value := v; jw_store := jw_store w; jw_log := jw_log w; jw_outer := jw_outer w |}).

(** [checkpoint]. *)
Definition checkpoint (point : text) : jcmd () := λ w,
  let '(e, outer) := fault point (jw_outer w) in
  (match e with Some x => Err x | None => Ok () end,
   {| jw_value := jw_value w; jw_store := jw_store w; jw_log := jw_log w; jw_outer := outer |}).

(** A call of the runner. *)
Definition run (args : list text) : jcmd CommandResult := λ w,
  let '(r, outer) := runner args (jw_outer w) in
  (Ok r, {| jw_value := jw_value w; jw_store := jw_store w; jw_log := jw_log w ++ [(args, r)]; jw_outer := outer |}).

Definition command (args : list text) : jcmd CommandResult :=
  let! result := run args in
  cmd_ret (if negb (status result =? 0) then Err (lit "journal command unavailable") else Ok result).

(** Replaces the file. *)
Definition commit_file (raw : text) : jcmd () := λ w,
  let '(r, outer) := commit raw (jw_outer w) in
  let store := match r with NotReplaced _ => jw_store w | _ => Some raw end in
  (match r with Committed => Ok () | NotReplaced e | ReplacedUnsynced e => Err e end,
   {| jw_value := jw_value w; jw_store := store; jw_log := jw_log w; jw_outer := outer |}).

Definition json_blank (c : Z) : bool := (c =? 32) || (c =? 13) || (c =? 10) || (c =? 9).

Definition parse (raw : text) : result text cjson :=
  if tsize raw >? kMaxJournalBytes then Err (lit "journal JSON too large") else
  match json_tokener_parse 48 raw with
  | None | Some (CNull, _) => Err (lit "invalid journal JSON")
  | Some (v, n) => if forallb json_blank (drop n raw) then Ok v else Err (lit "invalid journal JSON")
  end.

Definition snapshot : jcmd text := let! v := get_value in cmd_ret (Ok (json_to_string v)).

Definition save (phase : text) : jcmd () :=
  let! v := get_value in
  let! _ := cmd_when (negb (is_empty phase)) (set_value (put v (lit "phase") phase)) in
  let! v := get_value in
  let! _ := cmd_ret (validate scope generation v) in
  let! raw := snapshot in
  let! _ := cmd_ret (reject_if (tsize raw >? kMaxJournalBytes) (lit "journal JSON too large")) in
  commit_file raw.

(** ** Containers *)

Definition ascii_tolower (c : Z) : Z := if (65 <=? c) && (c <=? 90) then c + 32 else c.

Definition inspect_args (id : text) : list text := [lit "docker"; lit "inspect"; id].

(** What one inspection says; [None] when there is no such container. *)
Definition inspected (r : CommandResult) : result text (option cjson) :=
  if negb (status r =? 0) then
    let err := map ascii_tolower (error r) in
    if contains_text (lit "no such object") err || contains_text (lit "no such container") err
    then Ok None else Err (lit "ownership inspection unavailable")
  else
    let? list := parse (output r) in
    match list with
    | CArray [item] =>
        if json_object_is_type item json_type_object then Ok (Some item)
        else Err (lit "invalid ownership inspection")
    | _ => Err (lit "ambiguous ownership")
    end.

Definition inspect (id : text) : jcmd (option cjson) :=
  let! r := run (inspect_args id) in cmd_ret (inspected r).

(** The comparison of an inspected container with its entry. *)
Definition ownership (value entry : cjson) (id name : text) (observed : cjson) : result text () :=
  let? config := field observed (lit "Config") json_type_object in
  let? labels := field config (lit "Labels") json_type_object in
  let? actualId := str observed (lit "Id") in
  let? _ := containerId actualId in
  let? label := str labels (lit "amnezia.migration.owner") in
  let? owner := str value (lit "owner") in
  let? _ := reject_unless (text_eqb label owner) (lit "ownership collision; human review required") in
  let? image := str observed (lit "Image") in
  let? expected := str entry (lit "image") in
  let? _ := reject_unless (text_eqb image expected) (lit "ownership collision; human review required") in
  let? _ := reject_if (negb (is_empty id) && negb (text_eqb actualId id))
              (lit "ownership collision; human review required") in
  let? observedName := str observed (lit "Name") in
  let? _ := reject_unless (text_eqb observedName (lit "/" ++ name)) (lit "ownership collision; human review required") in
  let? _ := field observed (lit "State") json_type_object in
  Ok ().

Definition owned (name : text) : jcmd (option cjson) :=
  let! v := get_value in
  let! containers := cmd_ret (field v (lit "containers") json_type_object) in
  let! entry := cmd_ret (field containers name json_type_object) in
  let! id := cmd_ret (optionalString entry (lit "id")) in
  let! observed := inspect (if is_empty id then name else id) in
  match observed with
  | None => cmd_ret (Ok None)
  | Some c => let! _ := cmd_ret (ownership v entry id name c) in cmd_ret (Ok (Some c))
  end.

(** [put] on an entry of the containers, in the shared object. *)
Definition set_entry (value containers entry : cjson) (name : text) : cjson :=
  json_object_object_add value (lit "containers") (json_object_object_add containers name entry).

Definition plan (name image : text) : jcmd () :=
  let! _ := cmd_ret (containerName name) in
  let! _ := cmd_ret (imageId image) in
  let! v := get_value in
  let! containers := cmd_ret (field v (lit "containers") json_type_object) in
  let! _ := cmd_ret (reject_if (has_member containers name) (lit "container already planned")) in
  let item := json_object_object_add (put (CObject []) (lit "image") image) (lit "id") CNull in
  let! _ := set_value (set_entry v containers item name) in
  save (lit "creating").

Definition record (name : text) : jcmd () :=
  let! observed := owned name in
  match observed with
  | None => cmd_ret (Err (lit "created container not found"))
  | Some c =>
      let! v := get_value in
      let! containers := cmd_ret (field v (lit "containers") json_type_object) in
      let! entry := cmd_ret (field containers name json_type_object) in
      let! id := cmd_ret (str c (lit "Id")) in
      let! _ := set_value (set_entry v containers (put entry (lit "id") id) name) in
      save []
  end.

Definition verifyRequest (requestJson sourceBytes : text) : jcmd () :=
  let! request := cmd_ret (parse requestJson) in
  let! v := get_value in
  let! stored := cmd_ret (field v (lit "request") json_type_object) in
  if negb (json_object_equal request stored) then cmd_ret (Err (lit "same generation request drift")) else
  let! digest := cmd_ret (sha256hex sourceBytes) in
  let! expected := cmd_ret (str v (lit "sourceDigest")) in
  cmd_ret (reject_unless (text_eqb digest expected) (lit "same generation request drift")).

(** The inspected source container is still the one of the journal. *)
Definition sourceUnchanged (v : cjson) (source : option cjson) : result text () :=
  match source with
  | None => Err (lit "source namespace replaced")
  | Some c =>
      let? id := str c (lit "Id") in
      let? sourceId := str v (lit "sourceId") in
      let? _ := reject_unless (text_eqb id sourceId) (lit "source namespace replaced") in
      let? name := str c (lit "Name") in
      let? sourceName := str v (lit "source") in
      reject_unless (text_eqb name (lit "/" ++ sourceName)) (lit "source namespace replaced")
  end.

Definition inspectSource : jcmd (option cjson) :=
  let! v := get_value in
  let! sourceId := cmd_ret (str v (lit "sourceId")) in
  let! source := inspect sourceId in
  let! _ := cmd_ret (sourceUnchanged v source) in
  cmd_ret (Ok source).

(** ** Rules in the source container *)

Definition sourceRuleList (owner iface : text) : list (text * text) :=
  [(lit "-I INPUT 1", lit "-p tcp --dport 18082 -m comment --comment " ++ owner ++ lit " -j REJECT");
   (lit "-I INPUT 1",
    lit "-i " ++ iface ++ lit " -p tcp --dport 18082 -m comment --comment " ++ owner ++ lit " -j ACCEPT");
   (lit "-t nat -A PREROUTING",
    lit "-i " ++ iface ++ lit " -d 172.29.172.251/32 -p tcp --dport 18082 -m comment --comment " ++ owner
    ++ lit " -j REDIRECT --to-ports 18082")].

Definition isInputRule (rule : text * text) : bool := text_eqb rule.1 (lit "-I INPUT 1").
Definition ruleCheck (rule : text * text) : text :=
  if isInputRule rule then lit "-C INPUT" else lit "-t nat -C PREROUTING".
Definition ruleShell (remove : bool) (rule : text * text) : text :=
  if remove
  then lit "iptables " ++ (if isInputRule rule then lit "-D INPUT" else lit "-t nat -D PREROUTING")
       ++ lit " " ++ rule.2 ++ lit " 2>/dev/null || true"
  else lit "iptables " ++ ruleCheck rule ++ lit " " ++ rule.2 ++ lit " 2>/dev/null || iptables "
       ++ rule.1 ++ lit " " ++ rule.2.

Definition execShell (sourceId shell : text) : list text :=
  [lit "docker"; lit "exec"; sourceId; lit "sh"; lit "-c"; shell].

Definition applyRule (remove : bool) (rule : text * text) : jcmd () :=
  let! v := get_value in
  let! sourceId := cmd_ret (str v (lit "sourceId")) in
  let! _ := command (execShell sourceId (ruleShell remove rule)) in
  if remove then cmd_ret (Ok ())
  else let! _ := command (execShell sourceId (lit "iptables " ++ ruleCheck rule ++ lit " " ++ rule.2)) in
       cmd_ret (Ok ()).

Definition sourceRules (remove : bool) : jcmd () :=
  let! _ := inspectSource in
  let! v := get_value in
  let! owner := cmd_ret (str v (lit "owner")) in
  let! iface := cmd_ret (str v (lit "sourceIface")) in
  cmd_each (applyRule remove) (sourceRuleList owner iface).

(** ** Cleanup *)

Definition containerNames : jcmd (list text) :=
  let! v := get_value in
  let! containers := cmd_ret (field v (lit "containers") json_type_object) in
  cmd_ret (Ok (ckeys (cmembers containers))).

Definition removeOwned (name : text) : jcmd () :=
  let! observed := owned name in
  let! _ := match observed with
            | None => cmd_ret (Ok ())
            | Some c =>
                let! id := cmd_ret (str c (lit "Id")) in
                let! _ := command [lit "docker"; lit "rm"; lit "-f"; id] in
                cmd_ret (Ok ())
            end in
  checkpoint (lit "cleanup-container").

Definition maintenanceFree : jcmd () :=
  let! v := get_value in
  cmd_ret (reject_if (has_member v (lit "controlMaintenance")) (lit "control maintenance recovery required")).

Definition journalBoolean (key : text) : jcmd bool := let! v := get_value in cmd_ret (boolean v key).

(** Up to the last save. *)
Definition cleanup_body : jcmd () :=
  let! _ := maintenanceFree in
  let! entries := containerNames in
  let entries := reverse entries in
  let! _ := cmd_each (λ name, let! _ := owned name in cmd_ret (Ok ())) entries in
  let! rules := journalBoolean (lit "sourceRules") in
  let! _ := cmd_when rules (let! _ := inspectSource in cmd_ret (Ok ())) in
  let! _ := cmd_each removeOwned entries in
  let! rules := journalBoolean (lit "sourceRules") in
  cmd_when rules (sourceRules true).

Definition cleanup : jcmd () :=
  let! _ := cleanup_body in
  save (lit "aborted").

(** ** Recovery of a ready migration *)

Context (attestListener : option (text → W → option text * W)).

Definition attest (id : text) : jcmd () := λ w,
  match attestListener with
  | None => (Err (lit "bad_function_call"), w)
  | Some f =>
      let '(e, outer) := f id (jw_outer w) in
      (match e with Some x => Err x | None => Ok () end,
       {| jw_value := jw_value w; jw_store := jw_store w; jw_log := jw_log w; jw_outer := outer |})
  end.

Definition preflight (name : text) : jcmd () :=
  let! observed := owned name in
  match observed with
  | None => cmd_ret (Err (lit "ready component missing; human review required"))
  | Some c =>
      let! state := cmd_ret (field c (lit "State") json_type_object) in
      let! _ := cmd_ret (boolean state (lit "Running")) in
      let! _ := cmd_ret (str state (lit "StartedAt")) in
      cmd_ret (reject_if (suffix name (lit "-source-control") && bool_decide (attestListener = None))
                 (lit "control listener attestor required"))
  end.

(** An inspected container that has gone since the preflight: its fields are
    read through a null pointer, which [field] rejects. *)
Definition observedValue (observed : option cjson) : cjson := default CNull observed.

Definition startOwned (name : text) : jcmd () :=
  let! observed := owned name in
  let! state := cmd_ret (field (observedValue observed) (lit "State") json_type_object) in
  let! running := cmd_ret (boolean state (lit "Running")) in
  let! _ := cmd_when (negb running)
              (let! id := cmd_ret (str (observedValue observed) (lit "Id")) in
               let! _ := command [lit "docker"; lit "start"; id] in cmd_ret (Ok ())) in
  checkpoint (lit "ready-start").

Definition rejoin (parent sourceEpoch targetEpoch name : text) : jcmd () :=
  let! observed := owned name in
  let sourceControl := suffix name (lit "-source-control") in
  let! v := get_value in
  let! stale :=
    cmd_ret (if sourceControl
             then let? e := optionalString v (lit "sourceEpoch") in Ok (negb (text_eqb sourceEpoch e))
             else if text_eqb name parent then Ok false
             else let? e := optionalString v (lit "targetEpoch") in Ok (negb (text_eqb targetEpoch e))) in
  let! _ := cmd_when stale
              (let! id := cmd_ret (str (observedValue observed) (lit "Id")) in
               let! _ := command [lit "docker"; lit "restart"; id] in cmd_ret (Ok ())) in
  let! _ := checkpoint (lit "ready-rejoin") in
  if sourceControl
  then let! id := cmd_ret (str (observedValue observed) (lit "Id")) in attest id
  else cmd_ret (Ok ()).

Definition startedAt (c : option cjson) : result text text :=
  let? state := field (observedValue c) (lit "State") json_type_object in str state (lit "StartedAt").

(** Up to the last save: the epochs it saves. *)
Definition recover_body : jcmd (text * text) :=
  let! v := get_value in
  let! phase := cmd_ret (str v (lit "phase")) in
  let! _ := cmd_ret (reject_unless (text_eqb phase (lit "ready")) (lit "journal is not ready")) in
  let! _ := maintenanceFree in
  let! entries := containerNames in
  let! _ := cmd_each preflight entries in
  let! source := inspectSource in
  let! _ := cmd_each startOwned entries in
  let! rules := journalBoolean (lit "sourceRules") in
  let! _ := cmd_when rules (sourceRules false) in
  let! sourceEpoch := cmd_ret (startedAt source) in
  let! v := get_value in
  let! parent := cmd_ret (str v (lit "target")) in
  let! target := owned parent in
  let! _ := cmd_ret (reject_if (bool_decide (target = None)) (lit "ready target missing")) in
  let! targetEpoch := cmd_ret (startedAt target) in
  let! _ := cmd_each (rejoin parent sourceEpoch targetEpoch) entries in
  cmd_ret (Ok (sourceEpoch, targetEpoch)).

Definition recoverReady : jcmd () :=
  let! epochs := recover_body in
  let! v := get_value in
  let! _ := set_value (put (put v (lit "sourceEpoch") epochs.1) (lit "targetEpoch") epochs.2) in
  save (lit "ready").

(** ** The file is always a valid journal *)

Inductive JournalOp :=
| OpSave (phase : text)
| OpPlan (name image : text)
| OpRecord (name : text)
| OpVerifyRequest (requestJson sourceBytes : text)
| OpCleanup
| OpRecoverReady.

Definition run_op (op : JournalOp) : jcmd () :=
  match op with
  | OpSave phase => save phase
  | OpPlan name image => plan name image
  | OpRecord name => record name
  | OpVerifyRequest requestJson sourceBytes => verifyRequest requestJson sourceBytes
  | OpCleanup => cleanup
  | OpRecoverReady => recoverReady
  end.

(** Runs the operations whatever they return, as a caller that catches. *)
Definition run_ops (ops : list JournalOp) (w : JournalWorld W) : JournalWorld W :=
  foldl (λ w op, (run_op op w).2) w ops.

(** The text of a valid journal that can be read again. *)
Definition journal_text (raw : text) : Prop :=
  ∃ v, raw = json_to_string v ∧ validate scope generation v = Ok () ∧ tsize raw <= kMaxJournalBytes.

Definition store_ok (s : option text) : Prop := ∀ raw, s = Some raw → journal_text raw.

(** A computation that leaves the file alone. *)
Definition keeps_store {A} (m : jcmd A) : Prop := ∀ w, jw_store (m w).2 = jw_store w.

Lemma keeps_bind {A B} (m : jcmd A) (k : A → jcmd B) :
  keeps_store m → (∀ a, keeps_store (k a)) → keeps_store (cmd_bind m k).
Proof.
  intros Hm Hk w. unfold cmd_bind. specialize (Hm w). destruct (m w) as [[a|e] w1]; simpl in *; [|done].
  by rewrite Hk.
Qed.

Lemma keeps_ret {A} (r : result text A) : keeps_store (cmd_ret r).
Proof. done. Qed.

Lemma keeps_get {A} (f : JournalWorld W → result text A) : keeps_store (cmd_get f).
Proof. done. Qed.

Lemma keeps_set v : keeps_store (set_value v).
Proof. done. Qed.

Lemma keeps_run args : keeps_store (run args).
Proof. intros w. unfold run. by destruct (runner args (jw_outer w)). Qed.

Lemma keeps_checkpoint point : keeps_store (checkpoint point).
Proof. intros w. unfold checkpoint. by destruct (fault point (jw_outer w)). Qed.

Lemma keeps_attest id : keeps_store (attest id).
Proof.
  intros w. unfold attest. destruct attestListener as [f|]; [|done]. by destruct (f id (jw_outer w)).
Qed.

Lemma keeps_each {A} (f : A → jcmd ()) l : (∀ x, keeps_store (f x)) → keeps_store (cmd_each f l).
Proof.
  intros Hf. unfold cmd_each. induction l as [|x l IH]; [done|]. cbn [cmd_fold].
  apply keeps_bind; [apply Hf|intros []; exact IH].
Qed.

Lemma keeps_when b (m : jcmd ()) : keeps_store m → keeps_store (cmd_when b m).
Proof. by destruct b. Qed.

Hint Resolve keeps_bind keeps_ret keeps_get keeps_set keeps_run keeps_checkpoint keeps_attest keeps_each keeps_when : keeps.

(** Goes through a computation. *)
Ltac keeps :=
  repeat first
    [ done
    | apply keeps_bind; [|intros ?]
    | apply keeps_each; intros ?
    | apply keeps_when
    | solve [eauto with keeps]
    | match goal with |- keeps_store (match ?x with _ => _ end) => destruct x end ].

Lemma keeps_owned name : keeps_store (owned name).
Proof. unfold owned, inspect, get_value. keeps. Qed.

Lemma keeps_inspectSource : keeps_store inspectSource.
Proof. unfold inspectSource, inspect, get_value. keeps. Qed.
Hint Resolve keeps_owned keeps_inspectSource : keeps.

Lemma keeps_command args : keeps_store (command args).
Proof. unfold command. keeps. Qed.
Hint Resolve keeps_command : keeps.

Lemma keeps_sourceRules remove : keeps_store (sourceRules remove).
Proof. unfold sourceRules, applyRule, get_value. keeps. Qed.

Lemma keeps_maintenanceFree : keeps_store maintenanceFree.
Proof. unfold maintenanceFree, get_value. keeps. Qed.

Lemma keeps_containerNames : keeps_store containerNames.
Proof. unfold containerNames, get_value. keeps. Qed.

Lemma keeps_journalBoolean key : keeps_store (journalBoolean key).
Proof. unfold journalBoolean, get_value. keeps. Qed.
Hint Resolve keeps_sourceRules keeps_maintenanceFree keeps_containerNames keeps_journalBoolean : keeps.

(** A computation that keeps the file a valid journal, and when it succeeds has
    stored the object. *)
Definition saves (m : jcmd ()) : Prop :=
  ∀ w r w', store_ok (jw_store w) → m w = (r, w') →
    store_ok (jw_store w')
    ∧ (r = Ok () → jw_store w' = Some (json_to_string (jw_value w'))
                   ∧ validate scope generation (jw_value w') = Ok ()).

Lemma saves_bind {A} (m : jcmd A) (k : A → jcmd ()) :
  keeps_store m → (∀ a, saves (k a)) → saves (cmd_bind m k).
Proof.
  intros Hm Hk w r w' Hs E. unfold cmd_bind in E. specialize (Hm w).
  destruct (m w) as [[a|e] w1]; simpl in Hm.
  - apply (Hk a w1 r w'); [by rewrite Hm|done].
  - simplify_eq. split; [by rewrite Hm|done].
Qed.

Lemma saves_ret_Err e : saves (cmd_ret (Err e)).
Proof. intros w r w' Hs E. unfold cmd_ret in E. by simplify_eq. Qed.

Lemma saves_save phase : saves (save phase).
Proof.
  unfold save, get_value. apply saves_bind; [keeps|intros v]. apply saves_bind; [keeps|intros _].
  intros w r w' Hs E. unfold cmd_bind, cmd_get, cmd_ret, snapshot, get_value, cmd_bind, cmd_get, cmd_ret in E.
  destruct (validate scope generation (jw_value w)) as [[]|e] eqn:Ev; [|by simplify_eq].
  destruct (tsize (json_to_string (jw_value w)) >? kMaxJournalBytes) eqn:Et; simpl in E; [by simplify_eq|].
  rewrite Z.gtb_ltb, Z.ltb_ge in Et.
  assert (journal_text (json_to_string (jw_value w))) as Hj by (by exists (jw_value w)).
  unfold commit_file in E. destruct (commit (json_to_string (jw_value w)) (jw_outer w)) as [c outer].
  destruct c as [|e|e]; simplify_eq; simpl; split; try done;
    intros raw Hraw; first [by apply Hs | by simplify_eq].
Qed.
Hint Resolve saves_save : keeps.

Ltac saves :=
  repeat first
    [ apply saves_save | apply saves_ret_Err
    | apply saves_bind; [solve [keeps]|intros ?]
    | match goal with |- saves (match ?x with _ => _ end) => destruct x end ].

Lemma run_op_saves op :
  (∀ r s, op ≠ OpVerifyRequest r s) → saves (run_op op).
Proof.
  intros Hop. destruct op as [phase|name image|name|rq sb| |]; simpl.
  - apply saves_save.
  - unfold plan, get_value. saves.
  - unfold record, get_value. saves.
  - by destruct (Hop rq sb).
  - unfold cleanup, cleanup_body, removeOwned, get_value. saves.
  - unfold recoverReady, recover_body, preflight, startOwned, rejoin, get_value. saves.
Qed.

Lemma keeps_verifyRequest rq sb : keeps_store (verifyRequest rq sb).
Proof. unfold verifyRequest, get_value. keeps. Qed.

(** ** What the commands are justified by *)

Notation history := (list (list text * CommandResult)).

Section commands.
Context (v : cjson).

(** The inspected container carries the owner label of the journal, the image
    and the name of the entry, and its identifier if one is recorded. *)
Definition owned_as (entry : cjson) (id name : text) (c : cjson) : Prop :=
  (∃ config labels owner, field c (lit "Config") json_type_object = Ok config
     ∧ field config (lit "Labels") json_type_object = Ok labels
     ∧ str labels (lit "amnezia.migration.owner") = Ok owner ∧ str v (lit "owner") = Ok owner)
  ∧ (∃ image, str c (lit "Image") = Ok image ∧ str entry (lit "image") = Ok image)
  ∧ str c (lit "Name") = Ok (lit "/" ++ name)
  ∧ (id ≠ [] → str c (lit "Id") = Ok id).

Lemma reject_unless_Ok b e a : reject_unless b e = Ok a → b = true.
Proof. unfold reject_unless. by destruct b. Qed.

Lemma ownership_owned entry id name c : ownership v entry id name c = Ok () → owned_as entry id name c.
Proof.
  unfold ownership. intros E.
  apply rbind_Ok in E as (config & E1 & E). apply rbind_Ok in E as (labels & E2 & E).
  apply rbind_Ok in E as (actual & E3 & E). apply rbind_Ok in E as ([] & _ & E).
  apply rbind_Ok in E as (label & E4 & E). apply rbind_Ok in E as (owner & E5 & E).
  apply rbind_Ok in E as ([] & Hl%reject_unless_Ok%text_eqb_eq & E). apply rbind_Ok in E as (image & E6 & E).
  apply rbind_Ok in E as (expected & E7 & E). apply rbind_Ok in E as ([] & Hi%reject_unless_Ok%text_eqb_eq & E).
  apply rbind_Ok in E as ([] & Hid & E). apply rbind_Ok in E as (observedName & E8 & E).
  apply rbind_Ok in E as ([] & Hn%reject_unless_Ok%text_eqb_eq & _). subst. split; [by exists config, labels, owner|].
  split; [by exists expected|]. split; [done|]. intros Hne. rewrite E3. f_equal. destruct id; [done|].
  unfold reject_if in Hid. cbn in Hid. destruct (text_eqb actual _) eqn:Et; [by apply text_eqb_eq in Et|done].
Qed.

(** The inspected source is the one of the journal. *)
Definition same_source (c : cjson) : Prop :=
  ∃ sourceId sourceName, str v (lit "sourceId") = Ok sourceId ∧ str c (lit "Id") = Ok sourceId
    ∧ str v (lit "source") = Ok sourceName ∧ str c (lit "Name") = Ok (lit "/" ++ sourceName).

Lemma sourceUnchanged_same c : sourceUnchanged v (Some c) = Ok () → same_source c.
Proof.
  unfold sourceUnchanged. intros E. apply rbind_Ok in E as (id & E1 & E). apply rbind_Ok in E as (sourceId & E2 & E).
  apply rbind_Ok in E as ([] & Hi%reject_unless_Ok%text_eqb_eq & E). apply rbind_Ok in E as (name & E3 & E).
  apply rbind_Ok in E as (sourceName & E4 & E). apply reject_unless_Ok, text_eqb_eq in E. subst.
  by exists sourceId, sourceName.
Qed.

(** An inspection of the container of an entry, in the commands run so far. *)
Definition shows (name : text) (e : list text * CommandResult) (o : option cjson) : Prop :=
  ∃ containers entry id,
    field v (lit "containers") json_type_object = Ok containers
    ∧ field containers name json_type_object = Ok entry
    ∧ optionalString entry (lit "id") = Ok id
    ∧ e.1 = inspect_args (if is_empty id then name else id)
    ∧ inspected e.2 = Ok o
    ∧ match o with Some c => owned_as entry id name c | None => True end.

(** The container of [name] was inspected, and was gone or owned. *)
Definition checked (name : text) (h : history) : Prop := ∃ e o, e ∈ h ∧ shows name e o.
(** The container of [name] was inspected and owned. *)
Definition confirmed (name : text) (h : history) : Prop := ∃ e c, e ∈ h ∧ shows name e (Some c).
(** [id] is the container of an entry, inspected and owned. *)
Definition owned_id (id : text) (h : history) : Prop :=
  ∃ name e c, e ∈ h ∧ shows name e (Some c) ∧ str c (lit "Id") = Ok id.

(** The inspected source container was still the one of the journal. *)
Definition source_checked (h : history) : Prop :=
  ∃ sourceId r c, str v (lit "sourceId") = Ok sourceId ∧ (inspect_args sourceId, r) ∈ h
    ∧ inspected r = Ok (Some c) ∧ same_source c.

(** A shell command on the migration's own rules. *)
Definition rule_shell (remove : bool) (shell : text) : Prop :=
  ∃ owner iface rule,
    str v (lit "owner") = Ok owner ∧ str v (lit "sourceIface") = Ok iface ∧ rule ∈ sourceRuleList owner iface
    ∧ (shell = ruleShell remove rule ∨ remove = false ∧ shell = lit "iptables " ++ ruleCheck rule ++ lit " " ++ rule.2).

(** A command that was run with success. *)
Definition succeeded (args : list text) (h : history) : Prop := ∃ r, (args, r) ∈ h ∧ status r = 0.

Definition mono (P : history → Prop) : Prop := ∀ h l, P h → P (h ++ l).

Lemma mono_source_checked : mono source_checked.
Proof. intros h l (i & r & c & H1 & H2 & H3). exists i, r, c. by rewrite elem_of_app; auto. Qed.

Lemma mono_and P Q : mono P → mono Q → mono (λ h, P h ∧ Q h).
Proof. intros HP HQ h l [H1 H2]. auto. Qed.

Lemma mono_checked name : mono (checked name).
Proof. intros h l (e & o & H1 & H2). exists e, o. by rewrite elem_of_app; auto. Qed.

Lemma mono_confirmed name : mono (confirmed name).
Proof. intros h l (e & o & H1 & H2). exists e, o. by rewrite elem_of_app; auto. Qed.

Lemma mono_succeeded args : mono (succeeded args).
Proof. intros h l (r & H1 & H2). exists r. by rewrite elem_of_app; auto. Qed.

(** [all] is what must hold before anything is changed, [remove] whether the
    rules are removed, [verb] the commands on containers that are allowed. *)
Context (all : history → Prop) (remove : bool) (verb : text → list text → Prop).

Definition justified (h : history) (args : list text) : Prop :=
  (∃ id, args = inspect_args id)
  ∨ all h ∧ ((∃ sourceId shell, str v (lit "sourceId") = Ok sourceId ∧ args = execShell sourceId shell
                                ∧ rule_shell remove shell ∧ source_checked h)
             ∨ ∃ id, verb id args ∧ owned_id id h).

Definition log_ok (h l : history) : Prop :=
  ∀ pre e post, l = pre ++ e :: post → justified (h ++ pre) e.1.

Lemma log_ok_nil h : log_ok h [].
Proof. intros pre e post E. by destruct pre. Qed.

Lemma log_ok_app h l1 l2 : log_ok h l1 → log_ok (h ++ l1) l2 → log_ok h (l1 ++ l2).
Proof.
  intros H1 H2 pre e post E. apply app_eq_inv in E as [(k & -> & E)|(k & -> & E)].
  - destruct k as [|x k]; simpl in E.
    + rewrite app_nil_r in *. subst l2. specialize (H2 [] e post eq_refl). by rewrite app_nil_r in H2.
    + simplify_eq. by eapply H1.
  - rewrite app_assoc. by eapply H2.
Qed.

(** [m], started on the journal [v] in a history satisfying [Pre], keeps the
    journal, runs only justified commands, and when it succeeds reaches [Post]. *)
Definition triple {A} (Pre : history → Prop) (m : jcmd A) (Post : A → history → Prop) : Prop :=
  ∀ h w r w', Pre h → jw_value w = v → m w = (r, w') →
    jw_value w' = v
    ∧ ∃ l, jw_log w' = jw_log w ++ l ∧ log_ok h l ∧ ∀ a, r = Ok a → Post a (h ++ l).

Lemma t_bind {A B} Pre (m : jcmd A) (k : A → jcmd B) Mid Post :
  triple Pre m Mid → (∀ a, triple (Mid a) (k a) Post) → triple Pre (cmd_bind m k) Post.
Proof.
  intros Hm Hk h w r w' HP Hv E. unfold cmd_bind in E.
  destruct (m w) as [[a|e] w1] eqn:Em; destruct (Hm h w _ w1 HP Hv Em) as (Hv1 & l1 & Hl1 & Ho1 & HM).
  - destruct (Hk a (h ++ l1) w1 r w' (HM a eq_refl) Hv1 E) as (Hv2 & l2 & Hl2 & Ho2 & HP2).
    split; [done|]. exists (l1 ++ l2). rewrite Hl2, Hl1, app_assoc. split; [done|].
    split; [by apply log_ok_app|]. intros b Hb. rewrite app_assoc. by apply HP2.
  - simplify_eq. split; [done|]. exists l1. split; [done|]. split; [done|]. done.
Qed.

Lemma t_ret {A} Pre (r : result text A) (Post : A → history → Prop) :
  (∀ h a, Pre h → r = Ok a → Post a h) → triple Pre (cmd_ret r) Post.
Proof.
  intros H1 h w r' w' HP Hv E. unfold cmd_ret in E. simplify_eq. split; [done|]. exists [].
  rewrite !app_nil_r. split; [done|]. split; [apply log_ok_nil|]. eauto.
Qed.

Lemma t_get_value Pre : triple Pre get_value (λ a h, Pre h ∧ a = v).
Proof.
  intros h w r w' HP Hv E. unfold get_value, cmd_get in E. simplify_eq. split; [done|]. exists [].
  rewrite !app_nil_r. split; [done|]. split; [apply log_ok_nil|]. intros a Ha. by simplify_eq.
Qed.

Lemma t_post {A} Pre (m : jcmd A) Post Post' :
  triple Pre m Post → (∀ a h, Post a h → Post' a h) → triple Pre m Post'.
Proof.
  intros Hm HP h w r w' H1 Hv E. destruct (Hm h w r w' H1 Hv E) as (H2 & l & H3 & H4 & H5).
  split; [done|]. exists l. eauto.
Qed.

Lemma t_pre {A} (Pre Pre' : history → Prop) (m : jcmd A) Post :
  (∀ h, Pre h → Pre' h) → triple Pre' m Post → triple Pre m Post.
Proof. intros HP Hm h w r w' H1. apply Hm. auto. Qed.

Lemma t_const {A} (P : Prop) Pre (m : jcmd A) Post :
  (P → triple Pre m Post) → triple (λ h, Pre h ∧ P) m Post.
Proof. intros Hm h w r w' [H1 H2]. by apply Hm. Qed.

Lemma t_run Pre args :
  (∀ h, Pre h → justified h args) →
  triple Pre (run args) (λ r h, ∃ h0, h = h0 ++ [(args, r)] ∧ Pre h0).
Proof.
  intros HJ h w r w' HP Hv E. unfold run in E. destruct (runner args (jw_outer w)) as [c outer]. simplify_eq.
  split; [done|]. exists [(args, c)]. split; [done|]. split.
  - intros pre e post El. destruct pre as [|x pre]; simplify_eq/=; [rewrite app_nil_r; auto|]. by destruct pre.
  - intros a Ha. simplify_eq. eauto.
Qed.

Lemma t_command Pre args :
  mono Pre → (∀ h, Pre h → justified h args) →
  triple Pre (command args) (λ _ h, Pre h ∧ succeeded args h).
Proof.
  intros Hm HJ. unfold command. eapply t_bind; [by apply t_run|]. intros r. simpl. apply t_ret.
  intros h a (h0 & -> & H0) Ha. split; [by apply Hm|]. exists r. split; [by apply elem_of_app; auto using list_elem_of_here|].
  destruct (status r =? 0) eqn:E; [by apply Z.eqb_eq|done].
Qed.

Lemma t_checkpoint Pre point : triple Pre (checkpoint point) (λ _ h, Pre h).
Proof.
  intros h w r w' HP Hv E. unfold checkpoint in E. destruct (fault point (jw_outer w)). simplify_eq.
  split; [done|]. exists []. rewrite !app_nil_r. split; [done|]. split; [apply log_ok_nil|done].
Qed.

Lemma t_attest Pre id : triple Pre (attest id) (λ _ h, Pre h).
Proof.
  intros h w r w' HP Hv E. unfold attest in E.
  assert (jw_value w' = v ∧ jw_log w' = jw_log w) as [H1 H2].
  { destruct attestListener as [f|]; [destruct (f id (jw_outer w))|]; by simplify_eq. }
  split; [done|]. exists []. rewrite !app_nil_r. split; [done|]. split; [apply log_ok_nil|done].
Qed.

Lemma t_when Pre b (m : jcmd ()) :
  (b = true → triple Pre m (λ _ h, Pre h)) → triple Pre (cmd_when b m) (λ _ h, Pre h).
Proof. destruct b; simpl; [auto|]. intros _. apply t_ret. auto. Qed.

(** Each element establishes its own monotone fact. *)
Lemma t_each {A} Pre (f : A → jcmd ()) (Q : A → history → Prop) l :
  mono Pre → (∀ x, mono (Q x)) →
  (∀ x, x ∈ l → triple Pre (f x) (λ _ h, Pre h ∧ Q x h)) →
  triple Pre (cmd_each f l) (λ _ h, Pre h ∧ ∀ x, x ∈ l → Q x h).
Proof.
  intros HP HQ. unfold cmd_each. induction l as [|x l IH]; intros Hf.
  - cbn [cmd_fold]. apply t_ret. intros h a Hh _. split; [done|]. intros y Hy. by apply elem_of_nil in Hy.
  - cbn [cmd_fold]. eapply t_bind; [apply Hf; constructor|]. intros []. simpl.
    intros h w r w' [H1 H2] Hv E.
    destruct (IH ltac:(intros y Hy; apply Hf; by constructor) h w r w' H1 Hv E) as (H3 & l' & H4 & H5 & H6).
    split; [done|]. exists l'. split; [done|]. split; [done|]. intros a Ha. destruct (H6 a Ha) as [K1 K2].
    split; [done|]. intros y [->|Hy]%elem_of_cons; [by apply HQ|auto].
Qed.

Lemma t_each_inv {A} Pre (f : A → jcmd ()) l :
  mono Pre → (∀ x, x ∈ l → triple Pre (f x) (λ _ h, Pre h)) → triple Pre (cmd_each f l) (λ _ h, Pre h).
Proof.
  intros HP Hf. eapply t_post; [apply (t_each Pre f (λ _ _, True)); [done|done|]|by intros ? ? [? ?]].
  intros x Hx. eapply t_post; [by apply Hf|]. by intros; split.
Qed.
(** The two steps most operations are made of. *)
Lemma t_ok {A B} Pre (r : result text A) (k : A → jcmd B) Post :
  (∀ a, r = Ok a → triple Pre (k a) Post) → triple Pre (cmd_bind (cmd_ret r) k) Post.
Proof.
  intros Hk. eapply (t_bind _ _ _ (λ a h, Pre h ∧ r = Ok a)); [apply t_ret; by intros h a H1 H2; split|].
  intros a. apply t_const. auto.
Qed.

Lemma t_value {B} Pre (k : cjson → jcmd B) Post :
  triple Pre (k v) Post → triple Pre (cmd_bind get_value k) Post.
Proof. intros Hk. eapply t_bind; [apply t_get_value|]. intros a. apply t_const. by intros ->. Qed.

Lemma t_inspect Pre id :
  mono Pre → triple Pre (inspect id) (λ o h, Pre h ∧ ∃ r, (inspect_args id, r) ∈ h ∧ inspected r = Ok o).
Proof.
  intros Hm. unfold inspect. eapply t_bind; [apply t_run|].
  - intros h _. left. eauto.
  - intros r. apply t_ret. intros h o (h0 & -> & H0) Ho. split; [by apply Hm|]. exists r. split; [by apply elem_of_app; auto using list_elem_of_here|done].
Qed.

Lemma t_owned Pre name :
  mono Pre → triple Pre (owned name) (λ o h, Pre h ∧ ∃ e, e ∈ h ∧ shows name e o).
Proof.
  intros Hm. unfold owned. apply t_value. apply t_ok. intros containers E1. apply t_ok. intros entry E2.
  apply t_ok. intros id E3. eapply t_bind; [by apply t_inspect|]. intros [c|]; simpl.
  - apply t_ok. intros [] E4%ownership_owned. apply t_ret. intros h a [H0 (r & Hr & Hi)] ?. simplify_eq. split; [done|].
    exists (inspect_args (if is_empty id then name else id), r). split; [done|]. by exists containers, entry, id.
  - apply t_ret. intros h a [H0 (r & Hr & Hi)] ?. simplify_eq. split; [done|].
    exists (inspect_args (if is_empty id then name else id), r). split; [done|]. by exists containers, entry, id.
Qed.

Lemma t_inspectSource Pre :
  mono Pre → triple Pre inspectSource (λ o h, (Pre h ∧ source_checked h) ∧ sourceUnchanged v o = Ok ()).
Proof.
  intros Hm. unfold inspectSource. apply t_value. apply t_ok. intros sourceId E1.
  eapply t_bind; [by apply t_inspect|]. intros o. simpl. apply t_ok. intros [] E2. apply t_ret.
  intros h a [H0 (r & Hr & Hi)] ?. simplify_eq. split; [|done]. split; [done|]. destruct a as [c|]; [|done].
  apply sourceUnchanged_same in E2. by exists sourceId, r, c.
Qed.

Lemma t_applyRule Pre owner iface rule :
  mono Pre → (∀ h, Pre h → all h ∧ source_checked h) →
  str v (lit "owner") = Ok owner → str v (lit "sourceIface") = Ok iface → rule ∈ sourceRuleList owner iface →
  triple Pre (applyRule remove rule) (λ _ h, Pre h).
Proof.
  intros Hm HP E1 E2 Hr. unfold applyRule. apply t_value. apply t_ok. intros sourceId E3.
  assert (∀ shell, shell = ruleShell remove rule
             ∨ remove = false ∧ shell = lit "iptables " ++ ruleCheck rule ++ lit " " ++ rule.2 →
           triple Pre (command (execShell sourceId shell)) (λ _ h, Pre h)) as Hc.
  { intros shell Hs. eapply t_post; [apply t_command; [done|]|by intros ? ? [? ?]].
    intros h H0. destruct (HP h H0) as [H1 H2]. right. split; [done|]. left. exists sourceId, shell.
    repeat (split; [done|]). split; [|done]. by exists owner, iface, rule. }
  eapply t_bind; [apply Hc; by left|]. intros ? ; simpl. case_eq remove; intros Erm; [apply t_ret; auto|].
  eapply t_bind; [apply Hc; by right|]. intros ?; simpl. apply t_ret. auto.
Qed.

Lemma t_sourceRules Pre :
  mono Pre → (∀ h, Pre h → all h) → triple Pre (sourceRules remove) (λ _ h, Pre h).
Proof.
  intros Hm HP. unfold sourceRules. eapply t_bind; [by apply t_inspectSource|]. intros src. simpl.
  apply t_const. intros _. apply t_value. apply t_ok. intros owner E1. apply t_ok. intros iface E2.
  eapply t_post; [apply t_each_inv|by intros ? ? [? ?]].
  - apply mono_and; [done|apply mono_source_checked].
  - intros rule Hr. eapply t_applyRule; [|intros h [H1 H2]; split; [by apply HP|done]|done|done|done].
    apply mono_and; [done|apply mono_source_checked].
Qed.
End commands.

(** ** Cleanup and recovery *)

Definition journalNames (v : cjson) : list text :=
  match field v (lit "containers") json_type_object with
  | Ok containers => ckeys (cmembers containers)
  | Err _ => []
  end.

(** What cleanup has seen before it changes anything. *)
Definition cleanup_ready (v : cjson) (h : history) : Prop :=
  (∀ name, name ∈ journalNames v → checked v name h)
  ∧ (boolean v (lit "sourceRules") = Ok true → source_checked v h).

Definition rm_args (id : text) : list text := [lit "docker"; lit "rm"; lit "-f"; id].

(** The container of [name] is gone, or it was owned and removed. *)
Definition removed (v : cjson) (name : text) (h : history) : Prop :=
  ∃ e o, e ∈ h ∧ shows v name e o
    ∧ match o with
      | None => True
      | Some c => ∃ id, str c (lit "Id") = Ok id ∧ succeeded (rm_args id) h
      end.

(** What recovery has seen before it changes anything. *)
Definition recovery_ready (v : cjson) (h : history) : Prop :=
  (∀ name, name ∈ journalNames v → confirmed v name h) ∧ source_checked v h.

Definition start_args (id : text) : list text := [lit "docker"; lit "start"; id].
Definition restart_args (id : text) : list text := [lit "docker"; lit "restart"; id].

(** The container of [name] was running, or it was owned and started. *)
Definition running (v : cjson) (name : text) (h : history) : Prop :=
  ∃ e c state b, e ∈ h ∧ shows v name e (Some c) ∧ field c (lit "State") json_type_object = Ok state
    ∧ boolean state (lit "Running") = Ok b
    ∧ (b = false → ∃ id, str c (lit "Id") = Ok id ∧ succeeded (start_args id) h).

Lemma mono_forall {A} (P : A → history → Prop) : (∀ x, mono (P x)) → mono (λ h, ∀ x, P x h).
Proof. intros HP h l H1 x. by apply HP. Qed.

Lemma mono_impl (A : Prop) (P : history → Prop) : mono P → mono (λ h, A → P h).
Proof. intros HP h l H1 Ha. apply HP. auto. Qed.

Lemma mono_cleanup_ready v : mono (cleanup_ready v).
Proof.
  apply mono_and.
  - apply mono_forall. intros x. apply mono_impl, mono_checked.
  - apply mono_impl, mono_source_checked.
Qed.

Lemma mono_removed v name : mono (removed v name).
Proof.
  intros h l (e & o & H1 & H2 & H3). exists e, o. split; [by apply elem_of_app; auto using list_elem_of_here|]. split; [done|].
  destruct o as [c|]; [|done]. destruct H3 as (id & H4 & H5). exists id. split; [done|]. by apply mono_succeeded.
Qed.

Lemma mono_recovery_ready v : mono (recovery_ready v).
Proof.
  apply mono_and; [|apply mono_source_checked].
  apply mono_forall. intros x. apply mono_impl, mono_confirmed.
Qed.

Lemma mono_running v name : mono (running v name).
Proof.
  intros h l (e & c & state & b & H1 & H2 & H3 & H4 & H5). exists e, c, state, b. split; [by apply elem_of_app; auto using list_elem_of_here|].
  repeat (split; [done|]). intros Hb. destruct (H5 Hb) as (id & H6 & H7). exists id. split; [done|].
  by apply mono_succeeded.
Qed.

Notation rm_verb := (λ id args, args = rm_args id).
Notation start_verb := (λ id args, args = start_args id ∨ args = restart_args id).

Lemma t_containerNames v all remove verb Pre :
  triple v all remove verb Pre containerNames (λ names h, Pre h ∧ names = journalNames v).
Proof.
  unfold containerNames. apply t_value. apply t_ok. intros containers E. apply t_ret.
  intros h a H0 ?. simplify_eq. split; [done|]. unfold journalNames. by rewrite E.
Qed.

Lemma t_journalBoolean v all remove verb Pre key :
  triple v all remove verb Pre (journalBoolean key) (λ b h, Pre h ∧ boolean v key = Ok b).
Proof. unfold journalBoolean. apply t_value. apply t_ret. auto. Qed.

Lemma t_removeOwned v name :
  triple v (cleanup_ready v) true rm_verb (cleanup_ready v) (removeOwned name)
    (λ _ h, cleanup_ready v h ∧ removed v name h).
Proof.
  unfold removeOwned. eapply t_bind; [apply t_owned, mono_cleanup_ready|]. intros o.
  eapply (t_bind _ _ _ _ _ _ _ (λ _ h, cleanup_ready v h ∧ removed v name h)).
  - destruct o as [c|]; simpl.
    + apply t_ok. intros id E. eapply t_bind; [apply t_command|].
      * apply mono_and; [apply mono_cleanup_ready|]. intros h l (e & H1 & H2). exists e. by rewrite elem_of_app; auto.
      * intros h [H0 (e & H1 & H2)]. right. split; [done|]. right. exists id. split; [done|]. by exists name, e, c.
      * intros r. apply t_ret. intros h a [[H0 (e & H1 & H2)] H3] _. split; [done|].
        exists e, (Some c). split; [done|]. split; [done|]. by exists id.
    + apply t_ret. intros h a [H0 (e & H1 & H2)] _. split; [done|]. by exists e, None.
  - intros _. apply t_checkpoint.
Qed.

Lemma t_cleanup_body v :
  triple v (cleanup_ready v) true rm_verb (λ _, True) cleanup_body
    (λ _ h, cleanup_ready v h ∧ ∀ name, name ∈ journalNames v → removed v name h).
Proof.
  unfold cleanup_body, maintenanceFree.
  eapply (t_bind _ _ _ _ _ _ _ (λ _ _, True)); [apply t_value; by apply t_ret|]. intros _.
  eapply t_bind; [apply t_containerNames|]. intros entries. apply t_const. intros ->. cbv zeta.
  eapply t_bind; [apply (t_each _ _ _ _ _ _ (checked v)); [done|apply mono_checked|]|].
  { intros name _. eapply t_bind; [by apply t_owned|]. intros o. apply t_ret. intros h a [_ (e & H1 & H2)] _.
    split; [done|]. by exists e, o. }
  intros []; cbv beta. eapply t_bind; [apply t_journalBoolean|]. intros rules. apply t_const. intros E1.
  eapply (t_bind _ _ _ _ _ _ _ (λ _ h, cleanup_ready v h)).
  { assert (mono (λ h : history, True ∧ ∀ x, x ∈ reverse (journalNames v) → checked v x h)) as Hm.
    { apply mono_and; [done|]. apply mono_forall. intros x. apply mono_impl, mono_checked. }
    destruct rules; simpl.
    - eapply t_bind; [by apply t_inspectSource|]. intros o. apply t_const. intros _. apply t_ret.
      intros h a [[_ H1] H2] _. split; [|done]. intros x Hx. apply H1. by apply elem_of_reverse.
    - apply t_ret. intros h a [_ H1] _. split; [|congruence]. intros x Hx. apply H1. by apply elem_of_reverse. }
  intros []; cbv beta. eapply t_bind; [apply (t_each _ _ _ _ _ _ (removed v)); [apply mono_cleanup_ready|apply mono_removed|]|].
  { intros name _. apply t_removeOwned. }
  intros []; cbv beta. eapply t_bind; [apply t_journalBoolean|]. intros rules2. apply t_const. intros _.
  eapply t_post; [apply t_when; intros _; apply t_sourceRules; [|by intros h [? ?]]|].
  - apply mono_and; [apply mono_cleanup_ready|]. apply mono_forall. intros x. apply mono_impl, mono_removed.
  - intros _ h [H1 H2]. split; [done|]. intros name Hn. apply H2. by apply elem_of_reverse.
Qed.

Lemma save_log phase w : jw_log (save phase w).2 = jw_log w.
Proof.
  unfold save, cmd_bind, get_value, cmd_get, cmd_when, set_value, cmd_modify, cmd_ret, snapshot.
  destruct (negb (is_empty phase)); cbn [jw_value jw_log jw_outer];
    (destruct (validate scope generation _) as [[]|]; [|done]);
    unfold cmd_bind, get_value, cmd_get, cmd_ret; cbn [jw_value];
    (destruct (reject_if _ _) as [[]|]; [|done]);
    unfold commit_file; cbn [jw_outer]; by destruct (commit _ _) as [[] ?].
Qed.

(** A body that runs only justified commands, then a rest that runs none. *)
Lemma triple_then {A} v all remove verb (m : jcmd A) (k : A → jcmd ()) Post w r w' :
  triple v all remove verb (λ _, True) m Post →
  (∀ a w1, jw_log (k a w1).2 = jw_log w1) →
  jw_value w = v → cmd_bind m k w = (r, w') →
  ∃ l, jw_log w' = jw_log w ++ l ∧ log_ok v all remove verb [] l ∧ (r = Ok () → ∃ a, Post a l).
Proof.
  intros Ht Hk Hv E. unfold cmd_bind in E. destruct (m w) as [[a|e] w1] eqn:Em;
    destruct (Ht [] w _ w1 I Hv Em) as (_ & l & Hl & Ho & HP); exists l.
  - specialize (Hk a w1). rewrite E in Hk. simpl in Hk. rewrite Hk. split; [done|]. split; [done|]. eauto.
  - simplify_eq. split; [done|]. split; [done|]. done.
Qed.

Lemma t_preflight v Pre name :
  mono Pre →
  triple v (recovery_ready v) false start_verb Pre (preflight name) (λ _ h, Pre h ∧ confirmed v name h).
Proof.
  intros Hm. unfold preflight. eapply t_bind; [by apply t_owned|]. intros [c|]; cbv beta iota; [|by apply t_ret].
  apply t_ok. intros state _. apply t_ok. intros b _. apply t_ok. intros st _. apply t_ret.
  intros h a [H0 (e & H1 & H2)] _. split; [done|]. by exists e, c.
Qed.

Lemma mono_shown v name o : mono (λ h, ∃ e, e ∈ h ∧ shows v name e o).
Proof. intros h l (e & H1 & H2). exists e. by rewrite elem_of_app; auto. Qed.

(** A verb on the container just inspected. *)
Lemma t_on_owned v Pre name c id args :
  mono Pre → (∀ h, Pre h → recovery_ready v h) →
  str (observedValue c) (lit "Id") = Ok id → start_verb id args →
  triple v (recovery_ready v) false start_verb (λ h, Pre h ∧ ∃ e, e ∈ h ∧ shows v name e c)
    (command args) (λ _ h, (Pre h ∧ ∃ e, e ∈ h ∧ shows v name e c) ∧ succeeded args h).
Proof.
  intros Hm HP Hid Hv. apply t_command; [apply mono_and; [done|apply mono_shown]|].
  intros h [H0 (e & H1 & H2)]. right. split; [auto|]. right. exists id. split; [done|].
  destruct c as [c|]; [|done]. by exists name, e, c.
Qed.

Lemma field_observed (c : option cjson) key t x : field (observedValue c) key t = Ok x → is_Some c.
Proof. destruct c; [eauto|]. done. Qed.

Lemma t_startOwned v name :
  triple v (recovery_ready v) false start_verb (recovery_ready v) (startOwned name)
    (λ _ h, recovery_ready v h ∧ running v name h).
Proof.
  unfold startOwned. eapply t_bind; [apply t_owned, mono_recovery_ready|]. intros o. cbv beta.
  apply t_ok. intros state E1. apply t_ok. intros b E2. destruct (field_observed _ _ _ _ E1) as [c ->].
  eapply (t_bind _ _ _ _ _ _ _ (λ _ h, recovery_ready v h ∧ running v name h)); [|intros; apply t_checkpoint].
  destruct b; simpl.
  - apply t_ret. intros h a [H0 (e & H1 & H2)] _. split; [done|]. by exists e, c, state, true.
  - apply t_ok. intros id E3. eapply t_bind; [eapply (t_on_owned v _ name (Some c) id); [apply mono_recovery_ready|done|done|by left]|].
    intros r. apply t_ret. intros h a [[H0 (e & H1 & H2)] H3] _. split; [done|]. exists e, c, state, false.
    repeat (split; [done|]). intros _. by exists id.
Qed.

Lemma t_rejoin v Pre parent se te name :
  mono Pre → (∀ h, Pre h → recovery_ready v h) →
  triple v (recovery_ready v) false start_verb Pre (rejoin parent se te name) (λ _ h, Pre h).
Proof.
  intros Hm HP. unfold rejoin. eapply t_bind; [by apply t_owned|]. intros o. cbv beta zeta.
  apply t_value. apply t_ok. intros stale _.
  eapply (t_bind _ _ _ _ _ _ _ (λ _ h, Pre h)).
  { destruct stale; simpl; [|apply t_ret; by intros h a [? ?]]. apply t_ok. intros id E.
    eapply t_bind; [eapply t_on_owned; [done|done|done|by right]|]. intros r. apply t_ret. by intros h a [[? ?] ?]. }
  intros ?. eapply t_bind; [apply t_checkpoint|]. intros ?. cbv beta.
  destruct (suffix name _); [|apply t_ret; auto]. apply t_ok. intros id _. apply t_attest.
Qed.

Lemma t_recover_body v :
  triple v (recovery_ready v) false start_verb (λ _, True) recover_body
    (λ _ h, recovery_ready v h ∧ ∀ name, name ∈ journalNames v → running v name h).
Proof.
  unfold recover_body, maintenanceFree. apply t_value. apply t_ok. intros phase _. apply t_ok. intros [] _.
  eapply (t_bind _ _ _ _ _ _ _ (λ _ _, True)); [apply t_value; by apply t_ret|]. intros [].
  eapply t_bind; [apply t_containerNames|]. intros entries. apply t_const. intros ->.
  eapply t_bind; [apply (t_each _ _ _ _ _ _ (confirmed v)); [done|apply mono_confirmed|]|].
  { intros name _. by apply t_preflight. }
  intros []. cbv beta.
  eapply t_bind; [apply t_inspectSource, mono_and; [done|]; apply mono_forall; intros x; apply mono_impl, mono_confirmed|].
  intros source. apply t_const. intros _.
  eapply t_bind; [eapply t_pre; [|apply (t_each _ _ _ _ (recovery_ready v) _ (running v));
    [apply mono_recovery_ready|apply mono_running|]]|].
  { by intros h [[_ H1] H2]. }
  { intros name _. apply t_startOwned. }
  intros []. cbv beta.
  set (Pre := λ h : history, recovery_ready v h ∧ ∀ x, x ∈ journalNames v → running v x h).
  assert (mono Pre) as Hm.
  { apply mono_and; [apply mono_recovery_ready|]. apply mono_forall. intros x. apply mono_impl, mono_running. }
  assert (∀ h, Pre h → recovery_ready v h) as HP by by intros h [? ?].
  eapply t_bind; [apply t_journalBoolean|]. intros rules. apply t_const. intros _.
  eapply t_bind; [apply t_when; intros _; by apply t_sourceRules|]. intros [].
  apply t_ok. intros se _. apply t_value. apply t_ok. intros parent _.
  eapply t_bind; [by apply t_owned|]. intros target. cbv beta.
  eapply t_pre; [by intros h [H1 _]; exact H1|].
  apply t_ok. intros [] _. apply t_ok. intros te _.
  eapply t_bind; [apply t_each_inv; [done|]; intros name _; by apply t_rejoin|].
  intros []. by apply t_ret.
Qed.

(** C31. Whatever sequence of saves, plans, records, request checks, cleanups and
    recoveries is run on a journal, and wherever a command, a checkpoint or the
    file system fails, the journal file is always the complete text of a valid
    journal within the size limit; and each changing operation that returns has
    stored exactly the journal it holds. *)
Theorem journal_store_stays_valid ops w :
  store_ok (jw_store w) →
  store_ok (jw_store (run_ops ops w))
  ∧ ∀ op w', (∀ r s, op ≠ OpVerifyRequest r s) → run_op op (run_ops ops w) = (Ok (), w') →
      jw_store w' = Some (json_to_string (jw_value w')) ∧ validate scope generation (jw_value w') = Ok ().
Proof.
  intros Hs. assert (store_ok (jw_store (run_ops ops w))) as Hk.
  { revert w Hs. induction ops as [|op ops IH]; intros w Hs; [done|]. simpl. apply IH.
    destruct (run_op op w) as [r w1] eqn:E. simpl. destruct op as [| | |rq sb| |];
      try (by eapply run_op_saves; [|exact Hs|exact E]).
    pose proof (keeps_verifyRequest rq sb w) as Hv. simpl in E. rewrite E in Hv. simpl in Hv. by rewrite Hv. }
  split; [done|]. intros op w' Hop E. by destruct (run_op_saves op Hop _ _ _ Hk E) as [_ H1]; apply H1.
Qed.

(** C32. Cleanup touches only what the migration owns.  Every command it runs is
    an inspection, or comes after all containers of the journal were inspected
    and found gone or owned (and, when source rules exist, after the source was
    found unchanged), and then either removes the migration's own rules from
    that source or removes by its immutable ID a container inspected with this
    journal's owner, image, name and recorded ID.  When it returns, every
    container of the journal was gone or has been removed. *)
Theorem cleanup_only_removes_owned w r w' :
  cleanup w = (r, w') →
  ∃ l, jw_log w' = jw_log w ++ l
    ∧ (∀ pre args res post, l = pre ++ (args, res) :: post →
         (∃ id, args = inspect_args id)
         ∨ cleanup_ready (jw_value w) pre
           ∧ ((∃ sourceId shell, str (jw_value w) (lit "sourceId") = Ok sourceId ∧ args = execShell sourceId shell
                  ∧ rule_shell (jw_value w) true shell ∧ source_checked (jw_value w) pre)
              ∨ ∃ id, args = rm_args id ∧ owned_id (jw_value w) id pre))
    ∧ (r = Ok () → ∀ name, name ∈ journalNames (jw_value w) → removed (jw_value w) name l).
Proof.
  intros E. destruct (triple_then _ _ _ _ _ _ _ w r w' (t_cleanup_body (jw_value w))
    ltac:(intros; apply save_log) eq_refl E) as (l & H1 & H2 & H3).
  exists l. split; [done|]. split.
  - intros pre args res post El. exact (H2 pre (args, res) post El).
  - intros Hr. destruct (H3 Hr) as (a & _ & H4). exact H4.
Qed.

Lemma save_epochs_log (epochs : text * text) w :
  jw_log ((let! v := get_value in
           let! _ := set_value (put (put v (lit "sourceEpoch") epochs.1) (lit "targetEpoch") epochs.2) in
           save (lit "ready")) w).2 = jw_log w.
Proof. unfold cmd_bind at 1 2, get_value at 1, cmd_get, set_value, cmd_modify. by rewrite save_log. Qed.

(** Recovery preflights everything before it changes anything.  Every
    command it runs is an inspection, or comes after every container of the
    journal was inspected and found owned and after the source was found
    unchanged, and then either installs the migration's own rules in that
    source or starts or restarts by its immutable ID a container inspected as
    owned.  When it returns, every container was running or has been started. *)
Theorem recovery_preflights_everything w r w' :
  recoverReady w = (r, w') →
  ∃ l, jw_log w' = jw_log w ++ l
    ∧ (∀ pre args res post, l = pre ++ (args, res) :: post →
         (∃ id, args = inspect_args id)
         ∨ recovery_ready (jw_value w) pre
           ∧ ((∃ sourceId shell, str (jw_value w) (lit "sourceId") = Ok sourceId ∧ args = execShell sourceId shell
                  ∧ rule_shell (jw_value w) false shell ∧ source_checked (jw_value w) pre)
              ∨ ∃ id, (args = start_args id ∨ args = restart_args id) ∧ owned_id (jw_value w) id pre))
    ∧ (r = Ok () → ∀ name, name ∈ journalNames (jw_value w) → running (jw_value w) name l).
Proof.
  intros E. destruct (triple_then _ _ _ _ _ _ _ w r w' (t_recover_body (jw_value w))
    save_epochs_log eq_refl E) as (l & H1 & H2 & H3).
  exists l. split; [done|]. split.
  - intros pre args res post El. exact (H2 pre (args, res) post El).
  - intros Hr. destruct (H3 Hr) as (a & _ & H4). exact H4.
Qed.
End journal.

(** ** A migration with two containers *)

Module JournalExamples.
#[local] Open Scope string_scope.

Definition hex (n : nat) (c : Z) : text := repeat c n.
Definition owner0 := hex 32 97.
Definition sourceId0 := hex 64 98.
Definition targetId0 := hex 64 99.
Definition image0 := (lit "sha256:" ++ hex 64 100)%list.
Definition target0 := lit "amnezia-awg-migration-7".
Definition control0 := (target0 ++ lit "-source-control")%list.
Definition obj (l : list (string * cjson)) : cjson := CObject (map (λ p, (lit p.1, p.2)) l).

Definition journal0 (phase : string) : cjson :=
  obj [("owner", CString owner0); ("phase", CString (lit phase)); ("source", CString (lit "amnezia-awg"));
       ("sourceId", CString sourceId0); ("target", CString target0); ("sourceIface", CString (lit "wg0"));
       ("sourceRules", CBool true); ("sourceDigest", CString (hex 64 101));
       ("request", obj [("generation", CInt 7); ("port", CInt 51820); ("host", CString (lit "vpn.example"));
                        ("image", CString (lit "awg"))]);
       ("containers", CObject [(target0, obj [("image", CString image0); ("id", CString targetId0)]);
                               (control0, obj [("image", CString image0); ("id", CNull)])])].

Definition container (id name : text) (on : bool) : cjson :=
  CArray [obj [("Id", CString id); ("Name", CString (lit "/" ++ name)%list); ("Image", CString image0);
               ("Config", obj [("Labels", obj [("amnezia.migration.owner", CString owner0)])]);
               ("State", obj [("Running", CBool on); ("StartedAt", CString (lit "t1"))])]].

(** The texts of the inspections below; every journal prints the same. *)
#[local] Instance jsonC0 : JsonC := {|
  json_tokener_parse _ raw :=
    if text_eqb raw (lit "T") then Some (container targetId0 target0 false, 1%nat)
    else if text_eqb raw (lit "C") then Some (container (hex 64 102) control0 true, 1%nat)
    else if text_eqb raw (lit "S") then Some (container sourceId0 (lit "amnezia-awg") true, 1%nat)
    else None;
  json_to_string _ := lit "journal" |}.

Definition ok (out : string) : CommandResult := {| status := 0; output := lit out; error := [] |}.

Definition runner0 (args : list text) (w : ()) : CommandResult * () :=
  (match args with
   | [_; _; id] => if text_eqb id targetId0 then ok "T" else if text_eqb id control0 then ok "C" else ok "S"
   | _ => ok ""
   end, w).

Definition world0 (phase : string) : JournalWorld () :=
  {| jw_value := journal0 phase; jw_store := None; jw_log := []; jw_outer := () |}.

Definition fault0 (point : text) (w : ()) : option text * () := (None, w).
Definition commit0 (raw : text) (w : ()) : CommitResult * () := (Committed, w).
Definition attest0 : option (text → () → option text * ()) := Some (λ _ w, (None, w)).
Definition scope0 := lit "amnezia-awg".
Definition generation0 := lit "7".

Lemma journal_store_stays_valid_witness :
  let res := run_op runner0 fault0 commit0 (λ s, Ok s) scope0 generation0 attest0 OpCleanup
               (run_ops runner0 fault0 commit0 (λ s, Ok s) scope0 generation0 attest0 [OpCleanup] (world0 "creating")) in
  res.1 = Ok ()
  ∧ jw_store res.2 = Some (json_to_string (jw_value res.2)) ∧ validate scope0 generation0 (jw_value res.2) = Ok ().
Proof.
  cbv zeta. destruct (run_op _ _ _ _ _ _ _ _ _) as [r w'] eqn:E.
  assert (r = Ok ()) as -> by (apply (f_equal fst) in E; vm_compute in E; symmetry; exact E).
  split; [reflexivity|].
  refine (proj2 (journal_store_stays_valid runner0 fault0 commit0 (λ s, Ok s) scope0 generation0 attest0
    [OpCleanup] (world0 "creating") _) OpCleanup w' _ E); [intros raw Hraw|intros ? ?]; discriminate.
Defined.

Lemma cleanup_only_removes_owned_witness :
  let res := cleanup runner0 fault0 commit0 scope0 generation0 (world0 "creating") in
  res.1 = Ok ()
  ∧ ∀ name, name ∈ journalNames (journal0 "creating") → removed (journal0 "creating") name (jw_log res.2).
Proof.
  cbv zeta. destruct (cleanup _ _ _ _ _ _) as [r w'] eqn:E.
  destruct (cleanup_only_removes_owned runner0 fault0 commit0 scope0 generation0 (world0 "creating") r w' E)
    as (l & Hl & _ & Hr).
  assert (r = Ok ()) as -> by (apply (f_equal fst) in E; vm_compute in E; symmetry; exact E).
  split; [reflexivity|]. change (jw_log w' = l) in Hl. subst l. exact (Hr eq_refl).
Defined.

Lemma recovery_preflights_everything_witness :
  let res := recoverReady runner0 fault0 commit0 scope0 generation0 attest0 (world0 "ready") in
  res.1 = Ok ()
  ∧ ∀ name, name ∈ journalNames (journal0 "ready") → running (journal0 "ready") name (jw_log res.2).
Proof.
  cbv zeta. destruct (recoverReady _ _ _ _ _ _ _) as [r w'] eqn:E.
  destruct (recovery_preflights_everything runner0 fault0 commit0 scope0 generation0 attest0 (world0 "ready") r w' E)
    as (l & Hl & _ & Hr).
  assert (r = Ok ()) as -> by (apply (f_equal fst) in E; vm_compute in E; symmetry; exact E).
  split; [reflexivity|]. change (jw_log w' = l) in Hl. subst l. exact (Hr eq_refl).
Defined.

(** The commands of that cleanup: the checks, the two removals in reverse
    order, the removal of the rules. *)
Example cleanup0_commands :
  map (λ e : list text * CommandResult, nth 1 e.1 [])
    (jw_log (cleanup runner0 fault0 commit0 scope0 generation0 (world0 "creating")).2)
  = map lit ["inspect"; "inspect"; "inspect"; "inspect"; "rm"; "inspect"; "rm"; "inspect"; "exec"; "exec"; "exec"].
Proof. vm_compute. reflexivity. Qed.
End JournalExamples.
