(* ===== verification/RouteGrammar.v ===== *)
(** * Kernel routing text

    Model of the parsers at the top of headless/linuxRouteReconciler.cpp: the
    lines of [ip rule show] and [ip route show] that the daemon recognises as
    its own, the resolver's status text, and the interfaces and prefixes of the
    underlay.  Parsers that fill out-parameters and return [bool] return an
    option here. *)

From stdpp Require Import gmap.
From S2P Require Import Prelude Text Json QtInterface QtModel Ipv4 IpAddress RoutePolicy.
#[local] Open Scope Z_scope.

(** ** Patterns

    The regular expressions are sequences of the pieces below.  Each piece is
    followed by one that starts with a character it cannot match, so the
    longest match is the only one. *)

Inductive piece :=
| Blanks                              (* \s*   *)
| Space                               (* \s+   *)
| Literal (s : text)
| Digits                              (* (\d+) *)
| Word.                               (* (\S+) *)

(** The longest prefix of characters satisfying [p], and the rest. *)
Fixpoint span (p : Z → bool) (s : text) : text * text :=
  match s with
  | [] => ([], [])
  | c :: s' => if p c then let '(a, b) := span p s' in (c :: a, b) else ([], s)
  end.

Fixpoint strip_literal (p s : text) : option text :=
  match p, s with
  | [], _ => Some s
  | c :: p', d :: s' => if c =? d then strip_literal p' s' else None
  | _ :: _, [] => None
  end.

(** A match at the start: the captures and the rest of the text. *)
Fixpoint match_pieces (l : list piece) (s : text) : option (list text * text) :=
  match l with
  | [] => Some ([], s)
  | x :: l' =>
      match x with
      | Blanks => match_pieces l' (drop_while ascii_space s)
      | Space => match s with
                 | c :: s' => if ascii_space c then match_pieces l' (drop_while ascii_space s') else None
                 | [] => None
                 end
      | Literal p => s' ← strip_literal p s; match_pieces l' s'
      | Digits => let '(a, b) := span is_digit s in
                  if is_empty a then None else '(caps, r) ← match_pieces l' b; Some (a :: caps, r)
      | Word => let '(a, b) := span (λ c, negb (ascii_space c)) s in
                if is_empty a then None else '(caps, r) ← match_pieces l' b; Some (a :: caps, r)
      end
  end.

(** A match of the whole text. *)
Definition match_line (l : list piece) (s : text) : option (list text) :=
  '(caps, r) ← match_pieces l s; if is_empty r then Some caps else None.

(** ** [QString::arg] *)

(** A place marker [%n] or [%Ln] at the start of the text: its number and the
    rest. *)
Definition place_marker (s : text) : option (Z * text) :=
  match s with
  | 37 :: s1 =>
      let s2 := match s1 with 76 :: s' => s' | _ => s1 end in
      match s2 with
      | d :: s3 =>
          if is_digit d then
            match s3 with
            | e :: s4 => if is_digit e then Some (10 * (d - 48) + (e - 48), s4) else Some (d - 48, s3)
            | [] => Some (d - 48, s3)
            end
          else None
      | [] => None
      end
  | _ => None
  end.

Fixpoint lowest_marker (fuel : nat) (s : text) : option Z :=
  match fuel with
  | O => None
  | S fuel =>
      match s with
      | [] => None
      | _ :: s' =>
          match place_marker s with
          | Some (n, r) => match lowest_marker fuel r with Some m => Some (Z.min n m) | None => Some n end
          | None => lowest_marker fuel s'
          end
      end
  end.

Fixpoint replace_marker (fuel : nat) (n : Z) (a s : text) : text :=
  match fuel with
  | O => s
  | S fuel =>
      match s with
      | [] => []
      | c :: s' =>
          match place_marker s with
          | Some (m, r) => if m =? n then a ++ replace_marker fuel n a r
                           else take (length s - length r) s ++ replace_marker fuel n a r
          | None => c :: replace_marker fuel n a s'
          end
      end
  end.

(** [s.arg(a)]: every occurrence of the lowest-numbered marker.  Each step
    consumes a character, so the length of the text is enough fuel. *)
Definition arg (s a : text) : text :=
  match lowest_marker (length s) s with
  | Some n => replace_marker (length s) n a s
  | None => s
  end.

(** ** Lists of tokens *)

Definition indexOf (x : text) (l : list text) : option nat := fst <$> list_find (x =.) l.
Definition qcontains (x : text) (l : list text) : bool := bool_decide (x ∈ l).

Section grammar.
Context `{QtText} `{QtNet}.

(** [line.trimmed().split(QRegularExpression("\\s+"), Qt::SkipEmptyParts)]. *)
Definition line_tokens (line : text) : list text := tokens ascii_space (trimmed line).

(** [toInt()]: 0 when there is no value. *)
Definition toInt0 (s : text) : Z := default 0 (q_toInt s).

(** ** Destinations *)

Definition v6_bits_clear (bytes : list Z) (prefix : Z) : bool :=
  (fix go (bytes : list Z) (remaining : Z) : bool :=
     match bytes with
     | [] => true
     | byte :: bytes' =>
         let kept := Z.min remaining 8 in
         let mask := if kept =? 0 then 0 else Z.land (Z.shiftl 0xff (8 - kept)) 0xff in
         if negb (Z.land byte mask =? byte) then false else go bytes' (remaining - kept)
     end) bytes prefix.

Definition canonicalRuleDestination (raw : text) : text :=
  let value := trimmed raw in
  let parts := split_char 47 value in
  if (length parts =? 0)%nat || (2 <? length parts)%nat || is_empty (part_at 0 parts) then [] else
  let address := host_parse (part_at 0 parts) in
  if host_isNull address || negb (text_eqb (host_toString address) (part_at 0 parts)) then [] else
  let maximum := if host_isV4 address then 32 else 128 in
  let prefix :=
    if (length parts =? 2)%nat then
      match q_toInt (part_at 1 parts) with
      | None => None
      | Some n => if (n <? 0) || (n >? maximum) || negb (text_eqb (number n) (part_at 1 parts)) then None
                  else Some n
      end
    else Some maximum in
  match prefix with
  | None => []
  | Some prefix =>
      if prefix <? maximum then
        let clear := match address with
                     | HV4 a => Z.land a (ipv4Mask prefix) =? a
                     | _ => v6_bits_clear (toIPv6Address address) prefix
                     end in
        if negb clear then [] else arg (arg (lit "%1/%2") (host_toString address)) (number prefix)
      else host_toString address
  end.

(** ** Policy rules *)

Inductive ManagedRuleKind := KNone | FullTunnel | Bypass.

#[global] Instance ManagedRuleKind_eq_dec : EqDecision ManagedRuleKind.
Proof. solve_decision. Defined.

Definition fullRulePattern : list piece :=
  [Blanks; Digits; Literal (lit ":"); Space; Literal (lit "from"); Space; Literal (lit "all"); Space;
   Literal (lit "lookup"); Space; Literal (lit "51821"); Blanks].

Definition bypassRulePattern (selector : bool) : list piece :=
  [Blanks; Digits; Literal (lit ":"); Space]
  ++ (if selector then [Literal (lit "from"); Space; Literal (lit "all"); Space] else [])
  ++ [Literal (lit "to"); Space; Word; Space; Literal (lit "lookup"); Space; Literal (lit "main"); Blanks].

Definition broadMainPattern : list piece :=
  [Blanks; Digits; Literal (lit ":"); Space; Literal (lit "from"); Space; Literal (lit "all"); Space;
   Literal (lit "lookup"); Space; Literal (lit "main"); Blanks].

(** [^\s*(\d+):] at the start of a line. *)
Definition rulePriority (line : text) : option Z :=
  '(caps, _) ← match_pieces [Blanks; Digits; Literal (lit ":")] line; Some (toInt0 (part_at 0 caps)).

(** The priority, the kind and the destination; [None] where the source
    returns [false]. *)
Definition parseManagedRuleLine (line : text) : option (Z * ManagedRuleKind * text) :=
  match match_line fullRulePattern line with
  | Some caps => Some (toInt0 (part_at 0 caps), FullTunnel, [])
  | None =>
      match (match match_line (bypassRulePattern true) line with
             | Some caps => Some caps
             | None => match_line (bypassRulePattern false) line
             end) with
      | Some caps =>
          let canonical := canonicalRuleDestination (part_at 1 caps) in
          if is_empty canonical then None else Some (toInt0 (part_at 0 caps), Bypass, canonical)
      | None => None
      end
  end.

Definition parseBroadMainRuleLine (line : text) : option Z :=
  caps ← match_line broadMainPattern line; Some (toInt0 (part_at 0 caps)).

(** [needle] is [to <destination> ]. *)
Definition ruleLineMatches (line : text) (priority : Z) (needle : text) : bool :=
  match parseManagedRuleLine line with
  | Some (parsedPriority, Bypass, destination) =>
      let expected := canonicalRuleDestination (trimmed (drop 3 (trimmed needle))) in
      (parsedPriority =? priority) && negb (is_empty expected) && text_eqb destination expected
  | _ => false
  end.

Definition toSelector (route : text) : text := lit "to " ++ route ++ lit " ".

(** ** Routes *)

Definition AmneziaRouteProtocol : Z := 186.
Definition AmneziaSplitRouteProtocol : Z := 187.

Definition managedFullTunnelRoutePrefixes : list text :=
  [lit "0.0.0.0/1"; lit "128.0.0.0/1"; lit "::/1"; lit "8000::/1"].

Definition managedProtocolTokenMatches (expectedProtocol : Z) (token : text) : bool :=
  if expectedProtocol =? AmneziaSplitRouteProtocol
  then text_eqb token (lit "187") || text_eqb token (lit "isis")
  else if expectedProtocol =? AmneziaRouteProtocol
  then text_eqb token (lit "186") || text_eqb token (lit "bgp")
  else false.

Definition routeProtocolToken (line : text) : text :=
  let tokens := line_tokens line in
  match indexOf (lit "proto") tokens with
  | Some i => if (length tokens <=? i + 1)%nat then [] else take 32 (part_at (i + 1) tokens)
  | None => []
  end.

(** The attributes of a route line seen so far. *)
Record attributes := Attributes {
  seenProtocol : bool; seenMetric : bool; seenScope : bool; seenPreference : bool; seenSource : bool;
  metric : Z;
}.

Definition no_attributes : attributes := Attributes false false false false false (-1).

(** One attribute; [None] where the source returns [false]. *)
Definition step_attribute (expectedProtocol expectedMetric : Z) (token value : text) (a : attributes) :
    option attributes :=
  if text_eqb token (lit "proto") then
    if seenProtocol a || negb (managedProtocolTokenMatches expectedProtocol value) then None
    else Some (Attributes true (seenMetric a) (seenScope a) (seenPreference a) (seenSource a) (metric a))
  else if text_eqb token (lit "metric") then
    if seenMetric a || negb (all_digits value) then None
    else if (0 <=? expectedMetric) && negb (text_eqb value (number expectedMetric)) then None
    else m ← q_toInt value;
         Some (Attributes (seenProtocol a) true (seenScope a) (seenPreference a) (seenSource a) m)
  else if text_eqb token (lit "scope") then
    if seenScope a || negb (text_eqb value (lit "link") || text_eqb value (lit "253")) then None
    else Some (Attributes (seenProtocol a) (seenMetric a) true (seenPreference a) (seenSource a) (metric a))
  else if text_eqb token (lit "pref") then
    if seenPreference a
       || negb (text_eqb value (lit "low") || text_eqb value (lit "medium") || text_eqb value (lit "high"))
    then None
    else Some (Attributes (seenProtocol a) (seenMetric a) (seenScope a) true (seenSource a) (metric a))
  else if text_eqb token (lit "src") then
    if seenSource a || host_isNull (host_parse value) then None
    else Some (Attributes (seenProtocol a) (seenMetric a) (seenScope a) (seenPreference a) true (metric a))
  else None.

Fixpoint parse_attributes (expectedProtocol expectedMetric : Z) (tokens : list text) (a : attributes) :
    option attributes :=
  match tokens with
  | [] => Some a
  | token :: value :: tokens' =>
      a' ← step_attribute expectedProtocol expectedMetric token value a;
      parse_attributes expectedProtocol expectedMetric tokens' a'
  | [_] => None
  end.

(** The canonical prefix and the interface.  [expectedInterface] empty,
    [expectedMetric] negative and [allowedPrefixes] empty mean any. *)
Definition parseOwnedRouteLine (line : text) (expectedProtocol : Z) (expectedInterface : text)
    (expectedMetric : Z) (allowedPrefixes : list text) : option (text * text) :=
  match line_tokens line with
  | destination :: dev :: interfaceName :: attrs =>
      if (length attrs <? 2)%nat || negb (text_eqb dev (lit "dev")) then None else
      let canonicalPrefix := canonicalRuleDestination destination in
      if is_empty canonicalPrefix then None else
      if negb (bool_decide (allowedPrefixes = [])) && negb (qcontains canonicalPrefix allowedPrefixes) then None else
      if negb (is_empty expectedInterface) && negb (text_eqb interfaceName expectedInterface) then None else
      match parse_attributes expectedProtocol expectedMetric attrs no_attributes with
      | None => None
      | Some a =>
          if negb (seenProtocol a)
             || ((0 <=? expectedMetric) && (negb (seenMetric a) || negb (metric a =? expectedMetric))) then None
          else Some (canonicalPrefix, interfaceName)
      end
  | _ => None
  end.

Definition parseManagedFullTunnelRouteLine (line expectedInterface : text) : option (text * text) :=
  parseOwnedRouteLine line AmneziaRouteProtocol expectedInterface (-1) managedFullTunnelRoutePrefixes.

Definition parseManagedMainRouteLine (line : text) : option (text * text) :=
  parseOwnedRouteLine line AmneziaSplitRouteProtocol [] 1 [].

Definition managedMainRouteLineMatches (line prefix interfaceName : text) : bool :=
  match parseManagedMainRouteLine line with
  | Some (actualPrefix, actualInterface) =>
      text_eqb actualPrefix (canonicalRuleDestination prefix) && text_eqb actualInterface interfaceName
  | None => false
  end.

(** [None] where a marker has no value and the source returns no tokens. *)
Fixpoint drop_markers (tokens : list text) : option (list text) :=
  match tokens with
  | [] => Some []
  | token :: tokens' =>
      if text_eqb token (lit "proto") || text_eqb token (lit "table") then
        match tokens' with _ :: rest => drop_markers rest | [] => None end
      else (token ::.) <$> drop_markers tokens'
  end.

Definition routeTokensWithoutMarkers (line : text) : list text :=
  match drop_markers (line_tokens line) with
  | None => []
  | Some tokens => if (3 <? length tokens)%nat then take 3 tokens ++ sort_text (drop 3 tokens) else tokens
  end.

Definition legacyRouteArguments (line operation interfaceName : text) (addProtocol : bool) : list text :=
  let tokens := line_tokens line in
  if (length tokens <? 3)%nat || negb (text_eqb (part_at 1 tokens) (lit "dev"))
     || negb (text_eqb (part_at 2 tokens) interfaceName) then [] else
  if existsb (λ t, qcontains t [lit "proto"; lit "table"; lit "via"; lit "onlink"]) (drop 3 tokens) then [] else
  let arguments := [lit "route"; operation] ++ tokens ++ [lit "table"; lit "51821"]
                   ++ (if addProtocol then [lit "proto"; number AmneziaRouteProtocol] else []) in
  if contains_char 58 (part_at 0 tokens) then lit "-6" :: arguments else arguments.

(** ** The numeric main table *)

Record NumericMainRoute := {
  nr_prefix : text; nr_interfaceName : text; nr_protocol : text; nr_metric : Z;
  nr_isDefault : bool; nr_directlyConnected : bool;
}.

(** The address and prefix length of a destination that is not the default. *)
Definition numericPrefix (prefix : text) : option (Z * Z) :=
  let prefixParts := split_char 47 prefix in
  if (2 <? length prefixParts)%nat then None else
  let host := host_parse (part_at 0 prefixParts) in
  if negb (host_isV4 host) || negb (text_eqb (host_toString host) (part_at 0 prefixParts)) then None else
  prefixLength ←
    (if (length prefixParts =? 2)%nat then
       n ← q_toInt (part_at 1 prefixParts);
       if (n <? 0) || (n >? 32) || negb (text_eqb (number n) (part_at 1 prefixParts)) then None else Some n
     else Some 32);
  let address := host_toIPv4 host in
  if negb (Z.land address (ipv4Mask prefixLength) =? address) then None else Some (address, prefixLength).

(** The token after [key]; [None] when there is none. *)
Definition tokenAfter (key : text) (tokens : list text) : option text :=
  i ← indexOf key tokens; tokens !! (i + 1)%nat.

Definition parseNumericMainRoute (line : text) : option NumericMainRoute :=
  let tokens := line_tokens line in
  if (length tokens <? 3)%nat then None else
  let defaultRoute := text_eqb (part_at 0 tokens) (lit "default") || text_eqb (part_at 0 tokens) (lit "0.0.0.0/0") in
  '(address, prefixLength) ← (if defaultRoute then Some (0, 0) else numericPrefix (part_at 0 tokens));
  interfaceName ← tokenAfter (lit "dev") tokens;
  metric ← (match indexOf (lit "metric") tokens with
            | None => Some 0
            | Some i => v ← tokens !! (i + 1)%nat; m ← q_toInt v; if m <? 0 then None else Some m
            end);
  let protocol := default [] (tokenAfter (lit "proto") tokens) in
  let scope := tokenAfter (lit "scope") tokens in
  let scopeLink := bool_decide (scope = Some (lit "link")) || bool_decide (scope = Some (lit "253")) in
  let kernelProto := text_eqb protocol (lit "kernel") || text_eqb protocol (lit "2") in
  if negb defaultRoute && negb kernelProto && negb (text_eqb protocol (lit "static")) then None else
  Some {| nr_prefix := if prefixLength =? 32 then host_toString (HV4 address)
                       else arg (arg (lit "%1/%2") (host_toString (HV4 address))) (number prefixLength);
          nr_interfaceName := interfaceName; nr_protocol := protocol; nr_metric := metric;
          nr_isDefault := defaultRoute;
          nr_directlyConnected := negb defaultRoute && negb (qcontains (lit "via") tokens) && scopeLink |}.

Definition privateOrLinkLocalPrefix (prefix : text) : bool :=
  match parseCanonicalIpv4Route prefix with
  | None => false
  | Some (address, length) =>
      ipv4RouteIsWithinRange address length 0x0a000000 8 || ipv4RouteIsWithinRange address length 0xac100000 12
      || ipv4RouteIsWithinRange address length 0xc0a80000 16 || ipv4RouteIsWithinRange address length 0x64400000 10
  end.

Definition prefixOverlapsAny (prefix : text) (routes : list text) : bool :=
  match parseCanonicalIpv4Route prefix with
  | None => false
  | Some (address, length) =>
      existsb (λ candidate,
        match parseCanonicalIpv4Route candidate with
        | Some (candidateAddress, candidateLength) =>
            ipv4RouteOverlapsRange address length candidateAddress candidateLength
        | None => false
        end) routes
  end.

(** ** Interfaces *)

Definition normalizedInterface (interfaceName : text) : text := q_toLower (trimmed interfaceName).

Definition isVpnOrLoopbackInterface (interfaceName : text) : bool :=
  let normalized := normalizedInterface interfaceName in
  is_empty normalized || text_eqb normalized (lit "lo")
  || existsb (λ p, starts_with p normalized)
       [lit "tun"; lit "tap"; lit "amn"; lit "wg"; lit "ppp"; lit "vpn"; lit "tailscale"; lit "zt"; lit "ipsec"].

Definition isContainerBridgeInterface (interfaceName : text) : bool :=
  let normalized := normalizedInterface interfaceName in
  text_eqb normalized (lit "docker0")
  || existsb (λ p, starts_with p normalized) [lit "br-"; lit "virbr"; lit "cni"; lit "podman"].

Definition isLikelyPhysicalInterface (interfaceName : text) : bool :=
  existsb (λ p, starts_with p (normalizedInterface interfaceName))
    [lit "eth"; lit "en"; lit "wl"; lit "wlan"; lit "em"; lit "bond"].

Definition interface_char (c : Z) : bool :=
  is_digit c || ((65 <=? c) && (c <=? 90)) || ((97 <=? c) && (c <=? 122)) || (c =? 95) || (c =? 46) || (c =? 45).

(** [^[A-Za-z0-9_.-]{1,15}$]: the dollar sign also matches before a final
    newline. *)
Definition validInterfaceName (value : text) : bool :=
  let ok s := negb (is_empty s) && (tsize s <=? 15) && forallb interface_char s in
  ok value || match reverse value with 10 :: r => ok (reverse r) | _ => false end.

(** ** The resolver *)

(** What is after the first colon. *)
Definition after_colon (s : text) : text :=
  (fix go s := match s with [] => [] | c :: s' => if c =? 58 then s' else go s' end) s.

(** What one line says about a binding; [None] to look further. *)
Definition bindingLine (rawLine : text) : option bool :=
  let line := q_toLower (trimmed rawLine) in
  let scopes :=
    if starts_with (lit "current scopes:") line then
      let value := trimmed (drop 15 line) in
      if negb (is_empty value) && negb (text_eqb value (lit "none"))
      then Some (contains_text (lit "dns") value) else None
    else None in
  match scopes with
  | Some b => Some b
  | None =>
      if starts_with (lit "dns servers:") line || starts_with (lit "dns domain:") line
         || starts_with (lit "dns domains:") line then
        let value := trimmed (after_colon line) in
        if negb (is_empty value) && negb (text_eqb value (lit "-")) && negb (text_eqb value (lit "none"))
        then Some true else None
      else None
  end.

Definition resolverOutputHasManagedBinding (output : text) : bool :=
  (fix go lines := match lines with
                   | [] => false
                   | l :: lines' => match bindingLine l with Some b => b | None => go lines' end
                   end) (split_char 10 output).

(** The servers and domains listed so far. *)
Definition bindingFields (acc : list text * list text) (rawLine : text) : list text * list text :=
  let line := trimmed rawLine in
  let lower := q_toLower line in
  let '(servers, domains) := acc in
  if starts_with (lit "dns servers:") lower then
    (servers ++ tokens ascii_space (trimmed (drop 12 line)), domains)
  else if starts_with (lit "dns domain:") lower then
    let value := trimmed (drop 11 line) in
    (servers, if negb (is_empty value) && negb (text_eqb value (lit "-")) then domains ++ [value] else domains)
  else if starts_with (lit "dns domains:") lower then
    (servers, domains ++ tokens ascii_space (trimmed (drop 12 line)))
  else acc.

Definition resolverOutputMatchesBinding (output : text) (expectedServers expectedDomains : list text) : bool :=
  bool_decide (foldl bindingFields ([], []) (split_char 10 output) = (expectedServers, expectedDomains)).
End grammar.
