(* ===== verification/RouteState.v ===== *)
(** * The route reconciler: state, receipts and kernel snapshots

    Model of the state and the shared helpers of LinuxRouteReconciler in
    headless/linuxRouteReconciler.cpp and .h: the fields of the object, the
    receipt, intent and recovery-marker files, the calls of the injected
    command runner, the snapshot of the kernel's policy rules and routes, and
    the choice of rule priorities. *)

From stdpp Require Import gmap.
From S2P Require Import Prelude Text Json QtInterface QtModel Command RoutePolicy RouteGrammar.
#[local] Open Scope Z_scope.
#[local] Open Scope amnezia_scope.

(** ** Data *)

Record CommandResult := { ok : bool; exitCode : Z; message : text; output : text }.

Record RouteReconcileResult := {
  rr_ok : bool; rr_code : text; rr_message : text; rr_diagnostics : jobject;
}.

Definition success : RouteReconcileResult :=
  {| rr_ok := true; rr_code := []; rr_message := []; rr_diagnostics := [] |}.

Definition only_forward : text := lit "only-forward".
Definition all_except : text := lit "all-except".
Definition recovery_required : text := lit "recovery_required".

Definition FullTunnelRouteTable : Z := 51821.
Definition FullTunnelBypassRulePriority : Z := 1000.
Definition FullTunnelBypassPreferredPriority : Z := 1001.
Definition FullTunnelBypassPriorityLimit : Z := 1099.
Definition FullTunnelRulePriority : Z := 1100.
Definition FullTunnelPriorityLimit : Z := 1999.
Definition FullTunnelRuleBatchSize : nat := 16.
Definition FullTunnelBatchTotalDeadlineMs : Z := 120000.

Record Reconciler := MkReconciler {
  m_mode : text;
  m_interfaceName : text;
  m_routes : list text;
  m_bypassRoutes : list text;
  m_criticalBypassRoutes : list text;
  m_dnsInterface : text;
  m_dnsServers : list text;
  m_dnsDomains : list text;
  m_bypassRulePriority : Z;
  m_fullRulePriority : Z;
  m_stateValid : bool;
  m_needsReapply : bool;
  m_interfaceOffline : bool;
  m_initialized : bool;
  m_lastError : text;
  m_lastDiagnostics : jobject;
  m_fullTunnelDeadline : option Z;
}.

Definition set_routing (mode interfaceName : text) (routes bypass critical : list text) (s : Reconciler) : Reconciler :=
  MkReconciler mode interfaceName routes bypass critical (m_dnsInterface s) (m_dnsServers s) (m_dnsDomains s)
    (m_bypassRulePriority s) (m_fullRulePriority s) (m_stateValid s) (m_needsReapply s)
    (m_interfaceOffline s) (m_initialized s) (m_lastError s) (m_lastDiagnostics s)
    (m_fullTunnelDeadline s).
Definition set_dns (interface : text) (servers domains : list text) (s : Reconciler) : Reconciler :=
  MkReconciler (m_mode s) (m_interfaceName s) (m_routes s) (m_bypassRoutes s) (m_criticalBypassRoutes s) interface
    servers domains (m_bypassRulePriority s) (m_fullRulePriority s) (m_stateValid s) (m_needsReapply s)
    (m_interfaceOffline s) (m_initialized s) (m_lastError s) (m_lastDiagnostics s)
    (m_fullTunnelDeadline s).
Definition set_priorities (bypass full : Z) (s : Reconciler) : Reconciler :=
  MkReconciler (m_mode s) (m_interfaceName s) (m_routes s) (m_bypassRoutes s) (m_criticalBypassRoutes s)
    (m_dnsInterface s) (m_dnsServers s) (m_dnsDomains s) bypass full (m_stateValid s) (m_needsReapply s)
    (m_interfaceOffline s) (m_initialized s) (m_lastError s) (m_lastDiagnostics s)
    (m_fullTunnelDeadline s).
Definition set_mode (mode : text) (s : Reconciler) : Reconciler :=
  MkReconciler mode (m_interfaceName s) (m_routes s) (m_bypassRoutes s) (m_criticalBypassRoutes s)
    (m_dnsInterface s) (m_dnsServers s) (m_dnsDomains s) (m_bypassRulePriority s) (m_fullRulePriority s)
    (m_stateValid s) (m_needsReapply s) (m_interfaceOffline s) (m_initialized s) (m_lastError s)
    (m_lastDiagnostics s) (m_fullTunnelDeadline s).
Definition set_stateValid (valid : bool) (s : Reconciler) : Reconciler :=
  MkReconciler (m_mode s) (m_interfaceName s) (m_routes s) (m_bypassRoutes s) (m_criticalBypassRoutes s)
    (m_dnsInterface s) (m_dnsServers s) (m_dnsDomains s) (m_bypassRulePriority s) (m_fullRulePriority s)
    valid (m_needsReapply s) (m_interfaceOffline s) (m_initialized s) (m_lastError s)
    (m_lastDiagnostics s) (m_fullTunnelDeadline s).
Definition set_reapply (needs offline : bool) (s : Reconciler) : Reconciler :=
  MkReconciler (m_mode s) (m_interfaceName s) (m_routes s) (m_bypassRoutes s) (m_criticalBypassRoutes s)
    (m_dnsInterface s) (m_dnsServers s) (m_dnsDomains s) (m_bypassRulePriority s) (m_fullRulePriority s)
    (m_stateValid s) needs offline (m_initialized s) (m_lastError s) (m_lastDiagnostics s)
    (m_fullTunnelDeadline s).
Definition set_initialized (b : bool) (s : Reconciler) : Reconciler :=
  MkReconciler (m_mode s) (m_interfaceName s) (m_routes s) (m_bypassRoutes s) (m_criticalBypassRoutes s)
    (m_dnsInterface s) (m_dnsServers s) (m_dnsDomains s) (m_bypassRulePriority s) (m_fullRulePriority s)
    (m_stateValid s) (m_needsReapply s) (m_interfaceOffline s) b (m_lastError s) (m_lastDiagnostics s)
    (m_fullTunnelDeadline s).
Definition set_lastError (e : text) (s : Reconciler) : Reconciler :=
  MkReconciler (m_mode s) (m_interfaceName s) (m_routes s) (m_bypassRoutes s) (m_criticalBypassRoutes s)
    (m_dnsInterface s) (m_dnsServers s) (m_dnsDomains s) (m_bypassRulePriority s) (m_fullRulePriority s)
    (m_stateValid s) (m_needsReapply s) (m_interfaceOffline s) (m_initialized s) e (m_lastDiagnostics s)
    (m_fullTunnelDeadline s).
Definition set_lastDiagnostics (d : jobject) (s : Reconciler) : Reconciler :=
  MkReconciler (m_mode s) (m_interfaceName s) (m_routes s) (m_bypassRoutes s) (m_criticalBypassRoutes s)
    (m_dnsInterface s) (m_dnsServers s) (m_dnsDomains s) (m_bypassRulePriority s) (m_fullRulePriority s)
    (m_stateValid s) (m_needsReapply s) (m_interfaceOffline s) (m_initialized s) (m_lastError s) d
    (m_fullTunnelDeadline s).
Definition set_deadline (d : option Z) (s : Reconciler) : Reconciler :=
  MkReconciler (m_mode s) (m_interfaceName s) (m_routes s) (m_bypassRoutes s) (m_criticalBypassRoutes s)
    (m_dnsInterface s) (m_dnsServers s) (m_dnsDomains s) (m_bypassRulePriority s) (m_fullRulePriority s)
    (m_stateValid s) (m_needsReapply s) (m_interfaceOffline s) (m_initialized s) (m_lastError s)
    (m_lastDiagnostics s) d.

(** The object before its state is loaded. *)
Definition freshReconciler : Reconciler :=
  MkReconciler only_forward [] [] [] [] [] [] [] FullTunnelBypassRulePriority FullTunnelRulePriority
    true false false false [] [] None.

(** What is at a path. *)
Inductive Path := Absent | Regular (content : text) | Special.

Definition path_exists (p : Path) : bool := match p with Absent => false | _ => true end.

Inductive FileOp := OpenReceipt | SaveReceipt | SaveIntent | RemoveIntent | SaveMarker | RemoveMarker.

(** ** The host

    The command runner and what the operating system answers. *)

Class Host (W : Type) := {
  host_resolve : list text → W → text;                               (* resolveExecutable *)
  host_run : text → list text → W → CommandResult * W;               (* run *)
  host_batch : text → list (list text) → W → CommandResult * W;      (* runBatch *)
  host_captured : text → list text → W → CommandResult * W;          (* runCaptured *)
  host_now : W → Z;                                                  (* monotonic milliseconds *)
  host_tryLock : W → bool * W;                                       (* QLockFile::tryLock(0) *)
  host_io : FileOp → W → bool * W;                                   (* whether a file operation succeeds *)
}.

Inductive Call :=
| CRun (program : text) (args : list text)
| CBatch (program : text) (commands : list (list text))
| CCaptured (program : text) (args : list text).

(** A call that was made, its result, and whether the intent was on disk.  The
    log is not in the code; the theorems read it. *)
Record Event := { ev_call : Call; ev_result : CommandResult; ev_intent : bool }.

Record World (W : Type) := MkWorld {
  w_state : Reconciler;
  w_receipt : Path;
  w_intent : Path;
  w_marker : Path;
  w_log : list Event;
  w_outer : W;
}.
Arguments MkWorld {W}.
Arguments w_state {W}.
Arguments w_receipt {W}.
Arguments w_intent {W}.
Arguments w_marker {W}.
Arguments w_log {W}.
Arguments w_outer {W}.

(** [{ ... }] of a QJsonObject. *)
Definition jobj (l : list (text * json)) : jobject := foldl (λ o p, jinsert p.1 p.2 o) [] l.
Definition jint (n : Z) : json := JDouble (DInt n).
Definition jstrings (l : list text) : json := JArray (map JString l).

(** ** Rule snapshots *)

Record RuleSnapshot := MkSnapshot {
  occupied : gset Z; occupiedV4 : gset Z; occupiedV6 : gset Z;
  ownedBypass : gset Z; ownedBypassV4 : gset Z; ownedBypassV6 : gset Z;
  ownedFull : gset Z; ownedFullV4 : gset Z; ownedFullV6 : gset Z;
  lines : list text; linesV4 : list text; linesV6 : list text;
  tableLines : list text; mainRouteLines : list text;
  valid : bool;
}.

Definition emptySnapshot : RuleSnapshot := MkSnapshot ∅ ∅ ∅ ∅ ∅ ∅ ∅ ∅ ∅ [] [] [] [] [] false.

(** A rule line of one family at a priority. *)
Definition add_line (v6 : bool) (priority : Z) (line : text) (s : RuleSnapshot) : RuleSnapshot :=
  MkSnapshot ({[priority]} ∪ occupied s)
    (if v6 then occupiedV4 s else {[priority]} ∪ occupiedV4 s)
    (if v6 then {[priority]} ∪ occupiedV6 s else occupiedV6 s)
    (ownedBypass s) (ownedBypassV4 s) (ownedBypassV6 s) (ownedFull s) (ownedFullV4 s) (ownedFullV6 s)
    (lines s ++ [line]) (if v6 then linesV4 s else linesV4 s ++ [line])
    (if v6 then linesV6 s ++ [line] else linesV6 s)
    (tableLines s) (mainRouteLines s) (valid s).

Definition add_full (v6 : bool) (priority : Z) (s : RuleSnapshot) : RuleSnapshot :=
  MkSnapshot (occupied s) (occupiedV4 s) (occupiedV6 s) (ownedBypass s) (ownedBypassV4 s) (ownedBypassV6 s)
    ({[priority]} ∪ ownedFull s) (if v6 then ownedFullV4 s else {[priority]} ∪ ownedFullV4 s)
    (if v6 then {[priority]} ∪ ownedFullV6 s else ownedFullV6 s)
    (lines s) (linesV4 s) (linesV6 s) (tableLines s) (mainRouteLines s) (valid s).

Definition add_bypass (v6 : bool) (priority : Z) (s : RuleSnapshot) : RuleSnapshot :=
  MkSnapshot (occupied s) (occupiedV4 s) (occupiedV6 s)
    ({[priority]} ∪ ownedBypass s) (if v6 then ownedBypassV4 s else {[priority]} ∪ ownedBypassV4 s)
    (if v6 then {[priority]} ∪ ownedBypassV6 s else ownedBypassV6 s)
    (ownedFull s) (ownedFullV4 s) (ownedFullV6 s)
    (lines s) (linesV4 s) (linesV6 s) (tableLines s) (mainRouteLines s) (valid s).

Definition add_tableLines (l : list text) (s : RuleSnapshot) : RuleSnapshot :=
  MkSnapshot (occupied s) (occupiedV4 s) (occupiedV6 s) (ownedBypass s) (ownedBypassV4 s) (ownedBypassV6 s)
    (ownedFull s) (ownedFullV4 s) (ownedFullV6 s) (lines s) (linesV4 s) (linesV6 s)
    (tableLines s ++ l) (mainRouteLines s) (valid s).

(** The last step of a snapshot. *)
Definition validate_snapshot (main : list text) (s : RuleSnapshot) : RuleSnapshot :=
  MkSnapshot (occupied s) (occupiedV4 s) (occupiedV6 s) (ownedBypass s) (ownedBypassV4 s) (ownedBypassV6 s)
    (ownedFull s) (ownedFullV4 s) (ownedFullV6 s) (lines s) (linesV4 s) (linesV6 s)
    (tableLines s) main true.

(** [split(QRegularExpression("[\\r\\n]"), Qt::SkipEmptyParts)]. *)
Definition output_lines (out : text) : list text := tokens (λ c, (c =? 13) || (c =? 10)) out.

Section snapshot.
Context `{QtText} `{QtNet}.

(** One line of [ip rule show]; [Err] where the source returns the snapshot it
    has: a managed rule is there twice. *)
Definition snapshot_rule_line (st : Reconciler) (v6 : bool) (acc : RuleSnapshot * gset text) (line : text) :
    result RuleSnapshot (RuleSnapshot * gset text) :=
  let '(s, seen) := acc in
  match rulePriority line with
  | None => Ok (s, seen)
  | Some priority =>
      let s := add_line v6 priority line s in
      let family := number (if v6 then 1 else 0) in
      match parseManagedRuleLine line with
      | Some (managedPriority, FullTunnel, _) =>
          if negb (managedPriority =? priority) then Ok (s, seen) else
          let key := family ++ lit "|full|" ++ number priority in
          if bool_decide (key ∈ seen) then Err s else Ok (add_full v6 priority s, {[key]} ∪ seen)
      | Some (managedPriority, Bypass, destination) =>
          if (managedPriority =? priority) && text_eqb (m_mode st) all_except
             && (managedPriority =? m_bypassRulePriority st) && qcontains destination (m_bypassRoutes st)
          then
            let key := family ++ lit "|bypass|" ++ number priority ++ lit "|" ++ destination in
            if bool_decide (key ∈ seen) then Err s else Ok (add_bypass v6 priority s, {[key]} ∪ seen)
          else Ok (s, seen)
      | _ => Ok (s, seen)
      end
  end.

Definition snapshot_rules (st : Reconciler) (v6 : bool) (out : text) (acc : RuleSnapshot * gset text) :
    result RuleSnapshot (RuleSnapshot * gset text) :=
  rfold (snapshot_rule_line st v6) acc (output_lines out).

Definition is_rule_line (line : text) : bool :=
  bool_decide (is_Some (match_pieces [Blanks; Digits; Literal (lit ":"); Space] line)).

Definition snapshot_table (out : text) (s : RuleSnapshot) : RuleSnapshot :=
  add_tableLines (List.filter (λ l, negb (is_rule_line l)) (output_lines out)) s.

(** [compare(_, Qt::CaseInsensitive) == 0] and [startsWith(_,
    Qt::CaseInsensitive)] fold each character. *)
Context (foldCase : Z → Z).

Definition same_folded (a b : text) : bool := text_eqb (map foldCase a) (map foldCase b).

Definition newline : text := [10].

(** The table was never created. *)
Definition missingTable (r : CommandResult) : bool :=
  let diagnostic := trimmed (message r) in
  let prefix := lit "backend executable failed: " in
  let diagnostic := if starts_with (map foldCase prefix) (map foldCase diagnostic)
                    then drop (length prefix) diagnostic else diagnostic in
  (exitCode r =? 2) && is_empty (output r)
  && (same_folded diagnostic (lit "Error: ipv4: FIB table does not exist." ++ newline ++ lit "Dump terminated")
      || same_folded diagnostic (lit "Error: ipv6: FIB table does not exist." ++ newline ++ lit "Dump terminated")).
End snapshot.

Section reconciler.
Context `{QtText} `{QtNet} `{QtData} {W : Type} `{Host W}.
Context (foldCase : Z → Z).
Context (m_statePath : text).

Notation op E A := (prog (World W) E A).

(** ** Access to the object and the files *)

Definition state {E} : op E Reconciler := gets w_state.

Definition update {E} (f : Reconciler → Reconciler) : op E () :=
  cmd_modify (λ w, MkWorld (f (w_state w)) (w_receipt w) (w_intent w) (w_marker w) (w_log w) (w_outer w)).

(** Whether a file operation succeeds. *)
Definition io {E} (o : FileOp) : op E bool := λ w,
  let '(b, outer) := host_io o (w_outer w) in
  (Ok b, MkWorld (w_state w) (w_receipt w) (w_intent w) (w_marker w) (w_log w) outer).

Definition set_receipt {E} (p : Path) : op E () :=
  cmd_modify (λ w, MkWorld (w_state w) p (w_intent w) (w_marker w) (w_log w) (w_outer w)).
Definition set_intent {E} (p : Path) : op E () :=
  cmd_modify (λ w, MkWorld (w_state w) (w_receipt w) p (w_marker w) (w_log w) (w_outer w)).
Definition set_marker {E} (p : Path) : op E () :=
  cmd_modify (λ w, MkWorld (w_state w) (w_receipt w) (w_intent w) p (w_log w) (w_outer w)).

(** ** The runner *)

Definition logged {E} (c : Call) (r : CommandResult) (outer : W) : op E CommandResult := λ w,
  (Ok r, MkWorld (w_state w) (w_receipt w) (w_intent w) (w_marker w)
           (w_log w ++ [{| ev_call := c; ev_result := r; ev_intent := path_exists (w_intent w) |}]) outer).

Definition run {E} (program : text) (args : list text) : op E CommandResult := λ w,
  let '(r, outer) := host_run program args (w_outer w) in logged (CRun program args) r outer w.
Definition runBatch {E} (program : text) (commands : list (list text)) : op E CommandResult := λ w,
  let '(r, outer) := host_batch program commands (w_outer w) in logged (CBatch program commands) r outer w.
Definition runCaptured {E} (program : text) (args : list text) : op E CommandResult := λ w,
  let '(r, outer) := host_captured program args (w_outer w) in logged (CCaptured program args) r outer w.

Definition ipExecutable {E} : op E text :=
  gets (λ w, host_resolve [lit "ip"; lit "/usr/sbin/ip"; lit "/sbin/ip"] (w_outer w)).
Definition resolvectlExecutable {E} : op E text :=
  gets (λ w, host_resolve [lit "resolvectl"; lit "/usr/bin/resolvectl"; lit "/bin/resolvectl"] (w_outer w)).

(** The deadline of a full-tunnel transaction; it is always started before it
    is read. *)
Definition startDeadline {E} : op E () :=
  let! t := gets (λ w, host_now (w_outer w)) in update (set_deadline (Some t)).
Definition elapsed {E} : op E Z :=
  gets (λ w, host_now (w_outer w) - default 0 (m_fullTunnelDeadline (w_state w))).

(** [true] when the caller may go on. *)
Definition acquireRouteLock {E} : op E bool :=
  if is_empty (trimmed m_statePath) then pure (is_empty m_statePath) else λ w,
  let '(b, outer) := host_tryLock (w_outer w) in
  (Ok b, MkWorld (w_state w) (w_receipt w) (w_intent w) (w_marker w) (w_log w) outer).

(** ** Status and receipts *)

Definition status (s : Reconciler) : jobject := jobj
  [(lit "interface", JString (m_interfaceName s));
   (lit "mode", JString (m_mode s));
   (lit "routes", jstrings (m_routes s));
   (lit "bypassRoutes", jstrings (m_bypassRoutes s));
   (lit "criticalBypassRoutes", jstrings (m_criticalBypassRoutes s));
   (lit "routeTable", jint (if text_eqb (m_mode s) all_except then FullTunnelRouteTable else 0));
   (lit "bypassRulePriority", jint (m_bypassRulePriority s));
   (lit "fullRulePriority", jint (m_fullRulePriority s));
   (lit "statePath", JString m_statePath);
   (lit "lastError", JString (take 512 (m_lastError s)));
   (lit "recoveryRequired", JBool (negb (m_initialized s) || negb (m_stateValid s)
                                   || text_eqb (m_mode s) recovery_required));
   (lit "needsReapply", JBool (m_needsReapply s));
   (lit "interfaceOffline", JBool (m_needsReapply s && m_interfaceOffline s));
   (lit "dnsInterface", JString (m_dnsInterface s));
   (lit "dnsServers", jstrings (m_dnsServers s));
   (lit "dnsDomains", jstrings (m_dnsDomains s));
   (lit "postconditionDiagnostics", JObject (m_lastDiagnostics s))].

Definition receipt (s : Reconciler) : jobject := jobj
  [(lit "version", jint 2);
   (lit "mode", JString (m_mode s));
   (lit "interface", JString (m_interfaceName s));
   (lit "routes", jstrings (m_routes s));
   (lit "bypassRoutes", jstrings (m_bypassRoutes s));
   (lit "criticalBypassRoutes", jstrings (m_criticalBypassRoutes s));
   (lit "bypassRulePriority", jint (m_bypassRulePriority s));
   (lit "fullRulePriority", jint (m_fullRulePriority s));
   (lit "dnsInterface", JString (m_dnsInterface s));
   (lit "dnsServers", jstrings (m_dnsServers s));
   (lit "dnsDomains", jstrings (m_dnsDomains s));
   (lit "postconditionDiagnostics", JObject (m_lastDiagnostics s));
   (lit "needsReapply", JBool (m_needsReapply s))].

Definition saveState {E} : op E bool :=
  if is_empty m_statePath then pure true else
  let! done := io SaveReceipt in
  let! s := state in
  let! _ := cmd_when done (set_receipt (Regular (json_compact (receipt s)))) in
  pure done.

Definition failure {E} (code message : text) : op E RouteReconcileResult :=
  let! _ := update (set_lastError message) in
  let! s := state in
  pure {| rr_ok := false; rr_code := code; rr_message := message; rr_diagnostics := m_lastDiagnostics s |}.

Definition markRecoveryRequired {E} (message : text) : op E bool :=
  let! _ := update (λ s, set_lastError message (set_mode recovery_required (set_stateValid false s))) in
  let! saved := saveState in
  if saved then
    let! _ := cmd_when (negb (is_empty m_statePath))
                (let! removed := io RemoveMarker in cmd_when removed (set_marker Absent)) in
    pure true
  else if is_empty m_statePath then pure false else
  let! done := io SaveMarker in
  let! _ := cmd_when done (set_marker (Regular (utf8 message))) in
  pure done.

(** ** The transaction intent *)

Definition saveTransactionIntent {E} (operation : text) (target : jobject) : op E bool :=
  if is_empty m_statePath then pure true else
  let! existing := gets w_intent in
  if path_exists existing then pure false else
  let! done := io SaveIntent in
  let! s := state in
  let object := jobj [(lit "version", jint 1); (lit "operation", JString operation);
                      (lit "previous", JObject (status s)); (lit "target", JObject target)] in
  let! _ := cmd_when done (set_intent (Regular (json_compact object))) in
  pure done.

Definition clearTransactionIntent {E} : op E bool :=
  if is_empty m_statePath then pure true else
  let! existing := gets w_intent in
  match existing with
  | Absent => pure true
  | Special => pure false
  | Regular _ => let! removed := io RemoveIntent in
                 let! _ := cmd_when removed (set_intent Absent) in
                 pure removed
  end.

Definition finishMutation {E} : op E bool := clearTransactionIntent.

Definition beginMutation {E} (operation interfaceName : text) (routes bypassRoutes dnsServers dnsDomains
    criticalBypassRoutes : list text) : op E bool :=
  let target := jobj [(lit "interface", JString interfaceName); (lit "routes", jstrings routes);
                      (lit "bypassRoutes", jstrings bypassRoutes)] in
  let target := if negb (bool_decide (dnsServers = [])) || negb (bool_decide (dnsDomains = []))
                then jinsert (lit "dnsDomains") (jstrings dnsDomains)
                       (jinsert (lit "dnsServers") (jstrings dnsServers) target)
                else target in
  let target := if negb (bool_decide (criticalBypassRoutes = []))
                then jinsert (lit "criticalBypassRoutes") (jstrings criticalBypassRoutes) target else target in
  saveTransactionIntent operation target.

Definition finishTransaction {E} (result : RouteReconcileResult) : op E RouteReconcileResult :=
  if negb (rr_ok result) && text_eqb (rr_code result) recovery_required then pure result else
  let! cleared := clearTransactionIntent in
  if cleared then pure result else
  let! persisted := markRecoveryRequired (lit "managed routing transaction intent could not be retired") in
  failure recovery_required
    (if persisted : bool
     then lit "managed routing transaction completed but its intent could not be retired"
     else lit "managed routing transaction intent and recovery receipt could not be persisted").

(** ** Snapshots *)

(** One of the two rule queries. *)
Definition readRules (executable : text) (st : Reconciler) (v6 : bool) (acc : RuleSnapshot * gset text) :
    op RuleSnapshot (RuleSnapshot * gset text) :=
  let! r := runCaptured executable ((if v6 then [lit "-6"] else []) ++ [lit "rule"; lit "show"]) in
  if negb (ok r) then leave acc.1 else cmd_ret (snapshot_rules st v6 (output r) acc).

(** One of the two queries of table 51821. *)
Definition readTable (executable : text) (v6 : bool) (s : RuleSnapshot) : op RuleSnapshot RuleSnapshot :=
  let! r := runCaptured executable
    ((if v6 then [lit "-6"] else [])
     ++ [lit "-N"; lit "route"; lit "show"; lit "table"; number FullTunnelRouteTable]) in
  if negb (ok r) then if missingTable foldCase r then pure s else leave s
  else pure (snapshot_table (output r) s).

Definition mainRoutesQuery : list text := [lit "-N"; lit "route"; lit "show"; lit "table"; lit "main"].

Definition readRuleSnapshot_body : op RuleSnapshot RuleSnapshot :=
  let! executable := ipExecutable in
  if is_empty executable then pure emptySnapshot else
  let! st := state in
  let! acc := readRules executable st false (emptySnapshot, ∅) in
  let! acc := readRules executable st true acc in
  let! s := readTable executable false acc.1 in
  let! s := readTable executable true s in
  let! r := runCaptured executable mainRoutesQuery in
  if negb (ok r) then pure s else pure (validate_snapshot (output_lines (output r)) s).

Definition readRuleSnapshot {E} : op E RuleSnapshot := call readRuleSnapshot_body.
End reconciler.
