(* ===== verification/RouteRules.v ===== *)
(** * The route reconciler: rules, priorities and underlay

    Model of the read-only decisions of headless/linuxRouteReconciler.cpp on a
    kernel snapshot: which priorities to use, whether the rules at a priority
    are exactly the daemon's, whether table 51821 is its own, which underlay
    prefixes stay reachable; and of the argument lists of the commands. *)

From stdpp Require Import gmap.
From S2P Require Import Prelude Text Json QtInterface QtModel Ipv4 Command RoutePolicy RouteGrammar RouteState.
#[local] Open Scope Z_scope.
#[local] Open Scope amnezia_scope.

(** ** Argument lists *)

Definition bypassRuleArguments (operation : text) (priority : Z) (route : text) : list text :=
  [lit "rule"; operation; lit "priority"; number priority; lit "to"; route; lit "lookup"; lit "main"].

Definition fullRuleArguments (operation : text) (priority : Z) (ipv6 : bool) : list text :=
  (if ipv6 then [lit "-6"] else [])
  ++ [lit "rule"; operation; lit "priority"; number priority; lit "lookup"; number FullTunnelRouteTable].

(** A split route in the main table. *)
Definition splitRouteArguments (operation route interfaceName : text) : list text :=
  [lit "route"; operation; route; lit "dev"; interfaceName; lit "proto"; number AmneziaSplitRouteProtocol;
   lit "metric"; lit "1"].

(** A half-default route of table 51821 on an interface. *)
Definition fullRouteArguments (operation prefix interfaceName : text) : list text :=
  (if contains_char 58 prefix then [lit "-6"] else [])
  ++ [lit "route"; operation; prefix; lit "dev"; interfaceName; lit "table"; number FullTunnelRouteTable;
      lit "proto"; number AmneziaRouteProtocol].

(** The same without the interface, as cleanup deletes it. *)
Definition fullRouteDeletion (prefix : text) : list text :=
  (if contains_char 58 prefix then [lit "-6"] else [])
  ++ [lit "route"; lit "del"; prefix; lit "table"; number FullTunnelRouteTable;
      lit "proto"; number AmneziaRouteProtocol].

(** [QSet] of a list. *)
Definition set_of (l : list text) : gset text := list_to_set l.

Section rules.
Context `{QtText} `{QtNet}.

(** The lines of a family at a priority. *)
Definition lines_at (priority : Z) (l : list text) : list text :=
  List.filter (λ line, bool_decide (rulePriority line = Some priority)) l.

(** The destinations of rules that must all be bypass rules for different
    allowed destinations; [None] where the source returns [false]. *)
Definition bypass_line (priority : Z) (allowed : gset text) (seen : gset text) (line : text) :
    result () (gset text) :=
  match parseManagedRuleLine line with
  | Some (parsedPriority, Bypass, destination) =>
      if negb (parsedPriority =? priority) || negb (bool_decide (destination ∈ allowed))
         || bool_decide (destination ∈ seen) then Err () else Ok ({[destination]} ∪ seen)
  | _ => Err ()
  end.

Definition bypass_destinations (priority : Z) (allowed : gset text) (l : list text) : result () (gset text) :=
  rfold (bypass_line priority allowed) ∅ (lines_at priority l).

Definition full_line (priority : Z) (line : text) : bool :=
  match parseManagedRuleLine line with
  | Some (parsedPriority, FullTunnel, _) => parsedPriority =? priority
  | _ => false
  end.

(** ** Priorities *)

Definition hasOnlyOwnedBypass (st : Reconciler) (s : RuleSnapshot) (priority : Z) : bool :=
  match bypass_destinations priority (set_of (m_bypassRoutes st)) (linesV4 s) with
  | Ok routes => negb (bool_decide (lines_at priority (linesV4 s) = []))
                 && bool_decide (routes = set_of (m_bypassRoutes st))
  | Err _ => false
  end.

Definition hasOnlyOwnedFull (s : RuleSnapshot) (priority : Z) : bool :=
  let at_priority := lines_at priority (linesV4 s) ++ lines_at priority (linesV6 s) in
  forallb (full_line priority) at_priority && negb (bool_decide (at_priority = [])).

(** The first free candidate from [first] to [last]. *)
Fixpoint first_free (isOccupied : Z → bool) (n : nat) (candidate : Z) : option Z :=
  match n with
  | O => None
  | S n => if isOccupied candidate then first_free isOccupied n (candidate + 1) else Some candidate
  end.

Definition select (preferred first last : Z) (preferredOwned : bool) (isOccupied : Z → bool) : option Z :=
  if (first <=? preferred) && (preferred <=? last) && preferredOwned then Some preferred
  else first_free isOccupied (Z.to_nat (last - first + 1)) first.

Definition selectRulePriorities (st : Reconciler) (s : RuleSnapshot) : option (Z * Z) :=
  if negb (valid s) then None else
  let persistedFullTunnel := text_eqb (m_mode st) all_except in
  let persistedBypassOwned := persistedFullTunnel && hasOnlyOwnedBypass st s (m_bypassRulePriority st) in
  bypass ← select (m_bypassRulePriority st)
             (if persistedBypassOwned then FullTunnelBypassRulePriority else FullTunnelBypassPreferredPriority)
             FullTunnelBypassPriorityLimit persistedBypassOwned (λ p, bool_decide (p ∈ occupiedV4 s));
  full ← select (m_fullRulePriority st) FullTunnelRulePriority FullTunnelPriorityLimit
           (persistedFullTunnel && hasOnlyOwnedFull s (m_fullRulePriority st))
           (λ p, bool_decide (p ∈ occupiedV4 s) || bool_decide (p ∈ occupiedV6 s));
  Some (bypass, full).

(** ** Conflicts *)

(** A broad main-table rule before the full-tunnel rule. *)
Definition preempted (s : RuleSnapshot) (fullPriority : Z) : bool :=
  existsb (λ line, match parseBroadMainRuleLine line with
                   | Some broadPriority => broadPriority <? fullPriority
                   | None => false
                   end) (linesV4 s ++ linesV6 s).

Definition hasForeign (occupied owned : gset Z) (priority : Z) : bool :=
  bool_decide (priority ∈ occupied) && negb (bool_decide (priority ∈ owned)).

(** A rule at a persisted priority that is not the daemon's. *)
Definition foreignAtPersisted (st : Reconciler) (s : RuleSnapshot) : bool :=
  hasForeign (occupiedV4 s) (ownedFullV4 s) (m_fullRulePriority st)
  || hasForeign (occupiedV6 s) (ownedFullV6 s) (m_fullRulePriority st)
  || hasForeign (occupiedV4 s) (ownedBypassV4 s) (m_bypassRulePriority st)
  || hasForeign (occupiedV6 s) (ownedBypassV6 s) (m_bypassRulePriority st).

(** The rules at a persisted priority are exactly the bypass rules of
    [allowed]. *)
Definition persistedBypassIsExact (allowed : gset text) (s : RuleSnapshot) (priority : Z) : bool :=
  match bypass_destinations priority allowed (linesV4 s) with
  | Ok seen => bool_decide (lines_at priority (linesV6 s) = []) && bool_decide (seen = allowed)
  | Err _ => false
  end.

(** The rules at a persisted priority are full-tunnel rules, and there is one. *)
Definition persistedFullIsExact (s : RuleSnapshot) (priority : Z) : bool := hasOnlyOwnedFull s priority.

Definition reserved_line (allowed : gset text) (bypassPriority fullPriority : Z) (ipv6 : bool)
    (acc : gset text * gset Z) (line : text) : result () (gset text * gset Z) :=
  let '(seenBypassRoutes, seenFullPriorities) := acc in
  match rulePriority line with
  | None => Ok acc
  | Some priority =>
      if negb (priority =? bypassPriority) && negb (priority =? fullPriority) then Ok acc else
      match parseManagedRuleLine line with
      | None => Err ()
      | Some (parsedPriority, kind, destination) =>
          if negb (parsedPriority =? priority) then Err () else
          if priority =? fullPriority then
            if negb (bool_decide (kind = FullTunnel)) || bool_decide (priority ∈ seenFullPriorities) then Err ()
            else Ok (seenBypassRoutes, {[priority]} ∪ seenFullPriorities)
          else
            if ipv6 || negb (bool_decide (kind = Bypass)) || negb (bool_decide (destination ∈ allowed))
               || bool_decide (destination ∈ seenBypassRoutes) then Err ()
            else Ok ({[destination]} ∪ seenBypassRoutes, seenFullPriorities)
      end
  end.

Definition validateReservedRules (allowed : gset text) (bypassPriority fullPriority : Z) (ipv6 : bool)
    (l : list text) : bool :=
  is_ok (rfold (reserved_line allowed bypassPriority fullPriority ipv6) (∅, ∅) l).

(** ** Table 51821 *)

(** Why the table is not the daemon's. *)
Inductive TableConflict := Unowned | DuplicatePrefix | SeveralInterfaces.

(** The prefixes and the interface of the table. *)
Definition table_line (acc : gset text * text) (line : text) : result TableConflict (gset text * text) :=
  let '(tableRoutes, markedInterface) := acc in
  match parseManagedFullTunnelRouteLine line [] with
  | None => Err Unowned
  | Some (prefix, routeInterface) =>
      if bool_decide (prefix ∈ tableRoutes) then Err DuplicatePrefix else
      if is_empty markedInterface then Ok ({[prefix]} ∪ tableRoutes, routeInterface)
      else if negb (text_eqb markedInterface routeInterface) then Err SeveralInterfaces
      else Ok ({[prefix]} ∪ tableRoutes, markedInterface)
  end.

Definition read_table (s : RuleSnapshot) : result TableConflict (gset text * text) :=
  rfold table_line (∅, []) (tableLines s).

Definition completeFullTunnelPrefixes : gset text := set_of managedFullTunnelRoutePrefixes.

(** A route of the table with this prefix on this interface. *)
Definition observedTablePrefix (s : RuleSnapshot) (interfaceName prefix : text) : bool :=
  existsb (λ line, match parseManagedFullTunnelRouteLine line interfaceName with
                   | Some (parsedPrefix, _) => text_eqb parsedPrefix prefix
                   | None => false
                   end) (tableLines s).

(** ** Underlay *)

(** The physical interface of the first default route on one. *)
Definition physicalDefault (l : list text) : option text :=
  (fix go l := match l with
               | [] => None
               | line :: l' =>
                   match parseNumericMainRoute line with
                   | Some c =>
                       if nr_isDefault c && negb (isVpnOrLoopbackInterface (nr_interfaceName c))
                          && negb (isContainerBridgeInterface (nr_interfaceName c))
                          && isLikelyPhysicalInterface (nr_interfaceName c)
                       then Some (nr_interfaceName c) else go l'
                   | None => go l'
                   end
               end) l.

Definition protectedCandidate (vpnInterface : text) (forwardRoutes : list text) (selected : text)
    (c : NumericMainRoute) : bool :=
  nr_directlyConnected c
  && negb (text_eqb (nr_interfaceName c) vpnInterface)
  && negb (isVpnOrLoopbackInterface (nr_interfaceName c))
  && privateOrLinkLocalPrefix (nr_prefix c)
  && negb (prefixOverlapsAny (nr_prefix c) forwardRoutes)
  && negb (negb (isContainerBridgeInterface (nr_interfaceName c)) && negb (text_eqb (nr_interfaceName c) selected))
  && negb (text_eqb (nr_protocol c) (lit "static") && negb (text_eqb (nr_interfaceName c) selected)).

Definition add_protected (vpnInterface : text) (forwardRoutes : list text) (selected : text)
    (acc : list text) (line : text) : list text :=
  match parseNumericMainRoute line with
  | Some c => if protectedCandidate vpnInterface forwardRoutes selected c then append_new acc (nr_prefix c) else acc
  | None => acc
  end.

(** [Err] is the reported error. *)
Definition underlayProtectedRoutes (s : RuleSnapshot) (vpnInterface : text) (forwardRoutes : list text) :
    result text (list text) :=
  if negb (valid s) then Err (lit "could not inspect the numeric main-route snapshot") else
  match physicalDefault (mainRouteLines s) with
  | None => Err (lit "could not identify the selected physical default interface")
  | Some selected => Ok (foldl (add_protected vpnInterface forwardRoutes selected) [] (mainRouteLines s))
  end.
End rules.

Section reconciler.
Context `{QtText} `{QtNet} {W : Type} `{Host W}.
Context (foldCase : Z → Z).

Definition activeUnderlayProtectedRoutes {E} (vpnInterface : text) (forwardRoutes : list text) :
    prog (World W) E (result text (list text)) :=
  let! snapshot := readRuleSnapshot foldCase in
  pure (underlayProtectedRoutes snapshot vpnInterface forwardRoutes).
End reconciler.
