(* ===== verification/FullTunnel.v ===== *)
(** * The route reconciler: the full tunnel

    Model of the batches of rule commands, [applyFullTunnel] and
    [clearFullTunnel] of headless/linuxRouteReconciler.cpp.  A [bool] with a
    failure detail is a [result text ()].  Progress messages of the log are not
    modelled. *)

From stdpp Require Import gmap.
From S2P Require Import Prelude Text Json QtInterface QtModel Command RoutePolicy RouteGrammar RouteState RouteRules.
#[local] Open Scope Z_scope.
#[local] Open Scope amnezia_scope.

(** Chunks of [FullTunnelRuleBatchSize]; as many rounds as elements are enough. *)
Fixpoint batches_go {A} (fuel : nat) (l : list A) : list (list A) :=
  match fuel, l with
  | S fuel, _ :: _ => take FullTunnelRuleBatchSize l :: batches_go fuel (drop FullTunnelRuleBatchSize l)
  | _, _ => []
  end.

Definition batches {A} (l : list A) : list (list A) := batches_go (length l) l.

Definition zlen {A} (l : list A) : Z := Z.of_nat (length l).

Section full_tunnel.
Context `{QtText} `{QtNet} `{QtData} {W : Type} `{Host W}.
Context (foldCase : Z → Z).
Context (m_statePath : text).
(** The order in which a [QSet] is iterated; it depends on the hash seed. *)
Context (set_order : gset text → list text).

Notation op E A := (prog (World W) E A).
Notation R := RouteReconcileResult.
Notation readRuleSnapshot := (readRuleSnapshot foldCase).
Notation markRecoveryRequired := (markRecoveryRequired m_statePath).
Notation saveState := (saveState m_statePath).

(** ** Single commands *)

Definition unavailable : text := lit "ip executable unavailable".

(** [addFullTunnelRule] and [addFullTunnelRoute]. *)
Definition addFullTunnelRule {E} (arguments : list text) : op E (result text ()) :=
  let! executable := ipExecutable in
  if is_empty executable then pure (Err unavailable) else
  let! r := run executable arguments in
  pure (if ok r then Ok () else Err (take 512 (message r))).

Definition addFullTunnelRoute {E} (arguments : list text) : op E (result text ()) := addFullTunnelRule arguments.

(** Some IPv4 rule is the bypass rule of a destination. *)
Definition bypassPresent (s : RuleSnapshot) (priority : Z) (route : text) : bool :=
  existsb (λ line, ruleLineMatches line priority (toSelector route)) (linesV4 s).

(** What a failed rule deletion left, by the rules read back. *)
Definition ruleAbsent (s : RuleSnapshot) (arguments : list text) (failure : text) : result text () :=
  match tokenAfter (lit "priority") arguments with
  | None => Err failure
  | Some p =>
      match q_toInt p with
      | None => Err failure
      | Some priority =>
          if qcontains (lit "to") arguments then
            match tokenAfter (lit "to") arguments with
            | None => Err failure
            | Some route => if bypassPresent s priority route then Err failure else Ok ()
            end
          else
            let owned := if qcontains (lit "-6") arguments then ownedFullV6 s else ownedFullV4 s in
            if bool_decide (priority ∈ owned) then Err failure else Ok ()
      end
  end.

Definition removeFullTunnelRule {E} (arguments : list text) : op E (result text ()) :=
  let! executable := ipExecutable in
  if is_empty executable then pure (Err unavailable) else
  let! r := run executable arguments in
  if ok r then pure (Ok ()) else
  if negb (exitCode r =? 2) || negb (qcontains (lit "del") arguments) then pure (Err (take 512 (message r))) else
  let! snapshot := readRuleSnapshot in
  if negb (valid snapshot) then pure (Err (take 384 (message r) ++ lit "; post-delete rule probe failed"))
  else pure (ruleAbsent snapshot arguments (take 512 (message r))).

Definition removeFullTunnelRoute {E} (arguments : list text) : op E (result text ()) :=
  let! executable := ipExecutable in
  if is_empty executable then pure (Err unavailable) else
  let! r := run executable arguments in
  if ok r then pure (Ok ()) else
  if negb (exitCode r =? 2) || negb (qcontains (lit "del") arguments) then pure (Err (take 512 (message r))) else
  let! snapshot := readRuleSnapshot in
  if negb (valid snapshot) then pure (Err (take 384 (message r) ++ lit "; post-delete route probe failed")) else
  match (i ← indexOf (lit "route") arguments; arguments !! (i + 2)%nat) with
  | None => pure (Err (take 512 (message r)))
  | Some prefix =>
      let! st := state in
      pure (if observedTablePrefix snapshot (m_interfaceName st) prefix then Err (take 512 (message r)) else Ok ())
  end.

(** ** Batches *)

(** Where a batch run stands. *)
Record Progress := { batch : Z; completed : Z }.

Definition progress_text (p : Progress) (total : Z) : text :=
  lit "completed=" ++ number (completed p) ++ lit "/" ++ number total.

(** [if (elapsed() > deadline) ... return false]. *)
Definition check_deadline (what : text) (p : Progress) (total : Z) : op (result text ()) () :=
  let! e := elapsed in
  leave_if (e >? FullTunnelBatchTotalDeadlineMs)
    (let! e := elapsed in
     pure (Err (lit "bypass " ++ what ++ lit " deadline exceeded " ++ progress_text p total
                ++ lit " elapsedMs=" ++ number e))).

Definition batchCount (total : Z) : Z :=
  (total + Z.of_nat FullTunnelRuleBatchSize - 1) / Z.of_nat FullTunnelRuleBatchSize.

Definition add_batch (executable : text) (total : Z) (p : Progress) (commands : list (list text)) :
    op (result text ()) Progress :=
  let! _ := check_deadline (lit "add") p total in
  let! r := runBatch executable commands in
  let! _ := leave_if (negb (ok r))
    (let! e := elapsed in
     pure (Err (lit "bypass add batch " ++ number (batch p + 1) ++ lit "/" ++ number (batchCount total)
                ++ lit " failed " ++ progress_text p total ++ lit " elapsedMs=" ++ number e ++ lit ": "
                ++ take 512 (message r)))) in
  pure {| batch := batch p + 1; completed := completed p + zlen commands |}.

Definition addFullTunnelRulesBatch {E} (arguments : list (list text)) : op E (result text ()) :=
  call (let! executable := ipExecutable in
        let! _ := leave_if (is_empty executable) (pure (Err unavailable)) in
        let! _ := cmd_fold (add_batch executable (zlen arguments)) {| batch := 0; completed := 0 |} (batches arguments) in
        pure (Ok ())).

(** How many of the deletions are still there; -1 when it cannot be told. *)
Fixpoint remainingRules (s : RuleSnapshot) (commands : list (list text)) (remaining : Z) : Z :=
  match commands with
  | [] => remaining
  | command :: commands' =>
      match (p ← tokenAfter (lit "priority") command; q_toInt p), tokenAfter (lit "to") command with
      | Some priority, Some route =>
          remainingRules s commands' (if bypassPresent s priority route then remaining + 1 else remaining)
      | _, _ => -1
      end
  end.

Definition remove_batch (executable : text) (total : Z) (p : Progress) (commands : list (list text)) :
    op (result text ()) Progress :=
  let! _ := check_deadline (lit "delete") p total in
  let! r := runBatch executable commands in
  let! _ := cmd_when (negb (ok r))
    (let! _ := cmd_each (λ command,
                 let! _ := check_deadline (lit "delete retry") p total in
                 let! _ := run executable command in pure ()) commands in
     let! _ := check_deadline (lit "delete readback") p total in
     let! after := readRuleSnapshot in
     let remaining := if valid after then remainingRules after commands 0 else -1 in
     leave_if (negb (remaining =? 0))
       (let! e := elapsed in
        pure (Err (lit "bypass delete batch " ++ number (batch p + 1) ++ lit "/" ++ number (batchCount total)
                   ++ lit " failed " ++ progress_text p total ++ lit " exit=" ++ number (exitCode r)
                   ++ lit " remaining=" ++ number remaining ++ lit " elapsedMs=" ++ number e ++ lit ": "
                   ++ take 512 (message r))))) in
  pure {| batch := batch p + 1; completed := completed p + zlen commands |}.

Definition removeFullTunnelRulesBatch {E} (arguments : list (list text)) : op E (result text ()) :=
  call (let! executable := ipExecutable in
        let! _ := leave_if (is_empty executable) (pure (Err unavailable)) in
        let! _ := cmd_fold (remove_batch executable (zlen arguments)) {| batch := 0; completed := 0 |} (batches arguments) in
        pure (Ok ())).

(** ** Split routes *)

(** The managed lines of the main table with the destination of [route], on
    [interfaceName] or elsewhere. *)
Definition sameManagedRoute (route line : text) : bool :=
  match parseManagedMainRouteLine line with
  | Some (parsedPrefix, _) => text_eqb parsedPrefix (canonicalRuleDestination route)
  | None => false
  end.

Definition exactRoute (s : RuleSnapshot) (interfaceName route : text) : bool :=
  existsb (λ line, sameManagedRoute route line && managedMainRouteLineMatches line route interfaceName)
    (mainRouteLines s).
Definition ambiguousRoute (s : RuleSnapshot) (interfaceName route : text) : bool :=
  existsb (λ line, sameManagedRoute route line && negb (managedMainRouteLineMatches line route interfaceName))
    (mainRouteLines s).

(** One route; the removed ones so far.  Leaves with what the caller sees. *)
Definition remove_route (executable interfaceName : text) (removed : list text) (route : text) :
    op (bool * list text) (list text) :=
  let! snapshot := readRuleSnapshot in
  let! _ := leave_if (negb (valid snapshot)) (pure (false, removed)) in
  let! _ := leave_if (ambiguousRoute snapshot interfaceName route) (pure (false, removed)) in
  if negb (exactRoute snapshot interfaceName route) then pure removed else
  let! r := run executable (splitRouteArguments (lit "del") route interfaceName) in
  let! _ := leave_if (negb (ok r)) (pure (false, removed)) in
  pure (removed ++ [route]).

(** Whether all were removed, and the routes that were. *)
Definition removeRoutes {E} (interfaceName : text) (routes : list text) : op E (bool * list text) :=
  call (if bool_decide (routes = []) then pure (true, []) else
        if is_empty interfaceName then pure (false, []) else
        let! executable := ipExecutable in
        let! _ := leave_if (is_empty executable) (pure (false, [])) in
        let! removed := cmd_fold (remove_route executable interfaceName) [] routes in
        pure (true, removed)).

Definition restore_route (executable interfaceName : text) (restored : bool) (route : text) : op bool bool :=
  let! snapshot := readRuleSnapshot in
  let! _ := leave_if (negb (valid snapshot)) (pure false) in
  let! _ := leave_if (ambiguousRoute snapshot interfaceName route) (pure false) in
  let! r := run executable (splitRouteArguments (lit "replace") route interfaceName) in
  pure (ok r && restored).

Definition restoreRoutes {E} (interfaceName : text) (routes : list text) : op E bool :=
  call (let! executable := ipExecutable in
        if is_empty executable || (is_empty interfaceName && negb (bool_decide (routes = []))) then pure false else
        cmd_fold (restore_route executable interfaceName) true routes).

(** ** Installing the full tunnel: the checks *)

(** [if (b) return failure(code, message);]. *)
Definition refuse_if (b : bool) (code message : string) : op R () :=
  leave_if b (failure (lit code) (lit message)).
Definition refuse {A} (code message : string) : op R A :=
  let! r := failure (lit code) (lit message) in leave r.

(** What the checks establish. *)
Record Plan := {
  p_snapshot : RuleSnapshot;
  p_hadFullTunnel : bool;
  p_bypassPriority : Z;
  p_fullPriority : Z;
  p_tableRoutes : gset text;
  p_previousInterface : text;
  p_previousBypassRoutes : list text;
  p_previousBypassPriority : Z;
}.

Definition fullTunnelPreflight (interfaceName : text) : op R Plan :=
  let! executable := ipExecutable in
  let! _ := refuse_if (is_empty executable) "route_backend_unavailable" "the Linux ip command is not installed" in
  let! s := readRuleSnapshot in
  let! _ := refuse_if (negb (valid s)) "full_tunnel_rule_probe_failed" "could not inspect policy rules safely" in
  let! st := state in
  let had := text_eqb (m_mode st) all_except in
  match selectRulePriorities st s with
  | None => refuse "full_tunnel_rule_probe_failed" "could not find safe policy-rule priorities"
  | Some (bypassPriority, fullPriority) =>
      let! _ := refuse_if (preempted s fullPriority) "full_tunnel_rule_conflict"
                  "a broad foreign main-table rule would preempt the full-tunnel rule" in
      let! _ := refuse_if (had && foreignAtPersisted st s) "full_tunnel_rule_conflict"
                  "a persisted full-tunnel priority is occupied by a foreign rule" in
      let allowed := if had then set_of (m_bypassRoutes st) else ∅ in
      let! _ := refuse_if (had && (negb (persistedBypassIsExact allowed s (m_bypassRulePriority st))
                                   || negb (persistedFullIsExact s (m_fullRulePriority st))))
                  "full_tunnel_rule_conflict"
                  "a persisted policy-rule priority contains a foreign or ambiguous rule" in
      let! _ := refuse_if (negb (validateReservedRules allowed bypassPriority fullPriority false (linesV4 s))
                           || negb (validateReservedRules allowed bypassPriority fullPriority true (linesV6 s)))
                  "full_tunnel_rule_conflict"
                  "a reserved policy-rule priority contains an extra or unparseable rule" in
      match read_table s with
      | Err Unowned => refuse "full_tunnel_table_conflict" "route table 51821 contains an unowned route"
      | Err DuplicatePrefix =>
          refuse "full_tunnel_table_conflict" "route table 51821 contains duplicate managed prefixes"
      | Err SeveralInterfaces =>
          refuse "full_tunnel_table_conflict" "route table 51821 contains multiple owned interfaces"
      | Ok (tableRoutes, markedInterface) =>
          let! _ := refuse_if (4 <? Z.of_nat (size tableRoutes)) "full_tunnel_table_conflict"
                      "route table 51821 contains too many routes" in
          let previousInterface := m_interfaceName st in
          let exact := had && negb (is_empty previousInterface) && text_eqb markedInterface previousInterface
                       && bool_decide (tableRoutes = completeFullTunnelPrefixes) in
          let! _ := refuse_if (negb (is_empty markedInterface)
                               && (negb had || is_empty previousInterface
                                   || (negb (text_eqb markedInterface previousInterface) && negb exact)))
                      "full_tunnel_ownership_ambiguous"
                      "kernel full-tunnel table does not match the persisted interface receipt" in
          let! _ := refuse_if (had && negb (text_eqb previousInterface interfaceName) && negb exact)
                      "full_tunnel_ownership_ambiguous"
                      "interface migration requires an exact persisted full-tunnel route identity" in
          let! _ := refuse_if (negb had && negb (bool_decide (tableRoutes = ∅)))
                      "full_tunnel_ownership_ambiguous"
                      "a pre-existing route table cannot be attributed to this daemon" in
          pure {| p_snapshot := s; p_hadFullTunnel := had; p_bypassPriority := bypassPriority;
                  p_fullPriority := fullPriority; p_tableRoutes := tableRoutes;
                  p_previousInterface := previousInterface; p_previousBypassRoutes := m_bypassRoutes st;
                  p_previousBypassPriority := m_bypassRulePriority st |}
      end
  end.

(** [markRecoveryRequired] and a recovery failure whose message tells whether
    the receipt was kept. *)
Definition require_recovery {A} (mark : text) (kept lost : string) : op R A :=
  let! persisted := markRecoveryRequired mark in
  let! r := failure recovery_required (if persisted : bool then lit kept else lit lost) in
  leave r.

(** ** Stale allow-list rules *)

(** The previous bypass routes that are no longer wanted and are there. *)
Definition staleRoutes (p : Plan) (bypassRoutes : list text) : list text :=
  List.filter (λ route, negb (qcontains route bypassRoutes)
                        && bypassPresent (p_snapshot p) (p_previousBypassPriority p) route)
    (p_previousBypassRoutes p).

Definition removeStale (p : Plan) (bypassRoutes : list text) : op R (list text) :=
  if negb (p_hadFullTunnel p) then pure [] else
  let stale := staleRoutes p bypassRoutes in
  let! r := removeFullTunnelRulesBatch
              (map (bypassRuleArguments (lit "del") (p_previousBypassPriority p)) stale) in
  match r with
  | Ok _ => pure stale
  | Err batchError =>
      require_recovery (lit "stale full-tunnel allow-list rule removal failed: " ++ batchError)
        "stale full-tunnel allow-list rules could not be retired"
        "stale allow-list removal and recovery receipt both failed"
  end.

(** [restoreRemovedPreviousBypassRoutes]; it is called at most once. *)
Definition restoreStale {E} (p : Plan) (removed : list text) : op E bool :=
  if bool_decide (removed = []) then pure true else
  let! current := readRuleSnapshot in
  if negb (valid current) then pure false else
  let missing := List.filter (λ route, negb (bypassPresent current (p_previousBypassPriority p) route)) removed in
  let! r := addFullTunnelRulesBatch (map (bypassRuleArguments (lit "add") (p_previousBypassPriority p)) missing) in
  pure (is_ok r).

(** ** The route table *)

(** Deletes the routes of the table this transaction added. *)
Definition remove_added {E} (interfaceName : text) (acc : bool) (prefix : text) : op E bool :=
  let! r := removeFullTunnelRoute (fullRouteArguments (lit "del") prefix interfaceName) in
  pure (is_ok r && acc).

(** A failed installation after [installed] prefixes. *)
Definition undo_table (p : Plan) (interfaceName : text) (installed : list text) : op R bool :=
  let deletions :=
    if negb (p_hadFullTunnel p) || negb (text_eqb (p_previousInterface p) interfaceName) then installed
    else List.filter (λ prefix, negb (bool_decide (prefix ∈ p_tableRoutes p))) installed in
  let! rollbackOk := cmd_fold (remove_added interfaceName) true deletions in
  if p_hadFullTunnel p && negb (is_empty (p_previousInterface p)) then
    cmd_fold (λ acc prefix,
      let! r := addFullTunnelRoute (fullRouteArguments (lit "replace") prefix (p_previousInterface p)) in
      pure (is_ok r && acc)) rollbackOk
      (List.filter (λ prefix, bool_decide (prefix ∈ p_tableRoutes p)) managedFullTunnelRoutePrefixes)
  else pure rollbackOk.

Definition install_route (p : Plan) (interfaceName : text) (stale installed : list text) (prefix : text) :
    op R (list text) :=
  let! r := addFullTunnelRoute (fullRouteArguments (lit "replace") prefix interfaceName) in
  if is_ok r then pure (installed ++ [prefix]) else
  let! rollbackOk := undo_table p interfaceName installed in
  let! staleRestored := restoreStale p stale in
  if negb rollbackOk || negb staleRestored then
    require_recovery
      (if staleRestored : bool then lit "full-tunnel route rollback was incomplete"
       else lit "stale full-tunnel allow-list restore failed")
      "failed to install the full-tunnel route table and rollback was incomplete"
      "full-tunnel rollback and durable recovery receipt both failed"
  else refuse "full_tunnel_route_failed" "failed to install the full-tunnel route table".

(** ** Rollback *)

(** What the transaction has added. *)
Record Added := { addedBypassRoutes : list text; addedFullV4 : bool; addedFullV6 : bool }.

(** The table part of a rollback: deletions and restorations and their first
    errors. *)
Record TableRollback := {
  tableDeleteOk : bool; tableDeleteError : text; splitRestoreOk : bool; splitRestoreError : text;
}.

Definition first_error (old : text) (r : result text ()) : text :=
  match r with Err detail => if is_empty old then detail else old | Ok _ => old end.

Definition rollback_route (p : Plan) (interfaceName : text) (acc : TableRollback) (prefix : text) :
    op R TableRollback :=
  if negb (bool_decide (prefix ∈ p_tableRoutes p)) then
    let! r := removeFullTunnelRoute (fullRouteArguments (lit "del") prefix interfaceName) in
    pure {| tableDeleteOk := is_ok r && tableDeleteOk acc; tableDeleteError := first_error (tableDeleteError acc) r;
            splitRestoreOk := splitRestoreOk acc; splitRestoreError := splitRestoreError acc |}
  else if p_hadFullTunnel p && negb (text_eqb (p_previousInterface p) interfaceName) then
    let! r := addFullTunnelRoute (fullRouteArguments (lit "replace") prefix (p_previousInterface p)) in
    pure {| tableDeleteOk := tableDeleteOk acc; tableDeleteError := tableDeleteError acc;
            splitRestoreOk := is_ok r && splitRestoreOk acc; splitRestoreError := first_error (splitRestoreError acc) r |}
  else pure acc.

Definition rollback_table (p : Plan) (interfaceName : text) : op R TableRollback :=
  let start := {| tableDeleteOk := true; tableDeleteError := []; splitRestoreOk := true; splitRestoreError := [] |} in
  if negb (p_hadFullTunnel p) || text_eqb (p_previousInterface p) interfaceName
     || negb (is_empty (p_previousInterface p))
  then cmd_fold (rollback_route p interfaceName) start managedFullTunnelRoutePrefixes
  else pure start.

Definition error_of (r : result text ()) : text := match r with Ok _ => [] | Err e => e end.

(** Whether everything was undone, and the diagnostics. *)
Definition rollback (p : Plan) (interfaceName : text) (stale : list text) (a : Added) : op R (bool * jobject) :=
  let! bypassDelete := removeFullTunnelRulesBatch
    (map (bypassRuleArguments (lit "del") (p_bypassPriority p)) (addedBypassRoutes a)) in
  let! fullV4Delete := (if addedFullV4 a
    then removeFullTunnelRule (fullRuleArguments (lit "del") (p_fullPriority p) false) else pure (Ok ())) in
  let! fullV6Delete := (if addedFullV6 a
    then removeFullTunnelRule (fullRuleArguments (lit "del") (p_fullPriority p) true) else pure (Ok ())) in
  let! t := rollback_table p interfaceName in
  let! staleRestored := restoreStale p stale in
  let restoreError := if negb staleRestored && is_empty (splitRestoreError t)
                      then lit "stale bypass restoration failed" else splitRestoreError t in
  let! after := readRuleSnapshot in
  let postSnapshotOk :=
    valid after
    && negb (existsb (bypassPresent after (p_bypassPriority p)) (addedBypassRoutes a))
    && negb (negb (p_hadFullTunnel p) && (negb (valid after) || negb (bool_decide (tableLines after = [])))) in
  let diagnostics := jobj
    [(lit "bypassDelete", JBool (is_ok bypassDelete));
     (lit "bypassDeleteError", JString (take 512 (error_of bypassDelete)));
     (lit "fullV4Delete", JBool (is_ok fullV4Delete));
     (lit "fullV4DeleteError", JString (take 512 (error_of fullV4Delete)));
     (lit "fullV6Delete", JBool (is_ok fullV6Delete));
     (lit "fullV6DeleteError", JString (take 512 (error_of fullV6Delete)));
     (lit "tableRouteDelete", JBool (tableDeleteOk t));
     (lit "tableRouteDeleteError", JString (take 512 (tableDeleteError t)));
     (lit "splitRestore", JBool (splitRestoreOk t && staleRestored));
     (lit "splitRestoreError", JString (take 512 restoreError));
     (lit "postSnapshot", JBool postSnapshotOk);
     (lit "postSnapshotError", JString (if postSnapshotOk then [] else lit "managed state remained"))] in
  pure (is_ok bypassDelete && is_ok fullV4Delete && is_ok fullV6Delete && tableDeleteOk t && splitRestoreOk t
        && staleRestored && postSnapshotOk, diagnostics).

(** A failed step: undo everything, or require recovery. *)
Definition rollback_or {A} (p : Plan) (interfaceName : text) (stale : list text) (a : Added)
    (mark : text) (kept lost : string) (code message : text) : op R A :=
  let! undone := rollback p interfaceName stale a in
  if negb undone.1 then require_recovery mark kept lost
  else let! r := failure code message in leave r.

(** ** Rules already there *)

Definition existing_line (target retired : gset text) (seen : gset text) (line : text) :
    result () (gset text) :=
  match parseManagedRuleLine line with
  | Some (_, Bypass, destination) =>
      if bool_decide (destination ∈ seen)
         || (negb (bool_decide (destination ∈ target)) && negb (bool_decide (destination ∈ retired)))
      then Err () else Ok ({[destination]} ∪ seen)
  | _ => Err ()
  end.

Definition existingBypasses (p : Plan) (bypassRoutes stale : list text) : result () (gset text) :=
  if bool_decide (p_bypassPriority p ∈ occupiedV4 (p_snapshot p)) then
    rfold (existing_line (set_of bypassRoutes) (set_of stale)) ∅
      (lines_at (p_bypassPriority p) (linesV4 (p_snapshot p)))
  else Ok ∅.

(** ** Postconditions *)

(** The bypass destinations the rules of a snapshot show at a priority. *)
Definition shownBypasses (s : RuleSnapshot) (priority : Z) : gset text :=
  foldl (λ acc line,
    match parseManagedRuleLine line with
    | Some (parsedPriority, Bypass, destination) =>
        if parsedPriority =? priority then {[destination]} ∪ acc else acc
    | _ => acc
    end) ∅ (linesV4 s).

Definition criticalPostcondition (s : RuleSnapshot) (priority : Z) (critical : list text) : bool :=
  valid s && forallb (λ route, bool_decide (route ∈ shownBypasses s priority)) critical.

(** The prefixes of the table, with ["<invalid>"] in place of the first line
    that is not the daemon's, that line, and its protocol if it is foreign. *)
Record TablePrefixes := { actualPrefixes : gset text; firstInvalidRouteLine : text; rejectedProtocol : text }.

Fixpoint table_prefixes (interfaceName : text) (l : list text) (acc : gset text) : TablePrefixes :=
  match l with
  | [] => {| actualPrefixes := acc; firstInvalidRouteLine := []; rejectedProtocol := [] |}
  | line :: l' =>
      let invalid :=
        let candidate := routeProtocolToken line in
        {| actualPrefixes := {[lit "<invalid>"]} ∪ acc;
           firstInvalidRouteLine := take 512 line;
           rejectedProtocol := if negb (is_empty candidate)
                                  && negb (managedProtocolTokenMatches AmneziaRouteProtocol candidate)
                               then candidate else [] |} in
      match parseManagedFullTunnelRouteLine line interfaceName with
      | None => invalid
      | Some (prefix, _) =>
          if bool_decide (prefix ∈ acc) then invalid else table_prefixes interfaceName l' ({[prefix]} ∪ acc)
      end
  end.

(** The rules of one family at the selected priorities: how many full-tunnel
    rules, and whether all are the daemon's. *)
Definition selected_line (bypassPriority fullPriority : Z) (acc : Z * bool) (line : text) : Z * bool :=
  let '(fullCount, rulesValid) := acc in
  match rulePriority line with
  | None => acc
  | Some priority =>
      if negb (priority =? bypassPriority) && negb (priority =? fullPriority) then acc else
      match parseManagedRuleLine line with
      | None => (fullCount, false)
      | Some (_, kind, _) =>
          if priority =? fullPriority then
            if negb (bool_decide (kind = FullTunnel)) then (fullCount, false) else (fullCount + 1, rulesValid)
          else (fullCount, rulesValid && bool_decide (kind = Bypass))
      end
  end.

Definition selected_rules (bypassPriority fullPriority : Z) (l : list text) : Z * bool :=
  foldl (selected_line bypassPriority fullPriority) (0, true) l.

(** The bypass destinations at the selected priority, and whether all rules
    there are different bypass rules. *)
Fixpoint actual_bypasses (l : list text) (acc : gset text) : gset text * bool :=
  match l with
  | [] => (acc, true)
  | line :: l' =>
      match parseManagedRuleLine line with
      | Some (_, Bypass, destination) =>
          if bool_decide (destination ∈ acc) then (acc, false) else actual_bypasses l' ({[destination]} ∪ acc)
      | _ => (acc, false)
      end
  end.

Definition expectedBypasses (bypassRoutes : list text) : gset text :=
  set_of (List.filter (λ r, negb (is_empty r)) (map canonicalRuleDestination bypassRoutes)).

(** What was read back after the commands. *)
Record Committed := {
  c_prefixes : TablePrefixes; c_fullV4Count : Z; c_fullV6Count : Z; c_selectedRulesValid : bool;
  c_actualBypasses : gset text; c_bypassRulesValid : bool;
}.

Definition read_committed (p : Plan) (interfaceName : text) (s : RuleSnapshot) : Committed :=
  if negb (valid s) then
    {| c_prefixes := {| actualPrefixes := ∅; firstInvalidRouteLine := []; rejectedProtocol := [] |};
       c_fullV4Count := 0; c_fullV6Count := 0; c_selectedRulesValid := false;
       c_actualBypasses := ∅; c_bypassRulesValid := false |}
  else
    let '(v4Count, v4Valid) := selected_rules (p_bypassPriority p) (p_fullPriority p) (linesV4 s) in
    let '(v6Count, v6Valid) := selected_rules (p_bypassPriority p) (p_fullPriority p) (linesV6 s) in
    let '(bypasses, bypassesValid) := actual_bypasses (lines_at (p_bypassPriority p) (linesV4 s)) ∅ in
    {| c_prefixes := table_prefixes interfaceName (tableLines s) ∅;
       c_fullV4Count := v4Count; c_fullV6Count := v6Count; c_selectedRulesValid := v4Valid && v6Valid;
       c_actualBypasses := bypasses; c_bypassRulesValid := bypassesValid |}.

Definition postconditionFailed (s : RuleSnapshot) (c : Committed) (bypassRoutes : list text) : bool :=
  negb (valid s) || negb (length (tableLines s) =? 4)%nat
  || negb (bool_decide (actualPrefixes (c_prefixes c) = completeFullTunnelPrefixes))
  || negb (c_fullV4Count c =? 1) || negb (c_fullV6Count c =? 1)
  || negb (c_selectedRulesValid c) || negb (c_bypassRulesValid c)
  || negb (bool_decide (c_actualBypasses c = expectedBypasses bypassRoutes)).

(** ** Diagnostics of a failed postcondition *)

Definition invalidMark : text := lit "<invalid>".

Definition firstMismatch (t : TablePrefixes) : text :=
  if negb (is_empty (firstInvalidRouteLine t)) || bool_decide (invalidMark ∈ actualPrefixes t)
  then lit "invalid-route-line" else
  match List.find (λ prefix, negb (bool_decide (prefix ∈ actualPrefixes t))) (set_order completeFullTunnelPrefixes) with
  | Some prefix => lit "missing:" ++ prefix
  | None =>
      match List.find (λ prefix, negb (bool_decide (prefix ∈ completeFullTunnelPrefixes)))
              (set_order (actualPrefixes t)) with
      | Some prefix => lit "unexpected:" ++ prefix
      | None => []
      end
  end.

Definition committedDiagnostics (p : Plan) (s : RuleSnapshot) (c : Committed) (bypassRoutes : list text) : jobject :=
  let t := c_prefixes c in
  let d := jobj
    [(lit "committedValid", JBool (valid s));
     (lit "tableLineCount", jint (zlen (tableLines s)));
     (lit "actualPrefixCount", jint (if bool_decide (invalidMark ∈ actualPrefixes t)
                                     then zlen (tableLines s) else Z.of_nat (size (actualPrefixes t))));
     (lit "expectedPrefixCount", jint (Z.of_nat (size completeFullTunnelPrefixes)));
     (lit "fullV4Count", jint (c_fullV4Count c));
     (lit "fullV6Count", jint (c_fullV6Count c));
     (lit "selectedRulesValid", JBool (c_selectedRulesValid c));
     (lit "bypassRulesValid", JBool (c_bypassRulesValid c));
     (lit "actualBypassCount", jint (Z.of_nat (size (c_actualBypasses c))));
     (lit "expectedBypassCount", jint (Z.of_nat (size (expectedBypasses bypassRoutes))));
     (lit "selectedBypassPriority", jint (p_bypassPriority p));
     (lit "selectedFullPriority", jint (p_fullPriority p))] in
  let d := if negb (is_empty (firstInvalidRouteLine t))
           then jinsert (lit "firstInvalidRouteLine") (JString (firstInvalidRouteLine t)) d else d in
  let d := if negb (is_empty (rejectedProtocol t))
           then jinsert (lit "expectedProtocol") (JString (lit "186 or bgp"))
                  (jinsert (lit "rejectedProtocolLine") (JString (firstInvalidRouteLine t))
                     (jinsert (lit "rejectedProtocol") (JString (rejectedProtocol t)) d)) else d in
  let mismatch := firstMismatch t in
  if negb (bool_decide (actualPrefixes t = completeFullTunnelPrefixes)) && negb (is_empty mismatch)
  then jinsert (lit "firstMismatch") (JString mismatch) d else d.

(** ** Reading back a rollback *)

Fixpoint restored_prefixes (interfaceName : text) (l : list text) (acc : gset text) : option (gset text) :=
  match l with
  | [] => Some acc
  | line :: l' =>
      match parseManagedFullTunnelRouteLine line interfaceName with
      | None => None
      | Some (prefix, _) =>
          if bool_decide (prefix ∈ acc) then None else restored_prefixes interfaceName l' ({[prefix]} ∪ acc)
      end
  end.

Fixpoint restored_bypasses (priority : Z) (l : list text) (acc : gset text) : option (gset text) :=
  match l with
  | [] => Some acc
  | line :: l' =>
      match parseManagedRuleLine line with
      | Some (parsedPriority, kind, destination) =>
          if parsedPriority =? priority then
            if negb (bool_decide (kind = Bypass)) || bool_decide (destination ∈ acc) then None
            else restored_bypasses priority l' ({[destination]} ∪ acc)
          else restored_bypasses priority l' acc
      | None => restored_bypasses priority l' acc
      end
  end.

Definition rollbackReadback (p : Plan) (st : Reconciler) (s : RuleSnapshot) : bool :=
  if negb (valid s) then false else
  if negb (p_hadFullTunnel p) then bool_decide (tableLines s = []) && bool_decide (ownedFull s = ∅) else
  (length (tableLines s) =? size (p_tableRoutes p))%nat
  && bool_decide (restored_prefixes (p_previousInterface p) (tableLines s) ∅ = Some (p_tableRoutes p))
  && bool_decide (m_fullRulePriority st ∈ ownedFullV4 s) && bool_decide (m_fullRulePriority st ∈ ownedFullV6 s)
  && bool_decide (restored_bypasses (p_previousBypassPriority p) (linesV4 s) ∅
                  = Some (set_of (map canonicalRuleDestination (m_bypassRoutes st)))).

(** ** Installing the full tunnel *)

(** The bypass rules to add, the critical ones first. *)
Definition bypassAdds (bypassRoutes : list text) (existing : gset text) : list text :=
  List.filter (λ route, negb (bool_decide (route ∈ existing))) bypassRoutes.

Definition add_rules (p : Plan) (routes : list text) : list (list text) :=
  map (bypassRuleArguments (lit "add") (p_bypassPriority p)) routes.

(** Stale rules, the table, and the rules found at the bypass priority. *)
Definition installTable (p : Plan) (interfaceName : text) (bypassRoutes : list text) :
    op R (list text * gset text) :=
  let! stale := removeStale p bypassRoutes in
  let! _ := cmd_fold (install_route p interfaceName stale) [] managedFullTunnelRoutePrefixes in
  match existingBypasses p bypassRoutes stale with
  | Ok existing => pure (stale, existing)
  | Err _ =>
      let! staleRestored := restoreStale p stale in
      if negb staleRestored then
        require_recovery (lit "stale full-tunnel allow-list restore failed")
          "stale allow-list restore failed" "stale allow-list restore and recovery receipt both failed"
      else refuse "full_tunnel_rule_conflict" "the bypass-rule priority is occupied by an ambiguous rule"
  end.

Definition batchFailed {A} (p : Plan) (interfaceName : text) (stale : list text) (a : Added) (e : text) : op R A :=
  rollback_or p interfaceName stale a (lit "full-tunnel rule rollback failed: " ++ e)
    "full-tunnel route transaction rollback failed"
    "full-tunnel rollback recovery receipt could not be persisted"
    (lit "full_tunnel_rule_conflict") (lit "a full-tunnel bypass rule batch could not be installed: " ++ e).

(** The critical bypass rules, and their readback. *)
Definition installCritical (p : Plan) (interfaceName : text) (criticalBypassRoutes stale : list text) (a : Added)
    (criticalAdds : list text) : op R () :=
  let! r := addFullTunnelRulesBatch (add_rules p criticalAdds) in
  let! _ := match r with Ok _ => pure () | Err e => batchFailed p interfaceName stale a e end in
  if bool_decide (criticalBypassRoutes = []) then pure () else
  let! s := readRuleSnapshot in
  if criticalPostcondition s (p_bypassPriority p) criticalBypassRoutes then pure () else
  rollback_or p interfaceName stale a (lit "critical full-tunnel bypass rollback failed")
    "critical bypass postcondition failed and rollback was incomplete"
    "critical bypass postcondition failed and recovery receipt could not be persisted"
    (lit "full_tunnel_rule_conflict")
    (lit "critical bypass postcondition failed completed=" ++ number (zlen criticalAdds) ++ lit "/"
     ++ number (zlen criticalBypassRoutes)).

(** The full-tunnel rule of a family, unless it is there: whether it was
    added. *)
Definition installFullRule (p : Plan) (interfaceName : text) (stale : list text) (a : Added) (ipv6 : bool) : op R bool :=
  let present := bool_decide (p_fullPriority p ∈ (if ipv6 then ownedFullV6 else ownedFullV4) (p_snapshot p)) in
  if present then pure false else
  let! r := addFullTunnelRule (fullRuleArguments (lit "add") (p_fullPriority p) ipv6) in
  match r with
  | Ok _ => pure true
  | Err _ =>
      rollback_or p interfaceName stale a
        (if ipv6 then lit "full-tunnel IPv6 rule rollback failed" else lit "full-tunnel IPv4 rule rollback failed")
        "full-tunnel rule transaction rollback failed"
        "full-tunnel rollback recovery receipt could not be persisted"
        (lit "full_tunnel_rule_conflict")
        (if ipv6 then lit "the IPv6 full-tunnel policy rule could not be installed"
         else lit "the full-tunnel policy rule could not be installed")
  end.

(** The split routes of an only-forward state are retired. *)
Definition retireSplitRoutes (p : Plan) (interfaceName : text) (stale : list text) (a : Added) : op R (list text) :=
  let! st := state in
  if p_hadFullTunnel p || bool_decide (m_routes st = []) then pure [] else
  let! r := removeRoutes (m_interfaceName st) (m_routes st) in
  if r.1 : bool then pure r.2 else
  let! routesRestored := restoreRoutes (m_interfaceName st) r.2 in
  let! tunnel := rollback p interfaceName stale a in
  if negb routesRestored || negb tunnel.1 then
    let! _ := markRecoveryRequired (lit "split-to-full transition rollback failed") in
    let! r := failure recovery_required (lit "full-tunnel transition failed and split routes could not be restored") in
    leave r
  else refuse "route_remove_failed" "failed to retire the previous managed routes".

(** The kernel is read back; a mismatch undoes everything. *)
Definition verifyCommitted (p : Plan) (interfaceName : text) (bypassRoutes stale removedSplit : list text)
    (a : Added) : op R () :=
  let! s := readRuleSnapshot in
  let c := read_committed p interfaceName s in
  if negb (postconditionFailed s c bypassRoutes) then pure () else
  let d := jinsert (lit "originalOperationFailure") (JString (lit "full-tunnel postcondition verification failed"))
             (committedDiagnostics p s c bypassRoutes) in
  let! _ := update (set_lastDiagnostics d) in
  let! undone := rollback p interfaceName stale a in
  let! routesRestored := restoreRoutes (p_previousInterface p) removedSplit in
  let! restored := readRuleSnapshot in
  let! st := state in
  let readback := rollbackReadback p st restored in
  let d := jinsert (lit "rollbackSubsteps") (JObject undone.2)
             (jinsert (lit "rollbackReadbackValid") (JBool readback)
                (jinsert (lit "rollbackSucceeded") (JBool (undone.1 && routesRestored)) d)) in
  let! _ := update (set_lastDiagnostics d) in
  let! saved := (if undone.1 && routesRestored && readback then saveState else pure false) in
  if saved : bool then
    refuse "full_tunnel_postcondition_failed" "full-tunnel postcondition failed; rollback completed"
  else
    let! _ := markRecoveryRequired (lit "full-tunnel postcondition failed and rollback/readback was incomplete") in
    let! r := failure recovery_required (lit "full-tunnel postcondition verification and rollback failed") in
    leave r.

(** The new state and its receipt. *)
Definition commitFullTunnel (p : Plan) (interfaceName : text) (bypassRoutes criticalBypassRoutes stale
    removedSplit : list text) (a : Added) : op R R :=
  let! _ := update (λ s, set_reapply false false
              (set_priorities (p_bypassPriority p) (p_fullPriority p)
                 (set_routing all_except interfaceName [] bypassRoutes criticalBypassRoutes s))) in
  let! saved := saveState in
  if saved : bool then pure success else
  let! undone := rollback p interfaceName stale a in
  let! routesRestored := restoreRoutes (p_previousInterface p) removedSplit in
  let! _ := markRecoveryRequired
    (if routesRestored && undone.1 then lit "full-tunnel state save failed after host rollback"
     else lit "full-tunnel state save and host rollback both failed") in
  failure recovery_required (lit "full-tunnel routes applied but state was not persisted").

Definition applyFullTunnel_body (interfaceName : text) (bypassRoutes criticalBypassRoutes : list text) : op R R :=
  let! st := state in
  let! _ := cmd_when (bool_decide (m_fullTunnelDeadline st = None)) startDeadline in
  let! p := fullTunnelPreflight interfaceName in
  let! table := installTable p interfaceName bypassRoutes in
  let stale := table.1 in
  let adds := bypassAdds bypassRoutes table.2 in
  let critical := List.filter (λ route, qcontains route criticalBypassRoutes) adds in
  let nonCritical := List.filter (λ route, negb (qcontains route criticalBypassRoutes)) adds in
  let a := {| addedBypassRoutes := adds; addedFullV4 := false; addedFullV6 := false |} in
  let! _ := installCritical p interfaceName criticalBypassRoutes stale a critical in
  let! v4 := installFullRule p interfaceName stale a false in
  let a := {| addedBypassRoutes := adds; addedFullV4 := v4; addedFullV6 := false |} in
  let! v6 := installFullRule p interfaceName stale a true in
  let a := {| addedBypassRoutes := adds; addedFullV4 := v4; addedFullV6 := v6 |} in
  let! r := addFullTunnelRulesBatch (add_rules p nonCritical) in
  let! _ := match r with Ok _ => pure () | Err e => batchFailed p interfaceName stale a e end in
  let! removedSplit := retireSplitRoutes p interfaceName stale a in
  let! _ := verifyCommitted p interfaceName bypassRoutes stale removedSplit a in
  commitFullTunnel p interfaceName bypassRoutes criticalBypassRoutes stale removedSplit a.

Definition applyFullTunnel {E} (interfaceName : text) (bypassRoutes criticalBypassRoutes : list text) : op E R :=
  call (applyFullTunnel_body interfaceName bypassRoutes criticalBypassRoutes).

(** ** Clearing the full tunnel *)

(** An only-forward state without routes, and its receipt. *)
Definition retireReceipt (message : string) : op R R :=
  let! _ := update (λ s, set_reapply false false (set_routing only_forward [] [] [] [] s)) in
  let! saved := saveState in
  if saved : bool then pure success else
  let! _ := update (λ s, set_mode recovery_required (set_stateValid false s)) in
  failure recovery_required (lit message).

(** The diagnostics of a line that is not the daemon's. *)
Definition rejectLine (protocol : Z) (expected : string) (line : text) : op R () :=
  let token := routeProtocolToken line in
  cmd_when (negb (is_empty token) && negb (managedProtocolTokenMatches protocol token))
    (update (set_lastDiagnostics (jobj [(lit "rejectedProtocol", JString token);
                                        (lit "rejectedProtocolLine", JString (take 512 line));
                                        (lit "expectedProtocol", JString (lit expected))]))).

Definition check_table_line (interfaceName : text) (seen : gset text) (line : text) : op R (gset text) :=
  match parseManagedFullTunnelRouteLine line interfaceName with
  | None =>
      let! _ := rejectLine AmneziaRouteProtocol "186 or bgp" line in
      refuse "full_tunnel_ownership_ambiguous" "route table 51821 contains a foreign or unmarked route"
  | Some (prefix, _) =>
      let! _ := refuse_if (bool_decide (prefix ∈ seen)) "full_tunnel_ownership_ambiguous"
                  "route table 51821 contains duplicate managed prefixes" in
      pure ({[prefix]} ∪ seen)
  end.

(** [restoreRemovedRules]. *)
Definition restoreRules {E} (st : Reconciler) (bypass : list text) (v4 v6 : bool) : op E bool :=
  let! r := addFullTunnelRulesBatch (map (bypassRuleArguments (lit "add") (m_bypassRulePriority st)) bypass) in
  let! r4 := (if v4 then addFullTunnelRule (fullRuleArguments (lit "add") (m_fullRulePriority st) false)
              else pure (Ok ())) in
  let! r6 := (if v6 then addFullTunnelRule (fullRuleArguments (lit "add") (m_fullRulePriority st) true)
              else pure (Ok ())) in
  pure (is_ok r6 && is_ok r4 && is_ok r).

(** A failed deletion: the removed rules are put back, or recovery is
    required. *)
Definition restoreRules_or {A} (st : Reconciler) (bypass : list text) (v4 v6 : bool)
    (mark unrestored code message : text) : op R A :=
  let! restored := restoreRules st bypass v4 v6 in
  if restored : bool then let! r := failure code message in leave r else
  let! _ := markRecoveryRequired mark in
  let! r := failure recovery_required unrestored in
  leave r.

Definition restoreOwnedTable {E} (s : RuleSnapshot) : op E bool :=
  cmd_fold (λ restored line,
    match parseManagedFullTunnelRouteLine line [] with
    | None => pure restored
    | Some (prefix, routeInterface) =>
        let! r := addFullTunnelRoute (fullRouteArguments (lit "replace") prefix routeInterface) in
        pure (is_ok r && restored)
    end) true (tableLines s).

Definition remove_table_route {E} (s : RuleSnapshot) (interfaceName : text) (removed : bool) (prefix : text) : op E bool :=
  if observedTablePrefix s interfaceName prefix then
    let! r := removeFullTunnelRoute (fullRouteDeletion prefix) in pure (is_ok r && removed)
  else pure removed.

(** The rules, then the table. *)
Definition removeOwnedTunnel (st : Reconciler) (s : RuleSnapshot) : op R () :=
  let bypass := m_bypassRoutes st in
  let! r := removeFullTunnelRulesBatch (map (bypassRuleArguments (lit "del") (m_bypassRulePriority st)) bypass) in
  let! _ := match r with
            | Ok _ => pure ()
            | Err e => restoreRules_or st bypass false false
                         (lit "full-tunnel bypass-rule restoration failed")
                         (lit "a bypass rule batch could not be removed and rollback failed")
                         (lit "full_tunnel_rule_cleanup_failed")
                         (lit "a full-tunnel bypass-rule batch could not be removed: " ++ e)
            end in
  let v4 := bool_decide (m_fullRulePriority st ∈ ownedFullV4 s) in
  let v6 := bool_decide (m_fullRulePriority st ∈ ownedFullV6 s) in
  let! r := (if v4 then removeFullTunnelRule (fullRuleArguments (lit "del") (m_fullRulePriority st) false)
             else pure (Ok ())) in
  let! _ := match r with
            | Ok _ => pure ()
            | Err _ => restoreRules_or st bypass false false
                         (lit "full-tunnel IPv4-rule restoration failed")
                         (lit "the IPv4 rule could not be removed and rollback failed")
                         (lit "full_tunnel_rule_cleanup_failed")
                         (lit "the full-tunnel policy rule could not be removed")
            end in
  let! r := (if v6 then removeFullTunnelRule (fullRuleArguments (lit "del") (m_fullRulePriority st) true)
             else pure (Ok ())) in
  let! _ := match r with
            | Ok _ => pure ()
            | Err _ => restoreRules_or st bypass v4 false
                         (lit "full-tunnel IPv6-rule restoration failed")
                         (lit "the IPv6 rule could not be removed and rollback failed")
                         (lit "full_tunnel_rule_cleanup_failed")
                         (lit "the IPv6 full-tunnel policy rule could not be removed")
            end in
  let! tableRemoved := cmd_fold (remove_table_route s (m_interfaceName st)) true managedFullTunnelRoutePrefixes in
  let! _ := cmd_when (negb tableRemoved)
    (let! restored := restoreOwnedTable s in
     let! rulesRestored := restoreRules st bypass v4 v6 in
     if negb restored || negb rulesRestored then
       let! _ := markRecoveryRequired (lit "full-tunnel route-table restoration failed") in
       let! r := failure recovery_required (lit "the route table could not be removed and restoration failed") in
       leave r
     else refuse "full_tunnel_route_cleanup_failed" "the full-tunnel route table could not be removed") in
  let! cleared := readRuleSnapshot in
  cmd_when (negb (valid cleared) || negb (bool_decide (ownedFull cleared = ∅))
            || negb (bool_decide (ownedBypass cleared = ∅)) || negb (bool_decide (tableLines cleared = [])))
    (let! tableRestored := restoreOwnedTable s in
     let! restored := (if tableRestored : bool then restoreRules st bypass v4 v6 else pure false) in
     if restored : bool then
       refuse "full_tunnel_route_cleanup_failed" "full-tunnel cleanup left managed state behind"
     else
       let! _ := markRecoveryRequired (lit "full-tunnel cleanup postcondition and rollback failed") in
       let! r := failure recovery_required (lit "full-tunnel cleanup postcondition failed and rollback failed") in
       leave r).

Definition clearFullTunnel_body : op R R :=
  let! executable := ipExecutable in
  let! _ := refuse_if (is_empty executable) "route_backend_unavailable" "the Linux ip command is not installed" in
  let! s := readRuleSnapshot in
  let! _ := refuse_if (negb (valid s)) "full_tunnel_rule_probe_failed" "could not inspect policy rules safely" in
  let! st := state in
  let! _ := refuse_if (is_empty (m_interfaceName st)) "full_tunnel_ownership_ambiguous"
              "full-tunnel ownership receipt has no positively-owned route" in
  if bool_decide (tableLines s = []) then
    let! _ := refuse_if (bool_decide (m_fullRulePriority st ∈ ownedFull s)
                         || bool_decide (m_bypassRulePriority st ∈ ownedBypass s))
                "full_tunnel_ownership_ambiguous" "full-tunnel rules exist without an owned route table" in
    retireReceipt "stale full-tunnel state could not be retired"
  else
    let! _ := cmd_fold (check_table_line (m_interfaceName st)) ∅ (tableLines s) in
    let! _ := refuse_if (foreignAtPersisted st s
                         || negb (persistedFullIsExact s (m_fullRulePriority st))
                         || negb (persistedBypassIsExact (set_of (m_bypassRoutes st)) s (m_bypassRulePriority st)))
                "full_tunnel_ownership_ambiguous" "a policy rule priority is occupied by a foreign rule" in
    let! _ := removeOwnedTunnel st s in
    retireReceipt "full-tunnel state could not be cleared".

Definition clearFullTunnel {E} : op E R := call clearFullTunnel_body.
End full_tunnel.
