(* ===== verification/RouteTransactions.v ===== *)
(** * The route reconciler: transactions

    Model of the operations of LinuxRouteReconciler in
    headless/linuxRouteReconciler.cpp: [apply], [applyAllExcept], [clear],
    [configureDns], [clearDns] and [requireRecovery].  Each operation runs under
    the route lock, writes an intent before it changes the host and retires it
    at the end. *)

From stdpp Require Import gmap.
From S2P Require Import Prelude Text Json QtInterface QtModel Command RoutePolicy RouteGrammar RouteState RouteRules.
From S2P Require Import FullTunnel.
#[local] Open Scope Z_scope.
#[local] Open Scope amnezia_scope.

(** [commandIndicatesMissingInterface]. *)
Definition commandIndicatesMissingInterface `{QtText} (r : CommandResult) : bool :=
  if ok r || negb (exitCode r =? 1) then false else
  let diagnostic := q_toLower (message r ++ [10] ++ output r) in
  contains_text (lit "cannot find device") diagnostic || contains_text (lit "no such device") diagnostic
  || contains_text (lit "does not exist") diagnostic || contains_text (lit "not found") diagnostic.

Section transactions.
Context `{QtText} `{QtNet} `{QtData} {W : Type} `{Host W}.
Context (foldCase : Z → Z).
Context (m_statePath : text).
Context (set_order : gset text → list text).

Notation op E A := (prog (World W) E A).
Notation R := RouteReconcileResult.
Notation readRuleSnapshot := (readRuleSnapshot foldCase).
Notation markRecoveryRequired := (markRecoveryRequired m_statePath).
Notation saveState := (saveState m_statePath).
Notation beginMutation := (beginMutation m_statePath).
Notation finishMutation := (finishMutation m_statePath).
Notation finishTransaction := (finishTransaction m_statePath).
Notation removeRoutes := (removeRoutes foldCase).
Notation restoreRoutes := (restoreRoutes foldCase).
Notation applyFullTunnel := (applyFullTunnel foldCase m_statePath set_order).
Notation clearFullTunnel := (clearFullTunnel foldCase m_statePath).

(** ** Guards shared by the operations *)

Definition lock_or_refuse : op R () :=
  let! locked := acquireRouteLock m_statePath in
  refuse_if (negb locked) "route_mutation_in_progress" "another routing transaction owns the managed route lock".

(** [if (!beginMutation(...)) return failure("recovery_required", ...)]. *)
Definition begin_or_refuse (operation : string) (interfaceName : text)
    (routes bypassRoutes dnsServers dnsDomains critical : list text) (message : string) : op R () :=
  let! begun := beginMutation (lit operation) interfaceName routes bypassRoutes dnsServers dnsDomains critical in
  refuse_if (negb begun) "recovery_required" message.

(** [return finishTransaction(failure(...));]. *)
Definition finish_failure {A} (code message : string) : op R A :=
  let! r := failure (lit code) (lit message) in
  let! r := finishTransaction r in
  leave r.

(** [markRecoveryRequired(...); return failure("recovery_required", ...);]. *)
Definition mark_and_fail (mark : text) (message : string) : op R R :=
  let! _ := markRecoveryRequired mark in
  failure recovery_required (lit message).

(** [if (!finishMutation()) ...] at the end of a committed operation. *)
Definition finish_or_mark (mark kept lost : string) : op R () :=
  let! finished := finishMutation in
  cmd_when (negb finished) (require_recovery m_statePath (lit mark) kept lost).

(** ** Split routes *)

(** A line of the main table on the destination of a target route that is
    neither the target's nor the previous receipt's. *)
Definition foreignMainRoute (interfaceName previousInterface route line : text) : bool :=
  let canonicalRoute := canonicalRuleDestination route in
  let sameDestination :=
    match parseManagedMainRouteLine line with
    | Some (parsedPrefix, _) => text_eqb parsedPrefix canonicalRoute
    | None => text_eqb (canonicalRuleDestination (part_at 0 (split_char 32 (trimmed line)))) canonicalRoute
    end in
  sameDestination
  && negb (managedMainRouteLineMatches line route interfaceName)
  && negb (negb (is_empty previousInterface) && managedMainRouteLineMatches line route previousInterface).

Definition check_main_line (interfaceName previousInterface route line : text) : op R () :=
  if negb (foreignMainRoute interfaceName previousInterface route line) then pure () else
  let! _ := rejectLine AmneziaSplitRouteProtocol "187 or isis" line in
  refuse "only_forward_route_conflict" "a main-table route is occupied by a foreign or ambiguous owner".

(** What the object held before the operation. *)
Record Previous := {
  v_fullTunnel : bool; v_interface : text; v_routes : list text; v_bypass : list text; v_critical : list text;
}.

Definition previous (s : Reconciler) : Previous :=
  {| v_fullTunnel := text_eqb (m_mode s) all_except; v_interface := m_interfaceName s; v_routes := m_routes s;
     v_bypass := m_bypassRoutes s; v_critical := m_criticalBypassRoutes s |}.

Definition restorePrevious (v : Previous) (interfaceName : text) (added removed : list text) : op R bool :=
  let! r := removeRoutes interfaceName added in
  if v_fullTunnel v then
    let! full := applyFullTunnel (v_interface v) (v_bypass v) (v_critical v) in
    pure (rr_ok full && r.1)
  else
    let! restored := restoreRoutes (v_interface v) removed in
    pure (restored && r.1).

(** A failed step of [apply]: back to the previous routes, or recovery. *)
Definition undo_or_recover {A} (v : Previous) (interfaceName : text) (added removed : list text)
    (mark : string) (unrestored code message : string) : op R A :=
  let! restored := restorePrevious v interfaceName added removed in
  if restored : bool then finish_failure code message else
  let! _ := markRecoveryRequired (lit mark) in
  finish_failure "recovery_required" unrestored.

(** Installs a route of the new set; the ones that were not there before. *)
Definition add_route (executable : text) (v : Previous) (interfaceName : text) (added : list text) (route : text) :
    op R (list text) :=
  let! r := run executable (splitRouteArguments (lit "replace") route interfaceName) in
  if negb (ok r) then
    undo_or_recover v interfaceName added [] "split-route addition rollback failed"
      "managed route addition failed and previous routing could not be restored"
      "route_add_failed" "failed to apply a managed route"
  else
    let! st := state in
    pure (if negb (text_eqb (m_interfaceName st) interfaceName) || negb (qcontains route (m_routes st))
          then added ++ [route] else added).

Definition retire_route (v : Previous) (interfaceName : text) (boundedRoutes added removed : list text)
    (route : text) : op R (list text) :=
  if qcontains route boundedRoutes then pure removed else
  let! r := removeRoutes interfaceName [route] in
  if r.1 : bool then pure (removed ++ r.2) else
  undo_or_recover v interfaceName added removed "split-route retirement rollback failed"
    "retired split routes could not be restored" "route_remove_failed" "failed to retire a managed route".

(** The previous routes that the new set does not keep. *)
Definition retirePrevious (v : Previous) (interfaceName : text) (boundedRoutes added : list text) :
    op R (list text) :=
  let! st := state in
  if negb (text_eqb (m_interfaceName st) interfaceName) then
    let! r := removeRoutes (m_interfaceName st) (m_routes st) in
    if r.1 : bool then pure r.2 else
    undo_or_recover v interfaceName added r.2 "split-route interface transition rollback failed"
      "previous route interface could not be restored" "route_remove_failed"
      "failed to retire the previous route set"
  else cmd_fold (retire_route v interfaceName boundedRoutes added) [] (m_routes st).

Definition commitSplit (v : Previous) (interfaceName : text) (boundedRoutes added removed : list text) : op R R :=
  let! _ := update (set_routing only_forward interfaceName boundedRoutes [] []) in
  let! saved := saveState in
  if negb saved then
    let! restored := restorePrevious v interfaceName added removed in
    let! _ := cmd_when restored
      (update (set_routing (if v_fullTunnel v then all_except else only_forward) (v_interface v) (v_routes v)
                 (v_bypass v) (v_critical v))) in
    mark_and_fail (if restored : bool then lit "route state save failed after host state was restored"
                   else lit "route state save and host rollback both failed")
      "managed routes applied but state was not persisted"
  else
  let! finished := finishMutation in
  if negb finished then
    let! restored := restorePrevious v interfaceName added removed in
    mark_and_fail (if restored : bool then lit "managed route mutation intent could not be retired after rollback"
                   else lit "managed route mutation intent and rollback could not be completed")
      "managed routes committed but mutation intent remains"
  else finishTransaction success.

(** ** Clearing *)

Definition clearSplit : op R R :=
  let! executable := ipExecutable in
  let! _ := refuse_if (is_empty executable) "route_backend_unavailable" "the Linux ip command is not installed" in
  let! st := state in
  let! _ := begin_or_refuse "only-forward-clear" (m_interfaceName st) (m_routes st) [] [] [] []
              "route cleanup intent could not be persisted" in
  let! r := removeRoutes (m_interfaceName st) (m_routes st) in
  if negb r.1 then
    let! restored := restoreRoutes (m_interfaceName st) r.2 in
    if restored : bool then finish_failure "route_remove_failed" "failed to clear a managed route"
    else mark_and_fail (lit "managed route cleanup rollback failed")
           "managed route cleanup failed and removed routes could not be restored"
  else
  let! _ := update (set_routing only_forward [] [] [] []) in
  let! saved := saveState in
  if negb saved then
    let! restored := restoreRoutes (m_interfaceName st) (m_routes st) in
    let! _ := update (set_routing (m_mode st) (m_interfaceName st) (m_routes st) (m_bypassRoutes st) []) in
    mark_and_fail (if restored : bool then lit "managed route cleanup state save failed after host rollback"
                   else lit "managed route cleanup state save and host rollback failed")
      "managed route state could not be cleared"
  else
  let! _ := finish_or_mark "route cleanup intent could not be retired"
              "route cleanup committed but intent remains" "route cleanup and recovery receipt both failed" in
  pure success.

Definition clear_body : op R R :=
  let! _ := update (set_lastError []) in
  let! st := state in
  let! _ := cmd_when (text_eqb (m_mode st) all_except) startDeadline in
  let! _ := refuse_if (negb (m_initialized st) || negb (m_stateValid st)) "recovery_required"
              "managed route state is invalid; manual route recovery is required" in
  let! _ := lock_or_refuse in
  if text_eqb (m_mode st) all_except then
    let! _ := begin_or_refuse "all-except-clear" (m_interfaceName st) [] (m_bypassRoutes st) [] [] []
                "full-tunnel cleanup intent could not be persisted" in
    let! r := clearFullTunnel in
    if negb (rr_ok r) then finishTransaction r else
    let! _ := finish_or_mark "full-tunnel cleanup intent could not be retired"
                "full-tunnel cleanup committed but intent remains"
                "full-tunnel cleanup and recovery receipt both failed" in
    pure r
  else if bool_decide (m_routes st = []) then
    let! _ := update (set_routing only_forward [] [] [] []) in
    let! saved := saveState in
    if saved : bool then pure success else
    let! _ := update (λ s, set_mode recovery_required (set_stateValid false s)) in
    failure recovery_required (lit "managed route receipt could not be cleared")
  else clearSplit.

Definition clear {E} : op E R := call clear_body.

(** ** Applying *)

(** Everything but the first, cheap checks. *)
Definition applySplit (interfaceName : text) (boundedRoutes : list text) : op R R :=
  let! _ := lock_or_refuse in
  let! st := state in
  let v := previous st in
  let! executable := ipExecutable in
  let! _ := refuse_if (is_empty executable) "route_backend_unavailable" "the Linux ip command is not installed" in
  let! s := readRuleSnapshot in
  let! _ := refuse_if (negb (valid s)) "route_probe_failed" "could not inspect the main routing table safely" in
  let! _ := cmd_each (λ route, cmd_each (check_main_line interfaceName (v_interface v) route) (mainRouteLines s))
              boundedRoutes in
  let! _ := begin_or_refuse "only-forward" interfaceName boundedRoutes [] [] [] []
              "managed route mutation intent could not be persisted" in
  let! _ := cmd_when (v_fullTunnel v)
    (let! cleared := clearFullTunnel in
     leave_if (negb (rr_ok cleared)) (finishTransaction cleared)) in
  let! added := cmd_fold (add_route executable v interfaceName) [] boundedRoutes in
  let! removed := retirePrevious v interfaceName boundedRoutes added in
  commitSplit v interfaceName boundedRoutes added removed.

Definition apply_body (interfaceName : text) (routes : list text) : op R R :=
  let! _ := update (set_lastError []) in
  let! _ := startDeadline in
  let! st := state in
  let! _ := refuse_if (negb (m_initialized st) || negb (m_stateValid st)) "recovery_required"
              "managed route state is invalid; manual route recovery is required" in
  let! _ := refuse_if (negb (validInterfaceName interfaceName)) "invalid_interface" "VPN interface name is invalid" in
  let '(bounded, routesValid) := validatedManagedRoutes routes in
  let! _ := refuse_if (negb routesValid || negb (length bounded =? length routes)%nat) "invalid_routes"
              "managed routes are invalid or duplicated" in
  let boundedRoutes := sort_text (remove_duplicates bounded) in
  if bool_decide (boundedRoutes = []) then clear else applySplit interfaceName boundedRoutes.

Definition apply {E} (interfaceName : text) (routes : list text) : op E R := call (apply_body interfaceName routes).

Definition applyAllExcept_body (interfaceName : text) (bypassRoutes criticalBypassRoutes : list text) : op R R :=
  let! _ := update (set_lastError []) in
  let! _ := startDeadline in
  let! st := state in
  let! _ := refuse_if (negb (m_initialized st) || negb (m_stateValid st)) "recovery_required"
              "managed route state is invalid; manual route recovery is required" in
  let! _ := refuse_if (negb (validInterfaceName interfaceName)) "invalid_interface" "VPN interface name is invalid" in
  let '(bounded, routesValid) := validatedManagedRoutes bypassRoutes in
  let! _ := refuse_if (negb routesValid || negb (length bounded =? length bypassRoutes)%nat) "invalid_routes"
              "full-tunnel bypass routes are invalid or duplicated" in
  let boundedRoutes := remove_duplicates bounded in
  let '(boundedCritical, criticalValid) := validatedManagedRoutes criticalBypassRoutes in
  let! _ := refuse_if (negb criticalValid || negb (length boundedCritical =? length criticalBypassRoutes)%nat
                       || negb (forallb (λ route, qcontains route boundedRoutes) boundedCritical)) "invalid_routes"
              "critical full-tunnel bypass routes are invalid or not in the target set" in
  let! _ := lock_or_refuse in
  let! _ := begin_or_refuse "all-except" interfaceName [] boundedRoutes [] [] boundedCritical
              "full-tunnel mutation intent could not be persisted" in
  let! r := applyFullTunnel interfaceName boundedRoutes boundedCritical in
  if negb (rr_ok r) then finishTransaction r else
  let! _ := finish_or_mark "full-tunnel mutation intent could not be retired"
              "full-tunnel routes committed but mutation intent remains"
              "full-tunnel commit and recovery receipt both failed" in
  pure r.

Definition applyAllExcept {E} (interfaceName : text) (bypassRoutes criticalBypassRoutes : list text) : op E R :=
  call (applyAllExcept_body interfaceName bypassRoutes criticalBypassRoutes).

Definition requireRecovery {E} (message : text) : op E bool := markRecoveryRequired message.

(** ** DNS *)

(** What the receipt says of DNS. *)
Record DnsBinding := { d_interface : text; d_servers : list text; d_domains : list text }.

Definition dnsBinding (s : Reconciler) : DnsBinding :=
  {| d_interface := m_dnsInterface s; d_servers := m_dnsServers s; d_domains := m_dnsDomains s |}.

Definition set_binding (b : DnsBinding) : op R () := update (set_dns (d_interface b) (d_servers b) (d_domains b)).

Definition run_ok (executable : text) (args : list text) : op R bool :=
  let! r := run executable args in pure (ok r).

Definition restorePreviousDns (executable : text) (prev : DnsBinding) (interfaceName : text) : op R bool :=
  let! restored := (if negb (text_eqb interfaceName (d_interface prev)) && negb (is_empty interfaceName)
                    then run_ok executable [lit "revert"; interfaceName] else pure true) in
  if is_empty (d_interface prev) || bool_decide (d_servers prev = []) || bool_decide (d_domains prev = [])
  then pure restored else
  let! servers := run_ok executable ([lit "dns"; d_interface prev] ++ d_servers prev) in
  if negb servers then pure false else
  let! domains := run_ok executable ([lit "domain"; d_interface prev] ++ d_domains prev) in
  pure (domains && restored).

Definition undo_dns {A} (executable : text) (prev : DnsBinding) (interfaceName : text)
    (mark unrestored code message : string) : op R A :=
  let! restored := restorePreviousDns executable prev interfaceName in
  if restored : bool then finish_failure code message else
  let! _ := markRecoveryRequired (lit mark) in
  finish_failure "recovery_required" unrestored.

(** The new receipt; without it the resolver goes back. *)
Definition commitDns (executable : text) (prev : DnsBinding) (interfaceName : text)
    (dnsServers dnsDomains : list text) : op R R :=
  let! _ := set_binding {| d_interface := interfaceName; d_servers := dnsServers; d_domains := dnsDomains |} in
  let! saved := saveState in
  if negb saved then
    let! restored := restorePreviousDns executable prev interfaceName in
    let! _ := set_binding prev in
    let! _ := markRecoveryRequired
      (if restored : bool then lit "DNS receipt save failed after resolver rollback"
       else lit "DNS receipt save and resolver rollback both failed") in
    finish_failure "recovery_required" "VPN DNS was applied but its durable receipt could not be saved"
  else
  let! _ := finish_or_mark "DNS mutation intent could not be retired"
              "DNS was committed but its mutation intent remains" "DNS commit and recovery receipt both failed" in
  pure success.

Definition configureDns_body (interfaceName : text) (dnsServers dnsDomains : list text) : op R R :=
  let! st := state in
  let! _ := refuse_if (negb (m_initialized st) || negb (m_stateValid st) || text_eqb (m_mode st) recovery_required)
              "recovery_required" "managed DNS state is invalid; manual recovery is required" in
  let! _ := refuse_if (negb (validInterfaceName interfaceName) || bool_decide (dnsServers = [])
                       || bool_decide (dnsDomains = []))
              "invalid_dns_configuration" "a VPN interface, DNS server and routing domain are required" in
  let! executable := resolvectlExecutable in
  let! _ := refuse_if (is_empty executable) "dns_backend_unavailable"
              "systemd-resolved resolvectl is not installed" in
  let! _ := lock_or_refuse in
  let! _ := begin_or_refuse "dns-configure" interfaceName [] [] dnsServers dnsDomains []
              "DNS mutation intent could not be persisted" in
  let prev := dnsBinding st in
  let! servers := run_ok executable ([lit "dns"; interfaceName] ++ dnsServers) in
  let! _ := cmd_when (negb servers) (finish_failure "dns_configure_failed" "failed to assign the VPN DNS server") in
  let! domains := run_ok executable ([lit "domain"; interfaceName] ++ dnsDomains) in
  let! _ := cmd_when (negb domains)
    (undo_dns executable prev interfaceName "DNS domain rollback failed"
       "DNS configuration failed and the previous resolver binding could not be restored"
       "dns_configure_failed" "failed to assign the VPN DNS routing domain") in
  let! retired := (if negb (is_empty (d_interface prev)) && negb (text_eqb (d_interface prev) interfaceName)
                   then run_ok executable [lit "revert"; d_interface prev] else pure true) in
  let! _ := cmd_when (negb retired)
    (undo_dns executable prev interfaceName "DNS interface transition rollback failed"
       "DNS interface transition failed and the previous resolver binding could not be restored"
       "dns_configure_failed" "the previous VPN DNS interface could not be retired") in
  let! readback := runCaptured executable [lit "status"; interfaceName] in
  let! _ := cmd_when (negb (ok readback)
                      || negb (resolverOutputMatchesBinding (output readback) dnsServers dnsDomains))
    (undo_dns executable prev interfaceName "DNS readback mismatch and rollback failed"
       "DNS configuration readback mismatched and rollback failed"
       "dns_readback_mismatch" "DNS configuration readback did not match the requested servers/domains") in
  let! _ := run executable [lit "flush-caches"] in
  commitDns executable prev interfaceName dnsServers dnsDomains.

Definition configureDns {E} (interfaceName : text) (dnsServers dnsDomains : list text) : op E R :=
  call (configureDns_body interfaceName dnsServers dnsDomains).

(** The resolver shows no binding of the link. *)
Definition bindingAbsent (r : CommandResult) : bool :=
  if ok r then negb (resolverOutputHasManagedBinding (output r)) else commandIndicatesMissingInterface r.

(** The failed revert of a link that has disappeared. *)
Definition clearVanishedDns (executable targetInterface revertMessage : text) : op R R :=
  let! ip := ipExecutable in
  let! linkProbe := (if is_empty ip
                     then pure {| ok := false; exitCode := -1; message := lit "ip probe unavailable"; output := [] |}
                     else runCaptured ip [lit "link"; lit "show"; lit "dev"; targetInterface]) in
  let! resolverProbe := runCaptured executable [lit "status"; targetInterface] in
  if commandIndicatesMissingInterface linkProbe && bindingAbsent resolverProbe then
    let! _ := update (λ s, set_lastDiagnostics [] (set_dns [] [] [] s)) in
    let! saved := saveState in
    if negb saved then
      let! _ := update (λ s, set_mode recovery_required (set_stateValid false s)) in
      finish_failure "recovery_required" "DNS link disappeared but its receipt could not be cleared"
    else
    let! _ := finish_or_mark "DNS link disappeared but cleanup intent could not be retired"
                "DNS link disappeared and cleanup intent remains"
                "DNS link disappeared and recovery receipt could not be persisted" in
    pure success
  else
    let! r := failure (lit "dns_clear_failed")
                (lit "failed to clear the VPN DNS configuration: " ++ take 512 revertMessage) in
    finishTransaction r.

(** The reverted link: readback and receipt. *)
Definition commitClearDns (executable targetInterface : text) : op R R :=
  let! resolverReadback := runCaptured executable [lit "status"; targetInterface] in
  let! ip := ipExecutable in
  let! linkReadback := (if is_empty ip then pure {| ok := true; exitCode := 0; message := []; output := [] |}
                        else runCaptured ip [lit "link"; lit "show"; lit "dev"; targetInterface]) in
  let! _ := cmd_when (negb (bindingAbsent resolverReadback)
                      || negb (ok linkReadback || commandIndicatesMissingInterface linkReadback))
    (finish_failure "dns_clear_readback_mismatch"
       "DNS clear readback still reports a binding or could not verify the link") in
  let! st := state in
  let prev := dnsBinding st in
  let! _ := update (λ s, set_lastDiagnostics [] (set_dns [] [] [] s)) in
  let! saved := saveState in
  if negb saved then
    let! restored := (if is_empty (d_interface prev) then pure true else
      let! servers := run_ok executable ([lit "dns"; d_interface prev] ++ d_servers prev) in
      let! domains := run_ok executable ([lit "domain"; d_interface prev] ++ d_domains prev) in
      pure (domains && servers)) in
    let! _ := set_binding prev in
    let! _ := markRecoveryRequired
      (if restored : bool then lit "DNS clear receipt save failed after resolver restoration"
       else lit "DNS clear receipt save and resolver restoration both failed") in
    finish_failure "recovery_required" "VPN DNS receipt could not be cleared"
  else
  let! _ := finish_or_mark "DNS cleanup intent could not be retired"
              "DNS cleanup committed but cleanup intent remains" "DNS cleanup and recovery receipt both failed" in
  pure success.

Definition clearDns_body (interfaceName : text) : op R R :=
  let! st := state in
  let! _ := refuse_if (negb (m_initialized st) || negb (m_stateValid st)) "recovery_required"
              "managed route state is invalid; refusing DNS cleanup mutation" in
  let! _ := refuse_if (negb (m_initialized st) || negb (m_stateValid st) || text_eqb (m_mode st) recovery_required)
              "recovery_required" "managed DNS state is invalid; refusing to mutate resolver state" in
  let targetInterface := if is_empty (trimmed interfaceName) then m_dnsInterface st else trimmed interfaceName in
  let! _ := refuse_if (negb (is_empty targetInterface) && negb (validInterfaceName targetInterface))
              "invalid_dns_interface" "DNS cleanup interface name is invalid" in
  let! _ := refuse_if (negb (is_empty (m_dnsInterface st)) && negb (text_eqb targetInterface (m_dnsInterface st)))
              "dns_interface_mismatch" "DNS cleanup interface does not match the persisted receipt" in
  let! _ := lock_or_refuse in
  if is_empty targetInterface then
    let! _ := refuse_if (negb (is_empty (m_dnsInterface st))) "dns_interface_required"
                "cannot retire a DNS receipt without its persisted interface" in
    let! _ := update (set_dns [] [] []) in
    let! saved := saveState in
    if saved : bool then pure success else
    let! _ := update (λ s, set_mode recovery_required (set_stateValid false s)) in
    failure recovery_required (lit "VPN DNS receipt could not be cleared")
  else
  let! executable := resolvectlExecutable in
  let! _ := refuse_if (is_empty executable) "dns_backend_unavailable"
              "cannot clear VPN DNS receipt without resolvectl" in
  let! _ := begin_or_refuse "dns-clear" targetInterface [] [] (m_dnsServers st) (m_dnsDomains st) []
              "DNS cleanup intent could not be persisted" in
  let! r := run executable [lit "revert"; targetInterface] in
  if negb (ok r) then clearVanishedDns executable targetInterface (message r)
  else commitClearDns executable targetInterface.

Definition clearDns {E} (interfaceName : text) : op E R := call (clearDns_body interfaceName).

(** ** Sequences of operations *)

Inductive RouteOp :=
| OpApply (interfaceName : text) (routes : list text)
| OpApplyAllExcept (interfaceName : text) (bypassRoutes criticalBypassRoutes : list text)
| OpClear
| OpConfigureDns (interfaceName : text) (dnsServers dnsDomains : list text)
| OpClearDns (interfaceName : text)
| OpRequireRecovery (message : text).

Definition op_body (o : RouteOp) : op R R :=
  match o with
  | OpApply i r => apply_body i r
  | OpApplyAllExcept i b c => applyAllExcept_body i b c
  | OpClear => clear_body
  | OpConfigureDns i s d => configureDns_body i s d
  | OpClearDns i => clearDns_body i
  | OpRequireRecovery m =>
      let! b := requireRecovery m in
      pure {| rr_ok := b; rr_code := []; rr_message := []; rr_diagnostics := [] |}
  end.

Definition run_op (o : RouteOp) (w : World W) : R * World W := returns (op_body o) w.

Fixpoint run_ops (l : list RouteOp) (w : World W) : World W :=
  match l with
  | [] => w
  | o :: l' => run_ops l' (run_op o w).2
  end.
End transactions.
