(* ===== verification/RouteStartup.v ===== *)
(** * The route reconciler: startup

    Model of [initializeState] and [loadState] of
    headless/linuxRouteReconciler.cpp: what a new process accepts of the receipt,
    the transaction files and the kernel that the previous one left, the
    migration of routes that carry no protocol marker, and the states in which
    it refuses to work. *)

From stdpp Require Import gmap.
From S2P Require Import Prelude Text Json QtInterface QtModel Command RoutePolicy RouteGrammar RouteState RouteRules.
From S2P Require Import FullTunnel RouteTransactions.
#[local] Open Scope Z_scope.
#[local] Open Scope amnezia_scope.

(** ** The receipt *)

Definition receiptKeys : list text :=
  [lit "version"; lit "mode"; lit "interface"; lit "routes"; lit "bypassRoutes"; lit "bypassRulePriority";
   lit "criticalBypassRoutes"; lit "fullRulePriority"; lit "dnsInterface"; lit "dnsServers"; lit "dnsDomains";
   lit "postconditionDiagnostics"; lit "needsReapply"].

Definition strictInt (value : json) (minimum maximum : Z) : option Z :=
  match value with
  | JDouble number =>
      if negb (d_isfinite number) || negb (d_integral number) || d_ltb number minimum || d_gtb number maximum
      then None else Some (d_trunc number)
  | _ => None
  end.

(** The state before anything is read. *)
Definition reset_state (s : Reconciler) : Reconciler :=
  MkReconciler only_forward [] [] [] [] [] [] [] FullTunnelBypassRulePriority FullTunnelRulePriority
    (m_stateValid s) false false (m_initialized s) [] [] (m_fullTunnelDeadline s).

(** ** The link state *)

(** [(?m)^\s*\d+:\s*NAME(?:[@:]|\s).*$] at the start of the text. *)
Definition link_at (interfaceName s : text) : option text :=
  '(_, r) ← match_pieces [Blanks; Digits; Literal (lit ":"); Blanks; Literal interfaceName] s;
  match r with
  | c :: r' =>
      if (c =? 64) || (c =? 58) || ascii_space c
      then let rest := (span (λ c, negb (c =? 10)) r').2 in Some (take (length s - length rest) s)
      else None
  | [] => None
  end.

(** The leftmost match: [^] holds at the start and after a newline. *)
Fixpoint link_search (interfaceName : text) (atStart : bool) (s : text) : option text :=
  match (if atStart then link_at interfaceName s else None) with
  | Some l => Some l
  | None => match s with [] => None | c :: s' => link_search interfaceName (c =? 10) s' end
  end.

(** [\w]. *)
Definition word_char (c : Z) : bool :=
  is_digit c || ((65 <=? c) && (c <=? 90)) || ((97 <=? c) && (c <=? 122)) || (c =? 95).

Definition ends_word (s : text) : bool := match s with [] => true | c :: _ => negb (word_char c) end.

(** [\b...\b] for pieces that start and end with a word; [inWord] tells whether
    the previous character is of a word. *)
Fixpoint word_search (pieces : list piece) (inWord : bool) (s : text) : bool :=
  (negb inWord && match match_pieces pieces s with Some (_, r) => ends_word r | None => false end)
  || match s with [] => false | c :: s' => word_search pieces (word_char c) s' end.

(** [<[^>]*\bWORD\b[^>]*>]. *)
Fixpoint flag_search (word s : text) : bool :=
  match s with
  | [] => false
  | c :: s' =>
      (c =? 60) && (let '(flags, r) := span (λ c, negb (c =? 62)) s' in
                    negb (is_empty r) && word_search [Literal word] false flags)
      || flag_search word s'
  end.

Definition link_shows (word link : text) : bool :=
  flag_search word link || word_search [Literal (lit "STATE"); Space; Literal word] false link.

Section startup.
Context `{QT : QtText} `{QN : QtNet} `{QD : QtData} {W : Type} `{HW : Host W}.
Context (foldCase : Z → Z).
Context (toUpper : text → text).              (* QString::toUpper *)
Context (m_statePath : text).
(** Whether an older build left its intent, [.intent] or [.transaction-intent]
    beside the receipt; nothing in the code writes or removes one. *)
Context (legacyIntent : bool).

Notation op A := (prog (World W) bool A).

(** [return reject(category);]: the first reason is kept. *)
Definition reject {A} (category : string) : op A :=
  let! st := state in
  let! _ := cmd_when (is_empty (m_lastError st))
              (update (set_lastError (lit "load_state_rejected:" ++ take 96 (lit category)))) in
  leave false.

Definition reject_if (b : bool) (category : string) : op () := if b then reject category else pure ().

Definition read_strings (category : string) (l : list json) : op (list text) :=
  cmd_fold (λ acc value, match value with JString s => pure (acc ++ [s]) | _ => reject category end) [] l.

(** What the receipt says of routing. *)
Record Routing := MkRouting {
  g_mode : text; g_interface : text;
  g_routes : list text;            (* as stored *)
  g_bounded : list text; g_bypass : list text; g_critical : list text;
}.

Definition readRouting (object : jobject) : op Routing :=
  let! _ := reject_if (negb (forallb (λ k, qcontains k receiptKeys) (jkeys object))) "receipt_unknown_field" in
  let! _ := reject_if (bool_decide (strictInt (jvalue (lit "version") object) 2 2 = None)
                       || negb (is_string (jvalue (lit "mode") object))
                       || negb (is_string (jvalue (lit "interface") object))
                       || negb (is_array (jvalue (lit "routes") object))
                       || negb (is_array (jvalue (lit "bypassRoutes") object))) "receipt_schema" in
  let mode := to_string only_forward (jvalue (lit "mode") object) in
  let! _ := reject_if (negb (text_eqb mode only_forward) && negb (text_eqb mode all_except)) "receipt_mode" in
  let interfaceName := to_string [] (jvalue (lit "interface") object) in
  let! routes := read_strings "receipt_routes_type" (to_array (jvalue (lit "routes") object)) in
  let '(bounded, routesValid) := validatedManagedRoutes routes in
  let! _ := reject_if (negb routesValid || negb (length bounded =? length routes)%nat
                       || (negb (is_empty interfaceName) && negb (validInterfaceName interfaceName)))
              "receipt_routes" in
  let! _ := reject_if (text_eqb mode only_forward
                       && negb (Bool.eqb (is_empty interfaceName) (bool_decide (bounded = []))))
              "receipt_only_forward_interface" in
  let! bypassRoutes := read_strings "receipt_bypass_routes_type" (to_array (jvalue (lit "bypassRoutes") object)) in
  let '(boundedBypass, bypassValid) := validatedManagedRoutes bypassRoutes in
  let! _ := reject_if (negb bypassValid || negb (length boundedBypass =? length bypassRoutes)%nat
                       || (text_eqb mode all_except && is_empty interfaceName)) "receipt_bypass_routes" in
  let! criticalBypassRoutes :=
    (if jcontains (lit "criticalBypassRoutes") object then
       let! _ := reject_if (negb (is_array (jvalue (lit "criticalBypassRoutes") object)))
                   "receipt_critical_bypass_schema" in
       read_strings "receipt_critical_bypass_type" (to_array (jvalue (lit "criticalBypassRoutes") object))
     else pure []) in
  let '(boundedCritical, criticalValid) := validatedManagedRoutes criticalBypassRoutes in
  let! _ := reject_if (negb criticalValid || negb (length boundedCritical =? length criticalBypassRoutes)%nat
                       || (text_eqb mode only_forward && negb (bool_decide (criticalBypassRoutes = [])))
                       || negb (forallb (λ route, qcontains route boundedBypass) boundedCritical))
              "receipt_critical_bypass" in
  let! _ := reject_if (text_eqb mode only_forward && negb (bool_decide (bypassRoutes = [])))
              "receipt_only_forward_bypass" in
  let! _ := reject_if (text_eqb mode all_except && negb (bool_decide (routes = []))) "receipt_all_except_routes" in
  pure (MkRouting mode interfaceName routes bounded boundedBypass boundedCritical).

Definition dnsSchema (object : jobject) : bool :=
  is_string (jvalue (lit "dnsInterface") object) && is_array (jvalue (lit "dnsServers") object)
  && is_array (jvalue (lit "dnsDomains") object).

(** The resolver's binding goes into the object as it is read. *)
Definition add_server (value : json) : op () :=
  match value with
  | JString s => update (λ st, set_dns (m_dnsInterface st) (m_dnsServers st ++ [s]) (m_dnsDomains st) st)
  | _ => reject "receipt_dns_server_type"
  end.
Definition add_domain (value : json) : op () :=
  match value with
  | JString s => update (λ st, set_dns (m_dnsInterface st) (m_dnsServers st) (m_dnsDomains st ++ [s]) st)
  | _ => reject "receipt_dns_domain_type"
  end.

Definition readBinding (object : jobject) (interfaceName : text) : op () :=
  let! _ := reject_if (negb (dnsSchema object)) "receipt_dns_schema" in
  let! _ := update (λ st, set_dns (to_string [] (jvalue (lit "dnsInterface") object)) (m_dnsServers st)
                            (m_dnsDomains st) st) in
  let! _ := cmd_each add_server (to_array (jvalue (lit "dnsServers") object)) in
  let! _ := cmd_each add_domain (to_array (jvalue (lit "dnsDomains") object)) in
  let! st := state in
  let! _ := reject_if (negb (Bool.eqb (is_empty (m_dnsInterface st)) (bool_decide (m_dnsServers st = [])))
                       || negb (Bool.eqb (bool_decide (m_dnsServers st = [])) (bool_decide (m_dnsDomains st = []))))
              "receipt_dns_cardinality" in
  reject_if (negb (is_empty (m_dnsInterface st))
             && (negb (validInterfaceName (m_dnsInterface st))
                 || (negb (is_empty interfaceName) && negb (text_eqb (m_dnsInterface st) interfaceName))))
    "receipt_dns_interface".

(** Diagnostics, the reapply flag and the resolver's binding. *)
Definition readExtras (object : jobject) (interfaceName : text) : op () :=
  let! _ := reject_if (jcontains (lit "dnsInterface") object && negb (dnsSchema object)) "receipt_dns_schema" in
  let! _ := reject_if (jcontains (lit "postconditionDiagnostics") object
                       && negb (is_object (jvalue (lit "postconditionDiagnostics") object)))
              "receipt_diagnostics_schema" in
  let! _ := cmd_when (jcontains (lit "postconditionDiagnostics") object)
              (update (set_lastDiagnostics (to_object (jvalue (lit "postconditionDiagnostics") object)))) in
  let! _ := reject_if (jcontains (lit "needsReapply") object && negb (is_bool (jvalue (lit "needsReapply") object)))
              "receipt_needs_reapply_schema" in
  cmd_when (jcontains (lit "dnsInterface") object || jcontains (lit "dnsServers") object
            || jcontains (lit "dnsDomains") object)
    (readBinding object interfaceName).

(** The two priorities. *)
Definition readPriorities (object : jobject) : op (Z * Z) :=
  match strictInt (jvalue (lit "bypassRulePriority") object) FullTunnelBypassRulePriority 1099,
        strictInt (jvalue (lit "fullRulePriority") object) FullTunnelRulePriority FullTunnelPriorityLimit with
  | Some storedBypass, Some storedFull =>
      let! _ := reject_if ((storedBypass <? FullTunnelBypassRulePriority) || (storedBypass >? 1099)
                           || (storedFull <? FullTunnelRulePriority) || (storedFull >? FullTunnelPriorityLimit)
                           || (storedBypass >=? storedFull)) "receipt_priorities_order" in
      pure (storedBypass, storedFull)
  | _, _ => reject "receipt_priorities_schema"
  end.

(** The whole receipt, into the object. *)
Definition readReceipt (object : jobject) : op Routing :=
  let! g := readRouting object in
  let! _ := readExtras object (g_interface g) in
  let! _ := update (set_routing (g_mode g) (g_interface g) (g_bounded g) (g_bypass g) (g_critical g)) in
  let! p := readPriorities object in
  let! _ := update (set_priorities p.1 p.2) in
  pure g.

(** ** Migration of unmarked routes *)

Notation readRuleSnapshot := (readRuleSnapshot foldCase).
Notation markRecoveryRequired := (markRecoveryRequired m_statePath).
Notation saveState := (saveState m_statePath).

(** A half-default route of an older build: on this interface, no protocol. *)
Definition legacyLine (interfaceName line : text) : bool :=
  qcontains (part_at 0 (line_tokens line)) managedFullTunnelRoutePrefixes
  && negb (bool_decide (legacyRouteArguments line (lit "replace") interfaceName false = [])).

Definition legacyPrefixes (l : list text) : gset text := set_of (map (λ line, part_at 0 (line_tokens line)) l).

(** All four, and nothing else. *)
Definition legacyTable (interfaceName : text) (l : list text) : bool :=
  (length l =? 4)%nat && forallb (legacyLine interfaceName) l && (size (legacyPrefixes l) =? 4)%nat.

(** The routes without protocol and table, in order. *)
Definition plainRoutes (l : list text) : list text :=
  sort_text (map (λ line, join [32] (routeTokensWithoutMarkers line)) l).

Definition restore_line (executable interfaceName : text) (restored : bool) (line : text) : op bool :=
  let command := legacyRouteArguments line (lit "replace") interfaceName false in
  if bool_decide (command = []) then pure false else
  let! r := run executable command in
  pure (ok r && restored).

Definition restoreLegacy (executable interfaceName : text) (original : list text) : op bool :=
  let! restored := cmd_fold (restore_line executable interfaceName) true original in
  let! s := readRuleSnapshot in
  pure (valid s && restored && bool_decide (plainRoutes original = plainRoutes (tableLines s))).

Definition migrate_prefix (executable interfaceName : text) (l : list text) (migrated : bool) (prefix : text) :
    op bool :=
  if negb migrated then pure false else
  match List.find (λ line, starts_with (prefix ++ [32]) (trimmed line)) l with
  | None => pure false
  | Some line =>
      let command := legacyRouteArguments line (lit "replace") interfaceName true in
      if bool_decide (command = []) then pure false else
      let! r := run executable command in
      pure (ok r)
  end.

(** The readback: four managed routes, the same as before but for the marker. *)
Definition migratedTable (interfaceName : text) (original : list text) (s : RuleSnapshot) : bool :=
  valid s && (length (tableLines s) =? 4)%nat
  && forallb (λ line, bool_decide (is_Some (parseManagedFullTunnelRouteLine line interfaceName))) (tableLines s)
  && bool_decide (set_of (List.filter (λ p, negb (is_empty p))
       (map (λ line, from_option fst [] (parseManagedFullTunnelRouteLine line interfaceName)) (tableLines s)))
       = completeFullTunnelPrefixes)
  && bool_decide (plainRoutes original = plainRoutes (tableLines s)).

Definition migrateLegacy (interfaceName : text) (s : RuleSnapshot) : op RuleSnapshot :=
  let! locked := acquireRouteLock m_statePath in
  let! _ := reject_if (negb (is_empty m_statePath) && negb locked) "legacy_migration_lock" in
  let! executable := ipExecutable in
  let! saved := saveTransactionIntent m_statePath (lit "legacy-proto-migration")
    (jobj [(lit "interface", JString interfaceName); (lit "prefixes", jstrings managedFullTunnelRoutePrefixes);
           (lit "fromProtocol", jint 0); (lit "toProtocol", jint AmneziaRouteProtocol)]) in
  let! _ := reject_if (negb saved) "legacy_migration_intent" in
  let! migrated := cmd_fold (migrate_prefix executable interfaceName (tableLines s)) true
                     managedFullTunnelRoutePrefixes in
  let! r := (if migrated : bool then
               let! s' := readRuleSnapshot in pure (migratedTable interfaceName (tableLines s) s', s')
             else pure (false, s)) in
  if negb r.1 then
    let! restored := restoreLegacy executable interfaceName (tableLines s) in
    let! _ := (if restored : bool then pure true
               else markRecoveryRequired (lit "legacy route protocol migration rollback failed")) in
    reject "legacy_migration_rollback"
  else
  let! cleared := clearTransactionIntent m_statePath in
  if cleared : bool then pure r.2 else
  let! _ := markRecoveryRequired (lit "legacy route protocol migration intent could not be retired") in
  reject "legacy_migration_intent".

(** ** The kernel against the receipt *)

Definition orphanFullRule (line : text) : bool :=
  match parseManagedRuleLine line with
  | Some (priority, FullTunnel, _) => (FullTunnelRulePriority <=? priority) && (priority <=? FullTunnelPriorityLimit)
  | _ => false
  end.

Definition foreignSplitRoute (interfaceName : text) (routes : list text) (line : text) : bool :=
  match parseManagedMainRouteLine line with
  | Some (prefix, routeInterface) => negb (qcontains prefix routes) || negb (text_eqb routeInterface interfaceName)
  | None => false
  end.

Definition checkOnlyForward (g : Routing) (s : RuleSnapshot) : op () :=
  let! _ := reject_if (negb (bool_decide (tableLines s = []))) "only_forward_table" in
  let! _ := reject_if (existsb orphanFullRule (linesV4 s ++ linesV6 s)) "only_forward_full_rule" in
  let! _ := reject_if (existsb (foreignSplitRoute (g_interface g) (g_routes g)) (mainRouteLines s))
              "only_forward_main_route" in
  let! _ := reject_if (existsb (foreignSplitRoute (g_interface g) (g_bounded g)) (mainRouteLines s))
              "only_forward_route" in
  reject_if (negb (forallb (λ route, existsb (λ line, managedMainRouteLineMatches line route (g_interface g))
                                       (mainRouteLines s)) (g_bounded g)))
    "only_forward_route_missing".

(** The link must be shown to be absent or down. *)
Definition probeLink (interfaceName : text) : op () :=
  let! executable := ipExecutable in
  let! r := runCaptured executable [lit "link"; lit "show"; lit "dev"; interfaceName] in
  if negb (ok r) then reject_if (negb (commandIndicatesMissingInterface r)) "all_except_link_probe" else
  match link_search interfaceName true (output r) with
  | None => reject "all_except_link_identity"
  | Some line =>
      let link := toUpper line in
      reject_if (link_shows (lit "UP") link || negb (link_shows (lit "DOWN") link)) "all_except_link_state"
  end.

Definition tablePrefix (interfaceName : text) (seen : gset text) (line : text) : op (gset text) :=
  match parseManagedFullTunnelRouteLine line interfaceName with
  | None => reject "all_except_table_route"
  | Some (prefix, _) =>
      if bool_decide (prefix ∈ seen) then reject "all_except_table_duplicate" else pure ({[prefix]} ∪ seen)
  end.

(** One line at the stored priorities: the destinations of the bypass rules and
    the number of full-tunnel rules so far. *)
Definition reservedRule (storedBypass storedFull : Z) (ipv6 : bool) (acc : gset text * Z) (line : text) :
    op (gset text * Z) :=
  match rulePriority line with
  | None => pure acc
  | Some priority =>
      if negb (priority =? storedBypass) && negb (priority =? storedFull) then pure acc else
      match parseManagedRuleLine line with
      | None => reject "all_except_reserved_rule"
      | Some (parsedPriority, kind, destination) =>
          if negb (parsedPriority =? priority) then reject "all_except_reserved_rule" else
          if priority =? storedFull then
            if negb (bool_decide (kind = FullTunnel)) || (acc.2 + 1 >? 1) then reject "all_except_full_rule"
            else pure (acc.1, acc.2 + 1)
          else
            let! st := state in
            if ipv6 || negb (bool_decide (kind = Bypass)) || negb (qcontains destination (m_bypassRoutes st))
               || bool_decide (destination ∈ acc.1)
            then reject "all_except_bypass_rule" else pure ({[destination]} ∪ acc.1, acc.2)
      end
  end.

Definition validReservedRules (storedBypass storedFull : Z) (l : list text) (ipv6 requireBypassRoutes : bool) :
    op bool :=
  let! acc := cmd_fold (reservedRule storedBypass storedFull ipv6) (∅, 0) l in
  let! _ := reject_if (negb (acc.2 =? 1)) "all_except_full_rule_count" in
  let! st := state in
  let! _ := reject_if (requireBypassRoutes && negb (forallb (λ route, bool_decide (route ∈ acc.1)) (m_bypassRoutes st)))
              "all_except_bypass_missing" in
  pure true.

(** A managed rule that the receipt does not own. *)
Definition foreignRule (storedBypass storedFull : Z) (line : text) : op () :=
  match parseManagedRuleLine line with
  | None => pure ()
  | Some (priority, kind, destination) =>
      let! _ := reject_if (bool_decide (kind = FullTunnel) && negb (priority =? storedFull))
                  "all_except_foreign_full_rule" in
      let! st := state in
      let managed := ((FullTunnelBypassPreferredPriority <=? priority) && (priority <=? FullTunnelBypassPriorityLimit))
                     || ((priority =? FullTunnelBypassRulePriority) && (storedBypass =? FullTunnelBypassRulePriority)) in
      reject_if (bool_decide (kind = Bypass) && managed
                 && (negb (priority =? storedBypass) || negb (qcontains destination (m_bypassRoutes st))))
        "all_except_foreign_bypass_rule"
  end.

Definition preemptsFullRule (storedFull : Z) (line : text) : bool :=
  match parseBroadMainRuleLine line with Some priority => priority <? storedFull | None => false end.

Definition checkAllExcept (g : Routing) (storedBypass storedFull : Z) (s : RuleSnapshot) : op () :=
  let! _ := cmd_when (bool_decide (tableLines s = []))
              (let! _ := probeLink (g_interface g) in update (set_reapply true true)) in
  let! _ := cmd_fold (tablePrefix (g_interface g)) ∅ (tableLines s) in
  let! st := state in
  let! _ := reject_if ((negb (m_needsReapply st) && negb (length (tableLines s) =? 4)%nat)
                       || (m_needsReapply st && negb (bool_decide (tableLines s = [])))
                       || negb (bool_decide (storedFull ∈ ownedFullV4 s))
                       || negb (bool_decide (storedFull ∈ ownedFullV6 s))) "all_except_table_shape" in
  let! _ := reject_if (existsb (preemptsFullRule storedFull) (linesV4 s ++ linesV6 s)) "all_except_reserved_rule" in
  let! v4 := call (validReservedRules storedBypass storedFull (linesV4 s) false true) in
  let! v6 := (if v4 : bool then call (validReservedRules storedBypass storedFull (linesV6 s) true false)
              else pure false) in
  let! _ := reject_if (negb v6) "all_except_reserved_rules" in
  cmd_each (foreignRule storedBypass storedFull) (linesV4 s ++ linesV6 s).

(** ** The resolver *)

Definition checkResolver (g : Routing) : op () :=
  let! st := state in
  if is_empty (m_dnsInterface st) && bool_decide (m_dnsServers st = []) && bool_decide (m_dnsDomains st = [])
  then pure () else
  let! resolver := resolvectlExecutable in
  let! _ := reject_if (is_empty resolver) "dns_resolver_unavailable" in
  let! linkProbe := runCaptured resolver [lit "status"; m_dnsInterface st] in
  let bindingMissing := bindingAbsent linkProbe in
  let reconnectableOffline :=
    m_needsReapply st && m_interfaceOffline st && text_eqb (g_mode g) all_except
    && negb (is_empty (m_dnsInterface st)) && text_eqb (m_dnsInterface st) (g_interface g) in
  if reconnectableOffline && bindingMissing then pure () else
  let! _ := reject_if (negb (ok linkProbe) || bindingMissing) "dns_binding" in
  let! resolver := resolvectlExecutable in
  let! _ := reject_if (is_empty resolver) "dns_binding" in
  let! healthy := runCaptured resolver [lit "status"] in
  reject_if (negb (ok healthy)) "dns_binding".

(** ** Startup *)

(** No receipt: the kernel must hold nothing of the daemon. *)
Definition startWithoutReceipt : op bool :=
  let! s := readRuleSnapshot in
  let! _ := reject_if (negb (valid s)) "kernel_snapshot" in
  let! _ := reject_if (negb (bool_decide (tableLines s = [])) || negb (bool_decide (ownedFull s = ∅)))
              "orphan_owned_state" in
  let! _ := reject_if (existsb (λ line, bool_decide (is_Some (parseManagedMainRouteLine line))) (mainRouteLines s))
              "orphan_main_route" in
  pure true.

(** Rewrites the receipt where what was read differs from it. *)
Definition rewriteReceipt (object : jobject) (g : Routing) : op bool :=
  let! st := state in
  let! _ := cmd_when (text_eqb (g_mode g) only_forward && (m_bypassRulePriority st =? FullTunnelBypassRulePriority))
              (let! _ := update (λ s, set_priorities FullTunnelBypassPreferredPriority (m_fullRulePriority s) s) in
               let! saved := saveState in
               reject_if (negb saved) "save_state_rewrite") in
  let! st := state in
  let! _ := reject_if (m_needsReapply st && (negb (text_eqb (g_mode g) all_except) || negb (m_interfaceOffline st)))
              "needs_reapply_state" in
  let! _ := cmd_when (negb (m_needsReapply st)) (update (λ s, set_reapply (m_needsReapply s) false s)) in
  let! _ := cmd_when (negb (jcontains (lit "needsReapply") object)
                      || negb (Bool.eqb (to_bool false (jvalue (lit "needsReapply") object)) (m_needsReapply st)))
              (let! saved := saveState in reject_if (negb saved) "save_state_rewrite") in
  pure true.

(** The receipt was read: the kernel and the resolver must agree with it. *)
Definition checkKernel (g : Routing) : op () :=
  let! executable := ipExecutable in
  let! _ := reject_if (is_empty executable) "kernel_snapshot" in
  let! s := readRuleSnapshot in
  let! _ := reject_if (negb (valid s)) "kernel_snapshot" in
  let! s := (if text_eqb (g_mode g) all_except && legacyTable (g_interface g) (tableLines s)
             then migrateLegacy (g_interface g) s else pure s) in
  let! st := state in
  let! _ := cmd_when (text_eqb (g_mode g) only_forward) (checkOnlyForward g s) in
  cmd_when (text_eqb (g_mode g) all_except) (checkAllExcept g (m_bypassRulePriority st) (m_fullRulePriority st) s).

Definition startFromReceipt (content : text) : op bool :=
  let! opened := io OpenReceipt in
  let! _ := reject_if (negb opened) "receipt_open" in
  match json_parse content with
  | Some (JObject object) =>
      let! g := readReceipt object in
      let! _ := checkKernel g in
      let! _ := checkResolver g in
      rewriteReceipt object g
  | _ => reject "receipt_json"
  end.

Definition loadState_body : op bool :=
  let! _ := update reset_state in
  let! executable := ipExecutable in
  let! _ := reject_if (is_empty executable) "ip_unavailable" in
  if is_empty m_statePath then pure true else
  let! marker := gets w_marker in
  let! _ := reject_if (path_exists marker) "recovery_marker" in
  let! intent := gets w_intent in
  let! _ := reject_if (path_exists intent) "transaction_intent" in
  let! _ := reject_if legacyIntent "legacy_transaction_intent" in
  let! stored := gets w_receipt in
  match stored with
  | Absent => startWithoutReceipt
  | Special => reject "receipt_path"
  | Regular content => startFromReceipt content
  end.

Definition loadState {E} : prog (World W) E bool := call loadState_body.

Definition initializeState {E} : prog (World W) E bool :=
  let! st := state in
  if m_initialized st then pure (m_stateValid st) else
  let! _ := update (set_initialized true) in
  let! loaded := loadState in
  let! _ := update (set_stateValid loaded) in
  let! _ := cmd_when (negb loaded)
    (let! _ := update (set_mode recovery_required) in
     let! st := state in
     cmd_when (is_empty (m_lastError st))
       (update (set_lastError (lit "managed route state is invalid; refusing to mutate host routes")))) in
  pure loaded.

(** A new process: the object is new, the files and the host stay. *)
Definition new_process (w : World W) : World W :=
  MkWorld freshReconciler (w_receipt w) (w_intent w) (w_marker w) (w_log w) (w_outer w).

Definition restart (w : World W) : bool * World W := returns initializeState (new_process w).
End startup.
