(* ===== verification/RouteFrame.v ===== *)
(** * The route reconciler: what its parts leave alone

    Every part of the reconciler touches the host only through the calls of
    RouteState.v.  [Frame] lists what an invariant must survive; the lemmas show
    that each part then keeps it.  The theorems of RouteSafety.v instantiate
    them.  The second half relates a snapshot to the queries it was read from. *)

From stdpp Require Import gmap.
From S2P Require Import Prelude Text Json QtInterface QtModel RoutePolicy Command RouteGrammar RouteState RouteRules.
From S2P Require Import FullTunnel RouteTransactions.
#[local] Open Scope Z_scope.
#[local] Open Scope amnezia_scope.

Definition with_state {W} (f : Reconciler → Reconciler) (w : World W) : World W :=
  MkWorld (f (w_state w)) (w_receipt w) (w_intent w) (w_marker w) (w_log w) (w_outer w).
Definition with_receipt {W} (p : Path) (w : World W) : World W :=
  MkWorld (w_state w) p (w_intent w) (w_marker w) (w_log w) (w_outer w).
Definition with_marker {W} (p : Path) (w : World W) : World W :=
  MkWorld (w_state w) (w_receipt w) (w_intent w) p (w_log w) (w_outer w).
Definition with_outer {W} (o : W) (w : World W) : World W :=
  MkWorld (w_state w) (w_receipt w) (w_intent w) (w_marker w) (w_log w) o.
Definition with_event {W} (c : Call) (r : CommandResult) (o : W) (w : World W) : World W :=
  MkWorld (w_state w) (w_receipt w) (w_intent w) (w_marker w)
    (w_log w ++ [{| ev_call := c; ev_result := r; ev_intent := path_exists (w_intent w) |}]) o.

(** An invariant that survives everything but the changes of the intent, and
    the calls that are allowed. *)
Class Frame {W} (I : World W → Prop) (allowed : Call → Prop) : Prop := {
  fr_state w f : I w → I (with_state f w);
  fr_receipt w p : I w → I (with_receipt p w);
  fr_marker w p : I w → I (with_marker p w);
  fr_outer w o : I w → I (with_outer o w);
  fr_call w c r o : allowed c → I w → I (with_event c r o w);
  fr_captured p a : allowed (CCaptured p a);
}.

(** The commands that never touch what another owner may hold. *)
Class Harmless (allowed : Call → Prop) : Prop := {
  ha_batch p l : allowed (CBatch p l);
  ha_full_rule_del p priority v6 : allowed (CRun p (fullRuleArguments (lit "del") priority v6));
  ha_full_route p o prefix i : allowed (CRun p (fullRouteArguments o prefix i));
  ha_full_deletion p prefix : allowed (CRun p (fullRouteDeletion prefix));
  ha_bypass p o priority route : allowed (CRun p (bypassRuleArguments o priority route));
  ha_replace p route i : allowed (CRun p (splitRouteArguments (lit "replace") route i));
}.

Section frame.
Context `{QtText} `{QtNet} `{QtData} {W : Type} `{Host W}.
Context (foldCase : Z → Z).
Context (m_statePath : text).
Context (I : World W → Prop) (allowed : Call → Prop) `{!Frame I allowed}.

Lemma k_update {E} f : keeps I (update (E := E) f).
Proof. intros w Hw. apply (fr_state w f Hw). Qed.

Lemma k_io {E} o : keeps I (io (E := E) o).
Proof. intros w Hw. unfold io. destruct (host_io o (w_outer w)) as [b outer]. by apply (fr_outer w outer). Qed.

Lemma k_set_receipt {E} p : keeps I (set_receipt (E := E) p).
Proof. intros w Hw. by apply (fr_receipt w p). Qed.

Lemma k_set_marker {E} p : keeps I (set_marker (E := E) p).
Proof. intros w Hw. by apply (fr_marker w p). Qed.

Lemma k_run {E} program args : allowed (CRun program args) → keeps I (run (E := E) program args).
Proof.
  intros Ha w Hw. unfold run. destruct (host_run program args (w_outer w)) as [r outer].
  by apply (fr_call w _ r outer).
Qed.

Lemma k_runBatch {E} program l : allowed (CBatch program l) → keeps I (runBatch (E := E) program l).
Proof.
  intros Ha w Hw. unfold runBatch. destruct (host_batch program l (w_outer w)) as [r outer].
  by apply (fr_call w _ r outer).
Qed.

Lemma k_runCaptured {E} program args : keeps I (runCaptured (E := E) program args).
Proof.
  intros w Hw. unfold runCaptured. destruct (host_captured program args (w_outer w)) as [r outer].
  apply (fr_call w _ r outer); [apply fr_captured|done].
Qed.
Hint Resolve k_update k_io k_set_receipt k_set_marker k_runCaptured : keeps.

Lemma k_state {E} : keeps I (state (E := E)).
Proof. unfold state. keeps_tac. Qed.

Lemma k_ipExecutable {E} : keeps I (ipExecutable (E := E)).
Proof. unfold ipExecutable. keeps_tac. Qed.

Lemma k_resolvectlExecutable {E} : keeps I (resolvectlExecutable (E := E)).
Proof. unfold resolvectlExecutable. keeps_tac. Qed.

Lemma k_elapsed {E} : keeps I (elapsed (E := E)).
Proof. unfold elapsed. keeps_tac. Qed.
Hint Resolve k_state k_ipExecutable k_resolvectlExecutable k_elapsed : keeps.

Lemma k_startDeadline {E} : keeps I (startDeadline (E := E)).
Proof. unfold startDeadline. keeps_tac. Qed.

Lemma k_acquireRouteLock {E} : keeps I (acquireRouteLock (E := E) m_statePath).
Proof.
  unfold acquireRouteLock. apply k_if; [keeps_tac|]. intros w Hw.
  destruct (host_tryLock (w_outer w)) as [b outer]. by apply (fr_outer w outer).
Qed.

Lemma k_saveState {E} : keeps I (saveState (E := E) m_statePath).
Proof. unfold saveState. keeps_tac. Qed.

Lemma k_failure {E} code message : keeps I (failure (E := E) code message).
Proof. unfold failure. keeps_tac. Qed.
Hint Resolve k_startDeadline k_acquireRouteLock k_saveState k_failure : keeps.

Lemma k_markRecoveryRequired {E} message : keeps I (markRecoveryRequired (E := E) m_statePath message).
Proof. unfold markRecoveryRequired. keeps_tac. Qed.

Lemma k_readRuleSnapshot {E} : keeps I (readRuleSnapshot (E := E) foldCase).
Proof. unfold readRuleSnapshot, readRuleSnapshot_body, readRules, readTable. keeps_tac. Qed.
Hint Resolve k_markRecoveryRequired k_readRuleSnapshot : keeps.

Lemma k_refuse_if b code message : keeps I (refuse_if b code message).
Proof. unfold refuse_if. keeps_tac. Qed.

Lemma k_refuse {A} code message : keeps I (refuse (A := A) code message).
Proof. unfold refuse. keeps_tac. Qed.

Lemma k_require_recovery {A} mark kept lost : keeps I (require_recovery (A := A) m_statePath mark kept lost).
Proof. unfold require_recovery. keeps_tac. Qed.
Hint Resolve k_refuse_if k_refuse k_require_recovery : keeps.

Lemma k_fullTunnelPreflight i : keeps I (fullTunnelPreflight foldCase i).
Proof. unfold fullTunnelPreflight. keeps_tac. Qed.

Lemma k_addFullTunnelRule {E} args :
  (∀ p, allowed (CRun p args)) → keeps I (addFullTunnelRule (E := E) args).
Proof. intros Ha. unfold addFullTunnelRule. keeps_tac. by apply k_run. Qed.

Lemma k_removeFullTunnelRule {E} args :
  (∀ p, allowed (CRun p args)) → keeps I (removeFullTunnelRule (E := E) foldCase args).
Proof. intros Ha. unfold removeFullTunnelRule. keeps_tac. by apply k_run. Qed.

Lemma k_removeFullTunnelRoute {E} args :
  (∀ p, allowed (CRun p args)) → keeps I (removeFullTunnelRoute (E := E) foldCase args).
Proof. intros Ha. unfold removeFullTunnelRoute. keeps_tac. by apply k_run. Qed.

Lemma k_check_deadline what p total : keeps I (check_deadline what p total).
Proof. unfold check_deadline. keeps_tac. Qed.

Lemma k_table_refusal line protocol expected : keeps I (rejectLine protocol expected line).
Proof. unfold rejectLine. keeps_tac. Qed.
Hint Resolve k_fullTunnelPreflight k_check_deadline k_table_refusal : keeps.

(** ** Batches *)

Lemma elem_of_batches_go {A} fuel (l b : list A) x : b ∈ batches_go fuel l → x ∈ b → x ∈ l.
Proof.
  revert l. induction fuel as [|fuel IH]; intros l Hb Hx; [by apply elem_of_nil in Hb|].
  destruct l as [|y l]; cbn [batches_go] in Hb; [by apply elem_of_nil in Hb|].
  apply elem_of_cons in Hb as [->|Hb].
  - apply (subseteq_take FullTunnelRuleBatchSize (y :: l)). exact Hx.
  - apply (subseteq_drop FullTunnelRuleBatchSize (y :: l)). by eapply IH.
Qed.

Lemma k_addFullTunnelRulesBatch {E} l :
  (∀ p b, allowed (CBatch p b)) → keeps I (addFullTunnelRulesBatch (E := E) l).
Proof.
  intros Ha. unfold addFullTunnelRulesBatch, add_batch. keeps_tac. by apply k_runBatch.
Qed.

Lemma k_remove_batch executable total p commands :
  allowed (CBatch executable commands) → (∀ c, c ∈ commands → allowed (CRun executable c)) →
  keeps I (remove_batch foldCase executable total p commands).
Proof.
  intros Hb Hc. unfold remove_batch. keeps_tac; [by apply k_runBatch|]. apply k_run. auto.
Qed.

Lemma k_removeFullTunnelRulesBatch {E} l :
  (∀ p b, allowed (CBatch p b)) → (∀ p c, c ∈ l → allowed (CRun p c)) →
  keeps I (removeFullTunnelRulesBatch (E := E) foldCase l).
Proof.
  intros Hb Hc. unfold removeFullTunnelRulesBatch. keeps_tac.
  apply k_remove_batch; [auto|]. intros c Hcb. apply Hc. by eapply elem_of_batches_go.
Qed.

(** ** Parts of the full tunnel *)

Context `{!Harmless allowed}.
Context (set_order : gset text → list text).
(** Removing a split route keeps the invariant. *)
Context (k_remove_route :
  ∀ executable i removed route, keeps I (remove_route foldCase executable i removed route)).

Lemma k_add_rules {E} l : keeps I (addFullTunnelRulesBatch (E := E) l).
Proof. apply k_addFullTunnelRulesBatch. apply ha_batch. Qed.

Lemma k_remove_rules {E} priority l :
  keeps I (removeFullTunnelRulesBatch (E := E) foldCase (map (bypassRuleArguments (lit "del") priority) l)).
Proof.
  apply k_removeFullTunnelRulesBatch; [apply ha_batch|]. intros p c Hc.
  apply list_elem_of_fmap in Hc as (route & -> & _). apply ha_bypass.
Qed.

Lemma k_remove_full_rule {E} priority v6 :
  keeps I (removeFullTunnelRule (E := E) foldCase (fullRuleArguments (lit "del") priority v6)).
Proof. apply k_removeFullTunnelRule. intros p. apply ha_full_rule_del. Qed.

Lemma k_add_full_route {E} o prefix i : keeps I (addFullTunnelRoute (E := E) (fullRouteArguments o prefix i)).
Proof. apply k_addFullTunnelRule. intros p. apply ha_full_route. Qed.

Lemma k_remove_full_route {E} o prefix i :
  keeps I (removeFullTunnelRoute (E := E) foldCase (fullRouteArguments o prefix i)).
Proof. apply k_removeFullTunnelRoute. intros p. apply ha_full_route. Qed.

Lemma k_delete_full_route {E} prefix :
  keeps I (removeFullTunnelRoute (E := E) foldCase (fullRouteDeletion prefix)).
Proof. apply k_removeFullTunnelRoute. intros p. apply ha_full_deletion. Qed.

Lemma k_replace_route {E} p route i : keeps I (run (E := E) p (splitRouteArguments (lit "replace") route i)).
Proof. apply k_run. apply ha_replace. Qed.
Hint Resolve k_add_rules k_remove_rules k_remove_full_rule k_add_full_route k_remove_full_route
  k_delete_full_route k_replace_route k_remove_route : keeps.

Lemma k_removeRoutes {E} i routes : keeps I (removeRoutes (E := E) foldCase i routes).
Proof. unfold removeRoutes. keeps_tac. Qed.

Lemma k_restoreRoutes {E} i routes : keeps I (restoreRoutes (E := E) foldCase i routes).
Proof. unfold restoreRoutes, restore_route. keeps_tac. Qed.

Lemma k_restoreStale {E} p removed : keeps I (restoreStale (E := E) foldCase p removed).
Proof. unfold restoreStale. keeps_tac. Qed.
Hint Resolve k_removeRoutes k_restoreRoutes k_restoreStale : keeps.

Lemma k_installTable p i bypassRoutes : keeps I (installTable foldCase m_statePath p i bypassRoutes).
Proof. unfold installTable, removeStale, install_route, undo_table, remove_added. keeps_tac. Qed.

Lemma k_rollback p i stale a : keeps I (rollback foldCase p i stale a).
Proof. unfold rollback, rollback_table, rollback_route. keeps_tac. Qed.
Hint Resolve k_installTable k_rollback : keeps.

Lemma k_rollback_or {A} p i stale a mark kept lost code message :
  keeps I (rollback_or (A := A) foldCase m_statePath p i stale a mark kept lost code message).
Proof. unfold rollback_or. keeps_tac. Qed.
Hint Resolve k_rollback_or : keeps.

Lemma k_batchFailed {A} p i stale a e : keeps I (batchFailed (A := A) foldCase m_statePath p i stale a e).
Proof. unfold batchFailed. keeps_tac. Qed.
Hint Resolve k_batchFailed : keeps.

Lemma k_installCritical p i critical stale a adds :
  keeps I (installCritical foldCase m_statePath p i critical stale a adds).
Proof. unfold installCritical. keeps_tac. Qed.

Lemma k_retireSplitRoutes p i stale a : keeps I (retireSplitRoutes foldCase m_statePath p i stale a).
Proof. unfold retireSplitRoutes. keeps_tac. Qed.

Lemma k_verifyCommitted p i bypassRoutes stale removed a :
  keeps I (verifyCommitted foldCase m_statePath set_order p i bypassRoutes stale removed a).
Proof. unfold verifyCommitted. keeps_tac. Qed.

Lemma k_commitFullTunnel p i bypassRoutes critical stale removed a :
  keeps I (commitFullTunnel foldCase m_statePath p i bypassRoutes critical stale removed a).
Proof. unfold commitFullTunnel. keeps_tac. Qed.
Hint Resolve k_installCritical k_retireSplitRoutes k_verifyCommitted k_commitFullTunnel : keeps.

(** ** The whole full tunnel, when its rule may be added *)

Context (allowed_full_rule : ∀ p priority v6, allowed (CRun p (fullRuleArguments (lit "add") priority v6))).

Lemma k_add_full_rule {E} priority v6 :
  keeps I (addFullTunnelRule (E := E) (fullRuleArguments (lit "add") priority v6)).
Proof. apply k_addFullTunnelRule. intros p. apply allowed_full_rule. Qed.
Hint Resolve k_add_full_rule : keeps.

Lemma k_installFullRule p i stale a v6 : keeps I (installFullRule foldCase m_statePath p i stale a v6).
Proof. unfold installFullRule. keeps_tac. Qed.
Hint Resolve k_installFullRule : keeps.

Lemma k_applyFullTunnel {E} i bypassRoutes critical :
  keeps I (applyFullTunnel (E := E) foldCase m_statePath set_order i bypassRoutes critical).
Proof. unfold applyFullTunnel, applyFullTunnel_body. keeps_tac. Qed.

Lemma k_restoreRules {E} st bypass v4 v6 : keeps I (restoreRules (E := E) st bypass v4 v6).
Proof. unfold restoreRules. keeps_tac. Qed.
Hint Resolve k_restoreRules : keeps.

Lemma k_restoreRules_or {A} st bypass v4 v6 mark unrestored code message :
  keeps I (restoreRules_or (A := A) m_statePath st bypass v4 v6 mark unrestored code message).
Proof. unfold restoreRules_or. keeps_tac. Qed.

Lemma k_restoreOwnedTable {E} s : keeps I (restoreOwnedTable (E := E) s).
Proof. unfold restoreOwnedTable. keeps_tac. Qed.
Hint Resolve k_restoreRules_or k_restoreOwnedTable : keeps.

Lemma k_clearFullTunnel {E} : keeps I (clearFullTunnel (E := E) foldCase m_statePath).
Proof.
  unfold clearFullTunnel, clearFullTunnel_body, removeOwnedTunnel, retireReceipt, check_table_line, remove_table_route.
  keeps_tac.
Qed.
Hint Resolve k_applyFullTunnel k_clearFullTunnel : keeps.

Lemma k_restorePrevious v i added removed :
  keeps I (restorePrevious foldCase m_statePath set_order v i added removed).
Proof. unfold restorePrevious. keeps_tac. Qed.
End frame.

(** ** The route reconciler: what a snapshot was read from

    A valid snapshot is exactly what the last five queries of the kernel
    answered. *)

Section readings.
Context `{QT : QtText} `{QN : QtNet} {W : Type} `{HW : Host W}.
Context (foldCase : Z → Z).

(** The lines of [ip rule show] that have a priority. *)
Definition rule_lines (out : text) : list text :=
  List.filter (λ line, bool_decide (is_Some (rulePriority line))) (output_lines out).

(** The routes of a table query; a table that was never created has none. *)
Definition table_lines (r : CommandResult) : list text :=
  if ok r then List.filter (λ l, negb (is_rule_line l)) (output_lines (output r)) else [].

(** One more rule line. *)
Definition line_if (b : bool) (line : text) : list text :=
  if b && bool_decide (is_Some (rulePriority line)) then [line] else [].

Lemma snapshot_rule_line_spec st v6 s seen line :
  match snapshot_rule_line st v6 (s, seen) line with
  | Ok a => linesV4 a.1 = linesV4 s ++ line_if (negb v6) line ∧ linesV6 a.1 = linesV6 s ++ line_if v6 line
            ∧ tableLines a.1 = tableLines s ∧ valid a.1 = valid s
  | Err s' => valid s' = valid s
  end.
Proof.
  unfold snapshot_rule_line, line_if. destruct (rulePriority line) as [p|]; cbn [fst];
    [|by rewrite !andb_false_r, !app_nil_r].
  destruct v6; cbn [negb andb]; repeat case_match; simplify_eq/=; by rewrite ?app_nil_r.
Qed.

Lemma snapshot_rules_spec st v6 out acc :
  match snapshot_rules st v6 out acc with
  | Ok a => linesV4 a.1 = linesV4 acc.1 ++ (if v6 then [] else rule_lines out)
            ∧ linesV6 a.1 = linesV6 acc.1 ++ (if v6 then rule_lines out else [])
            ∧ tableLines a.1 = tableLines acc.1 ∧ valid a.1 = valid acc.1
  | Err s => valid s = valid acc.1
  end.
Proof.
  unfold snapshot_rules, rule_lines. revert acc. induction (output_lines out) as [|line l IH]; intros [s seen].
  { cbn. by destruct v6; rewrite !app_nil_r. }
  cbn [rfold]. pose proof (snapshot_rule_line_spec st v6 s seen line) as Hl.
  destruct (snapshot_rule_line st v6 (s, seen) line) as [a|s1]; cbn [rbind]; [|done].
  specialize (IH a). destruct Hl as (H1 & H2 & H3 & H4). destruct (rfold _ a l) as [a'|s2]; [|by rewrite IH].
  destruct IH as (G1 & G2 & G3 & G4). rewrite G1, G2, G3, G4, H1, H2, H3, H4. unfold line_if. cbn [List.filter].
  destruct v6; cbn [negb andb]; rewrite <- !app_assoc; by case_bool_decide.
Qed.

(** ** Five queries *)

Definition rulesQuery (v6 : bool) : list text := (if v6 then [lit "-6"] else []) ++ [lit "rule"; lit "show"].
Definition tableQuery (v6 : bool) : list text :=
  (if v6 then [lit "-6"] else [])
  ++ [lit "-N"; lit "route"; lit "show"; lit "table"; number FullTunnelRouteTable].

Definition queried (e : Event) (args : list text) : Prop := ∃ p, ev_call e = CCaptured p args.

(** The queries, in order, and the snapshot they answered. *)
Definition reading_of (s : RuleSnapshot) (h : list Event) : Prop :=
  ∃ r4 r6 t4 t6 m, h = [r4; r6; t4; t6; m]
    ∧ queried r4 (rulesQuery false) ∧ queried r6 (rulesQuery true)
    ∧ queried t4 (tableQuery false) ∧ queried t6 (tableQuery true) ∧ queried m mainRoutesQuery
    ∧ ok (ev_result r4) = true ∧ ok (ev_result r6) = true ∧ ok (ev_result m) = true
    ∧ linesV4 s = rule_lines (output (ev_result r4)) ∧ linesV6 s = rule_lines (output (ev_result r6))
    ∧ tableLines s = table_lines (ev_result t4) ++ table_lines (ev_result t6)
    ∧ mainRouteLines s = output_lines (output (ev_result m)).

Lemma runCaptured_log {E} program args w :
  ∃ e w', runCaptured (W := W) (E := E) program args w = (Ok (ev_result e), w')
    ∧ w_log w' = w_log w ++ [e] ∧ ev_call e = CCaptured program args.
Proof.
  unfold runCaptured, logged. destruct (host_captured _ _ _) as [r o]. by eexists {| ev_result := r |}, _.
Qed.

(** A step of a reading: on the normal exit one query was made; the early exit
    leaves an invalid snapshot. *)
Definition reads_step {A} (m : prog (World W) RuleSnapshot A) (F : Event → A → Prop) : Prop :=
  ∀ w, match m w with
       | (Ok a, w') => ∃ e, w_log w' = w_log w ++ [e] ∧ F e a
       | (Err s, w') => valid s = false
       end.

Lemma readRules_step executable st v6 acc :
  valid acc.1 = false →
  reads_step (readRules (W := W) executable st v6 acc) (λ e a,
    queried e (rulesQuery v6) ∧ ok (ev_result e) = true
    ∧ linesV4 a.1 = linesV4 acc.1 ++ (if v6 then [] else rule_lines (output (ev_result e)))
    ∧ linesV6 a.1 = linesV6 acc.1 ++ (if v6 then rule_lines (output (ev_result e)) else [])
    ∧ tableLines a.1 = tableLines acc.1 ∧ valid a.1 = false).
Proof.
  intros Hv w. unfold readRules, cmd_bind. destruct (runCaptured_log (E := RuleSnapshot) executable (rulesQuery v6) w)
    as (e & w1 & Hr & Hl & Hc). unfold rulesQuery in Hr. rewrite Hr.
  destruct (ok (ev_result e)) eqn:Hok; cbn [negb]; [|done]. unfold cmd_ret.
  pose proof (snapshot_rules_spec st v6 (output (ev_result e)) acc) as Hs. rewrite Hv in Hs.
  destruct (snapshot_rules _ _ _ _) as [a|s]; [|done]. exists e. split; [done|]. split; [by eexists|]. done.
Qed.

Lemma readTable_step executable v6 s :
  valid s = false →
  reads_step (readTable (W := W) foldCase executable v6 s) (λ e a,
    queried e (tableQuery v6) ∧ linesV4 a = linesV4 s ∧ linesV6 a = linesV6 s
    ∧ tableLines a = tableLines s ++ table_lines (ev_result e) ∧ valid a = false).
Proof.
  intros Hv w. unfold readTable, cmd_bind. destruct (runCaptured_log (E := RuleSnapshot) executable (tableQuery v6) w)
    as (e & w1 & Hr & Hl & Hc). unfold tableQuery in Hr. rewrite Hr. unfold table_lines.
  destruct (ok (ev_result e)) eqn:Hok; cbn [negb].
  - exists e. rewrite Hok. split; [done|]. split; [by eexists|]. done.
  - destruct (missingTable foldCase (ev_result e)); [|done]. exists e. rewrite Hok, app_nil_r.
    split; [done|]. split; [by eexists|]. done.
Qed.

Lemma reads_bind {A B} (m : prog (World W) RuleSnapshot A) (k : A → prog (World W) RuleSnapshot B) F w b w' :
  reads_step m F → cmd_bind m k w = (b, w') →
  match b with Ok _ => True | Err s => valid s = true end →
  ∃ a e w1, w_log w1 = w_log w ++ [e] ∧ F e a ∧ k a w1 = (b, w').
Proof.
  intros Hm E Hb. unfold cmd_bind in E. specialize (Hm w). destruct (m w) as [[a|s] w1].
  - destruct Hm as (e & Hl & Hf). by exists a, e, w1.
  - simplify_eq. congruence.
Qed.

(** A valid snapshot is what the five queries it made answered. *)
Lemma readRuleSnapshot_reads {E} w s w' :
  readRuleSnapshot (W := W) (E := E) foldCase w = (Ok s, w') → valid s = true →
  ∃ h, w_log w' = w_log w ++ h ∧ reading_of s h.
Proof.
  unfold readRuleSnapshot, call. intros E0 Hv. destruct (readRuleSnapshot_body foldCase w) as [b w0] eqn:Eb.
  assert ((b = Ok s ∨ b = Err s) ∧ w0 = w') as [Hb ->] by (destruct b; simplify_eq; auto). clear E0.
  assert (match b with Ok _ => True | Err s => valid s = true end) as Hbv by by destruct Hb; subst.
  unfold readRuleSnapshot_body, cmd_bind at 1, ipExecutable, gets, cmd_get in Eb.
  destruct (is_empty _); [unfold pure, cmd_ret in Eb; destruct Hb; by simplify_eq|].
  unfold cmd_bind at 1, state, gets, cmd_get in Eb.
  eapply reads_bind in Eb as ([s1 n1] & e1 & w1 & L1 & F1 & Eb); [|by apply readRules_step|done].
  destruct F1 as (Q1 & O1 & A1 & B1 & C1 & V1). cbn [fst] in *.
  eapply reads_bind in Eb as ([s2 n2] & e2 & w2 & L2 & F2 & Eb); [|by apply readRules_step|done].
  destruct F2 as (Q2 & O2 & A2 & B2 & C2 & V2). cbn [fst] in *.
  eapply reads_bind in Eb as (s3 & e3 & w3 & L3 & F3 & Eb); [|by apply readTable_step|done].
  destruct F3 as (Q3 & A3 & B3 & C3 & V3).
  eapply reads_bind in Eb as (s4 & e4 & w4 & L4 & F4 & Eb); [|by apply readTable_step|done].
  destruct F4 as (Q4 & A4 & B4 & C4 & V4). unfold cmd_bind in Eb.
  match type of Eb with context [runCaptured ?p ?a w4] =>
    destruct (runCaptured_log (E := RuleSnapshot) p a w4) as (e5 & w5 & Hr & L5 & Q5) end.
  rewrite Hr in Eb. destruct (ok (ev_result e5)) eqn:O5; cbn [negb] in Eb; unfold pure, cmd_ret in Eb;
    [|destruct Hb; simplify_eq; congruence].
  assert (s = validate_snapshot (output_lines (output (ev_result e5))) s4 ∧ w' = w5) as [-> ->]
    by (destruct Hb; by simplify_eq).
  exists [e1; e2; e3; e4; e5]. rewrite L5, L4, L3, L2, L1, <- !app_assoc. split; [done|].
  exists e1, e2, e3, e4, e5. split; [done|]. do 4 (split; [done|]). split; [by eexists|]. do 3 (split; [done|]).
  cbn [validate_snapshot linesV4 linesV6 tableLines mainRouteLines].
  rewrite A4, A3, A2, A1, B4, B3, B2, B1, C4, C3, C2, C1. cbn. by rewrite !app_nil_r.
Qed.

(** The same as a guarantee. *)
Lemma snapshot_reading {E} P allowed X base :
  Frame (W := W) P allowed →
  hoare (λ w, P w ∧ w_log w = base) (readRuleSnapshot (E := E) foldCase)
    (λ s w, P w ∧ (valid s = true → ∃ h, w_log w = base ++ h ∧ reading_of s h)) X.
Proof.
  intros HF w [Hw <-]. pose proof (k_readRuleSnapshot (E := E) foldCase P allowed w Hw) as Hk.
  destruct (readRuleSnapshot foldCase w) as [[s|e] w'] eqn:Er; [|].
  - split; [done|]. intros Hv. by eapply readRuleSnapshot_reads.
  - exfalso. revert Er. unfold readRuleSnapshot, call. by destruct (readRuleSnapshot_body foldCase w) as [[?|?] ?].
Qed.
End readings.
