(* ===== verification/RouteSafety.v ===== *)
(** * The route reconciler: safety of its transactions

    The theorems on the operations of RouteTransactions.v that hold whatever the
    host answers: nothing is changed before the intent is on disk, nothing is
    changed after recovery is required, and main-table routes are only deleted
    when they were just read and are the daemon's. *)

From stdpp Require Import gmap.
From S2P Require Import Prelude Text Json QtInterface QtModel Command RoutePolicy RouteGrammar RouteState RouteRules.
From S2P Require Import FullTunnel RouteTransactions RouteFrame.
#[local] Open Scope Z_scope.
#[local] Open Scope amnezia_scope.

(** The calls that may change the host. *)
Definition mutates (c : Call) : bool := match c with CCaptured _ _ => false | _ => true end.

Section safety.
Context `{QT : QtText} `{QN : QtNet} `{QD : QtData} {W : Type} `{HW : Host W}.
Context (foldCase : Z → Z).
Context (m_statePath : text).
Context (set_order : gset text → list text).

Notation R := RouteReconcileResult.
Notation op E A := (prog (World W) E A).

(** ** The intent is written first *)

Definition event_armed (e : Event) : Prop :=
  mutates (ev_call e) = true → m_statePath = [] ∨ ev_intent e = true.

Definition write_ahead (w : World W) : Prop := Forall event_armed (w_log w).

(** Between operations; [clean] tells whether there is no intent. *)
Context (clean : bool).
Definition armed (w : World W) : Prop :=
  if is_empty m_statePath then clean = true → w_intent w = Absent else path_exists (w_intent w) = true.
Definition active (w : World W) : Prop := write_ahead w ∧ armed w.
Definition idle (w : World W) : Prop := write_ahead w ∧ (clean = true → w_intent w = Absent).

(** What an operation leaves: no intent, unless it reports that recovery is
    required. *)
Definition needs_recovery (r : R) : Prop := rr_ok r = false ∧ rr_code r = recovery_required.
Definition settled (r : R) (w : World W) : Prop :=
  write_ahead w ∧ (clean = true → needs_recovery r ∨ w_intent w = Absent).

Lemma idle_settled r w : idle w → settled r w.
Proof. intros [Hw Hi]. split; [done|]. intros Hc. right. auto. Qed.

Lemma active_settled r w : active w → needs_recovery r → settled r w.
Proof. intros [Hw _] Hr. split; [done|]. by left. Qed.

#[local] Instance active_frame : Frame active (λ _, True).
Proof.
  split; try done. intros w c r o _ [H1 H2]. split; [|done].
  apply Forall_app_2; [done|]. apply Forall_singleton. intros _. revert H2. unfold armed.
  destruct (is_empty m_statePath) eqn:E; [|by right]. left. by apply is_empty_true.
Qed.

#[local] Instance idle_frame : Frame idle (λ c, mutates c = false).
Proof.
  split; try done. intros w c r o Hc [H1 H2]. split; [|done]. apply Forall_app_2; [done|].
  apply Forall_singleton. intros Hm. simpl in Hm. congruence.
Qed.

#[local] Instance true_harmless : Harmless (λ _, True).
Proof. by split. Qed.

Hint Resolve k_update k_io k_set_receipt k_set_marker k_runCaptured k_state k_ipExecutable k_resolvectlExecutable
  k_startDeadline k_acquireRouteLock k_saveState k_failure k_markRecoveryRequired k_readRuleSnapshot
  k_refuse_if k_refuse k_require_recovery k_table_refusal active_frame idle_frame : keeps.

(** While the intent is there, anything may be run. *)
Lemma active_run {E} program args : keeps active (run (W := W) (E := E) program args).
Proof. by apply (k_run active (λ _, True)). Qed.
Hint Resolve active_run : keeps.

Lemma active_remove_route executable i removed route :
  keeps active (remove_route (W := W) foldCase executable i removed route).
Proof. unfold remove_route. keeps_tac. Qed.

Lemma active_removeRoutes {E} i routes : keeps active (removeRoutes (W := W) (E := E) foldCase i routes).
Proof. apply k_removeRoutes, active_remove_route. Qed.

Lemma active_restoreRoutes {E} i routes : keeps active (restoreRoutes (W := W) (E := E) foldCase i routes).
Proof. apply (k_restoreRoutes foldCase active (λ _, True)). Qed.

Lemma active_applyFullTunnel {E} i bypassRoutes critical :
  keeps active (applyFullTunnel (W := W) (E := E) foldCase m_statePath set_order i bypassRoutes critical).
Proof. apply (k_applyFullTunnel foldCase m_statePath active (λ _, True)); [apply active_remove_route|done]. Qed.

Lemma active_clearFullTunnel {E} : keeps active (clearFullTunnel (W := W) (E := E) foldCase m_statePath).
Proof. by apply (k_clearFullTunnel foldCase m_statePath active (λ _, True)). Qed.

Lemma active_restorePrevious v i added removed :
  keeps active (restorePrevious (W := W) foldCase m_statePath set_order v i added removed).
Proof. apply (k_restorePrevious foldCase m_statePath active (λ _, True)); [apply active_remove_route|done]. Qed.
Hint Resolve active_removeRoutes active_restoreRoutes active_applyFullTunnel active_clearFullTunnel
  active_restorePrevious : keeps.

(** The end of an operation, with the intent in place before. *)
Definition settles (m : op R R) : Prop := hoare active m settled settled.
(** A step that goes on with the intent in place, or ends the operation. *)
Definition proceeds {A} (m : op R A) : Prop := hoare active m (λ _, active) settled.
(** A whole operation. *)
Definition quiet (m : op R R) : Prop := hoare idle m settled settled.

Lemma total_run {E} program args : total (run (W := W) (E := E) program args).
Proof. intros w. unfold run. destruct (host_run _ _ _) as [r o]. by exists r. Qed.
Lemma total_runCaptured {E} program args : total (runCaptured (W := W) (E := E) program args).
Proof. intros w. unfold runCaptured. destruct (host_captured _ _ _) as [r o]. by exists r. Qed.
Lemma total_io {E} o : total (io (W := W) (E := E) o).
Proof. intros w. unfold io. destruct (host_io _ _) as [b o']. by exists b. Qed.
Hint Resolve total_run total_runCaptured total_io : total.
Hint Extern 1 (total (state)) => apply total_gets : total.
Hint Extern 1 (total ipExecutable) => apply total_gets : total.
Hint Extern 1 (total (update _)) => apply total_modify : total.
Hint Extern 1 (total (set_receipt _)) => apply total_modify : total.
Hint Extern 1 (total (set_marker _)) => apply total_modify : total.
Hint Extern 1 (total (set_intent _)) => apply total_modify : total.
Hint Extern 1 (total (removeRoutes _ _ _)) => apply total_call : total.
Hint Extern 1 (total (restoreRoutes _ _ _)) => apply total_call : total.
Hint Extern 1 (total (applyFullTunnel _ _ _ _ _ _)) => apply total_call : total.
Hint Extern 1 (total (clearFullTunnel _ _)) => apply total_call : total.

Lemma total_saveState {E} : total (saveState (W := W) (E := E) m_statePath).
Proof. unfold saveState. total_tac. Qed.
Lemma total_failure {E} code message : total (failure (W := W) (E := E) code message).
Proof. unfold failure. total_tac. Qed.
Hint Resolve total_saveState total_failure : total.
Lemma total_markRecoveryRequired {E} message : total (markRecoveryRequired (W := W) (E := E) m_statePath message).
Proof. unfold markRecoveryRequired. total_tac. Qed.
Lemma total_restorePrevious v i added removed :
  total (restorePrevious (W := W) foldCase m_statePath set_order v i added removed).
Proof. unfold restorePrevious. total_tac. Qed.
Lemma total_run_ok executable args : total (run_ok (W := W) executable args).
Proof. unfold run_ok. total_tac. Qed.
Lemma total_set_binding b : total (set_binding (W := W) b).
Proof. unfold set_binding. total_tac. Qed.
Hint Resolve total_markRecoveryRequired total_restorePrevious total_run_ok total_set_binding : total.
Lemma total_restorePreviousDns executable prev i : total (restorePreviousDns (W := W) executable prev i).
Proof. unfold restorePreviousDns. total_tac. Qed.
Hint Resolve total_restorePreviousDns : total.

Lemma proceeds_total {A} (m : op R A) : keeps active m → total m → proceeds m.
Proof. intros Hm Ht. by eapply hoare_total. Qed.

Lemma settles_bind {A} (m : op R A) (k : A → op R R) :
  proceeds m → (∀ a, settles (k a)) → settles (cmd_bind m k).
Proof. intros Hm Hk. eapply h_bind; [exact Hm|]. exact Hk. Qed.

Lemma proceeds_bind {A B} (m : op R A) (k : A → op R B) :
  proceeds m → (∀ a, proceeds (k a)) → proceeds (cmd_bind m k).
Proof. intros Hm Hk. eapply h_bind; [exact Hm|]. exact Hk. Qed.

Lemma settles_proceeds (m : op R R) : hoare active m (λ _ _, False) settled → settles m.
Proof. intros Hm. eapply h_conseq; [exact Hm|done| |done]. done. Qed.

Lemma proceeds_leaves {A} (m : op R A) : hoare active m (λ _ _, False) settled → proceeds m.
Proof. intros Hm. eapply h_conseq; [exact Hm|done| |done]. done. Qed.

Ltac step_total := apply proceeds_total; [solve [keeps_tac]|solve [total_tac]].
Ltac go := cbv zeta beta;
  first [apply settles_bind; [step_total|intros ?] | apply proceeds_bind; [step_total|intros ?]].

Lemma clearTransactionIntent_settles {E} X :
  hoare active (clearTransactionIntent (W := W) (E := E) m_statePath)
    (λ b w, if b : bool then idle w else active w) X.
Proof.
  intros w [Hw Ha]. unfold clearTransactionIntent. unfold armed in Ha.
  destruct (is_empty m_statePath) eqn:E0; [by split|].
  unfold cmd_bind, gets, cmd_get. destruct (w_intent w) eqn:E1; [by split|..].
  - unfold io. destruct (host_io RemoveIntent (w_outer w)) as [[] outer]; simpl; [by split|].
    split; [done|]. unfold armed. rewrite E0. simpl. by rewrite E1.
  - split; [done|]. unfold armed. by rewrite E0, E1.
Qed.

Lemma failure_active {E} code message X :
  hoare active (failure (W := W) (E := E) code message)
    (λ r w, active w ∧ rr_ok r = false ∧ rr_code r = code) X.
Proof. by intros w Hw. Qed.

Lemma recovery_settles {E} message X :
  hoare active (failure (W := W) (E := E) recovery_required message) settled X.
Proof. intros w Hw. by apply active_settled. Qed.

Lemma finishTransaction_settles r : settles (finishTransaction (W := W) m_statePath r).
Proof.
  unfold finishTransaction. destruct (negb (rr_ok r) && text_eqb (rr_code r) recovery_required) eqn:E0.
  { apply andb_true_iff in E0 as [E1 E2]. apply negb_true_iff in E1. apply text_eqb_eq in E2.
    apply h_ret. intros w Hw. apply active_settled; [done|]. by split. }
  eapply h_bind; [apply clearTransactionIntent_settles|]. intros [].
  - apply h_ret. intros w Hw. by apply idle_settled.
  - apply settles_bind; [step_total|]. intros b. apply recovery_settles.
Qed.

Lemma finish_failure_leaves {A} code message :
  hoare active (finish_failure (W := W) (A := A) m_statePath code message) (λ _ _, False) settled.
Proof.
  unfold finish_failure. eapply (h_bind _ _ _ (λ _, active)); [step_total|]. intros r.
  eapply h_bind; [apply finishTransaction_settles|]. intros r2. by apply h_leave.
Qed.

Lemma require_recovery_leaves {A} mark kept lost :
  hoare active (require_recovery (W := W) (A := A) m_statePath mark kept lost) (λ _ _, False) settled.
Proof.
  unfold require_recovery. eapply (h_bind _ _ _ (λ _, active)); [step_total|]. intros b.
  eapply h_bind; [apply recovery_settles|]. intros r2. by apply h_leave.
Qed.

Lemma finish_committed (r : R) mark kept lost :
  settles (let! _ := finish_or_mark (W := W) m_statePath mark kept lost in pure r).
Proof.
  unfold finish_or_mark. eapply (h_bind _ _ _ (λ _, idle)).
  - eapply h_bind; [apply clearTransactionIntent_settles|]. intros []; cbn [negb].
    + by apply h_ret.
    + eapply h_conseq; [apply require_recovery_leaves|done|done|done].
  - intros ?. apply h_ret. intros w Hw. by apply idle_settled.
Qed.

Lemma quiet_keeps (m : op R R) : keeps idle m → quiet m.
Proof. intros Hm. eapply h_conseq; [exact Hm|done| |]; intros r w; apply idle_settled. Qed.

Lemma begin_arms o i routes bypass servers domains critical message :
  hoare idle (begin_or_refuse (W := W) m_statePath o i routes bypass servers domains critical message)
    (λ _, active) settled.
Proof.
  unfold begin_or_refuse. eapply (h_bind _ _ _ (λ b w, if b : bool then active w else idle w)).
  - unfold beginMutation, saveTransactionIntent. intros w [Hw Hi].
    destruct (is_empty m_statePath) eqn:E1; [split; [done|]; unfold armed; by rewrite E1|].
    unfold cmd_bind at 1, gets, cmd_get. destruct (path_exists (w_intent w)) eqn:E2; [by split|].
    unfold cmd_bind, io. destruct (host_io SaveIntent (w_outer w)) as [[] outer]; simpl; split; try done.
    unfold armed. by rewrite E1.
  - intros b. unfold refuse_if. apply h_leave_if.
    + intros Hb. destruct b; [done|]. apply quiet_keeps, (k_failure idle _).
    + intros w Hb Hw. by destruct b.
Qed.

(** A step before the intent: nothing is changed. *)
Lemma idle_bind {A B} (m : op R A) (k : A → op R B) Q :
  keeps idle m → (∀ a, hoare idle (k a) Q settled) → hoare idle (cmd_bind m k) Q settled.
Proof.
  intros Hm Hk. eapply h_bind; [|exact Hk]. eapply h_conseq; [exact Hm|done|done|]. intros e w. apply idle_settled.
Qed.

Ltac idle := repeat (cbv zeta beta; apply idle_bind; [solve [keeps_tac]|intros ?]).

Lemma idle_lock : keeps idle (lock_or_refuse (W := W) m_statePath).
Proof. unfold lock_or_refuse. keeps_tac. Qed.

Lemma idle_check_main_line i previous route line :
  keeps idle (check_main_line (W := W) i previous route line).
Proof. unfold check_main_line. keeps_tac. Qed.
Hint Resolve idle_lock idle_check_main_line : keeps.

(** ** The operations *)

Lemma undo_or_recover_leaves {A} v i added removed mark unrestored code message :
  hoare active
    (undo_or_recover (W := W) (A := A) foldCase m_statePath set_order v i added removed mark unrestored code message)
    (λ _ _, False) settled.
Proof.
  unfold undo_or_recover. eapply (h_bind _ _ _ (λ _, active)); [step_total|]. intros [].
  - apply finish_failure_leaves.
  - eapply (h_bind _ _ _ (λ _, active)); [step_total|]. intros ?. apply finish_failure_leaves.
Qed.

Lemma mark_and_fail_settles mark message : settles (mark_and_fail (W := W) m_statePath mark message).
Proof. unfold mark_and_fail. go. apply recovery_settles. Qed.

Lemma idle_set_absent {E} : keeps idle (set_intent (W := W) (E := E) Absent).
Proof. intros w [H1 H2]. by split. Qed.
Hint Resolve idle_set_absent : keeps.

Lemma commitSplit_settles v i routes added removed :
  settles (commitSplit (W := W) foldCase m_statePath set_order v i routes added removed).
Proof.
  unfold commitSplit. do 2 go. destruct a0; cbn [negb]; [|do 2 go; apply mark_and_fail_settles].
  eapply h_bind; [apply clearTransactionIntent_settles|]. intros []; cbn [negb].
  - apply quiet_keeps. unfold finishTransaction, clearTransactionIntent. keeps_tac.
  - go. apply mark_and_fail_settles.
Qed.

Lemma add_route_proceeds executable v i added route :
  proceeds (add_route (W := W) foldCase m_statePath set_order executable v i added route).
Proof.
  unfold add_route. go. destruct (negb (ok a)); [apply proceeds_leaves, undo_or_recover_leaves|].
  apply proceeds_total; [keeps_tac|total_tac].
Qed.

Lemma retirePrevious_proceeds v i routes added :
  proceeds (retirePrevious (W := W) foldCase m_statePath set_order v i routes added).
Proof.
  unfold retirePrevious. go. destruct (negb (text_eqb _ _)).
  - go. destruct a0 as [[] rem]; simpl; [apply proceeds_total; [keeps_tac|total_tac]|].
    apply proceeds_leaves, undo_or_recover_leaves.
  - apply (h_fold (λ _, active)). intros rem route _. unfold retire_route.
    destruct (qcontains _ _); [apply proceeds_total; [keeps_tac|total_tac]|].
    apply proceeds_bind; [step_total|]. intros [[] rem2]; simpl; [apply proceeds_total; [keeps_tac|total_tac]|].
    apply proceeds_leaves, undo_or_recover_leaves.
Qed.

Lemma applySplit_quiet i routes : quiet (applySplit (W := W) foldCase m_statePath set_order i routes).
Proof.
  unfold applySplit. idle. eapply h_bind; [apply begin_arms|]. intros ?. apply settles_bind.
  { unfold cmd_when. destruct (v_fullTunnel _); [|by apply proceeds_total; [apply k_pure|apply total_pure]].
    go. apply h_leave_if; [|done]. intros _. apply finishTransaction_settles. }
  intros ?. apply settles_bind; [apply (h_fold (λ _, active)); intros; apply add_route_proceeds|].
  intros added. apply settles_bind; [apply retirePrevious_proceeds|]. intros removed. apply commitSplit_settles.
Qed.

Lemma clearSplit_settles : hoare idle (clearSplit (W := W) foldCase m_statePath) settled settled.
Proof.
  unfold clearSplit. idle. eapply h_bind; [apply begin_arms|]. intros ?. apply settles_bind; [step_total|].
  intros [[] rem]; cbn [fst snd negb].
  - do 2 go. destruct a4; cbn [negb]; [apply finish_committed|]. do 2 go. apply mark_and_fail_settles.
  - go. destruct a3; [apply settles_proceeds, finish_failure_leaves|apply mark_and_fail_settles].
Qed.

Lemma clear_quiet : quiet (clear_body (W := W) foldCase m_statePath).
Proof.
  unfold clear_body. idle. destruct (text_eqb _ _).
  - eapply h_bind; [apply begin_arms|]. intros ?. go.
    destruct (negb (rr_ok _)); [apply finishTransaction_settles|apply finish_committed].
  - destruct (bool_decide _); [apply quiet_keeps; keeps_tac|apply clearSplit_settles].
Qed.

Lemma apply_quiet i routes : quiet (apply_body (W := W) foldCase m_statePath set_order i routes).
Proof.
  unfold apply_body. idle. destruct (validatedManagedRoutes routes) as [bounded routesValid]. idle.
  destruct (bool_decide _); [|apply applySplit_quiet]. apply h_call, clear_quiet.
Qed.

Lemma applyAllExcept_quiet i bypass critical :
  quiet (applyAllExcept_body (W := W) foldCase m_statePath set_order i bypass critical).
Proof.
  unfold applyAllExcept_body. idle. destruct (validatedManagedRoutes bypass) as [bounded routesValid]. idle.
  destruct (validatedManagedRoutes critical) as [boundedCritical criticalValid]. idle.
  eapply h_bind; [apply begin_arms|]. intros ?. go.
  destruct (negb (rr_ok _)); [apply finishTransaction_settles|apply finish_committed].
Qed.

Lemma active_run_ok executable args : keeps active (run_ok (W := W) executable args).
Proof. unfold run_ok. keeps_tac. Qed.

Lemma active_set_binding b : keeps active (set_binding (W := W) b).
Proof. unfold set_binding. keeps_tac. Qed.
Hint Resolve active_run_ok active_set_binding : keeps.

Lemma active_restorePreviousDns executable prev i : keeps active (restorePreviousDns (W := W) executable prev i).
Proof. unfold restorePreviousDns. keeps_tac. Qed.
Hint Resolve active_restorePreviousDns : keeps.

Lemma undo_dns_leaves {A} executable prev i mark unrestored code message :
  hoare active (undo_dns (W := W) (A := A) m_statePath executable prev i mark unrestored code message)
    (λ _ _, False) settled.
Proof.
  unfold undo_dns. eapply (h_bind _ _ _ (λ _, active)); [step_total|]. intros [].
  - apply finish_failure_leaves.
  - eapply (h_bind _ _ _ (λ _, active)); [step_total|]. intros ?. apply finish_failure_leaves.
Qed.

(** [if (b) return ...;] while the intent is there. *)
Lemma proceeds_when b (m : op R ()) : hoare active m (λ _ _, False) settled → proceeds (cmd_when b m).
Proof. intros Hm. destruct b; [by apply proceeds_leaves|]. by apply h_ret. Qed.

Lemma configureDns_quiet i servers domains : quiet (configureDns_body (W := W) m_statePath i servers domains).
Proof.
  unfold configureDns_body. idle. eapply h_bind; [apply begin_arms|]. intros ?. go.
  apply settles_bind; [apply proceeds_when, finish_failure_leaves|]. intros ?. go.
  apply settles_bind; [apply proceeds_when, undo_dns_leaves|]. intros ?. go.
  apply settles_bind; [apply proceeds_when, undo_dns_leaves|]. intros ?. go.
  apply settles_bind; [apply proceeds_when, undo_dns_leaves|]. intros ?. go. unfold commitDns. go.
  apply settles_bind; [step_total|]. intros []; cbn [negb]; [apply finish_committed|].
  do 3 go. apply settles_proceeds, finish_failure_leaves.
Qed.

Lemma clearVanishedDns_settles executable i message :
  settles (clearVanishedDns (W := W) m_statePath executable i message).
Proof.
  unfold clearVanishedDns. do 3 go. destruct (_ && _); [|go; apply finishTransaction_settles].
  go. apply settles_bind; [step_total|]. intros []; cbn [negb]; [apply finish_committed|].
  go. apply settles_proceeds, finish_failure_leaves.
Qed.

Lemma commitClearDns_settles executable i : settles (commitClearDns (W := W) m_statePath executable i).
Proof.
  unfold commitClearDns. do 3 go. apply settles_bind; [apply proceeds_when, finish_failure_leaves|]. intros ?. do 2 go.
  apply settles_bind; [step_total|]. intros []; cbn [negb]; [apply finish_committed|].
  do 3 go. apply settles_proceeds, finish_failure_leaves.
Qed.

Lemma clearDns_quiet i : quiet (clearDns_body (W := W) m_statePath i).
Proof.
  unfold clearDns_body. idle. destruct (is_empty _); [apply quiet_keeps; keeps_tac|]. idle.
  eapply h_bind; [apply begin_arms|]. intros ?. go.
  destruct (negb (ok _)); [apply clearVanishedDns_settles|apply commitClearDns_settles].
Qed.

Lemma op_quiet o : quiet (op_body (W := W) foldCase m_statePath set_order o).
Proof.
  destruct o; simpl; [apply apply_quiet|apply applyAllExcept_quiet|apply clear_quiet|apply configureDns_quiet
                     |apply clearDns_quiet|unfold requireRecovery; apply quiet_keeps; keeps_tac].
Qed.
End safety.

Section intent.
Context `{QT : QtText} `{QN : QtNet} `{QD : QtData} {W : Type} `{HW : Host W}.
Context (foldCase : Z → Z).
Context (m_statePath : text).
Context (set_order : gset text → list text).

Lemma run_op_settled clean o w r w' :
  idle m_statePath clean w → run_op foldCase m_statePath set_order o w = (r, w') →
  settled (W := W) m_statePath clean r w'.
Proof. apply (h_returns _ _ _ w r w'), op_quiet. Qed.

Lemma run_ops_write_ahead l (w : World W) :
  write_ahead m_statePath w → write_ahead m_statePath (run_ops foldCase m_statePath set_order l w).
Proof.
  revert w. induction l as [|o l IH]; intros w Hw; [done|]. simpl. apply IH.
  destruct (run_op foldCase m_statePath set_order o w) as [r w'] eqn:E.
  apply (run_op_settled false) in E as [H1 _]; [done|]. by split.
Qed.

(** C5. Write-ahead intent.  Over any sequence of route, DNS, clear and recovery
    operations, whatever the host answers and whichever file operation fails,
    every command that can change the kernel or the resolver is issued while the
    transaction intent is on disk (a reconciler without a state path keeps no
    intent), so that a crash in the middle of a change is visible to the next
    start.  And an operation that starts without an intent retires its own, or
    reports that recovery is required. *)
Theorem intent_before_mutation l (w : World W) :
  write_ahead m_statePath w →
  let w1 := run_ops foldCase m_statePath set_order l w in
  write_ahead m_statePath w1
  ∧ ∀ o r w2, w_intent w1 = Absent → run_op foldCase m_statePath set_order o w1 = (r, w2) →
      needs_recovery r ∨ w_intent w2 = Absent.
Proof.
  intros Hw w1. pose proof (run_ops_write_ahead l w Hw) as Hw1. split; [done|]. intros o r w2 Hi E.
  apply (run_op_settled true) in E as [_ H2]; [by apply H2|]. by split.
Qed.
End intent.

(** ** Recovery is final *)

Section marking.
Context `{QD : QtData} {W : Type} `{HW : Host W}.
Context (m_statePath : text).

(** An invalid state and the log it was reached with. *)
Definition halted (h : list Event) (w : World W) : Prop := m_stateValid (w_state w) = false ∧ w_log w = h.

Lemma mark_halts {E} h message :
  hoare (λ w : World W, w_log w = h) (markRecoveryRequired (W := W) (E := E) m_statePath message)
    (λ _, halted h) (λ _ _, False).
Proof.
  unfold markRecoveryRequired, update, saveState. intros w Hl. unfold cmd_bind at 1, cmd_modify.
  destruct (is_empty m_statePath); [done|].
  unfold cmd_bind, io, gets, cmd_get, state, cmd_when, set_receipt, set_marker, cmd_modify, pure, cmd_ret. simpl.
  destruct (host_io SaveReceipt (w_outer w)) as [[] o1]; simpl.
  - by destruct (host_io RemoveMarker o1) as [[] o2].
  - by destruct (host_io SaveMarker o1) as [[] o2].
Qed.

End marking.


Section recovery.
Context `{QT : QtText} `{QN : QtNet} `{QD : QtData} {W : Type} `{HW : Host W}.
Context (foldCase : Z → Z).
Context (m_statePath : text).
Context (set_order : gset text → list text).

Notation R := RouteReconcileResult.
Notation op E A := (prog (World W) E A).

(** Nothing was changed since the log was [base]. *)
Context (base : list Event).
Definition untouched (w : World W) : Prop :=
  ∃ l, w_log w = base ++ l ∧ Forall (λ e, mutates (ev_call e) = false) l.

(** A result that requires recovery comes with an invalid state, unless nothing
    was changed. *)
Definition closed (r : R) (w : World W) : Prop :=
  needs_recovery r → m_stateValid (w_state w) = false ∨ untouched w.

#[local] Instance untouched_frame : Frame untouched (λ c, mutates c = false).
Proof.
  split; try done. intros w c r o Hc (l & Hl & Hq).
  exists (l ++ [{| ev_call := c; ev_result := r; ev_intent := path_exists (w_intent w) |}]).
  split; [simpl; by rewrite Hl, app_assoc|]. apply Forall_app_2; [done|]. by apply Forall_singleton.
Qed.

(** Every early return is closed. *)
Definition good {A} (m : op R A) : Prop := hoare (λ _, True) m (λ _ _, True) closed.
(** So is the returned result. *)
Definition ends (m : op R R) : Prop := hoare (λ _, True) m closed closed.

Lemma good_total {A} (m : op R A) : total m → good m.
Proof. intros Ht. apply (hoare_total _ _ _ (λ _ _, True)); [done|]. intros w _. by destruct (m w) as [[] ?]. Qed.

Lemma good_bind {A B} (m : op R A) (k : A → op R B) : good m → (∀ a, good (k a)) → good (cmd_bind m k).
Proof. intros Hm Hk. eapply h_bind; [exact Hm|]. exact Hk. Qed.

Lemma ends_bind {A} (m : op R A) (k : A → op R R) : good m → (∀ a, ends (k a)) → ends (cmd_bind m k).
Proof. intros Hm Hk. eapply h_bind; [exact Hm|]. exact Hk. Qed.

Lemma good_fold {A S} (f : S → A → op R S) s l : (∀ s x, good (f s x)) → good (cmd_fold f s l).
Proof. intros Hf. apply (h_fold (λ _ _, True)). intros s1 x _. apply Hf. Qed.

Lemma good_each {A} (f : A → op R ()) l : (∀ x, good (f x)) → good (cmd_each f l).
Proof. intros Hf. apply good_fold. intros ? x. apply Hf. Qed.

Lemma good_when b (m : op R ()) : good m → good (cmd_when b m).
Proof. intros Hm. destruct b; [done|]. apply good_total, total_pure. Qed.

Lemma good_ends (m : op R R) : ends m → good m.
Proof. intros Hm. by eapply h_conseq. Qed.

Lemma good_leave_if b (m : op R R) : ends m → good (leave_if b m).
Proof. intros Hm. apply h_leave_if; done. Qed.

Lemma good_refuse_if b code message : lit code ≠ recovery_required → good (refuse_if (W := W) b code message).
Proof. intros Hc. apply h_leave_if; [|done]. intros _ w _. by intros [_ ?]. Qed.

Lemma good_refuse {A} code message : lit code ≠ recovery_required → good (refuse (W := W) (A := A) code message).
Proof. intros Hc w _. by intros [_ ?]. Qed.

Lemma ends_failure code message : code ≠ recovery_required → ends (failure (W := W) code message).
Proof. intros Hc w _. by intros [_ ?]. Qed.

(** Once marked, the state stays invalid. *)
Lemma mark_closes {E} message X :
  hoare (λ _, True) (markRecoveryRequired (W := W) (E := E) m_statePath message)
    (λ _ w, m_stateValid (w_state w) = false) X.
Proof.
  intros w _. pose proof (mark_halts m_statePath (E := E) (w_log w) message w eq_refl) as Hm.
  destruct (markRecoveryRequired m_statePath message w) as [[b|e] w1]; [|done]. by destruct Hm.
Qed.

Lemma ends_recovery message :
  hoare (λ w : World W, m_stateValid (w_state w) = false) (failure recovery_required message) closed closed.
Proof. intros w Hw _. by left. Qed.

Lemma good_require_recovery {A} mark kept lost :
  good (require_recovery (W := W) (A := A) m_statePath mark kept lost).
Proof.
  unfold require_recovery. eapply h_bind; [apply mark_closes|]. intros b.
  eapply h_bind; [apply ends_recovery|]. intros r. by apply h_leave.
Qed.

Lemma ends_pure_success : ends (pure success).
Proof. apply h_ret. by intros w _ [? _]. Qed.

Lemma ends_refuse code message : lit code ≠ recovery_required → ends (refuse (W := W) code message).
Proof. intros Hc w _. by intros [_ ?]. Qed.

Hint Extern 1 (total (state)) => apply total_gets : total.
Hint Extern 1 (total ipExecutable) => apply total_gets : total.
Hint Extern 1 (total (update _)) => apply total_modify : total.
Hint Extern 1 (total (readRuleSnapshot _)) => apply total_call : total.
Hint Extern 1 (total (addFullTunnelRulesBatch _)) => apply total_call : total.
Hint Extern 1 (total (removeFullTunnelRulesBatch _ _)) => apply total_call : total.
Hint Extern 1 (total (removeRoutes _ _ _)) => apply total_call : total.
Hint Extern 1 (total (restoreRoutes _ _ _)) => apply total_call : total.
Hint Extern 1 (total (run _ _)) => apply total_run : total.
Hint Extern 1 (total (saveState _)) => apply total_saveState : total.
Hint Extern 1 (total (markRecoveryRequired _ _)) => apply total_markRecoveryRequired : total.
Hint Extern 1 (total (failure _ _)) => apply total_failure : total.

Lemma total_addFullTunnelRule {E} args : total (addFullTunnelRule (W := W) (E := E) args).
Proof. unfold addFullTunnelRule. total_tac. Qed.
Lemma total_removeFullTunnelRule {E} args : total (removeFullTunnelRule (W := W) (E := E) foldCase args).
Proof. unfold removeFullTunnelRule. total_tac. Qed.
Lemma total_removeFullTunnelRoute {E} args : total (removeFullTunnelRoute (W := W) (E := E) foldCase args).
Proof. unfold removeFullTunnelRoute. total_tac. Qed.
Hint Resolve total_addFullTunnelRule total_removeFullTunnelRule total_removeFullTunnelRoute : total.
Hint Extern 1 (total (addFullTunnelRoute _)) => apply total_addFullTunnelRule : total.
Lemma total_restoreStale {E} p removed : total (restoreStale (W := W) (E := E) foldCase p removed).
Proof. unfold restoreStale. total_tac. Qed.
Hint Resolve total_restoreStale : total.
Lemma total_rollback p i stale a : total (rollback (W := W) foldCase p i stale a).
Proof. unfold rollback, rollback_table, rollback_route. total_tac. Qed.
Lemma total_restoreRules {E} st bypass v4 v6 : total (restoreRules (W := W) (E := E) st bypass v4 v6).
Proof. unfold restoreRules. total_tac. Qed.
Lemma total_restoreOwnedTable {E} s : total (restoreOwnedTable (W := W) (E := E) s).
Proof. unfold restoreOwnedTable. total_tac. Qed.
Hint Resolve total_rollback total_restoreRules total_restoreOwnedTable : total.

(** [markRecoveryRequired(...); return failure("recovery_required", ...);]. *)
Lemma good_mark_leave {A} mark message :
  good (A := A) (let! _ := markRecoveryRequired m_statePath mark in
                 let! r := failure recovery_required message in leave r).
Proof.
  eapply h_bind; [apply mark_closes|]. intros b. eapply h_bind; [apply ends_recovery|]. intros r. by apply h_leave.
Qed.

Lemma ends_mark mark (message : bool → text) :
  ends (let! b := markRecoveryRequired m_statePath mark in failure recovery_required (message b)).
Proof. eapply h_bind; [apply mark_closes|]. intros b. apply ends_recovery. Qed.

Lemma ends_invalidate message :
  ends (let! _ := update (W := W) (λ s, set_mode recovery_required (set_stateValid false s)) in
        failure recovery_required message).
Proof. intros w _ _. by left. Qed.

(** Goes through a body. *)
Ltac good_step :=
  lazymatch goal with
  | |- good (cmd_bind (markRecoveryRequired _ _) _) => apply good_mark_leave
  | |- ends (cmd_bind (markRecoveryRequired _ _) _) => apply (ends_mark _ (λ _, _))
  | |- ends (cmd_bind (update (λ s, set_mode recovery_required _)) _) => apply ends_invalidate
  | |- good (cmd_bind _ _) => apply good_bind; [|intros ?]
  | |- ends (cmd_bind _ _) => apply ends_bind; [|intros ?]
  | |- good (cmd_fold _ _ _) => apply good_fold; intros ? ?
  | |- good (cmd_each _ _) => apply good_each; intros ?
  | |- good (cmd_when _ _) => apply good_when
  | |- good (refuse_if _ _ _) => apply good_refuse_if; vm_compute; congruence
  | |- good (refuse _ _) => apply good_refuse; vm_compute; congruence
  | |- good (require_recovery _ _ _ _) => apply good_require_recovery
  | |- ends (refuse _ _) => apply ends_refuse; vm_compute; congruence
  | |- ends (pure success) => apply ends_pure_success
  | |- _ (if ?b then _ else _) => destruct b
  | |- _ (match ?x with _ => _ end) => destruct x
  | |- good _ => first [solve [eauto with good] | apply good_total; solve [total_tac]]
  | |- ends _ => solve [eauto with good]
  end.
Ltac good_tac := repeat (cbv zeta beta; good_step).


Lemma good_fullTunnelPreflight i : good (fullTunnelPreflight (W := W) foldCase i).
Proof. unfold fullTunnelPreflight. good_tac. Qed.

Lemma good_installTable p i bypassRoutes : good (installTable (W := W) foldCase m_statePath p i bypassRoutes).
Proof. unfold installTable, removeStale, install_route, undo_table, remove_added. good_tac. Qed.

Lemma good_rollback_or {A} p i stale a mark kept lost code message :
  code ≠ recovery_required →
  good (rollback_or (W := W) (A := A) foldCase m_statePath p i stale a mark kept lost code message).
Proof.
  intros Hc. unfold rollback_or. apply good_bind; [apply good_total; total_tac|]. intros [[] d]; simpl;
    [|apply good_require_recovery]. intros w _. by intros [_ ?].
Qed.

Lemma good_batchFailed {A} p i stale a e : good (batchFailed (W := W) (A := A) foldCase m_statePath p i stale a e).
Proof. unfold batchFailed. by apply good_rollback_or. Qed.
Hint Resolve good_fullTunnelPreflight good_installTable good_batchFailed : good.

Lemma good_installCritical p i critical stale a adds :
  good (installCritical (W := W) foldCase m_statePath p i critical stale a adds).
Proof. unfold installCritical. good_tac. by apply good_rollback_or. Qed.

Lemma good_installFullRule p i stale a v6 : good (installFullRule (W := W) foldCase m_statePath p i stale a v6).
Proof. unfold installFullRule. good_tac; by apply good_rollback_or. Qed.

Lemma good_retireSplitRoutes p i stale a : good (retireSplitRoutes (W := W) foldCase m_statePath p i stale a).
Proof. unfold retireSplitRoutes. good_tac. Qed.

Lemma good_verifyCommitted p i bypassRoutes stale removed a :
  good (verifyCommitted (W := W) foldCase m_statePath set_order p i bypassRoutes stale removed a).
Proof. unfold verifyCommitted. good_tac. Qed.

Lemma ends_commitFullTunnel p i bypassRoutes critical stale removed a :
  ends (commitFullTunnel (W := W) foldCase m_statePath p i bypassRoutes critical stale removed a).
Proof. unfold commitFullTunnel. good_tac. Qed.
Hint Resolve good_installCritical good_installFullRule good_retireSplitRoutes good_verifyCommitted
  ends_commitFullTunnel : good.

Lemma ends_applyFullTunnel_body i bypassRoutes critical :
  ends (applyFullTunnel_body (W := W) foldCase m_statePath set_order i bypassRoutes critical).
Proof. unfold applyFullTunnel_body, startDeadline. good_tac. Qed.

Lemma ends_retireReceipt message : ends (retireReceipt (W := W) m_statePath message).
Proof. unfold retireReceipt. good_tac. Qed.

Lemma good_rejectLine protocol expected line : good (rejectLine (W := W) protocol expected line).
Proof. unfold rejectLine. good_tac. Qed.

Lemma good_restoreRules_or {A} st bypass v4 v6 mark unrestored code message :
  code ≠ recovery_required →
  good (restoreRules_or (W := W) (A := A) m_statePath st bypass v4 v6 mark unrestored code message).
Proof.
  intros Hc. unfold restoreRules_or. apply good_bind; [apply good_total; total_tac|]. intros [];
    [|apply good_mark_leave]. intros w _. by intros [_ ?].
Qed.
Hint Resolve ends_retireReceipt good_rejectLine : good.

Lemma good_removeOwnedTunnel st s : good (removeOwnedTunnel (W := W) foldCase m_statePath st s).
Proof. unfold removeOwnedTunnel, remove_table_route. good_tac; by apply good_restoreRules_or. Qed.
Hint Resolve good_removeOwnedTunnel : good.

Lemma ends_clearFullTunnel_body : ends (clearFullTunnel_body (W := W) foldCase m_statePath).
Proof. unfold clearFullTunnel_body, check_table_line. good_tac. Qed.

(** ** The operations *)

Lemma clearIntent_frame {E} P X :
  (∀ w p o, P w → P (MkWorld (w_state w) (w_receipt w) p (w_marker w) (w_log w) o)) →
  hoare P (clearTransactionIntent (W := W) (E := E) m_statePath) (λ _, P) X.
Proof.
  intros HP w Hw. unfold clearTransactionIntent. destruct (is_empty m_statePath); [done|].
  unfold cmd_bind, gets, cmd_get. destruct (w_intent w) eqn:Ei; [done|..|done].
  unfold io. destruct (host_io RemoveIntent (w_outer w)) as [[] o]; simpl; by apply HP.
Qed.

Lemma finish_closed r : hoare (closed r) (finishTransaction (W := W) m_statePath r) closed closed.
Proof.
  unfold finishTransaction. destruct (_ && _); [by apply h_ret|].
  eapply h_bind; [by apply (clearIntent_frame (closed r))|]. intros []; [by apply h_ret|].
  eapply h_pre; [|apply (ends_mark _ (λ b, if b then _ else _))]. done.
Qed.

Lemma finish_failure_closed {A} code message Q :
  hoare (λ w, lit code = recovery_required → m_stateValid (w_state w) = false)
    (finish_failure (W := W) (A := A) m_statePath code message) Q closed.
Proof.
  unfold finish_failure. eapply (h_bind _ _ _ closed).
  - intros w Hw. intros [_ Hc]. left. simpl in *. auto.
  - intros r. eapply h_bind; [apply finish_closed|]. intros r2. by apply h_leave.
Qed.

Lemma good_finish_failure {A} code message Q :
  lit code ≠ recovery_required →
  hoare (λ _, True) (finish_failure (W := W) (A := A) m_statePath code message) Q closed.
Proof. intros Hc. eapply h_pre; [|apply finish_failure_closed]. by intros w _ ?. Qed.

Lemma good_mark_finish {A} mark message Q :
  hoare (λ _, True) (let! _ := markRecoveryRequired (W := W) m_statePath mark in
                     finish_failure (A := A) m_statePath "recovery_required" message) Q closed.
Proof.
  eapply h_bind; [apply mark_closes|]. intros b. eapply h_pre; [|apply finish_failure_closed]. by intros w Hw _.
Qed.

(** A call whose result is passed on. *)
Lemma ends_inner (body : op R R) (k : R → op R R) :
  ends body → (∀ r, hoare (closed r) (k r) closed closed) → ends (cmd_bind (call body) k).
Proof. intros Hb Hk. eapply h_bind; [by apply h_call|]. exact Hk. Qed.

Lemma ends_finish_committed (r : R) mark kept lost :
  rr_ok r = true → ends (let! _ := finish_or_mark (W := W) m_statePath mark kept lost in pure r).
Proof.
  intros Hr. unfold finish_or_mark. apply ends_bind.
  - apply good_bind; [eapply h_conseq; [by apply (clearIntent_frame (λ _, True) closed)|done..]|].
    intros b. apply good_when, good_require_recovery.
  - intros ?. apply h_ret. intros w _ [Hf _]. congruence.
Qed.

Lemma finish_result (r : R) mark kept lost :
  hoare (closed r)
    (if negb (rr_ok r) then finishTransaction (W := W) m_statePath r
     else let! _ := finish_or_mark m_statePath mark kept lost in pure r) closed closed.
Proof.
  destruct (rr_ok r) eqn:E; simpl; [|apply finish_closed].
  eapply h_pre; [|by apply ends_finish_committed]. done.
Qed.

(** A step before anything is changed. *)
Lemma untouched_bind {A B} (m : op R A) (k : A → op R B) Q :
  keeps untouched m → (∀ a, hoare untouched (k a) Q closed) → hoare untouched (cmd_bind m k) Q closed.
Proof.
  intros Hm Hk. eapply h_bind; [|exact Hk]. eapply h_conseq; [exact Hm|done|done|]. intros e w Hw _. by right.
Qed.

Lemma untouched_ends (m : op R R) : keeps untouched m → hoare untouched m closed closed.
Proof. intros Hm. eapply h_conseq; [exact Hm|done| |]; intros e w Hw _; by right. Qed.

Lemma begun (m : op R R) : ends m → hoare untouched m closed closed.
Proof. intros Hm. eapply h_pre; [|exact Hm]. done. Qed.

Hint Resolve k_update k_io k_set_receipt k_set_marker k_runCaptured k_state k_ipExecutable k_resolvectlExecutable
  k_startDeadline k_acquireRouteLock k_saveState k_failure k_markRecoveryRequired k_readRuleSnapshot
  k_refuse_if k_refuse k_require_recovery k_table_refusal untouched_frame : keeps.

Lemma untouched_set_intent {E} p : keeps untouched (set_intent (W := W) (E := E) p).
Proof. by intros w Hw. Qed.
Hint Resolve untouched_set_intent : keeps.

Lemma untouched_begin o i routes bypass servers domains critical message :
  keeps untouched (begin_or_refuse (W := W) m_statePath o i routes bypass servers domains critical message).
Proof. unfold begin_or_refuse, beginMutation, saveTransactionIntent. keeps_tac. Qed.

Lemma untouched_lock : keeps untouched (lock_or_refuse (W := W) m_statePath).
Proof. unfold lock_or_refuse. keeps_tac. Qed.

Lemma untouched_check i previous route line : keeps untouched (check_main_line (W := W) i previous route line).
Proof. unfold check_main_line. keeps_tac. Qed.
Hint Resolve untouched_begin untouched_lock untouched_check : keeps.

Ltac before := repeat (cbv zeta beta; apply untouched_bind; [solve [keeps_tac]|intros ?]).

Lemma good_undo_or_recover {A} v i added removed mark unrestored code message :
  lit code ≠ recovery_required →
  good (undo_or_recover (W := W) (A := A) foldCase m_statePath set_order v i added removed mark unrestored code message).
Proof.
  intros Hc. unfold undo_or_recover. apply good_bind; [apply good_total, total_restorePrevious|]. intros [].
  - by apply good_finish_failure.
  - apply good_mark_finish.
Qed.

Lemma ends_mark_and_fail mark message : ends (mark_and_fail (W := W) m_statePath mark message).
Proof. unfold mark_and_fail. apply (ends_mark _ (λ _, _)). Qed.

Lemma ends_commitSplit v i routes added removed :
  ends (commitSplit (W := W) foldCase m_statePath set_order v i routes added removed).
Proof.
  unfold commitSplit. apply ends_bind; [good_tac|]. intros ?. apply ends_bind; [good_tac|]. intros []; cbn [negb].
  - eapply h_bind; [by apply (clearIntent_frame (λ _, True))|]. intros []; cbn [negb].
    + eapply h_pre; [|apply finish_closed]. by intros w _ [? _].
    + apply ends_bind; [apply good_total, total_restorePrevious|]. intros ?. apply ends_mark_and_fail.
  - apply ends_bind; [apply good_total, total_restorePrevious|]. intros ?. apply ends_bind; [good_tac|].
    intros ?. apply ends_mark_and_fail.
Qed.

Lemma applySplit_closed i routes :
  hoare untouched (applySplit (W := W) foldCase m_statePath set_order i routes) closed closed.
Proof.
  unfold applySplit. before. apply begun. apply ends_bind.
  { apply good_when. eapply h_bind; [apply h_call, ends_clearFullTunnel_body|]. intros r.
    apply h_leave_if; [|done]. intros _. apply finish_closed. }
  intros ?. apply ends_bind.
  { apply good_fold. intros added route. unfold add_route. good_tac. by apply good_undo_or_recover. }
  intros added. apply ends_bind; [|intros removed; apply ends_commitSplit].
  unfold retirePrevious, retire_route. good_tac; by apply good_undo_or_recover.
Qed.

Lemma ends_clearSplit : hoare untouched (clearSplit (W := W) foldCase m_statePath) closed closed.
Proof.
  unfold clearSplit. before. apply begun. apply ends_bind; [good_tac|]. intros [[] rem]; cbn [fst snd negb].
  - apply ends_bind; [good_tac|]. intros ?. apply ends_bind; [good_tac|]. intros []; cbn [negb].
    + by apply ends_finish_committed.
    + apply ends_bind; [good_tac|]. intros ?. apply ends_bind; [good_tac|]. intros ?. apply ends_mark_and_fail.
  - apply ends_bind; [good_tac|]. intros []; [by apply good_finish_failure|apply ends_mark_and_fail].
Qed.

Lemma clear_closed : hoare untouched (clear_body (W := W) foldCase m_statePath) closed closed.
Proof.
  unfold clear_body. before. destruct (text_eqb _ _).
  - before. apply begun. apply ends_inner; [apply ends_clearFullTunnel_body|]. intros r. apply finish_result.
  - destruct (bool_decide _); [apply untouched_ends; keeps_tac|apply ends_clearSplit].
Qed.

Hint Extern 1 (total (runCaptured _ _)) => apply total_runCaptured : total.
Hint Extern 1 (total (run_ok _ _)) => apply total_run_ok : total.
Hint Extern 1 (total (set_binding _)) => apply total_set_binding : total.
Hint Extern 1 (total (restorePreviousDns _ _ _)) => apply total_restorePreviousDns : total.

Lemma good_undo_dns {A} executable prev i mark unrestored code message :
  lit code ≠ recovery_required →
  good (undo_dns (W := W) (A := A) m_statePath executable prev i mark unrestored code message).
Proof.
  intros Hc. unfold undo_dns. apply good_bind; [good_tac|]. intros [].
  - by apply good_finish_failure.
  - apply good_mark_finish.
Qed.

Lemma clearVanishedDns_ends executable i message :
  ends (clearVanishedDns (W := W) m_statePath executable i message).
Proof.
  unfold clearVanishedDns. do 3 (apply ends_bind; [good_tac|]; intros ?). destruct (_ && _).
  - apply ends_bind; [good_tac|]. intros ?. apply ends_bind; [good_tac|]. intros []; cbn [negb];
      [by apply ends_finish_committed|].
    eapply (h_bind _ _ _ (λ _ w, m_stateValid (w_state w) = false)); [by intros w _|]. intros ?.
    eapply h_pre; [|apply finish_failure_closed]. by intros w Hw _.
  - eapply (h_bind _ _ _ closed); [by intros w _ [_ ?]|]. intros r. apply finish_closed.
Qed.

Lemma commitClearDns_ends executable i : ends (commitClearDns (W := W) m_statePath executable i).
Proof.
  unfold commitClearDns. do 3 (apply ends_bind; [good_tac|]; intros ?).
  apply ends_bind; [apply good_when; by apply good_finish_failure|]. intros ?.
  do 2 (apply ends_bind; [good_tac|]; intros ?).
  apply ends_bind; [good_tac|]. intros []; cbn [negb]; [by apply ends_finish_committed|].
  do 2 (apply ends_bind; [good_tac|]; intros ?). apply good_mark_finish.
Qed.

Lemma op_closed o : hoare untouched (op_body (W := W) foldCase m_statePath set_order o) closed closed.
Proof.
  destruct o as [i routes|i bypass critical| |i servers domains|i|message]; simpl.
  - unfold apply_body. before. destruct (validatedManagedRoutes routes) as [bounded routesValid]. before.
    destruct (bool_decide _); [|apply applySplit_closed]. apply h_call, clear_closed.
  - unfold applyAllExcept_body. before. destruct (validatedManagedRoutes bypass) as [bounded routesValid]. before.
    destruct (validatedManagedRoutes critical) as [boundedCritical criticalValid]. before. apply begun.
    apply ends_inner; [apply ends_applyFullTunnel_body|]. intros r. apply finish_result.
  - apply clear_closed.
  - unfold configureDns_body. before. apply begun. apply ends_bind; [good_tac|]. intros ?.
    apply ends_bind; [apply good_when; by apply good_finish_failure|]. intros ?.
    apply ends_bind; [good_tac|]. intros ?. apply ends_bind; [apply good_when; by apply good_undo_dns|]. intros ?.
    apply ends_bind; [good_tac|]. intros ?. apply ends_bind; [apply good_when; by apply good_undo_dns|]. intros ?.
    apply ends_bind; [good_tac|]. intros ?. apply ends_bind; [apply good_when; by apply good_undo_dns|]. intros ?.
    apply ends_bind; [good_tac|]. intros ?. unfold commitDns. apply ends_bind; [good_tac|]. intros ?.
    apply ends_bind; [good_tac|]. intros []; cbn [negb]; [by apply ends_finish_committed|].
    do 2 (apply ends_bind; [good_tac|]; intros ?). apply good_mark_finish.
  - unfold clearDns_body. before. destruct (is_empty _); [apply untouched_ends; keeps_tac|]. before. apply begun.
    apply ends_bind; [good_tac|]. intros r. destruct (negb (ok r)); [apply clearVanishedDns_ends|].
    apply commitClearDns_ends.
  - unfold requireRecovery. apply begun. apply ends_bind; [good_tac|]. intros ?. apply h_ret. by intros w _ [_ ?].
Qed.
End recovery.

Section fail_closed.
Context `{QT : QtText} `{QN : QtNet} `{QD : QtData} {W : Type} `{HW : Host W}.
Context (foldCase : Z → Z).
Context (m_statePath : text).
Context (set_order : gset text → list text).

Lemma halted_refuses h o :
  hoare (halted h) (op_body foldCase m_statePath set_order o)
    (λ r w, halted h w ∧ ((∀ m, o ≠ OpRequireRecovery m) → needs_recovery r))
    (λ r w, halted h w ∧ ((∀ m, o ≠ OpRequireRecovery m) → needs_recovery r)).
Proof.
  destruct o as [i routes|i bypass critical| |i servers domains|i|message]; cbn [op_body]; intros w [Hv Hl].
  - unfold apply_body, update, startDeadline, state, refuse_if, cmd_bind, cmd_modify, gets, cmd_get. simpl.
    rewrite Hv, orb_true_r. by split.
  - unfold applyAllExcept_body, update, startDeadline, state, refuse_if, cmd_bind, cmd_modify, gets, cmd_get. simpl.
    rewrite Hv, orb_true_r. by split.
  - unfold clear_body, update, startDeadline, state, refuse_if, cmd_bind, cmd_modify, gets, cmd_get. simpl.
    destruct (text_eqb _ _); simpl; rewrite Hv, orb_true_r; by split.
  - unfold configureDns_body, state, refuse_if, cmd_bind, gets, cmd_get. simpl. rewrite Hv, orb_true_r. by split.
  - unfold clearDns_body, state, refuse_if, cmd_bind, gets, cmd_get. simpl. rewrite Hv, orb_true_r. by split.
  - unfold requireRecovery, cmd_bind. pose proof (mark_halts m_statePath (E := RouteReconcileResult) h message w Hl) as Hm.
    destruct (markRecoveryRequired m_statePath message w) as [[b|e] w1]; [|by destruct Hm].
    split; [done|]. intros Hne. by destruct (Hne message).
Qed.

Lemma run_halted l w :
  m_stateValid (w_state w) = false →
  m_stateValid (w_state (run_ops foldCase m_statePath set_order l w)) = false
  ∧ w_log (run_ops foldCase m_statePath set_order l w) = w_log w.
Proof.
  revert w. induction l as [|o l IH]; intros w Hw; [done|]. cbn [run_ops].
  destruct (run_op foldCase m_statePath set_order o w) as [r w1] eqn:E.
  pose proof (h_returns _ _ _ w r w1 (halted_refuses (w_log w) o) (conj Hw eq_refl) E) as [[H1 H2] _].
  cbn [snd]. rewrite <- H2. by apply IH.
Qed.

(** C12. Fail closed.  When an operation reports that recovery is required after
    it has issued any command that can change the host, the object is invalid
    from then on: no later operation runs any command at all, and every one of
    them (other than asking for recovery) reports that recovery is required. *)
Theorem recovery_fails_closed o w r w1 l e :
  run_op foldCase m_statePath set_order o w = (r, w1) → needs_recovery r →
  w_log w1 = w_log w ++ l → e ∈ l → mutates (ev_call e) = true →
  ∀ ops, let w2 := run_ops foldCase m_statePath set_order ops w1 in
    w_log w2 = w_log w1
    ∧ ∀ o' r' w3, (∀ m, o' ≠ OpRequireRecovery m) →
        run_op foldCase m_statePath set_order o' w2 = (r', w3) → needs_recovery r' ∧ w_log w3 = w_log w1.
Proof.
  intros E Hr Hl He Hm ops w2.
  assert (m_stateValid (w_state w1) = false) as Hv.
  { assert (untouched (w_log w) w) as Hu by (exists []; by rewrite app_nil_r).
    destruct (h_returns _ _ _ w r w1 (op_closed foldCase m_statePath set_order (w_log w) o) Hu E Hr)
      as [Hv|(l' & Hl' & Hq)]; [done|].
    rewrite Hl in Hl'. apply app_inv_head in Hl' as ->. rewrite Forall_forall in Hq.
    specialize (Hq e He). simpl in Hq. congruence. }
  destruct (run_halted ops w1 Hv) as [Hv2 Hl2]. split; [done|]. intros o' r' w3 Ho E3.
  pose proof (h_returns _ _ _ w2 r' w3 (halted_refuses (w_log w2) o') (conj Hv2 eq_refl) E3) as [[_ H2] H3].
  split; [auto|]. by rewrite H2.
Qed.
End fail_closed.
