(* ===== verification/RouteOwnership.v ===== *)
(** * The route reconciler: what it may delete

    A route of the main table is deleted only directly after a reading that
    shows it as the daemon's. *)

From stdpp Require Import gmap.
From S2P Require Import Prelude Text Json QtInterface QtModel Command RoutePolicy RouteGrammar RouteState RouteRules.
From S2P Require Import FullTunnel RouteTransactions RouteFrame RouteSafety.
#[local] Open Scope Z_scope.
#[local] Open Scope amnezia_scope.

(** ** Readings *)

Section readings.
Context `{QT : QtText} `{QN : QtNet} {W : Type} `{HW : Host W}.
Context (foldCase : Z → Z).

(** The last event is a reading of the main table whose lines these are. *)
Definition main_read (lines : list text) (h : list Event) : Prop :=
  ∃ pre e p, h = pre ++ [e] ∧ ev_call e = CCaptured p mainRoutesQuery ∧ ok (ev_result e) = true
    ∧ lines = output_lines (output (ev_result e)).

Lemma snapshot_main {E} P allowed X :
  Frame (W := W) P allowed →
  hoare P (readRuleSnapshot (E := E) foldCase)
    (λ s w, P w ∧ (valid s = true → main_read (mainRouteLines s) (w_log w))) X.
Proof.
  intros HF w Hw. pose proof (snapshot_reading foldCase P allowed X (w_log w) HF w (conj Hw eq_refl)) as Hr.
  destruct (readRuleSnapshot foldCase w) as [[s|e] w']; [|done]. destruct Hr as [HP Hr]. split; [done|]. intros Hv.
  destruct (Hr Hv) as (h & -> & r4 & r6 & t4 & t6 & m & -> & _ & _ & _ & _ & [p Hm] & _ & _ & Ho & _ & _ & _ & El).
  exists (w_log w ++ [r4; r6; t4; t6]), m, p. by rewrite <- app_assoc.
Qed.
End readings.

(** ** Deleted routes are owned *)

Section ownership.
Context `{QT : QtText} `{QN : QtNet} `{QD : QtData} {W : Type} `{HW : Host W}.
Context (foldCase : Z → Z).
Context (m_statePath : text).
Context (set_order : gset text → list text).

(** A main-table line that is the daemon's route to the destination of [route]
    on an interface. *)
Definition managed_on (route interfaceName line : text) : Prop :=
  parseManagedMainRouteLine line = Some (canonicalRuleDestination route, interfaceName).

(** The last event read the main table, and it shows the route on this
    interface and on no other. *)
Definition just_owned (h : list Event) (route interfaceName : text) : Prop :=
  ∃ pre e p, h = pre ++ [e] ∧ ev_call e = CCaptured p mainRoutesQuery ∧ ok (ev_result e) = true
    ∧ (∃ line, line ∈ output_lines (output (ev_result e)) ∧ managed_on route interfaceName line)
    ∧ ∀ line j, line ∈ output_lines (output (ev_result e)) → managed_on route j line → j = interfaceName.

Definition deletion (c : Call) (route interfaceName : text) : Prop :=
  ∃ p, c = CRun p (splitRouteArguments (lit "del") route interfaceName).

Definition deletes_owned (w : World W) : Prop :=
  ∀ pre e post route i, w_log w = pre ++ e :: post → deletion (ev_call e) route i → just_owned pre route i.

Definition no_deletion (c : Call) : Prop := ∀ route i, ¬ deletion c route i.

#[local] Instance owned_frame : Frame deletes_owned no_deletion.
Proof.
  split; try done.
  - intros w c r o Hc Hw pre e post route i E Hd. cbn [with_event w_log] in E.
    destruct post as [|x post _] using rev_ind.
    + apply app_inj_tail in E as [<- <-]. by destruct (Hc route i).
    + rewrite app_comm_cons, app_assoc in E. apply app_inj_tail in E as [E _]. by eapply Hw.
  - by intros p a route i [q Hq].
Qed.

#[local] Instance owned_harmless : Harmless no_deletion.
Proof.
  split; intros; intros route0 i0 [q Hq]; try done; injection Hq as _ Hq; revert Hq;
    unfold fullRuleArguments, fullRouteArguments, fullRouteDeletion, bypassRuleArguments, splitRouteArguments;
    repeat match goal with |- context [if ?b then _ else _] => destruct b end;
    intros Hq; vm_compute in Hq; congruence.
Qed.

Lemma exact_managed s route i :
  exactRoute s i route = true → ∃ line, line ∈ mainRouteLines s ∧ managed_on route i line.
Proof.
  unfold exactRoute. rewrite existsb_true_iff. intros (line & Hin & Hm). exists line. split; [done|].
  apply andb_true_iff in Hm as [_ Hm]. unfold managedMainRouteLineMatches in Hm. unfold managed_on.
  destruct (parseManagedMainRouteLine line) as [[prefix iface]|]; [|done].
  apply andb_true_iff in Hm as [H1 H2]. apply text_eqb_eq in H1, H2. by subst.
Qed.

Lemma unambiguous_managed s route i line j :
  ambiguousRoute s i route = false → line ∈ mainRouteLines s → managed_on route j line → j = i.
Proof.
  unfold ambiguousRoute, managed_on. rewrite existsb_false_iff. intros Ha Hin Hm. specialize (Ha line Hin).
  unfold sameManagedRoute, managedMainRouteLineMatches in Ha. rewrite Hm, text_eqb_refl in Ha. simpl in Ha.
  apply negb_false_iff, text_eqb_eq in Ha. done.
Qed.

Lemma owned_remove_route executable i removed route :
  keeps deletes_owned (remove_route (W := W) foldCase executable i removed route).
Proof.
  unfold remove_route. eapply h_bind; [apply (snapshot_main foldCase deletes_owned no_deletion), owned_frame|]. intros s.
  eapply (h_bind _ _ _ (λ _ w, deletes_owned w ∧ main_read (mainRouteLines s) (w_log w))).
  { apply h_leave_if; [intros _; apply h_ret; by intros w [? ?]|]. intros w Hv [H1 H2]. split; [done|].
    apply H2. by apply negb_false_iff. }
  intros ?. eapply (h_bind _ _ _ (λ _ w, ambiguousRoute s i route = false
                                         ∧ deletes_owned w ∧ main_read (mainRouteLines s) (w_log w))).
  { apply h_leave_if; [intros _; apply h_ret; by intros w [? ?]|]. by intros w Hv [H1 H2]. }
  intros ?. apply h_fact. intros Ha. destruct (exactRoute s i route) eqn:He; cbn [negb];
    [|apply h_ret; by intros w [? ?]].
  apply exact_managed in He. eapply (h_bind _ _ _ (λ _, deletes_owned)).
  - intros w [Hw (pre & e & p & Hl & Hc & Hok & Hlines)]. unfold run, logged.
    destruct (host_run _ _ _) as [r o]. intros pre' e' post route' i' E [q Hd]. cbn [w_log] in E.
    destruct post as [|x post _] using rev_ind.
    + apply app_inj_tail in E as [<- <-]. cbn [ev_call] in Hd.
      assert (route' = route ∧ i' = i) as [-> ->] by (unfold splitRouteArguments in Hd; split; congruence).
      exists pre, e, p. rewrite <- Hlines. repeat (split; [done|]). intros line j. by apply unambiguous_managed.
    + rewrite app_comm_cons, app_assoc in E. apply app_inj_tail in E as [E _]. eapply Hw; [done|]. by exists q.
  - intros r. change (keeps deletes_owned (let! _ := leave_if (negb (ok r)) (pure (false, removed)) in
                                           pure (W := World W) (removed ++ [route]))). keeps_tac.
Qed.

Hint Resolve k_update k_io k_set_receipt k_set_marker k_runCaptured k_state k_ipExecutable k_resolvectlExecutable
  k_startDeadline k_acquireRouteLock k_saveState k_failure k_markRecoveryRequired k_readRuleSnapshot
  k_refuse_if k_refuse k_require_recovery k_table_refusal owned_frame : keeps.

Lemma owned_set_intent {E} p : keeps deletes_owned (set_intent (W := W) (E := E) p).
Proof. by intros w Hw. Qed.
Hint Resolve owned_set_intent : keeps.

Lemma owned_run {E} p args :
  head args ≠ Some (lit "route") → keeps deletes_owned (run (W := W) (E := E) p args).
Proof.
  intros Hh. apply (k_run _ no_deletion). intros route i [q Hq]. injection Hq as _ ->. by apply Hh.
Qed.

Lemma owned_replace {E} p route i :
  keeps deletes_owned (run (W := W) (E := E) p (splitRouteArguments (lit "replace") route i)).
Proof. apply (k_run _ no_deletion), ha_replace. Qed.

Lemma owned_removeRoutes {E} i routes : keeps deletes_owned (removeRoutes (W := W) (E := E) foldCase i routes).
Proof. apply k_removeRoutes, owned_remove_route. Qed.

Lemma owned_restoreRoutes {E} i routes : keeps deletes_owned (restoreRoutes (W := W) (E := E) foldCase i routes).
Proof. apply (k_restoreRoutes foldCase _ no_deletion). Qed.

Lemma owned_full_rule p priority v6 : no_deletion (CRun p (fullRuleArguments (lit "add") priority v6)).
Proof. intros route i [q Hq]. injection Hq as _ Hq. destruct v6; vm_compute in Hq; congruence. Qed.

Lemma owned_applyFullTunnel {E} i bypass critical :
  keeps deletes_owned (applyFullTunnel (W := W) (E := E) foldCase m_statePath set_order i bypass critical).
Proof. apply (k_applyFullTunnel _ _ _ no_deletion); [apply owned_remove_route|apply owned_full_rule]. Qed.

Lemma owned_clearFullTunnel {E} : keeps deletes_owned (clearFullTunnel (W := W) (E := E) foldCase m_statePath).
Proof. apply (k_clearFullTunnel _ _ _ no_deletion), owned_full_rule. Qed.

Lemma owned_restorePrevious v i added removed :
  keeps deletes_owned (restorePrevious (W := W) foldCase m_statePath set_order v i added removed).
Proof. apply (k_restorePrevious _ _ _ no_deletion); [apply owned_remove_route|apply owned_full_rule]. Qed.
Hint Resolve owned_replace owned_removeRoutes owned_restoreRoutes owned_applyFullTunnel owned_clearFullTunnel
  owned_restorePrevious : keeps.

Lemma owned_finishTransaction {E} r : keeps deletes_owned (finishTransaction (W := W) (E := E) m_statePath r).
Proof. unfold finishTransaction, clearTransactionIntent. keeps_tac. Qed.

Lemma owned_begin o i routes bypass servers domains critical message :
  keeps deletes_owned (begin_or_refuse (W := W) m_statePath o i routes bypass servers domains critical message).
Proof. unfold begin_or_refuse, beginMutation, saveTransactionIntent. keeps_tac. Qed.

Lemma owned_finish_or_mark mark kept lost : keeps deletes_owned (finish_or_mark (W := W) m_statePath mark kept lost).
Proof. unfold finish_or_mark, finishMutation, clearTransactionIntent. keeps_tac. Qed.
Hint Resolve owned_finishTransaction owned_begin owned_finish_or_mark : keeps.

Lemma owned_finish_failure {A} code message :
  keeps deletes_owned (finish_failure (W := W) (A := A) m_statePath code message).
Proof. unfold finish_failure. keeps_tac. Qed.
Hint Resolve owned_finish_failure : keeps.

Lemma owned_undo {A} v i added removed mark unrestored code message :
  keeps deletes_owned
    (undo_or_recover (W := W) (A := A) foldCase m_statePath set_order v i added removed mark unrestored code message).
Proof. unfold undo_or_recover. keeps_tac. Qed.

Lemma owned_run_ok p args : head args ≠ Some (lit "route") → keeps deletes_owned (run_ok (W := W) p args).
Proof. intros Hh. unfold run_ok. apply k_bind; [by apply owned_run|]. intros r. keeps_tac. Qed.

Hint Extern 2 (head _ ≠ Some _) => vm_compute; congruence : keeps.
Hint Resolve owned_undo owned_run owned_run_ok : keeps.

Lemma owned_restorePreviousDns executable prev i :
  keeps deletes_owned (restorePreviousDns (W := W) executable prev i).
Proof. unfold restorePreviousDns. keeps_tac. Qed.
Hint Resolve owned_restorePreviousDns : keeps.

Lemma owned_clear : keeps deletes_owned (clear_body (W := W) foldCase m_statePath).
Proof. unfold clear_body, clearSplit, lock_or_refuse, mark_and_fail. keeps_tac. Qed.
Hint Resolve owned_clear : keeps.

Lemma owned_op o : keeps deletes_owned (op_body (W := W) foldCase m_statePath set_order o).
Proof.
  destruct o; cbn [op_body].
  - unfold apply_body, applySplit, clear, check_main_line, add_route, retirePrevious, retire_route, commitSplit,
      finishMutation, clearTransactionIntent, mark_and_fail, lock_or_refuse. keeps_tac.
  - unfold applyAllExcept_body, lock_or_refuse. keeps_tac.
  - apply owned_clear.
  - unfold configureDns_body, commitDns, undo_dns, set_binding, lock_or_refuse. keeps_tac.
  - unfold clearDns_body, clearVanishedDns, commitClearDns, set_binding, lock_or_refuse. keeps_tac.
  - unfold requireRecovery. keeps_tac.
Qed.

Lemma run_ops_owned l w :
  deletes_owned w → deletes_owned (run_ops foldCase m_statePath set_order l w).
Proof.
  revert w. induction l as [|o l IH]; intros w Hw; [done|]. cbn [run_ops]. apply IH.
  exact (keeps_returns deletes_owned _ w (owned_op o) Hw).
Qed.

(** C7. Foreign routes are never deleted.  Over any sequence of operations, each
    time the reconciler deletes a route of the main table, the command directly
    before it is a successful reading of that table which shows this route on
    this interface with the daemon's own protocol and metric, and no other
    daemon route to the same destination. *)
Theorem deleted_routes_are_owned l w pre e post route i :
  w_log w = [] → w_log (run_ops foldCase m_statePath set_order l w) = pre ++ e :: post →
  deletion (ev_call e) route i → just_owned pre route i.
Proof.
  intros Hw E Hd. eapply (run_ops_owned l w); [|exact E|exact Hd]. intros pre' e' post' route' i' E'.
  rewrite Hw in E'. by destruct pre'.
Qed.
End ownership.
