(* ===== verification/RouteTunnel.v ===== *)
(** * The route reconciler: what a full tunnel guarantees

    The full-tunnel rule is installed only after the critical bypass rules were
    read back from the kernel, and a full tunnel that is reported as installed
    was read back in full. *)

From stdpp Require Import gmap.
From S2P Require Import Prelude Text Json QtInterface QtModel Command RoutePolicy RouteGrammar RouteState RouteRules.
From S2P Require Import FullTunnel RouteTransactions RouteFrame RouteSafety RouteOwnership.
#[local] Open Scope Z_scope.
#[local] Open Scope amnezia_scope.

(** ** Rules that were read *)

Section rules_read.
Context `{QT : QtText} `{QN : QtNet} {W : Type} `{HW : Host W}.
Context (foldCase : Z → Z).

(** A reading of the IPv4 rules with these lines among the events. *)
Definition rules_read (lines : list text) (h : list Event) : Prop :=
  ∃ e, e ∈ h ∧ queried e (rulesQuery false) ∧ ok (ev_result e) = true
    ∧ ∀ line, line ∈ lines → line ∈ output_lines (output (ev_result e)).

Lemma rules_read_app lines h h' : rules_read lines h → rules_read lines (h ++ h').
Proof. intros (e & H1 & H2). exists e. split; [|done]. apply elem_of_app. by left. Qed.

End rules_read.

(** ** Critical rules come first *)

Section ordering.
Context `{QT : QtText} `{QN : QtNet} `{QD : QtData} {W : Type} `{HW : Host W}.
Context (foldCase : Z → Z).
Context (m_statePath : text).
Context (set_order : gset text → list text).
Context (base : list Event) (critical : list text).

(** A reading shows a bypass rule for every critical route, at one priority. *)
Definition critical_shown (h : list Event) : Prop :=
  critical = []
  ∨ ∃ lines priority, rules_read lines h
      ∧ ∀ route, route ∈ critical → ∃ line, line ∈ lines ∧ parseManagedRuleLine line = Some (priority, Bypass, route).

(** The installation of a full-tunnel rule. *)
Definition full_add (c : Call) : Prop := ∃ p priority v6, c = CRun p (fullRuleArguments (lit "add") priority v6).

Definition ordered (l : list Event) : Prop :=
  ∀ pre e post, l = pre ++ e :: post → full_add (ev_call e) → critical_shown pre.

(** What holds of the events since [base], with a fact about them. *)
Definition since (F : list Event → Prop) (w : World W) : Prop :=
  ∃ l, w_log w = base ++ l ∧ ordered l ∧ F l.

Lemma critical_shown_app h h' : critical_shown h → critical_shown (h ++ h').
Proof.
  intros [Hc|(lines & p & Hr & Hs)]; [by left|]. right. exists lines, p. split; [|done]. by apply rules_read_app.
Qed.

Lemma ordered_snoc l e : ordered l → (full_add (ev_call e) → critical_shown l) → ordered (l ++ [e]).
Proof.
  intros Hl He pre e' post E Hf. destruct post as [|x post _] using rev_ind.
  - apply app_inj_tail in E as [<- <-]. auto.
  - rewrite app_comm_cons, app_assoc in E. apply app_inj_tail in E as [E _]. by eapply Hl.
Qed.

Definition appends (F : list Event → Prop) : Prop := ∀ l e, F l → F (l ++ [e]).

Lemma since_frame F : appends F → Frame (W := W) (since F) (λ c, ¬ full_add c).
Proof.
  intros HF. split; try done.
  - intros w c r o Hc (l & Hl & Ho & Hf). eexists (l ++ [_]). cbn [with_event w_log]. rewrite Hl, app_assoc.
    split; [reflexivity|]. split; [|by apply HF]. by apply ordered_snoc.
  - by intros p a (q & pr & v6 & E).
Qed.

Lemma shown_frame : Frame (W := W) (since critical_shown) (λ _, True).
Proof.
  split; try done. intros w c r o _ (l & Hl & Ho & Hf). eexists (l ++ [_]). cbn [with_event w_log].
  rewrite Hl, app_assoc. split; [reflexivity|]. split; [by apply ordered_snoc|by apply critical_shown_app].
Qed.

Lemma no_full_add_harmless : Harmless (λ c, ¬ full_add c).
Proof.
  split; intros; intros (q & pr & v & Hq); try done; injection Hq as _ Hq; revert Hq;
    unfold fullRuleArguments, fullRouteArguments, fullRouteDeletion, bypassRuleArguments, splitRouteArguments;
    repeat match goal with |- context [if ?b then _ else _] => destruct b end;
    intros Hq; vm_compute in Hq; congruence.
Qed.

Lemma since_weaken (F G : list Event → Prop) w : (∀ l, F l → G l) → since F w → since G w.
Proof. intros HFG (l & H1 & H2 & H3). exists l. auto. Qed.

Lemma appends_rules_read lines : appends (rules_read lines).
Proof. intros l e. apply rules_read_app. Qed.

Lemma rules_read_incl l1 l2 h : (∀ line, line ∈ l2 → line ∈ l1) → rules_read l1 h → rules_read l2 h.
Proof. intros Hi (e & H1 & H2 & H3 & H4). exists e. auto 6. Qed.

(** A snapshot tells that the rules were read. *)
Lemma snapshot_rules_read {E} X :
  hoare (since (λ _, True)) (readRuleSnapshot (W := W) (E := E) foldCase)
    (λ s, since (λ l, valid s = true → rules_read (linesV4 s) l)) X.
Proof.
  intros w (l & Hl & Ho & _).
  pose proof (snapshot_reading foldCase (since (λ _, True)) _ X (w_log w) (since_frame (λ _, True) (λ _ _ _, I)) w) as Hr.
  destruct (readRuleSnapshot foldCase w) as [[s|e] w'].
  - destruct Hr as [(l' & Hl' & Ho' & _) Hr]; [split; [by exists l|done]|]. exists l'. split; [done|]. split; [done|].
    intros Hv. destruct (Hr Hv) as (h & Hh & r4 & r6 & t4 & t6 & m & -> & Hq & _ & _ & _ & _ & Hok & _ & _ & E4 & _).
    rewrite Hl, <- app_assoc, Hl' in Hh. apply app_inv_head in Hh as ->. exists r4. rewrite E4.
    split; [apply elem_of_app; right; constructor|]. do 2 (split; [done|]). intros line. unfold rule_lines.
    rewrite list_elem_of_In, filter_In, <- list_elem_of_In. by intros [? _].
  - apply Hr. split; [by exists l|done].
Qed.

Lemma shownBypasses_line s priority route :
  route ∈ shownBypasses s priority →
  ∃ line, line ∈ linesV4 s ∧ parseManagedRuleLine line = Some (priority, Bypass, route).
Proof.
  unfold shownBypasses. induction (linesV4 s) as [|line l IH] using rev_ind; [set_solver|].
  rewrite foldl_app. cbn [foldl]. set (acc := foldl _ _ l) in *. intros Hin.
  assert (route ∈ acc ∨ parseManagedRuleLine line = Some (priority, Bypass, route)) as [Ha|Hp].
  { destruct (parseManagedRuleLine line) as [[[pr []] d]|]; [by left| by left| |by left].
    destruct (pr =? priority) eqn:Ep; [|by left]. apply Z.eqb_eq in Ep as ->.
    apply elem_of_union in Hin as [Hd%elem_of_singleton|Hin]; [subst; by right|by left]. }
  - destruct (IH Ha) as (x & Hx & Hp). exists x. split; [apply elem_of_app; by left|done].
  - exists line. split; [apply elem_of_app; right; constructor|done].
Qed.

#[local] Instance plain_frame : Frame (W := W) (since (λ _, True)) (λ c, ¬ full_add c) := since_frame (λ _, True) (λ _ _ _, I).
#[local] Existing Instance shown_frame.
#[local] Existing Instance no_full_add_harmless.
#[local] Instance any_harmless : Harmless (λ _, True).
Proof. by split. Qed.

Notation plain := (since (λ _, True)).
Notation shown := (since critical_shown).

Lemma shown_plain w : shown w → plain w.
Proof. by apply since_weaken. Qed.

Lemma plain_remove_route executable i removed route :
  keeps plain (remove_route (W := W) foldCase executable i removed route).
Proof.
  unfold remove_route. apply k_bind; [apply (k_readRuleSnapshot foldCase _ (λ c, ¬ full_add c))|]. intros s.
  keeps_tac. apply (k_run _ (λ c, ¬ full_add c)). intros (q & pr & v & Hq). injection Hq as _ Hq.
  destruct v; vm_compute in Hq; congruence.
Qed.

Lemma shown_remove_route executable i removed route :
  keeps shown (remove_route (W := W) foldCase executable i removed route).
Proof.
  unfold remove_route. apply k_bind; [apply (k_readRuleSnapshot foldCase _ (λ _, True))|]. intros s.
  keeps_tac. by apply (k_run _ (λ _, True)).
Qed.

Lemma leaves_rollback_or {A} p i stale a mark kept lost code message :
  leaves (rollback_or (W := W) (A := A) foldCase m_statePath p i stale a mark kept lost code message).
Proof. unfold rollback_or, require_recovery. leaves_tac. Qed.

Lemma installCritical_shown p i stale a adds :
  hoare plain (installCritical (W := W) foldCase m_statePath p i critical stale a adds)
    (λ _, shown) (λ _, plain).
Proof.
  unfold installCritical. eapply (h_bind _ _ _ (λ _, plain)).
  { apply (k_add_rules _ (λ c, ¬ full_add c)). }
  intros r. eapply (h_bind _ _ _ (λ _, plain)).
  { destruct r as [u|e]; [by apply h_ret|].
    apply (k_batchFailed foldCase m_statePath _ (λ c, ¬ full_add c)). }
  intros ?. destruct (bool_decide (critical = [])) eqn:Ec.
  { apply bool_decide_eq_true in Ec. apply h_ret. intros w. apply since_weaken. intros l _. by left. }
  eapply h_bind; [apply snapshot_rules_read|]. intros s.
  destruct (criticalPostcondition s (p_bypassPriority p) critical) eqn:Hp.
  - apply h_ret. intros w. apply since_weaken. intros l Hr. right.
    apply andb_true_iff in Hp as [Hv Hall]. exists (linesV4 s), (p_bypassPriority p). split; [auto|].
    intros route Hin. rewrite forallb_true_iff, Forall_forall in Hall. apply shownBypasses_line.
    specialize (Hall route Hin). by apply bool_decide_eq_true in Hall.
  - eapply h_pre; [by intros w; apply (since_weaken _ (λ _, True))|].
    eapply hoare_leaves; [apply leaves_rollback_or|]. apply (k_rollback_or foldCase m_statePath _ (λ c, ¬ full_add c)).
Qed.

Hint Resolve k_installTable k_fullTunnelPreflight k_state k_startDeadline k_installFullRule k_add_rules k_batchFailed
  k_retireSplitRoutes k_verifyCommitted k_commitFullTunnel plain_frame shown_frame no_full_add_harmless any_harmless
  shown_remove_route : keeps.
Hint Extern 3 True => exact I : keeps.

Lemma shown_to_plain {E A} (m : prog (World W) E A) :
  keeps shown m → hoare shown m (λ _, plain) (λ _, plain).
Proof. intros Hm. eapply h_conseq; [exact Hm|done| |]; intros x w; apply shown_plain. Qed.

Lemma shown_installFullRule p i stale a v6 :
  keeps shown (installFullRule (W := W) foldCase m_statePath p i stale a v6).
Proof. by apply (k_installFullRule foldCase m_statePath shown (λ _, True)). Qed.
Hint Resolve shown_installFullRule : keeps.

Lemma applyFullTunnel_ordered {E} i bypass :
  keeps plain (applyFullTunnel (W := W) (E := E) foldCase m_statePath set_order i bypass critical).
Proof.
  unfold applyFullTunnel. apply k_call. unfold applyFullTunnel_body.
  do 4 (apply k_bind; [solve [keeps_tac]|intros ?]). cbv zeta.
  eapply h_bind; [apply installCritical_shown|]. intros ?. apply shown_to_plain. keeps_tac.
Qed.
Hint Resolve applyFullTunnel_ordered k_update k_refuse_if k_acquireRouteLock k_io k_failure k_markRecoveryRequired
  k_require_recovery : keeps.

Lemma plain_set_intent {E} p : keeps plain (set_intent (W := W) (E := E) p).
Proof. by intros w Hw. Qed.
Hint Resolve plain_set_intent : keeps.

Lemma applyAllExcept_ordered i b c :
  critical = (validatedManagedRoutes c).1 →
  keeps plain (applyAllExcept_body (W := W) foldCase m_statePath set_order i b c).
Proof.
  intros Hc. unfold applyAllExcept_body. destruct (validatedManagedRoutes c) as [boundedCritical criticalValid].
  simpl in Hc. subst boundedCritical. destruct (validatedManagedRoutes b) as [bounded routesValid].
  unfold lock_or_refuse, begin_or_refuse, beginMutation, saveTransactionIntent, finish_or_mark, finishMutation,
    finishTransaction, clearTransactionIntent. keeps_tac.
Qed.
End ordering.

Section full_tunnel_order.
Context `{QT : QtText} `{QN : QtNet} `{QD : QtData} {W : Type} `{HW : Host W}.
Context (foldCase : Z → Z).
Context (m_statePath : text).
Context (set_order : gset text → list text).

(** C10. The endpoint stays reachable while the tunnel comes up.  In a full-tunnel
    installation, each command that adds a full-tunnel rule is preceded, within
    the same operation, by a successful reading of the IPv4 policy rules that
    shows a bypass rule for every critical route, all at one priority; whatever
    the host answers to the commands in between. *)
Theorem critical_before_full_rule i b c w pre e post :
  w_log (run_op foldCase m_statePath set_order (OpApplyAllExcept i b c) w).2 = w_log w ++ pre ++ e :: post →
  full_add (ev_call e) → critical_shown (validatedManagedRoutes c).1 pre.
Proof.
  intros E Hf. set (critical := (validatedManagedRoutes c).1).
  destruct (keeps_returns _ _ w (applyAllExcept_ordered foldCase m_statePath set_order (w_log w) critical i b c eq_refl))
    as (l & Hl & Ho & _).
  { exists []. rewrite app_nil_r. split; [done|]. split; [|done]. by intros [|? ?] ? ? ?. }
  unfold run_op in E. cbn [op_body] in E. rewrite Hl in E. apply app_inv_head in E as ->. by eapply Ho.
Qed.
End full_tunnel_order.
