(* ===== verification/RouteCommit.v ===== *)
(** * The route reconciler: a committed full tunnel

    A full tunnel that is reported as installed was read back from the kernel:
    the table, the rules and the bypass destinations are exactly the target.  In
    the split mode the routes of a success were replaced on the interface.  DNS
    operations leave all of this alone. *)

From stdpp Require Import gmap.
From S2P Require Import Prelude Text Json QtInterface QtModel RoutePolicy Command RouteGrammar RouteState RouteRules.
From S2P Require Import FullTunnel RouteTransactions RouteFrame RouteSafety.
#[local] Open Scope Z_scope.
#[local] Open Scope amnezia_scope.

(** ** Lines *)

Lemma match_pieces_app l1 l2 s :
  match_pieces (l1 ++ l2) s =
  ('(c1, r1) ← match_pieces l1 s; '(c2, r2) ← match_pieces l2 r1; Some (c1 ++ c2, r2)).
Proof.
  revert s. induction l1 as [|x l1 IH]; intros s; cbn [app match_pieces].
  { cbn. by destruct (match_pieces l2 s) as [[? ?]|]. }
  destruct x; cbn.
  - apply IH.
  - destruct s as [|c s]; [done|]. destruct (ascii_space c); [apply IH|done].
  - destruct (strip_literal _ s) as [s'|]; cbn; [apply IH|done].
  - destruct (span _ s) as [a b]. destruct (is_empty a); [done|]. rewrite IH.
    destruct (match_pieces l1 b) as [[c1 r1]|]; cbn; [|done]. by destruct (match_pieces l2 r1) as [[? ?]|].
  - destruct (span _ s) as [a b]. destruct (is_empty a); [done|]. rewrite IH.
    destruct (match_pieces l1 b) as [[c1 r1]|]; cbn; [|done]. by destruct (match_pieces l2 r1) as [[? ?]|].
Qed.

Section lines.
Context `{QT : QtText} `{QN : QtNet}.

Lemma match_line_priority l line caps :
  match_line ([Blanks; Digits; Literal (lit ":")] ++ l) line = Some caps →
  rulePriority line = Some (toInt0 (part_at 0 caps)).
Proof.
  unfold match_line, rulePriority. rewrite match_pieces_app.
  destruct (match_pieces [Blanks; Digits; Literal (lit ":")] line) as [[c1 r1]|] eqn:E1; cbn; [|done].
  destruct (match_pieces l r1) as [[c2 r2]|]; cbn; [|done]. destruct (is_empty r2); [|done]. intros [= <-].
  cbn [match_pieces] in E1. destruct (span is_digit _) as [a b]. destruct (is_empty a); [done|].
  destruct (strip_literal _ b); cbn in E1; [|done]. by injection E1 as <- _.
Qed.

(** A managed rule is at the priority its line starts with. *)
Lemma managed_rule_priority line p k d : parseManagedRuleLine line = Some (p, k, d) → rulePriority line = Some p.
Proof.
  unfold parseManagedRuleLine. destruct (match_line fullRulePattern line) as [caps|] eqn:E1.
  { intros [= <- _ _]. exact (match_line_priority (drop 3 fullRulePattern) line caps E1). }
  intros Hp. assert (∃ b caps, match_line (bypassRulePattern b) line = Some caps ∧ p = toInt0 (part_at 0 caps))
    as (b & caps & Hm & ->).
  { destruct (match_line (bypassRulePattern true) line) as [caps|] eqn:E2.
    - exists true, caps. by destruct (is_empty _); simplify_eq.
    - destruct (match_line (bypassRulePattern false) line) as [caps|] eqn:E3; [|done]. exists false, caps.
      by destruct (is_empty _); simplify_eq. }
  exact (match_line_priority (drop 3 (bypassRulePattern b)) line caps Hm).
Qed.

Lemma full_table_line line i prefix j :
  i ≠ [] → parseManagedFullTunnelRouteLine line i = Some (prefix, j) → j = i.
Proof.
  intros Hi. unfold parseManagedFullTunnelRouteLine, parseOwnedRouteLine.
  destruct (line_tokens line) as [|d [|dev [|iface attrs]]]; try done. destruct (_ || _); [done|].
  destruct (is_empty (canonicalRuleDestination d)); [done|]. destruct (_ && _); [done|].
  destruct (negb (is_empty i) && negb (text_eqb iface i)) eqn:Ei; [done|].
  destruct (parse_attributes _ _ _ _) as [a|]; [|done]. destruct (_ || _); [done|]. intros [= _ <-].
  destruct i; [done|]. by apply negb_false_iff, text_eqb_eq in Ei.
Qed.

(** ** Postconditions *)

(** The lines are one route per half-default prefix, all on this interface. *)
Definition full_table (i : text) (l : list text) : Prop :=
  ∃ prefixes, Forall2 (λ line prefix, parseManagedFullTunnelRouteLine line i = Some (prefix, i)) l prefixes
    ∧ prefixes ≡ₚ managedFullTunnelRoutePrefixes.

(** The only rule at this priority is the full-tunnel rule. *)
Definition one_full_rule (priority : Z) (l : list text) : Prop :=
  ∃ line d, lines_at priority l = [line] ∧ parseManagedRuleLine line = Some (priority, FullTunnel, d).

(** The rules at this priority are bypass rules, one per destination of the
    routes. *)
Definition exact_bypasses (priority : Z) (routes : list text) (l : list text) : Prop :=
  ∃ destinations, Forall2 (λ line d, parseManagedRuleLine line = Some (priority, Bypass, d)) (lines_at priority l) destinations
    ∧ NoDup destinations
    ∧ ∀ d, d ∈ destinations ↔ d ≠ [] ∧ ∃ route, route ∈ routes ∧ d = canonicalRuleDestination route.

Definition tunnel_up (s : RuleSnapshot) (i : text) (bypassPriority fullPriority : Z) (routes : list text) : Prop :=
  full_table i (tableLines s)
  ∧ one_full_rule fullPriority (linesV4 s) ∧ one_full_rule fullPriority (linesV6 s)
  ∧ exact_bypasses bypassPriority routes (linesV4 s).

Lemma elem_of_expectedBypasses routes d :
  d ∈ expectedBypasses routes ↔ d ≠ [] ∧ ∃ route, route ∈ routes ∧ d = canonicalRuleDestination route.
Proof.
  unfold expectedBypasses, set_of. rewrite elem_of_list_to_set, list_elem_of_In, filter_In, in_map_iff.
  setoid_rewrite <- list_elem_of_In. split.
  - intros [(r & <- & Hr) Hn]. apply negb_true_iff in Hn. split; [intros Hc; by rewrite Hc in Hn|]. by exists r.
  - intros [Hn (r & Hr & ->)]. split; [by exists r|].
    destruct (is_empty _) eqn:Ee; [by apply is_empty_true in Ee|done].
Qed.

Lemma table_prefixes_spec i l acc :
  i ≠ [] → invalidMark ∉ actualPrefixes (table_prefixes i l acc) →
  ∃ prefixes, Forall2 (λ line prefix, parseManagedFullTunnelRouteLine line i = Some (prefix, i)) l prefixes
    ∧ NoDup prefixes ∧ (∀ x, x ∈ prefixes → x ∉ acc)
    ∧ actualPrefixes (table_prefixes i l acc) = list_to_set prefixes ∪ acc.
Proof.
  intros Hi. revert acc. induction l as [|line l IH]; intros acc Hm; cbn [table_prefixes] in *.
  { exists []. split; [done|]. split; [constructor|]. split; [by intros x ?%elem_of_nil|]. cbn. by rewrite union_empty_l_L. }
  destruct (parseManagedFullTunnelRouteLine line i) as [[prefix j]|] eqn:El; [|set_solver].
  case_bool_decide as Ha; [set_solver|]. destruct (IH _ Hm) as (ps & H1 & H2 & H3 & H4).
  pose proof (full_table_line _ _ _ _ Hi El) as ->. exists (prefix :: ps). split; [by constructor|].
  split; [constructor; [|done]; intros Hp; specialize (H3 _ Hp); set_solver|].
  split; [intros x [->|Hx]%elem_of_cons; [done|]; specialize (H3 _ Hx); set_solver|]. rewrite H4. set_solver.
Qed.

Lemma selected_rules_spec bp fp l n v m :
  foldl (selected_line bp fp) (n, v) l = (m, true) →
  v = true ∧ m = n + zlen (lines_at fp l)
  ∧ Forall (λ line, ∃ d, parseManagedRuleLine line = Some (fp, FullTunnel, d)) (lines_at fp l).
Proof.
  revert n v. induction l as [|line l IH]; intros n v; cbn [foldl].
  { intros [= <- ->]. unfold zlen. cbn. split; [done|]. split; [lia|constructor]. }
  intros E. unfold selected_line at 2 in E. unfold lines_at. cbn [List.filter]. fold (lines_at fp l).
  destruct (rulePriority line) as [pr|] eqn:Ep; [|rewrite bool_decide_false by done; by apply IH].
  destruct (decide (pr = fp)) as [->|Hne].
  - rewrite bool_decide_true by done. rewrite Z.eqb_refl, andb_false_r in E.
    destruct (parseManagedRuleLine line) as [[[q k] d]|] eqn:El; [|by apply IH in E as [? _]].
    apply managed_rule_priority in El as Eq. rewrite Ep in Eq. injection Eq as <-.
    destruct k; cbn in E; try by apply IH in E as [? _].
    apply IH in E as (-> & -> & Hf). split; [done|]. split; [unfold zlen; cbn [length]; lia|].
    constructor; [by exists d|done].
  - rewrite bool_decide_false by congruence. apply Z.eqb_neq in Hne. rewrite Hne in E. cbn [negb] in E.
    rewrite andb_true_r in E. destruct (negb (pr =? bp)); [by apply IH|].
    destruct (parseManagedRuleLine line) as [[[q k] d]|]; [|by apply IH in E as [? _]].
    apply IH in E as (Hv & ?). apply andb_true_iff in Hv as [-> _]. done.
Qed.

Lemma actual_bypasses_spec priority l acc ds :
  Forall (λ line, rulePriority line = Some priority) l → actual_bypasses l acc = (ds, true) →
  ∃ destinations, Forall2 (λ line d, parseManagedRuleLine line = Some (priority, Bypass, d)) l destinations
    ∧ NoDup destinations ∧ (∀ x, x ∈ destinations → x ∉ acc) ∧ ds = list_to_set destinations ∪ acc.
Proof.
  intros Hl. revert acc. induction Hl as [|line l Hp Hl IH]; intros acc E; cbn [actual_bypasses] in E.
  { injection E as <-. exists []. split; [done|]. split; [constructor|]. split; [by intros x ?%elem_of_nil|]. cbn.
    by rewrite union_empty_l_L. }
  destruct (parseManagedRuleLine line) as [[[q []] d]|] eqn:El; try done.
  apply managed_rule_priority in El as Eq. rewrite Hp in Eq. injection Eq as <-.
  case_bool_decide as Ha; [done|]. destruct (IH _ E) as (ps & H1 & H2 & H3 & ->).
  exists (d :: ps). split; [by constructor|].
  split; [constructor; [|done]; intros Hd; specialize (H3 _ Hd); set_solver|].
  split; [intros x [->|Hx]%elem_of_cons; [done|]; specialize (H3 _ Hx); set_solver|]. set_solver.
Qed.

Lemma lines_at_priority priority l : Forall (λ line, rulePriority line = Some priority) (lines_at priority l).
Proof.
  apply Forall_forall. intros line. unfold lines_at. rewrite list_elem_of_In, filter_In.
  intros [_ Hp]. by apply bool_decide_eq_true in Hp.
Qed.

Lemma one_full_rule_count bp fp l : selected_rules bp fp l = (1, true) → one_full_rule fp l.
Proof.
  intros (_ & Hn & Hf)%selected_rules_spec. unfold zlen in Hn.
  destruct (lines_at fp l) as [|line [|? ?]] eqn:El; cbn [length] in Hn; [lia| |lia].
  inversion Hf as [|? ? [d Hd] _]. subst. exists line, d. done.
Qed.
End lines.

Lemma NoDup_prefixes : NoDup managedFullTunnelRoutePrefixes.
Proof. apply (bool_decide_unpack _). vm_compute. exact I. Qed.

Lemma invalidMark_not_prefix : invalidMark ∉ completeFullTunnelPrefixes.
Proof. apply (bool_decide_unpack _). vm_compute. exact I. Qed.

Section postcondition.
Context `{QT : QtText} `{QN : QtNet}.

(** What the check of the code establishes. *)
Lemma postcondition_up p s i routes :
  i ≠ [] → postconditionFailed s (read_committed p i s) routes = false →
  valid s = true ∧ tunnel_up s i (p_bypassPriority p) (p_fullPriority p) routes.
Proof.
  intros Hi. unfold postconditionFailed. rewrite !orb_false_iff, !negb_false_iff, !Z.eqb_eq.
  intros [[[[[[[Hv _] Hp] H4] H6] Hr] Hb] Hd]. split; [done|]. unfold read_committed in *. rewrite Hv in *. cbn [negb] in *.
  destruct (selected_rules _ _ (linesV4 s)) as [n4 v4] eqn:E4. destruct (selected_rules _ _ (linesV6 s)) as [n6 v6] eqn:E6.
  destruct (actual_bypasses _ _) as [ds bv] eqn:Eb. cbn [c_prefixes c_fullV4Count c_fullV6Count c_selectedRulesValid
    c_actualBypasses c_bypassRulesValid] in *. subst n4 n6 bv. apply andb_true_iff in Hr as [-> ->].
  apply bool_decide_eq_true in Hp, Hd. split; [|split; [|split]].
  - destruct (table_prefixes_spec i (tableLines s) ∅ Hi) as (ps & H1 & H2 & _ & H5).
    { rewrite Hp. apply invalidMark_not_prefix. }
    exists ps. split; [done|]. rewrite Hp, union_empty_r_L in H5.
    apply NoDup_Permutation; [done|apply NoDup_prefixes|]. intros x. unfold completeFullTunnelPrefixes, set_of in H5.
    rewrite <- !(elem_of_list_to_set (C := gset text)), <- H5. by rewrite elem_of_list_to_set.
  - by eapply one_full_rule_count.
  - by eapply one_full_rule_count.
  - apply actual_bypasses_spec with (priority := p_bypassPriority p) in Eb as (ds' & H1 & H2 & _ & ->);
      [|apply lines_at_priority]. exists ds'. split; [done|]. split; [done|]. intros d.
    rewrite <- elem_of_expectedBypasses, <- Hd, union_empty_r_L. by rewrite elem_of_list_to_set.
Qed.
End postcondition.

(** ** Early exits are failures *)

Section commit.
Context `{QT : QtText} `{QN : QtNet} `{QD : QtData} {W : Type} `{HW : Host W}.
Context (foldCase : Z → Z).
Context (m_statePath : text).
Context (set_order : gset text → list text).

Notation R := RouteReconcileResult.
Notation op E A := (prog (World W) E A).

Definition failed (r : R) (_ : World W) : Prop := rr_ok r = false.

(** A step that leaves only with failures. *)
Definition fails {A} (m : op R A) : Prop := hoare (λ _, True) m (λ _ _, True) failed.

Lemma f_bind {A B} (m : op R A) (k : A → op R B) : fails m → (∀ a, fails (k a)) → fails (cmd_bind m k).
Proof. intros Hm Hk. eapply h_bind; [exact Hm|]. intros a. apply Hk. Qed.

Lemma f_total {A} (m : op R A) : total m → fails m.
Proof. intros Ht. apply (hoare_total _ _ _ (λ _ _, True)); [done|]. intros w _. by destruct (m w) as [[?|?] ?]. Qed.

Lemma fails_leaves {A} (m : op R A) P Q : leaves m → fails m → hoare P m Q failed.
Proof. intros Hl Hm. eapply h_pre; [|by eapply hoare_leaves]. done. Qed.

Lemma f_leave_failure {A} code message : fails (let! r := failure (W := W) code message in leave (A := A) r).
Proof. by intros w _. Qed.

Lemma f_refuse_if b code message : fails (refuse_if (W := W) b code message).
Proof. unfold refuse_if. destruct b; by intros w _. Qed.

Lemma f_refuse {A} code message : fails (refuse (W := W) (A := A) code message).
Proof. by intros w _. Qed.

Lemma f_fold {A S} (f : S → A → op R S) s l : (∀ s x, fails (f s x)) → fails (cmd_fold f s l).
Proof. intros Hf. apply (h_fold (λ _ _, True)). intros s1 x _. apply Hf. Qed.

Hint Resolve total_run total_runCaptured total_io total_saveState total_failure total_markRecoveryRequired : total.
Hint Extern 1 (total (state)) => apply total_gets : total.
Hint Extern 1 (total ipExecutable) => apply total_gets : total.
Hint Extern 1 (total elapsed) => apply total_gets : total.
Hint Extern 1 (total (update _)) => apply total_modify : total.
Hint Extern 1 (total (set_intent _)) => apply total_modify : total.
Hint Extern 1 (total (readRuleSnapshot _)) => apply total_call : total.
Hint Extern 1 (total (removeRoutes _ _ _)) => apply total_call : total.
Hint Extern 1 (total (restoreRoutes _ _ _)) => apply total_call : total.
Hint Extern 1 (total (addFullTunnelRulesBatch _)) => apply total_call : total.
Hint Extern 1 (total (removeFullTunnelRulesBatch _ _)) => apply total_call : total.

Lemma total_startDeadline {E} : total (startDeadline (W := W) (E := E)).
Proof. unfold startDeadline. total_tac. Qed.
Lemma total_acquireRouteLock {E} : total (acquireRouteLock (W := W) (E := E) m_statePath).
Proof.
  unfold acquireRouteLock. destruct (is_empty _); [total_tac|]. intros w. destruct (host_tryLock _) as [b o]. by exists b.
Qed.
Hint Resolve total_addFullTunnelRule total_removeFullTunnelRule total_removeFullTunnelRoute total_startDeadline
  total_acquireRouteLock : total.
Hint Extern 1 (total (addFullTunnelRoute _)) => apply total_addFullTunnelRule : total.
Hint Resolve total_restoreStale : total.
Lemma total_undo_table p i installed : total (undo_table (W := W) foldCase p i installed).
Proof. unfold undo_table, remove_added. total_tac. Qed.
Hint Resolve total_undo_table total_rollback : total.

Ltac fails_step :=
  first
  [ apply f_refuse_if | apply f_refuse | apply f_leave_failure
  | apply f_total; solve [total_tac]
  | lazymatch goal with
    | |- fails (cmd_bind _ _) => apply f_bind; [|intros ?]
    | |- fails (cmd_fold _ _ _) => apply f_fold; intros ? ?
    | |- fails (if ?b then _ else _) => destruct b
    | |- fails (match ?x with _ => _ end) => destruct x
    end ].
Ltac fails_tac := repeat (cbv zeta beta; fails_step).

Lemma f_preflight i : fails (fullTunnelPreflight (W := W) foldCase i).
Proof. unfold fullTunnelPreflight. fails_tac. Qed.
Lemma f_require_recovery {A} mark kept lost : fails (require_recovery (W := W) (A := A) m_statePath mark kept lost).
Proof. unfold require_recovery. fails_tac. Qed.
Lemma f_rollback_or {A} p i stale a mark kept lost code message :
  fails (rollback_or (W := W) (A := A) foldCase m_statePath p i stale a mark kept lost code message).
Proof. unfold rollback_or, require_recovery. fails_tac. Qed.
Lemma f_batchFailed {A} p i stale a e : fails (batchFailed (W := W) (A := A) foldCase m_statePath p i stale a e).
Proof. apply f_rollback_or. Qed.
Lemma f_installTable p i routes : fails (installTable (W := W) foldCase m_statePath p i routes).
Proof. unfold installTable, removeStale, install_route, require_recovery. fails_tac. Qed.
Lemma f_installCritical p i critical stale a adds :
  fails (installCritical (W := W) foldCase m_statePath p i critical stale a adds).
Proof. unfold installCritical, batchFailed, rollback_or, require_recovery. fails_tac. Qed.
Lemma f_installFullRule p i stale a v6 : fails (installFullRule (W := W) foldCase m_statePath p i stale a v6).
Proof. unfold installFullRule, rollback_or, require_recovery. fails_tac. Qed.
Lemma f_retireSplitRoutes p i stale a : fails (retireSplitRoutes (W := W) foldCase m_statePath p i stale a).
Proof. unfold retireSplitRoutes. fails_tac. Qed.

(** ** The commit *)

(** The last calls of the host read a snapshot that shows the tunnel. *)
Definition verified (i : text) (bypassPriority fullPriority : Z) (routes : list text) (w : World W) : Prop :=
  ∃ pre h s, w_log w = pre ++ h ∧ reading_of s h ∧ tunnel_up s i bypassPriority fullPriority routes.

(** The object and its receipt say so. *)
Definition committed (i : text) (routes critical : list text) (w : World W) : Prop :=
  let st := w_state w in
  m_mode st = all_except ∧ m_interfaceName st = i ∧ m_routes st = [] ∧ m_bypassRoutes st = routes
  ∧ m_criticalBypassRoutes st = critical ∧ m_needsReapply st = false
  ∧ verified i (m_bypassRulePriority st) (m_fullRulePriority st) routes w
  ∧ (m_statePath = [] ∨ w_receipt w = Regular (json_compact (receipt st))).

Lemma verifyCommitted_verified p i routes stale removed a :
  i ≠ [] →
  hoare (λ _, True) (verifyCommitted (W := W) foldCase m_statePath set_order p i routes stale removed a)
    (λ _, verified i (p_bypassPriority p) (p_fullPriority p) routes) failed.
Proof.
  intros Hi. unfold verifyCommitted.
  eapply (h_bind _ _ _ (λ s w, valid s = true → ∃ pre h, w_log w = pre ++ h ∧ reading_of s h)).
  - intros w _. destruct (readRuleSnapshot foldCase w) as [[s|e] w'] eqn:Er.
    + intros Hv. exists (w_log w). by eapply readRuleSnapshot_reads.
    + destruct (total_call (E := R) (readRuleSnapshot_body (W := W) foldCase) w) as [x Hx].
      unfold readRuleSnapshot in Er. by rewrite Er in Hx.
  - intros s. destruct (postconditionFailed s (read_committed p i s) routes) eqn:Hp; cbn [negb].
    + unfold refuse. apply fails_leaves; [leaves_tac|fails_tac].
    + apply h_ret. intros w Hr. apply postcondition_up in Hp as [Hv Hu]; [|done].
      destruct (Hr Hv) as (pre & h & Hl & Hh). by exists pre, h, s.
Qed.

(** [committed] but for the receipt. *)
Definition in_memory (i : text) (routes critical : list text) (w : World W) : Prop :=
  let st := w_state w in
  m_mode st = all_except ∧ m_interfaceName st = i ∧ m_routes st = [] ∧ m_bypassRoutes st = routes
  ∧ m_criticalBypassRoutes st = critical ∧ m_needsReapply st = false
  ∧ verified i (m_bypassRulePriority st) (m_fullRulePriority st) routes w.

Lemma saveState_committed {E} i routes critical X :
  hoare (in_memory i routes critical) (saveState (W := W) (E := E) m_statePath)
    (λ b w, b = true → committed i routes critical w) X.
Proof.
  intros w Hw. unfold saveState. destruct (is_empty m_statePath) eqn:Ee.
  - apply is_empty_true in Ee. intros _. unfold committed. destruct Hw as (? & ? & ? & ? & ? & ? & ?).
    do 7 (split; [done|]). by left.
  - unfold cmd_bind, io, state, gets, cmd_get. destruct (host_io SaveReceipt (w_outer w)) as [[] o]; [|done]. intros _.
    destruct Hw as (? & ? & ? & ? & ? & ? & ?). unfold committed. cbn. do 7 (split; [done|]). by right.
Qed.

(** A step whose own result is a failure too. *)
Definition fails_with (m : op R R) : Prop := hoare (λ _, True) m failed failed.

Lemma fails_with_bind {A} (m : op R A) (k : A → op R R) : fails m → (∀ a, fails_with (k a)) → fails_with (cmd_bind m k).
Proof. intros Hm Hk. eapply h_bind; [exact Hm|]. intros a. apply Hk. Qed.

Lemma failure_fails code message : fails_with (failure (W := W) code message).
Proof. by intros w _. Qed.

Lemma commitFullTunnel_committed p i routes critical stale removed a :
  hoare (verified i (p_bypassPriority p) (p_fullPriority p) routes)
    (commitFullTunnel (W := W) foldCase m_statePath p i routes critical stale removed a)
    (λ r w, rr_ok r = true → committed i routes critical w) failed.
Proof.
  unfold commitFullTunnel. eapply (h_bind _ _ _ (λ _, in_memory i routes critical)).
  { apply h_modify. intros w Hw. by repeat split. }
  intros ?. eapply h_bind; [apply saveState_committed|]. intros [].
  - apply h_ret. auto.
  - eapply (h_conseq (λ _, True)) with (Q := failed) (X := failed); [|done| |done].
    + do 3 (apply fails_with_bind; [apply f_total; total_tac|intros ?]). apply failure_fails.
    + intros r w Hf Ht. unfold failed in Hf. congruence.
Qed.

Lemma applyFullTunnel_committed {E} i routes critical X :
  i ≠ [] →
  hoare (λ _, True) (applyFullTunnel (W := W) (E := E) foldCase m_statePath set_order i routes critical)
    (λ r w, rr_ok r = true → committed i routes critical w) X.
Proof.
  intros Hi. apply h_call. eapply (h_conseq (λ _, True)) with (X := failed);
    [|done|intros r w Hr; exact Hr|intros r w Hf Ht; unfold failed in Hf; congruence].
  unfold applyFullTunnel_body. cbv zeta.
  do 2 (eapply h_bind; [apply f_total; total_tac|]; intros ?).
  eapply h_bind; [apply f_preflight|]. intros p. eapply h_bind; [apply f_installTable|]. intros table.
  eapply h_bind; [apply f_installCritical|]. intros ?. eapply h_bind; [apply f_installFullRule|]. intros v4.
  eapply h_bind; [apply f_installFullRule|]. intros v6. eapply h_bind; [apply f_total; total_tac|]. intros r.
  eapply (h_bind _ _ _ (λ _ _, True)); [destruct r; [by apply h_ret|apply f_batchFailed]|]. intros ?.
  eapply h_bind; [apply f_retireSplitRoutes|]. intros removed.
  eapply h_bind; [by apply verifyCommitted_verified|]. intros ?. apply commitFullTunnel_committed.
Qed.

Definition retired (w : World W) : Prop := m_statePath = [] ∨ w_intent w = Absent.

Lemma finish_retires i routes critical mark kept lost :
  hoare (committed i routes critical) (finish_or_mark (W := W) m_statePath mark kept lost)
    (λ _ w, committed i routes critical w ∧ retired w) failed.
Proof.
  unfold finish_or_mark. eapply (h_bind _ _ _ (λ b w, b = true → committed i routes critical w ∧ retired w)).
  - intros w Hw. unfold finishMutation, clearTransactionIntent. destruct (is_empty m_statePath) eqn:Ee.
    { apply is_empty_true in Ee. intros _. split; [done|]. by left. }
    unfold cmd_bind, gets, cmd_get. destruct (w_intent w) eqn:Ei; [intros _; split; [done|by right]| |done].
    unfold io. destruct (host_io RemoveIntent (w_outer w)) as [[] o]; [|done]. intros _. split; [done|by right].
  - intros []; [by apply h_ret; auto|]. cbn [negb cmd_when]. apply fails_leaves; [|apply f_require_recovery].
    unfold require_recovery. leaves_tac.
Qed.

Lemma finishTransaction_fails r : rr_ok r = false → fails_with (finishTransaction (W := W) m_statePath r).
Proof.
  intros Hr. unfold finishTransaction. rewrite Hr. cbn [negb]. destruct (text_eqb _ _); cbn [andb]; [by apply h_ret|].
  apply fails_with_bind; [apply f_total; unfold clearTransactionIntent; total_tac|]. intros [].
  - by apply h_ret.
  - apply fails_with_bind; [apply f_total; total_tac|]. intros ?. apply failure_fails.
Qed.

Lemma f_lock : fails (lock_or_refuse (W := W) m_statePath).
Proof. unfold lock_or_refuse. fails_tac. Qed.

Lemma f_begin o i routes bypass servers domains critical message :
  fails (begin_or_refuse (W := W) m_statePath o i routes bypass servers domains critical message).
Proof. unfold begin_or_refuse, beginMutation, saveTransactionIntent. fails_tac. Qed.

Lemma applyAllExcept_commits i b c :
  let Q := λ r w, rr_ok r = true →
    committed i (remove_duplicates (validatedManagedRoutes b).1) (validatedManagedRoutes c).1 w ∧ retired w in
  hoare (λ _, True) (applyAllExcept_body (W := W) foldCase m_statePath set_order i b c) Q Q.
Proof.
  cbv zeta. set (routes := remove_duplicates (validatedManagedRoutes b).1). set (critical := (validatedManagedRoutes c).1).
  enough (hoare (λ _, True) (applyAllExcept_body (W := W) foldCase m_statePath set_order i b c)
    (λ r w, rr_ok r = true → committed i routes critical w ∧ retired w) failed) as Hh.
  { eapply h_conseq; [exact Hh|done|done|]. intros r1 w1 Hf Ht. unfold failed in Hf. congruence. }
  unfold applyAllExcept_body, routes, critical. cbv zeta.
  do 3 (eapply h_bind; [apply f_total; total_tac|]; intros ?). eapply h_bind; [apply f_refuse_if|]. intros ?.
  destruct (validInterfaceName i) eqn:Hi; [|].
  2: { eapply (h_conseq (λ _, True)) with (Q := λ _ _, False) (X := failed); [|done|done|done].
       eapply (h_bind _ _ _ (λ _ _, False)); [by intros w0 _|]. intros ? w0 []. }
  assert (i ≠ []) as Hn by (intros ->; vm_compute in Hi; congruence).
  eapply h_bind; [apply f_refuse_if|]. intros ?. destruct (validatedManagedRoutes b) as [bounded routesValid].
  eapply h_bind; [apply f_refuse_if|]. intros ?. destruct (validatedManagedRoutes c) as [boundedC criticalValid].
  eapply h_bind; [apply f_refuse_if|]. intros ?. eapply h_bind; [apply f_lock|]. intros ?.
  eapply h_bind; [apply f_begin|]. intros ?.
  eapply h_bind; [by apply applyFullTunnel_committed|]. intros r1. destruct (rr_ok r1) eqn:Hr; cbn [negb].
  - eapply h_pre; [by intros w0 Hw0; apply (Hw0 Hr)|]. eapply h_bind; [apply finish_retires|].
    intros ?. apply h_ret. by intros w0 Hw0 _.
  - eapply (h_conseq (λ _, True)); [by apply finishTransaction_fails|done| |done].
    intros r2 w2 Hf Ht. unfold failed in Hf. congruence.
Qed.

(** ** The routes of the split mode *)

(** A successful [ip route replace] of the route on the interface. *)
Definition replaced (i route : text) (w : World W) : Prop :=
  ∃ e program, e ∈ w_log w ∧ ev_call e = CRun program (splitRouteArguments (lit "replace") route i)
    ∧ ok (ev_result e) = true.

Definition all_replaced (i : text) (l : list text) (w : World W) : Prop := ∀ r, r ∈ l → replaced i r w.

#[local] Instance replaced_frame i l : Frame (all_replaced i l) (λ _, True).
Proof.
  split; try done. intros w c r o _ Hw x Hx. destruct (Hw x Hx) as (e & p & He & Hc & Ho). exists e, p.
  split; [|done]. cbn [with_event w_log]. apply elem_of_app. by left.
Qed.

(** The state of the split mode: in memory, and each route was put in place. *)
Definition split_in_place (i : text) (routes : list text) (w : World W) : Prop :=
  let st := w_state w in
  m_mode st = only_forward ∧ m_routes st = routes ∧ m_interfaceName st = (if bool_decide (routes = []) then [] else i)
  ∧ all_replaced i routes w.

Lemma failed_any {A} (Q : A → World W → Prop) (m : op R A) : fails m → leaves m → ∀ P, hoare P m Q failed.
Proof. intros Hm Hl P. by apply fails_leaves. Qed.

Lemma f_restorePrevious v i added removed :
  total (restorePrevious (W := W) foldCase m_statePath set_order v i added removed).
Proof.
  unfold restorePrevious. apply total_bind; [total_tac|]. intros r. destruct (v_fullTunnel v); [|total_tac].
  apply total_bind; [apply total_call|]. intros full. total_tac.
Qed.

Lemma f_finish_failure {A} code message : fails (finish_failure (W := W) (A := A) m_statePath code message).
Proof.
  unfold finish_failure. eapply (h_bind _ _ _ (λ r _, rr_ok r = false)); [by intros w _|]. intros r w Hr.
  pose proof (finishTransaction_fails r Hr w Logic.I) as Hf. unfold cmd_bind.
  by destruct (finishTransaction m_statePath r w) as [[r'|r'] w'].
Qed.

Lemma undo_leaves {A} v i added removed mark unrestored code message :
  leaves (undo_or_recover (W := W) (A := A) foldCase m_statePath set_order v i added removed mark unrestored code message).
Proof. unfold undo_or_recover, finish_failure. leaves_tac. Qed.

Lemma f_undo {A} v i added removed mark unrestored code message :
  fails (undo_or_recover (W := W) (A := A) foldCase m_statePath set_order v i added removed mark unrestored code message).
Proof.
  unfold undo_or_recover. apply f_bind; [apply f_total, f_restorePrevious|]. intros []; [apply f_finish_failure|].
  apply f_bind; [apply f_total; total_tac|]. intros ?. apply f_finish_failure.
Qed.

(** The new routes, one after the other. *)
Lemma add_routes_rule executable v i l done_ added :
  hoare (all_replaced i done_)
    (cmd_fold (add_route (W := W) foldCase m_statePath set_order executable v i) added l)
    (λ _, all_replaced i (done_ ++ l)) failed.
Proof.
  revert done_ added. induction l as [|x l IH]; intros done_ added; cbn [cmd_fold].
  { apply h_ret. intros w Hw. by rewrite app_nil_r. }
  replace (done_ ++ x :: l) with ((done_ ++ [x]) ++ l) by by rewrite <-app_assoc.
  eapply (h_bind _ _ _ (λ _, all_replaced i (done_ ++ [x]))); [|intros added'; apply IH].
  unfold add_route. eapply (h_bind _ _ _ (λ r w, ok r = true → all_replaced i (done_ ++ [x]) w)).
  - intros w Hw. unfold run. destruct (host_run _ _ (w_outer w)) as [r o]. cbn. intros Hok y [Hy| ->%list_elem_of_singleton]%elem_of_app.
    + destruct (Hw y Hy) as (e & p & He & Hc & Ho). exists e, p. split; [|done]. apply elem_of_app. by left.
    + eexists _, executable. split; [apply elem_of_app; right; apply list_elem_of_singleton; reflexivity|]. done.
  - intros r. destruct (ok r); cbn [negb].
    + eapply (h_bind _ _ _ (λ _, all_replaced i (done_ ++ [x]))); [apply h_gets; auto|]. intros st. by apply h_ret.
    + apply failed_any; [apply f_undo|apply undo_leaves].
Qed.

Lemma k_remove_replaced i l executable i' removed route :
  keeps (all_replaced i l) (remove_route (W := W) foldCase executable i' removed route).
Proof.
  unfold remove_route. pose proof (λ E p a, k_run (E := E) (all_replaced i l) (λ _, True) p a Logic.I) as Hr.
  pose proof (λ E, k_readRuleSnapshot (W := W) (E := E) foldCase (all_replaced i l) (λ _, True)) as Hs.
  keeps_tac; auto.
Qed.

Lemma retire_rule v i l routes added :
  hoare (all_replaced i l) (retirePrevious (W := W) foldCase m_statePath set_order v i routes added)
    (λ _, all_replaced i l) failed.
Proof.
  assert (∀ E i' rs, keeps (all_replaced i l) (removeRoutes (W := W) (E := E) foldCase i' rs)) as Hk.
  { intros. apply k_removeRoutes, k_remove_replaced. }
  assert (∀ i' rs, hoare (all_replaced i l) (removeRoutes (W := W) (E := R) foldCase i' rs) (λ _, all_replaced i l) failed) as Hr.
  { intros i' rs. eapply hoare_total; [apply total_call|apply Hk]. }
  unfold retirePrevious. eapply (h_bind _ _ _ (λ _, all_replaced i l)); [by apply h_gets|]. intros st.
  destruct (negb _).
  - eapply h_bind; [apply Hr|]. intros [[] rs]; [by apply h_ret|]. apply failed_any; [apply f_undo|apply undo_leaves].
  - apply (h_fold (λ _, all_replaced i l)). intros removed x _. unfold retire_route.
    destruct (qcontains x routes); [by apply h_ret|]. eapply h_bind; [apply Hr|].
    intros [[] rs]; [by apply h_ret|]. apply failed_any; [apply f_undo|apply undo_leaves].
Qed.

(** A save that succeeds changes nothing but the receipt. *)
Lemma save_split {E} i routes X :
  hoare (split_in_place i routes) (saveState (W := W) (E := E) m_statePath) (λ b w, b = true → split_in_place i routes w) X.
Proof.
  intros w Hw. unfold saveState. destruct (is_empty m_statePath); [by intros _|].
  unfold cmd_bind, io, state, gets, cmd_get. destruct (host_io SaveReceipt (w_outer w)) as [[] o]; [|done]. intros _. exact Hw.
Qed.

Lemma clear_intent_split {E} i routes X :
  hoare (split_in_place i routes) (clearTransactionIntent (W := W) (E := E) m_statePath) (λ _, split_in_place i routes) X.
Proof.
  intros w Hw. unfold clearTransactionIntent. destruct (is_empty m_statePath); [done|].
  unfold cmd_bind, gets, cmd_get. destruct (w_intent w); [done| |done].
  unfold io. by destruct (host_io RemoveIntent (w_outer w)) as [[] o].
Qed.

Lemma mark_and_fail_fails mark message : fails_with (mark_and_fail (W := W) m_statePath mark message).
Proof. unfold mark_and_fail. apply fails_with_bind; [apply f_total; total_tac|]. intros ?. apply failure_fails. Qed.

(** A result that is a failure says nothing more. *)
Lemma fails_with_any (m : op R R) P (Q : World W → Prop) :
  fails_with m → hoare P m (λ r w, rr_ok r = true → Q w) failed.
Proof. intros Hm. eapply h_conseq; [exact Hm|done| |done]. intros r w Hf Ht. unfold failed in Hf. congruence. Qed.

Lemma finish_split i routes :
  hoare (split_in_place i routes) (finishTransaction (W := W) m_statePath success)
    (λ r w, rr_ok r = true → split_in_place i routes w) failed.
Proof.
  unfold finishTransaction. cbn [rr_ok success negb andb].
  eapply h_bind; [apply clear_intent_split|]. intros []; [by apply h_ret|]. apply fails_with_any.
  apply fails_with_bind; [apply f_total; total_tac|]. intros ?. apply failure_fails.
Qed.

Lemma commitSplit_rule v i routes added removed :
  routes ≠ [] →
  hoare (all_replaced i routes) (commitSplit (W := W) foldCase m_statePath set_order v i routes added removed)
    (λ r w, rr_ok r = true → split_in_place i routes w) failed.
Proof.
  intros Hne. unfold commitSplit. eapply (h_bind _ _ _ (λ _, split_in_place i routes)).
  { apply h_modify. intros w Hw. split; [done|]. split; [done|]. split; [by rewrite bool_decide_eq_false_2|done]. }
  intros ?. eapply h_bind; [apply save_split|]. intros []; cbn [negb].
  - eapply (h_bind _ _ _ (λ _, split_in_place i routes)); [eapply h_pre; [|apply clear_intent_split]; auto|].
    intros []; cbn [negb]; [apply finish_split|]. apply fails_with_any.
    apply fails_with_bind; [apply f_total, f_restorePrevious|]. intros ?. apply mark_and_fail_fails.
  - apply fails_with_any. apply fails_with_bind; [apply f_total, f_restorePrevious|]. intros restored.
    apply fails_with_bind; [apply f_total; total_tac|]. intros ?. apply mark_and_fail_fails.
Qed.

Lemma f_finish_or_mark mark kept lost : fails (finish_or_mark (W := W) m_statePath mark kept lost).
Proof.
  unfold finish_or_mark, finishMutation, clearTransactionIntent. apply f_bind; [apply f_total; total_tac|].
  intros []; [by intros w _|]. apply f_require_recovery.
Qed.

Lemma f_then {A B} (m : op R A) (k : A → op R B) Q :
  fails m → (∀ a, hoare (λ _, True) (k a) Q failed) → hoare (λ _, True) (cmd_bind m k) Q failed.
Proof. intros Hm. by apply h_bind. Qed.

(** Nothing is held any more. *)
Notation cleared := (split_in_place [] []).

Lemma cleared_any i w : cleared w → split_in_place i [] w.
Proof. intros (H1 & H2 & H3 & _). split; [done|]. split; [done|]. split; [done|]. intros r Hr. by apply elem_of_nil in Hr. Qed.

Lemma cleared_update {E} f X : (∀ s, m_mode (f s) = only_forward ∧ m_routes (f s) = [] ∧ m_interfaceName (f s) = []) →
  hoare (λ _, True) (update (W := W) (E := E) f) (λ _, cleared) X.
Proof.
  intros Hf. apply h_modify. intros w _. destruct (Hf (w_state w)) as (H1 & H2 & H3).
  split; [done|]. split; [done|]. split; [done|]. intros r Hr. by apply elem_of_nil in Hr.
Qed.

Lemma retireReceipt_clears message :
  hoare (λ _, True) (retireReceipt (W := W) m_statePath message) (λ r w, rr_ok r = true → cleared w) failed.
Proof.
  unfold retireReceipt. eapply h_bind; [by apply cleared_update|]. intros ?.
  eapply h_bind; [apply save_split|]. intros []; [by apply h_ret; auto|]. apply fails_with_any.
  apply fails_with_bind; [apply f_total; total_tac|]. intros ?. apply failure_fails.
Qed.

Lemma clearFullTunnel_clears {E} X :
  hoare (λ _, True) (clearFullTunnel (W := W) (E := E) foldCase m_statePath) (λ r w, rr_ok r = true → cleared w) X.
Proof.
  apply h_call. eapply (h_conseq (λ _, True)) with (X := failed);
    [|done|intros r w Hr; exact Hr|intros r w Hf Ht; unfold failed in Hf; congruence].
  unfold clearFullTunnel_body. do 6 (apply f_then; [fails_tac|]; intros ?).
  destruct (bool_decide _).
  - apply f_then; [apply f_refuse_if|]. intros ?. apply retireReceipt_clears.
  - apply f_then; [unfold check_table_line, rejectLine; fails_tac|]. intros ?. apply f_then; [apply f_refuse_if|]. intros ?.
    apply f_then; [|intros ?; apply retireReceipt_clears]. unfold removeOwnedTunnel, restoreRules_or, remove_table_route, restoreOwnedTable, restoreRules, cmd_when.
    fails_tac.
Qed.

Lemma finish_cleared mark kept lost :
  hoare cleared (finish_or_mark (W := W) m_statePath mark kept lost) (λ _, cleared) failed.
Proof.
  unfold finish_or_mark. eapply h_bind; [apply clear_intent_split|]. intros []; [by apply h_ret|]. cbn [negb cmd_when].
  apply fails_leaves; [unfold require_recovery; leaves_tac|apply f_require_recovery].
Qed.

Lemma clearSplit_clears :
  hoare (λ _, True) (clearSplit (W := W) foldCase m_statePath) (λ r w, rr_ok r = true → cleared w) failed.
Proof.
  unfold clearSplit. do 3 (apply f_then; [fails_tac|intros ?]). apply f_then; [apply f_begin|]. intros ?.
  apply f_then; [fails_tac|]. intros r. destruct (negb r.1).
  - apply f_then; [fails_tac|]. intros []; [|apply fails_with_any, mark_and_fail_fails].
    apply failed_any; [apply f_finish_failure|unfold finish_failure; leaves_tac].
  - eapply h_bind; [by apply cleared_update|]. intros ?. eapply h_bind; [apply save_split|]. intros []; cbn [negb].
    + eapply h_bind; [eapply h_pre; [|apply finish_cleared]; auto|]. intros ?. apply h_ret. by intros w Hw _.
    + apply fails_with_any. do 2 (apply fails_with_bind; [fails_tac|intros ?]). apply mark_and_fail_fails.
Qed.

Lemma clear_clears {E} X :
  hoare (λ _, True) (clear (W := W) (E := E) foldCase m_statePath) (λ r w, rr_ok r = true → cleared w) X.
Proof.
  apply h_call. eapply (h_conseq (λ _, True)) with (X := failed);
    [|done|intros r w Hr; exact Hr|intros r w Hf Ht; unfold failed in Hf; congruence].
  unfold clear_body. do 3 (apply f_then; [unfold cmd_when; fails_tac|intros ?]). apply f_then; [apply f_refuse_if|]. intros ?.
  apply f_then; [apply f_lock|]. intros ?. destruct (text_eqb _ _); [|destruct (bool_decide _); [|apply clearSplit_clears]].
  - apply f_then; [apply f_begin|]. intros ?. eapply h_bind; [apply clearFullTunnel_clears|]. intros r.
    destruct (rr_ok r) eqn:Hr; cbn [negb].
    + eapply h_bind; [eapply h_pre; [|apply finish_cleared]; auto|]. intros ?. apply h_ret. by intros w Hw _.
    + apply fails_with_any. by apply finishTransaction_fails.
  - eapply h_bind; [by apply cleared_update|]. intros ?. eapply h_bind; [apply save_split|]. intros [];
      [by apply h_ret; auto|]. apply fails_with_any. apply fails_with_bind; [fails_tac|intros ?]. apply failure_fails.
Qed.

Lemma applySplit_installs i routes :
  routes ≠ [] →
  hoare (λ _, True) (applySplit (W := W) foldCase m_statePath set_order i routes)
    (λ r w, rr_ok r = true → split_in_place i routes w) failed.
Proof.
  intros Hne. unfold applySplit. apply f_then; [apply f_lock|]. intros ?. do 5 (apply f_then; [fails_tac|intros ?]).
  apply f_then; [unfold cmd_each, check_main_line, rejectLine, cmd_when; fails_tac|]. intros ?.
  apply f_then; [apply f_begin|]. intros ?. apply f_then.
  { unfold cmd_when. destruct (v_fullTunnel _); [|by apply h_ret].
    eapply h_bind; [apply clearFullTunnel_clears|]. intros r. unfold leave_if. destruct (rr_ok r) eqn:Hr; cbn [negb]; [by apply h_ret|].
    eapply (h_bind _ _ _ failed); [|intros r'; by apply h_leave]. eapply h_pre; [|by apply finishTransaction_fails]. done. }
  intros ?. eapply h_bind; [eapply h_pre; [|apply (add_routes_rule _ _ i routes [] [])]; intros w _ r Hr; by apply elem_of_nil in Hr|].
  intros added. eapply h_bind; [apply retire_rule|]. intros removed. by apply commitSplit_rule.
Qed.

(** When [apply] succeeds, the object is in the split mode with the canonical
    routes, sorted, and each of them was put in place. *)
Lemma apply_installs i routes :
  let Q := λ r w, rr_ok r = true → (validatedManagedRoutes routes).2 = true
    ∧ split_in_place i (sort_text (remove_duplicates (validatedManagedRoutes routes).1)) w in
  hoare (λ _, True) (apply_body (W := W) foldCase m_statePath set_order i routes) Q Q.
Proof.
  cbv zeta. set (Q := λ r w, rr_ok r = true → _). assert (∀ r w, failed r w → Q r w) as HQ.
  { intros r w Hf Ht. unfold failed in Hf. congruence. }
  enough (hoare (λ _, True) (apply_body (W := W) foldCase m_statePath set_order i routes) Q failed) as Hh
    by (eapply h_conseq; [exact Hh|done|done|exact HQ]).
  unfold apply_body. do 3 (apply f_then; [fails_tac|intros ?]). do 2 (apply f_then; [apply f_refuse_if|intros ?]).
  unfold Q. destruct (validatedManagedRoutes routes) as [bounded []]; cbn [negb orb fst snd].
  2: { eapply (h_bind _ _ _ (λ _ _, False)); [by intros w _|]. by intros ? w. }
  apply f_then; [apply f_refuse_if|]. intros ?. cbv zeta. set (l := sort_text _). case_bool_decide as El.
  - rewrite El. eapply h_conseq; [apply (clear_clears failed)|done| |done]. intros r w Hr Ht. split; [done|]. by apply cleared_any, Hr.
  - eapply h_conseq; [by apply applySplit_installs|done| |done]. intros r w Hr Ht. split; [done|by apply Hr].
Qed.

(** C2. A full tunnel that is reported as installed is there.  When
    [applyAllExcept] succeeds, the last thing it asked the host is a complete
    reading of the kernel that shows table 51821 with one route per half-default
    prefix, all on the requested interface, a single IPv4 and a single IPv6
    full-tunnel rule at the priority of the new state, and at the bypass
    priority exactly one bypass rule for each destination of the requested
    routes.  The state and the receipt on disk name this configuration, and the
    intent of the transaction is gone. *)
Theorem full_tunnel_verified i b c w r w' :
  run_op foldCase m_statePath set_order (OpApplyAllExcept i b c) w = (r, w') → rr_ok r = true →
  committed i (remove_duplicates (validatedManagedRoutes b).1) (validatedManagedRoutes c).1 w'
  ∧ (m_statePath = [] ∨ w_intent w' = Absent).
Proof.
  intros E Hok. exact (h_returns (λ _, True) _ _ w r w' (applyAllExcept_commits i b c) I E Hok).
Qed.
End commit.

(** ** The route reconciler: DNS operations leave the routing alone

    [configureDns] and [clearDns] of LinuxRouteReconciler share the receipt and
    the intent with the routing operations.  When they succeed, the routing
    part of the state is what it was, and the host was only asked for readings
    and for commands of the resolver. *)

(** A command of [resolvectl], or a reading. *)
Definition resolver_call (c : Call) : Prop :=
  match c with
  | CRun _ (a :: _) => a ∈ [lit "dns"; lit "domain"; lit "revert"; lit "flush-caches"]
  | CCaptured _ _ => True
  | _ => False
  end.

(** What the full tunnel consists of. *)
Definition routing_of (s : Reconciler) :=
  (m_mode s, m_interfaceName s, m_routes s, m_bypassRoutes s, m_criticalBypassRoutes s, m_bypassRulePriority s,
   m_fullRulePriority s, m_needsReapply s).

Section dns.
Context `{QT : QtText} `{QN : QtNet} `{QD : QtData} {W : Type} `{HW : Host W}.
Context (m_statePath : text).
Context (s0 : Reconciler) (log0 : list Event).

Notation R := RouteReconcileResult.
Notation op E A := (prog (World W) E A).

(** Since the state [s0] and the log [log0] nothing of the routing changed. *)
Definition same_routing (w : World W) : Prop :=
  routing_of (w_state w) = routing_of s0
  ∧ ∃ l, w_log w = log0 ++ l ∧ Forall (λ e, resolver_call (ev_call e)) l.

(** Goes on with the same routing, or leaves with a failure. *)
Notation goes m := (hoare same_routing m (λ _, same_routing) failed).

Lemma same_event w c r o : resolver_call c → same_routing w → same_routing (with_event c r o w).
Proof.
  intros Hc [Hs (l & Hl & Hf)]. split; [done|]. eexists (l ++ [_]). cbn [with_event w_log]. rewrite Hl, <-app_assoc.
  split; [done|]. apply Forall_app. split; [done|]. by constructor.
Qed.

Lemma goes_run program a args :
  a ∈ [lit "dns"; lit "domain"; lit "revert"; lit "flush-caches"] → goes (run (W := W) program (a :: args)).
Proof.
  intros Ha w Hw. unfold run. destruct (host_run program (a :: args) (w_outer w)) as [r o].
  by apply (same_event w (CRun program (a :: args)) r o).
Qed.

Lemma goes_captured program args : goes (runCaptured (W := W) program args).
Proof.
  intros w Hw. unfold runCaptured. destruct (host_captured program args (w_outer w)) as [r o].
  by apply (same_event w (CCaptured program args) r o).
Qed.

Lemma goes_run_ok program a args :
  a ∈ [lit "dns"; lit "domain"; lit "revert"; lit "flush-caches"] → goes (run_ok (W := W) program (a :: args)).
Proof. intros Ha. unfold run_ok. eapply h_bind; [by apply goes_run|]. intros r. by apply h_ret. Qed.

Lemma goes_update f : (∀ s, routing_of (f s) = routing_of s) → goes (update (W := W) f).
Proof. intros Hf. apply h_modify. intros w [Hs Hl]. split; [|done]. cbn [w_state]. by rewrite Hf. Qed.

Lemma goes_gets {A} (f : World W → A) : goes (gets f).
Proof. by apply h_gets. Qed.

Lemma goes_io o : goes (io (W := W) o).
Proof. intros w Hw. unfold io. destruct (host_io o (w_outer w)) as [b outer]. exact Hw. Qed.

Lemma goes_saveState : goes (saveState (W := W) m_statePath).
Proof.
  unfold saveState. destruct (is_empty m_statePath); [by apply h_ret|]. eapply h_bind; [apply goes_io|].
  intros b. eapply h_bind; [apply goes_gets|]. intros s. eapply (h_bind _ _ _ (λ _, same_routing)); [|intros ?; by apply h_ret].
  apply h_when; [|by auto]. intros _. by apply h_modify.
Qed.

Lemma goes_refuse_if b code message : goes (refuse_if (W := W) b code message).
Proof. unfold refuse_if. destruct b; by intros w Hw. Qed.

Lemma goes_lock : goes (lock_or_refuse (W := W) m_statePath).
Proof.
  unfold lock_or_refuse. eapply (h_bind _ _ _ (λ _, same_routing)); [|intros b; apply goes_refuse_if].
  unfold acquireRouteLock. destruct (is_empty _); [by apply h_ret|]. intros w Hw.
  destruct (host_tryLock (w_outer w)) as [b outer]. exact Hw.
Qed.

Lemma goes_begin o i routes bypass servers domains critical message :
  goes (begin_or_refuse (W := W) m_statePath o i routes bypass servers domains critical message).
Proof.
  unfold begin_or_refuse. eapply (h_bind _ _ _ (λ _, same_routing)); [|intros b; apply goes_refuse_if].
  unfold beginMutation, saveTransactionIntent. cbv zeta. destruct (is_empty m_statePath); [by apply h_ret|].
  eapply h_bind; [apply goes_gets|]. intros p. destruct (path_exists p); [by apply h_ret|].
  eapply h_bind; [apply goes_io|]. intros b. eapply h_bind; [apply goes_gets|]. intros s.
  eapply (h_bind _ _ _ (λ _, same_routing)); [|intros ?; by apply h_ret].
  apply h_when; [|by auto]. intros _. by apply h_modify.
Qed.

Lemma finish_failure_fails {A} P code message Q :
  hoare P (finish_failure (W := W) (A := A) m_statePath code message) Q failed.
Proof.
  unfold finish_failure. eapply (h_bind _ _ _ (λ r _, rr_ok r = false)); [by intros w _|]. intros r.
  eapply (h_bind _ _ _ failed); [|intros r'; by apply h_leave].
  intros w Hr. exact (finishTransaction_fails m_statePath r Hr w Logic.I).
Qed.

Lemma after_marking {A} P mark (k : bool → op R A) Q :
  (∀ b, hoare (λ _, True) (k b) Q failed) → hoare P (cmd_bind (markRecoveryRequired (W := W) m_statePath mark) k) Q failed.
Proof.
  intros Hk. eapply (h_bind _ _ _ (λ _ _, True)); [|exact Hk].
  apply (hoare_total _ _ _ (λ _ _, True)); [apply total_markRecoveryRequired|].
  intros w _. by destruct (markRecoveryRequired m_statePath mark w) as [[?|?] ?].
Qed.

Lemma goes_finish mark kept lost : goes (finish_or_mark (W := W) m_statePath mark kept lost).
Proof.
  unfold finish_or_mark. eapply (h_bind _ _ _ (λ _, same_routing)).
  - unfold finishMutation, clearTransactionIntent. destruct (is_empty m_statePath); [by apply h_ret|].
    eapply h_bind; [apply goes_gets|]. intros []; [by apply h_ret| |by apply h_ret].
    eapply h_bind; [apply goes_io|]. intros b. eapply (h_bind _ _ _ (λ _, same_routing)); [|intros ?; by apply h_ret].
    apply h_when; [|by auto]. intros _. by apply h_modify.
  - intros b. apply h_when; [|by auto]. intros _. unfold require_recovery. apply after_marking. intros saved.
    by intros w _.
Qed.

Lemma goes_restore executable prev i : goes (restorePreviousDns (W := W) executable prev i).
Proof.
  unfold restorePreviousDns. eapply (h_bind _ _ _ (λ _, same_routing)).
  { destruct (_ && _); [apply goes_run_ok; set_solver|by apply h_ret]. }
  intros restored. destruct (_ || _); [by apply h_ret|].
  eapply h_bind; [apply goes_run_ok; set_solver|]. intros b. destruct b; cbn [negb]; [|by apply h_ret].
  eapply h_bind; [apply goes_run_ok; set_solver|]. intros b. by apply h_ret.
Qed.

Lemma undo_dns_fails {A} executable prev i mark unrestored code message Q :
  hoare same_routing (undo_dns (W := W) (A := A) m_statePath executable prev i mark unrestored code message) Q failed.
Proof.
  unfold undo_dns. eapply h_bind; [apply goes_restore|]. intros []; [apply finish_failure_fails|].
  apply after_marking. intros b. apply finish_failure_fails.
Qed.

Lemma same_binding b : goes (set_binding (W := W) b).
Proof. by apply goes_update. Qed.

Lemma goes_commitDns executable prev i servers domains :
  goes (commitDns (W := W) m_statePath executable prev i servers domains).
Proof.
  unfold commitDns. eapply h_bind; [apply same_binding|]. intros ?. eapply h_bind; [apply goes_saveState|]. intros [].
  - cbn [negb]. eapply h_bind; [apply goes_finish|]. intros ?. by apply h_ret.
  - cbn [negb]. eapply h_bind; [apply goes_restore|]. intros restored. eapply h_bind; [apply same_binding|]. intros ?.
    apply after_marking. intros b. apply finish_failure_fails.
Qed.

Ltac dns_step :=
  cbv zeta beta;
  lazymatch goal with
  | |- hoare _ (cmd_bind (cmd_when _ (finish_failure _ _ _)) _) _ _ =>
      eapply (h_bind _ _ _ (λ _, same_routing)); [apply h_when; [intros _; apply finish_failure_fails|by auto]|intros ?]
  | |- hoare _ (cmd_bind (cmd_when _ (undo_dns _ _ _ _ _ _ _ _)) _) _ _ =>
      eapply (h_bind _ _ _ (λ _, same_routing)); [apply h_when; [intros _; apply undo_dns_fails|by auto]|intros ?]
  | |- hoare _ (cmd_bind (if _ then _ else pure _) _) _ _ =>
      eapply (h_bind _ _ _ (λ _, same_routing));
        [case_match; solve [by apply h_ret|apply goes_run_ok; set_solver|apply goes_captured]|intros ?]
  | |- hoare _ (cmd_bind (if _ then pure _ else _) _) _ _ =>
      eapply (h_bind _ _ _ (λ _, same_routing));
        [case_match; solve [by apply h_ret|apply goes_run_ok; set_solver|apply goes_captured]|intros ?]
  | |- hoare _ (cmd_bind _ _) _ _ =>
      eapply h_bind;
        [first [apply goes_refuse_if|apply goes_lock|apply goes_begin|apply goes_captured|apply goes_saveState
               |apply goes_finish|(apply goes_run_ok; set_solver)|(apply goes_run; set_solver)
               |apply same_binding|(apply goes_update; reflexivity)|apply goes_gets]|intros ?]
  end.

(** A successful resolver operation. *)
Definition dns_outcome (r : R) (w : World W) : Prop := rr_ok r = true → same_routing w.

Lemma goes_outcome (m : op R R) : goes m → hoare same_routing m dns_outcome dns_outcome.
Proof.
  intros Hm. eapply h_conseq; [exact Hm|done|by intros r w Hw _|].
  intros r w Hf Ht. unfold failed in Hf. congruence.
Qed.

Lemma configureDns_routing i servers domains :
  hoare same_routing (configureDns_body (W := W) m_statePath i servers domains) dns_outcome dns_outcome.
Proof.
  apply goes_outcome. unfold configureDns_body. repeat dns_step. apply goes_commitDns.
Qed.

Lemma goes_clearVanished executable target message :
  hoare same_routing (clearVanishedDns (W := W) m_statePath executable target message) dns_outcome failed.
Proof.
  unfold clearVanishedDns. do 3 dns_step. destruct (_ && _).
  - do 2 dns_step. destruct (negb _).
    + eapply (h_bind _ _ _ (λ _ _, True)); [by apply h_modify|]. intros ?. apply finish_failure_fails.
    + dns_step. apply h_ret. by intros w Hw _.
  - eapply (h_bind _ _ _ (λ r _, rr_ok r = false)); [by intros w _|]. intros r w Hr.
    pose proof (finishTransaction_fails m_statePath r Hr w Logic.I) as Hf.
    destruct (finishTransaction m_statePath r w) as [[r1|r1] w1]; [|done]. unfold dns_outcome, failed in *. congruence.
Qed.

Lemma goes_commitClear executable target :
  goes (commitClearDns (W := W) m_statePath executable target).
Proof.
  unfold commitClearDns. do 7 dns_step. destruct (negb _).
  - eapply (h_bind _ _ _ (λ _, same_routing)).
    { destruct (is_empty _); [by apply h_ret|]. eapply h_bind; [apply goes_run_ok; set_solver|]. intros ?.
      eapply h_bind; [apply goes_run_ok; set_solver|]. intros ?. by apply h_ret. }
    intros ?. dns_step. apply after_marking. intros ?. apply finish_failure_fails.
  - dns_step. by apply h_ret.
Qed.

Lemma clearDns_routing i :
  hoare same_routing (clearDns_body (W := W) m_statePath i) dns_outcome dns_outcome.
Proof.
  enough (hoare same_routing (clearDns_body (W := W) m_statePath i) dns_outcome failed) as Hh.
  { eapply h_conseq; [exact Hh|done|done|]. intros r w Hf Ht. unfold failed in Hf. congruence. }
  unfold clearDns_body. do 6 dns_step. destruct (is_empty _).
  - do 3 dns_step. case_match.
    + apply h_ret. by intros w Hw _.
    + eapply (h_bind _ _ _ (λ _ _, True)); [by apply h_modify|]. intros ?. by intros w _.
  - do 4 dns_step. destruct (negb _); [apply goes_clearVanished|].
    eapply h_conseq; [apply goes_commitClear|done|by intros r w Hw _|done].
Qed.
End dns.
