(* ===== verification/RouteChoice.v ===== *)
(** * The route reconciler: choices made from a reading

    The rule priorities that are chosen are free or the daemon's own, and the
    underlay prefixes that stay reachable are private networks, directly
    connected, apart from everything that is sent into the tunnel. *)

From stdpp Require Import gmap.
From S2P Require Import Prelude Text Json QtInterface QtModel Ipv4 Command RoutePolicy RouteGrammar RouteState.
From S2P Require Import RouteRules FullTunnel RouteTransactions RouteFrame RouteCommit.
#[local] Open Scope Z_scope.
#[local] Open Scope amnezia_scope.

(** ** Priorities *)

Section priorities.
Context `{QT : QtText} `{QN : QtNet} {W : Type} `{HW : Host W}.
Context (foldCase : Z → Z).

(** The occupied priorities are those of the lines. *)
Definition priorities_of (l : list text) (occupied : gset Z) : Prop :=
  ∀ p, p ∈ occupied ↔ lines_at p l ≠ [].
Definition consistent (s : RuleSnapshot) : Prop :=
  priorities_of (linesV4 s) (occupiedV4 s) ∧ priorities_of (linesV6 s) (occupiedV6 s).

Lemma lines_at_app p l1 l2 : lines_at p (l1 ++ l2) = lines_at p l1 ++ lines_at p l2.
Proof. apply List.filter_app. Qed.

Lemma priorities_of_snoc l occ line q :
  rulePriority line = Some q → priorities_of l occ → priorities_of (l ++ [line]) ({[q]} ∪ occ).
Proof.
  intros Hq Hl p. rewrite elem_of_union, elem_of_singleton, (Hl p), lines_at_app. unfold lines_at at 3. cbn [List.filter].
  rewrite Hq. case_bool_decide as Hp.
  - simplify_eq. split; [intros _ H%app_eq_nil; by destruct H|by left].
  - rewrite app_nil_r. split; [intros [->|?]; [by destruct Hp|done]|by right].
Qed.

Lemma snapshot_rule_line_consistent st v6 s seen line :
  consistent s →
  match snapshot_rule_line st v6 (s, seen) line with Ok a => consistent a.1 | Err s' => consistent s' end.
Proof.
  intros [H4 H6]. unfold snapshot_rule_line. destruct (rulePriority line) as [q|] eqn:Eq; [|done].
  assert (consistent (add_line v6 q line s)) as Ha.
  { destruct v6; split; cbn; auto using priorities_of_snoc. }
  repeat case_match; simplify_eq/=; exact Ha.
Qed.

Lemma snapshot_rules_consistent st v6 out acc :
  consistent acc.1 →
  match snapshot_rules st v6 out acc with Ok a => consistent a.1 | Err s' => consistent s' end.
Proof.
  unfold snapshot_rules. revert acc. induction (output_lines out) as [|line l IH]; intros [s seen] Hs; [done|].
  cbn [rfold]. pose proof (snapshot_rule_line_consistent st v6 s seen line Hs) as H1.
  destruct (snapshot_rule_line st v6 (s, seen) line) as [a|s1]; [|done]. by apply IH.
Qed.

Lemma readRuleSnapshot_consistent {E} w s w' :
  readRuleSnapshot (W := W) (E := E) foldCase w = (Ok s, w') → consistent s.
Proof.
  set (T := λ _ : World W, True). set (C := λ (s : RuleSnapshot) (_ : World W), consistent s).
  enough (hoare T (readRuleSnapshot_body (W := W) foldCase) C C) as Hb.
  { intros Er. pose proof (h_call (E := E) T _ C (λ _ _, True) Hb w I) as Hs. unfold readRuleSnapshot in Er. by rewrite Er in Hs. }
  assert (∀ program args, hoare T (runCaptured (W := W) program args) (λ _, T) C) as Hrun.
  { intros program args w1 _. unfold runCaptured. by destruct (host_captured _ _ _). }
  assert (∀ executable st v6 acc, consistent acc.1 →
    hoare T (readRules (W := W) executable st v6 acc) (λ a w, consistent a.1 ∧ T w) C) as Hrules.
  { intros executable st v6 acc Hacc. unfold readRules. eapply h_bind; [apply Hrun|]. intros r.
    destruct (negb (ok r)); [by apply h_leave|]. intros w1 _. unfold cmd_ret.
    pose proof (snapshot_rules_consistent st v6 (output r) acc Hacc) as Hs. by destruct (snapshot_rules _ _ _ _). }
  assert (∀ executable v6 s, consistent s →
    hoare T (readTable (W := W) foldCase executable v6 s) (λ a w, consistent a ∧ T w) C) as Htable.
  { intros executable v6 s1 Hs. unfold readTable. eapply h_bind; [apply Hrun|]. intros r.
    destruct (negb (ok r)); [destruct (missingTable foldCase r)|]; by first [apply h_ret|apply h_leave]. }
  assert (consistent emptySnapshot) as H0 by (split; intros p; cbn; set_solver).
  unfold readRuleSnapshot_body.
  eapply (h_bind _ _ _ (λ _, T)); [by apply h_gets|]. intros executable.
  destruct (is_empty executable); [by apply h_ret|]. eapply (h_bind _ _ _ (λ _, T)); [by apply h_gets|]. intros st.
  do 2 (eapply h_bind; [by apply Hrules|]; intros ?; apply h_fact; intros ?).
  do 2 (eapply h_bind; [by apply Htable|]; intros ?; apply h_fact; intros ?).
  eapply h_bind; [apply Hrun|]. intros r. destruct (negb (ok r)); by apply h_ret.
Qed.

(** ** What is selected *)

Lemma first_free_Some isOccupied n c p :
  first_free isOccupied n c = Some p → isOccupied p = false ∧ c <= p < c + Z.of_nat n.
Proof.
  revert c. induction n as [|n IH]; intros c; cbn [first_free]; [done|].
  destruct (isOccupied c) eqn:Ec; [intros [? ?]%IH; split; [done|lia]|]. intros [= <-]. split; [done|lia].
Qed.

Lemma first_free_None isOccupied n c p :
  first_free isOccupied n c = None → c <= p < c + Z.of_nat n → isOccupied p = true.
Proof.
  revert c. induction n as [|n IH]; intros c; cbn [first_free]; [lia|].
  destruct (isOccupied c) eqn:Ec; [|done]. intros Hn Hp. destruct (decide (p = c)) as [->|]; [done|].
  apply (IH (c + 1)); [done|lia].
Qed.

Lemma select_Some preferred first last owned isOccupied p :
  select preferred first last owned isOccupied = Some p →
  first <= p <= last ∧ (isOccupied p = false ∨ p = preferred ∧ owned = true).
Proof.
  unfold select. destruct (_ && _ && _) eqn:E.
  - intros [= <-]. bprop. split; [lia|by right].
  - intros [H1 H2]%first_free_Some. split; [lia|by left].
Qed.

Lemma select_None preferred first last owned isOccupied :
  select preferred first last owned isOccupied = None → ∀ p, first <= p <= last → isOccupied p = true.
Proof.
  unfold select. destruct (_ && _ && _); [done|]. intros Hn p Hp. eapply first_free_None; [done|lia].
Qed.

(** The rules at the priority are the persisted bypass rules, all of them and
    nothing else. *)
Definition own_bypasses (st : Reconciler) (priority : Z) (l : list text) : Prop :=
  ∃ destinations, Forall2 (λ line d, parseManagedRuleLine line = Some (priority, Bypass, d)) (lines_at priority l) destinations
    ∧ NoDup destinations ∧ ∀ d, d ∈ destinations ↔ d ∈ m_bypassRoutes st.

Definition own_full (priority : Z) (l : list text) : Prop :=
  Forall (λ line, ∃ d, parseManagedRuleLine line = Some (priority, FullTunnel, d)) (lines_at priority l).

Lemma bypass_destinations_spec priority allowed l acc ds :
  rfold (bypass_line priority allowed) acc l = Ok ds →
  ∃ destinations, Forall2 (λ line d, parseManagedRuleLine line = Some (priority, Bypass, d)) l destinations
    ∧ NoDup destinations ∧ (∀ x, x ∈ destinations → x ∉ acc) ∧ ds = list_to_set destinations ∪ acc.
Proof.
  revert acc. induction l as [|line l IH]; intros acc E; cbn [rfold] in E.
  { injection E as <-. exists []. split; [done|]. split; [constructor|]. split; [by intros x ?%elem_of_nil|]. cbn.
    by rewrite union_empty_l_L. }
  apply rbind_Ok in E as (acc1 & E1 & E2). unfold bypass_line in E1.
  destruct (parseManagedRuleLine line) as [[[q []] d]|] eqn:El; try done.
  destruct (negb (q =? priority) || _ || _) eqn:Eb; [done|]. simplify_eq.
  rewrite !orb_false_iff, !negb_false_iff, Z.eqb_eq, bool_decide_eq_false in Eb. destruct Eb as [[-> _] Hd].
  destruct (IH _ E2) as (ps & H1 & H2 & H3 & ->). exists (d :: ps). split; [by constructor|].
  split; [constructor; [|done]; intros Hx; specialize (H3 _ Hx); set_solver|].
  split; [intros x [->|Hx]%elem_of_cons; [done|]; specialize (H3 _ Hx); set_solver|]. set_solver.
Qed.

Lemma hasOnlyOwnedBypass_spec st s priority :
  hasOnlyOwnedBypass st s priority = true → own_bypasses st priority (linesV4 s).
Proof.
  unfold hasOnlyOwnedBypass, bypass_destinations. destruct (rfold _ _ _) as [ds|] eqn:E; [|done].
  rewrite andb_true_iff, !bool_decide_eq_true. intros [_ ->].
  apply bypass_destinations_spec in E as (l & H1 & H2 & _ & E). exists l. split; [done|]. split; [done|].
  intros d. rewrite union_empty_r_L in E. unfold set_of in E.
  rewrite <- !(elem_of_list_to_set (C := gset text)). by rewrite E.
Qed.

Lemma hasOnlyOwnedFull_spec s priority :
  hasOnlyOwnedFull s priority = true → own_full priority (linesV4 s) ∧ own_full priority (linesV6 s).
Proof.
  unfold hasOnlyOwnedFull. rewrite andb_true_iff, forallb_true_iff, Forall_app. intros [[H4 H6] _].
  assert (∀ line, full_line priority line = true → ∃ d, parseManagedRuleLine line = Some (priority, FullTunnel, d)) as Hl.
  { intros line. unfold full_line. destruct (parseManagedRuleLine line) as [[[q []] d]|]; try done.
    intros ->%Z.eqb_eq. by exists d. }
  split; (eapply Forall_impl; [eassumption|exact Hl]).
Qed.

(** The rule priorities that are chosen from a reading of the kernel are
    safe to use: the bypass priority is in 1000..1099 and the full-tunnel
    priority in 1100..1999, so bypass rules come first; no IPv4 rule is at the
    bypass priority, or the rules there are exactly the persisted bypass rules;
    no rule of either family is at the full-tunnel priority, or all rules there
    are full-tunnel rules.  And no choice is made only when a range is
    exhausted. *)
Theorem selected_priorities_safe st w s w' :
  readRuleSnapshot (W := W) (E := RouteReconcileResult) foldCase w = (Ok s, w') → valid s = true →
  match selectRulePriorities st s with
  | Some (b, f) =>
      1000 <= b <= 1099 ∧ 1100 <= f <= 1999
      ∧ (lines_at b (linesV4 s) = [] ∨ m_mode st = all_except ∧ own_bypasses st b (linesV4 s))
      ∧ (lines_at f (linesV4 s) = [] ∧ lines_at f (linesV6 s) = []
         ∨ m_mode st = all_except ∧ own_full f (linesV4 s) ∧ own_full f (linesV6 s))
  | None =>
      (∀ p, 1001 <= p <= 1099 → lines_at p (linesV4 s) ≠ [])
      ∨ ∀ p, 1100 <= p <= 1999 → lines_at p (linesV4 s) ≠ [] ∨ lines_at p (linesV6 s) ≠ []
  end.
Proof.
  intros Hr Hv. destruct (readRuleSnapshot_consistent _ _ _ Hr) as [H4 H6].
  assert (∀ p, p ∉ occupiedV4 s → lines_at p (linesV4 s) = []) as N4.
  { intros p Hp. rewrite (H4 p) in Hp. by destruct (lines_at p (linesV4 s)); [|destruct Hp]. }
  assert (∀ p, p ∉ occupiedV6 s → lines_at p (linesV6 s) = []) as N6.
  { intros p Hp. rewrite (H6 p) in Hp. by destruct (lines_at p (linesV6 s)); [|destruct Hp]. }
  unfold selectRulePriorities. rewrite Hv. cbn [negb]. cbv zeta.
  set (owned := text_eqb (m_mode st) all_except && hasOnlyOwnedBypass st s (m_bypassRulePriority st)).
  destruct (select (m_bypassRulePriority st) _ _ _ _) as [b|] eqn:Eb; cbn [mbind option_bind].
  - apply select_Some in Eb as [Rb Hb].
    assert (lines_at b (linesV4 s) = [] ∨ m_mode st = all_except ∧ own_bypasses st b (linesV4 s)) as Sb.
    { destruct Hb as [Hb|[-> Ho]]; [left; apply N4; by apply bool_decide_eq_false in Hb|right].
      apply andb_true_iff in Ho as [?%text_eqb_eq ?]. split; [done|]. by apply hasOnlyOwnedBypass_spec. }
    assert (1000 <= b <= 1099) as Rb'.
    { revert Rb. unfold FullTunnelBypassRulePriority, FullTunnelBypassPreferredPriority, FullTunnelBypassPriorityLimit.
      destruct owned; lia. }
    destruct (select (m_fullRulePriority st) _ _ _ _) as [f|] eqn:Ef; cbn [mbind option_bind].
    + apply select_Some in Ef as [Rf Hf]. split; [done|]. split; [exact Rf|]. split; [done|].
      destruct Hf as [Hf|[-> Ho]].
      * left. rewrite orb_false_iff, !bool_decide_eq_false in Hf. destruct Hf. auto.
      * right. apply andb_true_iff in Ho as [?%text_eqb_eq ?]. split; [done|]. by apply hasOnlyOwnedFull_spec.
    + right. intros p Hp. pose proof (select_None _ _ _ _ _ Ef p Hp) as Ho.
      rewrite orb_true_iff, !bool_decide_eq_true, (H4 p), (H6 p) in Ho. done.
  - left. intros p Hp. apply (H4 p).
    assert (bool_decide (p ∈ occupiedV4 s) = true) as Ho; [|by apply bool_decide_eq_true in Ho].
    eapply (select_None _ _ _ _ _ Eb). unfold FullTunnelBypassRulePriority, FullTunnelBypassPreferredPriority,
      FullTunnelBypassPriorityLimit. destruct owned; lia.
Qed.
End priorities.

(** ** Underlay *)

(** The address is in 10/8, 172.16/12, 192.168/16 or 100.64/10. *)
Definition private_address (x : Z) : Prop :=
  in_net 0x0a000000 8 x ∨ in_net 0xac100000 12 x ∨ in_net 0xc0a80000 16 x ∨ in_net 0x64400000 10 x.

(** Whether an address is one of the route's. *)
Definition route_covers `{QtText, QtNet} (route : text) (x : Z) : Prop :=
  ∃ a n, parseCanonicalIpv4Route route = Some (a, n) ∧ in_net a n x.

Section underlay.
Context `{QT : QtText} `{QN : QtNet} `{!QtTextLaws QT} `{!QtNetLaws QN}.

Lemma private_prefix prefix :
  privateOrLinkLocalPrefix prefix = true →
  (∃ x, route_covers prefix x) ∧ ∀ x, route_covers prefix x → private_address x.
Proof.
  unfold privateOrLinkLocalPrefix, route_covers. destruct (parseCanonicalIpv4Route prefix) as [[a n]|] eqn:Ep; [|done].
  destruct (parse_sound _ _ _ Ep) as [(Ha & Hn & _) _]. intros Hc.
  split; [exists a, a, n; split; [done|by apply in_net_self]|]. intros x (a' & n' & [= <- <-] & Hx).
  rewrite !orb_true_iff, !within_spec in Hc by (done || unfold prefix_ok, is_u32; lia).
  unfold private_address. destruct Hc as [[[Hc|Hc]|Hc]|Hc]; auto.
Qed.

Lemma apart prefix routes :
  (∃ x, route_covers prefix x) → prefixOverlapsAny prefix routes = false →
  ∀ route x, route ∈ routes → route_covers route x → ¬ route_covers prefix x.
Proof.
  unfold prefixOverlapsAny, route_covers. intros (y & a & n & Ep & _). rewrite Ep, existsb_false_iff.
  intros Hr route x Hin (b & q & Er & Hx) (a' & n' & E' & Hx'). simplify_eq. specialize (Hr route Hin). cbn in Hr.
  rewrite Er in Hr. destruct (parse_sound _ _ _ Ep) as [(Ha & Hn & _) _], (parse_sound _ _ _ Er) as [(Hb & Hq & _) _].
  apply not_true_iff_false in Hr. apply Hr. apply overlaps_spec; [done..|]. by exists x.
Qed.

(** A line is the first one that qualifies as the physical default. *)
Lemma physicalDefault_spec l i :
  physicalDefault l = Some i → isLikelyPhysicalInterface i = true ∧ isVpnOrLoopbackInterface i = false.
Proof.
  induction l as [|line l IH]; cbn [physicalDefault]; [done|]. fold (physicalDefault l).
  destruct (parseNumericMainRoute line) as [c|]; [|done]. destruct (_ && _ && _ && _) eqn:E; [|done].
  intros [= <-]. by bprop.
Qed.

Definition protected_line (vpn : text) (forward : list text) (selected line prefix : text) : Prop :=
  ∃ c, parseNumericMainRoute line = Some c ∧ protectedCandidate vpn forward selected c = true ∧ nr_prefix c = prefix.

Lemma protected_spec vpn forward selected l acc :
  NoDup acc →
  NoDup (foldl (add_protected vpn forward selected) acc l)
  ∧ ∀ x, x ∈ foldl (add_protected vpn forward selected) acc l
         ↔ x ∈ acc ∨ ∃ line, line ∈ l ∧ protected_line vpn forward selected line x.
Proof.
  revert acc. induction l as [|line l IH]; intros acc Hn; cbn [foldl].
  { split; [done|]. intros x. set_solver. }
  assert (NoDup (add_protected vpn forward selected acc line)
    ∧ ∀ x, x ∈ add_protected vpn forward selected acc line ↔ x ∈ acc ∨ protected_line vpn forward selected line x) as [H1 H2].
  { unfold add_protected, protected_line. destruct (parseNumericMainRoute line) as [c|];
      [destruct (protectedCandidate vpn forward selected c) eqn:Ec|].
    - split; [by apply append_new_NoDup|]. intros x. rewrite elem_of_append_new. split; (intros [?|Hx]; [by left|right]).
      + exists c. by subst.
      + destruct Hx as (c' & ? & _ & ?). congruence.
    - split; [done|]. intros x. split; [by left|]. intros [?|(c' & ? & ? & _)]; congruence.
    - split; [done|]. intros x. split; [by left|]. intros [?|(c' & ? & _)]; congruence. }
  destruct (IH _ H1) as [H3 H4]. split; [done|]. intros x. rewrite H4, H2. split.
  - intros [[?|?]|(x' & ? & ?)]; [by left|right; exists line; split; [constructor|done]|].
    right. exists x'. split; [by constructor|done].
  - intros [?|(x' & [->|?]%elem_of_cons & ?)]; [by left; left|by left; right|]. right. by exists x'.
Qed.

(** The underlay stays reachable and nothing else does.  The prefixes that
    [activeUnderlayProtectedRoutes] keeps out of the tunnel are, without
    repetition, exactly those of the directly connected main-table routes that
    qualify; each denotes private or carrier-grade addresses only, shares no
    address with a route that is to be forwarded, and comes from a line whose
    interface is neither the VPN's nor any tunnel or loopback, and is the
    physical default interface or a container bridge. *)
Theorem underlay_routes_exact s vpn forward l :
  underlayProtectedRoutes s vpn forward = Ok l →
  ∃ selected, physicalDefault (mainRouteLines s) = Some selected ∧ NoDup l
    ∧ (∀ x, x ∈ l ↔ ∃ line, line ∈ mainRouteLines s ∧ protected_line vpn forward selected line x)
    ∧ ∀ prefix, prefix ∈ l →
        (∃ x, route_covers prefix x)
        ∧ (∀ x, route_covers prefix x → private_address x)
        ∧ (∀ route x, route ∈ forward → route_covers route x → ¬ route_covers prefix x)
        ∧ ∃ line c, line ∈ mainRouteLines s ∧ parseNumericMainRoute line = Some c ∧ nr_prefix c = prefix
            ∧ nr_directlyConnected c = true ∧ nr_interfaceName c ≠ vpn
            ∧ isVpnOrLoopbackInterface (nr_interfaceName c) = false
            ∧ (nr_interfaceName c = selected ∨ isContainerBridgeInterface (nr_interfaceName c) = true).
Proof.
  unfold underlayProtectedRoutes. destruct (valid s); cbn [negb]; [|done].
  destruct (physicalDefault (mainRouteLines s)) as [selected|]; [|done]. intros [= <-].
  destruct (protected_spec vpn forward selected (mainRouteLines s) [] (NoDup_nil_2)) as [Hn Hx].
  exists selected. split; [done|]. split; [done|]. split; [intros x; rewrite Hx; set_solver|].
  intros prefix Hin. apply Hx in Hin as [Hin|(line & Hl & c & Hc & Hp & <-)]; [by apply elem_of_nil in Hin|].
  unfold protectedCandidate in Hp. rewrite !andb_true_iff, !negb_true_iff in Hp.
  destruct Hp as [[[[[[H1 H2] H3] H4] H5] H6] H7]. destruct (private_prefix _ H4) as [Hne Hpriv].
  split; [done|]. split; [done|]. split; [by apply apart|]. exists line, c. do 4 (split; [done|]).
  split; [intros Hv; by rewrite Hv, text_eqb_refl in H2|]. split; [done|].
  destruct (isContainerBridgeInterface (nr_interfaceName c)); [by right|left]. cbn in H6.
  by apply negb_false_iff, text_eqb_eq in H6.
Qed.
End underlay.
