(* ===== verification/RouteRestart.v ===== *)
(** * The route reconciler: what a new process may assume

    The theorems on RouteStartup.v.  An interrupted transaction keeps every later
    process from touching the host; the only thing a start ever changes is the
    protocol marker of routes an older build installed; and a start that succeeds
    has read a kernel that agrees with the receipt. *)

From stdpp Require Import gmap.
From S2P Require Import Prelude Text Json QtInterface QtModel Command RoutePolicy RouteGrammar RouteState RouteRules.
From S2P Require Import FullTunnel RouteTransactions RouteStartup RouteFrame RouteSafety RouteCommit.
#[local] Open Scope Z_scope.
#[local] Open Scope amnezia_scope.

(** ** Successful runs, step by step *)

Section inversion.
Context {W : Type} `{HW : Host W}.
Notation op A := (prog (World W) bool A).

Lemma reject_not_Ok {A} c (w w' : World W) (a : A) : reject c w ≠ (Ok a, w').
Proof. unfold reject, cmd_bind, state, gets, cmd_get. destruct (is_empty _); by intros ?. Qed.

Lemma rejectIf_passes b c (w w' : World W) u : reject_if b c w = (Ok u, w') → b = false ∧ w' = w.
Proof. unfold reject_if. destruct b; [by intros ?%reject_not_Ok|]. by intros [= _ ->]. Qed.

Lemma pure_Ok {E A} (a b : A) (w w' : World W) : pure (E := E) a w = (Ok b, w') → b = a ∧ w' = w.
Proof. by intros [= -> ->]. Qed.

Lemma state_Ok {E} (w w' : World W) s : state (E := E) w = (Ok s, w') → s = w_state w ∧ w' = w.
Proof. by intros [= -> ->]. Qed.

Lemma gets_Ok {E A} (f : World W → A) (w w' : World W) a : gets (E := E) f w = (Ok a, w') → a = f w ∧ w' = w.
Proof. by intros [= -> ->]. Qed.

Lemma update_Ok {E} f (w w' : World W) u : update (E := E) f w = (Ok u, w') → w' = with_state f w.
Proof. by intros [= _ <-]. Qed.

Lemma when_Ok {E} b (m : prog (World W) E ()) w w' u :
  cmd_when b m w = (Ok u, w') → (b = true ∧ m w = (Ok u, w')) ∨ (b = false ∧ w' = w).
Proof. destruct b; [auto|]. intros [= _ <-]. auto. Qed.
End inversion.

(** Takes a successful run apart. *)
Ltac run_step :=
  match goal with
  | H : cmd_bind _ _ _ = (Ok _, _) |- _ => apply cmd_bind_Ok in H as (? & ? & ? & H)
  | H : reject_if _ _ _ = (Ok _, _) |- _ => apply rejectIf_passes in H as [? ->]
  | H : reject _ _ = (Ok _, _) |- _ => by apply reject_not_Ok in H
  | H : pure _ _ = (Ok _, _) |- _ => apply pure_Ok in H as [-> ->]
  | H : state _ = (Ok _, _) |- _ => apply state_Ok in H as [-> ->]
  | H : ipExecutable _ = (Ok _, _) |- _ => apply gets_Ok in H as [-> ->]
  | H : resolvectlExecutable _ = (Ok _, _) |- _ => apply gets_Ok in H as [-> ->]
  | H : gets _ _ = (Ok _, _) |- _ => apply gets_Ok in H as [-> ->]
  | H : update _ _ = (Ok _, _) |- _ => apply update_Ok in H as ->
  end.
Ltac run_inv := repeat (cbv zeta beta in *; run_step).

(** ** Every early exit of a start is a refusal *)

Section refusal.
Context `{QT : QtText} `{QN : QtNet} `{QD : QtData} {W : Type} `{HW : Host W}.
Context (foldCase : Z → Z).
Context (toUpper : text → text).
Context (m_statePath : text).
Context (legacyIntent : bool).
Notation op A := (prog (World W) bool A).

Definition refuses {A} (m : op A) : Prop := hoare (λ _, True) m (λ _ _, True) (λ b _, b = false).

Lemma r_total {A} (m : op A) : total m → refuses m.
Proof. intros Ht. apply (hoare_total _ _ _ (λ _ _, True)); [done|]. intros w _. by destruct (m w) as [[] ?]. Qed.

Lemma r_bind {A B} (m : op A) (k : A → op B) : refuses m → (∀ a, refuses (k a)) → refuses (cmd_bind m k).
Proof. intros Hm Hk. eapply h_bind; [exact Hm|]. intros a. apply Hk. Qed.

Lemma r_reject {A} c : refuses (reject (W := W) (A := A) c).
Proof. intros w _. unfold reject, cmd_bind, state, gets, cmd_get. by destruct (is_empty _). Qed.

Lemma r_reject_if b c : refuses (reject_if (W := W) b c).
Proof. unfold reject_if. destruct b; [apply r_reject|]. by apply h_ret. Qed.

Lemma r_fold {A S} (f : S → A → op S) s l : (∀ s x, refuses (f s x)) → refuses (cmd_fold f s l).
Proof. intros Hf. apply (h_fold (λ _ _, True)). intros s1 x _. apply Hf. Qed.

Lemma r_each {A} (f : A → op ()) l : (∀ x, refuses (f x)) → refuses (cmd_each f l).
Proof. intros Hf. apply r_fold. intros _ x. apply Hf. Qed.

Lemma r_when b (m : op ()) : refuses m → refuses (cmd_when b m).
Proof. intros Hm. destruct b; [done|]. by apply h_ret. Qed.

Hint Resolve total_run total_runCaptured total_io total_saveState total_markRecoveryRequired total_acquireRouteLock : total.
Hint Extern 1 (total (state)) => apply total_gets : total.
Hint Extern 1 (total ipExecutable) => apply total_gets : total.
Hint Extern 1 (total resolvectlExecutable) => apply total_gets : total.
Hint Extern 1 (total (update _)) => apply total_modify : total.
Hint Extern 1 (total (set_intent _)) => apply total_modify : total.
Hint Extern 1 (total (readRuleSnapshot _)) => apply total_call : total.

Lemma total_saveIntent {E} o t : total (saveTransactionIntent (W := W) (E := E) m_statePath o t).
Proof. unfold saveTransactionIntent. total_tac. Qed.
Lemma total_clearIntent {E} : total (clearTransactionIntent (W := W) (E := E) m_statePath).
Proof. unfold clearTransactionIntent. total_tac. Qed.
Hint Resolve total_saveIntent total_clearIntent : total.

Ltac refuses_step :=
  first
  [ apply r_reject | apply r_reject_if
  | apply r_total; solve [total_tac]
  | lazymatch goal with
    | |- refuses (cmd_bind _ _) => apply r_bind; [|intros ?]
    | |- refuses (cmd_fold _ _ _) => apply r_fold; intros ? ?
    | |- refuses (cmd_each _ _) => apply r_each; intros ?
    | |- refuses (cmd_when _ _) => apply r_when
    | |- refuses (if ?b then _ else _) => destruct b
    | |- refuses (match ?x with _ => _ end) => destruct x
    end ].
Ltac refuses_tac := repeat (cbv zeta beta; refuses_step).

Lemma r_strings c l : refuses (read_strings (W := W) c l).
Proof. unfold read_strings. refuses_tac. Qed.
Lemma r_readReceipt object : refuses (readReceipt (W := W) object).
Proof.
  unfold readReceipt, readRouting, readExtras, readBinding, add_server, add_domain, readPriorities.
  repeat first [apply r_strings | refuses_step].
Qed.
Lemma r_migrate i s : refuses (migrateLegacy (W := W) foldCase m_statePath i s).
Proof. unfold migrateLegacy, migrate_prefix, restoreLegacy, restore_line. refuses_tac. Qed.
Lemma r_checkAllExcept g bp fp s : refuses (checkAllExcept (W := W) toUpper g bp fp s).
Proof. unfold checkAllExcept, probeLink, tablePrefix, foreignRule. refuses_tac. Qed.

Lemma r_validReservedRules bp fp l ipv6 require : refuses (validReservedRules (W := W) bp fp l ipv6 require).
Proof. unfold validReservedRules, reservedRule. refuses_tac. Qed.
Lemma r_checkOnlyForward g s : refuses (checkOnlyForward (W := W) g s).
Proof. unfold checkOnlyForward. refuses_tac. Qed.
Lemma r_checkResolver g : refuses (checkResolver (W := W) g).
Proof. unfold checkResolver. refuses_tac. Qed.
Lemma r_rewriteReceipt object g : refuses (rewriteReceipt (W := W) m_statePath object g).
Proof. unfold rewriteReceipt. refuses_tac. Qed.
Lemma r_startWithoutReceipt : refuses (startWithoutReceipt (W := W) foldCase).
Proof. unfold startWithoutReceipt. refuses_tac. Qed.

Lemma r_loadState : refuses (loadState_body (W := W) foldCase toUpper m_statePath legacyIntent).
Proof.
  unfold loadState_body, startFromReceipt, checkKernel.
  repeat first [apply r_startWithoutReceipt | apply r_readReceipt | apply r_migrate | apply r_checkOnlyForward
    | apply r_checkAllExcept | apply r_checkResolver | apply r_rewriteReceipt | refuses_step].
Qed.
End refusal.

(** ** An interrupted transaction is refused *)

Section interrupted.
Context `{QT : QtText} `{QN : QtNet} `{QD : QtData} {W : Type} `{HW : Host W}.
Context (foldCase : Z → Z).
Context (toUpper : text → text).
Context (m_statePath : text).
Context (legacyIntent : bool).
Context (set_order : gset text → list text).
Notation restart := (restart (W := W) foldCase toUpper m_statePath legacyIntent).
Notation loadState_body := (loadState_body (W := W) foldCase toUpper m_statePath legacyIntent).

(** The object as [loadState] finds it. *)
Definition loading (w : World W) : World W := with_state (set_initialized true) (new_process w).

(** A start is its load, and leaves a valid object exactly when it succeeds. *)
Lemma restart_load w b w1 :
  restart w = (b, w1) →
  ∃ wl, returns loadState_body (loading w) = (b, wl) ∧ w_log w1 = w_log wl
    ∧ w_receipt w1 = w_receipt wl ∧ w_intent w1 = w_intent wl ∧ w_marker w1 = w_marker wl
    ∧ m_stateValid (w_state w1) = b ∧ (b = true → w1 = with_state (set_stateValid true) wl).
Proof.
  unfold RouteStartup.restart, returns at 1, initializeState, loadState. unfold cmd_bind at 1. cbn [state gets cmd_get].
  change (m_initialized (w_state (new_process w))) with false. cbn iota.
  unfold cmd_bind at 1, update at 1, cmd_modify. fold (loading w).
  change (MkWorld _ _ _ _ _ _) with (loading w) at 1. unfold cmd_bind at 1, call.
  unfold returns. destruct (loadState_body (loading w)) as [[x|x] wl]; destruct x;
    unfold cmd_bind, update, cmd_modify, cmd_when, state, gets, cmd_get, pure, cmd_ret; cbn [negb];
    try (destruct (is_empty _)); intros E; injection E as <- <-; exists wl; by repeat split.
Qed.

Lemma interrupted_load w :
  m_statePath ≠ [] → path_exists (w_intent w) = true ∨ path_exists (w_marker w) = true →
  ∃ wl, returns loadState_body (loading w) = (false, wl) ∧ w_log wl = w_log w.
Proof.
  intros Hp Hf. unfold returns, RouteStartup.loadState_body.
  unfold cmd_bind at 1, update at 1, cmd_modify. unfold cmd_bind at 1. cbn [ipExecutable gets cmd_get].
  unfold reject_if at 1. destruct (is_empty (host_resolve _ _)); [eexists; split; [done|by cbn]|].
  unfold cmd_bind at 1. cbn [pure cmd_ret]. destruct (is_empty m_statePath) eqn:Ee; [by apply is_empty_true in Ee|].
  unfold cmd_bind at 1. cbn [gets cmd_get]. unfold cmd_bind at 1, reject_if at 1.
  cbn [w_marker w_intent loading with_state new_process].
  destruct (path_exists (w_marker w)); [eexists; split; [done|by cbn]|]. cbn [pure cmd_ret].
  unfold cmd_bind at 1. cbn [gets cmd_get]. unfold cmd_bind at 1, reject_if at 1.
  cbn [w_marker w_intent loading with_state new_process].
  destruct (path_exists (w_intent w)); [eexists; split; [done|by cbn]|]. by destruct Hf.
Qed.

(** C21. A crash is not forgotten.  Take any run of operations by a reconciler
    with a state path, and any command of it that could change the host.  A
    process that is started on the files as they were when that command was
    issued refuses to start and runs no command; and whatever it is asked
    afterwards, it issues no command and reports that recovery is required. *)
Theorem interrupted_transaction_refused l w e crash b w1 :
  m_statePath ≠ [] → write_ahead m_statePath w →
  e ∈ w_log (run_ops foldCase m_statePath set_order l w) → mutates (ev_call e) = true →
  path_exists (w_intent crash) = ev_intent e →
  restart crash = (b, w1) →
  b = false
  ∧ ∀ ops, let w2 := run_ops foldCase m_statePath set_order ops w1 in
      w_log w2 = w_log crash
      ∧ ∀ o r w3, (∀ m, o ≠ OpRequireRecovery m) → run_op foldCase m_statePath set_order o w2 = (r, w3) →
          needs_recovery r ∧ w_log w3 = w_log crash.
Proof.
  intros Hp Hw He Hm Hd Hr. pose proof (run_ops_write_ahead foldCase m_statePath set_order l w Hw) as Hwa.
  unfold write_ahead in Hwa. rewrite Forall_forall in Hwa. destruct (Hwa e He Hm) as [?|Hi]; [done|].
  destruct (interrupted_load crash Hp) as (wl & El & Hl); [left; congruence|].
  apply restart_load in Hr as (wl' & El' & Hlog & _ & _ & _ & Hv & _). rewrite El in El'. injection El' as <- <-.
  split; [done|]. intros ops w2. destruct (run_halted foldCase m_statePath set_order ops w1 Hv) as [Hv2 Hl2].
  subst w2. rewrite Hl2, Hlog, Hl. split; [done|]. intros o r w3 Ho E.
  pose proof (h_returns _ _ _ _ r w3 (halted_refuses foldCase m_statePath set_order _ o) (conj Hv2 eq_refl) E)
    as [[_ H2] H3]. split; [auto|]. by rewrite H2, Hl2, Hlog, Hl.
Qed.
End interrupted.

(** ** What a start may change *)

Section marking.
Context `{QT : QtText} `{QN : QtNet} `{QD : QtData} {W : Type} `{HW : Host W}.
Context (foldCase : Z → Z).
Context (toUpper : text → text).
Context (m_statePath : text).
Context (legacyIntent : bool).
Notation op A := (prog (World W) bool A).
Notation restart := (restart (W := W) foldCase toUpper m_statePath legacyIntent).

Definition query (e : Event) : Prop := mutates (ev_call e) = false.

(** A route of the table is issued again, at most with the marker added, while
    the intent is on disk. *)
Definition marks (i : text) (s : RuleSnapshot) (e : Event) : Prop :=
  mutates (ev_call e) = true →
  ev_intent e = true
  ∧ ∃ p line b, line ∈ tableLines s ∧ ev_call e = CRun p (legacyRouteArguments line (lit "replace") i b).

(** The log from [base] on: queries, a reading of the legacy table, its marking. *)
Definition marking (base : list Event) (i : text) (s : RuleSnapshot) (w : World W) : Prop :=
  ∃ l0 h l1, w_log w = base ++ l0 ++ h ++ l1 ∧ Forall query l0 ∧ reading_of s h
    ∧ legacyTable i (tableLines s) = true ∧ Forall (marks i s) l1.

(** The marking was read back. *)
Definition marked (base : list Event) (i : text) (s : RuleSnapshot) (w : World W) : Prop :=
  ∃ l0 h l1 h1 l2 s1, w_log w = base ++ l0 ++ h ++ l1 ++ h1 ++ l2 ∧ Forall query l0 ∧ reading_of s h
    ∧ legacyTable i (tableLines s) = true ∧ Forall (marks i s) l1
    ∧ reading_of s1 h1 ∧ plainRoutes (tableLines s1) = plainRoutes (tableLines s) ∧ Forall query l2.

Definition start_log (base : list Event) (b : bool) (w : World W) : Prop :=
  untouched base w ∨ ∃ i s, marking base i s w ∧ (b = true → marked base i s w).

Lemma query_marks i s e : query e → marks i s e.
Proof. unfold query, marks. intros -> [=]. Qed.

Lemma reading_queries s h : reading_of s h → Forall query h.
Proof.
  intros (r4 & r6 & t4 & t6 & m & -> & [? Q1] & [? Q2] & [? Q3] & [? Q4] & [? Q5] & _). unfold query.
  rewrite !Forall_cons, Q1, Q2, Q3, Q4, Q5. by repeat split.
Qed.

Context (base : list Event).

#[local] Instance untouched_queries : Frame (W := W) (untouched base) (λ c, mutates c = false).
Proof.
  split; try done. intros w c r o Hc (l & Hl & Hq).
  exists (l ++ [{| ev_call := c; ev_result := r; ev_intent := path_exists (w_intent w) |}]).
  split; [simpl; by rewrite Hl, app_assoc|]. apply Forall_app_2; [done|]. by apply Forall_singleton.
Qed.

(** The commands of a marking. *)
Definition mark_call (i : text) (s : RuleSnapshot) (c : Call) : Prop :=
  mutates c = false
  ∨ ∃ p line b, line ∈ tableLines s ∧ c = CRun p (legacyRouteArguments line (lit "replace") i b).

#[local] Instance marking_frame i s :
  Frame (W := W) (λ w, marking base i s w ∧ path_exists (w_intent w) = true) (mark_call i s).
Proof.
  split; try done; [|by left]. intros w c r o Hc [(l0 & h & l1 & Hl & Hq & Hh & Ht & Hm) Hi]. split; [|done].
  exists l0, h, (l1 ++ [{| ev_call := c; ev_result := r; ev_intent := path_exists (w_intent w) |}]).
  split; [simpl; rewrite Hl; by rewrite <- !app_assoc|]. repeat split; try done.
  apply Forall_app_2; [done|]. apply Forall_singleton. intros Hmut. cbn [ev_call ev_intent] in *.
  destruct Hc as [Hc|Hc]; [congruence|]. done.
Qed.

#[local] Instance marking_queries i s : Frame (W := W) (marking base i s) (λ c, mutates c = false).
Proof.
  split; try done. intros w c r o Hc (l0 & h & l1 & Hl & Hq & Hh & Ht & Hm).
  exists l0, h, (l1 ++ [{| ev_call := c; ev_result := r; ev_intent := path_exists (w_intent w) |}]).
  split; [simpl; rewrite Hl; by rewrite <- !app_assoc|]. repeat split; try done.
  apply Forall_app_2; [done|]. apply Forall_singleton. by apply query_marks.
Qed.

#[local] Instance marked_queries i s : Frame (W := W) (marked base i s) (λ c, mutates c = false).
Proof.
  split; try done. intros w c r o Hc (l0 & h & l1 & h1 & l2 & s1 & Hl & H1 & H2 & H3 & H4 & H5 & H6 & H7).
  exists l0, h, l1, h1, (l2 ++ [{| ev_call := c; ev_result := r; ev_intent := path_exists (w_intent w) |}]), s1.
  split; [simpl; rewrite Hl; by rewrite <- !app_assoc|]. repeat split; try done.
  apply Forall_app_2; [done|]. by apply Forall_singleton.
Qed.

Lemma marked_marking i s w : marked base i s w → marking base i s w.
Proof.
  intros (l0 & h & l1 & h1 & l2 & s1 & Hl & H1 & H2 & H3 & H4 & H5 & H6 & H7).
  exists l0, h, (l1 ++ h1 ++ l2). split; [done|]. repeat split; try done. apply Forall_app_2; [done|].
  apply (Forall_impl query); [|apply query_marks]. apply Forall_app_2; [by eapply reading_queries|done].
Qed.

(** *** Parts that only ask *)

Section asking.
Context (I : World W → Prop) (allowed : Call → Prop) `{HF : !Frame I allowed}.
Hint Resolve k_update k_io k_set_receipt k_set_marker k_runCaptured k_state k_ipExecutable k_resolvectlExecutable
  k_acquireRouteLock k_saveState k_markRecoveryRequired k_readRuleSnapshot : keeps.

Lemma k_reject {A} c : keeps I (reject (W := W) (A := A) c).
Proof. unfold reject. keeps_tac. Qed.
Lemma k_reject_if b c : keeps I (reject_if (W := W) b c).
Proof. unfold reject_if. destruct b; [apply k_reject|]. keeps_tac. Qed.
Hint Resolve k_reject k_reject_if : keeps.

Lemma k_readReceipt object : keeps I (readReceipt (W := W) object).
Proof.
  unfold readReceipt, readRouting, readExtras, readBinding, add_server, add_domain, readPriorities, read_strings. keeps_tac.
Qed.
Lemma k_checkOnlyForward g s : keeps I (checkOnlyForward (W := W) g s).
Proof. unfold checkOnlyForward. keeps_tac. Qed.
Lemma k_checkAllExcept g bp fp s : keeps I (checkAllExcept (W := W) toUpper g bp fp s).
Proof. unfold checkAllExcept, probeLink, tablePrefix, foreignRule, validReservedRules, reservedRule. keeps_tac. Qed.
Hint Resolve k_checkOnlyForward k_checkAllExcept : keeps.
Lemma k_agrees g s :
  keeps I (let! st := state in
           let! _ := cmd_when (text_eqb (g_mode g) only_forward) (checkOnlyForward g s) in
           cmd_when (text_eqb (g_mode g) all_except)
             (checkAllExcept toUpper g (m_bypassRulePriority st) (m_fullRulePriority st) s)).
Proof. keeps_tac. Qed.
Lemma k_checkResolver g : keeps I (checkResolver (W := W) g).
Proof. unfold checkResolver. keeps_tac. Qed.
Lemma k_rewriteReceipt object g : keeps I (rewriteReceipt (W := W) m_statePath object g).
Proof. unfold rewriteReceipt. keeps_tac. Qed.
Lemma k_startWithoutReceipt : keeps I (startWithoutReceipt (W := W) foldCase).
Proof. unfold startWithoutReceipt. keeps_tac. Qed.
End asking.

(** *** The migration *)

Lemma total_migrate_prefix executable i l b prefix : total (migrate_prefix (W := W) executable i l b prefix).
Proof.
  unfold migrate_prefix. destruct (negb b); [apply total_pure|]. destruct (List.find _ _); [|apply total_pure].
  cbv zeta. case_bool_decide; [apply total_pure|]. apply total_bind; [apply total_run|intros ?; apply total_pure].
Qed.

Lemma total_restoreLegacy executable i l : total (restoreLegacy (W := W) foldCase executable i l).
Proof.
  unfold restoreLegacy. apply total_bind; [|intros ?; apply total_bind; [apply total_call|intros ?; apply total_pure]].
  apply total_fold. intros b line. unfold restore_line. cbv zeta. case_bool_decide; [apply total_pure|].
  apply total_bind; [apply total_run|intros ?; apply total_pure].
Qed.

Hint Resolve k_update k_io k_set_receipt k_set_marker k_runCaptured k_state k_ipExecutable k_resolvectlExecutable
  k_acquireRouteLock k_saveState k_markRecoveryRequired k_readRuleSnapshot k_reject k_reject_if marking_frame
  marking_queries marked_queries untouched_queries : keeps.

Lemma mark_run {E} i s p line b :
  line ∈ tableLines s →
  keeps (λ w, marking base i s w ∧ path_exists (w_intent w) = true)
    (run (W := W) (E := E) p (legacyRouteArguments line (lit "replace") i b)).
Proof. intros Hl. apply (k_run _ (mark_call i s)). right. by eexists _, _, _. Qed.

Lemma mark_prefix executable i s migrated prefix :
  keeps (λ w, marking base i s w ∧ path_exists (w_intent w) = true)
    (migrate_prefix (W := W) executable i (tableLines s) migrated prefix).
Proof.
  unfold migrate_prefix. destruct (negb migrated); [keeps_tac|].
  destruct (List.find _ _) as [line|] eqn:Ef; [|keeps_tac]. cbv zeta. case_bool_decide; [keeps_tac|].
  apply k_bind; [|intros ?; keeps_tac]. apply mark_run. apply find_some in Ef as [Ef _]. by apply list_elem_of_In.
Qed.

Lemma mark_restore executable i s :
  keeps (λ w, marking base i s w ∧ path_exists (w_intent w) = true)
    (restoreLegacy (W := W) foldCase executable i (tableLines s)).
Proof.
  unfold restoreLegacy. apply k_bind; [|intros ?; keeps_tac]. apply k_fold. intros b line Hl. unfold restore_line.
  cbv zeta. case_bool_decide; [keeps_tac|]. apply k_bind; [by apply mark_run|intros ?; keeps_tac].
Qed.

Lemma save_intent_arms i s o target X :
  m_statePath ≠ [] →
  hoare (marking base i s) (saveTransactionIntent (W := W) (E := bool) m_statePath o target)
    (λ b w, marking base i s w ∧ (b = true → path_exists (w_intent w) = true)) X.
Proof.
  intros Hp w Hw. unfold saveTransactionIntent. destruct (is_empty m_statePath) eqn:Ee; [by apply is_empty_true in Ee|].
  unfold cmd_bind at 1, gets, cmd_get. destruct (path_exists (w_intent w)) eqn:Ei; [by split|].
  unfold cmd_bind, io. destruct (host_io SaveIntent (w_outer w)) as [[] outer]; by split.
Qed.

(** What is read after the marking. *)
Lemma mark_readback i s :
  hoare (λ w, marking base i s w ∧ path_exists (w_intent w) = true)
    (let! s' := readRuleSnapshot (W := W) (E := bool) foldCase in pure (migratedTable i (tableLines s) s', s'))
    (λ r w, (marking base i s w ∧ path_exists (w_intent w) = true) ∧ (r.1 = true → marked base i s w)) (λ _ _, False).
Proof.
  intros w [Hm Hi]. pose proof Hm as (l0 & h & l1 & Hl & Hq & Hh & Ht & Hk).
  pose proof (snapshot_reading (E := bool) foldCase _ _ (λ _ _, False) (w_log w) (marking_frame i s) w
    (conj (conj Hm Hi) eq_refl)) as Hs.
  unfold cmd_bind. destruct (readRuleSnapshot foldCase w) as [[s'|?] w']; [|done]. destruct Hs as [[Hm' Hi'] Hs].
  split; [done|]. cbn [fst]. unfold migratedTable. intros Hv. bprop. destruct (Hs H) as (h1 & Hl1 & Hr1).
  exists l0, h, l1, h1, [], s'. split; [rewrite Hl1, Hl, app_nil_r; by rewrite <- !app_assoc|].
  by repeat split.
Qed.

(** A part that refuses on every early exit and keeps an invariant. *)
Lemma refuses_keeps {A} J (m : op A) : refuses m → keeps J m → hoare J m (λ _, J) (λ b w, b = false ∧ J w).
Proof.
  intros Hr Hm. eapply h_conseq; [exact (h_and _ _ _ _ _ _ (h_pre _ _ _ _ _ (λ w _, Logic.I) Hr) Hm)|done| |].
  - by intros a w [_ ?].
  - by intros b w [-> ?].
Qed.

Lemma clear_keeps_marked {E} i s X :
  hoare (marked base i s) (clearTransactionIntent (W := W) (E := E) m_statePath) (λ _, marked base i s) X.
Proof.
  intros w Hw. unfold clearTransactionIntent. destruct (is_empty _); [done|].
  unfold cmd_bind at 1, gets, cmd_get. destruct (w_intent w); [done| |done].
  unfold cmd_bind, io. by destruct (host_io RemoveIntent (w_outer w)) as [[] o].
Qed.

Lemma migrate_marks i s :
  m_statePath ≠ [] →
  hoare (marking base i s) (migrateLegacy (W := W) foldCase m_statePath i s)
    (λ _, marked base i s) (λ b w, b = false ∧ marking base i s w).
Proof.
  intros Hp. unfold migrateLegacy.
  eapply h_bind; [apply refuses_keeps; [apply r_total, total_acquireRouteLock|keeps_tac]|]. intros locked.
  eapply h_bind; [apply refuses_keeps; [apply r_reject_if|keeps_tac]|]. intros [].
  eapply h_bind; [apply refuses_keeps; [apply r_total, total_gets|keeps_tac]|]. intros executable.
  eapply h_bind; [by apply save_intent_arms|]. intros saved.
  set (K := λ w, marking base i s w ∧ path_exists (w_intent w) = true).
  assert (∀ A (m : op A), refuses m → keeps K m → hoare K m (λ _, K) (λ b w, b = false ∧ marking base i s w)) as HK.
  { intros A m Hr Hm. eapply h_conseq; [by apply refuses_keeps|done|done|]. by intros b w [-> [Hw _]]. }
  eapply (h_bind _ _ _ (λ _, K)).
  { destruct saved; cbn [negb]; [apply h_ret; intros w [? ?]; split; auto|].
    apply (h_pre (marking base i s)); [by intros w [? _]|]. apply (hoare_leaves _ _ (λ _, marking base i s)).
    - unfold reject_if, reject. leaves_tac.
    - apply refuses_keeps; [apply r_reject_if|keeps_tac]. }
  intros []. eapply h_bind; [apply HK; [|apply k_fold; intros; apply mark_prefix]|].
  { apply r_total, total_fold. intros. apply total_migrate_prefix. }
  intros migrated. eapply (h_bind _ _ _ (λ r w, K w ∧ (r.1 = true → marked base i s w))).
  { destruct migrated; [|by apply h_ret]. eapply h_conseq; [apply mark_readback|done|done|done]. }
  intros [[] s']; cbn [negb fst snd].
  - eapply h_pre; [by intros w [_ Hw]; apply (Hw eq_refl)|].
    eapply (h_bind _ _ _ (λ _, marked base i s)); [apply clear_keeps_marked|]. intros [|]; [by apply h_ret|].
    eapply h_conseq; [apply (refuses_keeps (marked base i s))|done|done|].
    + apply r_bind; [apply r_total, total_markRecoveryRequired|intros ?; apply r_reject].
    + keeps_tac.
    + intros b w [-> Hw]. split; [done|]. by apply marked_marking.
  - eapply h_pre; [by intros w [Hw _]; exact Hw|]. eapply h_bind; [apply HK; [|apply mark_restore]|].
    { apply r_total, total_restoreLegacy. }
    intros restored. eapply (hoare_leaves _ _ (λ _, K)); [unfold reject; leaves_tac|]. apply HK.
    + apply r_bind; [destruct restored; apply r_total; [apply total_pure|apply total_markRecoveryRequired]|].
      intros ?. apply r_reject.
    + unfold K. keeps_tac.
Qed.

(** *** The whole start *)

Lemma start_log_keeps {A} (m : op A) :
  refuses m → keeps (untouched base) m → (∀ i s, keeps (marking base i s) m) → (∀ i s, keeps (marked base i s) m) →
  hoare (start_log base true) m (λ _, start_log base true) (start_log base).
Proof.
  intros Hr Hu Hm Hd w [Hw|(i & s & Hw & Hb)].
  - pose proof (refuses_keeps _ m Hr Hu w Hw). destruct (m w) as [[?|?] ?]; left; [done|by destruct H].
  - pose proof (refuses_keeps _ m Hr (Hm i s) w Hw) as H1. pose proof (refuses_keeps _ m Hr (Hd i s) w (Hb eq_refl)) as H2.
    destruct (m w) as [[?|?] ?]; right; exists i, s; [done|]. destruct H1 as [-> ?]. by split.
Qed.

Lemma untouched_start {A} (m : op A) :
  refuses m → keeps (untouched base) m → hoare (untouched base) m (λ _, untouched base) (start_log base).
Proof. intros Hr Hu. eapply h_conseq; [by apply refuses_keeps|done|done|]. intros b w [_ ?]. by left. Qed.

Lemma checkKernel_log g :
  m_statePath ≠ [] →
  hoare (untouched base) (checkKernel (W := W) foldCase toUpper m_statePath g) (λ _, start_log base true) (start_log base).
Proof.
  intros Hp. unfold checkKernel.
  eapply h_bind; [apply untouched_start; [apply r_total, total_gets|keeps_tac]|]. intros executable.
  eapply h_bind; [apply untouched_start; [apply r_reject_if|keeps_tac]|]. intros [].
  eapply (h_bind _ _ _ (λ s w, untouched base w
    ∧ (valid s = true → ∃ l0 h, w_log w = base ++ l0 ++ h ∧ Forall query l0 ∧ reading_of s h))).
  { intros w Hw. pose proof Hw as (l0 & Hl & Hq).
    pose proof (snapshot_reading (E := bool) foldCase _ _ (λ _ _, False) (w_log w) untouched_queries w (conj Hw eq_refl)) as Hs.
    destruct (readRuleSnapshot foldCase w) as [[s|?] w']; [|done]. destruct Hs as [Hu Hs]. split; [done|].
    intros Hv. destruct (Hs Hv) as (h & Hl' & Hr). exists l0, h. by rewrite Hl', Hl, <- app_assoc. }
  intros s. eapply (h_bind _ _ _ (λ _ w, untouched base w
    ∧ ∃ l0 h, w_log w = base ++ l0 ++ h ∧ Forall query l0 ∧ reading_of s h)).
  { destruct (valid s); cbn [negb]; [apply h_ret; intros w [? ?]; auto|].
    apply (h_pre (untouched base)); [by intros w [? _]|]. apply (hoare_leaves _ _ (λ _, untouched base)).
    - unfold reject_if, reject. leaves_tac.
    - apply untouched_start; [apply r_reject_if|keeps_tac]. }
  intros []. eapply (h_bind _ _ _ (λ _, start_log base true)).
  { destruct (text_eqb _ _ && _) eqn:Et; [|apply h_ret; intros w [? _]; by left].
    apply andb_true_iff in Et as [_ Et]. apply (h_pre (marking base (g_interface g) s)).
    { intros w [_ (l0 & h & Hl & Hq & Hr)]. exists l0, h, []. by rewrite app_nil_r. }
    eapply h_conseq; [by apply migrate_marks|done| |].
    - intros ? w Hw. right. exists (g_interface g), s. split; [by apply marked_marking|done].
    - intros b w [-> Hw]. right. by exists (g_interface g), s. }
  intros s'. apply start_log_keeps.
  - apply r_bind; [apply r_total, total_gets|]. intros st. apply r_bind; [apply r_when|intros ?; apply r_when, r_checkAllExcept].
    apply r_checkOnlyForward.
  - eapply k_agrees. apply untouched_queries.
  - intros i0 s0. eapply k_agrees. apply marking_queries.
  - intros i0 s0. eapply k_agrees. apply marked_queries.
Qed.

Lemma loadState_log :
  hoare (untouched base) (loadState_body (W := W) foldCase toUpper m_statePath legacyIntent) (start_log base) (start_log base).
Proof.
  unfold loadState_body.
  eapply h_bind; [apply untouched_start; [apply r_total, total_modify|keeps_tac]|]. intros [].
  eapply h_bind; [apply untouched_start; [apply r_total, total_gets|keeps_tac]|]. intros executable.
  eapply h_bind; [apply untouched_start; [apply r_reject_if|keeps_tac]|]. intros [].
  destruct (is_empty m_statePath) eqn:Ep; [apply h_ret; by left|].
  assert (m_statePath ≠ []) as Hp by by intros ->.
  eapply h_bind; [apply untouched_start; [apply r_total, total_gets|keeps_tac]|]. intros marker.
  eapply h_bind; [apply untouched_start; [apply r_reject_if|keeps_tac]|]. intros [].
  eapply h_bind; [apply untouched_start; [apply r_total, total_gets|keeps_tac]|]. intros intent.
  do 2 (eapply h_bind; [apply untouched_start; [apply r_reject_if|keeps_tac]|]; intros []).
  eapply h_bind; [apply untouched_start; [apply r_total, total_gets|keeps_tac]|]. intros [|content|].
  - eapply h_conseq; [apply (refuses_keeps (untouched base))|done|by left|by intros b w [_ ?]; left].
    + apply r_startWithoutReceipt.
    + eapply k_startWithoutReceipt. apply untouched_queries.
  - unfold startFromReceipt. eapply h_bind; [apply untouched_start; [apply r_total, total_io|keeps_tac]|]. intros opened.
    eapply h_bind; [apply untouched_start; [apply r_reject_if|keeps_tac]|]. intros [].
    destruct (json_parse content) as [[]|]; try (eapply (hoare_leaves _ _ (λ _, untouched base));
      [unfold reject; leaves_tac|apply untouched_start; [apply r_reject|keeps_tac]]).
    eapply h_bind; [apply untouched_start; [apply r_readReceipt|eapply k_readReceipt; apply untouched_queries]|].
    intros g. eapply h_bind; [by apply checkKernel_log|]. intros [].
    eapply h_bind; [apply start_log_keeps|intros []].
    + apply r_checkResolver.
    + eapply k_checkResolver. apply untouched_queries.
    + intros. eapply k_checkResolver. apply marking_queries.
    + intros. eapply k_checkResolver. apply marked_queries.
    + eapply h_conseq; [apply start_log_keeps|done| |done].
      * apply r_rewriteReceipt.
      * eapply k_rewriteReceipt. apply untouched_queries.
      * intros. eapply k_rewriteReceipt. apply marking_queries.
      * intros. eapply k_rewriteReceipt. apply marked_queries.
      * intros b w [?|(i & s & ? & ?)]; [by left|]. right. exists i, s. auto.
  - eapply (hoare_leaves _ _ (λ _, untouched base)); [unfold reject; leaves_tac|].
    apply untouched_start; [apply r_reject|keeps_tac].
Qed.
End marking.

Section startup_log.
Context `{QT : QtText} `{QN : QtNet} `{QD : QtData} {W : Type} `{HW : Host W}.
Context (foldCase : Z → Z).
Context (toUpper : text → text).
Context (m_statePath : text).
Context (legacyIntent : bool).

(** A start changes nothing but markers.  Either a new process only asks, or
    it first reads table 51821 as the four half-default routes an older build
    left on the interface of the receipt; then every command that can change the
    host issues one of those routes again, with the same tokens and at most the
    protocol marker, while the intent is on disk.  If the start succeeds, a later
    complete reading, followed only by queries, shows the same routes but for
    the marker. *)
Theorem startup_only_marks_routes w b w1 :
  restart (W := W) foldCase toUpper m_statePath legacyIntent w = (b, w1) →
  (∃ l, w_log w1 = w_log w ++ l ∧ Forall query l)
  ∨ ∃ i s, marking (w_log w) i s w1 ∧ (b = true → marked (w_log w) i s w1).
Proof.
  intros (wl & El & Hl & _)%restart_load.
  assert (untouched (w_log w) (loading w)) as Hu by (exists []; by rewrite app_nil_r).
  pose proof (h_returns _ _ _ _ _ _ (loadState_log foldCase toUpper m_statePath legacyIntent (w_log w)) Hu El) as H.
  revert H. unfold start_log, untouched, marking, marked. by rewrite Hl.
Qed.
End startup_log.
