(* ===== verification/RouteResume.v ===== *)
(** * The route reconciler: a start that succeeds

    What the object holds after a successful start is what the receipt says, and
    the kernel that was read agrees with it. *)

From stdpp Require Import gmap.
From S2P Require Import Prelude Text Json QtInterface QtModel Command RoutePolicy RouteGrammar RouteState RouteRules.
From S2P Require Import FullTunnel RouteTransactions RouteStartup RouteFrame RouteSafety RouteCommit.
From S2P Require Import RouteRestart.
#[local] Open Scope Z_scope.
#[local] Open Scope amnezia_scope.

(** ** The receipt *)

(** A list of the receipt and the routes it was admitted as. *)
Definition stored_routes `{QtText} `{QtNet} (j : json) (routes : list text) : Prop :=
  ∃ raw, j = jstrings raw ∧ validatedManagedRoutes raw = (routes, true) ∧ length routes = length raw.

Definition stored_int (j : json) (n : Z) : Prop := j = JDouble (DInt n).

(** The object holds what the receipt says. *)
Record described `{QtText} `{QtNet} (object : jobject) (st : Reconciler) : Prop := {
  ds_mode : jvalue (lit "mode") object = JString (m_mode st);
  ds_modes : m_mode st = only_forward ∨ m_mode st = all_except;
  ds_interface : jvalue (lit "interface") object = JString (m_interfaceName st);
  ds_routes : stored_routes (jvalue (lit "routes") object) (m_routes st);
  ds_bypass : stored_routes (jvalue (lit "bypassRoutes") object) (m_bypassRoutes st);
  ds_critical : ∀ route, route ∈ m_criticalBypassRoutes st → route ∈ m_bypassRoutes st;
  ds_forward : m_mode st = only_forward → m_bypassRoutes st = [] ∧ (m_interfaceName st = [] ↔ m_routes st = []);
  ds_except : m_mode st = all_except → m_routes st = [] ∧ m_interfaceName st ≠ [];
  ds_bypassPriority : stored_int (jvalue (lit "bypassRulePriority") object) (m_bypassRulePriority st);
  ds_fullPriority : stored_int (jvalue (lit "fullRulePriority") object) (m_fullRulePriority st);
  ds_priorities : 1000 <= m_bypassRulePriority st <= 1099 ∧ 1100 <= m_fullRulePriority st <= 1999;
  ds_dns : m_dnsInterface st = to_string [] (jvalue (lit "dnsInterface") object)
           ∧ map JString (m_dnsServers st) = to_array (jvalue (lit "dnsServers") object)
           ∧ map JString (m_dnsDomains st) = to_array (jvalue (lit "dnsDomains") object);
  ds_dnsInterface : m_dnsInterface st = [] ∨ m_interfaceName st = [] ∨ m_dnsInterface st = m_interfaceName st;
}.

Lemma strictInt_Some j lo hi n : strictInt j lo hi = Some n → j = JDouble (DInt n) ∧ lo <= n <= hi.
Proof.
  destruct j as [| | |d| | |]; try done. cbn. destruct d as [z|m k|]; cbn; [|done|done].
  destruct (z <? lo) eqn:E1; [done|]. destruct (hi <? z) eqn:E2; [done|]. intros [= <-]. bprop. by split; [|lia].
Qed.

Lemma is_array_inv j : is_array j = true → j = JArray (to_array j).
Proof. by destruct j. Qed.
Lemma is_string_inv d j : is_string j = true → j = JString (to_string d j).
Proof. by destruct j. Qed.

Lemma empty_iff x (l : list text) : Bool.eqb (is_empty x) (bool_decide (l = [])) = true → (x = [] ↔ l = []).
Proof. intros H%eqb_prop. rewrite <- is_empty_true, H, bool_decide_eq_true. done. Qed.

Lemma empty_length (l l' : list text) : l' = [] → (length l =? length l')%nat = true → l = [].
Proof. intros -> H%Nat.eqb_eq. by apply nil_length_inv. Qed.

Section receipt.
Context `{QT : QtText} `{QN : QtNet} `{QD : QtData} {W : Type} `{HW : Host W}.

Lemma read_strings_Ok c l (w w' : World W) r : read_strings c l w = (Ok r, w') → w' = w ∧ l = map JString r.
Proof.
  unfold read_strings. assert (∀ acc, cmd_fold (λ acc value, match value with
    | JString s => pure (acc ++ [s]) | _ => reject c end) acc l w = (Ok r, w') → w' = w ∧ ∃ r', r = acc ++ r' ∧ l = map JString r') as Hg.
  { revert w. induction l as [|j l IH]; intros w acc H; cbn [cmd_fold] in H.
    { apply pure_Ok in H as [-> ->]. split; [done|]. exists []. by rewrite app_nil_r. }
    run_step. destruct j; run_inv. apply IH in H as (-> & r' & -> & ->). split; [done|].
    eexists (_ :: r'). by rewrite <- app_assoc. }
  intros H. apply Hg in H as (-> & r' & -> & ->). done.
Qed.

Lemma add_servers_Ok l (w w' : World W) u :
  cmd_each add_server l w = (Ok u, w') →
  ∃ r, l = map JString r
    ∧ w' = with_state (λ st, set_dns (m_dnsInterface st) (m_dnsServers st ++ r) (m_dnsDomains st) st) w.
Proof.
  unfold cmd_each. revert w u. induction l as [|j l IH]; intros w u H; cbn [cmd_fold] in H.
  { apply pure_Ok in H as [_ ->]. exists []. split; [done|]. destruct w as [[]]. unfold with_state, set_dns. cbn.
    by rewrite app_nil_r. }
  run_step. destruct j; cbn [add_server] in *; run_inv. destruct x. apply IH in H as (r & -> & ->). eexists (_ :: r). split; [done|].
  unfold with_state, set_dns. cbn. by rewrite <- app_assoc.
Qed.

Lemma add_domains_Ok l (w w' : World W) u :
  cmd_each add_domain l w = (Ok u, w') →
  ∃ r, l = map JString r
    ∧ w' = with_state (λ st, set_dns (m_dnsInterface st) (m_dnsServers st) (m_dnsDomains st ++ r) st) w.
Proof.
  unfold cmd_each. revert w u. induction l as [|j l IH]; intros w u H; cbn [cmd_fold] in H.
  { apply pure_Ok in H as [_ ->]. exists []. split; [done|]. destruct w as [[]]. unfold with_state, set_dns. cbn.
    by rewrite app_nil_r. }
  run_step. destruct j; cbn [add_domain] in *; run_inv. destruct x. apply IH in H as (r & -> & ->). eexists (_ :: r). split; [done|].
  unfold with_state, set_dns. cbn. by rewrite <- app_assoc.
Qed.

(** What the routing part of an accepted receipt says. *)
Record routing_of (object : jobject) (g : Routing) : Prop := {
  go_mode : jvalue (lit "mode") object = JString (g_mode g);
  go_modes : g_mode g = only_forward ∨ g_mode g = all_except;
  go_interface : jvalue (lit "interface") object = JString (g_interface g);
  go_raw : jvalue (lit "routes") object = jstrings (g_routes g)
           ∧ validatedManagedRoutes (g_routes g) = (g_bounded g, true) ∧ length (g_bounded g) = length (g_routes g);
  go_bypass : stored_routes (jvalue (lit "bypassRoutes") object) (g_bypass g);
  go_critical : ∀ route, route ∈ g_critical g → route ∈ g_bypass g;
  go_forward : g_mode g = only_forward → g_bypass g = [] ∧ (g_interface g = [] ↔ g_bounded g = []);
  go_except : g_mode g = all_except → g_bounded g = [] ∧ g_interface g ≠ [];
}.

Lemma readRouting_Ok object (w w' : World W) g :
  readRouting object w = (Ok g, w') → w' = w ∧ routing_of object g.
Proof.
  unfold readRouting. intros H. repeat (cbv zeta in H; run_step).
  match goal with Hr : read_strings _ _ _ = _ |- _ => apply read_strings_Ok in Hr as [-> Hroutes] end.
  destruct (validatedManagedRoutes _) as [bounded rv] eqn:Ev. repeat (cbv zeta in H; run_step).
  match goal with Hr : read_strings _ _ _ = _ |- _ => apply read_strings_Ok in Hr as [-> Hbypass] end.
  destruct (validatedManagedRoutes _) as [bypass bv] eqn:Eb in H. repeat (cbv zeta in H; run_step).
  match goal with Hr : (if jcontains _ _ then _ else _) ?w1 = (Ok ?r, ?w2) |- _ => assert (w2 = w1) as -> by
    (destruct (jcontains _ _); run_inv; [|done]; by match goal with Hr : read_strings _ _ _ = _ |- _ =>
       apply read_strings_Ok in Hr as [-> _] end) end.
  destruct (validatedManagedRoutes _) as [critical cv] eqn:Ec in H. repeat (cbv zeta in H; run_step).
  rewrite ?orb_false_iff, ?negb_false_iff in *. destruct_and!. split; [done|].
  assert (to_string only_forward (jvalue (lit "mode") object) = only_forward
          ∨ to_string only_forward (jvalue (lit "mode") object) = all_except) as Hmodes.
  { rewrite andb_false_iff, !negb_false_iff, !text_eqb_eq in *. done. }
  split; cbn [g_mode g_interface g_routes g_bounded g_bypass g_critical].
  - by apply is_string_inv.
  - done.
  - by apply is_string_inv.
  - split; [by unfold jstrings; rewrite <- Hroutes; apply is_array_inv|]. subst. split; [done|]. by apply Nat.eqb_eq.
  - exists x7. split; [by unfold jstrings; rewrite <- Hbypass; apply is_array_inv|]. subst. split; [done|]. by apply Nat.eqb_eq.
  - match goal with Hc : forallb _ critical = true |- _ => rewrite forallb_forall in Hc; intros route Hr;
      by apply list_elem_of_In, Hc, bool_decide_eq_true in Hr end.
  - intros Hm. rewrite Hm, text_eqb_refl, ?andb_true_l, ?negb_false_iff, ?bool_decide_eq_true in *.
    split; [by eapply empty_length|by apply empty_iff].
  - intros Hm. rewrite Hm, text_eqb_refl, ?andb_true_l, ?negb_false_iff, ?bool_decide_eq_true in *.
    split; [by eapply empty_length|]. intros Hn. by rewrite Hn in *.
Qed.

(** What the rest adds to the object. *)
Definition extras_of (object : jobject) (interfaceName : text) (st : Reconciler) : Prop :=
  (m_dnsInterface st = to_string [] (jvalue (lit "dnsInterface") object)
   ∧ map JString (m_dnsServers st) = to_array (jvalue (lit "dnsServers") object)
   ∧ map JString (m_dnsDomains st) = to_array (jvalue (lit "dnsDomains") object))
  ∧ (m_dnsInterface st = [] ∨ interfaceName = [] ∨ m_dnsInterface st = interfaceName).

Definition flags (st : Reconciler) : bool * bool * bool :=
  (m_needsReapply st, m_interfaceOffline st, m_initialized st).

Lemma readBinding_Ok object i (w w' : World W) u :
  readBinding object i w = (Ok u, w') → m_dnsServers (w_state w) = [] → m_dnsDomains (w_state w) = [] →
  ∃ f, w' = with_state f w ∧ extras_of object i (f (w_state w))
    ∧ flags (f (w_state w)) = flags (w_state w).
Proof.
  unfold readBinding. intros H Hs Hd. repeat (cbv zeta in H; run_step).
  match goal with Hr : cmd_each add_server _ _ = _ |- _ => apply add_servers_Ok in Hr as (servers & Es & ->) end.
  match goal with Hr : cmd_each add_domain _ _ = _ |- _ => apply add_domains_Ok in Hr as (domains & Ed & ->) end.
  repeat (cbv zeta in H; run_step).
  eexists (λ st, set_dns _ servers domains st). split.
  { unfold with_state. cbn. rewrite Hs, Hd. reflexivity. }
  split; [|done]. split; [by split; [|split]|]. cbn in H.
  apply andb_false_iff in H as [H|H].
  - left. apply negb_false_iff, is_empty_true in H. exact H.
  - apply orb_false_iff in H as [_ H]. right. apply andb_false_iff in H as [H|H]; apply negb_false_iff in H.
    + left. by apply is_empty_true.
    + right. by apply text_eqb_eq.
Qed.

Lemma absent_undefined k (o : jobject) : jcontains k o = false → jvalue k o = JUndefined.
Proof. intros H. apply jvalue_undefined. rewrite <- jcontains_true. congruence. Qed.

(** Only the object changes, and not its flags. *)
Definition reads_into (w w' : World W) : Prop :=
  ∃ f, w' = with_state f w ∧ flags (f (w_state w)) = flags (w_state w).

Lemma readExtras_Ok object i (w w' : World W) u :
  readExtras object i w = (Ok u, w') →
  m_dnsInterface (w_state w) = [] → m_dnsServers (w_state w) = [] → m_dnsDomains (w_state w) = [] →
  reads_into w w' ∧ extras_of object i (w_state w').
Proof.
  unfold readExtras. intros H Hi Hs Hd. repeat (cbv zeta in H; run_step).
  match goal with Hr : cmd_when _ (update _) _ = (Ok _, ?w2) |- _ =>
    assert (∃ d, w2 = with_state (set_lastDiagnostics d) w) as [d ->];
      [apply when_Ok in Hr as [[_ Hr]|[_ ->]]; [run_inv; by eexists|]|clear Hr] end.
  { exists (m_lastDiagnostics (w_state w)). by destruct w as [[]]. }
  apply when_Ok in H as [[_ H]|[Hn ->]].
  - apply readBinding_Ok in H as (f & -> & He & Hr); [|done|done]. split; [|done].
    by exists (λ st, f (set_lastDiagnostics d st)).
  - split; [by eexists|]. rewrite !orb_false_iff in Hn. destruct Hn as [[Hn1 Hn2] Hn3].
    apply absent_undefined in Hn1, Hn2, Hn3. unfold extras_of. rewrite Hn1, Hn2, Hn3. cbn. rewrite Hi, Hs, Hd.
    split; [done|]. by left.
Qed.

Lemma readPriorities_Ok object (w w' : World W) p :
  readPriorities object w = (Ok p, w') →
  w' = w ∧ stored_int (jvalue (lit "bypassRulePriority") object) p.1
  ∧ stored_int (jvalue (lit "fullRulePriority") object) p.2 ∧ 1000 <= p.1 <= 1099 ∧ 1100 <= p.2 <= 1999.
Proof.
  unfold readPriorities. destruct (strictInt _ FullTunnelBypassRulePriority _) as [bp|] eqn:E1; [|by intros ?%reject_not_Ok].
  destruct (strictInt _ FullTunnelRulePriority _) as [fp|] eqn:E2; [|by intros ?%reject_not_Ok].
  intros H. run_inv. apply strictInt_Some in E1 as [-> ?], E2 as [-> ?]. done.
Qed.

Lemma readReceipt_Ok object (w w' : World W) g :
  readReceipt object w = (Ok g, w') →
  m_dnsInterface (w_state w) = [] → m_dnsServers (w_state w) = [] → m_dnsDomains (w_state w) = [] →
  reads_into w w' ∧ routing_of object g ∧ described object (w_state w')
  ∧ m_mode (w_state w') = g_mode g ∧ m_interfaceName (w_state w') = g_interface g
  ∧ m_routes (w_state w') = g_bounded g ∧ m_bypassRoutes (w_state w') = g_bypass g.
Proof.
  unfold readReceipt. intros H Hi Hs Hd. repeat (cbv zeta in H; run_step).
  match goal with Hr : readRouting _ _ = _ |- _ => apply readRouting_Ok in Hr as [-> Hg] end.
  match goal with Hr : readExtras _ _ _ = _ |- _ => apply readExtras_Ok in Hr as [(f & -> & Hr) He]; [|done|done|done] end.
  match goal with Hr : readPriorities _ _ = _ |- _ => apply readPriorities_Ok in Hr as (-> & Hbp & Hfp & Hb1 & Hf1) end.
  repeat run_step.
  split; [eexists (λ st, set_priorities _ _ (set_routing _ _ _ _ _ (f st))); split; [reflexivity|done]|]. split; [done|].
  split; [|by repeat split]. destruct Hg as [? ? ? (? & ? & ?) ? ? ? ?]. destruct He as [? ?].
  split; try done. cbn. by eexists.
Qed.
End receipt.

(** ** Parts that leave the object alone *)

Section steady.
Context `{QT : QtText} `{QN : QtNet} `{QD : QtData} {W : Type} `{HW : Host W}.
Context (foldCase : Z → Z).
Context (m_statePath : text).

(** On its normal exit the part has changed no field, and the log has grown. *)
Definition steady {E A} (m : prog (World W) E A) : Prop :=
  ∀ w a w', m w = (Ok a, w') → w_state w' = w_state w ∧ ∃ l, w_log w' = w_log w ++ l.

Lemma steady_id (w w' : World W) : w' = w → w_state w' = w_state w ∧ ∃ l, w_log w' = w_log w ++ l.
Proof. intros ->. split; [done|]. exists []. by rewrite app_nil_r. Qed.

Lemma steady_bind {E A B} (m : prog (World W) E A) (k : A → prog (World W) E B) :
  steady m → (∀ a, steady (k a)) → steady (cmd_bind m k).
Proof.
  intros Hm Hk w b w' (a & w1 & [H1 [l1 L1]]%Hm & [H2 [l2 L2]]%Hk)%cmd_bind_Ok.
  split; [congruence|]. exists (l1 ++ l2). by rewrite L2, L1, app_assoc.
Qed.
Lemma steady_pure {E A} (a : A) : steady (pure (E := E) a).
Proof. intros w b w' [_ ->]%pure_Ok. by apply steady_id. Qed.
Lemma steady_gets {E A} (f : World W → A) : steady (gets (E := E) f).
Proof. intros w b w' [_ ->]%gets_Ok. by apply steady_id. Qed.
Lemma steady_reject {A} c : steady (reject (W := W) (A := A) c).
Proof. by intros w b w' ?%reject_not_Ok. Qed.
Lemma steady_reject_if b c : steady (reject_if (W := W) b c).
Proof. intros w u w' [_ ->]%rejectIf_passes. by apply steady_id. Qed.
Lemma steady_io {E} o : steady (io (W := W) (E := E) o).
Proof.
  intros w a w'. unfold io. destruct (host_io _ _). intros [= _ <-]. split; [done|]. exists []. by rewrite app_nil_r.
Qed.
Lemma steady_run {E} p args : steady (run (W := W) (E := E) p args).
Proof. intros w a w'. unfold run. destruct (host_run _ _ _). intros [= _ <-]. split; [done|]. by eexists. Qed.
Lemma steady_captured {E} p args : steady (runCaptured (W := W) (E := E) p args).
Proof. intros w a w'. unfold runCaptured. destruct (host_captured _ _ _). intros [= _ <-]. split; [done|]. by eexists. Qed.
Lemma steady_set_intent {E} p : steady (set_intent (W := W) (E := E) p).
Proof. intros w a w' [= _ <-]. split; [done|]. exists []. by rewrite app_nil_r. Qed.
Lemma steady_when {E} b (m : prog (World W) E ()) : steady m → steady (cmd_when b m).
Proof. intros Hm. destruct b; [done|]. apply steady_pure. Qed.
Lemma steady_fold {E A S} (f : S → A → prog (World W) E S) s l : (∀ s x, steady (f s x)) → steady (cmd_fold f s l).
Proof.
  intros Hf. revert s. induction l as [|x l IH]; intros s; cbn [cmd_fold]; [apply steady_pure|].
  apply steady_bind; [apply Hf|done].
Qed.
Lemma steady_lock {E} : steady (acquireRouteLock (W := W) (E := E) m_statePath).
Proof.
  unfold acquireRouteLock. destruct (is_empty _); [apply steady_pure|]. intros w a w'.
  destruct (host_tryLock _). intros [= _ <-]. split; [done|]. exists []. by rewrite app_nil_r.
Qed.

(** A snapshot leaves the object alone on both exits. *)
Lemma steady_snapshot {E} : steady (readRuleSnapshot (W := W) (E := E) foldCase).
Proof.
  intros w s w' H. set (J (w1 : World W) := w_state w1 = w_state w ∧ ∃ l, w_log w1 = w_log w ++ l).
  assert (keeps J (readRuleSnapshot_body (W := W) foldCase)) as Hk.
  { assert (∀ E p args, keeps J (runCaptured (W := W) (E := E) p args)) as Hc.
    { intros E0 p args w1 [H1 [l L]]. unfold runCaptured. destruct (host_captured _ _ _). split; [done|].
      eexists. cbn. rewrite L, <- app_assoc. reflexivity. }
    unfold readRuleSnapshot_body, readRules, readTable. keeps_tac; try apply Hc; apply k_gets. }
  assert (J w) as Hw by by apply steady_id. specialize (Hk w Hw). revert H. unfold readRuleSnapshot, call.
  destruct (readRuleSnapshot_body foldCase w) as [[?|?] ?]; by intros [= _ <-].
Qed.
End steady.

Create HintDb steady discriminated.
#[export] Hint Resolve steady_pure steady_gets steady_reject steady_reject_if steady_io steady_run steady_captured
  steady_set_intent steady_lock steady_snapshot : steady.
#[export] Hint Extern 1 (steady state) => apply steady_gets : steady.
#[export] Hint Extern 1 (steady ipExecutable) => apply steady_gets : steady.
#[export] Hint Extern 1 (steady resolvectlExecutable) => apply steady_gets : steady.
Ltac steady_tac :=
  repeat (cbv zeta beta; lazymatch goal with
    | |- steady (cmd_bind _ _) => apply steady_bind; [|intros ?]
    | |- steady (cmd_fold _ _ _) => apply steady_fold; intros ? ?
    | |- steady (cmd_when _ _) => apply steady_when
    | |- steady (if ?b then _ else _) => destruct b
    | |- steady (match ?x with _ => _ end) => destruct x
    | _ => solve [eauto with steady]
    end).

(** ** The kernel *)

Section agreement.
Context `{QT : QtText} `{QN : QtNet}.

(** The managed routes of the main table are exactly these, on this interface. *)
Definition split_up (i : text) (routes main : list text) : Prop :=
  (∀ line prefix j, line ∈ main → parseManagedMainRouteLine line = Some (prefix, j) → prefix ∈ routes ∧ j = i)
  ∧ ∀ route, route ∈ routes → ∃ line, line ∈ main ∧ managedMainRouteLineMatches line route i = true.

(** No full-tunnel rule in the range of the daemon. *)
Definition no_full_rule (l : list text) : Prop :=
  ∀ line p d, line ∈ l → parseManagedRuleLine line = Some (p, FullTunnel, d) → ¬ 1100 <= p <= 1999.

(** One full-tunnel rule per family and nowhere else, no rule that preempts
    them, and one bypass rule per route. *)
Definition tunnel_rules (bp fp : Z) (routes : list text) (s : RuleSnapshot) : Prop :=
  one_full_rule fp (linesV4 s) ∧ one_full_rule fp (linesV6 s)
  ∧ (∀ line p d, line ∈ linesV4 s ++ linesV6 s → parseManagedRuleLine line = Some (p, FullTunnel, d) → p = fp)
  ∧ (∀ line p, line ∈ linesV4 s ++ linesV6 s → parseBroadMainRuleLine line = Some p → fp <= p)
  ∧ lines_at bp (linesV6 s) = []
  ∧ ∃ ds, Forall2 (λ line d, parseManagedRuleLine line = Some (bp, Bypass, d)) (lines_at bp (linesV4 s)) ds
      ∧ NoDup ds ∧ ∀ d, d ∈ ds ↔ d ∈ routes.

(** What was read agrees with the object. *)
Definition agrees (st : Reconciler) (s : RuleSnapshot) : Prop :=
  (m_mode st = only_forward ∧ tableLines s = [] ∧ no_full_rule (linesV4 s ++ linesV6 s)
   ∧ split_up (m_interfaceName st) (m_routes st) (mainRouteLines s))
  ∨ (m_mode st = all_except ∧ tunnel_rules (m_bypassRulePriority st) (m_fullRulePriority st) (m_bypassRoutes st) s
     ∧ if m_needsReapply st then tableLines s = [] else full_table (m_interfaceName st) (tableLines s)).

Context {W : Type} `{HW : Host W}.
Context (toUpper : text → text).

Lemma checkOnlyForward_Ok g s (w w' : World W) u :
  checkOnlyForward g s w = (Ok u, w') →
  w' = w ∧ tableLines s = [] ∧ no_full_rule (linesV4 s ++ linesV6 s)
  ∧ split_up (g_interface g) (g_bounded g) (mainRouteLines s).
Proof.
  unfold checkOnlyForward. intros H. run_inv. split; [done|].
  rewrite ?negb_false_iff, ?bool_decide_eq_true, ?existsb_false_iff, ?forallb_forall in *.
  split; [done|]. split; [|split].
  - intros line p d Hl El Hp. specialize (H1 line Hl). unfold orphanFullRule in H1. rewrite El in H1.
    apply andb_false_iff in H1 as [H1|H1]; apply Z.leb_gt in H1; unfold FullTunnelRulePriority, FullTunnelPriorityLimit in H1; lia.
  - intros line prefix j Hl El. specialize (H3 line Hl). unfold foreignSplitRoute in H3. rewrite El in H3.
    apply orb_false_iff in H3 as [Hq Hj]. apply negb_false_iff in Hq, Hj. split; [by apply bool_decide_eq_true in Hq|].
    by apply text_eqb_eq.
  - intros route Hr. apply list_elem_of_In, H in Hr. by apply existsb_true_iff in Hr as (line & ? & ?); exists line.
Qed.

(** *** The table *)

Lemma managed_prefix line i p j :
  parseManagedFullTunnelRouteLine line i = Some (p, j) → p ∈ managedFullTunnelRoutePrefixes.
Proof.
  unfold parseManagedFullTunnelRouteLine, parseOwnedRouteLine.
  destruct (line_tokens line) as [|d [|dev [|iface attrs]]]; try done. destruct (_ || _); [done|]. cbv zeta.
  destruct (is_empty (canonicalRuleDestination d)); [done|]. rewrite (bool_decide_false (_ = [])) by done.
  cbn [negb andb]. destruct (qcontains (canonicalRuleDestination d) managedFullTunnelRoutePrefixes) eqn:Eq; [|done].
  cbn [negb]. destruct (_ && _); [done|]. destruct (parse_attributes _ _ _ _); [|done]. destruct (_ || _); [done|].
  intros [= <- _]. by apply bool_decide_eq_true in Eq.
Qed.

Lemma tablePrefix_fold i l acc (w w' : World W) acc' :
  cmd_fold (tablePrefix i) acc l w = (Ok acc', w') →
  w' = w ∧ ∃ ps, Forall2 (λ line p, ∃ j, parseManagedFullTunnelRouteLine line i = Some (p, j)) l ps
    ∧ NoDup ps ∧ ∀ p, p ∈ ps → p ∉ acc.
Proof.
  revert acc w. induction l as [|line l IH]; intros acc w H; cbn [cmd_fold] in H.
  { apply pure_Ok in H as [_ ->]. split; [done|]. exists []. split; [done|]. split; [constructor|].
    by intros p ?%elem_of_nil. }
  run_step. unfold tablePrefix in H0. destruct (parseManagedFullTunnelRouteLine line i) as [[p j]|] eqn:Ep; [|run_inv].
  case_bool_decide as Hp; run_inv. apply IH in H as (-> & ps & Hf & Hn & Hd). split; [done|].
  exists (p :: ps). split; [constructor; [by exists j|done]|]. split.
  - constructor; [|done]. intros Hps. specialize (Hd _ Hps). set_solver.
  - intros q [->|Hq]%elem_of_cons; [done|]. specialize (Hd _ Hq). set_solver.
Qed.

Lemma four_prefixes i l acc :
  i ≠ [] → length l = 4%nat →
  (∃ ps, Forall2 (λ line p, ∃ j, parseManagedFullTunnelRouteLine line i = Some (p, j)) l ps
    ∧ NoDup ps ∧ ∀ p, p ∈ ps → p ∉ (acc : gset text)) →
  full_table i l.
Proof.
  intros Hi Hl (ps & Hf & Hn & _). exists ps. split.
  - eapply Forall2_impl; [exact Hf|]. intros line p [j Hj]. pose proof (full_table_line _ _ _ _ Hi Hj) as ->. done.
  - apply submseteq_length_Permutation.
    + apply NoDup_submseteq; [done|]. intros p Hp. apply list_elem_of_lookup in Hp as [k Hk].
      eapply Forall2_lookup_r in Hf as (line & _ & j & Hj); [|done]. by eapply managed_prefix.
    + apply Forall2_length in Hf. rewrite <- Hf, Hl. reflexivity.
Qed.

(** *** The rules *)

(** What the lines at the two priorities were found to be. *)
Record reserved (bp fp : Z) (ipv6 : bool) (routes : list text) (l : list text) (ds : list text) (n : Z) : Prop := {
  rs_bypass : Forall2 (λ line d, parseManagedRuleLine line = Some (bp, Bypass, d)) (lines_at bp l) ds;
  rs_nodup : NoDup ds;
  rs_routes : ∀ d, d ∈ ds → d ∈ routes;
  rs_v6 : ipv6 = true → ds = [];
  rs_full : Forall (λ line, ∃ d, parseManagedRuleLine line = Some (fp, FullTunnel, d)) (lines_at fp l);
  rs_count : n = zlen (lines_at fp l);
}.

Lemma lines_at_cons p line l :
  lines_at p (line :: l) = (if bool_decide (rulePriority line = Some p) then [line] else []) ++ lines_at p l.
Proof. unfold lines_at. cbn [List.filter]. by case_bool_decide. Qed.

Lemma reserved_nil bp fp ipv6 routes : reserved bp fp ipv6 routes [] [] 0.
Proof. by split; [constructor|constructor|intros ? ?%elem_of_nil| |constructor|]. Qed.

Lemma reserved_other bp fp ipv6 routes line l ds n :
  rulePriority line ≠ Some bp → rulePriority line ≠ Some fp →
  reserved bp fp ipv6 routes l ds n → reserved bp fp ipv6 routes (line :: l) ds n.
Proof. intros H1 H2 []. split; rewrite ?lines_at_cons, ?bool_decide_false by done; done. Qed.

Lemma reserved_full bp fp ipv6 routes line l ds n d :
  bp ≠ fp → parseManagedRuleLine line = Some (fp, FullTunnel, d) →
  reserved bp fp ipv6 routes l ds n → reserved bp fp ipv6 routes (line :: l) ds (1 + n).
Proof.
  intros Hne El []. pose proof (managed_rule_priority _ _ _ _ El) as Hp. split; rewrite ?lines_at_cons; try done.
  - by rewrite bool_decide_false by congruence.
  - rewrite bool_decide_true by done. constructor; [by exists d|done].
  - rewrite bool_decide_true by done. unfold zlen in *. cbn [app length]. lia.
Qed.

Lemma reserved_bypass bp fp routes line l ds n d :
  bp ≠ fp → parseManagedRuleLine line = Some (bp, Bypass, d) → d ∈ routes → d ∉ ds →
  reserved bp fp false routes l ds n → reserved bp fp false routes (line :: l) (d :: ds) n.
Proof.
  intros Hne El Hr Hd []. pose proof (managed_rule_priority _ _ _ _ El) as Hp. split; rewrite ?lines_at_cons; try done.
  - rewrite bool_decide_true by done. by constructor.
  - by constructor.
  - intros x [->|Hx]%elem_of_cons; auto.
  - by rewrite bool_decide_false by congruence.
  - by rewrite bool_decide_false by congruence.
Qed.

Lemma reservedRule_fold bp fp ipv6 l acc n (w w' : World W) r :
  bp ≠ fp → cmd_fold (reservedRule bp fp ipv6) (acc, n) l w = (Ok r, w') →
  w' = w ∧ ∃ ds m, reserved bp fp ipv6 (m_bypassRoutes (w_state w)) l ds m
    ∧ r.1 = list_to_set ds ∪ acc ∧ (∀ d, d ∈ ds → d ∉ acc) ∧ r.2 = n + m.
Proof.
  intros Hne. revert acc n w. induction l as [|line l IH]; intros acc n w H; cbn [cmd_fold] in H.
  { apply pure_Ok in H as [-> ->]. split; [done|]. exists [], 0. split; [apply reserved_nil|].
    split; [cbn; by rewrite union_empty_l_L|]. split; [by intros ? ?%elem_of_nil|cbn; lia]. }
  run_step. unfold reservedRule in H0. destruct (rulePriority line) as [priority|] eqn:Ep.
  2: { run_inv. apply IH in H as (-> & ds & m & Hr & ?). split; [done|]. exists ds, m. split; [|done].
       by apply reserved_other; [congruence|congruence|]. }
  destruct (negb (priority =? bp) && negb (priority =? fp)) eqn:Eo.
  { apply andb_true_iff in Eo as [Eb Ef]. apply negb_true_iff, Z.eqb_neq in Eb, Ef.
    run_inv. apply IH in H as (-> & ds & m & Hr & ?). split; [done|]. exists ds, m. split; [|done].
    by apply reserved_other; [congruence|congruence|]. }
  destruct (parseManagedRuleLine line) as [[[parsed kind] d]|] eqn:El; [|run_inv].
  destruct (negb (parsed =? priority)) eqn:Eq; [run_inv|]. apply negb_false_iff, Z.eqb_eq in Eq as ->.
  destruct (Z.eqb_spec priority fp) as [->|Hf].
  - case_bool_decide as Hk; [subst kind|cbn [negb orb] in H0; run_inv]. cbn [negb orb] in H0.
    destruct (_ >? 1); run_inv. apply IH in H as (-> & ds & m & Hr & H1 & H2 & H3). split; [done|].
    exists ds, (1 + m). split; [by eapply reserved_full|]. cbn [fst snd] in *. repeat split; try done. lia.
  - cbn [negb] in Eo. rewrite andb_true_r in Eo. apply negb_false_iff, Z.eqb_eq in Eo as ->.
    run_step. run_step. destruct (_ || _) eqn:Eg; [run_inv|]. run_inv. rewrite !orb_false_iff, !negb_false_iff in Eg.
    destruct Eg as [[[-> Hk] Hc] Ha]. apply bool_decide_eq_true in Hk, Hc. apply bool_decide_eq_false in Ha. subst kind.
    cbn [fst snd] in *. apply IH in H as (-> & ds & m & Hr & H1 & H2 & H3). split; [done|].
    exists (d :: ds), m. split.
    + apply reserved_bypass; try done. intros Hd. specialize (H2 _ Hd). set_solver.
    + split; [rewrite H1; set_solver|]. split; [|done].
      intros x [->|Hx]%elem_of_cons; [done|]. specialize (H2 _ Hx). set_solver.
Qed.

Lemma one_full_of_reserved bp fp ipv6 routes l ds : reserved bp fp ipv6 routes l ds 1 → one_full_rule fp l.
Proof.
  intros [_ _ _ _ Hf Hn]. unfold zlen in Hn. destruct (lines_at fp l) as [|line [|? ?]] eqn:El; cbn [length] in Hn; [lia| |lia].
  apply Forall_cons in Hf as [[d Hd] _]. by exists line, d.
Qed.

Lemma validReservedRules_Ok bp fp l ipv6 require (w w' : World W) :
  bp ≠ fp → call (E := bool) (validReservedRules bp fp l ipv6 require) w = (Ok true, w') →
  w' = w ∧ ∃ ds, reserved bp fp ipv6 (m_bypassRoutes (w_state w)) l ds 1
    ∧ (require = true → ∀ d, d ∈ m_bypassRoutes (w_state w) → d ∈ ds).
Proof.
  intros Hne. unfold call.
  pose proof (r_validReservedRules bp fp l ipv6 require w Logic.I) as Hr.
  destruct (validReservedRules bp fp l ipv6 require w) as [[b|b] w0] eqn:E; [|by subst b].
  intros [= -> ->]. unfold validReservedRules in E. repeat (cbv zeta in E; run_step).
  apply pure_Ok in E as [_ ->]. match goal with Hf : cmd_fold _ _ _ _ = _ |- _ =>
    apply reservedRule_fold in Hf as (-> & ds & m & Hd & H1 & _ & H3); [|done] end.
  split; [done|]. exists ds. rewrite negb_false_iff, Z.eqb_eq in *. assert (m = 1) as -> by lia. split; [done|].
  intros ->. cbn [andb] in *. rewrite negb_false_iff, forallb_forall in *. intros d Hb.
  match goal with Ha : ∀ x, In x _ → _ |- _ => apply list_elem_of_In, Ha, bool_decide_eq_true in Hb end.
  rewrite H1, union_empty_r_L in Hb. by apply elem_of_list_to_set in Hb.
Qed.

Lemma foreignRules_Ok bp fp l (w w' : World W) u :
  cmd_each (foreignRule bp fp) l w = (Ok u, w') →
  w' = w ∧ ∀ line p d, line ∈ l → parseManagedRuleLine line = Some (p, FullTunnel, d) → p = fp.
Proof.
  unfold cmd_each. revert w u. induction l as [|line l IH]; intros w u H; cbn [cmd_fold] in H.
  { apply pure_Ok in H as [_ ->]. split; [done|]. by intros ? ? ? ?%elem_of_nil. }
  run_step. unfold foreignRule in H0. destruct (parseManagedRuleLine line) as [[[p k] d]|] eqn:El; run_inv;
    repeat match goal with y : () |- _ => destruct y end.
  - apply IH in H as [-> Hl]. split; [done|]. intros line' p' d' [->|Hl']%elem_of_cons E; [|by eapply Hl].
    rewrite El in E. injection E as -> -> ->. match goal with Hf : bool_decide _ && _ = false |- _ =>
      rewrite bool_decide_true in Hf by done; cbn [andb] in Hf; by apply negb_false_iff, Z.eqb_eq in Hf end.
  - apply IH in H as [-> Hl]. split; [done|]. intros line' p' d' [->|Hl']%elem_of_cons E; [congruence|by eapply Hl].
Qed.

(** *** The full tunnel *)

Lemma probeLink_steady i : steady (probeLink (W := W) toUpper i).
Proof. unfold probeLink. steady_tac. Qed.

Lemma tunnel_rules_of bp fp routes s ds4 ds6 :
  existsb (preemptsFullRule fp) (linesV4 s ++ linesV6 s) = false →
  (∀ line p d, line ∈ linesV4 s ++ linesV6 s → parseManagedRuleLine line = Some (p, FullTunnel, d) → p = fp) →
  reserved bp fp false routes (linesV4 s) ds4 1 → (true = true → ∀ d, d ∈ routes → d ∈ ds4) →
  reserved bp fp true routes (linesV6 s) ds6 1 → tunnel_rules bp fp routes s.
Proof.
  intros Hb Hf H4 Hr H6. split; [by eapply one_full_of_reserved|]. split; [by eapply one_full_of_reserved|].
  split; [done|]. split; [|split].
  - intros line p Hl El. apply (proj1 (existsb_false_iff _ _) Hb) in Hl. unfold preemptsFullRule in Hl.
    rewrite El in Hl. by apply Z.ltb_ge.
  - destruct H6 as [Hb6 _ _ Hn _ _]. rewrite (Hn eq_refl) in Hb6. by apply Forall2_nil_inv_r in Hb6.
  - destruct H4 as [Hb4 Hn Hs _ _ _]. exists ds4. split; [done|]. split; [done|]. intros d. split; auto.
Qed.

Lemma checkAllExcept_Ok g bp fp s (w w' : World W) u :
  bp ≠ fp → g_interface g ≠ [] → m_needsReapply (w_state w) = false →
  checkAllExcept toUpper g bp fp s w = (Ok u, w') →
  tunnel_rules bp fp (m_bypassRoutes (w_state w)) s
  ∧ ((tableLines s = [] ∧ w_state w' = set_reapply true true (w_state w))
     ∨ (full_table (g_interface g) (tableLines s) ∧ w_state w' = w_state w)).
Proof.
  intros Hne Hi Hn. unfold checkAllExcept. intros H. run_inv.
  match goal with Hr : (if ?v then call _ else _) _ = _, Hv : call _ _ = (Ok ?v, _) |- _ => destruct v; [|by run_inv] end.
  match goal with Hr : negb ?v = false |- _ => apply negb_false_iff in Hr as -> end.
  repeat match goal with Hv : call (validReservedRules _ _ _ _ _) _ = _ |- _ =>
    apply validReservedRules_Ok in Hv as (-> & ? & ? & ?); [|done] end.
  apply foreignRules_Ok in H as [-> Hforeign].
  match goal with Hf : cmd_fold (tablePrefix _) _ _ _ = _ |- _ => apply tablePrefix_fold in Hf as [-> Hps] end.
  match goal with Hw : cmd_when _ _ _ = (Ok _, ?w1) |- _ => assert ((tableLines s = [] ∧ w_state w1 = set_reapply true true (w_state w))
    ∨ (tableLines s ≠ [] ∧ w1 = w)) as Hst end.
  { match goal with Hw : cmd_when _ _ _ = _ |- _ => apply when_Ok in Hw as [[Hb Hw]|[Hb ->]] end.
    - apply bool_decide_eq_true in Hb. run_inv. left. split; [done|]. cbn. f_equal.
      match goal with Hp : probeLink _ _ _ = _ |- _ => by apply probeLink_steady in Hp as [? _] end.
    - apply bool_decide_eq_false in Hb. by right. }
  match goal with Hw : cmd_when _ _ _ = (Ok _, ?w1) |- _ =>
    assert (m_bypassRoutes (w_state w1) = m_bypassRoutes (w_state w)) as Hb by by destruct Hst as [[_ ->]|[_ ->]] end.
  rewrite Hb in *. split; [by eapply tunnel_rules_of|]. destruct Hst as [[? ?]|[Ht ->]]; [by left|]. right. split; [|done].
  rewrite Hn in *. cbn [negb andb] in *. rewrite !orb_false_iff, negb_false_iff, Nat.eqb_eq in *. destruct_and!.
  by eapply four_prefixes.
Qed.
End agreement.

(** ** Full-tunnel rules of a snapshot *)

Section owned.
Context `{QT : QtText} `{QN : QtNet} {W : Type} `{HW : Host W}.
Context (foldCase : Z → Z).

(** Every full-tunnel rule that was read is listed with its priority. *)
Definition full_listed (s : RuleSnapshot) : Prop :=
  ∀ line p d, line ∈ linesV4 s ++ linesV6 s → parseManagedRuleLine line = Some (p, FullTunnel, d) → p ∈ ownedFull s.

Lemma full_listed_line st v6 acc line acc' :
  snapshot_rule_line st v6 acc line = Ok acc' → full_listed acc.1 → valid acc.1 = false →
  full_listed acc'.1 ∧ valid acc'.1 = false.
Proof.
  destruct acc as [s seen]. unfold snapshot_rule_line. cbn [fst]. intros E Hs Hv.
  destruct (rulePriority line) as [priority|] eqn:Ep; [|by injection E as <-]. revert E.
  assert (∀ line' p d, line' ∈ linesV4 (add_line v6 priority line s) ++ linesV6 (add_line v6 priority line s) →
    parseManagedRuleLine line' = Some (p, FullTunnel, d) → line' = line ∨ p ∈ ownedFull s) as Hl.
  { intros line' p d Hin E. cbn in Hin. destruct v6; cbn in Hin; rewrite ?elem_of_app, ?list_elem_of_singleton in Hin;
      destruct (decide (line' = line)); [by left| |by left|]; right; eapply Hs; try done; set_solver. }
  destruct (parseManagedRuleLine line) as [[[q k] d]|] eqn:El.
  2: { intros [= <-]. split; [|done]. intros line' p d' Hin E. destruct (Hl _ _ _ Hin E) as [->|?]; [congruence|done]. }
  pose proof (managed_rule_priority _ _ _ _ El) as Hq. rewrite Ep in Hq. injection Hq as <-.
  destruct k.
  - intros [= <-]. split; [|done]. intros line' p d' Hin E. destruct (Hl _ _ _ Hin E) as [->|?]; [congruence|done].
  - rewrite Z.eqb_refl. cbn [negb]. case_bool_decide; [done|]. intros [= <-]. split; [|done].
    intros line' p d' Hin E. cbn. destruct (Hl _ _ _ Hin E) as [->|?]; [rewrite El in E; set_solver|set_solver].
  - destruct (_ && _); [case_bool_decide; [done|]|]; intros [= <-]; (split; [|done]);
      intros line' p d' Hin E; (destruct (Hl _ _ _ Hin E) as [->|?]; [congruence|done]).
Qed.

(** A snapshot under construction; the early exits leave an invalid one. *)
Definition unfinished (s : RuleSnapshot) : Prop := full_listed s ∧ valid s = false.

Lemma rules_listed executable st v6 acc :
  unfinished acc.1 →
  hoare (λ _, True) (readRules (W := W) executable st v6 acc) (λ a _, unfinished a.1) (λ s _, valid s = false).
Proof.
  intros [Ha Hv] w _. pose proof (readRules_step executable st v6 acc Hv w) as Hs. revert Hs.
  unfold readRules, cmd_bind. destruct (runCaptured _ _ w) as [[r|?] w1]; [|done].
  destruct (negb (ok r)); [done|]. unfold cmd_ret. destruct (snapshot_rules _ _ _ _) as [a|s] eqn:Er; [|done]. intros _.
  refine (rfold_inv (snapshot_rule_line st v6) (λ a, unfinished a.1) acc _ a _ (conj Ha Hv) Er).
  intros a0 line a1 [H1 H2] _ Hl. by eapply full_listed_line in Hl.
Qed.

Lemma table_listed executable v6 s :
  unfinished s →
  hoare (λ _, True) (readTable (W := W) foldCase executable v6 s) (λ a _, unfinished a) (λ s _, valid s = false).
Proof.
  intros Hu w _. unfold readTable, cmd_bind. destruct (runCaptured _ _ w) as [[r|s'] w1] eqn:Er.
  - destruct (negb (ok r)); [|exact Hu]. destruct (missingTable foldCase r); [done|]. by destruct Hu.
  - revert Er. unfold runCaptured. by destruct (host_captured _ _ _).
Qed.

Lemma full_listed_snapshot {E} (w w' : World W) s :
  readRuleSnapshot (E := E) foldCase w = (Ok s, w') → valid s = true → full_listed s.
Proof.
  intros H Hv.
  assert (hoare (λ _, True) (readRuleSnapshot_body (W := W) foldCase) (λ s _, valid s = true → full_listed s)
    (λ s _, valid s = false)) as Hh.
  { unfold readRuleSnapshot_body. eapply (h_bind _ _ _ (λ _ _, True)); [by intros w0 _|]. intros executable.
    destruct (is_empty _); [by apply h_ret|]. eapply (h_bind _ _ _ (λ _ _, True)); [by intros w0 _|]. intros st.
    eapply h_bind; [by apply rules_listed; split; [intros ? ? ? ?%elem_of_nil|]|]. intros a1.
    apply h_pre with (P := λ w, unfinished a1.1 ∧ True); [done|]. apply h_fact. intros U1.
    eapply h_bind; [by apply rules_listed|]. intros a2.
    apply h_pre with (P := λ w, unfinished a2.1 ∧ True); [done|]. apply h_fact. intros U2.
    eapply h_bind; [by apply table_listed|]. intros s1.
    apply h_pre with (P := λ w, unfinished s1 ∧ True); [done|]. apply h_fact. intros U3.
    eapply h_bind; [by apply table_listed|]. intros s2.
    apply h_pre with (P := λ w, unfinished s2 ∧ True); [done|]. apply h_fact. intros [U4 _].
    eapply (h_bind _ _ _ (λ _ _, True)); [intros w0 _; unfold runCaptured; by destruct (host_captured _ _ _)|].
    intros r. destruct (negb (ok r)); apply h_ret; intros w0 _ _; exact U4. }
  specialize (Hh w Logic.I). revert H. unfold readRuleSnapshot, call.
  destruct (readRuleSnapshot_body foldCase w) as [[s1|s1] w1]; intros [= -> ->]; [auto|congruence].
Qed.
End owned.

(** ** The whole start *)

Section resume.
Context `{QT : QtText} `{QN : QtNet} `{QD : QtData} {W : Type} `{HW : Host W}.
Context (foldCase : Z → Z).
Context (toUpper : text → text).
Context (m_statePath : text).
Context (legacyIntent : bool).
Notation op A := (prog (World W) bool A).

Lemma steady_saveIntent {E} o target : steady (saveTransactionIntent (W := W) (E := E) m_statePath o target).
Proof. unfold saveTransactionIntent. steady_tac. Qed.
Lemma steady_clearIntent {E} : steady (clearTransactionIntent (W := W) (E := E) m_statePath).
Proof. unfold clearTransactionIntent. steady_tac. Qed.
Lemma clearIntent_log {E} (w w' : World W) b :
  clearTransactionIntent (E := E) m_statePath w = (Ok b, w') → w_log w' = w_log w.
Proof.
  unfold clearTransactionIntent. destruct (is_empty _); [by intros [_ ->]%pure_Ok|].
  unfold cmd_bind at 1, gets, cmd_get. destruct (w_intent w); [by intros [= _ <-]| |by intros [= _ <-]].
  unfold cmd_bind, io. destruct (host_io RemoveIntent (w_outer w)) as [[] o]; by intros [= _ <-].
Qed.

Lemma migrate_Ok i s (w w' : World W) s' :
  migrateLegacy foldCase m_statePath i s w = (Ok s', w') →
  w_state w' = w_state w ∧ ∃ l h, w_log w' = w_log w ++ l ++ h ∧ reading_of s' h.
Proof.
  unfold migrateLegacy. intros H.
  run_inv. assert (∀ executable, steady (cmd_fold (migrate_prefix (W := W) executable i (tableLines s)) true
    managedFullTunnelRoutePrefixes)) as Hfold by (intros; unfold migrate_prefix; steady_tac).
  match goal with Hl : acquireRouteLock _ _ = _ |- _ => apply steady_lock in Hl as [S1 [l1 L1]] end.
  match goal with Hl : saveTransactionIntent _ _ _ _ = _ |- _ => apply steady_saveIntent in Hl as [S2 [l2 L2]] end.
  match goal with Hl : cmd_fold _ _ _ _ = _ |- _ => apply Hfold in Hl as [S3 [l3 L3]] end.
  destruct (negb _) eqn:En in H; [run_inv|]. apply negb_false_iff in En.
  match goal with Hr : (if ?m then _ else _) _ = (Ok _, _) |- _ => destruct m; [|by run_inv; cbn in En] end.
  run_inv. cbn [fst snd] in *. unfold migratedTable in En. rewrite !andb_true_iff in En. destruct En as [[[[Hv _] _] _] _].
  match goal with Hr : readRuleSnapshot _ _ = _ |- _ => pose proof (steady_snapshot _ _ _ _ Hr) as [S4 _];
    destruct (readRuleSnapshot_reads _ _ _ _ Hr Hv) as (h & L4 & Hh) end.
  match goal with Hc : clearTransactionIntent _ _ = (Ok ?c, _) |- _ => pose proof (clearIntent_log _ _ _ Hc) as L5;
    apply steady_clearIntent in Hc as [S5 _]; destruct c; [|run_inv] end.
  run_inv. cbn [snd]. split; [congruence|]. exists (l1 ++ l2 ++ l3), h. split; [|done].
  by rewrite L5, L4, L3, L2, L1, <- !app_assoc.
Qed.

Lemma checkKernel_Ok object g (w w' : World W) u :
  routing_of object g → described object (w_state w) → m_needsReapply (w_state w) = false →
  m_mode (w_state w) = g_mode g → m_interfaceName (w_state w) = g_interface g →
  m_routes (w_state w) = g_bounded g →
  checkKernel foldCase toUpper m_statePath g w = (Ok u, w') →
  ∃ s l h l', w_log w' = w_log w ++ l ++ h ++ l' ∧ reading_of s h ∧ Forall query l'
    ∧ agrees (w_state w') s
    ∧ (w_state w' = w_state w ∨ (m_mode (w_state w) = all_except ∧ w_state w' = set_reapply true true (w_state w))).
Proof.
  intros Hg Hd Hn Hm Hi Hr. unfold checkKernel. intros H. run_inv.
  match goal with Hv : negb _ = false |- _ => apply negb_false_iff in Hv end.
  match goal with Hs : readRuleSnapshot _ _ = _ |- _ => pose proof (steady_snapshot _ _ _ _ Hs) as [S1 _];
    destruct (readRuleSnapshot_reads _ _ _ _ Hs ltac:(eassumption)) as (h1 & L1 & Hh1) end.
  match goal with Hs : (if _ && _ then _ else _) ?wa = (Ok ?s, ?wb) |- _ =>
    assert (w_state wb = w_state w ∧ ∃ l h, w_log wb = w_log w ++ l ++ h ∧ reading_of s h) as (S2 & l & h & L2 & Hh);
      [destruct (_ && _); [apply migrate_Ok in Hs as (S3 & l & h & L3 & Hh)|apply pure_Ok in Hs as [-> ->]]|
       clear Hs; rename s into s2; rename wb into w2] end.
  { split; [congruence|]. exists (h1 ++ l), h. split; [|done]. by rewrite L3, L1, <- !app_assoc. }
  { split; [done|]. by exists [], h1. }
  rewrite S2 in *. destruct (go_modes _ _ Hg) as [Em|Em]; rewrite Em in *.
  - rewrite text_eqb_refl in *. cbn [cmd_when] in *.
    rewrite (proj2 (text_eqb_neq only_forward all_except)) in H by done. apply pure_Ok in H as [_ ->].
    match goal with Hc : checkOnlyForward _ _ _ = _ |- _ => apply checkOnlyForward_Ok in Hc as (-> & Ht & Hf & Hsp) end.
    exists s2, l, h, []. rewrite app_nil_r. split; [done|]. split; [done|]. split; [constructor|].
    split; [|by left]. left. rewrite S2, Hi, Hr. done.
  - rewrite text_eqb_refl in H. cbn [cmd_when] in H.
    match goal with Hc : cmd_when (text_eqb all_except only_forward) _ _ = _ |- _ =>
      rewrite (proj2 (text_eqb_neq all_except only_forward)) in Hc by done; apply pure_Ok in Hc as [_ ->] end.
    assert (untouched (w_log w2) w2) as Hu by (exists []; by rewrite app_nil_r).
    pose proof (k_checkAllExcept toUpper (untouched (w_log w2)) _ g (m_bypassRulePriority (w_state w)) (m_fullRulePriority (w_state w)) s2
      (HF := untouched_queries _) w2 Hu) as Hq. rewrite H in Hq. destruct Hq as (l' & L' & Hq).
    assert (m_bypassRulePriority (w_state w) ≠ m_fullRulePriority (w_state w)) as Hne.
    { pose proof (ds_priorities _ _ Hd). lia. }
    apply checkAllExcept_Ok in H as [Hrules Hst]; [|done| |by rewrite S2].
    2: { by destruct (go_except _ _ Hg Em). }
    exists s2, l, h, l'. split; [rewrite L', L2; by rewrite <- !app_assoc|]. split; [done|]. split; [done|].
    rewrite S2 in *. destruct Hst as [[Ht ->]|[Ht ->]].
    + split; [|by right]. right. by cbn.
    + split; [|by left]. right. split; [done|]. split; [done|]. rewrite Hn. by rewrite Hi.
Qed.

Lemma steady_saveState {E} : steady (saveState (W := W) (E := E) m_statePath).
Proof.
  assert (∀ p, steady (set_receipt (W := W) (E := E) p)) as Hs.
  { intros p w a w' [= _ <-]. split; [done|]. exists []. by rewrite app_nil_r. }
  unfold saveState. steady_tac.
Qed.

Lemma checkResolver_steady g : steady (checkResolver (W := W) g).
Proof. unfold checkResolver. steady_tac. Qed.

(** The object after a start, from what the receipt said. *)
Record resumed (st st' : Reconciler) : Prop := {
  rm_routing : m_mode st' = m_mode st ∧ m_interfaceName st' = m_interfaceName st ∧ m_routes st' = m_routes st
    ∧ m_bypassRoutes st' = m_bypassRoutes st ∧ m_criticalBypassRoutes st' = m_criticalBypassRoutes st;
  rm_dns : m_dnsInterface st' = m_dnsInterface st ∧ m_dnsServers st' = m_dnsServers st ∧ m_dnsDomains st' = m_dnsDomains st;
  rm_full : m_fullRulePriority st' = m_fullRulePriority st;
  rm_bypass : m_bypassRulePriority st' =
    if text_eqb (m_mode st) only_forward && (m_bypassRulePriority st =? 1000) then 1001 else m_bypassRulePriority st;
}.

Lemma rewriteReceipt_Ok object g (w w' : World W) b :
  m_mode (w_state w) = g_mode g →
  rewriteReceipt m_statePath object g w = (Ok b, w') →
  resumed (w_state w) (w_state w') ∧ m_needsReapply (w_state w') = m_needsReapply (w_state w)
  ∧ m_initialized (w_state w') = m_initialized (w_state w).
Proof.
  intros Hm H. unfold rewriteReceipt in H. run_inv.
  assert (steady (W := W) (let! saved := saveState m_statePath in reject_if (negb saved) "save_state_rewrite")) as Hsave.
  { apply steady_bind; [apply steady_saveState|]. intros ?. apply steady_reject_if. }
  match goal with Hs : cmd_when _ (let! saved := _ in _) ?wa = (Ok _, ?wb) |- _ =>
    assert (w_state wb = w_state wa) as -> by (by apply steady_when in Hs as [? _]; [|exact Hsave]); clear Hs end.
  match goal with Hs : cmd_when _ (let! _ := update _ in _) w = (Ok _, ?wb) |- _ =>
    assert (w_state wb = if text_eqb (m_mode (w_state w)) only_forward && (m_bypassRulePriority (w_state w) =? 1000)
              then set_priorities 1001 (m_fullRulePriority (w_state w)) (w_state w) else w_state w) as Hp;
    [rewrite Hm; apply when_Ok in Hs as [[E1 Hs]|[E1 ->]]; unfold FullTunnelBypassRulePriority in E1; rewrite E1; [|done]|]
  end.
  { match goal with Hs : cmd_bind _ _ w = _ |- _ => apply cmd_bind_Ok in Hs as (? & ? & ->%update_Ok & Hs);
      by apply Hsave in Hs as [-> _] end. }
  match goal with Hs : cmd_when _ (update _) ?wa = (Ok _, ?wb) |- _ =>
    assert (∃ o, w_state wb = set_reapply (m_needsReapply (w_state wa)) o (w_state wa)) as [o ->];
    [apply when_Ok in Hs as [[_ Hs]|[_ ->]]; [run_inv; by exists false|]|] end.
  { exists (m_interfaceOffline (w_state x2)). by destruct (w_state x2). }
  rewrite Hp. clear. split; [split|]; destruct (text_eqb (m_mode (w_state w)) only_forward && (_ =? 1000)); done.
Qed.

Lemma agrees_resumed st st' s :
  resumed st st' → m_needsReapply st' = m_needsReapply st → agrees st s → agrees st' s.
Proof.
  intros [(E1 & E2 & E3 & E4 & _) _ E5 E6] E7 [(Hm & H)|(Hm & H)]; [left|right]; rewrite E1.
  - by rewrite E2, E3.
  - rewrite Hm, (proj2 (text_eqb_neq all_except only_forward)) in E6 by done. cbn [andb] in E6.
    by rewrite E2, E4, E5, E6, E7.
Qed.

(** The kernel holds nothing with a durable mark of the daemon: table 51821 is
    empty, no rule of either family is a full-tunnel rule, and no route of the
    main table has the daemon's protocol and metric.  A narrow bypass rule
    [to ... lookup main] is no such mark: underlays install it too, and only an
    all-except receipt binds it to the daemon, so one that was left behind
    without a receipt counts as foreign, in the code as here. *)
Definition nothing_marked (s : RuleSnapshot) : Prop :=
  tableLines s = []
  ∧ (∀ line p d, line ∈ linesV4 s ++ linesV6 s → parseManagedRuleLine line ≠ Some (p, FullTunnel, d))
  ∧ ∀ line, line ∈ mainRouteLines s → parseManagedMainRouteLine line = None.

Lemma withoutReceipt_Ok (w w' : World W) b :
  startWithoutReceipt foldCase w = (Ok b, w') →
  w_state w' = w_state w ∧ ∃ s h, w_log w' = w_log w ++ h ∧ reading_of s h ∧ nothing_marked s.
Proof.
  intros H. unfold startWithoutReceipt in H. run_inv.
  rewrite ?orb_false_iff, ?negb_false_iff, ?bool_decide_eq_true, ?existsb_false_iff in *.
  match goal with Hs : readRuleSnapshot _ _ = (Ok ?s, _), Hv : valid ?s = true |- _ =>
    pose proof (steady_snapshot _ _ _ _ Hs) as [S1 _]; destruct (readRuleSnapshot_reads _ _ _ _ Hs Hv) as (h & L & Hh);
    pose proof (full_listed_snapshot _ _ _ _ Hs Hv) as Hf; split; [done|]; exists s, h end.
  split; [done|]. split; [done|]. destruct_and!. split; [done|]. split.
  - intros line p d Hl El. specialize (Hf _ _ _ Hl El). set_solver.
  - intros line Hl. match goal with Hb : ∀ x, x ∈ mainRouteLines _ → _ |- _ => apply Hb in Hl end.
    apply bool_decide_eq_false in Hl. by apply eq_None_not_Some.
Qed.

(** What a start that succeeds has read. *)
Definition started (w w1 : World W) : Prop :=
  match w_receipt w with
  | Special => False
  | Absent => ∃ s h, w_log w1 = w_log w ++ h ∧ reading_of s h ∧ nothing_marked s
      ∧ m_mode (w_state w1) = only_forward ∧ m_routes (w_state w1) = []
  | Regular content => ∃ object st s l h l',
      json_parse content = Some (JObject object) ∧ described object st ∧ resumed st (w_state w1)
      ∧ w_log w1 = w_log w ++ l ++ h ++ l' ∧ reading_of s h ∧ Forall query l' ∧ agrees (w_state w1) s
  end.

(** After the readings only queries are made. *)
Lemma resolver_log object g (w w1 w2 : World W) u b :
  checkResolver g w = (Ok u, w1) → rewriteReceipt m_statePath object g w1 = (Ok b, w2) →
  ∃ l, w_log w2 = w_log w ++ l ∧ Forall query l.
Proof.
  intros H1 H2. assert (untouched (w_log w) w) as Hu by (exists []; by rewrite app_nil_r).
  pose proof (k_checkResolver (untouched (w_log w)) _ g (HF := untouched_queries _) w Hu) as H3. rewrite H1 in H3.
  pose proof (k_rewriteReceipt m_statePath (untouched (w_log w)) _ object g (HF := untouched_queries _) w1 H3) as H4.
  by rewrite H2 in H4.
Qed.

Lemma fromReceipt_Ok content (w w' : World W) b :
  m_dnsInterface (w_state w) = [] → m_dnsServers (w_state w) = [] → m_dnsDomains (w_state w) = [] →
  m_needsReapply (w_state w) = false →
  startFromReceipt foldCase toUpper m_statePath content w = (Ok b, w') →
  ∃ object st s l h l',
    json_parse content = Some (JObject object) ∧ described object st ∧ resumed st (w_state w')
    ∧ w_log w' = w_log w ++ l ++ h ++ l' ∧ reading_of s h ∧ Forall query l' ∧ agrees (w_state w') s
    ∧ m_initialized (w_state w') = m_initialized (w_state w).
Proof.
  intros Hi Hs Hd Hn H. unfold startFromReceipt in H. run_inv.
  destruct (json_parse content) as [[| | | | | |object]|]; run_inv.
  match goal with Ho : io _ _ = _ |- _ => apply steady_io in Ho as [S0 [l0 L0]] end.
  match goal with Ho : readReceipt _ _ = _ |- _ =>
    apply readReceipt_Ok in Ho as ((f & -> & Hf) & Hg & Hdes & Em & Ei & Er & _); [|by rewrite S0..] end.
  set (w1 := with_state f x0) in *. injection Hf as Hf1 Hf2 Hf3.
  match goal with Ho : checkKernel _ _ _ _ _ = _ |- _ =>
    eapply checkKernel_Ok in Ho as (s & l & h & l' & L1 & Hh & Hq & Ha & Hst);
      [|exact Hg|exact Hdes|change (w_state w1) with (f (w_state x0)); congruence|done|done|done] end.
  match goal with Hc : checkResolver _ ?wa = (_, ?wb), Hw : rewriteReceipt _ _ _ _ = _ |- _ =>
    pose proof (resolver_log _ _ wa wb w' _ _ Hc Hw) as (l2 & L2 & Hq2);
    apply checkResolver_steady in Hc as [S2 _]; apply rewriteReceipt_Ok in Hw as (Hres & Hre & Hin);
    [|rewrite S2; destruct Hst as [->|[_ ->]]; exact Em]; rewrite S2 in * end.
  exists object, (w_state w1), s, (l0 ++ l), h, (l' ++ l2). split; [done|]. split; [done|].
  assert (resumed (w_state w1) (w_state w')) as Hr1.
  { destruct Hst as [E|[_ E]]; rewrite E in Hres; [done|]. destruct Hres. by split. }
  split; [done|]. split.
  { rewrite L2, L1. change (w_log w1) with (w_log x0). by rewrite L0, <- !app_assoc. }
  split; [done|]. split; [by apply Forall_app_2|]. split; [exact (agrees_resumed _ _ _ Hres Hre Ha)|].
  rewrite Hin. transitivity (m_initialized (w_state w1)); [by destruct Hst as [->|[_ ->]]|].
  change (w_state w1) with (f (w_state x0)). congruence.
Qed.

End resume.
