(* ===== verification/RouteExamples.v ===== *)
(** * The route reconciler on a small kernel

    A host that keeps policy rules and routes the way [ip] does, enough for the
    commands the reconciler issues.  It instantiates the theorems of the other
    files on concrete runs, and exhibits what happens when the split routes
    move to another interface. *)

From stdpp Require Import gmap.
From S2P Require Import Prelude Text Json QtInterface QtModel Ipv4 Command RoutePolicy RouteGrammar RouteState.
From S2P Require Import RouteRules FullTunnel RouteTransactions RouteStartup RouteFrame RouteSafety.
From S2P Require Import RouteOwnership RouteTunnel RouteCommit RouteChoice RouteRestart RouteResume JsonText.
#[local] Open Scope Z_scope.
#[local] Open Scope amnezia_scope.

(** ** The kernel *)

Record Kernel := MkKernel {
  k_rules4 : list text; k_rules6 : list text; k_table4 : list text; k_table6 : list text; k_main : list text;
  k_disk : bool;   (* whether the receipt can be written *)
}.

Definition words (l : list text) : text := join [32] l.
Definition done_result : CommandResult := {| ok := true; exitCode := 0; message := []; output := [] |}.
Definition failed_result : CommandResult := {| ok := false; exitCode := 2; message := lit "failed"; output := [] |}.

(** Appends or deletes a line. *)
Definition change (operation : text) (line : text) (same : text → bool) (l : list text) : option (list text) :=
  if text_eqb operation (lit "add") then Some (l ++ [line]) else
  if text_eqb operation (lit "replace") then Some (List.filter (λ x, negb (same x)) l ++ [line]) else
  if existsb (text_eqb line) l then Some (List.filter (λ x, negb (text_eqb line x)) l) else None.

Definition same_destination (destination line : text) : bool := starts_with (destination ++ [32]) line.

(** One [ip] command. *)
Definition ip_exec (args : list text) (k : Kernel) : option Kernel :=
  let v6 := text_eqb (part_at 0 args) (lit "-6") in
  match (if v6 then drop 1 args else args) with
  | kind :: operation :: a :: b :: rest =>
      if text_eqb kind (lit "rule") then
        let line := b ++ lit ": from all " ++ words rest in
        l ← change operation line (λ _, false) (if v6 then k_rules6 k else k_rules4 k);
        Some (if v6 then MkKernel (k_rules4 k) l (k_table4 k) (k_table6 k) (k_main k) (k_disk k)
              else MkKernel l (k_rules6 k) (k_table4 k) (k_table6 k) (k_main k) (k_disk k))
      else
      match rest with
      | interface :: table :: number :: rest' =>
          if text_eqb table (lit "table") then
            let line := words ([a; b; interface] ++ rest') in
            l ← change operation line (same_destination a) (if v6 then k_table6 k else k_table4 k);
            Some (if v6 then MkKernel (k_rules4 k) (k_rules6 k) (k_table4 k) l (k_main k) (k_disk k)
                  else MkKernel (k_rules4 k) (k_rules6 k) l (k_table6 k) (k_main k) (k_disk k))
          else
            (* a route of the main table is replaced whatever its device *)
            let line := words ([a; b] ++ rest) in
            l ← change operation line (same_destination a) (k_main k);
            Some (MkKernel (k_rules4 k) (k_rules6 k) (k_table4 k) (k_table6 k) l (k_disk k))
      | _ => None
      end
  | _ => None
  end.

Fixpoint ip_batch (l : list (list text)) (k : Kernel) : option Kernel :=
  match l with
  | [] => Some k
  | args :: l' => k' ← ip_exec args k; ip_batch l' k'
  end.

Definition outcome (before : Kernel) (after : option Kernel) : CommandResult * Kernel :=
  match after with Some k => (done_result, k) | None => (failed_result, before) end.

Definition ip_show (args : list text) (k : Kernel) : list text :=
  let v6 := text_eqb (part_at 0 args) (lit "-6") in
  if qcontains (lit "rule") args then if v6 then k_rules6 k else k_rules4 k
  else if qcontains (lit "main") args then k_main k
  else if v6 then k_table6 k else k_table4 k.

Definition kernel_captured (args : list text) (k : Kernel) : CommandResult :=
  {| ok := true; exitCode := 0; message := []; output := join [10] (ip_show args k) |}.

#[local] Instance toyHost : Host Kernel := {|
  host_resolve := λ names _, part_at 1 names;
  host_run := λ _ args k, outcome k (ip_exec args k);
  host_batch := λ _ commands k, outcome k (ip_batch commands k);
  host_captured := λ _ args k, (kernel_captured args k, k);
  host_now := λ _, 0;
  host_tryLock := λ k, (true, k);
  host_io := λ o k, (match o with SaveReceipt => k_disk k | _ => true end, k);
|}.

(** The two IPv6 addresses of the half-default prefixes, besides IPv4. *)
Definition dual_parse (s : text) : qhost :=
  if text_eqb s (lit "::") then HV6 0 [] else
  if text_eqb s (lit "8000::") then HV6 (2 ^ 127) [] else ascii_parse_host s.
Definition dual_text (h : qhost) : text :=
  match h with
  | HV6 a _ => if a =? 0 then lit "::" else lit "8000::"
  | _ => ascii_host_text h
  end.

#[local] Instance dualNet : QtNet := {|
  host_parse := dual_parse;
  host_toString := dual_text;
  host_isLoopback := @host_isLoopback asciiNet;
  host_isBroadcast := @host_isBroadcast asciiNet;
  host_isLinkLocal := @host_isLinkLocal asciiNet;
  host_isMulticast := @host_isMulticast asciiNet;
  host_parseSubnet := @host_parseSubnet asciiNet;
  host_isInSubnet := @host_isInSubnet asciiNet;
  url_toAce := @url_toAce asciiNet;
  url_host := @url_host asciiNet;
|}.

(** ** Runs *)

Module RouteExamples.
#[local] Existing Instances asciiText toyData.

Definition statePath : text := lit "/var/lib/amnezia/routes.json".
Definition elements_order (s : gset text) : list text := elements s.
Definition idCase (c : Z) : Z := c.

Definition run1 := run_op (W := Kernel) idCase statePath elements_order.
Definition runs := run_ops (W := Kernel) idCase statePath elements_order.

Definition eth_default : text := lit "default via 192.168.1.1 dev eth0 proto static metric 100".
Definition eth_link : text := lit "192.168.1.0/24 dev eth0 proto kernel scope link src 192.168.1.7 metric 100".

Definition kernel0 : Kernel :=
  MkKernel [lit "0: from all lookup local"; lit "32766: from all lookup main"] [lit "0: from all lookup local"] [] []
    [eth_default; eth_link] true.

Definition start (k : Kernel) : World Kernel :=
  MkWorld (set_initialized true freshReconciler) Absent Absent Absent [] k.

Definition route1 : text := lit "1.2.3.4".
Definition world1 : World Kernel := runs [OpApply (lit "wg0") [route1]] (start kernel0).
Definition world1b : World Kernel := runs [OpApply (lit "wg0") [route1]; OpClear] (start kernel0).
Definition full_op : RouteOp := OpApplyAllExcept (lit "wg0") [route1; lit "5.6.7.0/24"] [route1].
Definition full_run := run1 full_op (start kernel0).

Lemma intent_before_mutation_witness :
  write_ahead statePath world1b
  ∧ ∀ o r w2, w_intent world1b = Absent → run1 o world1b = (r, w2) → needs_recovery r ∨ w_intent w2 = Absent.
Proof.
  apply (intent_before_mutation idCase statePath elements_order [OpApply (lit "wg0") [route1]; OpClear] (start kernel0)).
  apply Forall_nil_2.
Defined.

Definition event (n : nat) (l : list Event) : Event := nth n l (Build_Event (CRun [] []) done_result false).

(** The receipt cannot be written. *)
Definition readonly : Kernel := MkKernel (k_rules4 kernel0) (k_rules6 kernel0) [] [] (k_main kernel0) false.
Definition lost := run1 (OpApply (lit "wg0") [route1]) (start readonly).

Lemma recovery_fails_closed_witness : w_log (runs [OpClear; full_op] lost.2) = w_log lost.2.
Proof.
  refine (proj1 (recovery_fails_closed idCase statePath elements_order (OpApply (lit "wg0") [route1]) (start readonly)
                   lost.1 lost.2 (w_log lost.2) (event 5 (w_log lost.2)) (surjective_pairing _) _ eq_refl _ _
                   [OpClear; full_op])).
  - split; vm_compute; reflexivity.
  - apply list_elem_of_In, nth_In. vm_compute. lia.
  - vm_compute. reflexivity.
Defined.

Lemma deleted_routes_are_owned_witness : just_owned (take 11 (w_log world1b)) route1 (lit "wg0").
Proof.
  apply (deleted_routes_are_owned idCase statePath elements_order [OpApply (lit "wg0") [route1]; OpClear] (start kernel0)
           _ (event 11 (w_log world1b)) (drop 12 (w_log world1b))).
  - reflexivity.
  - vm_compute. reflexivity.
  - exists (lit "/usr/sbin/ip"). vm_compute. reflexivity.
Defined.

Lemma critical_before_full_rule_witness : ∃ pre, length pre = 15%nat ∧ critical_shown (validatedManagedRoutes [route1]).1 pre.
Proof.
  exists (take 15 (w_log full_run.2)). split; [vm_compute; reflexivity|].
  apply (critical_before_full_rule idCase statePath elements_order (lit "wg0") [route1; lit "5.6.7.0/24"] [route1] (start kernel0)
           _ (event 15 (w_log full_run.2)) (drop 16 (w_log full_run.2))).
  - vm_compute. reflexivity.
  - exists (lit "/usr/sbin/ip"), 1100, false. vm_compute. reflexivity.
Defined.

Lemma full_tunnel_verified_witness :
  committed statePath (lit "wg0") (remove_duplicates (validatedManagedRoutes [route1; lit "5.6.7.0/24"]).1)
    (validatedManagedRoutes [route1]).1 full_run.2
  ∧ (statePath = [] ∨ w_intent full_run.2 = Absent).
Proof.
  apply (full_tunnel_verified idCase statePath elements_order (lit "wg0") [route1; lit "5.6.7.0/24"] [route1] (start kernel0)
           full_run.1 full_run.2 (surjective_pairing _)).
  vm_compute. reflexivity.
Defined.

(** The tunnel is up and is installed once more. *)
Definition second_reading := readRuleSnapshot (W := Kernel) (E := RouteReconcileResult) idCase full_run.2.
Definition second_snapshot : RuleSnapshot := match second_reading.1 with Ok s => s | Err _ => emptySnapshot end.

Lemma selected_priorities_safe_witness :
  selectRulePriorities (w_state full_run.2) second_snapshot = Some (1001, 1100)
  ∧ (lines_at 1001 (linesV4 second_snapshot) = []
     ∨ m_mode (w_state full_run.2) = all_except ∧ own_bypasses (w_state full_run.2) 1001 (linesV4 second_snapshot)).
Proof.
  assert (selectRulePriorities (w_state full_run.2) second_snapshot = Some (1001, 1100)) as E by (vm_compute; reflexivity).
  split; [exact E|].
  pose proof (selected_priorities_safe idCase (w_state full_run.2) full_run.2 second_snapshot second_reading.2) as H.
  rewrite E in H. apply H; vm_compute; reflexivity.
Defined.
End RouteExamples.

Module UnderlayExample.
#[local] Existing Instances asciiText asciiText_laws asciiNet asciiNet_laws.

Definition underlay : RuleSnapshot := validate_snapshot [RouteExamples.eth_default; RouteExamples.eth_link] emptySnapshot.

Lemma underlay_routes_exact_witness :
  underlayProtectedRoutes underlay (lit "wg0") [lit "1.2.3.4"] = Ok [lit "192.168.1.0/24"]
  ∧ ∀ x, route_covers (lit "192.168.1.0/24") x → private_address x.
Proof.
  split; [vm_compute; reflexivity|].
  destruct (underlay_routes_exact underlay (lit "wg0") [lit "1.2.3.4"] [lit "192.168.1.0/24"]) as (i & _ & _ & _ & H);
    [vm_compute; reflexivity|].
  apply H. constructor.
Defined.
End UnderlayExample.

(** ** The split routes move to another interface *)

Module InterfaceSwitch.
Import RouteExamples.
#[local] Existing Instances asciiText toyData.

Definition switched := run1 (OpApply (lit "wg1") [route1]) world1.

(** A route that is kept when the split routes move to another interface is
    lost.  With 1.2.3.4 routed to wg0 by the daemon, applying the same route to
    wg1 replaces it, as [ip route replace] does whatever the device; the old set
    is then found ambiguous on the new interface, the operation reports
    [route_remove_failed], and its rollback deletes the route.  The main table
    has no route to 1.2.3.4 any more, while the state and the receipt still
    claim it on wg0 and recovery is not required. *)
Theorem interface_switch_loses_route :
  existsb (same_destination route1) (k_main (w_outer world1)) = true
  ∧ rr_ok switched.1 = false ∧ rr_code switched.1 = lit "route_remove_failed"
  ∧ existsb (same_destination route1) (k_main (w_outer switched.2)) = false
  ∧ m_interfaceName (w_state switched.2) = lit "wg0" ∧ m_routes (w_state switched.2) = [route1]
  ∧ w_receipt switched.2 = w_receipt world1
  ∧ m_stateValid (w_state switched.2) = true ∧ w_intent switched.2 = Absent.
Proof. vm_compute. repeat split. Qed.
End InterfaceSwitch.

(** ** New processes *)

Module RestartExamples.
#[local] Existing Instances asciiText tokenData.

Definition upper : text → text := map (λ c, if (97 <=? c) && (c <=? 122) then c - 32 else c).
Definition runs := run_ops (W := Kernel) RouteExamples.idCase RouteExamples.statePath RouteExamples.elements_order.
#[local] Notation again := (restart (W := Kernel) RouteExamples.idCase upper RouteExamples.statePath false).

(** The tunnel is up, and the process is replaced. *)
Definition up : World Kernel := runs [RouteExamples.full_op] (RouteExamples.start RouteExamples.kernel0).


(** An older build left the four routes without a marker. *)
Definition legacy : World Kernel :=
  MkWorld (w_state up) (w_receipt up) Absent Absent []
    (MkKernel (k_rules4 (w_outer up)) (k_rules6 (w_outer up)) [lit "0.0.0.0/1 dev wg0"; lit "128.0.0.0/1 dev wg0"]
       [lit "::/1 dev wg0"; lit "8000::/1 dev wg0"] (k_main (w_outer up)) true).

Lemma startup_only_marks_routes_witness :
  (again legacy).1 = true ∧ ev_call (RouteExamples.event 5 (w_log (again legacy).2)) = CRun (lit "/usr/sbin/ip")
    [lit "route"; lit "replace"; lit "0.0.0.0/1"; lit "dev"; lit "wg0"; lit "table"; lit "51821"; lit "proto"; lit "186"]
  ∧ ∃ i s, marked [] i s (again legacy).2.
Proof.
  split; [vm_compute; reflexivity|]. split; [vm_compute; reflexivity|].
  destruct (startup_only_marks_routes RouteExamples.idCase upper RouteExamples.statePath false legacy
              (again legacy).1 (again legacy).2 (surjective_pairing _)) as [(l & Hl & Hq)|(i & s & _ & H)].
  - exfalso. assert (existsb (λ e, mutates (ev_call e)) (w_log (again legacy).2) = true) as Hm by (vm_compute; reflexivity).
    rewrite Hl in Hm. apply existsb_true_iff in Hm as (e & He & Hm). rewrite Forall_forall in Hq. specialize (Hq e He).
    unfold query in Hq. congruence.
  - exists i, s. apply H. vm_compute. reflexivity.
Defined.

(** The process dies while a route is being added. *)
Definition first_op : list RouteOp := [OpApply (lit "wg0") [RouteExamples.route1]].
Definition dying : Event := RouteExamples.event 5 (w_log (runs first_op (RouteExamples.start RouteExamples.kernel0))).
Definition crashed : World Kernel :=
  MkWorld freshReconciler Absent (Regular []) Absent [] RouteExamples.kernel0.

Lemma interrupted_transaction_refused_witness : (again crashed).1 = false.
Proof.
  refine (proj1 (interrupted_transaction_refused RouteExamples.idCase upper RouteExamples.statePath false
    RouteExamples.elements_order first_op (RouteExamples.start RouteExamples.kernel0) dying crashed
    (again crashed).1 (again crashed).2 _ _ _ _ _ (surjective_pairing _))).
  - vm_compute. discriminate.
  - apply Forall_nil_2.
  - apply list_elem_of_In, nth_In. vm_compute. lia.
  - vm_compute. reflexivity.
  - vm_compute. reflexivity.
Defined.
End RestartExamples.
