(* ===== verification/NamespacePolicy.v ===== *)
(** * The network namespace policy of a migrated AmneziaWG container

    Model of client/server_scripts/awg_migration/native/policy.cpp and
    policy.h: before a container is migrated, its hooks, firewall, routes and
    routing rules are read and compared with what is known to be supported;
    the rules found are turned into a script that recreates them.  Commands
    run in the container are calls of a [Runner], which may fail and whose
    answers may differ between calls. *)

From stdpp Require Import gmap.
From S2P Require Import Prelude Text QtInterface Command ByteText.
#[local] Open Scope Z_scope.
#[local] Open Scope amnezia_scope.

(** ** Addresses *)

Inductive Family := AF_INET | AF_INET6.

#[export] Instance Family_eq_dec : EqDecision Family.
Proof. solve_decision. Defined.

Definition family_width (f : Family) : Z := match f with AF_INET => 32 | AF_INET6 => 128 end.

(** The address functions of the C library. *)
Class Inet := {
  inet_pton : Family → text → option Z;   (* 1: the address, in host order *)
  inet_ntop : Family → Z → text;
}.

(** The documented behaviour relied on: the binary form fits the family, the
    text of an IPv4 address is dotted decimal and is read back, and printed
    addresses consist of hexadecimal digits, dots and colons. *)
Class InetLaws `(I : Inet) : Prop := {
  inet_pton_range f s a : inet_pton f s = Some a → 0 <= a < 2 ^ family_width f;
  inet_ntop4 a : is_u32 a → inet_ntop AF_INET a = dotted a;
  inet_pton4 a : is_u32 a → inet_pton AF_INET (dotted a) = Some a;
  inet_ntop_chars f a :
    0 <= a < 2 ^ family_width f →
    inet_ntop f a ≠ []
    ∧ Forall (λ c, is_lower_hex c = true ∨ c = 46 ∨ c = 58) (inet_ntop f a);
}.

Record Address := MkAddress {
  a_family : Family;
  a_bytes : Z;
  a_prefix : Z;
  a_ip : text;
  a_network : text;
}.

Definition address_error : text := lit "configuration address".

(** The text before and after the first [c]. *)
Fixpoint cut (c : Z) (s : text) : text * option text :=
  match s with
  | [] => ([], None)
  | x :: s' => if x =? c then ([], Some s') else let '(a, b) := cut c s' in (x :: a, b)
  end.

Definition not32 (x : Z) : Z := 2 ^ 32 - 1 - x.

Definition contiguous (x : Z) : bool := Z.land (not32 x) ((not32 x + 1) mod 2 ^ 32) =? 0.

(** [for(;n;n<<=1)++prefix;] on 32 bits. *)
Fixpoint count_shifts (fuel : nat) (n : Z) : Z :=
  match fuel with
  | O => 0
  | S f => if n =? 0 then 0 else 1 + count_shifts f ((n * 2) mod 2 ^ 32)
  end.

Section inet.
Context `{Inet}.

(** A dotted mask, or its complement. *)
Definition maskPrefix (mask : text) : result text Z :=
  let? _ := reject_if (contains_char 0 mask) address_error in
  match inet_pton AF_INET mask with
  | None => Err address_error
  | Some n =>
      if contiguous n then Ok (count_shifts 33 n)
      else let n := not32 n in
           let? _ := reject_if (negb (contiguous n)) address_error in Ok (count_shifts 33 n)
  end.

(** A decimal prefix length. *)
Definition decimalPrefix (width : Z) (mask : text) : result text Z :=
  let? p := rfold (λ p c,
      let? _ := reject_if ((c <? 48) || (c >? 57) || (p >? width)) address_error in
      Ok (p * 10 + c - 48)) 0 mask in
  let? _ := reject_if (p >? width) address_error in Ok p.

(** The bits past the prefix cleared, one by one. *)
Definition masked_bytes (width prefix bytes : Z) : Z :=
  foldl (λ m n, if n >=? prefix then Z.clearbit m (width - 1 - n) else m) bytes (seqZ 0 width).

Definition address (value : text) (strictNetwork : bool) : result text Address :=
  let '(host, mask) := cut 47 value in
  let family := if contains_char 58 host then AF_INET6 else AF_INET in
  let width := family_width family in
  let? host :=
    match cut 37 host with
    | (_, None) => Ok host
    | (before, Some zone) =>
        let? _ := reject_if (negb (bool_decide (family = AF_INET6)) || is_empty zone) address_error in
        Ok before
    end in
  let? _ := reject_if (contains_char 0 host) address_error in
  let? bytes := match inet_pton family host with Some b => Ok b | None => Err address_error end in
  let? prefix :=
    match mask with
    | None => Ok width
    | Some mask =>
        let? _ := reject_if (is_empty mask) address_error in
        if contains_char 46 mask && bool_decide (family = AF_INET) then maskPrefix mask
        else decimalPrefix width mask
    end in
  let masked := masked_bytes width prefix bytes in
  let? _ := reject_if (strictNetwork && negb (masked =? bytes)) address_error in
  Ok (MkAddress family bytes prefix (inet_ntop family bytes)
        (inet_ntop family masked ++ lit "/" ++ number prefix)).

Definition ipv4 (s : text) : result text text :=
  let? a := address s false in
  let? _ := reject_if (negb (bool_decide (a_family a = AF_INET)) || contains_char 47 s)
              address_error in
  Ok (a_ip a).
End inet.

(** ** Rules *)

Notation Lines := (list text).
Notation Fields := (gmap text text).

Definition has (v : Lines) (s : text) : bool := existsb (text_eqb s) v.

Definition get (f : Fields) (k : text) : result text text :=
  match f !! k with Some v => Ok v | None => Err (lit "missing field") end.

Definition field_or_empty (f : Fields) (k : text) : text := default [] (f !! k).

Definition standardFilter (i n : text) : Lines :=
  [ lit "-A INPUT -i " ++ i ++ lit " -j ACCEPT";
    lit "-A FORWARD -i " ++ i ++ lit " -j ACCEPT";
    lit "-A OUTPUT -o " ++ i ++ lit " -j ACCEPT";
    lit "-A FORWARD -s " ++ n ++ lit " -i " ++ i ++ lit " -o eth0 -j ACCEPT";
    lit "-A FORWARD -s " ++ n ++ lit " -i " ++ i ++ lit " -o eth1 -j ACCEPT";
    lit "-A FORWARD -m state --state RELATED,ESTABLISHED -j ACCEPT" ].

(** The argument of the first [name], its comma-separated parts sorted. *)
Fixpoint sortStates (name : text) (tokens : Lines) : result text Lines :=
  match tokens with
  | [] => Ok []
  | t :: rest =>
      if text_eqb t name then
        match rest with
        | [] => Err (lit "missing state")
        | v :: rest' => Ok (t :: join [44] (sort_text (split v 44)) :: rest')
        end
      else let? r := sortStates name rest in Ok (t :: r)
  end.

Definition renameInterface (iface t : text) : text :=
  if text_eqb t iface || text_eqb t (lit "%i") then lit "awg0" else t.

Definition normalize (rule iface : text) : result text text :=
  let? tokens := shell rule in
  let tokens := map (renameInterface iface) tokens in
  let? tokens := sortStates (lit "--state") tokens in
  let? tokens := sortStates (lit "--ctstate") tokens in
  Ok (join [32] tokens).

Definition insertNormalized (iface : text) (s : gset text) (r : text) : result text (gset text) :=
  let? n := normalize r iface in Ok ({[ n ]} ∪ s).

Definition normalized (v : Lines) (iface : text) : result text (gset text) :=
  rfold (insertNormalized iface) ∅ v.

(** The lines that mention one of the chains. *)
Definition groupFor (v : Lines) (chains : gset text) : result text Lines :=
  rfold (λ r line,
    let? tokens := shell line in
    Ok (if existsb (λ t, bool_decide (t ∈ chains)) tokens then r ++ [line] else r)) [] v.

(** ** Hooks *)

Definition hook_error : text := lit "unsupported_namespace_hook".

Definition eths : Lines := [lit "eth0"; lit "eth1"].

Definition forwardRule (iface eth : text) : text :=
  lit "-A FORWARD -i " ++ iface ++ lit " -o " ++ eth ++ lit " -j ACCEPT".
Definition networkMasquerade (network eth : text) : text :=
  lit "-A POSTROUTING -s " ++ network ++ lit " -o " ++ eth ++ lit " -j MASQUERADE".
Definition masqueradeRule (eth : text) : text :=
  lit "-A POSTROUTING -o " ++ eth ++ lit " -j MASQUERADE".

Definition natRules (network : text) : Lines :=
  flat_map (λ eth, [networkMasquerade network eth; masqueradeRule eth]) eths.

Fixpoint replaceFirst (a b : text) (l : Lines) : Lines :=
  match l with
  | [] => []
  | x :: l' => if text_eqb x a then b :: l' else x :: replaceFirst a b l'
  end.

Definition validateHook (iface network : text) (allowed : gset text) (flag command : text) :
    result text () :=
  if is_empty (trim command) then Ok () else
  let? tokens := shell command in
  match tokens with
  | [] => Err hook_error
  | front :: rest =>
      let? _ := reject_if (negb (text_eqb front (lit "iptables")) || negb (has tokens flag)) hook_error in
      match replaceFirst flag (lit "-A") rest with
      | t0 :: t1 :: rest' =>
          if text_eqb t0 (lit "-t") && text_eqb t1 (lit "nat") then
            let? nat := normalized (natRules network) iface in
            let? rule := normalize (join [32] rest') iface in
            reject_if (negb (bool_decide (rule ∈ nat))) hook_error
          else
            let? rule := normalize (join [32] (t0 :: t1 :: rest')) iface in
            reject_if (negb (bool_decide (rule ∈ allowed))) hook_error
      | tokens =>
          let? rule := normalize (join [32] tokens) iface in
          reject_if (negb (bool_decide (rule ∈ allowed))) hook_error
      end
  end.

Definition each {A} (f : A → result text ()) (l : list A) : result text () :=
  rfold (λ _ x, f x) () l.

Section hooks.
Context `{Inet}.

Definition validateHooks (interface : Fields) (iface : text) : result text () :=
  let? value := get interface (lit "Address") in
  let? a := address value false in
  let network := a_network a in
  let? allowed := normalized (standardFilter iface network) iface in
  let? allowed := rfold (insertNormalized iface) allowed (map (forwardRule iface) eths) in
  each (λ '(key, flag),
      each (validateHook iface network allowed flag) (split (field_or_empty interface key) 59))
    [(lit "PostUp", lit "-A"); (lit "PostDown", lit "-D")].
End hooks.

(** ** Fixed command output *)

(** [Cursor]: the text that is left. *)
Fixpoint take_text (value s : text) : option text :=
  match value, s with
  | [], _ => Some s
  | v :: value', c :: s' => if v =? c then take_text value' s' else None
  | _ :: _, [] => None
  end.

Fixpoint span (p : Z → bool) (s : text) : text * text :=
  match s with
  | [] => ([], [])
  | c :: s' => if p c then let '(a, b) := span p s' in (c :: a, b) else ([], s)
  end.

Definition take_number (dots : bool) (s : text) : option (text * text) :=
  let '(value, rest) := span (λ c, is_digit c || (dots && (c =? 46))) s in
  if is_empty value then None else Some (value, rest).

Definition take_protocol (s : text) : option (text * text) :=
  match take_text (lit "tcp") s with
  | Some r => Some (lit "tcp", r)
  | None => match take_text (lit "udp") s with
            | Some r => Some (lit "udp", r)
            | None => None
            end
  end.

Definition asciiSpace (c : Z) : bool := (c =? 32) || ((9 <=? c) && (c <=? 13)).
Definition word (c : Z) : bool :=
  is_digit c || ((97 <=? c) && (c <=? 122)) || ((65 <=? c) && (c <=? 90)) || (c =? 95).

Notation "'let*' x ':=' c 'in' k" := (match c with Some x => k | None => None end)
  (at level 10, x pattern, c at level 100, k at level 200) : amnezia_scope.

(** Protocol and port of a Docker DNS rule. *)
Definition dockerRule (line : text) (destination : bool) : option (text * text) :=
  let* s := take_text (if destination then lit "-A DOCKER_OUTPUT -d 127.0.0.11/32 -p "
                       else lit "-A DOCKER_POSTROUTING -s 127.0.0.11/32 -p ") line in
  let* (protocol, s) := take_protocol s in
  let* s := take_text (lit " -m ") s in
  let* s := take_text protocol s in
  let* s := take_text (if destination
                       then lit " --dport 53 -j DNAT --to-destination 127.0.0.11:"
                       else lit " --sport ") s in
  let* (port, s) := take_number false s in
  let* s := if destination then Some s else take_text (lit " -j SNAT --to-source :53") s in
  if is_empty s then Some (protocol, port) else None.

Inductive ProxyRule := Pre | Post | Dnat | Masquerade.

(** The captures of a DNS proxy rule; the second is empty where there is one. *)
Definition proxyRule (line : text) (kind : ProxyRule) : option (text * text) :=
  match kind with
  | Pre =>
      let* s := take_text (lit "-A PREROUTING -d ") line in
      let* (addr, s) := take_number true s in
      let* s := take_text (lit "/32 -p ") s in
      let* (protocol, s) := take_protocol s in
      let* s := take_text (lit " -m ") s in
      let* s := take_text protocol s in
      let* s := take_text (lit " --dport 53 -j SERVERX_DNS_PROXY_PRE") s in
      if is_empty s then Some (addr, protocol) else None
  | Post =>
      let* s := take_text (lit "-A POSTROUTING -p ") line in
      let* (protocol, s) := take_protocol s in
      let* s := take_text (lit " -m ") s in
      let* s := take_text protocol s in
      let* s := take_text (lit " --dport 53 -j SERVERX_DNS_PROXY_POST") s in
      if is_empty s then Some (protocol, []) else None
  | Dnat =>
      let* s := take_text (lit "-A SERVERX_DNS_PROXY_PRE -p ") line in
      let* (protocol, s) := take_protocol s in
      let* s := take_text (lit " -j DNAT --to-destination ") s in
      let* (addr, s) := take_number true s in
      let* s := take_text (lit ":53") s in
      if is_empty s then Some (protocol, addr) else None
  | Masquerade =>
      let* s := take_text (lit "-A SERVERX_DNS_PROXY_POST -d ") line in
      let* (addr, s) := take_number true s in
      let* s := take_text (lit "/32 -j MASQUERADE") s in
      if is_empty s then Some (addr, []) else None
  end.

(** Priority and table of a routing rule. *)
Definition lookupRule (line : text) : option (text * text) :=
  let s := (span asciiSpace line).2 in
  let* (priority, s) := take_number false s in
  let* s := take_text (lit ":") s in
  let '(spaces, s) := span asciiSpace s in
  if is_empty spaces then None else
  let* s := take_text (lit "from all lookup ") s in
  let table name := let* s := take_text name s in Some (name, s) in
  let* (name, s) :=
    match table (lit "local") with
    | Some r => Some r
    | None => match table (lit "main") with
              | Some r => Some r
              | None => table (lit "default")
              end
    end in
  if is_empty (span asciiSpace s).2 then Some (priority, name) else None.

(** The number after the first ["mtu "] that is a word of its own followed by a
    number that is a word of its own; [prev] is the character before. *)
Fixpoint observedMtu_go (fuel : nat) (prev : option Z) (s : text) : option text :=
  match fuel with
  | O => None
  | S f =>
      match s with
      | [] => None
      | c :: s' =>
          match take_text (lit "mtu ") s with
          | None => observedMtu_go f (Some c) s'
          | Some rest =>
              let '(digits, after) := span is_digit rest in
              if negb (match prev with Some p => word p | None => false end)
                 && negb (is_empty digits)
                 && negb (match after with a :: _ => word a | [] => false end)
              then Some digits
              else observedMtu_go f (Some 32) rest
          end
      end
  end.

Definition observedMtu (line : text) : option text := observedMtu_go (length line) None line.

Definition mtu_error : text := lit "unsupported_mtu".

Definition mtu (v : text) : result text Z :=
  let? _ := reject_if (negb (forallb is_digit v && ((tsize v =? 3) || (tsize v =? 4)))) mtu_error in
  let n := dec_value v in
  let? _ := reject_if ((n <? 576) || (n >? 9000)) mtu_error in
  Ok n.

(** ** Docker DNS and the DNS proxy *)

Definition firewall_error : text := lit "unsupported_namespace_firewall".

Definition dockerFixed : Lines :=
  [ lit "-N DOCKER_OUTPUT"; lit "-N DOCKER_POSTROUTING";
    lit "-A OUTPUT -d 127.0.0.11/32 -j DOCKER_OUTPUT";
    lit "-A POSTROUTING -d 127.0.0.11/32 -j DOCKER_POSTROUTING" ].

Definition add_port (ports : gmap text Z) (protocol : text) (port : Z) :
    result text (gmap text Z) :=
  let? _ := reject_if (bool_decide (is_Some (ports !! protocol)) || (port <? 1024) || (port >? 65535))
              firewall_error in
  Ok (<[ protocol := port ]> ports).

(** [std::stoul] of a digit string, which throws past [unsigned long]. *)
Definition stoul (s : text) : result text Z :=
  if dec_value s >=? 2 ^ 64 then Err firewall_error else Ok (dec_value s).

(** One line of the group: [destinations] and [sources] after it. *)
Definition dockerLine (st : gmap text Z * gmap text Z) (line : text) :
    result text (gmap text Z * gmap text Z) :=
  let '(destinations, sources) := st in
  if has dockerFixed line then Ok st else
  match dockerRule line true with
  | Some (protocol, digits) =>
      let? port := stoul digits in
      let? d := add_port destinations protocol port in Ok (d, sources)
  | None =>
      match dockerRule line false with
      | Some (protocol, digits) =>
          let? port := stoul digits in
          let? s := add_port sources protocol port in Ok (destinations, s)
      | None => Err firewall_error
      end
  end.

Definition dockerDnsRules (input : Lines) : result text (Lines * bool) :=
  let? group := groupFor input {[ lit "DOCKER_OUTPUT"; lit "DOCKER_POSTROUTING" ]} in
  if bool_decide (group = []) then Ok (input, false) else
  let unique : gset text := list_to_set group in
  let? _ := reject_if (negb (bool_decide (length group = 8%nat)) || negb (bool_decide (size unique = 8%nat))
                       || negb (forallb (λ l, bool_decide (l ∈ unique)) dockerFixed))
              firewall_error in
  let? (destinations, sources) := rfold dockerLine (∅, ∅) group in
  let? _ := reject_if (negb (bool_decide (size destinations = 2%nat))
                       || negb (bool_decide (sources = destinations))) firewall_error in
  Ok (filter (λ line, line ∉ unique) input, true).

Record ProxyState := MkProxyState {
  selectors : gmap text (gset text);
  post : gset text;
  proxyDestinations : Fields;
  masquerade : text;
}.

Definition proxyDecl : Lines := [lit "-N SERVERX_DNS_PROXY_PRE"; lit "-N SERVERX_DNS_PROXY_POST"].

Definition proxyLine (st : ProxyState) (line : text) : result text ProxyState :=
  if has proxyDecl line then Ok st else
  match proxyRule line Pre with
  | Some (addr, protocol) =>
      let old := default ∅ (selectors st !! addr) in
      let? _ := reject_if (bool_decide (protocol ∈ old)) firewall_error in
      Ok (MkProxyState (<[ addr := {[ protocol ]} ∪ old ]> (selectors st)) (post st)
            (proxyDestinations st) (masquerade st))
  | None =>
      match proxyRule line Post with
      | Some (protocol, _) =>
          let? _ := reject_if (bool_decide (protocol ∈ post st)) firewall_error in
          Ok (MkProxyState (selectors st) ({[ protocol ]} ∪ post st) (proxyDestinations st) (masquerade st))
      | None =>
          match proxyRule line Dnat with
          | Some (protocol, addr) =>
              let? _ := reject_if (bool_decide (is_Some (proxyDestinations st !! protocol))) firewall_error in
              Ok (MkProxyState (selectors st) (post st)
                    (<[ protocol := addr ]> (proxyDestinations st)) (masquerade st))
          | None =>
              match proxyRule line Masquerade with
              | Some (addr, _) =>
                  let? _ := reject_if (negb (is_empty (masquerade st))) firewall_error in
                  Ok (MkProxyState (selectors st) (post st) (proxyDestinations st) addr)
              | None => Err firewall_error
              end
          end
      end
  end.

Definition dnsServer : text := lit "172.29.172.254".
Definition bothProtocols : gset text := {[ lit "tcp"; lit "udp" ]}.

Section proxy.
Context `{Inet}.

(** A unicast IPv4 address in its canonical spelling. *)
Definition proxyAddress (s : text) : result text () :=
  match address s false with
  | Err _ => Err firewall_error
  | Ok a =>
      let first := a_bytes a / 2 ^ (family_width (a_family a) - 8) in
      reject_if (negb (bool_decide (a_family a = AF_INET)) || negb (text_eqb (a_ip a) s)
                 || ((224 <=? first) && (first <=? 239)) || text_eqb s (lit "0.0.0.0")
                 || (first =? 127) || text_eqb s (lit "255.255.255.255")) firewall_error
  end.

Definition serverDnsProxyRules (input : Lines) (sourceAddress : text) : result text Lines :=
  let? group := groupFor input {[ lit "SERVERX_DNS_PROXY_PRE"; lit "SERVERX_DNS_PROXY_POST" ]} in
  if bool_decide (group = []) then Ok [] else
  let unique : gset text := list_to_set group in
  let? _ := reject_if (negb (bool_decide (length group = 13%nat)) || negb (bool_decide (size unique = 13%nat))
                       || negb (forallb (λ l, bool_decide (l ∈ unique)) proxyDecl)) firewall_error in
  let? st := rfold proxyLine (MkProxyState ∅ ∅ ∅ []) group in
  let addresses :=
    (map_to_list (selectors st)).*1 ++ (map_to_list (proxyDestinations st)).*2 ++ [masquerade st] in
  let? _ := each proxyAddress addresses in
  let? source := address sourceAddress false in
  let expected : gset text := {[ a_ip source; lit "1.0.0.1"; dnsServer ]} in
  let? _ := each (λ '(_, protocols), reject_if (negb (bool_decide (protocols = bothProtocols))) firewall_error)
              (map_to_list (selectors st)) in
  let? _ := reject_if (negb (bool_decide (size expected = 3%nat))
                       || negb (bool_decide (dom (selectors st) = expected))
                       || negb (bool_decide (post st = bothProtocols))
                       || negb (bool_decide (size (proxyDestinations st) = 2%nat))
                       || negb (text_eqb (field_or_empty (proxyDestinations st) (lit "tcp")) dnsServer)
                       || negb (text_eqb (field_or_empty (proxyDestinations st) (lit "udp")) dnsServer)
                       || negb (text_eqb (masquerade st) dnsServer)) firewall_error in
  Ok group.
End proxy.

(** ** The snapshot *)

Record Snapshot := MkSnapshot {
  snap_mtu : Z;
  snap_filter : Lines;
  snap_nat : Lines;
  snap_routes : Lines;
  snap_egress : Fields;
  snap_dockerDns : bool;
}.

Definition is_new_chain (r : text) : bool := starts_with (lit "-N ") r.

(** [std::stable_partition] with the chain declarations first. *)
Definition chains_first (rules : Lines) : Lines :=
  filter (λ r, is_new_chain r = true) rules ++ filter (λ r, is_new_chain r = false) rules.

(** [std::stoi] of digits; out of range throws. *)
Definition stoi (s : text) (error : text) : result text Z :=
  if dec_value s >=? 2 ^ 31 then Err error else Ok (dec_value s).

Definition expectedRules : gmap Z text :=
  {[ 0 := lit "local"; 32766 := lit "main"; 32767 := lit "default" ]}.

Definition rule_error : text := lit "unsupported_namespace_ip_rule".

(** One line of [ip rule show] against the rules still expected. *)
Definition ipRuleLine (expected : gmap Z text) (rule : text) : result text (gmap Z text) :=
  match lookupRule rule with
  | None => Err rule_error
  | Some (digits, table) =>
      let? priority := stoi digits rule_error in
      let? _ := reject_if (negb (bool_decide (expected !! priority = Some table))) rule_error in
      Ok (delete priority expected)
  end.

Definition redirects : list (Z * text) :=
  [(17864, lit "172.29.172.253"); (17865, lit "172.29.172.252"); (17866, lit "172.29.172.251")].

Definition redirectRule (iface : text) (entry : Z * text) : text :=
  lit "-A PREROUTING -d " ++ entry.2 ++ lit "/32 -i " ++ iface ++ lit " -p tcp -m tcp --dport "
  ++ number entry.1 ++ lit " -j REDIRECT --to-ports " ++ number entry.1.

Definition conntrackRule : text :=
  lit "-A FORWARD -m conntrack --ctstate RELATED,ESTABLISHED -j ACCEPT".

(** The rules the filter and nat tables may hold, normalized. *)
Definition allowEth (iface network : text) (st : gset text * gset text) (eth : text) :
    result text (gset text * gset text) :=
  let '(filter, nat) := st in
  let? filter := insertNormalized iface filter (forwardRule iface eth) in
  let? nat := insertNormalized iface nat (networkMasquerade network eth) in
  let? nat := insertNormalized iface nat (masqueradeRule eth) in
  Ok (filter, nat).

Definition allowedRules (iface network : text) : result text (gset text * gset text) :=
  let? filter := normalized (standardFilter iface network) iface in
  let? filter := insertNormalized iface filter conntrackRule in
  let? (filter, nat) := rfold (allowEth iface network) (filter, ∅) eths in
  let? nat := rfold (insertNormalized iface) nat (map (redirectRule iface) redirects) in
  Ok (filter, nat).

(** A line of a table that must be empty apart from accepting policies. *)
Definition policyLine (line : text) : result text () :=
  let? tokens := shell line in
  reject_if (negb (starts_with (lit "-P ") line)
             || negb (bool_decide (last tokens = Some (lit "ACCEPT")))) firewall_error.

(** The token after the first [--comment]. *)
Fixpoint commentOf (tokens : Lines) : result text (option text) :=
  match tokens with
  | [] => Ok None
  | t :: rest =>
      if text_eqb t (lit "--comment") then
        match rest with [] => Err (lit "missing state") | c :: _ => Ok (Some c) end
      else commentOf rest
  end.

Inductive Table := filter_table | nat_table.

Definition table_name (t : Table) : text :=
  match t with filter_table => lit "filter" | nat_table => lit "nat" end.

(** One line of a table: the rules recorded so far, and this one if it has to
    be recreated. *)
Definition tableLine (iface : text) (ownedComments : Lines) (allowed : gset text)
    (output : Lines) (line : text) : result text Lines :=
  let? tokens := shell line in
  if starts_with (lit "-P ") line then
    let? _ := reject_if (negb (bool_decide (last tokens = Some (lit "ACCEPT"))))
                (lit "unsupported_namespace_default_policy") in Ok output
  else
    let? comment := commentOf tokens in
    let owned := match comment with
                 | Some c => has ownedComments c && has tokens (lit "18082")
                 | None => false
                 end in
    if owned then Ok output else
    let? rule := normalize line iface in
    let? _ := reject_if (negb (bool_decide (rule ∈ allowed))) firewall_error in
    Ok (output ++ [rule]).

Definition route_error : text := lit "unsupported_namespace_route".

Section snapshot.
Context `{Inet} {W : Type} (run : Lines → cmd W text).

(** One line of the main routing table. *)
Definition routeLine (iface network : text) (routes : Lines) (line : text) : result text Lines :=
  let? t := shell line in
  match t with
  | [t0; t1; t2; t3; t4] =>
      if text_eqb t0 (lit "default") && text_eqb t1 (lit "via") && text_eqb t3 (lit "dev")
         && (text_eqb t4 (lit "eth0") || text_eqb t4 (lit "eth1")) then
        let? via := ipv4 t2 in
        Ok (routes ++ [lit "default via " ++ via ++ lit " dev " ++ t4])
      else Err route_error
  | [t0; t1; t2; t3; t4; t5; t6; t7; t8] =>
      if text_eqb t1 (lit "dev") && text_eqb t3 (lit "proto") && text_eqb t4 (lit "kernel")
         && text_eqb t5 (lit "scope") && text_eqb t6 (lit "link") && text_eqb t7 (lit "src") then
        let? a := address t0 true in
        let? _ := reject_if (negb (bool_decide (a_family a = AF_INET))) address_error in
        let? _ := ipv4 t8 in
        let? _ := reject_if ((negb (text_eqb t2 iface) && negb (text_eqb t2 (lit "eth0"))
                              && negb (text_eqb t2 (lit "eth1")))
                             || (text_eqb t2 iface && negb (text_eqb (a_network a) network)))
                    route_error in
        Ok (routes ++ [a_network a ++ lit " dev " ++ (if text_eqb t2 iface then lit "awg0" else t2)])
      else Err route_error
  | _ => Err route_error
  end.

(** [\bdev (eth[01])\b]: the first interface named so. *)
Fixpoint egressDevice (prev : option Z) (s : text) : option text :=
  match s with
  | [] => None
  | c :: s' =>
      let boundary := negb (match prev with Some p => word p | None => false end) in
      let closed rest := negb (match rest with a :: _ => word a | [] => false end) in
      match take_text (lit "dev eth0") s, take_text (lit "dev eth1") s with
      | Some rest, _ => if boundary && closed rest then Some (lit "eth0") else egressDevice (Some c) s'
      | None, Some rest => if boundary && closed rest then Some (lit "eth1") else egressDevice (Some c) s'
      | None, None => egressDevice (Some c) s'
      end
  end.

Definition exec (container : text) (args : Lines) : cmd W text :=
  run ([lit "docker"; lit "exec"; container] ++ args).

(** The recorded rules of a table whose own rules are [allowed]. *)
Definition tableRules (iface : text) (interface : Fields) (ownedComments : Lines)
    (allowed : gset text) (table : Table) (raw : Lines) : result text (Lines * bool) :=
  let? (raw, dockerDns, proxy) :=
    match table with
    | filter_table => Ok (raw, false, [])
    | nat_table =>
        let? (raw, present) := dockerDnsRules raw in
        let? value := get interface (lit "Address") in
        let? proxy := serverDnsProxyRules raw value in
        Ok (raw, present, proxy)
    end in
  let? allowed := rfold (insertNormalized iface) allowed proxy in
  let? rules := rfold (tableLine iface ownedComments allowed) [] raw in
  Ok (if bool_decide (proxy = []) then sort_text rules else chains_first rules, dockerDns).

Definition readTable (container iface : text) (interface : Fields) (ownedComments : Lines)
    (allowed : gset text) (table : Table) : cmd W (Lines * bool) :=
  let! output := exec container [lit "iptables"; lit "-t"; table_name table; lit "-S"] in
  cmd_ret (tableRules iface interface ownedComments allowed table (lines output)).

Definition namespaceSnapshot (container : text) (interface : Fields) (iface : text)
    (ownedComments : Lines) : cmd W Snapshot :=
  let! _ := cmd_ret (validateHooks interface iface) in
  let! network := cmd_ret (let? value := get interface (lit "Address") in
                           let? a := address value false in Ok (a_network a)) in
  let! link := exec container [lit "ip"; lit "-o"; lit "link"; lit "show"; lit "dev"; iface] in
  let! observed := cmd_ret (match observedMtu link with
                            | Some m => mtu m
                            | None => Err (lit "source_mtu_unobserved")
                            end) in
  let! _ := cmd_ret (match interface !! lit "MTU" with
                     | Some v => let? m := mtu v in
                                 reject_if (negb (m =? observed)) (lit "source_mtu_drift")
                     | None => Ok ()
                     end) in
  let! rules := exec container [lit "ip"; lit "rule"; lit "show"] in
  let! _ := cmd_ret (let? missing := rfold ipRuleLine expectedRules (lines (trim rules)) in
                     reject_if (negb (bool_decide (missing = ∅))) (lit "incomplete_namespace_ip_rules")) in
  let! (allowedFilter, allowedNat) := cmd_ret (allowedRules iface network) in
  let! _ := cmd_fold (λ _ table,
      let! output := exec container [lit "iptables"; lit "-t"; table; lit "-S"] in
      cmd_ret (each policyLine (lines output))) () [lit "raw"; lit "mangle"] in
  let! (filter, _) := readTable container iface interface ownedComments allowedFilter filter_table in
  let! (nat, dockerDns) := readTable container iface interface ownedComments allowedNat nat_table in
  let! table := exec container [lit "ip"; lit "route"; lit "show"; lit "table"; lit "main"] in
  let! routes := cmd_ret (rfold (routeLine iface network) [] (lines table)) in
  let! egress := cmd_fold (λ egress a,
      let! route := exec container [lit "ip"; lit "route"; lit "get"; a] in
      cmd_ret (match egressDevice None route with
               | Some dev => Ok (<[ a := dev ]> egress)
               | None => Err (lit "unsupported_namespace_egress")
               end)) (∅ : Fields)
      [lit "1.1.1.1"; lit "8.8.8.8"; lit "172.29.172.254"; lit "172.29.172.253"] in
  cmd_ret (Ok (MkSnapshot observed filter nat (sort_text routes) egress dockerDns)).
End snapshot.

Definition firewallScript (s : Snapshot) : text :=
  let script table rules :=
    concat (map (λ r, lit "iptables -t " ++ table_name table ++ lit " " ++ r ++ [10])
              (chains_first rules)) in
  let result := script filter_table (snap_filter s) ++ script nat_table (snap_nat s) in
  if is_empty result then [10] else result.

(** ** The epoch of the client policy *)

(** A JSON document that keeps repeated members, in order. *)
Inductive rvalue :=
| RObject (members : list (text * rvalue))
| RInt (z : Z)
| RString (s : text)
| ROther.

Inductive jsonc_outcome := JsoncError | JsoncRangeError | JsoncParsed.

(** The two JSON readers: json-c in strict mode (a null document counts as an
    error) and RapidJSON with encoding validation. *)
Class JsonReaders := {
  jsonc_parse : text → jsonc_outcome;
  rapidjson_parse : text → option rvalue;
}.

Record Epoch := MkEpoch { revision : Z; contentSha256 : text }.

(** The last member of that name, as Python reads a repeated one. *)
Definition last_member (object : rvalue) (name : text) : option rvalue :=
  match object with
  | RObject members =>
      foldl (λ found '(k, v), if text_eqb k name then Some v else found) None members
  | _ => None
  end.

Definition policy_json_error : text := lit "policy JSON".
Definition revision_range_error : text := lit "policy revision range".
Definition not_versioned_error : text := lit "managed_client_policy_not_versioned".

Definition prefixedSha256 (s : text) : bool :=
  match take_text (lit "sha256:") s with
  | Some d => (tsize d =? 64) && forallb is_lower_hex d
  | None => false
  end.

Section epoch.
Context `{JsonReaders}.

Definition clientPolicyEpoch (exist : bool) (raw : option text) : result text (option Epoch) :=
  if negb exist then Ok None else
  match raw with
  | None => Err (lit "managed_client_policy_not_ready")
  | Some raw =>
      let? _ := reject_if (tsize raw >? 2 ^ 31 - 1) policy_json_error in
      match jsonc_parse raw with
      | JsoncError => Err policy_json_error
      | JsoncRangeError => Err revision_range_error
      | JsoncParsed =>
          match rapidjson_parse raw with
          | None => Err policy_json_error
          | Some lossless =>
              let policy := last_member lossless (lit "policy") in
              let revision := match policy with Some p => last_member p (lit "revision") | None => None end in
              let hash := match policy with Some p => last_member p (lit "contentSha256") | None => None end in
              match revision, hash with
              | Some (RInt z), _ =>
                  let? _ := reject_if ((2 ^ 63 <=? z) && (z <? 2 ^ 64)) revision_range_error in
                  let? _ := reject_if (negb ((- 2 ^ 63 <=? z) && (z <? 2 ^ 63))) not_versioned_error in
                  match hash with
                  | Some (RString sha) =>
                      let? _ := reject_if (negb (prefixedSha256 sha)) not_versioned_error in
                      Ok (Some (MkEpoch z sha))
                  | _ => Err not_versioned_error
                  end
              | _, _ => Err not_versioned_error
              end
          end
      end
  end.
End epoch.
