(* ===== verification/NamespaceRules.v ===== *)
(** * What the namespace policy guarantees

    The theorems about NamespacePolicy.v: the exact shape of the Docker DNS and
    DNS proxy rule groups, the whitelist behind every recorded firewall rule
    and every line of the script built from them, address prefixes, and the
    rule normal form. *)

From stdpp Require Import gmap.
From S2P Require Import Prelude Text QtInterface QtModel Command ByteText NamespacePolicy.
#[local] Open Scope Z_scope.

(** ** A model of the C library *)

Definition toy_inet_pton (f : Family) (s : text) : option Z :=
  match f with
  | AF_INET => parse_dotted s
  | AF_INET6 => if text_eqb s (lit "::1") then Some 1 else None
  end.
Definition toy_inet_ntop (f : Family) (a : Z) : text :=
  match f with AF_INET => dotted a | AF_INET6 => lit "::1" end.

#[local] Instance toyInet : Inet := {| inet_pton := toy_inet_pton; inet_ntop := toy_inet_ntop |}.

(** ** Examples *)

Notation interface0 :=
  ({[ lit "Address" := lit "10.8.1.1/24"; lit "MTU" := lit "1280";
      lit "PostUp" := lit "iptables -A FORWARD -i %i -j ACCEPT; iptables -t nat -A POSTROUTING -o eth0 -j MASQUERADE" ]} : Fields).

Example hooks_accepted : validateHooks interface0 (lit "wg0") = Ok ().
Proof. vm_compute. reflexivity. Qed.

Definition docker0 : Lines :=
  dockerFixed ++
  [ lit "-A DOCKER_OUTPUT -d 127.0.0.11/32 -p tcp -m tcp --dport 53 -j DNAT --to-destination 127.0.0.11:44919";
    lit "-A DOCKER_OUTPUT -d 127.0.0.11/32 -p udp -m udp --dport 53 -j DNAT --to-destination 127.0.0.11:44920";
    lit "-A DOCKER_POSTROUTING -s 127.0.0.11/32 -p tcp -m tcp --sport 44919 -j SNAT --to-source :53";
    lit "-A DOCKER_POSTROUTING -s 127.0.0.11/32 -p udp -m udp --sport 44920 -j SNAT --to-source :53" ].

Example docker_accepted :
  dockerDnsRules (lit "-P PREROUTING ACCEPT" :: docker0) = Ok ([lit "-P PREROUTING ACCEPT"], true).
Proof. vm_compute. reflexivity. Qed.

Definition proxyText (addr : text) (protocol : text) : text :=
  lit "-A PREROUTING -d " ++ addr ++ lit "/32 -p " ++ protocol ++ lit " -m " ++ protocol
  ++ lit " --dport 53 -j SERVERX_DNS_PROXY_PRE".
Definition postText (protocol : text) : text :=
  lit "-A POSTROUTING -p " ++ protocol ++ lit " -m " ++ protocol
  ++ lit " --dport 53 -j SERVERX_DNS_PROXY_POST".
Definition dnatText (protocol addr : text) : text :=
  lit "-A SERVERX_DNS_PROXY_PRE -p " ++ protocol ++ lit " -j DNAT --to-destination " ++ addr ++ lit ":53".
Definition masqText (addr : text) : text :=
  lit "-A SERVERX_DNS_PROXY_POST -d " ++ addr ++ lit "/32 -j MASQUERADE".

(** The thirteen rules of a DNS proxy for the interface address [ip]. *)
Definition proxyRules (ip : text) : Lines :=
  proxyDecl
  ++ flat_map (λ a, [proxyText a (lit "tcp"); proxyText a (lit "udp")]) [ip; lit "1.0.0.1"; dnsServer]
  ++ [postText (lit "tcp"); postText (lit "udp");
      dnatText (lit "tcp") dnsServer; dnatText (lit "udp") dnsServer; masqText dnsServer].

Example proxy_accepted :
  serverDnsProxyRules (proxyRules (lit "10.8.1.1")) (lit "10.8.1.1/24") = Ok (proxyRules (lit "10.8.1.1")).
Proof. vm_compute. reflexivity. Qed.

(** ** Scanning *)

Lemma take_text_Some v s r : take_text v s = Some r ↔ s = v ++ r.
Proof.
  revert s. induction v as [|x v IH]; intros s; simpl; [naive_solver|].
  destruct s as [|c s]; [naive_solver|]. destruct (Z.eqb_spec x c).
  - rewrite IH. naive_solver.
  - naive_solver.
Qed.

Lemma span_Some p s a b : span p s = (a, b) → s = a ++ b ∧ Forall (λ c, p c = true) a.
Proof.
  revert a b. induction s as [|c s IH]; intros a b; simpl; [naive_solver|].
  destruct (p c) eqn:E; [|naive_solver]. destruct (span p s) as [a' b'].
  intros [= <- <-]. destruct (IH a' b' eq_refl) as [-> Ha]. naive_solver.
Qed.

Lemma take_number_Some dots s a b :
  take_number dots s = Some (a, b) →
  s = a ++ b ∧ a ≠ [] ∧ Forall (λ c, is_digit c || (dots && (c =? 46)) = true) a.
Proof.
  unfold take_number. destruct (span _ s) as [a' b'] eqn:E. apply span_Some in E as [-> Ha].
  destruct (is_empty a') eqn:E; [done|]. intros [= <- <-]. by apply is_empty_false in E.
Qed.

Definition is_protocol (p : text) : Prop := p = lit "tcp" ∨ p = lit "udp".

Lemma take_protocol_Some s p r : take_protocol s = Some (p, r) → s = p ++ r ∧ is_protocol p.
Proof.
  unfold take_protocol, is_protocol. destruct (take_text (lit "tcp") s) eqn:E.
  { intros [= <- <-]. apply take_text_Some in E. auto. }
  destruct (take_text (lit "udp") s) eqn:E2; [|done]. intros [= <- <-].
  apply take_text_Some in E2. auto.
Qed.

(** Inverts a successful scan into the text it scanned. *)
Ltac scan H :=
  repeat match type of H with
  | (match take_text ?v ?s with Some _ => _ | None => None end) = Some _ =>
      let E := fresh "E" in destruct (take_text v s) eqn:E; [|discriminate H]; apply take_text_Some in E
  | (match take_number ?d ?s with Some _ => _ | None => None end) = Some _ =>
      let E := fresh "E" in
      destruct (take_number d s) as [[? ?]|] eqn:E; [|discriminate H]; apply take_number_Some in E as (E & ? & ?)
  | (match take_protocol ?s with Some _ => _ | None => None end) = Some _ =>
      let E := fresh "E" in
      destruct (take_protocol s) as [[? ?]|] eqn:E; [|discriminate H]; apply take_protocol_Some in E as (E & ?)
  | (if is_empty ?s then _ else None) = Some _ =>
      let E := fresh "E" in destruct (is_empty s) eqn:E; [|discriminate H]; apply is_empty_true in E
  end.

Definition destinationText (protocol port : text) : text :=
  lit "-A DOCKER_OUTPUT -d 127.0.0.11/32 -p " ++ protocol ++ lit " -m " ++ protocol
  ++ lit " --dport 53 -j DNAT --to-destination 127.0.0.11:" ++ port.
Definition sourceText (protocol port : text) : text :=
  lit "-A DOCKER_POSTROUTING -s 127.0.0.11/32 -p " ++ protocol ++ lit " -m " ++ protocol
  ++ lit " --sport " ++ port ++ lit " -j SNAT --to-source :53".

Lemma dockerRule_text line destination protocol port :
  dockerRule line destination = Some (protocol, port) →
  line = (if destination then destinationText else sourceText) protocol port
  ∧ is_protocol protocol ∧ port ≠ [] ∧ forallb is_digit port = true.
Proof.
  unfold dockerRule, destinationText, sourceText. intros H. destruct destination; scan H.
  all: injection H as <- <-; subst; rewrite ?app_nil_r, <-?app_assoc; split_and!; try done.
  all: apply forallb_true_iff; eapply Forall_impl; [eassumption|]; intros c Hc; cbn in Hc;
    by rewrite orb_false_r in Hc.
Qed.

Lemma proxyRule_text line kind a b :
  proxyRule line kind = Some (a, b) →
  match kind with
  | Pre => line = proxyText a b ∧ is_protocol b
  | Post => line = postText a ∧ is_protocol a
  | Dnat => line = dnatText a b ∧ is_protocol a
  | Masquerade => line = masqText a ∧ a ≠ []
  end.
Proof.
  unfold proxyRule, proxyText, postText, dnatText, masqText. intros H.
  destruct kind; scan H; injection H as <- <-; subst; rewrite ?app_nil_r, <-?app_assoc; done.
Qed.

(** ** Rule groups *)

Lemma list_to_set_size (l : Lines) :
  (size (list_to_set l : gset text) ≤ length l)%nat
  ∧ (size (list_to_set l : gset text) = length l → NoDup l).
Proof.
  induction l as [|x l [IH1 IH2]].
  { split; [done|constructor]. }
  rewrite list_to_set_cons. cbn [length].
  destruct (decide (x ∈ (list_to_set l : gset text))) as [Hx|Hx].
  - rewrite subseteq_union_1_L by set_solver. split; [lia|]. intros E. lia.
  - rewrite size_union, size_singleton by set_solver. split; [lia|]. intros E.
    constructor; [by rewrite elem_of_list_to_set in Hx|apply IH2; lia].
Qed.

Lemma group_exact (group rules : Lines) :
  size (list_to_set group : gset text) = length rules → length group = length rules →
  (∀ line, line ∈ group → line ∈ rules) → group ≡ₚ rules.
Proof.
  intros Hs Hl Hin. apply submseteq_length_Permutation; [|lia].
  apply NoDup_submseteq; [|done]. apply list_to_set_size. congruence.
Qed.

Lemma rfold_step {E A S} (f : S → A → result E S) s x l s' :
  rfold f s (x :: l) = Ok s' ↔ ∃ s1, f s x = Ok s1 ∧ rfold f s1 l = Ok s'.
Proof. simpl. apply rbind_Ok. Qed.

(** A fold that only grows and leaves a mark for each element. *)
Lemma rfold_marks {E A S} (f : S → A → result E S) (R : S → S → Prop) (P : S → A → Prop)
    `{!PreOrder R} l s s' :
  (∀ s x s', f s x = Ok s' → R s s' ∧ P s' x) → (∀ s s' x, R s s' → P s x → P s' x) →
  rfold f s l = Ok s' → R s s' ∧ ∀ x, x ∈ l → P s' x.
Proof.
  intros Hf Hm. revert s. induction l as [|y l IH]; intros s H.
  { injection H as ->. split; [done|]. intros x Hx. by apply elem_of_nil in Hx. }
  apply rfold_step in H as (s1 & H1 & H2). apply Hf in H1 as [HR HP].
  destruct (IH _ H2) as [HR' HP']. split; [by etrans|].
  intros x [->|Hx]%elem_of_cons; eauto.
Qed.

Lemma has_true v s : has v s = true ↔ s ∈ v.
Proof.
  unfold has. rewrite existsb_true_iff. split.
  - intros (x & Hx & ->%text_eqb_eq). done.
  - intros H. exists s. by rewrite text_eqb_refl.
Qed.

Definition proxy_grows (s s' : ProxyState) : Prop :=
  dom (selectors s) ⊆ dom (selectors s')
  ∧ proxyDestinations s ⊆ proxyDestinations s'
  ∧ (masquerade s ≠ [] → masquerade s' = masquerade s).

#[local] Instance proxy_grows_preorder : PreOrder proxy_grows.
Proof.
  split.
  - intros s. by split_and!.
  - intros a b c (H1 & H2 & H3) (H4 & H5 & H6). split_and!; [by etrans|by etrans|].
    intros Hm. rewrite H6; [by apply H3|]. by rewrite H3.
Qed.

Definition proxy_line_known (s : ProxyState) (line : text) : Prop :=
  line ∈ proxyDecl
  ∨ (∃ a p, line = proxyText a p ∧ is_protocol p ∧ a ∈ dom (selectors s))
  ∨ (∃ p, line = postText p ∧ is_protocol p)
  ∨ (∃ p a, line = dnatText p a ∧ is_protocol p ∧ proxyDestinations s !! p = Some a)
  ∨ (∃ a, line = masqText a ∧ a ≠ [] ∧ masquerade s = a).

Lemma proxyLine_step s line s' :
  proxyLine s line = Ok s' → proxy_grows s s' ∧ proxy_line_known s' line.
Proof.
  unfold proxyLine, proxy_line_known. destruct (has proxyDecl line) eqn:Hd.
  { intros [= <-]. apply has_true in Hd. split; [done|by left]. }
  destruct (proxyRule line Pre) as [[a b]|] eqn:E1.
  { intros H. inv_ok H. apply proxyRule_text in E1 as [-> ?]. injection H as <-. split.
    - split_and!; cbn; [set_solver|done|done].
    - right. left. exists a, b. split_and!; try done. cbn. set_solver. }
  destruct (proxyRule line Post) as [[a b]|] eqn:E2.
  { intros H. inv_ok H. apply proxyRule_text in E2 as [-> ?]. injection H as <-. split; [done|].
    right. right. left. by exists a. }
  destruct (proxyRule line Dnat) as [[a b]|] eqn:E3.
  { intros H. inv_ok H. apply proxyRule_text in E3 as [-> ?]. injection H as <-.
    apply reject_if_Ok in Hstep. bprop. split.
    - split_and!; cbn; [done| |done]. apply insert_subseteq. by apply eq_None_not_Some.
    - do 3 right. left. exists a, b. cbn. by rewrite lookup_insert_eq. }
  destruct (proxyRule line Masquerade) as [[a b]|] eqn:E4; [|done].
  intros H. inv_ok H. apply proxyRule_text in E4 as [-> ?]. injection H as <-.
  apply reject_if_Ok in Hstep. bprop. apply is_empty_true in Hstep. split.
  - split_and!; cbn; [done|done|congruence].
  - do 4 right. by exists a.
Qed.

Lemma proxy_line_known_grows s s' line :
  proxy_grows s s' → proxy_line_known s line → proxy_line_known s' line.
Proof.
  intros (H1 & H2 & H3) [?|[(a & p & ? & ? & Ha)|[?|[(p & a & ? & ? & Ha)|(a & ? & ? & Ha)]]]].
  - by left.
  - right. left. exists a, p. split_and!; try done. set_solver.
  - right. right. by left.
  - do 3 right. left. exists p, a. split_and!; try done. by eapply lookup_weaken.
  - do 4 right. exists a. split_and!; try done. rewrite H3 by congruence. done.
Qed.

(** A line one of whose tokens is in [chains]. *)
Definition mentions (chains : gset text) (line : text) : bool :=
  match shell line with
  | Ok tokens => existsb (λ t, bool_decide (t ∈ chains)) tokens
  | Err _ => false
  end.

Lemma rfold_prefix {E A S} (f : S → A → result E S) (P : list A → S → Prop) s l s' :
  P [] s → (∀ pre x s1 s2, P pre s1 → f s1 x = Ok s2 → P (pre ++ [x]) s2) →
  rfold f s l = Ok s' → P l s'.
Proof.
  intros H0 Hstep. assert (∀ pre s, P pre s → rfold f s l = Ok s' → P (pre ++ l) s') as H.
  { clear s H0. induction l as [|x l IH]; intros pre s Hp H.
    { injection H as ->. by rewrite app_nil_r. }
    apply rfold_step in H as (s1 & H1 & H2).
    replace (pre ++ x :: l) with ((pre ++ [x]) ++ l) by (by rewrite <-app_assoc).
    eauto. }
  intros Hf. exact (H [] s H0 Hf).
Qed.

Lemma groupFor_spec v chains group :
  groupFor v chains = Ok group → group = filter (λ line, mentions chains line = true) v.
Proof.
  unfold groupFor. intros H. apply (rfold_prefix _ (λ pre r,
    r = filter (λ line, mentions chains line = true) pre)) in H; [done|done|].
  intros pre line s1 s2 -> Hs. apply rbind_Ok in Hs as (tokens & Hs & E). injection E as <-.
  assert (mentions chains line = existsb (λ t, bool_decide (t ∈ chains)) tokens) as Hm.
  { unfold mentions. by rewrite Hs. }
  rewrite filter_app, filter_cons, filter_nil. rewrite <-Hm.
  destruct (mentions chains line); simpl; by rewrite ?app_nil_r.
Qed.

Ltac tail_rule :=
  apply elem_of_app; right; apply elem_of_app; right; apply list_elem_of_In.

Lemma proxy_group `{Inet} input source group :
  serverDnsProxyRules input source = Ok group →
  group = filter (λ line, mentions {[ lit "SERVERX_DNS_PROXY_PRE"; lit "SERVERX_DNS_PROXY_POST" ]}
                            line = true) input
  ∧ (group = [] ∨ ∃ a, address source false = Ok a ∧ group ≡ₚ proxyRules (a_ip a)).
Proof.
  unfold serverDnsProxyRules. intros Hok. apply rbind_Ok in Hok as (g & Hg & Hok).
  apply groupFor_spec in Hg. destruct (bool_decide (g = [])) eqn:Eg.
  { injection Hok as <-. bprop. subst g. split; [done|by left]. }
  apply rbind_Ok in Hok as (u1 & Hlen & Hok). apply rbind_Ok in Hok as (st & Hst & Hok).
  apply rbind_Ok in Hok as (u2 & _ & Hok). apply rbind_Ok in Hok as (a & Ha & Hok).
  apply rbind_Ok in Hok as (u3 & Hsel & Hok). apply rbind_Ok in Hok as (u4 & Hchk & Hok).
  injection Hok as <-. split; [done|]. right. exists a. split; [done|].
  apply reject_if_Ok in Hlen, Hchk. bprop.
  apply (rfold_marks _ proxy_grows proxy_line_known) in Hst as [_ Hknown];
    [|apply proxyLine_step|apply proxy_line_known_grows].
  apply group_exact; [done|done|]. intros line Hline.
  repeat match goal with H : text_eqb _ _ = true |- _ => apply text_eqb_eq in H end.
  unfold proxyRules. destruct (Hknown line Hline)
    as [?|[(x & p & -> & Hp & Hx)|[(p & -> & Hp)|[(p & x & -> & Hp & Hx)|(x & -> & _ & <-)]]]].
  - apply elem_of_app. by left.
  - match goal with H : dom _ = _ |- _ => rewrite H in Hx end.
    apply elem_of_app. right. apply elem_of_app. left. apply list_elem_of_In, in_flat_map.
    exists x. destruct Hp as [-> | ->]; (split; [apply list_elem_of_In; set_solver|simpl; auto]).
  - tail_rule. destruct Hp as [-> | ->]; simpl; auto.
  - assert (field_or_empty (proxyDestinations st) p = x) as Hf.
    { unfold field_or_empty. by rewrite Hx. }
    assert (x = dnsServer) as -> by (destruct Hp as [-> | ->]; congruence).
    tail_rule. destruct Hp as [-> | ->]; simpl; auto.
  - match goal with H : masquerade st = _ |- _ => rewrite H end. tail_rule. simpl; auto 6.
Qed.

(** When DNS proxy rules are present in the nat table they are, up to
    order, exactly the thirteen rules of the proxy of this server: the two
    chain declarations, the selectors of the interface address, of 1.0.0.1 and
    of the DNS server for TCP and UDP, and the rules that forward to the DNS
    server; any other line that mentions a proxy chain makes the check fail. *)
Theorem proxy_rules_exact `{Inet} input source group :
  serverDnsProxyRules input source = Ok group →
  group = filter (λ line, mentions {[ lit "SERVERX_DNS_PROXY_PRE"; lit "SERVERX_DNS_PROXY_POST" ]}
                            line = true) input
  ∧ (group = [] ∨ ∃ a, address source false = Ok a ∧ group ≡ₚ proxyRules (a_ip a)).
Proof. apply proxy_group. Qed.

Lemma proxy_rules_exact_witness :
  reverse (proxyRules (lit "10.8.1.1")) ≡ₚ proxyRules (lit "10.8.1.1").
Proof.
  destruct (proxy_rules_exact (lit "-P OUTPUT ACCEPT" :: reverse (proxyRules (lit "10.8.1.1")))
              (lit "10.8.1.1/24") (reverse (proxyRules (lit "10.8.1.1")))) as [_ [H|(a & Ha & H)]].
  - vm_compute. reflexivity.
  - discriminate H.
  - vm_compute in Ha. injection Ha as <-. exact H.
Defined.

(** ** Docker DNS *)

Definition port_ok (v : Z) : Prop := 1024 <= v <= 65535.

Definition docker_line_known (st : gmap text Z * gmap text Z) (line : text) : Prop :=
  line ∈ dockerFixed
  ∨ ∃ p d, is_protocol p ∧ d ≠ [] ∧ forallb is_digit d = true
     ∧ ((line = destinationText p d ∧ st.1 !! p = Some (dec_value d))
        ∨ (line = sourceText p d ∧ st.2 !! p = Some (dec_value d))).

(** The ports recorded come from lines that were read. *)
Definition ports_from (mk : text → text → text) (pre : Lines) (ports : gmap text Z) : Prop :=
  ∀ p v, ports !! p = Some v → is_protocol p ∧ port_ok v ∧ ∃ d, mk p d ∈ pre ∧ dec_value d = v.

Lemma add_port_Ok ports p v ports' :
  add_port ports p v = Ok ports' → ports !! p = None ∧ port_ok v ∧ ports' = <[ p := v ]> ports.
Proof.
  unfold add_port. intros H. apply rbind_Ok in H as (u & H & E). injection E as <-.
  apply reject_if_Ok in H. bprop. split_and!; [|unfold port_ok; lia|done].
  by apply eq_None_not_Some.
Qed.

Lemma stoul_Ok d v : stoul d = Ok v → v = dec_value d.
Proof. unfold stoul. destruct (_ >=? _); [done|]. by intros [= <-]. Qed.

Lemma ports_from_mono mk pre line ports : ports_from mk pre ports → ports_from mk (pre ++ [line]) ports.
Proof.
  intros H p v Hp. destruct (H p v Hp) as (? & ? & d & Hd & ?). split_and!; try done.
  exists d. split; [|done]. apply elem_of_app. by left.
Qed.

Lemma ports_from_add mk pre p d ports :
  ports_from mk pre ports → is_protocol p → port_ok (dec_value d) →
  ports_from mk (pre ++ [mk p d]) (<[ p := dec_value d ]> ports).
Proof.
  intros H Hp Hv q v Hq. destruct (decide (q = p)) as [->|Hne].
  - rewrite lookup_insert_eq in Hq. injection Hq as <-. split_and!; try done.
    exists d. split; [|done]. apply elem_of_app. right. by apply list_elem_of_singleton.
  - rewrite lookup_insert_ne in Hq by done. by apply (ports_from_mono mk pre (mk p d) ports H).
Qed.

Lemma docker_line_known_grows (d1 s1 d2 s2 : gmap text Z) line :
  d1 ⊆ d2 → s1 ⊆ s2 → docker_line_known (d1, s1) line → docker_line_known (d2, s2) line.
Proof.
  intros Hd Hs [?|(p & d & ? & ? & ? & [[? Hl]|[? Hl]])]; [by left|right..]; exists p, d; cbn in *;
    split_and!; try done; [left|right]; (split; [done|by eapply lookup_weaken]).
Qed.

Definition docker_inv (pre : Lines) (st : gmap text Z * gmap text Z) : Prop :=
  (∀ line, line ∈ pre → docker_line_known st line)
  ∧ ports_from destinationText pre st.1 ∧ ports_from sourceText pre st.2.

Lemma dockerLine_inv pre line st st' :
  docker_inv pre st → dockerLine st line = Ok st' → docker_inv (pre ++ [line]) st'.
Proof.
  destruct st as [D S]. intros (Hk & HD & HS) H. cbn in HD, HS. unfold dockerLine in H.
  assert (∀ D' S', D ⊆ D' → S ⊆ S' → docker_line_known (D', S') line →
            ∀ l, l ∈ pre ++ [line] → docker_line_known (D', S') l) as Hall.
  { intros D' S' HD' HS' Hl l [Hin| ->%list_elem_of_singleton]%elem_of_app; [|done].
    apply (docker_line_known_grows D S); auto. }
  destruct (has dockerFixed line) eqn:Ef.
  { injection H as <-. apply has_true in Ef. split_and!; [|by apply ports_from_mono..].
    apply Hall; [done|done|by left]. }
  destruct (dockerRule line true) as [[p d]|] eqn:E1.
  { apply rbind_Ok in H as (v & Hv & H). apply rbind_Ok in H as (D' & HD' & H). injection H as <-.
    apply stoul_Ok in Hv. subst v. apply add_port_Ok in HD' as (Hnone & Hport & ->).
    apply dockerRule_text in E1 as (-> & Hp & Hne & Hdig).
    assert (D ⊆ <[ p := dec_value d ]> D) by (by apply insert_subseteq).
    split_and!; cbn; [|by apply ports_from_add|by apply ports_from_mono].
    apply Hall; [done|done|]. right. exists p, d. split_and!; try done. left.
    cbn. by rewrite lookup_insert_eq. }
  destruct (dockerRule line false) as [[p d]|] eqn:E2; [|done].
  apply rbind_Ok in H as (v & Hv & H). apply rbind_Ok in H as (S' & HS' & H). injection H as <-.
  apply stoul_Ok in Hv. subst v. apply add_port_Ok in HS' as (Hnone & Hport & ->).
  apply dockerRule_text in E2 as (-> & Hp & Hne & Hdig).
  assert (S ⊆ <[ p := dec_value d ]> S) by (by apply insert_subseteq).
  split_and!; cbn; [|by apply ports_from_mono|by apply ports_from_add].
  apply Hall; [done|done|]. right. exists p, d. split_and!; try done. right.
  cbn. by rewrite lookup_insert_eq.
Qed.

Definition dockerChains : gset text := {[ lit "DOCKER_OUTPUT"; lit "DOCKER_POSTROUTING" ]}.

(** The eight rules of the Docker resolver, ports spelled [dt], [du] in the
    destination rules and [st], [su] in the source rules. *)
Definition dockerRules (dt du st su : text) : Lines :=
  dockerFixed ++ [destinationText (lit "tcp") dt; destinationText (lit "udp") du;
                  sourceText (lit "tcp") st; sourceText (lit "udp") su].

Lemma dockerRules_NoDup dt du st su : NoDup (dockerRules dt du st su).
Proof.
  unfold dockerRules, dockerFixed. cbn [app].
  repeat (apply NoDup_cons; split;
    [intros Hin; apply list_elem_of_In in Hin; cbn in Hin; destruct_or! Hin; discriminate|]).
  constructor.
Qed.

Lemma both_ports (ports : gmap text Z) mk pre :
  ports_from mk pre ports → size ports = 2%nat →
  (∃ d, ports !! lit "tcp" = Some (dec_value d) ∧ port_ok (dec_value d) ∧ mk (lit "tcp") d ∈ pre)
  ∧ (∃ d, ports !! lit "udp" = Some (dec_value d) ∧ port_ok (dec_value d) ∧ mk (lit "udp") d ∈ pre).
Proof.
  intros Hf Hs. assert (dom ports = bothProtocols) as Hdom.
  { apply set_subseteq_size_eq.
    - intros p [v Hv]%elem_of_dom. destruct (Hf p v Hv) as ([-> | ->] & _); set_solver.
    - rewrite size_dom, Hs. done. }
  split.
  - assert (is_Some (ports !! lit "tcp")) as [v Hv] by (apply elem_of_dom; rewrite Hdom; set_solver).
    destruct (Hf _ _ Hv) as (_ & ? & d & ? & <-). by exists d.
  - assert (is_Some (ports !! lit "udp")) as [v Hv] by (apply elem_of_dom; rewrite Hdom; set_solver).
    destruct (Hf _ _ Hv) as (_ & ? & d & ? & <-). by exists d.
Qed.

Lemma filter_not_group (input : Lines) (P : text → bool) :
  filter (λ line, line ∉ (list_to_set (filter (λ l, P l = true) input) : gset text)) input
  = filter (λ line, P line = false) input.
Proof.
  assert (∀ l2 : Lines, (∀ x, x ∈ l2 → x ∈ input) →
    filter (λ line, line ∉ (list_to_set (filter (λ l, P l = true) input) : gset text)) l2
    = filter (λ line, P line = false) l2) as H.
  { intros l2. induction l2 as [|x l2 IH]; intros Hsub; [done|].
    rewrite !filter_cons, IH by (intros; apply Hsub; by constructor).
    assert (x ∈ input) by (apply Hsub; constructor).
    destruct (P x) eqn:E.
    - rewrite decide_False; [by rewrite decide_False|].
      rewrite elem_of_list_to_set, list_elem_of_filter. naive_solver.
    - rewrite decide_True; [by rewrite decide_True|].
      rewrite elem_of_list_to_set, list_elem_of_filter. intros [? _]. congruence. }
  by apply H.
Qed.

Lemma docker_remaining raw remaining present :
  dockerDnsRules raw = Ok (remaining, present) →
  remaining = filter (λ line, mentions dockerChains line = false) raw.
Proof.
  unfold dockerDnsRules. intros Hok. apply rbind_Ok in Hok as (g & Hg & Hok).
  apply groupFor_spec in Hg. fold dockerChains in Hg.
  rewrite <-(filter_not_group raw (mentions dockerChains)), <-Hg.
  destruct (bool_decide (g = [])) eqn:Eg.
  { injection Hok as <- <-. bprop. rewrite Eg. simpl.
    symmetry. clear. induction raw as [|x l IH]; [done|].
    rewrite filter_cons_True by set_solver. by rewrite IH. }
  apply rbind_Ok in Hok as (u1 & _ & Hok). apply rbind_Ok in Hok as ([D S] & _ & Hok).
  apply rbind_Ok in Hok as (u2 & _ & Hok). by injection Hok as <- <-.
Qed.
(** The Docker resolver rules of the nat table are set aside exactly when
    they are, up to order, the eight rules Docker installs: the chain
    declarations and jumps, and for TCP and UDP one destination and one source
    rule with the same unprivileged port; what remains is the other lines, in
    order.  A line that mentions the chains otherwise makes the check fail. *)
Theorem docker_rules_exact input remaining present :
  dockerDnsRules input = Ok (remaining, present) →
  let group := filter (λ line, mentions dockerChains line = true) input in
  remaining = filter (λ line, mentions dockerChains line = false) input
  ∧ (present = false → group = [])
  ∧ (present = true →
     ∃ dt du st su,
       group ≡ₚ dockerRules dt du st su
       ∧ dec_value st = dec_value dt ∧ dec_value su = dec_value du
       ∧ port_ok (dec_value dt) ∧ port_ok (dec_value du)).
Proof.
  intros Hok. split; [by eapply docker_remaining|]. unfold dockerDnsRules in Hok.
  apply rbind_Ok in Hok as (g & Hg & Hok).
  apply groupFor_spec in Hg. fold dockerChains in Hg. cbv zeta. rewrite <-Hg.
  destruct (bool_decide (g = [])) eqn:Eg.
  { injection Hok as <- <-. bprop. by split. }
  apply rbind_Ok in Hok as (u1 & Hlen & Hok). apply rbind_Ok in Hok as ([D S] & Hst & Hok).
  apply rbind_Ok in Hok as (u2 & Hchk & Hok). injection Hok as <- <-.
  split; [done|intros _].
  apply reject_if_Ok in Hlen, Hchk. bprop. subst S.
  apply (rfold_prefix _ docker_inv) in Hst; [| |intros; by eapply dockerLine_inv].
  2:{ split_and!; [intros ? Hx; by apply elem_of_nil in Hx|..];
      intros ?? Hx; cbn [fst snd] in Hx; by rewrite lookup_empty in Hx. }
  destruct Hst as (_ & HD & HS). cbn in HD, HS.
  destruct (both_ports _ _ _ HD ltac:(done)) as [(dt & Ht1 & Hpt & Hdt) (du & Hu1 & Hpu & Hdu)].
  destruct (both_ports _ _ _ HS ltac:(done)) as [(st & Ht2 & _ & Hsrct) (su & Hu2 & _ & Hsrcu)].
  exists dt, du, st, su. split_and!; [|congruence|congruence|done|done].
  symmetry. apply submseteq_length_Permutation; [|by match goal with H : length g = _ |- _ => rewrite H end].
  apply NoDup_submseteq; [apply dockerRules_NoDup|]. unfold dockerRules.
  intros x [Hx|Hx]%elem_of_app.
  - match goal with H : forallb _ dockerFixed = true |- _ => apply forallb_true_iff in H;
      eapply Forall_forall in H; [|exact Hx]; apply bool_decide_eq_true in H;
      by rewrite elem_of_list_to_set in H end.
  - apply list_elem_of_In in Hx. cbn in Hx. destruct_or! Hx; by subst x.
Qed.

Lemma docker_rules_exact_witness :
  [lit "-P PREROUTING ACCEPT"]
  = filter (λ line, mentions dockerChains line = false) (lit "-P PREROUTING ACCEPT" :: reverse docker0).
Proof.
  apply (docker_rules_exact (lit "-P PREROUTING ACCEPT" :: reverse docker0) _ true).
  vm_compute. reflexivity.
Defined.

(** ** Tables *)

Lemma insertNormalized_spec iface S l S' :
  rfold (insertNormalized iface) S l = Ok S' →
  ∀ r, r ∈ S' ↔ r ∈ S ∨ ∃ r0, r0 ∈ l ∧ normalize r0 iface = Ok r.
Proof.
  refine (rfold_prefix (insertNormalized iface) (λ pre S1,
    ∀ r, r ∈ S1 ↔ r ∈ S ∨ ∃ r0, r0 ∈ pre ∧ normalize r0 iface = Ok r) S l S' _ _).
  - intros r. split; [by left|]. intros [?|(? & Hn & _)]; [done|by apply elem_of_nil in Hn].
  - intros pre x s1 s2 IH Hx r. unfold insertNormalized in Hx.
    apply rbind_Ok in Hx as (n & Hn & E). injection E as <-.
    rewrite elem_of_union, elem_of_singleton, IH. setoid_rewrite elem_of_app.
    setoid_rewrite list_elem_of_singleton. split; [naive_solver|].
    intros [?|(r0 & [?| ->] & ?)]; [naive_solver..|]. left. congruence.
Qed.

Definition filterRules (iface network : text) : Lines :=
  standardFilter iface network ++ [conntrackRule] ++ map (forwardRule iface) eths.
Definition natTableRules (iface network : text) : Lines :=
  natRules network ++ map (redirectRule iface) redirects.

Definition from_rules (iface : text) (l : Lines) (r : text) : Prop :=
  ∃ r0, r0 ∈ l ∧ normalize r0 iface = Ok r.

Lemma from_rules_app iface a b r :
  from_rules iface (a ++ b) r ↔ from_rules iface a r ∨ from_rules iface b r.
Proof. unfold from_rules. setoid_rewrite elem_of_app. naive_solver. Qed.

Lemma allowEth_folds iface network l f n f' n' :
  rfold (allowEth iface network) (f, n) l = Ok (f', n') →
  rfold (insertNormalized iface) f (map (forwardRule iface) l) = Ok f'
  ∧ rfold (insertNormalized iface) n
      (flat_map (λ eth, [networkMasquerade network eth; masqueradeRule eth]) l) = Ok n'.
Proof.
  revert f n. induction l as [|eth l IH]; intros f n H; [by injection H as <- <-|].
  apply rfold_step in H as ([f1 n1] & H1 & H2). unfold allowEth in H1.
  apply rbind_Ok in H1 as (f2 & Hf & H1). apply rbind_Ok in H1 as (n2 & Hn & H1).
  apply rbind_Ok in H1 as (n3 & Hn' & H1). injection H1 as <- <-.
  destruct (IH _ _ H2) as [IH1 IH2]. cbn [map flat_map app rfold].
  by rewrite Hf, Hn; cbn [rbind]; rewrite Hn'.
Qed.

Lemma allowedRules_spec iface network f n :
  allowedRules iface network = Ok (f, n) →
  (∀ r, r ∈ f ↔ from_rules iface (filterRules iface network) r)
  ∧ (∀ r, r ∈ n ↔ from_rules iface (natTableRules iface network) r).
Proof.
  unfold allowedRules. intros H. apply rbind_Ok in H as (f0 & H0 & H).
  apply rbind_Ok in H as (f1 & H1 & H). apply rbind_Ok in H as ([f2 n2] & H2 & H).
  apply rbind_Ok in H as (n3 & H3 & H). injection H as <- <-.
  apply allowEth_folds in H2 as [Hf2 Hn2].
  assert (rfold (insertNormalized iface) f0 [conntrackRule] = Ok f1) as Hf1.
  { simpl. by rewrite H1. }
  pose proof (insertNormalized_spec _ _ _ _ H0) as S0. pose proof (insertNormalized_spec _ _ _ _ Hf1) as S1.
  pose proof (insertNormalized_spec _ _ _ _ Hf2) as S2. pose proof (insertNormalized_spec _ _ _ _ Hn2) as S3.
  pose proof (insertNormalized_spec _ _ _ _ H3) as S4.
  unfold filterRules, natTableRules. split; intros r; rewrite !from_rules_app.
  - rewrite S2, S1, S0, elem_of_empty. unfold from_rules. tauto.
  - rewrite S4, S3, elem_of_empty. unfold from_rules. tauto.
Qed.

(** A rule of another owner is not recreated. *)
Definition owned_line (ownedComments : Lines) (line : text) : bool :=
  match shell line with
  | Ok tokens =>
      match commentOf tokens with
      | Ok (Some c) => has ownedComments c && has tokens (lit "18082")
      | _ => false
      end
  | Err _ => false
  end.

(** The lines a table is recreated from: neither a default policy nor owned. *)
Definition kept_line (ownedComments : Lines) (line : text) : bool :=
  negb (starts_with (lit "-P ") line) && negb (owned_line ownedComments line).

Definition accepting_policy (line : text) : Prop :=
  ∃ tokens, shell line = Ok tokens ∧ last tokens = Some (lit "ACCEPT").

Lemma tableLines_spec iface owned allowed raw rules :
  rfold (tableLine iface owned allowed) [] raw = Ok rules →
  Forall2 (λ line r, normalize line iface = Ok r)
    (filter (λ line, kept_line owned line = true) raw) rules
  ∧ (∀ r, r ∈ rules → r ∈ allowed)
  ∧ (∀ line, line ∈ raw → starts_with (lit "-P ") line = true → accepting_policy line).
Proof.
  refine (rfold_prefix (tableLine iface owned allowed) (λ pre out,
    Forall2 (λ line r, normalize line iface = Ok r)
      (filter (λ line, kept_line owned line = true) pre) out
    ∧ (∀ r, r ∈ out → r ∈ allowed)
    ∧ (∀ line, line ∈ pre → starts_with (lit "-P ") line = true → accepting_policy line)) [] raw rules _ _).
  { split_and!; [constructor|intros ? Hx; by apply elem_of_nil in Hx..]. }
  intros pre line out out' (IH1 & IH2 & IH3) H. unfold tableLine in H.
  apply rbind_Ok in H as (tokens & Ht & H).
  assert ((starts_with (lit "-P ") line = true → accepting_policy line) →
          ∀ l, l ∈ pre ++ [line] → starts_with (lit "-P ") l = true → accepting_policy l) as Hall.
  { intros Hl l [?| ->%list_elem_of_singleton]%elem_of_app; auto. }
  rewrite filter_app. destruct (starts_with (lit "-P ") line) eqn:Ep.
  { apply rbind_Ok in H as (u & Hr & H). injection H as <-. apply reject_if_Ok in Hr. bprop.
    rewrite filter_cons_False, app_nil_r by (unfold kept_line; by rewrite Ep).
    split_and!; [done|done|]. apply Hall. intros _. by exists tokens. }
  apply rbind_Ok in H as (comment & Hc & H).
  assert (owned_line owned line =
          match comment with Some c => has owned c && has tokens (lit "18082") | None => false end) as Ho.
  { unfold owned_line. by rewrite Ht, Hc. }
  rewrite <-Ho in H. destruct (owned_line owned line) eqn:Eo.
  { injection H as <-. rewrite filter_cons_False, app_nil_r by (unfold kept_line; by rewrite Ep, Eo).
    split_and!; [done|done|]. apply Hall; congruence. }
  apply rbind_Ok in H as (rule & Hn & H). apply rbind_Ok in H as (u & Hr & H). injection H as <-.
  apply reject_if_Ok in Hr. bprop.
  rewrite filter_cons_True by (unfold kept_line; by rewrite Ep, Eo). split_and!.
  - apply Forall2_app; [done|]. by repeat constructor.
  - intros r [?| ->%list_elem_of_singleton]%elem_of_app; auto.
  - apply Hall; congruence.
Qed.

Lemma chains_first_perm l : chains_first l ≡ₚ l.
Proof.
  unfold chains_first. induction l as [|r l IH]; [done|]. rewrite !filter_cons.
  destruct (is_new_chain r); simpl; rewrite ?decide_True, ?decide_False by done; simpl.
  - by rewrite IH.
  - by rewrite <-Permutation_middle, IH.
Qed.


Definition script_line (table : Table) (r : text) : text :=
  lit "iptables -t " ++ table_name table ++ lit " " ++ r ++ [10].

Definition script_lines (s : Snapshot) : Lines :=
  map (script_line filter_table) (chains_first (snap_filter s))
  ++ map (script_line nat_table) (chains_first (snap_nat s)).

Lemma firewallScript_lines s :
  firewallScript s = if bool_decide (script_lines s = []) then [10] else concat (script_lines s).
Proof.
  assert (firewallScript s =
          if is_empty (concat (script_lines s)) then [10] else concat (script_lines s)) as ->.
  { unfold script_lines. by rewrite concat_app. }
  destruct (script_lines s) as [|x l] eqn:E; [done|]. rewrite bool_decide_eq_false_2 by done.
  assert (x ≠ []) as Hx.
  { assert (x ∈ x :: l) as Hx by constructor. rewrite <-E in Hx. unfold script_lines in Hx.
    apply elem_of_app in Hx as [(r & -> & _)%list_elem_of_fmap|(r & -> & _)%list_elem_of_fmap]; done. }
  destruct x as [|c x]; [done|]. done.
Qed.

Section tables.
Context `{I : Inet}.

(** The lines of a table that are not set aside. *)
Definition own_lines (table : Table) (raw : Lines) : Lines :=
  match table with
  | filter_table => raw
  | nat_table => filter (λ line, mentions dockerChains line = false) raw
  end.

(** The rules a table may hold besides those of its own set. *)
Definition extra_rules (table : Table) (ip : text) : Lines :=
  match table with filter_table => [] | nat_table => proxyRules ip end.

Lemma tableRules_spec iface interface owned allowed table raw rules dns :
  tableRules iface interface owned allowed table raw = Ok (rules, dns) →
  (∃ normal,
     Forall2 (λ line r, normalize line iface = Ok r)
       (filter (λ line, kept_line owned line = true) (own_lines table raw)) normal
     ∧ rules ≡ₚ normal)
  ∧ (∀ r, r ∈ rules → r ∈ allowed
       ∨ ∃ value a, interface !! lit "Address" = Some value ∧ address value false = Ok a
                    ∧ from_rules iface (extra_rules table (a_ip a)) r)
  ∧ (∀ line, line ∈ own_lines table raw → starts_with (lit "-P ") line = true → accepting_policy line).
Proof.
  unfold tableRules. intros Hok. apply rbind_Ok in Hok as ([[raw' dns'] proxy] & Hraw & Hok).
  apply rbind_Ok in Hok as (allowed' & Ha & Hok). apply rbind_Ok in Hok as (out & Hout & Hok).
  injection Hok as Hrules <-.
  assert (raw' = own_lines table raw ∧ (proxy = [] ∨ ∃ value a,
            interface !! lit "Address" = Some value ∧ address value false = Ok a
            ∧ proxy ≡ₚ extra_rules table (a_ip a))) as [-> Hproxy].
  { destruct table; [by injection Hraw as <- <- <-; auto|].
    apply rbind_Ok in Hraw as ([raw1 pres] & Hd & Hraw). apply rbind_Ok in Hraw as (value & Hv & Hraw).
    apply rbind_Ok in Hraw as (px & Hp & Hraw). injection Hraw as <- <- <-.
    apply docker_remaining in Hd. split; [done|]. apply proxy_group in Hp as [_ [?|(a & Haddr & Hperm)]].
    - by left.
    - right. exists value, a. unfold get in Hv. by destruct (interface !! _); simplify_eq. }
  apply tableLines_spec in Hout as (H1 & H2 & H3).
  assert (rules ≡ₚ out) as Hperm.
  { rewrite <-Hrules. destruct (bool_decide (proxy = [])); [apply sort_text_perm|apply chains_first_perm]. }
  split_and!; [by exists out| |done]. intros r Hr. rewrite Hperm in Hr. apply H2 in Hr.
  apply (insertNormalized_spec _ _ _ _ Ha) in Hr as [?|(r0 & Hr0 & Hn)]; [by left|]. right.
  destruct Hproxy as [->|(value & a & ? & ? & Hp)]; [by apply elem_of_nil in Hr0|].
  exists value, a. split_and!; [done|done|]. exists r0. by rewrite <-Hp.
Qed.

Context {W : Type} (run : Lines → cmd W text).

Lemma readTable_Ok container iface interface owned allowed table w out w' :
  readTable run container iface interface owned allowed table w = (Ok out, w') →
  ∃ raw, tableRules iface interface owned allowed table raw = Ok out.
Proof.
  unfold readTable. intros (output & w1 & _ & H)%cmd_bind_Ok. injection H as H _. eauto.
Qed.

Lemma mtu_Ok v n : mtu v = Ok n → 576 <= n <= 9000.
Proof.
  unfold mtu. intros H. apply rbind_Ok in H as (u & _ & H). apply rbind_Ok in H as (u2 & Hr & H).
  apply reject_if_Ok in Hr. injection H as <-. bprop. lia.
Qed.

(** A rule of a table a snapshot may record: the normal form of one of the
    rules the deployment scripts create for this interface and network, or of
    the DNS proxy of this server. *)
Definition snapshot_rule (iface : text) (a : Address) (table : Table) (r : text) : Prop :=
  from_rules iface
    (match table with
     | filter_table => filterRules iface (a_network a)
     | nat_table => natTableRules iface (a_network a) ++ proxyRules (a_ip a)
     end) r.

Lemma snapshot_rules container interface iface owned w s w' :
  namespaceSnapshot run container interface iface owned w = (Ok s, w') →
  ∃ value a, interface !! lit "Address" = Some value ∧ address value false = Ok a
  ∧ 576 <= snap_mtu s <= 9000
  ∧ (∀ r, r ∈ snap_filter s → snapshot_rule iface a filter_table r)
  ∧ (∀ r, r ∈ snap_nat s → snapshot_rule iface a nat_table r).
Proof.
  unfold namespaceSnapshot. intros Hok.
  apply cmd_bind_Ok in Hok as (u0 & w0 & _ & Hok).
  apply cmd_bind_Ok in Hok as (network & w1 & Hnet & Hok). injection Hnet as Hnet <-.
  apply rbind_Ok in Hnet as (value & Hv & Hnet). apply rbind_Ok in Hnet as (a & Ha & Hnet).
  injection Hnet as <-. unfold get in Hv. destruct (interface !! lit "Address") as [v|] eqn:Hi; [|done].
  injection Hv as ->. apply cmd_bind_Ok in Hok as (link & w2 & _ & Hok).
  apply cmd_bind_Ok in Hok as (m & w3 & Hm & Hok). injection Hm as Hm <-.
  apply cmd_bind_Ok in Hok as (u1 & w4 & _ & Hok).
  apply cmd_bind_Ok in Hok as (rules & w5 & _ & Hok).
  apply cmd_bind_Ok in Hok as (u2 & w6 & _ & Hok).
  apply cmd_bind_Ok in Hok as ([fs ns] & w7 & Hal & Hok). injection Hal as Hal <-.
  apply allowedRules_spec in Hal as [Hfs Hns].
  apply cmd_bind_Ok in Hok as (u3 & w8 & _ & Hok).
  apply cmd_bind_Ok in Hok as ([frules fd] & w9 & Hf & Hok).
  apply cmd_bind_Ok in Hok as ([nrules nd] & w10 & Hn & Hok).
  apply cmd_bind_Ok in Hok as (table & w11 & _ & Hok).
  apply cmd_bind_Ok in Hok as (routes & w12 & _ & Hok).
  apply cmd_bind_Ok in Hok as (egress & w13 & _ & Hok).
  injection Hok as <- _. cbn [snap_mtu snap_filter snap_nat].
  exists value, a. do 2 (split; [done|]). split; [|split].
  - destruct (observedMtu link); [|done]. by apply mtu_Ok in Hm.
  - intros r Hr. apply readTable_Ok in Hf as (raw & Hf).
    apply tableRules_spec in Hf as (_ & Hf & _). unfold snapshot_rule.
    destruct (Hf r Hr) as [?|(value' & a' & _ & _ & r0 & Hr0 & _)]; [by apply Hfs|].
    by apply elem_of_nil in Hr0.
  - intros r Hr. apply readTable_Ok in Hn as (raw & Hn).
    apply tableRules_spec in Hn as (_ & Hn & _). unfold snapshot_rule. rewrite from_rules_app.
    destruct (Hn r Hr) as [?|(value' & a' & Hi' & Ha' & Hx)]; [left; by apply Hns|right].
    rewrite Hi in Hi'. injection Hi' as <-. rewrite Ha in Ha'. by injection Ha' as <-.
Qed.

(** C36. The script that recreates the firewall of a migrated container runs
    only known commands: when a snapshot is taken, whatever the container
    answered, every line of the script is an iptables command for the filter
    or nat table whose rule is the normal form of a rule the deployment
    creates for this interface and network, or of the DNS proxy of this
    server; and the recorded MTU is between 576 and 9000. *)
Theorem snapshot_script_whitelisted container interface iface owned w s w' :
  namespaceSnapshot run container interface iface owned w = (Ok s, w') →
  ∃ value a,
    interface !! lit "Address" = Some value ∧ address value false = Ok a
    ∧ firewallScript s = (if bool_decide (script_lines s = []) then [10] else concat (script_lines s))
    ∧ (∀ line, line ∈ script_lines s → ∃ table r,
         line = lit "iptables -t " ++ table_name table ++ lit " " ++ r ++ [10]
         ∧ snapshot_rule iface a table r)
    ∧ 576 <= snap_mtu s <= 9000.
Proof.
  intros Hok. apply snapshot_rules in Hok as (value & a & Hv & Ha & Hm & Hf & Hn).
  exists value, a. do 2 (split; [done|]).
  split; [apply firewallScript_lines|]. split; [|done].
  intros line [(r & -> & Hr)%list_elem_of_fmap|(r & -> & Hr)%list_elem_of_fmap]%elem_of_app.
  - exists filter_table, r. split; [done|]. apply Hf. by rewrite <-chains_first_perm.
  - exists nat_table, r. split; [done|]. apply Hn. by rewrite <-chains_first_perm.
Qed.
End tables.

(** Nothing is lost between a table and its snapshot: the recorded rules
    are, up to order, the normal forms of all lines of the table except the
    default policies, which must accept, the rules of known owners and, in the
    nat table, the Docker resolver; any other line makes the snapshot fail. *)
Theorem table_rules_complete `{Inet} iface interface owned allowed table raw rules dns :
  tableRules iface interface owned allowed table raw = Ok (rules, dns) →
  (∃ normal,
     Forall2 (λ line r, normalize line iface = Ok r)
       (filter (λ line, kept_line owned line = true) (own_lines table raw)) normal
     ∧ rules ≡ₚ normal)
  ∧ (∀ line, line ∈ own_lines table raw → starts_with (lit "-P ") line = true → accepting_policy line).
Proof. intros Hok. apply tableRules_spec in Hok as (? & _ & ?). done. Qed.

(** ** A container *)

(** A runner that answers from a list. *)
Definition answer (args : Lines) : cmd (list text) text :=
  λ w, match w with o :: w' => (Ok o, w') | [] => (Err (lit "no answer"), []) end.

Definition text_lines (l : Lines) : text := concat (map (λ s, s ++ [10]) l).

Notation filter0 :=
  [ lit "-P INPUT ACCEPT"; lit "-P FORWARD ACCEPT"; lit "-A FORWARD -i wg0 -j ACCEPT";
    lit "-A INPUT -i wg0 -j ACCEPT"; lit "-A FORWARD -m state --state RELATED,ESTABLISHED -j ACCEPT";
    lit "-A INPUT -p tcp --dport 18082 -m comment --comment owned -j DROP" ].
Notation nat0 :=
  (lit "-P PREROUTING ACCEPT" :: docker0 ++ [lit "-A POSTROUTING -o eth0 -j MASQUERADE"]).

Notation answers0 :=
  [ lit "7: wg0: <UP> mtu 1280 qdisc noqueue";
    text_lines [lit "0:	from all lookup local"; lit "32766:	from all lookup main";
                lit "32767:	from all lookup default"];
    text_lines [lit "-P PREROUTING ACCEPT"]; text_lines [lit "-P FORWARD ACCEPT"];
    text_lines filter0; text_lines nat0;
    text_lines [lit "default via 172.17.0.1 dev eth0";
                lit "10.8.1.0/24 dev wg0 proto kernel scope link src 10.8.1.1"];
    lit "1.1.1.1 via 172.17.0.1 dev eth0 src 172.17.0.2"; lit "8.8.8.8 dev eth0";
    lit "172.29.172.254 dev eth1 src 1.1.1.1"; lit "172.29.172.253 dev eth1" ].

Notation snapshot0 :=
  (MkSnapshot 1280
     [ lit "-A FORWARD -i awg0 -j ACCEPT";
       lit "-A FORWARD -m state --state ESTABLISHED,RELATED -j ACCEPT"; lit "-A INPUT -i awg0 -j ACCEPT" ]
     [ lit "-A POSTROUTING -o eth0 -j MASQUERADE" ]
     [ lit "10.8.1.0/24 dev awg0"; lit "default via 172.17.0.1 dev eth0" ]
     {[ lit "1.1.1.1" := lit "eth0"; lit "8.8.8.8" := lit "eth0";
        lit "172.29.172.254" := lit "eth1"; lit "172.29.172.253" := lit "eth1" ]} true).

Example snapshot0_taken :
  namespaceSnapshot answer (lit "amnezia-awg") interface0 (lit "wg0") [lit "owned"] answers0
  = (Ok snapshot0, []).
Proof. vm_compute. reflexivity. Qed.

Lemma snapshot_script_whitelisted_witness :
  ∃ a, address (lit "10.8.1.1/24") false = Ok a
  ∧ ∀ line, line ∈ script_lines snapshot0 → ∃ table r,
      line = lit "iptables -t " ++ table_name table ++ lit " " ++ r ++ [10]
      ∧ snapshot_rule (lit "wg0") a table r.
Proof.
  destruct (snapshot_script_whitelisted answer (lit "amnezia-awg") interface0 (lit "wg0")
              [lit "owned"] answers0 snapshot0 []) as (v & a & Hv & Ha & _ & Hl & _).
  { vm_compute. reflexivity. }
  exists a. split; [|exact Hl]. rewrite <-Ha. f_equal. revert Hv. vm_compute. congruence.
Defined.

Lemma table_rules_complete_witness :
  ∃ normal,
    Forall2 (λ line r, normalize line (lit "wg0") = Ok r)
      (filter (λ line, kept_line [lit "owned"] line = true) (own_lines nat_table nat0)) normal
    ∧ snap_nat snapshot0 ≡ₚ normal.
Proof.
  destruct (table_rules_complete (lit "wg0") interface0 [lit "owned"]
              {[ lit "-A POSTROUTING -o eth0 -j MASQUERADE" ]} nat_table nat0
              (snap_nat snapshot0) true) as [H _]; [|exact H].
  vm_compute. reflexivity.
Defined.

(** ** Addresses and prefixes *)

Lemma clear_bits_testbit w p b l i :
  0 <= i →
  Z.testbit (foldl (λ m n, if n >=? p then Z.clearbit m (w - 1 - n) else m) b l) i
  = Z.testbit b i && negb (existsb (λ n, (n >=? p) && (w - 1 - n =? i)) l).
Proof.
  intros Hi. revert b. induction l as [|n l IH]; intros b; cbn [foldl existsb].
  { by rewrite andb_true_r. }
  rewrite IH. destruct (n >=? p) eqn:E; cbn [andb orb]; [|done].
  rewrite Z.clearbit_eqb. destruct (w - 1 - n =? i); cbn; [|by rewrite andb_true_r].
  by rewrite !andb_false_r.
Qed.

(** The loop that clears the host bits computes the network address. *)
Lemma masked_bytes_spec w p b :
  0 <= p <= w → masked_bytes w p b = b / 2 ^ (w - p) * 2 ^ (w - p).
Proof.
  intros Hp. rewrite <-Z.shiftr_div_pow2, <-Z.shiftl_mul_pow2 by lia.
  apply Z.bits_inj'. intros i Hi. unfold masked_bytes. rewrite clear_bits_testbit by done.
  rewrite Z.shiftl_spec by done. destruct (Z.ltb_spec i (w - p)) as [Hlt|Hge].
  - rewrite (Z.testbit_neg_r _ (i - (w - p))) by lia.
    assert (existsb (λ n, (n >=? p) && (w - 1 - n =? i)) (seqZ 0 w) = true) as ->; [|apply andb_false_r].
    apply existsb_true_iff. exists (w - 1 - i). rewrite elem_of_seqZ. split; [lia|].
    rewrite Z.geb_leb, andb_true_iff, Z.leb_le, Z.eqb_eq. lia.
  - rewrite Z.shiftr_spec by lia. replace (i - (w - p) + (w - p)) with i by lia.
    assert (existsb (λ n, (n >=? p) && (w - 1 - n =? i)) (seqZ 0 w) = false) as ->; [|apply andb_true_r].
    apply existsb_false_iff. intros n Hn. apply elem_of_seqZ in Hn.
    rewrite Z.geb_leb. destruct (Z.leb_spec p n); [|done]. apply Z.eqb_neq. lia.
Qed.

(** A number without a gap below its highest bit. *)
Lemma land_succ_zero y : 0 <= y → Z.land y (y + 1) = 0 → ∃ k, 0 <= k ∧ y = 2 ^ k - 1.
Proof.
  intros Hy Hl. exists (Z.log2 (y + 1)). split; [apply Z.log2_nonneg|].
  pose proof (Z.log2_spec (y + 1) ltac:(lia)) as [H1 H2].
  destruct (Z.eq_dec (2 ^ Z.log2 (y + 1)) (y + 1)) as [E|E]; [lia|]. exfalso.
  set (k := Z.log2 (y + 1)) in *. assert (0 <= k) by apply Z.log2_nonneg.
  assert (0 < 2 ^ k) by (by apply Z.pow_pos_nonneg).
  assert (Z.log2 y = k) as Hk by (apply Z.log2_unique; lia).
  assert (Z.testbit (Z.land y (y + 1)) k = true) as Hb.
  { rewrite Z.land_spec, andb_true_iff. split.
    - rewrite <-Hk. apply Z.bit_log2. lia.
    - apply Z.bit_log2. lia. }
  by rewrite Hl, Z.bits_0 in Hb.
Qed.

Definition net_mask (p : Z) : Z := 2 ^ 32 - 2 ^ (32 - p).

Lemma net_mask_range p : 0 <= p <= 32 → is_u32 (net_mask p).
Proof.
  intros Hp. unfold is_u32, net_mask.
  pose proof (Z.pow_le_mono_r 2 (32 - p) 32 ltac:(lia) ltac:(lia)).
  pose proof (Z.pow_pos_nonneg 2 (32 - p) ltac:(lia) ltac:(lia)). lia.
Qed.

Lemma contiguous_iff n : is_u32 n → contiguous n = true ↔ ∃ p, 0 <= p <= 32 ∧ n = net_mask p.
Proof.
  intros Hn. unfold contiguous, not32, net_mask, is_u32 in *. rewrite Z.eqb_eq. split.
  - intros Hl. destruct (Z.eq_dec n 0) as [->|H0]; [exists 0; lia|].
    rewrite Z.mod_small in Hl by lia. apply land_succ_zero in Hl as (k & Hk & Hy); [|lia].
    assert (k < 32). { apply (Z.pow_lt_mono_r_iff 2); lia. }
    exists (32 - k). replace (32 - (32 - k)) with k by lia. lia.
  - intros (p & Hp & ->). destruct (Z.eq_dec p 0) as [->|H0]; [done|].
    assert (0 < 2 ^ (32 - p)) by (apply Z.pow_pos_nonneg; lia).
    assert (2 ^ (32 - p) < 2 ^ 32) by (apply Z.pow_lt_mono_r; lia).
    replace (2 ^ 32 - 1 - (2 ^ 32 - 2 ^ (32 - p))) with (2 ^ (32 - p) - 1) by lia.
    rewrite Z.sub_add, Z.mod_small by lia. rewrite Z.land_comm.
    replace (2 ^ (32 - p) - 1) with (Z.ones (32 - p)) by (rewrite Z.ones_equiv; lia).
    rewrite Z.land_ones by lia. apply Z.mod_same. lia.
Qed.

Lemma count_shifts_mask p : 0 <= p <= 32 → count_shifts 33 (net_mask p) = p.
Proof.
  intros Hp. assert (forallb (λ p, count_shifts 33 (net_mask p) =? p) (seqZ 0 33) = true) as H
    by (vm_compute; reflexivity).
  apply forallb_true_iff in H. eapply Forall_forall in H; [by apply Z.eqb_eq in H|].
  apply elem_of_seqZ. lia.
Qed.

Lemma not32_u32 n : is_u32 n → is_u32 (not32 n) ∧ not32 (not32 n) = n.
Proof. unfold is_u32, not32. lia. Qed.

Section address_facts.
Context `{I : Inet} `{!InetLaws I}.

Lemma maskPrefix_Ok mask p :
  maskPrefix mask = Ok p →
  0 <= p <= 32
  ∧ ∃ n, inet_pton AF_INET mask = Some n ∧ (n = net_mask p ∨ n = not32 (net_mask p)).
Proof.
  unfold maskPrefix. intros H. apply rbind_Ok in H as (u & _ & H).
  destruct (inet_pton AF_INET mask) as [n|] eqn:En; [|done].
  assert (is_u32 n) as Hn by (apply inet_pton_range in En; exact En).
  destruct (contiguous n) eqn:Ec.
  - apply contiguous_iff in Ec as (q & Hq & ->); [|done].
    rewrite count_shifts_mask in H by done. injection H as <-. split; [done|]. eauto.
  - apply rbind_Ok in H as (u2 & Hr & H). apply reject_if_Ok in Hr. bprop.
    destruct (not32_u32 n Hn) as [Hn' Hinv].
    apply contiguous_iff in Hr as (q & Hq & Eq); [|done].
    rewrite Eq, count_shifts_mask in H by done. injection H as <-. split; [done|]. exists n. split; [done|].
    right. by rewrite <-Eq.
Qed.

Lemma decimalPrefix_Ok width mask p : 0 <= width → decimalPrefix width mask = Ok p → 0 <= p <= width.
Proof.
  intros Hw H. unfold decimalPrefix in H. apply rbind_Ok in H as (q & Hq & H).
  apply rbind_Ok in H as (u & Hr & H). injection H as <-. apply reject_if_Ok in Hr. bprop.
  split; [|lia]. revert Hq. apply rfold_inv; [|lia]. intros s c s1 Hs _ Hc.
  apply rbind_Ok in Hc as (u2 & Hr2 & Hc). apply reject_if_Ok in Hr2. bprop. injection Hc as <-. lia.
Qed.

(** An accepted interface address: its prefix fits its family, whether it
    was written as a number or as a dotted mask or complement of one; the
    network is the address with exactly the bits past the prefix cleared; and
    where a network is required, no such bit was set. *)
Theorem address_network_exact value strict a :
  address value strict = Ok a →
  let w := family_width (a_family a) in
  let net := a_bytes a / 2 ^ (w - a_prefix a) * 2 ^ (w - a_prefix a) in
  0 <= a_prefix a <= w
  ∧ 0 <= a_bytes a < 2 ^ w
  ∧ a_ip a = inet_ntop (a_family a) (a_bytes a)
  ∧ a_network a = inet_ntop (a_family a) net ++ lit "/" ++ number (a_prefix a)
  ∧ (strict = true → net = a_bytes a).
Proof.
  unfold address. destruct (cut 47 value) as [host mask]. intros H.
  set (family := if contains_char 58 host then AF_INET6 else AF_INET) in *.
  apply rbind_Ok in H as (host' & _ & H). apply rbind_Ok in H as (u & _ & H).
  apply rbind_Ok in H as (bytes & Hb & H). apply rbind_Ok in H as (prefix & Hp & H).
  apply rbind_Ok in H as (u2 & Hs & H). injection H as <-. cbn [a_family a_bytes a_prefix a_ip a_network].
  assert (0 <= prefix <= family_width family) as Hpre.
  { destruct mask as [m|]; [|injection Hp as <-; by destruct family].
    apply rbind_Ok in Hp as (u3 & _ & Hp).
    destruct (contains_char 46 m && bool_decide (family = AF_INET)) eqn:E.
    - apply andb_true_iff in E as [_ E]. apply bool_decide_eq_true in E. rewrite E.
      apply maskPrefix_Ok in Hp. cbn. lia.
    - apply decimalPrefix_Ok in Hp; [done|]. by destruct family. }
  rewrite masked_bytes_spec in Hs |- * by done. apply reject_if_Ok in Hs.
  cbv zeta. split; [done|]. split.
  { destruct (inet_pton family host') as [b|] eqn:E; [|done]. injection Hb as <-. by eapply inet_pton_range. }
  split_and!; [done|done|]. intros ->. cbn in Hs. bprop. done.
Qed.
End address_facts.

#[local] Instance toyInet_laws : InetLaws toyInet.
Proof.
  split.
  - intros [] s a; cbn.
    + apply parse_dotted_u32.
    + destruct (text_eqb s _); [|done]. by intros [= <-].
  - done.
  - intros a Ha. cbn. by apply parse_dotted_dotted.
  - intros [] a Ha; cbn; [|split; [done|]].
    + split; [apply dotted_ne|]. apply Forall_forall. intros c Hc%dotted_chars. unfold is_lower_hex, is_digit.
      destruct Hc as [->|Hc]; [auto|]. left. apply orb_true_iff. left. lia.
    + apply Forall_cons; split; [auto|]. apply Forall_cons; split; [auto|].
      apply Forall_singleton. auto.
Qed.

Notation address0 :=
  (MkAddress AF_INET 0x0a080107 24 (lit "10.8.1.7") (lit "10.8.1.0/24")).

Lemma address_network_exact_witness :
  a_network address0 = inet_ntop AF_INET (0x0a080107 / 2 ^ (32 - 24) * 2 ^ (32 - 24)) ++ lit "/24".
Proof.
  destruct (address_network_exact (lit "10.8.1.7/255.255.255.0") false address0)
    as (_ & _ & _ & H & _); [vm_compute; reflexivity|exact H].
Defined.
