(* ===== verification/Regex.v ===== *)
(** * Regular expressions with backtracking

    The part of QRegularExpression that the scan of a profile's configuration
    uses: greedy repetition, ordered alternatives, one capturing group and the
    line anchors of the multi-line mode, tried in the order in which the engine
    tries them, so that the captured text is the engine's.  [\s], [\d] and
    [\S] are the ASCII classes. *)

From S2P Require Import Prelude Text QtInterface.
#[local] Open Scope Z_scope.

Inductive regex :=
| Eps
| Class (p : Z → bool)
| Cat (a b : regex)
| Alt (a b : regex)
| Star (a : regex)
| Capture (a : regex)
| LineStart
| LineEnd.

(** What is before the position (reversed), what is after it, and the captured
    text. *)
Record cursor := Cursor { before : text; after : text; captured : option text }.

Definition at_line_start (c : cursor) : bool :=
  match before c, after c with
  | [], _ => true
  | 10 :: _, _ :: _ => true
  | _, _ => false
  end.

Definition at_line_end (c : cursor) : bool :=
  match after c with [] => true | d :: _ => d =? 10 end.

Definition advance (p : Z → bool) (c : cursor) : option cursor :=
  match after c with
  | d :: rest => if p d then Some (Cursor (d :: before c) rest (captured c)) else None
  | [] => None
  end.

(** The text between two positions. *)
Definition between (c c' : cursor) : text := reverse (take (length (before c') - length (before c)) (before c')).

Section matching.
Context {A : Type}.

(** [rmatch r c k]: the first way to match [r] at [c] after which [k] succeeds.
    An iteration that consumes nothing ends a repetition, so the number of
    characters that are left bounds the iterations. *)
Fixpoint rmatch (r : regex) (c : cursor) (k : cursor → option A) {struct r} : option A :=
  match r with
  | Eps => k c
  | Class p => match advance p c with Some c' => k c' | None => None end
  | Cat a b => rmatch a c (λ c', rmatch b c' k)
  | Alt a b => match rmatch a c k with Some x => Some x | None => rmatch b c k end
  | Star a =>
      (fix loop (n : nat) (c : cursor) : option A :=
         match n with
         | O => k c
         | S n' =>
             match rmatch a c (λ c', if (length (after c') <? length (after c))%nat then loop n' c' else None) with
             | Some x => Some x
             | None => k c
             end
         end) (length (after c)) c
  | Capture a => rmatch a c (λ c', k (Cursor (before c') (after c') (Some (between c c'))))
  | LineStart => if at_line_start c then k c else None
  | LineEnd => if at_line_end c then k c else None
  end.
End matching.

(** [globalMatch]: the group of each match, from left to right; the next search
    starts where the match ended.  Every step moves the position, since no
    match is empty, so the length of the text is enough fuel. *)
Fixpoint all_matches (fuel : nat) (r : regex) (c : cursor) : list text :=
  match fuel with
  | O => []
  | S fuel =>
      match rmatch r (Cursor (before c) (after c) None) Some with
      | Some c' => default [] (captured c') :: all_matches fuel r c'
      | None =>
          match after c with
          | [] => []
          | d :: rest => all_matches fuel r (Cursor (d :: before c) rest None)
          end
      end
  end.

Definition globalMatch (r : regex) (content : text) : list text :=
  all_matches (S (length content)) r (Cursor [] content None).

(** ** Notation for the expressions *)

Definition Plus (a : regex) : regex := Cat a (Star a).
Definition Opt (a : regex) : regex := Alt a Eps.
Definition blank : regex := Class ascii_space.
Definition nonblank : regex := Class (λ c, negb (ascii_space c)).
Definition digit : regex := Class is_digit.

Definition cats (l : list regex) : regex := foldr Cat Eps l.
(** A literal text, and a literal matched without regard to case; its letters
    are ASCII and none has a non-ASCII case variant. *)
Definition word (s : text) : regex := cats (map (λ c, Class (Z.eqb c)) s).
Definition word_ci (s : text) : regex := cats (map (λ c, Class (λ d, ascii_lower d =? ascii_lower c)) s).

(** [a{1,n}] for [S n]. *)
Fixpoint upto (n : nat) (a : regex) : regex :=
  match n with O => a | S n => Cat a (Opt (upto n a)) end.

(** ** Facts *)

(** What a match consumes is a part of the text, in order. *)
Definition follows (c c' : cursor) : Prop := ∃ s, after c = s ++ after c' ∧ before c' = reverse s ++ before c.

Lemma follows_refl c : follows c c.
Proof. by exists []. Qed.

Lemma follows_trans c1 c2 c3 : follows c1 c2 → follows c2 c3 → follows c1 c3.
Proof.
  intros (s1 & A1 & B1) (s2 & A2 & B2). exists (s1 ++ s2).
  by rewrite A1, A2, B2, B1, reverse_app, !app_assoc.
Qed.

Lemma advance_follows p c c' : advance p c = Some c' → follows c c'.
Proof.
  unfold advance. destruct (after c) as [|d rest] eqn:E; [done|]. destruct (p d); intros [= <-].
  exists [d]. by rewrite E.
Qed.

(** The continuation is applied at a position that follows. *)
Lemma rmatch_inv {A} r c (k : cursor → option A) x :
  rmatch r c k = Some x → ∃ c', follows c c' ∧ k c' = Some x.
Proof.
  revert c k x. induction r as [|p|a IHa b IHb|a IHa b IHb|a IHa|a IHa| |]; intros c k x E; cbn [rmatch] in E.
  - exists c. split; [apply follows_refl|done].
  - destruct (advance p c) as [c'|] eqn:Ea; [|done]. exists c'. split; [by eapply advance_follows|done].
  - apply IHa in E as (c1 & H1 & E). apply IHb in E as (c2 & H2 & E). exists c2. split; [by eapply follows_trans|done].
  - destruct (rmatch a c k) eqn:Ea; [simplify_eq; by apply IHa in Ea|by apply IHb in E].
  - revert E. generalize (length (after c)) as n. intros n. revert c. induction n as [|n IHn]; intros c E.
    { exists c. split; [apply follows_refl|done]. }
    match type of E with match ?t with _ => _ end = _ => destruct t eqn:Ea end.
    + simplify_eq. apply IHa in Ea as (c1 & H1 & E1). destruct (_ <? _)%nat; [|done].
      apply IHn in E1 as (c2 & H2 & E2). exists c2. split; [by eapply follows_trans|done].
    + exists c. split; [apply follows_refl|done].
  - apply IHa in E as (c1 & (s & A1 & B1) & E). eexists. split; [|exact E]. by exists s.
  - destruct (at_line_start c); [|done]. exists c. split; [apply follows_refl|done].
  - destruct (at_line_end c); [|done]. exists c. split; [apply follows_refl|done].
Qed.
