(* ===== verification/ProfileStore.v ===== *)
(** * The headless profile store

    Model of ProfileStore in headless/profileStore.cpp and .h: the profiles the
    daemon keeps, their JSON form, what a profile has to satisfy, and the file
    that holds them.  The path is a parameter; the outcome of every file
    operation is decided by the outside world. *)

From stdpp Require Import gmap.
From S2P Require Import Prelude Text Json QtInterface QtModel Command JsonText ConfigCodec RoutePolicy.
From S2P Require Import RouteGrammar RouteState.
#[local] Open Scope Z_scope.
#[local] Open Scope amnezia_scope.

(** ** What the store asks of Qt *)

(** [QUrl(s, QUrl::StrictMode)] through its accessors; [port()] is -1 when
    there is none. *)
Record Url := MkUrl {
  u_isValid : bool;
  u_scheme : text;
  u_host : text;
  u_userInfo : text;
  u_hasFragment : bool;
  u_fragment : text;
  u_port : Z;
}.

Class QtFiles := {
  url_strict : text → Url;
  path_isAbsolute : text → bool;       (* QFileInfo(path).isAbsolute() *)
  json_indented : jobject → text;      (* QJsonDocument(o).profileToJson(Indented) *)
}.

Class QtFilesLaws `(D : QtData) `(F : QtFiles) : Prop := {
  json_parse_indented o : json_printable o = true → json_parse (json_indented o) = Some (JObject o);
  json_parse_compact o : json_printable o = true → json_parse (json_compact o) = Some (JObject o);
}.

(** ** Profiles *)

Record Profile := MkProfile {
  p_id : text;
  p_name : text;
  p_protocol : text;
  p_configPath : text;
  p_forwardRoutes : list text;
  p_dnsServers : list text;
  p_dnsDomains : list text;
  p_interfaceName : text;
  p_routingMode : text;
  p_serverRulesUrl : text;
  p_updateManifestUrl : text;
  p_updatePublicKeyPath : text;
  p_autoConnect : bool;
  p_autoUpdate : bool;
}.

#[export] Instance profile_eq_dec : EqDecision Profile.
Proof. solve_decision. Defined.

Definition StoreVersion : Z := 1.
Definition MaximumStoreBytes : Z := 16 * 1024 * 1024.
Definition MaximumProfiles : Z := 128.

(** A pattern [^...$]: the dollar sign also matches before a final newline. *)
Definition anchored (p : text → bool) (s : text) : bool :=
  p s || match reverse s with 10 :: r => p (reverse r) | _ => false end.

Definition alnum (c : Z) : bool :=
  is_digit c || ((65 <=? c) && (c <=? 90)) || ((97 <=? c) && (c <=? 122)).

(** [~\.|~?[A-Za-z0-9](?:[A-Za-z0-9.-]{0,252}[A-Za-z0-9])?]. *)
Definition dnsDomain (s : text) : bool :=
  text_eqb s (lit "~.")
  || let t := match s with 126 :: t => t | _ => s end in
     match t, last t with
     | c :: _, Some d =>
         alnum c && alnum d && forallb (λ c, alnum c || (c =? 46) || (c =? 45)) t && (tsize t <=? 254)
     | _, _ => false
     end.

(** *** The file of the store *)

Inductive StoreOp := OpenStore | MakeDirectory | LockStore | OpenSave | CommitStore.

Class StoreHost (W : Type) := { store_io : StoreOp → W → bool * W }.

Record StoreWorld (W : Type) := MkStore {
  ps_profiles : list Profile;
  ps_lastError : text;
  ps_file : Path;
  ps_outer : W;
}.
Arguments MkStore {W}.
Arguments ps_profiles {W}.
Arguments ps_lastError {W}.
Arguments ps_file {W}.
Arguments ps_outer {W}.

Section store.
Context `{QtText} `{QtNet} `{QtData} `{QtFiles}.

(** *** Protocols *)

Definition normalizeProtocol (protocol : text) : text :=
  let value := q_toLower (trimmed protocol) in
  if text_eqb value (lit "awg") || text_eqb value (lit "awg2") || text_eqb value (lit "amnezia-wg")
     || text_eqb value (lit "amneziawg") then lit "amneziawg" else
  if text_eqb value (lit "ss-xray") then lit "ssxray" else value.

Definition isSupportedProtocol (protocol : text) : bool :=
  let normalized := normalizeProtocol protocol in
  text_eqb normalized (lit "wireguard") || text_eqb normalized (lit "amneziawg")
  || text_eqb normalized (lit "openvpn") || text_eqb normalized (lit "xray")
  || text_eqb normalized (lit "ssxray").

(** *** JSON *)

Definition profileToJson (profile : Profile) : jobject := object_of
  [(lit "id", Some (JString (p_id profile)));
   (lit "name", Some (JString (p_name profile)));
   (lit "protocol", Some (JString (normalizeProtocol (p_protocol profile))));
   (lit "configPath", Some (JString (p_configPath profile)));
   (lit "forwardRoutes", filled_list (p_forwardRoutes profile));
   (lit "dnsServers", filled_list (p_dnsServers profile));
   (lit "dnsDomains", filled_list (p_dnsDomains profile));
   (lit "interfaceName", filled (p_interfaceName profile));
   (lit "routingMode", filled (p_routingMode profile));
   (lit "serverRulesUrl", filled (p_serverRulesUrl profile));
   (lit "updateManifestUrl", filled (p_updateManifestUrl profile));
   (lit "updatePublicKeyPath", filled (p_updatePublicKeyPath profile));
   (lit "autoConnect", set_if (p_autoConnect profile) (JBool true));
   (lit "autoUpdate", set_if (p_autoUpdate profile) (JBool true))].

(** The trimmed strings of an array, when all of it are strings. *)
Fixpoint trimmed_strings (l : list json) : option (list text) :=
  match l with
  | [] => Some []
  | JString s :: l' => rest ← trimmed_strings l'; Some (trimmed s :: rest)
  | _ :: _ => None
  end.

Definition readStringList (key : text) (object : jobject) : option (list text) :=
  match jvalue key object with
  | JUndefined => Some []
  | JArray l => trimmed_strings l
  | _ => None
  end.

Definition readString (key : text) (object : jobject) : option text :=
  if jcontains key object && negb (is_string (jvalue key object)) then None
  else Some (trimmed (to_string [] (jvalue key object))).

Definition readBool (key : text) (object : jobject) : option bool :=
  if jcontains key object && negb (is_bool (jvalue key object)) then None
  else Some (to_bool false (jvalue key object)).

Definition or_error {A} (o : option A) (message : string) : result text A :=
  match o with Some a => Ok a | None => Err (lit message) end.

Definition profileFromJson (object : jobject) : result text Profile :=
  match jvalue (lit "id") object, jvalue (lit "name") object,
        jvalue (lit "protocol") object, jvalue (lit "configPath") object with
  | JString id, JString name, JString protocol, JString configPath =>
      let forwardRoutesValue := jvalue (lit "forwardRoutes") object in
      let? _ := reject_if (negb (is_undefined forwardRoutesValue) && negb (is_array forwardRoutesValue))
                  (lit "forwardRoutes must be an array") in
      let? forwardRoutes := or_error (trimmed_strings (to_array forwardRoutesValue))
                              "forwardRoutes must contain strings" in
      let metadata := "DNS metadata must be arrays of strings"%string in
      let? dnsServers := or_error (readStringList (lit "dnsServers") object) metadata in
      let? dnsDomains := or_error (readStringList (lit "dnsDomains") object) metadata in
      let invalid := "profile metadata has an invalid type"%string in
      let? interfaceName := or_error (readString (lit "interfaceName") object) invalid in
      let? routingMode := or_error (readString (lit "routingMode") object) invalid in
      let? serverRulesUrl := or_error (readString (lit "serverRulesUrl") object) invalid in
      let? updateManifestUrl := or_error (readString (lit "updateManifestUrl") object) invalid in
      let? updatePublicKeyPath := or_error (readString (lit "updatePublicKeyPath") object) invalid in
      let? autoConnect := or_error (readBool (lit "autoConnect") object) "autoConnect must be a boolean" in
      let? autoUpdate := or_error (readBool (lit "autoUpdate") object) "autoUpdate must be a boolean" in
      Ok (MkProfile (trimmed id) (trimmed name) (normalizeProtocol protocol) (trimmed configPath)
            forwardRoutes dnsServers dnsDomains interfaceName routingMode serverRulesUrl
            updateManifestUrl updatePublicKeyPath autoConnect autoUpdate)
  | _, _, _, _ => Err (lit "profile metadata is incomplete")
  end.

(** *** Validation *)

Definition containsId (id : text) (profiles : list Profile) : bool := existsb (λ p, text_eqb (p_id p) id) profiles.

Definition validUrl (value : text) : bool :=
  is_empty value
  || let url := url_strict value in
     u_isValid url && (text_eqb (u_scheme url) (lit "http") || text_eqb (u_scheme url) (lit "https"))
     && negb (is_empty (u_host url)) && is_empty (u_userInfo url) && is_empty (u_fragment url).

Definition fail_if (b : bool) (message : string) : result text () := reject_if b (lit message).

(** The checks that do not depend on the other profiles. *)
Definition checkProfile (profile : Profile) : result text () :=
  let? _ := fail_if (is_empty (p_id profile) || (tsize (p_id profile) >? 128))
              "profile id is missing or too long" in
  let? _ := fail_if (is_empty (p_name profile) || (tsize (p_name profile) >? 256))
              "profile name is missing or too long" in
  let? _ := fail_if (is_empty (p_configPath profile) || negb (path_isAbsolute (p_configPath profile)))
              "profile config path must be absolute" in
  let? _ := fail_if (negb (isSupportedProtocol (p_protocol profile))) "unsupported profile protocol" in
  let? _ := fail_if (negb (is_empty (p_interfaceName profile)) && negb (validInterfaceName (p_interfaceName profile)))
              "VPN interface name is invalid" in
  let mode := p_routingMode profile in
  let? _ := fail_if (negb (is_empty mode) && negb (text_eqb mode only_forward) && negb (text_eqb mode all_except))
              "unsupported routing mode" in
  let? _ := fail_if (text_eqb mode all_except && is_empty (p_serverRulesUrl profile))
              "all-except requires a server routing policy URL" in
  let '(routes, routesValid) := validatedManagedRoutes (p_forwardRoutes profile) in
  let? _ := fail_if (negb routesValid || negb (length routes =? length (p_forwardRoutes profile))%nat)
              "forwardRoutes contains an invalid or duplicate route" in
  let? _ := fail_if ((8 <? length (p_dnsServers profile))%nat || (8 <? length (p_dnsDomains profile))%nat)
              "DNS metadata contains too many entries" in
  let? _ := fail_if (existsb (λ server, is_empty server || host_isNull (host_parse server)) (p_dnsServers profile))
              "DNS server is not a valid IP address" in
  let? _ := fail_if (existsb (λ domain, is_empty domain || (tsize domain >? 254) || negb (anchored dnsDomain domain))
                       (p_dnsDomains profile))
              "DNS routing domain is invalid" in
  let? _ := fail_if (negb (Bool.eqb (bool_decide (p_dnsServers profile = [])) (bool_decide (p_dnsDomains profile = []))))
              "DNS servers and routing domains must be configured together" in
  let? _ := fail_if (negb (validUrl (p_serverRulesUrl profile))) "server rules URL is invalid" in
  let? _ := fail_if (negb (validUrl (p_updateManifestUrl profile))) "update manifest URL is invalid" in
  let key := p_updatePublicKeyPath profile in
  let? _ := fail_if (negb (is_empty key) && (negb (path_isAbsolute key) || (tsize key >? 4096)))
              "update public key path is invalid" in
  fail_if (p_autoUpdate profile && (is_empty (p_updateManifestUrl profile) || is_empty key))
    "auto-update requires manifest URL and public key path".

(** [validate(profile, true)]; the code never passes [false]. *)
Definition validate (profiles : list Profile) (profile : Profile) : result text () :=
  let? _ := checkProfile profile in
  fail_if (containsId (p_id profile) profiles) "profile id already exists".

(** ** The store and its file *)

Context {W : Type} `{StoreHost W}.

Notation op A := (prog (StoreWorld W) bool A).

Definition set_profiles (l : list Profile) : op () :=
  cmd_modify (λ w, MkStore l (ps_lastError w) (ps_file w) (ps_outer w)).
Definition set_error (e : text) : op () :=
  cmd_modify (λ w, MkStore (ps_profiles w) e (ps_file w) (ps_outer w)).
Definition set_file (f : Path) : op () :=
  cmd_modify (λ w, MkStore (ps_profiles w) (ps_lastError w) f (ps_outer w)).
Definition file_op (o : StoreOp) : op bool := λ w,
  let '(b, outer) := store_io o (ps_outer w) in
  (Ok b, MkStore (ps_profiles w) (ps_lastError w) (ps_file w) outer).

(** [if (b) { m_lastError = message; return false; }] *)
Definition stop_if (b : bool) (message : string) : op () :=
  leave_if b (let! _ := set_error (lit message) in pure false).

(** The profiles of the entries, or the error of the first that is refused. *)
Definition read_entry (profiles : list Profile) (entry : json) : result text (list Profile) :=
  match entry with
  | JObject object =>
      let? profile := profileFromJson object in
      let? _ := validate profiles profile in
      Ok (profiles ++ [profile])
  | _ => Err (lit "profile store contains an invalid profile")
  end.

Definition load_body : op bool :=
  let! _ := set_error [] in
  let! _ := set_profiles [] in
  let! file := gets ps_file in
  if negb (path_exists file) then pure true else
  let! opened := file_op OpenStore in
  match file with
  | Regular content =>
      let! _ := stop_if (negb opened) "unable to read profile store" in
      let! _ := stop_if (tsize content >? MaximumStoreBytes) "profile store exceeds the size limit" in
      match json_parse content with
      | Some (JObject root) =>
          let entries := jvalue (lit "profiles") root in
          let! _ := stop_if (negb (to_int (-1) (jvalue (lit "version") root) =? StoreVersion)
                             || negb (is_array entries)) "unsupported profile store format" in
          let! _ := stop_if (Z.of_nat (length (to_array entries)) >? MaximumProfiles)
                      "profile store contains too many profiles" in
          match rfold read_entry [] (to_array entries) with
          | Ok profiles => let! _ := set_profiles profiles in let! _ := set_error [] in pure true
          | Err e => let! _ := set_error e in pure false
          end
      | _ => let! _ := set_error (lit "profile store is not a JSON object") in pure false
      end
  | _ => let! _ := set_error (lit "unable to read profile store") in pure false
  end.

Definition root_object (profiles : list Profile) : jobject :=
  jobj [(lit "version", jint StoreVersion); (lit "profiles", JArray (map (λ p, JObject (profileToJson p)) profiles))].

Definition save_body : op bool :=
  let! made := file_op MakeDirectory in
  let! _ := stop_if (negb made) "unable to create profile store directory" in
  let! locked := file_op LockStore in
  let! _ := stop_if (negb locked) "profile store is owned by another writer" in
  let! profiles := gets ps_profiles in
  let serialized := json_indented (root_object profiles) in
  let! _ := stop_if (tsize serialized >? MaximumStoreBytes) "profile store exceeds the size limit" in
  let! opened := file_op OpenSave in
  let! _ := stop_if (negb opened) "unable to write profile store" in
  let! committed := file_op CommitStore in
  let! _ := stop_if (negb committed) "unable to commit profile store" in
  let! _ := set_file (Regular serialized) in
  pure true.

Definition save : op bool := call save_body.

Definition add_body (profile : Profile) : op bool :=
  let! _ := set_error [] in
  let! profiles := gets ps_profiles in
  let! _ := stop_if (Z.of_nat (length profiles) >=? MaximumProfiles) "profile store contains too many profiles" in
  match validate profiles profile with
  | Err e => let! _ := set_error e in pure false
  | Ok _ =>
      let! _ := set_profiles (profiles ++ [profile]) in
      let! saved := save in
      if saved then pure true else
      let! rest := gets ps_profiles in
      let! _ := set_profiles (removelast rest) in
      pure false
  end.

(** The index of the first profile with an id. *)
Definition find_id (id : text) (profiles : list Profile) : option (nat * Profile) :=
  list_find (λ p, p_id p = id) profiles.

Definition remove_body (id : text) : op bool :=
  let! _ := set_error [] in
  let! profiles := gets ps_profiles in
  match find_id id profiles with
  | None => let! _ := set_error (lit "profile not found") in pure false
  | Some (index, removed) =>
      let! _ := set_profiles (take index profiles ++ drop (S index) profiles) in
      let! saved := save in
      if saved then pure true else
      let! rest := gets ps_profiles in
      let! _ := set_profiles (take index rest ++ removed :: drop index rest) in
      pure false
  end.

Definition findProfile (id : text) (profiles : list Profile) : option Profile := snd <$> find_id id profiles.

Definition load (w : StoreWorld W) : bool * StoreWorld W := returns load_body w.
Definition add (p : Profile) (w : StoreWorld W) : bool * StoreWorld W := returns (add_body p) w.
Definition remove (id : text) (w : StoreWorld W) : bool * StoreWorld W := returns (remove_body id) w.
End store.

(** ** JSON round trip *)

Section json.
Context {QT : QtText} {QN : QtNet} {QD : QtData} {QF : QtFiles}.
Context {QTL : QtTextLaws QT}.

Lemma normalizeProtocol_idemp s : normalizeProtocol (normalizeProtocol s) = normalizeProtocol s.
Proof.
  assert (∀ l, lower_token l → q_toLower (trimmed l) = l) as Hl.
  { intros l Hl. destruct (lower_token_normal l Hl) as [-> ->]. done. }
  unfold normalizeProtocol at 2 3. cbv zeta.
  destruct (text_eqb (q_toLower (trimmed s)) (lit "awg") || _ || _ || _) eqn:E1.
  { unfold normalizeProtocol. rewrite Hl by (repeat constructor). done. }
  destruct (text_eqb (q_toLower (trimmed s)) (lit "ss-xray")) eqn:E2.
  { unfold normalizeProtocol. rewrite Hl by (repeat constructor). done. }
  unfold normalizeProtocol. destruct (normal_text s) as [-> ->]. by rewrite E1, E2.
Qed.

(** What the JSON form keeps of a profile: its texts without surrounding
    spaces and its protocol under one name. *)
Definition normalise (p : Profile) : Profile :=
  MkProfile (trimmed (p_id p)) (trimmed (p_name p)) (normalizeProtocol (p_protocol p)) (trimmed (p_configPath p))
    (map trimmed (p_forwardRoutes p)) (map trimmed (p_dnsServers p)) (map trimmed (p_dnsDomains p))
    (trimmed (p_interfaceName p)) (trimmed (p_routingMode p)) (trimmed (p_serverRulesUrl p))
    (trimmed (p_updateManifestUrl p)) (trimmed (p_updatePublicKeyPath p)) (p_autoConnect p) (p_autoUpdate p).

Lemma trimmed_strings_of l : trimmed_strings (map JString l) = Some (map trimmed l).
Proof. induction l as [|s l IH]; [done|]. cbn [map trimmed_strings]. by rewrite IH. Qed.

Lemma trimmed_strings_canonical l r : trimmed_strings l = Some r → map trimmed r = r.
Proof.
  revert r. induction l as [|[] l IH]; intros r E; simplify_eq/=; [done|].
  destruct (trimmed_strings l) as [r'|]; simplify_eq/=. by rewrite trimmed_idemp, IH.
Qed.

Lemma readStringList_written key o l :
  jvalue key o = default JUndefined (filled_list l) → readStringList key o = Some (map trimmed l).
Proof.
  intros E. unfold readStringList. rewrite E. destruct l as [|x l]; [done|]. apply (trimmed_strings_of (x :: l)).
Qed.

Lemma readString_written key o s :
  jwf o → jvalue key o = default JUndefined (filled s) → readString key o = Some (trimmed s).
Proof. intros Hw E. unfold readString. rewrite jcontains_value, E by done. by destruct s. Qed.

Lemma readBool_written key o b :
  jwf o → jvalue key o = default JUndefined (set_if b (JBool true)) → readBool key o = Some b.
Proof. intros Hw E. unfold readBool. rewrite jcontains_value, E by done. by destruct b. Qed.

Lemma array_written (v : json) l :
  v = default JUndefined (filled_list l) →
  negb (is_undefined v) && negb (is_array v) = false ∧ trimmed_strings (to_array v) = Some (map trimmed l).
Proof. intros ->. split; [by destruct l|]. destruct l as [|x l]; [done|]. apply (trimmed_strings_of (x :: l)). Qed.

Ltac written_member := unfold profileToJson; rewrite object_of_value by decide_keys; reflexivity.

Lemma profileFromJson_toJson p : profileFromJson (profileToJson p) = Ok (normalise p).
Proof.
  assert (jwf (profileToJson p)) as Hw by apply object_of_wf.
  assert (jvalue (lit "id") (profileToJson p) = JString (p_id p)) as E1 by written_member.
  assert (jvalue (lit "name") (profileToJson p) = JString (p_name p)) as E2 by written_member.
  assert (jvalue (lit "protocol") (profileToJson p) = JString (normalizeProtocol (p_protocol p))) as E3
    by written_member.
  assert (jvalue (lit "configPath") (profileToJson p) = JString (p_configPath p)) as E4 by written_member.
  destruct (array_written (jvalue (lit "forwardRoutes") (profileToJson p)) (p_forwardRoutes p))
    as [E5 E6]; [written_member|].
  unfold profileFromJson. rewrite E1, E2, E3, E4, E5, E6. cbn [reject_if rbind or_error].
  rewrite (readStringList_written _ _ (p_dnsServers p)), (readStringList_written _ _ (p_dnsDomains p))
    by written_member.
  rewrite (readString_written _ _ (p_interfaceName p)), (readString_written _ _ (p_routingMode p)),
    (readString_written _ _ (p_serverRulesUrl p)), (readString_written _ _ (p_updateManifestUrl p)),
    (readString_written _ _ (p_updatePublicKeyPath p)) by (done || written_member).
  rewrite (readBool_written _ _ (p_autoConnect p)), (readBool_written _ _ (p_autoUpdate p))
    by (done || written_member).
  cbn [rbind or_error]. unfold normalise. by rewrite normalizeProtocol_idemp.
Qed.

Lemma or_error_Ok {A} (o : option A) message a : or_error o message = Ok a → o = Some a.
Proof. destruct o; naive_solver. Qed.

Lemma readStringList_canonical key o l : readStringList key o = Some l → map trimmed l = l.
Proof.
  unfold readStringList. destruct (jvalue key o); intros E; simplify_eq; [done|].
  by eapply trimmed_strings_canonical.
Qed.

Lemma readString_canonical key o s : readString key o = Some s → trimmed s = s.
Proof. unfold readString. intros E. destruct (_ && _); simplify_eq. apply trimmed_idemp. Qed.

Lemma profileFromJson_canonical o p : profileFromJson o = Ok p → normalise p = p.
Proof.
  unfold profileFromJson. intros E.
  destruct (jvalue (lit "id") o); try done. destruct (jvalue (lit "name") o); try done.
  destruct (jvalue (lit "protocol") o); try done. destruct (jvalue (lit "configPath") o); try done.
  cbv zeta in E. inv_ok E. simplify_eq. repeat match goal with H : or_error _ _ = Ok _ |- _ => apply or_error_Ok in H end.
  repeat match goal with
  | H : readString _ _ = Some _ |- _ => apply readString_canonical in H
  | H : readStringList _ _ = Some _ |- _ => apply readStringList_canonical in H
  | H : trimmed_strings _ = Some _ |- _ => apply trimmed_strings_canonical in H
  end.
  unfold normalise. cbn -[trimmed normalizeProtocol]. rewrite normalizeProtocol_idemp, !trimmed_idemp. by f_equal.
Qed.

(** Reading the JSON form of any profile gives the profile with its texts
    trimmed and its protocol under its canonical name, and a profile that was
    itself read from JSON comes back unchanged: an export followed by an import
    loses no field. *)
Theorem profile_json_roundtrip p :
  profileFromJson (profileToJson p) = Ok (normalise p)
  ∧ ∀ o q, profileFromJson o = Ok q → profileFromJson (profileToJson q) = Ok q.
Proof.
  split; [apply profileFromJson_toJson|]. intros o q E.
  by rewrite profileFromJson_toJson, (profileFromJson_canonical o).
Qed.
End json.

(** ** The store as a whole *)

Section properties.
Context {QT : QtText} {QN : QtNet} {QD : QtData} {QF : QtFiles}.
Context {QTL : QtTextLaws QT} {QFL : QtFilesLaws QD QF}.
Context {W : Type} {SH : StoreHost W}.
Implicit Types (w : StoreWorld W) (l : list Profile).

(** Every profile satisfies the checks, no identifier is used twice, and the
    number of profiles is bounded. *)
Definition store_ok l : Prop :=
  Forall (λ p, checkProfile p = Ok ()) l ∧ NoDup (map p_id l) ∧ Z.of_nat (length l) <= MaximumProfiles.

(** Every profile is as the JSON reader leaves it. *)
Definition canonical l : Prop := Forall (λ p, normalise p = p) l.

(** The file holds the profiles in memory. *)
Definition durable w : Prop :=
  (ps_file w = Absent ∧ ps_profiles w = [])
  ∨ (ps_file w = Regular (json_indented (root_object (ps_profiles w)))
     ∧ tsize (json_indented (root_object (ps_profiles w))) <= MaximumStoreBytes).

Lemma containsId_false id l : containsId id l = false ↔ id ∉ map p_id l.
Proof.
  unfold containsId. induction l as [|p l IH]; cbn; [set_solver|].
  rewrite orb_false_iff, text_eqb_neq, IH, elem_of_cons. naive_solver.
Qed.

Lemma validate_Ok l p u : validate l p = Ok u ↔ checkProfile p = Ok () ∧ p_id p ∉ map p_id l.
Proof.
  unfold validate, fail_if. rewrite rbind_Ok. setoid_rewrite reject_if_Ok. setoid_rewrite containsId_false.
  split; [intros ([] & ? & ?)|intros [? ?]; exists ()]; done.
Qed.

Lemma store_ok_snoc l p u :
  store_ok l → Z.of_nat (length l) < MaximumProfiles → validate l p = Ok u → store_ok (l ++ [p]).
Proof.
  intros (H1 & H2 & H3) Hn [Hc Hi]%validate_Ok. split; [|split].
  - apply Forall_app. by repeat constructor.
  - rewrite map_app. apply NoDup_app. split; [done|]. split; [set_solver|]. apply NoDup_singleton.
  - rewrite length_app. cbn. lia.
Qed.

Lemma store_ok_delete l i : store_ok l → store_ok (take i l ++ drop (S i) l).
Proof.
  intros (H1 & H2 & H3). rewrite <-delete_take_drop. split; [|split].
  - by apply Forall_delete.
  - eapply sublist_NoDup; [exact H2|]. change (p_id <$> delete i l `sublist_of` p_id <$> l).
    apply fmap_sublist, sublist_delete.
  - pose proof (sublist_length _ _ (sublist_delete l i)). lia.
Qed.

(** *** Saving *)

Definition with_profiles l w : StoreWorld W := MkStore l (ps_lastError w) (ps_file w) (ps_outer w).

Lemma save_spec w b w' :
  returns save_body w = (b, w') →
  ps_profiles w' = ps_profiles w ∧ if b then durable w' else ps_file w' = ps_file w.
Proof.
  unfold returns, save_body, stop_if, leave_if, file_op, set_error, set_file, cmd_modify, gets, cmd_get, pure, leave,
    cmd_ret, cmd_bind, durable. intros E.
  repeat first
    [ match type of E with context [store_io ?o ?x] =>
        destruct (store_io o x) as [[] ?]; simplify_eq/=; [|solve [auto]] end
    | match type of E with context [_ >? _] => destruct (_ >? _) eqn:Hs; simplify_eq/=; [solve [auto]|] end ].
  bprop. split; [done|]. right. split; [done|lia].
Qed.
(** *** Adding and removing *)

Lemma call_run {E A} (body : prog (StoreWorld W) A A) w :
  call (E := E) body w = (Ok (returns body w).1, (returns body w).2).
Proof. unfold call, returns. by destruct (body w) as [[a|a] w']. Qed.

Lemma add_spec p w b w' :
  add p w = (b, w') →
  if b then ps_profiles w' = ps_profiles w ++ [p] ∧ durable w' ∧ validate (ps_profiles w) p = Ok ()
            ∧ Z.of_nat (length (ps_profiles w)) < MaximumProfiles
  else ps_profiles w' = ps_profiles w ∧ ps_file w' = ps_file w.
Proof.
  unfold add, returns at 1, add_body, stop_if, leave_if, set_error, set_profiles, cmd_modify, gets, cmd_get, pure,
    leave, cmd_ret, cmd_bind, save. cbn [ps_profiles ps_lastError ps_file ps_outer]. intros E.
  destruct (_ >=? _) eqn:Hn; [by simplify_eq|]. destruct (validate _ _) as [[]|e] eqn:Hv; [|by simplify_eq].
  rewrite call_run in E. destruct (returns save_body _) as [saved w1] eqn:Es.
  apply save_spec in Es as [Ep Ed]. cbn in E, Ep, Ed. bprop. destruct saved; simplify_eq/=; [by repeat split; auto; lia|].
  rewrite Ep, removelast_last. done.
Qed.

Lemma remove_spec id w b w' :
  remove id w = (b, w') →
  if b then durable w' ∧ ∃ i p, ps_profiles w !! i = Some p ∧ p_id p = id
            ∧ ps_profiles w' = take i (ps_profiles w) ++ drop (S i) (ps_profiles w)
  else ps_profiles w' = ps_profiles w ∧ ps_file w' = ps_file w.
Proof.
  unfold remove, returns at 1, remove_body, set_error, set_profiles, cmd_modify, gets, cmd_get, pure,
    leave, cmd_ret, cmd_bind, save. cbn [ps_profiles ps_lastError ps_file ps_outer]. intros E.
  destruct (find_id id (ps_profiles w)) as [[i p]|] eqn:Hf; [|by simplify_eq].
  apply list_find_Some in Hf as (Hi & Hp & _). rewrite call_run in E.
  destruct (returns save_body _) as [saved w1] eqn:Es.
  apply save_spec in Es as [Ep Ed]. cbn in E, Ep, Ed. destruct saved; simplify_eq/=; [by eauto 10|].
  split; [|done]. rewrite Ep. pose proof (lookup_lt_Some _ _ _ Hi).
  rewrite take_app_length' , drop_app_length' by (rewrite length_take; lia). by rewrite take_drop_middle.
Qed.

(** *** Loading *)

Lemma read_entries l acc :
  canonical l → store_ok (acc ++ l) →
  rfold read_entry acc (map (λ p, JObject (profileToJson p)) l) = Ok (acc ++ l).
Proof.
  revert acc. induction l as [|p l IH]; intros acc Hc Hs; cbn [map rfold]; [by rewrite app_nil_r|].
  inversion Hc as [|?? Hp Hc']; subst. cbn [read_entry]. rewrite profileFromJson_toJson, Hp. cbn [rbind].
  replace (validate acc p) with (Ok (E := text) ()).
  - cbn [rbind]. rewrite IH; rewrite <-?app_assoc; done.
  - symmetry. apply validate_Ok. destruct Hs as (H1 & H2 & _). split.
    + apply Forall_app in H1 as [_ H1]. by inversion H1.
    + rewrite map_app in H2. apply NoDup_app in H2 as (_ & H2 & _). intros Hi. eapply H2; [exact Hi|]. by left.
Qed.

Lemma root_object_value l :
  jvalue (lit "version") (root_object l) = jint StoreVersion
  ∧ jvalue (lit "profiles") (root_object l) = JArray (map (λ p, JObject (profileToJson p)) l).
Proof. split; reflexivity. Qed.

Lemma load_durable w :
  store_ok (ps_profiles w) → canonical (ps_profiles w) → durable w →
  json_printable (root_object (ps_profiles w)) = true → (store_io OpenStore (ps_outer w)).1 = true →
  (load w).1 = true ∧ ps_profiles (load w).2 = ps_profiles w.
Proof.
  intros Hs Hc Hd Hp Ho. unfold load, returns, load_body, stop_if, leave_if, set_error, set_profiles, file_op,
    cmd_modify, gets, cmd_get, pure, leave, cmd_ret, cmd_bind. cbn [ps_profiles ps_lastError ps_file ps_outer].
  destruct Hd as [[Hf Hl]|[Hf Hl]]; rewrite Hf; cbn [path_exists negb ps_outer ps_file ps_profiles ps_lastError]; [by rewrite Hl|].
  destruct (store_io OpenStore (ps_outer w)) as [opened outer]. cbn in Ho. subst opened.
  cbn [ps_profiles ps_lastError ps_file ps_outer negb].
  rewrite Z.gtb_ltb, (proj2 (Z.ltb_ge MaximumStoreBytes _)) by lia.
  rewrite json_parse_indented by done. destruct (root_object_value (ps_profiles w)) as [-> ->].
  cbn [is_array negb orb to_array jint to_int]. rewrite length_map.
  destruct Hs as (H1 & H2 & H3). rewrite Z.gtb_ltb, (proj2 (Z.ltb_ge MaximumProfiles _)) by lia.
  cbn [Z.eqb StoreVersion negb orb]. rewrite read_entries; [|done|by split; [|split]]. done.
Qed.

(** ** Sequences of commands *)

Inductive StoreCmd := ImportProfile (object : jobject) | RemoveProfile (id : text).

Definition run_cmd (c : StoreCmd) w : StoreWorld W :=
  match c with
  | ImportProfile object =>
      match profileFromJson object with
      | Ok p => (add p w).2
      | Err e => MkStore (ps_profiles w) e (ps_file w) (ps_outer w)
      end
  | RemoveProfile id => (remove id w).2
  end.

Definition run_cmds (cmds : list StoreCmd) w : StoreWorld W := foldl (λ w c, run_cmd c w) w cmds.

Definition store_inv w : Prop := store_ok (ps_profiles w) ∧ canonical (ps_profiles w) ∧ durable w.

Lemma durable_unchanged w w' : durable w → ps_profiles w' = ps_profiles w → ps_file w' = ps_file w → durable w'.
Proof. unfold durable. by intros H -> ->. Qed.

Lemma run_cmd_inv c w : store_inv w → store_inv (run_cmd c w).
Proof.
  intros (Hs & Hc & Hd). destruct c as [o|id]; cbn [run_cmd].
  - destruct (profileFromJson o) as [p|e] eqn:Ep; [|done]. destruct (add p w) as [b w'] eqn:E.
    apply add_spec in E. cbn [snd]. destruct b.
    + destruct E as (El & Hd' & Hv & Hn). unfold store_inv. rewrite El. split; [by eapply store_ok_snoc|].
      split; [|done]. apply Forall_app. split; [done|]. repeat constructor. by eapply profileFromJson_canonical.
    + destruct E as [El Ef]. unfold store_inv. rewrite El. split; [done|]. split; [done|]. by eapply durable_unchanged.
  - destruct (remove id w) as [b w'] eqn:E. apply remove_spec in E. cbn [snd]. destruct b.
    + destruct E as (Hd' & i & p & _ & _ & El). unfold store_inv. rewrite El. split; [by apply store_ok_delete|].
      split; [|done]. rewrite <-delete_take_drop. by apply Forall_delete.
    + destruct E as [El Ef]. unfold store_inv. rewrite El. split; [done|]. split; [done|]. by eapply durable_unchanged.
Qed.

Lemma run_cmds_inv cmds w : store_inv w → store_inv (run_cmds cmds w).
Proof. revert w. induction cmds as [|c cmds IH]; intros w Hw; [done|]. apply IH, run_cmd_inv, Hw. Qed.

(** C25. The profile store survives a restart: after any sequence of imports and
    removals, succeeding or failing at any file operation, the profiles satisfy
    the checks, have distinct identifiers and stay within the bound, and a
    daemon that starts from the file that is there, when it can open it, has
    exactly the profiles that were in memory. *)
Theorem profile_store_reload cmds w :
  store_inv w →
  let w1 := run_cmds cmds w in
  json_printable (root_object (ps_profiles w1)) = true → (store_io OpenStore (ps_outer w1)).1 = true →
  store_ok (ps_profiles w1) ∧ (load w1).1 = true ∧ ps_profiles (load w1).2 = ps_profiles w1.
Proof.
  intros Hw w1 Hp Ho. destruct (run_cmds_inv cmds w Hw) as (Hs & Hc & Hd). fold w1 in Hs, Hc, Hd.
  split; [done|]. by apply load_durable.
Qed.
End properties.

(** ** Examples *)

Module ProfileExamples.
#[local] Existing Instances asciiText asciiText_laws asciiNet asciiNet_laws tokenData tokenJsonText tokenData_laws.

(** The scheme is what is before [://], the host goes up to the next slash. *)
Definition toy_url (s : text) : Url :=
  let '(scheme, rest) := span (λ c, negb (c =? 58)) s in
  MkUrl (starts_with (lit "://") rest) scheme (span (λ c, negb (c =? 47)) (drop 3 rest)).1 [] false [] (-1).

#[local] Instance toyFiles : QtFiles := {|
  url_strict := toy_url;
  path_isAbsolute := starts_with (lit "/");
  json_indented := λ o, tok_enc (JObject o);
|}.

#[local] Instance toyFiles_laws : QtFilesLaws tokenData toyFiles.
Proof. split; intros o Ho; exact (json_parse_printed o Ho). Qed.

(** A world that counts its file operations; the fourth one fails. *)
#[local] Instance countingHost : StoreHost nat := {| store_io := λ _ n, (negb (n =? 3)%nat, S n) |}.

Definition officeProfile : Profile :=
  MkProfile (lit "office") (lit "Office") (lit "amneziawg") (lit "/etc/amnezia/office.conf")
    [lit "10.8.1.0/24"] [lit "10.8.1.1"] [lit "~."] (lit "amn0") (lit "all-except")
    (lit "http://10.8.1.1/policy") [] [] true false.
Definition officeObject : jobject := profileToJson officeProfile.
Definition homeObject : jobject :=
  jobj [(lit "id", JString (lit " home ")); (lit "name", JString (lit "Home")); (lit "protocol", JString (lit "AWG"));
        (lit "configPath", JString (lit "/etc/amnezia/home.conf"))].

Definition emptyStore : StoreWorld nat := MkStore [] [] Absent 0%nat.

(** The first import fails when it is committed, the second succeeds. *)
Definition session : list StoreCmd :=
  [ImportProfile officeObject; ImportProfile officeObject; ImportProfile officeObject; ImportProfile homeObject;
   RemoveProfile (lit "office")].

Lemma profile_json_roundtrip_witness :
  profileFromJson (profileToJson officeProfile) = Ok (normalise officeProfile)
  ∧ ∀ o q, profileFromJson o = Ok q → profileFromJson (profileToJson q) = Ok q.
Proof. exact (profile_json_roundtrip officeProfile). Defined.

Lemma profile_store_reload_witness :
  map p_id (ps_profiles (run_cmds session emptyStore)) = [lit "home"]
  ∧ store_ok (ps_profiles (run_cmds session emptyStore))
  ∧ (load (run_cmds session emptyStore)).1 = true
  ∧ ps_profiles (load (run_cmds session emptyStore)).2 = ps_profiles (run_cmds session emptyStore).
Proof.
  split; [vm_compute; reflexivity|]. apply (profile_store_reload session emptyStore).
  - split; [|split; [constructor|left; split; reflexivity]]. split; [constructor|]. split; [constructor|]. discriminate.
  - vm_compute. reflexivity.
  - vm_compute. reflexivity.
Defined.
End ProfileExamples.
