(* ===== verification/HeadlessProtocol.v ===== *)
(** * The wire protocol of the headless daemon

    Model of headless/headlessProtocol.cpp and .h: a request or a response is
    one JSON object on a line.  [parseRequest] leaves its out-parameter
    untouched when it fails, so it is a function into [result]. *)

From S2P Require Import Prelude Text Json QtInterface QtModel JsonText RouteState ProfileStore.
#[local] Open Scope Z_scope.
#[local] Open Scope amnezia_scope.

Definition WireProtocolVersion : Z := 1.
Definition MaximumFrameSize : Z := 64 * 1024.
Definition MaximumRequestIdSize : Z := 128.

Inductive DaemonCommand :=
| Status | ListProfiles | Connect | Disconnect | Doctor | Import | Export | ImportRemoteLogs | UpdateRollback.

#[export] Instance daemon_command_eq_dec : EqDecision DaemonCommand.
Proof. solve_decision. Defined.

Record Request := MkRequest { rq_command : DaemonCommand; rq_requestId : text; rq_parameters : jobject }.

Definition commandName (command : DaemonCommand) : text :=
  lit match command with
      | Status => "status"
      | ListProfiles => "list-profiles"
      | Connect => "connect"
      | Disconnect => "disconnect"
      | Doctor => "doctor"
      | Import => "import"
      | Export => "export"
      | ImportRemoteLogs => "import-remote-logs"
      | UpdateRollback => "update-rollback"
      end.

Definition commands : list DaemonCommand :=
  [Status; ListProfiles; Connect; Disconnect; Doctor; Import; Export; ImportRemoteLogs; UpdateRollback].

Definition commandFromName (name : text) : option DaemonCommand :=
  List.find (λ candidate, text_eqb (commandName candidate) name) commands.

Definition isValidRequestId (requestId : text) : bool :=
  negb (is_empty requestId) && (tsize requestId <=? MaximumRequestIdSize).

Section protocol.
Context {QD : QtData}.

Definition compactJsonLine (object : jobject) : text := json_compact object ++ [10].

Definition requestObject (request : Request) : jobject := jobj
  [(lit "protocol", jint WireProtocolVersion);
   (lit "id", JString (rq_requestId request));
   (lit "command", JString (commandName (rq_command request)));
   (lit "params", JObject (rq_parameters request))].

Definition encodeRequest (request : Request) : text := compactJsonLine (requestObject request).

Definition encodeError (requestId code message : text) : text := compactJsonLine (jobj
  [(lit "protocol", jint WireProtocolVersion);
   (lit "id", JString requestId);
   (lit "ok", JBool false);
   (lit "error", JObject (jobj [(lit "code", JString code); (lit "message", JString message)]))]).

Definition encodeResponse (requestId : text) (result : jobject) : text :=
  let frame := compactJsonLine (jobj
    [(lit "protocol", jint WireProtocolVersion);
     (lit "id", JString requestId);
     (lit "ok", JBool true);
     (lit "result", JObject result)]) in
  if tsize frame <=? MaximumFrameSize then frame
  else encodeError requestId (lit "response_too_large") (lit "response exceeds the IPC frame limit").

Definition parseRequest (frame : text) : result text Request :=
  let? _ := reject_if (tsize frame >? MaximumFrameSize) (lit "request frame is too large") in
  let? _ := reject_if (is_empty frame || negb (ends_with [10] frame)) (lit "request frame must end with a newline") in
  match json_parse (take (length frame - 1) frame) with
  | Some (JObject object) =>
      let protocol := jvalue (lit "protocol") object in
      let id := jvalue (lit "id") object in
      let commandValue := jvalue (lit "command") object in
      let params := jvalue (lit "params") object in
      let? _ := reject_if (negb (is_double protocol) || negb (to_int (-1) protocol =? WireProtocolVersion))
                  (lit "unsupported protocol version") in
      let? _ := reject_if (negb (is_string id) || negb (isValidRequestId (to_string [] id)))
                  (lit "request id is missing or invalid") in
      let? _ := reject_if (negb (is_string commandValue) || negb (is_object params))
                  (lit "command or params is malformed") in
      match commandFromName (to_string [] commandValue) with
      | Some command => Ok (MkRequest command (to_string [] id) (to_object params))
      | None => Err (lit "unknown command")
      end
  | _ => Err (lit "request frame is not a JSON object")
  end.
End protocol.

(** ** Properties *)

Lemma commandFromName_name c : commandFromName (commandName c) = Some c.
Proof. by destruct c. Qed.

Section properties.
Context {QD : QtData} {QF : QtFiles} {QFL : QtFilesLaws QD QF}.

Lemma requestObject_values r :
  jvalue (lit "protocol") (requestObject r) = jint WireProtocolVersion
  ∧ jvalue (lit "id") (requestObject r) = JString (rq_requestId r)
  ∧ jvalue (lit "command") (requestObject r) = JString (commandName (rq_command r))
  ∧ jvalue (lit "params") (requestObject r) = JObject (rq_parameters r).
Proof. repeat split. Qed.

Lemma line_payload s : take (length (s ++ [10]) - 1) (s ++ [10]) = s.
Proof. rewrite length_app. cbn [length]. replace (length s + 1 - 1)%nat with (length s) by lia. apply take_app_length. Qed.

Lemma line_ends s : ends_with [10] (s ++ [10]) = true.
Proof. unfold ends_with. rewrite reverse_snoc. cbn. by destruct (reverse s). Qed.

(** C39. The daemon reads exactly the requests a client writes: a request with a
    valid identifier whose line fits in a frame is read back unchanged, and
    whatever frame is received, a request read from it came from a line within
    the limit and has a valid identifier. *)
Theorem daemon_request_roundtrip r :
  isValidRequestId (rq_requestId r) = true → json_printable (requestObject r) = true →
  tsize (encodeRequest r) <= MaximumFrameSize →
  parseRequest (encodeRequest r) = Ok r
  ∧ ∀ frame q, parseRequest frame = Ok q →
      tsize frame <= MaximumFrameSize ∧ isValidRequestId (rq_requestId q) = true
      ∧ ends_with [10] frame = true.
Proof.
  intros Hid Hp Hs. split.
  - unfold parseRequest. rewrite Z.gtb_ltb, (proj2 (Z.ltb_ge MaximumFrameSize _)) by lia. cbn [reject_if rbind].
    unfold encodeRequest, compactJsonLine. rewrite line_ends, line_payload, json_parse_compact by done.
    destruct (requestObject_values r) as (-> & -> & -> & ->). cbn [is_string to_string is_object to_object jint is_double].
    rewrite Hid, commandFromName_name.
    destruct (json_compact (requestObject r) ++ [10]) eqn:El; [by apply app_nil in El as [_ ?]|]. by destruct r.
  - intros frame q E. unfold parseRequest in E. inv_ok E.
    destruct (json_parse _) as [[]|]; try done. cbv zeta in E. inv_ok E.
    destruct (commandFromName _); [|done]. simplify_eq. rewrite !reject_if_Ok in *. bprop. auto with lia.
Qed.
End properties.

(** ** Example *)

Module ProtocolExamples.
#[local] Existing Instances tokenData ProfileExamples.toyFiles ProfileExamples.toyFiles_laws.

Definition connectRequest : Request :=
  MkRequest Connect (lit "7") (jobj [(lit "profile", JString (lit "office"))]).

Lemma daemon_request_roundtrip_witness :
  parseRequest (encodeRequest connectRequest) = Ok connectRequest
  ∧ ∀ frame q, parseRequest frame = Ok q →
      tsize frame <= MaximumFrameSize ∧ isValidRequestId (rq_requestId q) = true
      ∧ ends_with [10] frame = true.
Proof.
  apply (daemon_request_roundtrip connectRequest); [reflexivity|vm_compute; reflexivity|].
  apply Z.leb_le. vm_compute. reflexivity.
Defined.
End ProtocolExamples.
