(* ===== verification/PolicyEndpoint.v ===== *)
(** * Endpoints, bypass routes and stored policy metadata

    Model of the functions at the top of
    headless/headlessRoutingController.cpp: reading the metadata of an accepted
    policy back from the controller's receipt, the endpoints of a VPN
    configuration, the routes that have to bypass a full tunnel, and the
    addresses a policy may be fetched from.  A function with a [bool *valid]
    out-parameter returns it beside its result. *)

From stdpp Require Import gmap.
From S2P Require Import Prelude Text Json QtInterface QtModel Ipv4 IpAddress RoutePolicy PolicyLifecycle.
From S2P Require Import JsonText RouteGrammar RouteState Regex ProfileStore.
#[local] Open Scope Z_scope.
#[local] Open Scope amnezia_scope.

Definition MaximumPolicyBytes : Z := 1024 * 1024.
Definition MaximumProfileConfigBytes : Z := 1024 * 1024.

(** ** The endpoints of a configuration *)

(** [^\s*Endpoint\s*=\s*(\[[^\]]+\]|[^:\s]+)(?::\d+)?\s*$]. *)
Definition wireGuardEndpoint : regex := cats
  [LineStart; Star blank; word (lit "Endpoint"); Star blank; word (lit "="); Star blank;
   Capture (Alt (cats [word (lit "["); Plus (Class (λ c, negb (c =? 93))); word (lit "]")])
                (Plus (Class (λ c, negb (c =? 58) && negb (ascii_space c)))));
   Opt (Cat (word (lit ":")) (Plus digit)); Star blank; LineEnd].

(** [^\s*remote\s+(\S+)\s+(\d{1,5})\s+(udp|udp6|tcp|tcp6)(?:\s+\S+)*\s*$],
    without regard to case. *)
Definition openVpnRemote : regex := cats
  [LineStart; Star blank; word_ci (lit "remote"); Plus blank; Capture (Plus nonblank); Plus blank; upto 4 digit;
   Plus blank;
   Alt (word_ci (lit "udp")) (Alt (word_ci (lit "udp6")) (Alt (word_ci (lit "tcp")) (word_ci (lit "tcp6"))));
   Star (Cat (Plus blank) (Plus nonblank)); Star blank; LineEnd].

(** [[host]] without its brackets. *)
Definition unbracketed (s : text) : text :=
  if starts_with [91] s && ends_with [93] s then take (length s - 2) (drop 1 s) else s.

(** ** Addresses *)

Definition privateOrLocalIpv4 (address : qhost) : bool :=
  match address with
  | HV4 value =>
      (Z.shiftr value 24 =? 10)
      || (Z.shiftr value 20 =? Z.lor (Z.shiftl 172 4) 1)
      || (Z.shiftr value 16 =? Z.lor (Z.shiftl 192 8) 168)
      || (Z.land value 0xffc00000 =? 0x64400000)
      || (Z.land value 0xffffff00 =? 0xc0000000)
      || (Z.land value 0xfffe0000 =? 0xc6120000)
      || (Z.shiftr value 24 =? 127)
      || (Z.shiftr value 16 =? 169 * 256 + 254)
      || (value =? 0)
  | _ => false
  end.

(** [::ffff:a.b.c.d]: the IPv4 address. *)
Definition mappedIpv4 (bytes : list Z) : option Z :=
  if forallb (Z.eqb 0) (take 10 bytes) && (bytes !!! 10%nat =? 0xff) && (bytes !!! 11%nat =? 0xff) then
    Some (Z.lor (Z.lor (Z.lor (u32_shl (bytes !!! 12%nat) 24) (u32_shl (bytes !!! 13%nat) 16))
                   (u32_shl (bytes !!! 14%nat) 8)) (bytes !!! 15%nat))
  else None.

Section endpoint.
Context `{QtText} `{QtNet} `{QtTime} `{QtData} `{QtJsonText} `{QtFiles}.

Definition privateOrLocalAddress (address : qhost) : bool :=
  privateOrLocalIpv4 address || host_isLoopback address || host_isLinkLocal address
  || host_isMulticast address || host_isNull address
  || match address with
     | HV6 _ _ =>
         let bytes := toIPv6Address address in
         match mappedIpv4 bytes with
         | Some ipv4 => privateOrLocalIpv4 (HV4 ipv4)
         | None => Z.land (bytes !!! 0%nat) 0xfe =? 0xfc
         end
     | _ => false
     end.

(** ** IPv4 routes *)

Definition parseIpv4Route (value : text) : option (Z * Z) :=
  let parts := split_char 47 value in
  match host_parse (part_at 0 parts) with
  | HV4 address =>
      if (2 <? length parts)%nat then None else
      let prefix := if (length parts =? 2)%nat then q_toInt (part_at 1 parts) else Some 32 in
      match prefix with
      | Some prefix => if (prefix <? 0) || (prefix >? 32) then None else Some (address, prefix)
      | None => None
      end
  | _ => None
  end.

Definition ipv4RoutesOverlap (left right : text) : bool :=
  match parseIpv4Route left, parseIpv4Route right with
  | Some (leftAddress, leftPrefix), Some (rightAddress, rightPrefix) =>
      let leftMask := ipv4Mask leftPrefix in
      let rightMask := ipv4Mask rightPrefix in
      let leftStart := Z.land leftAddress leftMask in
      let rightStart := Z.land rightAddress rightMask in
      let leftEnd := Z.lor leftStart (Z.lxor 0xffffffff leftMask) in
      let rightEnd := Z.lor rightStart (Z.lxor 0xffffffff rightMask) in
      (leftStart <=? rightEnd) && (rightStart <=? leftEnd)
  | _, _ => false
  end.

Definition ipv4ContainedByRoute (address : qhost) (route : text) : bool :=
  match address, parseIpv4Route route with
  | HV4 value, Some (network, prefix) =>
      Z.land value (ipv4Mask prefix) =? Z.land network (ipv4Mask prefix)
  | _, _ => false
  end.

Definition mergeRoutes (left right : list text) : list text * bool :=
  let '(merged, routesValid) := validatedManagedRoutes (left ++ right) in
  (if routesValid then sort_text (remove_duplicates merged) else [], routesValid).

(** ** Routes of the endpoints *)

(** [resolveHostBounded]: the addresses, or [None] when the lookup did not end
    in time; [readConfig] is what can be read at a path. *)
Context (lookupHost : text → option (list qhost)).
Context (readConfig : text → option text).

Definition isV6 (h : qhost) : bool := match h with HV6 _ _ => true | _ => false end.

Definition hostRoute (h : qhost) : text := host_toString h ++ lit "/32".

(** The routes, and whether one was added. *)
Definition appendHostRoutes (routes : list text) (rawHost : text) : list text * bool :=
  let host := unbracketed (trimmed rawHost) in
  if is_empty host then (routes, false) else
  match host_parse host with
  | HV4 a => (routes ++ [hostRoute (HV4 a)], true)
  | HV6 _ _ => (routes, false)
  | HNull =>
      match lookupHost host with
      | None => (routes, false)
      | Some addresses =>
          let found := List.filter host_isV4 addresses in
          (routes ++ map hostRoute found, negb (bool_decide (found = [])))
      end
  end.

Definition endpointHostsFromConfig (profile : Profile) : list text :=
  match readConfig (p_configPath profile) with
  | Some bytes =>
      if tsize bytes >? MaximumProfileConfigBytes then [] else
      let content := from_utf8 bytes in
      remove_duplicates (globalMatch wireGuardEndpoint content ++ globalMatch openVpnRemote content)
  | None => []
  end.

(** [None] where the source returns early with an invalid, empty list. *)
Fixpoint endpointRoutes (endpoints : list text) (routes : list text) (valid : bool) : option (list text * bool) :=
  match endpoints with
  | [] => Some (routes, valid)
  | endpoint :: rest =>
      match host_parse (unbracketed endpoint) with
      | HV4 _ =>
          let '(routes, added) := appendHostRoutes routes endpoint in
          endpointRoutes rest routes (valid && added)
      | _ => None
      end
  end.

Definition protectedRoutesForProfile (profile : Profile) : list text * bool :=
  match endpointRoutes (endpointHostsFromConfig profile) [] true with
  | None => ([], false)
  | Some (routes, valid) =>
      let '(routes, routesValid) := validatedManagedRoutes routes in
      (if routesValid then routes else [], valid && routesValid)
  end.

(** ** Routes that bypass a full tunnel *)

(** [safelyContained]: the server route lies in a network of the VPN. *)
Definition safelyContained (forwardRoutes : list text) (serverRoute : text) : bool :=
  let serverPrefix := match parseIpv4Route serverRoute with Some (_, prefix) => prefix | None => 32 end in
  (serverPrefix =? 32)
  || existsb (λ forwardRoute,
       match parseIpv4Route forwardRoute with
       | Some (_, forwardPrefix) => (serverPrefix >=? forwardPrefix) && ipv4RoutesOverlap serverRoute forwardRoute
       | None => false
       end) forwardRoutes.

(** The loop over the server routes: what it appends, and whether it ended
    without an ambiguous overlap. *)
Fixpoint admitServerRoutes (forwardRoutes serverRoutes routes : list text) : list text * bool :=
  match serverRoutes with
  | [] => (routes, true)
  | serverRoute :: rest =>
      if negb (existsb (ipv4RoutesOverlap serverRoute) forwardRoutes)
      then admitServerRoutes forwardRoutes rest (routes ++ [serverRoute])
      else if safelyContained forwardRoutes serverRoute then admitServerRoutes forwardRoutes rest routes
      else (routes, false)
  end.

(** A route whose address is not inside the VPN. *)
Definition isUnderlay (forwardRoutes : list text) (route : text) : bool :=
  match parseIpv4Route route with
  | Some (address, _) => negb (existsb (ipv4ContainedByRoute (HV4 address)) forwardRoutes)
  | None => false
  end.

(** The bypass routes, whether they are valid, and the critical ones. *)
Definition allExceptBypassRoutes (profile : Profile) (serverRoutes : list text) : list text * bool * list text :=
  let '(endpoints, protectedValid) := protectedRoutesForProfile profile in
  let '(routes, admitted) := admitServerRoutes (p_forwardRoutes profile) serverRoutes endpoints in
  let underlay := List.filter (isUnderlay (p_forwardRoutes profile)) routes in
  let critical := List.filter (λ route, qcontains route endpoints) underlay in
  let '(routes, validated) := validatedManagedRoutes underlay in
  let routesValid := admitted && protectedValid && validated in
  let routes := remove_duplicates routes in
  let critical := List.filter (λ route, qcontains route routes) (remove_duplicates critical) in
  (if routesValid then routes else [], routesValid, critical).

Definition defaultInterfaceFor (profile : Profile) : text :=
  if negb (is_empty (p_interfaceName profile)) then p_interfaceName profile else
  let protocol := q_toLower (trimmed (p_protocol profile)) in
  if text_eqb protocol (lit "wireguard") then lit "wg0" else
  if text_eqb protocol (lit "amneziawg") || text_eqb protocol (lit "awg") || text_eqb protocol (lit "awg2")
  then lit "amn0" else
  if text_eqb protocol (lit "openvpn") then lit "tun0" else [].

(** ** Where a policy may be fetched from *)

Definition refuse_endpoint (message : string) : result text () := Err (lit message).

Definition isSafePolicyEndpoint (profile : Profile) (rawUrl : text) : result text () :=
  let url := url_strict rawUrl in
  if negb (u_isValid url) || is_empty (u_host url) || (tsize (u_userInfo url) >? 0) || u_hasFragment url
     || (negb (u_port url =? -1) && ((u_port url <? 1) || (u_port url >? 65535)))
  then refuse_endpoint "server routing policy URL is invalid" else
  let literal := host_parse (u_host url) in
  let contained := existsb (ipv4ContainedByRoute literal) (p_forwardRoutes profile) in
  if text_eqb (u_scheme url) (lit "http") then
    if negb (host_isV4 literal) || negb (privateOrLocalIpv4 literal)
    then refuse_endpoint "plain HTTP policy endpoints are allowed only for literal VPN-internal addresses" else
    if negb contained then refuse_endpoint "plain HTTP policy endpoint is not contained in forwardRoutes" else Ok ()
  else
  if negb (text_eqb (u_scheme url) (lit "https"))
  then refuse_endpoint "server routing policy requires HTTPS or the documented VPN-internal HTTP exception" else
  if negb (host_isNull literal) && privateOrLocalAddress literal && negb contained
  then refuse_endpoint "HTTPS policy endpoint resolves to an unsafe private address" else
  let lowerHost := q_toLower (u_host url) in
  if text_eqb lowerHost (lit "localhost") || ends_with (lit ".localhost") lowerHost
     || ends_with (lit ".local") lowerHost || ends_with (lit ".internal") lowerHost
  then refuse_endpoint "policy endpoint hostname is reserved for local or internal resolution" else
  if host_isNull literal
  then refuse_endpoint "policy endpoint must use a literal IP to prevent DNS rebinding" else Ok ().

(** ** Stored policy metadata *)

Definition metadataKeys : list text :=
  [lit "schemaVersion"; lit "policyType"; lit "revision"; lit "revisionNumber"; lit "contentHash";
   lit "declaredContentHash"; lit "contentMatchesDeclaration"; lit "trustState"; lit "issuedAt"; lit "expiresAt";
   lit "acceptedAt"; lit "source"].

Definition validPolicyHash (hash : text) : bool :=
  starts_with (lit "sha256:") hash && (tsize hash =? 71)
  && forallb (λ ch, q_isDigit ch || ((97 <=? ch) && (ch <=? 102))) (drop 7 hash).

(** A member that may be absent; [None] when it is not a string. *)
Definition optionalString (key : text) (object : jobject) : option text :=
  if jcontains key object then
    match jvalue key object with JString s => Some s | _ => None end
  else Some [].

(** [None] when the member is there and is not a date. *)
Definition readDate (key : text) (object : jobject) : option qdatetime :=
  if jcontains key object then
    match jvalue key object with
    | JString s =>
        let target := dt_fromIsoMs s in
        let target := if negb (dt_isValid target) then dt_fromIso s else target in
        if negb (dt_isValid target) then None else Some target
    | _ => None
    end
  else Some None.

(** The revision number of a versioned policy, -1 otherwise; [None] where the
    source rejects the object. *)
Definition readRevisionNumber (versioned : bool) (revision : text) (object : jobject) : option Z :=
  if versioned then
    match jvalue (lit "revisionNumber") object with
    | JDouble d =>
        if d_ltb d 1 || d_gtb d maxExactJsonInteger || negb (d_integral d) then None else
        let n := d_trunc d in
        if negb (text_eqb revision (number n)) then None else Some n
    | _ => None
    end
  else if jcontains (lit "revisionNumber") object then None else Some (-1).

Definition policyMetadataFromJson (value : json) : option ManagedRoutePolicyMetadata :=
  match value with
  | JObject object =>
      if negb (forallb (λ k, qcontains k metadataKeys) (jkeys object)) then None else
      match jvalue (lit "schemaVersion") object, jvalue (lit "policyType") object,
            jvalue (lit "revision") object, jvalue (lit "contentMatchesDeclaration") object,
            jvalue (lit "trustState") object with
      | JDouble (DInt 1), JString policyType, JString revision, JBool matches, JString trustState =>
          if negb (text_eqb policyType (lit "legacy")) && negb (text_eqb policyType (lit "versioned")) then None else
          if is_empty revision || is_empty trustState then None else
          let versioned := text_eqb policyType (lit "versioned") in
          contentHash ← optionalString (lit "contentHash") object;
          declaredContentHash ← optionalString (lit "declaredContentHash") object;
          if negb (validPolicyHash contentHash) || negb (validPolicyHash declaredContentHash)
             || negb matches || negb (text_eqb contentHash declaredContentHash) then None else
          revisionNumber ← readRevisionNumber versioned revision object;
          issuedAt ← readDate (lit "issuedAt") object;
          expiresAt ← readDate (lit "expiresAt") object;
          acceptedAt ← readDate (lit "acceptedAt") object;
          source ← optionalString (lit "source") object;
          if dt_isValid issuedAt && dt_isValid expiresAt && dt_leb expiresAt issuedAt then None else
          Some (Metadata 1 revision revisionNumber versioned contentHash declaredContentHash matches issuedAt
                  expiresAt acceptedAt source trustState)
      | _, _, _, _, _ => None
      end
  | _ => None
  end.
End endpoint.
