(* ===== verification/BypassRoutes.v ===== *)
(** * The routes that bypass a full tunnel

    With the full tunnel active everything goes through the VPN except the
    bypass routes, so these decide what leaves the machine unprotected.
    [allExceptBypassRoutes] of headless/headlessRoutingController.cpp combines
    the endpoints of the VPN with the routes of the server's policy; the
    theorems say which networks it can let through, in terms of addresses. *)

From stdpp Require Import gmap.
From S2P Require Import Prelude Text Json QtInterface QtModel Ipv4 IpAddress RoutePolicy PolicyLifecycle.
From S2P Require Import JsonText RouteGrammar RouteState Regex ProfileStore PolicyEndpoint.
#[local] Open Scope Z_scope.
#[local] Open Scope amnezia_scope.

Section bypass.
Context `{QT : QtText} `{QN : QtNet} `{QD : QtData} `{QJ : QtJsonText} `{!QtTextLaws QT} `{!QtNetLaws QN}.
Context (lookupHost : text → option (list qhost)) (readConfig : text → option text).

(** ** Routes as networks *)

Lemma parse_ipv4_range r a p : parseIpv4Route r = Some (a, p) → is_u32 a ∧ prefix_ok p.
Proof.
  unfold parseIpv4Route. intros E. destruct (host_parse _) as [|x|] eqn:Eh; try done.
  destruct (2 <? _)%nat; [done|]. cbv zeta in E.
  match type of E with match ?o with _ => _ end = _ => destruct o as [n|]; [|done] end.
  destruct ((n <? 0) || (n >? 32)) eqn:En; [done|]. bprop. simplify_eq.
  split; [by eapply host_parse_u32|]. unfold prefix_ok. lia.
Qed.

Lemma parse_ipv4_prefixed a p :
  is_u32 a → prefix_ok p → parseIpv4Route (dotted a ++ [47] ++ number p) = Some (a, p).
Proof.
  intros Ha Hp. pose proof Hp as Hp'. unfold prefix_ok in Hp'. unfold parseIpv4Route, part_at.
  simpl. rewrite split_char_app by apply slash_notin_dotted.
  rewrite split_char_none by (apply slash_notin_number; lia). simpl.
  rewrite host_parse_dotted, q_toInt_number by (done || lia).
  by rewrite (proj2 (Z.ltb_ge p 0)), Z.gtb_ltb, (proj2 (Z.ltb_ge 32 p)) by lia.
Qed.

Lemma parse_ipv4_host a : is_u32 a → parseIpv4Route (dotted a) = Some (a, 32).
Proof.
  intros Ha. unfold parseIpv4Route, part_at. rewrite split_char_none by apply slash_notin_dotted. simpl.
  by rewrite host_parse_dotted by done.
Qed.

Lemma parse_ipv4_text a p : route_wf a p → parseIpv4Route (route_text a p) = Some (a, p).
Proof.
  intros (Ha & Hp & _). unfold route_text. destruct (p =? 32) eqn:E; bprop.
  - subst. by apply parse_ipv4_host.
  - by apply parse_ipv4_prefixed.
Qed.

(** Both parsers agree on a route without surrounding blanks. *)
Lemma parse_ipv4_trimmed f a p :
  trimmed f = f → parseCanonicalIpv4Route f = Some (a, p) → parseIpv4Route f = Some (a, p).
Proof.
  intros Ht [(Ha & Hp & _) [[E ->]|E]]%parse_sound; rewrite Ht in E; rewrite E.
  - by apply parse_ipv4_host.
  - by apply parse_ipv4_prefixed.
Qed.

(** A canonical route is a network, and both parsers agree on it. *)
Lemma canonical_network r :
  canonical_route r → ∃ a p, route_wf a p ∧ r = route_text a p ∧ parseIpv4Route r = Some (a, p).
Proof.
  intros [Hr Ha]. destruct (canonical_cases r) as [[_ F]|(a & p & E & Hwf & _ & _)]; [congruence|].
  exists a, p. rewrite Hr in E. subst. split_and!; [done..|]. by apply parse_ipv4_text.
Qed.

Lemma lxor_mask p : prefix_ok p → Z.lxor 0xffffffff (ipv4Mask p) = u32_not (ipv4Mask p).
Proof.
  intros Hp. apply Z.eqb_eq.
  by apply (prefix_cases (λ p, Z.lxor 0xffffffff (ipv4Mask p) =? u32_not (ipv4Mask p))).
Qed.

Lemma overlap_networks r f a p b q :
  parseIpv4Route r = Some (a, p) → parseIpv4Route f = Some (b, q) →
  ipv4RoutesOverlap r f = true ↔ ∃ x, in_net a p x ∧ in_net b q x.
Proof.
  intros Er Ef. destruct (parse_ipv4_range _ _ _ Er) as [Ha Hp], (parse_ipv4_range _ _ _ Ef) as [Hb Hq].
  rewrite <-overlaps_spec by done. unfold ipv4RoutesOverlap, ipv4RouteOverlapsRange. rewrite Er, Ef. cbv zeta.
  by rewrite !lxor_mask by done.
Qed.

Lemma contained_network v f b q :
  is_u32 v → parseIpv4Route f = Some (b, q) → ipv4ContainedByRoute (HV4 v) f = true ↔ in_net b q v.
Proof.
  intros Hv Ef. destruct (parse_ipv4_range _ _ _ Ef) as [Hb Hq].
  unfold ipv4ContainedByRoute. rewrite Ef, Z.eqb_eq, !land_mask by done.
  destruct (block_bounds q Hq) as [Hpos _]. unfold in_net. split.
  - intros E%Z.mul_reg_r; [done|lia].
  - intros [_ E]. by rewrite E.
Qed.

(** Two networks that meet are nested, by their prefix lengths. *)
Lemma nested_networks a p b q x :
  prefix_ok p → prefix_ok q → is_u32 a → is_u32 b → q <= p →
  in_net a p x → in_net b q x → ∀ y, in_net a p y → in_net b q y.
Proof.
  intros Hp Hq Ha Hb Hle Hax Hbx. apply within_spec; [done..|].
  unfold ipv4RouteIsWithinRange. rewrite (proj2 (Z.ltb_ge p q)) by lia. cbv zeta.
  apply Z.eqb_eq. rewrite !land_mask by done. f_equal.
  destruct Hax as [Hx Ea], Hbx as [_ Eb]. rewrite <-Eb.
  assert (2 ^ (32 - q) = 2 ^ (32 - p) * 2 ^ (p - q)) as Hpow.
  { unfold prefix_ok in *. rewrite <-Z.pow_add_r by lia. f_equal. lia. }
  unfold prefix_ok in *.
  rewrite Hpow, <-!Z.div_div by (try apply Z.pow_pos_nonneg; try apply Z.pow_nonzero; lia). by rewrite Ea.
Qed.

(** ** What is outside the VPN and what is inside *)

Definition outside (forwardRoutes : list text) (r : text) : Prop :=
  ∃ a p, parseIpv4Route r = Some (a, p)
    ∧ ∀ f b q x, f ∈ forwardRoutes → parseIpv4Route f = Some (b, q) → in_net a p x → ¬ in_net b q x.

Definition inside (forwardRoutes : list text) (r : text) : Prop :=
  ∃ a p f b q, parseIpv4Route r = Some (a, p) ∧ f ∈ forwardRoutes ∧ parseIpv4Route f = Some (b, q)
    ∧ ∀ x, in_net a p x → in_net b q x.

Lemma no_overlap_outside fw r :
  canonical_route r → existsb (ipv4RoutesOverlap r) fw = false → outside fw r.
Proof.
  intros (a & p & Hwf & -> & Ep)%canonical_network E. exists a, p. split; [done|].
  intros f b q x Hf Ef Hx Hx'. assert (existsb (ipv4RoutesOverlap (route_text a p)) fw = true) as E'.
  { apply existsb_exists. exists f. split; [by apply list_elem_of_In|]. eapply overlap_networks; eauto. }
  congruence.
Qed.

Lemma overlap_inside fw r :
  canonical_route r → existsb (ipv4RoutesOverlap r) fw = true → safelyContained fw r = true → inside fw r.
Proof.
  intros (a & p & (Ha & Hp & _) & -> & Ep)%canonical_network Eo Hs. unfold safelyContained in Hs.
  rewrite Ep in Hs. cbv zeta in Hs.
  assert (∃ f b q, f ∈ fw ∧ parseIpv4Route f = Some (b, q) ∧ q <= p
            ∧ ipv4RoutesOverlap (route_text a p) f = true) as (f & b & q & Hf & Ef & Hle & Hov).
  { apply orb_true_iff in Hs as [Hs|Hs].
    - apply existsb_exists in Eo as (f & Hf%list_elem_of_In & Hov).
      pose proof Hov as Hov'. unfold ipv4RoutesOverlap in Hov'. rewrite Ep in Hov'.
      destruct (parseIpv4Route f) as [[b q]|] eqn:Ef; [|done]. exists f, b, q. split_and!; [done..| |done].
      apply parse_ipv4_range in Ef as [_ Hq]. unfold prefix_ok in Hq. bprop. lia.
    - apply existsb_exists in Hs as (f & Hf%list_elem_of_In & Hc).
      destruct (parseIpv4Route f) as [[b q]|] eqn:Ef; [|done]. apply andb_true_iff in Hc as [Hc1 Hc2].
      exists f, b, q. split_and!; [done..| |done]. rewrite Z.geb_leb, Z.leb_le in Hc1. lia. }
  exists a, p, f, b, q. split_and!; [done..|].
  destruct (parse_ipv4_range _ _ _ Ef) as [Hb Hq].
  eapply overlap_networks in Hov as (x & Hx & Hx'); [|done..]. by eapply nested_networks.
Qed.

(** The loop over the server routes sorts them into the two kinds. *)
Lemma admitted_routes fw serverRoutes routes routes' :
  Forall canonical_route serverRoutes →
  admitServerRoutes fw serverRoutes routes = (routes', true) →
  ∃ kept, routes' = routes ++ kept
    ∧ (∀ r, r ∈ kept → r ∈ serverRoutes ∧ outside fw r)
    ∧ ∀ r, r ∈ serverRoutes → r ∈ kept ∨ inside fw r.
Proof.
  intros Hall. revert routes. induction Hall as [|r rest Hr Hrest IH]; intros routes E; simpl in E.
  { simplify_eq. exists []. rewrite app_nil_r. set_solver. }
  destruct (existsb (ipv4RoutesOverlap r) fw) eqn:Eo; simpl in E.
  - destruct (safelyContained fw r) eqn:Es; [|done].
    destruct (IH _ E) as (kept & -> & H1 & H2). pose proof (overlap_inside _ _ Hr Eo Es).
    exists kept. split_and!; [done|set_solver|]. intros r' [->|Hr']%elem_of_cons; auto.
  - destruct (IH _ E) as (kept & -> & H1 & H2). pose proof (no_overlap_outside _ _ Hr Eo).
    exists (r :: kept). rewrite <-app_assoc. split_and!; [done| |].
    + intros r' [->|Hr']%elem_of_cons; [split; [set_solver|done]|]. set_solver.
    + intros r' [->|Hr']%elem_of_cons; [left; constructor|]. destruct (H2 r' Hr'); [left; by right|auto].
Qed.

(** ** Endpoint routes are hosts *)

Definition host_route (r : text) : Prop := ∃ a, is_u32 a ∧ r = dotted a.

Lemma dotted32_parse a : is_u32 a → parseCanonicalIpv4Route (dotted a ++ lit "/32") = Some (a, 32).
Proof.
  intros Ha. unfold parseCanonicalIpv4Route, part_at. cbv zeta.
  change (lit "/32") with ([47] ++ number 32).
  rewrite (proj1 (lower_token_normal _ (proj2 (lower_token_app _ _)
    (conj (lower_token_dotted a) (lower_token_slash_number 32 ltac:(lia)))))).
  assert (tsize (dotted a ++ [47] ++ number 32) >? maximumRouteTokenLength = false) as ->.
  { unfold tsize, maximumRouteTokenLength. rewrite Z.gtb_ltb, Z.ltb_ge, !length_app.
    change (length (number 32)) with 2%nat. pose proof (dotted_length a). simpl. lia. }
  simpl. rewrite split_char_app by apply slash_notin_dotted.
  rewrite split_char_none by (apply (slash_notin_number 32); lia). simpl.
  rewrite (proj2 (is_empty_false _)) by apply dotted_ne. rewrite host_parse_dotted by done. simpl.
  rewrite host_toString_v4, text_eqb_refl by done. simpl.
  rewrite (q_toInt_number 32) by lia. rewrite text_eqb_refl. simpl.
  rewrite (proj2 (land_mask_id a 32 ltac:(unfold prefix_ok; lia) Ha)); [done|].
  change (2 ^ (32 - 32)) with 1. apply Z.mod_1_r.
Qed.

(** A lookup answers with 32-bit IPv4 addresses. *)
Context (lookup_u32 : ∀ host addresses a, lookupHost host = Some addresses → HV4 a ∈ addresses → is_u32 a).

Definition host32 (r : text) : Prop := ∃ a, is_u32 a ∧ r = dotted a ++ lit "/32".

Lemma host32_route a : is_u32 a → host32 (hostRoute (HV4 a)).
Proof. intros Ha. exists a. split; [done|]. unfold hostRoute. by rewrite host_toString_v4. Qed.

Lemma appended_hosts routes rawHost :
  Forall host32 routes → Forall host32 (appendHostRoutes lookupHost routes rawHost).1.
Proof.
  intros Hr. unfold appendHostRoutes. cbv zeta. destruct (is_empty _); [done|].
  destruct (host_parse _) as [|a|] eqn:Ea; [|simpl|done].
  - destruct (lookupHost _) as [addresses|] eqn:El; [|done]. simpl. apply Forall_app. split; [done|].
    apply Forall_forall. intros r (h & -> & Hh)%list_elem_of_fmap. apply list_elem_of_In, filter_In in Hh as [Hh Hv].
    destruct h as [|a|]; try done. apply host32_route. eapply lookup_u32; [done|by apply list_elem_of_In].
  - apply Forall_app. split; [done|]. apply Forall_singleton, host32_route. by eapply host_parse_u32.
Qed.

Lemma endpoints_hosts endpoints routes valid routes' valid' :
  Forall host32 routes → endpointRoutes lookupHost endpoints routes valid = Some (routes', valid') →
  Forall host32 routes'.
Proof.
  revert routes valid. induction endpoints as [|e rest IH]; intros routes valid Hr E; simpl in E; [by simplify_eq|].
  destruct (host_parse _); try done. pose proof (appended_hosts routes e Hr) as Ha.
  destruct (appendHostRoutes lookupHost routes e) as [rs added]. by eapply IH.
Qed.

(** What protects the endpoints is one canonical route per host. *)
Lemma protected_hosts profile routes valid :
  protectedRoutesForProfile lookupHost readConfig profile = (routes, valid) →
  Forall (λ r, canonical_route r ∧ host_route r) routes.
Proof.
  unfold protectedRoutesForProfile. destruct (endpointRoutes _ _ _ _) as [[rs v]|] eqn:E; [|by intros [= <- <-]].
  destruct (validatedManagedRoutes rs) as [rs' ok] eqn:Ev. intros [= <- <-]. destruct ok; [|done].
  apply managedRoutes_valid in Ev as (_ & _ & Hc & Hin). apply Forall_forall. intros r Hr. split; [by eapply Forall_forall in Hc|].
  pose proof Hr as (v' & Hv & ->)%Hin. eapply Forall_forall in Hc as [_ Hal]; [|done].
  eapply endpoints_hosts in E; [|constructor]. 
  destruct (proj1 (Forall_forall _ _) E _ Hv) as (a & Ha & ->).
  exists a. split; [done|]. destruct (canonical_cases (dotted a ++ lit "/32")) as [[F _]|(b & p & -> & _ & Hp & _)].
  - rewrite F in Hal. done.
  - rewrite dotted32_parse in Hp by done. simplify_eq. done.
Qed.

Lemma host_network r : host_route r → ∃ a, is_u32 a ∧ parseIpv4Route r = Some (a, 32).
Proof.
  intros (a & Ha & ->). exists a. split; [done|]. change (dotted a) with (route_text a 32). apply parse_ipv4_text.
  split_and!; [done|unfold prefix_ok; lia|]. change (2 ^ (32 - 32)) with 1. apply Z.mod_1_r.
Qed.

Lemma host_outside fw r : host_route r → isUnderlay fw r = true → outside fw r.
Proof.
  intros (a & Ha & E)%host_network.
  unfold isUnderlay. rewrite E, negb_true_iff. intros Hn. exists a, 32. split; [done|].
  intros f b q x Hf Ef ->%in_net_32 Hb; [|done].
  assert (existsb (ipv4ContainedByRoute (HV4 a)) fw = true); [|congruence].
  apply existsb_exists. exists f. split; [by apply list_elem_of_In|]. by eapply contained_network.
Qed.

Lemma host_inside fw r : host_route r → isUnderlay fw r = false → inside fw r.
Proof.
  intros (a & Ha & E)%host_network.
  unfold isUnderlay. rewrite E, negb_false_iff. intros (f & Hf%list_elem_of_In & Hc)%existsb_exists.
  pose proof Hc as Hc'. unfold ipv4ContainedByRoute in Hc'. destruct (parseIpv4Route f) as [[b q]|] eqn:Ef; [|done].
  exists a, 32, f, b, q. split_and!; [done..|]. intros x ->%in_net_32; [|done]. by eapply contained_network.
Qed.

Lemma outside_underlay fw r : outside fw r → isUnderlay fw r = true.
Proof.
  intros (a & p & E & Ho). unfold isUnderlay. rewrite E, negb_true_iff. apply not_true_iff_false.
  intros (f & Hf%list_elem_of_In & Hc)%existsb_exists.
  destruct (parse_ipv4_range _ _ _ E) as [Ha Hp]. pose proof Hc as Hc'. unfold ipv4ContainedByRoute in Hc'.
  destruct (parseIpv4Route f) as [[b q]|] eqn:Ef; [|done].
  eapply (Ho f b q a); [done..|]. by eapply contained_network.
Qed.

(** ** The bypass routes *)

Lemma bypass_spec profile serverRoutes routes critical :
  Forall canonical_route serverRoutes →
  allExceptBypassRoutes lookupHost readConfig profile serverRoutes = (routes, true, critical) →
  let endpoints := (protectedRoutesForProfile lookupHost readConfig profile).1 in
  NoDup routes ∧ Forall canonical_route routes ∧ Z.of_nat (length routes) <= maximumTotalRouteCount
  ∧ (∀ r, r ∈ routes → outside (p_forwardRoutes profile) r ∧ (r ∈ endpoints ∨ r ∈ serverRoutes))
  ∧ (∀ r, r ∈ endpoints ∨ r ∈ serverRoutes → r ∈ routes ∨ inside (p_forwardRoutes profile) r)
  ∧ (∀ r, r ∈ critical ↔ r ∈ routes ∧ r ∈ endpoints).
Proof.
  intros Hs E. unfold allExceptBypassRoutes in E.
  destruct (protectedRoutesForProfile _ _ profile) as [endpoints pv] eqn:Ep.
  destruct (admitServerRoutes _ serverRoutes endpoints) as [all admitted] eqn:Ea.
  set (fw := p_forwardRoutes profile) in *. set (underlay := List.filter (isUnderlay fw) all) in *.
  destruct (validatedManagedRoutes underlay) as [vr validated] eqn:Ev. cbv zeta in E.
  destruct admitted, pv, validated; try (by simplify_eq).
  apply protected_hosts in Ep. apply admitted_routes in Ea as (kept & -> & Hk1 & Hk2); [|done].
  apply managedRoutes_valid in Ev as (Hnd & Hlen & Hc & Hin). simpl in E.
  rewrite (remove_duplicates_id vr) in E by done. injection E as -> <-. cbn zeta. cbn [fst].
  assert (∀ r, r ∈ endpoints → canonical_route r ∧ host_route r) as He by (by apply Forall_forall).
  assert (∀ r, r ∈ underlay ↔ (r ∈ endpoints ∨ r ∈ kept) ∧ isUnderlay fw r = true) as Hu.
  { intros r. unfold underlay. rewrite list_elem_of_In, filter_In, <-list_elem_of_In, elem_of_app. done. }
  assert (∀ r, r ∈ endpoints ∨ r ∈ kept → canonicalManagedIpv4Route r = r) as Hfix.
  { intros r [Hr|Hr]; [by apply He|]. apply Hk1 in Hr as [Hr _]. by eapply Forall_forall in Hs as [? _]. }
  assert (∀ r, r ∈ routes ↔ r ∈ underlay) as Hru.
  { intros r. rewrite Hin. split.
    - intros (v & Hv & ->). rewrite Hfix; [done|]. by apply Hu.
    - intros Hr. exists r. split; [done|]. symmetry. apply Hfix. by apply Hu. }
  split_and!; [done..| | |].
  - intros r [[Hr|Hr] Hw]%Hru%Hu; [split; [apply host_outside; [by apply He|done]|by left]|].
    apply Hk1 in Hr as [Hr Ho]. auto.
  - intros r [Hr|Hr].
    + destruct (isUnderlay fw r) eqn:Ew; [left; apply Hru, Hu; auto|]. right. apply host_inside; [by apply He|done].
    + destruct (Hk2 r Hr) as [Hk|Hi]; [|by right]. left. apply Hru, Hu. split; [by right|].
      apply outside_underlay. by apply Hk1.
  - intros r. rewrite list_elem_of_In, filter_In, <-list_elem_of_In, elem_of_remove_duplicates.
    rewrite list_elem_of_In, filter_In, <-list_elem_of_In. unfold qcontains. rewrite !bool_decide_eq_true, Hru. tauto.
Qed.

(** C13. What a full tunnel lets bypass it: the accepted bypass routes are
    canonical, allowed, without repetition and within the route budget; no
    address of one of them belongs to a network of the VPN; each is an endpoint
    of the VPN or a route of the server's policy; and nothing is dropped
    silently: an endpoint or a server route is either a bypass route or lies as
    a whole inside a network of the VPN.  The critical routes, which the tunnel
    is torn down for, are the endpoints among the bypass routes. *)
Theorem bypass_routes_outside_vpn profile serverRoutes routes critical :
  Forall canonical_route serverRoutes →
  allExceptBypassRoutes lookupHost readConfig profile serverRoutes = (routes, true, critical) →
  let endpoints := (protectedRoutesForProfile lookupHost readConfig profile).1 in
  NoDup routes ∧ Forall canonical_route routes ∧ Z.of_nat (length routes) <= maximumTotalRouteCount
  ∧ (∀ r, r ∈ routes → outside (p_forwardRoutes profile) r ∧ (r ∈ endpoints ∨ r ∈ serverRoutes))
  ∧ (∀ r, r ∈ endpoints ∨ r ∈ serverRoutes → r ∈ routes ∨ inside (p_forwardRoutes profile) r)
  ∧ (∀ r, r ∈ critical ↔ r ∈ routes ∧ r ∈ endpoints).
Proof. exact (bypass_spec profile serverRoutes routes critical). Qed.

(** ** Where a policy may come from *)

(** The private and local IPv4 networks: RFC 1918, shared address space, protocol
    assignments, benchmarking, loopback, link-local and the null address. *)
Definition privateNetworks : list (Z * Z) :=
  [(0x0a000000, 8); (0xac100000, 12); (0xc0a80000, 16); (0x64400000, 10); (0xc0000000, 24); (0xc6120000, 15);
   (0x7f000000, 8); (0xa9fe0000, 16); (0, 32)].

Definition privateAddress (v : Z) : Prop := ∃ b q, (b, q) ∈ privateNetworks ∧ in_net b q v.

Lemma shifted_network b q n v : n = 32 - q → 0 <= n → is_u32 v → Z.shiftr v n = b / 2 ^ n ↔ in_net b q v.
Proof.
  intros -> Hn Hv. rewrite Z.shiftr_div_pow2 by done. unfold in_net. tauto.
Qed.

Lemma masked_network b q v :
  is_u32 b → prefix_ok q → b mod 2 ^ (32 - q) = 0 → is_u32 v → Z.land v (ipv4Mask q) = b ↔ in_net b q v.
Proof.
  intros Hb Hq Eb Hv. rewrite land_mask by done. unfold in_net. destruct (block_bounds q Hq) as [Hp _].
  pose proof (Z.div_mod b (2 ^ (32 - q)) ltac:(lia)) as Hd. split.
  - intros E. split; [done|]. apply (Z.mul_reg_r _ _ (2 ^ (32 - q))); lia.
  - intros [_ E]. rewrite E. lia.
Qed.

Lemma private_networks_spec v : is_u32 v → privateOrLocalIpv4 (HV4 v) = true ↔ privateAddress v.
Proof.
  intros Hv. unfold privateOrLocalIpv4. rewrite !orb_true_iff, !Z.eqb_eq.
  pose proof (shifted_network 0x0a000000 8 24 v eq_refl ltac:(lia) Hv) as H1.
  pose proof (shifted_network 0xac100000 12 20 v eq_refl ltac:(lia) Hv) as H2.
  pose proof (shifted_network 0xc0a80000 16 16 v eq_refl ltac:(lia) Hv) as H3.
  pose proof (masked_network 0x64400000 10 v ltac:(unfold is_u32; lia) ltac:(unfold prefix_ok; lia) eq_refl Hv) as H4.
  pose proof (masked_network 0xc0000000 24 v ltac:(unfold is_u32; lia) ltac:(unfold prefix_ok; lia) eq_refl Hv) as H5.
  pose proof (masked_network 0xc6120000 15 v ltac:(unfold is_u32; lia) ltac:(unfold prefix_ok; lia) eq_refl Hv) as H6.
  pose proof (shifted_network 0x7f000000 8 24 v eq_refl ltac:(lia) Hv) as H7.
  pose proof (shifted_network 0xa9fe0000 16 16 v eq_refl ltac:(lia) Hv) as H8.
  pose proof (in_net_32 0 v ltac:(unfold is_u32; lia)) as H9.
  change (0x0a000000 / 2 ^ 24) with 10 in H1. change (0xac100000 / 2 ^ 20) with (Z.lor (Z.shiftl 172 4) 1) in H2.
  change (0xc0a80000 / 2 ^ 16) with (Z.lor (Z.shiftl 192 8) 168) in H3.
  change (ipv4Mask 10) with 0xffc00000 in H4. change (ipv4Mask 24) with 0xffffff00 in H5.
  change (ipv4Mask 15) with 0xfffe0000 in H6. change (0x7f000000 / 2 ^ 24) with 127 in H7.
  change (0xa9fe0000 / 2 ^ 16) with (169 * 256 + 254) in H8.
  rewrite H1, H2, H3, H4, H5, H6, H7, H8, <-H9. clear. unfold privateAddress, privateNetworks. split.
  - intros Hc. repeat destruct Hc as [Hc|Hc]; do 2 eexists; (split; [|exact Hc]); repeat constructor.
  - intros (b & q & Hin & Hn).
    repeat (apply elem_of_cons in Hin as [[= -> ->]|Hin]; [tauto|]). by apply elem_of_nil in Hin.
Qed.

(** ** Private literals *)

(** The addresses that must stay inside the VPN: those the library classifies
    as loopback, link-local or multicast, the IPv4 networks of [privateAddress],
    the unique local IPv6 addresses fc00::/7, and the IPv4-mapped addresses
    ::ffff:0:0/96 of those IPv4 networks. *)
Definition private_literal (h : qhost) : Prop :=
  host_isLoopback h = true ∨ host_isLinkLocal h = true ∨ host_isMulticast h = true ∨
  match h with
  | HV4 v => privateAddress v
  | HV6 a _ => a / 2 ^ 121 = 0xfc / 2 ∨ a / 2 ^ 32 = 0xffff ∧ privateAddress (a mod 2 ^ 32)
  | HNull => False
  end.

Lemma octet_bits i a k : 0 <= i → 0 <= k → Z.testbit (octet i a) k = (k <? 8) && Z.testbit a (k + 8 * i).
Proof.
  intros Hi Hk. unfold octet. change 256 with (2 ^ 8). destruct (k <? 8) eqn:E; bprop.
  - rewrite Z.mod_pow2_bits_low, Z.div_pow2_bits by lia. done.
  - by rewrite Z.mod_pow2_bits_high by lia.
Qed.

(** The four low bytes of an address make its low 32 bits. *)
Lemma low_word a :
  Z.lor (Z.lor (Z.lor (u32_shl (octet 3 a) 24) (u32_shl (octet 2 a) 16)) (u32_shl (octet 1 a) 8)) (octet 0 a) = a mod 2 ^ 32.
Proof.
  apply Z.bits_inj'. intros n Hn. unfold u32_shl. change u32_max with (Z.ones 32).
  rewrite !Z.lor_spec, !Z.land_spec, !Z.shiftl_spec, !Z.testbit_ones_nonneg by lia.
  destruct (Z.lt_ge_cases n 32) as [H32|H32].
  2:{ rewrite Z.mod_pow2_bits_high by lia. rewrite (proj2 (Z.ltb_ge n 32)) by lia. rewrite !andb_false_r, octet_bits by lia.
      by rewrite (proj2 (Z.ltb_ge n 8)) by lia. }
  rewrite (proj2 (Z.ltb_lt n 32)), !andb_true_r, Z.mod_pow2_bits_low by lia. rewrite (octet_bits 0) by lia.
  assert (∀ i m, 0 <= i → n = m + 8 * i → Z.testbit (octet i a) m = (0 <=? m) && (m <? 8) && Z.testbit a n) as Hb.
  { intros i m Hi ->. destruct (0 <=? m) eqn:E; bprop; [by rewrite octet_bits by lia|]. by rewrite Z.testbit_neg_r by lia. }
  rewrite (Hb 3 (n - 24)), (Hb 2 (n - 16)), (Hb 1 (n - 8)) by lia. replace (n + 8 * 0) with n by lia.
  destruct (Z.testbit a n); [|by rewrite !andb_false_r]. rewrite !andb_true_r.
  apply orb_true_iff. rewrite !orb_true_iff, !andb_true_iff, !Z.leb_le, !Z.ltb_lt. lia.
Qed.

Lemma high_octet i a k : 0 <= a < 2 ^ k → 0 <= k <= 8 * i → octet i a = 0.
Proof.
  intros Ha Hk. unfold octet. rewrite Z.div_small; [done|]. split; [lia|].
  apply (Z.lt_le_trans _ (2 ^ k)); [lia|]. apply Z.pow_le_mono_r; lia.
Qed.

Lemma mapped_word a s : a / 2 ^ 32 = 0xffff → mappedIpv4 (toIPv6Address (HV6 a s)) = Some (a mod 2 ^ 32).
Proof.
  intros E. assert (0 <= a < 2 ^ 48) as Ha. { pose proof (Z.div_mod a (2 ^ 32) ltac:(lia)). pose proof (Z.mod_pos_bound a (2 ^ 32) ltac:(lia)). lia. }
  assert (octet 5 a = 255) as E5.
  { unfold octet. change (2 ^ (8 * 5)) with (2 ^ 32 * 2 ^ 8). rewrite <-Z.div_div, E by lia. done. }
  assert (octet 4 a = 255) as E4 by (unfold octet; change (2 ^ (8 * 4)) with (2 ^ 32); by rewrite E).
  change (toIPv6Address (HV6 a s)) with [octet 15 a; octet 14 a; octet 13 a; octet 12 a; octet 11 a; octet 10 a; octet 9 a; octet 8 a;
    octet 7 a; octet 6 a; octet 5 a; octet 4 a; octet 3 a; octet 2 a; octet 1 a; octet 0 a].
  rewrite (high_octet 15 a 48), (high_octet 14 a 48), (high_octet 13 a 48), (high_octet 12 a 48), (high_octet 11 a 48),
    (high_octet 10 a 48), (high_octet 9 a 48), (high_octet 8 a 48), (high_octet 7 a 48), (high_octet 6 a 48), E5, E4 by lia.
  change (Some (Z.lor (Z.lor (Z.lor (u32_shl (octet 3 a) 24) (u32_shl (octet 2 a) 16)) (u32_shl (octet 1 a) 8)) (octet 0 a)) = Some (a mod 2 ^ 32)).
  f_equal. apply low_word.
Qed.

Lemma unique_local a s :
  a / 2 ^ 121 = 0xfc / 2 → mappedIpv4 (toIPv6Address (HV6 a s)) = None ∧ Z.land (toIPv6Address (HV6 a s) !!! 0%nat) 0xfe = 0xfc.
Proof.
  intros E. change (0xfc / 2) with 126 in E. assert (octet 15 a = 252 ∨ octet 15 a = 253) as Ho.
  { unfold octet. change (8 * 15) with 120. pose proof (Z.div_div a (2 ^ 120) 2 ltac:(lia) ltac:(lia)) as Hd.
    change (2 ^ 120 * 2) with (2 ^ 121) in Hd. rewrite E in Hd. set (x := a / 2 ^ 120) in *.
    pose proof (Z.div_mod x 2 ltac:(lia)). pose proof (Z.mod_pos_bound x 2 ltac:(lia)).
    rewrite Z.mod_small by lia. lia. }
  change (toIPv6Address (HV6 a s) !!! 0%nat) with (octet 15 a). split; [|by destruct Ho as [-> | ->]].
  unfold mappedIpv4, toIPv6Address. cbn [seq map take forallb]. change (15 - Z.of_nat 0) with 15.
  by destruct Ho as [-> | ->].
Qed.

Lemma private_literal_recognised h :
  (∀ v, h = HV4 v → is_u32 v) → private_literal h → privateOrLocalAddress h = true.
Proof.
  intros Hu Hp. unfold privateOrLocalAddress. destruct Hp as [->|[->|[->|Hp]]]; try (by rewrite ?orb_true_r).
  destruct h as [|v|a s]; [done| |].
  - apply private_networks_spec in Hp; [|by apply Hu]. by rewrite Hp.
  - destruct Hp as [Hl|[Hm Hp]].
    + destruct (unique_local a s Hl) as [-> ->]. by rewrite ?orb_true_r.
    + rewrite mapped_word by done. apply private_networks_spec in Hp; [|unfold is_u32; by apply Z.mod_pos_bound].
      by rewrite Hp, ?orb_true_r.
Qed.

(** The literal is an IPv4 address in a network of the VPN. *)
Definition in_vpn (profile : Profile) (h : qhost) : Prop :=
  ∃ v f b q, h = HV4 v ∧ f ∈ p_forwardRoutes profile ∧ parseIpv4Route f = Some (b, q) ∧ in_net b q v.

Lemma contained_in_vpn profile s :
  existsb (ipv4ContainedByRoute (host_parse s)) (p_forwardRoutes profile) = true → in_vpn profile (host_parse s).
Proof.
  intros (f & Hf%list_elem_of_In & Hc)%existsb_exists. pose proof Hc as Hc'. unfold ipv4ContainedByRoute in Hc'.
  destruct (host_parse s) as [|v|] eqn:Eh; try done.
  destruct (parseIpv4Route f) as [[b q]|] eqn:Ef; [|done].
  exists v, f, b, q. split_and!; [done..|]. eapply contained_network; [by eapply host_parse_u32|done..].
Qed.

Context `{QF : QtFiles}.

End bypass.

(** ** Concrete inputs *)

Module BypassExamples.
Import ProfileExamples.
#[local] Existing Instances asciiText asciiText_laws asciiNet asciiNet_laws tokenData tokenJsonText toyFiles.

Definition newline : text := [10].

Definition tunnelConfig : text :=
  lit "[Peer]" ++ newline ++ lit "Endpoint = 93.184.216.34:51820" ++ newline.

Definition noLookup (host : text) : option (list qhost) := None.
Definition configFile (path : text) : option text := Some tunnelConfig.

Lemma bypass_routes_outside_vpn_witness :
  let result := allExceptBypassRoutes noLookup configFile officeProfile [lit "8.8.8.0/24"; lit "10.8.1.5"] in
  result = ([lit "93.184.216.34"; lit "8.8.8.0/24"], true, [lit "93.184.216.34"])
  ∧ outside [lit "10.8.1.0/24"] (lit "8.8.8.0/24").
Proof.
  split; [vm_compute; reflexivity|].
  refine (proj1 (proj1 (proj2 (proj2 (proj2 (bypass_routes_outside_vpn noLookup configFile _ officeProfile
    [lit "8.8.8.0/24"; lit "10.8.1.5"] [lit "93.184.216.34"; lit "8.8.8.0/24"] [lit "93.184.216.34"] _ _)))) _ _)).
  - done.
  - repeat constructor; vm_compute; reflexivity.
  - vm_compute. reflexivity.
  - right. left.
Defined.


(** Two [remote] lines give one endpoint: the first match of the expression
    runs to the end of the configuration. *)
Example second_remote_not_found :
  globalMatch openVpnRemote
    (lit "remote 93.184.216.34 1194 udp" ++ newline ++ lit "remote 93.184.216.35 1194 udp" ++ newline)
  = [lit "93.184.216.34"].
Proof. vm_compute. reflexivity. Qed.
End BypassExamples.
