(* ===== verification/RoutingController.v ===== *)
(** * The headless routing controller

    Model of HeadlessRoutingController in headless/headlessRoutingController.cpp
    and .h: it decides which routes a profile needs, fetches the server's policy
    through the tunnel, drives the route reconciler, and keeps a receipt that
    binds the accepted policy to the installed routes.

    The reconciler is used through the interface [Router]: its operations and
    its [status] object, which is all the controller reads of it.  What the
    operating system and the network answer is [ControllerHost].  Both act on
    one state [R], since the reconciler's commands and the controller's files
    belong to the same world. *)

From stdpp Require Import gmap.
From S2P Require Import Prelude Text Json QtInterface QtModel Command RoutePolicy PolicyLifecycle ServerRouting.
From S2P Require Import JsonText RouteGrammar RouteState ProfileStore PolicyEndpoint.
#[local] Open Scope Z_scope.
#[local] Open Scope amnezia_scope.

(** ** Interfaces *)

Class Router (R : Type) := {
  router_status : R → jobject;
  router_new : R → R;                  (* a new object over the same files and host *)
  router_initialize : R → bool * R;
  router_apply : text → list text → R → RouteReconcileResult * R;
  router_applyAllExcept : text → list text → list text → R → RouteReconcileResult * R;
  router_clear : R → RouteReconcileResult * R;
  router_configureDns : text → list text → list text → R → RouteReconcileResult * R;
  router_clearDns : text → R → RouteReconcileResult * R;
  router_requireRecovery : text → R → bool * R;
  router_underlay : text → list text → R → result text (list text) * R;   (* activeUnderlayProtectedRoutes *)
}.

(** A reply to the policy request: the declared length, the chunks that arrive
    while the request runs, whether it ended before the timeout, what is left to
    read then, the error text (empty when there is none) and the HTTP status. *)
Record Reply := MkReply {
  rp_declaredLength : option Z;
  rp_chunks : list text;
  rp_finished : bool;
  rp_rest : text;
  rp_error : text;
  rp_status : Z;
}.

Inductive ControllerOp := ReadReceipt | WriteReceipt | WriteMarker | DeleteMarker.

Class ControllerHost (R : Type) := {
  ctl_io : ControllerOp → R → bool * R;               (* whether a file operation succeeds *)
  ctl_config : R → text → option text;                (* the bytes of a configuration *)
  ctl_resolve : R → text → option (list qhost);       (* resolveHostBounded *)
  ctl_fetch : text → R → Reply * R;
  ctl_now : R → Z;                                    (* currentDateTimeUtc *)
  ctl_elapsed : R → nat → Z;                          (* ServerRoutingPolicy::resolve: its timer *)
  ctl_lookup : R → nat → text → Z → lookupOutcome;    (* and its lookups *)
}.

(** ** State *)

Record Controller := MkController {
  c_activeProfile : text;
  c_activeInterface : text;
  c_policyRevision : text;
  c_policyContentHash : text;
  c_policySource : text;
  c_policyEndpoint : text;
  c_policyResolvedSites : jobject;
  c_hasPolicy : bool;
  c_policyMetadata : option ManagedRoutePolicyMetadata;
  c_routingDegraded : bool;
  c_routingError : text;
  c_needsReapply : bool;
  c_stateValid : bool;
  c_initialized : bool;
  c_lastError : text;
}.

Definition freshController : Controller :=
  MkController [] [] [] [] [] [] [] false None false [] false true false [].

Definition set_active (profile interface : text) (c : Controller) : Controller :=
  MkController profile interface (c_policyRevision c) (c_policyContentHash c) (c_policySource c) (c_policyEndpoint c)
    (c_policyResolvedSites c) (c_hasPolicy c) (c_policyMetadata c) (c_routingDegraded c) (c_routingError c)
    (c_needsReapply c) (c_stateValid c) (c_initialized c) (c_lastError c).
Definition set_policy (revision hash source endpoint : text) (sites : jobject) (has : bool) (c : Controller) : Controller :=
  MkController (c_activeProfile c) (c_activeInterface c) revision hash source endpoint sites has
    (c_policyMetadata c) (c_routingDegraded c) (c_routingError c) (c_needsReapply c) (c_stateValid c)
    (c_initialized c) (c_lastError c).
Definition set_metadata (m : option ManagedRoutePolicyMetadata) (c : Controller) : Controller :=
  MkController (c_activeProfile c) (c_activeInterface c) (c_policyRevision c) (c_policyContentHash c)
    (c_policySource c) (c_policyEndpoint c) (c_policyResolvedSites c) (c_hasPolicy c) m (c_routingDegraded c)
    (c_routingError c) (c_needsReapply c) (c_stateValid c) (c_initialized c) (c_lastError c).
Definition set_degraded (b : bool) (e : text) (c : Controller) : Controller :=
  MkController (c_activeProfile c) (c_activeInterface c) (c_policyRevision c) (c_policyContentHash c)
    (c_policySource c) (c_policyEndpoint c) (c_policyResolvedSites c) (c_hasPolicy c) (c_policyMetadata c) b e
    (c_needsReapply c) (c_stateValid c) (c_initialized c) (c_lastError c).
Definition set_needsReapply (b : bool) (c : Controller) : Controller :=
  MkController (c_activeProfile c) (c_activeInterface c) (c_policyRevision c) (c_policyContentHash c)
    (c_policySource c) (c_policyEndpoint c) (c_policyResolvedSites c) (c_hasPolicy c) (c_policyMetadata c)
    (c_routingDegraded c) (c_routingError c) b (c_stateValid c) (c_initialized c) (c_lastError c).
Definition set_valid (b : bool) (c : Controller) : Controller :=
  MkController (c_activeProfile c) (c_activeInterface c) (c_policyRevision c) (c_policyContentHash c)
    (c_policySource c) (c_policyEndpoint c) (c_policyResolvedSites c) (c_hasPolicy c) (c_policyMetadata c)
    (c_routingDegraded c) (c_routingError c) (c_needsReapply c) b (c_initialized c) (c_lastError c).
Definition set_ready (c : Controller) : Controller :=
  MkController (c_activeProfile c) (c_activeInterface c) (c_policyRevision c) (c_policyContentHash c)
    (c_policySource c) (c_policyEndpoint c) (c_policyResolvedSites c) (c_hasPolicy c) (c_policyMetadata c)
    (c_routingDegraded c) (c_routingError c) (c_needsReapply c) (c_stateValid c) true (c_lastError c).
Definition set_ctlError (e : text) (c : Controller) : Controller :=
  MkController (c_activeProfile c) (c_activeInterface c) (c_policyRevision c) (c_policyContentHash c)
    (c_policySource c) (c_policyEndpoint c) (c_policyResolvedSites c) (c_hasPolicy c) (c_policyMetadata c)
    (c_routingDegraded c) (c_routingError c) (c_needsReapply c) (c_stateValid c) (c_initialized c) e.

(** [m_policyRevision.clear(); ... m_hasPolicy = false;] *)
Definition clear_policy : Controller → Controller := set_policy [] [] [] [] [] false.

Record RoutingResult := MkRouting { rt_ok : bool; rt_code : text; rt_message : text }.

Definition routed : RoutingResult := MkRouting true [] [].

Record CWorld (R : Type) := MkCWorld {
  cw_state : Controller;
  cw_receipt : Path;
  cw_marker : Path;
  cw_router : R;
}.
Arguments MkCWorld {R}.
Arguments cw_state {R}.
Arguments cw_receipt {R}.
Arguments cw_marker {R}.
Arguments cw_router {R}.

(** ** Reading the reconciler's status *)

Definition st_text (key : string) (o : jobject) : text := to_string [] (jvalue (lit key) o).
Definition st_bool (key : string) (o : jobject) : bool := to_bool false (jvalue (lit key) o).
Definition st_int (key : string) (o : jobject) : Z := to_int 0 (jvalue (lit key) o).
Definition st_array (key : string) (o : jobject) : list json := to_array (jvalue (lit key) o).

(** All members as strings, [None] when one is not; and only the strings. *)
Fixpoint all_strings (l : list json) : option (list text) :=
  match l with
  | [] => Some []
  | JString s :: l' => rest ← all_strings l'; Some (s :: rest)
  | _ :: _ => None
  end.
Definition only_strings (l : list json) : list text :=
  flat_map (λ v, match v with JString s => [s] | _ => [] end) l.

Section controller.
Context `{QtText} `{QtNet} `{QtTime} `{QtData} `{QtJsonText} `{QtFiles}.
Context {R : Type} `{Router R} `{ControllerHost R}.

(** The controller's receipt lies beside the route receipt; both have a path or
    neither has. *)
Context (m_statePath : text).

Notation op E A := (prog (CWorld R) E A).
Notation RR := RouteReconcileResult.

(** ** Access *)

Definition ctl {E} : op E Controller := gets cw_state.

Definition set {E} (f : Controller → Controller) : op E () :=
  cmd_modify (λ w, MkCWorld (f (cw_state w)) (cw_receipt w) (cw_marker w) (cw_router w)).

Definition file {E} (o : ControllerOp) : op E bool := λ w,
  let '(b, r) := ctl_io o (cw_router w) in (Ok b, MkCWorld (cw_state w) (cw_receipt w) (cw_marker w) r).

Definition set_ctlReceipt {E} (p : Path) : op E () :=
  cmd_modify (λ w, MkCWorld (cw_state w) p (cw_marker w) (cw_router w)).
Definition set_ctlMarker {E} (p : Path) : op E () :=
  cmd_modify (λ w, MkCWorld (cw_state w) (cw_receipt w) p (cw_router w)).

(** A call of the reconciler. *)
Definition route {E A} (m : R → A * R) : op E A := λ w,
  let '(a, r) := m (cw_router w) in (Ok a, MkCWorld (cw_state w) (cw_receipt w) (cw_marker w) r).

Definition routing {E} : op E jobject := gets (λ w, router_status (cw_router w)).

Definition failure {E} (code message : text) : op E RoutingResult :=
  let! _ := set (set_ctlError message) in
  pure (MkRouting false code message).

Definition fail {E} (code message : string) : op E RoutingResult := failure (lit code) (lit message).

Definition dns_ok : RR := success.

(** ** The receipt *)

Definition metadata_json (m : option ManagedRoutePolicyMetadata) : json :=
  match m with Some m => JObject (metadataToJson m) | None => JNull end.

Definition controllerReceipt (c : Controller) : jobject := jobj
  [(lit "version", jint 2);
   (lit "activeProfile", JString (c_activeProfile c));
   (lit "activeInterface", JString (c_activeInterface c));
   (lit "policyRevision", JString (c_policyRevision c));
   (lit "policyContentHash", JString (c_policyContentHash c));
   (lit "policySource", JString (c_policySource c));
   (lit "policyEndpoint", JString (c_policyEndpoint c));
   (lit "policyResolvedSites", JObject (c_policyResolvedSites c));
   (lit "policyLoaded", JBool (c_hasPolicy c));
   (lit "policyMetadata", metadata_json (c_policyMetadata c));
   (lit "routingDegraded", JBool (c_routingDegraded c));
   (lit "routingError", JString (c_routingError c));
   (lit "needsReapply", JBool (c_needsReapply c));
   (lit "recoveryRequired", JBool (negb (c_stateValid c)))].

Definition saveState {E} : op E bool :=
  if is_empty m_statePath then pure true else
  let! committed := file WriteReceipt in
  let! c := ctl in
  let! _ := cmd_when committed (set_ctlReceipt (Regular (json_compact (controllerReceipt c)))) in
  let! _ := cmd_when (committed && c_stateValid c)
              (let! removed := file DeleteMarker in cmd_when removed (set_ctlMarker Absent)) in
  pure committed.

Definition markRecoveryRequired {E} (message : text) : op E bool :=
  let! _ := set (λ c, set_ctlError message (set_valid false c)) in
  let! routingMarked := route (router_requireRecovery message) in
  let! controllerSaved := saveState in
  if controllerSaved && routingMarked then pure true else
  if is_empty m_statePath then pure false else
  let! done := file WriteMarker in
  let! _ := cmd_when done (set_ctlMarker (Regular (utf8 message))) in
  pure false.

(** [if (!saveState()) { markRecoveryRequired(mark); return failure("recovery_required", message); }] *)
Definition save_or_fail (mark message : string) : op RoutingResult () :=
  let! saved := saveState in
  leave_if (negb saved) (let! _ := markRecoveryRequired (lit mark) in fail "recovery_required" message).

Definition mark_and_fail {A} (mark message : string) : op RoutingResult A :=
  let! _ := markRecoveryRequired (lit mark) in
  let! r := fail "recovery_required" message in
  leave r.

(** *** Reading it *)

Definition controllerKeys : list text :=
  [lit "version"; lit "activeProfile"; lit "activeInterface"; lit "policyRevision"; lit "policyContentHash";
   lit "policySource"; lit "policyEndpoint"; lit "policyResolvedSites"; lit "policyLoaded"; lit "policyMetadata";
   lit "routingDegraded"; lit "routingError"; lit "needsReapply"; lit "recoveryRequired"].

(** A member that may be absent. *)
Definition absent_or (key : string) (p : json → bool) (object : jobject) : bool :=
  negb (jcontains (lit key) object) || p (jvalue (lit key) object).

Definition receiptVersion (object : jobject) : Z :=
  match jvalue (lit "version") object with JDouble (DInt n) => n | _ => 0 end.

Definition receiptSchema (object : jobject) : bool :=
  forallb (λ k, qcontains k controllerKeys) (jkeys object)
  && ((receiptVersion object =? 1) || (receiptVersion object =? 2))
  && is_string (jvalue (lit "activeProfile") object) && is_string (jvalue (lit "activeInterface") object)
  && is_string (jvalue (lit "policyRevision") object) && is_string (jvalue (lit "policyContentHash") object)
  && is_string (jvalue (lit "policySource") object) && is_bool (jvalue (lit "policyLoaded") object)
  && absent_or "policyEndpoint" is_string object
  && absent_or "routingDegraded" is_bool object && absent_or "routingError" is_string object
  && absent_or "needsReapply" is_bool object
  && absent_or "recoveryRequired" (λ v, is_bool v && negb (to_bool false v)) object.

(** The members copied to the object before the consistency checks. *)
Definition read_identity (object : jobject) (c : Controller) : Controller :=
  set_needsReapply (st_bool "needsReapply" object)
    (set_degraded (st_bool "routingDegraded" object) (st_text "routingError" object)
       (set_policy (st_text "policyRevision" object) (st_text "policyContentHash" object)
          (st_text "policySource" object) (st_text "policyEndpoint" object) (c_policyResolvedSites c)
          (st_bool "policyLoaded" object)
          (set_active (st_text "activeProfile" object) (st_text "activeInterface" object) c))).

Definition degradedValid (c : Controller) : bool :=
  if c_routingDegraded c then
    negb (is_empty (c_activeProfile c)) && negb (is_empty (c_activeInterface c))
    && negb (is_empty (trimmed (c_routingError c))) && validInterfaceName (c_activeInterface c)
  else is_empty (c_routingError c).

(** The stored metadata; [None] where the source rejects the receipt. *)
Definition read_metadata (object : jobject) : option (option ManagedRoutePolicyMetadata) :=
  if jcontains (lit "policyMetadata") object then
    match jvalue (lit "policyMetadata") object with
    | JNull => Some None
    | JObject o => Some <$> policyMetadataFromJson (JObject o)
    | _ => None
    end
  else Some None.

Definition siteValid (entry : text * json) : bool :=
  negb (is_empty (trimmed entry.1)) && is_string entry.2
  && (validatedManagedRouteTokens (to_string [] entry.2)).2.

(** The stored resolution; [None] where the source rejects the receipt. *)
Definition read_sites (object : jobject) (current : jobject) : option jobject :=
  if jcontains (lit "policyResolvedSites") object then
    match jvalue (lit "policyResolvedSites") object with
    | JObject sites =>
        if Z.of_nat (length sites) >? maximumSiteCount then None
        else if forallb siteValid sites then Some sites else None
    | _ => None
    end
  else Some current.

(** [toLongLong] of a text of digits. *)
Definition digits_value (s : text) : option Z :=
  match q_toULongLong s with Some n => if n <? 2 ^ 63 then Some n else None | None => None end.

(** The identity of a receipt of version 1. *)
Definition legacyMetadata (c : Controller) (now : Z) : ManagedRoutePolicyMetadata :=
  let numbered :=
    if forallb q_isDigit (c_policyRevision c) then
      match digits_value (c_policyRevision c) with
      | Some n => if (n >? 0) && (n <=? maxExactJsonInteger) then Some n else None
      | None => None
      end
    else None in
  Metadata 1 (c_policyRevision c) (default (-1) numbered) (bool_decide (is_Some numbered))
    (c_policyContentHash c) (c_policyContentHash c) true None None (Some now) (c_policySource c) unsigned.

(** The checks of a receipt with a policy, before its metadata is completed. *)
Definition policyIdentity (version : Z) (c : Controller) : bool :=
  negb (is_empty (c_activeProfile c)) && negb (is_empty (c_activeInterface c))
  && negb (is_empty (c_policyRevision c)) && negb (is_empty (c_policyContentHash c))
  && negb (is_empty (c_policySource c)) && validInterfaceName (c_activeInterface c)
  && negb ((version =? 2) && bool_decide (c_policyMetadata c = None)).

(** The metadata says what the other members say. *)
Definition metadataAgrees (c : Controller) : bool :=
  match c_policyMetadata c with
  | Some m =>
      let o := metadataToJson m in
      text_eqb (st_text "revision" o) (c_policyRevision c)
      && text_eqb (st_text "contentHash" o) (c_policyContentHash c)
      && text_eqb (st_text "declaredContentHash" o) (c_policyContentHash c)
      && text_eqb (st_text "source" o) (c_policySource c) && negb (is_empty (c_policyEndpoint c))
  | None => false
  end.

Definition policyAbsent (c : Controller) : bool :=
  is_empty (c_policyRevision c) && is_empty (c_policyContentHash c) && is_empty (c_policySource c)
  && bool_decide (c_policyResolvedSites c = []) && bool_decide (c_policyMetadata c = None)
  && is_empty (c_policyEndpoint c).

(** The receipt agrees with what the reconciler found. *)
Definition reapplyAgrees (c : Controller) (o : jobject) : bool :=
  negb (c_routingDegraded c) && negb (is_empty (c_activeProfile c)) && negb (is_empty (c_activeInterface c))
  && text_eqb (st_text "mode" o) all_except && st_bool "needsReapply" o && st_bool "interfaceOffline" o
  && text_eqb (st_text "interface" o) (c_activeInterface c) && (st_int "routeTable" o =? 51821)
  && bool_decide (st_array "routes" o = []).

Definition routingAgrees (c : Controller) (o : jobject) : bool :=
  let interface := st_text "interface" o in
  let mode := st_text "mode" o in
  let no_routes := bool_decide (st_array "routes" o = []) in
  if c_hasPolicy c then
    negb (is_empty interface) && text_eqb interface (c_activeInterface c)
    && (text_eqb mode only_forward || text_eqb mode all_except)
  else if c_routingDegraded c then
    text_eqb mode only_forward && (st_int "routeTable" o =? 0)
    && bool_decide (st_array "bypassRoutes" o = []) && bool_decide (st_array "criticalBypassRoutes" o = [])
    && (if no_routes then is_empty interface else text_eqb interface (c_activeInterface c))
    && (is_empty interface || text_eqb interface (c_activeInterface c))
  else if text_eqb mode all_except then
    negb (is_empty (c_activeProfile c)) && negb (is_empty (c_activeInterface c))
    && text_eqb interface (c_activeInterface c) && (st_int "routeTable" o =? 51821) && no_routes
  else is_empty (c_activeInterface c) && is_empty interface && no_routes.

Definition reject_unless (b : bool) : op bool () := if b then pure () else leave false.

(** The members are copied to the object as they are checked. *)
Definition copyMembers (object : jobject) : op bool () :=
  let! _ := reject_unless (receiptSchema object) in
  let! _ := set (read_identity object) in
  let! c := ctl in
  let! _ := reject_unless (degradedValid c) in
  let! _ := set (set_metadata None) in
  let! m := match read_metadata object with Some m => pure m | None => leave false end in
  let! _ := set (set_metadata m) in
  let! sites := match read_sites object (c_policyResolvedSites c) with Some s => pure s | None => leave false end in
  set (λ c, set_policy (c_policyRevision c) (c_policyContentHash c) (c_policySource c)
              (c_policyEndpoint c) sites (c_hasPolicy c) c).

Definition checkPolicy (version : Z) : op bool () :=
  let! c := ctl in
  if c_hasPolicy c then
    let! _ := reject_unless (policyIdentity version c) in
    let! now := gets (λ w, ctl_now (cw_router w)) in
    let! _ := cmd_when (bool_decide (c_policyMetadata c = None)) (set (set_metadata (Some (legacyMetadata c now)))) in
    let! c := ctl in
    reject_unless (negb (version =? 2) || metadataAgrees c)
  else reject_unless (policyAbsent c).

Definition checkRouting (object : jobject) : op bool bool :=
  let! o := routing in
  let! _ := reject_unless (negb (st_bool "recoveryRequired" o)) in
  let! _ := set (set_needsReapply (st_bool "needsReapply" o)) in
  let! c := ctl in
  let! _ := reject_unless (negb (c_needsReapply c) || reapplyAgrees c o) in
  let! _ := reject_unless (routingAgrees c o) in
  let persisted := st_bool "needsReapply" object in
  if negb (jcontains (lit "needsReapply") object) || negb (Bool.eqb persisted (c_needsReapply c))
  then saveState else pure true.

Definition readReceipt (object : jobject) : op bool bool :=
  let! _ := copyMembers object in
  let! _ := checkPolicy (receiptVersion object) in
  checkRouting object.

Definition loadState_body : op bool bool :=
  if is_empty m_statePath then pure true else
  let! marker := gets cw_marker in
  if path_exists marker then pure false else
  let! receipt := gets cw_receipt in
  match receipt with
  | Absent => pure true
  | Special => pure false
  | Regular content =>
      let! opened := file ReadReceipt in
      if negb opened then pure false else
      match json_parse content with
      | Some (JObject object) => readReceipt object
      | _ => pure false
      end
  end.

Definition loadState {E} : op E bool := call loadState_body.

Definition initializeState {E} : op E bool :=
  let! c := ctl in
  if c_initialized c then pure (c_stateValid c) else
  let! _ := set set_ready in
  let! ready := route router_initialize in
  if negb ready then
    let! _ := set (λ c, set_ctlError (lit "LinuxRouteReconciler initialize failed") (set_valid false c)) in
    pure false
  else
  let! loaded := loadState in
  let! _ := cmd_when (negb loaded)
    (set (λ c, set_ctlError (lit "routing controller receipt load failed") (set_valid false c))) in
  let! c := ctl in
  pure (c_stateValid c).

(** A new process: both objects are new, the files and the host stay. *)
Definition new_controller (w : CWorld R) : CWorld R :=
  MkCWorld freshController (cw_receipt w) (cw_marker w) (router_new (cw_router w)).

Definition restartController (w : CWorld R) : bool * CWorld R := returns initializeState (new_controller w).

(** ** Status *)

Definition controllerStatus (w : CWorld R) : jobject :=
  let c := cw_state w in
  let o := router_status (cw_router w) in
  foldl (λ o p, jinsert (lit p.1) p.2 o) o
    [("activeProfile"%string, JString (c_activeProfile c));
     ("policyRevision"%string, JString (c_policyRevision c));
     ("policyContentHash"%string, JString (c_policyContentHash c));
     ("policySource"%string, JString (c_policySource c));
     ("policyEndpoint"%string, JString (c_policyEndpoint c));
     ("policyLoaded"%string, JBool (c_hasPolicy c));
     ("routingDegraded"%string, JBool (c_routingDegraded c));
     ("routingError"%string, JString (c_routingError c));
     ("needsReapply"%string, JBool (c_needsReapply c));
     ("policyMetadata"%string, metadata_json (c_policyMetadata c));
     ("recoveryRequired"%string, JBool (negb (c_initialized c) || negb (c_stateValid c) || st_bool "recoveryRequired" o))].

(** ** DNS of a profile *)

(** The profile's resolver binding is installed, or [current] is retired. *)
Definition bindDns {E} (profile : Profile) (interfaceName current : text) : op E RR :=
  if negb (bool_decide (p_dnsServers profile = [])) || negb (bool_decide (p_dnsDomains profile = []))
  then route (router_configureDns interfaceName (p_dnsServers profile) (p_dnsDomains profile))
  else if negb (is_empty current) then route (router_clearDns current) else pure dns_ok.

(** ** The fallback *)

Definition fallbackToOnlyForward_body (profile : Profile) (reason : text) : op RoutingResult RoutingResult :=
  let interfaceName := defaultInterfaceFor profile in
  let! _ := cmd_when (is_empty interfaceName)
    (mark_and_fail "all-except failed and fallback has no VPN interface"
       "all-except failed and only-forward fallback is unavailable") in
  let! routes := route (router_apply interfaceName (p_forwardRoutes profile)) in
  let! o := routing in
  let! _ := cmd_when (negb (rr_ok routes) || st_bool "recoveryRequired" o)
    (mark_and_fail "all-except failed and only-forward fallback route apply failed"
       "all-except failed and only-forward fallback could not be installed") in
  let! beforeDns := routing in
  let! dns := bindDns profile interfaceName (st_text "dnsInterface" beforeDns) in
  let! _ := cmd_when (negb (rr_ok dns))
    (mark_and_fail "all-except failed and only-forward fallback DNS apply failed"
       "all-except failed and only-forward fallback DNS could not be installed") in
  let! after := routing in
  let noForward := bool_decide (p_forwardRoutes profile = []) in
  let! _ := cmd_when (st_bool "recoveryRequired" after || negb (text_eqb (st_text "mode" after) only_forward)
                      || (negb noForward && negb (text_eqb (st_text "interface" after) interfaceName))
                      || (noForward && negb (is_empty (st_text "interface" after))))
    (mark_and_fail "only-forward fallback readback did not match"
       "all-except failed and fallback readback could not be verified") in
  let! _ := set (λ c, set_needsReapply false (set_degraded true reason (set_metadata None (clear_policy
                        (set_active (p_id profile) interfaceName c))))) in
  let! _ := save_or_fail "only-forward fallback receipt could not be saved"
              "all-except failed and fallback receipt could not be saved" in
  failure (lit "routing_degraded")
    (lit "all-except routing failed; profile remains connected in only-forward mode: " ++ reason).

Definition fallbackToOnlyForward {E} (profile : Profile) (reason : text) : op E RoutingResult :=
  call (fallbackToOnlyForward_body profile reason).

(** ** Restoring a snapshot of the reconciler *)

Definition strings_or {A} (l : list json) (e : A) : op A (list text) :=
  match all_strings l with Some s => pure s | None => leave e end.

(** [Err] carries the error text, which may be empty. *)
Definition restoreRoutingSnapshot_body (snapshot : jobject) : op (result text ()) (result text ()) :=
  let mode := st_text "mode" snapshot in
  let interfaceName := st_text "interface" snapshot in
  let! routes := strings_or (st_array "routes" snapshot) (Err (lit "previous route receipt is malformed")) in
  let! bypassRoutes := strings_or (st_array "bypassRoutes" snapshot) (Err (lit "previous bypass receipt is malformed")) in
  let! critical := strings_or (st_array "criticalBypassRoutes" snapshot)
                     (Err (lit "previous critical bypass receipt is malformed")) in
  let! result :=
    (if text_eqb mode all_except then
       if is_empty interfaceName then leave (Err [])
       else route (router_applyAllExcept interfaceName bypassRoutes critical)
     else if text_eqb mode only_forward && negb (is_empty interfaceName) then route (router_apply interfaceName routes)
     else if text_eqb mode only_forward then route router_clear
     else leave (Err (lit "previous route receipt has an unsupported mode"))) in
  let! _ := (if rr_ok result then pure () else leave (Err (rr_message result))) in
  let! o := routing in
  let current := st_text "dnsInterface" o in
  let dnsInterface := st_text "dnsInterface" snapshot in
  let! dnsServers := strings_or (st_array "dnsServers" snapshot) (Err []) in
  let! dnsDomains := strings_or (st_array "dnsDomains" snapshot) (Err []) in
  let! dns :=
    (if is_empty dnsInterface then route (router_clearDns current)
     else if bool_decide (dnsServers = []) || bool_decide (dnsDomains = []) then route (router_clearDns dnsInterface)
     else route (router_configureDns dnsInterface dnsServers dnsDomains)) in
  pure (if rr_ok dns then Ok () else Err (rr_message dns)).

Definition restoreRoutingSnapshot {E} (snapshot : jobject) : op E (result text ()) :=
  call (restoreRoutingSnapshot_body snapshot).
End controller.
