(* ===== verification/RoutingConnect.v ===== *)
(** * The headless routing controller: connecting a profile

    Model of [fetchPolicy], [applyRoutes], [fetchAndApply], [connect],
    [refresh] and [disconnect] of HeadlessRoutingController in
    headless/headlessRoutingController.cpp. *)

From stdpp Require Import gmap.
From S2P Require Import Prelude Text Json QtInterface QtModel Command RoutePolicy PolicyLifecycle ServerRouting.
From S2P Require Import JsonText RouteGrammar RouteState ProfileStore PolicyEndpoint RoutingController.
#[local] Open Scope Z_scope.
#[local] Open Scope amnezia_scope.

(** ** The policy request *)

(** [consumeReadyData]: [None] once the data is too large. *)
Definition consume (data : option text) (chunk : text) : option text :=
  match data with
  | None => None
  | Some d =>
      if is_empty chunk then Some d
      else if tsize d >? MaximumPolicyBytes - tsize chunk then None else Some (d ++ chunk)
  end.

Definition initialData (r : Reply) : option text :=
  match rp_declaredLength r with
  | Some n => if n >? MaximumPolicyBytes then None else Some []
  | None => Some []
  end.

(** The data read until the loop ends. *)
Definition receivedData (r : Reply) : option text := foldl consume (initialData r) (rp_chunks r).

Section connect.
Context `{QtText} `{QtNet} `{QtTime} `{QtData} `{QtJsonText} `{QtFiles}.
Context {R : Type} `{Router R} `{ControllerHost R}.
Context (m_statePath : text).

Notation op E A := (prog (CWorld R) E A).
Notation RR := RouteReconcileResult.
Notation saveState := (saveState m_statePath).
Notation markRecoveryRequired := (markRecoveryRequired m_statePath).
Notation save_or_fail := (save_or_fail m_statePath).
Notation mark_and_fail := (mark_and_fail m_statePath).
Notation fallbackToOnlyForward := (fallbackToOnlyForward m_statePath).
Notation failure := RoutingController.failure.

(** An aborted request counts as finished. *)
Definition replyPolicy (r : Reply) (current : option ManagedRoutePolicyMetadata) (url : text) (clock : Z) :
    result (text * text) ServerRoutingPolicySnapshot :=
  let aborted := negb (bool_decide (is_Some (receivedData r))) in
  if negb aborted && negb (rp_finished r) then
    Err (lit "policy_timeout", lit "server routing policy request timed out") else
  match consume (receivedData r) (rp_rest r) with
  | None => Err (lit "policy_too_large", lit "server routing policy exceeds the byte limit")
  | Some data =>
      if negb (is_empty (rp_error r)) then
        Err (lit "policy_unreachable", lit "server routing policy request failed") else
      if (rp_status r <? 200) || (rp_status r >=? 300) then
        Err (lit "policy_http_error", lit "server routing policy returned an unexpected HTTP status") else
      parse data current url clock
  end.

Definition fetchPolicy {E} (profile : Profile) (current : option ManagedRoutePolicyMetadata) :
    op E (result (text * text) ServerRoutingPolicySnapshot) :=
  let! reply := route (ctl_fetch (p_serverRulesUrl profile)) in
  let! clock := gets (λ w, ctl_now (cw_router w)) in
  pure (replyPolicy reply current (p_serverRulesUrl profile) clock).

(** ** Installing the routes of a profile *)

(** The bypass routes with the world as it is now. *)
Definition bypassRoutesNow {E} (profile : Profile) (serverRoutes : list text) : op E (list text * bool * list text) :=
  gets (λ w, allExceptBypassRoutes (ctl_resolve (cw_router w)) (ctl_config (cw_router w)) profile serverRoutes).

Definition leave_fail {A} (code message : text) : op RoutingResult A :=
  let! r := failure code message in leave r.
Definition leave_failure {A} (code message : string) : op RoutingResult A := leave_fail (lit code) (lit message).

Definition underlayRoutes (profile : Profile) (interfaceName : text) : op RoutingResult (list text) :=
  let! found := route (router_underlay interfaceName (p_forwardRoutes profile)) in
  match found with
  | Ok routes => pure routes
  | Err e => if is_empty e then pure [] else leave_fail (lit "full_tunnel_underlay_probe_failed") e
  end.

(** The offline receipt can be reconnected. *)
Definition offlineReceipt (o : jobject) (interfaceName : text) : bool :=
  text_eqb (st_text "mode" o) all_except && text_eqb (st_text "interface" o) interfaceName
  && bool_decide (st_array "routes" o = []) && st_bool "needsReapply" o && st_bool "interfaceOffline" o
  && (st_int "routeTable" o =? 51821).

(** The target of a reconnect: what the receipt retains, and the endpoints and
    underlay routes found now, at the end. *)
Definition offlineTarget (profile : Profile) (interfaceName : text) (previous : jobject) :
    op RoutingResult (list text * list text) :=
  let! _ := cmd_when (negb (offlineReceipt previous interfaceName))
    (leave_failure "offline_lkg_invalid" "offline all-except receipt is not reconnectable") in
  let! routes := match all_strings (st_array "bypassRoutes" previous) with
                 | Some l => pure l
                 | None => leave_failure "offline_lkg_invalid" "offline all-except bypass receipt is malformed"
                 end in
  let! critical := match all_strings (st_array "criticalBypassRoutes" previous) with
                   | Some l => pure l
                   | None => leave_failure "offline_lkg_invalid" "offline all-except critical receipt is malformed"
                   end in
  let '(boundedLkg, lkgValid) := validatedManagedRoutes routes in
  let '(boundedCritical, criticalValid) := validatedManagedRoutes critical in
  let! _ := cmd_when (negb lkgValid || negb (length boundedLkg =? length routes)%nat || negb criticalValid
                      || negb (length boundedCritical =? length critical)%nat
                      || negb (forallb (λ route, qcontains route routes) critical))
    (leave_failure "offline_lkg_invalid" "offline all-except receipt contains invalid routes") in
  let! (_, currentValid, currentCritical) := bypassRoutesNow profile [] in
  let! _ := cmd_when (negb currentValid)
    (leave_failure "invalid_routes" "full-tunnel endpoint bootstrap routes are invalid") in
  let! underlay := underlayRoutes profile interfaceName in
  let currentCritical := remove_duplicates (currentCritical ++ underlay) in
  let routes := foldl append_new routes currentCritical in
  let critical := foldl append_new critical currentCritical in
  pure (routes, remove_duplicates (critical ++ underlay)).

(** The target of a connection: the critical routes and the underlay first, then
    the other bypass routes. *)
Definition onlineTarget (profile : Profile) (interfaceName : text) (serverRoutes : list text) :
    op RoutingResult (list text * list text) :=
  let! (routes, routesValid, critical) := bypassRoutesNow profile serverRoutes in
  let! _ := cmd_when (negb routesValid)
    (leave_failure "invalid_routes" "full-tunnel bypass routes exceed the safety boundary") in
  let! underlay := underlayRoutes profile interfaceName in
  pure (foldl append_new (critical ++ underlay) routes, remove_duplicates (critical ++ underlay)).

Definition installAllExcept (profile : Profile) (interfaceName : text) (serverRoutes : list text)
    (preserveOfflineLkg : bool) (previous : jobject) : op RoutingResult RR :=
  let! (ordered, critical) :=
    (if preserveOfflineLkg then offlineTarget profile interfaceName previous
     else onlineTarget profile interfaceName serverRoutes) in
  let '(ordered, orderedValid) := validatedManagedRoutes ordered in
  let! _ := cmd_when (negb orderedValid)
    (leave_failure "invalid_routes" "full-tunnel underlay routes exceed the safety boundary") in
  route (router_applyAllExcept interfaceName ordered critical).

(** Puts the previous routes and resolver binding back after DNS failed. *)
Definition restorePrevious {E} (previous : jobject) : op E bool :=
  let oldBypass := only_strings (st_array "bypassRoutes" previous) in
  let oldRoutes := only_strings (st_array "routes" previous) in
  let oldCritical := only_strings (st_array "criticalBypassRoutes" previous) in
  let! routeRestore :=
    (if text_eqb (st_text "mode" previous) all_except
     then route (router_applyAllExcept (st_text "interface" previous) oldBypass oldCritical)
     else if negb (bool_decide (oldRoutes = [])) then route (router_apply (st_text "interface" previous) oldRoutes)
     else route router_clear) in
  let oldServers := only_strings (st_array "dnsServers" previous) in
  let oldDomains := only_strings (st_array "dnsDomains" previous) in
  let oldDnsInterface := st_text "dnsInterface" previous in
  let! o := routing in
  let currentDnsInterface := st_text "dnsInterface" o in
  let! dnsRestore :=
    (if bool_decide (oldServers = []) || bool_decide (oldDomains = [])
     then route (router_clearDns (if is_empty oldDnsInterface then currentDnsInterface else oldDnsInterface))
     else route (router_configureDns oldDnsInterface oldServers oldDomains)) in
  pure (rr_ok routeRestore && rr_ok dnsRestore).

Definition applyRoutes_body (profile : Profile) (serverRoutes : list text) (preserveOfflineLkg : bool) :
    op RoutingResult RoutingResult :=
  let allExcept := text_eqb (p_routingMode profile) all_except in
  let '(routes, routesValid) := mergeRoutes (p_forwardRoutes profile) serverRoutes in
  let! _ := cmd_when (negb routesValid)
    (leave_failure "invalid_routes" "profile and server managed routes exceed the safety boundary") in
  let interfaceName := defaultInterfaceFor profile in
  let! previous := routing in
  let! result :=
    (if allExcept then installAllExcept profile interfaceName serverRoutes preserveOfflineLkg previous
     else route (router_apply interfaceName routes)) in
  if negb (rr_ok result) then
    if allExcept && text_eqb (rr_code result) (lit "full_tunnel_postcondition_failed")
    then fallbackToOnlyForward profile (rr_message result)
    else failure (rr_code result) (rr_message result)
  else
  let! dns := bindDns profile interfaceName (st_text "dnsInterface" previous) in
  if negb (rr_ok dns) then
    let! restored := restorePrevious previous in
    if negb restored then
      mark_and_fail "DNS refresh failed and previous route/DNS state could not be restored"
        "DNS refresh failed and the previous route/DNS receipt could not be restored"
    else failure (rr_code dns) (rr_message dns)
  else
  let! _ := set (λ c, set_needsReapply false (set_degraded false [] (set_active (p_id profile) interfaceName c))) in
  let! _ := save_or_fail "routing controller receipt could not be saved"
              "routing controller receipt could not be saved" in
  pure routed.

Definition applyRoutes {E} (profile : Profile) (serverRoutes : list text) (preserveOfflineLkg : bool) :
    op E RoutingResult := call (applyRoutes_body profile serverRoutes preserveOfflineLkg).

(** ** Fetching the policy and applying it *)

(** The members [restoreBootstrap] puts back. *)
Definition restore_members (previous c : Controller) : Controller :=
  set_needsReapply (c_needsReapply previous)
    (set_metadata (c_policyMetadata previous)
       (set_policy (c_policyRevision previous) (c_policyContentHash previous) (c_policySource previous)
          (c_policyEndpoint previous) (c_policyResolvedSites previous) (c_hasPolicy previous)
          (set_active (c_activeProfile previous) (c_activeInterface previous) c))).

Definition restoreBootstrap {E} (persisted : jobject) (previous : Controller) : op E bool :=
  let! restored := restoreRoutingSnapshot persisted in
  let! _ := set (restore_members previous) in
  let! kept := (if is_ok restored then saveState else pure false) in
  if kept then pure true else
  let message := match restored with Err e => e | Ok _ => [] end in
  let! marked := markRecoveryRequired (if is_empty message then lit "policy bootstrap rollback failed" else message) in
  let! _ := cmd_when (negb marked)
              (set (set_ctlError (lit "policy bootstrap rollback and durable recovery marker failed"))) in
  pure false.

Definition failAllExcept {E} (profile : Profile) (reason : text) : op E RoutingResult :=
  let! o := routing in
  if text_eqb (p_routingMode profile) all_except && negb (st_bool "recoveryRequired" o)
  then fallbackToOnlyForward profile reason
  else failure recovery_required reason.

(** A policy that cannot be used: the fallback of a full tunnel, or the state
    before the bootstrap. *)
Definition abandonPolicy (profile : Profile) (bootstrapped : bool) (persisted : jobject) (previous : Controller)
    (code reason : text) (lost : string) : op RoutingResult RoutingResult :=
  if text_eqb (p_routingMode profile) all_except then failAllExcept profile reason else
  let! kept := (if bootstrapped then restoreBootstrap persisted previous else pure true) in
  if kept then failure code reason else fail "recovery_required" lost.

(** A failure code that leaves the decision to the caller. *)
Definition recoverable (code : text) : bool :=
  negb (text_eqb code recovery_required) && negb (text_eqb code (lit "routing_degraded")).

Definition bootstrapRoutes (profile : Profile) (persisted : jobject) (previous : Controller) :
    op RoutingResult () :=
  let reconnecting := c_needsReapply previous in
  let allExcept := text_eqb (p_routingMode profile) all_except in
  let! bootstrap := applyRoutes profile [] (reconnecting && allExcept) in
  if negb (rt_ok bootstrap) then
    if allExcept && recoverable (rt_code bootstrap) then
      let! r := failAllExcept profile (rt_message bootstrap) in leave r
    else
    let! kept := restoreBootstrap persisted previous in
    if kept then leave bootstrap else
    leave_failure "recovery_required" "policy bootstrap failed and previous state could not be restored"
  else if reconnecting then
    let! _ := set (set_needsReapply true) in
    save_or_fail "offline routing reapply marker could not be retained"
      "offline routing reapply state could not be saved"
  else pure ().

(** The policy becomes the one the receipt names. *)
Definition adopt_policy (profile : Profile) (policy : ServerRoutingPolicySnapshot) (c : Controller) : Controller :=
  let m := ServerRouting.metadata policy in
  set_metadata (Some (Metadata (schemaVersion m) (revision m) (revisionNumber m) (versioned m) (contentHash m)
                        (declaredContentHash m) (contentMatchesDeclaration m) (issuedAt m) (expiresAt m)
                        (acceptedAt m) (snapshotSource policy) (trustState m)))
    (set_policy (snapshotRevision policy) (snapshotContentHash policy) (snapshotSource policy)
       (p_serverRulesUrl profile) (resolvedSites policy) true c).

Definition applyPolicy (profile : Profile) (bootstrapped : bool) (persisted : jobject) (previous : Controller)
    (policy : ServerRoutingPolicySnapshot) : op RoutingResult RoutingResult :=
  let! applied := applyRoutes profile (ServerRouting.routes policy) false in
  if negb (rt_ok applied) then
    if text_eqb (p_routingMode profile) all_except && recoverable (rt_code applied)
    then failAllExcept profile (rt_message applied) else
    if text_eqb (rt_code applied) (lit "routing_degraded") then pure applied else
    let! kept := (if bootstrapped then restoreBootstrap persisted previous else pure true) in
    if kept then pure applied
    else fail "recovery_required" "policy apply failed and bootstrap state could not be restored"
  else
  let! _ := set (adopt_policy profile policy) in
  let! _ := save_or_fail "routing policy receipt could not be saved" "routing policy receipt could not be saved" in
  pure applied.

Definition fetchPolicyAndApply (profile : Profile) (interfaceName : text) : op RoutingResult RoutingResult :=
  let! persisted := routing in
  let! previous := ctl in
  let sameRouting := text_eqb (st_text "mode" persisted) (p_routingMode profile)
                     && text_eqb (st_text "interface" persisted) interfaceName in
  let bootstrapRequired := c_needsReapply previous || negb (text_eqb (c_activeProfile previous) (p_id profile))
                           || negb sameRouting in
  let! _ := cmd_when bootstrapRequired (bootstrapRoutes profile persisted previous) in
  let! c := ctl in
  let current := c_policyMetadata c in
  let abandon := abandonPolicy profile bootstrapRequired persisted previous in
  match isSafePolicyEndpoint profile (p_serverRulesUrl profile) with
  | Err e => abandon (lit "policy_transport_invalid") e
               "policy endpoint was rejected and bootstrap state could not be restored"%string
  | Ok _ =>
      let! fetched := fetchPolicy profile current in
      match fetched with
      | Err (code, message) =>
          abandon code message "policy fetch failed and bootstrap state could not be restored"%string
      | Ok policy =>
          let! c := ctl in
          let previousSites := if text_eqb (c_policyEndpoint c) (p_serverRulesUrl profile)
                               then c_policyResolvedSites c else [] in
          let! resolved := gets (λ w, resolve (ctl_elapsed (cw_router w)) (ctl_lookup (cw_router w)) policy 4000
                                        previousSites) in
          match resolved with
          | Err (code, message) =>
              abandon code message "policy resolution failed and bootstrap state could not be restored"%string
          | Ok policy => applyPolicy profile bootstrapRequired persisted previous policy
          end
      end
  end.

Definition fetchAndApply_body (profile : Profile) : op RoutingResult RoutingResult :=
  let interfaceName := defaultInterfaceFor profile in
  let! _ := cmd_when (is_empty interfaceName)
    (leave_failure "invalid_interface" "a VPN interface is required for managed routes") in
  if negb (is_empty (p_serverRulesUrl profile)) then fetchPolicyAndApply profile interfaceName else
  let! applied := applyRoutes profile [] false in
  if rt_ok applied then
    let! _ := set (λ c, set_metadata None (clear_policy c)) in
    let! _ := save_or_fail "routing controller receipt could not be saved"
                "routing controller receipt could not be saved" in
    pure applied
  else pure applied.

Definition fetchAndApply {E} (profile : Profile) : op E RoutingResult := call (fetchAndApply_body profile).

(** ** Operations *)

Definition invalidState {A} : op RoutingResult A :=
  leave_failure "recovery_required" "routing controller state is invalid; manual recovery is required".

Definition invalidRoutes {A} : op RoutingResult A :=
  leave_failure "recovery_required" "managed route state is invalid; manual route recovery is required".

Definition guard_state : op RoutingResult () :=
  let! c := ctl in cmd_when (negb (c_initialized c) || negb (c_stateValid c)) invalidState.

Definition guard_routing : op RoutingResult () :=
  let! o := routing in cmd_when (st_bool "recoveryRequired" o) invalidRoutes.

(** A profile without managed routes: only its resolver binding is managed. *)
Definition connectWithoutRoutes (profile : Profile) : op RoutingResult RoutingResult :=
  let! _ := guard_routing in
  let dnsInterface := defaultInterfaceFor profile in
  let! o := routing in
  let managed := negb (bool_decide (p_dnsServers profile = [])) || negb (bool_decide (p_dnsDomains profile = [])) in
  let! _ := cmd_when (managed && is_empty dnsInterface)
    (leave_failure "invalid_interface" "a VPN interface is required for managed DNS") in
  let! dns := bindDns profile dnsInterface (st_text "dnsInterface" o) in
  let! _ := cmd_when (negb (rr_ok dns)) (leave_fail (rr_code dns) (rr_message dns)) in
  let! o := routing in
  let active := if text_eqb (p_routingMode profile) all_except then st_text "interface" o else [] in
  let! _ := set (λ c, set_needsReapply false (set_degraded false [] (clear_policy (set_active (p_id profile) active c)))) in
  let! _ := save_or_fail "routing controller receipt could not be saved"
              "routing controller receipt could not be saved" in
  pure routed.

Definition connect_body (profile : Profile) : op RoutingResult RoutingResult :=
  let! _ := set (set_ctlError []) in
  let! _ := guard_state in
  let! _ := guard_routing in
  let allExcept := text_eqb (p_routingMode profile) all_except in
  let protocol := q_toLower (trimmed (p_protocol profile)) in
  let! _ := cmd_when (allExcept && (text_eqb protocol (lit "xray") || text_eqb protocol (lit "ssxray")))
    (leave_failure "routing_mode_unsupported"
       "all-except requires a native VPN interface; XRay proxy mode is not a full tunnel") in
  let! endpoints := gets (λ w, endpointHostsFromConfig (ctl_config (cw_router w)) profile) in
  let! _ := cmd_when (allExcept && existsb (λ e, isV6 (host_parse (unbracketed e))) endpoints)
    (leave_failure "ipv6_endpoint_unsupported" "all-except currently requires an IPv4 VPN endpoint") in
  let! _ := cmd_when (allExcept && is_empty (p_serverRulesUrl profile))
    (leave_failure "server_policy_required" "all-except requires a server routing policy URL") in
  if negb allExcept && is_empty (p_serverRulesUrl profile) && bool_decide (p_forwardRoutes profile = [])
  then connectWithoutRoutes profile
  else fetchAndApply profile.

Definition refresh_body (profile : Profile) : op RoutingResult RoutingResult :=
  let! _ := guard_state in
  let! c := ctl in
  let! _ := cmd_when (negb (text_eqb (c_activeProfile c) (p_id profile)))
    (leave_failure "profile_not_active" "cannot refresh routes for an inactive profile") in
  fetchAndApply profile.

Definition disconnect_body : op RoutingResult RoutingResult :=
  let! _ := guard_state in
  let! o := routing in
  let! _ := cmd_when (st_bool "recoveryRequired" o)
    (leave_failure "recovery_required" "managed route receipt is invalid; refusing cleanup mutation") in
  let! dns := route (router_clearDns (st_text "dnsInterface" o)) in
  let! _ := cmd_when (negb (rr_ok dns)) (leave_fail (rr_code dns) (lit "route and DNS cleanup did not complete")) in
  let! cleared := route router_clear in
  let! _ := cmd_when (negb (rr_ok cleared)) (leave_fail (rr_code cleared) (lit "route cleanup did not complete")) in
  let! _ := set (λ c, set_needsReapply false (set_degraded false [] (set_metadata None (clear_policy
                        (set_active [] [] c))))) in
  let! _ := save_or_fail "routing controller state could not be cleared"
              "routing controller state could not be cleared" in
  pure routed.

Inductive ControllerCmd := CConnect (p : Profile) | CRefresh (p : Profile) | CDisconnect.

Definition cmd_body (c : ControllerCmd) : op RoutingResult RoutingResult :=
  match c with
  | CConnect p => connect_body p
  | CRefresh p => refresh_body p
  | CDisconnect => disconnect_body
  end.

Definition run_ctl (c : ControllerCmd) (w : CWorld R) : RoutingResult * CWorld R := returns (cmd_body c) w.
End connect.
