(* ===== verification/ControllerSafety.v ===== *)
(** * The headless routing controller: safety

    What the commands of HeadlessRoutingController guarantee whatever the
    reconciler, the network and the file system answer: the receipt on disk is
    the state in memory, and a state that needs recovery is left alone. *)

From stdpp Require Import gmap.
From S2P Require Import Prelude Text Json QtInterface QtModel Command RoutePolicy PolicyLifecycle ServerRouting.
From S2P Require Import JsonText RouteGrammar RouteState ProfileStore PolicyEndpoint RoutingController RoutingConnect.
#[local] Open Scope Z_scope.

(** ** The receipt on disk *)

Section receipt.
Context {QT : QtText} {QN : QtNet} {QM : QtTime} {QD : QtData} {QJ : QtJsonText} {QF : QtFiles}.
Context {R : Type} {RT : Router R} {CH : ControllerHost R}.
Context (m_statePath : text) (Hpath : m_statePath ≠ []).
Implicit Types (w : CWorld R) (c : Controller).

(** The file holds the receipt of the state; before the first save there is
    none, and nothing to record. *)
Definition recorded c (p : Path) : Prop :=
  p = Regular (json_compact (controllerReceipt c))
  ∨ (p = Absent ∧ controllerReceipt c = controllerReceipt freshController).

(** A state that needs recovery is not to be trusted, whatever the file says. *)
Definition synced w : Prop := c_stateValid (cw_state w) = true → recorded (cw_state w) (cw_receipt w).

Notation saves m := (hoare (λ _, True) m (λ _, synced) (λ _, synced)).

Lemma k_route {E A} (m : R → A * R) : keeps synced (route (E := E) m).
Proof. intros w Hw. unfold route. by destruct (m (cw_router w)). Qed.

Lemma k_file {E} o : keeps synced (file (E := E) o).
Proof. intros w Hw. unfold file. by destruct (ctl_io o (cw_router w)). Qed.

Lemma controller_failure_keeps {E} code message : keeps synced (RoutingController.failure (R := R) (E := E) code message).
Proof. intros w Hw. exact Hw. Qed.

Lemma k_error {E} e : keeps synced (set (R := R) (E := E) (set_ctlError e)).
Proof. intros w Hw. exact Hw. Qed.

Lemma k_marker {E} p : keeps synced (set_ctlMarker (R := R) (E := E) p).
Proof. intros w Hw. exact Hw. Qed.

Lemma path_filled : is_empty m_statePath = false.
Proof. by destruct m_statePath. Qed.

(** After a successful save the file is current, whatever the state was. *)
Lemma saveState_spec {E} X :
  hoare (λ _, True) (saveState (E := E) m_statePath)
    (λ b w, b = true → cw_receipt w = Regular (json_compact (controllerReceipt (cw_state w)))) X.
Proof.
  intros w _. unfold saveState. rewrite path_filled. unfold cmd_bind, file, ctl, gets, cmd_get, cmd_when, set_ctlReceipt,
    set_ctlMarker, cmd_modify, pure, cmd_ret. destruct (ctl_io WriteReceipt (cw_router w)) as [[] r]; [|done].
  cbn [cw_state cw_router cw_receipt andb]. destruct (c_stateValid (cw_state w)); cbn [cw_router]; [|by intros _].
  destruct (ctl_io DeleteMarker r) as [[] r']; by intros _.
Qed.

Lemma markRecoveryRequired_invalid {E} message X :
  hoare (λ _, True) (markRecoveryRequired (E := E) m_statePath message)
    (λ _ w, c_stateValid (cw_state w) = false) X.
Proof.
  intros w _. unfold markRecoveryRequired, saveState. rewrite path_filled. unfold cmd_bind, set, file, route, ctl, gets,
    cmd_get, cmd_when, set_ctlReceipt, set_ctlMarker, cmd_modify, pure, cmd_ret. cbn [cw_router].
  destruct (router_requireRecovery message (cw_router w)) as [marked r].
  cbn [cw_router]. destruct (ctl_io WriteReceipt r) as [[] r1], marked;
    cbn [andb cw_state cw_router c_stateValid set_valid set_ctlError]; try done;
    destruct (ctl_io WriteMarker r1) as [[] r2]; done.
Qed.

Lemma markRecoveryRequired_syncs {E} message : saves (markRecoveryRequired (E := E) m_statePath message).
Proof.
  eapply h_conseq; [apply (markRecoveryRequired_invalid message (λ _ _, False))|done| |done].
  intros b w Hv Ht. congruence.
Qed.

Lemma save_or_fail_syncs mark message : saves (save_or_fail m_statePath mark message).
Proof.
  unfold save_or_fail. eapply h_bind; [apply saveState_spec|]. intros [].
  - apply h_ret. intros w Hw _. left. by apply Hw.
  - cbn [negb leave_if]. eapply (h_bind _ _ _ (λ _, synced)); [|intros r; by apply h_leave].
    eapply h_bind; [eapply h_pre; [|apply markRecoveryRequired_syncs]; done|]. intros b. apply controller_failure_keeps.
Qed.

Lemma saves_keeps {E A} (m : prog (CWorld R) E A) : saves m → keeps synced m.
Proof. intros Hm. eapply h_pre; [|exact Hm]. done. Qed.

Lemma sync_bind {E A B} (m : prog (CWorld R) E A) (k : A → prog (CWorld R) E B) :
  saves m → (∀ a, keeps synced (k a)) → saves (cmd_bind m k).
Proof. intros Hm Hk. eapply h_bind; [exact Hm|]. exact Hk. Qed.

(** Any update of the state that is saved at once. *)
Lemma set_then {E B} f (k : () → prog (CWorld R) E B) : (∀ u, saves (k u)) → keeps synced (cmd_bind (set f) k).
Proof. intros Hk. eapply (h_bind _ _ _ (λ _ _, True)); [by intros w Hw|]. exact Hk. Qed.
End receipt.

Create HintDb synced discriminated.
#[export] Hint Resolve k_ret k_pure k_leave k_gets k_route k_file controller_failure_keeps k_error k_marker : synced.
#[export] Hint Resolve save_or_fail_syncs markRecoveryRequired_syncs : synced.
#[export] Hint Opaque keeps hoare : synced.

(** Goes through a command; an update of the state has to be saved at once. *)
Ltac sync_step :=
  lazymatch goal with
  | |- keeps _ (cmd_bind (set (set_ctlError _)) _) => apply k_bind; [apply k_error|intros ?]
  | |- keeps _ (cmd_bind (set _) _) => apply set_then; intros ?
  | |- keeps _ (cmd_bind _ _) => apply k_bind; [|intros ?]
  | |- keeps _ (cmd_when _ _) => apply k_when
  | |- keeps _ (leave_if _ _) => apply k_leave_if
  | |- keeps _ (call _) => apply k_call
  | |- keeps _ (if ?b then _ else _) => destruct b
  | |- keeps _ (match ?x with _ => _ end) => destruct x
  | |- hoare (λ _, True) (cmd_bind (save_or_fail _ _ _) _) _ _ =>
      apply sync_bind; [by apply save_or_fail_syncs|intros ?]
  | |- hoare (λ _, True) (save_or_fail _ _ _) _ _ => by apply save_or_fail_syncs
  | |- keeps _ (save_or_fail _ _ _) => apply saves_keeps; by apply save_or_fail_syncs
  | |- keeps _ (markRecoveryRequired _ _) => apply saves_keeps; by apply markRecoveryRequired_syncs
  | _ => solve [auto 2 with synced nocore]
  end.
Ltac sync := repeat (cbv zeta beta; sync_step).

Section commands.
Context {QT : QtText} {QN : QtNet} {QM : QtTime} {QD : QtData} {QJ : QtJsonText} {QF : QtFiles}.
Context {R : Type} {RT : Router R} {CH : ControllerHost R}.
Context (m_statePath : text) (Hpath : m_statePath ≠ []).

Lemma k_mark_and_fail {A} mark message : keeps synced (mark_and_fail (R := R) (A := A) m_statePath mark message).
Proof. unfold mark_and_fail, fail. sync. Qed.
#[local] Hint Resolve k_mark_and_fail : synced.

Lemma k_leave_fail {A} code message : keeps synced (leave_fail (R := R) (A := A) code message).
Proof. unfold leave_fail. sync. Qed.
#[local] Hint Resolve k_leave_fail : synced.

Lemma k_bindDns {E} p i c : keeps synced (bindDns (R := R) (E := E) p i c).
Proof. unfold bindDns. sync. Qed.
#[local] Hint Resolve k_bindDns : synced.

Lemma k_fallback {E} p reason : keeps synced (fallbackToOnlyForward (R := R) (E := E) m_statePath p reason).
Proof.
  unfold fallbackToOnlyForward, fallbackToOnlyForward_body, routing.
  sync.
Qed.
#[local] Hint Resolve k_fallback : synced.

Lemma k_strings {A} l (e : A) : keeps synced (strings_or (R := R) l e).
Proof. unfold strings_or. sync. Qed.
#[local] Hint Resolve k_strings : synced.

Lemma k_snapshot {E} o : keeps synced (restoreRoutingSnapshot (R := R) (E := E) o).
Proof. unfold restoreRoutingSnapshot, restoreRoutingSnapshot_body, routing. sync. Qed.
#[local] Hint Resolve k_snapshot : synced.

Lemma previous_restore_keeps {E} o : keeps synced (restorePrevious (R := R) (E := E) o).
Proof. unfold restorePrevious, routing. sync. Qed.
#[local] Hint Resolve previous_restore_keeps : synced.

Lemma k_underlay p i : keeps synced (underlayRoutes (R := R) p i).
Proof. unfold underlayRoutes. sync. Qed.
#[local] Hint Resolve k_underlay : synced.

Lemma k_install p i routes b o : keeps synced (installAllExcept (R := R) p i routes b o).
Proof.
  unfold installAllExcept, offlineTarget, onlineTarget, bypassRoutesNow, leave_failure.
  sync.
Qed.
#[local] Hint Resolve k_install : synced.

Lemma k_applyRoutes {E} p routes b : keeps synced (applyRoutes (R := R) (E := E) m_statePath p routes b).
Proof.
  unfold applyRoutes, applyRoutes_body, leave_failure, routing.
  sync.
Qed.
#[local] Hint Resolve k_applyRoutes : synced.

Lemma k_restoreBootstrap {E} o previous : keeps synced (restoreBootstrap (R := R) (E := E) m_statePath o previous).
Proof.
  unfold restoreBootstrap. apply k_bind; [apply k_snapshot|]. intros restored. apply set_then. intros [].
  eapply (h_bind _ _ _ (λ b w, b = true → recorded (cw_state w) (cw_receipt w))).
  - destruct (is_ok restored); [|by apply h_ret]. eapply h_conseq; [apply (saveState_spec m_statePath Hpath (λ _ _, False))|done| |done].
    intros b w Hb Ht. left. auto.
  - intros []; [by apply h_ret; intros w Hw _; apply Hw|]. apply (h_pre (λ _, True)); [done|].
    apply sync_bind; [by apply markRecoveryRequired_syncs|]. intros marked. sync.
Qed.
#[local] Hint Resolve k_restoreBootstrap : synced.

Lemma k_failAllExcept {E} p reason : keeps synced (failAllExcept (R := R) (E := E) m_statePath p reason).
Proof. unfold failAllExcept, routing. sync. Qed.
#[local] Hint Resolve k_failAllExcept : synced.

Lemma k_abandon p b o previous code reason lost :
  keeps synced (abandonPolicy (R := R) m_statePath p b o previous code reason lost).
Proof. unfold abandonPolicy, fail. sync. Qed.
#[local] Hint Resolve k_abandon : synced.

Lemma k_bootstrap p o previous : keeps synced (bootstrapRoutes (R := R) m_statePath p o previous).
Proof.
  unfold bootstrapRoutes, leave_failure.
  sync.
Qed.
#[local] Hint Resolve k_bootstrap : synced.

Lemma k_applyPolicy p b o previous policy : keeps synced (applyPolicy (R := R) m_statePath p b o previous policy).
Proof.
  unfold applyPolicy, fail. sync.
Qed.
#[local] Hint Resolve k_applyPolicy : synced.

Lemma k_fetchAndApply {E} p : keeps synced (fetchAndApply (R := R) (E := E) m_statePath p).
Proof.
  unfold fetchAndApply, fetchAndApply_body, fetchPolicyAndApply, fetchPolicy, leave_failure, ctl, routing.

  sync.
Qed.
#[local] Hint Resolve k_fetchAndApply : synced.

Lemma k_command c : keeps synced (cmd_body (R := R) m_statePath c).
Proof.

  destruct c as [p|p|]; unfold cmd_body, connect_body, refresh_body, disconnect_body, connectWithoutRoutes,
    guard_state, guard_routing, invalidState, invalidRoutes, leave_failure, ctl, routing; sync.
Qed.
End commands.

(** ** The stored policy *)

Notation policy_fields := (text * text * text * text * jobject * bool * option ManagedRoutePolicyMetadata)%type.

Definition policy_of (c : Controller) : policy_fields :=
  (c_policyRevision c, c_policyContentHash c, c_policySource c, c_policyEndpoint c, c_policyResolvedSites c,
   c_hasPolicy c, c_policyMetadata c).

Definition holds {R} (P : policy_fields → Prop) (w : CWorld R) : Prop := P (policy_of (cw_state w)).

(** No policy is in force. *)
Definition no_policy (f : policy_fields) : Prop := f.1.2 = false.

(** Steps that do not touch the policy. *)
Section neutral.
Context {QT : QtText} {QN : QtNet} {QM : QtTime} {QD : QtData} {QJ : QtJsonText} {QF : QtFiles}.
Context {R : Type} {RT : Router R} {CH : ControllerHost R}.
Context (m_statePath : text) (P : policy_fields → Prop).

Lemma p_route {E A} (m : R → A * R) : keeps (holds P) (route (E := E) m).
Proof. intros w Hw. unfold route. by destruct (m (cw_router w)). Qed.

Lemma p_file {E} o : keeps (holds P) (file (R := R) (E := E) o).
Proof. intros w Hw. unfold file. by destruct (ctl_io o (cw_router w)). Qed.

Lemma p_set {E} f : (∀ c, policy_of (f c) = policy_of c) → keeps (holds P) (set (R := R) (E := E) f).
Proof. intros Hf w Hw. unfold holds, set, cmd_modify. cbn [cw_state]. by rewrite Hf. Qed.

Lemma p_receipt {E} p : keeps (holds P) (set_ctlReceipt (R := R) (E := E) p).
Proof. intros w Hw. exact Hw. Qed.

Lemma p_marker {E} p : keeps (holds P) (set_ctlMarker (R := R) (E := E) p).
Proof. intros w Hw. exact Hw. Qed.
End neutral.

Create HintDb neutral discriminated.
#[export] Hint Resolve k_ret k_pure k_leave k_gets p_route p_file p_receipt p_marker : neutral.
#[export] Hint Opaque keeps hoare : neutral.

Ltac neutral_step :=
  lazymatch goal with
  | |- keeps _ (cmd_bind _ _) => apply k_bind; [|intros ?]
  | |- keeps _ (cmd_when _ _) => apply k_when
  | |- keeps _ (leave_if _ _) => apply k_leave_if
  | |- keeps _ (call _) => apply k_call
  | |- keeps _ (set _) => apply p_set; reflexivity
  | |- keeps _ (if ?b then _ else _) => destruct b
  | |- keeps _ (match ?x with _ => _ end) => destruct x
  | _ => solve [auto 2 with neutral nocore]
  end.
Ltac neutral := repeat (cbv zeta beta; neutral_step).

Section neutral_steps.
Context {QT : QtText} {QN : QtNet} {QM : QtTime} {QD : QtData} {QJ : QtJsonText} {QF : QtFiles}.
Context {R : Type} {RT : Router R} {CH : ControllerHost R}.
Context (m_statePath : text) (P : policy_fields → Prop).

Lemma p_failure {E} code message : keeps (holds P) (RoutingController.failure (R := R) (E := E) code message).
Proof. unfold RoutingController.failure. neutral. Qed.

Lemma p_save {E} : keeps (holds P) (saveState (R := R) (E := E) m_statePath).
Proof. unfold saveState, ctl. neutral. Qed.

Lemma p_mark {E} message : keeps (holds P) (markRecoveryRequired (R := R) (E := E) m_statePath message).
Proof. unfold markRecoveryRequired. pose proof @p_save. neutral. Qed.
End neutral_steps.
#[export] Hint Resolve p_failure p_save p_mark : neutral.

Section neutral_commands.
Context {QT : QtText} {QN : QtNet} {QM : QtTime} {QD : QtData} {QJ : QtJsonText} {QF : QtFiles}.
Context {R : Type} {RT : Router R} {CH : ControllerHost R}.
Context (m_statePath : text) (P : policy_fields → Prop).

Lemma p_save_or_fail mark message : keeps (holds P) (save_or_fail (R := R) m_statePath mark message).
Proof. unfold save_or_fail, fail. neutral. Qed.

Lemma p_mark_and_fail {A} mark message : keeps (holds P) (mark_and_fail (R := R) (A := A) m_statePath mark message).
Proof. unfold mark_and_fail, fail. neutral. Qed.

Lemma p_leave_fail {A} code message : keeps (holds P) (leave_fail (R := R) (A := A) code message).
Proof. unfold leave_fail. neutral. Qed.

Lemma p_bindDns {E} p i c : keeps (holds P) (bindDns (R := R) (E := E) p i c).
Proof. unfold bindDns. neutral. Qed.

Lemma p_snapshot {E} o : keeps (holds P) (restoreRoutingSnapshot (R := R) (E := E) o).
Proof. unfold restoreRoutingSnapshot, restoreRoutingSnapshot_body, routing, strings_or. neutral. Qed.

Lemma p_restorePrevious {E} o : keeps (holds P) (restorePrevious (R := R) (E := E) o).
Proof. unfold restorePrevious, routing. neutral. Qed.

Lemma p_underlay p i : keeps (holds P) (underlayRoutes (R := R) p i).
Proof. unfold underlayRoutes. pose proof @p_leave_fail. neutral. Qed.
End neutral_commands.
#[export] Hint Resolve p_save_or_fail p_mark_and_fail p_leave_fail p_bindDns p_snapshot p_restorePrevious p_underlay
  : neutral.

(** ** Early exits are failures *)

Section early.
Context {QT : QtText} {QN : QtNet} {QM : QtTime} {QD : QtData} {QJ : QtJsonText} {QF : QtFiles}.
Context {R : Type} {RT : Router R} {CH : ControllerHost R}.
Context (m_statePath : text).

Definition fails_early {A} (m : prog (CWorld R) RoutingResult A) : Prop :=
  hoare (λ _, True) m (λ _ _, True) (λ r _, rt_ok r = false).

Lemma e_bind {A B} (m : prog (CWorld R) RoutingResult A) (k : A → prog (CWorld R) RoutingResult B) :
  fails_early m → (∀ a, fails_early (k a)) → fails_early (cmd_bind m k).
Proof. intros Hm Hk. eapply h_bind; [exact Hm|]. exact Hk. Qed.

Lemma e_total {A} (m : prog (CWorld R) RoutingResult A) : total m → fails_early m.
Proof.
  intros Ht w _. destruct (Ht w) as [a Ha]. destruct (m w) as [[b|e] w']; [done|]. simplify_eq/=.
Qed.

Lemma e_when b (m : prog (CWorld R) RoutingResult ()) : fails_early m → fails_early (cmd_when b m).
Proof. intros Hm. destruct b; [done|]. by intros w _. Qed.

Lemma t_route {E A} (m : R → A * R) : total (route (E := E) m).
Proof. intros w. unfold route. destruct (m (cw_router w)) as [a r]. by exists a. Qed.

Lemma t_file {E} o : total (file (R := R) (E := E) o).
Proof. intros w. unfold file. destruct (ctl_io o (cw_router w)) as [b r]. by exists b. Qed.
#[local] Hint Resolve t_route t_file : total.

Lemma t_save {E} : total (saveState (R := R) (E := E) m_statePath).
Proof. unfold saveState, ctl, set_ctlReceipt, set_ctlMarker. total_tac. Qed.
#[local] Hint Resolve t_save : total.

Lemma t_mark {E} message : total (markRecoveryRequired (R := R) (E := E) m_statePath message).
Proof. unfold markRecoveryRequired, set, set_ctlMarker. total_tac. Qed.
#[local] Hint Resolve t_mark : total.

Lemma e_leave_fail {A} code message : fails_early (leave_fail (A := A) code message).
Proof. by intros w _. Qed.

Lemma e_mark_and_fail {A} mark message : fails_early (mark_and_fail (A := A) m_statePath mark message).
Proof. unfold mark_and_fail. apply e_bind; [apply e_total, t_mark|]. intros b w _. done. Qed.

Lemma e_save_or_fail mark message : fails_early (save_or_fail m_statePath mark message).
Proof.
  unfold save_or_fail. apply e_bind; [apply e_total, t_save|]. intros []; [by intros w _|]. cbn [negb leave_if].
  intros w _. unfold cmd_bind at 1 2. destruct (t_mark (E := RoutingResult) (lit mark) w) as [b Hb].
  destruct (markRecoveryRequired m_statePath (lit mark) w) as [r w']. cbn in Hb. subst r. done.
Qed.

Lemma t_bindDns {E} p i c : total (bindDns (R := R) (E := E) p i c).
Proof. unfold bindDns. total_tac. Qed.

Lemma t_restorePrevious {E} o : total (restorePrevious (R := R) (E := E) o).
Proof. unfold restorePrevious, routing. total_tac. Qed.
End early.

#[export] Hint Resolve t_route t_file t_save t_mark t_bindDns t_restorePrevious : total.
Create HintDb early discriminated.
#[export] Hint Resolve e_leave_fail e_mark_and_fail e_save_or_fail : early.
#[export] Hint Opaque fails_early : early.

Ltac early_step :=
  lazymatch goal with
  | |- fails_early (cmd_bind _ _) => apply e_bind; [|intros ?]
  | |- fails_early (cmd_when _ _) => apply e_when
  | |- fails_early (if ?b then _ else _) => destruct b
  | |- fails_early (match ?x with _ => _ end) => destruct x
  | _ => first [solve [auto 2 with early nocore] | apply e_total; solve [total_tac]]
  end.
Ltac early := repeat (cbv zeta beta; early_step).

(** ** Replacing the policy *)

Section replacing.
Context {QT : QtText} {QN : QtNet} {QM : QtTime} {QD : QtData} {QJ : QtJsonText} {QF : QtFiles}.
Context {R : Type} {RT : Router R} {CH : ControllerHost R}.
Context (m_statePath : text).

(** The state a command starts from. *)
Context (c0 : Controller).
Implicit Types (w : CWorld R) (c : Controller) (r : RoutingResult).

Notation same := (holds (R := R) (λ f, f = policy_of c0)).
Notation lost := (holds (R := R) (λ f, f = policy_of c0 ∨ no_policy f)).

Lemma same_lost w : same w → lost w.
Proof. intros H. by left. Qed.

(** One step of a command that keeps [P] and fails when it leaves early. *)
Lemma step {A B} P (m : prog (CWorld R) RoutingResult A) (k : A → prog (CWorld R) RoutingResult B) Q
    (X : RoutingResult → CWorld R → Prop) :
  keeps P m → fails_early m → (∀ r w, rt_ok r = false → P w → X r w) → (∀ a, hoare P (k a) Q X) →
  hoare P (cmd_bind m k) Q X.
Proof.
  intros Hm He HX Hk. eapply h_bind; [|exact Hk]. intros w Hw. specialize (Hm w Hw). specialize (He w Logic.I).
  destruct (m w) as [[a|e] w']; [done|]. by apply HX.
Qed.

Lemma step_last {A} P (m : prog (CWorld R) RoutingResult A) (X : RoutingResult → CWorld R → Prop) :
  keeps P m → fails_early m → (∀ r w, rt_ok r = false → P w → X r w) → hoare P m (λ _, P) X.
Proof.
  intros Hm He HX w Hw. specialize (Hm w Hw). specialize (He w Logic.I).
  destruct (m w) as [[a|e] w']; [done|]. by apply HX.
Qed.

Ltac as_keeps := match goal with |- hoare ?P ?m _ _ => change (keeps P m) end.

Definition failed r w : Prop := rt_ok r = false ∧ lost w.

Ltac walk := apply step; [solve [neutral]|solve [early]|intros ? ? ? ?; split; [assumption|auto using same_lost]|intros ?].

Lemma lost_fallback {E} p reason X : hoare lost (fallbackToOnlyForward (E := E) m_statePath p reason) failed X.
Proof.
  apply h_call. unfold fallbackToOnlyForward_body, routing. cbv zeta. do 9 walk.
  eapply (h_bind _ _ _ (λ _, lost)); [by apply h_modify; right|]. intros []. walk.
  intros w Hw. by split.
Qed.

Lemma same_install p i routes b o : keeps same (installAllExcept (R := R) p i routes b o).
Proof. unfold installAllExcept, offlineTarget, onlineTarget, bypassRoutesNow, leave_failure. neutral. Qed.

Lemma e_install p i routes b o : fails_early (installAllExcept (R := R) p i routes b o).
Proof.
  unfold installAllExcept, offlineTarget, onlineTarget, bypassRoutesNow, leave_failure, underlayRoutes. early.
Qed.

(** The routes of a profile leave the policy alone, unless the fallback drops it. *)
Definition applied r w : Prop := if rt_ok r then same w else lost w.

Lemma failure_applied {E} code message X :
  hoare same (RoutingController.failure (E := E) code message) (λ r w, rt_ok r = false ∧ lost w) X.
Proof. intros w Hw. split; [done|]. by apply same_lost. Qed.

Lemma failed_applied r w : failed r w → applied r w.
Proof. intros [Hr Hw]. unfold applied. by rewrite Hr. Qed.

(** A step that always leaves. *)
Lemma leaves_applied {A} (m : prog (CWorld R) RoutingResult A) Q :
  keeps same m → fails_early m → leaves m → hoare same m Q applied.
Proof.
  intros Hm He Hl w Hw. specialize (Hm w Hw). specialize (He w Logic.I). destruct (Hl w) as [e Ee].
  destruct (m w) as [[a|e'] w']; [done|]. apply failed_applied. split; [done|]. by apply same_lost.
Qed.

Ltac walk_same :=
  apply step; [solve [neutral]|solve [early]|intros ? ? ? ?; apply failed_applied; split; [assumption|auto using same_lost]
              |intros ?].

Lemma same_applyRoutes {E} p routes b X : hoare same (applyRoutes (E := E) m_statePath p routes b) applied X.
Proof.
  apply h_call. unfold applyRoutes_body, leave_failure, routing. cbv zeta.
  destruct (mergeRoutes _ _) as [merged routesValid]. do 2 walk_same.
  apply step; [destruct (text_eqb _ _); [apply same_install|solve [neutral]]
              |destruct (text_eqb _ _); [apply e_install|solve [early]]
              |intros ? ? ? ?; apply failed_applied; split; [assumption|auto using same_lost]|].
  intros result. destruct (rr_ok result); cbn [negb].
  - walk_same. destruct (rr_ok _); cbn [negb].
    + do 2 walk_same. by apply h_ret.
    + walk_same. match goal with |- context [negb ?x] => destruct x end; cbn [negb].
      * eapply h_conseq; [apply (failure_applied _ _ (λ _ _, False))|done| |done]. apply failed_applied.
      * apply leaves_applied; [neutral|early|]. unfold mark_and_fail. leaves_tac.
  - destruct (_ && _).
    + eapply h_conseq; [apply (lost_fallback _ _ (λ _ _, False))|apply same_lost| |done]. apply failed_applied.
    + eapply h_conseq; [apply (failure_applied _ _ (λ _ _, False))|done| |done]. apply failed_applied.
Qed.

Lemma same_restoreBootstrap {E} o previous P X :
  policy_of previous = policy_of c0 →
  hoare P (restoreBootstrap (R := R) (E := E) m_statePath o previous) (λ _, same) X.
Proof.
  intros Hp. apply (h_pre (λ _, True)); [done|].
  apply (hoare_total _ _ _ (λ _, same)).
  { unfold restoreBootstrap, restoreRoutingSnapshot, set. total_tac. }
  unfold restoreBootstrap.
  eapply (h_bind _ _ _ (λ _ _, True)).
  { apply (hoare_total _ _ _ (λ _ _, True)); [apply total_call|]. intros w _. by destruct (restoreRoutingSnapshot o w) as [[] ?]. }
  intros restored. eapply (h_bind _ _ _ (λ _, same)).
  { apply h_modify. intros w _. unfold holds. cbn [cw_state]. rewrite <-Hp. reflexivity. }
  intros []. as_keeps. neutral.
Qed.

Lemma lost_failAllExcept {E} p reason X : hoare lost (failAllExcept (R := R) (E := E) m_statePath p reason) failed X.
Proof.
  unfold failAllExcept, routing. eapply (h_bind _ _ _ (λ _, lost)); [by apply h_gets|]. intros o.
  destruct (_ && _); [apply lost_fallback|]. intros w Hw. by split.
Qed.

Lemma same_abandon p b o previous code reason message :
  policy_of previous = policy_of c0 →
  hoare same (abandonPolicy m_statePath p b o previous code reason message) failed failed.
Proof.
  intros Hp. unfold abandonPolicy.
  destruct (text_eqb _ _); [eapply h_pre; [apply same_lost|]; apply lost_failAllExcept|].
  eapply (h_bind _ _ _ (λ _, same)); [destruct b; [by apply same_restoreBootstrap|by apply h_ret]|].
  intros []; apply failure_applied.
Qed.

Lemma same_bootstrap p o previous :
  policy_of previous = policy_of c0 →
  hoare same (bootstrapRoutes m_statePath p o previous) (λ _, same) failed.
Proof.
  intros Hp. unfold bootstrapRoutes, leave_failure. cbv zeta. eapply h_bind; [apply same_applyRoutes|].
  intros bootstrap. unfold applied. destruct (rt_ok bootstrap) eqn:Hb; cbn [negb].
  - destruct (c_needsReapply previous); [|by apply h_ret]. walk.
    apply step_last; [neutral|early|]. intros r w Hr Hw. split; [done|by apply same_lost].
  - destruct (_ && _).
    + eapply h_bind; [apply lost_failAllExcept|]. intros r. by apply h_leave.
    + eapply (h_bind _ _ _ (λ _, same)); [by apply same_restoreBootstrap|]. intros [].
      * apply h_leave. intros w Hw. split; [done|by apply same_lost].
      * intros w Hw. split; [done|by apply same_lost].
Qed.

End replacing.

Section properties.
Context {QT : QtText} {QN : QtNet} {QM : QtTime} {QD : QtData} {QJ : QtJsonText} {QF : QtFiles}.
Context {QTL : QtTextLaws QT} {QNL : QtNetLaws QN}.
Context {R : Type} {RT : Router R} {CH : ControllerHost R}.
Context (m_statePath : text).
Implicit Types (w : CWorld R).

Definition run_ctls (l : list ControllerCmd) w : CWorld R := foldl (λ w c, (run_ctl m_statePath c w).2) w l.

(** C17. The receipt on disk is the state: after any commands, whatever the
    reconciler, the network and the file system answer, either the state is
    marked for recovery, or the controller's file holds the receipt of exactly
    the state in memory. *)
Theorem controller_receipt_current l w :
  m_statePath ≠ [] → synced w → synced (run_ctls l w).
Proof.
  intros Hpath. unfold run_ctls. revert w. induction l as [|c l IH]; intros w Hw; [done|]. cbn [foldl]. apply IH.
  unfold run_ctl. apply keeps_returns; [|done]. by apply k_command.
Qed.

End properties.
