(* ===== verification/ControllerRestart.v ===== *)
(** * The headless routing controller: restarts

    What a new process finds in the controller's receipt: an accepted receipt
    gives the state that was saved, a state that needs recovery is refused for
    good, and some states that commands leave behind are refused although
    nothing went wrong. *)

From stdpp Require Import gmap.
From S2P Require Import Prelude Text Json QtInterface QtModel Command RoutePolicy PolicyLifecycle ServerRouting.
From S2P Require Import JsonText RouteGrammar RouteState ProfileStore PolicyEndpoint RoutingController RoutingConnect.
From S2P Require Import ControllerSafety.
#[local] Open Scope Z_scope.

(** ** The members of a receipt *)

Section members.
Context {QM : QtTime}.
Implicit Types (c : Controller).


Ltac receipt_member c := unfold controllerReceipt, metadata_json; destruct (c_policyMetadata c); repeat split.

Lemma receipt_version c : receiptVersion (controllerReceipt c) = 2.
Proof. receipt_member c. Qed.

Lemma receipt_loaded c : st_bool "policyLoaded" (controllerReceipt c) = c_hasPolicy c.
Proof. receipt_member c. Qed.

Lemma receipt_identity c0 c :
  read_identity (controllerReceipt c) c0
  = MkController (c_activeProfile c) (c_activeInterface c) (c_policyRevision c) (c_policyContentHash c)
      (c_policySource c) (c_policyEndpoint c) (c_policyResolvedSites c0) (c_hasPolicy c) (c_policyMetadata c0)
      (c_routingDegraded c) (c_routingError c) (c_needsReapply c) (c_stateValid c0) (c_initialized c0) (c_lastError c0).
Proof. receipt_member c. Qed.

Lemma receipt_objects c :
  jcontains (lit "policyMetadata") (controllerReceipt c) = true
  ∧ jvalue (lit "policyMetadata") (controllerReceipt c) = metadata_json (c_policyMetadata c)
  ∧ jcontains (lit "policyResolvedSites") (controllerReceipt c) = true
  ∧ jvalue (lit "policyResolvedSites") (controllerReceipt c) = JObject (c_policyResolvedSites c)
  ∧ jvalue (lit "recoveryRequired") (controllerReceipt c) = JBool (negb (c_stateValid c)).
Proof. receipt_member c. Qed.

Lemma receipt_schema c : receiptSchema (controllerReceipt c) = c_stateValid c.
Proof.
  unfold controllerReceipt, metadata_json.
  destruct (c_policyMetadata c), (c_stateValid c); vm_compute; reflexivity.
Qed.
End members.

(** ** Reading a receipt *)

Section reading.
Context {QT : QtText} {QN : QtNet} {QM : QtTime} {QD : QtData} {QJ : QtJsonText} {QF : QtFiles}.
Context {R : Type} {RT : Router R} {CH : ControllerHost R}.
Context (m_statePath : text).
Implicit Types (w : CWorld R) (c : Controller).

Definition set_sites (sites : jobject) c : Controller :=
  set_policy (c_policyRevision c) (c_policyContentHash c) (c_policySource c) (c_policyEndpoint c) sites
    (c_hasPolicy c) c.

(** The state after the members have been copied. *)
Definition copied (object : jobject) (m : option ManagedRoutePolicyMetadata) (sites : jobject) c : Controller :=
  set_sites sites (set_metadata m (read_identity object c)).

Definition with_ctl c w : CWorld R := MkCWorld c (cw_receipt w) (cw_marker w) (cw_router w).

Lemma save_state {E} w : cw_state (saveState (R := R) (E := E) m_statePath w).2 = cw_state w.
Proof.
  unfold saveState. destruct (is_empty m_statePath); [done|].
  unfold cmd_bind, file, ctl, gets, cmd_get, cmd_when, set_ctlReceipt, set_ctlMarker, cmd_modify, pure, cmd_ret.
  destruct (ctl_io WriteReceipt (cw_router w)) as [[] r]; [|done]. cbn [cw_state cw_router andb].
  destruct (c_stateValid (cw_state w)); [|done]. cbn [cw_router]. by destruct (ctl_io DeleteMarker r) as [[] r'].
Qed.

Lemma reject_unless_bind {B} b (k : () → prog (CWorld R) bool B) w :
  cmd_bind (reject_unless b) k w = if b then k () w else (Err false, w).
Proof. by destruct b. Qed.

Lemma set_bind {E B} f (k : () → prog (CWorld R) E B) w :
  cmd_bind (set f) k w = k () (with_ctl (f (cw_state w)) w).
Proof. done. Qed.

Lemma gets_bind {E A B} (f : CWorld R → A) (k : A → prog (CWorld R) E B) w : cmd_bind (gets f) k w = k (f w) w.
Proof. done. Qed.

Lemma bind_assoc {E A B C} (m : prog (CWorld R) E A) (k : A → prog (CWorld R) E B) (l : B → prog (CWorld R) E C) w :
  cmd_bind (cmd_bind m k) l w = cmd_bind m (λ a, cmd_bind (k a) l) w.
Proof. unfold cmd_bind. by destruct (m w) as [[a|e] w']. Qed.

Lemma call_returns {E A} (body : prog (CWorld R) A A) w :
  call (E := E) body w = (Ok (returns body w).1, (returns body w).2).
Proof. unfold call, returns. by destruct (body w) as [[a|a] w']. Qed.

Lemma pure_bind {E A B} (a : A) (k : A → prog (CWorld R) E B) w : cmd_bind (pure a) k w = k a w.
Proof. done. Qed.

Lemma leave_bind {E A B} (e : E) (k : A → prog (CWorld R) E B) w : cmd_bind (leave e) k w = (Err e, w).
Proof. done. Qed.

Ltac run_set E := rewrite ?set_bind, ?gets_bind, ?reject_unless_bind, ?pure_bind, ?leave_bind in E; cbn [with_ctl cw_state] in E.

Lemma copyMembers_run object w r w' :
  copyMembers object w = (r, w') →
  match r with
  | Ok _ => receiptSchema object = true ∧ degradedValid (read_identity object (cw_state w)) = true
            ∧ ∃ m sites, read_metadata object = Some m
                ∧ read_sites object (c_policyResolvedSites (cw_state w)) = Some sites
                ∧ w' = with_ctl (copied object m sites (cw_state w)) w
  | Err b => b = false
  end.
Proof.
  unfold copyMembers, ctl. intros E. run_set E.
  destruct (receiptSchema object) eqn:Hs; [|by simplify_eq]. run_set E.
  destruct (degradedValid _) eqn:Hd; [|by simplify_eq]. run_set E.
  destruct (read_metadata object) as [m|] eqn:Hm; run_set E; [|by simplify_eq].
  change (c_policyResolvedSites (read_identity object (cw_state w))) with (c_policyResolvedSites (cw_state w)) in E.
  destruct (read_sites object _) as [sites|] eqn:Hsites; run_set E; [|by simplify_eq].
  unfold set, cmd_modify in E.
  simplify_eq. eauto 10.
Qed.

Lemma checkPolicy_run version w r w' :
  checkPolicy version w = (r, w') →
  match r with
  | Ok _ =>
      if c_hasPolicy (cw_state w) then
        policyIdentity version (cw_state w) = true
        ∧ ∃ m', w' = with_ctl (set_metadata m' (cw_state w)) w
            ∧ (m' = c_policyMetadata (cw_state w) ∨ c_policyMetadata (cw_state w) = None ∧ version ≠ 2)
            ∧ (version = 2 → metadataAgrees (set_metadata m' (cw_state w)) = true)
      else policyAbsent (cw_state w) = true ∧ w' = w
  | Err b => b = false
  end.
Proof.
  unfold checkPolicy, ctl. intros E. run_set E. destruct (c_hasPolicy (cw_state w)) eqn:Hh.
  - run_set E. destruct (policyIdentity version (cw_state w)) eqn:Hi; [|by simplify_eq]. run_set E.
    destruct (bool_decide (c_policyMetadata (cw_state w) = None)) eqn:Hn; cbn [cmd_when] in E.
    + run_set E. destruct (_ || _) eqn:Ha; unfold reject_unless, pure, leave, cmd_ret in E; simplify_eq; [|done]. split; [done|]. eexists. split; [done|].
      bprop. assert (version ≠ 2) as Hv.
      { intros ->. unfold policyIdentity in Hi. rewrite Hn in Hi. apply andb_true_iff in Hi as [_ Hi]. done. }
      split; [by right|]. intros ->. destruct Ha as [Ha|Ha]; [|done]. by cbn in Ha.
    + change (cmd_bind (cmd_ret (Ok ())) ?k ?x) with (k () x) in E. cbv beta in E. run_set E.
      assert (set_metadata (c_policyMetadata (cw_state w)) (cw_state w) = cw_state w) as Hid
        by (destruct (cw_state w); reflexivity).
      destruct (_ || _) eqn:Ha; unfold reject_unless, pure, leave, cmd_ret in E; simplify_eq; [|done]. split; [done|].
      exists (c_policyMetadata (cw_state w')). rewrite Hid. bprop. split; [by destruct w'|]. split; [by left|].
      intros ->. destruct Ha as [Ha|Ha]; [|done]. by cbn in Ha.
  - destruct (policyAbsent (cw_state w)); unfold reject_unless, pure, leave, cmd_ret in E; simplify_eq; auto.
Qed.

Lemma checkRouting_run object w r w' :
  checkRouting m_statePath object w = (r, w') →
  let o := router_status (cw_router w) in
  let c := set_needsReapply (st_bool "needsReapply" o) (cw_state w) in
  match r with
  | Ok true => st_bool "recoveryRequired" o = false ∧ routingAgrees c o = true ∧ cw_state w' = c
  | Ok false => True
  | Err b => b = false
  end.
Proof.
  intros E o c. unfold checkRouting, ctl, routing in E. run_set E. fold o in E.
  destruct (st_bool "recoveryRequired" o); cbn [negb] in E; [by simplify_eq|]. run_set E. fold c in E.
  destruct (_ || _); [|by simplify_eq]. run_set E. destruct (routingAgrees c o) eqn:Hr; [|by simplify_eq].
  destruct (_ || _).
  - pose proof (save_state (E := bool) (with_ctl c w)) as Hs. rewrite E in Hs.
    pose proof (t_save (E := bool) m_statePath (with_ctl c w)) as [b Hb]. rewrite E in Hb. cbn in Hs, Hb.
    subst r. by destruct b.
  - unfold pure, cmd_ret in E. by simplify_eq.
Qed.

Lemma copied_policy object m sites c : c_hasPolicy (copied object m sites c) = st_bool "policyLoaded" object.
Proof. reflexivity. Qed.

Lemma copied_metadata_value object m sites c : c_policyMetadata (copied object m sites c) = m.
Proof. reflexivity. Qed.

Lemma copied_metadata object m sites c : set_metadata m (copied object m sites c) = copied object m sites c.
Proof. reflexivity. Qed.

(** The last two steps. *)
Lemma checked_run object c w r w' :
  cmd_bind (checkPolicy (receiptVersion object)) (λ _, checkRouting m_statePath object) (with_ctl c w) = (r, w') →
  r = Ok true ∨ r = Err true →
  let o := router_status (cw_router w) in
  st_bool "recoveryRequired" o = false ∧ routingAgrees (cw_state w') o = true
  ∧ ∃ m', cw_state w' = set_needsReapply (st_bool "needsReapply" o) (set_metadata m' c)
      ∧ if c_hasPolicy c then m' = c_policyMetadata c ∨ c_policyMetadata c = None ∧ receiptVersion object ≠ 2
        else policyAbsent c = true ∧ m' = c_policyMetadata c.
Proof.
  intros E Hr. unfold cmd_bind in E.
  destruct (checkPolicy (receiptVersion object) (with_ctl c w)) as [[[]|b] w2] eqn:E2;
    apply checkPolicy_run in E2; [|naive_solver].
  apply checkRouting_run in E. assert (r = Ok true) as -> by (destruct r as [|b]; naive_solver).
  change (cw_state (with_ctl c w)) with c in E2.
  assert (∃ m', cw_state w2 = set_metadata m' c ∧ cw_router w2 = cw_router w
            ∧ if c_hasPolicy c then m' = c_policyMetadata c ∨ c_policyMetadata c = None ∧ receiptVersion object ≠ 2
              else policyAbsent c = true ∧ m' = c_policyMetadata c) as (m' & Hc & Hro & Hm').
  { destruct (c_hasPolicy c).
    - destruct E2 as (_ & m' & -> & Hm' & _). by exists m'.
    - destruct E2 as [Ha ->]. exists (c_policyMetadata c). split; [|done]. by destruct c. }
  rewrite Hc, Hro in E. destruct E as (H1 & H2 & H3). rewrite H3. do 2 (split; [done|]). by exists m'.
Qed.

(** What an accepted receipt establishes about the state it leaves. *)
Definition accepts (object : jobject) w (c' : Controller) : Prop :=
  let o := router_status (cw_router w) in
  receiptSchema object = true ∧ st_bool "recoveryRequired" o = false ∧ routingAgrees c' o = true
  ∧ ∃ m m' sites,
      read_metadata object = Some m ∧ read_sites object (c_policyResolvedSites (cw_state w)) = Some sites
      ∧ c' = set_needsReapply (st_bool "needsReapply" o) (set_metadata m' (copied object m sites (cw_state w)))
      ∧ if st_bool "policyLoaded" object then m' = m ∨ m = None ∧ receiptVersion object ≠ 2
        else policyAbsent (copied object m sites (cw_state w)) = true ∧ m' = m.

Lemma readReceipt_accepts object w r w' :
  readReceipt m_statePath object w = (r, w') → r = Ok true ∨ r = Err true → accepts object w (cw_state w').
Proof.
  unfold readReceipt, cmd_bind at 1. intros E Hr.
  destruct (copyMembers object w) as [[[]|b] w1] eqn:E1; apply copyMembers_run in E1; [|naive_solver].
  destruct E1 as (Hs & _ & m & sites & Hm & Hsites & ->). apply checked_run in E as (H1 & H2 & m' & H3 & H4); [|done].
  split; [done|]. split; [done|]. split; [done|]. exists m, m', sites. do 3 (split; [done|]). exact H4.
Qed.
End reading.

(** ** A new process *)

Section restart.
Context {QT : QtText} {QN : QtNet} {QM : QtTime} {QD : QtData} {QJ : QtJsonText} {QF : QtFiles}.
Context {R : Type} {RT : Router R} {CH : ControllerHost R}.
Context (m_statePath : text) (Hpath : m_statePath ≠ []).
Implicit Types (w : CWorld R) (c : Controller).


Lemma loadState_true w w' :
  returns (loadState_body m_statePath) w = (true, w') →
  path_exists (cw_marker w) = false
  ∧ (cw_receipt w = Absent
     ∨ ∃ content object, cw_receipt w = Regular content ∧ json_parse content = Some (JObject object)
         ∧ accepts object (MkCWorld (cw_state w) (cw_receipt w) (cw_marker w) (ctl_io ReadReceipt (cw_router w)).2)
             (cw_state w')).
Proof.
  unfold returns, loadState_body. rewrite (path_filled m_statePath Hpath), gets_bind. intros E.
  destruct (path_exists (cw_marker w)); [by cbn in E; simplify_eq|]. split; [done|]. rewrite gets_bind in E.
  destruct (cw_receipt w) as [|content|] eqn:Hrec; [by left| |by cbn in E; simplify_eq]. right. exists content.
  unfold cmd_bind, file in E. destruct (ctl_io ReadReceipt (cw_router w)) as [[] r]; [|by cbn in E; simplify_eq].
  cbn [negb snd] in *. destruct (json_parse content) as [[| | | | | |object]|]; try by cbn in E; simplify_eq.
  exists object. do 2 (split; [done|]). rewrite Hrec in E.
  destruct (readReceipt m_statePath object _) as [[b|b] w1] eqn:Er; simplify_eq;
    (eapply readReceipt_accepts; [exact Er|auto]).
Qed.

(** The world in which a new process reads the receipt. *)
Definition starting w : CWorld R :=
  MkCWorld (set_ready freshController) (cw_receipt w) (cw_marker w)
    (ctl_io ReadReceipt (router_initialize (router_new (cw_router w))).2).2.

Lemma restart_run w w' :
  restartController m_statePath w = (true, w') →
  path_exists (cw_marker w) = false ∧ (router_initialize (router_new (cw_router w))).1 = true
  ∧ (cw_receipt w = Absent
     ∨ ∃ content object, cw_receipt w = Regular content ∧ json_parse content = Some (JObject object)
         ∧ accepts object (starting w) (cw_state w')).
Proof.
  unfold restartController, returns at 1, initializeState, new_controller, starting, ctl. intros E.
  rewrite gets_bind in E. cbn [cw_state freshController c_initialized] in E. rewrite set_bind in E.
  unfold with_ctl in E. cbn [cw_receipt cw_marker cw_router cw_state] in E.
  unfold cmd_bind at 1 in E. unfold route at 1 in E. cbn [cw_receipt cw_marker cw_router cw_state] in E.
  destruct (router_initialize (router_new (cw_router w))) as [[] r0]; cbn [negb] in E;
    [|rewrite set_bind in E; unfold pure, cmd_ret in E; by simplify_eq].
  unfold cmd_bind at 1 in E. unfold loadState in E. rewrite call_returns in E.
  destruct (returns (loadState_body m_statePath) _) as [b w1] eqn:El. cbn [fst snd] in E.
  destruct b; cbn [negb cmd_when] in E.
  - apply loadState_true in El as [Hm Hr]. cbn [cw_marker cw_receipt cw_router cw_state snd] in *.
    change (cmd_bind (cmd_ret (Ok ())) ?k ?x) with (k () x) in E. cbv beta in E. rewrite gets_bind in E.
    unfold pure, cmd_ret in E. simplify_eq. auto.
  - rewrite set_bind, gets_bind in E. unfold pure, cmd_ret in E. by simplify_eq.
Qed.
End restart.

(** ** Stored metadata *)

Section stored_metadata.
Context {QT : QtText} {QN : QtNet} {QM : QtTime} {QD : QtData} {QML : QtTimeLaws QM}.
Implicit Types (m : ManagedRoutePolicyMetadata).

(** What the JSON form of a metadata record keeps exactly. *)
Definition storable_metadata m : Prop :=
  trustState m ≠ [] ∧ (versioned m = false → revisionNumber m = -1)
  ∧ Forall (λ t, match t with Some ms => dt_expressible ms | None => True end) [issuedAt m; expiresAt m; acceptedAt m].

Lemma metadataToJson_wf m : jwf (metadataToJson m).
Proof.
  assert (∀ b k v o, is_undefined v = false → jwf o → jwf (insert_if b k v o)) as Hi.
  { intros [] k v o Hv Ho; [by apply jwf_jinsert_defined|done]. }
  assert (∀ k t o, jwf o → jwf (insert_date k t o)) as Hd.
  { intros k [t|] o Ho; [by apply jwf_jinsert_defined|done]. }
  unfold metadataToJson. cbv zeta.
  repeat first [apply Hi; [done|] | apply Hd | apply jwf_jinsert_defined; [done|] | apply jwf_nil].
Qed.

Lemma metadata_trust m : trustState m ≠ [] → jvalue (lit "trustState") (metadataToJson m) = JString (trustState m).
Proof.
  intros Ht. unfold metadataToJson. cbv zeta.
  repeat (rewrite ?jvalue_insert_if, ?jvalue_insert_date, ?jvalue_jinsert by reflexivity; lit_eqs).
  by rewrite (proj2 (is_empty_false _) Ht).
Qed.

Lemma optionalString_stored k m s :
  jvalue k (metadataToJson m) = opt_string s → optionalString k (metadataToJson m) = Some s.
Proof.
  intros E. unfold optionalString. rewrite jcontains_value, E by apply metadataToJson_wf.
  unfold opt_string. by destruct s.
Qed.

Lemma readDate_stored k m t :
  match t with Some ms => dt_expressible ms | None => True end →
  jvalue k (metadataToJson m) = opt_date t → readDate k (metadataToJson m) = Some t.
Proof.
  intros Ht E. unfold readDate. rewrite jcontains_value, E by apply metadataToJson_wf.
  destruct t as [ms|]; [|done]. cbn [opt_date is_undefined negb]. by rewrite dt_fromIsoMs_toIsoMs.
Qed.

Lemma metadata_reread m m' :
  storable_metadata m → policyMetadataFromJson (JObject (metadataToJson m)) = Some m' → m' = m.
Proof.
  intros (Ht & Hv & Hd) E. rewrite !Forall_cons in Hd. destruct Hd as (D1 & D2 & D3 & _).
  pose proof (metadata_values m) as (V1 & V2 & V3 & V4 & V5 & V6 & V7 & V8 & V9 & V10 & V11).
  unfold policyMetadataFromJson in E. destruct (negb _); [done|].
  rewrite V1, V2, V3, V7, (metadata_trust m Ht) in E.
  rewrite (optionalString_stored _ m _ V5), (optionalString_stored _ m _ V6), (optionalString_stored _ m _ V11),
    (readDate_stored _ m _ D1 V8), (readDate_stored _ m _ D2 V9), (readDate_stored _ m _ D3 V10) in E.
  unfold readRevisionNumber in E. rewrite V4, jcontains_value, V4 in E by apply metadataToJson_wf.
  clear V1 V2 V3 V4 V5 V6 V7 V8 V9 V10 V11.
  assert (text_eqb (if versioned m then lit "versioned" else lit "legacy") (lit "versioned") = versioned m) as Hty
    by (destruct (versioned m); reflexivity).
  rewrite Hty in E. destruct (schemaVersion m) as [|[| |]|] eqn:Hsv; try done.
  destruct (_ && _); [done|]. destruct (_ || _); [done|]. cbn [mbind option_bind] in E.
  destruct (_ || _); [done|].
  clear Hty. apply bind_Some in E as (n & En & E). destruct (dt_isValid _ && _ && _); [done|]. simplify_eq.
  assert (n = revisionNumber m) as ->; [|by destruct m; cbn in *; subst].
  destruct (versioned m); cbn [andb is_undefined negb] in En; [|simplify_eq; by rewrite Hv].
  destruct (revisionNumber m >=? 0); [|done]. destruct (_ || _); [done|]. destruct (negb _); [done|]. by simplify_eq.
Qed.
End stored_metadata.

(** ** What a successful connection leaves *)

Section success.
Context {QT : QtText} {QN : QtNet} {QM : QtTime} {QD : QtData} {QJ : QtJsonText} {QF : QtFiles}.
Context {R : Type} {RT : Router R} {CH : ControllerHost R}.
Context (m_statePath : text) (Hpath : m_statePath ≠ []).
Implicit Types (w : CWorld R) (c : Controller).

(** A fact about the state that holds when the command succeeds. *)
Definition succeeds (Q : CWorld R → Prop) (r : RoutingResult) w : Prop := rt_ok r = true → Q w.

Lemma step_any {A B} (m : prog (CWorld R) RoutingResult A) (k : A → prog (CWorld R) RoutingResult B) Q Z :
  fails_early m → (∀ a, hoare (λ _, True) (k a) Z (succeeds Q)) → hoare (λ _, True) (cmd_bind m k) Z (succeeds Q).
Proof.
  intros Hm Hk. eapply h_bind; [|exact Hk]. intros w Hw. specialize (Hm w Hw).
  destruct (m w) as [[a|e] w']; [done|]. unfold succeeds. congruence.
Qed.

Lemma fails_succeeds {A} Q (m : prog (CWorld R) RoutingResult A) Z :
  fails_early m → leaves m → hoare (λ _, True) m Z (succeeds Q).
Proof.
  intros Hm Hl w Hw. specialize (Hm w Hw). destruct (Hl w) as [e He]. destruct (m w) as [[a|e'] w']; [done|].
  unfold succeeds. congruence.
Qed.

Lemma failure_succeeds {E} Q code message X :
  hoare (λ _, True) (RoutingController.failure (R := R) (E := E) code message) (succeeds Q) X.
Proof. intros w _. done. Qed.

(** Saving keeps the state in memory, and on success the file has it. *)
Definition saved w : Prop := cw_receipt w = Regular (json_compact (controllerReceipt (cw_state w))).

Lemma save_or_fail_saved (P : Controller → Prop) mark message Q :
  hoare (λ w, P (cw_state w)) (save_or_fail m_statePath mark message) (λ _ w, P (cw_state w) ∧ saved w) (succeeds Q).
Proof.
  intros w Hw. pose proof (e_save_or_fail m_statePath mark message w Logic.I) as He. unfold save_or_fail in *.
  unfold cmd_bind at 1 in He. unfold cmd_bind at 1.
  pose proof (save_state m_statePath (E := RoutingResult) w) as Hs.
  pose proof (saveState_spec m_statePath Hpath (E := RoutingResult) (λ _ _, False) w Logic.I) as Hr.
  destruct (saveState m_statePath w) as [[b|b] w1]; [|done]. cbn [snd] in Hs. destruct b; cbn [negb leave_if] in *.
  - cbn. rewrite Hs. split; [done|]. by apply Hr.
  - destruct (cmd_bind _ _ w1) as [[u|r] w2] eqn:E; [|unfold succeeds; congruence].
    exfalso. apply cmd_bind_Ok in E as (r & w3 & _ & E). by unfold leave, cmd_ret in E.
Qed.

Lemma fallback_fails {E} p reason Q X :
  hoare (λ _, True) (fallbackToOnlyForward (E := E) m_statePath p reason) (succeeds Q) X.
Proof.
  apply h_call. unfold fallbackToOnlyForward_body, routing, set. cbv zeta.
  do 11 (apply step_any; [solve [early]|intros ?]). apply failure_succeeds.
Qed.

(** The profile is the active one, on its interface, and routing is not degraded. *)
Definition connected (p : Profile) c : Prop :=
  c_activeProfile c = p_id p ∧ c_activeInterface c = defaultInterfaceFor p ∧ c_routingDegraded c = false
  ∧ c_routingError c = [] ∧ c_needsReapply c = false.

Lemma applyRoutes_connected {E} p routes b X :
  hoare (λ _, True) (applyRoutes (E := E) m_statePath p routes b)
    (succeeds (λ w, connected p (cw_state w) ∧ saved w)) X.
Proof.
  apply h_call. unfold applyRoutes_body, leave_failure, routing. cbv zeta.
  destruct (mergeRoutes _ _) as [merged routesValid]. do 2 (apply step_any; [solve [early]|intros ?]).
  apply step_any; [destruct (text_eqb _ _); [apply e_install|solve [early]]|]. intros result.
  destruct (rr_ok result); cbn [negb]; [|destruct (_ && _); [apply fallback_fails|apply failure_succeeds]].
  apply step_any; [early|]. intros dns. destruct (rr_ok dns); cbn [negb].
  - eapply (h_bind _ _ _ (λ _ w, connected p (cw_state w))); [by apply h_modify|]. intros [].
    eapply h_bind; [apply (save_or_fail_saved (connected p))|]. intros []. apply h_ret. intros w Hw _. exact Hw.
  - apply step_any; [early|]. intros []; cbn [negb]; [apply failure_succeeds|].
    apply fails_succeeds; [early|]. unfold mark_and_fail. leaves_tac.
Qed.

(** A profile with static routes. *)
Lemma static_connected {E} p X :
  p_serverRulesUrl p = [] →
  hoare (λ _, True) (fetchAndApply (E := E) m_statePath p)
    (succeeds (λ w, connected p (cw_state w) ∧ c_hasPolicy (cw_state w) = false ∧ defaultInterfaceFor p ≠ [] ∧ saved w)) X.
Proof.
  intros Hu. apply h_call. unfold fetchAndApply_body, leave_failure. rewrite Hu. cbn [is_empty negb]. cbv zeta.
  destruct (is_empty (defaultInterfaceFor p)) eqn:Hi; cbn [cmd_when].
  { eapply (h_bind _ _ _ (λ _ _, False)); [|by intros ? w []]. apply fails_succeeds; [early|unfold leave_fail; leaves_tac]. }
  apply is_empty_false in Hi. eapply (h_bind _ _ _ (λ _ _, True)); [by apply h_ret|]. intros [].
  eapply h_bind; [apply applyRoutes_connected|]. intros r. destruct (rt_ok r) eqn:Hr.
  - eapply (h_bind _ _ _ (λ _ w, connected p (cw_state w) ∧ c_hasPolicy (cw_state w) = false)).
    { apply h_modify. intros w Hw. by destruct (Hw Hr). }
    intros []. eapply h_bind; [apply (save_or_fail_saved (λ c, connected p c ∧ c_hasPolicy c = false))|].
    intros []. apply h_ret. intros w [[H1 H2] H3] _. done.
  - apply h_ret. intros w _. unfold succeeds. congruence.
Qed.
End success.

(** ** Properties *)

Section properties.
Context {QT : QtText} {QN : QtNet} {QM : QtTime} {QD : QtData} {QJ : QtJsonText} {QF : QtFiles}.
Context {QML : QtTimeLaws QM} {QFL : QtFilesLaws QD QF}.
Context {R : Type} {RT : Router R} {CH : ControllerHost R}.
Context (m_statePath : text).
Implicit Types (w : CWorld R) (c : Controller).

(** A restart that reads a saved receipt reads this one. *)
Lemma restart_saved w w' :
  m_statePath ≠ [] → saved w → json_printable (controllerReceipt (cw_state w)) = true →
  restartController m_statePath w = (true, w') →
  accepts (controllerReceipt (cw_state w)) (starting w) (cw_state w').
Proof.
  intros Hpath Hs Hp E. apply (restart_run m_statePath Hpath) in E as (_ & _ & [E|(content & object & Ec & Ej & Ha)]);
    [by rewrite Hs in E|].
  rewrite Hs in Ec. simplify_eq. rewrite json_parse_compact in Ej by done. by simplify_eq.
Qed.

Lemma not_true (r : bool * CWorld R) : (∀ w', r ≠ (true, w')) → r.1 = false.
Proof. destruct r as [[] w']; [|done]. intros H. by destruct (H w'). Qed.

(** C22. A new process continues exactly where the old one stopped: when it
    accepts the receipt of the state that was saved, it has the same active
    profile and interface, the same policy with all its metadata and resolved
    sites, and the same degraded status; whether the routes have to be
    reinstalled is what the reconciler found in the kernel. *)
Theorem controller_restart_agrees w w' :
  m_statePath ≠ [] → saved w → json_printable (controllerReceipt (cw_state w)) = true →
  (∀ m, c_policyMetadata (cw_state w) = Some m → storable_metadata m) →
  restartController m_statePath w = (true, w') →
  c_activeProfile (cw_state w') = c_activeProfile (cw_state w)
  ∧ c_activeInterface (cw_state w') = c_activeInterface (cw_state w)
  ∧ policy_of (cw_state w') = policy_of (cw_state w)
  ∧ c_routingDegraded (cw_state w') = c_routingDegraded (cw_state w)
  ∧ c_routingError (cw_state w') = c_routingError (cw_state w)
  ∧ c_needsReapply (cw_state w') = st_bool "needsReapply" (router_status (cw_router (starting w))).
Proof.
  intros Hpath Hs Hp Hst E. apply restart_saved in E as (_ & _ & _ & m & m' & sites & Hm & Hsites & Hc & Hpol); try done.
  destruct (receipt_objects (cw_state w)) as (C1 & V1 & C2 & V2 & _).
  assert (m = c_policyMetadata (cw_state w)) as ->.
  { unfold read_metadata in Hm. rewrite C1, V1 in Hm. unfold metadata_json in Hm.
    destruct (c_policyMetadata (cw_state w)) as [m0|]; [|by simplify_eq].
    apply fmap_Some in Hm as (m1 & Hm1 & ->). f_equal. eapply metadata_reread; [by apply Hst|done]. }
  assert (sites = c_policyResolvedSites (cw_state w)) as ->.
  { unfold read_sites in Hsites. rewrite C2, V2 in Hsites. destruct (_ >? _); [done|].
    destruct (forallb _ _); by simplify_eq. }
  assert (m' = c_policyMetadata (cw_state w)) as ->.
  { rewrite receipt_version in Hpol. destruct (st_bool "policyLoaded" _); [destruct Hpol as [?|[_ ?]]|destruct Hpol]; done. }
  rewrite Hc. unfold copied. rewrite receipt_identity. by unfold policy_of.
Qed.

Definition frozen w1 w : Prop :=
  cw_router w = cw_router w1 ∧ cw_receipt w = cw_receipt w1 ∧ cw_marker w = cw_marker w1
  ∧ c_stateValid (cw_state w) = false.

Lemma refused cm w1 w : frozen w1 w → frozen w1 (run_ctl m_statePath cm w).2.
Proof.
  intros (H1 & H2 & H3 & H4). unfold run_ctl, returns.
  destruct cm as [p|p|]; cbn [cmd_body]; unfold connect_body, refresh_body, disconnect_body, guard_state, ctl;
    rewrite ?set_bind; unfold cmd_bind at 1 2; cbn [gets cmd_get with_ctl cw_state cw_router cw_receipt cw_marker];
    cbn [set_ctlError c_stateValid c_initialized]; rewrite H4, orb_true_r; cbn; done.
Qed.

Lemma refused_all l w1 w : frozen w1 w → frozen w1 (run_ctls m_statePath l w).
Proof.
  revert w. unfold run_ctls. induction l as [|cm l IH]; intros w Hw; [done|]. cbn [foldl]. by apply IH, refused.
Qed.

Lemma mark_frozen message w b w1 :
  returns (markRecoveryRequired m_statePath message) w = (b, w1) →
  c_stateValid (cw_state w1) = false ∧ controllerReceipt (cw_state w1) = controllerReceipt (set_valid false (cw_state w))
  ∧ (b = true → m_statePath ≠ [] → saved w1).
Proof.
  unfold returns, markRecoveryRequired. rewrite set_bind. unfold cmd_bind at 1, route.
  destruct (router_requireRecovery message _) as [marked r]. unfold cmd_bind at 1.
  set (w0 := MkCWorld _ _ _ r). pose proof (save_state m_statePath (E := bool) w0) as Hs.
  destruct (t_save (E := bool) m_statePath w0) as [s Ht].
  assert (m_statePath ≠ [] → s = true → saved (saveState (E := bool) m_statePath w0).2) as Hsaved.
  { intros Hpath ->. pose proof (saveState_spec m_statePath Hpath (E := bool) (λ _ _, False) w0 Logic.I) as Hr.
    destruct (saveState m_statePath w0) as [[b'|b'] w2]; [|done]. simplify_eq/=. by apply Hr. }
  destruct (saveState m_statePath w0) as [r2 w2]. cbn [fst snd] in *. subst r2. intros E.

  destruct (s && marked) eqn:Hsm.
  - bprop. unfold pure, cmd_ret in E. simplify_eq. rewrite Hs. split; [done|]. split; [done|]. auto.
  - destruct (is_empty m_statePath); [unfold pure, cmd_ret in E; simplify_eq; by rewrite Hs|].
    unfold cmd_bind, file in E. destruct (ctl_io WriteMarker (cw_router w2)) as [[] r3];
      cbn [cmd_when set_ctlMarker cmd_modify cmd_ret pure cw_state] in E; simplify_eq;
      cbn [cw_state]; by rewrite Hs.
Qed.

(** C23. A state that needs recovery stays so.  Once the controller has marked its
    state and one of the two files could be written, every command is refused
    without touching the reconciler or the files, and every new process refuses
    to start from them. *)
Theorem controller_recovery_durable message l w b w1 :
  m_statePath ≠ [] → json_printable (controllerReceipt (set_valid false (cw_state w))) = true →
  returns (markRecoveryRequired m_statePath message) w = (b, w1) → b = true ∨ path_exists (cw_marker w1) = true →
  let w2 := run_ctls m_statePath l w1 in
  cw_router w2 = cw_router w1 ∧ cw_receipt w2 = cw_receipt w1 ∧ cw_marker w2 = cw_marker w1
  ∧ c_stateValid (cw_state w2) = false ∧ (restartController m_statePath w2).1 = false.
Proof.
  intros Hpath Hp E Hd w2. apply mark_frozen in E as (Hv & Hc & Hs).
  destruct (refused_all l w1 w1) as (F1 & F2 & F3 & F4); [by repeat split|]. fold w2 in F1, F2, F3, F4.
  do 4 (split; [done|]). apply not_true. intros w3 E.
  apply (restart_run m_statePath Hpath) in E as (Hm & _ & Hr). rewrite F2, F3 in *.
  destruct Hd as [Hb|Hb]; [|congruence]. specialize (Hs Hb Hpath). unfold saved in Hs. rewrite Hs in Hr.
  destruct Hr as [Hr|(content & object & Ec & Ej & Ha)]; [done|]. simplify_eq.
  rewrite json_parse_compact in Ej by by rewrite Hc. simplify_eq. destruct Ha as [Ha _].
  rewrite receipt_schema in Ha. congruence.
Qed.

(** A profile with static routes cannot be resumed.  After a successful
    connection of a profile that has forward routes and no policy URL, every
    new process refuses the receipt this connection left, even when the
    reconciler has restarted without complaint: the receipt names the interface
    and no policy, which the controller only accepts for a full tunnel or a
    degraded state. *)
Theorem static_profile_not_resumable p w r w' :
  m_statePath ≠ [] → p_serverRulesUrl p = [] → p_forwardRoutes p ≠ [] → p_routingMode p ≠ all_except →
  run_ctl m_statePath (CConnect p) w = (r, w') → rt_ok r = true →
  json_printable (controllerReceipt (cw_state w')) = true →
  st_text "mode" (router_status (cw_router (starting w'))) ≠ all_except →
  (restartController m_statePath w').1 = false.
Proof.
  intros Hpath Hu Hf Hmode E Hr Hp Hm. apply not_true. intros w2 E2.
  set (Q := λ w, connected p (cw_state w) ∧ c_hasPolicy (cw_state w) = false ∧ defaultInterfaceFor p ≠ [] ∧ saved w).
  assert (Q w') as ((_ & Hi & Hd & _) & Hh & Hne & Hs).
  { revert Hr. refine (h_returns (λ _, True) _ (succeeds Q) w r w' _ Logic.I E).
    unfold cmd_body, connect_body, guard_state, guard_routing, invalidState, invalidRoutes, leave_failure, ctl, routing, set.
    cbv zeta. do 7 (apply step_any; [solve [early]|intros ?]). rewrite Hu, bool_decide_eq_false_2, andb_false_r by done.
    by apply static_connected. }
  apply restart_saved in E2 as (_ & _ & Ha & m & m' & sites & _ & _ & Hc & _); try done.
  unfold copied in Hc. rewrite receipt_identity in Hc. unfold routingAgrees in Ha.
  rewrite Hc in Ha. cbn [set_needsReapply set_metadata set_sites set_policy c_hasPolicy c_routingDegraded c_activeInterface] in Ha.
  rewrite Hh, Hd, Hi, (proj2 (text_eqb_neq _ _) Hm), (proj2 (is_empty_false _) Hne) in Ha. done.
Qed.

Lemma policyAbsent_metadata c : policyAbsent c = true → c_policyMetadata c = None.
Proof. unfold policyAbsent. intros H. by bprop. Qed.

Lemma stale_refused c w c' m :
  c_policyMetadata c = Some m → c_hasPolicy c = false → accepts (controllerReceipt c) w c' → False.
Proof.
  intros Hm Hh (_ & _ & _ & m1 & m' & sites & H1 & _ & _ & Hpol). rewrite receipt_loaded, Hh in Hpol.
  destruct Hpol as [Hpol _]. apply policyAbsent_metadata in Hpol. rewrite copied_metadata_value in Hpol. subst m1.
  destruct (receipt_objects c) as (C1 & V1 & _). unfold read_metadata in H1. rewrite C1, V1, Hm in H1.
  unfold metadata_json in H1. by destruct (policyMetadataFromJson _).
Qed.

(** A profile without routes inherits the last policy's metadata.  When a
    profile with neither forward routes nor a policy URL is connected while the
    state still has the metadata of an earlier policy, the connection reports
    success, but the receipt it saves has metadata and no policy, and every new
    process refuses it. *)
Theorem stale_policy_not_resumable p m w r w' :
  m_statePath ≠ [] → p_serverRulesUrl p = [] → p_forwardRoutes p = [] → p_routingMode p ≠ all_except →
  c_policyMetadata (cw_state w) = Some m →
  run_ctl m_statePath (CConnect p) w = (r, w') → rt_ok r = true →
  json_printable (controllerReceipt (cw_state w')) = true →
  (restartController m_statePath w').1 = false.
Proof.
  intros Hpath Hu Hf Hmode Hmeta E Hr Hp. apply not_true. intros w2 E2.
  set (P := λ f : policy_fields, f.2 = Some m).
  set (K := λ c, c_policyMetadata c = Some m ∧ c_hasPolicy c = false).
  set (Q := λ w, K (cw_state w) ∧ saved w).
  assert (Q w') as [[Hm Hh] Hs].
  { revert Hr. refine (h_returns (holds P) _ (succeeds Q) w r w' _ Hmeta E).
    assert (∀ r (w : CWorld R), rt_ok r = false → holds P w → succeeds Q r w) as Hx by (unfold succeeds; congruence).
    unfold cmd_body, connect_body, connectWithoutRoutes, guard_state, guard_routing, invalidState, invalidRoutes,
      leave_failure, ctl, routing. cbv zeta. do 7 (apply step; [solve [neutral]|solve [early]|exact Hx|intros ?]).
    rewrite Hu, Hf, bool_decide_eq_true_2, (proj2 (text_eqb_neq _ _) Hmode) by done. cbn [negb andb is_empty].
    do 6 (apply step; [solve [neutral]|solve [early]|exact Hx|intros ?]).
    eapply (h_bind _ _ _ (λ _ w, K (cw_state w))); [by apply h_modify|]. intros [].
    eapply h_bind; [by apply (save_or_fail_saved m_statePath Hpath K)|]. intros []. apply h_ret. by intros w1 Hw1 _. }
  apply restart_saved in E2; [|done..]. by eapply stale_refused.
Qed.
End properties.
