(* ===== verification/ControllerAdoption.v ===== *)
(** * The headless routing controller: adopting a policy

    The controller takes over a policy of the server only together with its
    routes.  What the reconciler holds is stated through the interface
    [RouterHolds]: a predicate on its state that a successful request
    establishes and that resolver changes and the controller's files leave
    alone.  ControllerTunnel.v discharges it for the reconciler. *)

From stdpp Require Import gmap.
From S2P Require Import Prelude Text Json QtInterface QtModel Command RoutePolicy PolicyLifecycle ServerRouting.
From S2P Require Import JsonText RouteGrammar RouteState ProfileStore PolicyEndpoint BypassRoutes.
From S2P Require Import RoutingController RoutingConnect ControllerSafety ControllerRestart.
#[local] Open Scope Z_scope.
#[local] Open Scope amnezia_scope.

(** What the reconciler was asked to hold. *)
Inductive RouteRequest :=
| OnlyForward (interfaceName : text) (routes : list text)
| AllExcept (interfaceName : text) (bypass critical : list text).

Class RouterHolds {R : Type} `{Router R} `{ControllerHost R} (in_place : RouteRequest → R → Prop) : Prop := {
  hold_apply i routes r a r' : router_apply i routes r = (a, r') → rr_ok a = true → in_place (OnlyForward i routes) r';
  hold_except i b c r a r' : router_applyAllExcept i b c r = (a, r') → rr_ok a = true → in_place (AllExcept i b c) r';
  hold_configureDns t i servers domains r a r' :
    in_place t r → router_configureDns i servers domains r = (a, r') → rr_ok a = true → in_place t r';
  hold_clearDns t i r a r' : in_place t r → router_clearDns i r = (a, r') → rr_ok a = true → in_place t r';
  hold_io t o r : in_place t r → in_place t (ctl_io o r).2;
}.

(** The request that a policy with the routes [serverRoutes] calls for: in the
    split mode exactly the networks of the profile and of the policy, in
    canonical form; in the full tunnel every route of the policy among the
    bypasses, unless it lies as a whole inside a network of the VPN. *)
Definition serves `{QtText} `{QtNet} (p : Profile) (serverRoutes : list text) (t : RouteRequest) : Prop :=
  match t with
  | OnlyForward i routes =>
      p_routingMode p ≠ all_except ∧ i = defaultInterfaceFor p ∧ NoDup routes
      ∧ ∀ r, r ∈ routes ↔ ∃ v, (v ∈ p_forwardRoutes p ∨ v ∈ serverRoutes) ∧ r = canonicalManagedIpv4Route v
  | AllExcept i bypass critical =>
      p_routingMode p = all_except ∧ i = defaultInterfaceFor p
      ∧ ∀ r, r ∈ serverRoutes → r ∈ bypass ∨ inside (p_forwardRoutes p) r
  end.

Section requests.
Context {QT : QtText} {QN : QtNet} {QM : QtTime} {QD : QtData} {QJ : QtJsonText} {QF : QtFiles}.
Context {QTL : QtTextLaws QT} {QNL : QtNetLaws QN}.
Context {R : Type} {RT : Router R} {CH : ControllerHost R} (in_place : RouteRequest → R → Prop) {RH : RouterHolds in_place}.
Context (m_statePath : text).

(** A lookup answers with 32-bit IPv4 addresses. *)
Context (lookup_u32 : ∀ (k : R) host addresses a, ctl_resolve k host = Some addresses → HV4 a ∈ addresses → is_u32 a).
Implicit Types (w : CWorld R) (p : Profile).

Notation cprog E A := (prog (CWorld R) E A).

(** The reconciler holds a request that the policy calls for. *)
Definition in_force p (serverRoutes : list text) w : Prop := ∃ t, serves p serverRoutes t ∧ in_place t (cw_router w).

Lemma resolved_canonical elapsed lookup policy deadline previous s :
  resolve elapsed lookup policy deadline previous = Ok s → Forall canonical_route (routes s).
Proof.
  unfold resolve, ServerRouting.failure. destruct (_ || _); [done|]. destruct (resolveDomains _ _ _ _ _ _ _ _).
  destruct (validatedManagedRoutes _) as [rs []] eqn:Ev; [|done]. cbn [negb]. intros [= <-]. cbn [routes].
  by apply validated_sorted_ok in Ev as (_ & Hc & _).
Qed.

Lemma merged_serves p serverRoutes merged :
  p_routingMode p ≠ all_except → mergeRoutes (p_forwardRoutes p) serverRoutes = (merged, true) →
  serves p serverRoutes (OnlyForward (defaultInterfaceFor p) merged).
Proof.
  intros Hm E. unfold mergeRoutes in E. destruct (validatedManagedRoutes _) as [l v] eqn:Ev. destruct v; simplify_eq.
  apply managedRoutes_valid in Ev as (_ & _ & _ & Hin). split; [done|]. split; [done|]. split.
  { apply sort_dedup_NoDup. }
  intros r. rewrite sort_dedup_elem, Hin. split.
  - intros (v & [Hv|Hv]%elem_of_app & ->); eauto.
  - intros (v & [Hv|Hv] & ->); exists v; rewrite elem_of_app; auto.
Qed.

(** The bypasses of a connection have every route of the policy. *)
Lemma target_serves p i serverRoutes :
  Forall canonical_route serverRoutes →
  hoare (λ _, True) (onlineTarget (R := R) p i serverRoutes)
    (λ t _, ∀ r, r ∈ serverRoutes → r ∈ t.1 ∨ inside (p_forwardRoutes p) r) (λ r _, rt_ok r = false).
Proof.
  intros Hs. unfold onlineTarget, bypassRoutesNow, leave_failure.
  eapply (h_bind _ _ _ (λ t _, ∃ k : R, allExceptBypassRoutes (ctl_resolve k) (ctl_config k) p serverRoutes = t)).
  { apply h_gets. intros w _. by exists (cw_router w). }
  intros [[routes valid] critical] w [k Hk]. revert w.
  cut (hoare (λ _ : CWorld R, True)
    (let! _ := cmd_when (negb valid) (leave_fail (lit "invalid_routes") (lit "full-tunnel bypass routes exceed the safety boundary")) in
     let! underlay := underlayRoutes p i in
     pure (foldl append_new (critical ++ underlay) routes, remove_duplicates (critical ++ underlay)))
    (λ t _, ∀ r, r ∈ serverRoutes → r ∈ t.1 ∨ inside (p_forwardRoutes p) r) (λ r _, rt_ok r = false)).
  { intros Hh w. exact (Hh w Logic.I). }
  destruct valid; cbn [negb cmd_when]; [|by intros w _].
  destruct (bypass_spec (ctl_resolve k) (ctl_config k) (lookup_u32 k) p serverRoutes routes critical Hs Hk)
    as (_ & _ & _ & _ & Hall & _).
  eapply (h_bind (λ _, True) _ _ (λ _ _, True)); [by apply h_ret|]. intros _.
  assert (fails_early (underlayRoutes (R := R) p i)) as Hu by (unfold underlayRoutes; early).
  eapply h_bind; [exact Hu|]. intros underlay. apply h_ret. intros w _ r Hr.
  destruct (Hall r (or_intror Hr)) as [Hin|Hin]; [left|by right]. cbn [fst].
  generalize (critical ++ underlay). clear -Hin. induction routes as [|x l IH]; [by apply elem_of_nil in Hin|].
  intros acc. cbn [foldl]. apply elem_of_cons in Hin as [->|Hin]; [|by apply IH].
  assert (∀ acc, x ∈ acc → x ∈ foldl append_new acc l) as Hkeep.
  { clear. induction l as [|y l IH]; intros acc Hx; [done|]. cbn [foldl]. apply IH. apply elem_of_append_new. by left. }
  apply Hkeep, elem_of_append_new. by right.
Qed.

Lemma install_serves p serverRoutes previous :
  p_routingMode p = all_except → Forall canonical_route serverRoutes →
  hoare (λ _, True) (installAllExcept (R := R) p (defaultInterfaceFor p) serverRoutes false previous)
    (λ a w, rr_ok a = true → in_force p serverRoutes w) (λ r _, rt_ok r = false).
Proof.
  intros Hm Hs. unfold installAllExcept, leave_failure. eapply h_bind; [by apply target_serves|]. intros [ordered critical].
  apply (h_pre (λ _ : CWorld R, (∀ r, r ∈ serverRoutes → r ∈ ordered ∨ inside (p_forwardRoutes p) r) ∧ True)); [done|].
  apply h_fact. intros Ho. destruct (validatedManagedRoutes ordered) as [ordered' valid] eqn:Ev.
  destruct valid; cbn [negb cmd_when]; [|by intros w _].
  eapply (h_bind _ _ _ (λ _ _, True)); [by apply h_ret|]. intros _ w _. unfold route.
  destruct (router_applyAllExcept _ _ _ (cw_router w)) as [a r] eqn:Ea. intros Hok.
  exists (AllExcept (defaultInterfaceFor p) ordered' critical). split; [|by eapply hold_except].
  split; [done|]. split; [done|]. intros x Hx. destruct (Ho x Hx) as [Hin|Hin]; [left|by right].
  apply managedRoutes_valid in Ev as (_ & _ & _ & Hmem). apply Hmem. exists x. split; [done|].
  rewrite Forall_forall in Hs. by destruct (Hs x Hx) as [-> _].
Qed.

Lemma split_serves {E} p serverRoutes merged (X : E → _) :
  p_routingMode p ≠ all_except → mergeRoutes (p_forwardRoutes p) serverRoutes = (merged, true) →
  hoare (λ _, True) (route (R := R) (router_apply (defaultInterfaceFor p) merged))
    (λ a w, rr_ok a = true → in_force p serverRoutes w) X.
Proof.
  intros Hm Hmerge w _. unfold route. destruct (router_apply _ _ (cw_router w)) as [a r] eqn:Ea. intros Hok.
  eexists. split; [by eapply merged_serves|]. by eapply hold_apply.
Qed.

Lemma bindDns_holds {E} p i current serverRoutes X :
  hoare (in_force p serverRoutes) (bindDns (R := R) (E := E) p i current)
    (λ a w, rr_ok a = true → in_force p serverRoutes w) X.
Proof.
  intros w (t & Hs & Ht). unfold bindDns, route. destruct (_ || _); [|destruct (negb _); [|intros _; by exists t]].
  - destruct (router_configureDns _ _ _ (cw_router w)) as [a r] eqn:E1. intros Hok. exists t. split; [done|].
    by eapply hold_configureDns.
  - destruct (router_clearDns _ (cw_router w)) as [a r] eqn:E1. intros Hok. exists t. split; [done|]. by eapply hold_clearDns.
Qed.

Lemma saveState_holds {E} p serverRoutes :
  keeps (in_force p serverRoutes) (RoutingController.saveState (R := R) (E := E) m_statePath).
Proof.
  assert (∀ E o, keeps (in_force p serverRoutes) (file (R := R) (E := E) o)) as Hf.
  { intros E' o w (t & Hs & Ht). unfold file. pose proof (hold_io t o (cw_router w) Ht) as Hio.
    destruct (ctl_io o (cw_router w)) as [b r]. by exists t. }
  unfold RoutingController.saveState, ctl, set_ctlReceipt, set_ctlMarker. destruct (is_empty m_statePath); [apply k_pure|].
  apply k_bind; [apply Hf|]. intros b. apply k_bind; [apply k_gets|]. intros c.
  apply k_bind; [apply k_when; by intros w Hw|]. intros _. apply k_bind; [|intros _; apply k_pure].
  apply k_when. apply k_bind; [apply Hf|]. intros removed. apply k_when. by intros w Hw.
Qed.

Lemma save_or_fail_holds mark message p serverRoutes Q :
  hoare (in_force p serverRoutes) (save_or_fail (R := R) m_statePath mark message) (λ _, in_force p serverRoutes) (succeeds Q).
Proof.
  unfold save_or_fail. eapply (h_bind _ _ _ (λ _, in_force p serverRoutes));
    [apply (hoare_total _ _ _ (λ _, in_force p serverRoutes)); [apply t_save|apply saveState_holds]|].
  intros []; [by apply h_ret|]. cbn [negb leave_if]. apply (h_pre (λ _, True)); [done|].
  apply fails_succeeds; [|leaves_tac]. intros w Hw.
  pose proof (t_mark (R := R) (E := RoutingResult) m_statePath (lit mark) w) as [b Hb].
  unfold cmd_bind at 1 2. destruct (RoutingController.markRecoveryRequired m_statePath (lit mark) w) as [r w'].
  cbn in Hb. subst r. done.
Qed.

Lemma applyRoutes_holds {E} p serverRoutes X :
  Forall canonical_route serverRoutes →
  hoare (λ _, True) (applyRoutes (R := R) (E := E) m_statePath p serverRoutes false)
    (succeeds (in_force p serverRoutes)) X.
Proof.
  intros Hs. apply h_call. unfold applyRoutes_body, leave_failure, routing. cbv zeta.
  destruct (mergeRoutes _ _) as [merged []] eqn:Em; cbn [negb cmd_when].
  2: { eapply (h_bind _ _ _ (λ _ _, False)); [|by intros ? w []]. apply fails_succeeds; [early|unfold leave_fail; leaves_tac]. }
  do 2 (apply step_any; [solve [early]|intros ?]).
  eapply (h_bind _ _ _ (λ a w, rr_ok a = true → in_force p serverRoutes w)).
  { destruct (text_eqb (p_routingMode p) all_except) eqn:Et.
    - apply text_eqb_eq in Et. eapply h_conseq; [by apply install_serves|done|done|]. intros r w Hf Ht. congruence.
    - apply text_eqb_neq in Et. by apply split_serves. }
  intros result. destruct (rr_ok result); cbn [negb].
  2: { apply (h_pre (λ _, True)); [done|]. destruct (_ && _); [apply fallback_fails|apply failure_succeeds]. }
  eapply (h_bind _ _ _ (λ a w, rr_ok a = true → in_force p serverRoutes w)).
  { eapply h_pre; [|apply bindDns_holds]. auto. }
  intros dns. destruct (rr_ok dns); cbn [negb].
  - eapply (h_bind _ _ _ (λ _, in_force p serverRoutes)); [apply h_modify; intros w Hw; exact (Hw eq_refl)|]. intros _.
    eapply h_bind; [apply save_or_fail_holds|]. intros ?. apply h_ret. by intros w Hw _.
  - apply (h_pre (λ _, True)); [done|]. apply step_any; [early|]. intros []; cbn [negb]; [apply failure_succeeds|].
    apply fails_succeeds; [early|]. unfold RoutingController.mark_and_fail. leaves_tac.
Qed.
End requests.

(** ** Replacing the policy *)

Section adopting.
Context {QT : QtText} {QN : QtNet} {QM : QtTime} {QD : QtData} {QJ : QtJsonText} {QF : QtFiles}.
Context {QTL : QtTextLaws QT} {QNL : QtNetLaws QN}.
Context {R : Type} {RT : Router R} {CH : ControllerHost R} (in_place : RouteRequest → R → Prop) {RH : RouterHolds in_place}.
Context (m_statePath : text).
Context (lookup_u32 : ∀ (k : R) host addresses a, ctl_resolve k host = Some addresses → HV4 a ∈ addresses → is_u32 a).

(** The state a command starts from. *)
Context (c0 : Controller).
Implicit Types (w : CWorld R) (c : Controller) (r : RoutingResult).

Notation same := (holds (R := R) (λ f, f = policy_of c0)).
Notation lost := (holds (R := R) (λ f, f = policy_of c0 ∨ no_policy f)).
Notation failed := (ControllerSafety.failed c0).
Notation in_force := (in_force in_place).

(** A policy that was fetched from the profile's endpoint, accepted against the
    metadata of [c0], and resolved. *)
Definition accepted (p : Profile) (policy : ServerRoutingPolicySnapshot) : Prop :=
  isSafePolicyEndpoint p (p_serverRulesUrl p) = Ok ()
  ∧ ∃ reply clock fetched elapsed lookup previous,
      replyPolicy reply (c_policyMetadata c0) (p_serverRulesUrl p) clock = Ok fetched
      ∧ resolve elapsed lookup fetched 4000 previous = Ok policy.

Definition adopted p policy w : Prop := accepted p policy ∧ policy_of (cw_state w) = policy_of (adopt_policy p policy c0).

Lemma accepted_canonical p policy : accepted p policy → Forall canonical_route (ServerRouting.routes policy).
Proof. intros (_ & reply & clock & fetched & elapsed & lookup & previous & _ & Hr). by eapply resolved_canonical. Qed.

(** The policy is kept or dropped; a new one is there only when the command
    succeeded and its routes are in force, or the state is marked for recovery. *)
Definition outcome r w : Prop :=
  lost w ∨ ∃ p policy, adopted p policy w
    ∧ ((rt_ok r = true ∧ in_force p (ServerRouting.routes policy) w) ∨ c_stateValid (cw_state w) = false).

Lemma failed_outcome r w : failed r w → outcome r w.
Proof. intros [_ H]. by left. Qed.

(** A save of a new policy: committed, or the state is invalid. *)
Lemma save_adopted p policy mark message :
  m_statePath ≠ [] →
  hoare (λ w, adopted p policy w ∧ in_force p (ServerRouting.routes policy) w) (save_or_fail m_statePath mark message)
    (λ _ w, adopted p policy w ∧ in_force p (ServerRouting.routes policy) w) outcome.
Proof.
  intros Hpath w [[Ha Hpol] Hin].
  pose proof (p_save_or_fail m_statePath (λ f, f = policy_of (adopt_policy p policy c0)) mark message w Hpol) as Hk.
  pose proof (save_or_fail_holds in_place m_statePath mark message p (ServerRouting.routes policy) (λ _, True) w Hin) as Hs.
  enough (hoare (λ _, True) (save_or_fail m_statePath mark message) (λ _ _, True)
            (λ _ w, c_stateValid (cw_state (R := R) w) = false)) as Hv.
  { specialize (Hv w Logic.I). destruct (save_or_fail m_statePath mark message w) as [[u|r] w'].
    - by split.
    - right. exists p, policy. split; [done|by right]. }
  unfold save_or_fail. eapply (h_bind _ _ _ (λ _ _, True)).
  { apply (hoare_total _ _ _ (λ _ _, True)); [apply t_save|]. intros w1 _. by destruct (saveState m_statePath w1) as [[] ?]. }
  intros []; [by apply h_ret|]. cbn [negb leave_if].
  eapply (h_bind _ _ _ (λ _ w, c_stateValid (cw_state w) = false)); [|intros r; by apply h_leave].
  eapply h_bind; [by apply markRecoveryRequired_invalid|]. intros b w1 Hw. exact Hw.
Qed.

Lemma same_applyPolicy p b o previous policy :
  m_statePath ≠ [] → policy_of previous = policy_of c0 → accepted p policy →
  hoare same (applyPolicy m_statePath p b o previous policy) outcome outcome.
Proof.
  intros Hpath Hp Ha. unfold applyPolicy.
  eapply h_bind.
  { eapply h_conseq; [apply h_and; [apply (same_applyRoutes m_statePath c0 p (ServerRouting.routes policy) false (λ _ _, False))
      |eapply h_pre; [|apply (applyRoutes_holds in_place m_statePath lookup_u32 p (ServerRouting.routes policy) (λ _ _, False));
                       by eapply accepted_canonical]]|done| |by intros e w []]; [done|].
    intros r w Hr. exact Hr. }
  intros r. unfold applied. destruct (rt_ok r) eqn:Hr; cbn [negb].
  - eapply (h_bind _ _ _ (λ _ w, adopted p policy w ∧ in_force p (ServerRouting.routes policy) w)).
    { apply h_modify. intros w [_ Hin]. split; [by split|]. exact (Hin Hr). }
    intros []. eapply h_bind; [by apply save_adopted|]. intros []. apply h_ret. intros w [Hw Hin]. right. exists p, policy. auto.
  - apply (h_pre lost); [by intros w [Hw _]|]. destruct (_ && _).
    + eapply h_conseq; [apply (lost_failAllExcept m_statePath c0 _ _ failed)|done|apply failed_outcome..].
    + destruct (text_eqb _ _); [apply h_ret; intros w Hw; by left|].
      eapply (h_bind _ _ _ (λ _, lost)).
      * destruct b; [|by apply h_ret].
        eapply h_conseq; [by apply (same_restoreBootstrap m_statePath c0 _ _ lost (λ _ _, False))|done| |done].
        intros ? w. apply same_lost.
      * intros []; [by apply h_ret; left|]. intros w Hw. by left.
Qed.

Lemma same_fetchPolicy p i :
  m_statePath ≠ [] →
  hoare (λ w, policy_of (cw_state w) = policy_of c0) (fetchPolicyAndApply (R := R) m_statePath p i) outcome outcome.
Proof.
  intros Hpath. unfold fetchPolicyAndApply, ctl, routing. cbv zeta.
  eapply (h_bind _ _ _ (λ _, same)); [by apply h_gets|]. intros persisted.
  eapply (h_bind _ _ _ (λ c w, policy_of c = policy_of c0 ∧ same w)); [by apply h_gets; auto|].
  intros previous. apply h_fact. intros Hp.
  eapply (h_bind _ _ _ (λ _, same)).
  { apply h_when; [|done]. intros _. eapply h_conseq; [by apply same_bootstrap|done|done|apply failed_outcome]. }
  intros [].
  eapply (h_bind _ _ _ (λ c w, c_policyMetadata c = c_policyMetadata c0 ∧ same w)).
  { apply h_gets. intros w Hw. split; [|done]. unfold holds, policy_of in Hw. congruence. }
  intros c. apply h_fact. intros Hc.
  assert (∀ code reason message b, hoare same (abandonPolicy m_statePath p b persisted previous code reason message)
            outcome outcome) as Hab.
  { intros. eapply h_conseq; [by apply same_abandon|done|apply failed_outcome..]. }
  destruct (isSafePolicyEndpoint p (p_serverRulesUrl p)) as [[]|e] eqn:Hsafe; [|apply Hab].
  eapply (h_bind _ _ _ (λ a w, (∀ fetched, a = Ok fetched → ∃ reply clock,
            replyPolicy reply (c_policyMetadata c0) (p_serverRulesUrl p) clock = Ok fetched) ∧ same w)).
  { intros w Hw. unfold fetchPolicy, cmd_bind, route, gets, cmd_get, pure, cmd_ret.
    destruct (ctl_fetch (p_serverRulesUrl p) (cw_router w)) as [reply r]. split; [|done]. intros fetched E.
    rewrite Hc in E. eauto. }
  intros [fetched|[code message]]; apply h_fact; intros Hf; [|apply Hab].
  eapply (h_bind _ _ _ (λ _, same)); [by apply h_gets|]. intros c1.
  eapply (h_bind _ _ _ (λ a w, (∀ policy, a = Ok policy → accepted p policy) ∧ same w)).
  { apply h_gets. intros w Hw. split; [|done]. intros policy E. split; [done|].
    destruct (Hf fetched eq_refl) as (reply & clock & Hr). eauto 10. }
  intros [policy|[code message]]; apply h_fact; intros Hpol; [|apply Hab].
  apply same_applyPolicy; auto.
Qed.

Lemma same_fetchAndApply {E} p X :
  m_statePath ≠ [] → hoare same (fetchAndApply (R := R) (E := E) m_statePath p) outcome X.
Proof.
  intros Hpath. apply h_call. unfold fetchAndApply_body, leave_failure. cbv zeta.
  apply step; [neutral|early|by intros r w _ Hw; left; apply same_lost|]. intros [].
  destruct (negb _); [by apply same_fetchPolicy|].
  eapply h_bind; [apply same_applyRoutes|]. intros r. unfold applied. destruct (rt_ok r).
  - eapply (h_bind _ _ _ (λ _, lost)); [by apply h_modify; right|]. intros [].
    apply step; [neutral|early|by intros ? w _ Hw; left|]. intros []. apply h_ret. intros w Hw. by left.
  - apply h_ret. intros w Hw. by left.
Qed.

Lemma same_command cm : m_statePath ≠ [] → hoare same (cmd_body (R := R) m_statePath cm) outcome outcome.
Proof.
  intros Hpath. assert (∀ r w, rt_ok r = false → same w → outcome r w) as Hx.
  { intros r w _ Hw. left. by apply same_lost. }
  assert (∀ r w, rt_ok r = false → lost w → outcome r w) as Hx' by (intros r w _ Hw; by left).
  assert (∀ w, lost w → outcome routed w) as Hr by (intros w Hw; by left).
  destruct cm as [p|p|]; unfold cmd_body, connect_body, refresh_body, disconnect_body, connectWithoutRoutes,
    guard_state, guard_routing, invalidState, invalidRoutes, leave_failure, ctl, routing; cbv zeta.
  - do 7 (apply step; [solve [neutral]|solve [early]|exact Hx|intros ?]).
    destruct (_ && _); [|by apply same_fetchAndApply].
    do 6 (apply step; [solve [neutral]|solve [early]|exact Hx|intros ?]).
    eapply (h_bind _ _ _ (λ _, lost)); [by apply h_modify; right|]. intros [].
    apply step; [neutral|early|exact Hx'|]. intros []. by apply h_ret.
  - do 3 (apply step; [solve [neutral]|solve [early]|exact Hx|intros ?]). by apply same_fetchAndApply.
  - do 7 (apply step; [solve [neutral]|solve [early]|exact Hx|intros ?]).
    eapply (h_bind _ _ _ (λ _, lost)); [by apply h_modify; right|]. intros [].
    apply step; [neutral|early|exact Hx'|]. intros []. by apply h_ret.
Qed.


Lemma replyPolicy_parsed reply current url clock fetched :
  replyPolicy reply current url clock = Ok fetched → ∃ data, parse data current url clock = Ok fetched.
Proof.
  unfold replyPolicy. destruct (_ && _); [done|]. destruct (consume _ _) as [data|]; [|done].
  destruct (negb _); [done|]. destruct (_ || _); [done|]. eauto.
Qed.

Lemma resolve_metadata elapsed lookup fetched deadline previous policy :
  resolve elapsed lookup fetched deadline previous = Ok policy → metadata policy = metadata fetched.
Proof.
  unfold resolve, ServerRouting.failure. destruct (_ || _); [done|]. destruct (resolveDomains _ _ _ _ _ _ _ _).
  destruct (validatedManagedRoutes _) as [? []]; [|done]. cbn [negb]. intros E. by simplify_eq.
Qed.

Lemma accepted_supersedes p policy m0 :
  accepted p policy → c_policyMetadata c0 = Some m0 → supersedes m0 (metadata policy).
Proof.
  intros (_ & reply & clock & fetched & elapsed & lookup & previous & Hf & Hr) Hm.
  apply resolve_metadata in Hr as ->. apply replyPolicy_parsed in Hf as [data Hd].
  apply parse_Ok in Hd as (object & _ & Ho & _). apply parseObject_Ok in Ho as (_ & _ & Hv & _).
  apply validateCandidate_Ok in Hv as (content & H1 & H2 & H3 & H4 & H5 & H6 & H7 & H8 & H9 & H10 & H11 & H12 & H13).
  by apply H13.
Qed.
End adopting.

Section claim.
Context {QT : QtText} {QN : QtNet} {QM : QtTime} {QD : QtData} {QJ : QtJsonText} {QF : QtFiles}.
Context {QTL : QtTextLaws QT} {QNL : QtNetLaws QN}.
Context {R : Type} {RT : Router R} {CH : ControllerHost R} (in_place : RouteRequest → R → Prop) {RH : RouterHolds in_place}.
Context (m_statePath : text).
Context (lookup_u32 : ∀ (k : R) host addresses a, ctl_resolve k host = Some addresses → HV4 a ∈ addresses → is_u32 a).

End claim.
