(* ===== verification/ControllerTunnel.v ===== *)
(** * The controller over the route reconciler: a connected full tunnel

    LinuxRouteReconciler is an instance of the interface [Router] that the
    routing controller is written against, over one outer world that also holds
    the controller's own files and requests, and of [RouterHolds].  When the controller reports that a profile in the mode all-except is
    connected, the tunnel was read back from the kernel after the last change
    of a route or rule, and no bypassed destination lies in a network of the
    VPN. *)

From stdpp Require Import gmap.
From S2P Require Import Prelude Text Json QtInterface QtModel Ipv4 RoutePolicy PolicyLifecycle ServerRouting JsonText.
From S2P Require Import Command RouteGrammar RouteState RouteRules FullTunnel RouteTransactions RouteStartup.
From S2P Require Import RouteFrame RouteSafety RouteOwnership RouteCommit RouteChoice ProfileStore PolicyEndpoint.
From S2P Require Import BypassRoutes RoutingController RoutingConnect ControllerSafety ControllerRestart.
From S2P Require Import ControllerAdoption.
#[local] Open Scope Z_scope.
#[local] Open Scope amnezia_scope.

(** ** The instances *)

Section instances.
Context `{QT : QtText} `{QN : QtNet} `{QD : QtData} {W : Type} `{HW : Host W}.
Context (foldCase : Z → Z) (toUpper : text → text) (routePath : text) (legacyIntent : bool).
Context (set_order : gset text → list text).

Definition reconcilerRouter : Router (World W) := {|
  router_status := λ w, status routePath (w_state w);
  router_new := new_process;
  router_initialize := returns (RouteStartup.initializeState foldCase toUpper routePath legacyIntent);
  router_apply := λ i routes, run_op foldCase routePath set_order (OpApply i routes);
  router_applyAllExcept := λ i b c, run_op foldCase routePath set_order (OpApplyAllExcept i b c);
  router_clear := run_op foldCase routePath set_order OpClear;
  router_configureDns := λ i servers domains, run_op foldCase routePath set_order (OpConfigureDns i servers domains);
  router_clearDns := λ i, run_op foldCase routePath set_order (OpClearDns i);
  router_requireRecovery := λ message w,
    let '(r, w') := run_op foldCase routePath set_order (OpRequireRecovery message) w in (rr_ok r, w');
  router_underlay := λ i forward, returns (activeUnderlayProtectedRoutes foldCase i forward);
|}.

(** The controller's files and requests belong to the same outer world. *)
Definition outerController (CH : ControllerHost W) : ControllerHost (World W) := {|
  ctl_io := λ o w, let '(b, k) := ctl_io o (w_outer w) in (b, with_outer k w);
  ctl_config := λ w, ctl_config (w_outer w);
  ctl_resolve := λ w, ctl_resolve (w_outer w);
  ctl_fetch := λ url w, let '(reply, k) := ctl_fetch url (w_outer w) in (reply, with_outer k w);
  ctl_now := λ w, ctl_now (w_outer w);
  ctl_elapsed := λ w, ctl_elapsed (w_outer w);
  ctl_lookup := λ w, ctl_lookup (w_outer w);
|}.
End instances.

(** A fact about the reconciler under the controller. *)
Definition on_router {R} (I : R → Prop) (w : CWorld R) : Prop := I (cw_router w).

(** ** Routes apart from the VPN *)

Section apart.
Context `{QT : QtText} `{QN : QtNet} `{!QtTextLaws QT} `{!QtNetLaws QN}.

(** No address of the route is in a network of the VPN. *)
Definition apart_from (forward : list text) (r : text) : Prop :=
  ∀ f x, f ∈ forward → route_covers r x → ¬ route_covers f x.

(** The two readings of a canonical route agree. *)
Lemma canonical_covers r a p x :
  canonical_route r → parseIpv4Route r = Some (a, p) → route_covers r x ↔ in_net a p x.
Proof.
  intros (b & q & Hwf & -> & E)%canonical_network E'. rewrite E in E'. simplify_eq. unfold route_covers.
  rewrite parse_route_text by done. split; [|eauto]. intros (? & ? & ? & ?). by simplify_eq.
Qed.

Lemma outside_apart forward r :
  Forall (λ f, trimmed f = f) forward → canonical_route r → outside forward r → apart_from forward r.
Proof.
  intros Hf Hr (a & p & E & Ho) f x Hin Hx (b & q & Ef & Hfx). rewrite Forall_forall in Hf.
  apply (canonical_covers r a p x Hr E) in Hx. eapply Ho; [done| |done|done].
  by apply parse_ipv4_trimmed; [apply Hf|].
Qed.

(** The canonical form covers nothing more. *)
Lemma canonical_apart forward v : apart_from forward v → apart_from forward (canonicalManagedIpv4Route v).
Proof.
  intros Hv f x Hin Hx. apply Hv; [done|]. destruct Hx as (a & p & E & Hx).
  destruct (canonical_cases v) as [[Ev _]|(b & q & Ev & Hwf & Hp & _)]; rewrite Ev in E; [done|].
  rewrite parse_route_text in E by done. simplify_eq. by exists a, p.
Qed.

Lemma validated_apart forward l l' :
  (∀ v, v ∈ l → apart_from forward v) → validatedManagedRoutes l = (l', true) → ∀ r, r ∈ l' → apart_from forward r.
Proof.
  intros Hl (_ & _ & _ & Hin)%managedRoutes_valid r (v & Hv & ->)%Hin. by apply canonical_apart, Hl.
Qed.

Lemma underlay_apart s vpn forward l :
  underlayProtectedRoutes s vpn forward = Ok l → ∀ r, r ∈ l → apart_from forward r.
Proof.
  unfold underlayProtectedRoutes. destruct (valid s); cbn [negb]; [|done].
  destruct (physicalDefault (mainRouteLines s)) as [selected|]; [|done]. intros [= <-] r Hr.
  apply (protected_spec vpn forward selected (mainRouteLines s) [] NoDup_nil_2) in Hr as [Hr|(line & _ & c & _ & Hp & <-)];
    [by apply elem_of_nil in Hr|].
  unfold protectedCandidate in Hp. rewrite !andb_true_iff, !negb_true_iff in Hp.
  destruct Hp as [[[[[[_ _] _] H4] H5] _] _]. destruct (private_prefix _ H4) as [Hne _].
  intros f x Hf Hx Hfx. by eapply apart.
Qed.
End apart.

(** ** What the reconciler holds *)

Section held.
Context {QT : QtText} {QN : QtNet} {QD : QtData} {W : Type} {HW : Host W} {CH : ControllerHost W}.
Context (foldCase : Z → Z) (toUpper : text → text) (routePath : text) (legacyIntent : bool).
Context (set_order : gset text → list text).

#[local] Instance heldRouter : Router (World W) := reconcilerRouter foldCase toUpper routePath legacyIntent set_order.
#[local] Instance heldHost : ControllerHost (World W) := outerController CH.

(** A request in place: the object names it; each route of the split mode was
    put in place by a successful command, and a full tunnel was read back from
    the kernel before nothing but resolver commands and readings. *)
Definition held (t : RouteRequest) (w : World W) : Prop :=
  let st := w_state w in
  match t with
  | OnlyForward i routes => split_in_place i (sort_text (remove_duplicates (validatedManagedRoutes routes).1)) w
  | AllExcept i bypass _ =>
      m_mode st = all_except ∧ m_interfaceName st = i ∧ m_bypassRoutes st = remove_duplicates (validatedManagedRoutes bypass).1
      ∧ ∃ pre h s post, w_log w = pre ++ h ++ post ∧ reading_of s h
          ∧ tunnel_up s i (m_bypassRulePriority st) (m_fullRulePriority st) (m_bypassRoutes st)
          ∧ Forall (λ e, resolver_call (ev_call e)) post
  end.

Lemma held_same t w w' : same_routing (w_state w) (w_log w) w' → held t w → held t w'.
Proof.
  intros [Hs (l & Hl & Hf)]. unfold routing_of in Hs. injection Hs as E1 E2 E3 E4 E5 E6 E7 E8. destruct t as [i routes|i b c]; cbn.
  - intros (H1 & H2 & H3 & H4). split; [congruence|]. split; [congruence|]. split; [congruence|]. intros r Hr.
    destruct (H4 r Hr) as (e & p & He & Hc). exists e, p. split; [|done]. rewrite Hl. apply elem_of_app. by left.
  - rewrite E1, E2, E4, E6, E7. intros (H1 & H2 & H3 & pre & h & s & post & El & Hr & Hu & Hp). do 3 (split; [done|]).
    exists pre, h, s, (post ++ l). rewrite Hl, El, <-!app_assoc. do 3 (split; [done|]). by apply Forall_app.
Qed.

#[export] Instance reconciler_holds : RouterHolds held.
Proof.
  split.
  - intros i routes w a w' E Hok. exact (proj2 (h_returns (λ _, True) _ _ w a w' (apply_installs foldCase routePath set_order i routes) Logic.I E Hok)).
  - intros i b c w a w' E Hok.
    destruct (h_returns (λ _, True) _ _ w a w' (applyAllExcept_commits foldCase routePath set_order i b c) Logic.I E Hok)
      as [(H1 & H2 & _ & H4 & _ & _ & (pre & h & s & Hl & Hr & Hu) & _) _].
    cbn. do 3 (split; [done|]). exists pre, h, s, []. rewrite app_nil_r, H4. done.
  - intros t i servers domains w a w' Ht E Hok. apply (held_same t w); [|done]. revert Hok.
    refine (h_returns (same_routing (w_state w) (w_log w)) _ (dns_outcome (w_state w) (w_log w)) w a w' _ _ E);
      [apply configureDns_routing|]. split; [done|]. exists []. by rewrite app_nil_r.
  - intros t i w a w' Ht E Hok. apply (held_same t w); [|done]. revert Hok.
    refine (h_returns (same_routing (w_state w) (w_log w)) _ (dns_outcome (w_state w) (w_log w)) w a w' _ _ E);
      [apply clearDns_routing|]. split; [done|]. exists []. by rewrite app_nil_r.
  - intros t o w Ht. cbn [ctl_io heldHost outerController]. destruct (ctl_io o (w_outer w)) as [b k]. exact Ht.
Qed.
End held.

Section tunnel.
Context {QT : QtText} {QN : QtNet} {QM : QtTime} {QD : QtData} {QJ : QtJsonText} {QF : QtFiles}.
Context {QTL : QtTextLaws QT} {QNL : QtNetLaws QN}.
Context {W : Type} {HW : Host W} {CH : ControllerHost W}.
Context (foldCase : Z → Z) (toUpper : text → text) (routePath : text) (legacyIntent : bool).
Context (set_order : gset text → list text).
Context (m_statePath : text).

#[local] Instance tunnelRouter : Router (World W) :=
  reconcilerRouter foldCase toUpper routePath legacyIntent set_order.
#[local] Instance tunnelHost : ControllerHost (World W) := outerController CH.

(** A lookup answers with 32-bit IPv4 addresses. *)
Context (lookup_u32 : ∀ (k : W) host addresses a, ctl_resolve k host = Some addresses → HV4 a ∈ addresses → is_u32 a).
(** The forwarded networks are stored without surrounding blanks. *)
Context (p : Profile) (forward_trimmed : Forall (λ f, trimmed f = f) (p_forwardRoutes p)).

(** The tunnel on the profile's interface: in memory, and read back from the
    kernel before nothing but resolver commands and readings. *)
Definition tunnel_in_place (w : World W) : Prop :=
  let st := w_state w in
  m_mode st = all_except ∧ m_interfaceName st = defaultInterfaceFor p ∧ m_routes st = [] ∧ m_needsReapply st = false
  ∧ (∃ pre h s post, w_log w = pre ++ h ++ post ∧ reading_of s h
       ∧ tunnel_up s (defaultInterfaceFor p) (m_bypassRulePriority st) (m_fullRulePriority st) (m_bypassRoutes st)
       ∧ Forall (λ e, resolver_call (ev_call e)) post)
  ∧ ∀ r, r ∈ m_bypassRoutes st → apart_from (p_forwardRoutes p) r.

Notation cprog E A := (prog (CWorld (World W)) E A).

Lemma h_router {E A} (P : World W → Prop) (m : World W → A * World W) (Q : A → World W → Prop) (X : E → _) :
  (∀ w a w', P w → m w = (a, w') → Q a w') →
  hoare (λ w : CWorld (World W), P (cw_router w)) (route m) (λ a w, Q a (cw_router w)) X.
Proof. intros Hm w Hw. unfold route. destruct (m (cw_router w)) as [a w'] eqn:E1. by eapply Hm. Qed.

Lemma h_some {E A T} (F : T → Prop) (m : cprog E A) Q X :
  (∀ k, F k → hoare (λ _, True) m Q X) → hoare (λ _, ∃ k, F k) m Q X.
Proof. intros Hm w [k Hk]. exact (Hm k Hk w Logic.I). Qed.

(** The routes that are to bypass the tunnel. *)
Lemma target_apart i serverRoutes :
  Forall canonical_route serverRoutes →
  hoare (λ _, True) (onlineTarget (R := World W) p i serverRoutes)
    (λ t _, ∀ r, r ∈ t.1 → apart_from (p_forwardRoutes p) r) (λ r _, rt_ok r = false).
Proof.
  intros Hs. unfold onlineTarget, bypassRoutesNow, leave_failure.
  eapply (h_bind _ _ _ (λ t _, ∃ k, allExceptBypassRoutes (ctl_resolve (k : W)) (ctl_config k) p serverRoutes = t)).
  { apply h_gets. intros w _. by exists (w_outer (cw_router w)). }
  intros [[routes valid] critical]. apply h_some. intros k Hk. destruct valid; [|by intros w _].
  destruct (bypass_spec (ctl_resolve k) (ctl_config k) (lookup_u32 k) p serverRoutes routes critical Hs Hk)
    as (_ & Hc & _ & Ho & _ & Hcr).
  assert (∀ r, r ∈ routes → apart_from (p_forwardRoutes p) r) as Hr.
  { intros r Hin. rewrite Forall_forall in Hc. apply outside_apart; [done|by apply Hc|by apply Ho]. }
  cbn [negb cmd_when]. eapply (h_bind (λ _, True) _ _ (λ _ _, True)); [by apply h_ret|]. intros _.
  eapply (h_bind _ _ _ (λ l _, ∀ r, r ∈ l → apart_from (p_forwardRoutes p) r)).
  - unfold underlayRoutes.
    eapply (h_bind _ _ _ (λ found _, ∀ l, found = Ok l → ∀ r, r ∈ l → apart_from (p_forwardRoutes p) r)).
    + intros w _. unfold route, router_underlay, tunnelRouter, reconcilerRouter, activeUnderlayProtectedRoutes, returns, cmd_bind.
      destruct (readRuleSnapshot foldCase (cw_router w)) as [[s|e] w'] eqn:E1.
      * cbn. intros l El. by eapply underlay_apart.
      * destruct (total_call (E := result text (list text)) (readRuleSnapshot_body (W := W) foldCase) (cw_router w)) as [x Hx].
        unfold readRuleSnapshot in E1. by rewrite E1 in Hx.
    + intros [l|e]; [apply h_ret; eauto|]. destruct (is_empty e); [|by intros w _].
      apply h_ret. intros w _ r Hr'. by apply elem_of_nil in Hr'.
  - intros underlay. apply h_ret. intros w Hu r Hin. cbn [fst] in Hin.
    assert (r ∈ critical ++ underlay ∨ r ∈ routes) as [[H1|H1]%elem_of_app|H1].
    { clear -Hin. revert Hin. generalize (critical ++ underlay). intros acc. revert acc.
      induction routes as [|x l IH]; intros acc; cbn [foldl]; [by left|]. intros Hin. apply IH in Hin as [Hin|Hin].
      - apply elem_of_append_new in Hin as [Hin|Hin]; [by left|right]. subst. left.
      - right. by right. }
    + apply Hr, Hcr. done.
    + by apply Hu.
    + by apply Hr.
Qed.

Notation inTunnel := (on_router tunnel_in_place).

Lemma committed_in_place b c w :
  committed routePath (defaultInterfaceFor p) b c w → (∀ r, r ∈ b → apart_from (p_forwardRoutes p) r) → tunnel_in_place w.
Proof.
  intros (H1 & H2 & H3 & H4 & _ & H6 & (pre & h & s & Hl & Hr & Hu) & _) Hb. unfold tunnel_in_place. cbv zeta.
  rewrite H4. do 4 (split; [done|]). split; [|done]. exists pre, h, s, []. rewrite app_nil_r. by split_and!.
Qed.

Lemma install_in_place serverRoutes previous :
  Forall canonical_route serverRoutes →
  hoare (λ _, True) (installAllExcept (R := World W) p (defaultInterfaceFor p) serverRoutes false previous)
    (λ r w, rr_ok r = true → inTunnel w) (λ r _, rt_ok r = false).
Proof.
  intros Hs. unfold installAllExcept, leave_failure. eapply h_bind; [by apply target_apart|]. intros [ordered critical].
  apply (h_pre (λ _ : CWorld (World W), (∀ r, r ∈ ordered → apart_from (p_forwardRoutes p) r) ∧ True)); [done|].
  apply h_fact. intros Ho. destruct (validatedManagedRoutes ordered) as [ordered' orderedValid] eqn:Ev.
  destruct orderedValid; cbn [negb cmd_when]; [|by intros w _].
  eapply (h_bind _ _ _ (λ _ _, True)); [by apply h_ret|]. intros _.
  refine (h_router (λ _, True) _ (λ r w, rr_ok r = true → tunnel_in_place w) _ _).
  intros w r w' _ E Hok. cbn [router_applyAllExcept tunnelRouter reconcilerRouter] in E.
  pose proof (h_returns (λ _, True) _ _ w r w'
    (applyAllExcept_commits foldCase routePath set_order (defaultInterfaceFor p) ordered' critical) Logic.I E Hok) as [Hc _].
  apply committed_in_place in Hc; [done|]. intros x Hx. apply (proj1 (elem_of_remove_duplicates _ _)) in Hx.
  destruct (validatedManagedRoutes ordered') as [l2 v2] eqn:E2. cbn [fst] in Hx.
  pose proof (validated_apart _ _ _ Ho Ev) as Ho'.
  assert (v2 = true) as ->.
  { apply managedRoutes_valid in Ev as (Hnd & Hlen & Hcan & _). rewrite managedRoutes_fixed in E2 by done. by simplify_eq. }
  exact (validated_apart _ _ _ Ho' E2 x Hx).
Qed.

(** A resolver operation that succeeds. *)
Lemma same_in_place w w' : same_routing (w_state w) (w_log w) w' → tunnel_in_place w → tunnel_in_place w'.
Proof.
  intros [Hs (l & Hl & Hf)] (H1 & H2 & H3 & H4 & (pre & h & s & post & El & Hr & Hu & Hp) & Hb).
  unfold routing_of in Hs. injection Hs as E1 E2 E3 E4 E5 E6 E7 E8. unfold tunnel_in_place. cbv zeta.
  rewrite E1, E2, E3, E4, E6, E7, E8. do 4 (split; [done|]). split; [|done].
  exists pre, h, s, (post ++ l). rewrite Hl, El, <-!app_assoc. do 3 (split; [done|]). by apply Forall_app.
Qed.

Lemma bindDns_in_place {E} current X :
  hoare inTunnel (bindDns (R := World W) (E := E) p (defaultInterfaceFor p) current)
    (λ r w, rr_ok r = true → inTunnel w) X.
Proof.
  unfold bindDns. destruct (_ || _).
  - refine (h_router tunnel_in_place _ (λ r w, rr_ok r = true → tunnel_in_place w) _ _). intros w r w' Hw E1 Hok.
    apply (same_in_place w); [|done]. revert Hok.
    refine (h_returns (same_routing (w_state w) (w_log w)) _ (dns_outcome (w_state w) (w_log w)) w r w' _ _ E1).
    + apply configureDns_routing.
    + split; [done|]. exists []. by rewrite app_nil_r.
  - destruct (negb _); [|by apply h_ret].
    refine (h_router tunnel_in_place _ (λ r w, rr_ok r = true → tunnel_in_place w) _ _). intros w r w' Hw E1 Hok.
    apply (same_in_place w); [|done]. revert Hok.
    refine (h_returns (same_routing (w_state w) (w_log w)) _ (dns_outcome (w_state w) (w_log w)) w r w' _ _ E1).
    + apply clearDns_routing.
    + split; [done|]. exists []. by rewrite app_nil_r.
Qed.

(** Saving the controller's receipt does not touch the tunnel. *)
Lemma saveState_in_place {E} : keeps inTunnel (RoutingController.saveState (R := World W) (E := E) m_statePath).
Proof.
  assert (∀ E o, keeps inTunnel (file (R := World W) (E := E) o)) as Hf.
  { intros E' o w Hw. unfold file. cbn [ctl_io tunnelHost outerController].
    destruct (ctl_io o (w_outer (cw_router w))) as [b k]. exact Hw. }
  unfold RoutingController.saveState. destruct (is_empty m_statePath); [apply k_pure|].
  apply k_bind; [apply Hf|]. intros b. apply k_bind; [apply k_gets|]. intros c.
  apply k_bind; [apply k_when; by intros w Hw|]. intros _. apply k_bind; [|intros _; apply k_pure].
  apply k_when. apply k_bind; [apply Hf|]. intros removed. apply k_when. by intros w Hw.
Qed.

Lemma save_or_fail_in_place mark message Q :
  hoare inTunnel (save_or_fail (R := World W) m_statePath mark message) (λ _, inTunnel) (succeeds Q).
Proof.
  unfold save_or_fail. eapply (h_bind _ _ _ (λ _, inTunnel)); [apply (hoare_total _ _ _ (λ _, inTunnel));
    [apply t_save|apply saveState_in_place]|].
  intros [].
  - by apply h_ret.
  - cbn [negb leave_if]. apply (h_pre (λ _, True)); [done|]. apply fails_succeeds; [|leaves_tac].
    intros w Hw. pose proof (t_mark (R := World W) (E := RoutingResult) m_statePath (lit mark) w) as [b Hb].
    unfold cmd_bind at 1 2. destruct (RoutingController.markRecoveryRequired m_statePath (lit mark) w) as [r w'].
    cbn in Hb. subst r. done.
Qed.

Lemma applyRoutes_in_place {E} serverRoutes X :
  p_routingMode p = all_except → Forall canonical_route serverRoutes →
  hoare (λ _, True) (RoutingConnect.applyRoutes (R := World W) (E := E) m_statePath p serverRoutes false)
    (succeeds inTunnel) X.
Proof.
  intros Hm Hs. apply h_call. unfold applyRoutes_body, leave_failure, routing. cbv zeta. rewrite Hm, text_eqb_refl.
  destruct (mergeRoutes _ _) as [merged routesValid]. do 2 (apply step_any; [solve [early]|intros ?]).
  eapply (h_bind _ _ _ (λ r w, rr_ok r = true → inTunnel w)).
  { eapply h_conseq; [by apply install_in_place|done|done|]. intros r w Hf Ht. congruence. }
  intros result. destruct (rr_ok result); cbn [negb].
  2: { apply (h_pre (λ _, True)); [done|]. destruct (_ && _); [apply fallback_fails|apply failure_succeeds]. }
  eapply (h_bind _ _ _ (λ r w, rr_ok r = true → inTunnel w)).
  { eapply h_pre; [|apply bindDns_in_place]. auto. }
  intros dns. destruct (rr_ok dns); cbn [negb].
  - eapply (h_bind _ _ _ (λ _, inTunnel)); [apply h_modify; intros w Hw; exact (Hw eq_refl)|]. intros _.
    eapply h_bind; [apply save_or_fail_in_place|]. intros ?. apply h_ret. by intros w Hw _.
  - apply (h_pre (λ _, True)); [done|]. apply step_any; [early|]. intros []; cbn [negb]; [apply failure_succeeds|].
    apply fails_succeeds; [early|]. unfold RoutingController.mark_and_fail. leaves_tac.
Qed.

Lemma failAllExcept_fails {E} reason Q X :
  hoare (λ _, True) (failAllExcept (R := World W) (E := E) m_statePath p reason) (succeeds Q) X.
Proof.
  unfold failAllExcept, routing. eapply (h_bind _ _ _ (λ _ _, True)); [by apply h_gets|]. intros o.
  destruct (_ && _); [apply fallback_fails|apply failure_succeeds].
Qed.

Lemma e_bootstrap persisted previous : fails_early (bootstrapRoutes (R := World W) m_statePath p persisted previous).
Proof.
  unfold bootstrapRoutes, leave_failure. cbv zeta. eapply (h_bind _ _ _ (λ _ _, True)).
  { apply (hoare_total _ _ _ (λ _ _, True)); [apply total_call|]. intros w _.
    by destruct (RoutingConnect.applyRoutes m_statePath p [] _ w) as [[] ?]. }
  intros bootstrap. destruct (rt_ok bootstrap) eqn:Hb; cbn [negb].
  - change (fails_early (if c_needsReapply previous then
      let! _ := set (set_needsReapply true) in
      save_or_fail (R := World W) m_statePath "offline routing reapply marker could not be retained"
        "offline routing reapply state could not be saved" else pure ())).
    unfold set. early.
  - destruct (_ && _).
    + eapply h_bind; [apply (failAllExcept_fails _ (λ _, False))|]. intros r. apply h_leave. intros w Hr.
      unfold succeeds in Hr. by destruct (rt_ok r); [destruct Hr|].
    + eapply (h_bind _ _ _ (λ _ _, True)).
      { apply (hoare_total _ _ _ (λ _ _, True)); [unfold restoreBootstrap, restoreRoutingSnapshot, set; total_tac|].
        intros w _. by destruct (restoreBootstrap m_statePath persisted previous w) as [[] ?]. }
      intros []; [by apply h_leave|apply e_leave_fail].
Qed.

Lemma applyPolicy_in_place b persisted previous policy :
  p_routingMode p = all_except → Forall canonical_route (ServerRouting.routes policy) →
  hoare (λ _, True) (applyPolicy (R := World W) m_statePath p b persisted previous policy)
    (succeeds inTunnel) (succeeds inTunnel).
Proof.
  intros Hm Hs. unfold applyPolicy, fail. eapply h_bind; [by apply applyRoutes_in_place|]. intros r.
  destruct (rt_ok r) eqn:Hr; cbn [negb].
  - eapply (h_bind _ _ _ (λ _, inTunnel)); [apply h_modify; intros w Hw; exact (Hw Hr)|]. intros ?.
    eapply h_bind; [apply save_or_fail_in_place|]. intros ?. apply h_ret. by intros w Hw _.
  - apply (h_pre (λ _, True)); [done|]. assert (∀ w : CWorld (World W), True → succeeds inTunnel r w) as Hf
      by (intros w _; unfold succeeds; congruence).
    destruct (_ && _); [apply failAllExcept_fails|]. destruct (text_eqb _ _); [by apply h_ret|].
    eapply (h_bind _ _ _ (λ _ _, True)).
    { destruct b; [|by apply h_ret].
      apply (hoare_total _ _ _ (λ _ _, True)); [unfold restoreBootstrap, restoreRoutingSnapshot, set; total_tac|].
      intros w _. by destruct (restoreBootstrap m_statePath persisted previous w) as [[] ?]. }
    intros []; [by apply h_ret|apply failure_succeeds].
Qed.

Lemma abandon_fails b persisted previous code reason lost Q :
  p_routingMode p = all_except →
  hoare (λ _, True) (abandonPolicy (R := World W) m_statePath p b persisted previous code reason lost)
    (succeeds Q) (succeeds Q).
Proof. intros Hm. unfold abandonPolicy. rewrite Hm, text_eqb_refl. apply failAllExcept_fails. Qed.

Lemma fetchAndApply_in_place {E} X :
  p_routingMode p = all_except →
  hoare (λ _, True) (fetchAndApply (R := World W) (E := E) m_statePath p) (succeeds inTunnel) X.
Proof.
  intros Hm. apply h_call. unfold fetchAndApply_body, leave_failure. cbv zeta.
  apply step_any; [early|]. intros ?. destruct (negb (is_empty (p_serverRulesUrl p))).
  - unfold fetchPolicyAndApply, ctl, routing. cbv zeta.
    do 2 (apply step_any; [solve [early]|intros ?]). apply step_any; [apply e_when, e_bootstrap|intros ?].
    apply step_any; [early|intros ?]. destruct (isSafePolicyEndpoint _ _); [|by apply abandon_fails].
    apply step_any; [unfold fetchPolicy; early|]. intros [policy|[code message]]; [|by apply abandon_fails].
    apply step_any; [early|intros ?].
    eapply (h_bind _ _ _ (λ resolved _, ∀ s, resolved = Ok s → Forall canonical_route (ServerRouting.routes s))).
    { apply h_gets. intros w _ s Hs. by eapply resolved_canonical. }
    intros [policy'|[code message]].
    + intros w Hw. by apply applyPolicy_in_place; [|apply Hw|].
    + apply (h_pre (λ _, True)); [done|]. by apply abandon_fails.
  - eapply h_bind; [by apply applyRoutes_in_place|]. intros r. destruct (rt_ok r) eqn:Hr.
    + eapply (h_bind _ _ _ (λ _, inTunnel)); [apply h_modify; intros w Hw; exact (Hw Hr)|]. intros ?.
      eapply h_bind; [apply save_or_fail_in_place|]. intros ?. apply h_ret. by intros w Hw _.
    + apply h_ret. intros w _. unfold succeeds. congruence.
Qed.

(** C1. A connected full tunnel is there, and leaks nothing of the VPN.  When
    [connect] or [refresh] of a profile in the mode all-except reports success,
    the reconciler is in that mode on the profile's interface; its last reading
    before anything but resolver commands and further readings showed table
    51821 with exactly the half-default routes on that interface, one
    full-tunnel rule per family and exactly one bypass rule per bypassed
    destination; and no bypassed destination, whether an endpoint of the
    configuration, a route of the server's policy or a prefix of the local
    network, shares an address with a network of the VPN. *)
Theorem full_tunnel_connected c w r w' :
  c = CConnect p ∨ c = CRefresh p → p_routingMode p = all_except →
  run_ctl m_statePath c w = (r, w') → rt_ok r = true → tunnel_in_place (cw_router w').
Proof.
  intros Hc Hm E Hr. revert Hr. refine (h_returns (λ _, True) _ (succeeds inTunnel) w r w' _ Logic.I E).
  destruct Hc as [-> | ->]; unfold cmd_body, connect_body, refresh_body, guard_state, guard_routing, invalidState,
    invalidRoutes, leave_failure, ctl, routing, set; cbv zeta.
  - do 7 (apply step_any; [solve [early]|intros ?]). rewrite Hm, text_eqb_refl. by apply fetchAndApply_in_place.
  - do 3 (apply step_any; [solve [early]|intros ?]). by apply fetchAndApply_in_place.
Qed.
End tunnel.
