(* ===== verification/ControllerExamples.v ===== *)
(** * The routing controller on a small machine

    The controller runs over the real reconciler on the kernel of
    RouteExamples.v, with a configuration file and a server that answers a
    policy.  The runs instantiate the theorems about the controller. *)

From stdpp Require Import gmap.
From S2P Require Import Prelude Text Json QtInterface QtModel Ipv4 Command RoutePolicy PolicyLifecycle ServerRouting.
From S2P Require Import JsonText RouteGrammar RouteState RouteRules FullTunnel RouteTransactions RouteStartup RouteFrame.
From S2P Require Import RouteSafety RouteOwnership RouteCommit RouteChoice RouteExamples ProfileStore.
From S2P Require Import PolicyEndpoint BypassRoutes RoutingController RoutingConnect ControllerSafety ControllerRestart.
From S2P Require Import ControllerAdoption ControllerTunnel.
#[local] Open Scope Z_scope.
#[local] Open Scope amnezia_scope.

Lemma colon_notin_dotted a : 58 ∉ dotted a.
Proof. intros Hc%dotted_chars. lia. Qed.

Lemma dual_other s : s ≠ lit "::" → s ≠ lit "8000::" → dual_parse s = ascii_parse_host s.
Proof.
  intros H1 H2. unfold dual_parse. by rewrite (proj2 (text_eqb_neq _ _) H1), (proj2 (text_eqb_neq _ _) H2).
Qed.

Lemma dual_v4 s a : dual_parse s = HV4 a → ascii_parse_host s = HV4 a.
Proof. unfold dual_parse. destruct (text_eqb _ _); [done|]. by destruct (text_eqb _ _). Qed.

#[local] Instance dualNet_laws : QtNetLaws dualNet.
Proof.
  split.
  - intros a Ha. reflexivity.
  - intros a Ha. cbn. rewrite dual_other; [by apply (host_parse_dotted (N := asciiNet) (QtNetLaws := asciiNet_laws))|..];
      intros Hd; apply (colon_notin_dotted a); rewrite Hd; vm_compute; set_solver.
  - intros s a Hs%dual_v4. by apply (host_parse_u32 (QtNetLaws := asciiNet_laws) s).
  - vm_compute. reflexivity.
  - intros s Hs. cbn. rewrite dual_other; [by apply (host_parse_slash (QtNetLaws := asciiNet_laws))|..];
      intros ->; vm_compute in Hs; set_solver.
  - exact (host_special_v4 (QtNetLaws := asciiNet_laws)).
  - exact (host_isLinkLocal_v4 (QtNetLaws := asciiNet_laws)).
  - exact (host_isInSubnet_v4 (QtNetLaws := asciiNet_laws)).
  - exact (host_parseSubnet_v4 (QtNetLaws := asciiNet_laws)).
Qed.

Module ControllerExamples.
#[local] Existing Instances asciiText asciiText_laws dualNet dualNet_laws plainTime plainTime_laws tokenData tokenJsonText.
#[local] Existing Instances ProfileExamples.toyFiles ProfileExamples.toyFiles_laws toyHost.

(** ** The machine *)

Definition policyDocument : jobject := jobj [(keySourceSites, JObject [(lit "8.8.8.0/24", JString [])])].

Definition policyReply : Reply := MkReply None [json_compact policyDocument] true [] [] 200.

#[local] Instance smallMachine : ControllerHost Kernel := {|
  ctl_io := λ _ k, (true, k);
  ctl_config := λ _ _, Some BypassExamples.tunnelConfig;
  ctl_resolve := λ _ _, None;
  ctl_fetch := λ _ k, (policyReply, k);
  ctl_now := λ _, 1700000100000;
  ctl_elapsed := λ _ _, 0;
  ctl_lookup := λ _ _ _ _, LookupError;
|}.

#[local] Instance machineRouter : Router (World Kernel) :=
  reconcilerRouter RouteExamples.idCase RestartExamples.upper RouteExamples.statePath false RouteExamples.elements_order.
#[local] Instance machineHost : ControllerHost (World Kernel) := outerController smallMachine.

Definition controllerPath : text := lit "/var/lib/amnezia/controller.json".

Definition fullProfile : Profile :=
  MkProfile (lit "office") (lit "Office") (lit "amneziawg") (lit "/etc/amnezia/office.conf")
    [lit "10.8.1.0/24"] [] [] (lit "wg0") (lit "all-except") (lit "http://10.8.1.1/policy") [] [] true false.
Definition staticProfile : Profile :=
  MkProfile (lit "home") (lit "Home") (lit "wireguard") (lit "/etc/amnezia/home.conf")
    [lit "10.8.1.0/24"] [] [] (lit "wg0") (lit "only-forward") [] [] [] true false.
Definition plainProfile : Profile :=
  MkProfile (lit "plain") (lit "Plain") (lit "wireguard") (lit "/etc/amnezia/plain.conf")
    [] [] [] (lit "wg0") (lit "only-forward") [] [] [] true false.

Definition machine : CWorld (World Kernel) :=
  MkCWorld (set_ready freshController) Absent Absent (RouteExamples.start RouteExamples.kernel0).

Definition run := run_ctl (R := World Kernel) controllerPath.
Definition connectedFull := run (CConnect fullProfile) machine.

Lemma run_pair c w : run_ctl (R := World Kernel) controllerPath c w = ((run c w).1, (run c w).2).
Proof. unfold run. apply surjective_pairing. Qed.

Definition session : list ControllerCmd := [CConnect fullProfile; CRefresh fullProfile; CDisconnect].

(** ** The theorems on these runs *)

Lemma controller_receipt_current_witness :
  cw_receipt (run_ctls controllerPath session machine)
    = Regular (json_compact (controllerReceipt (cw_state (run_ctls controllerPath session machine))))
  ∧ synced (run_ctls controllerPath session machine).
Proof.
  split; [vm_compute; reflexivity|]. apply (controller_receipt_current controllerPath session machine); [discriminate|].
  intros _. right. split; reflexivity.
Defined.


(** The process is replaced while the full tunnel is up. *)
Definition restarted := restartController (R := World Kernel) controllerPath connectedFull.2.

Lemma controller_restart_agrees_witness :
  restarted.1 = true ∧ c_activeProfile (cw_state restarted.2) = lit "office"
  ∧ policy_of (cw_state restarted.2) = policy_of (cw_state connectedFull.2).
Proof.
  assert (restarted.1 = true) as E1 by (vm_compute; reflexivity). split; [exact E1|].
  assert (restartController (R := World Kernel) controllerPath connectedFull.2 = (true, restarted.2)) as E
    by (rewrite <-E1; unfold restarted; apply surjective_pairing).
  destruct (controller_restart_agrees controllerPath connectedFull.2 restarted.2) as (H1 & _ & H2 & _).
  - discriminate.
  - vm_compute. reflexivity.
  - vm_compute. reflexivity.
  - intros m Hm. vm_compute in Hm. injection Hm as <-.
    split; [discriminate|]. split; [done|]. cbn [issuedAt expiresAt acceptedAt].
    repeat constructor; unfold dt_expressible; lia.
  - exact E.
  - split; [|exact H2]. rewrite H1. vm_compute. reflexivity.
Defined.

(** The state is marked while the tunnel is up. *)
Definition marked := returns (RoutingController.markRecoveryRequired (R := World Kernel) controllerPath (lit "lost")) connectedFull.2.

Lemma controller_recovery_durable_witness :
  cw_router (run_ctls controllerPath session marked.2) = cw_router marked.2
  ∧ (restartController controllerPath (run_ctls controllerPath session marked.2)).1 = false.
Proof.
  destruct (controller_recovery_durable controllerPath (lit "lost") session connectedFull.2 marked.1 marked.2)
    as (H1 & _ & _ & _ & H5).
  - discriminate.
  - vm_compute. reflexivity.
  - unfold marked. apply surjective_pairing.
  - left. vm_compute. reflexivity.
  - split; [exact H1|exact H5].
Defined.

Definition connectedStatic := run (CConnect staticProfile) machine.

Lemma static_profile_not_resumable_witness :
  rt_ok connectedStatic.1 = true
  ∧ (router_initialize (router_new (cw_router connectedStatic.2))).1 = true
  ∧ (restartController controllerPath connectedStatic.2).1 = false.
Proof.
  split; [vm_compute; reflexivity|]. split; [vm_compute; reflexivity|].
  apply (static_profile_not_resumable controllerPath staticProfile machine connectedStatic.1 connectedStatic.2);
    [discriminate|reflexivity|discriminate|discriminate|exact (run_pair (CConnect staticProfile) machine)|vm_compute; reflexivity..|].
  vm_compute. discriminate.
Defined.

Definition connectedPlain := run (CConnect plainProfile) connectedFull.2.

Lemma stale_policy_not_resumable_witness :
  rt_ok connectedPlain.1 = true ∧ (restartController controllerPath connectedPlain.2).1 = false.
Proof.
  split; [vm_compute; reflexivity|].
  assert (∃ m, c_policyMetadata (cw_state connectedFull.2) = Some m) as [m Hm] by (eexists; vm_compute; reflexivity).
  apply (stale_policy_not_resumable controllerPath plainProfile m connectedFull.2 connectedPlain.1 connectedPlain.2);
    [discriminate|reflexivity|reflexivity|discriminate|exact Hm|exact (run_pair (CConnect plainProfile) connectedFull.2)|vm_compute; reflexivity..].
Defined.

Lemma full_tunnel_connected_witness :
  rt_ok connectedFull.1 = true ∧ tunnel_in_place fullProfile (cw_router connectedFull.2)
  ∧ m_bypassRoutes (w_state (cw_router connectedFull.2)) = [lit "93.184.216.34"; lit "192.168.1.0/24"; lit "8.8.8.0/24"].
Proof.
  split; [vm_compute; reflexivity|]. split; [|vm_compute; reflexivity].
  apply (full_tunnel_connected RouteExamples.idCase RestartExamples.upper RouteExamples.statePath false
    RouteExamples.elements_order controllerPath) with (c := CConnect fullProfile) (w := machine) (r := connectedFull.1).
  - discriminate.
  - repeat constructor; vm_compute; reflexivity.
  - by left.
  - reflexivity.
  - exact (run_pair (CConnect fullProfile) machine).
  - vm_compute. reflexivity.
Defined.
End ControllerExamples.
