(* ===== verification/JsonTokens.v ===== *)
(** * The tokens of a JSON text

    Model of the token scanner of [pauseJson] in headless/rollbackCoordinator.cpp
    and of the edits made to the spans it finds.  A text is laid out as tokens
    with spaces between them; replacing some tokens and scanning again finds the
    replaced tokens ([retokenised]).  [JsonGrammarLaws] states how the JSON
    reader of Qt sees such a text: the value of a document is the value of the
    tree its tokens render. *)

From S2P Require Import Prelude Text Json QtInterface.
#[local] Open Scope amnezia_scope.

(** ** Scanning *)

(** A span of the text and the bytes in it. *)
Record Token := MkToken { t_begin : nat; t_end : nat; t_text : text }.

Definition is_json_space (c : Z) : bool := ((c =? 32) || (c =? 10) || (c =? 9) || (c =? 13))%Z.
Definition is_json_mark (c : Z) : bool := contains_char c (lit "{}[]:,").
Definition ends_word (c : Z) : bool := is_json_space c || is_json_mark c.

(** How far the scanner goes behind an opening quote, the closing one included:
    beyond the end when the text stops after a backslash. *)
Fixpoint scan_string (s : text) : nat :=
  match s with
  | [] => 0
  | c :: s' =>
      if (c =? 92)%Z then match s' with [] => 2 | _ :: s'' => 2 + scan_string s'' end
      else if (c =? 34)%Z then 1 else S (scan_string s')
  end.

Fixpoint scan_word (s : text) : nat :=
  match s with
  | [] => 0
  | c :: s' => if ends_word c then 0 else S (scan_word s')
  end.

(** The number of bytes of the token at the head of a text. *)
Definition token_length (s : text) : nat :=
  match s with
  | [] => 0
  | c :: s' => if (c =? 34)%Z then S (scan_string s') else if is_json_mark c then 1 else scan_word s
  end.

(** The tokens of the bytes from position [i] on; the fuel is their number. *)
Fixpoint tokens_from (fuel i : nat) (s : text) : result text (list Token) :=
  match s with
  | [] => Ok []
  | c :: s' =>
      match fuel with
      | O => Err []
      | S f =>
          if is_json_space c then tokens_from f (S i) s' else
          let n := token_length s in
          let? _ := reject_if (length s <? n)%nat (lit "profile JSON token invalid") in
          let? rest := tokens_from f (i + n) (drop n s) in
          Ok (MkToken i (i + n) (take n s) :: rest)
      end
  end.

Definition json_tokens (raw : text) : result text (list Token) := tokens_from (length raw) 0 raw.

Definition token_texts (raw : text) : option (list text) :=
  match json_tokens raw with Ok ts => Some (map t_text ts) | Err _ => None end.

(** ** Layouts *)

(** A token with the spaces before it. *)
Notation piece := (text * text)%type.

Definition spread (l : list piece) (w : text) : text := concat (map (λ p, p.1 ++ p.2) l) ++ w.

Definition spaces (w : text) : Prop := Forall (λ c, is_json_space c = true) w.

(** [t] is scanned as one token when [r] follows. *)
Definition stands (t r : text) : Prop :=
  match t with [] => False | c :: _ => is_json_space c = false end ∧ token_length (t ++ r) = length t.

Fixpoint laid (l : list piece) (w : text) : Prop :=
  match l with
  | [] => spaces w
  | (w1, t) :: l' => spaces w1 ∧ stands t (spread l' w) ∧ laid l' w
  end.

(** The tokens of a layout that starts at position [i]. *)
Fixpoint place (i : nat) (l : list piece) : list Token :=
  match l with
  | [] => []
  | (w, t) :: l' =>
      let b := (i + length w)%nat in
      MkToken b (b + length t) t :: place (b + length t) l'
  end.

Lemma spread_cons w t l w' : spread ((w, t) :: l) w' = w ++ t ++ spread l w'.
Proof. unfold spread. simpl. by rewrite <-!app_assoc. Qed.

Lemma place_texts i l : map t_text (place i l) = map snd l.
Proof. revert i. induction l as [|[w t] l IH]; intros i; [done|]. simpl. f_equal. apply IH. Qed.

Lemma tokens_from_spaces fuel i w s :
  spaces w → (length w ≤ fuel)%nat →
  tokens_from fuel i (w ++ s) = tokens_from (fuel - length w) (i + length w) s.
Proof.
  revert fuel i. induction w as [|c w IH]; intros fuel i Hw Hf; simpl.
  { by rewrite Nat.sub_0_r, Nat.add_0_r. }
  inversion Hw; subst. destruct fuel as [|f]; simpl in *; [lia|].
  rewrite H1, IH by (done || lia). f_equal; lia.
Qed.

Lemma tokens_of_layout fuel i l w :
  laid l w → (length (spread l w) ≤ fuel)%nat → tokens_from fuel i (spread l w) = Ok (place i l).
Proof.
  revert fuel i. induction l as [|[w1 t] l IH]; intros fuel i Hl Hf.
  { unfold spread in *. simpl in *. pose proof (tokens_from_spaces fuel i w [] Hl Hf) as E.
    rewrite app_nil_r in E. rewrite E. by destruct (fuel - length w)%nat. }
  destruct Hl as (Hw & [Ht Hn] & Hl). rewrite spread_cons in *. rewrite !length_app in Hf.
  rewrite tokens_from_spaces by (done || lia).
  destruct t as [|c t]; [done|]. cbn [app] in *.
  destruct (fuel - length w1)%nat as [|f] eqn:Ef; [simpl in *; lia|].
  cbn [tokens_from]. rewrite Ht, Hn. unfold reject_if.
  rewrite (proj2 (Nat.ltb_ge _ _)) by (simpl; rewrite length_app; lia). cbn [rbind].
  change (c :: t ++ spread l w) with ((c :: t) ++ spread l w).
  rewrite drop_app_length, take_app_length, IH by (done || (simpl in *; lia)). done.
Qed.

Lemma token_length_pos c s : is_json_space c = false → (0 < token_length (c :: s))%nat.
Proof.
  intros Hc. unfold token_length, scan_word. destruct (c =? 34)%Z; [lia|].
  destruct (is_json_mark c) eqn:E; [lia|]. unfold ends_word. rewrite Hc, E. simpl. lia.
Qed.

(** Whatever is scanned is a layout, and the fuel suffices. *)
Lemma layout_of_tokens fuel i s :
  (length s ≤ fuel)%nat →
  match tokens_from fuel i s with
  | Ok ts => ∃ l w, s = spread l w ∧ laid l w ∧ ts = place i l
  | Err e => e = lit "profile JSON token invalid"
  end.
Proof.
  revert i s. induction fuel as [|f IH]; intros i s Hf.
  { destruct s; [|simpl in Hf; lia]. simpl. exists [], []. repeat constructor. }
  destruct s as [|c s]; [exists [], []; repeat constructor|]. cbn [tokens_from].
  destruct (is_json_space c) eqn:Ec.
  { specialize (IH (S i) s ltac:(simpl in Hf; lia)). destruct (tokens_from f (S i) s) as [ts|e]; [|done].
    destruct IH as (l & w & -> & Hl & ->). destruct l as [|[w1 t] l].
    - exists [], (c :: w). split_and!; [done| |done]. by constructor.
    - exists ((c :: w1, t) :: l), w. destruct Hl as (? & ? & ?).
      split_and!; [done|split_and!; [by constructor|done|done]|].
      simpl. f_equal; [f_equal; lia|f_equal; lia]. }
  pose proof (token_length_pos c s Ec) as Hp. destruct (length (c :: s) <? token_length (c :: s))%nat eqn:El.
  { done. }
  apply Nat.ltb_ge in El. cbn [reject_if rbind].
  specialize (IH (i + token_length (c :: s))%nat (drop (token_length (c :: s)) (c :: s))
                ltac:(rewrite length_drop; simpl in *; lia)).
  destruct (tokens_from f _ _) as [ts|e]; [|done]. cbn [rbind].
  destruct IH as (l & w & Hs & Hl & ->).
  set (t := take (token_length (c :: s)) (c :: s)) in *.
  assert (length t = token_length (c :: s)) as Ht by (unfold t; rewrite length_take; lia).
  assert (c :: s = t ++ spread l w) as Es by (rewrite <-Hs; unfold t; by rewrite take_drop).
  exists (([], t) :: l), w. split_and!.
  - by rewrite spread_cons.
  - split_and!; [constructor| |done]. split; [|by rewrite <-Es].
    unfold t. destruct (token_length (c :: s)); [lia|done].
  - cbn [place]. simpl length. rewrite Nat.add_0_r, Ht. done.
Qed.

Lemma json_tokens_spec raw :
  match json_tokens raw with
  | Ok ts => ∃ l w, raw = spread l w ∧ laid l w ∧ ts = place 0 l
  | Err e => e = lit "profile JSON token invalid"
  end.
Proof. by apply layout_of_tokens. Qed.

Lemma json_tokens_layout l w : laid l w → json_tokens (spread l w) = Ok (place 0 l).
Proof. intros H. by apply tokens_of_layout. Qed.

(** ** Replacing tokens *)

(** [QByteArray::replace(pos, len, after)]. *)
Definition replace_span (pos len : nat) (after s : text) : text := take pos s ++ after ++ drop (pos + len) s.

(** [for (it = edits.crbegin(); ...) result.replace(it->begin, ..., after)]. *)
Definition apply_edits (after : text) (edits : list Token) (raw : text) : text :=
  foldr (λ e s, replace_span (t_begin e) (t_end e - t_begin e) after s) raw edits.

(** The elements that are marked. *)
Fixpoint marked {A} (m : list bool) (l : list A) : list A :=
  match m, l with
  | b :: m', x :: l' => if b then x :: marked m' l' else marked m' l'
  | _, _ => []
  end.

Fixpoint repaint (after : text) (m : list bool) (l : list piece) : list piece :=
  match m, l with
  | b :: m', (w, t) :: l' => (w, if b then after else t) :: repaint after m' l'
  | _, _ => l
  end.

Lemma apply_edits_layout after m p l w :
  apply_edits after (marked m (place (length p) l)) (p ++ spread l w) = p ++ spread (repaint after m l) w.
Proof.
  revert m p. induction l as [|[w1 t] l IH]; intros m p; [by destruct m|].
  destruct m as [|b m]; [done|]. cbn [place marked repaint].
  rewrite !spread_cons. specialize (IH m (p ++ w1 ++ t)).
  rewrite !length_app, <-!app_assoc, Nat.add_assoc in IH.
  destruct b; [|exact IH]. unfold apply_edits in *. cbn [foldr t_begin t_end]. rewrite IH.
  unfold replace_span. rewrite !app_assoc, <-length_app, <-(app_assoc (p ++ w1)).
  rewrite take_app_length.
  replace (length (p ++ w1) + (length (p ++ w1) + length t - length (p ++ w1)))%nat
    with (length ((p ++ w1) ++ t)) by (rewrite length_app; lia).
  rewrite app_assoc, drop_app_length, <-!app_assoc. done.
Qed.

Lemma edited_layout after m l w :
  apply_edits after (marked m (place 0 l)) (spread l w) = spread (repaint after m l) w.
Proof. exact (apply_edits_layout after m [] l w). Qed.

(** *** Scanning again *)

(** What a token sees of what follows it. *)
Definition stops (r : text) : bool := match r with [] => true | c :: _ => ends_word c end.

Lemma scan_word_app t r : scan_word (t ++ r) = length t → stops r = true ∧ forallb (λ c, negb (ends_word c)) t = true.
Proof.
  induction t as [|c t IH]; simpl.
  - destruct r as [|c r]; simpl; [done|]. by destruct (ends_word c).
  - destruct (ends_word c); simpl; [lia|]. intros E. apply IH. lia.
Qed.

Lemma scan_word_stop t r :
  stops r = true → forallb (λ c, negb (ends_word c)) t = true → scan_word (t ++ r) = length t.
Proof.
  intros Hr. induction t as [|c t IH]; simpl.
  - destruct r as [|c r]; simpl; [done|]. simpl in Hr. by rewrite Hr.
  - intros [Hc Ht]%andb_true_iff. apply negb_true_iff in Hc. rewrite Hc. f_equal. by apply IH.
Qed.

Lemma scan_string_app t r r' :
  r ≠ [] → scan_string (t ++ r) = length t → scan_string (t ++ r') = length t.
Proof.
  intros Hr. remember (length t) as n eqn:Hn. assert (length t ≤ n)%nat as Hle by lia. rewrite Hn. clear Hn.
  revert t Hle. induction n as [|n IH]; intros [|c t] Hle; simpl in *; try lia.
  { destruct r as [|c r]; [done|]. simpl. repeat case_match; lia. }
  { destruct r as [|c r]; [done|]. simpl. repeat case_match; lia. }
  destruct (c =? 92)%Z.
  - destruct t as [|d t]; simpl.
    + destruct r; [done|]. simpl. lia.
    + intros E. rewrite (IH t); simpl in *; lia.
  - destruct (c =? 34)%Z; [done|]. intros E. rewrite (IH t); lia.
Qed.

(** A token is still one when what follows changes without appearing,
    disappearing or starting to continue a word. *)
Lemma stands_next t r r' :
  stands t r → (r = [] ↔ r' = []) → stops r = stops r' → stands t r'.
Proof.
  intros [Ht Hn] He Hs. split; [done|]. destruct t as [|c t]; [done|]. simpl in *.
  destruct (c =? 34)%Z eqn:Ec.
  - f_equal. destruct (decide (r = [])) as [->|Hne].
    + rewrite (proj1 He) by done. lia.
    + apply (scan_string_app t r r'); [done|lia].
  - destruct (is_json_mark c); [done|]. destruct (ends_word c); [done|]. f_equal.
    destruct (scan_word_app t r ltac:(lia)) as [H1 H2]. apply scan_word_stop; [congruence|done].
Qed.

(** A word: no quote, space or mark in it. *)
Definition plain_word (t : text) : bool :=
  match t with [] => false | c :: _ => negb (c =? 34)%Z && forallb (λ c, negb (ends_word c)) t end.

Lemma plain_word_cons c t :
  plain_word (c :: t) = true ↔
  (c =? 34)%Z = false ∧ is_json_space c = false ∧ is_json_mark c = false ∧ forallb (λ c, negb (ends_word c)) t = true.
Proof.
  unfold plain_word. cbn [forallb]. unfold ends_word at 1.
  destruct (c =? 34)%Z, (is_json_space c), (is_json_mark c); simpl; naive_solver.
Qed.

Lemma stands_word t r : plain_word t = true → stops r = true → stands t r.
Proof.
  destruct t as [|c t]; [done|]. intros (H1 & H2 & H3 & H4)%plain_word_cons Hr. split; [done|].
  cbn [app token_length]. rewrite H1, H3. cbn [scan_word]. unfold ends_word. rewrite H2, H3. simpl.
  f_equal. by apply scan_word_stop.
Qed.

Lemma word_stops t r : plain_word t = true → stands t r → stops r = true.
Proof.
  destruct t as [|c t]; [done|]. intros (H1 & H2 & H3 & H4)%plain_word_cons [_ Hn].
  cbn [app token_length] in Hn. rewrite H1, H3 in Hn. cbn [scan_word] in Hn. unfold ends_word in Hn.
  rewrite H2, H3 in Hn. simpl in Hn. apply (scan_word_app t r). lia.
Qed.

(** What follows a token looks the same after a repaint of words by a word. *)
Lemma repaint_next after m l w :
  plain_word after = true → laid l w → Forall (λ p, plain_word p.2 = true) (marked m l) →
  (spread l w = [] ↔ spread (repaint after m l) w = []) ∧ stops (spread l w) = stops (spread (repaint after m l) w).
Proof.
  intros Ha Hl Hm. destruct l as [|[w1 t] l], m as [|b m]; try done. cbn [repaint]. rewrite !spread_cons.
  destruct Hl as (_ & [Ht _] & _). destruct w1 as [|c w1]; [|done].
  destruct t as [|c t]; [done|]. cbn [app]. destruct b; [|done]. cbn [marked] in Hm.
  inversion Hm as [|? ? Hc ?]; subst. destruct after as [|d after]; [done|].
  apply plain_word_cons in Ha as (_ & Ha1 & Ha2 & _). apply plain_word_cons in Hc as (_ & Hc1 & Hc2 & _).
  split; [done|]. simpl. unfold ends_word. by rewrite Ha1, Ha2, Hc1, Hc2.
Qed.

Lemma repaint_laid after m l w :
  plain_word after = true → laid l w → Forall (λ p, plain_word p.2 = true) (marked m l) →
  laid (repaint after m l) w.
Proof.
  intros Ha. revert m. induction l as [|[w1 t] l IH]; intros m Hl Hm; [by destruct m|].
  destruct m as [|b m]; [done|]. cbn [repaint laid marked] in *. destruct Hl as (Hw & Ht & Hl).
  assert (Forall (λ p, plain_word p.2 = true) (marked m l)) as Hm' by (destruct b; [by inversion Hm|done]).
  destruct (repaint_next after m l w Ha Hl Hm') as [He Hs]. split_and!; [done| |by apply IH].
  destruct b; [|by eapply stands_next].
  apply stands_word; [done|]. rewrite <-Hs. apply (word_stops t); [|done]. by inversion Hm.
Qed.

(** The texts of the tokens after the edit. *)
Fixpoint repaint_texts (after : text) (m : list bool) (l : list text) : list text :=
  match m, l with
  | b :: m', t :: l' => (if b then after else t) :: repaint_texts after m' l'
  | _, _ => l
  end.

Lemma repaint_snd after m l : map snd (repaint after m l) = repaint_texts after m (map snd l).
Proof. revert m. induction l as [|[w t] l IH]; intros [|b m]; simpl; try done. f_equal. apply IH. Qed.

Lemma marked_map {A B} (f : A → B) m l : marked m (map f l) = map f (marked m l).
Proof. revert m. induction l as [|x l IH]; intros [|[] m]; simpl; rewrite ?IH; done. Qed.

(** Replacing marked words of a text by a word and scanning again gives the
    tokens with the marked ones replaced. *)
Lemma retokenised after raw ts m :
  plain_word after = true → json_tokens raw = Ok ts →
  Forall (λ t, plain_word t = true) (marked m (map t_text ts)) →
  token_texts (apply_edits after (marked m ts) raw) = Some (repaint_texts after m (map t_text ts)).
Proof.
  intros Ha Hr Hm. pose proof (json_tokens_spec raw) as Hs. rewrite Hr in Hs.
  destruct Hs as (l & w & -> & Hl & ->). rewrite edited_layout. unfold token_texts.
  rewrite place_texts, marked_map in Hm. rewrite Forall_map in Hm.
  rewrite json_tokens_layout by (by apply repaint_laid). by rewrite !place_texts, repaint_snd.
Qed.

(** [b] is [a] with some occurrences of one word replaced by another; all other
    bytes are kept in place. *)
Inductive rewritten (from to : text) : text → text → Prop :=
| rw_done : rewritten from to [] []
| rw_keep c a b : rewritten from to a b → rewritten from to (c :: a) (c :: b)
| rw_swap a b : rewritten from to a b → rewritten from to (from ++ a) (to ++ b).

Lemma rw_keep_app from to p a b : rewritten from to a b → rewritten from to (p ++ a) (p ++ b).
Proof. intros H. induction p as [|c p IH]; [done|]. by constructor. Qed.

Lemma rewritten_refl from to a : rewritten from to a a.
Proof. induction a; by constructor. Qed.

Lemma edits_rewrite from after raw ts m :
  json_tokens raw = Ok ts → Forall (λ t, t = from) (marked m (map t_text ts)) →
  rewritten from after raw (apply_edits after (marked m ts) raw).
Proof.
  intros Hr Hm. pose proof (json_tokens_spec raw) as Hs. rewrite Hr in Hs.
  destruct Hs as (l & w & -> & _ & ->). rewrite edited_layout. rewrite place_texts in Hm. clear Hr.
  revert m Hm. induction l as [|[w1 t] l IH]; intros [|b m] Hm; try apply rewritten_refl.
  cbn [repaint]. rewrite !spread_cons. apply rw_keep_app. cbn [map snd marked] in Hm. destruct b.
  - inversion Hm; subst. apply rw_swap. by apply IH.
  - apply rw_keep_app. by apply IH.
Qed.

(** ** Trees *)

Inductive jtree :=
| TScalar (t : text)
| TArray (l : list jtree)
| TObject (l : list (text * jtree)).

Fixpoint commas {A} (sep : A) (l : list (list A)) : list A :=
  match l with
  | [] => []
  | x :: l' => match l' with [] => x | _ => x ++ sep :: commas sep l' end
  end.

(** The tokens of a tree; the key of a member is its token. *)
Fixpoint render (t : jtree) : list text :=
  match t with
  | TScalar s => [s]
  | TArray l => lit "[" :: commas (lit ",") (map render l) ++ [lit "]"]
  | TObject l => lit "{" :: commas (lit ",") (map (λ '(k, v), k :: lit ":" :: render v) l) ++ [lit "}"]
  end.

Fixpoint tree_size (t : jtree) : nat :=
  match t with
  | TScalar _ => 1
  | TArray l => S (sum_list_with tree_size l)
  | TObject l => S (sum_list_with (λ '(_, v), tree_size v) l)
  end.

Fixpoint tree_depth (t : jtree) : nat :=
  match t with
  | TScalar _ => 0
  | TArray l => S (max_list_with tree_depth l)
  | TObject l => S (max_list_with (λ '(_, v), tree_depth v) l)
  end.

(** The induction scheme of trees. *)
Lemma jtree_ind' (P : jtree → Prop) :
  (∀ s, P (TScalar s)) → (∀ l, Forall P l → P (TArray l)) →
  (∀ l, Forall (λ kv, P kv.2) l → P (TObject l)) → ∀ t, P t.
Proof.
  intros Hs Ha Ho t. remember (tree_size t) as n eqn:Hn. assert (tree_size t ≤ n)%nat as Hle by lia.
  clear Hn. revert t Hle. induction n as [|n IH]; intros [s|l|l] Hle; simpl in *; try lia; auto.
  - apply Ha, Forall_forall. intros x Hx. apply IH. pose proof (sum_list_with_in x tree_size l Hx). lia.
  - apply Ho, Forall_forall. intros [k x] Hx. apply IH.
    pose proof (sum_list_with_in (k, x) (λ '(_, v), tree_size v) l Hx). simpl in *. lia.
Qed.

(** ** What the reader of Qt makes of a text *)

Class QtJsonScalar := {
  json_scalar : text → option json;    (* the value of a string, number or literal token *)
}.

Section eval.
Context `{QtJsonScalar}.

(** The decoded key of a member. *)
Definition key_text (k : text) : option text :=
  match json_scalar k with Some (JString s) => Some s | _ => None end.

(** The members in the order of the text: the last one of a name counts. *)
Definition put_members (l : list (text * json)) : jobject := foldl (λ o '(k, v), jput k v o) [] l.

Fixpoint tree_value (t : jtree) : option json :=
  match t with
  | TScalar s => json_scalar s
  | TArray l => JArray <$> mapM tree_value l
  | TObject l => (λ m, JObject (put_members m)) <$> mapM (λ '(k, v), s ← key_text k; j ← tree_value v; Some (s, j)) l
  end.
End eval.

Definition byte_order_mark : text := [239; 187; 191]%Z.

(** A scalar token is flat, and only strings are quoted.  A text that starts
    with the bytes of a document's tree has the value of the tree, and every
    document the reader accepts is such a text, possibly after a byte order
    mark. *)
Class JsonGrammarLaws `(D : QtData) `(S : QtJsonScalar) : Prop := {
  scalar_true : json_scalar (lit "true") = Some (JBool true);
  scalar_false : json_scalar (lit "false") = Some (JBool false);
  scalar_flat t v : json_scalar t = Some v →
    match v with JUndefined | JArray _ | JObject _ => False | _ => True end;
  scalar_mark c : is_json_mark c = true → json_scalar [c] = None;
  scalar_string t s r : json_scalar t = Some (JString s) → stands t (lit "]" ++ r);
  json_parse_tree s t v :
    token_texts s = Some (render t) → (tree_depth t ≤ 1024)%nat → tree_value t = Some v →
    is_array v || is_object v = true → json_parse s = Some v;
  json_parse_only s v :
    json_parse s = Some v →
    ∃ s' t, (s = s' ∨ s = byte_order_mark ++ s') ∧ token_texts s' = Some (render t)
            ∧ (tree_depth t ≤ 1024)%nat ∧ tree_value t = Some v ∧ is_array v || is_object v = true;
}.
