(* ===== verification/PauseJson.v ===== *)
(** * Pausing the automatic updates of a profile store

    Model of [pauseJson] in headless/rollbackCoordinator.cpp, which turns off
    the automatic update of every profile by editing the text of the store: a
    walk over the tokens finds the literals to replace.  The theorems compare
    it with the change it means to make to the document ([paused_document]). *)

From S2P Require Import Prelude Text Json QtInterface Command JsonTokens.
#[local] Open Scope amnezia_scope.

(** ** How the coordinator's functions end early *)

(** [OutOfRange] is an index past the tokens, which C++ does not check;
    [OutOfFuel] a loop of the model that did not end; [Killed] the end of the
    process between two system calls. *)
Inductive exn := Throw (m : text) | OutOfRange | OutOfFuel | Killed.

Definition throw {W A} (m : string) : prog W exn A := leave (Throw (lit m)).

Definition require {W} (v : bool) (m : string) : prog W exn () := if v then pure () else throw m.

(** ** The walk over the tokens *)

Record Walk := MkWalk {
  wk_rest : list Token;      (* tokens[at], tokens[at + 1], ... *)
  wk_edits : list Token;
  wk_profileIndex : Z;
  wk_ids : list json;
}.

Section walk.
Context `{QtData}.
Context (profiles : list json).        (* doc.value("profiles").toArray() *)

Notation step A := (prog Walk exn A).

(** [at < tokens.size()], [tokens[at].text] and [tokens[at++].text]. *)
Definition in_tokens : step bool := gets (λ w, bool_decide (wk_rest w ≠ [])).

Definition peek : step Token := λ w,
  match wk_rest w with t :: _ => (Ok t, w) | [] => (Err OutOfRange, w) end.

Definition advance : step () :=
  cmd_modify (λ w, MkWalk (tail (wk_rest w)) (wk_edits w) (wk_profileIndex w) (wk_ids w)).

Definition next : step text :=
  let! t := peek in let! _ := advance in pure (t_text t).

Definition next_is (t : string) (m : string) : step () :=
  let! u := next in require (text_eqb u (lit t)) m.

Definition add_edit (t : Token) : step () :=
  cmd_modify (λ w, MkWalk (wk_rest w) (wk_edits w ++ [t]) (wk_profileIndex w) (wk_ids w)).
Definition add_id (j : json) : step () :=
  cmd_modify (λ w, MkWalk (wk_rest w) (wk_edits w) (wk_profileIndex w) (wk_ids w ++ [j])).
Definition next_profile : step () :=
  cmd_modify (λ w, MkWalk (wk_rest w) (wk_edits w) (wk_profileIndex w + 1) (wk_ids w)).

(** [QJsonDocument::fromJson("[" + keyToken + "]")] has one string. *)
Definition key_of (keyToken : text) : option text :=
  match json_parse (lit "[" ++ keyToken ++ lit "]") with
  | Some (JArray [JString key]) => Some key
  | _ => None
  end.

(** [if (tokens[at].text == ",") ++at; else break;] *)
Definition continues : step bool :=
  let! t := peek in
  if text_eqb (t_text t) (lit ",") then let! _ := advance in pure true else pure false.

(** The literal of a profile's [autoUpdate]. *)
Definition visit_autoUpdate : step () :=
  let! t := peek in
  let! _ := require (text_eqb (t_text t) (lit "true") || text_eqb (t_text t) (lit "false"))
              "profile autoUpdate type invalid" in
  cmd_when (text_eqb (t_text t) (lit "true"))
    (let! _ := add_edit t in
     let! i := gets wk_profileIndex in
     let! _ := require ((0 <=? i) && (i <? Z.of_nat (length profiles)))%Z "profile token identity invalid" in
     add_id (jvalue (lit "id") (to_object (nth (Z.to_nat i) profiles JUndefined)))).

(** The loops take the walk of what is nested in them, and have the number of
    tokens as fuel: every round goes past one. *)
Section loops.
Context (walk : bool → bool → step ()).      (* root, profile; one level deeper *)

Fixpoint array_loop (fuel : nat) : step () :=
  let! t := peek in
  if text_eqb (t_text t) (lit "]") then pure () else
  match fuel with
  | O => leave OutOfFuel
  | S f =>
      let! _ := walk false false in
      let! more := continues in
      if more then array_loop f else pure ()
  end.

Fixpoint profiles_loop (fuel : nat) : step () :=
  let! t := peek in
  if text_eqb (t_text t) (lit "]") then pure () else
  match fuel with
  | O => leave OutOfFuel
  | S f =>
      let! _ := next_profile in
      let! u := peek in
      let! _ := require (text_eqb (t_text u) (lit "{")) "profile object invalid" in
      let! _ := walk false true in
      let! more := continues in
      if more then profiles_loop f else pure ()
  end.

(** The value of a member. *)
Definition member_value (fuel : nat) (root : bool) (key : text) : step () :=
  if root && text_eqb key (lit "profiles") then
    let! _ := next_is "[" "profile array invalid" in
    let! _ := profiles_loop fuel in
    next_is "]" "profile array end invalid"
  else walk false false.

Fixpoint object_loop (total fuel : nat) (root profile : bool) (keys : list text) : step () :=
  let! more := gets (λ w, match wk_rest w with t :: _ => negb (text_eqb (t_text t) (lit "}")) | [] => false end) in
  if negb more then pure () else
  match fuel with
  | O => leave OutOfFuel
  | S f =>
      let! keyToken := next in
      match key_of keyToken with
      | None => throw "profile JSON key invalid"
      | Some key =>
          let! _ := require (negb (bool_decide (key ∈ keys))) "duplicate profile JSON key" in
          let! inside := in_tokens in
          let! _ := require inside "profile JSON colon invalid" in
          let! _ := next_is ":" "profile JSON colon invalid" in
          let! _ := cmd_when (profile && text_eqb key (lit "autoUpdate")) visit_autoUpdate in
          let! _ := member_value total root key in
          let! more := continues in
          if more then object_loop total f root profile (key :: keys) else pure ()
      end
  end.
End loops.

(** [walk(root, profile, depth)] with [depth = 64 - levels]. *)
Fixpoint walk (total levels : nat) (root profile : bool) : step () :=
  let! inside := in_tokens in
  match levels with
  | O => throw "profile JSON nesting invalid"
  | S l =>
      let! _ := require inside "profile JSON nesting invalid" in
      let! t := next in
      if text_eqb t (lit "{") then
        let! _ := object_loop (walk total l) total total root profile [] in
        next_is "}" "profile object end invalid"
      else if text_eqb t (lit "[") then
        let! _ := array_loop (walk total l) total in
        next_is "]" "profile array end invalid"
      else pure ()
  end.
End walk.

Section pause.
Context `{QtData}.

(** [object(b)]. *)
Definition object (b : text) : result exn jobject :=
  match json_parse b with
  | Some (JObject o) => Ok o
  | _ => Err (Throw (lit "protected JSON object invalid"))
  end.

Definition throw_if {A} (b : bool) (m : string) (r : result exn A) : result exn A :=
  if b then Err (Throw (lit m)) else r.

(** [depth < 64]. *)
Definition nesting : nat := 64.

(** The end of [pauseJson]: every token was visited, and the edits are made
    from the last to the first. *)
Definition finish (raw : text) (r : result exn () * Walk) : result exn (text * list json) :=
  match r with
  | (Err e, _) => Err e
  | (Ok _, w) =>
      throw_if (bool_decide (wk_rest w ≠ [])) "profile trailing JSON invalid"
        (Ok (apply_edits (lit "false") (wk_edits w) raw, wk_ids w))
  end.

Definition pauseJson (raw : text) : result exn (text * list json) :=
  let? doc := object raw in
  let profiles := jvalue (lit "profiles") doc in
  throw_if (negb (to_int 0 (jvalue (lit "version") doc) =? 1)%Z || negb (is_array profiles))
    "profile store schema invalid"
    match json_tokens raw with
    | Err m => Err (Throw m)
    | Ok tokens =>
        finish raw (walk (to_array profiles) (length tokens) nesting true false (MkWalk tokens [] (-1) []))
    end.
End pause.

(** ** What the walk looks for *)

(** The part a tree plays in the store. *)
Inductive view := VRoot | VProfiles | VProfile | VAuto | VPlain.

Definition member_view (v : view) (key : text) : view :=
  match v with
  | VRoot => if text_eqb key (lit "profiles") then VProfiles else VPlain
  | VProfile => if text_eqb key (lit "autoUpdate") then VAuto else VPlain
  | _ => VPlain
  end.

Definition element_view (v : view) : view := match v with VProfiles => VProfile | _ => VPlain end.

Definition is_tobject (t : jtree) : bool := match t with TObject _ => true | _ => false end.

Section reference.
Context `{QtJsonScalar}.

Definition key_name (k : text) : text := default [] (key_text k).
Definition view_of (v : view) (k : text) : view := member_view v (key_name k).

(** The literals to replace, as marks on the rendered tokens. *)
Fixpoint marks (v : view) (t : jtree) : list bool :=
  match t with
  | TScalar s => [match v with VAuto => text_eqb s (lit "true") | _ => false end]
  | TArray l => false :: commas false (map (marks (element_view v)) l) ++ [false]
  | TObject l => false :: commas false (map (λ '(k, x), false :: false :: marks (view_of v k) x) l) ++ [false]
  end.

Fixpoint pause_tree (v : view) (t : jtree) : jtree :=
  match t with
  | TScalar s => TScalar (match v with VAuto => if text_eqb s (lit "true") then lit "false" else s | _ => s end)
  | TArray l => TArray (map (pause_tree (element_view v)) l)
  | TObject l => TObject (map (λ '(k, x), (k, pause_tree (view_of v k) x)) l)
  end.

(** What the walk accepts when [n] levels are left. *)
Section members.
Context (acc : view → jtree → bool) (v : view).

Fixpoint accepts_members (keys : list text) (l : list (text * jtree)) : bool :=
  match l with
  | [] => true
  | (k, x) :: l' =>
      negb (bool_decide (key_name k ∈ keys))
      && (acc (view_of v k) x && accepts_members (key_name k :: keys) l')
  end.
End members.

Context (profiles : list json).

Definition profile_id (i : Z) : json := jvalue (lit "id") (to_object (nth (Z.to_nat i) profiles JUndefined)).

Section elements.
Context (acc : Z → jtree → bool).

Fixpoint accepts_profiles (i : Z) (l : list jtree) : bool :=
  match l with
  | [] => true
  | e :: l' => is_tobject e && (acc (i + 1) e && accepts_profiles (i + 1) l')
  end.
End elements.

(** [i] is the profile the walk is at. *)
Fixpoint accepts (n : nat) (v : view) (i : Z) (t : jtree) {struct t} : bool :=
  match t with
  | TScalar s =>
      match v with
      | VProfiles => false
      | VAuto =>
          ((text_eqb s (lit "true") && ((0 <=? i) && (i <? Z.of_nat (length profiles))))%Z
           || text_eqb s (lit "false")) && (0 <? n)%nat
      | _ => (0 <? n)%nat
      end
  | TArray l =>
      match v with
      | VAuto => false
      | VProfiles => accepts_profiles (accepts n VProfile) i l
      | _ => (0 <? n)%nat && forallb (accepts (pred n) VPlain i) l
      end
  | TObject l =>
      match v with
      | VProfiles | VAuto => false
      | _ => (0 <? n)%nat && accepts_members (λ v, accepts (pred n) v i) v [] l
      end
  end.

(** The profile the walk is at and the ids it has collected. *)
Fixpoint visit (v : view) (t : jtree) (st : Z * list json) : Z * list json :=
  match t with
  | TScalar s =>
      match v with
      | VAuto => if text_eqb s (lit "true") then (st.1, st.2 ++ [profile_id st.1]) else st
      | _ => st
      end
  | TArray l =>
      match v with
      | VProfiles => foldl (λ st e, visit VProfile e ((st.1 + 1)%Z, st.2)) st l
      | _ => st
      end
  | TObject l => foldl (λ st '(k, x), visit (view_of v k) x st) st l
  end.
End reference.

(** ** The walk on the tokens of a tree *)

(** [m] succeeds when [b] holds, and throws otherwise. *)
Definition runs (m : prog Walk exn ()) (w : Walk) (b : bool) (w' : Walk) : Prop :=
  if b then m w = (Ok (), w') else ∃ e w1, m w = (Err (Throw e), w1).

Lemma runs_bind m k w b w1 b' w' :
  runs m w b w1 → (b = true → runs (k ()) w1 b' w') → runs (cmd_bind m k) w (b && b') w'.
Proof.
  unfold runs, cmd_bind. destruct b; simpl.
  - intros -> Hk. by apply Hk.
  - intros (e & w2 & ->) _. by exists e, w2.
Qed.

Lemma runs_require b m w : runs (require b m) w b w.
Proof. destruct b; [done|]. by eexists _, _. Qed.

Lemma runs_if m w (b c : bool) w' : runs m w b w' → b = c → runs m w c w'.
Proof. by intros H <-. Qed.

Section correct.
Context {QD : QtData} {QS : QtJsonScalar} {JL : JsonGrammarLaws QD QS}.
Context (profiles : list json).

Notation pwalk := (walk profiles).

Lemma runs_next t ts e i ids k b w :
  runs (k (t_text t)) (MkWalk ts e i ids) b w → runs (cmd_bind next k) (MkWalk (t :: ts) e i ids) b w.
Proof. done. Qed.

Lemma runs_peek t ts e i ids k b w :
  runs (k t) (MkWalk (t :: ts) e i ids) b w → runs (cmd_bind peek k) (MkWalk (t :: ts) e i ids) b w.
Proof. done. Qed.

Lemma runs_gets {A} (f : Walk → A) k w b w' : runs (k (f w)) w b w' → runs (cmd_bind (gets f) k) w b w'.
Proof. done. Qed.

Lemma runs_next_is t ts e i ids u m :
  runs (next_is u m) (MkWalk (t :: ts) e i ids) (text_eqb (t_text t) (lit u)) (MkWalk ts e i ids).
Proof. apply runs_next, runs_require. Qed.

Lemma key_text_of k key : key_text k = Some key ↔ json_scalar k = Some (JString key).
Proof. unfold key_text. destruct (json_scalar k) as [[]|]; naive_solver. Qed.

Lemma key_token_mark k c : is_Some (key_text k) → is_json_mark c = true → k ≠ [c].
Proof. intros [key Hk] Hc ->. apply key_text_of in Hk. by rewrite scalar_mark in Hk. Qed.

(** The key the walk decodes is the key of the member. *)
Lemma key_of_token k key : key_text k = Some key → key_of k = Some key.
Proof.
  intros Hk%key_text_of. unfold key_of.
  assert (token_texts (lit "[" ++ k ++ lit "]") = Some (render (TArray [TScalar k]))) as Ht.
  { assert (laid [([], lit "["); ([], k); ([], lit "]")] []) as Hl.
    { pose proof (scalar_string k key [] Hk) as Hs.
      split; [constructor|split; [by split|]]. split; [constructor|split; [exact Hs|]].
      split; [constructor|split; [by split|constructor]]. }
    assert (lit "[" ++ k ++ lit "]" = spread [([], lit "["); ([], k); ([], lit "]")] []) as ->
      by (by rewrite !spread_cons).
    unfold token_texts. by rewrite (json_tokens_layout _ _ Hl). }
  rewrite (json_parse_tree _ _ (JArray [JString key]) Ht); [done|simpl; lia| |done].
  simpl. by rewrite Hk.
Qed.

(** The part of the state the walk of a tree changes. *)
Definition walked (v : view) (t : jtree) (ts r : list Token) (e : list Token) (st : Z * list json) : Walk :=
  let st' := visit profiles v t st in MkWalk r (e ++ marked (marks v t) ts) st'.1 st'.2.

(** The code that handles a tree in its place. *)
Definition handle (total n : nat) (v : view) : prog Walk exn () :=
  match v with
  | VRoot => pwalk total n true false
  | VProfile => pwalk total n false true
  | VPlain => pwalk total n false false
  | VAuto => let! _ := visit_autoUpdate profiles in pwalk total n false false
  | VProfiles =>
      let! _ := next_is "[" "profile array invalid" in
      let! _ := profiles_loop (pwalk total n) total in
      next_is "]" "profile array end invalid"
  end.

Definition handles (v : view) (t : jtree) : Prop :=
  ∀ total n ts r e st,
    map t_text ts = render t → (length ts ≤ total)%nat →
    runs (handle total n v) (MkWalk (ts ++ r) e st.1 st.2) (accepts profiles n v st.1 t) (walked v t ts r e st).

Lemma marks_length v t : length (marks v t) = length (render t).
Proof.
  revert v. induction t as [s|l IH|l IH] using jtree_ind'; intros v; [done|..]; simpl.
  - f_equal. rewrite !length_app. f_equal. induction IH as [|x l Hx Hl IHl]; [done|]. simpl.
    destruct l; simpl in *; [by rewrite Hx|]. rewrite !length_app, Hx. simpl. by rewrite IHl.
  - f_equal. rewrite !length_app. f_equal. induction IH as [|[k x] l Hx Hl IHl]; [done|]. simpl in *.
    destruct l; simpl in *; [by rewrite Hx|]. rewrite !length_app, Hx. simpl. by rewrite IHl.
Qed.

Lemma marked_app {A} m1 m2 (l1 l2 : list A) :
  length m1 = length l1 → marked (m1 ++ m2) (l1 ++ l2) = marked m1 l1 ++ marked m2 l2.
Proof.
  revert l1. induction m1 as [|b m1 IH]; intros [|x l1] Hl; simplify_eq/=; [done|].
  rewrite IH by done. by destruct b.
Qed.

Lemma visit_plain t st : visit profiles VPlain t st = st.
Proof.
  revert st. induction t as [s|l IH|l IH] using jtree_ind'; intros st; [done..|]. simpl.
  revert st. induction IH as [|[k x] l Hx Hl IHl]; intros st; [done|]. simpl in *. by rewrite Hx, IHl.
Qed.

Lemma marked_false {A} (m : list bool) (l : list A) : Forall (λ b, b = false) m → marked m l = [].
Proof. intros Hm. revert l. induction Hm as [|b m -> Hm IH]; intros [|x l]; try done. apply IH. Qed.

Lemma commas_cons {A} (sep : A) x l :
  commas sep (x :: l) = x ++ match l with [] => [] | _ => sep :: commas sep l end.
Proof. destruct l; [by rewrite app_nil_r|done]. Qed.

Lemma commas_Forall {A} (P : A → Prop) sep l : P sep → Forall (Forall P) l → Forall P (commas sep l).
Proof.
  intros Hs. induction 1 as [|x l Hx Hl IH]; [constructor|]. rewrite commas_cons. apply Forall_app. split; [done|].
  destruct l; [constructor|by constructor].
Qed.

Lemma marks_plain t : Forall (λ b, b = false) (marks VPlain t).
Proof.
  induction t as [s|l IH|l IH] using jtree_ind'; simpl; [by repeat constructor|..].
  - constructor; [done|]. apply Forall_app. split; [|by repeat constructor].
    apply commas_Forall; [done|]. by rewrite Forall_map.
  - constructor; [done|]. apply Forall_app. split; [|by repeat constructor].
    apply commas_Forall; [done|]. rewrite Forall_map. eapply Forall_impl; [exact IH|].
    intros [k x] Hx. by repeat constructor.
Qed.

Lemma walked_plain t ts r e st : walked VPlain t ts r e st = MkWalk r e st.1 st.2.
Proof. unfold walked. by rewrite visit_plain, marked_false, app_nil_r by apply marks_plain. Qed.

(** The first token of a tree. *)
Lemma render_head t j : tree_value t = Some j →
  ∃ s l, render t = s :: l ∧ s ≠ lit "]" ∧ s ≠ lit "}" ∧ text_eqb s (lit "{") = is_tobject t.
Proof.
  destruct t as [s|l|l]; simpl; intros Ht; [|by eexists _, _..].
  assert (∀ c, is_json_mark c = true → s ≠ [c]) as Hs.
  { intros c Hc ->. by rewrite scalar_mark in Ht. }
  eexists _, _. split_and!; [done|by apply Hs..|]. apply text_eqb_neq. by apply Hs.
Qed.

Lemma runs_continue t ts e i ids k b w :
  t_text t = lit "," → runs (k true) (MkWalk ts e i ids) b w →
  runs (cmd_bind continues k) (MkWalk (t :: ts) e i ids) b w.
Proof.
  intros Ht Hk. unfold runs, cmd_bind, continues, cmd_bind, peek. simpl. rewrite Ht, text_eqb_refl. exact Hk.
Qed.

Lemma runs_break t ts e i ids k b w :
  t_text t ≠ lit "," → runs (k false) (MkWalk (t :: ts) e i ids) b w →
  runs (cmd_bind continues k) (MkWalk (t :: ts) e i ids) b w.
Proof.
  intros Ht Hk. unfold runs, cmd_bind, continues, cmd_bind, peek. simpl.
  rewrite (proj2 (text_eqb_neq _ _) Ht). exact Hk.
Qed.

(** Splits the tokens like their texts. *)
Lemma texts_app ts a b : map t_text ts = a ++ b →
  ∃ ta tb, ts = ta ++ tb ∧ map t_text ta = a ∧ map t_text tb = b.
Proof. intros E. apply fmap_app_inv in E as (ta & tb & -> & -> & ->). eauto. Qed.

Lemma texts_cons ts a b : map t_text ts = a :: b → ∃ ta tb, ts = ta :: tb ∧ t_text ta = a ∧ map t_text tb = b.
Proof. destruct ts as [|ta tb]; [done|]. intros [= <- <-]. eauto. Qed.

(** After an element: the separator and the rest, or the end. *)
Lemma runs_separator {A} (l : list A) (f : A → list text) ts cl r e i ids k b w stop :
  map t_text ts = match l with [] => [] | _ => lit "," :: commas (lit ",") (map f l) end →
  t_text cl = stop → stop ≠ lit "," →
  (∀ x l' c tt, l = x :: l' → ts = c :: tt → map t_text tt = commas (lit ",") (map f l) →
     runs (k true) (MkWalk (tt ++ cl :: r) e i ids) b w) →
  (l = [] → runs (k false) (MkWalk (cl :: r) e i ids) b w) →
  runs (cmd_bind continues k) (MkWalk (ts ++ cl :: r) e i ids) b w.
Proof.
  intros Ht Hc Hn H1 H2. destruct l as [|x l].
  - destruct ts; [|done]. apply runs_break; [congruence|auto].
  - apply texts_cons in Ht as (t & tt & -> & Ht & Htt). apply runs_continue; [done|]. by eapply H1.
Qed.

(** Only the list of profiles moves the position. *)
Lemma visit_index v t st :
  match v with VProfile | VAuto | VPlain => True | _ => False end → (visit profiles v t st).1 = st.1.
Proof.
  intros Hv. destruct t as [s|l|l]; [destruct v; simpl; try done; by case_match|by destruct v|]. simpl.
  revert st. induction l as [|[k x] l IH]; intros st; [done|]. cbn [foldl]. rewrite IH.
  unfold view_of, member_view. destruct v; try done; [|by rewrite visit_plain..].
  case_match; [|by rewrite visit_plain]. destruct x as [s|x|x]; simpl; [by case_match|done|].
  enough (∀ st, foldl (λ st '(k, y), visit profiles (view_of VAuto k) y st) st x = st) as -> by done.
  induction x as [|[k' y] x IHx]; intros st'; [done|]. simpl. by rewrite visit_plain.
Qed.

Definition valued (t : jtree) : Prop := is_Some (tree_value t).

Lemma array_loop_runs total n l fuel ts cl r e st :
  Forall valued l → Forall (handles VPlain) l →
  map t_text ts = commas (lit ",") (map render l) → t_text cl = lit "]" →
  (length l ≤ fuel)%nat → (length ts ≤ total)%nat →
  runs (array_loop (pwalk total n) fuel) (MkWalk (ts ++ cl :: r) e st.1 st.2)
    (forallb (accepts profiles n VPlain st.1) l) (MkWalk (cl :: r) e st.1 st.2).
Proof.
  intros Hv Hh. revert fuel ts. induction l as [|x l IH]; intros fuel ts Hts Hcl Hf Ht.
  { destruct ts; [|done]. destruct fuel; apply runs_peek; by rewrite Hcl. }
  inversion Hv as [|? ? [j Hj] Hv']; inversion Hh as [|? ? Hx Hh']; subst.
  destruct fuel as [|f]; [simpl in Hf; lia|]. cbn [map] in Hts. rewrite commas_cons in Hts.
  apply texts_app in Hts as (tx & tl & -> & Hx1 & Hl1). rewrite length_app in Ht.
  destruct (render_head x j Hj) as (s & q & Hs & Hn & _). pose proof Hx1 as Hx2. rewrite Hs in Hx2.
  apply texts_cons in Hx2 as (t0 & tx' & -> & Ht0 & _). rewrite <-app_assoc. cbn [array_loop].
  apply runs_peek. rewrite Ht0, (proj2 (text_eqb_neq _ _) Hn). cbn [forallb].
  eapply runs_bind.
  { pose proof (Hx total n (t0 :: tx') (tl ++ cl :: r) e st Hx1 ltac:(simpl in *; lia)) as R.
    rewrite walked_plain in R. exact R. }
  intros _. eapply (runs_separator l render); [by destruct l|done|done| |].
  - intros y l' c tt -> -> Htt. apply IH; [done..|simpl in *; lia|simpl in *; lia].
  - intros ->. done.
Qed.

Lemma profiles_loop_runs total n l fuel ts cl r e st :
  Forall valued l → Forall (handles VProfile) l →
  map t_text ts = commas (lit ",") (map render l) → t_text cl = lit "]" →
  (length l ≤ fuel)%nat → (length ts ≤ total)%nat →
  let st' := foldl (λ st e, visit profiles VProfile e ((st.1 + 1)%Z, st.2)) st l in
  runs (profiles_loop (pwalk total n) fuel) (MkWalk (ts ++ cl :: r) e st.1 st.2)
    (accepts_profiles (accepts profiles n VProfile) st.1 l)
    (MkWalk (cl :: r) (e ++ marked (commas false (map (marks VProfile) l)) ts) st'.1 st'.2).
Proof.
  intros Hv Hh. revert fuel ts e st. induction l as [|x l IH]; intros fuel ts e st Hts Hcl Hf Ht; cbv zeta.
  { destruct ts; [|done]. cbn [map commas marked foldl accepts_profiles app]. rewrite app_nil_r.
    destruct fuel; apply runs_peek; by rewrite Hcl. }
  inversion Hv as [|? ? [j Hj] Hv']; inversion Hh as [|? ? Hx Hh']; subst.
  destruct fuel as [|f]; [simpl in Hf; lia|]. cbn [map] in Hts. rewrite commas_cons in Hts.
  apply texts_app in Hts as (tx & tl & -> & Hx1 & Hl1). rewrite length_app in Ht.
  destruct (render_head x j Hj) as (s & q & Hs & Hn & _ & Ho). pose proof Hx1 as Hx2. rewrite Hs in Hx2.
  apply texts_cons in Hx2 as (t0 & tx' & -> & Ht0 & _). rewrite <-app_assoc. cbn [profiles_loop].
  apply runs_peek. rewrite Ht0, (proj2 (text_eqb_neq _ _) Hn). cbn [accepts_profiles foldl map].
  change (runs (cmd_bind peek (λ u, cmd_bind (require (text_eqb (t_text u) (lit "{")) "profile object invalid")
    (λ _, cmd_bind (pwalk total n false true) (λ _, cmd_bind continues (λ more, if more then
      profiles_loop (pwalk total n) f else pure ())))))
    (MkWalk ((t0 :: tx') ++ tl ++ cl :: r) e (st.1 + 1, st.2).1 (st.1 + 1, st.2).2)%Z
    (is_tobject x && (accepts profiles n VProfile (st.1 + 1) x && accepts_profiles (accepts profiles n VProfile) (st.1 + 1) l))%Z
    (MkWalk (cl :: r) (e ++ marked (commas false (marks VProfile x :: map (marks VProfile) l)) ((t0 :: tx') ++ tl))
       (foldl (λ st e, visit profiles VProfile e ((st.1 + 1)%Z, st.2)) (visit profiles VProfile x ((st.1 + 1)%Z, st.2)) l).1
       (foldl (λ st e, visit profiles VProfile e ((st.1 + 1)%Z, st.2)) (visit profiles VProfile x ((st.1 + 1)%Z, st.2)) l).2)).
  rewrite commas_cons, marked_app by (rewrite marks_length, <-Hx1, length_fmap; done).
  rewrite (app_assoc e).
  apply runs_peek. rewrite Ht0, Ho. eapply runs_bind; [apply runs_require|]. intros _.
  eapply runs_bind.
  { apply (Hx total n (t0 :: tx') (tl ++ cl :: r) e ((st.1 + 1)%Z, st.2)); [done|simpl in *; lia]. }
  intros Ha.
  unfold walked. eapply (runs_separator l render); [by destruct l|done|done| |].
  - intros y l' c tt -> -> Htt. cbn [marked].
    eapply runs_if; [apply (IH Hv' Hh' f tt _ (visit profiles VProfile x ((st.1 + 1)%Z, st.2)));
      [done..|simpl in *; lia|simpl in *; lia]|]. by rewrite visit_index.
  - intros ->. destruct tl; [|done]. simpl. by rewrite app_nil_r.
Qed.

(** *** Objects *)

Definition root_of (v : view) : bool := match v with VRoot => true | _ => false end.
Definition profile_of (v : view) : bool := match v with VProfile => true | _ => false end.
Definition walks (v : view) : Prop := match v with VRoot | VProfile | VPlain => True | _ => False end.

(** What the loop does between the colon and the separator. *)
Lemma member_handled total n v key :
  walks v → ∀ w b w',
  runs (handle total n (member_view v key)) w b w' →
  ∀ k b' w'', (b = true → runs (k ()) w' b' w'') →
  runs (let! _ := cmd_when (profile_of v && text_eqb key (lit "autoUpdate")) (visit_autoUpdate profiles) in
        cmd_bind (member_value (pwalk total n) total (root_of v) key) k) w (b && b') w''.
Proof.
  intros Hv w b w' Hh k b' w'' Hk. destruct v; try done; cbn [root_of profile_of andb member_view] in *.
  - unfold member_value. cbn [cmd_when andb]. destruct (text_eqb key (lit "profiles"));
      exact (runs_bind _ _ _ _ _ _ _ Hh Hk).
  - unfold member_value. cbn [andb]. destruct (text_eqb key (lit "autoUpdate")); cbn [cmd_when];
      [|exact (runs_bind _ _ _ _ _ _ _ Hh Hk)].
    pose proof (runs_bind _ _ _ _ _ _ _ Hh Hk) as R. clear -R. unfold runs, handle, cmd_bind in *.
    destruct (visit_autoUpdate profiles w) as [[[]|e] w0]; exact R.
  - exact (runs_bind _ _ _ _ _ _ _ Hh Hk).
Qed.

Definition member_tokens (kv : text * jtree) : list text := let '(k, x) := kv in k :: lit ":" :: render x.
Definition member_marks (v : view) (kv : text * jtree) : list bool :=
  let '(k, x) := kv in false :: false :: marks (view_of v k) x.

Definition visit_members (v : view) (l : list (text * jtree)) (st : Z * list json) : Z * list json :=
  foldl (λ st '(k, x), visit profiles (view_of v k) x st) st l.

(** The position at the members that are left, given the names seen so far and
    the position [i0] at the first member. *)
Definition at_member (v : view) (keys : list text) (i0 i : Z) : Prop :=
  match v with VRoot => lit "profiles" ∈ keys ∨ i = i0 | _ => i = i0 end.

Lemma accepts_plain n i i' t : accepts profiles n VPlain i t = accepts profiles n VPlain i' t.
Proof.
  revert n. induction t as [s|l IH|l IH] using jtree_ind'; intros n; [done|..]; simpl; f_equal.
  - induction IH as [|x l Hx Hl IHl]; [done|]. simpl. by rewrite Hx, IHl.
  - generalize ([] : list text). induction IH as [|[k x] l Hx Hl IHl]; intros keys; [done|].
    simpl in *. by rewrite Hx, IHl.
Qed.

Lemma member_accepted n v keys k x i0 i :
  at_member v keys i0 i → key_name k ∉ keys →
  accepts profiles n (view_of v k) i x = accepts profiles n (view_of v k) i0 x.
Proof.
  unfold view_of. intros Hr Hk. destruct v; simpl in *; try by subst.
  destruct (text_eqb (key_name k) (lit "profiles")) eqn:E; [|apply accepts_plain].
  apply text_eqb_eq in E. destruct Hr as [Hp| ->]; [congruence|done].
Qed.

Lemma at_next_member v keys k x i0 st :
  walks v → at_member v keys i0 st.1 →
  at_member v (key_name k :: keys) i0 (visit profiles (view_of v k) x st).1.
Proof.
  unfold view_of. intros Hv Hr. destruct v; try done; cbn [member_view].
  - destruct (text_eqb (key_name k) (lit "profiles")) eqn:E.
    + left. apply text_eqb_eq in E. rewrite E. constructor.
    + rewrite visit_plain. destruct Hr; [left; by constructor|by right].
  - simpl. rewrite visit_index; [done|]. by destruct (text_eqb (key_name k) (lit "autoUpdate")).
  - simpl. by rewrite visit_plain.
Qed.

Definition keyed (kv : text * jtree) : Prop := is_Some (key_text kv.1).

Lemma object_loop_runs total n v i0 l fuel keys ts cl r e st :
  walks v → Forall keyed l → Forall (λ kv, ∀ v, handles v kv.2) l →
  map t_text ts = commas (lit ",") (map member_tokens l) → t_text cl = lit "}" →
  (length l ≤ fuel)%nat → (length ts ≤ total)%nat → at_member v keys i0 st.1 →
  let st' := visit_members v l st in
  runs (object_loop profiles (pwalk total n) total fuel (root_of v) (profile_of v) keys)
    (MkWalk (ts ++ cl :: r) e st.1 st.2) (accepts_members (λ v, accepts profiles n v i0) v keys l)
    (MkWalk (cl :: r) (e ++ marked (commas false (map (member_marks v) l)) ts) st'.1 st'.2).
Proof.
  intros Hw Hv Hh. revert fuel keys ts e st.
  induction l as [|[k x] l IH]; intros fuel keys ts e st Hts Hcl Hf Ht Hr; cbv zeta.
  { destruct ts; [|done]. cbn [map commas marked visit_members foldl accepts_members app]. rewrite app_nil_r.
    destruct fuel; apply runs_gets; cbn [wk_rest]; rewrite Hcl; done. }
  inversion Hv as [|? ? Hk Hv']; inversion Hh as [|? ? Hx Hh']; subst.
  destruct fuel as [|f]; [simpl in Hf; lia|]. cbn [map] in Hts. rewrite commas_cons in Hts.
  apply texts_app in Hts as (tx & tl & -> & Hx1 & Hl1). cbn [member_tokens] in Hx1.
  apply texts_cons in Hx1 as (tk & tx1 & -> & Htk & Hx1). apply texts_cons in Hx1 as (tc & tx' & -> & Htc & Hx1).
  rewrite length_app in Ht. cbn [object_loop]. rewrite <-!app_assoc. cbn [app].
  apply runs_gets. cbn [wk_rest]. rewrite Htk.
  rewrite (proj2 (text_eqb_neq k (lit "}"))) by (by apply key_token_mark). cbn [negb].
  apply runs_next. rewrite Htk. destruct Hk as [key Hk]. rewrite (key_of_token k key Hk).
  assert (key_name k = key) as Hn by (unfold key_name; simpl in Hk; by rewrite Hk).
  cbn [accepts_members]. rewrite Hn. eapply runs_bind; [apply runs_require|]. intros Hd.
  apply negb_true_iff, bool_decide_eq_false in Hd.
  apply runs_gets. cbn [wk_rest]. rewrite bool_decide_eq_true_2 by done.
  apply (runs_bind _ _ _ true _ _ _ (runs_require true _ _)). intros _.
  eapply (runs_bind _ _ _ true); [eapply runs_if; [apply runs_next_is|]; by rewrite Htc|]. intros _.
  cbn [map]. rewrite commas_cons. cbn [member_marks app marked].
  rewrite marked_app by (rewrite marks_length, <-Hx1, length_fmap; done). rewrite (app_assoc e).
  pose proof (Hx (view_of v k) total n tx' (tl ++ cl :: r) e st Hx1 ltac:(simpl in *; lia)) as R.
  cbn [snd] in R. rewrite (member_accepted n v keys k x i0) in R by (done || congruence).
  unfold walked in R. cbn [snd] in R. unfold view_of at 1 in R. rewrite Hn in R.
  eapply (member_handled total n v key Hw _ _ _ R). intros _. cbn [visit_members foldl].
  eapply (runs_separator l member_tokens); [by destruct l|done|done| |].
  - intros y l' c tt -> -> Htt. cbn [marked map].
    apply (IH Hv' Hh' f (key :: keys) tt _ (visit profiles (view_of v k) x st)); [done..|simpl in *; lia|simpl in *; lia|].
    rewrite <-Hn. by apply at_next_member.
  - intros ->. destruct tl; [|done]. cbn [map marked]. by rewrite app_nil_r.
Qed.

(** *** Every tree *)

Lemma tree_value_array l j : tree_value (TArray l) = Some j → Forall valued l.
Proof.
  simpl. destruct (mapM tree_value l) as [vs|] eqn:E; [|done]. intros _. apply mapM_Some in E.
  clear j. induction E; constructor; [by eexists|done].
Qed.

Lemma tree_value_object l j : tree_value (TObject l) = Some j → Forall keyed l ∧ Forall (λ kv, valued kv.2) l.
Proof.
  simpl. destruct (mapM _ l) as [vs|] eqn:E; [|done]. intros _. apply mapM_Some in E. clear j.
  induction E as [|[k x] [s v] l vs Hx Hl IH]; [by split|]. destruct IH.
  destruct (key_text k) eqn:Ek; simplify_eq/=. destruct (tree_value x) eqn:Ex; simplify_eq/=.
  split; constructor; try done; by eexists.
Qed.

Lemma commas_length {A} (sep : A) l : Forall (λ x, x ≠ []) l → (length l ≤ length (commas sep l))%nat.
Proof.
  induction 1 as [|x l Hx Hl IH]; [done|]. rewrite commas_cons, length_app. destruct x; [done|].
  destruct l; simpl in *; lia.
Qed.

Lemma render_ne t : render t ≠ [].
Proof. by destruct t. Qed.

Lemma elements_length l : (length l ≤ length (commas (lit ",") (map render l)))%nat.
Proof.
  rewrite <-(length_fmap render). apply commas_length. rewrite Forall_map. apply Forall_forall. intros t _.
  apply render_ne.
Qed.

Lemma members_length l : (length l ≤ length (commas (lit ",") (map member_tokens l)))%nat.
Proof.
  rewrite <-(length_fmap member_tokens). apply commas_length. rewrite Forall_map. apply Forall_forall.
  by intros [k x] _.
Qed.

Lemma runs_walk total n root prof t ts e i ids b w :
  runs (if text_eqb (t_text t) (lit "{") then
          let! _ := object_loop profiles (pwalk total n) total total root prof [] in
          next_is "}" "profile object end invalid"
        else if text_eqb (t_text t) (lit "[") then
          let! _ := array_loop (pwalk total n) total in
          next_is "]" "profile array end invalid"
        else pure ()) (MkWalk ts e i ids) b w →
  runs (pwalk total (S n) root prof) (MkWalk (t :: ts) e i ids) b w.
Proof. intros R. cbn [walk]. apply runs_gets. cbn [wk_rest]. rewrite bool_decide_eq_true_2 by done. exact R. Qed.

Lemma runs_walk_0 total root prof w w' : runs (pwalk total 0 root prof) w false w'.
Proof. by eexists _, _. Qed.

Lemma walk_scalar total n root prof s ts t e i ids :
  json_scalar s ≠ None → t_text t = s →
  runs (pwalk total n root prof) (MkWalk (t :: ts) e i ids) (0 <? n)%nat (MkWalk ts e i ids).
Proof.
  intros Hs Ht. destruct n as [|n]; [apply runs_walk_0|]. apply runs_walk. rewrite Ht.
  rewrite !(proj2 (text_eqb_neq _ _)); [done|..]; intros ->; apply Hs; by apply scalar_mark.
Qed.

Lemma visit_auto_runs t ts e st :
  let b := text_eqb (t_text t) (lit "true") in
  let st' := visit profiles VAuto (TScalar (t_text t)) st in
  runs (visit_autoUpdate profiles) (MkWalk (t :: ts) e st.1 st.2)
    ((b && ((0 <=? st.1) && (st.1 <? Z.of_nat (length profiles))))%Z || text_eqb (t_text t) (lit "false"))
    (MkWalk (t :: ts) (e ++ marked [b] [t]) st'.1 st'.2).
Proof.
  intros b st'. subst b st'. unfold visit_autoUpdate. apply runs_peek. cbn [visit].
  destruct (text_eqb (t_text t) (lit "true")) eqn:Eb.
  - apply text_eqb_eq in Eb. rewrite Eb. change (text_eqb (lit "true") (lit "false")) with false.
    cbn [orb andb cmd_when marked]. rewrite orb_false_r.
    unfold runs, require, cmd_bind, add_edit, cmd_modify, gets, cmd_get, pure, cmd_ret. cbn [wk_profileIndex].
    destruct ((0 <=? st.1) && (st.1 <? Z.of_nat (length profiles)))%Z; [done|by eexists _, _].
  - cbn [andb orb]. destruct (text_eqb (t_text t) (lit "false")); cbn [require cmd_when marked].
    + rewrite app_nil_r. done.
    + by eexists _, _.
Qed.

(** The marks of what is between two brackets. *)
Lemma walked_bracket v t op tl cl r e st m :
  marks v t = false :: m ++ [false] → length (render t) = S (length (tl ++ [cl])) →
  walked v t (op :: tl ++ [cl]) r e st =
  MkWalk r (e ++ marked m tl) (visit profiles v t st).1 (visit profiles v t st).2.
Proof.
  intros Hm Hl. pose proof (marks_length v t) as E. rewrite Hm, Hl in E. simpl in E. rewrite !length_app in E. simpl in E.
  unfold walked. rewrite Hm. cbn [marked]. rewrite marked_app by lia. cbn [marked]. by rewrite app_nil_r.
Qed.

Lemma array_handled l : Forall valued l → Forall (λ t, ∀ v, handles v t) l → ∀ v, handles v (TArray l).
Proof.
  intros Hv Hh v total n ts r e st Hts Ht. cbn [render] in Hts.
  apply texts_cons in Hts as (t & ts1 & -> & Hop & Hts). apply texts_app in Hts as (tl & tc & -> & Hl & Hc).
  apply texts_cons in Hc as (cl & tn & -> & Hcl & Htn). destruct tn; [|done].
  pose proof (elements_length l) as Hlen. rewrite <-Hl, length_fmap in Hlen. simpl in Ht. rewrite length_app in Ht.
  assert (∀ root prof, element_view v = VPlain → visit profiles v (TArray l) st = st →
    runs (pwalk total n root prof) (MkWalk ((t :: tl ++ [cl]) ++ r) e st.1 st.2)
      ((0 <? n)%nat && forallb (accepts profiles (pred n) VPlain st.1) l) (walked v (TArray l) (t :: tl ++ [cl]) r e st)) as Hw.
  { intros root prof He Hs. unfold walked. rewrite Hs. cbn [marks]. rewrite He.
    rewrite marked_false, app_nil_r by
      (constructor; [done|]; apply Forall_app; split; [|by repeat constructor];
       apply commas_Forall; [done|]; rewrite Forall_map; apply Forall_forall; intros ? _; apply marks_plain).
    destruct n as [|n]; [apply runs_walk_0|]. cbn [app]. apply runs_walk. rewrite Hop. cbn [pred Nat.ltb Nat.leb andb].
    change (text_eqb (lit "[") (lit "{")) with false. change (text_eqb (lit "[") (lit "[")) with true.
    rewrite <-app_assoc, <-(andb_true_r (forallb _ _)).
    eapply runs_bind.
    - apply array_loop_runs; [done| |done..|simpl in *; lia|simpl in *; lia].
      eapply Forall_impl; [exact Hh|]. auto.
    - intros _. eapply runs_if; [apply runs_next_is|]. by rewrite Hcl. }
  destruct v; cbn [handle accepts]; try (by apply Hw).
  - pose proof (walked_bracket VProfiles (TArray l) t tl cl r e st (commas false (map (marks VProfile) l))) as Hwalked.
    cbn [visit] in Hwalked. specialize (Hwalked eq_refl ltac:(by cbn [render]; rewrite <-Hl, !length_cons, !length_app, length_fmap)).
    cbn [app]. rewrite <-app_assoc. cbn [app] in *.
    apply (runs_if _ _ (true && (accepts_profiles (accepts profiles n VProfile) st.1 l && true)));
      [|by rewrite andb_true_r].
    eapply runs_bind; [eapply runs_if; [apply runs_next_is|by rewrite Hop]|]. intros _.
    eapply runs_bind.
    + apply (profiles_loop_runs total n l total tl cl r e st);
        [done| |done..|simpl in *; lia|simpl in *; lia].
      eapply Forall_impl; [exact Hh|]. auto.
    + intros _. rewrite Hwalked. eapply runs_if; [apply runs_next_is|by rewrite Hcl].
  - apply (runs_bind _ _ _ false (MkWalk [] [] 0 []) false); [|done].
    eexists _, _. unfold visit_autoUpdate, cmd_bind, peek. cbn [app wk_rest]. rewrite Hop. reflexivity.
Qed.

Lemma object_handled l : Forall keyed l → Forall (λ kv, ∀ v, handles v kv.2) l → ∀ v, handles v (TObject l).
Proof.
  intros Hv Hh v total n ts r e st Hts Ht.
  change (render (TObject l)) with (lit "{" :: commas (lit ",") (map member_tokens l) ++ [lit "}"]) in Hts.
  apply texts_cons in Hts as (t & ts1 & -> & Hop & Hts). apply texts_app in Hts as (tl & tc & -> & Hl & Hc).
  apply texts_cons in Hc as (cl & tn & -> & Hcl & Htn). destruct tn; [|done].
  pose proof (members_length l) as Hlen. rewrite <-Hl, length_fmap in Hlen. simpl in Ht. rewrite length_app in Ht.
  pose proof (walked_bracket v (TObject l) t tl cl r e st (commas false (map (member_marks v) l))) as Hwalked.
  specialize (Hwalked eq_refl).
  change (render (TObject l)) with (lit "{" :: commas (lit ",") (map member_tokens l) ++ [lit "}"]) in Hwalked.
  specialize (Hwalked ltac:(by rewrite <-Hl, !length_cons, !length_app, length_fmap)).
  assert (walks v → runs (pwalk total n (root_of v) (profile_of v)) (MkWalk ((t :: tl ++ [cl]) ++ r) e st.1 st.2)
      ((0 <? n)%nat && accepts_members (λ v, accepts profiles (pred n) v st.1) v [] l) (walked v (TObject l) (t :: tl ++ [cl]) r e st)) as Hw.
  { intros Hvw. destruct n as [|n]; [apply runs_walk_0|]. cbn [app]. apply runs_walk. rewrite Hop.
    change (text_eqb (lit "{") (lit "{")) with true. rewrite <-app_assoc, Hwalked.
    apply (runs_if _ _ (accepts_members (λ v, accepts profiles n v st.1) v [] l && true)); [|by rewrite andb_true_r].
    eapply runs_bind.
    - apply (object_loop_runs total n v st.1 l total [] tl cl r e st); [done..|simpl in *; lia|simpl in *; lia|].
      destruct v; try done. by right.
    - intros _. eapply runs_if; [apply runs_next_is|by rewrite Hcl]. }
  destruct v; cbn [handle accepts]; try (by apply Hw).
  - apply (runs_bind _ _ _ false (MkWalk [] [] 0 []) false); [|done].
    eexists _, _. unfold next_is, next, cmd_bind, peek. cbn [app wk_rest]. rewrite Hop. reflexivity.
  - apply (runs_bind _ _ _ false (MkWalk [] [] 0 []) false); [|done].
    eexists _, _. unfold visit_autoUpdate, cmd_bind, peek. cbn [app wk_rest]. rewrite Hop. reflexivity.
Qed.

Lemma scalar_handled s : json_scalar s ≠ None → ∀ v, handles v (TScalar s).
Proof.
  intros Hs v total n ts r e st Hts Ht. cbn [render] in Hts.
  apply texts_cons in Hts as (t & tn & -> & Htt & Htn). destruct tn; [|done].
  assert (∀ root prof, marks v (TScalar s) = [false] → visit profiles v (TScalar s) st = st →
    runs (pwalk total n root prof) (MkWalk ([t] ++ r) e st.1 st.2) (0 <? n)%nat (walked v (TScalar s) [t] r e st)) as Hw.
  { intros root prof Hm Hv. unfold walked. rewrite Hm, Hv. cbn [marked app]. rewrite app_nil_r. by eapply walk_scalar. }
  destruct v; cbn [handle accepts]; try (by apply Hw).
  - apply (runs_bind _ _ _ false (MkWalk [] [] 0 []) false); [|done].
    eexists _, _. unfold next_is, next, cmd_bind, peek. cbn [app wk_rest]. unfold pure, advance, cmd_modify, cmd_ret.
    rewrite Htt, (proj2 (text_eqb_neq s (lit "["))); [reflexivity|]. intros ->. apply Hs. by apply scalar_mark.
  - eapply runs_bind.
    + pose proof (visit_auto_runs t r e st) as R. rewrite Htt in R. exact R.
    + intros _. unfold walked. cbn [marks]. by eapply walk_scalar.
Qed.

(** The walk of a tree does what the reference says, and never reads past the
    tokens nor runs out of fuel. *)
Lemma tree_handled t : valued t → ∀ v, handles v t.
Proof.
  induction t as [s|l IH|l IH] using jtree_ind'; intros [j Hj].
  - apply scalar_handled. simpl in Hj. by rewrite Hj.
  - pose proof (tree_value_array l j Hj) as Hl. apply array_handled; [done|].
    apply Forall_forall. intros t Ht. rewrite Forall_forall in IH, Hl. by apply IH; [|apply Hl].
  - destruct (tree_value_object l j Hj) as [Hk Hl]. apply object_handled; [done|].
    apply Forall_forall. intros kv Hkv. rewrite Forall_forall in IH, Hl. by apply IH; [|apply Hl].
Qed.
End correct.
