(* ===== verification/PausedStore.v ===== *)
(** * What pausing does to the profile store

    [pauseJson] edits text; this file says what the edited text means.  Read as
    a document it is the store with the automatic updates off
    ([paused_document]); read by the profile store it gives the same profiles
    without automatic updates ([paused_store_loads]); apart from the replaced
    literals every byte is kept. *)

From stdpp Require Import gmap.
From S2P Require Import Prelude Text Json QtInterface Command JsonTokens PauseJson.
From S2P Require Import JsonText ConfigCodec RoutePolicy RouteGrammar RouteState ProfileStore.
#[local] Open Scope amnezia_scope.

(** ** The intended change *)

Definition auto_update : text := lit "autoUpdate".

Definition updates_itself (p : json) : bool :=
  match jvalue auto_update (to_object p) with JBool true => true | _ => false end.

Definition pause_profile (p : json) : json :=
  match p with
  | JObject o => if updates_itself p then JObject (jput auto_update (JBool false) o) else p
  | _ => p
  end.

Definition store_profiles (doc : jobject) : list json := to_array (jvalue (lit "profiles") doc).

Definition paused_document (doc : jobject) : jobject :=
  jput (lit "profiles") (JArray (map pause_profile (store_profiles doc))) doc.

Definition paused_ids (doc : jobject) : list json :=
  map (λ p, jvalue (lit "id") (to_object p)) (filter (λ p, updates_itself p = true) (store_profiles doc)).

Lemma Forall2_in_l {A B} (R : A → B → Prop) l k x : Forall2 R l k → x ∈ l → ∃ y, y ∈ k ∧ R x y.
Proof. induction 1; set_solver. Qed.

Lemma Forall2_in_r {A B} (R : A → B → Prop) l k y : Forall2 R l k → y ∈ k → ∃ x, x ∈ l ∧ R x y.
Proof. induction 1; set_solver. Qed.

(** ** Members *)

Lemma put_members_snoc l k v : put_members (l ++ [(k, v)]) = jput k v (put_members l).
Proof. unfold put_members. by rewrite foldl_app. Qed.

Lemma put_members_keys l k : k ∈ jkeys (put_members l) ↔ k ∈ map fst l.
Proof.
  induction l as [|[k' v] l IH] using rev_ind; [done|].
  rewrite put_members_snoc, jput_keys, IH, map_app, elem_of_app. simpl. rewrite list_elem_of_singleton. tauto.
Qed.

Lemma put_members_wf l : Forall (λ p, is_undefined p.2 = false) l → jwf (put_members l).
Proof.
  induction l as [|[k v] l IH] using rev_ind; intros Hl; [apply jwf_nil|].
  apply Forall_app in Hl as [Hl Hv]. inversion Hv; subst. rewrite put_members_snoc. apply jput_wf; auto.
Qed.

(** Changing the values of one name. *)
Definition at_key (key : text) (f : json → json) (p : text * json) : text * json :=
  (p.1, if text_eqb p.1 key then f p.2 else p.2).

Lemma put_members_at key f l k :
  jvalue k (put_members (map (at_key key f) l)) =
  if text_eqb k key && bool_decide (k ∈ map fst l) then f (jvalue k (put_members l)) else jvalue k (put_members l).
Proof.
  induction l as [|[k' v] l IH] using rev_ind; [by rewrite andb_false_r|].
  rewrite !map_app. cbn [map fst snd].
  change (at_key key f (k', v)) with (k', if text_eqb k' key then f v else v).
  rewrite !put_members_snoc, !jvalue_jput. rewrite IH.
  destruct (text_eqb k k') eqn:E.
  - apply text_eqb_eq in E. subst k'. rewrite bool_decide_eq_true_2 by set_solver. by rewrite andb_true_r.
  - apply text_eqb_neq in E.
    assert (k ∈ map fst l ++ [k'] ↔ k ∈ map fst l) as Hi by set_solver.
    by rewrite (bool_decide_ext _ _ Hi).
Qed.

Section correct.
Context {QD : QtData} {QS : QtJsonScalar} {JL : JsonGrammarLaws QD QS}.

(** ** The tree the walk works on *)

Lemma byte_order_mark_tokens s' t l :
  t = TObject l → token_texts s' = Some (render t) →
  ∃ ts, json_tokens (byte_order_mark ++ s') = Ok ts ∧ map t_text ts = byte_order_mark :: render t.
Proof.
  intros -> Hs. unfold token_texts in Hs. pose proof (json_tokens_spec s') as Hl.
  destruct (json_tokens s') as [ts|]; [|done]. destruct Hl as (p & w & -> & Hl & ->). simplify_eq.
  rewrite place_texts in Hs. destruct p as [|[w1 t1] p]; [done|].
  cbn [map snd] in Hs. exists (place 0 (([], byte_order_mark) :: (w1, t1) :: p)). split.
  - change (byte_order_mark ++ spread ((w1, t1) :: p) w) with (spread (([], byte_order_mark) :: (w1, t1) :: p) w).
    apply json_tokens_layout. split; [constructor|]. split; [|done].
    apply stands_word; [done|]. rewrite spread_cons. destruct w1 as [|c w1]; simpl.
    + assert (t1 = lit "{") as -> by (simpl in Hs; congruence). done.
    + destruct Hl as (Hw & _). inversion Hw as [|? ? Hc]; subst. unfold ends_word. by rewrite Hc.
  - rewrite place_texts. cbn [map snd]. congruence.
Qed.

(** What a result of [pauseJson] comes from; an error is always one it throws
    itself. *)
Definition paused_by (raw res : text) (ids : list json) (doc : jobject) (t : jtree) (ts : list Token) : Prop :=
  json_parse raw = Some (JObject doc) ∧ to_int 0 (jvalue (lit "version") doc) = 1%Z
  ∧ is_array (jvalue (lit "profiles") doc) = true
  ∧ json_tokens raw = Ok ts ∧ map t_text ts = render t ∧ (tree_depth t ≤ 1024)%nat
  ∧ tree_value t = Some (JObject doc) ∧ accepts (store_profiles doc) nesting VRoot (-1) t = true
  ∧ res = apply_edits (lit "false") (marked (marks VRoot t) ts) raw
  ∧ ids = (visit (store_profiles doc) VRoot t ((-1)%Z, [])).2.

Lemma tree_of_object t doc : tree_value t = Some (JObject doc) → ∃ l, t = TObject l.
Proof.
  destruct t as [s|l|l]; simpl; intros Ht; [by apply scalar_flat in Ht| |by exists l].
  by destruct (mapM tree_value l).
Qed.

Lemma walk_word profiles total n root prof t ts e i ids :
  t_text t ≠ lit "{" → t_text t ≠ lit "[" →
  walk profiles total (S n) root prof (MkWalk (t :: ts) e i ids) = (Ok (), MkWalk ts e i ids).
Proof.
  intros H1 H2. apply (runs_walk profiles total n root prof t ts e i ids true).
  by rewrite (proj2 (text_eqb_neq _ _) H1), (proj2 (text_eqb_neq _ _) H2).
Qed.

(** The walk from the start of the tokens of a tree. *)
Lemma walk_tree profiles ts t n :
  valued t → map t_text ts = render t →
  if accepts profiles n VRoot (-1) t
  then walk profiles (length ts) n true false (MkWalk ts [] (-1) []) = (Ok (), walked profiles VRoot t ts [] [] ((-1)%Z, []))
  else ∃ e w1, walk profiles (length ts) n true false (MkWalk ts [] (-1) []) = (Err (Throw e), w1).
Proof.
  intros Hv Ht. pose proof (tree_handled profiles t Hv VRoot (length ts) n ts [] [] ((-1)%Z, []) Ht (le_n _)) as R.
  rewrite app_nil_r in R. exact R.
Qed.

Lemma pauseJson_cases raw :
  match pauseJson raw with
  | Ok (res, ids) => ∃ doc t ts, paused_by raw res ids doc t ts
  | Err e => ∃ m, e = Throw m
  end.
Proof.
  unfold pauseJson, object.
  destruct (json_parse raw) as [[| | | | | |doc]|] eqn:Ep; try by eexists. cbn [rbind].
  cbv zeta. fold (store_profiles doc). unfold throw_if at 1. destruct (_ || _) eqn:Ev; [by eexists|]. bprop.
  destruct (json_parse_only raw _ Ep) as (s & t & Hs & Ht & Hd & Hv & _).
  destruct (tree_of_object t doc Hv) as [l Hl]. remember nesting as n eqn:Hn. destruct Hs as [<- | ->].
  - unfold token_texts in Ht. destruct (json_tokens raw) as [ts|] eqn:Ets; [|done].
    assert (map t_text ts = render t) as Htt by congruence.
    pose proof (walk_tree (store_profiles doc) ts t n ltac:(by eexists) Htt) as R.
    destruct (accepts (store_profiles doc) n VRoot (-1) t) eqn:Ea.
    + rewrite R. unfold walked, finish, throw_if. cbn [wk_rest wk_edits wk_ids].
      rewrite bool_decide_eq_false_2 by auto. exists doc, t, ts. subst n. unfold paused_by. by split_and!.
    + destruct R as (e & w1 & ->). by eexists.
  - subst t. destruct (byte_order_mark_tokens s (TObject l) l eq_refl Ht) as (ts & Hts & Htt). rewrite Hts.
    destruct ts as [|t0 ts]; [done|]. cbn [map] in Htt. injection Htt as Hbom Hrest.
    destruct n as [|n]; [done|]. rewrite walk_word by (rewrite Hbom; done). unfold finish, throw_if. cbn [wk_rest].
    rewrite bool_decide_eq_true_2 by (destruct ts; done). by eexists.
Qed.

(** ** The edited tokens render the paused tree *)

Lemma repaint_app after m1 m2 l1 l2 :
  length m1 = length l1 → repaint_texts after (m1 ++ m2) (l1 ++ l2) = repaint_texts after m1 l1 ++ repaint_texts after m2 l2.
Proof.
  revert l1. induction m1 as [|b m1 IH]; intros [|x l1] Hl; simplify_eq/=; [done|]. by rewrite IH.
Qed.

Lemma repaint_commas {A} after (f g : A → list text) (m : A → list bool) l :
  (∀ x, x ∈ l → length (m x) = length (f x)) → (∀ x, x ∈ l → g x = repaint_texts after (m x) (f x)) →
  commas (lit ",") (map g l) = repaint_texts after (commas false (map m l)) (commas (lit ",") (map f l)).
Proof.
  induction l as [|x l IH]; intros Hl Hg; [done|]. cbn [map]. rewrite !commas_cons.
  rewrite repaint_app by (apply Hl; constructor). rewrite <-Hg by constructor. f_equal.
  destruct l as [|y l]; [done|]. cbn [map] in *. cbn [repaint_texts]. f_equal. apply IH.
  - intros z Hz. apply Hl. by constructor.
  - intros z Hz. apply Hg. by constructor.
Qed.

Lemma commas_length_eq {A B C} (sep : A) (sep' : B) (f : C → list A) (g : C → list B) l :
  (∀ x, x ∈ l → length (f x) = length (g x)) → length (commas sep (map f l)) = length (commas sep' (map g l)).
Proof.
  induction l as [|x l IH]; intros Hl; [done|]. cbn [map]. rewrite !commas_cons, !length_app.
  rewrite Hl by constructor. f_equal. destruct l; [done|]. cbn [map length] in *. f_equal. apply IH.
  intros z Hz. apply Hl. by constructor.
Qed.

Lemma render_paused v t : render (pause_tree v t) = repaint_texts (lit "false") (marks v t) (render t).
Proof.
  revert v. induction t as [s|l IH|l IH] using jtree_ind'; intros v; cbn [pause_tree render marks repaint_texts].
  - by destruct v.
  - f_equal. rewrite repaint_app by (apply commas_length_eq; intros; apply marks_length). cbn [repaint_texts]. f_equal.
    rewrite map_map. apply repaint_commas; [intros; apply marks_length|]. intros x Hx.
    rewrite Forall_forall in IH. by apply IH.
  - f_equal. rewrite repaint_app by (apply commas_length_eq; intros [k x] _; simpl; by rewrite marks_length).
    cbn [repaint_texts]. f_equal. rewrite map_map.
    apply (repaint_commas _ (λ '(k, x), k :: lit ":" :: render x)); [intros [k x] _; simpl; by rewrite marks_length|].
    intros [k x] Hx. rewrite Forall_forall in IH. simpl. do 2 f_equal. by apply (IH (k, x)).
Qed.

Lemma marked_true v t : Forall (λ s, s = lit "true") (marked (marks v t) (render t)).
Proof.
  revert v. induction t as [s|l IH|l IH] using jtree_ind'; intros v; cbn [render marks marked].
  - destruct v; try constructor. destruct (text_eqb s (lit "true")) eqn:E; [|constructor].
    apply text_eqb_eq in E. by repeat constructor.
  - rewrite marked_app by (apply commas_length_eq; intros; apply marks_length). cbn [marked]. rewrite app_nil_r.
    induction IH as [|x l Hx Hl IHl]; [constructor|]. cbn [map]. rewrite !commas_cons.
    rewrite marked_app by apply marks_length. apply Forall_app. split; [apply Hx|]. by destruct l.
  - rewrite marked_app by (apply commas_length_eq; intros [k x] _; simpl; by rewrite marks_length).
    cbn [marked]. rewrite app_nil_r.
    induction IH as [|[k x] l Hx Hl IHl]; [constructor|]. cbn [map]. rewrite !commas_cons. cbn [app marked].
    rewrite marked_app by apply marks_length. apply Forall_app. split; [apply Hx|]. by destruct l.
Qed.

Lemma pause_plain t : pause_tree VPlain t = t.
Proof.
  induction t as [s|l IH|l IH] using jtree_ind'; [done|..]; cbn [pause_tree element_view]; f_equal.
  - induction IH; simpl; congruence.
  - induction IH as [|[k x] l Hx Hl IHl]; [done|]. simpl in *. unfold view_of. cbn [member_view]. by rewrite Hx, IHl.
Qed.

Lemma pause_depth v t : tree_depth (pause_tree v t) = tree_depth t.
Proof.
  revert v. induction t as [s|l IH|l IH] using jtree_ind'; intros v; [done|..]; cbn [pause_tree tree_depth]; f_equal.
  - induction IH as [|x l Hx Hl IHl]; [done|]. simpl. by rewrite Hx, IHl.
  - induction IH as [|[k x] l Hx Hl IHl]; [done|]. simpl in *. by rewrite Hx, IHl.
Qed.

(** ** The value of the paused tree *)

Definition member_of (kv : text * jtree) : option (text * json) :=
  let '(k, x) := kv in s ← key_text k; j ← tree_value x; Some (s, j).

Lemma member_of_Some k x s j : member_of (k, x) = Some (s, j) ↔ key_text k = Some s ∧ tree_value x = Some j.
Proof. simpl. destruct (key_text k), (tree_value x); naive_solver. Qed.

Lemma tree_value_members l o :
  tree_value (TObject l) = Some o ↔ ∃ ms, mapM member_of l = Some ms ∧ o = JObject (put_members ms).
Proof.
  change (tree_value (TObject l)) with ((λ m, JObject (put_members m)) <$> mapM member_of l).
  destruct (mapM member_of l); naive_solver.
Qed.

(** The view that reaches the value of one name, in an object seen as [v]. *)
Lemma members_paused v key w f l ms :
  (∀ k, member_view v k = if text_eqb k key then w else VPlain) →
  (∀ k x j, (k, x) ∈ l → key_name k = key → tree_value x = Some j → tree_value (pause_tree w x) = Some (f j)) →
  mapM member_of l = Some ms →
  mapM member_of (map (λ '(k, x), (k, pause_tree (view_of v k) x)) l) = Some (map (at_key key f) ms).
Proof.
  intros Hv Hf Hms. apply mapM_Some in Hms. apply mapM_Some.
  induction Hms as [|[k x] [s j] l ms Hx Hl IH]; [constructor|]. cbn [map]. constructor.
  - apply member_of_Some in Hx as [Hk Hj]. unfold at_key. cbn [fst snd].
    assert (key_name k = s) as Hn by (unfold key_name; by rewrite Hk).
    apply member_of_Some. split; [done|]. unfold view_of. rewrite Hn, Hv.
    destruct (text_eqb s key) eqn:E; [|by rewrite pause_plain].
    apply text_eqb_eq in E. eapply Hf; [constructor|congruence|done].
  - apply IH. intros k' x' j' H'. apply Hf. by constructor.
Qed.

Definition pause_literal (j : json) : json := match j with JBool true => JBool false | _ => j end.

Section value.
Context (profiles : list json).
Notation acc := (accepts profiles).

Lemma literal_paused n i t j :
  acc n VAuto i t = true → tree_value t = Some j → tree_value (pause_tree VAuto t) = Some (pause_literal j).
Proof.
  destruct t as [s|l|l]; simpl; try done. intros Ha Hj. bprop.
  destruct (text_eqb s (lit "true")) eqn:E; [|destruct (text_eqb s (lit "false")) eqn:E2].
  - apply text_eqb_eq in E. subst. rewrite scalar_true in Hj. simplify_eq. apply scalar_false.
  - apply text_eqb_eq in E2. subst. rewrite scalar_false in *. by simplify_eq.
  - simpl in *. by destruct H.
Qed.

Lemma accepts_members_in f v keys l k x :
  accepts_members f v keys l = true → (k, x) ∈ l → f (view_of v k) x = true.
Proof.
  revert keys. induction l as [|[k' x'] l IH]; intros keys Ha Hin; [by apply not_elem_of_nil in Hin|].
  simpl in Ha. bprop. apply elem_of_cons in Hin as [E|Hin]; [by simplify_eq|by eapply IH].
Qed.

Lemma members_defined l ms : mapM member_of l = Some ms → Forall (λ p, is_undefined p.2 = false) ms.
Proof.
  intros E. apply mapM_Some in E. induction E as [|[k x] [s j] l ms Hx Hl IH]; constructor; [|done].
  apply member_of_Some in Hx as [_ Hj]. simpl. destruct x as [t|a|a]; simpl in Hj.
  - apply scalar_flat in Hj. by destruct j.
  - destruct (mapM tree_value a); by simplify_eq/=.
  - destruct (mapM _ a); by simplify_eq/=.
Qed.

Lemma pause_profile_object n i l j :
  acc n VProfile i (TObject l) = true → tree_value (TObject l) = Some j →
  tree_value (pause_tree VProfile (TObject l)) = Some (pause_profile j).
Proof.
  intros Ha (ms & Hms & ->)%tree_value_members. simpl in Ha. bprop.
  apply tree_value_members. exists (map (at_key auto_update pause_literal) ms). split.
  - cbn [pause_tree]. apply (members_paused VProfile auto_update VAuto); [done| |done].
    intros k x j Hin Hk Hj. eapply literal_paused; [|done].
    pose proof (accepts_members_in _ _ _ _ k x H0 Hin) as Hx. unfold view_of in Hx. rewrite Hk in Hx. exact Hx.
  - pose proof (members_defined l ms Hms) as Hd. pose proof (put_members_wf ms Hd) as Hw.
    assert (jwf (put_members (map (at_key auto_update pause_literal) ms))) as Hw'.
    { apply put_members_wf. rewrite Forall_map. eapply Forall_impl; [exact Hd|]. intros [k v]; unfold at_key; simpl.
      intros Hv. destruct (text_eqb k auto_update); [|done]. by destruct v as [| |[]| | | |]. }
    unfold pause_profile, updates_itself. cbn [to_object].
    destruct (jvalue auto_update (put_members ms)) as [| |[]| | | |] eqn:Ev; f_equal;
      (apply jobject_ext; [auto with amn..|]; intros k; rewrite put_members_at, ?jvalue_jput;
       destruct (text_eqb k auto_update) eqn:Ek; [apply text_eqb_eq in Ek; subst k|done]; rewrite Ev; cbn [andb];
       try (by destruct (bool_decide _))).
    rewrite bool_decide_eq_true_2; [done|]. rewrite <-put_members_keys.
    destruct (decide (auto_update ∈ jkeys (put_members ms))); [done|]. by rewrite jvalue_undefined in Ev.
Qed.

Lemma profiles_paused n i t j :
  acc n VProfiles i t = true → tree_value t = Some j →
  tree_value (pause_tree VProfiles t) = Some (JArray (map pause_profile (to_array j))).
Proof.
  destruct t as [s|l|l]; try done. intros Ha Hj. cbn [accepts] in Ha.
  change (JArray <$> mapM tree_value l = Some j) in Hj.
  change (JArray <$> mapM tree_value (map (pause_tree VProfile) l) = Some (JArray (map pause_profile (to_array j)))).
  destruct (mapM tree_value l) as [js|] eqn:Em; [|done]. injection Hj as <-. cbn [to_array].
  enough (mapM tree_value (map (pause_tree VProfile) l) = Some (map pause_profile js)) as -> by done.
  apply mapM_Some in Em. apply mapM_Some. revert i Ha.
  induction Em as [|t j l js Ht Hl IH]; intros i Ha; [constructor|]. cbn [map accepts_profiles] in *. bprop.
  constructor; [|by eapply IH]. destruct t as [|?|o]; try done. by eapply pause_profile_object.
Qed.

Lemma document_paused n i t doc :
  acc n VRoot i t = true → tree_value t = Some (JObject doc) → is_array (jvalue (lit "profiles") doc) = true →
  tree_value (pause_tree VRoot t) = Some (JObject (paused_document doc)).
Proof.
  intros Ha Hj Hp. destruct (tree_of_object t doc Hj) as [l ->].
  apply tree_value_members in Hj as (ms & Hms & [= ->]). simpl in Ha. bprop.
  set (f := λ j, JArray (map pause_profile (to_array j))).
  apply tree_value_members. exists (map (at_key (lit "profiles") f) ms). split.
  - cbn [pause_tree]. apply (members_paused VRoot (lit "profiles") VProfiles f); [done| |done].
    intros k x j Hin Hk Hj. eapply profiles_paused; [|done].
    pose proof (accepts_members_in _ _ _ _ k x H0 Hin) as Hx. unfold view_of in Hx. rewrite Hk in Hx. exact Hx.
  - pose proof (members_defined l ms Hms) as Hd. pose proof (put_members_wf ms Hd) as Hw. f_equal.
    unfold paused_document. apply jobject_ext; [by apply jput_wf| |].
    + apply put_members_wf. rewrite Forall_map. eapply Forall_impl; [exact Hd|]. intros [k v]; unfold at_key; simpl.
      intros Hv. by destruct (text_eqb k (lit "profiles")).
    + intros k. rewrite put_members_at, jvalue_jput. destruct (text_eqb k (lit "profiles")) eqn:Ek; [|done].
      apply text_eqb_eq in Ek. subst k. rewrite bool_decide_eq_true_2; [done|]. rewrite <-put_members_keys.
      destruct (decide (lit "profiles" ∈ jkeys (put_members ms))); [done|]. by rewrite jvalue_undefined in Hp.
Qed.
End value.

(** ** The ids it collects *)

Lemma put_members_in k v ms : NoDup (map fst ms) → (k, v) ∈ ms → jvalue k (put_members ms) = v.
Proof.
  induction ms as [|[k' v'] ms IH] using rev_ind; intros Hn Hin; [by apply not_elem_of_nil in Hin|].
  rewrite map_app in Hn. apply NoDup_app in Hn as (Hn & Hd & _). rewrite put_members_snoc, jvalue_jput.
  apply elem_of_app in Hin as [Hin|Hin].
  - rewrite (proj2 (text_eqb_neq k k')); [by apply IH|]. intros ->.
    apply (Hd k'); [|by constructor]. by apply (list_elem_of_fmap_2 fst _ (k', v)).
  - apply list_elem_of_singleton in Hin. simplify_eq. by rewrite text_eqb_refl.
Qed.

Lemma accepted_fresh f v keys l k x : accepts_members f v keys l = true → (k, x) ∈ l → key_name k ∉ keys.
Proof.
  revert keys. induction l as [|[k' x'] l IH]; intros keys Ha Hin; [by apply not_elem_of_nil in Hin|].
  simpl in Ha. bprop. apply elem_of_cons in Hin as [E|Hin]; [by simplify_eq|].
  specialize (IH _ H1 Hin). set_solver.
Qed.

Lemma accepted_keys f v keys l : accepts_members f v keys l = true → NoDup (map (λ kv, key_name kv.1) l).
Proof.
  revert keys. induction l as [|[k x] l IH]; intros keys Ha; [constructor|]. cbn [accepts_members] in Ha.
  apply andb_true_iff in Ha as [_ [_ Ha]%andb_true_iff]. cbn [map fst]. constructor; [|by eapply IH].
  intros ([k' x'] & Ek & Hin)%list_elem_of_fmap. simpl in Ek.
  pose proof (accepted_fresh _ _ _ _ k' x' Ha Hin). rewrite Ek in *. set_solver.
Qed.

Lemma accepted_names f v keys l ms :
  accepts_members f v keys l = true → mapM member_of l = Some ms → NoDup (map fst ms).
Proof.
  intros Ha Hm. apply mapM_Some in Hm. revert keys Ha.
  induction Hm as [|[k x] [s j] l ms Hx Hl IH]; intros keys Ha; [constructor|]. simpl in Ha. bprop.
  apply member_of_Some in Hx as [Hk Hj]. cbn [map fst]. constructor; [|by eapply IH].
  intros ([s' j'] & -> & Hin)%list_elem_of_fmap.
  destruct (Forall2_in_r _ _ _ (s', j') Hl Hin) as ([k' x'] & Hin' & [Hk' _]%member_of_Some).
  pose proof (accepted_fresh _ _ _ _ k' x' H1 Hin') as Hf. unfold key_name in Hf. rewrite Hk, Hk' in Hf. set_solver.
Qed.

Section ids.
Context (profiles : list json).
Notation acc := (accepts profiles).

Definition literal_on (kv : text * jtree) : bool :=
  let '(k, x) := kv in
  text_eqb (key_name k) auto_update && match x with TScalar s => text_eqb s (lit "true") | _ => false end.

Lemma visit_profile_members n i keys l ids :
  accepts_members (λ v, acc n v i) VProfile keys l = true →
  foldl (λ st '(k, x), visit profiles (view_of VProfile k) x st) (i, ids) l =
  (i, ids ++ if existsb literal_on l then [profile_id profiles i] else []).
Proof.
  revert keys ids. induction l as [|[k x] l IH]; intros keys ids Ha; cbn [foldl existsb literal_on].
  { by rewrite app_nil_r. }
  cbn [accepts_members] in Ha. apply andb_true_iff in Ha as [_ [H0 H1]%andb_true_iff].
  unfold view_of in H0. change (view_of VProfile k) with (if text_eqb (key_name k) auto_update then VAuto else VPlain).
  change (member_view VProfile (key_name k)) with (if text_eqb (key_name k) auto_update then VAuto else VPlain) in H0.
  destruct (text_eqb (key_name k) auto_update) eqn:Ek; cbn [andb orb]; [|by rewrite visit_plain, (IH _ ids H1)].
  assert (existsb literal_on l = false) as Hoff.
  { apply not_true_iff_false. intros ([k' x'] & Hin & Hl)%existsb_exists. apply list_elem_of_In in Hin.
    pose proof (accepted_fresh _ _ _ _ k' x' H1 Hin) as Hf. simpl in Hl.
    apply andb_true_iff in Hl as [Hl _]. apply text_eqb_eq in Ek, Hl. apply Hf. rewrite Ek, Hl. constructor. }
  destruct x as [s|y|y]; try done. cbn [visit fst snd].
  rewrite Hoff, orb_false_r. specialize (IH (key_name k :: keys)).
  destruct (text_eqb s (lit "true")); rewrite IH by done; by rewrite Hoff, app_nil_r.
Qed.

Lemma literal_updates n i l ms :
  accepts_members (λ v, acc n v i) VProfile [] l = true → mapM member_of l = Some ms →
  existsb literal_on l = updates_itself (JObject (put_members ms)).
Proof.
  intros Ha Hm. pose proof (accepted_names _ _ _ _ _ Ha Hm) as Hn. apply mapM_Some in Hm.
  apply eq_bool_prop_intro. rewrite !Is_true_true. unfold updates_itself. cbn [to_object]. split.
  - intros ([k x] & Hin & Hl)%existsb_exists. apply list_elem_of_In in Hin. simpl in Hl.
    apply andb_true_iff in Hl as [H H0]. destruct x as [s|y|y]; try done. apply text_eqb_eq in H, H0. subst s.
    destruct (Forall2_in_l _ _ _ _ Hm Hin) as ([s j] & Hin' & [Hk Hj]%member_of_Some).
    simpl in Hj. rewrite scalar_true in Hj. simplify_eq. unfold key_name in H. rewrite Hk in H. simpl in H. subst s.
    by rewrite (put_members_in _ _ _ Hn Hin').
  - destruct (jvalue auto_update (put_members ms)) as [| |[]| | | |] eqn:Ev; try done. intros _.
    assert (auto_update ∈ jkeys (put_members ms)) as Hi.
    { destruct (decide (auto_update ∈ jkeys (put_members ms))); [done|]. by rewrite jvalue_undefined in Ev. }
    apply (proj1 (put_members_keys ms _)) in Hi. apply list_elem_of_fmap in Hi as ([s j] & Es & Hin'). simpl in Es. subst s.
    rewrite (put_members_in _ _ _ Hn Hin') in Ev. subst j.
    destruct (Forall2_in_r _ _ _ _ Hm Hin') as ([k x] & Hin & [Hk Hj]%member_of_Some).
    apply existsb_exists. exists (k, x). split; [by apply list_elem_of_In|].
    pose proof (accepts_members_in _ _ _ _ k x Ha Hin) as Hx. unfold view_of in Hx. simpl.
    unfold key_name in *. rewrite Hk in *. simpl in *. destruct x as [s|y|y]; try done. simpl in *. bprop.
    destruct (text_eqb s (lit "true")); [done|]. destruct H as [H|H]; [done|]. apply text_eqb_eq in H. subst s.
    by rewrite scalar_false in Hj.
Qed.

Lemma visit_profile n i t j ids :
  acc n VProfile i t = true → is_tobject t = true → tree_value t = Some j →
  visit profiles VProfile t (i, ids) = (i, ids ++ if updates_itself j then [profile_id profiles i] else []).
Proof.
  destruct t as [|?|l]; try done. intros Ha _ (ms & Hms & ->)%tree_value_members. cbn [accepts] in Ha. bprop.
  cbn [visit]. rewrite (visit_profile_members (pred n) i []) by done. by rewrite (literal_updates (pred n) i l ms).
Qed.

Lemma visit_profiles n l js pre ids :
  profiles = pre ++ js → mapM tree_value l = Some js →
  accepts_profiles (acc n VProfile) (Z.of_nat (length pre) - 1) l = true →
  (foldl (λ st e, visit profiles VProfile e ((st.1 + 1)%Z, st.2)) ((Z.of_nat (length pre) - 1)%Z, ids) l).2 =
  ids ++ map (λ p, jvalue (lit "id") (to_object p)) (filter (λ p, updates_itself p = true) js).
Proof.
  intros Hp Hm. apply mapM_Some in Hm. revert pre ids Hp.
  induction Hm as [|t j l js Ht Hl IH]; intros pre ids Hp Ha; [by rewrite app_nil_r|].
  cbn [accepts_profiles] in Ha. apply andb_true_iff in Ha as [Ho [Ha Hr]%andb_true_iff]. cbn [foldl fst snd].
  rewrite (visit_profile n _ t j) by done.
  replace (Z.of_nat (length pre) - 1 + 1)%Z with (Z.of_nat (length (pre ++ [j])) - 1)%Z in *
    by (rewrite length_app; simpl; lia).
  rewrite IH by (done || by rewrite <-app_assoc). rewrite filter_cons, <-app_assoc. f_equal.
  assert (profile_id profiles (Z.of_nat (length (pre ++ [j])) - 1) = jvalue (lit "id") (to_object j)) as ->.
  { unfold profile_id. rewrite Hp, length_app. simpl.
    replace (Z.to_nat (Z.of_nat (length pre + 1) - 1)) with (length pre) by lia. by rewrite nth_middle. }
  case_decide as Hu; [by rewrite Hu|]. apply not_true_is_false in Hu. by rewrite Hu.
Qed.

Lemma visit_others l st :
  (∀ k x, (k, x) ∈ l → key_name k ≠ lit "profiles") →
  foldl (λ st '(k, x), visit profiles (view_of VRoot k) x st) st l = st.
Proof.
  revert st. induction l as [|[k x] l IH]; intros st Hl; [done|]. cbn [foldl]. unfold view_of at 2. cbn [member_view].
  rewrite (proj2 (text_eqb_neq _ _) (Hl k x ltac:(constructor))), visit_plain. apply IH.
  intros k' x' Hin. apply (Hl k' x'). by constructor.
Qed.

Lemma visit_members_root n keys l ms ids :
  profiles = to_array (jvalue (lit "profiles") (put_members ms)) →
  accepts_members (λ v, acc n v (-1)) VRoot keys l = true → mapM member_of l = Some ms →
  (foldl (λ st '(k, x), visit profiles (view_of VRoot k) x st) ((-1)%Z, ids) l).2 =
  ids ++ map (λ p, jvalue (lit "id") (to_object p)) (filter (λ p, updates_itself p = true) profiles).
Proof.
  intros Hp Ha Hm. pose proof (accepted_names _ _ _ _ _ Ha Hm) as Hn.
  destruct (decide (lit "profiles" ∈ map fst ms)) as [Hin|Hout].
  - apply list_elem_of_fmap in Hin as ([s j] & Es & Hin). simpl in Es. subst s.
    rewrite (put_members_in _ _ _ Hn Hin) in Hp. apply mapM_Some in Hm.
    destruct (Forall2_in_r _ _ _ _ Hm Hin) as ([k x] & Hin' & [Hk Hj]%member_of_Some).
    pose proof (accepts_members_in _ _ _ _ k x Ha Hin') as Hx. pose proof (accepted_keys _ _ _ _ Ha) as Hu.
    assert (key_name k = lit "profiles") as Ek by (unfold key_name; by rewrite Hk).
    apply list_elem_of_split in Hin' as (l1 & l2 & ->). rewrite map_app in Hu. cbn [map fst] in Hu.
    apply NoDup_app in Hu as (_ & Hd & Hu). apply NoDup_cons in Hu as [Hu _].
    rewrite foldl_app. cbn [foldl]. unfold view_of in Hx. rewrite Ek in Hx.
    change (member_view VRoot (lit "profiles")) with VProfiles in Hx.
    rewrite visit_others, visit_others.
    + unfold view_of. rewrite Ek. change (member_view VRoot (lit "profiles")) with VProfiles.
      destruct x as [|x|]; try done. cbn [visit]. change (JArray <$> mapM tree_value x = Some j) in Hj.
      destruct (mapM tree_value x) as [js|] eqn:Em; [|done]. injection Hj as <-. cbn [to_array] in Hp. subst js.
      exact (visit_profiles n x profiles [] ids eq_refl Em Hx).
    + intros k' x' H1 H2. apply (Hd (key_name k)); [|constructor]. rewrite Ek, <-H2.
      by apply (list_elem_of_fmap_2 (λ kv, key_name kv.1) _ (k', x')).
    + intros k' x' H1 H2. apply Hu. rewrite Ek, <-H2.
      by apply (list_elem_of_fmap_2 (λ kv, key_name kv.1) _ (k', x')).
  - rewrite visit_others.
    + rewrite Hp, jvalue_undefined by (by rewrite put_members_keys). by rewrite app_nil_r.
    + intros k x Hin Hk. apply mapM_Some in Hm.
      destruct (Forall2_in_l _ _ _ _ Hm Hin) as ([s j] & Hin' & [Hks Hj]%member_of_Some).
      unfold key_name in Hk. rewrite Hks in Hk. simpl in Hk. subst s. apply Hout.
      by apply (list_elem_of_fmap_2 fst _ (lit "profiles", j)).
Qed.
End ids.

Lemma visit_document n t doc :
  accepts (store_profiles doc) n VRoot (-1) t = true → tree_value t = Some (JObject doc) →
  (visit (store_profiles doc) VRoot t ((-1)%Z, [])).2 = paused_ids doc.
Proof.
  intros Ha Hj. destruct (tree_of_object t doc Hj) as [l ->].
  apply tree_value_members in Hj as (ms & Hms & [= ->]). cbn [accepts] in Ha.
  apply andb_true_iff in Ha as [_ Ha]. exact (visit_members_root _ (pred n) [] l ms [] eq_refl Ha Hms).
Qed.

(** ** The theorems *)

Lemma pause_spec raw res ids :
  pauseJson raw = Ok (res, ids) →
  ∃ doc, json_parse raw = Some (JObject doc) ∧ to_int 0 (jvalue (lit "version") doc) = 1%Z
    ∧ is_array (jvalue (lit "profiles") doc) = true
    ∧ json_parse res = Some (JObject (paused_document doc)) ∧ ids = paused_ids doc
    ∧ rewritten (lit "true") (lit "false") raw res.
Proof.
  intros E. pose proof (pauseJson_cases raw) as H. rewrite E in H.
  destruct H as (doc & t & ts & Hp & Hv & Hl & Hts & Htt & Hd & Ht & Ha & -> & ->).
  exists doc. split_and!; [done..| | |].
  - assert (Forall (λ s, s = lit "true") (marked (marks VRoot t) (map t_text ts))) as Hm
      by (rewrite Htt; apply marked_true).
    apply (json_parse_tree _ (pause_tree VRoot t)).
    + rewrite (retokenised (lit "false") raw ts); [by rewrite Htt, render_paused|done|done|].
      eapply Forall_impl; [exact Hm|]. by intros ? ->.
    + by rewrite pause_depth.
    + by eapply document_paused.
    + done.
  - by eapply visit_document.
  - eapply edits_rewrite; [done|]. rewrite Htt. apply marked_true.
Qed.

(** *** Pausing again *)

Lemma accepts_paused p p' n v i t : accepts p n v i t = true → accepts p' n v i (pause_tree v t) = true.
Proof.
  revert n v i. induction t as [s|l IH|l IH] using jtree_ind'; intros n v i Ha.
  - destruct v; try done. cbn [accepts pause_tree] in *. bprop.
    destruct (text_eqb s (lit "true")) eqn:E; [by rewrite H0|]. simpl in *. destruct H as [|H]; [done|].
    by rewrite E, H, H0.
  - destruct v; cbn [accepts pause_tree element_view] in *; try done.
    1, 3, 4: apply andb_true_iff in Ha as [-> Ha]; apply forallb_forall; intros x' Hx';
      apply list_elem_of_In, list_elem_of_fmap in Hx' as (x & -> & Hx);
      rewrite Forall_forall in IH; rewrite forallb_forall in Ha; apply IH; [done|];
      apply Ha; by apply list_elem_of_In.
    revert i Ha. induction IH as [|x l Hx Hl IHl]; intros i Ha; [done|]. cbn [map accepts_profiles] in *.
    apply andb_true_iff in Ha as [Ho [Ha Hr]%andb_true_iff]. rewrite (Hx _ _ _ Ha), (IHl _ Hr).
    destruct x; by rewrite ?andb_true_r.
  - assert (∀ n keys, accepts_members (λ v, accepts p n v i) v keys l = true →
      accepts_members (λ v, accepts p' n v i) v keys (map (λ '(k, x), (k, pause_tree (view_of v k) x)) l) = true) as Hm.
    { clear Ha. intros m. induction IH as [|[k x] l Hx Hl IHl]; intros keys Hm; [done|]. cbn [map accepts_members] in *.
      apply andb_true_iff in Hm as [-> [Hk Hm]%andb_true_iff]. simpl in Hx. by rewrite (Hx _ _ _ Hk), (IHl _ Hm). }
    destruct v; cbn [accepts pause_tree] in *; try done; apply andb_true_iff in Ha as [-> Ha]; by apply Hm.
Qed.

Lemma marks_paused v t : Forall (λ b, b = false) (marks v (pause_tree v t)).
Proof.
  revert v. induction t as [s|l IH|l IH] using jtree_ind'; intros v; cbn [pause_tree marks].
  - destruct v; try by repeat constructor. destruct (text_eqb s (lit "true")) eqn:E; repeat constructor; done.
  - constructor; [done|]. apply Forall_app. split; [|by repeat constructor]. apply commas_Forall; [done|].
    rewrite map_map, Forall_map. eapply Forall_impl; [exact IH|]. auto.
  - constructor; [done|]. apply Forall_app. split; [|by repeat constructor]. apply commas_Forall; [done|].
    rewrite map_map, Forall_map. eapply Forall_impl; [exact IH|]. intros [k x] Hx. simpl in *. by repeat constructor.
Qed.

Lemma updates_paused p : updates_itself (pause_profile p) = false.
Proof.
  destruct p as [| | | | | |o]; try done. unfold pause_profile. destruct (updates_itself (JObject o)) eqn:E; [|done].
  unfold updates_itself. cbn [to_object]. by rewrite jvalue_jput_eq.
Qed.

Lemma pause_stable raw res ids : pauseJson raw = Ok (res, ids) → pauseJson res = Ok (res, []).
Proof.
  intros E. destruct (pause_spec raw res ids E) as (doc & Hp & Hver & Harr & Hres & _ & _).
  pose proof (pauseJson_cases raw) as H. rewrite E in H.
  destruct H as (doc' & t & ts & Hp' & _ & _ & Hts & Htt & _ & Ht & Ha & Hr & _). simplify_eq.
  assert (token_texts (apply_edits (lit "false") (marked (marks VRoot t) ts) raw) = Some (render (pause_tree VRoot t))) as Hk.
  { rewrite (retokenised (lit "false") raw ts); [by rewrite Htt, render_paused|done|done|].
    rewrite Htt. eapply Forall_impl; [apply marked_true|]. by intros ? ->. }
  set (res := apply_edits _ _ _) in *. unfold token_texts in Hk.
  destruct (json_tokens res) as [ts'|] eqn:Ets; [|done]. assert (map t_text ts' = render (pause_tree VRoot t)) as Htt' by congruence.
  pose proof (document_paused (store_profiles doc) nesting (-1) t doc Ha Ht Harr) as Hv.
  pose proof (accepts_paused _ (store_profiles (paused_document doc)) _ _ _ _ Ha) as Ha'.
  pose proof (walk_tree (store_profiles (paused_document doc)) ts' (pause_tree VRoot t) nesting ltac:(by eexists) Htt') as R.
  rewrite Ha' in R. unfold pauseJson, object. rewrite Hres. cbn [rbind]. cbv zeta.
  fold (store_profiles (paused_document doc)). unfold throw_if at 1.
  replace (negb (to_int 0 (jvalue (lit "version") (paused_document doc)) =? 1)%Z
           || negb (is_array (jvalue (lit "profiles") (paused_document doc)))) with false.
  2: { unfold paused_document. rewrite jvalue_jput_ne, jvalue_jput_eq by done. by rewrite Hver. }
  rewrite Ets, R. unfold walked, finish, throw_if. cbn [wk_rest wk_edits wk_ids app].
  rewrite bool_decide_eq_false_2 by auto. rewrite (marked_false _ ts') by apply marks_paused.
  rewrite (visit_document nesting) by done. unfold apply_edits. cbn [foldr]. do 2 f_equal.
  unfold paused_ids, store_profiles, paused_document. rewrite jvalue_jput_eq. cbn [to_array].
  generalize (store_profiles doc). intros l. induction l as [|x l IH]; [done|]. cbn [map]. rewrite filter_cons.
  rewrite updates_paused. case_decide; [done|]. exact IH.
Qed.
End correct.

(** ** The profiles the daemon reads *)

(** The profile without its automatic update. *)
Definition switch_off (p : Profile) : Profile :=
  MkProfile (p_id p) (p_name p) (p_protocol p) (p_configPath p) (p_forwardRoutes p) (p_dnsServers p) (p_dnsDomains p)
    (p_interfaceName p) (p_routingMode p) (p_serverRulesUrl p) (p_updateManifestUrl p) (p_updatePublicKeyPath p)
    (p_autoConnect p) false.

Section loads.
Context {QT : QtText} {QN : QtNet} {QD : QtData} {QF : QtFiles}.

Lemma jcontains_jput k v o k' : k' ≠ k → jcontains k' (jput k v o) = jcontains k' o.
Proof.
  intros Hk. apply eq_bool_prop_intro. rewrite !Is_true_true, !jcontains_true, jput_keys. naive_solver.
Qed.

Lemma readString_other k v o key : key ≠ k → readString key (jput k v o) = readString key o.
Proof. intros H. unfold readString. by rewrite jcontains_jput, jvalue_jput_ne by done. Qed.

Lemma readBool_other k v o key : key ≠ k → readBool key (jput k v o) = readBool key o.
Proof. intros H. unfold readBool. by rewrite jcontains_jput, jvalue_jput_ne by done. Qed.

Lemma readStringList_other k v o key : key ≠ k → readStringList key (jput k v o) = readStringList key o.
Proof. intros H. unfold readStringList. by rewrite jvalue_jput_ne by done. Qed.

Lemma readBool_paused o b :
  readBool auto_update o = Some b →
  b = updates_itself (JObject o) ∧ readBool auto_update (jput auto_update (JBool false) o) = Some false.
Proof.
  unfold readBool, updates_itself. cbn [to_object]. intros E. split.
  - destruct (jcontains auto_update o && _); [done|]. by destruct (jvalue auto_update o) as [| |[]| | | |]; simplify_eq/=.
  - rewrite jvalue_jput_eq. by rewrite andb_false_r.
Qed.

Lemma or_error_Ok_iff {A} (o : option A) m a : or_error o m = Ok a ↔ o = Some a.
Proof. destruct o; naive_solver. Qed.

Lemma profileFromJson_paused o p :
  profileFromJson o = Ok p →
  p_autoUpdate p = updates_itself (JObject o)
  ∧ profileFromJson (jput auto_update (JBool false) o) = Ok (switch_off p).
Proof.
  unfold profileFromJson. rewrite !jvalue_jput_ne by done.
  destruct (jvalue (lit "id") o); try done. destruct (jvalue (lit "name") o); try done.
  destruct (jvalue (lit "protocol") o); try done. destruct (jvalue (lit "configPath") o); try done.
  cbv zeta. intros E. inv_ok E.
  repeat match goal with H : or_error _ _ = Ok _ |- _ => apply or_error_Ok_iff in H end. simplify_eq.
  match goal with H : readBool (lit "autoUpdate") o = Some _ |- _ => destruct (readBool_paused o _ H) as [Hb Hr] end.
  split; [exact Hb|]. rewrite !readStringList_other, !readString_other, (readBool_other _ _ _ (lit "autoConnect")) by done.
  change (lit "autoUpdate") with auto_update. rewrite Hr.
  repeat match goal with H : ?x = _ |- context [?x] => rewrite H; cbn [rbind or_error] end. done.
Qed.

Lemma checkProfile_off p : checkProfile p = Ok () → checkProfile (switch_off p) = Ok ().
Proof.
  unfold checkProfile. cbv zeta. intros E. unfold switch_off.
  cbn [p_id p_name p_configPath p_protocol p_interfaceName p_routingMode p_serverRulesUrl p_forwardRoutes p_dnsServers
       p_dnsDomains p_updateManifestUrl p_updatePublicKeyPath p_autoUpdate].
  repeat (match goal with |- rbind ?x _ = _ => destruct x; cbn [rbind] in *; [|done] end || case_match).
  done.
Qed.

Lemma switch_off_id p : p_autoUpdate p = false → switch_off p = p.
Proof. destruct p. simpl. by intros ->. Qed.

Lemma containsId_off id l : containsId id (map switch_off l) = containsId id l.
Proof. unfold containsId. induction l as [|p l IH]; [done|]. simpl. by rewrite IH. Qed.

Lemma validate_off l p u : validate l p = Ok u → validate (map switch_off l) (switch_off p) = Ok ().
Proof.
  unfold validate. intros ([] & Hc & Hi)%rbind_Ok. rewrite (checkProfile_off p Hc). cbn [rbind].
  rewrite containsId_off. by destruct u.
Qed.

Lemma read_entry_paused l j l' :
  read_entry l j = Ok l' → read_entry (map switch_off l) (pause_profile j) = Ok (map switch_off l').
Proof.
  destruct j as [| | | | | |o]; try done. unfold read_entry. intros (p & Hp & H)%rbind_Ok.
  apply rbind_Ok in H as (u & Hv & H). simplify_eq. destruct (profileFromJson_paused o p Hp) as [Hb Hr].
  rewrite map_app. cbn [map]. pose proof (validate_off l p u Hv) as Hv'.
  unfold pause_profile. destruct (updates_itself (JObject o)) eqn:E.
  - rewrite Hr. cbn [rbind]. by rewrite Hv'.
  - rewrite Hp. cbn [rbind]. rewrite (switch_off_id p) in * by congruence. by rewrite Hv'.
Qed.

Lemma read_entries_paused js l l' :
  rfold read_entry l js = Ok l' → rfold read_entry (map switch_off l) (map pause_profile js) = Ok (map switch_off l').
Proof.
  revert l. induction js as [|j js IH]; intros l E; simpl in *; [by simplify_eq|].
  apply rbind_Ok in E as (l1 & H1 & H2). rewrite (read_entry_paused l j l1 H1). cbn [rbind]. by apply IH.
Qed.

Context {QS : QtJsonScalar} {JL : JsonGrammarLaws QD QS}.

(** C14. What pausing a profile store produces: the edited text reads as the
    document with the automatic update of every profile that had one switched
    off and nothing else changed, the ids reported are those of exactly these
    profiles, every byte outside the replaced literals is kept, pausing the
    result again changes nothing, and a daemon that could load the store loads
    the same profiles without automatic updates. *)
Theorem pause_exact raw res ids :
  pauseJson raw = Ok (res, ids) →
  ∃ doc, json_parse raw = Some (JObject doc) ∧ json_parse res = Some (JObject (paused_document doc))
    ∧ ids = paused_ids doc ∧ rewritten (lit "true") (lit "false") raw res ∧ pauseJson res = Ok (res, [])
    ∧ ∀ ps, rfold read_entry [] (store_profiles doc) = Ok ps →
            rfold read_entry [] (store_profiles (paused_document doc)) = Ok (map switch_off ps).
Proof.
  intros E. destruct (pause_spec raw res ids E) as (doc & Hp & _ & _ & Hr & Hi & Hw). exists doc.
  split_and!; [done..|by eapply pause_stable|]. intros ps Hps. unfold paused_document, store_profiles at 1.
  rewrite jvalue_jput_eq. cbn [to_array]. exact (read_entries_paused _ [] ps Hps).
Qed.

(** C28. The walk reads [tokens[at]] without a bound in most places; no input
    makes it read past the tokens or loop: [pauseJson] returns or throws one of
    its own messages, whatever the text. *)
Theorem pause_in_bounds raw : ∀ e, pauseJson raw = Err e → ∃ m, e = Throw m.
Proof. intros e E. pose proof (pauseJson_cases raw) as H. by rewrite E in H. Qed.
End loads.
