(* ===== verification/JsonModel.v ===== *)
(** * A JSON reader and printer

    An executable instance of the grammar of JsonTokens: a recursive-descent
    reader over the tokens and a printer whose texts it reads back.  It shows
    that the laws can hold, and the witnesses of the rollback coordinator run
    on it.  Numbers are integers, strings are ASCII with [\u] escapes. *)

From S2P Require Import Prelude Text Json QtInterface QtModel JsonTokens PauseJson JsonText.
#[local] Open Scope Z_scope.

Lemma max_list_with_in {A} x (f : A → nat) l : x ∈ l → (f x ≤ max_list_with f l)%nat.
Proof. induction 1; simpl; lia. Qed.

(** ** Scalars *)

Definition hex_value (c : Z) : option Z :=
  if (48 <=? c) && (c <=? 57) then Some (c - 48) else if (97 <=? c) && (c <=? 102) then Some (c - 87) else None.

Definition plain_char (c : Z) : bool := (32 <=? c) && (c <? 127) && negb (c =? 34) && negb (c =? 92).

(** Behind the opening quote; the closing one is the last byte. *)
Fixpoint unquote (s : text) : option text :=
  match s with
  | [] => None
  | c :: s' =>
      if c =? 34 then match s' with [] => Some [] | _ => None end
      else if c =? 92 then
        match s' with
        | u :: a :: b :: x :: y :: s'' =>
            if u =? 117 then
              a ← hex_value a; b ← hex_value b; x ← hex_value x; y ← hex_value y; r ← unquote s'';
              Some (a * 4096 + b * 256 + x * 16 + y :: r)
            else None
        | _ => None
        end
      else if plain_char c then r ← unquote s'; Some (c :: r) else None
  end.

Definition model_scalar (t : text) : option json :=
  if match t with c :: _ => c =? 34 | [] => false end then JString <$> unquote (tail t)
  else if text_eqb t (lit "true") then Some (JBool true)
  else if text_eqb t (lit "false") then Some (JBool false)
  else if text_eqb t (lit "null") then Some JNull
  else (λ z, JDouble (DInt z)) <$> parse_signed t.

Lemma hex_value_plain a x : hex_value a = Some x → (a =? 92) = false ∧ (a =? 34) = false.
Proof. unfold hex_value. repeat case_match; intros; bprop; try done; split; apply Z.eqb_neq; lia. Qed.

Lemma unquote_scan s r v : unquote s = Some v → scan_string (s ++ r) = length s.
Proof.
  remember (length s) as n eqn:Hn. assert (length s ≤ n)%nat as Hle by lia. rewrite Hn. clear Hn.
  revert s v Hle. induction n as [|n IH]; intros [|c s] v Hle E; simpl in *; try done; [lia|].
  destruct (c =? 34) eqn:E34.
  { apply Z.eqb_eq in E34. subst c. by destruct s. }
  destruct (c =? 92) eqn:E92.
  - destruct s as [|u [|a [|b [|x [|y s]]]]]; try done. destruct (u =? 117); [|done].
    repeat match type of E with context [hex_value ?a] =>
      destruct (hex_value a) eqn:?; [|done]; simpl in E end.
    destruct (unquote s) as [w|] eqn:Eu; [|done]. cbn [app scan_string].
    repeat match goal with H : hex_value ?a = Some _ |- _ => apply hex_value_plain in H as [-> ->] end.
    rewrite (IH s w) by (done || (simpl in *; lia)). simpl. lia.
  - destruct (plain_char c); [|done]. destruct (unquote s) as [w|] eqn:Eu; [|done]. by rewrite (IH s w) by (done || lia).
Qed.

(** ** Reading *)

Section items.
Context {A : Type} (item : list text → option (A * list text)) (close : text).

(** Items separated by commas, up to the closing token. *)
Fixpoint read_items (n : nat) (ts : list text) : option (list A * list text) :=
  match n with
  | O => None
  | S n' =>
      match item ts with
      | Some (x, t :: r) =>
          if text_eqb t (lit ",") then '(l, r') ← read_items n' r; Some (x :: l, r')
          else if text_eqb t close then Some ([x], r) else None
      | _ => None
      end
  end.

Definition read_list (ts : list text) : option (list A * list text) :=
  match ts with
  | t :: r => if text_eqb t close then Some ([], r) else read_items (length ts) ts
  | [] => None
  end.
End items.

Definition read_member (read : list text → option (jtree * list text)) (ts : list text) : option ((text * jtree) * list text) :=
  match ts with
  | k :: c :: r => if text_eqb c (lit ":") then '(x, r') ← read r; Some ((k, x), r') else None
  | _ => None
  end.

Fixpoint read_tree (fuel : nat) (ts : list text) : option (jtree * list text) :=
  match fuel with
  | O => None
  | S f =>
      match ts with
      | [] => None
      | t :: r =>
          if text_eqb t (lit "{") then '(l, r') ← read_list (read_member (read_tree f)) (lit "}") r; Some (TObject l, r')
          else if text_eqb t (lit "[") then '(l, r') ← read_list (read_tree f) (lit "]") r; Some (TArray l, r')
          else Some (TScalar t, r)
      end
  end.

#[local] Instance modelScalar : QtJsonScalar := {| json_scalar := model_scalar |}.

Definition without_mark (s : text) : text := if starts_with byte_order_mark s then drop 3 s else s.

Definition read_document (s : text) : option json :=
  ts ← token_texts s;
  match read_tree (S (length ts)) ts with
  | Some (t, []) =>
      if bool_decide (tree_depth t ≤ 1024)%nat then
        v ← tree_value t; if is_array v || is_object v then Some v else None
      else None
  | _ => None
  end.

Definition model_parse (s : text) : option json := read_document (without_mark s).

(** *** The reader finds the tree *)

Section complete.
Context {A : Type} (item : list text → option (A * list text)) (close : text) (rend : A → list text).
Context (Hclose : close ≠ lit ",").

Lemma read_items_complete l r n :
  l ≠ [] → (length l ≤ n)%nat → (∀ x r', x ∈ l → item (rend x ++ r') = Some (x, r')) →
  read_items item close n (commas (lit ",") (map rend l) ++ close :: r) = Some (l, r).
Proof.
  revert n. induction l as [|x l IH]; intros n Hl Hn Hi; [done|]. destruct n as [|n]; [simpl in Hn; lia|].
  cbn [map]. rewrite commas_cons, <-app_assoc. cbn [read_items]. rewrite Hi by constructor.
  destruct l as [|y l].
  - cbn [map app]. by rewrite (proj2 (text_eqb_neq _ _) Hclose), text_eqb_refl.
  - cbn [map]. change (map rend (y :: l)) with (rend y :: map rend l) in IH. cbn [app].
    change (text_eqb (lit ",") (lit ",")) with true. cbn iota.
    rewrite IH; [done|done|simpl in *; lia|]. intros z r' Hz. apply Hi. by constructor.
Qed.

Lemma read_list_complete l r :
  (∀ x r', x ∈ l → item (rend x ++ r') = Some (x, r')) →
  (∀ x, x ∈ l → ∃ t ts, rend x = t :: ts ∧ t ≠ close) →
  read_list item close (commas (lit ",") (map rend l) ++ close :: r) = Some (l, r).
Proof.
  intros Hi Hh. destruct l as [|x l]; [simpl; by rewrite text_eqb_refl|].
  destruct (Hh x ltac:(constructor)) as (t & ts & Hx & Ht).
  pose proof (commas_length (lit ",") (map rend (x :: l))) as Hlen.
  unfold read_list. destruct (commas (lit ",") (map rend (x :: l)) ++ close :: r) as [|t' ts'] eqn:E.
  { by apply app_nil in E as [_ E]. }
  assert (t' = t) as -> by (cbn [map] in E; rewrite commas_cons, Hx in E; simpl in E; congruence).
  rewrite (proj2 (text_eqb_neq _ _) Ht), <-E. apply read_items_complete; [done| |done].
  rewrite length_app, length_fmap in *. specialize (Hlen ltac:(rewrite Forall_map; apply Forall_forall; intros y Hy;
    destruct (Hh y Hy) as (? & ? & -> & _); done)). lia.
Qed.
End complete.

Section sound.
Context {A : Type} (item : list text → option (A * list text)) (close : text) (rend : A → list text).
Context (Hitem : ∀ ts x r, item ts = Some (x, r) → ts = rend x ++ r).

Lemma read_items_sound n ts l r : read_items item close n ts = Some (l, r) → ts = commas (lit ",") (map rend l) ++ close :: r ∧ l ≠ [].
Proof.
  revert ts l r. induction n as [|n IH]; intros ts l r E; [done|]. cbn [read_items] in E.
  destruct (item ts) as [[x [|t r1]]|] eqn:Ei; try done. apply Hitem in Ei. subst ts.
  destruct (text_eqb t (lit ",")) eqn:Et.
  - destruct (read_items item close n r1) as [[l1 r2]|] eqn:Er; simplify_eq/=. apply IH in Er as [-> Hl].
    apply text_eqb_eq in Et. subst t. split; [|done].
    destruct l1 as [|y l1]; [done|]. cbn [map]. by rewrite <-app_assoc.
  - destruct (text_eqb t close) eqn:Ec; simplify_eq. apply text_eqb_eq in Ec. by subst.
Qed.

Lemma read_list_sound ts l r : read_list item close ts = Some (l, r) → ts = commas (lit ",") (map rend l) ++ close :: r.
Proof.
  destruct ts as [|t ts]; [done|]. unfold read_list. destruct (text_eqb t close) eqn:E.
  - intros. simplify_eq. apply text_eqb_eq in E. by subst.
  - intros H. by apply read_items_sound in H as [H _].
Qed.
End sound.

Lemma read_tree_sound f ts t r : read_tree f ts = Some (t, r) → ts = render t ++ r.
Proof.
  revert ts t r. induction f as [|f IH]; intros [|t0 ts] t r E; try done. cbn [read_tree] in E.
  destruct (text_eqb t0 (lit "{")) eqn:E1; [|destruct (text_eqb t0 (lit "[")) eqn:E2].
  - apply text_eqb_eq in E1. subst t0. destruct (read_list _ _ ts) as [[l r1]|] eqn:El; simplify_eq/=. f_equal.
    rewrite <-app_assoc. apply (read_list_sound _ _ member_tokens) in El; [exact El|].
    intros ts' [k x] r' Hm. destruct ts' as [|k' [|c ts']]; try done. cbn [read_member] in Hm.
    destruct (text_eqb c (lit ":")) eqn:Ec; [|done]. apply text_eqb_eq in Ec. subst c.
    destruct (read_tree f ts') as [[x' r2]|] eqn:Ex; simplify_eq/=. do 2 f_equal. by apply IH.
  - apply text_eqb_eq in E2. subst t0. destruct (read_list _ _ ts) as [[l r1]|] eqn:El; simplify_eq/=. f_equal.
    rewrite <-app_assoc. apply (read_list_sound _ _ render) in El; [exact El|]. intros ts' x r' Hm. by apply IH.
  - by simplify_eq.
Qed.

Lemma model_scalar_mark c : is_json_mark c = true → model_scalar [c] = None.
Proof.
  unfold is_json_mark. intros H%contains_char_true. simpl in H.
  repeat (apply elem_of_cons in H as [->|H]; [reflexivity|]). by apply not_elem_of_nil in H.
Qed.

Lemma scalar_not_mark s c : is_Some (model_scalar s) → is_json_mark c = true → s ≠ [c].
Proof. intros [v Hv] Hc ->. by rewrite model_scalar_mark in Hv. Qed.

Lemma read_tree_complete t f r :
  is_Some (tree_value t) → (tree_depth t < f)%nat → read_tree f (render t ++ r) = Some (t, r).
Proof.
  revert f r. induction t as [s|l IH|l IH] using jtree_ind'; intros f r Hv Hf; (destruct f as [|f]; [lia|]).
  - cbn [render app read_tree]. simpl in Hv.
    by rewrite !(proj2 (text_eqb_neq _ _)) by (by apply scalar_not_mark).
  - destruct Hv as [j Hj]. pose proof (tree_value_array l j Hj) as Hl. cbn [render app read_tree].
    change (text_eqb (lit "[") (lit "{")) with false. change (text_eqb (lit "[") (lit "[")) with true. cbn iota.
    rewrite <-app_assoc. cbn [app]. rewrite (read_list_complete (read_tree f) (lit "]") render); [done|done|..].
    + intros x r' Hx. rewrite Forall_forall in IH, Hl. apply IH; [done|by apply Hl|].
      simpl in Hf. pose proof (max_list_with_in x tree_depth l Hx). lia.
    + intros x Hx. rewrite Forall_forall in Hl. destruct (Hl x Hx) as [v Hxv]. destruct x as [s|?|?]; simpl; [|by eexists _, _..].
      eexists _, _. split; [done|]. by apply scalar_not_mark; [eexists|].
  - destruct Hv as [j Hj]. destruct (tree_value_object l j Hj) as [Hk Hl].
    change (render (TObject l)) with (lit "{" :: commas (lit ",") (map member_tokens l) ++ [lit "}"]).
    cbn [app read_tree]. change (text_eqb (lit "{") (lit "{")) with true. cbn iota.
    rewrite <-app_assoc. cbn [app]. rewrite (read_list_complete _ (lit "}") member_tokens); [done|done|..].
    + intros [k x] r' Hx. rewrite Forall_forall in IH, Hl. cbn [member_tokens app read_member].
      change (text_eqb (lit ":") (lit ":")) with true. cbn iota.
      pose proof (max_list_with_in (k, x) (λ '(_, v), tree_depth v) l Hx) as Hd. simpl in Hf, Hd.
      pose proof (IH (k, x) Hx f r' (Hl (k, x) Hx)) as Hr. simpl in Hr. rewrite Hr by lia. done.
    + intros [k x] Hx. eexists _, _. split; [done|]. rewrite Forall_forall in Hk. destruct (Hk _ Hx) as [key Hkey].
      unfold key_text in Hkey. simpl in Hkey. apply scalar_not_mark; [|done]. by destruct (model_scalar k).
Qed.

(** ** Printing *)

Definition hex_char (d : Z) : Z := if d <? 10 then 48 + d else 87 + d.

Definition quote_char (c : Z) : text :=
  if plain_char c then [c]
  else [92; 117; hex_char (c / 4096); hex_char (c / 256 mod 16); hex_char (c / 16 mod 16); hex_char (c mod 16)].

Definition quote (s : text) : text := 34 :: concat (map quote_char s) ++ [34].

Fixpoint tree_of (j : json) : jtree :=
  match j with
  | JUndefined | JNull => TScalar (lit "null")
  | JBool b => TScalar (if b then lit "true" else lit "false")
  | JDouble d => TScalar (number (d_trunc d))
  | JString s => TScalar (quote s)
  | JArray l => TArray (map tree_of l)
  | JObject o => TObject (map (λ '(k, v), (quote k, tree_of v)) o)
  end.

Definition model_print (j : json) : text := concat (render (tree_of j)).

#[local] Instance modelData : QtData := {|
  sha256 := toy_sha256;
  json_compact := λ o, if json_printable o then model_print (JObject o) else [];
  json_parse := model_parse;
  utf8 := λ s, s;
|}.

Lemma hex_char_value d : 0 <= d < 16 → hex_value (hex_char d) = Some d.
Proof.
  intros Hd. unfold hex_char, hex_value. destruct (d <? 10) eqn:E; bprop.
  - rewrite (proj2 (Z.leb_le _ _)), (proj2 (Z.leb_le (48 + d) 57)) by lia. simpl. f_equal. lia.
  - rewrite (proj2 (Z.leb_le 48 _)), (proj2 (Z.leb_gt (87 + d) 57)) by lia. simpl.
    rewrite (proj2 (Z.leb_le 97 _)), (proj2 (Z.leb_le (87 + d) 102)) by lia. simpl. f_equal. lia.
Qed.

Lemma unquote_quote s : Forall (λ c, 0 <= c < 65536) s → unquote (concat (map quote_char s) ++ [34]) = Some s.
Proof.
  induction 1 as [|c s Hc Hs IH]; [done|]. cbn [map concat]. rewrite <-app_assoc. unfold quote_char at 1.
  destruct (plain_char c) eqn:Ep.
  - cbn [app unquote]. rewrite Ep, IH. unfold plain_char in Ep. bprop.
    by rewrite (proj2 (Z.eqb_neq c 34)), (proj2 (Z.eqb_neq c 92)) by done.
  - cbn [app unquote]. change (92 =? 34) with false. change (92 =? 92) with true. change (117 =? 117) with true. cbn iota.
    rewrite !hex_char_value, IH by (first [apply Z.mod_pos_bound; lia|split; [apply Z.div_pos; lia|apply Z.div_lt_upper_bound; lia]]).
    simpl. do 2 f_equal. dlia.
Qed.

Lemma utf16_units s : utf16_valid s = true → Forall (λ c, 0 <= c < 65536) s.
Proof.
  remember (length s) as n eqn:Hn. assert (length s ≤ n)%nat as Hle by lia. clear Hn. revert s Hle.
  induction n as [|n IH]; intros [|c s] Hle; simpl in *; [by intros _; constructor|lia|by intros _; constructor|].
  destruct ((0xD800 <=? c) && (c <=? 0xDBFF)) eqn:E.
  - destruct s as [|d s]; [done|]. intros H. bprop. simpl in Hle. repeat constructor; try lia. apply IH; [lia|done].
  - intros H. apply andb_true_iff in H as [H Hs]. apply andb_true_iff in H as [H _]. bprop.
    constructor; [lia|]. apply IH; [lia|done].
Qed.

Lemma quote_scalar s : utf16_valid s = true → model_scalar (quote s) = Some (JString s).
Proof. intros H%utf16_units. unfold model_scalar, quote. cbn [tail]. simpl. by rewrite unquote_quote. Qed.

Lemma number_scalar z : model_scalar (number z) = Some (JDouble (DInt z)).
Proof.
  unfold model_scalar. rewrite parse_signed_number.
  assert (∀ c, c ∈ number z → c = 45 ∨ 48 <= c <= 57) as Hc.
  { intros c. unfold number. destruct (z <? 0) eqn:E.
    - intros [->|H]%elem_of_cons; [by left|]. right. bprop. apply (number_chars (- z)); [lia|].
      unfold number. by rewrite (proj2 (Z.ltb_ge (- z) 0)) by lia.
    - bprop. intros H. right. apply (number_chars z); [lia|]. unfold number. by rewrite (proj2 (Z.ltb_ge z 0)) by lia. }
  assert (∀ l : text, (∃ c, c ∈ l ∧ c ≠ 45 ∧ ¬ 48 <= c <= 57) → number z ≠ l) as Hn.
  { intros l (c & Hl & H1 & H2) <-. destruct (Hc c Hl); lia. }
  rewrite !(proj2 (text_eqb_neq _ _)) by (apply Hn; eexists; split; [left|]; simpl; lia).
  destruct (number z) as [|c s]; [done|]. destruct (c =? 34) eqn:E; [|done]. bprop. subst.
  destruct (Hc 34 ltac:(constructor)); lia.
Qed.

Lemma jput_greatest k v o : Forall (λ k', text_ltb k' k = true) (jkeys o) → jput k v o = o ++ [(k, v)].
Proof.
  induction o as [|[k' v'] o IH]; intros H; [done|]. cbn [jkeys map fst] in H. inversion H as [|? ? Hk Ho]; subst.
  simpl. destruct (text_ltb k k') eqn:E1.
  { pose proof (text_ltb_trans _ _ _ E1 Hk) as F. by rewrite text_ltb_irrefl in F. }
  destruct (text_eqb k k') eqn:E2.
  { apply text_eqb_eq in E2. subst. by rewrite text_ltb_irrefl in Hk. }
  f_equal. by apply IH.
Qed.

Lemma keys_sorted_strong l : keys_sorted l = true → StronglySorted text_lt l.
Proof.
  induction l as [|k l IH]; intros H; [constructor|]. destruct l as [|k' l]; [repeat constructor|].
  cbn [keys_sorted] in H. bprop. specialize (IH H0). constructor; [done|]. inversion IH; subst.
  constructor; [done|]. eapply Forall_impl; [done|]. intros z Hz. by eapply text_ltb_trans.
Qed.

Lemma put_members_sorted o : StronglySorted text_lt (jkeys o) → put_members o = o.
Proof.
  induction o as [|[k v] o IH] using rev_ind; intros Hs; [done|].
  unfold put_members. rewrite foldl_app. change (foldl _ [] o) with (put_members o). cbn [foldl].
  unfold jkeys in *. rewrite map_app in Hs. simpl in Hs.
  assert (StronglySorted text_lt (map fst o) ∧ Forall (λ k', text_ltb k' k = true) (map fst o)) as [H1 H2].
  { clear IH. induction o as [|[k' v'] o IHo]; simpl in *; [by repeat constructor|].
    apply StronglySorted_inv in Hs as [Hs Hf]. apply Forall_app in Hf as [Hf Hk]. inversion Hk; subst.
    destruct (IHo Hs). split; constructor; done. }
  rewrite IH by done. by apply jput_greatest.
Qed.

Lemma tree_of_value j : json_plain j = true → tree_value (tree_of j) = Some j.
Proof.
  remember (json_size j) as n eqn:Hn. assert (json_size j ≤ n)%nat as Hle by lia. clear Hn. revert j Hle.
  induction n as [|n IH]; intros j Hle Hp; [destruct j; simpl in Hle; lia|].
  destruct j as [| |[]|[]|s|l|o]; try done.
  - exact (number_scalar z).
  - by apply quote_scalar.
  - cbn [json_plain] in Hp. change (JArray <$> mapM tree_value (map tree_of l) = Some (JArray l)).
    enough (mapM tree_value (map tree_of l) = Some l) as -> by done. apply mapM_Some.
    simpl in Hle. rewrite forallb_forall in Hp.
    assert (∀ x, x ∈ l → tree_value (tree_of x) = Some x) as Hx.
    { intros x Hx. apply IH; [|apply Hp; by apply list_elem_of_In].
      pose proof (sum_list_with_in x json_size l Hx). lia. }
    clear -Hx. induction l as [|x l IH]; constructor; [apply Hx; constructor|]. apply IH. intros; apply Hx; by constructor.
  - cbn [json_plain] in Hp. apply andb_true_iff in Hp as [Hs Hp]. apply keys_sorted_strong in Hs. simpl in Hle.
    rewrite forallb_forall in Hp.
    change ((λ m, JObject (put_members m)) <$> mapM (λ '(k, v), s ← key_text k; j ← tree_value v; Some (s, j))
              (map (λ '(k, v), (quote k, tree_of v)) o) = Some (JObject o)).
    enough (mapM (λ '(k, v), s ← key_text k; j ← tree_value v; Some (s, j)) (map (λ '(k, v), (quote k, tree_of v)) o) = Some o)
      as -> by (simpl; by rewrite put_members_sorted).
    apply mapM_Some.
    assert (∀ k x, (k, x) ∈ o → key_text (quote k) = Some k ∧ tree_value (tree_of x) = Some x) as Hx.
    { intros k x Hx. specialize (Hp (k, x) ltac:(by apply list_elem_of_In)). simpl in Hp. bprop. split.
      - unfold key_text. change (json_scalar (quote k)) with (model_scalar (quote k)). by rewrite quote_scalar.
      - apply IH; [|done]. pose proof (sum_list_with_in (k, x) (λ '(_, v), json_size v) o Hx). simpl in *. lia. }
    clear -Hx. induction o as [|[k x] o IH]; constructor; [|apply IH; intros; apply Hx; by constructor].
    destruct (Hx k x ltac:(constructor)) as [-> ->]. done.
Qed.

Lemma tree_of_depth j : tree_depth (tree_of j) = json_depth j.
Proof.
  remember (json_size j) as n eqn:Hn. assert (json_size j ≤ n)%nat as Hle by lia. clear Hn. revert j Hle.
  induction n as [|n IH]; intros j Hle; [destruct j; simpl in Hle; lia|].
  destruct j as [| |[]|[]|s|l|o]; try done; simpl; f_equal; simpl in Hle.
  - induction l as [|x l IHl]; [done|]. simpl in *. rewrite IH, IHl by lia. done.
  - induction o as [|[k x] l IHl]; [done|]. simpl in *. rewrite IH, IHl by lia. done.
Qed.

(** *** Printed texts have the tokens of the tree *)

Fixpoint standing (l : list text) (r : text) : Prop :=
  match l with
  | [] => True
  | t :: l' => stands t (concat l' ++ r) ∧ standing l' r
  end.

Lemma standing_app a b r : standing a (concat b ++ r) → standing b r → standing (a ++ b) r.
Proof.
  induction a as [|t a IH]; intros Ha Hb; [done|]. destruct Ha as [Ht Ha]. split; [|by apply IH].
  by rewrite concat_app, <-app_assoc.
Qed.

Lemma standing_texts l : standing l [] → token_texts (concat l) = Some l.
Proof.
  intros Hl. assert (concat l = spread (map (λ t, ([], t)) l) []) as ->.
  { unfold spread. rewrite app_nil_r, map_map. simpl. by rewrite map_id. }
  assert (laid (map (λ t, ([], t)) l) []) as Hd.
  { induction l as [|t l IH]; [constructor|]. destruct Hl as [Ht Hl]. simpl. split_and!; [constructor| |by apply IH].
    unfold spread. rewrite app_nil_r, map_map. simpl. rewrite map_id. by rewrite app_nil_r in Ht. }
  unfold token_texts. rewrite json_tokens_layout by done. rewrite place_texts, map_map. simpl. by rewrite map_id.
Qed.

Lemma mark_stands c r : is_json_mark c = true → is_json_space c = false → (c =? 34) = false → stands [c] r.
Proof. intros H1 H2 H3. split; [done|]. simpl. by rewrite H3, H1. Qed.

Lemma string_stands t s r : model_scalar t = Some (JString s) → stands t r.
Proof.
  unfold model_scalar. intros E. destruct t as [|c t]; [done|]. destruct (c =? 34) eqn:Ec.
  - bprop. subst c. cbn [tail] in E. destruct (unquote t) as [u|] eqn:Eu; simplify_eq/=. split; [done|].
    cbn [app token_length]. simpl. by rewrite (unquote_scan t r s).
  - repeat (case_match; [done|]). by destruct (parse_signed (c :: t)).
Qed.

Lemma digit_char_word c : c = 45 ∨ 48 <= c <= 57 → (c =? 34) = false ∧ ends_word c = false.
Proof.
  intros Hc. split; [apply Z.eqb_neq; lia|]. unfold ends_word, is_json_space, is_json_mark.
  apply orb_false_iff. split.
  - repeat (apply orb_false_iff; split); apply Z.eqb_neq; lia.
  - apply contains_char_false. intros H. change (lit "{}[]:,") with [123; 125; 91; 93; 58; 44] in H.
    repeat (apply elem_of_cons in H as [->|H]; [lia|]). by apply not_elem_of_nil in H.
Qed.

Lemma number_word z : plain_word (number z) = true.
Proof.
  assert (∀ c, c ∈ number z → c = 45 ∨ 48 <= c <= 57) as Hc.
  { intros c. unfold number. destruct (z <? 0) eqn:E.
    - intros [->|H]%elem_of_cons; [by left|]. right. bprop. apply (number_chars (- z)); [lia|].
      unfold number. by rewrite (proj2 (Z.ltb_ge (- z) 0)) by lia.
    - bprop. intros H. right. apply (number_chars z); [lia|]. unfold number. by rewrite (proj2 (Z.ltb_ge z 0)) by lia. }
  unfold plain_word. destruct (number z) as [|c s] eqn:E.
  - pose proof (parse_signed_number z) as F. by rewrite E in F.
  - apply andb_true_iff. split.
    + by rewrite (proj1 (digit_char_word c (Hc c ltac:(constructor)))).
    + apply forallb_forall. intros d Hd. apply list_elem_of_In in Hd. by rewrite (proj2 (digit_char_word d (Hc d Hd))).
Qed.

Lemma printed_scalar s r : stops r = true → plain_word s = true ∨ (∃ v, model_scalar s = Some (JString v)) → standing [s] r.
Proof.
  intros Hr Hs. split; [|done]. simpl. destruct Hs as [Hs|[v Hv]]; [by apply stands_word|by eapply string_stands].
Qed.

Lemma standing_commas {A} (f : A → list text) l c r :
  is_json_mark c = true → is_json_space c = false → (c =? 34) = false →
  (∀ x r, x ∈ l → stops r = true → standing (f x) r) → stops ([c] ++ r) = true →
  standing (commas (lit ",") (map f l) ++ [[c]]) r.
Proof.
  intros H1 H2 H3 Hf Hr. induction l as [|x l IH].
  { simpl. split; [by apply mark_stands|done]. }
  cbn [map]. rewrite commas_cons, <-app_assoc. apply standing_app.
  - apply Hf; [constructor|]. destruct l; [done|]. done.
  - destruct l as [|y l]; [split; [by apply mark_stands|done]|]. cbn [map] in *. split; [by apply mark_stands|].
    apply IH. intros z r' Hz. apply Hf. by constructor.
Qed.

Lemma printed_standing j r : json_plain j = true → stops r = true → standing (render (tree_of j)) r.
Proof.
  remember (json_size j) as n eqn:Hn. assert (json_size j ≤ n)%nat as Hle by lia. clear Hn. revert j r Hle.
  induction n as [|n IH]; intros j r Hle Hp Hr; [destruct j; simpl in Hle; lia|].
  destruct j as [| |[]|[]|s|l|o]; try done; try (by apply printed_scalar; [done|by left]).
  - apply printed_scalar; [done|]. left. apply number_word.
  - apply printed_scalar; [done|]. right. exists s. by apply quote_scalar.
  - cbn [json_plain] in Hp. rewrite forallb_forall in Hp. simpl in Hle. cbn [tree_of render].
    split; [by apply mark_stands|]. rewrite map_map.
    apply standing_commas; [done..| |done]. intros x r' Hx Hr'. apply IH; [|apply Hp; by apply list_elem_of_In|done].
    pose proof (sum_list_with_in x json_size l Hx). lia.
  - cbn [json_plain] in Hp. apply andb_true_iff in Hp as [_ Hp]. rewrite forallb_forall in Hp. simpl in Hle.
    cbn [tree_of render]. split; [by apply mark_stands|]. rewrite map_map.
    apply standing_commas; [done..| |done]. intros [k x] r' Hx Hr'.
    specialize (Hp (k, x) ltac:(by apply list_elem_of_In)). simpl in Hp. bprop.
    split; [eapply string_stands; by apply quote_scalar|]. split; [by apply mark_stands|].
    apply IH; [|done|done]. pose proof (sum_list_with_in (k, x) (λ '(_, v), json_size v) o Hx). simpl in *. lia.
Qed.

(** ** The laws *)

Lemma commas_max {A B} (sep : B) (f : A → list B) (g : A → nat) l :
  (∀ x, x ∈ l → g x ≤ length (f x))%nat → (max_list_with g l ≤ length (commas sep (map f l)))%nat.
Proof.
  induction l as [|x l IH]; intros H; [done|]. cbn [map max_list_with]. rewrite commas_cons, length_app.
  specialize (IH ltac:(intros; apply H; by constructor)). specialize (H x ltac:(constructor)).
  destruct l; cbn [map length] in *; simpl in *; lia.
Qed.

Lemma depth_rendered t : (tree_depth t ≤ length (render t))%nat.
Proof.
  induction t as [s|l IH|l IH] using jtree_ind'; cbn [tree_depth render]; [lia|..]; rewrite Forall_forall in IH;
    simpl; rewrite length_app; simpl.
  - pose proof (commas_max (lit ",") render tree_depth l IH). lia.
  - pose proof (commas_max (lit ",") (λ '(k, v), k :: lit ":" :: render v) (λ '(_, v), tree_depth v) l) as Hm.
    specialize (Hm ltac:(intros [k x] Hx; specialize (IH _ Hx); simpl in *; lia)). lia.
Qed.

Lemma without_mark_printed o : without_mark (model_print (JObject o)) = model_print (JObject o).
Proof. done. Qed.

Lemma read_document_tree s t v :
  token_texts s = Some (render t) → (tree_depth t ≤ 1024)%nat → tree_value t = Some v →
  is_array v || is_object v = true → read_document s = Some v.
Proof.
  intros Hs Hd Hv Ho. unfold read_document. rewrite Hs. cbn [mbind option_bind].
  pose proof (read_tree_complete t (S (length (render t))) [] ltac:(by eexists)) as R.
  rewrite app_nil_r in R. rewrite R.
  - rewrite bool_decide_eq_true_2 by done. rewrite Hv. simpl. by rewrite Ho.
  - pose proof (depth_rendered t). lia.
Qed.

Lemma read_document_only s v :
  read_document s = Some v →
  ∃ t, token_texts s = Some (render t) ∧ (tree_depth t ≤ 1024)%nat ∧ tree_value t = Some v ∧ is_array v || is_object v = true.
Proof.
  unfold read_document. destruct (token_texts s) as [ts|]; [|done]. cbn [mbind option_bind].
  destruct (read_tree _ ts) as [[t [|]]|] eqn:E; try done. apply read_tree_sound in E. rewrite app_nil_r in E. subst ts.
  case_bool_decide; [|done]. destruct (tree_value t) as [j|] eqn:Et; [|done]. simpl.
  destruct (is_array j || is_object j) eqn:Eo; [|done]. intros [= <-]. by exists t.
Qed.

(** A text of which the first token is a container is not a marked one. *)
Lemma without_mark_tokens s t ts : token_texts s = Some (t :: ts) → t = lit "{" ∨ t = lit "[" → without_mark s = s.
Proof.
  unfold without_mark, token_texts. intros Hs Ht. destruct (starts_with byte_order_mark s) eqn:E; [|done].
  apply starts_with_true in E as [r ->]. exfalso. pose proof (json_tokens_spec (byte_order_mark ++ r)) as Hl.
  destruct (json_tokens _) as [ts'|]; [|done]. destruct Hl as (l & w & El & Hl & ->). rewrite place_texts in Hs.
  destruct l as [|[w1 t1] l]; [done|]. simpl in Hs. injection Hs as -> _. destruct Hl as (Hw & _ & _).
  rewrite spread_cons in El. destruct w1 as [|c w1].
  - destruct Ht as [-> | ->]; discriminate El.
  - inversion Hw as [|? ? Hc]; subst. simpl in El. injection El as <- _. discriminate Hc.
Qed.

Lemma model_scalar_flat t v :
  model_scalar t = Some v → match v with JUndefined | JArray _ | JObject _ => False | _ => True end.
Proof.
  unfold model_scalar. destruct (unquote (tail t)) as [u|], (parse_signed t) as [z|]; simpl;
    intros E; repeat (case_match; simplify_eq; try done).
Qed.

Lemma container_head t v : tree_value t = Some v → is_array v || is_object v = true →
  ∃ s ts, render t = s :: ts ∧ (s = lit "{" ∨ s = lit "[").
Proof.
  destruct t as [s|l|l]; simpl; intros Hv Ho; [|by eauto..].
  apply model_scalar_flat in Hv. by destruct v.
Qed.

#[local] Instance modelGrammar : JsonGrammarLaws modelData modelScalar.
Proof.
  split; try done.
  - apply model_scalar_flat.
  - apply model_scalar_mark.
  - intros t s r. apply string_stands.
  - intros s t v Hs Hd Hv Ho. change (json_parse s) with (model_parse s). unfold model_parse.
    destruct (container_head t v Hv Ho) as (c & ts & Hr & Hc).
    rewrite (without_mark_tokens s c ts) by congruence. by eapply read_document_tree.
  - intros s v E. change (json_parse s) with (model_parse s) in E. unfold model_parse in E.
    apply read_document_only in E as (t & H1 & H2 & H3 & H4). exists (without_mark s), t. split; [|done].
    unfold without_mark. destruct (starts_with byte_order_mark s) eqn:E; [|by left]. right.
    apply starts_with_true in E as [r ->]. done.
Qed.

Lemma model_print_parse o : json_printable o = true → model_parse (model_print (JObject o)) = Some (JObject o).
Proof.
  unfold json_printable. intros [Hp Hd]%andb_true_iff. apply bool_decide_eq_true in Hd.
  unfold model_parse. rewrite without_mark_printed. apply (read_document_tree _ (tree_of (JObject o))).
  - apply standing_texts. by apply printed_standing.
  - by rewrite tree_of_depth.
  - by apply tree_of_value.
  - done.
Qed.
