(* ===== verification/RollbackState.v ===== *)
(** * The files of the rollback coordinator

    Model of the file operations of headless/rollbackCoordinator.cpp: reading a
    protected file, the atomic replacement that keeps displaced bytes, the check
    for an unfinished commit, and the record of an operation.

    The file system maps paths to inodes.  Before every system call the other
    processes of the machine may change it, and the call may fail or be the last
    one of the process ([Dies]): the states the code can leave behind are those
    of all its prefixes. *)

From stdpp Require Import gmap.
From S2P Require Import Prelude Text Json QtInterface Command JsonTokens PauseJson JsonText ConfigCodec RouteState ProfileStore.
#[local] Open Scope Z_scope.
#[local] Open Scope amnezia_scope.

(** ** Files *)

Record File := MkFile {
  f_bytes : text;
  f_regular : bool;          (* S_ISREG *)
  f_uid : Z;
  f_nlink : Z;
  f_mode : Z;                (* permission bits *)
  f_mtim : Z * Z;
}.

Record Fs := MkFs {
  fs_names : gmap text nat;
  fs_inodes : gmap nat File;
}.

Definition file_at (path : text) (fs : Fs) : option (nat * File) :=
  i ← fs_names fs !! path; f ← fs_inodes fs !! i; Some (i, f).

(** What a reader finds under a path. *)
Definition content (path : text) (fs : Fs) : option text := f_bytes ∘ snd <$> file_at path fs.

Definition set_names (f : gmap text nat → gmap text nat) (fs : Fs) : Fs := MkFs (f (fs_names fs)) (fs_inodes fs).
Definition set_file (i : nat) (f : File) (fs : Fs) : Fs := MkFs (fs_names fs) (<[i := f]> (fs_inodes fs)).

(** ** The outside world *)

Record Paths := MkPaths {
  p_root : text; p_profiles : text; p_state : text; p_install : text; p_unit : text; p_socket : text;
  p_owner : Z; p_verifySelf : bool;
}.

Inductive SysCall :=
| SGeteuid | SOpenDir (p : text) | SDirStat (p : text) | SOpen (p : text) | SFstat (p : text) | SRead (p : text)
| SStat (p : text) | SCreate (p : text) | SWrite (p : text) | SChmod (p : text) | SFsync (p : text)
| SExchange (p q : text) | SRename (p q : text) | SUnlink (p : text) | SMkdir (p : text) | SPrivate (p : text)
| SDup (p : text) | SReaddir (p : text) | SLock (p : text) | SSelf | SClock | SPlatform.

(** [Done n] is success; [n] is the number of bytes a read or a write moves.
    [Eintr] is a failure with [errno == EINTR]. *)
Inductive Outcome := Done (n : nat) | Fails | Eintr | Dies.

(** The platform operations that answer with a success flag. *)
Inductive PlatformOp :=
| PStop | PStart | PStopped | PInstallUnit | PStartWorker | PRetireUnit
| PAcknowledge (version : text) | PStopObserved (o : jobject) | PProcessGone (o : jobject).

Class CoordinatorHost (W : Type) := {
  sys : SysCall → Fs → W → Outcome * Fs * W;          (* other processes first, then the call *)
  platform : PlatformOp → Fs → W → bool * Fs * W;
  observe_host : Fs → W → jobject * Fs * W;           (* RollbackCoordinatorPlatform::observe *)
  monotonic : W → Z * W;                              (* monotonicMilliseconds() *)
  wait_retry : Fs → W → Fs * W;                       (* waitForObservationRetry() *)
  new_uuid : W → text * W;                            (* QUuid::createUuid().toString(WithoutBraces) *)
  now_text : W → text * W;                            (* currentDateTimeUtc().toString(ISODateWithMs) *)
  self_hash : W → text;                               (* digest of /proc/self/exe *)
  self_path : W → text;                               (* canonical path of /proc/self/exe *)
  canonicalFilePath : W → text → text;
  signals : W → N;                                    (* the interruptions a loop of the model sits through *)
}.

Class QtBytes := {
  to_base64 : text → text;             (* QByteArray::toBase64, as text *)
  from_base64 : text → text;           (* QByteArray::fromBase64(s.toLatin1()) *)
  version_segments : text → list Z;    (* QVersionNumber::fromString; empty when isNull() *)
}.

Class QtBytesLaws `(B : QtBytes) : Prop := {
  from_to_base64 b : Forall (λ c, 0 <= c < 256) b → from_base64 (to_base64 b) = b;
  to_base64_valid b : utf16_valid (to_base64 b) = true;
}.

(** A call of the platform, with the file system it saw and the answer. *)
Record Event := MkEvent { ev_op : PlatformOp; ev_fs : Fs; ev_answer : bool }.

(** [cw_events] records the calls for the theorems; the code does not read it. *)
Record CoordWorld (W : Type) := MkCoord { cw_fs : Fs; cw_events : list Event; cw_outer : W }.
Arguments MkCoord {W}.
Arguments cw_fs {W}.
Arguments cw_events {W}.
Arguments cw_outer {W}.

Definition MaxFile : Z := 64 * 1024 * 1024.
Definition MaxJson : Z := 4 * 1024 * 1024.
Definition MaxProfiles : Z := 16 * 1024 * 1024.
Definition MaxJournal : Z := 48 * 1024 * 1024.

(** [QFileInfo(path).absolutePath()] of an absolute path, and
    [QDir(d).filePath(name)]. *)
Definition dir_of (path : text) : text := reverse (tail (drop_while (λ c, negb (c =? 47)) (reverse path))).
Definition in_dir (d name : text) : text := d ++ [47] ++ name.

Definition recordPath (p : Paths) : text := in_dir (p_root p) (lit "coordinator.json").
Definition retainedPath (p : Paths) : text := in_dir (p_root p) (lit "amnezia-cli").
Definition profileWriterLockPath (profiles : text) : text := profiles ++ lit ".lock".
Definition journalPath (p : Paths) : text := in_dir (dir_of (p_state p)) (lit "updates/transaction.json").

Definition stagingPrefix : text := lit ".coordinator-".

(** What [same] compares of two [struct stat]. *)
Record Stat := MkStat { st_ino : nat; st_size : Z; st_mtim : Z * Z }.

Definition stat_of (i : nat) (f : File) : Stat := MkStat i (tsize (f_bytes f)) (f_mtim f).

#[export] Instance stat_eq_dec : EqDecision Stat.
Proof. solve_decision. Defined.

Definition same (a b : Stat) : bool := bool_decide (a = b).

Section files.
Context `{QtData} {W : Type} `{CoordinatorHost W}.

Notation coord A := (prog (CoordWorld W) exn A).

(** ** System calls *)

Definition syscall (c : SysCall) : coord (option nat) := λ w,
  let '(o, fs, outer) := sys c (cw_fs w) (cw_outer w) in
  let w' := MkCoord fs (cw_events w) outer in
  match o with Done n => (Ok (Some n), w') | Fails | Eintr => (Ok None, w') | Dies => (Err Killed, w') end.

(** The result of [read] or [write], with [errno == EINTR] told apart. *)
Inductive Moved := Bytes (n : nat) | Again | NoBytes.

Definition transfer (c : SysCall) : coord Moved := λ w,
  let '(o, fs, outer) := sys c (cw_fs w) (cw_outer w) in
  let w' := MkCoord fs (cw_events w) outer in
  match o with
  | Done n => (Ok (Bytes n), w') | Eintr => (Ok Again, w') | Fails => (Ok NoBytes, w') | Dies => (Err Killed, w')
  end.

(** [fuel] rounds of a loop: a round goes on with a new state or breaks. *)
Fixpoint rounds {S A} (body : S → coord (S + A)) (fuel : positive) (s : S) : coord (S + A) :=
  let go f s := let! r := rounds body f s in match r with inl s' => rounds body f s' | inr a => pure (inr a) end in
  match fuel with
  | xH => body s
  | xO f => go f s
  | xI f => let! r := body s in match r with inl s' => go f s' | inr a => pure (inr a) end
  end.

Definition loop {S A} (body : S → coord (S + A)) (fuel : positive) (s : S) : coord A :=
  let! r := rounds body fuel s in match r with inl _ => leave OutOfFuel | inr a => pure a end.

(** A loop over a transfer of at most [size] bytes: a round is interrupted or
    moves a byte. *)
Definition transfer_loop {S A} (size : N) (body : S → coord (S + A)) (s : S) : coord A :=
  let! n := gets (λ w, signals (cw_outer w)) in loop body (N.succ_pos (size + n)) s.

(** [require(call succeeded, m)]. *)
Definition must (c : SysCall) (m : string) : coord nat :=
  let! r := syscall c in match r with Some n => pure n | None => throw m end.

Definition get_fs : coord Fs := gets cw_fs.
Definition put_fs (f : Fs → Fs) : coord () := cmd_modify (λ w, MkCoord (f (cw_fs w)) (cw_events w) (cw_outer w)).

Definition fresh_text (next : W → text * W) : coord text := λ w,
  let '(t, outer) := next (cw_outer w) in (Ok t, MkCoord (cw_fs w) (cw_events w) outer).

Definition some_or {A} (o : option A) (m : string) : coord A := match o with Some a => pure a | None => throw m end.

(** *** [parentFd] *)

Definition parentFd (path : text) : coord () :=
  let! _ := must (SOpenDir (dir_of path)) "protected file open failed" in
  let! _ := must (SDirStat (dir_of path)) "unsafe protected parent" in
  pure ().

(** *** [readProtected] *)

(** One round of the read loop.  [read] answers with at least a byte before the
    end of the file. *)
Definition read_round (path : text) (i : nat) (limit : Z) (bytes : text) : coord (text + text) :=
  let! r := transfer (SRead path) in
  match r with
  | Again => pure (inl bytes)
  | NoBytes => throw "protected read failed"
  | Bytes n =>
      let! fs := get_fs in
      let! f := some_or (fs_inodes fs !! i) "protected read failed" in
      let data := take (Nat.max 1 (Nat.min n (Z.to_nat 65536))) (drop (length bytes) (f_bytes f)) in
      match data with
      | [] => pure (inr bytes)
      | _ => let! _ := require (tsize (bytes ++ data) <=? limit) "protected file exceeds bound" in
             pure (inl (bytes ++ data))
      end
  end.

Definition readProtected (owner : Z) (path : text) (limit : Z) : coord (text * Stat) :=
  let! _ := parentFd path in
  let! _ := must (SOpen path) "protected file open failed" in
  let! fs := get_fs in
  let! i := some_or (fs_names fs !! path) "protected file open failed" in
  let! _ := must (SFstat path) "unsafe protected file" in
  let! fs := get_fs in
  let! f := some_or (fs_inodes fs !! i) "unsafe protected file" in
  let! _ := require (f_regular f && (f_uid f =? owner) && (f_nlink f =? 1) && (Z.land (f_mode f) 18 =? 0)
                     && (tsize (f_bytes f) <=? limit)) "unsafe protected file" in
  let identity := stat_of i f in
  let! bytes := transfer_loop (Z.to_N limit) (read_round path i limit) [] in
  let! _ := must (SStat path) "protected file changed during read" in
  let! fs := get_fs in
  let! after := some_or (fs_inodes fs !! i) "protected file changed during read" in
  let! (j, named) := some_or (file_at path fs) "protected file changed during read" in
  let! _ := require (same identity (stat_of i after) && same (stat_of i after) (stat_of j named))
              "protected file changed during read" in
  pure (bytes, identity).

Definition read_bytes (owner : Z) (path : text) (limit : Z) : coord text :=
  let! r := readProtected owner path limit in pure r.1.

(** [object(readProtected(...).bytes)]. *)
Definition read_object (owner : Z) (path : text) (limit : Z) : coord jobject :=
  let! b := read_bytes owner path limit in cmd_ret (object b).

(** *** [noUncertainCommit] *)

(** An entry of a directory that is a staging file. *)
Definition staging_in (d k : text) : bool :=
  starts_with (in_dir d stagingPrefix) k && negb (contains_char 47 (drop (length (in_dir d stagingPrefix)) k)).

Definition uncertain (d : text) (fs : Fs) : bool := existsb (staging_in d) (map fst (map_to_list (fs_names fs))).

(** [SDup] is [dup] with [fdopendir], [SReaddir] the scan up to an error. *)
Definition noUncertainCommit (d : text) : coord () :=
  let! _ := parentFd (in_dir d (lit ".inspection")) in
  let! _ := must (SDup d) "coordinator conflict inspection failed" in
  let! _ := must (SReaddir d) "coordinator uncertain commit requires explicit private recovery" in
  let! fs := get_fs in
  require (negb (uncertain d fs)) "coordinator uncertain commit requires explicit private recovery".

Definition ensureRoot (p : Paths) : coord () :=
  let! _ := must SGeteuid "coordinator requires its trusted root owner" in
  let! _ := parentFd (p_root p) in
  let! _ := must (SMkdir (p_root p)) "coordinator root creation failed" in
  let! _ := must (SOpenDir (p_root p)) "protected file open failed" in
  let! _ := must (SPrivate (p_root p)) "coordinator root not private" in
  let! _ := must (SFsync (dir_of (p_root p))) "coordinator root directory sync failed" in
  let! _ := noUncertainCommit (p_root p) in
  noUncertainCommit (dir_of (p_profiles p)).

(** *** [replace] *)

Definition append_file (i : nat) (data : text) (fs : Fs) : Fs :=
  match fs_inodes fs !! i with
  | Some g => set_file i (MkFile (f_bytes g ++ data) (f_regular g) (f_uid g) (f_nlink g) (f_mode g) (f_mtim g)) fs
  | None => fs
  end.

(** One round of the write loop. *)
Definition write_round (path : text) (i : nat) (bytes : text) (used : nat) : coord (nat + ()) :=
  if (used <? length bytes)%nat then
    let! r := transfer (SWrite path) in
    match r with
    | Again => pure (inl used)
    | NoBytes => throw "coordinator write failed"
    | Bytes n =>
        let n := Nat.min n (length bytes - used) in
        let! _ := require (0 <? n)%nat "coordinator write failed" in
        let! _ := put_fs (append_file i (take n (drop used bytes))) in
        pure (inl (used + n)%nat)
    end
  else pure (inr ()).

Definition write_loop (path : text) (i : nat) (bytes : text) : coord () :=
  transfer_loop (N.of_nat (length bytes)) (write_round path i bytes) 0%nat.

Definition chmod (i : nat) (mode : Z) (fs : Fs) : Fs :=
  match fs_inodes fs !! i with
  | Some g => set_file i (MkFile (f_bytes g) (f_regular g) (f_uid g) (f_nlink g) mode (f_mtim g)) fs
  | None => fs
  end.

(** [openat(O_CREAT | O_EXCL)]. *)
Definition create (owner : Z) (path : text) : coord nat :=
  let! _ := must (SCreate path) "protected file open failed" in
  let! fs := get_fs in
  match fs_names fs !! path with
  | Some _ => throw "protected file open failed"
  | None =>
      let i := fresh (dom (fs_inodes fs)) in
      let! _ := put_fs (λ fs, set_file i (MkFile [] true owner 1 384 (0, 0)) (set_names (<[path := i]>) fs)) in
      pure i
  end.

(** [renameat2(a, b, RENAME_EXCHANGE)]. *)
Definition exchange_names (a b : text) (m : gmap text nat) : gmap text nat :=
  match m !! a, m !! b with Some i, Some j => <[a := j]> (<[b := i]> m) | _, _ => m end.

Definition staging (path uuid : text) : text := in_dir (dir_of path) (stagingPrefix ++ uuid).

(** The new bytes in a synced staging file. *)
Definition stage (owner : Z) (path bytes : text) (mode : Z) : coord text :=
  let! _ := parentFd path in
  let! uuid := fresh_text new_uuid in
  let temp := staging path uuid in
  let! i := create owner temp in
  let! _ := write_loop temp i bytes in
  let! _ := must (SChmod temp) "coordinator file sync failed" in
  let! _ := put_fs (chmod i mode) in
  let! _ := must (SFsync temp) "coordinator file sync failed" in
  pure temp.

(** [if (expected)]: exchange, and retire the displaced file when it is the
    expected one. *)
Definition commit_exchange (owner : Z) (path temp expected : text) : coord () :=
  let! before := readProtected owner path MaxFile in
  let! _ := require (text_eqb before.1 expected) "coordinator policy conflict before commit" in
  let! _ := must (SExchange temp path) "coordinator atomic exchange failed" in
  let! fs := get_fs in
  let! _ := require (bool_decide (is_Some (fs_names fs !! temp) ∧ is_Some (fs_names fs !! path)))
              "coordinator atomic exchange failed" in
  let! _ := put_fs (set_names (exchange_names temp path)) in
  let! _ := must (SFsync (dir_of path)) "coordinator exchange directory sync failed" in
  let! displaced := readProtected owner temp MaxFile in
  let! _ := require (text_eqb displaced.1 expected && same displaced.2 before.2)
              "coordinator policy conflict; displaced bytes preserved" in
  let! _ := must (SUnlink temp) "coordinator displaced file retirement failed" in
  put_fs (set_names (delete temp)).

(** [renameat2(a, b, RENAME_NOREPLACE)]. *)
Definition rename_names (a b : text) (m : gmap text nat) : gmap text nat :=
  match m !! a with Some j => <[b := j]> (delete a m) | None => m end.

Definition commit_rename (path temp : text) : coord () :=
  let! _ := must (SRename temp path) "coordinator destination already exists" in
  let! fs := get_fs in
  let! _ := require (bool_decide (fs_names fs !! path = None)) "coordinator destination already exists" in
  put_fs (set_names (rename_names temp path)).

Definition replace (owner : Z) (path bytes : text) (expected : option text) (mode : Z) : coord () :=
  let! temp := stage owner path bytes mode in
  let! _ := match expected with
            | Some e => commit_exchange owner path temp e
            | None => commit_rename path temp
            end in
  let! _ := must (SFsync (dir_of path)) "coordinator directory sync failed" in
  pure ().
End files.

(** ** Rules for the loops *)

Section loops.
Context {W : Type} `{CoordinatorHost W} {S A : Type}.

Notation World := (CoordWorld W).

(** What a round establishes: the invariant, or the postcondition at the break. *)
Definition round_post (I : S → World → Prop) (Q : A → World → Prop) (r : S + A) (w : World) : Prop :=
  match r with inl s => I s w | inr a => Q a w end.

Lemma h_rounds (I : S → World → Prop) Q X body fuel s :
  (∀ s, hoare (I s) (body s) (round_post I Q) X) → hoare (I s) (rounds body fuel s) (round_post I Q) X.
Proof.
  intros Hb. revert s. induction fuel as [f IH|f IH|]; intros s; cbn [rounds]; [| |apply Hb].
  - eapply h_bind; [apply Hb|]. intros [s'|a]; [|by apply h_ret].
    eapply h_bind; [apply IH|]. intros [s2|a]; [apply IH|by apply h_ret].
  - eapply h_bind; [apply IH|]. intros [s2|a]; [apply IH|by apply h_ret].
Qed.

Lemma h_transfer_loop (I : S → World → Prop) Q X size body s :
  (∀ s, hoare (I s) (body s) (round_post I Q) X) → (∀ s w, I s w → X OutOfFuel w) →
  hoare (I s) (transfer_loop size body s) Q X.
Proof.
  intros Hb HX. eapply (h_bind _ _ _ (λ _, I s)); [by apply h_gets|]. intros n.
  eapply h_bind; [by apply h_rounds|]. intros [s'|a]; [|by apply h_ret]. intros w. apply HX.
Qed.

(** At least [k] of [n] rounds are used up. *)
Definition used_up (I : N → S → World → Prop) (n k : N) (s : S) (w : World) : Prop := ∃ m, (m + k <= n)%N ∧ I m s w.

Lemma h_rounds_left (I : N → S → World → Prop) Q X body n fuel k s :
  (∀ n s, hoare (I n s) (body s) (round_post (used_up I n 1) Q) X) →
  hoare (used_up I n k s) (rounds body fuel s) (round_post (used_up I n (k + N.pos fuel)) Q) X.
Proof.
  intros Hb.
  assert (∀ k s, hoare (used_up I n k s) (body s) (round_post (used_up I n (k + 1)) Q) X) as Hone.
  { intros k' s' w (m & Hm & Hw). specialize (Hb m s' w Hw). destruct (body s' w) as [[[s2|a]|e] w']; [|done..].
    destruct Hb as (m' & Hm' & Hi). exists m'. split; [lia|done]. }
  revert k s. induction fuel as [f IH|f IH|]; intros k s; cbn [rounds]; [| |apply Hone].
  - eapply h_bind; [apply Hone|]. intros [s'|a]; [|by apply h_ret]. eapply h_bind; [apply IH|]. intros [s2|a]; [|by apply h_ret].
    replace (k + N.pos f~1)%N with (k + 1 + N.pos f + N.pos f)%N by lia. apply IH.
  - eapply h_bind; [apply IH|]. intros [s2|a]; [|by apply h_ret].
    replace (k + N.pos f~0)%N with (k + N.pos f + N.pos f)%N by lia. apply IH.
Qed.

(** A loop whose rounds left are bounded by the bytes and the interruptions
    breaks or throws. *)
Lemma h_transfer_ends (I : N → S → World → Prop) P Q X size body s :
  (∀ n s, hoare (I n s) (body s) (round_post (used_up I n 1) Q) X) →
  (∀ w, P w → I (size + signals (cw_outer w))%N s w) →
  hoare P (transfer_loop size body s) Q X.
Proof.
  intros Hb HI. eapply (h_bind _ _ _ (λ n w, used_up I (size + n) 0 s w)).
  { apply h_gets. intros w Hw. exists (size + signals (cw_outer w))%N. split; [lia|by apply HI]. }
  intros n. eapply h_bind; [by apply h_rounds_left|]. intros [s'|a]; [|by apply h_ret].
  intros w (m & Hm & _). lia.
Qed.
End loops.
