(* ===== verification/RollbackCoordinator.v ===== *)
(** * The rollback coordinator

    Model of RollbackCoordinator in headless/rollbackCoordinator.cpp: the
    operations that pause the profiles, follow a rollback to the older daemon,
    acknowledge it and restore the profiles, over the files of RollbackState.
    The record on disk carries the phase of the operation, and every operation
    can be the continuation of an interrupted one. *)

From stdpp Require Import gmap.
From S2P Require Import Prelude Text Json QtInterface Command JsonTokens PauseJson JsonText ConfigCodec RouteState ProfileStore.
From S2P Require Import RollbackState.
#[local] Open Scope Z_scope.
#[local] Open Scope amnezia_scope.

Record CoordResult := MkCoordResult { rc_ok : bool; rc_code : text; rc_message : text; rc_evidence : jobject }.

(** [v == "s"] for a [QJsonValue]. *)
Definition is_str (v : json) (s : string) : bool := bool_decide (v = JString (lit s)).

Definition json_same (a b : json) : bool := bool_decide (a = b).

(** [toInteger(def)]. *)
Definition to_integer (def : Z) (j : json) : Z :=
  match j with
  | JDouble (DInt z) => if (- 2 ^ 63 <=? z) && (z <? 2 ^ 63) then z else def
  | _ => def
  end.

(** [toDouble() > 1]. *)
Definition above_one (j : json) : bool := match j with JDouble d => d_gtb d 1 | _ => false end.

Definition field (k : string) (o : jobject) : json := jvalue (lit k) o.
Definition field_text (k : string) (o : jobject) : text := to_string [] (field k o).
Definition field_object (k : string) (o : jobject) : jobject := to_object (field k o).
Definition with_field (k : string) (v : json) (o : jobject) : jobject := jinsert (lit k) v o.

Definition one_of (s : text) (l : list string) : bool := existsb (λ x, text_eqb s (lit x)) l.

(** [^[0-9]+\.[0-9]+\.[0-9]+\.[0-9]+$]. *)
Definition four_numbers (s : text) : bool :=
  (length (split_char 46 s) =? 4)%nat && forallb all_digits (split_char 46 s).

Definition unitText (p : Paths) : text := join [10]
  [lit "[Unit]"; lit "Description=Amnezia rollback-with-pause recovery"; lit "After=amneziad.service"; [];
   lit "[Service]"; lit "Type=oneshot"; lit "User=root"; lit "UMask=0077";
   lit "ExecStart=" ++ retainedPath p ++ lit " --rollback-coordinator run"; lit "TimeoutStartSec=120";
   lit "NoNewPrivileges=true"; lit "PrivateTmp=true"; lit "ProtectSystem=strict";
   lit "ReadWritePaths=" ++ dir_of (p_state p) ++ lit " " ++ p_install p; [];
   lit "[Install]"; lit "WantedBy=multi-user.target"; []].

Definition digest `{QtData} (b : text) : text := to_hex (sha256 b).

(** [healthy(o, r, final)]: the first failed requirement. *)
Definition healthy (o r : jobject) (final : bool) : option string :=
  if negb (negb (bool_decide (o = [])) && above_one (field "daemon_pid" o) && negb (is_empty (field_text "start_ticks" o))
           && json_same (field "pair" o) (field "targetPair" r) && json_same (field "version" o) (field "targetVersion" r))
  then Some "observed service is not rollback target"%string
  else
  let d := field_object "doctor" o in
  let result := field_object "result" d in
  let updates := field_object "updates" result in
  if negb (to_bool false (field "ok" d) && to_bool false (field "ready" result)
           && negb (to_bool true (field "recoveryRequired" updates)) && is_string (field "lastError" updates)
           && is_empty (field_text "lastError" updates)
           && json_same (field "lastAppliedVersion" updates) (field "targetVersion" r)
           && text_eqb (field_text "state" updates) (if final then lit "disabled" else lit "rollback_restart_pending"))
  then Some "rollback target doctor is not healthy expected phase"%string
  else None.

(** The public part of a record. *)
Definition summary (r : jobject) : jobject :=
  with_field "pausedProfileCount" (jint (to_int 0 (field "pausedProfileCount" r)))
    (foldl (λ s k, if jcontains (lit k) r then with_field k (field k r) s else s) []
       ["schema"; "authority"; "operationId"; "phase"; "createdAt"; "updatedAt"; "targetVersion"; "retainedSha256";
        "originalProfilesSha256"; "pausedProfilesSha256"; "acknowledgementAuthority"]%string).

Definition success (code : text) (r : jobject) : CoordResult := MkCoordResult true code [] (summary r).
Definition failure (code : string) (message : text) : CoordResult := MkCoordResult false (lit code) message [].

Section coordinator.
Context `{QtData} `{QtBytes} {W : Type} `{CoordinatorHost W}.
Context (p : Paths).

Notation coord A := (prog (CoordWorld W) exn A).

(** [try { ... } catch (const std::exception &e) { return failure(code, e.what()); }] *)
Definition attempt (code : string) (body : coord CoordResult) : coord CoordResult := λ w,
  match body w with
  | (Err (Throw m), w') => (Ok (failure code m), w')
  | r => r
  end.

(** ** The platform *)

Definition call_platform (op : PlatformOp) : coord bool :=
  let! _ := syscall SPlatform in
  λ w, let '(b, fs, outer) := platform op (cw_fs w) (cw_outer w) in
       (Ok b, MkCoord fs (cw_events w ++ [MkEvent op (cw_fs w) b]) outer).

Definition must_platform (op : PlatformOp) (m : string) : coord () :=
  let! b := call_platform op in require b m.

Definition observe : coord jobject :=
  let! _ := syscall SPlatform in
  λ w, let '(o, fs, outer) := observe_host (cw_fs w) (cw_outer w) in (Ok o, MkCoord fs (cw_events w) outer).

Definition milliseconds : coord Z :=
  let! _ := must SClock "coordinator monotonic clock failed" in
  λ w, let '(t, outer) := monotonic (cw_outer w) in (Ok t, MkCoord (cw_fs w) (cw_events w) outer).

Definition waitForObservationRetry : coord () := λ w,
  let '(fs, outer) := wait_retry (cw_fs w) (cw_outer w) in (Ok (), MkCoord fs (cw_events w) outer).

Definition timestamp : coord text := fresh_text now_text.
Definition canonical (path : text) : coord text := gets (λ w, canonicalFilePath (cw_outer w) path).
Definition exists_file (path : text) : coord bool := gets (λ w, bool_decide (is_Some (fs_names (cw_fs w) !! path))).
Definition lock (path : text) (m : string) : coord () := let! _ := must (SLock path) m in pure ().

(** [healthy] as a call that throws. *)
Definition must_be_healthy (o r : jobject) (final : bool) : coord () :=
  match healthy o r final with Some m => throw m | None => pure () end.

(** ** The record *)

Notation read path limit := (read_bytes (p_owner p) path limit).
Notation read_json path limit := (read_object (p_owner p) path limit).

Definition load : coord jobject :=
  let! r := read_json (recordPath p) MaxJournal in
  let! _ := require ((to_int 0 (field "schema" r) =? 1)
                     && text_eqb (field_text "authority" r) (lit "retained14Coordinator")
                     && negb (is_empty (field_text "operationId" r))) "coordinator record invalid" in
  pure r.

(** [save(p, r, phase)]; the result is [r] as the call leaves it. *)
Definition save (r : jobject) (phase : string) : coord jobject :=
  let! old := read (recordPath p) MaxJournal in
  let! o := cmd_ret (object old) in
  let! _ := require (json_same (field "operationId" o) (field "operationId" r)) "coordinator operation changed" in
  let! t := timestamp in
  let r := with_field "updatedAt" (JString t) (with_field "phase" (JString (lit phase)) r) in
  let! _ := replace (p_owner p) (recordPath p) (json_compact r) (Some old) 384 in
  pure r.

Definition verifyRetained (r : jobject) (self : bool) : coord () :=
  let! b := read (retainedPath p) MaxFile in
  let! _ := require (text_eqb (digest b) (field_text "retainedSha256" r)) "coordinator executable changed" in
  let! u := read (p_unit p) MaxJson in
  let! _ := require (text_eqb u (utf8 (unitText p))) "coordinator unit changed" in
  if self && p_verifySelf p then
    let! _ := must SSelf "coordinator self executable unreadable" in
    let! h := gets (λ w, self_hash (cw_outer w)) in
    let! exe := gets (λ w, self_path (cw_outer w)) in
    require (text_eqb h (field_text "retainedSha256" r) && text_eqb exe (retainedPath p))
      "executing coordinator is not retained executable"
  else pure ().

Definition file_entry (b : text) : json :=
  JObject (jobj [(lit "sha256", JString (digest b)); (lit "size", jint (tsize b))]).

Definition pair (directory : text) : coord jobject :=
  let! a := read (in_dir directory (lit "amneziad")) MaxFile in
  let! b := read (in_dir directory (lit "amnezia-cli")) MaxFile in
  pure (jobj [(lit "amneziad", file_entry a); (lit "amnezia-cli", file_entry b)]).

Definition targetPair (r : jobject) : coord () :=
  let! o := pair (p_install p) in
  require (bool_decide (o = field_object "targetPair" r)) "installed pair differs from rollback target".

Definition pausedPolicy (r : jobject) : coord () :=
  let! b := read (p_profiles p) MaxProfiles in
  require (text_eqb (digest b) (field_text "pausedProfilesSha256" r)) "paused profile policy changed".

(** A file of the target in the updater's journal. *)
Definition journal_entry (hashes sizes target : jobject) (name : text) : bool :=
  let file := to_object (jvalue name target) in
  json_same (jvalue name hashes) (field "sha256" file) && is_double (jvalue name sizes)
  && (to_integer (-1) (jvalue name sizes) =? to_integer (-2) (field "size" file)).

Definition pendingEvidence (r : jobject) : coord () :=
  let! state := read_json (p_state p) MaxJson in
  let! journal := read_json (journalPath p) MaxJson in
  let! recorded := canonical (field_text "installDirectory" journal) in
  let! installed := canonical (p_install p) in
  let version := field "targetVersion" r in
  let! _ := require (is_str (field "state" state) "rollback_restart_pending"
                     && json_same (field "lastAppliedVersion" state) version
                     && is_str (field "phase" journal) "rollback_restart_pending"
                     && is_str (field "operation" journal) "rollback"
                     && json_same (field "candidateVersion" journal) version
                     && json_same (field "currentVersion" journal) version
                     && text_eqb recorded installed) "actual rollback pending evidence missing" in
  let hashes := field_object "candidateHashes" journal in
  let sizes := field_object "candidateSizes" journal in
  let target := field_object "targetPair" r in
  let! _ := require ((length hashes =? 2)%nat && (length sizes =? 2)%nat) "pending journal target file set invalid" in
  require (forallb (journal_entry hashes sizes target) (jkeys target)) "pending journal target hash or size differs".

(** ** Operations *)

Definition begin : coord () :=
  let! _ := ensureRoot p in
  lock (in_dir (p_root p) (lit "operation.lock")) "coordinator operation in progress".

(** A file that has to hold [bytes]: checked when it exists, written when not. *)
Definition place_file (path bytes : text) (limit mode : Z) (m : string) : coord () :=
  let! e := exists_file path in
  if e then let! b := read path limit in require (text_eqb b bytes) m
  else replace (p_owner p) path bytes None mode.

(** The part of [prepare] that finds the rollback target in the updater's state. *)
Definition rollbackTarget (state : jobject) : coord jobject :=
  let! _ := require (anchored four_numbers (field_text "rollbackVersion" state)) "rollback version missing" in
  let! backup := canonical (field_text "rollbackDirectory" state) in
  let! updates := canonical (in_dir (dir_of (p_state p)) (lit "updates")) in
  let! _ := require (starts_with (updates ++ lit "/rollback-") backup && negb (is_empty backup))
              "rollback directory outside update root" in
  let! target := pair backup in
  let hashes := field_object "rollbackHashes" state in
  let! _ := require (length hashes =? 2)%nat "rollback authority file set invalid" in
  let! _ := require (forallb (λ name, json_same (field "sha256" (to_object (jvalue name target))) (jvalue name hashes))
                       (jkeys target)) "rollback backup hash mismatch" in
  pure target.

Definition prepare_body : coord CoordResult :=
  let! _ := begin in
  let! known := exists_file (recordPath p) in
  if known then
    let! r := load in
    let! _ := verifyRetained r false in
    let! _ := require (one_of (field_text "phase" r) ["prepared"; "pause_prepared"; "profiles_paused"])
                "coordinator operation already active" in
    let! _ := must_platform PInstallUnit "coordinator unit installation failed" in
    pure (success (field_text "phase" r) r)
  else
    let! state := read_json (p_state p) MaxJson in
    let targetVersion := field_text "rollbackVersion" state in
    let! target := rollbackTarget state in
    let! source := read (in_dir (p_install p) (lit "amnezia-cli")) MaxFile in
    let! _ := if p_verifySelf p then
                let! _ := must SSelf "coordinator self executable unreadable" in
                let! h := gets (λ w, self_hash (cw_outer w)) in
                require (text_eqb h (digest source)) "prepare caller is not installed CLI"
              else pure () in
    let! original := pair (p_install p) in
    let! observed := observe in
    let! _ := require (bool_decide (field_object "pair" observed = original) && above_one (field "daemon_pid" observed)
                       && negb (is_empty (field_text "start_ticks" observed))) "original service identity unavailable" in
    let originalVersion := field_text "version" observed in
    let! _ := require (negb (bool_decide (version_segments originalVersion = []))
                       && text_ltb (version_segments targetVersion) (version_segments originalVersion))
                "rollback is not an older installed version" in
    let! _ := place_file (retainedPath p) source MaxFile 320 "partial retained copy differs" in
    let! _ := place_file (p_unit p) (utf8 (unitText p)) MaxJson 420 "existing coordinator unit differs" in
    let! uuid := fresh_text new_uuid in
    let! t := timestamp in
    let r := jobj
      [(lit "schema", jint 1); (lit "authority", JString (lit "retained14Coordinator"));
       (lit "operationId", JString uuid); (lit "phase", JString (lit "prepared")); (lit "createdAt", JString t);
       (lit "retainedSha256", JString (digest source)); (lit "targetVersion", JString targetVersion);
       (lit "targetPair", JObject target); (lit "originalVersion", JString originalVersion);
       (lit "originalService", JObject observed); (lit "originalPair", JObject original)] in
    let! _ := replace (p_owner p) (recordPath p) (json_compact r) None 384 in
    let! _ := must_platform PInstallUnit "coordinator unit installation failed" in
    pure (success (lit "prepared") r).

Definition prepare : coord CoordResult := attempt "coordinator_prepare_failed" prepare_body.

(** *** Pausing the profiles *)

Definition paused_of (b : text) : coord (text * list json) := cmd_ret (pauseJson b).

(** The second half of an interrupted pause. *)
Definition finishPause (r : jobject) (original : text) : coord CoordResult :=
  let savedOriginal := from_base64 (field_text "originalProfilesBase64" r) in
  let! _ := require (text_eqb (digest savedOriginal) (field_text "originalProfilesSha256" r))
              "saved original profile policy invalid" in
  let! (savedPaused, _) := paused_of savedOriginal in
  let! _ := require (text_eqb (digest savedPaused) (field_text "pausedProfilesSha256" r)) "saved paused policy invalid" in
  let! _ := if text_eqb original savedOriginal then replace (p_owner p) (p_profiles p) savedPaused (Some original) 384
            else require (text_eqb original savedPaused) "profile changed during interrupted pause" in
  let! r := save r "profiles_paused" in
  pure (success (lit "profiles_paused") r).

Definition admitRollback_body : coord CoordResult :=
  let! _ := begin in
  let! r := load in
  let! _ := verifyRetained r false in
  if is_str (field "phase" r) "profiles_paused" then
    let! _ := pausedPolicy r in
    pure (success (lit "profiles_paused") r)
  else
    let! _ := require (one_of (field_text "phase" r) ["prepared"; "pause_prepared"]) "coordinator not prepared" in
    let! installed := pair (p_install p) in
    let! _ := require (bool_decide (installed = field_object "originalPair" r)) "original managed pair changed" in
    let! _ := lock (profileWriterLockPath (p_profiles p)) "profile store writer active" in
    let! original := read (p_profiles p) MaxProfiles in
    let! (paused, ids) := paused_of original in
    let! _ := require (tsize paused <=? MaxProfiles) "paused profile store exceeds supported bound" in
    if is_str (field "phase" r) "pause_prepared" then finishPause r original
    else
      let r := with_field "originalProfilesBase64" (JString (to_base64 original)) r in
      let r := with_field "originalProfilesSha256" (JString (digest original)) r in
      let r := with_field "pausedProfilesSha256" (JString (digest paused)) r in
      let r := with_field "pausedProfileCount" (jint (Z.of_nat (length ids))) r in
      let! r := save r "pause_prepared" in
      let! _ := replace (p_owner p) (p_profiles p) paused (Some original) 384 in
      let! r := save r "profiles_paused" in
      pure (success (lit "profiles_paused") r).

Definition admitRollback : coord CoordResult := attempt "coordinator_pause_failed" admitRollback_body.

Definition rollbackRequested_body : coord CoordResult :=
  let! _ := begin in
  let! r := load in
  let! _ := verifyRetained r false in
  let! _ := pausedPolicy r in
  let! _ := require (one_of (field_text "phase" r) ["profiles_paused"; "rollback_requested"])
              "coordinator not paused for rollback" in
  let! _ := pendingEvidence r in
  let! _ := targetPair r in
  let! journal := read (journalPath p) MaxJson in
  let r := with_field "pendingUpdaterJournalSha256" (JString (digest journal)) r in
  let! r := save r "rollback_requested" in
  let! _ := must_platform PStartWorker "coordinator worker scheduling failed" in
  pure (success (lit "rollback_restart_pending") r).

Definition rollbackRequested : coord CoordResult := attempt "coordinator_request_failed" rollbackRequested_body.

(** *** Restoring the profiles *)

Definition service_ready (o : jobject) : bool :=
  to_bool false (field "ok" (field_object "doctor" o))
  && to_bool false (field "ready" (field_object "result" (field_object "doctor" o))).

(** The service has to be stopped before the profiles change: a running one is
    observed and stopped, a stopped one must be the one observed before. *)
Definition stopForResume (phase : text) (abortOriginal : bool) (r : jobject) : coord jobject :=
  let! idle := call_platform PStopped in
  if negb idle then
    let! observed := observe in
    let! installed := pair (p_install p) in
    let! _ := require (bool_decide (field_object "pair" observed = installed)) "resume service pair changed" in
    let! _ := if negb abortOriginal then must_be_healthy observed r true
              else require (json_same (field "version" observed) (field "originalVersion" r) && service_ready observed)
                     "original service is not healthy for aborted rollback resume" in
    let r := with_field "resumeStoppedService" (JObject observed) r in
    let! r := save r "resume_requested" in
    let! _ := must_platform (PStopObserved observed) "service did not stop for resume" in
    pure r
  else
    let observed := field_object "resumeStoppedService" r in
    let! gone := if text_eqb phase (lit "resume_requested") && negb (bool_decide (observed = []))
                 then call_platform (PProcessGone observed) else pure false in
    let! _ := require gone "resume stopped identity not proved" in
    pure r.

Definition resume_body : coord CoordResult :=
  let! _ := begin in
  let! r := load in
  let! _ := verifyRetained r true in
  let phase := field_text "phase" r in
  let! _ := require (one_of phase ["held"; "profiles_paused"; "resume_requested"; "resumed"]) "coordinator not held for resume" in
  let original := from_base64 (field_text "originalProfilesBase64" r) in
  let! _ := require (text_eqb (digest original) (field_text "originalProfilesSha256" r)) "coordinator original policy invalid" in
  let! installed := pair (p_install p) in
  let abortOriginal := bool_decide (installed = field_object "originalPair" r) in
  let! _ := if abortOriginal then pure () else targetPair r in
  let! state := read_json (p_state p) MaxJson in
  let! _ := require (negb (is_str (field "state" state) "rollback_restart_pending") && is_string (field "lastError" state)
                     && is_empty (field_text "lastError" state)) "pending or unhealthy updater cannot resume" in
  let! pending := exists_file (journalPath p) in
  let! _ := require (negb pending) "updater transaction still active during resume" in
  let! _ := lock (profileWriterLockPath (p_profiles p)) "profile writer active during resume" in
  let! old := read (p_profiles p) MaxProfiles in
  let! _ := require (text_eqb old original || text_eqb (digest old) (field_text "pausedProfilesSha256" r))
              "profile policy changed before resume" in
  if text_eqb phase (lit "resumed") then
    let! _ := require (text_eqb old original) "completed resume policy changed" in
    let! _ := must_platform PRetireUnit "coordinator unit retirement failed" in
    pure (success (lit "resumed") r)
  else
    let! r := stopForResume phase abortOriginal r in
    let! _ := must_platform PStopped "resume service not stopped" in
    let! installed := pair (p_install p) in
    let! _ := require (bool_decide (installed = if abortOriginal then field_object "originalPair" r else field_object "targetPair" r))
                "managed binaries changed while resuming" in
    let! _ := if text_eqb old original then pure () else replace (p_owner p) (p_profiles p) original (Some old) 384 in
    let! _ := must_platform PStart "resumed service failed to start" in
    let! final := observe in
    let! installed := pair (p_install p) in
    let! _ := require (bool_decide (field_object "pair" final = installed)
                       && json_same (field "version" final)
                            (if abortOriginal then field "originalVersion" r else field "targetVersion" r)
                       && service_ready final) "resumed service health or identity not confirmed" in
    let! b := read (p_profiles p) MaxProfiles in
    let! _ := require (text_eqb (digest b) (digest original)) "resumed profile policy changed" in
    let r := with_field "resumeObservedService" (JObject final) r in
    let! r := save r "resumed" in
    let! _ := must_platform PRetireUnit "coordinator unit retirement failed" in
    pure (success (lit "resumed") r).

Definition resume : coord CoordResult := attempt "coordinator_resume_failed" resume_body.

(** *** Following the rollback *)

Definition readinessMilliseconds : Z := 15000.

(** [while (monotonicMilliseconds() - readinessStart < 15000)]; the observation
    that showed a healthy target, if any. *)
Fixpoint readiness (fuel : nat) (start : Z) (r : jobject) : coord (option jobject) :=
  let! now := milliseconds in
  if now - start <? readinessMilliseconds then
    match fuel with
    | O => leave OutOfFuel
    | S f =>
        let! _ := targetPair r in
        let! _ := pausedPolicy r in
        let! _ := pendingEvidence r in
        let! observed := observe in
        match healthy observed r false with
        | None => pure (Some observed)
        | Some _ =>
            let! now := milliseconds in
            let! _ := if now - start <? readinessMilliseconds then waitForObservationRetry else pure () in
            readiness f start r
        end
    end
  else pure None.

(** The rounds of 250 milliseconds in 15 seconds. *)
Definition readinessRounds : nat := 61.

(** The target is seen healthy and stopped, now or before an interruption. *)
Definition stopTarget (r : jobject) : coord (jobject * jobject) :=
  let observed := field_object "observed13" r in
  let! before := if bool_decide (observed = []) then pure false else call_platform PStopped in
  if before then
    let! _ := must_be_healthy observed r false in
    let! _ := must_platform (PProcessGone observed) "previous observed service is not proved gone" in
    pure (observed, r)
  else
    let! idle := call_platform PStopped in
    let! _ := if idle then must_platform PStart "pending rollback service did not start" else pure () in
    let! start := milliseconds in
    let! ready := readiness readinessRounds start r in
    match ready with
    | None => throw "rollback target readiness observation deadline exceeded"
    | Some observed =>
        let r := with_field "observed13" (JObject observed) r in
        let! r := save r "old13_observed" in
        let! _ := must_platform (PStopObserved observed) "verified rollback service did not stop" in
        pure (observed, r)
    end.

(** The rollback is acknowledged while the target is stopped. *)
Definition commitRollback (r : jobject) : coord jobject :=
  let! _ := pendingEvidence r in
  let! (observed, r) := stopTarget r in
  let! _ := must_platform PStopped "rollback service not stopped before commit" in
  let! t := timestamp in
  let r := with_field "stopEvidence" (JObject (jobj
    [(lit "verifiedStopped", JBool true); (lit "observedProcessGone", JBool true);
     (lit "observedIdentity", JObject observed); (lit "observedAt", JString t)])) r in
  let! r := save r "old13_stopped" in
  let! _ := targetPair r in
  let! _ := pausedPolicy r in
  let! pendingState := read (p_state p) MaxJson in
  let! pendingJournal := read (journalPath p) MaxJson in
  let! t := timestamp in
  let r := with_field "pendingEvidence" (JObject (jobj
    [(lit "stateBytesBase64", JString (to_base64 pendingState)); (lit "stateSha256", JString (digest pendingState));
     (lit "journalBytesBase64", JString (to_base64 pendingJournal)); (lit "journalSha256", JString (digest pendingJournal));
     (lit "capturedAt", JString t)])) r in
  let! r := save r "coordinator_commit_pending" in
  let! _ := must_platform (PAcknowledge (field_text "targetVersion" r)) "coordinator rollback acknowledgement failed" in
  let! ackState := read (p_state p) MaxJson in
  let! t := timestamp in
  let r := with_field "coordinatorAcknowledgement" (JObject (jobj
    [(lit "authority", JString (lit "retained14Coordinator")); (lit "result", JString (lit "disabled"));
     (lit "returnedSuccessfully", JBool true); (lit "completedAt", JString t);
     (lit "postStateSha256", JString (digest ackState))])) r in
  save r "coordinator_commit_pending".

(** The acknowledgement was made before an interruption. *)
Definition recoverCommit (phase : text) (state r : jobject) : coord jobject :=
  let! _ := require (is_str (field "state" state) "disabled"
                     && json_same (field "lastAppliedVersion" state) (field "targetVersion" r)
                     && (text_eqb phase (lit "coordinator_commit_pending") || text_eqb phase (lit "old13_stopped")))
              "updater state does not match coordinator commit" in
  if jcontains (lit "coordinatorAcknowledgement") r then pure r
  else
    let! t := timestamp in
    let! b := read (p_state p) MaxJson in
    let r := with_field "coordinatorAcknowledgement" (JObject (jobj
      [(lit "authority", JString (lit "retained14Coordinator")); (lit "result", JString (lit "recovered_disabled_poststate"));
       (lit "returnedSuccessfully", JBool false); (lit "observedAt", JString t);
       (lit "postStateSha256", JString (digest b))])) r in
    save r "coordinator_commit_pending".

(** The committed target is started and held. *)
Definition holdTarget (r : jobject) : coord CoordResult :=
  let! state := read_json (p_state p) MaxJson in
  let! _ := require (is_str (field "state" state) "disabled"
                     && json_same (field "lastAppliedVersion" state) (field "targetVersion" r)
                     && is_empty (field_text "lastError" state)) "coordinator commit state invalid" in
  let! pending := exists_file (journalPath p) in
  let! _ := require (negb pending) "updater journal not retired" in
  let! _ := must_platform PStart "acknowledged rollback service start failed" in
  let! final := observe in
  let! _ := must_be_healthy final r true in
  let before := field_object "observed13" r in
  let! _ := require (negb (json_same (field "daemon_pid" final) (field "daemon_pid" before))
                     || negb (json_same (field "start_ticks" final) (field "start_ticks" before)))
              "rollback daemon did not reload coordinator commit" in
  let! _ := pausedPolicy r in
  let r := with_field "acknowledgementAuthority" (JString (lit "retained14Coordinator"))
             (with_field "final13" (JObject final) r) in
  let! r := save r "held" in
  pure (success (lit "held") r).

Definition run_body : coord CoordResult :=
  let! _ := begin in
  let! r := load in
  let! _ := verifyRetained r true in
  let phase := field_text "phase" r in
  if text_eqb phase (lit "prepared") || text_eqb phase (lit "resumed") then pure (success phase r)
  else if text_eqb phase (lit "resume_requested") then resume
  else if text_eqb phase (lit "pause_prepared") then admitRollback
  else
    let! _ := pausedPolicy r in
    if text_eqb phase (lit "held") then
      let! o := observe in
      let! _ := must_be_healthy o r true in
      pure (success (lit "held") r)
    else
      let! _ := require (one_of phase ["profiles_paused"; "rollback_requested"; "old13_observed"; "old13_stopped";
                                       "coordinator_commit_pending"]) "coordinator phase requires explicit recovery" in
      let! state := read_json (p_state p) MaxJson in
      if text_eqb phase (lit "profiles_paused") && negb (is_str (field "state" state) "rollback_restart_pending") then
        let! installed := pair (p_install p) in
        let! _ := require (bool_decide (installed = field_object "originalPair" r))
                    "pause-only operation no longer has original managed pair" in
        pure (success (lit "profiles_paused") r)
      else
        let! _ := targetPair r in
        let! r := if is_str (field "state" state) "rollback_restart_pending" then commitRollback r
                  else recoverCommit phase state r in
        holdTarget r.

Definition run : coord CoordResult := attempt "coordinator_run_failed" run_body.

Definition status_body (self : bool) : coord CoordResult :=
  let! _ := ensureRoot p in
  let! r := load in
  let! _ := verifyRetained r self in
  let! _ := if one_of (field_text "phase" r) ["profiles_paused"; "rollback_requested"; "old13_observed"; "old13_stopped";
                                             "coordinator_commit_pending"; "held"]
            then pausedPolicy r else pure () in
  pure (success (field_text "phase" r) r).

Definition status (self : bool) : coord CoordResult := attempt "coordinator_status_failed" (status_body self).

(** [dispatch]: the exit code of the command line. *)
Definition dispatch (a : list text) : coord Z :=
  match a with
  | [c] =>
      if text_eqb c (lit "run") then let! r := run in pure (if rc_ok r then 0 else 1)
      else if text_eqb c (lit "resume") then let! r := resume in pure (if rc_ok r then 0 else 1)
      else if text_eqb c (lit "status") then let! r := status true in pure (if rc_ok r then 0 else 1)
      else pure 2
  | _ => pure 2
  end.
End coordinator.
