(* ===== verification/RollbackFiles.v ===== *)
(** * What the file operations of the coordinator guarantee

    Hoare rules for RollbackState, on a host whose other processes leave the
    coordinator's record, the profile store and the staging files alone
    ([QuietHost]).  A read returns what is there; a replacement changes its file
    from the expected bytes to the new ones in one step, whatever fails and
    wherever the process ends. *)

From stdpp Require Import gmap.
From S2P Require Import Prelude Text Json QtInterface Command JsonTokens PauseJson JsonText RouteState ProfileStore.
From S2P Require Import RollbackState.
#[local] Open Scope Z_scope.
#[local] Open Scope amnezia_scope.

(** ** Quiet hosts *)

Definition names_wf (fs : Fs) : Prop := ∀ path i, fs_names fs !! path = Some i → is_Some (fs_inodes fs !! i).

Definition guarded (p : Paths) (path : text) : Prop :=
  path = recordPath p ∨ path = p_profiles p
  ∨ staging_in (p_root p) path = true ∨ staging_in (dir_of (p_profiles p)) path = true.

Definition quiet (p : Paths) (fs fs' : Fs) : Prop :=
  names_wf fs → names_wf fs' ∧ ∀ path, guarded p path → file_at path fs' = file_at path fs.

Class QuietHost (W : Type) `{CoordinatorHost W} (p : Paths) : Prop := {
  quiet_sys c fs w : quiet p fs (sys c fs w).1.2;
  quiet_platform op fs w : quiet p fs (platform op fs w).1.2;
  quiet_observe fs w : quiet p fs (observe_host fs w).1.2;
  quiet_wait fs w : quiet p fs (wait_retry fs w).1;
  uuid_plain w : (new_uuid w).1 ≠ [] ∧ contains_char 47 (new_uuid w).1 = false;
}.

Class PathsOk (p : Paths) : Prop := {
  paths_differ : recordPath p ≠ p_profiles p;
  profiles_not_staging d : staging_in d (p_profiles p) = false;
  root_not_profiles : retainedPath p ≠ p_profiles p ∧ p_unit p ≠ p_profiles p ∧ p_unit p ≠ recordPath p;
}.

(** ** Paths *)

Lemma dir_of_in d name : contains_char 47 name = false → dir_of (in_dir d name) = d.
Proof.
  intros Hn. unfold dir_of, in_dir. rewrite !reverse_app, reverse_singleton, <-app_assoc.
  assert (∀ s r, contains_char 47 s = false → drop_while (λ c, negb (c =? 47)) (s ++ r) = drop_while (λ c, negb (c =? 47)) r) as Hd.
  { intros s r. induction s as [|c s IH]; [done|]. intros Hc. unfold contains_char in Hc. cbn [existsb] in Hc.
    apply orb_false_iff in Hc as [Hc Hs]. cbn [app drop_while]. rewrite Z.eqb_sym, Hc. simpl. by apply IH. }
  rewrite Hd.
  - simpl. by rewrite reverse_involutive.
  - apply contains_char_false. apply contains_char_false in Hn. by rewrite elem_of_reverse.
Qed.

Lemma starts_with_app a b c : starts_with (a ++ b) (a ++ c) = starts_with b c.
Proof. induction a as [|x a IH]; [done|]. simpl. by rewrite Z.eqb_refl. Qed.

Lemma starts_with_refl a b : starts_with a (a ++ b) = true.
Proof. rewrite <-(app_nil_r a) at 1. by rewrite starts_with_app. Qed.

Lemma staging_is_staging path uuid : contains_char 47 uuid = false → staging_in (dir_of path) (staging path uuid) = true.
Proof.
  intros Hu. unfold staging_in, staging. unfold in_dir. rewrite !app_assoc, starts_with_refl.
  by rewrite drop_app_length, Hu.
Qed.

Lemma record_not_staging p d : staging_in d (recordPath p) = false.
Proof.
  destruct (staging_in d (recordPath p)) eqn:E; [|done]. exfalso. unfold staging_in in E.
  apply andb_true_iff in E as [Hs Hn]. apply negb_true_iff in Hn. apply starts_with_true in Hs as [r Hr].
  rewrite Hr, drop_app_length in Hn.
  assert (contains_char 47 (stagingPrefix ++ r) = false) as Hc.
  { apply contains_char_false. apply contains_char_false in Hn. rewrite elem_of_app. intros [H|H]; [|done].
    unfold stagingPrefix in H. vm_compute in H. repeat (apply elem_of_cons in H as [H|H]; [lia|]).
    by apply not_elem_of_nil in H. }
  assert (d = p_root p) as ->.
  { rewrite <-(dir_of_in d (stagingPrefix ++ r)) by done. unfold recordPath in Hr.
    rewrite <-(dir_of_in (p_root p) (lit "coordinator.json")) by done. f_equal. rewrite Hr. unfold in_dir.
    by rewrite <-!app_assoc. }
  unfold recordPath, in_dir in Hr. rewrite <-!app_assoc in Hr. apply app_inv_head in Hr. discriminate Hr.
Qed.

(** ** Rules *)

Section rules.
Context {QD : QtData} {W : Type} {H : CoordinatorHost W} (p : Paths) {QH : QuietHost W p} {PO : PathsOk p}.

Notation coord A := (prog (CoordWorld W) exn A).

(** Guarded files with what is in them. *)
Notation entries := (list (text * option (nat * File))).

Definition kept_fs (G : entries) (fs : Fs) : Prop :=
  names_wf fs ∧ Forall (λ e, file_at e.1 fs = e.2) G.
Definition kept (G : entries) (w : CoordWorld W) : Prop := kept_fs G (cw_fs w).
Definition guards (G : entries) : Prop := Forall (λ e, guarded p e.1) G.

Lemma kept_quiet G fs fs' : guards G → quiet p fs fs' → kept_fs G fs → kept_fs G fs'.
Proof.
  intros Hg Hq [Hw Hf]. destruct (Hq Hw) as [Hw' He]. split; [done|].
  apply Forall_forall. intros [path f] Hin. unfold guards in Hg. rewrite Forall_forall in Hg, Hf.
  simpl. rewrite He by (exact (Hg _ Hin)). exact (Hf _ Hin).
Qed.

Lemma kept_file G fs path f : kept_fs G fs → (path, f) ∈ G → file_at path fs = f.
Proof. intros [_ Hf] Hin. rewrite Forall_forall in Hf. exact (Hf _ Hin). Qed.

(** An open name and its inode. *)
Lemma kept_name G fs path f i :
  kept_fs G fs → (path, f) ∈ G → fs_names fs !! path = Some i → ∃ x, f = Some (i, x) ∧ fs_inodes fs !! i = Some x.
Proof.
  intros Hk Hin Hn. pose proof (kept_file G fs path f Hk Hin) as Hf. destruct Hk as [Hw _].
  destruct (Hw path i Hn) as [x Hx]. exists x. split; [|done]. rewrite <-Hf. unfold file_at. rewrite Hn. simpl. by rewrite Hx.
Qed.

Lemma kept_inode G fs path i x : kept_fs G fs → (path, Some (i, x)) ∈ G → fs_names fs !! path = Some i ∧ fs_inodes fs !! i = Some x.
Proof.
  intros Hk Hin. pose proof (kept_file G fs path _ Hk Hin) as Hf. unfold file_at in Hf.
  destruct (fs_names fs !! path) as [j|] eqn:En; [|done]. simpl in Hf.
  destruct (fs_inodes fs !! j) as [y|] eqn:Ei; [|done]. simpl in Hf. by simplify_eq.
Qed.

Section calls.
Context (G : entries) (HG : guards G).

Lemma keeps_syscall c : keeps (kept G) (syscall c).
Proof.
  intros w Hw. unfold syscall. pose proof (quiet_sys c (cw_fs w) (cw_outer w)) as Hq.
  destruct (sys c (cw_fs w) (cw_outer w)) as [[o fs] outer]. pose proof (kept_quiet G _ _ HG Hq Hw) as Hk.
  by destruct o.
Qed.

Lemma keeps_transfer c : keeps (kept G) (transfer c).
Proof.
  intros w Hw. unfold transfer. pose proof (quiet_sys c (cw_fs w) (cw_outer w)) as Hq.
  destruct (sys c (cw_fs w) (cw_outer w)) as [[o fs] outer]. pose proof (kept_quiet G _ _ HG Hq Hw) as Hk.
  by destruct o.
Qed.

Lemma keeps_require {I : CoordWorld W → Prop} b m : keeps I (require b m).
Proof. destruct b; intros w Hw; exact Hw. Qed.

Lemma keeps_throw {A} {I : CoordWorld W → Prop} m : keeps I (throw (A := A) m).
Proof. by intros w Hw. Qed.

Lemma keeps_must c m : keeps (kept G) (must c m).
Proof. apply k_bind; [apply keeps_syscall|]. intros [n|]; [apply k_pure|apply keeps_throw]. Qed.

Lemma keeps_some_or {A} {I : CoordWorld W → Prop} (o : option A) m : keeps I (some_or o m).
Proof. destruct o; intros w Hw; exact Hw. Qed.

Lemma keeps_fresh next : keeps (kept G) (fresh_text next).
Proof. intros w Hw. unfold fresh_text. by destruct (next (cw_outer w)). Qed.
End calls.

(** Remembers a value read from the file system. *)
Lemma h_get_fs (P : CoordWorld W → Prop) {A} (k : Fs → coord A) Q X :
  (∀ fs, hoare (λ w, P w ∧ fs = cw_fs w) (k fs) Q X) → hoare P (cmd_bind get_fs k) Q X.
Proof. intros Hk. eapply (h_bind _ _ _ (λ fs w, P w ∧ fs = cw_fs w)); [by apply h_gets|done]. Qed.

Lemma h_some_or {A B} (P : CoordWorld W → Prop) (o : option A) m (k : A → coord B) Q X :
  (∀ a, o = Some a → hoare P (k a) Q X) → (∀ w, P w → X (Throw (lit m)) w) → hoare P (cmd_bind (some_or o m) k) Q X.
Proof. intros Hk Hx. destruct o as [a|]; [exact (Hk a eq_refl)|]. intros w Hw. by apply Hx. Qed.

Lemma h_require {B} (P : CoordWorld W → Prop) b m (k : () → coord B) Q X :
  (b = true → hoare P (k ()) Q X) → (∀ w, P w → X (Throw (lit m)) w) → hoare P (cmd_bind (require b m) k) Q X.
Proof. intros Hk Hx. destruct b; [exact (Hk eq_refl)|]. intros w Hw. by apply Hx. Qed.

(** A step that keeps the precondition. *)
Lemma h_keep {A B} (P : CoordWorld W → Prop) (m : coord A) (k : A → coord B) Q X :
  keeps P m → (∀ a, hoare P (k a) Q X) → (∀ e w, P w → X e w) → hoare P (cmd_bind m k) Q X.
Proof.
  intros Hm Hk Hx. eapply (h_bind _ _ _ (λ _, P)); [|exact Hk].
  eapply h_conseq; [exact Hm|done|done|exact Hx].
Qed.

Lemma keeps_transfer_loop {S A} (I : CoordWorld W → Prop) size (body : S → coord (S + A)) s :
  (∀ s, keeps I (body s)) → keeps I (transfer_loop size body s).
Proof.
  intros Hb. apply (h_transfer_loop (λ _, I)); [|done]. intros s'. eapply h_conseq; [apply Hb|done| |done].
  by intros [s2|a] w Hw.
Qed.

(** The read loop on a file that stays as it is. *)
Lemma read_loop_rule G path limit i x size :
  guards G → (path, Some (i, x)) ∈ G → tsize (f_bytes x) <= limit →
  hoare (kept G) (transfer_loop size (read_round path i limit) [])
    (λ bytes w, kept G w ∧ bytes = f_bytes x) (λ _, kept G).
Proof.
  intros HG Hin Hlim. set (I := λ (bytes : text) w, kept G w ∧ bytes = take (length bytes) (f_bytes x)).
  apply (h_pre (I [])); [by intros w Hw|]. apply h_transfer_loop; [|by intros s w [Hw _]]. intros bytes.
  apply (h_pre (λ w, bytes = take (length bytes) (f_bytes x) ∧ kept G w)); [by intros w [? ?]|].
  apply h_fact. intros Hb. unfold read_round. apply h_keep; [by apply keeps_transfer|intros r|done].
  destruct r as [n| |]; [|by apply h_ret|by intros w Hw].
  apply h_get_fs. intros fs. apply h_some_or; [|by intros w [? _]]. intros f Hf.
  eapply (h_pre (λ w, f = x ∧ kept G w)).
  { intros w [Hk ->]. destruct (kept_inode G _ path i x Hk Hin). split; [congruence|done]. }
  apply h_fact. intros ->. cbv zeta. set (k := Nat.max 1 _).
  destruct (take k (drop (length bytes) (f_bytes x))) as [|c data] eqn:E.
  - apply h_ret. intros w Hw. split; [done|]. rewrite Hb. apply take_ge.
    assert (length (take k (drop (length bytes) (f_bytes x))) = 0%nat) as Hl by by rewrite E.
    rewrite length_take, length_drop in Hl. unfold k in Hl. lia.
  - apply h_require; [|done]. intros _. apply h_ret. intros w Hw. split; [done|]. rewrite <-E, length_app.
    rewrite Hb at 1. rewrite take_take_drop. rewrite length_take, length_drop. unfold k. set (K := Nat.max 1 _).
    destruct (Nat.le_gt_cases K (length (f_bytes x) - length bytes)); [by rewrite Nat.min_l by lia|].
    rewrite Nat.min_r by lia. rewrite !take_ge by lia. done.
Qed.

Lemma readProtected_rule G owner path limit f :
  guards G → (path, f) ∈ G →
  hoare (kept G) (readProtected owner path limit)
    (λ r w, kept G w ∧ ∃ i x, f = Some (i, x) ∧ r = (f_bytes x, stat_of i x) ∧ tsize (f_bytes x) <= limit)
    (λ _, kept G).
Proof.
  intros HG Hin. unfold readProtected.
  apply h_keep; [unfold parentFd; apply k_bind; [by apply keeps_must|intros _];
    apply k_bind; [by apply keeps_must|intros _; apply k_pure]|intros _|done].
  apply h_keep; [by apply keeps_must|intros _|done].
  apply h_get_fs. intros fs. apply h_some_or; [|by intros w [? _]]. intros i Hi.
  destruct f as [[i' x]|].
  2: { intros w [Hk ->]. exfalso. destruct (kept_name G _ _ _ _ Hk Hin Hi) as (x & [=] & _). }
  eapply (h_pre (λ w, i' = i ∧ kept G w)).
  { intros w [Hk ->]. destruct (kept_name G _ _ _ _ Hk Hin Hi) as (y & [= -> ->] & _). done. }
  apply h_fact. intros ->.
  assert (∀ fs w, kept G w ∧ fs = cw_fs w → fs_inodes fs !! i = Some x ∧ file_at path fs = Some (i, x)) as Hread.
  { intros fs' w [Hk ->]. split; [by apply (kept_inode G _ path i x Hk)|by apply (kept_file G)]. }
  apply h_keep; [by apply keeps_must|intros _|done].
  apply h_get_fs. intros fs1. apply h_some_or; [|by intros w [? _]]. intros f1 Hf1.
  apply h_require; [|by intros w [? _]]. intros Hsafe. cbv zeta.
  eapply (h_pre (λ w, f1 = x ∧ kept G w)).
  { intros w Hw. destruct (Hread _ _ Hw) as [Hx _]. destruct Hw. split; [congruence|done]. }
  apply h_fact. intros ->. apply andb_true_iff in Hsafe as [_ Hlim%Z.leb_le].
  eapply (h_bind _ _ _ (λ bytes w, bytes = f_bytes x ∧ kept G w)).
  { eapply h_conseq; [by apply (read_loop_rule G path limit i x)|done|by intros bytes w [? ?]|done]. }
  intros bytes. apply h_fact. intros ->.
  apply h_keep; [by apply keeps_must|intros _|done].
  apply h_get_fs. intros fs3. apply h_some_or; [|by intros w [? _]]. intros f3 _.
  apply h_some_or; [|by intros w [? _]]. intros [j named] _.
  apply h_require; [|by intros w [? _]]. intros _.
  apply h_ret. intros w [Hk _]. split; [done|]. exists i, x. bprop. done.
Qed.

Lemma keeps_readProtected G owner path limit : guards G → keeps (kept G) (readProtected owner path limit).
Proof.
  intros HG. unfold readProtected, read_round, parentFd, get_fs.
  repeat (cbv zeta beta; first
    [apply keeps_must; exact HG|apply keeps_transfer; exact HG|apply keeps_throw|apply keeps_transfer_loop; intros ?|apply keeps_require|apply keeps_some_or|apply k_gets|apply k_pure|apply k_bind; [|intros ?]
    |match goal with |- keeps _ (match ?x with _ => _ end) => destruct x end]).
Qed.

(** *** Changes of the file system *)

Lemma file_at_set_file path i f fs :
  fs_names fs !! path ≠ Some i → file_at path (set_file i f fs) = file_at path fs.
Proof.
  unfold file_at, set_file. simpl. intros Hn. destruct (fs_names fs !! path) as [j|]; [|done]. simpl.
  rewrite lookup_insert_ne; [done|congruence].
Qed.

Lemma file_at_set_file_eq path i f fs : fs_names fs !! path = Some i → file_at path (set_file i f fs) = Some (i, f).
Proof. unfold file_at, set_file. simpl. intros ->. simpl. by rewrite lookup_insert_eq. Qed.

Lemma set_file_wf i f fs : names_wf fs → names_wf (set_file i f fs).
Proof.
  intros Hw path j Hj. simpl in *. destruct (decide (i = j)) as [->|]; [rewrite lookup_insert_eq; by eexists|].
  rewrite lookup_insert_ne by done. by apply (Hw path).
Qed.

(** The inode of a staging file is not the inode of a kept file. *)
Definition apart (i : nat) (G : entries) : Prop := ∀ path j x, (path, Some (j, x)) ∈ G → j ≠ i.

Lemma apart_name i G fs path f :
  apart i G → kept_fs G fs → (path, f) ∈ G → fs_names fs !! path ≠ Some i.
Proof.
  intros Ha Hk Hin Hn. destruct (kept_name G fs path f i Hk Hin Hn) as (x & -> & _). by apply (Ha path i x).
Qed.

Lemma kept_app G1 G2 fs : kept_fs (G1 ++ G2) fs ↔ kept_fs G1 fs ∧ kept_fs G2 fs.
Proof. unfold kept_fs. rewrite Forall_app. tauto. Qed.

Lemma kept_write G temp i x y fs :
  apart i G → kept_fs (G ++ [(temp, Some (i, x))]) fs → kept_fs (G ++ [(temp, Some (i, y))]) (set_file i y fs).
Proof.
  intros Ha [Hk Ht]%kept_app. apply kept_app. pose proof (set_file_wf i y fs (proj1 Hk)) as Hw. split.
  - split; [done|]. apply Forall_forall. intros [path f] Hin. simpl.
    rewrite file_at_set_file; [by apply (kept_file G)|by eapply apart_name].
  - split; [done|]. constructor; [|done]. simpl. apply file_at_set_file_eq.
    by apply (kept_inode [(temp, Some (i, x))] fs temp i x Ht); constructor.
Qed.

Lemma kept_create G temp i y fs :
  kept_fs G fs → temp ∉ map fst G → fs_inodes fs !! i = None →
  kept_fs (G ++ [(temp, Some (i, y))]) (set_file i y (set_names (<[temp := i]>) fs)) ∧ apart i G.
Proof.
  intros Hk Ht Hi. assert (apart i G) as Ha.
  { intros path j x Hin ->. destruct (kept_inode G fs path i x Hk Hin) as [_ Hx]. congruence. }
  split; [|done]. apply kept_app.
  assert (names_wf (set_file i y (set_names (<[temp := i]>) fs))) as Hw.
  { intros path j Hj. simpl in *. destruct (decide (temp = path)) as [->|Hne].
    - rewrite lookup_insert_eq in Hj. simplify_eq. rewrite lookup_insert_eq. by eexists.
    - rewrite lookup_insert_ne in Hj by done. destruct Hk as [Hw _]. destruct (Hw path j Hj) as [x Hx].
      destruct (decide (i = j)) as [->|]; [rewrite lookup_insert_eq|rewrite lookup_insert_ne by done]; by eexists. }
  split; (split; [done|]).
  - apply Forall_forall. intros [path f] Hin. simpl.
    assert (temp ≠ path) as Hne by (intros ->; apply Ht; by apply (list_elem_of_fmap_2 fst _ (path, f))).
    rewrite <-(kept_file G fs path f Hk Hin). unfold file_at. simpl. rewrite lookup_insert_ne by done.
    destruct (fs_names fs !! path) as [j|] eqn:En; [|done]. simpl. rewrite lookup_insert_ne; [done|].
    intros ->. by apply (apart_name j G fs path f Ha Hk Hin).
  - constructor; [|done]. simpl. unfold file_at. simpl. rewrite lookup_insert_eq. simpl. by rewrite lookup_insert_eq.
Qed.

Lemma kept_exchange g fg G temp ft fs :
  g ≠ temp → g ∉ map fst G → temp ∉ map fst G →
  kept_fs ((g, Some fg) :: G ++ [(temp, Some ft)]) fs →
  kept_fs ((g, Some ft) :: G ++ [(temp, Some fg)]) (set_names (exchange_names temp g) fs).
Proof.
  intros Hne Hg Ht [Hw Hf]. inversion Hf as [|? ? Hgf Hr]; subst. apply Forall_app in Hr as [HG Hr].
  inversion Hr as [|? ? Htf _]; subst. simpl in Hgf, Htf. destruct fg as [j y], ft as [i x].
  unfold file_at in Hgf, Htf.
  destruct (fs_names fs !! g) as [j'|] eqn:Eg; [|done]. destruct (fs_names fs !! temp) as [i'|] eqn:Et; [|done].
  simpl in Hgf, Htf. destruct (fs_inodes fs !! j') as [y'|] eqn:Ey; [|done].
  destruct (fs_inodes fs !! i') as [x'|] eqn:Ex; [|done]. simpl in Hgf, Htf. simplify_eq.
  assert (∀ path, fs_names (set_names (exchange_names temp g) fs) !! path =
    if decide (path = temp) then Some j else if decide (path = g) then Some i else fs_names fs !! path) as Hn.
  { intros path. unfold set_names, exchange_names. simpl. rewrite Et, Eg.
    destruct (decide (path = temp)) as [->|]; [by rewrite lookup_insert_eq|]. rewrite lookup_insert_ne by done.
    destruct (decide (path = g)) as [->|]; [by rewrite lookup_insert_eq|]. by rewrite lookup_insert_ne. }
  split.
  - intros path k. rewrite Hn. simpl. repeat case_decide; intros; simplify_eq; [by eexists..|]. by apply (Hw path).
  - constructor; [|apply Forall_app; split; [|constructor; [|done]]].
    + simpl. unfold file_at. rewrite Hn. rewrite decide_False, decide_True by done. simpl. by rewrite Ex.
    + apply Forall_forall. intros [path f] Hin. rewrite Forall_forall in HG. specialize (HG _ Hin). simpl in *.
      assert (path ∈ map fst G) as Hp by (by apply (list_elem_of_fmap_2 fst _ (path, f))).
      rewrite <-HG. unfold file_at. rewrite Hn. rewrite !decide_False by (intros ->; done). done.
    + simpl. unfold file_at. rewrite Hn. rewrite decide_True by done. simpl. by rewrite Ey.
Qed.

Lemma kept_delete G temp fs : temp ∉ map fst G → kept_fs G fs → kept_fs G (set_names (delete temp) fs).
Proof.
  intros Ht Hk. split.
  - intros path i Hi. simpl in *. apply lookup_delete_Some in Hi as [_ Hi]. by apply (proj1 Hk path).
  - apply Forall_forall. intros [path f] Hin. simpl. rewrite <-(kept_file G fs path f Hk Hin).
    unfold file_at. simpl. rewrite lookup_delete_ne; [done|]. intros ->. apply Ht.
    by apply (list_elem_of_fmap_2 fst _ (path, f)).
Qed.

(** ** Replacing a file *)

(** Paths that are no staging files. *)
Definition unstaged (G : entries) : Prop := ∀ d path, path ∈ map fst G → staging_in d path = false.

Lemma unstaged_fresh G d temp : unstaged G → staging_in d temp = true → temp ∉ map fst G.
Proof. intros Hu Ht Hin. by rewrite (Hu d temp Hin) in Ht. Qed.

(** The staging file [temp] holds [c]. *)
Definition staged_as (G : entries) (temp : text) (i : nat) (c : text) (w : CoordWorld W) : Prop :=
  ∃ x, f_bytes x = c ∧ kept (G ++ [(temp, Some (i, x))]) w.

Lemma staged_kept G temp i c w : staged_as G temp i c w → kept G w.
Proof. intros (x & _ & Hk). by apply kept_app in Hk as [Hk _]. Qed.

Lemma create_rule G owner temp :
  guards G → temp ∉ map fst G →
  hoare (kept G) (create owner temp) (λ i w, apart i G ∧ staged_as G temp i [] w) (λ _, kept G).
Proof.
  intros HG Ht. unfold create. apply h_keep; [by apply keeps_must|intros _|done]. apply h_get_fs. intros fs.
  destruct (fs_names fs !! temp) eqn:En; [by intros w [Hw _]|].
  set (i := fresh (dom (fs_inodes fs))).
  assert (fs_inodes fs !! i = None) as Hi by (apply not_elem_of_dom, is_fresh).
  intros w [Hk ->]. unfold cmd_bind, put_fs, cmd_modify, pure, cmd_ret. 
  destruct (kept_create G temp i (MkFile [] true owner 1 384 (0, 0)) _ Hk Ht Hi) as [Hk' Ha].
  split; [done|]. eexists. split; [|exact Hk']. done.
Qed.

Lemma guards_staged G temp i x : guards (G ++ [(temp, None)]) → guards (G ++ [(temp, Some (i, x))]).
Proof.
  unfold guards. rewrite !Forall_app. intros [H1 H2]. split; [done|]. inversion H2; subst. by constructor.
Qed.

Lemma keeps_must_staged G temp i c s m :
  guards (G ++ [(temp, None)]) → keeps (staged_as G temp i c) (must s m).
Proof.
  intros HG w (x & Hx & Hk). pose proof (keeps_must _ (guards_staged G temp i x HG) s m w Hk) as R.
  destruct (must s m w) as [[n|e] w']; by exists x.
Qed.

(** The inode of the staging file changes. *)
Lemma staged_file_update G temp i c c' (upd : File → File) :
  apart i G → (∀ x, f_bytes x = c → f_bytes (upd x) = c') →
  hoare (staged_as G temp i c)
    (put_fs (λ fs, match fs_inodes fs !! i with Some g => set_file i (upd g) fs | None => fs end))
    (λ _, staged_as G temp i c') (λ _ _, False).
Proof.
  intros Ha Hu w (x & Hx & Hk). cbn. pose proof Hk as [_ Ht]%kept_app.
  destruct (kept_inode _ _ temp i x Ht ltac:(constructor)) as [_ Hi]. rewrite Hi.
  exists (upd x). split; [by apply Hu|]. by apply (kept_write G temp i x).
Qed.

Lemma keeps_transfer_staged G temp i c s :
  guards (G ++ [(temp, None)]) → keeps (staged_as G temp i c) (transfer s).
Proof.
  intros HG w (x & Hx & Hk). pose proof (keeps_transfer _ (guards_staged G temp i x HG) s w Hk) as R.
  destruct (transfer s w) as [[n|e] w']; by exists x.
Qed.

Lemma write_rule G temp i bytes :
  guards (G ++ [(temp, None)]) → apart i G →
  hoare (staged_as G temp i []) (write_loop temp i bytes) (λ _, staged_as G temp i bytes) (λ _, kept G).
Proof.
  intros HG Ha. set (I := λ used w, (used ≤ length bytes)%nat ∧ staged_as G temp i (take used bytes) w).
  apply (h_pre (I 0%nat)); [intros w Hw; split; [lia|by rewrite take_0]|].
  apply h_transfer_loop; [|by intros used w [_ Hw%staged_kept]]. intros used. apply h_fact. intros Hu. unfold write_round.
  destruct (used <? length bytes)%nat eqn:E; [|apply Nat.ltb_ge in E; apply h_ret; intros w Hw; by rewrite take_ge in Hw by lia].
  apply Nat.ltb_lt in E. apply h_keep; [by apply keeps_transfer_staged|intros r|intros e w; apply staged_kept].
  destruct r as [n0| |]; [|by apply h_ret|intros w Hw; by eapply staged_kept].
  cbv zeta. set (n := Nat.min n0 (length bytes - used)).
  apply h_require; [|intros w; apply staged_kept]. intros Hn%Nat.ltb_lt.
  eapply (h_bind _ _ _ (λ _, staged_as G temp i (take (used + n) bytes))).
  - eapply h_conseq; [eapply (staged_file_update G temp i (take used bytes) (take (used + n) bytes)); [done|]|done|done|done].
    intros x Hx. simpl. rewrite Hx. apply take_take_drop.
  - intros []. apply h_ret. intros w Hw. split; [unfold n; lia|done].
Qed.

Lemma stage_rule G owner path bytes mode :
  guards G → unstaged G → (∀ temp, staging_in (dir_of path) temp = true → guarded p temp) →
  hoare (kept G) (stage owner path bytes mode)
    (λ temp w, staging_in (dir_of path) temp = true ∧ ∃ i, apart i G ∧ staged_as G temp i bytes w) (λ _, kept G).
Proof.
  intros HG HU Hd. unfold stage.
  apply h_keep; [unfold parentFd; apply k_bind; [by apply keeps_must|intros _];
    apply k_bind; [by apply keeps_must|intros _; apply k_pure]|intros _|done].
  eapply (h_bind _ _ _ (λ u w, contains_char 47 u = false ∧ kept G w)).
  { intros w Hw. unfold fresh_text. pose proof (uuid_plain (p := p) (cw_outer w)) as [_ Hu].
    destruct (new_uuid (cw_outer w)) as [u outer]. done. }
  intros u. apply h_fact. intros Hu. cbv zeta. set (temp := staging path u).
  pose proof (staging_is_staging path u Hu) as Hs. fold temp in Hs.
  pose proof (unstaged_fresh G _ temp HU Hs) as Ht.
  assert (guards (G ++ [(temp, None)])) as HG' by (apply Forall_app; split; [done|constructor; [by apply Hd|done]]).
  eapply h_bind; [by apply create_rule|]. intros i. apply h_fact. intros Ha.
  eapply (h_bind _ _ _ (λ _, staged_as G temp i bytes)).
  { eapply h_pre; [|apply (write_rule G temp i bytes HG' Ha)]. by intros w Hw. }
  intros _. apply h_keep; [by apply keeps_must_staged|intros _|intros e w; apply staged_kept].
  eapply (h_bind _ _ _ (λ _, staged_as G temp i bytes)).
  { eapply h_conseq; [apply (staged_file_update G temp i bytes bytes (λ g, MkFile (f_bytes g) (f_regular g) (f_uid g) (f_nlink g) mode (f_mtim g)) Ha); done
    |done|done|done]. }
  intros _. apply h_keep; [by apply keeps_must_staged|intros _|intros e w; apply staged_kept].
  apply h_ret. intros w Hw. split; [done|]. by exists i.
Qed.

(** The file [g] was [fg] and now holds [bytes]. *)
Definition rewritten_to (g : text) (G : entries) (bytes : text) (w : CoordWorld W) : Prop :=
  ∃ i x, f_bytes x = bytes ∧ kept ((g, Some (i, x)) :: G) w.

Lemma commit_exchange_rule g fg G owner temp i bytes e :
  guards ((g, fg) :: G ++ [(temp, None)]) → g ∉ map fst G → temp ∉ map fst ((g, fg) :: G) →
  hoare (staged_as ((g, fg) :: G) temp i bytes) (commit_exchange owner g temp e)
    (λ _ w, (∃ j y, fg = Some (j, y) ∧ f_bytes y = e) ∧ rewritten_to g G bytes w)
    (λ _ w, kept ((g, fg) :: G) w ∨ (∃ j y, fg = Some (j, y) ∧ f_bytes y = e) ∧ rewritten_to g G bytes w).
Proof.
  intros HG Hg Ht. unfold commit_exchange. set (P := staged_as ((g, fg) :: G) temp i bytes).
  assert (∀ e w, P w → kept ((g, fg) :: G) w ∨ (∃ j y, fg = Some (j, y) ∧ f_bytes y = e) ∧ rewritten_to g G bytes w) as HP
    by (intros e' w Hw; left; by eapply staged_kept).
  assert (guards (((g, fg) :: G) ++ [(temp, None)])) as HG' by done.
  (* the expected bytes are there *)
  eapply (h_bind _ _ _ (λ r w, (∃ j y, fg = Some (j, y) ∧ r = (f_bytes y, stat_of j y)) ∧ P w)).
  { intros w (x & Hx & Hk).
    pose proof (readProtected_rule _ owner g MaxFile fg (guards_staged _ temp i x HG') ltac:(constructor) w Hk) as R.
    destruct (readProtected owner g MaxFile w) as [[r|e'] w']; [|by apply HP; exists x].
    destruct R as (Hk' & j & y & -> & -> & _). split; [by exists j, y|]. by exists x. }
  intros r. apply h_fact. intros (j & y & Hfg & ->). cbn [fst snd].
  apply h_require; [|by intros w Hw; left; eapply staged_kept]. intros He%text_eqb_eq.
  assert (∃ j y, fg = Some (j, y) ∧ f_bytes y = e) as Hexp by (by exists j, y).
  apply h_keep; [by apply keeps_must_staged|intros _|by intros e' w Hw; left; eapply staged_kept].
  apply h_get_fs. intros fs. apply h_require; [|by intros w [Hw _]; left; eapply staged_kept]. intros _.
  (* the exchange *)
  set (G2 := ((g, None) :: G) : entries).
  set (P2 := λ w, ∃ x, f_bytes x = bytes ∧ kept ((g, Some (i, x)) :: G ++ [(temp, Some (j, y))]) w).
  eapply (h_bind _ _ _ (λ _, P2)).
  { intros w [(x & Hx & Hk) _]. cbn. exists x. split; [done|]. subst fg.
    apply kept_exchange; [intros ->; apply Ht; constructor|done|by intros ?; apply Ht; constructor|exact Hk]. }
  intros _.
  assert (∀ x, guards ((g, Some (i, x)) :: G ++ [(temp, Some (j, y))])) as HG2.
  { intros x. unfold guards in *. inversion HG as [|? ? Hgg Hr]; subst. constructor; [done|].
    apply Forall_app in Hr as [? Hr]. apply Forall_app. split; [done|]. inversion Hr; subst. by constructor. }
  assert (∀ w, P2 w → rewritten_to g G bytes w) as HP2.
  { intros w (x & Hx & Hk). exists i, x. split; [done|]. unfold kept in *.
    change ((g, Some (i, x)) :: G ++ [(temp, Some (j, y))]) with (((g, Some (i, x)) :: G) ++ [(temp, Some (j, y))]) in Hk.
    by apply kept_app in Hk as [Hk _]. }
  assert (∀ s m, keeps P2 (must s m)) as Hmust.
  { intros s m w (x & Hx & Hk). pose proof (keeps_must _ (HG2 x) s m w Hk) as R.
    destruct (must s m w) as [[n|e'] w']; by exists x. }
  apply h_keep; [by apply Hmust|intros _|by intros e' w Hw; right; split; [|apply HP2]].
  (* the displaced bytes *)
  eapply (h_bind _ _ _ (λ r w, P2 w)).
  { intros w (x & Hx & Hk).
    pose proof (keeps_readProtected _ owner temp MaxFile (HG2 x) w Hk) as R.
    destruct (readProtected owner temp MaxFile w) as [[r|e'] w']; [by exists x|]. right. split; [done|]. apply HP2. by exists x. }
  intros r. apply h_require; [|by intros w Hw; right; split; [|apply HP2]]. intros _.
  apply h_keep; [by apply Hmust|intros _|by intros e' w Hw; right; split; [|apply HP2]].
  intros w Hw. cbn. split; [done|]. destruct (HP2 w Hw) as (i' & x & Hx & Hk). exists i', x. split; [done|].
  by apply kept_delete.
Qed.

Lemma commit_rename_rule g G temp i bytes :
  guards ((g, None) :: G ++ [(temp, None)]) → g ∉ map fst G → temp ∉ map fst ((g, None) :: G) →
  hoare (staged_as ((g, None) :: G) temp i bytes) (commit_rename g temp)
    (λ _ w, rewritten_to g G bytes w) (λ _ w, kept ((g, None) :: G) w).
Proof.
  intros HG Hg Ht. unfold commit_rename. assert (guards (((g, None) :: G) ++ [(temp, None)])) as HG' by done.
  apply h_keep; [by apply keeps_must_staged|intros _|by intros e' w Hw; eapply staged_kept].
  apply h_get_fs. intros fs. destruct (bool_decide (fs_names fs !! g = None)) eqn:Eb.
  2: { intros w [Hw _]. by eapply staged_kept. }
  intros w [(x & Hx & Hk) ->]. cbn. exists i, x. split; [done|]. bprop. rename Eb into En.
  pose proof Hk as [Hk1 Hk2]%kept_app. destruct (kept_inode _ _ temp i x Hk2 ltac:(constructor)) as [Hn Hi].
  unfold kept, rename_names. cbn [cw_fs]. destruct Hk1 as [Hw HF]. inversion HF as [|? ? _ HG0]; subst. split.
  - intros path k. unfold set_names. cbn [fs_names fs_inodes]. rewrite Hn. destruct (decide (g = path)) as [->|].
    + rewrite lookup_insert_eq. intros [= <-]. by eexists.
    + rewrite lookup_insert_ne by done. intros [_ Hl]%lookup_delete_Some. by apply (Hw path).
  - constructor.
    + simpl. unfold file_at, set_names. cbn [fs_names fs_inodes]. rewrite Hn, lookup_insert_eq. simpl. by rewrite Hi.
    + apply Forall_forall. intros [path f] Hin. rewrite Forall_forall in HG0. specialize (HG0 _ Hin). simpl in *.
      assert (path ∈ map fst G) as Hp by (by apply (list_elem_of_fmap_2 fst _ (path, f))).
      rewrite <-HG0. unfold file_at, set_names. cbn [fs_names fs_inodes]. rewrite Hn, lookup_insert_ne by (intros ->; done).
      rewrite lookup_delete_ne; [done|]. intros ->. apply Ht. by constructor.
Qed.

Definition staging_guarded (path : text) : Prop := ∀ temp, staging_in (dir_of path) temp = true → guarded p temp.

Lemma rewritten_must g G bytes s m :
  guards ((g, None) :: G) → keeps (rewritten_to g G bytes) (must s m).
Proof.
  intros HG w (i & x & Hx & Hk). assert (guards ((g, Some (i, x)) :: G)) as HG'
    by (inversion HG; subst; by constructor).
  pose proof (keeps_must _ HG' s m w Hk) as R. destruct (must s m w) as [[n|e] w']; by exists i, x.
Qed.

(** A file is replaced when it holds the expected bytes; on every other way out
    it is what it was, or was the expected one and is the new one. *)
Lemma replace_rule g fg G owner bytes e mode :
  guards ((g, fg) :: G) → unstaged ((g, fg) :: G) → g ∉ map fst G → staging_guarded g →
  hoare (kept ((g, fg) :: G)) (replace owner g bytes (Some e) mode)
    (λ _ w, (∃ j y, fg = Some (j, y) ∧ f_bytes y = e) ∧ rewritten_to g G bytes w)
    (λ _ w, kept ((g, fg) :: G) w ∨ (∃ j y, fg = Some (j, y) ∧ f_bytes y = e) ∧ rewritten_to g G bytes w).
Proof.
  intros HG HU Hg Hs. unfold replace.
  eapply (h_bind _ _ _ (λ temp w, staging_in (dir_of g) temp = true ∧ ∃ i, apart i ((g, fg) :: G) ∧ staged_as ((g, fg) :: G) temp i bytes w)).
  { eapply h_conseq; [by apply stage_rule|done|done|]. intros e' w Hw. by left. }
  intros temp. apply h_fact. intros Ht.
  pose proof (unstaged_fresh _ _ temp HU Ht) as Hn.
  assert (guards ((g, fg) :: G ++ [(temp, None)])) as HG'.
  { change ((g, fg) :: G ++ [(temp, None)]) with (((g, fg) :: G) ++ [(temp, None)]).
    apply Forall_app. split; [done|]. constructor; [by apply Hs|done]. }
  eapply (h_bind _ _ _ (λ _ w, (∃ j y, fg = Some (j, y) ∧ f_bytes y = e) ∧ rewritten_to g G bytes w)).
  { intros w (i & _ & Hw). exact (commit_exchange_rule g fg G owner temp i bytes e HG' Hg Hn w Hw). }
  intros _. apply h_fact. intros Hexp.
  assert (guards ((g, None) :: G)) as HG0 by (inversion HG; subst; by constructor).
  apply h_keep; [by apply rewritten_must|intros _|intros e' w Hw; by right]. by apply h_ret.
Qed.

Lemma replace_new_rule g G owner bytes mode :
  guards ((g, None) :: G) → unstaged ((g, None) :: G) → g ∉ map fst G → staging_guarded g →
  hoare (kept ((g, None) :: G)) (replace owner g bytes None mode)
    (λ _ w, rewritten_to g G bytes w) (λ _ w, kept ((g, None) :: G) w ∨ rewritten_to g G bytes w).
Proof.
  intros HG HU Hg Hs. unfold replace.
  eapply (h_bind _ _ _ (λ temp w, staging_in (dir_of g) temp = true ∧ ∃ i, apart i ((g, None) :: G) ∧ staged_as ((g, None) :: G) temp i bytes w)).
  { eapply h_conseq; [by apply stage_rule|done|done|]. intros e' w Hw. by left. }
  intros temp. apply h_fact. intros Ht.
  pose proof (unstaged_fresh _ _ temp HU Ht) as Hn.
  assert (guards ((g, None) :: G ++ [(temp, None)])) as HG'.
  { change ((g, None) :: G ++ [(temp, None)]) with ((((g, None) :: G) ++ [(temp, None)]) : entries).
    apply Forall_app. split; [done|]. constructor; [by apply Hs|done]. }
  eapply (h_bind _ _ _ (λ _ w, rewritten_to g G bytes w)).
  { intros w (i & _ & Hw). pose proof (commit_rename_rule g G temp i bytes HG' Hg Hn w Hw) as R.
    destruct (commit_rename g temp w) as [[]]; [done|by left]. }
  intros _. apply h_keep; [by apply rewritten_must|intros _|intros e' w Hw; by right]. by apply h_ret.
Qed.

(** *** Replacing another file *)

(** Names move between other paths. *)
Lemma kept_names (G : entries) (f : gmap text nat → gmap text nat) fs :
  (∀ path, path ∈ map fst G → f (fs_names fs) !! path = fs_names fs !! path) →
  (∀ path i, f (fs_names fs) !! path = Some i → ∃ path', fs_names fs !! path' = Some i) →
  kept_fs G fs → kept_fs G (set_names f fs).
Proof.
  intros H1 H2 Hk. split.
  - intros path i Hi. destruct (H2 path i Hi) as [path' Hi']. by apply (proj1 Hk path').
  - apply Forall_forall. intros [path x] Hin. simpl. rewrite <-(kept_file G fs path x Hk Hin). unfold file_at. simpl.
    rewrite H1; [done|]. by apply (list_elem_of_fmap_2 fst _ (path, x)).
Qed.

Lemma exchange_other a b m path : path ≠ a → path ≠ b → exchange_names a b m !! path = m !! path.
Proof.
  intros Ha Hb. unfold exchange_names. destruct (m !! a); [|done]. destruct (m !! b); [|done].
  by rewrite !lookup_insert_ne.
Qed.

Lemma exchange_values a b m path i : exchange_names a b m !! path = Some i → ∃ path', m !! path' = Some i.
Proof.
  unfold exchange_names. destruct (m !! a) as [x|] eqn:Ea; [|by eauto]. destruct (m !! b) as [y|] eqn:Eb; [|by eauto].
  intros [[_ <-]|[_ [[_ <-]|[_ H1]]%lookup_insert_Some]]%lookup_insert_Some; by eauto.
Qed.

Lemma rename_other a b m path : path ≠ a → path ≠ b → rename_names a b m !! path = m !! path.
Proof.
  intros Ha Hb. unfold rename_names. destruct (m !! a); [|done]. by rewrite lookup_insert_ne, lookup_delete_ne.
Qed.

Lemma rename_values a b m path i : rename_names a b m !! path = Some i → ∃ path', m !! path' = Some i.
Proof.
  unfold rename_names. destruct (m !! a) as [x|] eqn:Ea; [|by eauto].
  intros [[_ <-]|[_ [_ H1]%lookup_delete_Some]]%lookup_insert_Some; by eauto.
Qed.

Lemma keeps_update G i (f : File → File) :
  hoare (λ w, apart i G ∧ kept G w)
    (put_fs (λ fs, match fs_inodes fs !! i with Some g => set_file i (f g) fs | None => fs end))
    (λ _ w, apart i G ∧ kept G w) (λ _ w, kept G w).
Proof.
  intros w [Ha Hk]. cbn. split; [done|]. unfold kept in *. cbn [cw_fs].
  destruct (fs_inodes (cw_fs w) !! i) as [g|]; [|done]. split; [apply set_file_wf, Hk|].
  apply Forall_forall. intros [path h] Hin. simpl.
  rewrite file_at_set_file; [by apply (kept_file G)|by eapply apart_name].
Qed.

Lemma write_keeps G temp i bytes :
  guards G → hoare (λ w, apart i G ∧ kept G w) (write_loop temp i bytes)
    (λ _ w, apart i G ∧ kept G w) (λ _ w, kept G w).
Proof.
  intros HG. apply (h_transfer_loop (λ _ w, apart i G ∧ kept G w)); [|by intros s w [_ Hw]]. intros used. unfold write_round.
  destruct (used <? length bytes)%nat; [|by apply h_ret].
  apply h_keep; [|intros r|by intros e w [_ Hw]].
  { intros w [Ha Hk]. pose proof (keeps_transfer G HG (SWrite temp) w Hk) as R. by destruct (transfer _ w) as [[n|e] w']. }
  destruct r as [n| |]; [|by apply h_ret|by intros w [_ Hw]].
  cbv zeta. apply h_require; [intros _|by intros w [_ Hw]].
  eapply h_bind; [apply (keeps_update G i (λ g, MkFile (f_bytes g ++ _) (f_regular g) (f_uid g) (f_nlink g) (f_mode g) (f_mtim g)))|].
  intros []. by apply h_ret.
Qed.

(** Replacing a file that is not kept leaves the kept ones alone. *)
Lemma keeps_replace G owner path bytes expected mode :
  guards G → unstaged G → path ∉ map fst G → keeps (kept G) (replace owner path bytes expected mode).
Proof.
  intros HG HU Hp. unfold replace.
  eapply (h_bind _ _ _ (λ temp w, staging_in (dir_of path) temp = true ∧ kept G w)).
  { unfold stage. apply h_keep; [unfold parentFd; apply k_bind; [by apply keeps_must|intros _];
      apply k_bind; [by apply keeps_must|intros _; apply k_pure]|intros _|done].
    eapply (h_bind _ _ _ (λ u w, contains_char 47 u = false ∧ kept G w)).
    { intros w Hw. unfold fresh_text. pose proof (uuid_plain (p := p) (cw_outer w)) as [_ Hu].
      destruct (new_uuid (cw_outer w)) as [u outer]. done. }
    intros u. apply h_fact. intros Hu. cbv zeta.
    pose proof (staging_is_staging path u Hu) as Hs. pose proof (unstaged_fresh G _ _ HU Hs) as Ht.
    eapply (h_bind _ _ _ (λ i w, apart i G ∧ kept G w)).
    { eapply h_conseq; [by apply create_rule|done| |done]. intros i w [Ha Hw]. split; [done|by eapply staged_kept]. }
    intros i. eapply h_bind; [by apply write_keeps|]. intros [].
    apply h_keep; [|intros n|by intros e w [_ Hw]].
    { intros w [Ha Hk]. pose proof (keeps_must G HG (SChmod (staging path u)) "coordinator file sync failed" w Hk) as R.
      by destruct (must _ _ w) as [[n|e] w']. }
    eapply h_bind; [apply (keeps_update G i (λ g, MkFile (f_bytes g) (f_regular g) (f_uid g) (f_nlink g) mode (f_mtim g)))|].
    intros []. apply h_fact. intros _. apply h_keep; [by apply keeps_must|intros _|done]. apply h_ret. done. }
  intros temp. apply h_fact. intros Ht. pose proof (unstaged_fresh G _ _ HU Ht) as Hn.
  apply h_keep; [|intros _; apply k_bind; [by apply keeps_must|intros _; apply k_pure]|done].
  destruct expected as [e|].
  - unfold commit_exchange. apply k_bind; [by apply keeps_readProtected|intros before].
    apply k_bind; [apply keeps_require|intros _]. apply k_bind; [by apply keeps_must|intros _].
    apply k_bind; [apply k_gets|intros fs]. apply k_bind; [apply keeps_require|intros _].
    apply k_bind.
    { intros w Hw. apply kept_names; [|by apply exchange_values|done].
      intros q Hq. apply exchange_other; intros ->; done. }
    intros _. apply k_bind; [by apply keeps_must|intros _]. apply k_bind; [by apply keeps_readProtected|intros d].
    apply k_bind; [apply keeps_require|intros _]. apply k_bind; [by apply keeps_must|intros _].
    intros w Hw. cbn. by apply kept_delete.
  - unfold commit_rename. apply k_bind; [by apply keeps_must|intros _]. apply k_bind; [apply k_gets|intros fs].
    apply k_bind; [apply keeps_require|intros _]. intros w Hw. apply kept_names; [|by apply rename_values|done].
    intros q Hq. apply rename_other; intros ->; done.
Qed.
End rules.
