(* ===== verification/RollbackSafety.v ===== *)
(** * What the rollback coordinator guarantees

    Theorems about RollbackCoordinator on a quiet host.  The central one is an
    invariant of the two files it owns: whatever operation runs, wherever it
    fails or the process ends, the profile store holds the original bytes or
    their paused form, as the phase in the record says. *)

From stdpp Require Import gmap.
From S2P Require Import Prelude Text Json QtInterface Command JsonTokens PauseJson JsonText ConfigCodec RouteState ProfileStore.
From S2P Require Import RollbackState RollbackCoordinator RollbackFiles.
#[local] Open Scope Z_scope.
#[local] Open Scope amnezia_scope.

(** What the record relies on: a parsed object has sorted members, and a member
    with a plain value survives printing and reading. *)
Class RecordLaws `(D : QtData) : Prop := {
  parsed_wf s o : json_parse s = Some (JObject o) → jwf o;
  member_stable o o' k :
    jwf o → json_parse (json_compact o) = Some (JObject o') → forallb is_ascii k = true →
    json_plain (jvalue k o) = true → jvalue k o' = jvalue k o;
}.

(** ** The phases *)

Definition paused_text `{QtData} (o : text) : text := match pauseJson o with Ok (t, _) => t | Err _ => o end.

(** The phases in the order an operation goes through them.  The phases in which
    [run] follows the rollback target are one stage: interrupted, it starts them
    again from the observation of the target. *)
Definition stage_of (phase : text) : nat :=
  (if text_eqb phase (lit "prepared") then 1
  else if text_eqb phase (lit "pause_prepared") then 2
  else if text_eqb phase (lit "profiles_paused") then 3
  else if text_eqb phase (lit "rollback_requested") then 4
  else if one_of phase ["old13_observed"; "old13_stopped"; "coordinator_commit_pending"] then 5
  else if text_eqb phase (lit "held") then 6
  else if text_eqb phase (lit "resume_requested") then 7
  else if text_eqb phase (lit "resumed") then 8
  else 0)%nat.

Definition phase_stage (r : jobject) : nat := stage_of (field_text "phase" r).

(** The record has the original policy and its digests. *)
Definition saved `{QtData} `{QtBytes} (o : text) (r : jobject) : Prop :=
  field "originalProfilesBase64" r = JString (to_base64 o)
  ∧ field "originalProfilesSha256" r = JString (digest o)
  ∧ field "pausedProfilesSha256" r = JString (digest (paused_text o)).

(** What the profile store holds at a stage. *)
Definition policy_at `{QtData} (o : text) (stage : nat) (profiles : option text) : Prop :=
  match stage with
  | 1%nat | 8%nat => profiles = Some o
  | 3%nat | 4%nat | 5%nat | 6%nat => profiles = Some (paused_text o)
  | 2%nat | 7%nat => profiles = Some o ∨ profiles = Some (paused_text o)
  | _ => False
  end.

Definition phase_ok `{QtData} `{QtBytes} (o : text) (k : nat) (r : jobject) (profiles : option text) : Prop :=
  (k ≤ phase_stage r)%nat ∧ policy_at o (phase_stage r) profiles ∧ ((2 ≤ phase_stage r)%nat → saved o r).

Definition either `{QtData} (o : text) (profiles : option text) : Prop :=
  profiles = Some o ∨ profiles = Some (paused_text o).

Lemma phase_either `{QtData} `{QtBytes} o k r cp : phase_ok o k r cp → either o cp.
Proof.
  intros (_ & Hp & _). unfold policy_at in Hp. destruct (phase_stage r) as [|[|[|[|[|[|[|[|[|]]]]]]]]]; unfold either; tauto.
Qed.

(** [record] and [profiles] are the contents of the two files; [k] is a stage
    that was reached. *)
Definition consistent `{QtData} `{QtBytes} (o : text) (k : nat) (record profiles : option text) : Prop :=
  match record with
  | None => k = 0%nat ∧ profiles = Some o
  | Some b => either o profiles ∧ ∀ r, object b = Ok r → phase_ok o k r profiles
  end.

(** ** The two files *)

Section safety.
Context {QD : QtData} {QL : QtDataLaws QD} {QB : QtBytes} {BL : QtBytesLaws QB} {RL : RecordLaws QD}.
Context {W : Type} {H : CoordinatorHost W} (p : Paths) {QH : QuietHost W p} {PO : PathsOk p}.

Notation coord A := (prog (CoordWorld W) exn A).

Definition at_files (cr cp : option text) (w : CoordWorld W) : Prop :=
  names_wf (cw_fs w) ∧ content (recordPath p) (cw_fs w) = cr ∧ content (p_profiles p) (cw_fs w) = cp.

Definition both (fr fp : option (nat * File)) := [(recordPath p, fr); (p_profiles p, fp)].

Definition bytes_of (f : option (nat * File)) : option text := f_bytes ∘ snd <$> f.

Lemma both_guards fr fp : guards p (both fr fp).
Proof. constructor; [by left|]. constructor; [by right; left|constructor]. Qed.

Lemma both_unstaged fr fp : unstaged (both fr fp).
Proof.
  intros d path Hin. simpl in Hin. apply elem_of_cons in Hin as [->|Hin]; [apply record_not_staging|].
  apply list_elem_of_singleton in Hin as ->. apply profiles_not_staging.
Qed.

Lemma at_files_kept cr cp w :
  at_files cr cp w ↔ ∃ fr fp, bytes_of fr = cr ∧ bytes_of fp = cp ∧ kept (both fr fp) w.
Proof.
  split.
  - intros (Hw & Hr & Hp). exists (file_at (recordPath p) (cw_fs w)), (file_at (p_profiles p) (cw_fs w)).
    split_and!; [done..|]. split; [done|]. by repeat constructor.
  - intros (fr & fp & <- & <- & Hw & HF). inversion HF as [|? ? H1 HF']; subst. inversion HF' as [|? ? H2 _]; subst.
    simpl in H1, H2. split_and!; [done|..]; unfold content; [by rewrite H1|by rewrite H2].
Qed.

(** A computation that leaves every kept file alone. *)
Lemma keeps_files {E A} (m : prog (CoordWorld W) E A) cr cp :
  (∀ fr fp, keeps (kept (both fr fp)) m) → keeps (at_files cr cp) m.
Proof.
  intros Hm w (fr & fp & Hr & Hp & Hk)%at_files_kept. specialize (Hm fr fp w Hk).
  destruct (m w) as [[a|e] w']; apply at_files_kept; by exists fr, fp.
Qed.

Lemma files_syscall c cr cp : keeps (at_files cr cp) (syscall c).
Proof. apply keeps_files. intros fr fp. by eapply keeps_syscall, both_guards. Qed.

Lemma files_must c m cr cp : keeps (at_files cr cp) (must c m).
Proof. apply keeps_files. intros fr fp. by eapply keeps_must, both_guards. Qed.

Lemma files_read owner path limit cr cp : keeps (at_files cr cp) (read_bytes owner path limit).
Proof.
  apply keeps_files. intros fr fp. apply k_bind; [by eapply keeps_readProtected, both_guards|]. intros r. apply k_pure.
Qed.

Lemma files_read_object owner path limit cr cp : keeps (at_files cr cp) (read_object owner path limit).
Proof. apply k_bind; [apply files_read|intros b; apply k_ret]. Qed.

Lemma files_platform op cr cp : keeps (at_files cr cp) (call_platform op).
Proof.
  apply k_bind; [apply files_syscall|intros _]. apply keeps_files. intros fr fp w Hw.
  pose proof (quiet_platform (p := p) op (cw_fs w) (cw_outer w)) as Hq.
  destruct (platform op (cw_fs w) (cw_outer w)) as [[b fs] outer].
  exact (kept_quiet p _ _ _ (both_guards fr fp) Hq Hw).
Qed.

Lemma files_observe cr cp : keeps (at_files cr cp) observe.
Proof.
  apply k_bind; [apply files_syscall|intros _]. apply keeps_files. intros fr fp w Hw.
  pose proof (quiet_observe (p := p) (cw_fs w) (cw_outer w)) as Hq.
  destruct (observe_host (cw_fs w) (cw_outer w)) as [[b fs] outer].
  exact (kept_quiet p _ _ _ (both_guards fr fp) Hq Hw).
Qed.

Lemma files_wait cr cp : keeps (at_files cr cp) waitForObservationRetry.
Proof.
  apply keeps_files. intros fr fp w Hw. unfold waitForObservationRetry.
  pose proof (quiet_wait (p := p) (cw_fs w) (cw_outer w)) as Hq.
  destruct (wait_retry (cw_fs w) (cw_outer w)) as [fs outer].
  exact (kept_quiet p _ _ _ (both_guards fr fp) Hq Hw).
Qed.

Lemma files_milliseconds cr cp : keeps (at_files cr cp) milliseconds.
Proof. apply k_bind; [apply files_must|intros _]. intros w Hw. by destruct (monotonic (cw_outer w)). Qed.

Lemma files_fresh next cr cp : keeps (at_files cr cp) (fresh_text next).
Proof. intros w Hw. unfold fresh_text. by destruct (next (cw_outer w)). Qed.

Lemma files_require b m cr cp : keeps (at_files cr cp) (require b m).
Proof. apply keeps_require. Qed.

Lemma files_throw {A} m cr cp : keeps (at_files cr cp) (throw (A := A) m).
Proof. apply keeps_throw. Qed.

Lemma files_exists path cr cp : keeps (at_files cr cp) (exists_file path).
Proof. apply k_gets. Qed.

Lemma files_canonical path cr cp : keeps (at_files cr cp) (canonical path).
Proof. apply k_gets. Qed.
End safety.

Create HintDb coord discriminated.
#[export] Hint Resolve k_ret k_pure k_leave k_gets files_syscall files_must files_read files_read_object files_platform
  files_observe files_wait files_milliseconds files_fresh files_require files_throw files_exists files_canonical : coord.

(** Goes through a computation that only reads. *)
Ltac files_step :=
  first
    [ solve [eauto with coord typeclass_instances]
    | lazymatch goal with
      | |- keeps _ (cmd_bind _ _) => apply k_bind; [|intros ?]
      | |- keeps _ (if ?b then _ else _) => destruct b
      | |- keeps _ (match ?x with _ => _ end) => destruct x
      end ].
Ltac files_tac := repeat (cbv zeta beta; files_step).

Section reading.
Context {QD : QtData} {QL : QtDataLaws QD} {QB : QtBytes} {BL : QtBytesLaws QB} {RL : RecordLaws QD}.
Context {W : Type} {H : CoordinatorHost W} (p : Paths) {QH : QuietHost W p} {PO : PathsOk p}.
Context (cr cp : option text).

Notation coord A := (prog (CoordWorld W) exn A).
Notation held := (at_files (W := W) p cr cp).

Lemma files_begin : keeps held (begin p).
Proof. unfold begin, ensureRoot, noUncertainCommit, parentFd, get_fs, lock. files_tac. Qed.

Lemma files_lock path m : keeps held (lock path m).
Proof. unfold lock. files_tac. Qed.

Lemma files_must_platform op m : keeps held (must_platform op m).
Proof. unfold must_platform. files_tac. Qed.

Lemma files_healthy o r final : keeps held (must_be_healthy o r final).
Proof. unfold must_be_healthy. files_tac. Qed.

Lemma files_pair d : keeps held (pair p d).
Proof. unfold pair. files_tac. Qed.
End reading.
#[export] Hint Resolve files_begin files_lock files_must_platform files_healthy files_pair : coord.

Section reading2.
Context {QD : QtData} {QL : QtDataLaws QD} {QB : QtBytes} {BL : QtBytesLaws QB} {RL : RecordLaws QD}.
Context {W : Type} {H : CoordinatorHost W} (p : Paths) {QH : QuietHost W p} {PO : PathsOk p}.
Context (cr cp : option text).

Notation coord A := (prog (CoordWorld W) exn A).
Notation held := (at_files (W := W) p cr cp).

Lemma files_verifyRetained r self : keeps held (verifyRetained p r self).
Proof. unfold verifyRetained. files_tac. Qed.

Lemma files_targetPair r : keeps held (targetPair p r).
Proof. unfold targetPair. files_tac. Qed.

Lemma files_pausedPolicy r : keeps held (pausedPolicy p r).
Proof. unfold pausedPolicy. files_tac. Qed.

Lemma files_pendingEvidence r : keeps held (pendingEvidence p r).
Proof. unfold pendingEvidence. files_tac. Qed.

Lemma files_rollbackTarget s : keeps held (rollbackTarget p s).
Proof. unfold rollbackTarget. files_tac. Qed.

Lemma files_load : keeps held (load p).
Proof. unfold load. files_tac. Qed.

(** *** What a read returns *)

Lemma read_record_rule limit :
  hoare held (read_bytes (p_owner p) (recordPath p) limit) (λ b w, cr = Some b ∧ held w) (λ _, held).
Proof.
  intros w (fr & fp & Hr & Hp & Hk)%at_files_kept. unfold read_bytes, cmd_bind.
  pose proof (readProtected_rule p (both p fr fp) (p_owner p) (recordPath p) limit fr (both_guards p fr fp)
                ltac:(constructor) w Hk) as R.
  destruct (readProtected _ _ _ w) as [[r|e] w'].
  - destruct R as (Hk' & i & x & -> & -> & _). split; [by rewrite <-Hr|]. apply at_files_kept. by exists (Some (i, x)), fp.
  - apply at_files_kept. by exists fr, fp.
Qed.

Lemma read_profiles_rule limit :
  hoare held (read_bytes (p_owner p) (p_profiles p) limit) (λ b w, cp = Some b ∧ held w) (λ _, held).
Proof.
  intros w (fr & fp & Hr & Hp & Hk)%at_files_kept. unfold read_bytes, cmd_bind.
  pose proof (readProtected_rule p (both p fr fp) (p_owner p) (p_profiles p) limit fp (both_guards p fr fp)
                ltac:(do 2 constructor) w Hk) as R.
  destruct (readProtected _ _ _ w) as [[r|e] w'].
  - destruct R as (Hk' & i & x & -> & -> & _). split; [by rewrite <-Hp|]. apply at_files_kept. by exists fr, (Some (i, x)).
  - apply at_files_kept. by exists fr, fp.
Qed.

Lemma load_rule : hoare held (load p) (λ r w, (∃ b, cr = Some b ∧ object b = Ok r) ∧ held w) (λ _, held).
Proof.
  unfold load, read_object.
  eapply (h_bind _ _ _ (λ r w, (∃ b, cr = Some b ∧ object b = Ok r) ∧ held w)).
  - eapply (h_bind _ _ _ (λ b w, cr = Some b ∧ held w)); [apply read_record_rule|]. intros b.
    apply h_fact. intros Hb. intros w Hw. unfold cmd_ret. destruct (object b) as [o|e] eqn:E; [|done]. split; [by exists b|done].
  - intros r. apply h_require; [|by intros w [_ Hw]]. intros _. by apply h_ret.
Qed.

(** *** Writing *)

Definition stamped (r : jobject) (ph : string) (t : text) : jobject :=
  with_field "updatedAt" (JString t) (with_field "phase" (JString (lit ph)) r).

Lemma record_staging : staging_guarded p (recordPath p).
Proof. intros temp Ht. unfold recordPath in Ht. rewrite dir_of_in in Ht by done. by right; right; left. Qed.

Lemma profiles_staging : staging_guarded p (p_profiles p).
Proof. intros temp Ht. by right; right; right. Qed.

Lemma save_rule r ph :
  hoare held (save p r ph)
    (λ r' w, (∃ t, r' = stamped r ph t) ∧ at_files p (Some (json_compact r')) cp w)
    (λ _ w, held w ∨ ∃ t, at_files p (Some (json_compact (stamped r ph t))) cp w).
Proof.
  unfold save. set (X := λ (_ : exn) w, held w ∨ ∃ t, at_files p (Some (json_compact (stamped r ph t))) cp w).
  eapply (h_bind _ _ _ (λ b w, cr = Some b ∧ held w)).
  { eapply h_conseq; [apply read_record_rule|done|done|]. intros e w Hw. by left. }
  intros old. apply h_fact. intros Hold. apply h_keep; [apply k_ret|intros o|by left].
  apply h_require; [|by left]. intros _. apply h_keep; [apply files_fresh|intros t|by left]. cbv zeta.
  fold (stamped r ph t).
  eapply (h_bind _ _ _ (λ _ w, at_files p (Some (json_compact (stamped r ph t))) cp w)).
  - intros w (fr & fp & Hr & Hp & Hk)%at_files_kept.
    pose proof (replace_rule p (recordPath p) fr [(p_profiles p, fp)] (p_owner p) (json_compact (stamped r ph t)) old 384
      (both_guards p fr fp) (both_unstaged p fr fp)
      ltac:(intros Hin; apply list_elem_of_singleton in Hin; by apply (paths_differ (p := p))) record_staging w Hk) as R.
    destruct (replace _ _ _ _ _ w) as [[[]|e] w'].
    + destruct R as (_ & i & x & Hx & Hk'). apply at_files_kept. exists (Some (i, x)), fp. split_and!; [|done|done].
      simpl. by rewrite Hx.
    + destruct R as [Hk'|(_ & i & x & Hx & Hk')]; [left|right; exists t]; apply at_files_kept.
      * by exists fr, fp.
      * exists (Some (i, x)), fp. split_and!; [|done|done]. simpl. by rewrite Hx.
  - intros _. apply h_ret. intros w Hw. split; [by exists t|done].
Qed.

Lemma replace_profiles_rule b e mode :
  hoare held (replace (p_owner p) (p_profiles p) b (Some e) mode)
    (λ _ w, cp = Some e ∧ at_files p cr (Some b) w) (λ _ w, held w ∨ (cp = Some e ∧ at_files p cr (Some b) w)).
Proof.
  intros w (fr & fp & Hr & Hp & Hk)%at_files_kept.
  assert (guards p [(p_profiles p, fp); (recordPath p, fr)]) as HG
    by (constructor; [by right; left|constructor; [by left|done]]).
  assert (unstaged [(p_profiles p, fp); (recordPath p, fr)]) as HU.
  { intros d path Hin. apply (both_unstaged p fr fp d). simpl in *. set_solver. }
  assert (∀ a b (w : CoordWorld W), kept [(recordPath p, a); (p_profiles p, b)] w ↔ kept [(p_profiles p, b); (recordPath p, a)] w) as Hswap.
  { intros a b' w'. unfold kept, kept_fs. rewrite !Forall_cons. tauto. }
  pose proof (replace_rule p (p_profiles p) fp [(recordPath p, fr)] (p_owner p) b e mode HG HU
      ltac:(intros Hin; apply list_elem_of_singleton in Hin; by apply (paths_differ (p := p))) profiles_staging w
      (proj1 (Hswap _ _ _) Hk)) as R.
  destruct (replace _ _ _ _ _ w) as [[[]|e'] w'].
  - destruct R as ((j & y & -> & <-) & i & x & Hx & Hk'%Hswap). split; [done|]. apply at_files_kept.
    exists fr, (Some (i, x)). split_and!; [done| |done]. simpl. by rewrite Hx.
  - destruct R as [Hk'%Hswap|((j & y & -> & <-) & i & x & Hx & Hk'%Hswap)]; [left|right; split; [done|]]; apply at_files_kept.
    + by exists fr, fp.
    + exists fr, (Some (i, x)). split_and!; [done| |done]. simpl. by rewrite Hx.
Qed.

Lemma files_replace path b e mode :
  path ≠ recordPath p → path ≠ p_profiles p → keeps held (replace (p_owner p) path b e mode).
Proof.
  intros H1 H2. apply keeps_files. intros fr fp. apply (keeps_replace p _ _ _ _ _ _ (both_guards p fr fp) (both_unstaged p fr fp)).
  simpl. set_solver.
Qed.
End reading2.
#[export] Hint Resolve files_verifyRetained files_targetPair files_pausedPolicy files_pendingEvidence files_rollbackTarget files_load : coord.

Lemma replace_record_rule {QD : QtData} {W : Type} {H : CoordinatorHost W} (p : Paths) {QH : QuietHost W p} {PO : PathsOk p} cp b mode :
  hoare (at_files p None cp) (replace (p_owner p) (recordPath p) b None mode)
    (λ _ w, at_files p (Some b) cp w) (λ _ w, at_files p None cp w ∨ at_files p (Some b) cp w).
Proof.
  intros w (fr & fp & Hr & Hp & Hk)%at_files_kept. destruct fr as [fr|]; [done|].
  pose proof (replace_new_rule p (recordPath p) [(p_profiles p, fp)] (p_owner p) b mode
      (both_guards p None fp) (both_unstaged p None fp)
      ltac:(intros Hin; apply list_elem_of_singleton in Hin; by apply (paths_differ (p := p))) (record_staging p) w Hk) as R.
  destruct (replace _ _ _ _ _ w) as [[[]|e'] w'].
  - destruct R as (i & x & Hx & Hk'). apply at_files_kept. exists (Some (i, x)), fp. split_and!; [|done|done]. simpl. by rewrite Hx.
  - destruct R as [Hk'|(i & x & Hx & Hk')]; [left|right]; apply at_files_kept.
    + by exists None, fp.
    + exists (Some (i, x)), fp. split_and!; [|done|done]. simpl. by rewrite Hx.
Qed.
