(* ===== verification/RollbackInvariant.v ===== *)
(** * The profile policy through a rollback

    The invariant of RollbackSafety is kept by every operation of the
    coordinator, on every way out: it returns, it throws, or the process ends.
    From it follow that the stage never goes back, that the profile store is the
    original or its paused form at every moment, and that a resumed operation
    has restored the original bytes. *)

From stdpp Require Import gmap.
From S2P Require Import Prelude Text Json QtInterface Command JsonTokens PauseJson JsonText ConfigCodec RouteState ProfileStore.
From S2P Require Import RollbackState RollbackCoordinator RollbackFiles RollbackSafety.
#[local] Open Scope Z_scope.
#[local] Open Scope amnezia_scope.

(** ** Fields *)

Lemma field_with k k' v r : field k (with_field k' v r) = if text_eqb (lit k) (lit k') then v else field k r.
Proof. apply jvalue_jinsert. Qed.

Lemma field_same k v r : field k (with_field k v r) = v.
Proof. by rewrite field_with, text_eqb_refl. Qed.

Lemma field_other k k' v r : text_eqb (lit k) (lit k') = false → field k (with_field k' v r) = field k r.
Proof. intros E. by rewrite field_with, E. Qed.

Definition policy_key (k : string) : bool :=
  one_of (lit k) ["originalProfilesBase64"; "originalProfilesSha256"; "pausedProfilesSha256"].

Lemma policy_key_false k : policy_key k = false →
  text_eqb (lit "originalProfilesBase64") (lit k) = false ∧ text_eqb (lit "originalProfilesSha256") (lit k) = false
  ∧ text_eqb (lit "pausedProfilesSha256") (lit k) = false.
Proof.
  unfold policy_key, one_of. cbn [existsb]. intros E. bprop. rewrite !text_eqb_neq in *. naive_solver.
Qed.

Section invariant.
Context {QD : QtData} {QL : QtDataLaws QD} {QB : QtBytes} {BL : QtBytesLaws QB} {RL : RecordLaws QD}.
Context {W : Type} {H : CoordinatorHost W} (p : Paths) {QH : QuietHost W p} {PO : PathsOk p}.
Context (o : text) (Ho : Forall (λ c, 0 <= c < 256) o) (k : nat).

Notation coord A := (prog (CoordWorld W) exn A).

(** The invariant: the two files are consistent. *)
Definition inv (w : CoordWorld W) : Prop := ∃ cr cp, at_files p cr cp w ∧ consistent o k cr cp.

Lemma saved_with key v r : policy_key key = false → saved o r → saved o (with_field key v r).
Proof.
  intros (H1 & H2 & H3)%policy_key_false (S1 & S2 & S3). unfold saved. by rewrite !field_other.
Qed.

Lemma stamped_stage r ph t : phase_stage (stamped r ph t) = stage_of (lit ph).
Proof.
  unfold phase_stage, field_text, stamped. rewrite field_other by done. by rewrite field_same.
Qed.

Lemma stamped_saved r ph t : saved o r → saved o (stamped r ph t).
Proof. intros Hs. unfold stamped. by apply saved_with, saved_with. Qed.

Lemma stamped_ok r ph t cp :
  (k ≤ stage_of (lit ph))%nat → policy_at o (stage_of (lit ph)) cp → ((2 ≤ stage_of (lit ph))%nat → saved o r) →
  phase_ok o k (stamped r ph t) cp.
Proof.
  intros H1 H2 H3. unfold phase_ok. rewrite stamped_stage. split_and!; [done..|]. intros Hs. by apply stamped_saved, H3.
Qed.

(** *** The record survives printing and reading *)

Lemma ascii_valid s : forallb is_ascii s = true → utf16_valid s = true.
Proof.
  induction s as [|c s IH]; [done|]. simpl. intros [Hc Hs]%andb_true_iff. unfold is_ascii in Hc. bprop.
  rewrite (proj2 (Z.leb_gt 0xD800 c)), (proj2 (Z.leb_gt 0xDC00 c)) by lia. simpl.
  rewrite (proj2 (Z.leb_le 0 c)), (proj2 (Z.ltb_lt c 65536)) by lia. simpl. by apply IH.
Qed.

Lemma digest_valid b : utf16_valid (digest b) = true.
Proof.
  apply ascii_valid, forallb_forall. intros c Hc. apply list_elem_of_In in Hc.
  pose proof (to_hex_lower (sha256 b) (sha256_bytes b)) as F. rewrite Forall_forall in F. specialize (F c Hc).
  unfold is_lower_hex, is_digit in F. unfold is_ascii. bprop. destruct F; bprop; apply andb_true_iff; split; lia.
Qed.

Lemma known_phase r : phase_stage r ≠ 0%nat → json_plain (field "phase" r) = true.
Proof.
  unfold phase_stage, field_text. destruct (field "phase" r) as [| | | |s| |]; try (by intros []).
  intros Hs. simpl in *. apply ascii_valid. unfold stage_of, one_of in Hs. cbn [existsb] in Hs.
  repeat match type of Hs with context [text_eqb s ?l] => destruct (text_eqb s l) eqn:?; [
    match goal with E : text_eqb s _ = true |- _ => apply text_eqb_eq in E; subst s; reflexivity end|] end.
  done.
Qed.

Lemma record_stable r cp : jwf r → phase_ok o k r cp → consistent o k (Some (json_compact r)) cp.
Proof.
  intros Hw Hok. split; [by eapply phase_either|]. destruct Hok as (Hk & Hp & Hs). intros r' E. unfold object in E.
  destruct (json_parse (json_compact r)) as [[| | | | | |r1]|] eqn:Ep; try done. injection E as <-.
  assert (∀ key, forallb is_ascii (lit key) = true → json_plain (field key r) = true → field key r1 = field key r) as Hf.
  { intros key Ha Hj. by apply (member_stable r r1 (lit key)). }
  assert (phase_stage r ≠ 0%nat) as Hn by (intros E; by rewrite E in Hp).
  assert (phase_stage r1 = phase_stage r) as Hst.
  { unfold phase_stage, field_text. by rewrite (Hf "phase"%string eq_refl (known_phase r Hn)). }
  unfold phase_ok. rewrite Hst. split_and!; [done..|]. intros H2. destruct (Hs H2) as (S1 & S2 & S3).
  split_and!; rewrite Hf; try done.
  - rewrite S1. apply to_base64_valid.
  - rewrite S2. apply digest_valid.
  - rewrite S3. apply digest_valid.
Qed.

Lemma with_field_wf key v r : is_undefined v = false → jwf r → jwf (with_field key v r).
Proof. apply jwf_jinsert_defined. Qed.

Lemma stamped_wf r ph t : jwf r → jwf (stamped r ph t).
Proof. intros Hr. by apply with_field_wf, with_field_wf. Qed.

Lemma object_wf b r : object b = Ok r → jwf r.
Proof. unfold object. destruct (json_parse b) as [[| | | | | |r1]|] eqn:E; try done. intros [= <-]. by eapply parsed_wf. Qed.

(** *** Opening and leaving *)

Lemma inv_open {A} (m : coord A) :
  (∀ cr cp, consistent o k cr cp → hoare (at_files p cr cp) m (λ _, inv) (λ _, inv)) → keeps inv m.
Proof. intros Hm w (cr & cp & Hw & Hc). exact (Hm cr cp Hc w Hw). Qed.

Lemma inv_exit cr cp : consistent o k cr cp → ∀ (e : exn) w, at_files p cr cp w → inv w.
Proof. intros Hc e w Hw. by exists cr, cp. Qed.

Lemma inv_ret {A} cr cp (a : A) : consistent o k cr cp → hoare (at_files p cr cp) (pure (E := exn) a) (λ _, inv) (λ _, inv).
Proof. intros Hc. apply h_ret. intros w Hw. by exists cr, cp. Qed.

(** The record a file holds. *)
Definition loaded (cr : option text) (r : jobject) : Prop := ∃ b, cr = Some b ∧ object b = Ok r.

Lemma loaded_consistent cr cp r : loaded cr r → phase_ok o k r cp → consistent o k cr cp.
Proof. intros (b & -> & Hb) Hp. split; [by eapply phase_either|]. intros r' Hr'. congruence. Qed.

Lemma inv_load {A} (Q : A → CoordWorld W → Prop) cr cp (m : jobject → coord A) :
  consistent o k cr cp →
  (∀ r, loaded cr r → jwf r → phase_ok o k r cp → hoare (at_files p cr cp) (m r) Q (λ _, inv)) →
  hoare (at_files p cr cp) (cmd_bind (load p) m) Q (λ _, inv).
Proof.
  intros Hc Hm. eapply h_bind.
  { eapply h_conseq; [apply (load_rule p cr cp)|done|done|]. by apply inv_exit. }
  intros r. apply h_fact. intros (b & -> & Hb). apply Hm; [by exists b|by eapply object_wf|by apply Hc].
Qed.

Lemma inv_save {A} (Q : A → CoordWorld W → Prop) s cr cp r ph (m : jobject → coord A) :
  consistent o k cr cp → jwf r → stage_of (lit ph) = s → (k ≤ s)%nat → policy_at o s cp → saved o r →
  (∀ t, let r' := stamped r ph t in
     jwf r' → saved o r' → (∀ cp', policy_at o s cp' → consistent o k (Some (json_compact r')) cp') → hoare (at_files p (Some (json_compact r')) cp) (m r') Q (λ _, inv)) →
  hoare (at_files p cr cp) (cmd_bind (save p r ph) m) Q (λ _, inv).
Proof.
  intros Hc Hw <- H1 H2 H3 Hm.
  assert (∀ t cp', policy_at o (stage_of (lit ph)) cp' → consistent o k (Some (json_compact (stamped r ph t))) cp') as Hst.
  { intros t cp' Hcp. apply record_stable; [by apply stamped_wf|by apply stamped_ok]. }
  eapply (h_bind _ _ _ (λ r' w, (∃ t, r' = stamped r ph t) ∧ at_files p (Some (json_compact r')) cp w)).
  - eapply h_conseq; [apply (save_rule p cr cp)|done|done|]. intros e w [Hw'|[t Hw']]; [by exists cr, cp|].
    eexists _, cp. split; [exact Hw'|]. by apply Hst.
  - intros r'. apply h_fact. intros [t ->]. apply Hm; [by apply stamped_wf|by apply stamped_saved|auto].
Qed.

Lemma inv_profiles {A} (Q : A → CoordWorld W → Prop) cr cp b e mode (m : coord A) :
  consistent o k cr cp → (cp = Some e → consistent o k cr (Some b)) →
  (cp = Some e → hoare (at_files p cr (Some b)) m Q (λ _, inv)) →
  hoare (at_files p cr cp) (cmd_bind (replace (p_owner p) (p_profiles p) b (Some e) mode) (λ _, m)) Q (λ _, inv).
Proof.
  intros Hc Hb Hm. eapply (h_bind _ _ _ (λ _ w, cp = Some e ∧ at_files p cr (Some b) w)).
  - eapply h_conseq; [apply (replace_profiles_rule p cr cp)|done|done|]. intros e' w [Hw|[He Hw]]; [by exists cr, cp|].
    exists cr, (Some b). auto.
  - intros _. by apply h_fact.
Qed.
End invariant.

(** A step that leaves the two files alone. *)
Ltac inv_keep := apply h_keep; [solve [files_tac]|intros ?|by apply inv_exit].
Tactic Notation "inv_require" "as" ident(Hreq) :=
  apply h_require; [intros Hreq|intros ? ?; eexists _, _; by split; [eassumption|]].
Ltac inv_require := let Hreq := fresh "Hreq" in inv_require as Hreq.

Section operations.
Context {QD : QtData} {QL : QtDataLaws QD} {QB : QtBytes} {BL : QtBytesLaws QB} {RL : RecordLaws QD}.
Context {W : Type} {H : CoordinatorHost W} (p : Paths) {QH : QuietHost W p} {PO : PathsOk p}.
Context (o : text) (Ho : Forall (λ c, 0 <= c < 256) o) (k : nat).

Notation coord A := (prog (CoordWorld W) exn A).
Notation I := (inv (W := W) p o k).

Lemma attempt_keeps code (body : coord CoordResult) : keeps I body → keeps I (attempt code body).
Proof. intros Hb w Hw. specialize (Hb w Hw). unfold attempt. by destruct (body w) as [[r|[]] w']. Qed.

(** *** Phases of a loaded record *)

Lemma stage_text r ph : field_text "phase" r = lit ph → phase_stage r = stage_of (lit ph).
Proof. unfold phase_stage. by intros ->. Qed.

Lemma one_of_spec s l : one_of s l = true ↔ ∃ x, x ∈ l ∧ s = lit x.
Proof.
  unfold one_of. rewrite existsb_exists. split.
  - intros (x & Hx & E%text_eqb_eq). exists x. split; [by apply list_elem_of_In|done].
  - intros (x & Hx & ->). exists x. split; [by apply list_elem_of_In|]. apply text_eqb_refl.
Qed.

(** The paused phases, between the pause and the hold. *)
Definition paused_phases : list string :=
  ["profiles_paused"; "rollback_requested"; "old13_observed"; "old13_stopped"; "coordinator_commit_pending"]%string.

Lemma paused_stage s : one_of s paused_phases = true → (3 ≤ stage_of s ≤ 5)%nat.
Proof.
  intros (x & Hx & ->)%one_of_spec. unfold paused_phases in Hx.
  repeat (apply elem_of_cons in Hx as [->|Hx]; [vm_compute; lia|]). by apply not_elem_of_nil in Hx.
Qed.

Lemma paused_ok r cp s : phase_ok o k r cp → (3 ≤ phase_stage r ≤ s)%nat → (s ≤ 5)%nat →
  (k ≤ s)%nat ∧ cp = Some (paused_text o) ∧ saved o r.
Proof.
  intros (H1 & H2 & H3) E Hs. split_and!; [lia| |apply H3; lia].
  destruct (phase_stage r) as [|[|[|[|[|[|n]]]]]]; try lia; exact H2.
Qed.

(** *** [pausing] *)

Lemma paused_of_rule {A} cr cp b (m : text * list json → coord A) :
  consistent o k cr cp →
  (∀ t ids, pauseJson b = Ok (t, ids) → hoare (at_files p cr cp) (m (t, ids)) (λ _, I) (λ _, I)) →
  hoare (at_files p cr cp) (cmd_bind (paused_of b) m) (λ _, I) (λ _, I).
Proof.
  intros Hc Hm. unfold paused_of. destruct (pauseJson b) as [[t ids]|e] eqn:E.
  - exact (Hm t ids eq_refl).
  - intros w Hw. by exists cr, cp.
Qed.

Lemma inv_read_profiles {A} cr cp limit (m : text → coord A) :
  consistent o k cr cp →
  (∀ b, cp = Some b → hoare (at_files p cr cp) (m b) (λ _, I) (λ _, I)) →
  hoare (at_files p cr cp) (cmd_bind (read_bytes (p_owner p) (p_profiles p) limit) m) (λ _, I) (λ _, I).
Proof.
  intros Hc Hm. eapply (h_bind _ _ _ (λ b w, cp = Some b ∧ at_files p cr cp w)).
  - eapply h_conseq; [apply (read_profiles_rule p cr cp)|done|done|]. by apply inv_exit.
  - intros b. apply h_fact. apply Hm.
Qed.

Lemma saved_original r : saved o r → from_base64 (field_text "originalProfilesBase64" r) = o.
Proof. intros (S1 & _). unfold field_text. rewrite S1. by apply from_to_base64. Qed.

Lemma finishPause_keeps cr cp r b :
  consistent o k cr cp → loaded cr r → jwf r → phase_ok o k r cp → phase_stage r = 2%nat → cp = Some b →
  hoare (at_files p cr cp) (finishPause p r b) (λ _, I) (λ _, I).
Proof.
  intros Hc Hl Hw (Hk & Hp & Hs) E ->. rewrite E in *. specialize (Hs ltac:(lia)).
  pose proof (saved_original r Hs) as Hor.
  unfold finishPause. rewrite Hor. inv_require. apply paused_of_rule; [done|]. intros t ids Ht.
  assert (t = paused_text o) as -> by (unfold paused_text; by rewrite Ht).
  inv_require.
  assert (∀ cr', consistent o k cr' (Some (paused_text o)) →
    hoare (at_files p cr' (Some (paused_text o))) (let! r := save p r "profiles_paused" in
       pure (success (lit "profiles_paused") r)) (λ _, I) (λ _, I)) as Hend.
  { intros cr' Hc'. apply (inv_save p o k _ 3); [done..|lia|done|done|]. intros t r' _ _ Hr'. apply inv_ret. by apply Hr'. }
  destruct (text_eqb b o) eqn:Eb.
  - apply text_eqb_eq in Eb. subst b.
    assert (consistent o k cr (Some (paused_text o))) as Hc'.
    { apply (loaded_consistent o k cr _ r Hl). split_and!; [lia|rewrite E; by right|done]. }
    apply (inv_profiles p o k _); [done|done|]. intros _. by apply Hend.
  - inv_require as Eq. apply text_eqb_eq in Eq. subst b. by apply Hend.
Qed.

Lemma admitRollback_keeps : keeps I (admitRollback p).
Proof.
  apply attempt_keeps, inv_open. intros cr cp Hc. unfold admitRollback_body. inv_keep. apply (inv_load p o k _); [done|].
  intros r Hl Hw Hp. inv_keep. destruct (is_str (field "phase" r) "profiles_paused"); [inv_keep; by apply inv_ret|].
  inv_require as Hph. inv_keep. inv_require. inv_keep. apply inv_read_profiles; [done|]. intros b Hb.
  apply paused_of_rule; [done|]. intros t ids Ht. inv_require. unfold is_str.
  destruct (bool_decide (field "phase" r = JString (lit "pause_prepared"))) eqn:Epp; bprop.
  { apply finishPause_keeps; try done. unfold phase_stage, field_text. by rewrite Epp. }
  assert (phase_stage r = 1%nat) as E1.
  { apply one_of_spec in Hph as (x & Hx & Hf). unfold phase_stage. rewrite Hf.
    apply elem_of_cons in Hx as [->|Hx]; [reflexivity|]. apply list_elem_of_singleton in Hx as ->. exfalso. apply Epp.
    unfold field_text in Hf. destruct (field "phase" r); by simplify_eq/=. }
  destruct Hp as (Hk & Hp & _). rewrite E1 in *. simpl in Hp. rewrite Hp in Hb. injection Hb as <-.
  assert (t = paused_text o) as -> by (unfold paused_text; by rewrite Ht). subst cp.
  cbv zeta. apply (inv_save p o k _ 2); [done|..|by left| |].
  - by repeat apply with_field_wf.
  - done.
  - lia.
  - unfold saved. rewrite !field_with. by split_and!.
  - intros t r' Hw' Hs' Hr'. apply (inv_profiles p o k _); [apply Hr'; by left|intros _; apply Hr'; by right|]. intros _.
    apply (inv_save p o k _ 3); [apply Hr'; by right|done..|lia|done|done|]. intros t2 r2 _ _ Hr2. apply inv_ret. by apply Hr2.
Qed.

Lemma rollbackRequested_keeps : keeps I (rollbackRequested p).
Proof.
  apply attempt_keeps, inv_open. intros cr cp Hc. unfold rollbackRequested_body. inv_keep. apply (inv_load p o k _); [done|].
  intros r Hl Hw Hp. inv_keep. inv_keep. inv_require as Hph. inv_keep. inv_keep. inv_keep.
  assert (3 ≤ phase_stage r ≤ 4)%nat as E3.
  { unfold phase_stage. apply one_of_spec in Hph as (x & Hx & ->).
    repeat (apply elem_of_cons in Hx as [->|Hx]; [vm_compute; lia|]). by apply not_elem_of_nil in Hx. }
  destruct (paused_ok r cp 4 Hp E3 ltac:(lia)) as (Hk & -> & Hs). cbv zeta.
  apply (inv_save p o k _ 4); [done|by apply with_field_wf|done|done|done|by apply saved_with|].
  intros t r' _ _ Hr'. apply h_keep; [solve [files_tac]|intros _|intros e w Hw'; eexists _, _; split; [exact Hw'|by apply Hr']].
  apply inv_ret. by apply Hr'.
Qed.

(** *** [resume] *)

(** Whatever the record says about the pause, it has the original policy. *)
Lemma resumable r : one_of (field_text "phase" r) ["held"; "profiles_paused"; "resume_requested"; "resumed"] = true →
  (3 ≤ phase_stage r)%nat.
Proof.
  intros (x & Hx & E)%one_of_spec. unfold phase_stage. rewrite E.
  repeat (apply elem_of_cons in Hx as [->|Hx]; [vm_compute; lia|]). by apply not_elem_of_nil in Hx.
Qed.

(** After it, the record on disk says that a resume was requested. *)
Lemma stopForResume_rule {A} (Q : A → CoordWorld W → Prop) cr cp r phase ab (m : jobject → coord A) :
  consistent o k cr cp → loaded cr r → jwf r → phase_ok o k r cp → (3 ≤ phase_stage r)%nat → phase = field_text "phase" r →
  text_eqb phase (lit "resumed") = false →
  (∀ cr' r', jwf r' → saved o r' → (k ≤ 7)%nat → (∀ cp', policy_at o 7 cp' → consistent o k cr' cp') →
     hoare (at_files p cr' cp) (m r') Q (λ _, I)) →
  hoare (at_files p cr cp) (cmd_bind (stopForResume p phase ab r) m) Q (λ _, I).
Proof.
  intros Hc Hl Hw Hp H3 -> Hres Hm. pose proof (phase_either o k r cp Hp) as He. pose proof Hp as (Hk & Hpol & Hs).
  specialize (Hs ltac:(lia)).
  assert (phase_stage r ≤ 7)%nat as H5.
  { unfold phase_stage, stage_of in *. rewrite Hres in *. repeat case_match; lia. }
  set (R := λ (r' : jobject) (w : CoordWorld W), ∃ cr', jwf r' ∧ saved o r' ∧ (∀ cp', policy_at o 7 cp' → consistent o k cr' cp') ∧ at_files p cr' cp w).
  eapply (h_bind _ _ _ R).
  2: { intros r' w (cr' & W1 & W2 & W3 & Hat). by apply (Hm cr' r' W1 W2 ltac:(lia) W3 w). }
  unfold stopForResume. apply h_keep; [solve [files_tac]|intros idle|by apply inv_exit]. destruct idle; cbn [negb].
  - destruct (text_eqb (field_text "phase" r) (lit "resume_requested") && _) eqn:Eg.
    + apply andb_true_iff in Eg as [Eg%text_eqb_eq _]. inv_keep. inv_require. apply h_ret. intros w Hat. exists cr.
      split_and!; [done|done| |done]. intros cp' Hcp'. apply (loaded_consistent o k cr cp' r Hl).
      assert (phase_stage r = 7%nat) as E5 by (unfold phase_stage; by rewrite Eg).
      unfold phase_ok. rewrite E5 in *. split_and!; [done|done|auto].
    + intros w Hat. cbn. by exists cr, cp.
  - do 2 inv_keep. inv_require. apply h_keep; [solve [files_tac]|intros _|by apply inv_exit]. cbv zeta.
    apply (inv_save p o k _ 7); [done|by apply with_field_wf|done|lia|done|by apply saved_with|].
    intros t r' Hw' Hs' Hr'. apply h_keep; [solve [files_tac]|intros _|intros e w Hw2; eexists _, _; split; [exact Hw2|by apply Hr']].
    apply h_ret. intros w Hat. eexists. split_and!; [done|done|exact Hr'|exact Hat].
Qed.

(** What [resume] promises: a success has restored the original policy. *)
Definition restored (res : CoordResult) (w : CoordWorld W) : Prop :=
  I w ∧ (rc_ok res = true → content (p_profiles p) (cw_fs w) = Some o ∧ rc_code res = lit "resumed").

Lemma resume_body_rule : hoare I (resume_body p) restored (λ _, I).
Proof.
  intros w0 (cr & cp & Hat & Hc). revert w0 Hat. change (hoare (at_files p cr cp) (resume_body p) restored (λ _, I)).
  unfold resume_body. inv_keep. apply (inv_load p o k _); [done|]. intros r Hl Hw Hp. inv_keep. cbv zeta.
  inv_require as Hph. pose proof (resumable r Hph) as H3. pose proof Hp as (Hk & Hpol & Hs). specialize (Hs ltac:(lia)).
  rewrite (saved_original r Hs). pose proof (phase_either o k r cp Hp) as He.
  inv_require. inv_keep. apply h_keep; [solve [files_tac]|intros _|by apply inv_exit]. inv_keep. inv_require. inv_keep.
  inv_require. inv_keep.
  eapply (h_bind _ _ _ (λ b w, cp = Some b ∧ at_files p cr cp w)).
  { eapply h_conseq; [apply (read_profiles_rule p cr cp)|done|done|]. by apply inv_exit. }
  intros old. apply h_fact. intros Hcp. inv_require.
  destruct (text_eqb (field_text "phase" r) (lit "resumed")) eqn:Eres.
  - inv_require as Eold. apply text_eqb_eq in Eold. subst old. inv_keep. apply h_ret. intros w Hat. split; [by exists cr, cp|].
    intros _. destruct Hat as (_ & _ & Hcont). split; [congruence|done].
  - apply (stopForResume_rule restored cr cp r); [done..|]. intros cr' r' Hw' Hs' Hk5 Hr'.
    assert (consistent o k cr' cp) as Hc' by (by apply Hr').
    inv_keep. inv_keep. inv_require.
    match goal with |- hoare _ (cmd_bind _ ?rest) _ _ => assert (hoare (at_files p cr' (Some o)) (rest ()) restored (λ _, I)) as Hend end.
    { assert (consistent o k cr' (Some o)) as Hco by (apply Hr'; by left).
      inv_keep. inv_keep. inv_keep. inv_require. inv_keep. inv_require.
      apply (inv_save p o k _ 8); [done|by apply with_field_wf|done|lia|done|by apply saved_with|].
      intros t r2 _ _ Hr2. apply h_keep; [solve [files_tac]|intros _|intros e w Hw2; eexists _, _; split; [exact Hw2|by apply Hr2]].
      apply h_ret. intros w Hat. split; [by eexists _, _; split; [exact Hat|apply Hr2]|].
      intros _. destruct Hat as (_ & _ & Hcont). done. }
    destruct (text_eqb old o) eqn:Eold.
    + apply text_eqb_eq in Eold. subst old cp. exact Hend.
    + apply (inv_profiles p o k _); [done|intros _; apply Hr'; by left|]. intros _. exact Hend.
Qed.

Lemma resume_rule : hoare I (resume p) restored (λ _, I).
Proof.
  intros w Hw. pose proof (resume_body_rule w Hw) as R. unfold resume, attempt.
  by destruct (resume_body p w) as [[r|[m| | |]] w'].
Qed.

Lemma resume_keeps : keeps I (resume p).
Proof. eapply h_conseq; [apply resume_rule|done| |done]. by intros r w [Hw _]. Qed.

(** *** [run] *)

Lemma readiness_files fuel start r cr cp : keeps (at_files p cr cp) (readiness p fuel start r).
Proof.
  revert cr cp. induction fuel as [|f IH]; intros cr cp; cbn [readiness].
  - files_tac.
  - apply k_bind; [solve [files_tac]|intros now]. destruct (now - start <? readinessMilliseconds); [|apply k_pure].
    do 4 (apply k_bind; [solve [files_tac]|intros ?]). destruct (healthy _ _ _); [|apply k_pure].
    do 2 (apply k_bind; [solve [files_tac]|intros ?]). apply IH.
Qed.

(** A record of a paused operation and what is on disk. *)
Definition holding (cr : option text) (r : jobject) : Prop :=
  jwf r ∧ saved o r ∧ consistent o k cr (Some (paused_text o)) ∧ (k ≤ 5)%nat.

Notation at_paused cr := (at_files (W := W) p cr (Some (paused_text o))).

Lemma holding_save {A} (Q : A → CoordWorld W → Prop) cr r ph (m : jobject → coord A) :
  holding cr r → stage_of (lit ph) = 5%nat →
  (∀ cr' r', holding cr' r' → hoare (at_paused cr') (m r') Q (λ _, I)) →
  hoare (at_paused cr) (cmd_bind (save p r ph) m) Q (λ _, I).
Proof.
  intros (Hw & Hs & Hc & Hk) Hph Hm. apply (inv_save p o k _ 5); [done..|]. intros t r' Hw' Hs' Hr'. apply Hm.
  split_and!; [done|done|by apply Hr'|done].
Qed.

Lemma holding_with cr r key v : is_undefined v = false → policy_key key = false → holding cr r → holding cr (with_field key v r).
Proof. intros Hv Hk (H1 & H2 & H3 & H4). split_and!; [by apply with_field_wf|by apply saved_with|done|done]. Qed.

(** A computation that goes on with a record of the paused operation. *)
Definition pursues {A} (get : A → jobject) (m : coord A) (cr : option text) : Prop :=
  hoare (at_paused cr) m (λ a w, ∃ cr', holding cr' (get a) ∧ at_paused cr' w) (λ _, I).

Lemma pursues_bind {A B} get (m : coord A) cr (f : A → coord B) Q :
  pursues get m cr → (∀ a cr', holding cr' (get a) → hoare (at_paused cr') (f a) Q (λ _, I)) →
  hoare (at_paused cr) (cmd_bind m f) Q (λ _, I).
Proof.
  intros Hm Hf. eapply h_bind; [exact Hm|]. intros a w (cr' & Hh & Hat). exact (Hf a cr' Hh w Hat).
Qed.

Lemma holding_exit cr r : holding cr r → ∀ (e : exn) w, at_paused cr w → I w.
Proof. intros (_ & _ & Hc & _). by apply inv_exit. Qed.
End operations.

Ltac hold_keep Hh := apply h_keep; [solve [files_tac]|intros ?|apply (holding_exit _ _ _ _ _ Hh)].

Section running.
Context {QD : QtData} {QL : QtDataLaws QD} {QB : QtBytes} {BL : QtBytesLaws QB} {RL : RecordLaws QD}.
Context {W : Type} {H : CoordinatorHost W} (p : Paths) {QH : QuietHost W p} {PO : PathsOk p}.
Context (o : text) (Ho : Forall (λ c, 0 <= c < 256) o) (k : nat).

Notation coord A := (prog (CoordWorld W) exn A).
Notation I := (inv (W := W) p o k).
Notation at_paused cr := (at_files (W := W) p cr (Some (paused_text o))).
Notation holds := (holding o k).

Lemma stopTarget_pursues cr r : holds cr r → pursues p o k snd (stopTarget p r) cr.
Proof.
  intros Hh. pose proof Hh as (_ & _ & Hc & _). unfold stopTarget, pursues. cbv zeta.
  apply h_keep; [solve [files_tac]|intros before|by apply inv_exit]. destruct before.
  - do 2 inv_keep. apply h_ret. intros w Hat. by exists cr.
  - inv_keep. apply h_keep; [solve [files_tac]|intros ?|by apply inv_exit]. inv_keep.
    apply h_keep; [by apply (readiness_files p)|intros ready|by apply inv_exit]. destruct ready as [observed|].
    + apply (holding_save p o k); [by apply holding_with|done|]. intros cr' r' Hh'. pose proof Hh' as (_ & _ & Hc' & _).
      inv_keep. apply h_ret. intros w Hat. by exists cr'.
    + intros w Hat. by exists cr, (Some (paused_text o)).
Qed.

Lemma save_pursues cr r ph : holds cr r → stage_of (lit ph) = 5%nat → pursues p o k id (save p r ph) cr.
Proof.
  intros (Hw & Hs & Hc & Hk) Hph.
  assert (∀ t, holds (Some (json_compact (stamped r ph t))) (stamped r ph t)) as Hst.
  { intros t. assert (saved o (stamped r ph t)) as Hs' by (by apply stamped_saved).
    assert (jwf (stamped r ph t)) as Hw' by (by apply stamped_wf).
    split_and!; [done|done| |done]. apply record_stable; [done|]. apply stamped_ok; rewrite Hph; done. }
  eapply h_conseq; [apply (save_rule p cr (Some (paused_text o)))|done| |].
  - intros r' w [[t ->] Hat]. eexists. split; [apply Hst|exact Hat].
  - intros e w [Hat|[t Hat]]; eexists _, _; (split; [exact Hat|]); [done|]. by destruct (Hst t) as (_ & _ & Hc' & _).
Qed.

Lemma commitRollback_pursues cr r : holds cr r → pursues p o k id (commitRollback p r) cr.
Proof.
  intros Hh. pose proof Hh as (_ & _ & Hc & _). unfold commitRollback, pursues. inv_keep.
  eapply (pursues_bind p o k snd); [by apply stopTarget_pursues|]. intros [observed r1] cr1 Hh1. cbn [snd] in Hh1.
  pose proof Hh1 as (_ & _ & Hc1 & _). inv_keep. inv_keep. cbv zeta.
  apply (holding_save p o k); [by apply holding_with|done|]. intros cr2 r2 Hh2. pose proof Hh2 as (_ & _ & Hc2 & _).
  do 5 inv_keep. apply (holding_save p o k); [by apply holding_with|done|]. intros cr3 r3 Hh3.
  pose proof Hh3 as (_ & _ & Hc3 & _). do 3 inv_keep.
  apply (save_pursues cr3); [by apply holding_with|done].
Qed.

Lemma recoverCommit_pursues cr r phase state : holds cr r → pursues p o k id (recoverCommit p phase state r) cr.
Proof.
  intros Hh. pose proof Hh as (_ & _ & Hc & _). unfold recoverCommit, pursues. inv_require.
  destruct (jcontains _ r); [apply h_ret; intros w Hat; by exists cr|]. do 2 inv_keep. cbv zeta.
  apply (save_pursues cr); [by apply holding_with|done].
Qed.

Lemma holdTarget_keeps cr r : holds cr r → hoare (at_paused cr) (holdTarget p r) (λ _, I) (λ _, I).
Proof.
  intros Hh. pose proof Hh as (Hw & Hs & Hc & Hk). unfold holdTarget. inv_keep. inv_require. inv_keep. inv_require.
  do 3 inv_keep. inv_require. inv_keep. cbv zeta.
  apply (inv_save p o k _ 6); [done|by repeat apply with_field_wf|done|lia|done|by repeat apply saved_with|].
  intros t r' _ _ Hr'. apply inv_ret. by apply Hr'.
Qed.

Lemma run_keeps : keeps I (run p).
Proof.
  apply attempt_keeps, inv_open. intros cr cp Hc. unfold run_body. inv_keep. apply (inv_load p o k _); [done|].
  intros r Hl Hw Hp. inv_keep. cbv zeta.
  destruct (_ || _); [by apply inv_ret|].
  destruct (text_eqb _ (lit "resume_requested")).
  { intros w Hat. apply (resume_keeps p o Ho k w). by exists cr, cp. }
  destruct (text_eqb _ (lit "pause_prepared")).
  { intros w Hat. apply (admitRollback_keeps p o Ho k w). by exists cr, cp. }
  inv_keep. destruct (text_eqb _ (lit "held")); [do 2 inv_keep; by apply inv_ret|].
  inv_require as Hph. inv_keep. destruct (_ && _); [inv_keep; inv_require; by apply inv_ret|].
  inv_keep. pose proof (paused_stage _ Hph) as E3.
  destruct (paused_ok o k r cp 5 Hp E3 ltac:(lia)) as (Hk & -> & Hs).
  assert (holds cr r) as Hh by (split_and!; done).
  destruct (is_str _ _).
  - eapply (pursues_bind p o k id); [by apply commitRollback_pursues|]. intros r1 cr1 Hh1. by apply holdTarget_keeps.
  - eapply (pursues_bind p o k id); [by apply recoverCommit_pursues|]. intros r1 cr1 Hh1. by apply holdTarget_keeps.
Qed.

Lemma status_keeps self : keeps I (status p self).
Proof.
  apply attempt_keeps, inv_open. intros cr cp Hc. unfold status_body, ensureRoot, noUncertainCommit, parentFd, get_fs.
  eapply h_conseq; [|done| |].
  - instantiate (1 := λ _ w, at_files p cr cp w). instantiate (1 := λ _ w, at_files p cr cp w).
    change (keeps (at_files p cr cp) (status_body p self)).
    unfold status_body, ensureRoot, noUncertainCommit, parentFd, get_fs. files_tac.
  - intros a w Hat. by exists cr, cp.
  - intros a w Hat. by exists cr, cp.
Qed.

(** *** [prepare] *)

Lemma retained_not_record : retainedPath p ≠ recordPath p.
Proof. unfold retainedPath, recordPath, in_dir. intros E. by apply app_inj_1 in E as [_ E]. Qed.

Lemma files_place path b limit mode m cr cp :
  path ≠ recordPath p → path ≠ p_profiles p → keeps (at_files (W := W) p cr cp) (place_file p path b limit mode m).
Proof.
  intros H1 H2. unfold place_file. apply k_bind; [files_tac|]. intros e. destruct e; [files_tac|]. by apply (files_replace p).
Qed.

(** No record under its name: none was ever prepared. *)
Lemma inv_unknown {A} cr cp (m1 m2 : coord A) :
  consistent o k cr cp → hoare (at_files p cr cp) m1 (λ _, I) (λ _, I) →
  (cr = None → hoare (at_files p cr cp) m2 (λ _, I) (λ _, I)) →
  hoare (at_files p cr cp) (let! known := exists_file (recordPath p) in if known then m1 else m2) (λ _, I) (λ _, I).
Proof.
  intros Hc H1 H2 w Hat. unfold exists_file, gets, cmd_get, cmd_bind.
  case_bool_decide as E; [exact (H1 w Hat)|]. refine (H2 _ w Hat).
  destruct Hat as (_ & <- & _). unfold content, file_at. apply eq_None_not_Some in E. by rewrite E.
Qed.

Lemma jobj_wf l : Forall (λ e, is_undefined e.2 = false) l → jwf (jobj l).
Proof.
  intros Hl. unfold jobj. assert (jwf []) as H0 by apply jwf_nil. revert H0. generalize ([] : jobject).
  induction Hl as [|[key v] l Hv Hl IH]; intros a Ha; [done|]. simpl. apply IH. by apply jwf_jinsert_defined.
Qed.

Lemma prepare_keeps : keeps I (prepare p).
Proof.
  apply attempt_keeps, inv_open. intros cr cp Hc. unfold prepare_body. inv_keep. apply inv_unknown; [done|..].
  - apply (inv_load p o k _); [done|]. intros r Hl Hw Hp. inv_keep. inv_require. inv_keep. by apply inv_ret.
  - intros ->. destruct Hc as [-> ->]. assert (consistent o 0 None (Some o)) as Hc by done.
    inv_keep. cbv zeta. do 2 inv_keep. inv_keep. do 2 inv_keep. inv_require. inv_require.
    destruct (root_not_profiles (p := p)) as (N1 & N2 & N3).
    apply h_keep; [apply files_place; [apply retained_not_record|done]|intros _|by apply inv_exit].
    apply h_keep; [by apply files_place|intros _|by apply inv_exit].
    inv_keep. inv_keep.
    match goal with |- context [json_compact ?r0] => set (r := r0) end.
    assert (consistent o 0 (Some (json_compact r)) (Some o)) as Hr.
    { apply record_stable; [by apply jobj_wf; repeat constructor|].
      assert (phase_stage r = 1%nat) as E1 by reflexivity. unfold phase_ok. rewrite E1. split_and!; [lia|done|lia]. }
    eapply (h_bind _ _ _ (λ _ w, at_files p (Some (json_compact r)) (Some o) w)).
    { eapply h_conseq; [apply (replace_record_rule p (Some o))|done|done|]. intros e w [Hat|Hat]; eexists _, _; by split. }
    intros _. inv_keep. by apply inv_ret.
Qed.

Lemma dispatch_keeps a : keeps I (dispatch p a).
Proof.
  unfold dispatch. destruct a as [|c [|]]; try apply k_pure.
  destruct (text_eqb c (lit "run")); [apply k_bind; [apply run_keeps|intros ?; apply k_pure]|].
  destruct (text_eqb c (lit "resume")); [apply k_bind; [by apply resume_keeps|intros ?; apply k_pure]|].
  destruct (text_eqb c (lit "status")); [apply k_bind; [apply status_keeps|intros ?; apply k_pure]|apply k_pure].
Qed.
End running.
