(* ===== verification/RollbackTheorems.v ===== *)
(** * Theorems about the rollback coordinator

    The operations as one step relation, with other processes between them, and
    what holds of every run: the policy on disk follows the phase of the record,
    a successful resume has restored the original bytes, an uncertain commit
    stops every operation before it does anything, and every operation ends. *)

From stdpp Require Import gmap relations.
From S2P Require Import Prelude Text Json QtInterface Command JsonTokens PauseJson JsonText ConfigCodec RouteState ProfileStore.
From S2P Require Import RollbackState RollbackCoordinator RollbackFiles RollbackSafety RollbackInvariant.
#[local] Open Scope Z_scope.
#[local] Open Scope amnezia_scope.

(** The public operations of [RollbackCoordinator]. *)
Inductive CoordOp := OpPrepare | OpAdmit | OpRequested | OpRun | OpResume | OpStatus (requireSelf : bool).

Section steps.
Context {QD : QtData} {QB : QtBytes} {W : Type} {H : CoordinatorHost W} (p : Paths).

Notation coord A := (prog (CoordWorld W) exn A).

Definition perform (op : CoordOp) : coord CoordResult :=
  match op with
  | OpPrepare => prepare p
  | OpAdmit => admitRollback p
  | OpRequested => rollbackRequested p
  | OpRun => run p
  | OpResume => resume p
  | OpStatus self => status p self
  end.

(** An operation in its own process, which can end at any system call, or a
    change made by another process that leaves the coordinator's files alone. *)
Inductive step : CoordWorld W → CoordWorld W → Prop :=
| step_operation op w : step w (perform op w).2
| step_other w fs outer : quiet p (cw_fs w) fs → step w (MkCoord fs (cw_events w) outer).
End steps.

Section policy.
Context {QD : QtData} {QL : QtDataLaws QD} {QB : QtBytes} {BL : QtBytesLaws QB} {RL : RecordLaws QD}.
Context {W : Type} {H : CoordinatorHost W} (p : Paths) {QH : QuietHost W p} {PO : PathsOk p}.
Context (o : text) (Ho : Forall (λ c, 0 <= c < 256) o) (k : nat).

Notation I := (inv (W := W) p o k).

Lemma perform_keeps op : keeps I (perform p op).
Proof.
  destruct op; simpl;
    [by apply prepare_keeps|by apply admitRollback_keeps|by apply rollbackRequested_keeps|by apply run_keeps|by apply resume_keeps|by apply status_keeps].
Qed.

Lemma quiet_inv w fs outer : quiet p (cw_fs w) fs → I w → I (MkCoord fs (cw_events w) outer).
Proof.
  intros Hq (cr & cp & (fr & fp & Hr & Hp & Hk)%at_files_kept & Hc). exists cr, cp. split; [|done].
  apply at_files_kept. exists fr, fp. split_and!; [done..|]. exact (kept_quiet p _ _ _ (both_guards p fr fp) Hq Hk).
Qed.

Lemma steps_keep w w' : rtc (step p) w w' → I w → I w'.
Proof.
  induction 1 as [|w w1 w' Hs _ IH]; [done|]. intros Hw. apply IH. destruct Hs as [op w|w fs outer Hq].
  - pose proof (perform_keeps op w Hw) as R. by destruct (perform p op w) as [[a|e] w1].
  - by apply quiet_inv.
Qed.
End policy.

Section claims.
Context {QD : QtData} {QL : QtDataLaws QD} {QB : QtBytes} {BL : QtBytesLaws QB} {RL : RecordLaws QD}.
Context {W : Type} {H : CoordinatorHost W} (p : Paths) {QH : QuietHost W p} {PO : PathsOk p}.

(** C4. Whatever operations of the rollback coordinator run, in whatever order,
    however they fail and wherever the process ends, while no other process
    writes the record, the profile store or a staging file beside them
    ([QuietHost]): the profile store holds the original bytes or their paused
    form, and a readable record is in a stage not before the one it started from,
    keeps the original policy from the pause on, and names what the profile store
    holds: the original before the pause and after the resume, the paused form
    between.  The stages are prepared, pause_prepared, profiles_paused,
    rollback_requested, the three phases of following the target
    (old13_observed, old13_stopped, coordinator_commit_pending, which [run] may
    repeat), held, resume_requested, resumed. *)
Theorem coordinator_keeps_policy (o : text) (k : nat) (w w' : CoordWorld W) :
  Forall (λ c, 0 <= c < 256) o → inv p o k w → rtc (step p) w w' →
  either o (content (p_profiles p) (cw_fs w')) ∧
  ∀ b r, content (recordPath p) (cw_fs w') = Some b → object b = Ok r →
    (k ≤ phase_stage r)%nat ∧ policy_at o (phase_stage r) (content (p_profiles p) (cw_fs w'))
    ∧ ((2 ≤ phase_stage r)%nat → saved o r).
Proof.
  intros Ho Hw Hs. destruct (steps_keep p o Ho k w w' Hs Hw) as (cr & cp & (_ & -> & ->) & Hc). destruct cr as [b0|].
  - destruct Hc as [He Hc]. split; [done|]. intros b r [= <-] Hr. by apply Hc.
  - destruct Hc as [_ ->]. split; [by left|done].
Qed.

(** C16. A resume that reports success has restored the original bytes of the
    profile store, whatever the phase it started from; and it reports the code
    [resumed]. *)
Theorem resume_restores (o : text) (k : nat) (w : CoordWorld W) res w' :
  Forall (λ c, 0 <= c < 256) o → inv p o k w → resume p w = (Ok res, w') → rc_ok res = true →
  content (p_profiles p) (cw_fs w') = Some o ∧ rc_code res = lit "resumed" ∧ inv p o k w'.
Proof.
  intros Ho Hw E Hok. pose proof (resume_rule p o Ho k w Hw) as R. rewrite E in R. destruct R as [HI R].
  by destruct (R Hok).
Qed.
End claims.

(** ** An uncertain commit *)

Section uncertain.
Context {QD : QtData} {QB : QtBytes} {W : Type} {H : CoordinatorHost W} (p : Paths) {QH : QuietHost W p}.
Context (w0 : CoordWorld W).

Notation coord A := (prog (CoordWorld W) exn A).

(** No platform call and no change of a guarded file since [w0]. *)
Definition untouched (w : CoordWorld W) : Prop :=
  names_wf (cw_fs w) ∧ (∀ path, guarded p path → file_at path (cw_fs w) = file_at path (cw_fs w0)) ∧ cw_events w = cw_events w0.

Definition stops (e : exn) (w : CoordWorld W) : Prop := untouched w ∧ (e = Killed ∨ ∃ m, e = Throw m).

Definition approaches {A} (m : coord A) : Prop := hoare untouched m (λ _, untouched) stops.

Lemma approaches_bind {A B} (m : coord A) (f : A → coord B) Q :
  approaches m → (∀ a, hoare untouched (f a) Q stops) → hoare untouched (cmd_bind m f) Q stops.
Proof. apply h_bind. Qed.

Lemma approaches_must c m : approaches (must c m).
Proof.
  intros w (Hw & Hf & He). unfold must, syscall, cmd_bind.
  pose proof (quiet_sys (p := p) c (cw_fs w) (cw_outer w) Hw) as [Hw' Hf'].
  destruct (sys c (cw_fs w) (cw_outer w)) as [[r fs] outer]. simpl in Hw', Hf'.
  assert (untouched (MkCoord fs (cw_events w) outer)) as Hu.
  { split_and!; [done| |done]. intros path Hg. simpl. by rewrite Hf', Hf. }
  destruct r as [n| | |]; [done|split; [done|by right; eexists]..|split; [done|by left]].
Qed.

Lemma approaches_parent path : approaches (parentFd path).
Proof. do 2 (apply approaches_bind; [apply approaches_must|intros _]). by apply h_ret. Qed.

(** A staging file in [d] is seen when [d] is listed. *)
Lemma uncertain_stops d temp :
  guarded p temp → staging_in d temp = true → is_Some (file_at temp (cw_fs w0)) →
  hoare (A := ()) untouched (noUncertainCommit d) (λ _ _, False) stops.
Proof.
  intros Hg Hs Hf. unfold noUncertainCommit. apply approaches_bind; [apply approaches_parent|intros _].
  do 2 (apply approaches_bind; [apply approaches_must|intros _]). intros w (Hw & Hk & He). unfold get_fs, gets, cmd_get, cmd_bind.
  assert (uncertain d (cw_fs w) = true) as ->.
  { rewrite <-(Hk temp Hg) in Hf. unfold file_at in Hf. destruct (fs_names (cw_fs w) !! temp) as [i|] eqn:E; [|by destruct Hf].
    apply existsb_exists. exists temp. split; [|done]. apply in_map_iff. exists (temp, i). split; [done|].
    apply list_elem_of_In. by apply elem_of_map_to_list. }
  simpl. split; [done|by right; eexists].
Qed.

Lemma approaches_commit d : hoare untouched (noUncertainCommit d) (λ _, untouched) stops.
Proof.
  unfold noUncertainCommit. apply approaches_bind; [apply approaches_parent|intros _].
  do 2 (apply approaches_bind; [apply approaches_must|intros _]). intros w Hw. unfold get_fs, gets, cmd_get, cmd_bind.
  destruct (negb _); [done|]. simpl. split; [done|by right; eexists].
Qed.

Lemma ensureRoot_stops temp :
  staging_in (p_root p) temp = true ∨ staging_in (dir_of (p_profiles p)) temp = true → is_Some (file_at temp (cw_fs w0)) →
  hoare untouched (ensureRoot p) (λ _ _, False) stops.
Proof.
  intros Hs Hf. assert (guarded p temp) as Hg by (unfold guarded; tauto). unfold ensureRoot.
  apply approaches_bind; [apply approaches_must|intros _]. apply approaches_bind; [apply approaches_parent|intros _].
  do 4 (apply approaches_bind; [apply approaches_must|intros _]). destruct Hs as [Hs|Hs].
  - eapply h_bind; [by eapply uncertain_stops|]. by intros _ w [].
  - apply approaches_bind; [apply approaches_commit|intros _]. by eapply uncertain_stops.
Qed.

(** What an operation that is refused leaves. *)
Definition refuses (m : coord CoordResult) : Prop :=
  hoare untouched m (λ res w, rc_ok res = false ∧ untouched w) (λ e w, e = Killed ∧ untouched w).

Lemma attempt_refuses {A} code (first : coord A) rest :
  hoare untouched first (λ _ _, False) stops → refuses (attempt code (cmd_bind first rest)).
Proof.
  intros Hf w Hw. specialize (Hf w Hw). unfold attempt, cmd_bind. destruct (first w) as [[a|e] w']; [done|].
  by destruct Hf as [Hu [->|[m ->]]].
Qed.

Lemma perform_refuses temp op :
  staging_in (p_root p) temp = true ∨ staging_in (dir_of (p_profiles p)) temp = true → is_Some (file_at temp (cw_fs w0)) →
  refuses (perform p op).
Proof.
  intros Hs Hf. assert (hoare untouched (begin p) (λ _ _, False) stops) as Hb.
  { unfold begin. eapply h_bind; [by eapply ensureRoot_stops|]. by intros _ w []. }
  destruct op; simpl; apply attempt_refuses; [done..|]. by eapply ensureRoot_stops.
Qed.
End uncertain.

(** C26. A staging file left in the coordinator's or the profile store's directory
    by an interrupted commit stops every operation: it reports a failure (or the
    process ends), it calls no platform operation and it changes neither the
    record, nor the profile store, nor any staging file. *)
Theorem uncertain_commit_refused {QD : QtData} {QB : QtBytes} {W : Type} {H : CoordinatorHost W} (p : Paths) {QH : QuietHost W p}
    (op : CoordOp) (temp : text) (w : CoordWorld W) :
  names_wf (cw_fs w) → is_Some (fs_names (cw_fs w) !! temp) →
  staging_in (p_root p) temp = true ∨ staging_in (dir_of (p_profiles p)) temp = true →
  let '(r, w') := perform p op w in
  match r with Ok res => rc_ok res = false | Err e => e = Killed end
  ∧ cw_events w' = cw_events w ∧ ∀ path, guarded p path → file_at path (cw_fs w') = file_at path (cw_fs w).
Proof.
  intros Hw [i Hi] Hs. destruct (Hw temp i Hi) as [f Hf].
  assert (is_Some (file_at temp (cw_fs w))) as Hat by (unfold file_at; rewrite Hi; simpl; rewrite Hf; by eexists).
  pose proof (perform_refuses p w temp op Hs Hat w ltac:(by split_and!)) as R.
  destruct (perform p op w) as [[res|e] w']; destruct R as [? (_ & ? & ?)]; by split_and!.
Qed.
