(* ===== verification/RollbackTermination.v ===== *)
(** * The rollback coordinator ends

    Every loop of the coordinator is bounded: the edit of the profile store by
    its tokens, the read and write loops by the bytes they may still move and
    the signals that may still interrupt them, and the wait for the rollback
    target by the clock.  So the fuel of the model is never used up, for any
    host whose clock does not go back and advances in a wait, and that delivers
    finitely many signals. *)

From stdpp Require Import gmap.
From S2P Require Import Prelude Text Json QtInterface Command JsonTokens PauseJson PausedStore JsonText ConfigCodec RouteState ProfileStore.
From S2P Require Import RollbackState RollbackCoordinator RollbackTheorems.
#[local] Open Scope Z_scope.
#[local] Open Scope amnezia_scope.

(** The monotonic clock of a host, and [QThread::msleep(250)]. *)
Class SteadyClock (W : Type) `{CoordinatorHost W} (clock : W → Z) : Prop := {
  clock_read w : (monotonic w).1 = clock w ∧ clock w <= clock (monotonic w).2;
  clock_sys c fs w : clock w <= clock (sys c fs w).2;
  clock_platform op fs w : clock w <= clock (platform op fs w).2;
  clock_observe fs w : clock w <= clock (observe_host fs w).2;
  clock_uuid w : clock w <= clock (new_uuid w).2;
  clock_now w : clock w <= clock (now_text w).2;
  clock_wait fs w : clock w + 250 <= clock (wait_retry fs w).2;
}.

(** A read or a write that is interrupted has used up one of the signals left. *)
Class FiniteSignals (W : Type) `{CoordinatorHost W} : Prop := {
  signals_sys c fs w :
    (signals (sys c fs w).2 + match (sys c fs w).1.1 with Eintr => 1 | _ => 0 end <= signals w)%N;
}.

Section ends.
Context {QD : QtData} {QS : QtJsonScalar} {JL : JsonGrammarLaws QD QS} {QB : QtBytes}.
Context {W : Type} {H : CoordinatorHost W} (clock : W → Z) {SC : SteadyClock W clock} {FS : FiniteSignals W} (p : Paths).

Notation coord A := (prog (CoordWorld W) exn A).

Definition after (t : Z) (w : CoordWorld W) : Prop := t <= clock (cw_outer w).

Definition in_fuel (e : exn) (w : CoordWorld W) : Prop := e ≠ OutOfFuel.

(** A computation that ends by itself, with a clock that does not go back. *)
Definition ends {A} (m : coord A) : Prop := ∀ t, hoare (after t) m (λ _, after t) in_fuel.

Lemma timely_bind {A B} (m : coord A) (f : A → coord B) : ends m → (∀ a, ends (f a)) → ends (cmd_bind m f).
Proof. intros Hm Hf t. eapply h_bind; [apply Hm|]. intros a. apply Hf. Qed.

Lemma ends_pure {A} (a : A) : ends (pure a).
Proof. intros t. by apply h_ret. Qed.

Lemma ends_throw {A} m : ends (throw (A := A) m).
Proof. by intros t w Hw. Qed.

Lemma ends_require b m : ends (require b m).
Proof. by destruct b; intros t w Hw. Qed.

Lemma ends_some_or {A} (a : option A) m : ends (some_or a m).
Proof. by destruct a; intros t w Hw. Qed.

Lemma ends_gets {A} (f : CoordWorld W → A) : ends (gets f).
Proof. by intros t w Hw. Qed.

Lemma ends_put f : ends (put_fs f).
Proof. by intros t w Hw. Qed.

Lemma ends_object b : ends (cmd_ret (object b)).
Proof. intros t w Hw. unfold cmd_ret, object. by destruct (json_parse b) as [[]|]. Qed.

Lemma ends_paused b : ends (paused_of b).
Proof.
  intros t w Hw. unfold paused_of, cmd_ret. pose proof (pauseJson_cases b) as R. destruct (pauseJson b) as [[]|e]; [done|].
  by destruct R as [m ->].
Qed.

Lemma ends_syscall c : ends (syscall c).
Proof.
  intros t w Hw. unfold syscall. pose proof (clock_sys (clock := clock) c (cw_fs w) (cw_outer w)) as Hc. unfold after in *.
  destruct (sys c (cw_fs w) (cw_outer w)) as [[[n| | |] fs] outer]; simpl in *; [lia|lia|lia|done].
Qed.

(** [b] interruptions are left at most. *)
Definition at_most (b : N) (w : CoordWorld W) : Prop := (signals (cw_outer w) <= b)%N.

Lemma transfer_rule t b c :
  hoare (λ w, after t w ∧ at_most b w) (transfer c)
    (λ r w, after t w ∧ ∃ b', at_most b' w ∧ (b' + match r with Again => 1 | _ => 0 end <= b)%N) in_fuel.
Proof.
  intros w [Hw Hb]. unfold transfer. pose proof (clock_sys (clock := clock) c (cw_fs w) (cw_outer w)) as Hc.
  pose proof (signals_sys c (cw_fs w) (cw_outer w)) as Hs. unfold after, at_most in *.
  destruct (sys c (cw_fs w) (cw_outer w)) as [[[n| | |] fs] outer]; simpl in *; [..|done];
    (split; [lia|exists (signals outer); lia]).
Qed.

(** A loop over a transfer: [left s] bytes may still be moved. *)
Lemma ends_transfer {S A} (left : S → N) size (body : S → coord (S + A)) s :
  (left s <= size)%N →
  (∀ t s b, hoare (λ w, after t w ∧ at_most b w) (body s)
     (round_post (λ s' w, after t w ∧ ∃ b', at_most b' w ∧ (left s' + b' + 1 <= left s + b)%N) (λ _, after t)) in_fuel) →
  ends (transfer_loop size body s).
Proof.
  intros Hs Hb t.
  apply (h_transfer_ends (λ n s w, after t w ∧ ∃ b, at_most b w ∧ (left s + b <= n)%N)).
  - intros n s' w (Hw & b & Hat & Hn). specialize (Hb t s' b w (conj Hw Hat)).
    destruct (body s' w) as [[[s2|a]|e] w']; [|done..]. destruct Hb as (Hw' & b' & Hat' & Hl).
    exists (left s2 + b')%N. split; [lia|]. split; [done|]. exists b'. split; [done|lia].
  - intros w Hw. split; [done|]. exists (signals (cw_outer w)). unfold at_most. split; lia.
Qed.

Lemma ends_must c m : ends (must c m).
Proof. apply timely_bind; [apply ends_syscall|]. intros [n|]; [apply ends_pure|apply ends_throw]. Qed.

Lemma ends_uuid : ends (fresh_text new_uuid).
Proof.
  intros t w Hw. unfold fresh_text. pose proof (clock_uuid (clock := clock) (cw_outer w)) as Hc. unfold after in *.
  destruct (new_uuid (cw_outer w)). simpl in *. lia.
Qed.

Lemma ends_timestamp : ends timestamp.
Proof.
  intros t w Hw. unfold timestamp, fresh_text. pose proof (clock_now (clock := clock) (cw_outer w)) as Hc. unfold after in *.
  destruct (now_text (cw_outer w)). simpl in *. lia.
Qed.

Lemma ends_platform op : ends (call_platform op).
Proof.
  apply timely_bind; [apply ends_syscall|]. intros _ t w Hw.
  pose proof (clock_platform (clock := clock) op (cw_fs w) (cw_outer w)) as Hc. unfold after in *.
  destruct (platform op (cw_fs w) (cw_outer w)) as [[b fs] outer]. simpl in *. lia.
Qed.

Lemma ends_observe : ends observe.
Proof.
  apply timely_bind; [apply ends_syscall|]. intros _ t w Hw.
  pose proof (clock_observe (clock := clock) (cw_fs w) (cw_outer w)) as Hc. unfold after in *.
  destruct (observe_host (cw_fs w) (cw_outer w)) as [[b fs] outer]. simpl in *. lia.
Qed.

(** A reading of the clock is not before any moment that has passed. *)
Lemma milliseconds_rule t : hoare (after t) milliseconds (λ now w, t <= now ∧ after now w) in_fuel.
Proof.
  unfold milliseconds. eapply h_bind; [apply (ends_must SClock _ t)|]. intros _ w Hw.
  pose proof (clock_read (clock := clock) (cw_outer w)) as [Hr Hc]. unfold after in *.
  destruct (monotonic (cw_outer w)) as [now outer]. simpl in *. lia.
Qed.

Lemma ends_milliseconds : ends milliseconds.
Proof.
  intros t. eapply h_conseq; [apply milliseconds_rule|done| |done]. unfold after. intros now w ?. lia.
Qed.

Lemma wait_rule t : hoare (after t) waitForObservationRetry (λ _, after (t + 250)) in_fuel.
Proof.
  intros w Hw. unfold waitForObservationRetry. pose proof (clock_wait (clock := clock) (cw_fs w) (cw_outer w)) as Hc.
  unfold after in *. destruct (wait_retry (cw_fs w) (cw_outer w)) as [fs outer]. simpl in *. lia.
Qed.
End ends.

Create HintDb ends discriminated.
#[export] Hint Resolve ends_pure ends_throw ends_require ends_some_or ends_gets ends_put ends_object ends_paused ends_syscall
  ends_must ends_uuid ends_timestamp ends_platform ends_observe ends_milliseconds : ends.

Ltac ends_step :=
  first
    [ solve [eauto with ends typeclass_instances]
    | lazymatch goal with
      | |- ends _ (cmd_bind _ _) => apply timely_bind; [|intros ?]
      | |- ends _ (if ?b then _ else _) => destruct b
      | |- ends _ (match ?x with _ => _ end) => destruct x
      end ].
Ltac ends_tac := repeat (cbv zeta beta; ends_step).

Section operations.
Context {QD : QtData} {QS : QtJsonScalar} {JL : JsonGrammarLaws QD QS} {QB : QtBytes}.
Context {W : Type} {H : CoordinatorHost W} (clock : W → Z) {SC : SteadyClock W clock} {FS : FiniteSignals W} (p : Paths).

Notation coord A := (prog (CoordWorld W) exn A).
Notation ends := (ends clock).

(** Every round of the read loop is interrupted, ends it or adds a byte within
    the limit. *)
Lemma ends_read_loop path i limit : ends (transfer_loop (Z.to_N limit) (read_round path i limit) []).
Proof.
  apply (ends_transfer clock (λ bytes : text, Z.to_N (limit - tsize bytes))); [unfold tsize; simpl; lia|].
  intros t bytes b. unfold read_round. eapply h_bind; [apply (transfer_rule clock)|]. intros [n| |].
  - eapply h_bind; [by apply (h_gets _ cw_fs (λ _ w, after clock t w ∧ ∃ b', at_most b' w ∧ (b' <= b)%N)); intros w (? & b' & ? & ?); split; [|exists b'; split; [|lia]]|].
    intros fs. eapply (h_bind _ _ _ (λ _ w, after clock t w ∧ ∃ b', at_most b' w ∧ (b' <= b)%N)).
    { destruct (fs_inodes fs !! i); [by apply h_ret|]. by intros w _. }
    intros f. cbv zeta. destruct (take _ (drop _ (f_bytes f))) as [|c data] eqn:E; [apply h_ret; by intros w [? _]|].
    destruct (Z.leb_spec (tsize (bytes ++ c :: data)) limit) as [Hl|Hl]; [|by intros w _].
    apply h_ret. intros w (Hw & b' & Hb & Hle). split; [done|]. exists b'. split; [done|].
    unfold tsize in *. rewrite length_app in *. simpl in *. lia.
  - apply h_ret. intros w (Hw & b' & Hb & Hle). split; [done|]. exists b'. split; [done|lia].
  - by intros w _.
Qed.

Lemma ends_protected owner path limit : ends (readProtected owner path limit).
Proof. pose proof ends_read_loop. unfold readProtected, parentFd, get_fs. ends_tac; auto. Qed.

Lemma ends_read owner path limit : ends (read_bytes owner path limit).
Proof. pose proof ends_protected. unfold read_bytes. ends_tac; auto. Qed.

(** Every round of the write loop is interrupted or has a byte less to write. *)
Lemma ends_write path i bytes : ends (write_loop path i bytes).
Proof.
  apply (ends_transfer clock (λ used : nat, N.of_nat (length bytes - used))); [lia|].
  intros t used b. unfold write_round. destruct (Nat.ltb_spec used (length bytes)) as [Hu|Hu]; [|apply h_ret; by intros w [? _]].
  eapply h_bind; [apply (transfer_rule clock)|]. intros [n| |].
  - cbv zeta. destruct (Nat.ltb_spec 0 (Nat.min n (length bytes - used))) as [Hn|Hn]; [|by intros w _].
    apply h_bind with (R := λ _ w, after clock t w ∧ ∃ b', at_most b' w ∧ (b' + 0 <= b)%N); [by apply h_ret|].
    intros []. eapply h_bind.
    { apply (h_modify _ _ (λ _ w, after clock t w ∧ ∃ b', at_most b' w ∧ (b' <= b)%N)).
      intros w (Hw & b' & Hb & Hle). split; [done|]. exists b'. split; [done|lia]. }
    intros []. apply h_ret. intros w (Hw & b' & Hb & Hle). split; [done|]. exists b'. split; [done|lia].
  - apply h_ret. intros w (Hw & b' & Hb & Hle). split; [done|]. exists b'. split; [done|lia].
  - by intros w _.
Qed.

Lemma ends_replace owner path bytes expected mode : ends (replace owner path bytes expected mode).
Proof.
  pose proof ends_protected as Hp. pose proof ends_write as Hw.
  unfold replace, stage, create, commit_exchange, commit_rename, parentFd, get_fs. ends_tac; auto.
Qed.
End operations.
#[export] Hint Resolve ends_read ends_replace : ends.

Section reading.
Context {QD : QtData} {QS : QtJsonScalar} {JL : JsonGrammarLaws QD QS} {QB : QtBytes}.
Context {W : Type} {H : CoordinatorHost W} (clock : W → Z) {SC : SteadyClock W clock} {FS : FiniteSignals W} (p : Paths).

Notation ends := (ends clock).

Lemma ends_read_object owner path limit : ends (read_object owner path limit).
Proof. unfold read_object. ends_tac. Qed.

Lemma ends_ensureRoot : ends (ensureRoot p).
Proof. unfold ensureRoot, noUncertainCommit, parentFd, get_fs. ends_tac. Qed.

Lemma ends_lock path m : ends (lock path m).
Proof. unfold lock. ends_tac. Qed.

Lemma ends_must_platform op m : ends (must_platform op m).
Proof. unfold must_platform. ends_tac. Qed.

Lemma ends_healthy o r final : ends (must_be_healthy o r final).
Proof. unfold must_be_healthy. ends_tac. Qed.

Lemma ends_exists path : ends (exists_file path).
Proof. apply ends_gets. Qed.

Lemma ends_canonical path : ends (canonical path).
Proof. apply ends_gets. Qed.

Lemma ends_pair d : ends (pair p d).
Proof. unfold pair. ends_tac. Qed.
End reading.
#[export] Hint Resolve ends_read_object ends_ensureRoot ends_lock ends_must_platform ends_healthy ends_exists ends_canonical ends_pair : ends.

Section records.
Context {QD : QtData} {QS : QtJsonScalar} {JL : JsonGrammarLaws QD QS} {QB : QtBytes}.
Context {W : Type} {H : CoordinatorHost W} (clock : W → Z) {SC : SteadyClock W clock} {FS : FiniteSignals W} (p : Paths).

Notation ends := (ends clock).

Lemma ends_begin : ends (begin p).
Proof. unfold begin. ends_tac. Qed.

Lemma ends_load : ends (load p).
Proof. unfold load. ends_tac. Qed.

Lemma ends_save r ph : ends (save p r ph).
Proof. unfold save. ends_tac. Qed.

Lemma ends_verify r self : ends (verifyRetained p r self).
Proof. unfold verifyRetained. ends_tac. Qed.

Lemma ends_target r : ends (targetPair p r).
Proof. unfold targetPair. ends_tac. Qed.

Lemma ends_policy r : ends (pausedPolicy p r).
Proof. unfold pausedPolicy. ends_tac. Qed.

Lemma ends_evidence r : ends (pendingEvidence p r).
Proof. unfold pendingEvidence. ends_tac. Qed.
End records.
#[export] Hint Resolve ends_begin ends_load ends_save ends_verify ends_target ends_policy ends_evidence : ends.

Section running.
Context {QD : QtData} {QS : QtJsonScalar} {JL : JsonGrammarLaws QD QS} {QB : QtBytes}.
Context {W : Type} {H : CoordinatorHost W} (clock : W → Z) {SC : SteadyClock W clock} {FS : FiniteSignals W} (p : Paths).

Notation ends := (ends clock).
Notation after := (after clock).

Lemma ends_then {A B} t (m : prog (CoordWorld W) exn A) (f : A → prog (CoordWorld W) exn B) Q :
  ends m → (∀ a, hoare (after t) (f a) Q in_fuel) → hoare (after t) (cmd_bind m f) Q in_fuel.
Proof. intros Hm. apply h_bind, Hm. Qed.

(** After [n] waits the clock shows [n] quarters of a second more. *)
Lemma readiness_rule fuel start r n :
  60 <= n + Z.of_nat fuel → 0 <= n →
  hoare (after (start + 250 * n)) (readiness p fuel start r) (λ _, after start) in_fuel.
Proof.
  revert n. induction fuel as [|f IH]; intros n Hn H0; cbn [readiness];
    (eapply h_bind; [apply (milliseconds_rule clock)|]; intros now; apply h_fact; intros Hnow).
  - unfold readinessMilliseconds. destruct (Z.ltb_spec (now - start) 15000); [lia|]. apply h_ret. unfold RollbackTermination.after. lia.
  - apply (h_pre (after (start + 250 * n))); [unfold RollbackTermination.after; lia|].
    unfold readinessMilliseconds. destruct (Z.ltb_spec (now - start) 15000); [|apply h_ret; unfold RollbackTermination.after; lia].
    do 3 (apply ends_then; [by auto with ends|intros _]). apply ends_then; [by auto with ends|intros observed].
    destruct (healthy observed r false); [|apply h_ret; unfold RollbackTermination.after; lia].
    eapply h_bind; [apply (milliseconds_rule clock)|]. intros now'. apply h_fact. intros Hnow'.
    destruct (Z.ltb_spec (now' - start) 15000).
    + apply (h_bind _ _ _ (λ _, after (now' + 250))); [apply (wait_rule clock)|]. intros _.
      eapply h_pre; [|apply (IH (n + 1)); lia]. unfold RollbackTermination.after. lia.
    + eapply (h_bind _ _ _ (λ _, after now')); [by apply h_ret|]. intros _.
      eapply h_pre; [|apply (IH 60); lia]. unfold RollbackTermination.after. lia.
Qed.

Lemma ends_stopTarget r : ends (stopTarget p r).
Proof.
  unfold stopTarget. cbv zeta. apply timely_bind; [ends_tac|]. intros before. destruct before; [ends_tac|].
  apply timely_bind; [ends_tac|]. intros idle. apply timely_bind; [ends_tac|]. intros _ t.
  eapply h_bind; [apply (milliseconds_rule clock)|]. intros start. apply h_fact. intros Ht.
  eapply h_bind; [eapply h_pre; [|apply (readiness_rule readinessRounds start r 0); unfold readinessRounds; lia];
                  unfold RollbackTermination.after; lia|].
  intros [observed|]; [|by intros w Hw].
  apply (h_pre (after t)); [unfold RollbackTermination.after; lia|].
  refine ((_ : ends _) t). ends_tac.
Qed.

(** A computation that ends by itself. *)
Definition finishes {A} (m : prog (CoordWorld W) exn A) : Prop := hoare (λ _, True) m (λ _ _, True) in_fuel.

Lemma ends_finishes {A} (m : prog (CoordWorld W) exn A) : ends m → finishes m.
Proof. intros Hm w _. specialize (Hm (clock (cw_outer w)) w (Z.le_refl _)). by destruct (m w) as [[a|e] w']. Qed.

Lemma finishes_bind {A B} (m : prog (CoordWorld W) exn A) (f : A → prog (CoordWorld W) exn B) :
  ends m → (∀ a, finishes (f a)) → finishes (cmd_bind m f).
Proof. intros Hm. apply h_bind. by apply ends_finishes. Qed.

Lemma finishes_attempt code body : finishes body → finishes (attempt code body).
Proof. intros Hb w _. specialize (Hb w Logic.I). unfold attempt. by destruct (body w) as [[a|[]] w']. Qed.
End running.
#[export] Hint Resolve ends_stopTarget : ends.

Section whole.
Context {QD : QtData} {QS : QtJsonScalar} {JL : JsonGrammarLaws QD QS} {QB : QtBytes}.
Context {W : Type} {H : CoordinatorHost W} (clock : W → Z) {SC : SteadyClock W clock} {FS : FiniteSignals W} (p : Paths).

Notation ends := (ends clock).

Lemma ends_commit r : ends (commitRollback p r).
Proof. unfold commitRollback. ends_tac. Qed.

Lemma ends_recover phase state r : ends (recoverCommit p phase state r).
Proof. unfold recoverCommit. ends_tac. Qed.

Lemma ends_hold r : ends (holdTarget p r).
Proof. unfold holdTarget. ends_tac. Qed.

Lemma ends_admit : ends (admitRollback_body p).
Proof. unfold admitRollback_body, finishPause. ends_tac. Qed.

Lemma ends_resume : ends (resume_body p).
Proof. unfold resume_body, stopForResume. ends_tac. Qed.

Lemma ends_prepare : ends (prepare_body p).
Proof. unfold prepare_body, rollbackTarget, place_file. ends_tac. Qed.

Lemma ends_requested : ends (rollbackRequested_body p).
Proof. unfold rollbackRequested_body. ends_tac. Qed.

Lemma finishes_run : finishes (run_body p).
Proof.
  assert (finishes (resume p)) as Hr by (apply finishes_attempt, (ends_finishes clock), ends_resume).
  assert (finishes (admitRollback p)) as Ha by (apply finishes_attempt, (ends_finishes clock), ends_admit).
  unfold run_body. do 3 (apply (finishes_bind clock); [ends_tac|intros ?]). cbv zeta.
  case_match; [by apply (ends_finishes clock), ends_pure|]. case_match; [done|]. case_match; [done|].
  apply (ends_finishes clock). pose proof ends_commit. pose proof ends_recover. pose proof ends_hold. ends_tac; auto.
Qed.

Lemma perform_finishes op : finishes (perform p op).
Proof.
  destruct op; simpl; apply finishes_attempt; [..|apply finishes_run| |]; apply (ends_finishes clock);
    [apply ends_prepare|apply ends_admit|apply ends_requested|apply ends_resume|]. unfold status_body. ends_tac.
Qed.

(** C27. Every operation of the rollback coordinator ends, whatever the files hold
    and whatever the system calls and the platform answer, when the clock does
    not go back, a wait takes its 250 milliseconds and only finitely many signals
    interrupt its reads and writes: every round of the read loop adds a byte
    within the size limit, even while another process makes the file grow, every
    round of the write loop has a byte less to write, an interrupted call is
    repeated, and the wait for the rollback target is bounded by its 15 seconds. *)
Theorem coordinator_terminates op w : (perform p op w).1 ≠ Err OutOfFuel.
Proof.
  pose proof (perform_finishes op w Logic.I) as R. destruct (perform p op w) as [[a|e] w']; [done|]. simpl. unfold in_fuel in R. congruence.
Qed.
End whole.
