(* ===== verification/RollbackAcknowledge.v ===== *)
(** * When the rollback is acknowledged

    [platform->acknowledge] ends the updater's transaction, so it must not be
    called while the older daemon runs, nor before the coordinator can recover
    from an interruption.  The calls of the platform are followed through every
    operation. *)

From stdpp Require Import gmap.
From S2P Require Import Prelude Text Json QtInterface Command JsonTokens PauseJson JsonText ConfigCodec RouteState ProfileStore.
From S2P Require Import RollbackState RollbackCoordinator RollbackFiles RollbackSafety RollbackInvariant RollbackTheorems.
#[local] Open Scope Z_scope.
#[local] Open Scope amnezia_scope.

Definition acknowledges (op : PlatformOp) : bool := match op with PAcknowledge _ => true | _ => false end.

(** The last call found the service stopped. *)
Definition stopped_last (l : list Event) : Prop := ∃ fs, last l = Some (MkEvent PStopped fs true).

Section events.
Context {QD : QtData} {QB : QtBytes} {W : Type} {H : CoordinatorHost W} (p : Paths).

Notation coord A := (prog (CoordWorld W) exn A).

(** *** Computations that call no platform operation *)

Definition still {A} (m : coord A) : Prop := ∀ l, keeps (λ w, cw_events w = l) m.

Lemma still_bind {A B} (m : coord A) (f : A → coord B) : still m → (∀ a, still (f a)) → still (cmd_bind m f).
Proof. intros Hm Hf l. apply k_bind; [apply Hm|]. intros a. apply Hf. Qed.

Lemma still_ret {A} (r : result exn A) : still (cmd_ret r).
Proof. intros l. apply k_ret. Qed.

Lemma still_throw {A} m : still (throw (A := A) m).
Proof. intros l. apply keeps_throw. Qed.

Lemma still_require b m : still (require b m).
Proof. intros l. apply keeps_require. Qed.

Lemma still_some_or {A} (a : option A) m : still (some_or a m).
Proof. intros l. apply keeps_some_or. Qed.

Lemma still_gets {A} (f : CoordWorld W → A) : still (gets f).
Proof. by intros l w Hw. Qed.

Lemma still_leave {A} (e : exn) : still (leave (A := A) e).
Proof. by intros l w Hw. Qed.

Lemma still_put f : still (put_fs f).
Proof. by intros l w Hw. Qed.

Lemma still_syscall c : still (syscall c).
Proof. intros l w Hw. unfold syscall. by destruct (sys c (cw_fs w) (cw_outer w)) as [[[n| | |] fs] outer]. Qed.

Lemma still_transfer c : still (transfer c).
Proof. intros l w Hw. unfold transfer. by destruct (sys c (cw_fs w) (cw_outer w)) as [[[n| | |] fs] outer]. Qed.

Lemma still_transfer_loop {S A} size (body : S → coord (S + A)) s : (∀ s, still (body s)) → still (transfer_loop size body s).
Proof. intros Hb l. apply keeps_transfer_loop. intros s'. apply Hb. Qed.

Lemma still_must c m : still (must c m).
Proof. apply still_bind; [apply still_syscall|]. intros [n|]; [apply still_ret|apply still_throw]. Qed.

Lemma still_fresh next : still (fresh_text next).
Proof. intros l w Hw. unfold fresh_text. by destruct (next (cw_outer w)). Qed.

Lemma still_timestamp : still timestamp.
Proof. apply still_fresh. Qed.

Lemma still_exists path : still (exists_file path).
Proof. apply still_gets. Qed.

Lemma still_observe : still observe.
Proof.
  apply still_bind; [apply still_syscall|]. intros _ l w Hw. by destruct (observe_host (cw_fs w) (cw_outer w)) as [[b fs] outer].
Qed.

Lemma still_milliseconds : still milliseconds.
Proof. apply still_bind; [apply still_must|]. intros _ l w Hw. by destruct (monotonic (cw_outer w)). Qed.

Lemma still_wait : still waitForObservationRetry.
Proof. intros l w Hw. unfold waitForObservationRetry. by destruct (wait_retry (cw_fs w) (cw_outer w)). Qed.
End events.

Create HintDb still discriminated.
#[export] Hint Resolve still_ret still_throw still_require still_some_or still_gets still_leave still_put still_syscall still_transfer still_must still_fresh still_timestamp still_exists
  still_observe still_milliseconds still_wait : still.

Ltac still_step :=
  first
    [ solve [eauto with still]
    | lazymatch goal with
      | |- still (cmd_bind _ _) => apply still_bind; [|intros ?]
      | |- still (transfer_loop _ _ _) => apply still_transfer_loop; intros ?
      | |- still (if ?b then _ else _) => destruct b
      | |- still (match ?x with _ => _ end) => destruct x
      end ].
Ltac still_tac := repeat (cbv zeta beta; still_step).

Section still.
Context {QD : QtData} {QB : QtBytes} {W : Type} {H : CoordinatorHost W} (p : Paths).

Lemma still_protected owner path limit : still (readProtected (W := W) owner path limit).
Proof. unfold readProtected, read_round, parentFd, get_fs. still_tac. Qed.

Lemma still_write path i bytes : still (write_loop (W := W) path i bytes).
Proof. unfold write_loop, write_round. still_tac. Qed.

Lemma still_replace owner path bytes expected mode : still (replace (W := W) owner path bytes expected mode).
Proof.
  pose proof still_protected as Hp. pose proof still_write as Hw.
  unfold replace, stage, create, commit_exchange, commit_rename, parentFd, get_fs. still_tac; auto.
Qed.

Lemma still_read owner path limit : still (read_bytes (W := W) owner path limit).
Proof. apply still_bind; [apply still_protected|]. intros r. still_tac. Qed.
End still.
#[export] Hint Resolve still_replace still_read : still.

Section still2.
Context {QD : QtData} {QB : QtBytes} {W : Type} {H : CoordinatorHost W} (p : Paths).

Lemma still_read_object owner path limit : still (read_object (W := W) owner path limit).
Proof. unfold read_object. still_tac. Qed.

Lemma still_begin : still (W := W) (begin p).
Proof. unfold begin, ensureRoot, noUncertainCommit, parentFd, get_fs, lock. still_tac. Qed.

Lemma still_lock path m : still (lock (W := W) path m).
Proof. unfold lock. still_tac. Qed.

Lemma still_healthy o r final : still (must_be_healthy (W := W) o r final).
Proof. unfold must_be_healthy. still_tac. Qed.

Lemma still_pair d : still (W := W) (pair p d).
Proof. unfold pair. still_tac. Qed.
End still2.
#[export] Hint Resolve still_read_object still_begin still_lock still_healthy still_pair : still.

Section still3.
Context {QD : QtData} {QB : QtBytes} {W : Type} {H : CoordinatorHost W} (p : Paths).

Lemma still_load : still (W := W) (load p).
Proof. unfold load. still_tac. Qed.

Lemma still_save r ph : still (W := W) (save p r ph).
Proof. unfold save, timestamp. still_tac. Qed.

Lemma still_verify r self : still (W := W) (verifyRetained p r self).
Proof. unfold verifyRetained. still_tac. Qed.

Lemma still_target r : still (W := W) (targetPair p r).
Proof. unfold targetPair. still_tac. Qed.

Lemma still_policy r : still (W := W) (pausedPolicy p r).
Proof. unfold pausedPolicy. still_tac. Qed.

Lemma still_evidence r : still (W := W) (pendingEvidence p r).
Proof. unfold pendingEvidence, canonical. still_tac. Qed.

Lemma still_place path b limit mode m : still (W := W) (place_file p path b limit mode m).
Proof. unfold place_file, exists_file. still_tac. Qed.

Lemma still_rollbackTarget s : still (W := W) (rollbackTarget p s).
Proof. unfold rollbackTarget, canonical. still_tac. Qed.
End still3.
#[export] Hint Resolve still_load still_save still_verify still_target still_policy still_evidence still_place still_rollbackTarget : still.

Lemma still_readiness {QD : QtData} {QB : QtBytes} {W : Type} {H : CoordinatorHost W} (p : Paths) fuel start r :
  still (W := W) (readiness p fuel start r).
Proof.
  induction fuel as [|f IH]; cbn [readiness]; [still_tac|]. apply still_bind; [still_tac|intros now].
  destruct (now - start <? readinessMilliseconds); [|still_tac]. do 4 (apply still_bind; [still_tac|intros ?]).
  destruct (healthy _ _ _); [|still_tac]. do 2 (apply still_bind; [still_tac|intros ?]). exact IH.
Qed.
#[export] Hint Resolve still_readiness : still.

(** ** The acknowledgements *)

Section acks.
Context {QD : QtData} {QL : QtDataLaws QD} {QB : QtBytes} {BL : QtBytesLaws QB} {RL : RecordLaws QD}.
Context {W : Type} {H : CoordinatorHost W} (p : Paths) {QH : QuietHost W p} {PO : PathsOk p}.
Context (o : text).

Notation coord A := (prog (CoordWorld W) exn A).

(** What an acknowledgement needs, at the moment of the call. *)
Definition ack_ok (before : list Event) (e : Event) : Prop :=
  ∀ v, ev_op e = PAcknowledge v →
    stopped_last before ∧ content (p_profiles p) (ev_fs e) = Some (paused_text o)
    ∧ ∃ r, content (recordPath p) (ev_fs e) = Some (json_compact r) ∧ saved o r
           ∧ field_text "phase" r = lit "coordinator_commit_pending" ∧ field_text "targetVersion" r = v.

Definition acks_ok (l : list Event) : Prop := ∀ l1 e l2, l = l1 ++ e :: l2 → ack_ok l1 e.

Definition J (w : CoordWorld W) : Prop := acks_ok (cw_events w).

Lemma acks_snoc l e : acks_ok l → ack_ok l e → acks_ok (l ++ [e]).
Proof.
  intros Hl He l1 e1 l2. destruct (decide (l2 = [])) as [->|Hn].
  - intros [-> [= ->]]%app_inj_tail. done.
  - destruct l2 as [|x l2 _] using rev_ind; [done|]. rewrite app_comm_cons, app_assoc. intros [-> _]%app_inj_tail.
    by apply (Hl l1 e1 l2).
Qed.

Lemma acks_still {A} (m : coord A) : still m → keeps J m.
Proof.
  intros Hm w Hw. specialize (Hm (cw_events w) w eq_refl). unfold J in *.
  destruct (m w) as [[a|e] w']; by rewrite Hm.
Qed.

Lemma keeps_and {A} (P Q : CoordWorld W → Prop) (m : coord A) : keeps P m → keeps Q m → keeps (λ w, P w ∧ Q w) m.
Proof. intros HP HQ w [Hp Hq]. specialize (HP w Hp). specialize (HQ w Hq). by destruct (m w) as [[a|e] w']. Qed.

Lemma keeps_true {A} (m : coord A) : keeps (λ _, True) m.
Proof. intros w _. by destruct (m w) as [[a|e] w']. Qed.

(** A call leaves its event behind. *)
Lemma platform_rule op l P :
  keeps P (syscall (W := W) SPlatform) →
  hoare (λ w, P w ∧ cw_events w = l) (call_platform op)
    (λ b w, ∃ w1, P w1 ∧ cw_events w = l ++ [MkEvent op (cw_fs w1) b]) (λ _ w, cw_events w = l).
Proof.
  intros HP. unfold call_platform. apply (h_bind _ _ _ (λ _ w, P w ∧ cw_events w = l)).
  - eapply h_conseq; [apply (keeps_and P _ _ HP (still_syscall SPlatform l))|done|done|]. by intros e w [_ ?].
  - intros _ w [Hw He]. destruct (platform op (cw_fs w) (cw_outer w)) as [[b fs] outer]. exists w. split; [done|]. simpl. by rewrite He.
Qed.

Lemma acks_platform op : acknowledges op = false → keeps J (call_platform op).
Proof.
  intros Ha w Hw. pose proof (platform_rule op (cw_events w) (λ _, True) (keeps_true _) w
    (conj Logic.I eq_refl)) as R.
  unfold J in *. destruct (call_platform op w) as [[b|e] w']; [|by rewrite R]. destruct R as (w1 & _ & ->).
  apply acks_snoc; [done|]. intros v Hv. simpl in Hv. by rewrite Hv in Ha.
Qed.

Lemma acks_must_platform op m : acknowledges op = false → keeps J (must_platform op m).
Proof. intros Ha. apply k_bind; [by apply acks_platform|]. intros b. apply keeps_require. Qed.
End acks.

Create HintDb acks discriminated.
#[export] Hint Extern 2 (keeps (J _ _) (call_platform _)) => apply acks_platform; reflexivity : acks.
#[export] Hint Extern 2 (keeps (J _ _) (must_platform _ _)) => apply acks_must_platform; reflexivity : acks.
#[export] Hint Extern 5 (keeps (J _ _) _) => apply acks_still; solve [eauto with still] : acks.

Ltac acks_step :=
  first
    [ solve [eauto with acks]
    | lazymatch goal with
      | |- keeps _ (cmd_bind _ _) => apply k_bind; [|intros ?]
      | |- keeps _ (if ?b then _ else _) => destruct b
      | |- keeps _ (match ?x with _ => _ end) => destruct x
      end ].
Ltac acks_tac := repeat (cbv zeta beta; acks_step).

Section operations.
Context {QD : QtData} {QL : QtDataLaws QD} {QB : QtBytes} {BL : QtBytesLaws QB} {RL : RecordLaws QD}.
Context {W : Type} {H : CoordinatorHost W} (p : Paths) {QH : QuietHost W p} {PO : PathsOk p}.
Context (o : text) (Ho : Forall (λ c, 0 <= c < 256) o) (k : nat).

Notation coord A := (prog (CoordWorld W) exn A).
Notation J := (J (W := W) p o).

Lemma acks_attempt code (body : coord CoordResult) P : hoare P body (λ _, J) (λ _, J) → hoare P (attempt code body) (λ _, J) (λ _, J).
Proof. intros Hb w Hw. specialize (Hb w Hw). unfold attempt. by destruct (body w) as [[r|[]] w']. Qed.

Lemma acks_kept code (body : coord CoordResult) : keeps J body → keeps J (attempt code body).
Proof. apply acks_attempt. Qed.

Lemma acks_prepare : keeps J (prepare p).
Proof. apply acks_kept. unfold prepare_body. acks_tac. Qed.

Lemma acks_admit : keeps J (admitRollback p).
Proof. apply acks_kept. unfold admitRollback_body, finishPause, paused_of. acks_tac. Qed.

Lemma acks_requested : keeps J (rollbackRequested p).
Proof. apply acks_kept. unfold rollbackRequested_body. acks_tac. Qed.

Lemma acks_resume : keeps J (resume p).
Proof. apply acks_kept. unfold resume_body, stopForResume, exists_file. acks_tac. Qed.

Lemma acks_status self : keeps J (status p self).
Proof. apply acks_kept. unfold status_body, ensureRoot, noUncertainCommit, parentFd, get_fs. acks_tac. Qed.

Lemma acks_stopTarget r : keeps J (stopTarget p r).
Proof. unfold stopTarget. acks_tac. Qed.

Lemma acks_recover phase state r : keeps J (recoverCommit p phase state r).
Proof. unfold recoverCommit, timestamp. acks_tac. Qed.

Lemma acks_hold r : keeps J (holdTarget p r).
Proof. unfold holdTarget, exists_file. acks_tac. Qed.

(** *** [run] *)

Notation at_paused cr := (at_files (W := W) p cr (Some (paused_text o))).
Notation holds := (holding o k).

(** Two properties go through a computation side by side. *)
Lemma along {A B} (P Q : CoordWorld W → Prop) (m : coord A) (f : A → coord B) R :
  keeps P m → keeps Q m → (∀ w, P w → Q w → J w) → (∀ a, hoare (λ w, P w ∧ Q w) (f a) R (λ _, J)) →
  hoare (λ w, P w ∧ Q w) (cmd_bind m f) R (λ _, J).
Proof. intros HP HQ Hx Hf. apply h_keep; [by apply keeps_and|exact Hf|]. intros e w [Hp Hq]. by apply Hx. Qed.

Lemma along_rule {A B} (P Q : CoordWorld W → Prop) (m : coord A) (f : A → coord B) P' X R :
  hoare P m P' X → keeps Q m → (∀ w, Q w → J w) → (∀ a, hoare (λ w, P' a w ∧ Q w) (f a) R (λ _, J)) →
  hoare (λ w, P w ∧ Q w) (cmd_bind m f) R (λ _, J).
Proof.
  intros HP HQ Hx Hf. apply (h_bind _ _ _ (λ a w, P' a w ∧ Q w)); [|exact Hf]. intros w [Hp Hq].
  specialize (HP w Hp). specialize (HQ w Hq). destruct (m w) as [[a|e] w']; [done|]. by apply Hx.
Qed.

(** From the stop to the acknowledgement no other call is made. *)
Lemma save_still cr r ph l {A} (m : jobject → coord A) R :
  acks_ok p o l →
  (∀ t, hoare (λ w, at_paused (Some (json_compact (stamped r ph t))) w ∧ cw_events w = l) (m (stamped r ph t)) R (λ _, J)) →
  hoare (λ w, at_paused cr w ∧ cw_events w = l) (cmd_bind (save p r ph) m) R (λ _, J).
Proof.
  intros Hl Hm. eapply along_rule; [apply (save_rule p cr)|apply (still_save p)|intros w Hw; unfold RollbackAcknowledge.J; by rewrite Hw|].
  intros r' w [[[t ->] Hat] He]. exact (Hm t w (conj Hat He)).
Qed.

Lemma acknowledge_rule r t l v (m : coord jobject) :
  acks_ok p o l → stopped_last l → saved o r → v = field_text "targetVersion" (stamped r "coordinator_commit_pending" t) →
  keeps J m →
  hoare (λ w, at_paused (Some (json_compact (stamped r "coordinator_commit_pending" t))) w ∧ cw_events w = l)
    (cmd_bind (must_platform (PAcknowledge v) "coordinator rollback acknowledgement failed") (λ _, m)) (λ _, J) (λ _, J).
Proof.
  intros Hl Hs Hr -> Hm. apply (h_bind _ _ _ (λ _, J)); [|intros _; exact Hm].
  apply (h_bind _ _ _ (λ _, J)); [|intros b; apply keeps_require].
  eapply h_conseq; [apply (platform_rule _ l (at_paused (Some (json_compact (stamped r "coordinator_commit_pending" t))))); by apply files_syscall|done| |].
  - intros b w (w1 & (_ & Hrec & Hprof) & He). unfold RollbackAcknowledge.J. rewrite He. apply acks_snoc; [done|].
    intros v [= <-]. split_and!; [done|done|]. eexists. split_and!; [exact Hrec|by apply stamped_saved| |done].
    unfold field_text, stamped. rewrite field_other by done. by rewrite field_same.
  - intros e w He. unfold RollbackAcknowledge.J. by rewrite He.
Qed.

Lemma remember_events {A} P (m : coord A) R :
  (∀ l, acks_ok p o l → hoare (λ w, P w ∧ cw_events w = l) m R (λ _, J)) → hoare (λ w, P w ∧ J w) m R (λ _, J).
Proof. intros Hm w [Hp Hj]. exact (Hm (cw_events w) Hj w (conj Hp eq_refl)). Qed.

Lemma stopped_rule {A} cr m (f : coord A) R :
  (∀ l, acks_ok p o l → stopped_last l → hoare (λ w, at_paused cr w ∧ cw_events w = l) f R (λ _, J)) →
  hoare (λ w, at_paused cr w ∧ J w) (cmd_bind (must_platform PStopped m) (λ _, f)) R (λ _, J).
Proof.
  intros Hf. apply (h_bind _ _ _ (λ _ w, (at_paused cr w ∧ stopped_last (cw_events w)) ∧ J w)).
  2: { intros _ w [[Hat Hs] HJ]. exact (Hf (cw_events w) HJ Hs w (conj Hat eq_refl)). }
  intros w [Hat HJ]. unfold must_platform, cmd_bind.
  pose proof (files_platform p PStopped cr _ w Hat) as R1. pose proof (acks_platform p o PStopped eq_refl w HJ) as R2.
  pose proof (platform_rule PStopped (cw_events w) (λ _, True) (keeps_true _) w (conj Logic.I eq_refl)) as R3.
  destruct (call_platform PStopped w) as [[b|e] w']; [|done]. destruct R3 as (w1 & _ & He).
  destruct b; simpl; [|done]. split_and!; [done| |done]. exists (cw_fs w1). by rewrite He, last_snoc.
Qed.

Lemma acks_commit cr r : holds cr r → hoare (λ w, at_paused cr w ∧ J w) (commitRollback p r) (λ _, J) (λ _, J).
Proof.
  intros Hh. unfold commitRollback.
  apply along; [by apply (files_pendingEvidence p)|apply acks_still, still_evidence|done|intros _].
  eapply along_rule; [by apply (stopTarget_pursues p o k)|by apply acks_stopTarget|done|].
  intros [observed r1] w [(cr1 & (_ & Hs & _) & Hat) HJ]. cbn [snd] in Hs. generalize (conj Hat HJ). clear Hat HJ. revert w.
  refine (stopped_rule cr1 _ _ (λ _, J) _). intros l Hl Hst.
  assert (∀ w, cw_events w = l → J w) as Hx by (intros w Hw; unfold RollbackAcknowledge.J; by rewrite Hw).
  apply along; [by apply files_fresh|apply still_fresh|auto|intros t1]. cbv zeta. apply save_still; [done|intros t2].
  apply along; [by apply (files_targetPair p)|apply still_target|auto|intros _].
  apply along; [by apply (files_pausedPolicy p)|apply still_policy|auto|intros _].
  apply along; [by apply (files_read p)|apply still_read|auto|intros b1].
  apply along; [by apply (files_read p)|apply still_read|auto|intros b2].
  apply along; [by apply files_fresh|apply still_fresh|auto|intros t3].
  apply save_still; [done|intros t4]. apply acknowledge_rule; [done|done| |done|acks_tac].
  by apply saved_with, stamped_saved, saved_with.
Qed.

Lemma acks_run : hoare (λ w, inv p o k w ∧ J w) (run p) (λ _, J) (λ _, J).
Proof.
  apply acks_attempt. intros w0 [(cr & cp & Hat & Hc) HJ]. generalize (conj Hat HJ). clear Hat HJ. revert w0.
  refine (_ : hoare (λ w, at_files p cr cp w ∧ J w) (run_body p) (λ _, J) (λ _, J)).
  assert (∀ m : coord CoordResult, keeps J m → hoare (λ w, at_files p cr cp w ∧ J w) m (λ _, J) (λ _, J)) as Hj.
  { intros m Hm w [_ Hw]. by apply Hm. }
  unfold run_body. apply along; [by apply (files_begin p)|by apply acks_still, still_begin|done|intros _].
  eapply along_rule; [apply (load_rule p cr cp)|by apply acks_still, still_load|done|].
  intros r w1 [[(b & Hb1 & Hb2) Hat] HJ]. generalize (conj Hat HJ). clear Hat HJ. revert w1.
  refine (_ : hoare (λ w, at_files p cr cp w ∧ J w) _ (λ _, J) (λ _, J)).
  assert (phase_ok o k r cp) as Hp by (subst cr; destruct Hc as [_ Hc]; by apply Hc).
  assert (jwf r) as Hw by (by eapply object_wf).
  apply along; [by apply (files_verifyRetained p)|by apply acks_still, still_verify|done|intros _]. cbv zeta.
  case_match; [apply Hj; acks_tac|]. case_match; [apply Hj, acks_resume|]. case_match; [apply Hj, acks_admit|].
  apply along; [by apply (files_pausedPolicy p)|by apply acks_still, still_policy|done|intros _].
  case_match; [apply Hj; acks_tac|].
  destruct (one_of (field_text "phase" r) _) eqn:Hph; [|by intros w [_ ?]].
  apply along; [by apply keeps_require|by apply acks_still, still_require|done|intros _].
  apply along; [by apply (files_read_object p)|by apply acks_still, still_read_object|done|intros state].
  case_match; [apply Hj; acks_tac|].
  apply along; [by apply (files_targetPair p)|by apply acks_still, still_target|done|intros _].
  apply (h_bind _ _ _ (λ _, J)); [|intros r'; apply acks_hold]. case_match.
  - destruct (paused_ok o k r cp 5 Hp (paused_stage _ Hph) ltac:(lia)) as (Hk & -> & Hs). apply acks_commit. split_and!; done.
  - intros w [_ Hw1]. by apply acks_recover.
Qed.

Lemma acks_perform op : hoare (λ w, inv p o k w ∧ J w) (perform p op) (λ _, J) (λ _, J).
Proof.
  destruct op; simpl; [|..|]; try apply acks_run; intros w [_ Hw];
    [by apply acks_prepare|by apply acks_admit|by apply acks_requested|by apply acks_resume|by apply acks_status].
Qed.

Lemma acks_steps w w' : rtc (step p) w w' → inv p o k w → J w → J w'.
Proof.
  induction 1 as [|w w1 w' Hs _ IH]; [done|]. intros Hw HJ. apply IH.
  - by apply (steps_keep p o Ho k w w1 (rtc_once _ _ Hs)).
  - destruct Hs as [op w|w fs outer Hq]; [|done]. pose proof (acks_perform op w (conj Hw HJ)) as R.
    by destruct (perform p op w) as [[a|e] w1].
Qed.
End operations.

(** C15. Over every run of operations, failures and interruptions, the platform is
    asked to acknowledge a rollback only when the call before found the service
    stopped, the profile store holds the paused policy, and the record on disk
    is in phase [coordinator_commit_pending], names the version acknowledged and
    has the original policy. *)
Theorem acknowledged_when_recorded {QD : QtData} {QL : QtDataLaws QD} {QB : QtBytes} {BL : QtBytesLaws QB} {RL : RecordLaws QD}
    {W : Type} {H : CoordinatorHost W} (p : Paths) {QH : QuietHost W p} {PO : PathsOk p} (o : text) (k : nat) (w w' : CoordWorld W) :
  Forall (λ c, 0 <= c < 256) o → inv p o k w → cw_events w = [] → rtc (step p) w w' →
  ∀ before e after v, cw_events w' = before ++ e :: after → ev_op e = PAcknowledge v →
    (∃ fs, last before = Some (MkEvent PStopped fs true))
    ∧ content (p_profiles p) (ev_fs e) = Some (paused_text o)
    ∧ ∃ r, content (recordPath p) (ev_fs e) = Some (json_compact r) ∧ saved o r
           ∧ field_text "phase" r = lit "coordinator_commit_pending" ∧ field_text "targetVersion" r = v.
Proof.
  intros Ho Hw He Hs before e after v. assert (J p o w) as HJ.
  { unfold J. rewrite He. intros l1 x l2 E. by destruct l1. }
  intros E Hv. exact (acks_steps p o Ho k w w' Hs Hw HJ before e after E v Hv).
Qed.
