(* ===== verification/RollbackExamples.v ===== *)
(** * A rollback on a concrete host

    A host with a handful of files, on the JSON reader and printer of JsonModel:
    a rollback is prepared, the profiles are paused, the older version is
    installed, the coordinator follows and acknowledges it, and the profiles
    are restored.  The run shows that the hypotheses of the coordinator's
    theorems hold together, and the theorems are applied to it. *)

From stdpp Require Import gmap relations.
From S2P Require Import Prelude Text Json QtInterface QtModel Command JsonTokens PauseJson PausedStore JsonModel JsonText ConfigCodec RouteState ProfileStore.
From S2P Require Import RollbackState RollbackCoordinator RollbackFiles RollbackSafety RollbackInvariant RollbackTheorems RollbackTermination RollbackAcknowledge.
#[local] Open Scope Z_scope.
#[local] Open Scope amnezia_scope.

#[local] Existing Instance modelScalar.
#[local] Existing Instance modelData.
#[local] Existing Instance modelGrammar.

(** ** The laws of the data *)

#[local] Instance modelDataLaws : QtDataLaws modelData.
Proof. destruct toyData_laws as [H1 H2]. by split. Qed.

#[local] Instance modelRecord : RecordLaws modelData.
Proof.
  split.
  - intros s o E. change (json_parse s) with (model_parse s) in E. unfold model_parse in E.
    apply read_document_only in E as (t & _ & _ & Hv & _). destruct t as [x|l|l].
    + by apply model_scalar_flat in Hv.
    + apply fmap_Some in Hv as (? & _ & ?). done.
    + apply tree_value_members in Hv as (ms & Hms & [= ->]). by eapply put_members_wf, members_defined.
  - intros o o' k _ E _ _. change (json_parse (json_compact o)) with (model_parse (if json_printable o then model_print (JObject o) else [])) in E.
    destruct (json_printable o) eqn:Ep; [|done]. rewrite model_print_parse in E by done. by simplify_eq.
Qed.

(** Hexadecimal digits stand for base64. *)
Fixpoint unhex (s : text) : text :=
  match s with
  | a :: b :: s' => match hex_value a, hex_value b with Some x, Some y => x * 16 + y :: unhex s' | _, _ => [] end
  | _ => []
  end.

Definition is_byte (c : Z) : bool := (0 <=? c) && (c <? 256).

#[local] Instance modelBytes : QtBytes := {|
  to_base64 := λ b, if forallb is_byte b then to_hex b else [];
  from_base64 := unhex;
  version_segments := λ s, map (λ t, default 0 (parse_signed t)) (split_char 46 s);
|}.

#[local] Instance modelBytesLaws : QtBytesLaws modelBytes.
Proof.
  assert (∀ b, Forall (λ c, 0 <= c < 256) b → forallb is_byte b = true) as Hb.
  { intros b Hb. apply forallb_forall. intros c Hc%list_elem_of_In. rewrite Forall_forall in Hb. specialize (Hb c Hc).
    unfold is_byte. apply andb_true_iff. split; [apply Z.leb_le|apply Z.ltb_lt]; lia. }
  split.
  - intros b Hf. change (unhex (if forallb is_byte b then to_hex b else []) = b). rewrite Hb by done.
    induction Hf as [|c b Hc Hf IH]; [done|]. change (to_hex (c :: b)) with (hex_char (c / 16) :: hex_char (c mod 16) :: to_hex b).
    cbn [unhex]. assert (0 <= c / 16 < 16) by (split; [apply Z.div_pos; lia|apply Z.div_lt_upper_bound; lia]).
    rewrite !hex_char_value by (done || by apply Z.mod_pos_bound). f_equal; [|exact IH].
    pose proof (Z.div_mod c 16 ltac:(lia)). lia.
  - intros b. change (utf16_valid (if forallb is_byte b then to_hex b else []) = true).
    destruct (forallb is_byte b) eqn:E; [|done]. apply ascii_valid, forallb_forall. intros c Hc%list_elem_of_In.
    assert (Forall (λ c, 0 <= c < 256) b) as Hf.
    { apply Forall_forall. intros x Hx. rewrite forallb_forall in E. specialize (E x ltac:(by apply list_elem_of_In)).
      unfold is_byte in E. bprop. lia. }
    pose proof (to_hex_lower b Hf) as F. rewrite Forall_forall in F. specialize (F c Hc).
    unfold is_lower_hex, is_digit in F. unfold is_ascii. bprop. destruct F; bprop; apply andb_true_iff; split; lia.
Qed.

(** ** The host *)

Definition ex_paths : Paths :=
  MkPaths (lit "/r") (lit "/p/profiles.json") (lit "/s/state.json") (lit "/i") (lit "/u/rollback.service") (lit "/run/s") 0 false.

Definition guarded_b (path : text) : bool :=
  text_eqb path (recordPath ex_paths) || text_eqb path (p_profiles ex_paths)
  || staging_in (p_root ex_paths) path || staging_in (dir_of (p_profiles ex_paths)) path.

Lemma guarded_b_true path : guarded ex_paths path → guarded_b path = true.
Proof.
  unfold guarded_b. intros [-> |[-> |[-> | ->]]]; rewrite ?text_eqb_refl, ?orb_true_r; done.
Qed.

(** Another process writes a file of its own, or removes it. *)
Definition put_file (path bytes : text) (fs : Fs) : Fs :=
  let i := fresh (dom (fs_inodes fs)) in
  if guarded_b path then fs else set_file i (MkFile bytes true 0 1 384 (0, 0)) (set_names (<[path := i]>) fs).

Definition remove_file (path : text) (fs : Fs) : Fs := if guarded_b path then fs else set_names (delete path) fs.

Lemma put_file_quiet path bytes fs : quiet ex_paths fs (put_file path bytes fs).
Proof.
  intros Hw. unfold put_file. destruct (guarded_b path) eqn:E; [done|].
  assert (fs_inodes fs !! fresh (dom (fs_inodes fs)) = None) as Hi by (apply not_elem_of_dom, is_fresh).
  split.
  - intros q i Hq. simpl in *. destruct (decide (path = q)) as [->|Hn].
    + rewrite lookup_insert_eq in Hq. simplify_eq. rewrite lookup_insert_eq. by eexists.
    + rewrite lookup_insert_ne in Hq by done. destruct (Hw q i Hq) as [f Hf].
      rewrite lookup_insert_ne by congruence. by eexists.
  - intros q Hg. assert (path ≠ q) as Hn by (intros ->; by rewrite guarded_b_true in E). unfold file_at. simpl.
    rewrite lookup_insert_ne by done. destruct (fs_names fs !! q) as [i|] eqn:Eq; [|done]. simpl.
    destruct (Hw q i Eq) as [f Hf]. by rewrite lookup_insert_ne by congruence.
Qed.

Lemma remove_file_quiet path fs : quiet ex_paths fs (remove_file path fs).
Proof.
  intros Hw. unfold remove_file. destruct (guarded_b path) eqn:E; [done|]. split.
  - intros q i Hq. simpl in *. apply lookup_delete_Some in Hq as [_ Hq]. by apply (Hw q i).
  - intros q Hg. assert (path ≠ q) as Hn by (intros ->; by rewrite guarded_b_true in E). unfold file_at. simpl.
    by rewrite lookup_delete_ne by done.
Qed.

Lemma quiet_trans fs1 fs2 fs3 : quiet ex_paths fs1 fs2 → quiet ex_paths fs2 fs3 → quiet ex_paths fs1 fs3.
Proof. intros H1 H2 Hw. destruct (H1 Hw) as [Hw2 E1]. destruct (H2 Hw2) as [Hw3 E2]. split; [done|]. intros path Hg. by rewrite E2, E1. Qed.

(** The clock, whether the service runs, the call at which the process ends, and
    the signals still to come. *)
Record ExWorld := MkEx { ex_clock : Z; ex_running : bool; ex_calls : option nat; ex_signals : N }.

Definition quoted (s : string) : text := map (λ c, if c =? 39 then 34 else c) (lit s).

Definition state_disabled : text := quoted "{'state':'disabled','lastAppliedVersion':'4.8.13.0','lastError':''}".

Definition ex_observe (fs : Fs) : jobject :=
  let file name := default [] (content (in_dir (lit "/i") (lit name)) fs) in
  let pending := bool_decide (is_Some (content (journalPath ex_paths) fs)) in
  let version := JString (if text_eqb (file "amneziad") (lit "new daemon") then lit "4.8.14.0" else lit "4.8.13.0") in
  jobj [(lit "daemon_pid", jint (if pending then 100 else 200)); (lit "start_ticks", JString (lit "5"));
        (lit "pair", JObject (jobj [(lit "amneziad", file_entry (file "amneziad")); (lit "amnezia-cli", file_entry (file "amnezia-cli"))]));
        (lit "version", version);
        (lit "doctor", JObject (jobj [(lit "ok", JBool true); (lit "result", JObject (jobj [(lit "ready", JBool true);
          (lit "updates", JObject (jobj [(lit "recoveryRequired", JBool false); (lit "lastError", JString []);
            (lit "lastAppliedVersion", version);
            (lit "state", JString (if pending then lit "rollback_restart_pending" else lit "disabled"))]))]))]))].

Definition run_flag (b : bool) (w : ExWorld) : ExWorld := MkEx (ex_clock w) b (ex_calls w) (ex_signals w).

#[local] Instance exHost : CoordinatorHost ExWorld := {|
  sys := λ c fs w,
    match ex_calls w with
    | None =>
        match c with
        | SRead _ | SWrite _ =>
            if (0 <? ex_signals w)%N
            then (Eintr, fs, MkEx (ex_clock w) (ex_running w) None (ex_signals w - 1))
            else (Done (2 ^ 6), fs, w)
        | _ => (Done 0, fs, w)
        end
    | Some O => (Dies, fs, MkEx (ex_clock w) (ex_running w) None (ex_signals w))
    | Some (S n) => (Done (2 ^ 12), fs, MkEx (ex_clock w) (ex_running w) (Some n) (ex_signals w))
    end;
  platform := λ op fs w,
    match op with
    | PStart => (true, fs, run_flag true w)
    | PStop | PStopObserved _ => (true, fs, run_flag false w)
    | PStopped => (negb (ex_running w), fs, w)
    | PAcknowledge _ => (true, put_file (p_state ex_paths) state_disabled (remove_file (journalPath ex_paths) fs), w)
    | _ => (true, fs, w)
    end;
  observe_host := λ fs w, (ex_observe fs, fs, w);
  monotonic := λ w, (ex_clock w, w);
  wait_retry := λ fs w, (fs, MkEx (ex_clock w + 250) (ex_running w) (ex_calls w) (ex_signals w));
  new_uuid := λ w, (lit "7f1c", w);
  now_text := λ w, (lit "2026-01-01T00:00:00.000Z", w);
  self_hash := λ _, [];
  self_path := λ _, [];
  canonicalFilePath := λ _ path, path;
  signals := ex_signals;
|}.

Lemma quiet_same fs : quiet ex_paths fs fs.
Proof. done. Qed.

#[local] Instance exQuiet : QuietHost ExWorld ex_paths.
Proof.
  split.
  - intros c fs w. simpl. destruct (ex_calls w) as [[|n]|]; try apply quiet_same.
    destruct c; try apply quiet_same; destruct (0 <? ex_signals w)%N; apply quiet_same.
  - intros op fs w. destruct op; try apply quiet_same. simpl. eapply quiet_trans; [apply remove_file_quiet|apply put_file_quiet].
  - intros fs w. apply quiet_same.
  - intros fs w. apply quiet_same.
  - intros w. done.
Qed.

#[local] Instance exClock : SteadyClock ExWorld ex_clock.
Proof.
  split; try (intros; simpl; lia).
  - intros c fs w. simpl. destruct (ex_calls w) as [[|n]|]; simpl; [lia..|].
    destruct c; simpl; try lia; destruct (0 <? ex_signals w)%N; simpl; lia.
  - intros op fs w. destruct op; simpl; lia.
Qed.

#[local] Instance exFinite : FiniteSignals ExWorld.
Proof.
  split. intros c fs w. simpl. destruct (ex_calls w) as [[|n]|]; simpl; [lia..|].
  destruct c; simpl; try lia; destruct (N.ltb_spec 0 (ex_signals w)); simpl; lia.
Qed.

#[local] Instance exPaths : PathsOk ex_paths.
Proof.
  split; [done| |by vm_compute]. intros d. unfold staging_in.
  destruct (starts_with (in_dir d stagingPrefix) (p_profiles ex_paths)) eqn:E; [|done]. exfalso.
  apply starts_with_true in E as [r E]. assert (45 ∈ p_profiles ex_paths) as Hin.
  { rewrite E. unfold in_dir, stagingPrefix. rewrite !elem_of_app. left. right. right. vm_compute. set_solver. }
  vm_compute in Hin. set_solver.
Qed.

(** ** The run *)

(** What the updater leaves for a rollback, and what it writes when it starts one. *)
Definition ex_target : jobject :=
  jobj [(lit "amneziad", file_entry (lit "old daemon")); (lit "amnezia-cli", file_entry (lit "old cli"))].

Definition sha_json (b : string) : json := JString (digest (lit b)).

Definition state_installed : text := model_print (JObject (jobj
  [(lit "state", JString (lit "installed")); (lit "rollbackVersion", JString (lit "4.8.13.0"));
   (lit "rollbackDirectory", JString (lit "/s/updates/rollback-1"));
   (lit "rollbackHashes", JObject (jobj [(lit "amneziad", sha_json "old daemon"); (lit "amnezia-cli", sha_json "old cli")]))])).

Definition state_pending : text := quoted "{'state':'rollback_restart_pending','lastAppliedVersion':'4.8.13.0','lastError':''}".

Definition journal_pending : text := model_print (JObject (jobj
  [(lit "phase", JString (lit "rollback_restart_pending")); (lit "operation", JString (lit "rollback"));
   (lit "candidateVersion", JString (lit "4.8.13.0")); (lit "currentVersion", JString (lit "4.8.13.0"));
   (lit "installDirectory", JString (lit "/i"));
   (lit "candidateHashes", JObject (jobj [(lit "amneziad", sha_json "old daemon"); (lit "amnezia-cli", sha_json "old cli")]));
   (lit "candidateSizes", JObject (jobj [(lit "amneziad", jint 10); (lit "amnezia-cli", jint 7)]))])).

Definition ex_original : text :=
  quoted "{'version': 1, 'profiles': [ {'id':'a','autoUpdate': true}, {'id':'b'}, {'autoUpdate':true,'id':'c'} ]}".

Definition plain_file (b : text) : File := MkFile b true 0 1 384 (0, 0).

Definition fs0 : Fs :=
  foldr (λ '(path, b) fs, put_file path b fs) (MkFs {[p_profiles ex_paths := 0%nat]} {[0%nat := plain_file ex_original]})
    [(lit "/i/amneziad", lit "new daemon"); (lit "/i/amnezia-cli", lit "new cli"); (p_state ex_paths, state_installed);
     (lit "/s/updates/rollback-1/amneziad", lit "old daemon"); (lit "/s/updates/rollback-1/amnezia-cli", lit "old cli")].

Definition w0 : CoordWorld ExWorld := MkCoord fs0 [] (MkEx 0 true None 3).

Definition ex_rollback (fs : Fs) : Fs :=
  foldr (λ '(path, b) fs, put_file path b fs) fs
    [(lit "/i/amneziad", lit "old daemon"); (lit "/i/amnezia-cli", lit "old cli"); (p_state ex_paths, state_pending);
     (journalPath ex_paths, journal_pending)].

Definition go (op : CoordOp) (w : CoordWorld ExWorld) : CoordWorld ExWorld := (perform ex_paths op w).2.
Definition outcome (op : CoordOp) (w : CoordWorld ExWorld) : option text :=
  match (perform ex_paths op w).1 with Ok r => Some (rc_code r) | Err _ => None end.

Definition w1 := go OpPrepare w0.
Definition w2 := go OpAdmit w1.
Definition w3 := MkCoord (ex_rollback (cw_fs w2)) (cw_events w2) (cw_outer w2).
Definition w4 := go OpRequested w3.
Definition w5 := go OpRun w4.
Definition w6 := go OpResume w5.

(** The pause is cut off after the exchange of the two files: the displaced
    profile store is still there under its staging name. *)
Definition w1_dying := MkCoord (cw_fs w1) (cw_events w1) (MkEx 0 true (Some 110%nat) 0).
Definition w_cut := go OpAdmit w1_dying.

Lemma put_files_wf l fs : names_wf fs → names_wf (foldr (λ '(path, b) fs, put_file path b fs) fs l).
Proof. intros Hw. induction l as [|[path b] l IH]; [done|]. simpl. by apply (put_file_quiet path b _ IH). Qed.

Lemma put_files_quiet l fs : quiet ex_paths fs (foldr (λ '(path, b) fs, put_file path b fs) fs l).
Proof. induction l as [|[path b] l IH]; [done|]. simpl. eapply quiet_trans; [exact IH|apply put_file_quiet]. Qed.

Lemma ex_bytes : Forall (λ c, 0 <= c < 256) ex_original.
Proof. apply (bool_decide_eq_true_1 (Forall _ _)). vm_compute. reflexivity. Qed.

Lemma fs0_wf : names_wf fs0.
Proof.
  apply put_files_wf. intros path i Hi. simpl in *. apply lookup_singleton_Some in Hi as [<- <-]. rewrite lookup_singleton_eq. by eexists.
Qed.

Lemma ex_inv : inv ex_paths ex_original 0 w0.
Proof.
  exists None, (Some ex_original). split; [|done]. split; [exact fs0_wf|]. by split; vm_compute.
Qed.

Lemma ex_steps5 : rtc (step ex_paths) w0 w5.
Proof.
  apply (rtc_l _ _ w1); [apply (step_operation _ OpPrepare w0)|]. apply (rtc_l _ _ w2); [apply (step_operation _ OpAdmit w1)|]. eapply rtc_l; [apply (step_other _ w2 (ex_rollback (cw_fs w2)) (cw_outer w2)), put_files_quiet|].
  eapply rtc_l; [apply (step_operation _ OpRequested w3)|]. eapply rtc_l; [apply (step_operation _ OpRun w4)|]. apply rtc_refl.
Qed.

#[local] Existing Instance asciiText.
#[local] Existing Instance asciiNet.
#[local] Existing Instance ProfileExamples.toyFiles.

Definition ex_paused : text :=
  quoted "{'version': 1, 'profiles': [ {'id':'a','autoUpdate': false}, {'id':'b'}, {'autoUpdate':false,'id':'c'} ]}".

Lemma pause_exact_witness :
  pauseJson ex_original = Ok (ex_paused, [JString (lit "a"); JString (lit "c")])
  ∧ ∃ doc, json_parse ex_original = Some (JObject doc) ∧ json_parse ex_paused = Some (JObject (paused_document doc))
    ∧ [JString (lit "a"); JString (lit "c")] = paused_ids doc ∧ rewritten (lit "true") (lit "false") ex_original ex_paused
    ∧ pauseJson ex_paused = Ok (ex_paused, [])
    ∧ ∀ ps, rfold read_entry [] (store_profiles doc) = Ok ps →
            rfold read_entry [] (store_profiles (paused_document doc)) = Ok (map switch_off ps).
Proof.
  assert (pauseJson ex_original = Ok (ex_paused, [JString (lit "a"); JString (lit "c")])) as E by (vm_compute; reflexivity).
  split; [exact E|]. exact (pause_exact ex_original ex_paused _ E).
Defined.

(** A truncated store is refused with a message. *)
Lemma pause_in_bounds_witness :
  let cut := quoted "{'profiles':[{'autoUpdate':true}" in
  (∃ e, pauseJson cut = Err e) ∧ ∀ e, pauseJson cut = Err e → ∃ m, e = Throw m.
Proof.
  cbv zeta. split; [eexists; vm_compute; reflexivity|]. exact (pause_in_bounds (quoted "{'profiles':[{'autoUpdate':true}")).
Defined.

(** The pause that was cut off: the store is paused, the record says so. *)
Lemma coordinator_keeps_policy_witness :
  (perform ex_paths OpAdmit w1_dying).1 = Err Killed
  ∧ content (p_profiles ex_paths) (cw_fs w_cut) = Some ex_paused
  ∧ either ex_original (content (p_profiles ex_paths) (cw_fs w_cut)) ∧
  ∀ b r, content (recordPath ex_paths) (cw_fs w_cut) = Some b → object b = Ok r →
    (0 ≤ phase_stage r)%nat ∧ policy_at ex_original (phase_stage r) (content (p_profiles ex_paths) (cw_fs w_cut))
    ∧ ((2 ≤ phase_stage r)%nat → saved ex_original r).
Proof.
  split; [vm_compute; reflexivity|]. split; [vm_compute; reflexivity|].
  apply (coordinator_keeps_policy ex_paths ex_original 0 w0 w_cut ex_bytes ex_inv).
  apply (rtc_l _ _ w1); [apply (step_operation _ OpPrepare w0)|].
  apply (rtc_l _ _ w1_dying); [apply (step_other _ w1 (cw_fs w1)); exact (quiet_same _)|].
  apply rtc_once, (step_operation _ OpAdmit w1_dying).
Defined.

Lemma ex_inv5 : inv ex_paths ex_original 0 w5.
Proof. exact (steps_keep ex_paths ex_original ex_bytes 0 w0 w5 ex_steps5 ex_inv). Qed.

Definition ok_or {A} (d : A) (r : result exn A) : A := match r with Ok a => a | Err _ => d end.

Lemma ok_pair {A W} (d : A) (x : result exn A * W) :
  match x.1 with Ok _ => true | Err _ => false end = true → x = (Ok (ok_or d x.1), x.2).
Proof. by destruct x as [[a|e] w]. Qed.

Definition ex_resumed : CoordResult := ok_or (failure "" []) (perform ex_paths OpResume w5).1.

Lemma resume_restores_witness :
  content (p_profiles ex_paths) (cw_fs w5) = Some ex_paused
  ∧ content (p_profiles ex_paths) (cw_fs w6) = Some ex_original ∧ rc_code ex_resumed = lit "resumed" ∧ inv ex_paths ex_original 0 w6.
Proof.
  split; [vm_compute; reflexivity|]. apply (resume_restores ex_paths ex_original 0 w5 ex_resumed w6 ex_bytes ex_inv5).
  - unfold ex_resumed, w6, go, perform. apply ok_pair. vm_compute. reflexivity.
  - vm_compute. reflexivity.
Defined.

Lemma uncertain_commit_refused_witness :
  (fs_names (cw_fs w_cut) !! lit "/p/.coordinator-7f1c" ≠ None)
  ∧ let '(r, w') := perform ex_paths OpRun w_cut in
    match r with Ok res => rc_ok res = false | Err e => e = Killed end
    ∧ cw_events w' = cw_events w_cut ∧ ∀ path, guarded ex_paths path → file_at path (cw_fs w') = file_at path (cw_fs w_cut).
Proof.
  split; [vm_compute; discriminate|]. apply (uncertain_commit_refused ex_paths OpRun (lit "/p/.coordinator-7f1c") w_cut).
  - assert (inv ex_paths ex_original 0 w_cut) as (cr & cp & (Hw & _) & _); [|exact Hw].
    apply (steps_keep ex_paths ex_original ex_bytes 0 w0 w_cut); [|exact ex_inv].
    apply (rtc_l _ _ w1); [apply (step_operation _ OpPrepare w0)|].
    apply (rtc_l _ _ w1_dying); [apply (step_other _ w1 (cw_fs w1)); exact (quiet_same _)|].
    apply rtc_once, (step_operation _ OpAdmit w1_dying).
  - eexists. vm_compute. reflexivity.
  - right. vm_compute. reflexivity.
Defined.

Lemma coordinator_terminates_witness : (perform ex_paths OpRun w4).1 ≠ Err OutOfFuel.
Proof. exact (coordinator_terminates ex_clock ex_paths OpRun w4). Defined.

(** The first acknowledgement of a list of calls. *)
Definition ack_event (l : list Event) : option (list Event * Event * list Event) :=
  i ← fst <$> list_find (λ e, acknowledges (ev_op e) = true) l; e ← l !! i; Some (take i l, e, drop (S i) l).

Lemma ack_event_split l before e after : ack_event l = Some (before, e, after) → l = before ++ e :: after.
Proof.
  unfold ack_event. destruct (list_find _ _) as [[i e']|]; [|done]. simpl. destruct (l !! i) as [e1|] eqn:Ei; [|done].
  intros [= <- <- <-]. symmetry. by apply take_drop_middle.
Qed.

Lemma ack_event_found l op : (λ x, ev_op x.1.2) <$> ack_event l = Some op → ∃ before e after, l = before ++ e :: after ∧ ev_op e = op.
Proof.
  destruct (ack_event l) as [[[before e] after]|] eqn:E; [|done]. intros [= <-]. exists before, e, after. split; [|done].
  by apply ack_event_split.
Qed.

Lemma acknowledged_when_recorded_witness :
  ∃ before e after, cw_events w5 = before ++ e :: after ∧ ev_op e = PAcknowledge (lit "4.8.13.0")
    ∧ (∃ fs, last before = Some (MkEvent PStopped fs true))
    ∧ content (p_profiles ex_paths) (ev_fs e) = Some (paused_text ex_original)
    ∧ ∃ r, content (recordPath ex_paths) (ev_fs e) = Some (json_compact r) ∧ saved ex_original r
           ∧ field_text "phase" r = lit "coordinator_commit_pending" ∧ field_text "targetVersion" r = lit "4.8.13.0".
Proof.
  destruct (ack_event_found (cw_events w5) (PAcknowledge (lit "4.8.13.0"))) as (before & e & after & El & Ev);
    [vm_compute; reflexivity|].
  exists before, e, after. split; [exact El|]. split; [exact Ev|].
  exact (acknowledged_when_recorded ex_paths ex_original 0 w0 w5 ex_bytes ex_inv eq_refl ex_steps5 before e after _ El Ev).
Defined.
