(* ===== verification/ExclusionPolicy.v ===== *)
(** * Replacing the exclusions of a connection

    Model of client/daemon/exclusionpolicytransaction.h: the transaction that
    replaces the routes that bypass a tunnel, with the firewall narrowed while
    they change ([replace]) and without a firewall ([replaceRoutes]).

    The callbacks may fail, and a failed one may still have done its work.  The
    theorems say what holds at every moment of a transaction and what its
    result means. *)

From stdpp Require Import gmap.
From S2P Require Import Prelude Text Command.
#[local] Open Scope amnezia_scope.

(** [enum Result]; the values are the IPC receipt. *)
Inductive Result := Unsupported | Updated | RolledBack | Uncertain | Rejected.

Definition result_value (r : Result) : Z :=
  match r with Unsupported => 0 | Updated => 1 | RolledBack => 2 | Uncertain => 3 | Rejected => 4 end.

#[export] Instance Result_eq_dec : EqDecision Result.
Proof. solve_decision. Defined.

(** [QSet<QString>(list.begin(), list.end())]. *)
Definition route_set (l : list text) : gset text := list_to_set l.

(** The routes of a set, after [sort()]. *)
Definition sorted_routes (s : gset text) : list text := sort_text (elements s).

Section transaction.
Context {W : Type} (firewall : list text → W → bool * W) (add remove : text → W → bool * W).

Notation tx A := (prog W Result A).

Definition effect {A} (f : W → A * W) : tx A := λ w, let '(a, w') := f w in (Ok a, w').

(** [for (route : l) restored = op(route) && restored;] *)
Definition restore_each (op : text → W → bool * W) (restored : bool) (l : list text) : tx bool :=
  cmd_fold (λ b route, let! ok := effect (op route) in pure (ok && b)) restored l.

(** [for (route : l) { attempted.append(route); if (!op(route)) return rollback(); }]; the
    routes attempted. *)
Fixpoint attempt_each (op : text → W → bool * W) (rollback : list text → tx Result) (attempted l : list text) : tx (list text) :=
  match l with
  | [] => pure attempted
  | route :: l' =>
      let attempted := attempted ++ [route] in
      let! ok := effect (op route) in
      if negb ok then let! r := rollback attempted in leave r else attempt_each op rollback attempted l'
  end.

(** [rollback] of [replace]. *)
Definition rollback_fenced (common before attemptedAdds attemptedRemovals : list text) : tx Result :=
  let! fenced := effect (firewall common) in
  if negb fenced then pure Uncertain else
  let! restored := restore_each remove true attemptedAdds in
  let! restored := restore_each add restored attemptedRemovals in
  if negb restored then pure Uncertain else
  let! reopened := effect (firewall before) in
  pure (if reopened then RolledBack else Uncertain).

Definition replace_body (before after : list text) : tx Result :=
  let oldSet := route_set before in
  let newSet := route_set after in
  let common := sorted_routes (oldSet ∩ newSet) in
  let removed := sorted_routes (oldSet ∖ newSet) in
  let added := sorted_routes (newSet ∖ oldSet) in
  let! _ := leave_if (bool_decide (added = [] ∧ removed = [])) (pure Updated) in
  let! fenced := effect (firewall common) in
  let! _ := leave_if (negb fenced) (pure Uncertain) in
  let! attemptedRemovals := attempt_each remove (rollback_fenced common before []) [] removed in
  let! attemptedAdds := attempt_each add (λ adds, rollback_fenced common before adds attemptedRemovals) [] added in
  let! opened := effect (firewall after) in
  if negb opened then rollback_fenced common before attemptedAdds attemptedRemovals else pure Updated.

Definition replace (before after : list text) (w : W) : Result * W := returns (replace_body before after) w.

(** [rollback] of [replaceRoutes]. *)
Definition rollback_routes (attemptedAdds attemptedRemovals : list text) : tx Result :=
  let! restored := restore_each add true attemptedRemovals in
  let! restored := restore_each remove restored attemptedAdds in
  pure (if restored then RolledBack else Uncertain).

Definition replaceRoutes_body (before after : list text) : tx Result :=
  let oldSet := route_set before in
  let newSet := route_set after in
  let added := sorted_routes (newSet ∖ oldSet) in
  let removed := sorted_routes (oldSet ∖ newSet) in
  let! _ := leave_if (bool_decide (added = [] ∧ removed = [])) (pure Updated) in
  let! attemptedAdds := attempt_each add (λ adds, rollback_routes adds []) [] added in
  let! _ := attempt_each remove (λ removals, rollback_routes attemptedAdds removals) [] removed in
  pure Updated.

Definition replaceRoutes (before after : list text) (w : W) : Result * W := returns (replaceRoutes_body before after) w.
End transaction.

(** ** The host of a transaction *)

(** The callbacks, with the routes and the firewall permits they work on. *)
Class ExclusionHost (K : Type) := {
  ex_firewall : list text → K → bool * K;
  ex_add : text → K → bool * K;
  ex_remove : text → K → bool * K;
  ex_routes : K → gset text;
  ex_permits : K → gset text;
}.

(** A success is truthful; a failure may have done the work or not. *)
Class ExclusionLaws (K : Type) `{ExclusionHost K} : Prop := {
  firewall_law l k : let '(b, k') := ex_firewall l k in
    ex_routes k' = ex_routes k ∧ (ex_permits k' = route_set l ∨ (b = false ∧ ex_permits k' = ex_permits k));
  add_law r k : let '(b, k') := ex_add r k in
    ex_permits k' = ex_permits k ∧ (ex_routes k' = {[r]} ∪ ex_routes k ∨ (b = false ∧ ex_routes k' = ex_routes k));
  remove_law r k : let '(b, k') := ex_remove r k in
    ex_permits k' = ex_permits k ∧ (ex_routes k' = ex_routes k ∖ {[r]} ∨ (b = false ∧ ex_routes k' = ex_routes k));
}.

(** A call of the transaction, and the state it left. *)
Inductive Call := CFirewall (l : list text) | CAdd (r : text) | CRemove (r : text).

(** Keeps the calls beside the host. *)
Definition noted {K} (c : Call) (f : K → bool * K) (x : K * list (Call * K)) : bool * (K * list (Call * K)) :=
  let '(b, k) := f x.1 in (b, (k, x.2 ++ [(c, k)])).

Definition replace_noted `{ExclusionHost K} (before after : list text) (k : K) : Result * (K * list (Call * K)) :=
  replace (λ l, noted (CFirewall l) (ex_firewall l)) (λ r, noted (CAdd r) (ex_add r)) (λ r, noted (CRemove r) (ex_remove r))
    before after (k, []).

Definition replaceRoutes_noted `{ExclusionHost K} (before after : list text) (k : K) : Result * (K * list (Call * K)) :=
  replaceRoutes (λ r, noted (CAdd r) (ex_add r)) (λ r, noted (CRemove r) (ex_remove r)) before after (k, []).

(** ** Moments of a transaction *)

Section moments.
Context {K : Type} `{!ExclusionHost K, !ExclusionLaws K}.
Context (ok : Call → K → Prop).      (* what has to hold after every call *)

Notation X := (K * list (Call * K))%type.
Notation tx A := (prog X Result A).

(** The host has the routes [R] and the permits [F], and every moment was fine. *)
Definition at_host (R F : gset text) (x : X) : Prop :=
  ex_routes x.1 = R ∧ ex_permits x.1 = F ∧ Forall (λ e, ok e.1 e.2) x.2.

Notation fw l := (effect (noted (CFirewall l) (ex_firewall l))).
Notation add r := (effect (noted (CAdd r) (ex_add r))).
Notation remove r := (effect (noted (CRemove r) (ex_remove r))).

Lemma noted_rule c f R F (Q : bool → X → Prop) :
  (∀ k, ex_routes k = R → ex_permits k = F →
     let '(b, k') := f k in ok c k' ∧ ∀ log, Forall (λ e, ok e.1 e.2) log → Q b (k', log)) →
  hoare (at_host R F) (effect (noted c f)) Q (λ _ _, False).
Proof.
  intros Hf [k log] (HR & HF & Hlog). unfold effect, noted. cbn [fst snd] in *. specialize (Hf k HR HF).
  destruct (f k) as [b k']. destruct Hf as [Hok HQ]. apply HQ. apply Forall_app. split; [done|]. by repeat constructor.
Qed.

Lemma fw_rule l R F :
  (∀ k, ex_routes k = R → ex_permits k = route_set l ∨ ex_permits k = F → ok (CFirewall l) k) →
  hoare (at_host R F) (fw l)
    (λ b x, at_host R (route_set l) x ∨ (b = false ∧ at_host R F x)) (λ _ _, False).
Proof.
  intros Hok. apply noted_rule. intros k HR HF. pose proof (firewall_law l k) as L. destruct (ex_firewall l k) as [b k'].
  destruct L as [L1 L2]. split; [apply Hok; [congruence|naive_solver congruence]|]. intros log Hlog.
  destruct L2 as [L2|[-> L2]]; [left|right; split; [done|]]; split_and!; simpl; congruence || done.
Qed.

Lemma add_rule r R F :
  (∀ k, ex_permits k = F → ex_routes k = {[r]} ∪ R ∨ ex_routes k = R → ok (CAdd r) k) →
  hoare (at_host R F) (add r) (λ b x, at_host ({[r]} ∪ R) F x ∨ (b = false ∧ at_host R F x)) (λ _ _, False).
Proof.
  intros Hok. apply noted_rule. intros k HR HF. pose proof (add_law r k) as L. destruct (ex_add r k) as [b k'].
  destruct L as [L1 L2]. split; [apply Hok; [congruence|naive_solver congruence]|]. intros log Hlog.
  destruct L2 as [L2|[-> L2]]; [left|right; split; [done|]]; split_and!; simpl; congruence || done.
Qed.

Lemma remove_rule r R F :
  (∀ k, ex_permits k = F → ex_routes k = R ∖ {[r]} ∨ ex_routes k = R → ok (CRemove r) k) →
  hoare (at_host R F) (remove r) (λ b x, at_host (R ∖ {[r]}) F x ∨ (b = false ∧ at_host R F x)) (λ _ _, False).
Proof.
  intros Hok. apply noted_rule. intros k HR HF. pose proof (remove_law r k) as L. destruct (ex_remove r k) as [b k'].
  destruct L as [L1 L2]. split; [apply Hok; [congruence|naive_solver congruence]|]. intros log Hlog.
  destruct L2 as [L2|[-> L2]]; [left|right; split; [done|]]; split_and!; simpl; congruence || done.
Qed.
End moments.

(** ** Loops *)

Definition added_to (r : text) (R : gset text) : gset text := {[r]} ∪ R.
Definition removed_from (r : text) (R : gset text) : gset text := R ∖ {[r]}.

Definition apply_all (g : text → gset text → gset text) (l : list text) (R : gset text) : gset text := foldl (λ R r, g r R) R l.

Lemma apply_all_app g l1 l2 R : apply_all g (l1 ++ l2) R = apply_all g l2 (apply_all g l1 R).
Proof. apply foldl_app. Qed.

Lemma apply_added l R : apply_all added_to l R = route_set l ∪ R.
Proof.
  revert R. induction l as [|r l IH]; intros R; simpl; [set_solver|]. unfold apply_all, added_to, route_set in *. rewrite IH. set_solver.
Qed.

Lemma apply_removed l R : apply_all removed_from l R = R ∖ route_set l.
Proof.
  revert R. induction l as [|r l IH]; intros R; simpl; [set_solver|]. unfold apply_all, removed_from, route_set in *. rewrite IH. set_solver.
Qed.

Lemma sorted_routes_elem r s : r ∈ sorted_routes s ↔ r ∈ s.
Proof. unfold sorted_routes. rewrite (sort_text_perm (elements s)). apply elem_of_elements. Qed.

Lemma sorted_routes_set s : route_set (sorted_routes s) = s.
Proof. apply set_eq. intros r. unfold route_set. by rewrite elem_of_list_to_set, sorted_routes_elem. Qed.

Lemma list_subseteq_cons_inv {A} (x : A) l L : x :: l ⊆ L → x ∈ L ∧ l ⊆ L.
Proof. intros H. split; [apply H; constructor|]. intros y Hy. apply H. by constructor. Qed.

Section loops.
Context {K : Type} `{!ExclusionHost K, !ExclusionLaws K} (ok : Call → K → Prop).
Context (F : gset text) (inside : gset text → Prop).
Context (op : text → K * list (Call * K) → bool * (K * list (Call * K))) (g : text → gset text → gset text) (L : list text).
Context (Hop : ∀ r R, r ∈ L → inside R →
  inside (g r R) ∧ hoare (at_host ok R F) (effect (op r)) (λ b x, at_host ok (g r R) F x ∨ (b = false ∧ at_host ok R F x)) (λ _ _, False)).

Lemma restore_rule l R b :
  l ⊆ L → inside R →
  hoare (at_host ok R F) (restore_each op b l)
    (λ b' x, ∃ R', inside R' ∧ at_host ok R' F x ∧ (b' = true → b = true ∧ R' = apply_all g l R)) (λ _ _, False).
Proof.
  revert R b. induction l as [|r l IH]; intros R b Hl HR.
  { apply h_ret. intros x Hx. exists R. naive_solver. }
  apply list_subseteq_cons_inv in Hl as [Hr0 Hl].
  cbn [restore_each cmd_fold]. destruct (Hop r R Hr0 HR) as [HR' Hr].
    eapply (h_bind _ _ _ (λ b' x, ∃ R', inside R' ∧ at_host ok R' F x ∧ (b' = true → b = true ∧ R' = g r R))).
  - eapply h_bind; [exact Hr|]. intros ok1. apply h_ret. intros x [Hx|[-> Hx]].
      * exists (g r R). split_and!; [done|done|]. intros [_ ->]%andb_true_iff. done.
      * exists R. split_and!; [done|done|]. done.
  - intros b' x (R' & HiR & Hx & Hb). pose proof (IH R' b' Hl HiR x Hx) as H0.
      unfold restore_each in H0. destruct (cmd_fold _ b' l x) as [[b2|e] x2]; [|done].
      destruct H0 as (R2 & Hi2 & Hx2 & Hb2). exists R2. split_and!; [done|done|]. intros Ht.
      destruct (Hb2 Ht) as [-> ->]. destruct (Hb eq_refl) as [-> ->]. done.
Qed.

Lemma attempt_rule rollback att l R (Q : Result → K * list (Call * K) → Prop) :
  l ⊆ L → inside R →
  (∀ l1 r l2 R', l = l1 ++ r :: l2 → R' = apply_all g l1 R ∨ R' = apply_all g (l1 ++ [r]) R → inside R' →
     hoare (at_host ok R' F) (rollback (att ++ l1 ++ [r])) Q (λ _ _, False)) →
  hoare (at_host ok R F) (attempt_each op rollback att l)
    (λ att' x, att' = att ++ l ∧ inside (apply_all g l R) ∧ at_host ok (apply_all g l R) F x) Q.
Proof.
  revert att R. induction l as [|r l IH]; intros att R Hl HR Hrb.
  { apply h_ret. intros x Hx. by rewrite app_nil_r. }
  apply list_subseteq_cons_inv in Hl as [Hr0 Hl]. cbn [attempt_each]. destruct (Hop r R Hr0 HR) as [HR' Hr].
    eapply (h_bind _ _ _ (λ b x, at_host ok (g r R) F x ∨ (b = false ∧ at_host ok R F x))).
    { eapply h_conseq; [exact Hr|done|done|]. by intros e x []. }
    intros b. destruct b; cbn [negb].
  - intros x [Hx|[? _]]; [|done]. specialize (IH (att ++ [r]) (g r R) Hl HR').
      rewrite <-app_assoc in IH. revert x Hx. apply IH. intros l1 r1 l2 R' -> HR1 Hin. rewrite <-app_assoc.
      by apply (Hrb (r :: l1) r1 l2).
  - assert (∀ R', R' = R ∨ R' = g r R → inside R' → hoare (at_host ok R' F) (let! r0 := rollback (att ++ [r]) in leave r0)
          (λ (att' : list text) x, att' = att ++ r :: l ∧ inside (apply_all g (r :: l) R) ∧ at_host ok (apply_all g (r :: l) R) F x) Q) as Hf.
      { intros R' Hor Hin. eapply (h_bind _ _ _ Q).
        - eapply h_conseq; [apply (Hrb [] r l R' eq_refl); naive_solver|done|done|]. by intros e x [].
        - intros r0. by apply h_leave. }
      intros x [Hx|[_ Hx]]; [by apply (Hf (g r R)); [right| |]|by apply (Hf R); [left| |]].
Qed.
End loops.

Lemma prefix_set (l l1 l2 : list text) (s : gset text) : l = sorted_routes s → l = l1 ++ l2 → route_set l1 ⊆ s.
Proof. intros -> E x Hx. apply sorted_routes_elem. rewrite E. unfold route_set in Hx. set_solver. Qed.

Lemma prefix_list {A} (l l1 l2 L : list A) : l ⊆ L → l = l1 ++ l2 → l1 ⊆ L.
Proof. intros HL -> x Hx. apply HL. apply elem_of_app. by left. Qed.

Lemma split_snoc {A} (l l1 : list A) r l2 : l = l1 ++ r :: l2 → l = (l1 ++ [r]) ++ l2.
Proof. intros ->. by rewrite <-app_assoc. Qed.

Lemma route_set_app l1 l2 : route_set (l1 ++ l2) = route_set l1 ∪ route_set l2.
Proof. unfold route_set. apply list_to_set_app_L. Qed.

(** ** With a firewall *)

Section fenced.
Context {K : Type} `{!ExclusionHost K, !ExclusionLaws K}.
Context (before after : list text) (R0 : gset text).
Context (Hbefore : route_set before ⊆ R0) (Hnew : route_set after ∩ R0 ⊆ route_set before).

Notation old := (route_set before).
Notation new := (route_set after).
Notation common := (sorted_routes (old ∩ new)).
Notation removed := (sorted_routes (old ∖ new)).
Notation added := (sorted_routes (new ∖ old)).

(** Every permitted bypass has its route, and routes change only while the
    firewall permits what both policies have. *)
Definition fenced_moment (c : Call) (k : K) : Prop :=
  ex_permits k ⊆ ex_routes k ∧ match c with CFirewall _ => True | _ => ex_permits k = old ∩ new end.

(** Only the routes of one of the policies come and go. *)
Definition between (R : gset text) : Prop := R0 ∖ (old ∖ new) ⊆ R ∧ R ⊆ R0 ∪ (new ∖ old).

Definition fenced_outcome (r : Result) (x : K * list (Call * K)) : Prop :=
  Forall (λ e, fenced_moment e.1 e.2) x.2 ∧
  match r with
  | Updated => ex_permits x.1 = new ∧ ex_routes x.1 = R0 ∖ (old ∖ new) ∪ (new ∖ old)
  | RolledBack => ex_permits x.1 = old ∧ ex_routes x.1 = R0
  | Uncertain => between (ex_routes x.1) ∧ ex_permits x.1 ⊆ ex_routes x.1
                 ∧ (ex_permits x.1 = old ∨ ex_permits x.1 = old ∩ new ∨ ex_permits x.1 = new)
  | _ => False
  end.

Notation at_host := (at_host fenced_moment).
Notation fw := (λ l, noted (CFirewall l) (ex_firewall l)).
Notation add := (λ r, noted (CAdd r) (ex_add r)).
Notation remove := (λ r, noted (CRemove r) (ex_remove r)).

Lemma common_set : route_set common = old ∩ new.
Proof. apply sorted_routes_set. Qed.

Lemma between_common R : between R → old ∩ new ⊆ R.
Proof. intros [H1 _]. set_solver. Qed.

Lemma between_start : between R0.
Proof. split; set_solver. Qed.

Lemma between_add r R : r ∈ removed ∨ r ∈ added → between R → between (added_to r R).
Proof.
  intros Hr [H1 H2]. assert (r ∈ old ∖ new ∨ r ∈ new ∖ old) as Hr' by (by rewrite !sorted_routes_elem in Hr).
  unfold added_to. split; [set_solver|]. destruct Hr'; set_solver.
Qed.

Lemma between_remove r R : r ∈ removed ∨ r ∈ added → between R → between (removed_from r R).
Proof.
  intros Hr [H1 H2]. assert (r ∈ old ∖ new ∨ r ∈ new ∖ old) as Hr' by (by rewrite !sorted_routes_elem in Hr).
  unfold removed_from. split; [|set_solver]. intros x Hx. apply elem_of_difference. split; [by apply H1|].
  intros ->%elem_of_singleton. destruct Hr' as [Hr'|Hr']; [set_solver|]. apply elem_of_difference in Hr' as [Ha Hb].
  apply elem_of_difference in Hx as [Hx _]. apply Hb, Hnew. set_solver.
Qed.

Lemma add_between r R : r ∈ removed ++ added → between R →
  between (added_to r R) ∧ hoare (at_host R (old ∩ new)) (effect (add r))
    (λ b x, at_host (added_to r R) (old ∩ new) x ∨ (b = false ∧ at_host R (old ∩ new) x)) (λ _ _, False).
Proof.
  intros Hr%elem_of_app HR. pose proof (between_add r R Hr HR) as HR'. split; [done|]. apply add_rule.
  intros k Hk Hor. split; [|done]. rewrite Hk. destruct Hor as [->| ->]; by apply between_common.
Qed.

Lemma remove_between r R : r ∈ removed ++ added → between R →
  between (removed_from r R) ∧ hoare (at_host R (old ∩ new)) (effect (remove r))
    (λ b x, at_host (removed_from r R) (old ∩ new) x ∨ (b = false ∧ at_host R (old ∩ new) x)) (λ _ _, False).
Proof.
  intros Hr%elem_of_app HR. pose proof (between_remove r R Hr HR) as HR'. split; [done|]. apply remove_rule.
  intros k Hk Hor. split; [|done]. rewrite Hk. destruct Hor as [->| ->]; by apply between_common.
Qed.

Lemma fenced_uncertain R F x : at_host R F x → between R → F ⊆ R → F = old ∨ F = old ∩ new ∨ F = new → fenced_outcome Uncertain x.
Proof. intros (HR & HF & Hlog) Hb Hs Hor. split; [done|]. rewrite HR, HF. done. Qed.

Lemma fenced_rollback_rule adds removals R F :
  adds ⊆ removed ++ added → removals ⊆ removed ++ added → between R → F ⊆ R → F = old ∩ new ∨ F = new →
  apply_all added_to removals (apply_all removed_from adds R) = R0 →
  hoare (at_host R F) (rollback_fenced fw add remove common before adds removals) fenced_outcome (λ _ _, False).
Proof.
  intros Ha Hr Hb HF Hor Hex. unfold rollback_fenced.
  eapply h_bind.
  { apply (fw_rule fenced_moment common R F). intros k Hk Hp. split; [|done]. rewrite Hk, common_set in *.
    destruct Hp as [->| ->]; [by apply between_common|done]. }
  intros fenced. rewrite common_set. destruct fenced; cbn [negb].
  2: { apply h_ret. intros x [Hx|[_ Hx]]; eapply fenced_uncertain; try done; [by apply between_common|tauto|tauto]. }
  apply (h_pre (at_host R (old ∩ new))); [by intros x [Hx|[? _]]|].
  eapply (h_bind _ _ _ (λ b x, ∃ R1, between R1 ∧ at_host R1 (old ∩ new) x ∧ (b = true → R1 = apply_all removed_from adds R))).
  { eapply h_conseq; [apply (restore_rule fenced_moment (old ∩ new) between _ _ _ remove_between adds R true Ha Hb)|done| |done].
    intros b x (R1 & H1 & H2 & H3). exists R1. naive_solver. }
  intros b1 x1 (R1 & Hb1 & Hx1 & He1). revert x1 Hx1.
  eapply (h_bind _ _ _ (λ b x, ∃ R2, between R2 ∧ at_host R2 (old ∩ new) x ∧ (b = true → R2 = R0))).
  { eapply h_conseq; [apply (restore_rule fenced_moment (old ∩ new) between _ _ _ add_between removals R1 b1 Hr Hb1)|done| |done].
    intros b x (R2 & H1 & H2 & H3). exists R2. split_and!; [done|done|]. intros Hb'. destruct (H3 Hb') as [-> ->].
    by rewrite (He1 eq_refl). }
  intros b2 x2 (R2 & Hb2 & Hx2 & He2). destruct b2; cbn [negb].
  - rewrite (He2 eq_refl) in Hx2. revert x2 Hx2.
    eapply h_bind; [apply (fw_rule fenced_moment before R0 (old ∩ new)); intros k Hk Hp; split; [|done];
      rewrite Hk; destruct Hp as [->| ->]; [done|apply between_common, between_start]|].
    intros b3. apply h_ret. intros x [Hx|[-> Hx]]; [destruct b3|].
    + destruct Hx as (? & ? & ?). by split.
    + eapply fenced_uncertain; [done|apply between_start|done|tauto].
    + eapply fenced_uncertain; [done|apply between_start|apply between_common, between_start|tauto].
  - eapply fenced_uncertain; [exact Hx2|done|by apply between_common|tauto].
Qed.

Lemma nothing_changes : added = [] → removed = [] → old = new.
Proof.
  intros Ha Hr. assert (new ∖ old = ∅ ∧ old ∖ new = ∅) as [H1 H2]; [|apply set_eq; intros x; split; intros Hx].
  - rewrite <-(sorted_routes_set (new ∖ old)), <-(sorted_routes_set (old ∖ new)), Ha, Hr. done.
  - destruct (decide (x ∈ new)); [done|]. set_solver.
  - destruct (decide (x ∈ old)); [done|]. set_solver.
Qed.

(** Undoing what was attempted gives the routes of the start. *)
Lemma undone adds removals R :
  route_set adds ⊆ new ∖ old → route_set removals ⊆ old ∖ new → R ⊆ R0 ∪ route_set adds → R0 ∖ route_set removals ⊆ R →
  apply_all added_to removals (apply_all removed_from adds R) = R0.
Proof.
  intros Ha Hr H1 H2. rewrite apply_added, apply_removed. apply set_eq. intros x. split.
  - intros [Hx|[Hx Hn]%elem_of_difference]%elem_of_union; [|set_solver]. apply Hbefore. set_solver.
  - intros Hx. destruct (decide (x ∈ route_set removals)) as [|Hn]; [set_solver|]. apply elem_of_union_r, elem_of_difference.
    split; [set_solver|]. intros Hxa. specialize (Ha x Hxa). apply elem_of_difference in Ha as [Hxn Hxo].
    apply Hxo, Hnew. set_solver.
Qed.

Lemma fenced_replace_rule : hoare (at_host R0 old) (replace_body fw add remove before after) fenced_outcome fenced_outcome.
Proof.
  unfold replace_body. cbv zeta.
  assert (removed ⊆ removed ++ added) as HLr by (intros x Hx; apply elem_of_app; by left).
  assert (added ⊆ removed ++ added) as HLa by (intros x Hx; apply elem_of_app; by right).
  case_bool_decide as Echg.
  { intros x (HR & HF & Hlog). destruct Echg as [Ea Er]. pose proof (nothing_changes Ea Er) as E. split; [done|].
    rewrite HR, HF, E. split; [done|]. set_solver. }
  cbn [leave_if]. eapply (h_bind _ _ _ (λ _, at_host R0 old)); [by apply h_ret|intros _].
  eapply (h_bind _ _ _ (λ b x, at_host R0 (old ∩ new) x ∨ (b = false ∧ at_host R0 old x))).
  { eapply h_conseq; [apply (fw_rule fenced_moment common R0 old)|done| |by intros ? ? []].
    - intros k Hk Hp. split; [|done]. rewrite Hk. rewrite common_set in Hp.
      destruct Hp as [->| ->]; [apply between_common, between_start|done].
    - intros b x. by rewrite common_set. }
  intros fenced. destruct fenced; cbn [negb leave_if].
  2: { apply (h_bind _ _ _ (λ _ _, False)); [|by intros ? ? []]. intros x [Hx|[_ Hx]].
       - eapply fenced_uncertain; [exact Hx|apply between_start|apply between_common, between_start|tauto].
       - eapply fenced_uncertain; [exact Hx|apply between_start|done|tauto]. }
  apply (h_bind _ _ _ (λ _, at_host R0 (old ∩ new))); [apply h_ret; by intros x [Hx|[? _]]|intros _].
  eapply h_bind.
  { apply (attempt_rule fenced_moment (old ∩ new) between _ _ _ remove_between (rollback_fenced fw add remove common before []) [] removed R0
             fenced_outcome HLr between_start).
    intros l1 r l2 R' E HR' Hb. cbn [app]. pose proof (split_snoc _ _ _ _ E) as E'.
    apply fenced_rollback_rule; [by intros ? ?%not_elem_of_nil|exact (prefix_list _ _ _ _ HLr E')|done|by apply between_common|tauto|].
    pose proof (prefix_set _ _ _ _ eq_refl E') as Hs. rewrite route_set_app in Hs.
    apply undone; [set_solver|by rewrite route_set_app| |]; rewrite ?route_set_app; destruct HR' as [->| ->];
      rewrite apply_removed, ?route_set_app; set_solver. }
  intros ar x1 [-> [Hb1 Hx1]]. rewrite apply_removed, sorted_routes_set in Hb1, Hx1. revert x1 Hx1. cbn [app].
  eapply h_bind.
  { apply (attempt_rule fenced_moment (old ∩ new) between _ _ _ add_between (λ adds, rollback_fenced fw add remove common before adds removed)
             [] added (R0 ∖ (old ∖ new)) fenced_outcome HLa Hb1).
    intros l1 r l2 R' E HR' Hb. cbn [app]. pose proof (split_snoc _ _ _ _ E) as E'.
    apply fenced_rollback_rule; [exact (prefix_list _ _ _ _ HLa E')|done|done|by apply between_common|tauto|].
    pose proof (prefix_set _ _ _ _ eq_refl E') as Hs. rewrite route_set_app in Hs.
    apply undone; [by rewrite route_set_app|by rewrite sorted_routes_set| |]; rewrite ?route_set_app, ?sorted_routes_set;
      destruct HR' as [->| ->]; rewrite apply_added, ?route_set_app; set_solver. }
  intros aa x2 [-> [Hb2 Hx2]]. rewrite apply_added, sorted_routes_set in Hb2, Hx2. cbn [app].
  assert (new ⊆ new ∖ old ∪ R0 ∖ (old ∖ new)) as Hnew'.
  { intros x Hx. destruct (decide (x ∈ old)); [|set_solver]. apply elem_of_union_r, elem_of_difference. split; [by apply Hbefore|set_solver]. }
  revert x2 Hx2. eapply (h_bind _ _ _ (λ b x, at_host (new ∖ old ∪ R0 ∖ (old ∖ new)) new x ∨ (b = false ∧ at_host (new ∖ old ∪ R0 ∖ (old ∖ new)) (old ∩ new) x))).
  { eapply h_conseq; [apply (fw_rule fenced_moment after (new ∖ old ∪ R0 ∖ (old ∖ new)) (old ∩ new))|done|done|by intros ? ? []].
    intros k Hk Hp. split; [|done]. rewrite Hk. destruct Hp as [->| ->]; [done|by apply between_common]. }
  assert (∀ F, F = old ∩ new ∨ F = new → hoare (at_host (new ∖ old ∪ R0 ∖ (old ∖ new)) F) (rollback_fenced fw add remove common before added removed) fenced_outcome fenced_outcome) as Hrb.
  { intros F HF. eapply h_conseq; [apply (fenced_rollback_rule added removed _ F HLa HLr Hb2)|done|done|by intros ? ? []].
    - destruct HF as [->| ->]; [by apply between_common|done].
    - done.
    - apply undone; rewrite ?sorted_routes_set; [done|done|set_solver|set_solver]. }
  intros b x [Hx|[-> Hx]]; [destruct b; cbn [negb]|].
  - destruct Hx as (HR & HF & Hlog). split; [done|]. split; [done|]. rewrite HR. set_solver.
  - by apply (Hrb new); [right|].
  - by apply (Hrb (old ∩ new)); [left|].
Qed.
End fenced.

(** C40. Replacing the exclusions of a connection behind a firewall, when the old
    ones are permitted and have their routes and no new one has a route yet,
    whichever of the firewall and route operations fail, and whether or not a
    failed one did its work: after every call each permitted bypass has its route, and routes
    change only while the firewall permits exactly the bypasses of both
    policies.  [Updated] means that the routes and permits are those of the new
    policy, [RolledBack] that they are those of the start; [Uncertain] leaves
    only routes and permits of one of the two policies. *)
Theorem exclusions_replaced_fenced {K : Type} `{!ExclusionHost K, !ExclusionLaws K} (before after : list text) (k : K) :
  ex_permits k = route_set before → route_set before ⊆ ex_routes k → route_set after ∩ ex_routes k ⊆ route_set before →
  let '(r, (k', log)) := replace_noted before after k in
  Forall (λ e, ex_permits e.2 ⊆ ex_routes e.2
               ∧ match e.1 with CFirewall _ => True | _ => ex_permits e.2 = route_set before ∩ route_set after end) log ∧
  match r with
  | Updated => ex_permits k' = route_set after ∧ ex_routes k' = ex_routes k ∖ (route_set before ∖ route_set after) ∪ (route_set after ∖ route_set before)
  | RolledBack => ex_permits k' = route_set before ∧ ex_routes k' = ex_routes k
  | Uncertain => ex_routes k ∖ (route_set before ∖ route_set after) ⊆ ex_routes k'
                 ∧ ex_routes k' ⊆ ex_routes k ∪ (route_set after ∖ route_set before)
                 ∧ (ex_permits k' = route_set before ∨ ex_permits k' = route_set before ∩ route_set after ∨ ex_permits k' = route_set after)
  | _ => False
  end.
Proof.
  intros Hp Hb Hn. unfold replace_noted, replace, returns.
  pose proof (fenced_replace_rule before after (ex_routes k) Hb Hn (k, []) ltac:(by split_and!)) as R.
  destruct (replace_body _ _ _ before after (k, [])) as [[r|r] [k' log]]; destruct R as [Hl Hr]; (split; [exact Hl|]);
    destruct r; try done; by destruct Hr as ([? ?] & _ & ?).
Qed.

(** ** Without a firewall *)

Section unfenced.
Context {K : Type} `{!ExclusionHost K, !ExclusionLaws K}.
Context (before after : list text) (R0 F : gset text).
Context (Hbefore : route_set before ⊆ R0) (Hnew : route_set after ∩ R0 ⊆ route_set before).

Notation old := (route_set before).
Notation new := (route_set after).
Notation removed := (sorted_routes (old ∖ new)).
Notation added := (sorted_routes (new ∖ old)).
Notation between := (between before after R0).

Definition open_moment (_ : Call) (k : K) : Prop := between (ex_routes k) ∧ ex_permits k = F.

Definition open_outcome (r : Result) (x : K * list (Call * K)) : Prop :=
  Forall (λ e, open_moment e.1 e.2) x.2 ∧
  match r with
  | Updated => ex_routes x.1 = R0 ∖ (old ∖ new) ∪ (new ∖ old)
  | RolledBack => ex_routes x.1 = R0
  | Uncertain => between (ex_routes x.1)
  | _ => False
  end.

Notation at_host := (at_host open_moment).
Notation add := (λ r, noted (CAdd r) (ex_add r)).
Notation remove := (λ r, noted (CRemove r) (ex_remove r)).

Lemma add_open r R : r ∈ removed ++ added → between R →
  between (added_to r R) ∧ hoare (at_host R F) (effect (add r))
    (λ b x, at_host (added_to r R) F x ∨ (b = false ∧ at_host R F x)) (λ _ _, False).
Proof.
  intros Hr%elem_of_app HR. assert (between (added_to r R)) as HR' by (by apply between_add). split; [done|]. apply add_rule.
  intros k Hk Hor. split; [|done]. by destruct Hor as [->| ->].
Qed.

Lemma remove_open r R : r ∈ removed ++ added → between R →
  between (removed_from r R) ∧ hoare (at_host R F) (effect (remove r))
    (λ b x, at_host (removed_from r R) F x ∨ (b = false ∧ at_host R F x)) (λ _ _, False).
Proof.
  intros Hr%elem_of_app HR. assert (between (removed_from r R)) as HR' by (by apply between_remove). split; [done|]. apply remove_rule.
  intros k Hk Hor. split; [|done]. by destruct Hor as [->| ->].
Qed.

(** Here the removals are undone first; the order does not matter for the routes. *)
Lemma open_rollback_rule adds removals R :
  adds ⊆ removed ++ added → removals ⊆ removed ++ added → between R →
  apply_all removed_from adds (apply_all added_to removals R) = R0 →
  hoare (at_host R F) (rollback_routes add remove adds removals) open_outcome (λ _ _, False).
Proof.
  intros Ha Hr Hb Hex. unfold rollback_routes.
  eapply (h_bind _ _ _ (λ b x, ∃ R1, between R1 ∧ at_host R1 F x ∧ (b = true → R1 = apply_all added_to removals R))).
  { eapply h_conseq; [apply (restore_rule open_moment F between _ _ _ add_open removals R true Hr Hb)|done| |done].
    intros b x (R1 & H1 & H2 & H3). exists R1. naive_solver. }
  intros b1 x1 (R1 & Hb1 & Hx1 & He1). revert x1 Hx1.
  eapply h_bind; [apply (restore_rule open_moment F between _ _ _ remove_open adds R1 b1 Ha Hb1)|].
  intros b2. apply h_ret. intros x (R2 & Hb2 & (HR & HF & Hlog) & He2). split; [done|]. destruct b2.
  - destruct (He2 eq_refl) as [-> ->]. rewrite HR, (He1 eq_refl). exact Hex.
  - by rewrite HR.
Qed.

Lemma undone_open adds removals R :
  route_set adds ⊆ new ∖ old → route_set removals ⊆ old ∖ new → R ⊆ R0 ∪ route_set adds → R0 ∖ route_set removals ⊆ R →
  apply_all removed_from adds (apply_all added_to removals R) = R0.
Proof.
  intros Ha Hr H1 H2. assert (apply_all added_to removals (apply_all removed_from adds R) = R0) as <- by (by eapply undone). rewrite !apply_added, !apply_removed.
  apply set_eq. intros x. destruct (decide (x ∈ route_set adds)); set_solver.
Qed.

Lemma routes_replace_rule : hoare (at_host R0 F) (replaceRoutes_body add remove before after) open_outcome open_outcome.
Proof.
  unfold replaceRoutes_body. cbv zeta.
  assert (removed ⊆ removed ++ added) as HLr by (intros x Hx; apply elem_of_app; by left).
  assert (added ⊆ removed ++ added) as HLa by (intros x Hx; apply elem_of_app; by right).
  case_bool_decide as Echg.
  { intros x (HR & HF & Hlog). destruct Echg as [Ea Er]. assert (old = new) as E by (by eapply nothing_changes). split; [done|].
    rewrite HR, E. set_solver. }
  cbn [leave_if]. eapply (h_bind _ _ _ (λ _, at_host R0 F)); [by apply h_ret|intros _].
  eapply h_bind.
  { apply (attempt_rule open_moment F between _ _ _ add_open (λ adds, rollback_routes add remove adds []) [] added R0 open_outcome HLa
             ltac:(by apply between_start)).
    intros l1 r l2 R' E HR' Hb. cbn [app]. pose proof (split_snoc _ _ _ _ E) as E'.
    apply open_rollback_rule; [exact (prefix_list _ _ _ _ HLa E')|by intros ? ?%not_elem_of_nil|done|].
    pose proof (prefix_set _ _ _ _ eq_refl E') as Hs. rewrite route_set_app in Hs.
    apply undone_open; [by rewrite route_set_app|set_solver| |]; rewrite ?route_set_app; destruct HR' as [->| ->];
      rewrite apply_added, ?route_set_app; set_solver. }
  intros aa x1 [-> [Hb1 Hx1]]. rewrite apply_added, sorted_routes_set in Hb1, Hx1. revert x1 Hx1. cbn [app].
  eapply h_bind.
  { apply (attempt_rule open_moment F between _ _ _ remove_open (λ removals, rollback_routes add remove added removals) [] removed
             (new ∖ old ∪ R0) open_outcome HLr Hb1).
    intros l1 r l2 R' E HR' Hb. cbn [app]. pose proof (split_snoc _ _ _ _ E) as E'.
    apply open_rollback_rule; [done|exact (prefix_list _ _ _ _ HLr E')|done|].
    pose proof (prefix_set _ _ _ _ eq_refl E') as Hs. rewrite route_set_app in Hs.
    apply undone_open; [by rewrite sorted_routes_set|by rewrite route_set_app| |]; rewrite ?route_set_app, ?sorted_routes_set;
      destruct HR' as [->| ->]; rewrite apply_removed, ?route_set_app; set_solver. }
  intros ar. apply h_ret. intros x [-> [_ (HR & HF & Hlog)]]. split; [done|]. rewrite HR, apply_removed, sorted_routes_set.
  apply set_eq. intros y. split; [set_solver|]. intros [Hy|Hy]%elem_of_union; [set_solver|].
  apply elem_of_difference. split; set_solver.
Qed.
End unfenced.

(** Without a firewall the result says the same about the routes, and at every
    moment the routes both policies have are there. *)
Theorem exclusion_routes_replaced {K : Type} `{!ExclusionHost K, !ExclusionLaws K} (before after : list text) (k : K) :
  route_set before ⊆ ex_routes k → route_set after ∩ ex_routes k ⊆ route_set before →
  let '(r, (k', log)) := replaceRoutes_noted before after k in
  Forall (λ e, route_set before ∩ route_set after ⊆ ex_routes e.2 ∧ ex_permits e.2 = ex_permits k) log ∧
  match r with
  | Updated => ex_routes k' = ex_routes k ∖ (route_set before ∖ route_set after) ∪ (route_set after ∖ route_set before)
  | RolledBack => ex_routes k' = ex_routes k
  | Uncertain => ex_routes k ∖ (route_set before ∖ route_set after) ⊆ ex_routes k'
                 ∧ ex_routes k' ⊆ ex_routes k ∪ (route_set after ∖ route_set before)
  | _ => False
  end.
Proof.
  intros Hb Hn. unfold replaceRoutes_noted, replaceRoutes, returns.
  pose proof (routes_replace_rule before after (ex_routes k) (ex_permits k) Hb Hn (k, []) ltac:(by split_and!)) as R.
  assert (∀ log, Forall (λ e, open_moment before after (ex_routes k) (ex_permits k) e.1 e.2) log →
    Forall (λ e : Call * K, route_set before ∩ route_set after ⊆ ex_routes e.2 ∧ ex_permits e.2 = ex_permits k) log) as Hlog.
  { intros log Hl. eapply Forall_impl; [exact Hl|]. intros e [H1 H2]. split; [|done]. by eapply between_common. }
  destruct (replaceRoutes_body _ _ before after (k, [])) as [[r|r] [k' log]]; destruct R as [Hl Hr];
    (split; [by apply Hlog|]); by destruct r.
Qed.
