(* ===== verification/InterfaceConfig.v ===== *)
(** * Interface configurations of the privileged daemon

    Model of client/daemon/interfaceconfig.cpp and of the reading of a
    configuration from the request of a client, [Daemon::parseConfig] in
    client/daemon/daemon.cpp (outside Windows).

    The addresses whose null state the code asks for are optional texts; null
    and empty strings are equal for [==].  How Qt reads an enumerator, an empty
    JSON string, or a number out of range, and how [std::sort] orders equals,
    are parameters. *)

From S2P Require Import Prelude Text Json QtInterface RoutePolicy ConfigCodec RouteState IpAddress.
#[local] Open Scope Z_scope.

Inductive HopType := SingleHop | MultiHopEntry | MultiHopExit.

#[export] Instance HopType_eq_dec : EqDecision HopType.
Proof. solve_decision. Defined.

Record InterfaceConfig := MkInterfaceConfig {
  m_hopType : HopType;
  m_privateKey : text;
  m_deviceIpv4Address : option text;
  m_deviceIpv6Address : option text;
  m_serverIpv4Gateway : text;
  m_serverIpv6Gateway : text;
  m_serverPublicKey : text;
  m_serverIpv4AddrIn : option text;
  m_serverPskKey : text;
  m_serverIpv6AddrIn : option text;
  m_primaryDnsServer : text;
  m_secondaryDnsServer : text;
  m_serverPort : Z;
  m_deviceMTU : Z;
  m_persistentKeepalive : text;
  m_allowedIPAddressRanges : list IPAddress;
  m_excludedAddresses : list text;
  m_managedExcludedAddresses : list text;
  m_managedExclusionsKnown : bool;
  m_routeConnectionNonce : text;
  m_vpnDisabledApps : list text;
  m_allowedDnsServers : list text;
  m_killSwitchEnabled : bool;
  m_blockIpv6Traffic : bool;
  m_junk : list (text * text);          (* Jc ... H4, in the order of toWgConf *)
  m_specialJunk : list (text * text);   (* QMap: ordered by key *)
  m_awg3 : list (text * text);          (* HeaderProtectionKey ... DisableCookies *)
}.

(** A [QString] that may be null. *)
Definition qstr (s : option text) : text := default [] s.

(** What Qt and the C++ library decide. *)
Class DaemonLibrary := {
  hop_value : text → option HopType;              (* QMetaEnum::keyToValue *)
  empty_is_null : bool;                           (* QJsonValue("").toString().isNull() *)
  int_overflow : qdouble → Z;                     (* a double out of the range of int, converted *)
  sort_ranges : list IPAddress → list IPAddress;  (* std::sort by decreasing prefix length *)
}.

Definition hop_name (h : HopType) : text :=
  match h with SingleHop => lit "SingleHop" | MultiHopEntry => lit "MultiHopEntry" | MultiHopExit => lit "MultiHopExit" end.

Definition longer_first (a b : IPAddress) : Prop := m_prefixLength b <= m_prefixLength a.

Class DaemonLibraryLaws `(L : DaemonLibrary) : Prop := {
  hop_value_name h : hop_value (hop_name h) = Some h;
  sort_ranges_perm l : sort_ranges l ≡ₚ l;
  sort_ranges_sorted l : StronglySorted longer_first (sort_ranges l);
}.

(** ** JSON *)

Definition is_exit (h : HopType) : bool := match h with MultiHopEntry => false | _ => true end.

Section json.
Context `{QtText} `{QtNet}.

Definition range_json (i : IPAddress) : json :=
  JObject (jobj [(lit "address", JString (host_toString (m_address i))); (lit "range", jint (m_prefixLength i));
                 (lit "isIpv6", JBool (match m_address i with HV6 _ _ => true | _ => false end))]).

Definition toJson (c : InterfaceConfig) : jobject :=
  jobj (
    [(lit "hopType", JString (hop_name (m_hopType c))); (lit "privateKey", JString (m_privateKey c));
     (lit "deviceIpv4Address", JString (qstr (m_deviceIpv4Address c)));
     (lit "deviceIpv6Address", JString (qstr (m_deviceIpv6Address c)));
     (lit "serverPublicKey", JString (m_serverPublicKey c)); (lit "serverPskKey", JString (m_serverPskKey c));
     (lit "serverIpv4AddrIn", JString (qstr (m_serverIpv4AddrIn c)));
     (lit "serverIpv6AddrIn", JString (qstr (m_serverIpv6AddrIn c)));
     (lit "serverPort", jint (m_serverPort c)); (lit "deviceMTU", jint (m_deviceMTU c))]
    ++ (if is_empty (m_persistentKeepalive c) then [] else [(lit "persistentKeepalive", JString (m_persistentKeepalive c))])
    ++ (if is_exit (m_hopType c) then
          [(lit "serverIpv4Gateway", JString (m_serverIpv4Gateway c)); (lit "serverIpv6Gateway", JString (m_serverIpv6Gateway c));
           (lit "primaryDnsServer", JString (m_primaryDnsServer c)); (lit "secondaryDnsServer", JString (m_secondaryDnsServer c))]
        else [])
    ++ [(lit "allowedIPAddressRanges", JArray (map range_json (m_allowedIPAddressRanges c)));
        (lit "excludedAddresses", jstrings (m_excludedAddresses c));
        (lit "allowedDnsServers", jstrings (m_allowedDnsServers c));
        (lit "vpnDisabledApps", jstrings (m_vpnDisabledApps c));
        (lit "blockIpv6Traffic", JBool (m_blockIpv6Traffic c))]).

(** ** The WireGuard file *)

(** [toString] of a network; a scope with digits would disturb [arg]. *)
Definition range_text (i : IPAddress) : text := host_toString (m_address i) ++ [47] ++ number (m_prefixLength i).

Definition conf_line (key value : text) : text := key ++ lit " = " ++ value ++ [10].

(** [if (!value.isEmpty()) out << key << " = " << value << "\n";] *)
Definition conf_optional (kv : text * text) : text := if is_empty kv.2 then [] else conf_line kv.1 kv.2.

Definition has_newline (s : text) : bool := contains_char 10 s.

Definition interface_addresses (c : InterfaceConfig) : list text :=
  match m_deviceIpv4Address c with Some a => [a] | None => [] end
  ++ match m_deviceIpv6Address c with Some a => [a] | None => [] end.

Definition dns_servers (c : InterfaceConfig) : list text :=
  [m_primaryDnsServer c]
  ++ (if is_empty (m_secondaryDnsServer c) then [] else [m_secondaryDnsServer c])
  ++ (if text_eqb (m_primaryDnsServer c) (m_serverIpv4Gateway c) then [m_serverIpv6Gateway c] else []).

(** The fields [VALIDATE] looks at. *)
Definition validated_fields (c : InterfaceConfig) : list text :=
  [m_privateKey c; qstr (m_deviceIpv4Address c); qstr (m_deviceIpv6Address c); m_serverIpv4Gateway c;
   m_serverIpv6Gateway c; m_serverPublicKey c; qstr (m_serverIpv4AddrIn c); qstr (m_serverIpv6AddrIn c)].

Definition toWgConf (extra : list (text * text)) (c : InterfaceConfig) : text :=
  if existsb has_newline (validated_fields c) then []
  else
  match interface_addresses c with
  | [] => []
  | addresses =>
      lit "[Interface]" ++ [10] ++ conf_line (lit "PrivateKey") (m_privateKey c)
      ++ conf_line (lit "Address") (join (lit ", ") addresses)
      ++ (if m_deviceMTU c =? 0 then [] else conf_line (lit "MTU") (number (m_deviceMTU c)))
      ++ (if is_empty (m_primaryDnsServer c) then [] else conf_line (lit "DNS") (join (lit ", ") (dns_servers c)))
      ++ concat (map conf_optional (m_junk c)) ++ concat (map conf_optional (m_specialJunk c))
      ++ concat (map conf_optional (m_awg3 c))
      ++ concat (map (λ '(k, v), conf_line k v) extra)
      ++ [10] ++ lit "[Peer]" ++ [10] ++ conf_line (lit "PublicKey") (m_serverPublicKey c)
      ++ conf_line (lit "Endpoint") (qstr (m_serverIpv4AddrIn c) ++ [58] ++ number (m_serverPort c))
      ++ conf_line (lit "AllowedIPs") (join (lit ", ") (map range_text (m_allowedIPAddressRanges c)))
      ++ conf_optional (lit "PersistentKeepalive", m_persistentKeepalive c)
  end.

Definition awgBoolToUapi (value : text) : text :=
  let v := q_toLower (trimmed value) in
  if existsb (λ s, text_eqb v (lit s)) ["on"; "1"; "true"; "t"; "yes"]%string then lit "1" else lit "0".
End json.

(** ** Reading a request *)

Section parse.
Context `{QtText} `{QtNet} `{DaemonLibrary}.

Definition when_true (b : bool) : option () := if b then Some () else None.

(** [GETVALUE] for strings and numbers. *)
Definition get_text (name : string) (obj : jobject) : option text :=
  match jvalue (lit name) obj with JString s => Some s | _ => None end.
Definition get_number (name : string) (obj : jobject) : option qdouble :=
  match jvalue (lit name) obj with JDouble d => Some d | _ => None end.

(** [obj.value(name).toString()], with its null state. *)
Definition value_text (name : string) (obj : jobject) : text := to_string [] (jvalue (lit name) obj).
Definition value_qstring (name : string) (obj : jobject) : option text :=
  match jvalue (lit name) obj with
  | JString s => if is_empty s && empty_is_null then None else Some s
  | _ => None
  end.

(** A double assigned to an [int]. *)
Definition double_to_int (d : qdouble) : Z :=
  let z := d_trunc d in
  match d with
  | DNonFinite => int_overflow d
  | _ => if (- 2 ^ 31 <=? z) && (z <? 2 ^ 31) then z else int_overflow d
  end.

(** A member that must be a string when it is there. *)
Definition optional_text (name : string) (obj : jobject) : option text :=
  if jcontains (lit name) obj then get_text name obj else Some [].

Definition parseStringList (obj : jobject) (name : string) : option (list text) :=
  if jcontains (lit name) obj then
    match jvalue (lit name) obj with
    | JArray l => mapM (λ j, match j with JString s => Some s | _ => None end) l
    | _ => None
    end
  else Some [].

Definition parse_mtu (obj : jobject) : Z :=
  let n := default 0 (q_toInt (value_text "deviceMTU" obj)) in
  if negb (jcontains (lit "deviceMTU") obj) || (n =? 0) then 1420 else n.

Definition parse_hop (obj : jobject) : option HopType :=
  if jcontains (lit "hopType") obj then name ← get_text "hopType" obj; hop_value name else Some SingleHop.

Definition parse_range (j : json) : option IPAddress :=
  match j with
  | JObject o =>
      address ← get_text "address" o;
      _ ← get_number "range" o;
      match jvalue (lit "isIpv6") o with
      | JBool _ => Some {| m_address := host_parse address; m_prefixLength := to_int 0 (jvalue (lit "range") o) |}
      | _ => None
      end
  | _ => None
  end.

Definition parse_ranges (obj : jobject) : option (list IPAddress) :=
  match jvalue (lit "allowedIPAddressRanges") obj with
  | JArray l =>
      ranges ← mapM parse_range l;
      let sorted := sort_ranges ranges in
      _ ← when_true (negb (bool_decide (sorted = [])));
      Some sorted
  | _ => None
  end.

(** The managed exclusions, their nonce, and whether they are known. *)
Definition parse_managed (obj : jobject) (excluded : list text) : option (list text * text * bool) :=
  if jcontains (lit "managedExcludedAddresses") obj then
    managed ← parseStringList obj "managedExcludedAddresses";
    let '(canonical, valid) := validatedManagedRoutes managed in
    _ ← when_true (valid && bool_decide (canonical = managed) && forallb (λ route, bool_decide (route ∈ excluded)) canonical);
    let nonce := value_text "routeConnectionNonce" obj in
    Some (managed, nonce, tsize nonce =? 36)
  else Some ([], [], false).

(** [QVariant(text).toBool()]. *)
Definition variant_bool (s : text) : bool :=
  let l := q_toLower s in negb (is_empty l || text_eqb l (lit "0") || text_eqb l (lit "false")).

(** [if (!value.isUndefined()) field = value.toString();] *)
Definition parameter (key : string) (obj : jobject) : text * text := (lit key, value_text key obj).

Definition junk_members (obj : jobject) : list (text * text) :=
  [(lit "Jc", value_text "Jc" obj); (lit "JMin", value_text "Jmin" obj); (lit "JMax", value_text "Jmax" obj)]
  ++ map (λ k, parameter k obj) ["S1"; "S2"; "S3"; "S4"; "H1"; "H2"; "H3"; "H4"]%string.

Definition special_members (obj : jobject) : list (text * text) :=
  map (λ k, parameter k obj) (filter (λ k, is_undefined (jvalue (lit k) obj) = false) ["I1"; "I2"; "I3"; "I4"; "I5"]%string).

(** The two last members of the file are never set by a request. *)
Definition awg3_members (obj : jobject) : list (text * text) :=
  map (λ k, parameter k obj) ["HeaderProtectionKey"; "ContentPaddingAddition"; "RekeyAfterTime"; "RekeyTimeout";
                              "RejectAfterTime"; "KeepaliveTimeout"; "MaxHandshakeAttempts"]%string
  ++ [(lit "RandomTrailers", []); (lit "DisableCookies", [])].

Definition parseConfig (obj : jobject) : option InterfaceConfig :=
  privateKey ← get_text "privateKey" obj;
  serverPublicKey ← get_text "serverPublicKey" obj;
  serverPort ← get_number "serverPort" obj;
  let device4 := value_qstring "deviceIpv4Address" obj in
  let device6 := value_qstring "deviceIpv6Address" obj in
  _ ← when_true (negb (bool_decide (device4 = None ∧ device6 = None)));
  let server4 := value_qstring "serverIpv4AddrIn" obj in
  let server6 := value_qstring "serverIpv6AddrIn" obj in
  _ ← when_true (negb (bool_decide (server4 = None ∧ server6 = None)));
  primary ← optional_text "primaryDnsServer" obj;
  secondary ← optional_text "secondaryDnsServer" obj;
  hop ← parse_hop obj;
  ranges ← parse_ranges obj;
  excluded ← parseStringList obj "excludedAddresses";
  '(managed, nonce, known) ← parse_managed obj excluded;
  apps ← parseStringList obj "vpnDisabledApps";
  dns ← parseStringList obj "allowedDnsServers";
  Some (MkInterfaceConfig hop privateKey device4 device6 (value_text "serverIpv4Gateway" obj) (value_text "serverIpv6Gateway" obj)
          serverPublicKey server4 (value_text "serverPskKey" obj) server6 primary secondary (double_to_int serverPort)
          (parse_mtu obj) (value_text "persistentKeepalive" obj) ranges excluded managed known nonce apps dns
          (variant_bool (value_text "killSwitchOption" obj)) (to_bool false (jvalue (lit "blockIpv6Traffic") obj))
          (junk_members obj) (special_members obj) (awg3_members obj)).
End parse.
