(* ===== verification/PrivilegedDaemon.v ===== *)
(** * The privileged daemon

    Model of the class Daemon in client/daemon/daemon.cpp: activation with
    server switching, deactivation, the table of exclusion routes with its
    reference counts, the replacement of managed exclusions, and the handshake
    check.  The WireGuard, address, resolver and platform operations are the
    class DaemonHost; assertions, which a release build does not have, are not
    part of the model. *)

From stdpp Require Import gmap.
From S2P Require Import Prelude Text Json QtInterface RoutePolicy Command RouteState IpAddress InterfaceConfig ExclusionPolicy.
#[local] Open Scope Z_scope.
#[local] Open Scope amnezia_scope.

#[export] Instance qhost_countable : Countable qhost.
Proof.
  refine (inj_countable' (λ h, match h with HNull => inl () | HV4 a => inr (inl a) | HV6 a s => inr (inr (a, s)) end)
    (λ x, match x with inl _ => HNull | inr (inl a) => HV4 a | inr (inr (a, s)) => HV6 a s end) _).
  by intros [].
Defined.

#[export] Instance IPAddress_countable : Countable IPAddress.
Proof.
  refine (inj_countable' (λ i, (m_address i, m_prefixLength i)) (λ '(a, p), {| m_address := a; m_prefixLength := p |}) _).
  by intros [].
Defined.

(** [enum Op]. *)
Inductive Op := Up | Down | Switch.

(** [WireguardUtils::PeerStatus]. *)
Record PeerStatus := MkPeerStatus {
  ps_pubkey : text; ps_handshake : Z; ps_rxBytes : Z; ps_txBytes : Z; ps_awg3Capable : bool;
  ps_headerProtectionKeyHash : text; ps_parameterDigests : jobject;
}.

Class DaemonHost (W : Type) := {
  interfaceExists : W → bool * W;
  interfaceName : text;
  addInterface : InterfaceConfig → W → bool * W;
  deleteInterface : W → bool * W;
  updatePeer : InterfaceConfig → W → bool * W;
  deletePeer : InterfaceConfig → W → bool * W;
  getPeerStatus : W → list PeerStatus * W;
  updateRoutePrefix : IPAddress → W → bool * W;
  deleteRoutePrefix : IPAddress → W → bool * W;
  host_addExclusion : IPAddress → W → bool * W;
  host_deleteExclusion : IPAddress → W → bool * W;
  replaceExclusionPolicy : InterfaceConfig → InterfaceConfig → W → Result * W;
  supportIPUtils : bool;
  addInterfaceIPs : InterfaceConfig → W → bool * W;
  setMTUAndUp : InterfaceConfig → W → bool * W;
  updateResolvers : text → list qhost → W → bool * W;
  restoreResolvers : W → bool * W;
  run_op : Op → InterfaceConfig → W → bool * W;     (* Daemon::run *)
  prepareActivation : InterfaceConfig → W → W;
  date_text : Z → text;                             (* QDateTime::toString, from milliseconds *)
  keys_order : list IPAddress → list IPAddress;     (* the order of QHash::keys *)
}.

(** A permutation: [QHash] has each key once, in an order of its own. *)
Class DaemonHostOrder (W : Type) `{DaemonHost W} : Prop := {
  keys_order_perm l : keys_order l ≡ₚ l;
}.

(** [m_date] is invalid until the first handshake. *)
Record ConnectionState := MkConnection { cs_config : InterfaceConfig; cs_date : option Z }.

Inductive Signal := SConnected (pubkey : text) | SActivationFailure | SDisconnected.

Record DaemonState (W : Type) := MkDaemon {
  dm_connections : list (HopType * ConnectionState);   (* QMap: ordered by hop *)
  dm_excluded : gmap IPAddress Z;
  dm_timer : bool;                                     (* the handshake timer runs *)
  dm_signals : list Signal;
  dm_outer : W;
}.
Arguments MkDaemon {W}.
Arguments dm_connections {W}.
Arguments dm_excluded {W}.
Arguments dm_timer {W}.
Arguments dm_signals {W}.
Arguments dm_outer {W}.

(** *** The map of connections *)

Definition hop_index (h : HopType) : Z := match h with SingleHop => 0 | MultiHopEntry => 1 | MultiHopExit => 2 end.

Definition connection (h : HopType) (l : list (HopType * ConnectionState)) : option ConnectionState :=
  snd <$> find (λ p, bool_decide (p.1 = h)) l.

Fixpoint put_connection (h : HopType) (s : ConnectionState) (l : list (HopType * ConnectionState)) : list (HopType * ConnectionState) :=
  match l with
  | [] => [(h, s)]
  | (h', s') :: l' =>
      if hop_index h =? hop_index h' then (h, s) :: l'
      else if hop_index h <? hop_index h' then (h, s) :: l
      else (h', s') :: put_connection h s l'
  end.

Section daemon.
Context `{QtText} `{QtNet} {W : Type} `{DaemonHost W}.

Notation daemon E A := (prog (DaemonState W) E A).

(** ** Operations of the host and of the object *)

Definition outer {E A} (f : W → A * W) : daemon E A := λ d,
  let '(a, w) := f (dm_outer d) in (Ok a, MkDaemon (dm_connections d) (dm_excluded d) (dm_timer d) (dm_signals d) w).

Definition set_connections {E} (f : list (HopType * ConnectionState) → list (HopType * ConnectionState)) : daemon E () :=
  cmd_modify (λ d, MkDaemon (f (dm_connections d)) (dm_excluded d) (dm_timer d) (dm_signals d) (dm_outer d)).
Definition set_excluded {E} (f : gmap IPAddress Z → gmap IPAddress Z) : daemon E () :=
  cmd_modify (λ d, MkDaemon (dm_connections d) (f (dm_excluded d)) (dm_timer d) (dm_signals d) (dm_outer d)).
Definition emit {E} (s : Signal) : daemon E () :=
  cmd_modify (λ d, MkDaemon (dm_connections d) (dm_excluded d) (dm_timer d) (dm_signals d ++ [s]) (dm_outer d)).
Definition set_timer {E} (b : bool) : daemon E () :=
  cmd_modify (λ d, MkDaemon (dm_connections d) (dm_excluded d) b (dm_signals d) (dm_outer d)).

(** [if (!f()) return false;] *)
Definition or_return (m : daemon bool bool) : daemon bool () :=
  let! b := m in if b then pure () else leave false.

(** ** Exclusion routes *)

Definition addExclusionRoute {E} (prefix : IPAddress) : daemon E bool :=
  let! table := gets dm_excluded in
  match table !! prefix with
  | Some n => let! _ := set_excluded (<[prefix := n + 1]>) in pure true
  | None =>
      let! _ := set_excluded (<[prefix := 1]>) in
      outer (host_addExclusion prefix)
  end.

(** [m_excludedAddrSet[prefix]] adds a missing entry. *)
Definition delExclusionRoute {E} (prefix : IPAddress) : daemon E bool :=
  let! table := gets dm_excluded in
  let n := default 0 (table !! prefix) in
  let! _ := set_excluded (<[prefix := n]>) in
  if 1 <? n then let! _ := set_excluded (<[prefix := n - 1]>) in pure true
  else
    let! deleted := outer (host_deleteExclusion prefix) in
    let! _ := cmd_when deleted (set_excluded (delete prefix)) in
    pure deleted.

(** ** Resolvers *)

Definition resolvers (c : InterfaceConfig) : list qhost :=
  [host_parse (m_primaryDnsServer c)]
  ++ (if is_empty (m_secondaryDnsServer c) then [] else [host_parse (m_secondaryDnsServer c)])
  ++ (if text_eqb (m_primaryDnsServer c) (m_serverIpv4Gateway c) then [host_parse (m_serverIpv6Gateway c)] else []).

Definition maybeUpdateResolvers {E} (c : InterfaceConfig) : daemon E bool :=
  if is_exit (m_hopType c) then outer (updateResolvers interfaceName (resolvers c)) else pure true.

(** ** Server switching *)

Definition same_interface (current config : InterfaceConfig) : bool :=
  text_eqb (m_privateKey current) (m_privateKey config)
  && text_eqb (qstr (m_deviceIpv4Address current)) (qstr (m_deviceIpv4Address config))
  && text_eqb (qstr (m_deviceIpv6Address current)) (qstr (m_deviceIpv6Address config))
  && text_eqb (m_serverIpv4Gateway current) (m_serverIpv4Gateway config)
  && text_eqb (m_serverIpv6Gateway current) (m_serverIpv6Gateway config)
  && Bool.eqb (m_blockIpv6Traffic current) (m_blockIpv6Traffic config).

Definition supportServerSwitching (connections : list (HopType * ConnectionState)) (config : InterfaceConfig) : bool :=
  match connection (m_hopType config) connections with
  | Some current => same_interface (cs_config current) config
  | None => false
  end.

(** [for (ip : ranges) if (!updateRoutePrefix(ip)) break;] *)
Fixpoint update_until_failure {E} (ranges : list IPAddress) : daemon E () :=
  match ranges with
  | [] => pure ()
  | ip :: rest => let! b := outer (updateRoutePrefix ip) in if b then update_until_failure rest else pure ()
  end.

Definition switchServer_body (lastConfig config : InterfaceConfig) : daemon bool bool :=
  let! _ := cmd_each (λ i, let! _ := addExclusionRoute (IPAddress_text i) in pure ()) (m_excludedAddresses config) in
  let! _ := or_return (outer (updatePeer config)) in
  let! _ := update_until_failure (m_allowedIPAddressRanges config) in
  let! _ := cmd_each (λ i, let! _ := delExclusionRoute (IPAddress_host (host_parse i)) in pure ())
              (m_excludedAddresses lastConfig) in
  let! _ := cmd_each (λ ip, if bool_decide (ip ∈ m_allowedIPAddressRanges config) then pure ()
                            else let! _ := outer (deleteRoutePrefix ip) in pure ()) (m_allowedIPAddressRanges lastConfig) in
  let! _ := if text_eqb (m_serverPublicKey config) (m_serverPublicKey lastConfig) then pure ()
            else or_return (outer (deletePeer lastConfig)) in
  let! _ := set_connections (put_connection (m_hopType config) (MkConnection config None)) in
  pure true.

Definition switchServer {E} (config : InterfaceConfig) : daemon E bool :=
  let! connections := gets dm_connections in
  match connection (m_hopType config) connections with
  | Some last => call (switchServer_body (cs_config last) config)
  | None => pure false                         (* excluded by the caller *)
  end.

(** ** Deactivation *)

(** The two results of the clean-up: of the network, and of everything. *)
Definition clean {E} (m : daemon E bool) (r : bool * bool) : daemon E (bool * bool) :=
  let! b := m in pure (b && r.1, b && r.2).

Definition clean_connection {E} (r : bool * bool) (s : HopType * ConnectionState) : daemon E (bool * bool) :=
  let config := cs_config s.2 in
  let! r := cmd_fold (λ r ip, clean (outer (deleteRoutePrefix ip)) r) r (m_allowedIPAddressRanges config) in
  clean (outer (deletePeer config)) r.

Definition clean_exclusion {E} (r : bool * bool) (route : IPAddress) : daemon E (bool * bool) :=
  let! deleted := outer (host_deleteExclusion route) in
  let! _ := cmd_when deleted (set_excluded (delete route)) in
  pure (deleted && r.1, deleted && r.2).

Definition deactivate_body (emitSignals : bool) : daemon bool bool :=
  let! connections := gets dm_connections in
  let! _ := match connections with
            | (_, state) :: _ => or_return (outer (run_op Down (cs_config state)))
            | [] => pure ()
            end in
  let! cleaned := outer restoreResolvers in
  let! r := cmd_fold clean_connection (true, cleaned) connections in
  let! table := gets dm_excluded in
  let! (networkCleanup, cleaned) := cmd_fold clean_exclusion r (keys_order (map fst (map_to_list table))) in
  let! _ := if networkCleanup then pure () else leave false in
  let! b := outer deleteInterface in
  let cleaned := b && cleaned in
  let! _ := cmd_when cleaned (let! _ := set_connections (λ _, []) in cmd_when emitSignals (emit SDisconnected)) in
  pure cleaned.

Definition deactivate {E} (emitSignals : bool) : daemon E bool := call (deactivate_body emitSignals).

(** ** Activation *)

Definition connected_as (config : InterfaceConfig) : daemon bool bool :=
  let! _ := set_connections (put_connection (m_hopType config) (MkConnection config None)) in
  let! _ := set_timer true in
  pure true.

(** Already connected, and the new configuration is for the same interface. *)
Definition activate_switch (config : InterfaceConfig) : daemon bool bool :=
  let! _ := or_return (switchServer config) in
  let! _ := or_return (outer restoreResolvers) in
  let! _ := or_return (maybeUpdateResolvers config) in
  let! _ := or_return (outer (run_op Switch config)) in
  connected_as config.

(** With the peer in place; [peer_cleanup_guard] removes it when this fails. *)
Definition activate_routes (config : InterfaceConfig) : daemon bool bool :=
  let! _ := or_return (maybeUpdateResolvers config) in
  let! _ := cmd_each (λ ip, or_return (outer (updateRoutePrefix ip))) (m_allowedIPAddressRanges config) in
  let! _ := or_return (outer (run_op Up config)) in
  connected_as config.

Definition activate_new (config : InterfaceConfig) : daemon bool bool :=
  let! _ := outer (λ w, ((), prepareActivation config w)) in
  let! e := outer interfaceExists in
  let! _ := if e then pure () else or_return (outer (addInterface config)) in
  let! _ := if supportIPUtils then
              let! _ := or_return (outer (addInterfaceIPs config)) in
              or_return (outer (setMTUAndUp config))
            else pure () in
  let! _ := cmd_each (λ i, or_return (addExclusionRoute (IPAddress_text i))) (m_excludedAddresses config) in
  let! _ := or_return (outer (updatePeer config)) in
  let! b := call (activate_routes config) in
  if b then pure true
  else let! _ := outer (deletePeer config) in pure false.

(** [emit_failure_guard] around the body; [again] is the recursive call. *)
Definition activate_with (again : InterfaceConfig → daemon bool bool) (config : InterfaceConfig) : daemon bool bool :=
  let! connections := gets dm_connections in
  let! b := call (match connection (m_hopType config) connections with
                  | Some _ =>
                      if supportServerSwitching connections config then activate_switch config
                      else let! _ := or_return (deactivate false) in again config
                  | None => activate_new config
                  end) in
  if b then pure true else let! _ := emit SActivationFailure in pure false.

Fixpoint activate_fuel (fuel : nat) (config : InterfaceConfig) : daemon bool bool :=
  activate_with (match fuel with O => λ _, leave false | S f => activate_fuel f end) config.

(** The recursive call finds no connection: one level is enough. *)
Definition activate {E} (config : InterfaceConfig) : daemon E bool := call (activate_fuel 1 config).

(** ** Managed exclusions *)

Definition with_exclusions (c : InterfaceConfig) (excluded managed : list text) (known : bool) : InterfaceConfig :=
  MkInterfaceConfig (m_hopType c) (m_privateKey c) (m_deviceIpv4Address c) (m_deviceIpv6Address c) (m_serverIpv4Gateway c)
    (m_serverIpv6Gateway c) (m_serverPublicKey c) (m_serverIpv4AddrIn c) (m_serverPskKey c) (m_serverIpv6AddrIn c)
    (m_primaryDnsServer c) (m_secondaryDnsServer c) (m_serverPort c) (m_deviceMTU c) (m_persistentKeepalive c)
    (m_allowedIPAddressRanges c) excluded managed known (m_routeConnectionNonce c) (m_vpnDisabledApps c)
    (m_allowedDnsServers c) (m_killSwitchEnabled c) (m_blockIpv6Traffic c) (m_junk c) (m_specialJunk c) (m_awg3 c).

(** The exclusions without the old managed routes, each held exactly once. *)
Fixpoint drop_managed (table : gmap IPAddress Z) (before excluded : list text) : option (list text) :=
  match before with
  | [] => Some excluded
  | route :: before' =>
      if bool_decide (route ∈ excluded) && (default 0 (table !! IPAddress_text route) =? 1)
      then drop_managed table before' (filter (λ r, r ≠ route) excluded)
      else None
  end.

(** A route that would take the endpoint or a resolver out of the tunnel. *)
Definition covers_server (c : InterfaceConfig) (route : text) : bool :=
  let prefix := IPAddress_text route in
  existsb (λ host, negb (is_empty host) && host_isInSubnet (host_parse host) (m_address prefix) (m_prefixLength prefix))
    [qstr (m_serverIpv4AddrIn c); m_primaryDnsServer c; m_secondaryDnsServer c].

Fixpoint append_managed (c : InterfaceConfig) (after excluded : list text) : option (list text) :=
  match after with
  | [] => Some excluded
  | route :: after' =>
      if covers_server c route || bool_decide (route ∈ excluded) then None else append_managed c after' (excluded ++ [route])
  end.

(** The guards of [replaceManagedExclusions], and the exclusions they lead to. *)
Definition desired_exclusions (table : gmap IPAddress Z) (current : InterfaceConfig) (nonce : text) (before after : list text) : option (list text) :=
  let '(oldRoutes, beforeValid) := validatedManagedRoutes before in
  let '(newRoutes, afterValid) := validatedManagedRoutes after in
  if m_managedExclusionsKnown current && negb (is_empty nonce) && text_eqb nonce (m_routeConnectionNonce current)
     && beforeValid && afterValid && bool_decide (oldRoutes = before) && bool_decide (newRoutes = after)
     && bool_decide (before = m_managedExcludedAddresses current)
     && bool_decide (IPAddress_text (lit "0.0.0.0/0") ∈ m_allowedIPAddressRanges current)
  then excluded ← drop_managed table before (m_excludedAddresses current); append_managed current after excluded
  else None.

Definition forget_routes (routes : list text) (table : gmap IPAddress Z) : gmap IPAddress Z :=
  foldl (λ t route, delete (IPAddress_text route) t) table routes.
Definition own_routes (routes : list text) (table : gmap IPAddress Z) : gmap IPAddress Z :=
  foldl (λ t route, <[IPAddress_text route := 1]> t) table routes.

Definition update_config (c : InterfaceConfig) (l : list (HopType * ConnectionState)) : list (HopType * ConnectionState) :=
  map (λ '(h, s), (h, if bool_decide (h = SingleHop) then MkConnection c (cs_date s) else s)) l.

(** On the daemon's thread, with its WireGuard utilities. *)
Definition replaceManagedExclusions {E} (nonce : text) (before after : list text) : daemon E Result :=
  let! connections := gets dm_connections in
  let! table := gets dm_excluded in
  match connections with
  | [(SingleHop, state)] =>
      let current := cs_config state in
      match desired_exclusions table current nonce before after with
      | None => pure Rejected
      | Some excluded =>
          let desired := with_exclusions current excluded after (m_managedExclusionsKnown current) in
          let! result := outer (replaceExclusionPolicy current desired) in
          let! _ := match result with
                    | Updated =>
                        let! _ := set_excluded (λ t, own_routes after (forget_routes before t)) in
                        set_connections (update_config desired)
                    | Uncertain =>
                        let! _ := set_excluded (own_routes after) in
                        set_connections (update_config
                          (with_exclusions current (m_excludedAddresses current) (m_managedExcludedAddresses current) false))
                    | _ => pure ()
                    end in
          pure result
      end
  | _ => pure Rejected
  end.

(** ** Status and handshakes *)

Definition status_object (s : ConnectionState) (p : PeerStatus) : jobject :=
  jobj [(lit "connected", JBool true); (lit "serverIpv4Gateway", JString (m_serverIpv4Gateway (cs_config s)));
        (lit "deviceIpv4Address", JString (qstr (m_deviceIpv4Address (cs_config s))));
        (lit "date", JString (match cs_date s with Some t => date_text t | None => [] end));
        (lit "txBytes", jint (ps_txBytes p)); (lit "rxBytes", jint (ps_rxBytes p)); (lit "peerPublicKey", JString (ps_pubkey p));
        (lit "lastHandshakeMs", JString (number (ps_handshake p))); (lit "awg3Capable", JBool (ps_awg3Capable p));
        (lit "headerProtectionKeyHash", JString (ps_headerProtectionKeyHash p));
        (lit "parameterDigests", JObject (ps_parameterDigests p))].

Definition not_connected : jobject := jobj [(lit "connected", JBool false)].

Definition getStatus {E} : daemon E jobject :=
  let! e := outer interfaceExists in
  let! connections := gets dm_connections in
  match e, connections with
  | true, (_, s) :: _ =>
      let! peers := outer getPeerStatus in
      pure (match find (λ p, text_eqb (ps_pubkey p) (m_serverPublicKey (cs_config s))) peers with
            | Some p => status_object s p
            | None => not_connected
            end)
  | _, _ => pure not_connected
  end.

(** A connection that awaits its handshake, with the peers as they are: the
    last one with a handshake gives the date, each one a signal. *)
Definition check_connection (peers : list PeerStatus) (s : ConnectionState) : ConnectionState * list Signal :=
  match cs_date s with
  | Some _ => (s, [])
  | None =>
      let shaken := filter (λ p, ps_pubkey p = m_serverPublicKey (cs_config s) ∧ ps_handshake p ≠ 0) peers in
      (MkConnection (cs_config s) (ps_handshake <$> last shaken), map (λ p, SConnected (ps_pubkey p)) shaken)
  end.

(** The slot of the single-shot timer, which has run out. *)
Definition checkHandshake {E} : daemon E () :=
  let! _ := set_timer false in
  let! peers := outer getPeerStatus in
  let! connections := gets dm_connections in
  let! _ := cmd_each emit (concat (map (λ p, (check_connection peers p.2).2) connections)) in
  let! _ := set_connections (map (λ '(h, s), (h, (check_connection peers s).1))) in
  let! connections := gets dm_connections in
  cmd_when (existsb (λ p, bool_decide (cs_date p.2 = None)) connections) (set_timer true).
End daemon.
