(* ===== verification/DaemonSafety.v ===== *)
(** * What the privileged daemon guarantees

    The daemon owns the exclusion routes it may have installed: over every run
    of its operations, whichever of the host's operations fail, they are in its
    table, so that a deactivation removes them; a deactivation that reports
    success leaves nothing behind.  An activation ends in a registered
    connection or in a signal of failure, and a replacement of the managed
    exclusions keeps the others.  The last part is replaceExclusionPolicy of
    client/platforms/windows/daemon/wireguardutilswindows.cpp, which keeps the
    contract the daemon relies on. *)

From stdpp Require Import gmap relations.
From S2P Require Import Prelude Text Json QtInterface IpAddress RoutePolicy Command RouteState ExclusionPolicy.
From S2P Require Import InterfaceConfig PrivilegedDaemon.
#[local] Open Scope Z_scope.
#[local] Open Scope amnezia_scope.

Definition prefixes `{QtNet} (routes : list text) : gset IPAddress := list_to_set (map IPAddress_text routes).

(** Two configurations whose exclusions differ only in the managed ones. *)
Record managed_change (c d : InterfaceConfig) : Prop := {
  change_removed r : r ∈ m_excludedAddresses c → r ∉ m_excludedAddresses d → r ∈ m_managedExcludedAddresses c;
  change_added r : r ∈ m_excludedAddresses d → r ∉ m_excludedAddresses c → r ∈ m_managedExcludedAddresses d;
  change_dropped r : r ∈ m_managedExcludedAddresses c → r ∉ m_managedExcludedAddresses d →
    r ∈ m_excludedAddresses c ∧ r ∉ m_excludedAddresses d;
}.

(** What the daemon relies on: [installed] are the exclusion routes of the
    host.  A success is truthful, a failure may have done the work or not, and
    a replacement of the policy that reports success leaves none of the
    old managed routes but those it wants again. *)
Class ExclusionOwner `{QtNet} (W : Type) `{DaemonHost W} (installed : W → gset IPAddress) : Prop := {
  own_add p w : let '(b, w') := host_addExclusion p w in
    installed w' = {[p]} ∪ installed w ∨ (b = false ∧ installed w' = installed w);
  own_delete p w : let '(b, w') := host_deleteExclusion p w in
    installed w' = installed w ∖ {[p]} ∨ (b = false ∧ installed w' = installed w);
  own_replace c d w : managed_change c d → let '(r, w') := replaceExclusionPolicy c d w in
    match r with
    | Updated => installed w' ⊆ (installed w ∖ prefixes (m_managedExcludedAddresses c)) ∪ prefixes (m_managedExcludedAddresses d)
    | RolledBack => installed w' ⊆ installed w ∪ prefixes (m_managedExcludedAddresses c)
    | Uncertain => installed w' ⊆ installed w ∪ prefixes (m_managedExcludedAddresses c) ∪ prefixes (m_managedExcludedAddresses d)
    | _ => installed w' = installed w
    end;
  own_exists w : installed (interfaceExists w).2 = installed w;
  own_addInterface c w : installed (addInterface c w).2 = installed w;
  own_deleteInterface w : installed (deleteInterface w).2 = installed w;
  own_updatePeer c w : installed (updatePeer c w).2 = installed w;
  own_deletePeer c w : installed (deletePeer c w).2 = installed w;
  own_status w : installed (getPeerStatus w).2 = installed w;
  own_updateRoute p w : installed (updateRoutePrefix p w).2 = installed w;
  own_deleteRoute p w : installed (deleteRoutePrefix p w).2 = installed w;
  own_ips c w : installed (addInterfaceIPs c w).2 = installed w;
  own_up c w : installed (setMTUAndUp c w).2 = installed w;
  own_dns n l w : installed (updateResolvers n l w).2 = installed w;
  own_restore w : installed (restoreResolvers w).2 = installed w;
  own_run op c w : installed (run_op op c w).2 = installed w;
  own_prepare c w : installed (prepareActivation c w) = installed w;
}.

(** The requests the daemon serves. *)
Inductive Request :=
| RActivate (c : InterfaceConfig) | RDeactivate (emitSignals : bool)
| RReplace (nonce : text) (before after : list text) | RStatus | RTimer.

Section owned.
Context {QT : QtText} {QN : QtNet} {W : Type} {DH : DaemonHost W} (installed : W → gset IPAddress) {EO : ExclusionOwner W installed}.

Notation daemon E A := (prog (DaemonState W) E A).

Definition serve (r : Request) : daemon () () :=
  match r with
  | RActivate c => let! _ := activate c in pure ()
  | RDeactivate s => let! _ := deactivate s in pure ()
  | RReplace n b a => let! _ := replaceManagedExclusions n b a in pure ()
  | RStatus => let! _ := getStatus in pure ()
  | RTimer => checkHandshake
  end.

(** Every exclusion route of the host is in the table. *)
Definition owned (d : DaemonState W) : Prop := installed (dm_outer d) ⊆ dom (dm_excluded d).

Lemma owned_outer {E A} (f : W → A * W) : (∀ w, installed (f w).2 = installed w) → keeps owned (outer (E := E) f).
Proof.
  intros Hf d Hd. unfold outer. specialize (Hf (dm_outer d)). destruct (f (dm_outer d)) as [a w]. unfold owned in *. simpl in *. by rewrite Hf.
Qed.

Lemma owned_modify {E} f : (∀ d, dm_outer (f d) = dm_outer d) → (∀ d, dom (dm_excluded d) ⊆ dom (dm_excluded (f d))) → keeps owned (cmd_modify (E := E) f).
Proof. intros H1 H2 d Hd. unfold cmd_modify, owned in *. rewrite H1. specialize (H2 d). set_solver. Qed.

Lemma owned_connections {E} f : keeps owned (set_connections (E := E) f).
Proof. by apply owned_modify. Qed.
Lemma owned_emit {E} s : keeps owned (emit (E := E) s).
Proof. by apply owned_modify. Qed.
Lemma owned_timer {E} b : keeps owned (set_timer (E := E) b).
Proof. by apply owned_modify. Qed.

Lemma owned_insert {E} p n : keeps owned (set_excluded (E := E) (<[p := n]>)).
Proof. apply owned_modify; [done|]. intros d. simpl. rewrite dom_insert_L. set_solver. Qed.

Lemma owned_add {E} p : keeps owned (addExclusionRoute (E := E) p).
Proof.
  intros d Hd. unfold addExclusionRoute, gets, cmd_get, cmd_bind. destruct (dm_excluded d !! p) as [n|] eqn:Ep.
  - exact (owned_insert (E := E) p (n + 1) d Hd).
  - unfold set_excluded, cmd_modify, outer. simpl. pose proof (own_add p (dm_outer d)) as L.
    destruct (host_addExclusion p (dm_outer d)) as [b w]. unfold owned in *. simpl. rewrite dom_insert_L.
    destruct L as [->|[_ ->]]; set_solver.
Qed.

(** A route that was deleted may leave the table. *)
Lemma owned_deleted {E A} p (f : bool → A) : keeps owned (let! b := outer (E := E) (host_deleteExclusion p) in
  let! _ := cmd_when b (set_excluded (delete p)) in pure (f b)).
Proof.
  intros d Hd. unfold outer, cmd_bind. pose proof (own_delete p (dm_outer d)) as L.
  destruct (host_deleteExclusion p (dm_outer d)) as [b w]. unfold owned in *.
  destruct b; simpl; [rewrite dom_delete_L|]; destruct L as [->|[? ->]]; try done; set_solver.
Qed.

Lemma owned_del {E} p : keeps owned (delExclusionRoute (E := E) p).
Proof.
  unfold delExclusionRoute. apply k_bind; [apply k_gets|intros table]. cbv zeta. apply k_bind; [apply owned_insert|intros _].
  destruct (1 <? _); [apply k_bind; [apply owned_insert|intros _; apply k_pure]|apply (owned_deleted p id)].
Qed.

Lemma owned_or_return (m : daemon bool bool) : keeps owned m → keeps owned (or_return m).
Proof. intros Hm. unfold or_return. apply k_bind; [done|]. intros []; [apply k_pure|apply k_leave]. Qed.

Lemma owned_until {E} l : keeps owned (update_until_failure (E := E) l).
Proof.
  induction l as [|ip l IH]; cbn [update_until_failure]; [apply k_pure|].
  apply k_bind; [apply owned_outer; intros w; apply own_updateRoute|]. intros []; [done|apply k_pure].
Qed.
End owned.

Create HintDb owned discriminated.
#[export] Hint Resolve k_ret k_pure k_leave k_gets owned_connections owned_emit owned_timer owned_insert owned_add owned_deleted owned_del owned_until : owned.
#[export] Hint Extern 3 (keeps (owned _) (outer _)) => apply owned_outer; intros; simpl;
  first [apply own_exists | apply own_addInterface | apply own_deleteInterface | apply own_updatePeer | apply own_deletePeer
        | apply own_status | apply own_updateRoute | apply own_deleteRoute | apply own_ips | apply own_up | apply own_dns
        | apply own_restore | apply own_run | apply own_prepare] : owned.

Ltac owned_step :=
  lazymatch goal with
  | |- keeps _ (or_return _) => apply owned_or_return
  | |- keeps _ (cmd_bind (outer (host_deleteExclusion ?p)) (λ b, cmd_bind _ (λ _, pure (@?f b)))) => exact (owned_deleted _ p f)
  | |- keeps _ (outer _) => solve [auto with owned]
  | |- _ => first [solve [eauto with owned typeclass_instances] | keeps_step]
  end.
Ltac owned_tac := repeat (cbv zeta beta; owned_step).

(** ** The guards of a replacement *)

Section guards.
Context {QT : QtText} {QN : QtNet}.

Lemma filter_nothing {A} (P : A → Prop) `{!∀ x, Decision (P x)} (l : list A) : (∀ x, x ∈ l → P x) → filter P l = l.
Proof.
  induction l as [|x l IH]; intros Hl; [done|]. rewrite filter_cons_True by (apply Hl; constructor). f_equal. apply IH.
  intros y Hy. apply Hl. by constructor.
Qed.

Lemma drop_managed_spec table before ex ex' :
  drop_managed table before ex = Some ex' →
  (∀ r, r ∈ before → r ∈ ex ∧ table !! IPAddress_text r = Some 1) ∧ ex' = filter (λ r, r ∉ before) ex.
Proof.
  revert ex. induction before as [|r0 before IH]; intros ex; cbn [drop_managed].
  { intros [= <-]. split; [by intros r ?%elem_of_nil|]. symmetry. apply filter_nothing. intros x _. apply not_elem_of_nil. }
  destruct (bool_decide (r0 ∈ ex)) eqn:E0; [|done]. apply bool_decide_eq_true in E0.
  destruct (_ =? 1) eqn:E1; [|done]. apply Z.eqb_eq in E1. intros [H1 ->]%IH. cbn. split.
  - intros r [->|Hr]%elem_of_cons.
    + split; [done|]. destruct (table !! _) as [n|]; [|done]. simpl in E1. by subst.
    + destruct (H1 r Hr) as [[_ ?]%list_elem_of_filter ?]. done.
  - rewrite list_filter_filter. apply list_filter_iff. intros x. rewrite not_elem_of_cons. tauto.
Qed.

Lemma append_managed_spec c after ex ex' :
  append_managed c after ex = Some ex' →
  ex' = ex ++ after ∧ NoDup after ∧ ∀ r, r ∈ after → covers_server c r = false ∧ r ∉ ex.
Proof.
  revert ex. induction after as [|r0 after IH]; intros ex; cbn [append_managed].
  { intros [= <-]. rewrite app_nil_r. split_and!; [done|constructor|by intros r ?%elem_of_nil]. }
  destruct (covers_server c r0) eqn:E0; [done|]. destruct (bool_decide (r0 ∈ ex)) eqn:E1; [done|].
  apply bool_decide_eq_false in E1. cbn [orb]. intros (-> & Hnd & H1)%IH. rewrite <-app_assoc. split_and!; [done| |].
  - constructor; [|done]. intros Hin. destruct (H1 r0 Hin) as [_ Hn]. apply Hn. apply elem_of_app. right. constructor.
  - intros r [->|Hr]%elem_of_cons; [done|]. destruct (H1 r Hr) as [? Hn]. split; [done|]. intros ?. apply Hn. apply elem_of_app. by left.
Qed.

(** What a replacement that is not rejected is about. *)
Record admitted (table : gmap IPAddress Z) (current : InterfaceConfig) (nonce : text) (before after excluded : list text) : Prop := {
  ad_known : m_managedExclusionsKnown current = true;
  ad_nonce : nonce = m_routeConnectionNonce current ∧ nonce ≠ [];
  ad_before : before = m_managedExcludedAddresses current;
  ad_tunnel : IPAddress_text (lit "0.0.0.0/0") ∈ m_allowedIPAddressRanges current;
  ad_held r : r ∈ before → r ∈ m_excludedAddresses current ∧ table !! IPAddress_text r = Some 1;
  ad_excluded : excluded = filter (λ r, r ∉ before) (m_excludedAddresses current) ++ after;
  ad_after r : r ∈ after → covers_server current r = false ∧ (r ∈ m_excludedAddresses current → r ∈ before);
}.

Lemma desired_admitted table current nonce before after excluded :
  desired_exclusions table current nonce before after = Some excluded → admitted table current nonce before after excluded.
Proof.
  unfold desired_exclusions. destruct (validatedManagedRoutes before) as [ob bv], (validatedManagedRoutes after) as [na av].
  destruct (m_managedExclusionsKnown current) eqn:Ek; [|done]. cbn [andb].
  destruct (is_empty nonce) eqn:En; [done|]. cbn [negb andb]. destruct (text_eqb nonce _) eqn:Et; [|done].
  destruct bv; [|done]. destruct av; [|done]. cbn [andb]. do 2 (destruct (bool_decide _); [|done]). cbn [andb].
  destruct (bool_decide (before = _)) eqn:Eb; [|done]. apply bool_decide_eq_true in Eb.
  destruct (bool_decide (_ ∈ _)) eqn:Er; [|done]. apply bool_decide_eq_true in Er. cbn [andb].
  intros (ex & [H1 ->]%drop_managed_spec & [-> [_ H2]]%append_managed_spec)%bind_Some.
  apply text_eqb_eq in Et. split; try done.
  - split; [done|]. intros ->. by vm_compute in En.
  - intros r Hr. destruct (H2 r Hr) as [? Hn]. split; [done|]. intros Hin. destruct (decide (r ∈ before)) as [|Hb]; [done|].
    destruct Hn. by apply list_elem_of_filter.
Qed.

Lemma admitted_change table current nonce before after excluded known :
  admitted table current nonce before after excluded → managed_change current (with_exclusions current excluded after known).
Proof.
  intros []. subst. split; cbn [with_exclusions m_excludedAddresses m_managedExcludedAddresses]; intros r.
  - intros Hr Hn. apply not_elem_of_app in Hn as [Hn _]. destruct (decide (r ∈ m_managedExcludedAddresses current)) as [|Hb]; [done|].
    destruct Hn. by apply list_elem_of_filter.
  - intros [[_ Hr]%list_elem_of_filter|Hr]%elem_of_app Hn; [done|done].
  - intros Hb Ha. split; [by apply ad_held0|]. intros [[Hn _]%list_elem_of_filter|Hr]%elem_of_app; done.
Qed.

Lemma dom_forget routes (t : gmap IPAddress Z) : dom (forget_routes routes t) = dom t ∖ prefixes routes.
Proof.
  unfold forget_routes, prefixes. revert t. induction routes as [|r routes IH]; intros t; simpl.
  - set_solver.
  - rewrite IH, dom_delete_L. set_solver.
Qed.

Lemma dom_own routes (t : gmap IPAddress Z) : dom (own_routes routes t) = dom t ∪ prefixes routes.
Proof.
  unfold own_routes, prefixes. revert t. induction routes as [|r routes IH]; intros t; simpl.
  - set_solver.
  - rewrite IH, dom_insert_L. set_solver.
Qed.

Lemma prefixes_held (t : gmap IPAddress Z) routes : (∀ r, r ∈ routes → is_Some (t !! IPAddress_text r)) → prefixes routes ⊆ dom t.
Proof. intros Ht p. unfold prefixes. rewrite elem_of_list_to_set, list_elem_of_fmap. intros (r & -> & Hr). apply elem_of_dom. auto. Qed.
End guards.

(** ** Every operation keeps the table *)

Section keeps_owned.
Context {QT : QtText} {QN : QtNet} {W : Type} {DH : DaemonHost W} (installed : W → gset IPAddress) {EO : ExclusionOwner W installed}.

Notation daemon E A := (prog (DaemonState W) E A).
Notation owned := (owned installed).

Lemma owned_switch {E} c : keeps owned (switchServer (E := E) c).
Proof. unfold switchServer, switchServer_body. owned_tac. Qed.

Lemma owned_deactivate {E} b : keeps owned (deactivate (E := E) b).
Proof. unfold deactivate, deactivate_body, clean_connection, clean, clean_exclusion. owned_tac. Qed.

Lemma owned_resolvers {E} c : keeps owned (maybeUpdateResolvers (E := E) c).
Proof. unfold maybeUpdateResolvers. owned_tac. Qed.
#[local] Hint Resolve owned_switch owned_deactivate owned_resolvers : owned.

Lemma owned_activate_with again c : (∀ c, keeps owned (again c)) → keeps owned (activate_with again c).
Proof. intros Ha. unfold activate_with, activate_switch, activate_new, activate_routes, connected_as. owned_tac. Qed.

Lemma owned_activate {E} c : keeps owned (activate (E := E) c).
Proof. apply k_call. unfold activate_fuel. do 2 (apply owned_activate_with; intros ?). apply k_leave. Qed.

Lemma owned_exclusions {E} nonce before after : keeps owned (replaceManagedExclusions (E := E) nonce before after).
Proof.
  intros d Hd. unfold replaceManagedExclusions, gets, cmd_get, cmd_bind, outer, set_excluded, set_connections, cmd_modify.
  destruct (dm_connections d) as [|[[] s] [|? ?]]; try exact Hd.
  destruct (desired_exclusions _ _ _ _ _) as [ex|] eqn:Eex; [|exact Hd]. apply desired_admitted in Eex.
  pose proof (own_replace _ _ (dm_outer d) (admitted_change _ _ _ _ _ _ (m_managedExclusionsKnown (cs_config s)) Eex)) as L.
  destruct (replaceExclusionPolicy _ _ _) as [r w']. cbn [with_exclusions m_managedExcludedAddresses] in L.
  assert (prefixes (m_managedExcludedAddresses (cs_config s)) ⊆ dom (dm_excluded d)) as Hb.
  { rewrite <-(ad_before _ _ _ _ _ _ Eex). apply prefixes_held. intros q Hq. exists 1. by apply (ad_held _ _ _ _ _ _ Eex). }
  pose proof (ad_before _ _ _ _ _ _ Eex) as Eb. unfold DaemonSafety.owned, pure, cmd_ret in *.
  destruct r; cbn [dm_outer dm_excluded]; rewrite ?dom_own, ?dom_forget, ?Eb; clear Eex EO; set_solver.
Qed.

Lemma owned_status {E} : keeps owned (getStatus (E := E)).
Proof. unfold getStatus. owned_tac. Qed.

Lemma owned_handshake {E} : keeps owned (checkHandshake (E := E)).
Proof. unfold checkHandshake. owned_tac. Qed.

Lemma owned_serve r : keeps owned (serve r).
Proof.
  destruct r; cbn [serve]; try apply owned_handshake; (apply k_bind; [|intros ?; apply k_pure]);
    auto using owned_activate, owned_deactivate, owned_exclusions, owned_status.
Qed.

Definition serve_all (d : DaemonState W) (rs : list Request) : DaemonState W := foldl (λ d r, (serve r d).2) d rs.

Lemma owned_serve_all rs d : owned d → owned (serve_all d rs).
Proof.
  revert d. induction rs as [|r rs IH]; intros d Hd; [done|]. apply IH. pose proof (owned_serve r d Hd) as K.
  by destruct (serve r d) as [[|] d'].
Qed.
End keeps_owned.

(** ** Deactivation *)

Section deactivation.
Context {QT : QtText} {QN : QtNet} {W : Type} {DH : DaemonHost W} {DO : DaemonHostOrder W}.
Implicit Types d : DaemonState W.

(** The loop over the exclusions: those a success was reported for are gone. *)
Lemma clean_exclusions_spec {E} l r d :
  match cmd_fold (clean_exclusion (E := E)) r l d with
  | (Ok r', d') => dm_connections d' = dm_connections d ∧ dm_signals d' = dm_signals d
                   ∧ dom (dm_excluded d') ⊆ dom (dm_excluded d)
                   ∧ (r'.1 = true → r.1 = true ∧ ∀ p, p ∈ l → p ∉ dom (dm_excluded d'))
                   ∧ (r'.2 = true → r.2 = true)
  | (Err _, _) => False
  end.
Proof.
  revert r d. induction l as [|p l IH]; intros r d; cbn [cmd_fold].
  { split_and!; try done. intros ?. split; [done|]. by intros q ?%elem_of_nil. }
  unfold clean_exclusion at 1, cmd_bind, outer. destruct (host_deleteExclusion p (dm_outer d)) as [b w]. destruct b; cbn -[cmd_fold dom delete].
  - match goal with |- match cmd_fold _ ?r1 _ ?d1 with _ => _ end => specialize (IH r1 d1) end.
    destruct (cmd_fold _ _ _ _) as [[r'|] d']; [|done]. cbn -[dom delete] in IH. rewrite dom_delete_L in IH.
    destruct IH as (H1 & H1' & H2 & H3 & H4). split_and!; [done|done|set_solver| |done]. intros E1. destruct (H3 E1) as [H5 H6]. split; [done|].
    intros q [->|Hq]%elem_of_cons; [set_solver|auto].
  - match goal with |- match cmd_fold _ ?r1 _ ?d1 with _ => _ end => specialize (IH r1 d1) end.
    destruct (cmd_fold _ _ _ _) as [[r'|] d']; [|done]. cbn -[dom] in IH. destruct IH as (H1 & H1' & H2 & H3 & H4).
    split_and!; [done|done|done| |]; intros E1; [by destruct (H3 E1)|by specialize (H4 E1)].
Qed.

(** Nothing but the host changed. *)
Definition untouched (d0 d : DaemonState W) : Prop :=
  dm_connections d = dm_connections d0 ∧ dm_excluded d = dm_excluded d0 ∧ dm_signals d = dm_signals d0.

Lemma untouched_outer {E A} d0 (f : W → A * W) : keeps (untouched d0) (outer (E := E) f).
Proof. intros d Hd. unfold outer. by destruct (f (dm_outer d)). Qed.
#[local] Hint Resolve untouched_outer : keeps.

Lemma total_outer {E A} (f : W → A * W) : total (outer (E := E) f).
Proof. intros d. unfold outer. destruct (f (dm_outer d)) as [a w]. by exists a. Qed.
#[local] Hint Resolve total_outer : total.

(** A part that neither leaves nor changes the object. *)
Lemma h_untouched {E A} d0 (m : prog (DaemonState W) E A) X :
  total m → keeps (untouched d0) m → hoare (untouched d0) m (λ _, untouched d0) X.
Proof. intros Ht Hm. by eapply hoare_total. Qed.

(** The exclusions are cleaned and the rest is as it was. *)
Definition left_clean (s : bool) (d0 : DaemonState W) (b : bool) (d : DaemonState W) : Prop :=
  if b then dm_connections d = [] ∧ dm_excluded d = ∅
            ∧ dm_signals d = dm_signals d0 ++ (if s then [SDisconnected] else [])
  else dm_connections d = dm_connections d0 ∧ dom (dm_excluded d) ⊆ dom (dm_excluded d0) ∧ dm_signals d = dm_signals d0.

Lemma untouched_failed s d0 d : untouched d0 d → left_clean s d0 false d.
Proof. intros (H1 & H2 & H3). unfold left_clean. by rewrite H2. Qed.

Lemma keys_none (t t' : gmap IPAddress Z) :
  dom t' ⊆ dom t → (∀ p, p ∈ keys_order (map fst (map_to_list t)) → p ∉ dom t') → t' = ∅.
Proof.
  intros Hd Hk. apply dom_empty_inv_L. apply set_eq. intros p. split; [|set_solver]. intros Hp. destruct (Hk p); [|done].
  rewrite keys_order_perm. apply Hd, elem_of_dom in Hp as [n Hn]. apply list_elem_of_fmap. exists (p, n). split; [done|]. by apply elem_of_map_to_list.
Qed.

Lemma deactivate_spec s d0 : hoare (λ d, d = d0) (deactivate_body s) (left_clean s d0) (left_clean s d0).
Proof.
  unfold deactivate_body.
  eapply (h_bind _ _ _ (λ l d, l = dm_connections d0 ∧ untouched d0 d)); [apply h_gets; by intros d ->|]. intros connections.
  apply h_fact. intros ->.
  eapply (h_bind _ _ _ (λ _, untouched d0)).
  { destruct (dm_connections d0) as [|[? state] ?]; [by apply h_ret|]. unfold or_return.
    eapply h_bind; [apply (h_untouched d0); auto with total keeps|].
    intros []; [by apply h_ret|]. apply h_leave. apply untouched_failed. }
  intros _. eapply (h_bind _ _ _ (λ _, untouched d0)).
  { apply h_untouched; auto with total keeps. }
  intros cleaned. eapply (h_bind _ _ _ (λ _, untouched d0)).
  { apply h_untouched; unfold clean_connection, clean; [total_tac|keeps_tac]. }
  intros r. eapply (h_bind _ _ _ (λ t d, t = dm_excluded d0 ∧ untouched d0 d)); [apply h_gets; intros d Hd; split; [apply Hd|done]|].
  intros table. apply h_fact. intros ->.
  eapply (h_bind _ _ _ (λ r' d, dm_connections d = dm_connections d0 ∧ dm_signals d = dm_signals d0
     ∧ dom (dm_excluded d) ⊆ dom (dm_excluded d0) ∧ (r'.1 = true → dm_excluded d = ∅))).
  { intros d (H1 & H2 & H3).
    pose proof (clean_exclusions_spec (E := bool) (keys_order (map fst (map_to_list (dm_excluded d0)))) r d) as K.
    destruct (cmd_fold clean_exclusion _ _ _) as [[r'|] d']; [|done]. rewrite H1, H2, H3 in K.
    destruct K as (K1 & K2 & K3 & K4 & _). split_and!; try done. intros E1. destruct (K4 E1) as [_ K5]. by apply (keys_none (dm_excluded d0)). }
  intros [[] cleaned']; cbn [fst].
  2:{ intros d (H1 & H2 & H3 & _). unfold cmd_bind, leave, cmd_ret. done. }
  intros d (H1 & H2 & H3 & H4). specialize (H4 eq_refl). unfold cmd_bind, outer. cbn.
  destruct (deleteInterface (dm_outer d)) as [b w]. destruct (b && cleaned'); cbn; [|by rewrite H4, dom_empty_L].
  destruct s; cbn; split_and!; try done; by rewrite ?H2, ?app_nil_r.
Qed.
End deactivation.


(** ** Activation and the managed exclusions of the privileged daemon

    What an activation and a replacement of the managed exclusions leave
    behind, on every branch of client/daemon/daemon.cpp. *)

(** ** Activation *)

Lemma hop_index_eq h h' : (hop_index h =? hop_index h') = bool_decide (h = h').
Proof. by destruct h, h'. Qed.

Lemma connection_put h s l : connection h (put_connection h s l) = Some s.
Proof.
  unfold connection. induction l as [|[h' s'] l IH]; cbn; [by rewrite bool_decide_eq_true_2 by done|].
  rewrite hop_index_eq. destruct (bool_decide (h = h')) eqn:Eh; [cbn; by rewrite bool_decide_eq_true_2 by done|].
  destruct (_ <? _); [cbn; by rewrite bool_decide_eq_true_2 by done|]. cbn. apply bool_decide_eq_false in Eh. rewrite bool_decide_eq_false_2 by congruence. done.
Qed.

Lemma read_bind {W E A B} (f : W → A) (k : A → prog W E B) w : cmd_bind (gets f) k w = k (f w) w.
Proof. done. Qed.

Lemma bind_ext {W E A B} (m1 m2 : prog W E A) (k : A → prog W E B) w : m1 w = m2 w → cmd_bind m1 k w = cmd_bind m2 k w.
Proof. unfold cmd_bind. by intros ->. Qed.

Section activation.
Context {QT : QtText} {QN : QtNet} {W : Type} {DH : DaemonHost W} {DO : DaemonHostOrder W}.
Implicit Types d : DaemonState W.

Definition quiet (l : list Signal) (d : DaemonState W) : Prop := dm_signals d = l.

Lemma quiet_outer {E A} l (f : W → A * W) : keeps (quiet l) (outer (E := E) f).
Proof. intros d Hd. unfold outer. by destruct (f (dm_outer d)). Qed.

Lemma quiet_modify {E} l f : (∀ d, dm_signals (f d) = dm_signals d) → keeps (quiet l) (cmd_modify (E := E) f).
Proof. intros Hf d Hd. unfold cmd_modify, quiet. by rewrite Hf. Qed.

Lemma quiet_connections {E} l f : keeps (quiet l) (set_connections (E := E) f).
Proof. by apply quiet_modify. Qed.
Lemma quiet_excluded {E} l f : keeps (quiet l) (set_excluded (E := E) f).
Proof. by apply quiet_modify. Qed.
Lemma total_set_excluded {E} f : total (set_excluded (W := W) (E := E) f).
Proof. apply total_modify. Qed.
#[local] Hint Resolve quiet_outer quiet_connections quiet_excluded : keeps.
#[local] Hint Resolve total_outer total_set_excluded : total.

Lemma quiet_add {E} l p : keeps (quiet l) (addExclusionRoute (E := E) p).
Proof. unfold addExclusionRoute. keeps_tac. Qed.
Lemma total_add {E} p : total (addExclusionRoute (E := E) (W := W) p).
Proof. unfold addExclusionRoute. total_tac. Qed.
Lemma quiet_del {E} l p : keeps (quiet l) (delExclusionRoute (E := E) p).
Proof. unfold delExclusionRoute. keeps_tac. Qed.
Lemma quiet_until {E} l ips : keeps (quiet l) (update_until_failure (E := E) ips).
Proof. induction ips; cbn [update_until_failure]; keeps_tac; done. Qed.
Lemma quiet_resolvers {E} l c : keeps (quiet l) (maybeUpdateResolvers (E := E) c).
Proof. unfold maybeUpdateResolvers. keeps_tac. Qed.
Lemma total_resolvers {E} c : total (maybeUpdateResolvers (E := E) (W := W) c).
Proof. unfold maybeUpdateResolvers. total_tac. Qed.
#[local] Hint Resolve quiet_add quiet_del quiet_until quiet_resolvers : keeps.
#[local] Hint Resolve total_add total_resolvers : total.

Lemma quiet_switch {E} l c : keeps (quiet l) (switchServer (E := E) c).
Proof. unfold switchServer, switchServer_body, or_return. keeps_tac. Qed.
Lemma total_switch {E} c : total (switchServer (E := E) (W := W) c).
Proof. unfold switchServer. total_tac. Qed.
#[local] Hint Resolve quiet_switch : keeps.
#[local] Hint Resolve total_switch : total.

(** The connection is registered and the daemon waits for its handshake. *)
Definition registered (c : InterfaceConfig) (d : DaemonState W) : Prop :=
  connection (m_hopType c) (dm_connections d) = Some (MkConnection c None) ∧ dm_timer d = true.

(** How a body ends, before its failure is signalled. *)
Definition ended (c : InterfaceConfig) (l : list Signal) (b : bool) (d : DaemonState W) : Prop :=
  dm_signals d = l ∧ (b = true → registered c d).

Lemma return_step c l (m : prog (DaemonState W) bool bool) :
  total m → keeps (quiet l) m → hoare (quiet l) (or_return m) (λ _, quiet l) (ended c l).
Proof.
  intros Ht Hm. unfold or_return. eapply h_bind; [by eapply hoare_total|]. intros []; [by apply h_ret|].
  apply h_leave. intros d Hd. by split.
Qed.

Lemma connected_ended c l X : hoare (quiet l) (connected_as c) (ended c l) X.
Proof. intros d Hd. cbn. split; [done|]. intros _. split; [apply connection_put|done]. Qed.

Ltac return_steps :=
  repeat match goal with
  | |- hoare _ (cmd_bind (or_return _) _) _ _ => eapply h_bind; [apply return_step; auto with total keeps|intros []; cbv beta]
  | |- hoare _ (cmd_bind (cmd_each _ _) _) _ _ =>
      eapply h_bind; [apply h_each; intros ? _; apply return_step; auto with total keeps|intros []; cbv beta]
  end.

Lemma switch_ended c l : hoare (quiet l) (activate_switch c) (ended c l) (ended c l).
Proof. unfold activate_switch. return_steps. apply connected_ended. Qed.

Lemma routes_ended c l : hoare (quiet l) (activate_routes c) (ended c l) (ended c l).
Proof. unfold activate_routes. return_steps. apply connected_ended. Qed.

Lemma new_ended c l : hoare (quiet l) (activate_new c) (ended c l) (ended c l).
Proof.
  unfold activate_new.
  eapply (h_bind _ _ _ (λ _, quiet l)); [eapply hoare_total; [apply total_outer|apply quiet_outer]|intros _].
  eapply (h_bind _ _ _ (λ _, quiet l)); [eapply hoare_total; [apply total_outer|apply quiet_outer]|intros e].
  eapply (h_bind _ _ _ (λ _, quiet l)); [destruct e; [by apply h_ret|apply return_step; auto with total keeps]|intros _].
  eapply (h_bind _ _ _ (λ _, quiet l)); [destruct supportIPUtils; [|by apply h_ret]|intros _].
  { return_steps. apply return_step; auto with total keeps. }
  return_steps. eapply h_bind; [apply h_call, routes_ended|]. intros [].
  - by apply h_ret.
  - intros d [Hd _]. unfold cmd_bind, outer. destruct (deletePeer c (dm_outer d)). by split.
Qed.

(** How an activation ends: a failure was signalled, once for each level. *)
Definition activated (c : InterfaceConfig) (l : list Signal) (b : bool) (d : DaemonState W) : Prop :=
  if b then dm_signals d = l ∧ registered c d else ∃ n, dm_signals d = l ++ replicate n SActivationFailure.

Lemma ended_activated c l b d : ended c l b d → activated c l b d.
Proof. intros [H1 H2]. destruct b; [by split; [|apply H2]|]. exists O. by rewrite app_nil_r. Qed.

(** The state the recursive call starts from. *)
Definition emptied (l : list Signal) (d : DaemonState W) : Prop := dm_connections d = [] ∧ quiet l d.

Lemma deactivate_first again c l :
  hoare (emptied l) (again c) (activated c l) (activated c l) →
  hoare (quiet l) (let! _ := or_return (deactivate false) in again c) (activated c l) (activated c l).
Proof.
  intros Ha. eapply (h_bind _ _ _ (λ _, emptied l)); [|by intros []].
  intros d Hd. pose proof (deactivate_spec false d d eq_refl) as K. unfold or_return, deactivate, cmd_bind, call.
  destruct (deactivate_body false d) as [[[]|[]] d']; cbn in *.
  1, 3: destruct K as (K1 & _ & K3); split; [done|]; by rewrite Hd, app_nil_r in K3.
  all: destruct K as (_ & _ & K3); exists O; by rewrite app_nil_r, K3.
Qed.

Lemma activated_failed c l b d :
  activated c l b d → if b then activated c l true d
    else ∃ n, dm_signals d ++ [SActivationFailure] = l ++ replicate (S n) SActivationFailure.
Proof. destruct b; [done|]. intros [n ->]. exists n. rewrite <-app_assoc. f_equal. by rewrite <-replicate_S_end. Qed.

Definition activation (c : InterfaceConfig) (l : list Signal) (b : bool) (d : DaemonState W) : Prop :=
  if b then activated c l true d else ∃ n, dm_signals d = l ++ replicate (S n) SActivationFailure.

Lemma activate_with_spec again c l :
  hoare (emptied l) (again c) (activated c l) (activated c l) →
  hoare (quiet l) (activate_with again c) (activation c l) (activation c l).
Proof.
  intros Ha. unfold activate_with.
  eapply (h_bind _ _ _ (λ _, quiet l)); [by apply h_gets|intros connections].
  eapply (h_bind _ _ _ (activated c l)).
  { apply h_call. destruct (connection _ _); [destruct (supportServerSwitching _ _)|].
    - eapply h_conseq; [apply switch_ended|done| |]; intros; by apply ended_activated.
    - by apply deactivate_first.
    - eapply h_conseq; [apply new_ended|done| |]; intros; by apply ended_activated. }
  intros b d Hb. apply activated_failed in Hb. by destruct b.
Qed.

Lemma activate_fuel_spec n c l : hoare (quiet l) (activate_fuel n c) (activation c l) (activation c l).
Proof.
  assert (∀ b d, activation c l b d → activated c l b d) as Hw. { intros [] d; [done|]. intros [n' E]. by exists (S n'). }
  induction n as [|n IH]; cbn [activate_fuel]; apply activate_with_spec.
  - apply h_leave. intros d [_ Hd]. exists O. by rewrite app_nil_r.
  - eapply h_conseq; [exact IH|by intros d [_ ?]|apply Hw|apply Hw].
Qed.

(** With no connection left the recursive call is not made again. *)
Lemma activate_with_none a1 a2 c d : dm_connections d = [] → activate_with a1 c d = activate_with a2 c d.
Proof. intros Hd. unfold activate_with, gets, cmd_get, cmd_bind. by rewrite Hd. Qed.

Lemma activate_with_ext a1 a2 c d :
  (∀ d', dm_connections d' = [] → a1 c d' = a2 c d') → activate_with a1 c d = activate_with a2 c d.
Proof.
  intros Ha. unfold activate_with. rewrite !read_bind. cbv beta. apply bind_ext. destruct (connection _ _); [|done].
  destruct (supportServerSwitching _ _); [done|]. pose proof (deactivate_spec false d d eq_refl) as K.
  unfold or_return, deactivate, cmd_bind, call. destruct (deactivate_body false d) as [[[]|[]] d']; cbn in *; try done.
  all: destruct K as [K _]; by rewrite Ha.
Qed.

Lemma activate_fuel_enough n c d : activate_fuel (S n) c d = activate_fuel 1 c d.
Proof.
  cbn [activate_fuel]. apply activate_with_ext. intros d' Hd'. destruct n; cbn [activate_fuel]; by apply activate_with_none.
Qed.
End activation.

(**  An activation ends in one of two ways.  It returns true and the
    connection is registered with the new configuration, without a handshake
    yet, the handshake timer runs and no failure was signalled; or it returns
    false and a failure was signalled last.  It deactivates and starts over at
    most once, so that one level of recursion computes what any number does. *)
Theorem activation_outcome {QT : QtText} {QN : QtNet} {W : Type} {DH : DaemonHost W} {DO : DaemonHostOrder W}
    (c : InterfaceConfig) (d : DaemonState W) (n : nat) :
  activate_fuel (S n) c d = activate_fuel 1 c d ∧
  match activate (E := ()) c d with
  | (Ok true, d') => connection (m_hopType c) (dm_connections d') = Some (MkConnection c None)
                     ∧ dm_timer d' = true ∧ dm_signals d' = dm_signals d
  | (Ok false, d') => ∃ k, dm_signals d' = dm_signals d ++ replicate (S k) SActivationFailure
  | (Err _, _) => False
  end.
Proof.
  split; [apply activate_fuel_enough|]. pose proof (activate_fuel_spec 1 c (dm_signals d) d eq_refl) as K. unfold activate, call.
  destruct (activate_fuel 1 c d) as [[[]|[]] d']; unfold activation, activated, registered in K; naive_solver.
Qed.

(** ** Managed exclusions *)

Section managed.
Context {QT : QtText} {QN : QtNet}.

Lemma forget_lookup routes (t : gmap IPAddress Z) p :
  forget_routes routes t !! p = if bool_decide (p ∈ prefixes routes) then None else t !! p.
Proof.
  unfold forget_routes, prefixes. revert t. induction routes as [|r routes IH]; intros t; simpl.
  { rewrite bool_decide_eq_false_2 by set_solver. done. }
  rewrite IH. destruct (decide (p = IPAddress_text r)) as [->|Hp].
  - rewrite lookup_delete_eq, (bool_decide_eq_true_2 (_ ∈ {[_]} ∪ _)) by set_solver. by destruct (bool_decide _).
  - rewrite lookup_delete_ne by done. erewrite bool_decide_ext; [done|]. set_solver.
Qed.

Lemma own_lookup routes (t : gmap IPAddress Z) p :
  own_routes routes t !! p = if bool_decide (p ∈ prefixes routes) then Some 1 else t !! p.
Proof.
  unfold own_routes, prefixes. revert t. induction routes as [|r routes IH]; intros t; simpl.
  { rewrite bool_decide_eq_false_2 by set_solver. done. }
  rewrite IH. destruct (decide (p = IPAddress_text r)) as [->|Hp].
  - rewrite lookup_insert_eq, (bool_decide_eq_true_2 (_ ∈ {[_]} ∪ _)) by set_solver. by destruct (bool_decide _).
  - rewrite lookup_insert_ne by done. erewrite bool_decide_ext; [done|]. set_solver.
Qed.

(** Without a known policy every request is refused. *)
Lemma desired_unknown table current nonce before after :
  m_managedExclusionsKnown current = false → desired_exclusions table current nonce before after = None.
Proof. intros E. unfold desired_exclusions. rewrite E. by destruct (validatedManagedRoutes before), (validatedManagedRoutes after). Qed.
End managed.

(**  Replacing the managed exclusions is exact.  Only a request with the
    nonce of the one connection and with its managed exclusions as they are
    gets to the host, and no new route takes the endpoint or a resolver out of
    the tunnel.  A reported update leaves the configuration with its other
    exclusions, in order, followed by the new ones, and the table with exactly
    one reference for each new route, none for the routes that were dropped and
    every other entry as it was.  An uncertain result keeps the old routes in
    the table beside the new ones and no later request is accepted for the
    connection.  Any other result changes neither. *)
Theorem managed_exclusions_exact {QT : QtText} {QN : QtNet} {W : Type} {DH : DaemonHost W}
    (nonce : text) (before after : list text) (d : DaemonState W) :
  match replaceManagedExclusions (E := ()) nonce before after d with
  | (Ok r, d') =>
      (r = Updated ∨ r = Uncertain →
        ∃ s c, dm_connections d = [(SingleHop, s)] ∧ dm_connections d' = [(SingleHop, MkConnection c (cs_date s))]
        ∧ nonce = m_routeConnectionNonce (cs_config s) ∧ nonce ≠ [] ∧ before = m_managedExcludedAddresses (cs_config s)
        ∧ (∀ r, r ∈ after → covers_server (cs_config s) r = false)
        ∧ (if bool_decide (r = Updated) then
             m_excludedAddresses c = filter (λ r, r ∉ before) (m_excludedAddresses (cs_config s)) ++ after
             ∧ m_managedExcludedAddresses c = after
             ∧ ∀ p, dm_excluded d' !! p = if bool_decide (p ∈ prefixes after) then Some 1
                                          else if bool_decide (p ∈ prefixes before) then None else dm_excluded d !! p
           else
             m_excludedAddresses c = m_excludedAddresses (cs_config s) ∧ m_managedExcludedAddresses c = before
             ∧ (∀ p, dm_excluded d' !! p = if bool_decide (p ∈ prefixes after) then Some 1 else dm_excluded d !! p)
             ∧ ∀ n b a, replaceManagedExclusions (E := ()) n b a d' = (Ok Rejected, d')))
      ∧ (r ≠ Updated → r ≠ Uncertain → dm_connections d' = dm_connections d ∧ dm_excluded d' = dm_excluded d)
  | (Err _, _) => False
  end.
Proof.
  unfold replaceManagedExclusions at 1. unfold gets, cmd_get, cmd_bind, outer, set_excluded, set_connections, cmd_modify.
  destruct (dm_connections d) as [|[[] s] [|? ?]] eqn:Ec; try (split; [by intros []|by rewrite Ec]).
  destruct (desired_exclusions _ _ _ _ _) as [ex|] eqn:Eex; [|split; [by intros []|by rewrite Ec]]. apply desired_admitted in Eex.
  destruct (replaceExclusionPolicy _ _ _) as [r w'].
  destruct r; try (split; [by intros []|by cbn; rewrite Ec]); unfold pure, cmd_ret;
    (split; [intros _|done]); exists s; cbn [dm_connections dm_excluded]; rewrite Ec; cbn [update_config map];
    rewrite bool_decide_eq_true_2 by done; eexists; (split_and!; [done|done|apply Eex|apply Eex|apply Eex| |]).
  1, 3: intros q Hq; by apply Eex.
  - rewrite bool_decide_eq_true_2 by done. cbn. split_and!; [apply Eex|done|]. intros p. by rewrite own_lookup, forget_lookup.
  - rewrite bool_decide_eq_false_2 by done. cbn. split_and!; [done|symmetry; apply Eex|intros p; by rewrite own_lookup|].
    intros n b a. unfold replaceManagedExclusions, gets, cmd_get, cmd_bind. cbn. by rewrite desired_unknown.
Qed.

(** ** The exclusion policy of the Windows host

    Model of replaceExclusionPolicy in
    client/platforms/windows/daemon/wireguardutilswindows.cpp, which runs the
    transactions of ExclusionPolicy with the route monitor and the firewall,
    and the proof that it does what the daemon relies on. *)

(** The members of WireguardUtilsWindows that the policy uses. *)
Class WindowsHost (K : Type) := {
  has_routeMonitor : K → bool;
  tunnel_isRunning : K → bool;
  m_configuredPeers : K → gset text;
  has_firewall : K → bool;
  monitor_addExclusionRoute : IPAddress → K → bool * K;
  monitor_deleteExclusionRoute : IPAddress → K → bool * K;
  enablePeerTraffic : InterfaceConfig → K → bool * K;
}.

Section policy.
Context {QT : QtText} {QN : QtNet} {K : Type} {WH : WindowsHost K}.

Definition guarded (before : InterfaceConfig) (exclusions : list text) : InterfaceConfig :=
  with_exclusions before exclusions (m_managedExcludedAddresses before) (m_managedExclusionsKnown before).

Definition addRoute (route : text) : K → bool * K := monitor_addExclusionRoute (IPAddress_text route).
Definition removeRoute (route : text) : K → bool * K := monitor_deleteExclusionRoute (IPAddress_text route).

Definition windows_replaceExclusionPolicy (before after : InterfaceConfig) (k : K) : Result * K :=
  if negb (has_routeMonitor k) || negb (tunnel_isRunning k)
     || negb (bool_decide (size (m_configuredPeers k) = 1%nat)) || negb (bool_decide (m_serverPublicKey before ∈ m_configuredPeers k))
     || negb (text_eqb (m_serverPublicKey before) (m_serverPublicKey after))
     || negb (Bool.eqb (m_killSwitchEnabled before) (m_killSwitchEnabled after))
  then (Unsupported, k)
  else if negb (m_killSwitchEnabled before)
  then replaceRoutes addRoute removeRoute (m_excludedAddresses before) (m_excludedAddresses after) k
  else if negb (has_firewall k) then (Unsupported, k)
  else replace (λ exclusions, enablePeerTraffic (guarded before exclusions)) addRoute removeRoute
         (m_excludedAddresses before) (m_excludedAddresses after) k.
End policy.

(** The route monitor tells the truth about its successes; the firewall does
    not touch the routes. *)
Class WindowsRoutes `{QtNet} (K : Type) `{WindowsHost K} (installed : K → gset IPAddress) : Prop := {
  win_add p k : let '(b, k') := monitor_addExclusionRoute p k in
    installed k' = {[p]} ∪ installed k ∨ (b = false ∧ installed k' = installed k);
  win_delete p k : let '(b, k') := monitor_deleteExclusionRoute p k in
    installed k' = installed k ∖ {[p]} ∨ (b = false ∧ installed k' = installed k);
  win_firewall c k : installed (enablePeerTraffic c k).2 = installed k;
}.

(** ** Bounds on the routes *)

Lemma elem_of_prefixes {QN : QtNet} p l : p ∈ prefixes l ↔ ∃ r, p = IPAddress_text r ∧ r ∈ l.
Proof. unfold prefixes. by rewrite elem_of_list_to_set, list_elem_of_fmap. Qed.

Lemma prefixes_mono {QN : QtNet} l l' : l ⊆ l' → prefixes l ⊆ prefixes l'.
Proof. intros Hl p. rewrite !elem_of_prefixes. intros (r & -> & Hr). exists r. auto. Qed.

Section bounds.
Context {QT : QtText} {QN : QtNet} {K : Type} {WH : WindowsHost K} (installed : K → gset IPAddress) {WR : WindowsRoutes K installed}.

Notation tx A := (prog K Result A).
Notation P l := (prefixes l).

Definition within (S : gset IPAddress) (k : K) : Prop := installed k ⊆ S.

Lemma within_weaken S S' k : S ⊆ S' → within S k → within S' k.
Proof. unfold within. intros H1 H2. by etrans. Qed.

Lemma prefixes_cons r l : P (r :: l) = {[IPAddress_text r]} ∪ P l.
Proof. done. Qed.
Lemma prefixes_nil : P [] = ∅.
Proof. done. Qed.
Lemma prefixes_app l1 l2 : P (l1 ++ l2) = P l1 ∪ P l2.
Proof. unfold prefixes. by rewrite map_app, list_to_set_app_L. Qed.

Lemma add_within r S X : hoare (within S) (effect (addRoute r)) (λ _, within (S ∪ {[IPAddress_text r]})) X.
Proof.
  intros k Hk. unfold effect, addRoute. pose proof (win_add (IPAddress_text r) k) as L.
  destruct (monitor_addExclusionRoute _ k) as [b k']. unfold within in *. destruct L as [->|[_ ->]]; clear -Hk; set_solver.
Qed.

Lemma remove_within r S X :
  hoare (within S) (effect (removeRoute r)) (λ b, within (if b : bool then S ∖ {[IPAddress_text r]} else S)) X.
Proof.
  intros k Hk. unfold effect, removeRoute. pose proof (win_delete (IPAddress_text r) k) as L.
  destruct (monitor_deleteExclusionRoute _ k) as [b k']. unfold within in *. destruct b, L as [->|[? ->]]; try done; clear -Hk; set_solver.
Qed.

Lemma firewall_within c S X : hoare (within S) (effect (enablePeerTraffic c)) (λ _, within S) X.
Proof.
  intros k Hk. unfold effect. pose proof (win_firewall c k) as L. destruct (enablePeerTraffic c k) as [b k']. unfold within in *.
  simpl in L. by rewrite L.
Qed.

Lemma restore_add_within b l S X :
  hoare (within S) (restore_each addRoute b l) (λ b' k, within (S ∪ P l) k ∧ (b' = true → b = true)) X.
Proof.
  revert b S. induction l as [|r l IH]; intros b S; unfold restore_each in *; cbn [cmd_fold].
  { apply h_ret. intros k Hk. split; [|done]. refine (within_weaken _ _ k _ Hk). set_solver. }
  eapply (h_bind _ _ _ (λ b' k, within (S ∪ {[IPAddress_text r]}) k ∧ (b' = true → b = true))).
  { eapply h_bind; [apply add_within|]. intros ok. apply h_ret. intros k Hk. split; [done|]. by intros [_ ?]%andb_true_iff. }
  intros b' k [Hk Hb]. specialize (IH b' (S ∪ {[IPAddress_text r]}) k Hk). destruct (cmd_fold _ b' l k) as [[b2|] k2]; [|done].
  destruct IH as [H1 H2]. split; [|auto]. refine (within_weaken _ _ k2 _ H1). rewrite prefixes_cons. set_solver.
Qed.

Lemma restore_remove_within b l S X :
  hoare (within S) (restore_each removeRoute b l)
    (λ b' k, within (if b' : bool then S ∖ P l else S) k ∧ (b' = true → b = true)) X.
Proof.
  revert b S. induction l as [|r l IH]; intros b S; unfold restore_each in *; cbn [cmd_fold].
  { apply h_ret. intros k Hk. split; [|done]. destruct b; [|done]. refine (within_weaken _ _ k _ Hk). rewrite prefixes_nil. set_solver. }
  eapply (h_bind _ _ _ (λ b' k, within (if b' : bool then S ∖ {[IPAddress_text r]} else S) k ∧ (b' = true → b = true))).
  { eapply h_bind; [apply remove_within|]. intros ok. apply h_ret. intros k Hk. destruct ok, b; cbn; (split; [|done]); try done.
    refine (within_weaken _ _ k _ Hk). set_solver. }
  intros b' k [Hk Hb]. specialize (IH b' _ k Hk). destruct (cmd_fold _ b' l k) as [[b2|] k2]; [|done].
  destruct IH as [H1 H2]. split; [|auto]. destruct b2.
  - rewrite (H2 eq_refl) in H1. refine (within_weaken _ _ k2 _ H1). rewrite prefixes_cons. set_solver.
  - refine (within_weaken _ _ k2 _ H1). destruct b'; set_solver.
Qed.

Lemma attempt_add_within rollback att l S (Q : Result → K → Prop) :
  (∀ l1 r l2, l = l1 ++ r :: l2 → hoare (within (S ∪ P (l1 ++ [r]))) (rollback (att ++ l1 ++ [r])) Q (λ _ _, False)) →
  hoare (within S) (attempt_each addRoute rollback att l) (λ att' k, att' = att ++ l ∧ within (S ∪ P l) k) Q.
Proof.
  revert att S. induction l as [|r l IH]; intros att S Hrb; cbn [attempt_each].
  { apply h_ret. intros k Hk. rewrite app_nil_r. split; [done|]. refine (within_weaken _ _ k _ Hk). set_solver. }
  eapply h_bind; [apply add_within|]. intros ok. destruct ok; cbn [negb].
  - eapply h_conseq; [apply (IH (att ++ [r]) (S ∪ {[IPAddress_text r]}))|done| |done].
    + intros l1 r1 l2 ->. rewrite <-app_assoc. eapply h_pre; [|exact (Hrb (r :: l1) r1 l2 eq_refl)].
      intros k. apply within_weaken. cbn [app]. rewrite prefixes_cons. set_solver.
    + intros a k [-> Hk]. rewrite <-app_assoc. split; [done|]. refine (within_weaken _ _ k _ Hk). rewrite prefixes_cons. set_solver.
  - eapply (h_bind _ _ _ Q); [|intros r0; by apply h_leave].
    eapply h_conseq; [apply (Hrb [] r l eq_refl)| |done|by intros ? ? []].
    intros k. apply within_weaken. cbn [app]. rewrite prefixes_cons. set_solver.
Qed.

Lemma attempt_remove_within rollback att l S (Q : Result → K → Prop) :
  (∀ l1 r l2, l = l1 ++ r :: l2 → hoare (within S) (rollback (att ++ l1 ++ [r])) Q (λ _ _, False)) →
  hoare (within S) (attempt_each removeRoute rollback att l) (λ att' k, att' = att ++ l ∧ within (S ∖ P l) k) Q.
Proof.
  revert att S. induction l as [|r l IH]; intros att S Hrb; cbn [attempt_each].
  { apply h_ret. intros k Hk. rewrite app_nil_r. split; [done|]. refine (within_weaken _ _ k _ Hk). rewrite prefixes_nil. set_solver. }
  eapply h_bind; [apply remove_within|]. intros ok. destruct ok; cbn [negb].
  - eapply h_conseq; [apply (IH (att ++ [r]) (S ∖ {[IPAddress_text r]}))|done| |done].
    + intros l1 r1 l2 ->. rewrite <-app_assoc. eapply h_pre; [|exact (Hrb (r :: l1) r1 l2 eq_refl)].
      intros k. apply within_weaken. set_solver.
    + intros a k [-> Hk]. rewrite <-app_assoc. split; [done|]. refine (within_weaken _ _ k _ Hk). rewrite prefixes_cons. set_solver.
  - eapply (h_bind _ _ _ Q); [|intros r0; by apply h_leave].
    eapply h_conseq; [apply (Hrb [] r l eq_refl)|done|done|by intros ? ? []].
Qed.
End bounds.

(** ** The transactions *)

Section transactions.
Context {QT : QtText} {QN : QtNet} {K : Type} {WH : WindowsHost K} (installed : K → gset IPAddress) {WR : WindowsRoutes K installed}.
Context (S0 : gset IPAddress) (rem ad : list text).

Notation P l := (prefixes l).
Notation within := (within installed).

(** The routes at the end, with the routes removed and added. *)
Definition settled (r : Result) (k : K) : Prop :=
  match r with
  | Updated => within ((S0 ∖ P rem) ∪ P ad) k
  | RolledBack => within (S0 ∪ P rem) k
  | Uncertain => within (S0 ∪ P rem ∪ P ad) k
  | _ => False
  end.

Lemma rollback_fenced_within firewall common before adds removals S :
  (∀ l T X, hoare (within T) (effect (firewall l)) (λ _, within T) X) →
  adds ⊆ ad → removals ⊆ rem → S ⊆ S0 ∪ P adds →
  hoare (within S) (rollback_fenced firewall addRoute removeRoute common before adds removals) settled (λ _ _, False).
Proof.
  intros Hf Ha%prefixes_mono Hr%prefixes_mono HS. unfold rollback_fenced.
  eapply h_bind; [apply Hf|]. intros []; cbn [negb].
  2:{ apply h_ret. intros k Hk. cbn [settled]; refine (within_weaken installed _ _ k _ Hk). set_solver. }
  eapply h_bind; [apply (restore_remove_within installed true)|]. intros b1.
  eapply (h_bind _ _ _ (λ b2 k, within ((if b2 : bool then S0 else S) ∪ P removals) k)).
  { intros k [Hk _]. pose proof (restore_add_within installed b1 removals _ (λ _ _, False) k Hk) as R.
    destruct (restore_each addRoute b1 removals k) as [[b2|] k2]; [|done]. destruct R as [R1 R2]. refine (within_weaken installed _ _ k2 _ R1).
    destruct b2; [rewrite (R2 eq_refl)|destruct b1]; set_solver. }
  intros []; cbn [negb].
  2:{ apply h_ret. intros k Hk. cbn [settled]; refine (within_weaken installed _ _ k _ Hk). set_solver. }
  eapply h_bind; [apply Hf|]. intros b. apply h_ret. intros k Hk. destruct b; (cbn [settled]; refine (within_weaken installed _ _ k _ Hk)); set_solver.
Qed.

Lemma rollback_routes_within adds removals S :
  adds ⊆ ad → removals ⊆ rem → S ⊆ S0 ∪ P adds →
  hoare (within S) (rollback_routes addRoute removeRoute adds removals) settled (λ _ _, False).
Proof.
  intros Ha%prefixes_mono Hr%prefixes_mono HS. unfold rollback_routes.
  eapply h_bind; [apply (restore_add_within installed true)|]. intros b1.
  eapply (h_bind _ _ _ (λ b2 k, within (if b2 : bool then S0 ∪ P removals else S ∪ P removals) k)).
  { intros k [Hk _]. pose proof (restore_remove_within installed b1 adds _ (λ _ _, False) k Hk) as R.
    destruct (restore_each removeRoute b1 adds k) as [[b2|] k2]; [|done]. destruct R as [R1 R2]. refine (within_weaken installed _ _ k2 _ R1).
    destruct b2; set_solver. }
  intros b. apply h_ret. intros k Hk. destruct b; (cbn [settled]; refine (within_weaken installed _ _ k _ Hk)); set_solver.
Qed.

Lemma prefix_sub {A} (l l1 l2 : list A) : l = l1 ++ l2 → l1 ⊆ l.
Proof. intros ->. by apply (prefix_list (l1 ++ l2) l1 l2). Qed.
End transactions.

Section replaced.
Context {QT : QtText} {QN : QtNet} {K : Type} {WH : WindowsHost K} (installed : K → gset IPAddress) {WR : WindowsRoutes K installed}.
Context (before after : list text).

Notation P l := (prefixes l).
Notation rem := (sorted_routes (route_set before ∖ route_set after)).
Notation ad := (sorted_routes (route_set after ∖ route_set before)).

Lemma replace_within firewall S0 :
  (∀ l T X, hoare (within installed T) (effect (firewall l)) (λ _, within installed T) X) →
  hoare (within installed S0) (replace_body firewall addRoute removeRoute before after)
    (settled installed S0 rem ad) (settled installed S0 rem ad).
Proof.
  intros Hf. unfold replace_body. cbv zeta.
  eapply (h_bind _ _ _ (λ _, within installed S0)).
  { apply h_leave_if; [|done]. intros [-> ->]%bool_decide_eq_true. apply h_ret. intros k Hk.
    cbn [settled]; refine (within_weaken installed _ _ k _ Hk). rewrite prefixes_nil. set_solver. }
  intros _. eapply h_bind; [apply Hf|]. intros fenced. cbv beta.
  eapply (h_bind _ _ _ (λ _, within installed S0)).
  { apply h_leave_if; [|done]. intros _. apply h_ret. intros k Hk. cbn [settled]; refine (within_weaken installed _ _ k _ Hk). set_solver. }
  intros _. eapply (h_bind _ _ _ (λ att k, att = rem ∧ within installed (S0 ∖ P rem) k)).
  { apply (attempt_remove_within installed _ [] rem S0). intros l1 r l2 E.
    apply (rollback_fenced_within installed); [exact Hf|apply list_subseteq_nil| |set_solver].
    cbn [app]. by apply (prefix_sub _ _ l2), split_snoc. }
  intros att. apply h_fact. intros ->.
  eapply (h_bind _ _ _ (λ att k, att = ad ∧ within installed ((S0 ∖ P rem) ∪ P ad) k)).
  { apply (attempt_add_within installed _ [] ad (S0 ∖ P rem)). intros l1 r l2 E.
    apply (rollback_fenced_within installed); [exact Hf| |done|set_solver]. cbn [app]. by apply (prefix_sub _ _ l2), split_snoc. }
  intros att. apply h_fact. intros ->. eapply h_bind; [apply Hf|]. intros []; cbn [negb].
  - by apply h_ret.
  - eapply h_conseq; [apply (rollback_fenced_within installed); [exact Hf|done|done|]|done|done|by intros ? ? []]. set_solver.
Qed.

Lemma replaceRoutes_within S0 :
  hoare (within installed S0) (replaceRoutes_body addRoute removeRoute before after)
    (settled installed S0 rem ad) (settled installed S0 rem ad).
Proof.
  unfold replaceRoutes_body. cbv zeta.
  eapply (h_bind _ _ _ (λ _, within installed S0)).
  { apply h_leave_if; [|done]. intros [-> ->]%bool_decide_eq_true. apply h_ret. intros k Hk.
    cbn [settled]; refine (within_weaken installed _ _ k _ Hk). rewrite prefixes_nil. set_solver. }
  intros _. eapply (h_bind _ _ _ (λ att k, att = ad ∧ within installed (S0 ∪ P ad) k)).
  { apply (attempt_add_within installed _ [] ad S0). intros l1 r l2 E.
    apply (rollback_routes_within installed); [|apply list_subseteq_nil|set_solver]. cbn [app]. by apply (prefix_sub _ _ l2), split_snoc. }
  intros att. apply h_fact. intros ->. eapply (h_bind _ _ _ (λ _, within installed ((S0 ∪ P ad) ∖ P rem))).
  { eapply h_conseq; [apply (attempt_remove_within installed _ [] rem (S0 ∪ P ad))|done|by intros a k [_ ?]|done]. intros l1 r l2 E.
    apply (rollback_routes_within installed); [done| |set_solver]. cbn [app]. by apply (prefix_sub _ _ l2), split_snoc. }
  intros _. apply h_ret. intros k Hk. cbn [settled]; refine (within_weaken installed _ _ k _ Hk). set_solver.
Qed.
End replaced.

Lemma sorted_in l l' r : r ∈ sorted_routes (route_set l ∖ route_set l') ↔ r ∈ l ∧ r ∉ l'.
Proof. rewrite sorted_routes_elem, elem_of_difference. unfold route_set. by rewrite !elem_of_list_to_set. Qed.

(** In terms of the managed exclusions of two configurations. *)
Lemma settled_managed {QN : QtNet} {K} (installed : K → gset IPAddress) S0 c d r k :
  managed_change c d →
  settled installed S0 (sorted_routes (route_set (m_excludedAddresses c) ∖ route_set (m_excludedAddresses d)))
    (sorted_routes (route_set (m_excludedAddresses d) ∖ route_set (m_excludedAddresses c))) r k →
  settled installed S0 (m_managedExcludedAddresses c) (m_managedExcludedAddresses d) r k.
Proof.
  intros [Hr Ha Hd].
  set (rem := sorted_routes _). set (ad := sorted_routes _).
  assert (prefixes rem ⊆ prefixes (m_managedExcludedAddresses c)) as H1.
  { apply prefixes_mono. intros x Hx. apply sorted_in in Hx as [Hx1 Hx2]. auto. }
  assert (prefixes ad ⊆ prefixes (m_managedExcludedAddresses d)) as H2.
  { apply prefixes_mono. intros x Hx. apply sorted_in in Hx as [Hx1 Hx2]. auto. }
  clearbody ad. destruct r; cbn [settled]; [by intros []| | | |by intros []]; intros Hk; refine (within_weaken installed _ _ k _ Hk).
  2: by apply union_mono_l.
  2: by apply union_mono; [apply union_mono_l|].
  intros p [[Hp Hn]%elem_of_difference|Hp]%elem_of_union; apply elem_of_union; [|right; auto].
  destruct (decide (p ∈ prefixes (m_managedExcludedAddresses c))) as [Hc|Hc]; [|left; by apply elem_of_difference]. right.
  apply elem_of_prefixes in Hc as (x & -> & Hx). apply elem_of_prefixes. exists x. split; [done|].
  destruct (decide (x ∈ m_managedExcludedAddresses d)) as [|Hxd]; [done|]. destruct Hn. apply elem_of_prefixes. exists x.
  split; [done|]. apply sorted_in. by apply Hd.
Qed.

Lemma windows_policy_settles {QT : QtText} {QN : QtNet} {K : Type} {WH : WindowsHost K} (installed : K → gset IPAddress)
    {WR : WindowsRoutes K installed} (c d : InterfaceConfig) (k : K) :
  managed_change c d →
  let '(r, k') := windows_replaceExclusionPolicy c d k in
  match r with
  | Updated => installed k' ⊆ (installed k ∖ prefixes (m_managedExcludedAddresses c)) ∪ prefixes (m_managedExcludedAddresses d)
  | RolledBack => installed k' ⊆ installed k ∪ prefixes (m_managedExcludedAddresses c)
  | Uncertain => installed k' ⊆ installed k ∪ prefixes (m_managedExcludedAddresses c) ∪ prefixes (m_managedExcludedAddresses d)
  | _ => k' = k
  end.
Proof.
  intros Hc. unfold windows_replaceExclusionPolicy. destruct (_ || negb (Bool.eqb _ _)); [done|].
  destruct (negb (m_killSwitchEnabled c)); [|destruct (negb (has_firewall k)); [done|]].
  - pose proof (replaceRoutes_within installed (m_excludedAddresses c) (m_excludedAddresses d) (installed k)) as R.
    unfold replaceRoutes. destruct (returns _ k) as [r k'] eqn:E. eapply h_returns in E; [|exact R|by unfold within].
    apply settled_managed in E; [|done]. by destruct r.
  - pose proof (replace_within installed (m_excludedAddresses c) (m_excludedAddresses d)
      (λ exclusions, enablePeerTraffic (guarded c exclusions)) (installed k) ltac:(intros; apply firewall_within, WR)) as R.
    unfold replace. destruct (returns _ k) as [r k'] eqn:E. eapply h_returns in E; [|exact R|by unfold within].
    apply settled_managed in E; [|done]. by destruct r.
Qed.

(**  The Windows host replaces exclusions the way the daemon relies on.
    From any state of the routes, and whichever calls of the route monitor and
    the firewall fail, between configurations that differ in their managed
    exclusions only: a reported update leaves none of the old managed routes
    but those that are wanted again, a rolled-back one at most restores managed
    routes, an uncertain one leaves nothing but what was there and the managed
    routes of the two, and a refusal changes nothing. *)
Theorem windows_policy_owned {QT : QtText} {QN : QtNet} {K : Type} {WH : WindowsHost K} (installed : K → gset IPAddress)
    {WR : WindowsRoutes K installed} (c d : InterfaceConfig) (k : K) :
  managed_change c d →
  let '(r, k') := windows_replaceExclusionPolicy c d k in
  match r with
  | Updated => installed k' ⊆ (installed k ∖ prefixes (m_managedExcludedAddresses c)) ∪ prefixes (m_managedExcludedAddresses d)
  | RolledBack => installed k' ⊆ installed k ∪ prefixes (m_managedExcludedAddresses c)
  | Uncertain => installed k' ⊆ installed k ∪ prefixes (m_managedExcludedAddresses c) ∪ prefixes (m_managedExcludedAddresses d)
  | _ => k' = k
  end.
Proof. apply (windows_policy_settles installed). Qed.
