(* ===== verification/DaemonExamples.v ===== *)
(** * The privileged daemon on a small host

    A host whose exclusion operations fail when a list of faults says so, an
    added route being there all the same, and the witnesses of the theorems on
    it. *)

From stdpp Require Import gmap.
From S2P Require Import Prelude Text Json QtInterface QtModel RoutePolicy Command RouteState IpAddress InterfaceConfig ExclusionPolicy.
From S2P Require Import PrivilegedDaemon DaemonSafety.
#[local] Open Scope Z_scope.
#[local] Open Scope amnezia_scope.

Module DaemonExamples.
#[local] Existing Instances asciiText asciiNet.

(** The next operation fails when the first fault is [true]. *)
Record Toy := MkToy { t_routes : gset IPAddress; t_faults : list bool }.

Definition next_fault (t : Toy) : bool := match t_faults t with true :: _ => true | _ => false end.

Definition toy_add (p : IPAddress) (t : Toy) : bool * Toy :=
  (negb (next_fault t), MkToy ({[p]} ∪ t_routes t) (tail (t_faults t))).
Definition toy_delete (p : IPAddress) (t : Toy) : bool * Toy :=
  if next_fault t then (false, MkToy (t_routes t) (tail (t_faults t)))
  else (true, MkToy (t_routes t ∖ {[p]}) (tail (t_faults t))).

#[local] Instance toyWindows : WindowsHost Toy := {|
  has_routeMonitor _ := true; tunnel_isRunning _ := true; m_configuredPeers _ := {[lit "peer"]}; has_firewall _ := true;
  monitor_addExclusionRoute := toy_add; monitor_deleteExclusionRoute := toy_delete; enablePeerTraffic _ t := (true, t);
|}.

#[local] Instance toyRoutes : WindowsRoutes Toy t_routes.
Proof.
  split.
  - intros p k. by left.
  - intros p k. simpl. unfold toy_delete. destruct (next_fault k); [by right|by left].
  - done.
Qed.

#[local] Instance toyDaemon : DaemonHost Toy := {|
  interfaceExists t := (false, t); interfaceName := lit "amn0"; addInterface _ t := (true, t); deleteInterface t := (true, t);
  updatePeer _ t := (true, t); deletePeer _ t := (true, t); getPeerStatus t := ([MkPeerStatus (lit "peer") 7 0 0 false [] (jobj [])], t);
  updateRoutePrefix _ t := (true, t); deleteRoutePrefix _ t := (true, t); host_addExclusion := toy_add; host_deleteExclusion := toy_delete;
  replaceExclusionPolicy := windows_replaceExclusionPolicy; supportIPUtils := true; addInterfaceIPs _ t := (true, t);
  setMTUAndUp _ t := (true, t); updateResolvers _ _ t := (true, t); restoreResolvers t := (true, t); run_op _ _ t := (true, t);
  prepareActivation _ t := t; date_text _ := []; keys_order l := l;
|}.

#[local] Instance toyOrder : DaemonHostOrder Toy.
Proof. split. intros l. done. Qed.

#[local] Instance toyOwner : ExclusionOwner Toy t_routes.
Proof.
  split; [intros p w; exact (win_add p w)|intros p w; exact (win_delete p w)| |intros; reflexivity..].
  - intros c d w Hc. pose proof (windows_policy_settles t_routes c d w Hc) as L. cbn [replaceExclusionPolicy toyDaemon] in *.
    destruct (windows_replaceExclusionPolicy c d w) as [[] w']; try done; by subst.
Qed.

Definition sample (excluded managed : list text) (kill_switch : bool) : InterfaceConfig :=
  MkInterfaceConfig SingleHop (lit "key") (Some (lit "10.8.0.2")) None (lit "10.8.0.1") [] (lit "peer") (Some (lit "203.0.113.7")) [] None
    (lit "1.1.1.1") [] 51820 1420 [] [IPAddress_text (lit "0.0.0.0/0")] excluded managed true (lit "n1") [] [] kill_switch false [] [] [].

Definition managed1 : list text := [lit "8.8.8.0/24"].
Definition managed2 : list text := [lit "9.9.9.0/24"].
Definition local_route : text := lit "192.0.2.0/24".

(** Activation, an update that fails at its second call and cannot be undone,
    and a deactivation whose first deletion fails. *)
Definition requests : list Request :=
  [RActivate (sample (local_route :: managed1) managed1 false); RTimer; RReplace (lit "n1") managed1 managed2; RDeactivate false].

Definition start : Toy := MkToy ∅ [false; false; false; true; true; true; true].
Definition after_requests : DaemonState Toy := serve_all (MkDaemon [] ∅ false [] start) requests.



Lemma activation_outcome_witness :
  fst (activate (E := ()) (sample [local_route] [] true) after_requests) = Ok true
  ∧ connection SingleHop (dm_connections (snd (activate (E := ()) (sample [local_route] [] true) after_requests)))
    = Some (MkConnection (sample [local_route] [] true) None).
Proof.
  destruct (activation_outcome (sample [local_route] [] true) after_requests 3) as [_ H].
  assert (fst (activate (E := ()) (sample [local_route] [] true) after_requests) = Ok true) as E1 by (vm_compute; reflexivity).
  split; [exact E1|]. destruct (activate (E := ()) _ after_requests) as [r d]. simpl in E1. subst r. apply H.
Defined.

Definition config1 : InterfaceConfig := sample (local_route :: managed1) managed1 true.
Definition config2 : InterfaceConfig := sample (local_route :: managed2) managed2 true.
Definition both_there : Toy := MkToy {[IPAddress_text local_route; IPAddress_text (lit "8.8.8.0/24")]} [].

Lemma samples_change : managed_change config1 config2.
Proof.
  split; cbn [config1 config2 sample m_excludedAddresses m_managedExcludedAddresses]; intros r.
  - intros [->|Hr]%elem_of_cons Hn; [|done]. destruct Hn. constructor.
  - intros [->|Hr]%elem_of_cons Hn; [|done]. destruct Hn. constructor.
  - intros ->%list_elem_of_singleton _. split; [by right; left|].
    refine (bool_decide_eq_false_1 _ _). vm_compute. reflexivity.
Qed.

Lemma windows_policy_owned_witness :
  fst (windows_replaceExclusionPolicy config1 config2 both_there) = Updated
  ∧ IPAddress_text (lit "8.8.8.0/24") ∉ t_routes (snd (windows_replaceExclusionPolicy config1 config2 both_there)).
Proof.
  pose proof (windows_policy_owned t_routes config1 config2 both_there samples_change) as H.
  assert (fst (windows_replaceExclusionPolicy config1 config2 both_there) = Updated) as E1 by (vm_compute; reflexivity).
  split; [exact E1|]. destruct (windows_replaceExclusionPolicy config1 config2 both_there) as [r k]. simpl in E1. subst r.
  simpl. intros Hin. apply H in Hin. revert Hin. refine (bool_decide_eq_false_1 _ _). vm_compute. reflexivity.
Defined.

(** ** A host of the transaction alone *)

Record Routes := MkRoutes { x_routes : gset text; x_permits : gset text; x_faults : list bool }.

Definition x_step (l : gset text → gset text) (f : gset text → gset text) (k : Routes) : bool * Routes :=
  match x_faults k with
  | true :: rest => (false, MkRoutes (x_routes k) (x_permits k) rest)
  | other => (true, MkRoutes (l (x_routes k)) (f (x_permits k)) (tail other))
  end.

#[local] Instance plainHost : ExclusionHost Routes := {|
  ex_firewall l := x_step id (λ _, route_set l); ex_add r := x_step (λ s, {[r]} ∪ s) id; ex_remove r := x_step (λ s, s ∖ {[r]}) id;
  ex_routes := x_routes; ex_permits := x_permits;
|}.

#[local] Instance plainLaws : ExclusionLaws Routes.
Proof. split; intros l k; simpl; unfold x_step; destruct (x_faults k) as [|[] rest]; simpl; auto. Qed.

Definition old_list : list text := [lit "a"; lit "b"].
Definition new_list : list text := [lit "b"; lit "c"].

(** The third call, which adds the new route, fails; the old policy is back. *)
Definition faulty : Routes := MkRoutes (route_set old_list) (route_set old_list) [false; false; true].

Lemma exclusions_replaced_fenced_witness :
  fst (replace_noted old_list new_list faulty) = RolledBack
  ∧ ex_routes (fst (snd (replace_noted old_list new_list faulty))) = route_set old_list.
Proof.
  assert (route_set new_list ∩ ex_routes faulty ⊆ route_set old_list) as Hn.
  { refine (bool_decide_eq_true_1 _ _). vm_compute. reflexivity. }
  pose proof (exclusions_replaced_fenced old_list new_list faulty eq_refl (reflexivity _) Hn) as H.
  assert (fst (replace_noted old_list new_list faulty) = RolledBack) as E1 by (vm_compute; reflexivity).
  split; [exact E1|]. destruct (replace_noted old_list new_list faulty) as [r [k log]]. simpl in E1. subst r. apply H.
Defined.

(** ** A server switch *)

(** The exclusion of a network stays after a switch to a configuration without
    it: it is looked up as an address. *)
Example switched_network_stays :
  let d := serve_all (MkDaemon [] ∅ false [] (MkToy ∅ [])) [RActivate (sample managed1 managed1 true); RActivate (sample [] [] true)] in
  (cs_config <$> connection SingleHop (dm_connections d)) = Some (sample [] [] true)
  ∧ IPAddress_text (lit "8.8.8.0/24") ∈ t_routes (dm_outer d).
Proof. split; [vm_compute; reflexivity|]. refine (bool_decide_eq_true_1 _ _). vm_compute. reflexivity. Qed.

(** The exclusion of an address goes with the old configuration. *)
Example switched_address_goes :
  let d := serve_all (MkDaemon [] ∅ false [] (MkToy ∅ [])) [RActivate (sample [lit "8.8.8.8"] [] true); RActivate (sample [] [] true)] in
  IPAddress_text (lit "8.8.8.8") ∉ t_routes (dm_outer d).
Proof. refine (bool_decide_eq_false_1 _ _). vm_compute. reflexivity. Qed.

(** ** A line in the middle of a value *)

(** A resolver with a line break becomes a line of its own in the file. *)
Example wgconf_line_injected :
  let c := sample [] [] true in
  let evil := MkInterfaceConfig SingleHop (m_privateKey c) (m_deviceIpv4Address c) None (m_serverIpv4Gateway c) [] (m_serverPublicKey c)
    (m_serverIpv4AddrIn c) [] None (lit "1.1.1.1" ++ [10] ++ lit "PostUp = calc") [] 51820 1420 [] [] [] [] true [] [] [] true false [] [] [] in
  lit "PostUp = calc" ∈ split_char 10 (toWgConf [] evil).
Proof. refine (bool_decide_eq_true_1 _ _). vm_compute. reflexivity. Qed.
End DaemonExamples.
