(* ===== verification/LaunchPolicy.v ===== *)
(** * What a privileged process may be started with

    Model of the validators of ipc/ipc.h: the arguments of a privileged
    process, the directives of an OpenVPN configuration, the policy put in
    front of it, and the frames of the daemon's socket.

    A validation that fails is an [Err] with its message. *)

From S2P Require Import Prelude Text QtInterface JsonText Regex.
#[local] Open Scope Z_scope.
#[local] Open Scope amnezia_scope.

Definition PrivilegedIpcProtocolVersion : Z := 2.
Definition MaximumDaemonFrameSize : Z := 1024 * 1024.

Inductive PermittedProcess := Invalid | OpenVPN | Wireguard | Tun2Socks | CertUtil | PermittedProcessCount.

#[export] Instance PermittedProcess_eq_dec : EqDecision PermittedProcess.
Proof. solve_decision. Defined.

(** A [QUrl] read in strict mode, and a [QFileInfo]. *)
Record UrlParts := MkUrl { u_host : text; u_port : Z; u_path : text; u_hasQuery : bool; u_hasFragment : bool }.
Record FileInfo := MkFileInfo { fi_absolute : bool; fi_exists : bool; fi_isFile : bool; fi_isSymLink : bool; fi_size : Z }.

Class IpcPlatform := {
  same_case : text → text → bool;       (* QString::compare(_, Qt::CaseInsensitive) == 0 *)
  clean_absolute : text → text;         (* QDir::cleanPath(QFileInfo(_).absoluteFilePath()) *)
  same_script : text → text → bool;     (* == of two paths, without regard to case on Windows *)
  regex_dot : Z → bool;                 (* what [.] matches *)
  url_parse : text → option UrlParts;   (* QUrl(_, QUrl::StrictMode), None when invalid *)
}.

(** A path compares with itself. *)
Class IpcPlatformLaws `(P : IpcPlatform) : Prop := {
  same_script_refl p : same_script p p = true;
}.

Definition hasUnsafeArgumentCharacters (argument : text) : bool := existsb (λ c, (c <? 32) || (c =? 127)) argument.

Definition isBoundedRegularFile (file : FileInfo) (maximumSize : Z) : bool :=
  fi_absolute file && fi_exists file && fi_isFile file && negb (fi_isSymLink file)
  && (0 <=? fi_size file) && (fi_size file <=? maximumSize).

(** ** The policy in front of a configuration *)

Definition pull_filter (action pattern : string) : text := lit "pull-filter " ++ lit action ++ [32; 34] ++ lit pattern ++ [34].

Definition openVpnConfigSecurityPolicyPrefix : text :=
  pull_filter "reject" "setenv " ++ [10] ++ pull_filter "accept" "setenv-safe" ++ [10] ++ pull_filter "reject" "setenv" ++ [10].

Definition hardenOpenVpnConfigContent (content : text) : text :=
  if starts_with openVpnConfigSecurityPolicyPrefix content then content else openVpnConfigSecurityPolicyPrefix ++ content.

(** ** Directives *)

Definition dataBlocks : list text := map lit
  ["auth-user-pass"; "ca"; "cert"; "dh"; "extra-certs"; "key"; "pkcs12"; "secret"; "tls-auth"; "tls-crypt"; "tls-crypt-v2"]%string.

Definition forbiddenDirectives : list text := map lit
  ["askpass"; "auth-gen-token-secret"; "auth-gen-token"; "auth-user-pass-optional"; "auth-user-pass-verify"; "cd"; "bcast-buffers";
   "capath"; "ccd-exclusive"; "chroot"; "client-connect"; "client-cert-not-required"; "client-crresponse"; "client-disconnect";
   "client-config-dir"; "client-to-client"; "connect-freq"; "connect-freq-initial"; "config"; "cryptoapicert"; "daemon"; "dns-updown";
   "down"; "duplicate-cn"; "engine"; "group"; "genkey"; "hash-size"; "http-proxy"; "http-proxy-user-pass"; "ipchange";
   "ifconfig-ipv6-pool"; "ifconfig-ipv6-push"; "ifconfig-pool"; "ifconfig-pool-persist"; "ifconfig-push"; "ifconfig-push-constraint";
   "iproute"; "learn-address"; "log"; "log-append"; "management"; "management-client-auth"; "management-external-cert";
   "management-external-key"; "max-clients"; "max-routes-per-client"; "mode"; "nice"; "opt-verify"; "override-username"; "plugin";
   "pkcs11-providers"; "providers"; "port-share"; "push"; "push-continuation"; "push-remove"; "push-reset"; "replay-persist";
   "route-pre-down"; "route-up"; "script-security"; "server"; "server-bridge"; "server-ipv6"; "setcon"; "setenv"; "socks-proxy";
   "status"; "tls-crypt-v2-verify"; "tls-export-cert"; "tls-server"; "tls-verify"; "tmp-dir"; "up"; "user"; "username-as-common-name";
   "verify-client-cert"; "writepid"]%string.

Definition externalFileDirectives : list text := map lit
  ["auth-user-pass"; "ca"; "cert"; "crl-verify"; "dh"; "extra-certs"; "key"; "pkcs12"; "secret"; "tls-auth"; "tls-crypt";
   "tls-crypt-v2"]%string.

(** [[A-Za-z0-9_-]]. *)
Definition name_char (c : Z) : bool :=
  ((65 <=? c) && (c <=? 90)) || ((97 <=? c) && (c <=? 122)) || is_digit c || (c =? 95) || (c =? 45).

Section directives.
Context {QT : QtText} {QJ : QtJsonText} {IP : IpcPlatform}.

(** The three patterns; [one] and [two] mark the group that is captured.  A line
    has no line break, so that the anchors are those of the whole text. *)
Definition directivePattern (one two : regex → regex) : regex :=
  cats [LineStart; Star blank; Opt (word (lit "--")); one (Plus (Class name_char));
        Opt (Cat (Plus blank) (two (Star (Class regex_dot)))); LineEnd].
Definition openTagPattern : regex :=
  cats [LineStart; Star blank; word [60]; Capture (Plus (Class name_char)); word [62]; Star blank; LineEnd].
Definition closeTagPattern : regex :=
  cats [LineStart; Star blank; word [60; 47]; Capture (Plus (Class name_char)); word [62]; Star blank; LineEnd].

(** [match], anchored at the start, and its group. *)
Definition match_line (r : regex) (line : text) : option text :=
  c ← rmatch r (Cursor [] line None) Some; Some (default [] (captured c)).

(** [captured(1)] and [captured(2)] of a directive. *)
Definition directive_of (line : text) : option (text * text) :=
  name ← match_line (directivePattern Capture id) line; value ← match_line (directivePattern id Capture) line; Some (name, value).

Definition openTag (line : text) : option text := match_line openTagPattern line.
Definition closeTag (line : text) : option text := match_line closeTagPattern line.

(** ** The scan of a configuration *)

Record Scan := MkScan { activeDataBlock : text; logicalLine : text; hasClientSemantics : bool }.

Fixpoint count_leading (p : Z → bool) (s : text) : nat :=
  match s with c :: s' => if p c then S (count_leading p s') else O | [] => O end.

Definition trailingBackslashes (line : text) : nat := count_leading (Z.eqb 92) (reverse line).

Definition chop (n : nat) (s : text) : text := take (length s - n) s.

(** [if (line.endsWith('\r')) line.chop(1);] *)
Definition chop_return (line : text) : text := if ends_with [13] line then chop 1 line else line.

(** A script between quotes of one kind. *)
Definition quoted_by (q : Z) (s : text) : bool := starts_with [q] s && ends_with [q] s.
Definition unquote (s : text) : text :=
  if (2 <=? tsize s) && (quoted_by 34 s || quoted_by 39 s) then take (length s - 2) (drop 1 s) else s.

Definition scriptMatches (value trustedResolverScript : text) : bool :=
  same_script (clean_absolute (unquote value)) (clean_absolute trustedResolverScript).

Definition is_client (directive value : text) : bool :=
  (text_eqb directive (lit "client") || text_eqb directive (lit "tls-client")) && is_empty value.

(** A line that is a directive; whether it makes the configuration a client's. *)
Definition check_directive (trustedResolverScript line : text) : result text bool :=
  match directive_of line with
  | None => Err (lit "OpenVPN configuration contains an invalid directive")
  | Some (name, rest) =>
      let directive := q_toLower name in
      let value := trimmed rest in
      let client := is_client directive value in
      if text_eqb directive (lit "script-security") && text_eqb value (lit "2") && negb (is_empty trustedResolverScript) then Ok client
      else if (text_eqb directive (lit "up") || text_eqb directive (lit "down")) && negb (is_empty trustedResolverScript)
              && scriptMatches value trustedResolverScript then Ok client
      else if bool_decide (directive ∈ forbiddenDirectives)
              || (bool_decide (directive ∈ externalFileDirectives) && negb (same_case value (lit "[inline]")))
      then Err (lit "OpenVPN configuration contains a privileged directive: " ++ directive)
      else Ok client
  end.

(** A line with its continuations, without the blanks around it. *)
Definition scan_logical (trustedResolverScript line : text) (s : Scan) : result text Scan :=
  if is_empty line || starts_with [35] line || starts_with [59] line then Ok s
  else if negb (is_empty (activeDataBlock s)) then
    match closeTag line with
    | Some tag => if same_case tag (activeDataBlock s) then Ok (MkScan [] (logicalLine s) (hasClientSemantics s)) else Ok s
    | None => Ok s
    end
  else
    match openTag line with
    | Some tag =>
        let block := q_toLower tag in
        if bool_decide (block ∈ dataBlocks) then Ok (MkScan block (logicalLine s) (hasClientSemantics s)) else Ok s
    | None =>
        if match closeTag line with Some tag => same_case tag (lit "connection") | None => false end then Ok s
        else
          match check_directive trustedResolverScript line with
          | Err e => Err e
          | Ok client => Ok (MkScan (activeDataBlock s) (logicalLine s) (client || hasClientSemantics s))
          end
    end.

Definition scan_physical (trustedResolverScript : text) (s : Scan) (physicalLine : text) : result text Scan :=
  let line := logicalLine s ++ chop_return physicalLine in
  if Nat.odd (trailingBackslashes line) then Ok (MkScan (activeDataBlock s) (chop 1 line) (hasClientSemantics s))
  else scan_logical trustedResolverScript (trimmed line) (MkScan (activeDataBlock s) [] (hasClientSemantics s)).

Fixpoint scan_lines (trustedResolverScript : text) (s : Scan) (lines : list text) : result text Scan :=
  match lines with
  | [] => Ok s
  | line :: lines' =>
      match scan_physical trustedResolverScript s line with
      | Ok s' => scan_lines trustedResolverScript s' lines'
      | Err e => Err e
      end
  end.

Definition validateOpenVpnConfigContent (content trustedResolverScript : text) : result text () :=
  if is_empty content || (tsize content >? 4 * 1024 * 1024) || contains_char 0 content
  then Err (lit "OpenVPN configuration has an invalid size or encoding")
  else
    let text := from_utf8 content in
    if contains_char 65533 text then Err (lit "OpenVPN configuration is not valid UTF-8")
    else
      match scan_lines trustedResolverScript (MkScan [] [] false) (split_char 10 text) with
      | Err e => Err e
      | Ok s =>
          if negb (is_empty (logicalLine s)) || negb (is_empty (activeDataBlock s))
          then Err (lit "OpenVPN configuration contains an incomplete block")
          else if negb (hasClientSemantics s) then Err (lit "OpenVPN configuration must explicitly use client mode")
          else Ok ()
      end.

(** ** Arguments *)

Definition devicePattern : regex :=
  cats [LineStart; word (lit "tun://"); upto 63 (Class (λ c, name_char c || (c =? 46) || (c =? 58))); LineEnd].

(** The sizes, in the order of the arguments. *)
Fixpoint arguments_safe (totalLength : Z) (arguments : list text) : bool :=
  match arguments with
  | [] => true
  | argument :: rest =>
      let total := totalLength + tsize argument in
      if (tsize argument >? 8192) || (total >? 32768) || hasUnsafeArgumentCharacters argument then false
      else arguments_safe total rest
  end.

Definition openVpn_arguments (files : text → FileInfo) (arguments : list text) : result text () :=
  match arguments with
  | [a0; a1; a2; a3; a4; a5] =>
      if negb (text_eqb a0 (lit "--config")) || negb (text_eqb a2 (lit "--management")) || negb (text_eqb a3 (lit "127.0.0.1"))
         || negb (text_eqb a5 (lit "--management-client")) || negb (isBoundedRegularFile (files a1) (4 * 1024 * 1024))
      then Err (lit "Invalid OpenVPN launch specification")
      else
        match q_toInt a4 with
        | Some port =>
            if (port <? 1) || (port >? 65535) || negb (text_eqb a4 (number port)) then Err (lit "Invalid OpenVPN management port") else Ok ()
        | None => Err (lit "Invalid OpenVPN management port")
        end
  | _ => Err (lit "Invalid OpenVPN launch specification")
  end.

(** [lastIndexOf]: the part after the last occurrence, and its position. *)
Fixpoint last_index (c : Z) (s : text) : option nat :=
  match s with
  | [] => None
  | d :: s' => match last_index c s' with Some n => Some (S n) | None => if d =? c then Some O else None end
  end.

(** [startsWith(_, Qt::CaseInsensitive)]. *)
Definition starts_with_ci (p s : text) : bool := (length p <=? length s)%nat && same_case (take (length p) s) p.

Definition loopback_endpoint (url : option UrlParts) : bool :=
  match url with
  | Some u => (text_eqb (u_host u) (lit "127.0.0.1") || text_eqb (u_host u) (lit "::1"))
              && (1 <=? u_port u) && (u_port u <=? 65535) && is_empty (u_path u) && negb (u_hasQuery u) && negb (u_hasFragment u)
  | None => false
  end.

Definition tun2socks_arguments (arguments : list text) : result text () :=
  match arguments with
  | [a0; a1; a2; proxy] =>
      if negb (text_eqb a0 (lit "-device")) || negb (text_eqb a2 (lit "-proxy")) then Err (lit "Invalid tun2socks launch specification")
      else if negb (bool_decide (is_Some (match_line devicePattern a1))) then Err (lit "Invalid tun2socks device")
      else
        match last_index 64 proxy with
        | Some separator =>
            if negb (starts_with_ci (lit "socks5://") proxy) || (Z.of_nat separator <=? tsize (lit "socks5://"))
            then Err (lit "Invalid tun2socks proxy")
            else if loopback_endpoint (url_parse (lit "socks5://" ++ drop (S separator) proxy)) then Ok ()
            else Err (lit "Tun2socks proxy must use a loopback endpoint")
        | None => Err (lit "Invalid tun2socks proxy")
        end
  | _ => Err (lit "Invalid tun2socks launch specification")
  end.

Definition certUtil_arguments (files : text → FileInfo) (arguments : list text) : result text () :=
  match arguments with
  | [a0; a1; a2; a3; a4; a5] =>
      if negb (text_eqb a0 (lit "-f")) || negb (text_eqb a1 (lit "-importpfx")) || negb (text_eqb a2 (lit "-p"))
         || negb (text_eqb a5 (lit "NoExport")) || negb (isBoundedRegularFile (files a4) (16 * 1024 * 1024))
      then Err (lit "Invalid certificate import specification") else Ok ()
  | _ => Err (lit "Invalid certificate import specification")
  end.

Definition validateProcessArguments (files : text → FileInfo) (process : PermittedProcess) (arguments : list text) : result text (list text) :=
  if (8 <? length arguments)%nat then Err (lit "Too many privileged process arguments")
  else if negb (arguments_safe 0 arguments) then Err (lit "Unsafe privileged process argument")
  else
    match (match process with
           | OpenVPN => openVpn_arguments files arguments
           | Tun2Socks => tun2socks_arguments arguments
           | CertUtil => certUtil_arguments files arguments
           | _ => Err (lit "Privileged process is not supported")
           end) with
    | Ok _ => Ok arguments
    | Err e => Err e
    end.

Definition sanitizeArguments (files : text → FileInfo) (process : PermittedProcess) (arguments : list text) : list text :=
  match validateProcessArguments files process arguments with Ok a => a | Err _ => [] end.
End directives.

(** ** Frames *)

(** [enum class DaemonFrameState], with the frame and what is left. *)
Inductive DaemonFrameState := NeedMoreData | FrameReady (frame rest : text) | TooLarge.

Fixpoint index_of (c : Z) (s : text) : option nat :=
  match s with [] => None | d :: s' => if d =? c then Some O else S <$> index_of c s' end.

Definition takeDaemonFrame (buffer : text) : DaemonFrameState :=
  match index_of 10 buffer with
  | None => if tsize buffer >? MaximumDaemonFrameSize then TooLarge else NeedMoreData
  | Some delimiter =>
      if Z.of_nat delimiter >? MaximumDaemonFrameSize then TooLarge else FrameReady (take delimiter buffer) (drop (S delimiter) buffer)
  end.
