(* ===== verification/DirectiveSyntax.v ===== *)
(** * What the validator of OpenVPN configurations accepts

    The scan of ipc/ipc.h is one loop with three pieces of state.  Here it is
    taken apart into three passes, the joining of continued lines, the removal of
    comments and inline data, and a check of each directive, and shown to accept
    exactly what the passes do.  Then the lines are related to their text: which name and value the pattern of ipc/ipc.h reads from a line of an
    OpenVPN configuration, that no spelling of a privileged directive is
    accepted, and that the policy put in front of an accepted configuration
    leaves it accepted. *)

From S2P Require Import Prelude Text QtInterface JsonText Regex LaunchPolicy.
#[local] Open Scope Z_scope.
#[local] Open Scope amnezia_scope.

Section passes.
Context {QT : QtText} {QJ : QtJsonText} {IP : IpcPlatform}.

(** ** The passes *)

(** The logical lines, and an unfinished one at the end. *)
Fixpoint join_lines (acc : text) (physical : list text) : list text * text :=
  match physical with
  | [] => ([], acc)
  | p :: physical' =>
      let line := acc ++ chop_return p in
      if Nat.odd (trailingBackslashes line) then join_lines (chop 1 line) physical'
      else let '(lines, rest) := join_lines [] physical' in (line :: lines, rest)
  end.

Definition is_comment (line : text) : bool := is_empty line || starts_with [35] line || starts_with [59] line.

Definition closes (block line : text) : bool := match closeTag line with Some tag => same_case tag block | None => false end.

(** The blocks whose content OpenVPN takes as data: certificates, keys and
    credentials. *)
Definition inline_blocks : list text := map lit
  ["auth-user-pass"; "ca"; "cert"; "dh"; "extra-certs"; "key"; "pkcs12"; "secret"; "tls-auth"; "tls-crypt"; "tls-crypt-v2"]%string.

Lemma data_blocks b : b ∈ dataBlocks ↔ b ∈ inline_blocks.
Proof. reflexivity. Qed.

(** The directives among the lines, and the data block that is open at the end. *)
Fixpoint directive_lines (active : text) (lines : list text) : list text * text :=
  match lines with
  | [] => ([], active)
  | line :: lines' =>
      if is_comment line then directive_lines active lines'
      else if negb (is_empty active) then directive_lines (if closes active line then [] else active) lines'
      else match openTag line with
           | Some tag => directive_lines (if bool_decide (q_toLower tag ∈ inline_blocks) then q_toLower tag else []) lines'
           | None =>
               if closes (lit "connection") line then directive_lines [] lines'
               else let '(directives, block) := directive_lines [] lines' in (line :: directives, block)
           end
  end.

(** A directive that needs no privilege. *)
Definition harmless (directive value : text) : Prop :=
  directive ∉ forbiddenDirectives ∧ (directive ∈ externalFileDirectives → same_case value (lit "[inline]") = true).

(** A directive of the resolver script that comes with the service. *)
Definition of_trusted_script (trusted directive value : text) : Prop :=
  trusted ≠ [] ∧ (directive = lit "script-security" ∧ value = lit "2"
                  ∨ (directive = lit "up" ∨ directive = lit "down") ∧ scriptMatches value trusted = true).

Definition allowed (trusted line : text) : Prop :=
  ∃ name rest, directive_of line = Some (name, rest) ∧
    (harmless (q_toLower name) (trimmed rest) ∨ of_trusted_script trusted (q_toLower name) (trimmed rest)).

Definition client_line (line : text) : bool :=
  match directive_of line with Some (name, rest) => is_client (q_toLower name) (trimmed rest) | None => false end.

(** ** The loop *)

Lemma check_directive_ok trusted line b :
  check_directive trusted line = Ok b ↔ allowed trusted line ∧ b = client_line line.
Proof.
  unfold check_directive, allowed, client_line. destruct (directive_of line) as [[name rest]|]; [|split; [done|naive_solver]].
  set (d := q_toLower name). set (v := trimmed rest).
  assert ((∃ n r, Some (name, rest) = Some (n, r) ∧ (harmless (q_toLower n) (trimmed r) ∨ of_trusted_script trusted (q_toLower n) (trimmed r)))
          ↔ harmless d v ∨ of_trusted_script trusted d v) as ->.
  { split; [intros (n & r & [= <- <-] & ?); done|eauto]. }
  destruct (text_eqb d (lit "script-security") && text_eqb v (lit "2") && negb (is_empty trusted)) eqn:E1.
  { rewrite !andb_true_iff, negb_true_iff, !text_eqb_eq, is_empty_false in E1. destruct E1 as [[-> ->] E1].
    split; [intros [= <-]; split; [right; split; [done|by left]|done]|by intros [_ ->]]. }
  destruct ((text_eqb d (lit "up") || text_eqb d (lit "down")) && negb (is_empty trusted) && scriptMatches v trusted) eqn:E2.
  { rewrite !andb_true_iff, negb_true_iff, orb_true_iff, !text_eqb_eq, is_empty_false in E2. destruct E2 as [[Hd E2] Hm].
    split; [intros [= <-]; split; [right; split; [done|by right]|done]|by intros [_ ->]]. }
  assert (¬ of_trusted_script trusted d v) as Hn.
  { intros [Ht [[Hd Hv]|[Hd Hm]]].
    - by rewrite (proj2 (text_eqb_eq _ _) Hd), (proj2 (text_eqb_eq _ _) Hv), (proj2 (is_empty_false _) Ht) in E1.
    - assert (text_eqb d (lit "up") || text_eqb d (lit "down") = true) as Hu by (rewrite orb_true_iff, !text_eqb_eq; done).
      by rewrite Hu, Hm, (proj2 (is_empty_false _) Ht) in E2. }
  destruct (bool_decide (d ∈ forbiddenDirectives)) eqn:E3; cbn [orb].
  { apply bool_decide_eq_true in E3. split; [done|]. intros [[[Hh _]|?] _]; done. }
  apply bool_decide_eq_false in E3.
  destruct (bool_decide (d ∈ externalFileDirectives)) eqn:E4; cbn [andb].
  - apply bool_decide_eq_true in E4. destruct (same_case v (lit "[inline]")) eqn:E5; cbn [negb].
    + split; [intros [= <-]; split; [by left|done]|by intros [_ ->]].
    + split; [done|]. intros [[[_ Hh]|?] _]; [|done]. by rewrite Hh in E5.
  - apply bool_decide_eq_false in E4. split; [intros [= <-]; split; [by left|done]|by intros [_ ->]].
Qed.

(** What is known of the loop from a state. *)
Definition scanned (trusted active acc : text) (client : bool) (physical : list text) (s : Scan) : Prop :=
  let '(lines, rest) := join_lines acc physical in
  let '(directives, block) := directive_lines active (map trimmed lines) in
  Forall (allowed trusted) directives ∧ s = MkScan block rest (existsb client_line directives || client).

Lemma scan_lines_ok trusted active acc client physical s :
  scan_lines trusted (MkScan active acc client) physical = Ok s ↔ scanned trusted active acc client physical s.
Proof.
  unfold scanned. revert active acc client. induction physical as [|p physical IH]; intros active acc client; cbn [scan_lines join_lines map].
  { cbn. split; [intros [= <-]; by split|by intros [_ ->]]. }
  unfold scan_physical. cbn [logicalLine activeDataBlock hasClientSemantics].
  destruct (Nat.odd _); [apply IH|]. set (line := acc ++ chop_return p).
  assert (∀ a c, scan_lines trusted (MkScan a [] c) physical = Ok s ↔
    let '(directives, block) := directive_lines a (map trimmed (join_lines [] physical).1) in
    Forall (allowed trusted) directives ∧ s = MkScan block (join_lines [] physical).2 (existsb client_line directives || c)) as IH'.
  { intros a c. rewrite IH. by destruct (join_lines [] physical). }
  clear IH. destruct (join_lines [] physical) as [lines rest]. cbn [map fst snd directive_lines] in *.
  unfold scan_logical. fold (is_comment (trimmed line)). cbn [activeDataBlock logicalLine hasClientSemantics].
  destruct (is_comment (trimmed line)); [apply IH'|]. destruct (negb (is_empty active)) eqn:Ea.
  { unfold closes. destruct (closeTag _); [destruct (same_case _ _)|]; apply IH'. }
  apply negb_false_iff, is_empty_true in Ea. subst active.
  destruct (openTag _) as [tag|]; [rewrite (bool_decide_ext _ _ (data_blocks (q_toLower tag))); destruct (bool_decide _); apply IH'|].
  fold (closes (lit "connection") (trimmed line)). destruct (closes _ _); [apply IH'|].
  destruct (directive_lines [] (map trimmed lines)) as [ds block] eqn:Ed.
  destruct (check_directive trusted (trimmed line)) as [b|e] eqn:Ec.
  - apply check_directive_ok in Ec as [Hal ->]. rewrite IH', Ed. cbn [existsb].
    rewrite Forall_cons, (orb_comm (client_line _) (existsb _ _)), orb_assoc. naive_solver.
  - split; [done|]. intros [Hf _]. apply Forall_cons in Hf as [Ha _].
    assert (check_directive trusted (trimmed line) = Ok (client_line (trimmed line))) by by apply check_directive_ok. congruence.
Qed.
End passes.

Lemma validate_passes {QT : QtText} {QJ : QtJsonText} {IP : IpcPlatform} (content trusted : text) :
  validateOpenVpnConfigContent content trusted = Ok () ↔
  content ≠ [] ∧ tsize content <= 4 * 1024 * 1024 ∧ 0 ∉ content ∧ 65533 ∉ from_utf8 content ∧
  let '(lines, rest) := join_lines [] (split_char 10 (from_utf8 content)) in
  let '(directives, block) := directive_lines [] (map trimmed lines) in
  rest = [] ∧ block = [] ∧ Forall (allowed trusted) directives ∧ Exists (λ line, client_line line = true) directives.
Proof.
  unfold validateOpenVpnConfigContent. destruct (is_empty content) eqn:E1; [apply is_empty_true in E1; naive_solver|].
  destruct (tsize content >? 4 * 1024 * 1024) eqn:E2; cbn [orb].
  { split; [done|]. intros (_ & H & _). rewrite Z.gtb_ltb, Z.ltb_lt in E2. lia. }
  destruct (contains_char 0 content) eqn:E3; [apply contains_char_true in E3; naive_solver|].
  destruct (contains_char 65533 _) eqn:E4; [apply contains_char_true in E4; naive_solver|].
  apply is_empty_false in E1. rewrite Z.gtb_ltb, Z.ltb_ge in E2. apply contains_char_false in E3, E4.
  pose proof (scan_lines_ok trusted [] [] false (split_char 10 (from_utf8 content))) as L. unfold scanned in L.
  destruct (join_lines [] _) as [lines rest]. destruct (directive_lines [] _) as [ds block].
  destruct (scan_lines _ _ _) as [s|e].
  - destruct (proj1 (L s) eq_refl) as [Hf ->]. cbn [logicalLine activeDataBlock hasClientSemantics]. rewrite orb_false_r.
    destruct (is_empty rest) eqn:E5; [apply is_empty_true in E5|apply is_empty_false in E5; naive_solver].
    destruct (is_empty block) eqn:E6; [apply is_empty_true in E6|apply is_empty_false in E6; naive_solver]. cbn [negb orb].
    destruct (existsb client_line ds) eqn:E7; cbn [negb].
    + split; [|done]. intros _. split_and!; try done. apply Exists_exists. apply existsb_exists in E7 as (x & Hx & Hc).
      exists x. split; [by apply list_elem_of_In|done].
    + split; [done|]. intros (_ & _ & _ & _ & _ & _ & _ & Hx). apply Exists_exists in Hx as (x & Hx & Hc).
      assert (existsb client_line ds = true); [|congruence]. apply existsb_exists. exists x. split; [by apply list_elem_of_In|done].
  - split; [done|]. intros (_ & _ & _ & _ & _ & _ & Hf & _). by destruct (L (MkScan block rest (existsb client_line ds || false))) as [_ ?%(λ f, f (conj Hf eq_refl))].
Qed.

(**  An OpenVPN configuration is accepted exactly when it is not empty, not
    larger than four megabytes, free of null bytes and valid UTF-8, no
    continued line and no block of inline data is left open at its end, every
    directive that is left after joining the continued lines and removing
    comments, inline data and connection tags is harmless or is one of the
    directives for the trusted resolver script, and one of them selects the
    client mode. *)
Theorem openvpn_config_accepted_iff {QT : QtText} {QJ : QtJsonText} {IP : IpcPlatform} (content trusted : text) :
  validateOpenVpnConfigContent content trusted = Ok () ↔
  content ≠ [] ∧ tsize content <= 4 * 1024 * 1024 ∧ 0 ∉ content ∧ 65533 ∉ from_utf8 content ∧
  let '(lines, rest) := join_lines [] (split_char 10 (from_utf8 content)) in
  let '(directives, block) := directive_lines [] (map trimmed lines) in
  rest = [] ∧ block = [] ∧ Forall (allowed trusted) directives ∧ Exists (λ line, client_line line = true) directives.
Proof. apply validate_passes. Qed.

(** ** Greedy runs *)

Definition stops (p : Z → bool) (s : text) : Prop := match s with c :: _ => p c = false | [] => True end.

Lemma advance_cons p bf c s cap : p c = true → advance p (Cursor bf (c :: s) cap) = Some (Cursor (c :: bf) s cap).
Proof. intros Hc. unfold advance. cbn. by rewrite Hc. Qed.

Lemma advance_stop p bf s cap : stops p s → advance p (Cursor bf s cap) = None.
Proof. unfold advance. cbn. destruct s as [|c s]; [done|]. simpl. by intros ->. Qed.

Section runs.
Context {A : Type}.
Implicit Types (k : cursor → option A).

Lemma run_star p bf run rest cap k x :
  Forall (λ c, p c = true) run → stops p rest →
  k (Cursor (reverse run ++ bf) rest cap) = Some x → rmatch (Star (Class p)) (Cursor bf (run ++ rest) cap) k = Some x.
Proof.
  intros Hrun Hrest Hk. cbn [rmatch after].
  assert (length run ≤ length (run ++ rest))%nat as Hn by (rewrite length_app; lia). revert Hn.
  generalize (length (run ++ rest)) as n. intros n Hn. revert n bf Hn Hk.
  induction Hrun as [|c run Hc Hrun IH]; intros n bf Hn Hk; cbn [app] in *.
  - destruct n as [|n]; [exact Hk|]. rewrite advance_stop by done. exact Hk.
  - destruct n as [|n]; [simpl in Hn; lia|]. rewrite advance_cons by done. cbn [after].
    replace (_ <? _)%nat with true by (symmetry; apply Nat.ltb_lt; simpl; lia).
    rewrite (IH n (c :: bf)); [done|simpl in Hn; lia|]. rewrite <-Hk. f_equal. f_equal. by rewrite reverse_cons, <-app_assoc.
Qed.

Lemma run_plus p bf run rest cap k x :
  run ≠ [] → Forall (λ c, p c = true) run → stops p rest →
  k (Cursor (reverse run ++ bf) rest cap) = Some x → rmatch (Plus (Class p)) (Cursor bf (run ++ rest) cap) k = Some x.
Proof.
  destruct run as [|c run]; [done|]. intros _ [Hc Hrun]%Forall_cons Hrest Hk. unfold Plus.
  change (match advance p (Cursor bf ((c :: run) ++ rest) cap) with Some c' => rmatch (Star (Class p)) c' k | None => None end = Some x).
  cbn [app]. rewrite advance_cons by done. apply run_star; [done|done|].
  rewrite <-Hk. f_equal. f_equal. by rewrite reverse_cons, <-app_assoc.
Qed.

Lemma between_run bf run rest cap rest' cap' :
  between (Cursor bf (run ++ rest) cap) (Cursor (reverse run ++ bf) rest' cap') = run.
Proof.
  unfold between. cbn [before]. rewrite length_app, Nat.add_sub, take_app_length. apply reverse_involutive.
Qed.
End runs.

(** ** The name and the value of a line *)

Lemma name_not_blank c : name_char c = true → ascii_space c = false.
Proof. unfold name_char, ascii_space, is_digit. intros H. repeat (apply orb_true_iff in H as [H|H]); lia. Qed.

Lemma blank_not_name c : ascii_space c = true → name_char c = false.
Proof. intros H. destruct (name_char c) eqn:E; [|done]. apply name_not_blank in E. congruence. Qed.

(** A directive: dashes or not, its name, and a value after blanks or none. *)
Record spelled (line dashes name gap value : text) : Prop := {
  sp_line : line = dashes ++ name ++ gap ++ value;
  sp_dashes : dashes = [] ∨ dashes = [45; 45];
  sp_name : Forall (λ c, name_char c = true) name;
  sp_head : ∃ c rest, name = c :: rest ∧ c ≠ 45;
  sp_gap : Forall (λ c, ascii_space c = true) gap;
  sp_value : stops ascii_space value;
  sp_apart : gap = [] → value = [];
}.

Section spelled.
Context {QT : QtText} {QJ : QtJsonText} {IP : IpcPlatform}.

(** A mark that keeps the position. *)
Definition marks (one : regex → regex) (f : cursor → cursor → option text) : Prop :=
  ∀ r c (k : cursor → option cursor), rmatch (one r) c k = rmatch r c (λ c', k (Cursor (before c') (after c') (f c c'))).

Lemma marks_capture : marks Capture (λ c c', Some (between c c')).
Proof. done. Qed.

Lemma marks_id : marks id (λ c c', captured c').
Proof.
  intros r c k. unfold id. assert (∀ c', k (Cursor (before c') (after c') (captured c')) = k c') as Hk by (by intros []).
  assert (∀ r c, rmatch r c k = rmatch r c (λ c', k (Cursor (before c') (after c') (captured c')))) as Hext; [|apply Hext].
  intros r' c'. revert c'. assert (∀ (k1 k2 : cursor → option cursor), (∀ c, k1 c = k2 c) → ∀ c, rmatch r' c k1 = rmatch r' c k2) as He.
  2:{ intros c'. apply He. by intros []. }
  clear. induction r' as [|p|a IHa b IHb|a IHa b IHb|a IHa|a IHa| |]; intros k1 k2 Hk c; cbn [rmatch]; auto.
  - destruct (advance p c); auto.
  - by rewrite (IHa k1 k2 Hk), (IHb k1 k2 Hk).
  - generalize (length (after c)) as n. intros n. revert c. induction n as [|n IHn]; intros c; [apply Hk|].
    rewrite (IHa _ (λ c', if (length (after c') <? length (after c))%nat then
      (fix loop (n0 : nat) (c0 : cursor) {struct n0} : option cursor :=
         match n0 with
         | O => k2 c0
         | S n' => match rmatch a c0 (λ c'0, if (length (after c'0) <? length (after c0))%nat then loop n' c'0 else None) with
                   | Some x => Some x | None => k2 c0 end
         end) n c' else None)).
    + by rewrite Hk.
    + intros c'. destruct (_ <? _)%nat; [apply IHn|done].
  - by rewrite Hk.
  - by rewrite Hk.
Qed.

(** What the group is after the name, and at the end. *)
Definition after_name (f : cursor → cursor → option text) (dashes name tail : text) : option text :=
  f (Cursor (reverse dashes) (name ++ tail) None) (Cursor (reverse name ++ reverse dashes) tail None).

Definition at_end (g : cursor → cursor → option text) (bf gap value : text) (cap : option text) : option text :=
  match gap with
  | [] => cap
  | _ => g (Cursor (reverse gap ++ bf) value cap) (Cursor (reverse value ++ reverse gap ++ bf) [] cap)
  end.

Lemma match_tail two g bf gap value cap :
  marks two g → Forall (λ c, ascii_space c = true) gap → stops ascii_space value → (gap = [] → value = []) →
  Forall (λ c, regex_dot c = true) value →
  ∃ c, rmatch (cats [Opt (Cat (Plus blank) (two (Star (Class regex_dot)))); LineEnd]) (Cursor bf (gap ++ value) cap) Some = Some c
       ∧ captured c = at_end g bf gap value cap.
Proof.
  intros Hm Hg Hv Ha Hd. destruct gap as [|b gap].
  { rewrite Ha by done. by eexists. }
  exists (Cursor (reverse value ++ reverse (b :: gap) ++ bf) [] (at_end g bf (b :: gap) value cap)). split; [|done].
  cbn [cats foldr]. unfold Opt at 1.
  change (match rmatch (Plus blank) (Cursor bf ((b :: gap) ++ value) cap) (λ c', rmatch (two (Star (Class regex_dot))) c' (λ c2, rmatch (Cat LineEnd Eps) c2 Some)) with
          | Some x => Some x | None => rmatch Eps (Cursor bf ((b :: gap) ++ value) cap) (λ c2, rmatch (Cat LineEnd Eps) c2 Some) end
          = Some (Cursor (reverse value ++ reverse (b :: gap) ++ bf) [] (at_end g bf (b :: gap) value cap))).
  unfold blank. erewrite (run_plus ascii_space bf (b :: gap) value); [reflexivity|done|done|done|]. rewrite Hm. rewrite <-(app_nil_r value) at 1. apply run_star; [done|done|].
  cbn [before after]. done.
Qed.

Lemma word_dashes bf s cap (k : cursor → option cursor) :
  rmatch (word (lit "--")) (Cursor bf (45 :: 45 :: s) cap) k = k (Cursor (45 :: 45 :: bf) s cap).
Proof. reflexivity. Qed.

Lemma match_spelled one f two g line dashes name gap value :
  marks one f → marks two g → spelled line dashes name gap value → Forall (λ c, regex_dot c = true) value →
  ∃ c, rmatch (directivePattern one two) (Cursor [] line None) Some = Some c
       ∧ captured c = at_end g (reverse name ++ reverse dashes) gap value (after_name f dashes name (gap ++ value)).
Proof.
  intros Hone Htwo [-> Hd Hn (h & nm & En & Hh) Hg Hv Ha] Hdot.
  destruct (match_tail two g (reverse name ++ reverse dashes) gap value (after_name f dashes name (gap ++ value)) Htwo Hg Hv Ha Hdot)
    as (c & Hc & Ecap). exists c. split; [|done].
  assert (stops name_char (gap ++ value)) as Hs.
  { destruct gap as [|b gap]; [by rewrite Ha by done|]. simpl. apply Forall_cons in Hg as [Hb _]. by apply blank_not_name. }
  assert (rmatch (cats [one (Plus (Class name_char)); Opt (Cat (Plus blank) (two (Star (Class regex_dot)))); LineEnd])
    (Cursor (reverse dashes) (name ++ gap ++ value) None) Some = Some c) as Hname.
  { cbn [cats foldr]. change (rmatch (Cat (one ?a) ?b) ?c ?k) with (rmatch (one a) c (λ c', rmatch b c' k)).
    rewrite Hone. apply run_plus; [by rewrite En|done|done|]. exact Hc. }
  assert (ascii_space h = false) as Hb by (apply name_not_blank; rewrite En in Hn; by apply Forall_cons in Hn as [? _]).
  unfold directivePattern. cbn [cats foldr]. change (rmatch (Cat LineStart ?b) (Cursor [] ?s ?cap) ?k) with (rmatch b (Cursor [] s cap) k).
  change (rmatch (Cat (Star blank) ?b) ?c ?k) with (rmatch (Star blank) c (λ c', rmatch b c' k)).
  destruct Hd as [->| ->].
  - cbn [app] in *. apply (run_star ascii_space [] []); [done|rewrite En; exact Hb|]. cbn [app reverse]. rewrite En. cbn [app].
    change (rmatch (Cat (Opt ?a) ?b) ?c ?k) with (match rmatch a c (λ c', rmatch b c' k) with Some x => Some x | None => rmatch b c k end).
    replace (rmatch (word (lit "--")) _ _) with (@None cursor).
    + rewrite En in Hname. exact Hname.
    + change (rmatch (word (lit "--")) ?c ?k)
        with (match advance (Z.eqb 45) c with Some c' => rmatch (Cat (Class (Z.eqb 45)) Eps) c' k | None => None end).
      rewrite advance_stop; [done|]. change ((45 =? h) = false). apply Z.eqb_neq. lia.
  - apply (run_star ascii_space [] []); [done|done|].
    change (rmatch (Cat (Opt ?a) ?b) ?c ?k) with (match rmatch a c (λ c', rmatch b c' k) with Some x => Some x | None => rmatch b c k end).
    cbn [app]. rewrite word_dashes. change (45 :: 45 :: reverse [] ++ []) with (reverse [45; 45]).
    cbn [cats foldr] in Hname. by rewrite Hname.
Qed.

Lemma directive_of_spelled line dashes name gap value :
  spelled line dashes name gap value → Forall (λ c, regex_dot c = true) value → directive_of line = Some (name, value).
Proof.
  intros Hs Hd. unfold directive_of, match_line.
  destruct (match_spelled Capture _ id _ line dashes name gap value marks_capture marks_id Hs Hd) as (c1 & -> & E1).
  destruct (match_spelled id _ Capture _ line dashes name gap value marks_id marks_capture Hs Hd) as (c2 & -> & E2).
  cbn [mbind option_bind]. rewrite E1, E2. f_equal. f_equal.
  - unfold at_end, after_name. destruct gap; cbn [captured]; by rewrite between_run.
  - unfold at_end, after_name. destruct gap; cbn [captured default]; [by rewrite (sp_apart _ _ _ _ _ Hs)|].
    rewrite <-(app_nil_r value) at 1. by rewrite between_run.
Qed.
End spelled.

(** ** Lines outside of inline data *)

Section refused.
Context {QT : QtText} {QJ : QtJsonText} {IP : IpcPlatform}.

Lemma star_stop {A} p bf s cap (k : cursor → option A) :
  stops p s → rmatch (Star (Class p)) (Cursor bf s cap) k = k (Cursor bf s cap).
Proof. intros Hs. cbn [rmatch after]. destruct (length s); [done|]. by rewrite advance_stop. Qed.

Lemma no_tag r line :
  stops ascii_space line → stops (Z.eqb 60) line →
  match_line (cats (LineStart :: Star blank :: Class (Z.eqb 60) :: r)) line = None.
Proof.
  intros H1 H2. unfold match_line. cbn [cats foldr].
  change (rmatch (Cat LineStart ?b) (Cursor [] ?s ?cap) ?k) with (rmatch b (Cursor [] s cap) k).
  change (rmatch (Cat (Star blank) ?b) ?c ?k) with (rmatch (Star (Class ascii_space)) c (λ c', rmatch b c' k)).
  rewrite star_stop by done. change (rmatch (Cat (Class ?p) ?b) ?c ?k) with (match advance p c with Some c' => rmatch b c' k | None => None end).
  by rewrite advance_stop.
Qed.

Lemma match_line_same r1 r2 line : (∀ (k : cursor → option cursor) c, rmatch r1 c k = rmatch r2 c k) → match_line r1 line = match_line r2 line.
Proof. intros E. unfold match_line. by rewrite E. Qed.

Lemma openTag_none line : stops ascii_space line → stops (Z.eqb 60) line → openTag line = None.
Proof.
  intros H1 H2. unfold openTag. rewrite (match_line_same openTagPattern
    (cats [LineStart; Star blank; Class (Z.eqb 60); Capture (Plus (Class name_char)); word [62]; Star blank; LineEnd])) by done. by apply no_tag.
Qed.

Lemma closeTag_none line : stops ascii_space line → stops (Z.eqb 60) line → closeTag line = None.
Proof.
  intros H1 H2. unfold closeTag. rewrite (match_line_same closeTagPattern
    (cats [LineStart; Star blank; Class (Z.eqb 60); Class (Z.eqb 47); Capture (Plus (Class name_char)); word [62]; Star blank; LineEnd])) by done.
  by apply no_tag.
Qed.

Lemma spelled_head line dashes name gap value : spelled line dashes name gap value → ∃ c rest, line = c :: rest ∧ name_char c = true.
Proof.
  intros [-> [->| ->] Hn (h & nm & -> & _) _ _ _]; [|by eexists _, _]. apply Forall_cons in Hn as [Hh _]. by eexists _, _.
Qed.

Lemma name_char_plain c : name_char c = true → c ≠ 35 ∧ c ≠ 59 ∧ c ≠ 60.
Proof. unfold name_char, is_digit. intros H. repeat (apply orb_true_iff in H as [H|H]); lia. Qed.

(** A directive among other lines is checked. *)
Lemma directive_line_kept line lines dashes name gap value :
  spelled line dashes name gap value → line ∈ (directive_lines [] (line :: lines)).1.
Proof.
  intros Hs. destruct (spelled_head _ _ _ _ _ Hs) as (c & rest & E & Hc). pose proof (name_char_plain c Hc) as (H1 & H2 & H3).
  cbn [directive_lines]. replace (is_comment line) with false.
  2:{ rewrite E. unfold is_comment. cbn [is_empty starts_with orb].
      by rewrite (proj2 (Z.eqb_neq 35 c)), (proj2 (Z.eqb_neq 59 c)) by lia. }
  assert (stops ascii_space line) as Hb by (rewrite E; by apply name_not_blank).
  assert (stops (Z.eqb 60) line) as Ht. { rewrite E. change ((60 =? c) = false). apply Z.eqb_neq. lia. }
  cbn [is_empty negb]. rewrite openTag_none by done. unfold closes. rewrite closeTag_none by done.
  destruct (directive_lines [] lines). constructor.
Qed.

Lemma join_lines_app acc l1 l2 :
  join_lines acc (l1 ++ l2) =
  ((join_lines acc l1).1 ++ (join_lines (join_lines acc l1).2 l2).1, (join_lines (join_lines acc l1).2 l2).2).
Proof.
  revert acc. induction l1 as [|p l1 IH]; intros acc; cbn [app join_lines]; [cbn [fst snd app]; by destruct (join_lines acc l2)|].
  destruct (Nat.odd _); [apply IH|]. rewrite IH. by destruct (join_lines [] l1).
Qed.

Lemma directive_lines_app active l1 l2 :
  directive_lines active (l1 ++ l2) =
  ((directive_lines active l1).1 ++ (directive_lines (directive_lines active l1).2 l2).1,
   (directive_lines (directive_lines active l1).2 l2).2).
Proof.
  revert active. induction l1 as [|p l1 IH]; intros active; cbn [app directive_lines]; [cbn [fst snd app]; by destruct (directive_lines active l2)|].
  destruct (is_comment p); [apply IH|]. destruct (negb _); [apply IH|]. destruct (openTag p); [apply IH|].
  destruct (closes _ _); [apply IH|]. rewrite IH. by destruct (directive_lines [] l1).
Qed.

(** The lines end neither within a continued line nor within inline data. *)
Definition outside (lines : list text) : Prop :=
  (join_lines [] lines).2 = [] ∧ (directive_lines [] (map trimmed (join_lines [] lines).1)).2 = [].

(** The directives of OpenVPN that run a program, load code, choose another
    configuration, write a file, open a control channel or change the identity
    of the process. *)
Definition privileged : list text := map lit
  ["up"; "down"; "route-up"; "route-pre-down"; "ipchange"; "tls-verify"; "tls-crypt-v2-verify"; "auth-user-pass-verify";
   "client-connect"; "client-disconnect"; "client-crresponse"; "learn-address"; "dns-updown"; "iproute"; "script-security";
   "plugin"; "engine"; "providers"; "pkcs11-providers"; "setenv"; "config"; "cd"; "chroot"; "tmp-dir"; "client-config-dir";
   "log"; "log-append"; "status"; "writepid"; "replay-persist"; "ifconfig-pool-persist"; "tls-export-cert"; "genkey";
   "management"; "management-client-auth"; "management-external-key"; "management-external-cert"; "daemon"; "user"; "group";
   "setcon"; "askpass"; "push"; "server"; "mode"]%string.

Lemma privileged_forbidden name : name ∈ privileged → name ∈ forbiddenDirectives.
Proof.
  assert (forallb (λ x, bool_decide (x ∈ forbiddenDirectives)) privileged = true) as Hall by (vm_compute; reflexivity).
  rewrite forallb_forall in Hall. intros Hx%list_elem_of_In. by apply Hall, bool_decide_eq_true in Hx.
Qed.

(** No spelling of a privileged directive stands outside of inline data: in any
    case, behind any indentation, with the dashes of the command line or
    without them, with any value after any run of blanks or with none; except
    the directives for the trusted resolver script. *)
Definition free_of_privileged (trusted content : text) : Prop :=
  ∀ before line after dashes name gap value,
    split_char 10 (from_utf8 content) = before ++ line :: after → outside before →
    Nat.odd (trailingBackslashes (chop_return line)) = false →
    spelled (trimmed (chop_return line)) dashes name gap value → Forall (λ c, regex_dot c = true) value →
    q_toLower name ∈ privileged → of_trusted_script trusted (q_toLower name) (trimmed value).

Lemma validated_free content trusted :
  validateOpenVpnConfigContent content trusted = Ok () → free_of_privileged trusted content.
Proof.
  intros (_ & _ & _ & _ & H)%validate_passes bf line af dashes name gap value El [Ho1 Ho2] Hodd Hs Hd Hf%privileged_forbidden.
  revert H. rewrite El, join_lines_app, Ho1. cbn [join_lines app]. rewrite Hodd. destruct (join_lines [] af) as [ls rest]. cbn [fst snd].
  rewrite map_app, directive_lines_app, Ho2. cbn [map fst snd]. intros (_ & _ & Hall & _).
  rewrite Forall_forall in Hall. destruct (Hall (trimmed (chop_return line))) as (n & r & E & Hor).
  - apply elem_of_app. right. by eapply directive_line_kept.
  - rewrite (directive_of_spelled _ _ _ _ _ Hs Hd) in E. simplify_eq. by destruct Hor as [[Hh _]|Hh].
Qed.
End refused.

(** ** The device of tun2socks *)

Section device.
Context {A : Type}.

Lemma word_inv s bf t cap (k : cursor → option A) x :
  rmatch (word s) (Cursor bf t cap) k = Some x → ∃ rest bf', t = s ++ rest ∧ k (Cursor bf' rest cap) = Some x.
Proof.
  revert bf t. induction s as [|c s IH]; intros bf t E; [by exists t, bf|].
  change (match advance (Z.eqb c) (Cursor bf t cap) with Some c' => rmatch (word s) c' k | None => None end = Some x) in E.
  unfold advance in E. cbn [after] in E. destruct t as [|d t]; [done|]. destruct (c =? d) eqn:Ec; [|done]. apply Z.eqb_eq in Ec. subst d.
  cbn [before captured] in E. apply IH in E as (rest & bf' & -> & E). by exists rest, bf'.
Qed.

Lemma upto_inv n p bf t cap (k : cursor → option A) x :
  rmatch (upto n (Class p)) (Cursor bf t cap) k = Some x →
  ∃ run rest bf', t = run ++ rest ∧ Forall (λ c, p c = true) run ∧ (1 ≤ length run ≤ S n)%nat ∧ k (Cursor bf' rest cap) = Some x.
Proof.
  revert bf t. induction n as [|n IH]; intros bf t E; cbn [upto rmatch] in E; unfold advance in E; cbn [after] in E;
    (destruct t as [|d t]; [done|]); (destruct (p d) eqn:Ep; [|done]); cbn [before captured] in E.
  - exists [d], t, (d :: bf). split; [done|]. split; [by constructor|]. split; [simpl; lia|done].
  - unfold Opt in E. cbn [rmatch] in E. destruct (rmatch (upto n (Class p)) (Cursor (d :: bf) t cap) k) eqn:Eu.
    + simplify_eq. apply IH in Eu as (run & rest & bf' & -> & Hr & Hl & Hk). exists (d :: run), rest, bf'.
      split; [done|]. split; [by constructor|]. split; [simpl; lia|done].
    + exists [d], t, (d :: bf). split; [done|]. split; [by constructor|]. split; [simpl; lia|done].
Qed.
End device.

(** [tun://] and a name of one to 64 letters, digits and characters of [-.:_]. *)
Definition device_name (device : text) : Prop :=
  ∃ name, device = lit "tun://" ++ name ∧ (1 ≤ length name ≤ 64)%nat
    ∧ Forall (λ c, 48 <= c <= 57 ∨ 65 <= c <= 90 ∨ 97 <= c <= 122 ∨ c ∈ [45; 46; 58; 95]) name.

Lemma device_spelled device :
  10 ∉ device → is_Some (match_line devicePattern device) → device_name device.
Proof.
  intros Hn [x Hx]. unfold match_line in Hx. destruct (rmatch devicePattern _ _) as [c|] eqn:E; [|done].
  unfold devicePattern in E. cbn [cats foldr] in E.
  change (rmatch (word (lit "tun://")) (Cursor [] device None) (λ c', rmatch (upto 63 (Class (λ c, name_char c || (c =? 46) || (c =? 58)))) c'
            (λ c2, rmatch (Cat LineEnd Eps) c2 Some)) = Some c) in E.
  apply word_inv in E as (rest & bf & -> & E). apply upto_inv in E as (run & rest' & bf' & -> & Hr & Hl & E).
  cbn [rmatch] in E. destruct rest' as [|d rest'].
  - exists run. rewrite app_nil_r. split; [done|]. split; [lia|]. eapply Forall_impl; [exact Hr|]. intros c' Hc.
    unfold name_char, is_digit in Hc. rewrite !elem_of_cons. repeat (apply orb_true_iff in Hc as [Hc|Hc]); lia.
  - unfold at_line_end in E. cbn [after] in E. destruct (d =? 10) eqn:Ed; [|done]. apply Z.eqb_eq in Ed. subst d.
    exfalso. apply Hn. rewrite !elem_of_app. right. right. left.
Qed.
