(* ===== verification/PrivilegedProcess.v ===== *)
(** * The privileged process of a client

    Model of ipc/ipcserverprocess.cpp (outside Windows): the object through
    which an authorized client starts one of the permitted programs.  A remote
    call or a notification of the child process is one operation on its state.

    The state of the file system and of the child process is [W]; [launches]
    keeps what every start was given.  [rounds] bounds the reads of a file, the
    interrupted ones included; PrivilegedLaunch shows how many are enough. *)

From S2P Require Import Prelude Text QtInterface JsonText Regex Command LaunchPolicy.
#[local] Open Scope Z_scope.
#[local] Open Scope amnezia_scope.

Definition MaximumBufferedProcessOutput : Z := 4 * 1024 * 1024.
Definition MaximumProcessOutputChunk : Z := 1024 * 1024.
Definition MaximumRemoteProcessWaitMs : Z := 1000.

(** ** Output *)

(** [QByteArray::right]. *)
Definition right_of (n : Z) (s : text) : text := drop (length s - Z.to_nat n) s.

Definition appendBounded (buffer data : text) : text :=
  if is_empty data then buffer
  else if MaximumBufferedProcessOutput <=? tsize data then right_of MaximumBufferedProcessOutput data
  else
    let overflow := tsize buffer + tsize data - MaximumBufferedProcessOutput in
    (if 0 <? overflow then drop (Z.to_nat overflow) buffer else buffer) ++ data.

(** What is taken, and what stays. *)
Definition takeBufferedOutput (buffer : text) : text * text :=
  let size := Z.to_nat (Z.min (tsize buffer) MaximumProcessOutputChunk) in (take size buffer, drop size buffer).

(** ** The host *)

Inductive Channel := StandardOutput | StandardError.

#[export] Instance Channel_eq_dec : EqDecision Channel.
Proof. solve_decision. Defined.

(** A [QFileInfo] of a program. *)
Record Executable := MkExecutable { exe_absolute : bool; exe_isFile : bool; exe_filePath : text; exe_directory : text }.

(** [RInterrupted] is a failure with [errno == EINTR]. *)
Inductive ReadResult := RData (bytes : text) | REnd | RInterrupted | RFailed.

Class LaunchHost (W : Type) := {
  permittedProcessPath : PermittedProcess → text;         (* the paths of Utils *)
  executable_info : text → W → Executable;
  file_info : text → W → FileInfo;
  isAbsolutePath : text → bool;                           (* QDir::isAbsolutePath *)
  encodeName : text → text;                               (* QFile::encodeName *)
  file_open : text → W → option Z * W;                    (* open(2), no symbolic link followed *)
  file_stat : Z → W → option (bool * Z) * W;              (* fstat(2): regular, size *)
  file_read : Z → Z → W → ReadResult * W;                 (* read(2) of at most so many bytes *)
  file_close : Z → W → W;
  temp_open : W → option text * W;                        (* QTemporaryFile, open and fileName *)
  temp_secure : text → W → bool * W;                      (* setPermissions of the owner *)
  temp_write : text → text → W → Z * W;
  temp_flush : text → W → bool * W;
  temp_remove : text → W → W;                             (* setAutoRemove *)
  trustedResolverScript : text;                           (* beside the service *)
  process_start : text → list text → text → W → W;        (* QProcess::start *)
  process_stop : bool → W → W;                            (* terminate, kill *)
  process_close : W → W;
  process_read : Channel → W → list text * W;             (* the chunks before an empty one *)
  process_wait : bool → Z → W → bool * W;                 (* waitForStarted, waitForFinished *)
}.

(** A read returns at most what was asked for, and something; [pending] signals
    may still interrupt one. *)
Class LaunchHostLaws (W : Type) `{LaunchHost W} (pending : W → nat) : Prop := {
  file_read_bounded fd n w s : 0 < n → (file_read fd n w).1 = RData s → 0 < tsize s <= n;
  file_read_signals fd n w :
    (pending (file_read fd n w).2 + match (file_read fd n w).1 with RInterrupted => 1 | _ => 0 end ≤ pending w)%nat;
}.

(** ** The object *)

Inductive ProcessSignal := SErrorOccurred | SReadyReadStandardError | SReadyReadStandardOutput | SReadyRead | SFinished | SStarted.

(** A start: the program, its path, its arguments, its directory and the file
    that was staged for it, with what was written to it. *)
Record Launch := MkLaunch {
  l_program : PermittedProcess; l_path : text; l_arguments : list text; l_directory : text; l_staged : option (text * text);
}.

Record ProcessState (W : Type) := MkProcess {
  m_program : PermittedProcess;
  m_programConfigured : bool;
  m_argumentsConfigured : bool;
  m_configurationRejected : bool;
  m_stagedInput : option (text * text);
  m_standardOutput : text;
  m_standardError : text;
  q_program : text;                                       (* the settings of the QProcess *)
  q_arguments : list text;
  q_directory : text;
  q_inputMode : Z;
  q_channelMode : Z;
  q_readChannel : Channel;
  launches : list Launch;
  signals : list ProcessSignal;
  host : W;
}.
Arguments MkProcess {W}.
Arguments m_program {W}.
Arguments m_programConfigured {W}.
Arguments m_argumentsConfigured {W}.
Arguments m_configurationRejected {W}.
Arguments m_stagedInput {W}.
Arguments m_standardOutput {W}.
Arguments m_standardError {W}.
Arguments q_program {W}.
Arguments q_arguments {W}.
Arguments q_directory {W}.
Arguments q_inputMode {W}.
Arguments q_channelMode {W}.
Arguments q_readChannel {W}.
Arguments launches {W}.
Arguments signals {W}.
Arguments host {W}.

(** ** Reading a file *)

Section reading.
Context {W : Type} {LH : LaunchHost W} (rounds : nat).

Notation io A := (prog W text A).

Definition from_host {A} (f : W → A * W) : io A := λ w, let '(a, w') := f w in (Ok a, w').

(** [while (content.size() <= maximumSize)]; [None] when the rounds were not enough. *)
Fixpoint read_content (n : nat) (descriptor maximumSize : Z) (content : text) : io (option text) :=
  if maximumSize <? tsize content then pure (Some content)
  else
    match n with
    | O => pure None
    | S n' =>
        let remaining := maximumSize + 1 - tsize content in
        let! r := from_host (file_read descriptor (Z.min remaining (64 * 1024))) in
        match r with
        | RFailed => leave (lit "Unable to read privileged process input safely")
        | RInterrupted => read_content n' descriptor maximumSize content
        | REnd => pure (Some content)
        | RData bytes => read_content n' descriptor maximumSize (content ++ bytes)
        end
    end.

(** With the descriptor open; the guard closes it on every path. *)
Definition read_opened (descriptor maximumSize : Z) : io text :=
  let! s := from_host (file_stat descriptor) in
  match s with
  | Some (true, size) =>
      if (size <? 0) || (maximumSize <? size) then leave (lit "Privileged process input is not a bounded regular file")
      else
        let! c := read_content rounds descriptor maximumSize [] in
        match c with
        | Some content => if maximumSize <? tsize content then leave (lit "Privileged process input exceeds the size limit") else pure content
        | None => leave (lit "Unable to read privileged process input safely")
        end
  | _ => leave (lit "Privileged process input is not a bounded regular file")
  end.

Definition closing (descriptor : Z) (m : io text) : io text := λ w,
  let '(r, w') := m w in (r, file_close descriptor w').

Definition readValidatedRegularFile (sourcePath : text) (maximumSize : Z) : io text :=
  if is_empty sourcePath || negb (isAbsolutePath sourcePath) || contains_char 0 sourcePath || (maximumSize <? 0) || (2147483647 <=? maximumSize)
  then leave (lit "Invalid privileged process input path or size limit")
  else
    let nativePath := encodeName sourcePath in
    if contains_char 0 nativePath then leave (lit "Invalid privileged process input path")
    else
      let! d := from_host (file_open nativePath) in
      match d with
      | None => leave (lit "Unable to open privileged process input safely")
      | Some descriptor => closing descriptor (read_opened descriptor maximumSize)
      end.
End reading.

(** ** Staging *)

Section staging.
Context {QT : QtText} {QJ : QtJsonText} {IP : IpcPlatform} {W : Type} {LH : LaunchHost W} (rounds : nat).

Notation io A := (prog W text A).

(** The content of the staged file. *)
Definition staged_content (openVpnConfig : bool) (maximumSize : Z) (content : text) : result text text :=
  if openVpnConfig then
    match validateOpenVpnConfigContent content trustedResolverScript with
    | Err e => Err e
    | Ok _ =>
        let hardened := hardenOpenVpnConfigContent content in
        if maximumSize <? tsize hardened then Err (lit "Hardened OpenVPN configuration exceeds the size limit") else Ok hardened
    end
  else Ok content.

(** [open() && setPermissions() && write() == size && flush()]; a file that is
    not kept is removed. *)
Definition write_temporary (content : text) : io text :=
  let failed := lit "Unable to stage privileged process input safely" in
  let! t := from_host temp_open in
  match t with
  | None => leave failed
  | Some path =>
      let drop_file : io text := let! _ := from_host (λ w, ((), temp_remove path w)) in leave failed in
      let! secured := from_host (temp_secure path) in
      if negb secured then drop_file
      else
        let! written := from_host (temp_write path content) in
        if negb (written =? tsize content) then drop_file
        else
          let! flushed := from_host (temp_flush path) in
          if negb flushed then drop_file else pure path
  end.

(** The staged file and what is in it. *)
Definition stageInputFile (sourcePath : text) (maximumSize : Z) (openVpnConfig : bool) : io (text * text) :=
  let! content := readValidatedRegularFile rounds sourcePath maximumSize in
  let! content := cmd_ret (staged_content openVpnConfig maximumSize content) in
  let! path := write_temporary content in
  pure (path, content).
End staging.

(** ** Operations *)

Section operations.
Context {QT : QtText} {QJ : QtJsonText} {IP : IpcPlatform} {W : Type} {LH : LaunchHost W} (rounds : nat).
Implicit Types s : ProcessState W.

Definition emits (e : list ProcessSignal) s : ProcessState W :=
  MkProcess (m_program s) (m_programConfigured s) (m_argumentsConfigured s) (m_configurationRejected s) (m_stagedInput s)
    (m_standardOutput s) (m_standardError s) (q_program s) (q_arguments s) (q_directory s) (q_inputMode s) (q_channelMode s)
    (q_readChannel s) (launches s) (signals s ++ e) (host s).

Definition with_host (w : W) s : ProcessState W :=
  MkProcess (m_program s) (m_programConfigured s) (m_argumentsConfigured s) (m_configurationRejected s) (m_stagedInput s)
    (m_standardOutput s) (m_standardError s) (q_program s) (q_arguments s) (q_directory s) (q_inputMode s) (q_channelMode s)
    (q_readChannel s) (launches s) (signals s) w.

Definition rejectLaunchSpecification s : ProcessState W :=
  MkProcess (m_program s) (m_programConfigured s) false true (m_stagedInput s) (m_standardOutput s) (m_standardError s)
    (q_program s) [] (q_directory s) (q_inputMode s) (q_channelMode s) (q_readChannel s) (launches s) (signals s) (host s).

Definition start s : ProcessState W :=
  if negb (m_programConfigured s) || negb (m_argumentsConfigured s) || m_configurationRejected s || is_empty (q_program s)
  then emits [SErrorOccurred] s
  else
    MkProcess (m_program s) (m_programConfigured s) (m_argumentsConfigured s) (m_configurationRejected s) (m_stagedInput s)
      (m_standardOutput s) (m_standardError s) (q_program s) (q_arguments s) (q_directory s) (q_inputMode s) (q_channelMode s)
      (q_readChannel s) (launches s ++ [MkLaunch (m_program s) (q_program s) (q_arguments s) (q_directory s) (m_stagedInput s)])
      (signals s) (process_start (q_program s) (q_arguments s) (q_directory s) (host s)).

(** [m_stagedInput.reset()] removes the file. *)
Definition reset_staged s : ProcessState W :=
  let w := match m_stagedInput s with Some (path, _) => temp_remove path (host s) | None => host s end in
  MkProcess (m_program s) (m_programConfigured s) (m_argumentsConfigured s) (m_configurationRejected s) None
    (m_standardOutput s) (m_standardError s) (q_program s) (q_arguments s) (q_directory s) (q_inputMode s) (q_channelMode s)
    (q_readChannel s) (launches s) (signals s) w.

Definition set_arguments (configured : bool) (arguments : list text) s : ProcessState W :=
  MkProcess (m_program s) (m_programConfigured s) configured (m_configurationRejected s) (m_stagedInput s)
    (m_standardOutput s) (m_standardError s) (q_program s) arguments (q_directory s) (q_inputMode s) (q_channelMode s)
    (q_readChannel s) (launches s) (signals s) (host s).

Definition set_staged (staged : text * text) s : ProcessState W :=
  MkProcess (m_program s) (m_programConfigured s) (m_argumentsConfigured s) (m_configurationRejected s) (Some staged)
    (m_standardOutput s) (m_standardError s) (q_program s) (q_arguments s) (q_directory s) (q_inputMode s) (q_channelMode s)
    (q_readChannel s) (launches s) (signals s) (host s).

(** The argument that names a file, and the largest file. *)
Definition staged_index (p : PermittedProcess) : option (nat * Z) :=
  match p with OpenVPN => Some (1%nat, 4 * 1024 * 1024) | CertUtil => Some (4%nat, 16 * 1024 * 1024) | _ => None end.

Definition setArguments (arguments : list text) s : ProcessState W :=
  let s := set_arguments false [] s in
  if negb (m_programConfigured s) || m_configurationRejected s then rejectLaunchSpecification s
  else
    match validateProcessArguments (λ path, file_info path (host s)) (m_program s) arguments with
    | Err _ => rejectLaunchSpecification s
    | Ok arguments =>
        let s := reset_staged s in
        match staged_index (m_program s) with
        | None => set_arguments true arguments s
        | Some (pathIndex, maximumSize) =>
            match stageInputFile rounds (nth pathIndex arguments []) maximumSize (bool_decide (m_program s = OpenVPN)) (host s) with
            | (Err _, w) => rejectLaunchSpecification (with_host w s)
            | (Ok staged, w) => set_arguments true (<[pathIndex := staged.1]> arguments) (set_staged staged (with_host w s))
            end
        end
    end.

Definition set_modes (input channel : Z) s : ProcessState W :=
  MkProcess (m_program s) (m_programConfigured s) (m_argumentsConfigured s) (m_configurationRejected s) (m_stagedInput s)
    (m_standardOutput s) (m_standardError s) (q_program s) (q_arguments s) (q_directory s) input channel
    (q_readChannel s) (launches s) (signals s) (host s).

(** ManagedInputChannel is 0 and ForwardedInputChannel 1. *)
Definition setInputChannelMode (mode : Z) s : ProcessState W :=
  if (mode =? 0) || (mode =? 1) then set_modes mode (q_channelMode s) s else rejectLaunchSpecification s.

(** The modes are 0, SeparateChannels, to 4, ForwardedErrorChannel. *)
Definition setProcessChannelMode (mode : Z) s : ProcessState W :=
  if (mode <? 0) || (4 <? mode) then rejectLaunchSpecification s else set_modes (q_inputMode s) mode s.

(** Ignored outside Windows. *)
Definition setNativeArguments (arguments : text) s : ProcessState W := s.

Definition program_of_id (id : Z) : PermittedProcess :=
  if id =? 1 then OpenVPN else if id =? 2 then Wireguard else if id =? 3 then Tun2Socks else if id =? 4 then CertUtil else Invalid.

(** The object as [setProgram] leaves it before it looks at the program. *)
Definition unconfigured s : ProcessState W :=
  let s := reset_staged s in
  MkProcess Invalid false false false (m_stagedInput s) [] [] [] [] (q_directory s) (q_inputMode s) (q_channelMode s)
    (q_readChannel s) (launches s) (signals s) (host s).

Definition setProgram (programId : Z) s : ProcessState W :=
  let s := unconfigured s in
  if (programId <=? 0) || (5 <=? programId) then rejectLaunchSpecification s
  else
    let program := program_of_id programId in
    if bool_decide (program = Wireguard) then rejectLaunchSpecification s
    else
      let path := permittedProcessPath program in
      let executable := executable_info path (host s) in
      if is_empty path || negb (exe_absolute executable) || negb (exe_isFile executable) then rejectLaunchSpecification s
      else
        MkProcess program true (m_argumentsConfigured s) (m_configurationRejected s) (m_stagedInput s) (m_standardOutput s)
          (m_standardError s) (exe_filePath executable) (q_arguments s) (exe_directory executable) (q_inputMode s) (q_channelMode s)
          (q_readChannel s) (launches s) (signals s) (host s).

Definition setWorkingDirectory (dir : text) s : ProcessState W := if is_empty dir then s else rejectLaunchSpecification s.

(** ** Output *)

Definition set_output (c : Channel) (buffer : text) s : ProcessState W :=
  MkProcess (m_program s) (m_programConfigured s) (m_argumentsConfigured s) (m_configurationRejected s) (m_stagedInput s)
    (if bool_decide (c = StandardError) then m_standardOutput s else buffer)
    (if bool_decide (c = StandardError) then buffer else m_standardError s)
    (q_program s) (q_arguments s) (q_directory s) (q_inputMode s) (q_channelMode s) (q_readChannel s) (launches s) (signals s) (host s).

Definition buffer_of (c : Channel) s : text := if bool_decide (c = StandardError) then m_standardError s else m_standardOutput s.

Definition drainProcessChannel (c : Channel) s : ProcessState W :=
  let '(chunks, w) := process_read c (host s) in
  let s := with_host w (set_output c (foldl appendBounded (buffer_of c s) chunks) s) in
  match chunks with
  | [] => s
  | _ => emits ((if bool_decide (c = StandardError) then [SReadyReadStandardError] else [SReadyReadStandardOutput])
                ++ (if bool_decide (c = q_readChannel s) then [SReadyRead] else [])) s
  end.

Definition drain_both s : ProcessState W := drainProcessChannel StandardError (drainProcessChannel StandardOutput s).

Definition read_buffered (c : Channel) s : text * ProcessState W :=
  let '(taken, rest) := takeBufferedOutput (buffer_of c s) in (taken, set_output c rest s).

Definition close s : ProcessState W := let s := drain_both s in with_host (process_close (host s)) s.

(** The duration that is waited for. *)
Definition wait_time (msecs : option Z) : Z :=
  match msecs with Some m => Z.max 0 (Z.min m MaximumRemoteProcessWaitMs) | None => MaximumRemoteProcessWaitMs end.

Definition waitForStarted (msecs : option Z) s : bool * ProcessState W :=
  let '(b, w) := process_wait false (wait_time msecs) (host s) in (b, with_host w s).
Definition waitForFinished (msecs : option Z) s : bool * ProcessState W :=
  let '(b, w) := process_wait true (wait_time msecs) (host s) in (b, drain_both (with_host w s)).

(** ** Calls and notifications *)

Inductive Remote :=
| RSetProgram (id : Z) | RSetArguments (arguments : list text) | RSetInputChannelMode (mode : Z) | RSetProcessChannelMode (mode : Z)
| RSetNativeArguments (arguments : text) | RSetWorkingDirectory (dir : text) | RStart | RTerminate | RKill | RClose
| RReadAll | RReadAllStandardError | RReadAllStandardOutput | RWaitForStarted (msecs : option Z) | RWaitForFinished (msecs : option Z)
| NStarted | NFinished | NErrorOccurred | NReadyReadStandardError | NReadyReadStandardOutput
| NHost (w : W).                                          (* the world changes by itself *)

Definition serve_remote s (r : Remote) : ProcessState W :=
  match r with
  | RSetProgram id => setProgram id s
  | RSetArguments a => setArguments a s
  | RSetInputChannelMode m => setInputChannelMode m s
  | RSetProcessChannelMode m => setProcessChannelMode m s
  | RSetNativeArguments a => setNativeArguments a s
  | RSetWorkingDirectory d => setWorkingDirectory d s
  | RStart => start s
  | RTerminate => with_host (process_stop false (host s)) s
  | RKill => with_host (process_stop true (host s)) s
  | RClose => close s
  | RReadAll | RReadAllStandardOutput => (read_buffered StandardOutput s).2
  | RReadAllStandardError => (read_buffered StandardError s).2
  | RWaitForStarted m => (waitForStarted m s).2
  | RWaitForFinished m => (waitForFinished m s).2
  | NStarted => emits [SStarted] s
  | NFinished => emits [SFinished] (drain_both s)
  | NErrorOccurred => emits [SErrorOccurred] s
  | NReadyReadStandardError => drainProcessChannel StandardError s
  | NReadyReadStandardOutput => drainProcessChannel StandardOutput s
  | NHost w => with_host w s
  end.

(** A new object. *)
Definition fresh (w : W) : ProcessState W :=
  MkProcess Invalid false false false None [] [] [] [] [] 0 0 StandardOutput [] [] w.

Definition serve_remotes s (l : list Remote) : ProcessState W := foldl serve_remote s l.
End operations.
